(* ===== verification/_CoqProject ===== *)
-Q . S2P
Prelude.v
Double.v
Windows.v
Histogram.v
Controller.v
ControllerSpec.v
BufSize.v
BufMap.v
Probing.v
BufMapSpec.v
BufPool.v
BufShardSpec.v
BufPoolInv.v
BufPoolSpec.v
BufPoolOps.v
BufPoolDestroy.v
BufPoolRun.v
BufTyped.v
EngineBuffers.v
PoolLife.v
Ring.v
RingCq.v
RingSpec.v
RingTheorems.v
RingPoll.v
RingDeliver.v
RingSettle.v
RingEquiv.v
RingDestroy.v
Engine.v
EngineOps.v
EngineLoop.v
EngineInit.v
EngineWp.v
SubmitSpec.v
EngineDemo.v
EngineStats.v
EngineSelect.v
EngineReg.v
EngineInitSpec.v
EngineLife.v
EngineSubmit.v
RingLock.v
Client.v
Copy.v
CopySpec.v
CopySteps.v
CopyRun.v
CopyTheorems.v
CopyTasks.v
HashPipe.v
HashSpec.v
HashRun.v
HashTasks.v
BenchStats.v
BenchStatsSpec.v
CStrings.v
BenchJobs.v
BenchJobsSpec.v
BenchRoundtrip.v
BenchPool.v
BenchLoad.v
BenchLoadSpec.v
BenchLoadRun.v
OpenAddr.v
TreeFormat.v
TreeFormatSpec.v
TreeVisited.v
TreeVisitedSpec.v
TreeNodes.v
TreeNodesSpec.v
TreeOrderSpec.v
TreePrint.v
TreePrintSpec.v
TreeQueue.v
TreeQueueSpec.v
TreeScanSim.v
TreeScanSpec.v
TreeBatch.v
TreeBatchSpec.v
