(* ===== verification/Prelude.v ===== *)
(** * AuraIO: a verification library

    AuraIO ([src/engine]) is an asynchronous I/O library over Linux io_uring,
    with command-line tools beside it ([src/tools]). An
    engine owns several rings; a submission picks a ring, takes a request slot,
    queues an operation and sooner or later flushes the ring; completions are
    drained by polling, run the user's callback and give the slot back. A
    controller per ring tunes how many operations may be in flight, a pool hands
    out I/O buffers through per-thread caches, and files and buffers can be
    registered with the kernel. This library models that engine, and four of the
    tools as its clients (the copier auracp, the digests of aura-hash, the
    benchmark BFFIO and the tree viewer atree), and states what makes each part,
    and their composition, correct.

    ** The parts and where they are modelled

    - Foundations. [Prelude] (machine integers, lists updated by index, errno
      results, record setters, permutation tactics) and [Double] (IEEE binary64
      computed by the Standard Library's [SpecFloat]).
    - The controller, [adaptive_engine.h]/[.c]: [Windows] (the sample windows),
      [Histogram] (tiered buckets, the pair the tick swaps, p99), [Controller]
      (statistics of a tick, the AIMD phases, [adaptive_tick]), [ControllerSpec]
      (its invariants as a transition system).
    - The buffer pool, [adaptive_buffer.h]/[.c]: [BufSize] (size classes, shard
      count), [BufMap] (the hash table from addresses to classes), [BufPool]
      (shards, thread caches, registration, allocation, free, thread exit,
      destruction), with the theory in [Probing], [BufMapSpec], [BufShardSpec],
      [BufPoolInv], [BufPoolSpec], [BufPoolOps], [BufPoolDestroy], [BufPoolRun]
      and [BufTyped]; [PoolLife] is the same pool between threads.
    - The ring, [adaptive_ring.h]/[.c]: [Ring] (slots, submission operations,
      flushing, limits) and [RingCq] (completions, draining, waiting,
      destruction), with [RingSpec], [RingTheorems], [RingPoll], [RingDeliver],
      [RingSettle], [RingEquiv] and [RingDestroy]; [RingLock] is the lock between
      threads.
    - The engine, [aura.c]: [Engine] (state, ring selection, registered files
      and buffers, submit_begin/submit_end/submit_abort), [EngineOps] (the
      submission entry points, registration), [EngineLoop] (flush, poll, wait,
      run, drain, blocking unregistration, settings), [EngineInit] (options,
      rings, eventfd, destruction), [EngineBuffers] (managed buffers),
      [EngineLife] (the stages of creation and the labels a failing one falls
      through to, the tick thread), [EngineStats]
      (statistics, percentiles, request introspection). [EngineWp] is the
      program logic the proofs use, [SubmitSpec] the protocol of one ring,
      [EngineDemo] a concrete engine for the witnesses; [EngineSelect],
      [EngineReg], [EngineInitSpec] and [EngineSubmit] hold the theorems.
    - [Client]: what the copier and aura-hash see of the engine and of the
      operating system, with the lemmas on files and lists they share.
    - The copier, [auracp.c]: [Copy] (the pipeline of slots of one copy, its
      completion callbacks, short reads and writes, the end of file),
      [CopySpec], [CopySteps] and [CopyRun] (its invariant and its run),
      [CopyTheorems], and [CopyTasks] (the queue of files over one pipeline).
    - The digests, [aura-hash.c]: [HashPipe] (the slots, the reads that complete
      out of order and are fed to the digest in order), [HashSpec] (the invariant:
      the slots of a file are consecutive pieces of it), [HashRun] (the loops, what
      is printed, termination) and [HashTasks] (the list of files and its
      distribution over the workers).
    - The benchmark, [BFFIO]: [BenchStats] ([stats.c]: latency recorders and the
      aggregation of the threads), [CStrings] (the C library functions a parser
      calls) and [BenchJobs] ([job_parser.c]: job files, command line,
      validation) with [BenchRoundtrip], [BenchPool] and [BenchLoad]
      ([workload.c]: the lock-free buffer pool, the offsets, the worker thread),
      with [BenchStatsSpec], [BenchJobsSpec], [BenchLoadSpec], [BenchLoadRun].
    - The tree viewer, [atree.c]: [TreeFormat] (numbers, modes, dates, the caches
      of names, LS_COLORS), [TreeVisited] (the concurrent set of visited
      directories, over the probing of [OpenAddr]), [TreeNodes] (nodes in a heap:
      creation, release, sums, sorting), [TreePrint] (the line of a node, the
      traversal), [TreeQueue] (the work queue and the workers that share it) and
      [TreeBatch] (the asynchronous scan of a batch of directories), with
      [TreeFormatSpec], [TreeVisitedSpec], [TreeNodesSpec], [TreeOrderSpec],
      [TreePrintSpec], [TreeQueueSpec], [TreeScanSim], [TreeScanSpec] and
      [TreeBatchSpec].

    ** How state and operations correspond to the code

    A C structure is a record with the fields the code reads, a pointer into an
    array of structures is an index, [NULL] is [None] (0 for buffer addresses),
    and an integer keeps its C width: [i32], [i64], [u32], [u64] write out the
    wrap-around where the code can reach it. An operation is a function on the
    state; one that can fail returns a [result] with the errno. Engine operations
    live in the monad [Engine.M], whose [None] means "does not return" (a spin
    that nobody ends, or a loop longer than its fuel). liburing, the kernel, the
    operating system and the user's callbacks are the classes [Liburing],
    [LiburingReg], [EngineOs] and [UserCallbacks]; what a theorem needs of them is
    a class of laws ([LiburingCq], [LiburingBounded], ...) or a hypothesis, and
    every such theorem has a witness on a concrete instance. A tool sees the
    engine from outside: accepted requests are a list from which a poll takes
    some, in any order, each once; files are lists of bytes and the clock, the
    file system and allocation are the classes [ClientEnv], [TaskEnv], [JobEnv] and
    [LoadEnv], [Evp] for OpenSSL's digests, and for atree the classes [TreeEnv], [QueueEnv] and [BatchEnv]. The loops of [RingCq]
    are written over any state that contains a ring ([RingState]), because
    callbacks run inside them; the engine is one instance ([Engine.at_ring]).

    ** What the theorems show

    - Controller: the limit and the threshold stay in range in every reachable
      state and phases change only along the documented graph; the tick measures
      its own period; backing off is multiplicative; CONVERGED is unreachable.
    - Buffers: a shard is sixteen stacks, the size map a finite map; no buffer is
      lost, duplicated or handed out twice over any history of pools; every
      buffer stays in the size class it was allocated for, so what
      [aura_buffer_alloc] returns is large enough; destruction returns and frees
      everything; between threads it never overlaps a slow path, unless the
      store of [destroyed] is delayed in a store buffer.
    - Ring: slots are conserved; a poll empties the queue, delivers each pending
      request once and in order, and settles the counters; duplicates are
      ignored; the lock-free and the batched drain compute the same state;
      destruction ends; the lock excludes under three assumptions, each needed.
    - Engine: every mode selects a ring of the engine; a failed submission leaves
      nothing behind and a successful one holds exactly one slot; registration is
      all or nothing and its two tables follow a state machine that waits for
      operations in flight; an operation on a registered buffer stays inside it;
      creation is all or nothing, a failed one leaving every ring destroyed and
      the eventfd closed, and establishes the hypotheses of the rest;
      the statistics add up.
    - Tools: a copy that reports success has copied every byte, whatever the
      order and size of the completions, it ends, and the pipeline is conserved;
      a thread's recorder counts every sample of a run alone and the aggregate
      of the threads is the recorder of the union of their samples; a parsed job
      file is well typed, prints back to itself, and keeps no dangling pointer;
      the pool's slots belong to one owner while one thread pops; every request
      of a worker lies in its file when the files hold a block, and a worker
      returns with nothing in flight unless it lost an update of its counter to
      a completion that another worker ran;
      the lines aura-hash prints are the digests of whole files, each file once,
      and its pipeline ends when no read fails;
      the parallel scan of atree ends, loses no directory and scans none twice, a
      batch computes what doing one thing after the other computes, the set of
      visited directories is a set, the sums, the order and the lines printed are
      those of a recursive reference, and every line fits into its buffer.

    ** Bounds and fuel

    Loops over a fixed count recurse on it. Draining loops take fuel: a poll needs
    more fuel than the queue holds ([ring_poll_drains]), destruction makes at most
    a hundred drains of a queue of bounded size ([ring_destroy_terminates]); the
    walk of a pool's caches is bounded by the number of caches ever made
    ([destroy_returns]); probing a table is bounded by its capacity, and the
    rehash, unbounded in C, is shown to end within it; flushing a cache class
    pops at every iteration. [calculate_shard_count] doubles at most eight times.
    A copy needs three rounds of its loop per byte, a digest two; parsing a job file, as many
    lines as it has characters; a worker, as many rounds as it sees its [running]
    flag set, in each the submissions of one turn, and then its depth; recording
    one sample alone, twelve accesses. The
    traversals of a tree need as many rounds as the tree has nodes, the drains of
    a batch as many as it has requests, and a scan takes a bounded number of steps
    for every directory and worker ([scan_ends]).

    ** Assumptions, and what is not modelled

    Except in [RingLock], [PoolLife] and parts of the tools ([BenchStats],
    [BenchPool], [TreeVisited], [TreeQueue]) one operation runs at a time: the
    interleavings that matter are those of the two lock protocols, modelled there
    step by step with sequentially consistent accesses and, for the stores whose
    ordering the code leaves open, a store buffer. In [BenchLoad] the other workers
    act at fixed points of one worker's run, the load and the store of its counter
    among them. Elsewhere, counters that other threads update between the
    statements of a function are not interleaved. The C
    library's threads, mutexes and [errno] overwritten by cleanup calls are taken
    as succeeding or as parameters. Logging ([log.c]) has no effect on the engine
    and is left out, like the annotations for thread sanitizers. Of the four
    tools, progress displays, messages on stderr, umasks and timestamps are left
    out, and so are their main functions with getopt. The other tools (the
    statistics viewer, the C++ copier) and the C++ header, the Rust bindings,
    the integrations, the examples and the tests are clients of the engine and
    are not modelled. *)
From Stdlib Require Import ZArith Lia List.
From stdpp Require Import base tactics numbers list gmap sorting.

#[local] Open Scope Z_scope.

(** ** Machine integers *)

(** Two's-complement wrap-around of an unsigned [w]-bit counter. *)
Definition wrap_u (w : Z) (x : Z) : Z := x mod 2 ^ w.

(** Two's-complement wrap-around of a signed [w]-bit integer. *)
Definition wrap_s (w : Z) (x : Z) : Z :=
  (x + 2 ^ (w - 1)) mod 2 ^ w - 2 ^ (w - 1).

Definition u8 (x : Z) : Z := wrap_u 8 x.
Definition u32 (x : Z) : Z := wrap_u 32 x.
Definition u64 (x : Z) : Z := wrap_u 64 x.
Definition i32 (x : Z) : Z := wrap_s 32 x.
Definition i64 (x : Z) : Z := wrap_s 64 x.

Definition INT_MAX : Z := 2147483647.
Definition INT_MIN : Z := -2147483648.
Definition UINT_MAX : Z := 4294967295.
Definition INT64_MAX : Z := 9223372036854775807.
Definition SIZE_MAX : Z := 18446744073709551615.

Lemma wrap_u_range w x : 0 <= w -> 0 <= wrap_u w x < 2 ^ w.
Proof. intros. unfold wrap_u. apply Z.mod_pos_bound. lia. Qed.

Lemma wrap_u_id w x : 0 <= x < 2 ^ w -> wrap_u w x = x.
Proof. intros. unfold wrap_u. apply Z.mod_small. lia. Qed.

Lemma wrap_s_id w x : 0 < w -> - 2 ^ (w - 1) <= x < 2 ^ (w - 1) -> wrap_s w x = x.
Proof.
  intros Hw Hx. unfold wrap_s.
  assert (2 ^ w = 2 * 2 ^ (w - 1)) as E.
  { replace w with (Z.succ (w - 1)) at 1 by lia. apply Z.pow_succ_r. lia. }
  rewrite Z.mod_small; lia.
Qed.

Lemma wrap_s_range w x : 0 < w -> - 2 ^ (w - 1) <= wrap_s w x < 2 ^ (w - 1).
Proof.
  intros Hw. unfold wrap_s.
  assert (2 ^ w = 2 * 2 ^ (w - 1)) as E.
  { replace w with (Z.succ (w - 1)) at 1 by lia. apply Z.pow_succ_r. lia. }
  pose proof (Z.mod_pos_bound (x + 2 ^ (w - 1)) (2 ^ w)). lia.
Qed.

Lemma i32_id x : INT_MIN <= x <= INT_MAX -> i32 x = x.
Proof. intros. apply wrap_s_id; unfold INT_MIN, INT_MAX in *; lia. Qed.

Lemma i32_range x : INT_MIN <= i32 x <= INT_MAX.
Proof. pose proof (wrap_s_range 32 x). unfold i32, INT_MIN, INT_MAX in *; lia. Qed.

Lemma i32_sub x y : i32 (i32 x - y) = i32 (x - y).
Proof.
  unfold i32, wrap_s. change (2 ^ (32 - 1)) with 2147483648. change (2 ^ 32) with 4294967296.
  f_equal. rewrite (Z.mod_eq (x + 2147483648)) by lia.
  rewrite <- (Z.mod_add (x - y + 2147483648) (- ((x + 2147483648) / 4294967296))) by lia.
  f_equal. lia.
Qed.

Lemma i64_id x : - 2 ^ 63 <= x < 2 ^ 63 -> i64 x = x.
Proof. intros. apply wrap_s_id; lia. Qed.

Lemma u32_id x : 0 <= x <= UINT_MAX -> u32 x = x.
Proof. intros. apply wrap_u_id. unfold UINT_MAX in *; lia. Qed.

Lemma u64_id x : 0 <= x <= SIZE_MAX -> u64 x = x.
Proof. intros. apply wrap_u_id. unfold SIZE_MAX in *; lia. Qed.

Lemma u32_range x : 0 <= u32 x <= UINT_MAX.
Proof. pose proof (wrap_u_range 32 x). unfold u32, UINT_MAX in *; lia. Qed.

Lemma u64_range x : 0 <= u64 x <= SIZE_MAX.
Proof. pose proof (wrap_u_range 64 x). unfold u64, SIZE_MAX in *; lia. Qed.

Lemma u64_add_l x y : u64 (u64 x + y) = u64 (x + y).
Proof. unfold u64, wrap_u. apply Zplus_mod_idemp_l. Qed.

Lemma u64_add_r x y : u64 (x + u64 y) = u64 (x + y).
Proof. unfold u64, wrap_u. apply Zplus_mod_idemp_r. Qed.

(** ** Error codes *)

(** The [errno] values the engine stores itself; [ESYS] carries a code that
    the kernel or libc returned, and [ENONE] is a failure that leaves [errno]
    alone. *)
Inductive errno :=
  | ENONE
  | EINVAL | ENOMEM | EBUSY | EAGAIN | EINTR | EALREADY | ENOENT | ENXIO
  | EOVERFLOW | ESHUTDOWN | ETIMEDOUT | EIO | ENOSYS | ESYS (code : Z).

#[export] Instance errno_eq_dec : EqDecision errno.
Proof. solve_decision. Defined.

(** The outcome of a call that reports failure through [errno]. *)
Inductive result (A : Type) :=
  | Ok (a : A)
  | Err (e : errno).
Arguments Ok {A} a.
Arguments Err {A} e.

(** ** Arrays *)

(** C arrays are lists; [l.[i]] reads cell [i], with a default outside the
    bounds (every in-bounds use is proved in bounds by the invariants). *)
Definition aget {A} (d : A) (l : list A) (i : Z) : A :=
  if i <? 0 then d else nth (Z.to_nat i) l d.

Definition aset {A} (l : list A) (i : Z) (x : A) : list A :=
  if i <? 0 then l else <[Z.to_nat i := x]> l.

Definition zlen {A} (l : list A) : Z := Z.of_nat (length l).

Lemma zlen_nil {A} : zlen (@nil A) = 0.
Proof. done. Qed.

Lemma zlen_cons {A} (x : A) l : zlen (x :: l) = zlen l + 1.
Proof. unfold zlen. cbn [length]. lia. Qed.

Lemma zlen_app {A} (l k : list A) : zlen (l ++ k) = zlen l + zlen k.
Proof. unfold zlen. rewrite length_app. lia. Qed.

Lemma zlen_nonneg {A} (l : list A) : 0 <= zlen l.
Proof. unfold zlen. lia. Qed.

Lemma length_aset {A} (l : list A) i x : length (aset l i x) = length l.
Proof. unfold aset. destruct (i <? 0); [done|]. apply length_insert. Qed.

Lemma zlen_aset {A} (l : list A) i x : zlen (aset l i x) = zlen l.
Proof. unfold zlen. by rewrite length_aset. Qed.

Lemma aget_aset_eq {A} (d : A) l i x : 0 <= i < zlen l -> aget d (aset l i x) i = x.
Proof.
  unfold aget, aset, zlen. intros H. destruct (Z.ltb_spec i 0); [lia|].
  apply nth_lookup_Some, list_lookup_insert_eq. lia.
Qed.

Lemma aget_aset_ne {A} (d : A) l i j x : i <> j -> aget d (aset l i x) j = aget d l j.
Proof.
  unfold aget, aset. intros H.
  destruct (Z.ltb_spec j 0); [done|]. destruct (Z.ltb_spec i 0); [done|].
  rewrite !nth_lookup, list_lookup_insert_ne; [done|lia].
Qed.

Lemma aget_aset_cases {A} (d : A) l i x j : aget d (aset l i x) j = x \/ aget d (aset l i x) j = aget d l j.
Proof.
  destruct (decide (i = j)) as [<-|Hne]; [|right; by apply aget_aset_ne].
  destruct (decide (0 <= i < zlen l)) as [Hi|Hi]; [left; by apply aget_aset_eq|right].
  unfold aget, aset. destruct (Z.ltb_spec i 0); [done|].
  rewrite list_insert_ge; [done|unfold zlen in Hi; lia].
Qed.

Lemma aget_replicate {A} (d : A) n i : aget d (replicate n d) i = d.
Proof.
  unfold aget. destruct (i <? 0); [done|].
  rewrite nth_lookup. destruct (replicate n d !! Z.to_nat i) eqn:E; [|done].
  apply lookup_replicate in E as [-> _]. done.
Qed.

Lemma aget_ext {A} (d : A) l l' :
  length l = length l' -> (forall i, 0 <= i < zlen l -> aget d l i = aget d l' i) -> l = l'.
Proof.
  intros Hlen H. apply (nth_ext _ _ d d Hlen). intros n Hn.
  specialize (H (Z.of_nat n)). unfold aget, zlen in H.
  destruct (Z.ltb_spec (Z.of_nat n) 0); [lia|]. rewrite Nat2Z.id in H. apply H. lia.
Qed.

Lemma elem_of_flat_map {A B} (f : A -> list B) l y : y ∈ flat_map f l <-> exists x, x ∈ l /\ y ∈ f x.
Proof. rewrite !list_elem_of_In, in_flat_map. by setoid_rewrite <- list_elem_of_In. Qed.

(** The sum of a list of counters. *)
Fixpoint zsum (l : list Z) : Z :=
  match l with [] => 0 | x :: l => x + zsum l end.

Lemma zsum_app l k : zsum (l ++ k) = zsum l + zsum k.
Proof. induction l; cbn; lia. Qed.

Lemma zsum_replicate_0 n : zsum (replicate n 0) = 0.
Proof. induction n; cbn; lia. Qed.

Lemma zsum_nonneg l : Forall (fun x => 0 <= x) l -> 0 <= zsum l.
Proof. induction 1; cbn; lia. Qed.

Lemma zsum_insert l (n : nat) x :
  (n < length l)%nat -> zsum (<[n := x]> l) = zsum l - nth n l 0 + x.
Proof.
  revert n. induction l as [|y l IH]; intros [|n] Hn; simpl in *; try lia.
  rewrite (IH n) by lia. lia.
Qed.

Lemma zsum_aset l i x : 0 <= i < zlen l -> zsum (aset l i x) = zsum l - aget 0 l i + x.
Proof.
  unfold aset, aget, zlen. intros H. destruct (Z.ltb_spec i 0); [lia|].
  apply zsum_insert. lia.
Qed.

(** A bounded universal statement over [0..n-1], decided by evaluation. *)
Fixpoint all_below (n : nat) (z : Z) (f : Z -> bool) : bool :=
  match n with O => true | S n => f z && all_below n (z + 1) f end.

Lemma all_below_spec n z f :
  all_below n z f = true -> forall i, z <= i < z + Z.of_nat n -> f i = true.
Proof.
  revert z. induction n as [|n IH]; intros z H i Hi; [lia|]. cbn in H.
  apply andb_true_iff in H as [H1 H2].
  destruct (decide (i = z)) as [->|]; [done|]. apply (IH (z + 1)); [done|lia].
Qed.

(** The sum of the cells from [i] on. *)
Definition zsum_from (l : list Z) (i : Z) : Z := zsum (drop (Z.to_nat i) l).

Lemma zsum_from_0 l : zsum_from l 0 = zsum l.
Proof. done. Qed.

Lemma zsum_from_end l i : zlen l <= i -> zsum_from l i = 0.
Proof. unfold zsum_from, zlen. intros. rewrite drop_ge; [done|lia]. Qed.

Lemma zsum_from_step l i :
  0 <= i < zlen l -> zsum_from l i = aget 0 l i + zsum_from l (i + 1).
Proof.
  unfold zsum_from, zlen, aget. intros H. destruct (Z.ltb_spec i 0); [lia|].
  replace (Z.to_nat (i + 1)) with (S (Z.to_nat i)) by lia.
  destruct (lookup_lt_is_Some_2 l (Z.to_nat i)) as [x Hx]; [lia|].
  rewrite (drop_S _ _ _ Hx). cbn. by rewrite (nth_lookup_Some _ _ _ _ Hx).
Qed.

(** ** Tactics *)

(** Case analysis on the integer comparisons of the goal. *)
Ltac zcase :=
  match goal with
  | |- context [?a <=? ?b] => destruct (Z.leb_spec a b)
  | |- context [?a <? ?b] => destruct (Z.ltb_spec a b)
  | |- context [?a =? ?b] => destruct (Z.eqb_spec a b)
  end.

(** Linear arithmetic with division and remainder. *)
Ltac dlia := Z.to_euclidean_division_equations; lia.

Lemma foldl_pointwise {A B} (f g : A -> B -> A) l a :
  (forall a b, f a b = g a b) -> foldl f a l = foldl g a l.
Proof.
  intros H. revert a. induction l as [|b l IH]; intros a; cbn [foldl]; [done|]. by rewrite H, IH.
Qed.

(** Permutations of lists of integers, by counting the occurrences. *)
Lemma count_occ_cons_app (x y : Z) l :
  count_occ Z.eq_dec (y :: l) x = (count_occ Z.eq_dec [y] x + count_occ Z.eq_dec l x)%nat.
Proof. apply (count_occ_app Z.eq_dec [y] l). Qed.

Lemma count_occ_reverse (x : Z) l : count_occ Z.eq_dec (reverse l) x = count_occ Z.eq_dec l x.
Proof. apply (Permutation_count_occ Z.eq_dec). apply reverse_Permutation. Qed.

Ltac perm_lia :=
  lazymatch goal with |- Permutation _ _ => idtac end;
  apply (Permutation_count_occ Z.eq_dec);
  let x := fresh "x" in intros x;
  repeat match goal with
  | H : Permutation _ _ |- _ => pose proof (proj1 (Permutation_count_occ Z.eq_dec _ _) H x); clear H
  end;
  repeat match goal with
  | |- context [count_occ _ (_ ++ _) x] => rewrite count_occ_app
  | H : context [count_occ _ (_ ++ _) x] |- _ => rewrite count_occ_app in H
  | |- context [count_occ _ (?y :: ?l) x] =>
      lazymatch l with [] => fail | _ => rewrite (count_occ_cons_app x y l) end
  | H : context [count_occ _ (?y :: ?l) x] |- _ =>
      lazymatch l with [] => fail | _ => rewrite (count_occ_cons_app x y l) in H end
  end;
  rewrite ?count_occ_reverse, ?count_occ_nil in *;
  lia.

(** ** Record update

    [r <| f := v |>] is [r] with field [f] set to [v]. Each record gives its
    eta-expansion once and one [Setter] instance per field. *)
Class Setter {R T : Type} (proj : R -> T) := set_field : T -> R -> R.
#[global] Arguments set_field {R T} proj {Setter} v r : rename.

Notation "r <| f := v |>" := (set_field f v r)
  (at level 1, left associativity, f at level 0, v at level 99, format "r <| f  :=  v |>").

Ltac mk_setter eta :=
  match goal with
  | |- @Setter ?R ?T ?proj =>
      let v := fresh "v" in let r := fresh "r" in
      intros v r;
      let e := eval hnf in (eta r) in
      match e with context C [proj r] => let t := context C [v] in exact t end
  end.
