(* ===== verification/Double.v ===== *)
(** * IEEE-754 binary64 arithmetic

    The engine's [double]s, executed by the Standard Library's [SpecFloat]
    (53-bit mantissa, round to nearest even), the casts the C code uses, and
    the few facts about them that the controller's proofs need. *)
From Stdlib Require Import ZArith Lia SpecFloat.
From stdpp Require Import base tactics.
From S2P Require Import Prelude.

#[local] Open Scope Z_scope.

Abbreviation double := spec_float.

Definition d_add (x y : double) : double := SFadd 53 1024 x y.
Definition d_sub (x y : double) : double := SFsub 53 1024 x y.
Definition d_mul (x y : double) : double := SFmul 53 1024 x y.
Definition d_div (x y : double) : double := SFdiv 53 1024 x y.
Definition d_abs (x : double) : double := SFabs x.

(** C comparisons: all are false when an operand is NaN. *)
Definition d_lt (x y : double) : bool := SFltb x y.
Definition d_le (x y : double) : bool := SFleb x y.
Definition d_gt (x y : double) : bool := SFltb y x.
Definition d_ge (x y : double) : bool := SFleb y x.

Definition d_isnan (x : double) : bool :=
  match x with S754_nan => true | _ => false end.

Definition d_nan : double := S754_nan.
Definition d_zero : double := S754_zero false.

(** [(double)z] for an integer [z]. *)
Definition d_of_Z (z : Z) : double := binary_normalize 53 1024 z 0 false.

(** The decimal literal [n/m] with [n] and [m] exactly representable. *)
Definition d_lit (n m : Z) : double := d_div (d_of_Z n) (d_of_Z m).

(** [floor(x)] of a finite [x], as an integer; [(int)floor(x)] is this value
    when it fits an [int]. *)
Definition d_floor (x : double) : Z :=
  match x with
  | S754_finite s m e => Z.shiftl (cond_Zopp s (Zpos m)) e
  | _ => 0
  end.

(** The C cast of a double to an unsigned integer truncates towards zero. *)
Definition d_trunc (x : double) : Z :=
  match x with
  | S754_finite s m e => cond_Zopp s (Z.shiftl (Zpos m) e)
  | _ => 0
  end.

#[global] Arguments d_add : simpl never.
#[global] Arguments d_sub : simpl never.
#[global] Arguments d_mul : simpl never.
#[global] Arguments d_div : simpl never.
#[global] Arguments d_abs : simpl never.
#[global] Arguments d_lt : simpl never.
#[global] Arguments d_gt : simpl never.
#[global] Arguments d_ge : simpl never.
#[global] Arguments d_le : simpl never.
#[global] Arguments d_of_Z : simpl never.
#[global] Arguments d_lit : simpl never.
#[global] Arguments d_floor : simpl never.
#[global] Arguments d_isnan : simpl never.

(** ** Comparisons *)

Lemma d_lt_irrefl x : d_lt x x = false.
Proof.
  unfold d_lt, SFltb. destruct x as [s|s| |s m e]; cbn; try done; destruct s; cbn; try done;
    rewrite Z.compare_refl, Pos.compare_cont_refl; done.
Qed.

Lemma d_lt_nan_l y : d_lt d_nan y = false.
Proof. done. Qed.

Lemma d_ge_nan_l y : d_ge d_nan y = false.
Proof. destruct y as [?|[]| |? ? ?]; done. Qed.

Lemma d_gt_nan_l y : d_gt d_nan y = false.
Proof. destruct y as [?|[]| |? ? ?]; done. Qed.

(** Finite values are ordered by sign, then exponent, then mantissa. *)
Lemma d_lt_spec x y :
  d_lt x y = true <->
  match x, y with
  | S754_nan, _ | _, S754_nan => False
  | S754_infinity sx, S754_infinity sy => sx = true /\ sy = false
  | S754_infinity sx, _ => sx = true
  | _, S754_infinity sy => sy = false
  | S754_zero _, S754_zero _ => False
  | S754_zero _, S754_finite sy _ _ => sy = false
  | S754_finite sx _ _, S754_zero _ => sx = true
  | S754_finite sx mx ex, S754_finite sy my ey =>
      match sx, sy with
      | true, false => True
      | false, true => False
      | false, false => ex < ey \/ ex = ey /\ (mx < my)%positive
      | true, true => ey < ex \/ ey = ex /\ (my < mx)%positive
      end
  end.
Proof.
  unfold d_lt, SFltb, SFcompare.
  destruct x as [sx|sx| |sx mx ex], y as [sy|sy| |sy my ey]; try destruct sx; try destruct sy;
    try (split; intros; intuition congruence).
  all: destruct (Z.compare_spec ex ey) as [->|?|?];
    try (split; intros; first [done | lia | right; lia | left; lia]).
  all: change (Pos.compare_cont Eq mx my) with (Pos.compare mx my);
    destruct (Pos.compare_spec mx my); cbn; split; intros; first [done | lia | right; lia].
Qed.

Lemma d_lt_trans x y z : d_lt x y = true -> d_lt y z = true -> d_lt x z = true.
Proof.
  rewrite !d_lt_spec.
  destruct x as [[]|[]| |[] ? ?], y as [[]|[]| |[] ? ?], z as [[]|[]| |[] ? ?];
    intros; destruct_and?; first [done | congruence | lia].
Qed.

(** A number lies on one side of every gap. *)
Lemma d_lt_split x y z : d_lt x z = true -> d_isnan y = false -> d_lt x y = true \/ d_lt y z = true.
Proof.
  intros H Hy. rewrite !d_lt_spec in *.
  destruct x as [[]|[]| |[] ? ?], y as [[]|[]| |[] ? ?], z as [[]|[]| |[] ? ?];
    try done; intuition (try congruence); lia.
Qed.

Lemma d_lt_number x y : d_lt x y = true -> d_isnan y = false.
Proof. destruct y; try done. destruct x as [[]|[]| |[] ? ?]; done. Qed.
