(* ===== verification/Windows.v ===== *)
(** * The sample windows of the controller

    [window_add] and [window_min] of [adaptive_engine.c]: a circular buffer
    refines "the last [size] values", and the minimum over its cells is the
    minimum of those values. *)
From Stdlib Require Import ZArith Lia List.
From stdpp Require Import base tactics list numbers.
From S2P Require Import Prelude Double.

#[local] Open Scope Z_scope.

Definition window_add (window : list double) (head count max_size : Z) (value : double)
  : list double * Z * Z :=
  let window := aset window head value in
  let head := Z.rem (head + 1) max_size in
  let count := if count <? max_size then count + 1 else count in
  (window, head, count).

(** The loop [for (i = 1; i < count; i++)], [n] iterations from index [i]. *)
Fixpoint window_min_loop (window : list double) (i : Z) (n : nat) (min_val : double) : double :=
  match n with
  | O => min_val
  | S n =>
      let x := aget d_zero window i in
      window_min_loop window (i + 1) n (if d_lt x min_val then x else min_val)
  end.

Definition window_min (window : list double) (count : Z) : double :=
  if count =? 0 then d_zero
  else window_min_loop window 1 (Z.to_nat (count - 1)) (aget d_zero window 0).

(** ** Specification vocabulary *)

(** The bounds the three fields keep from a reset on. *)
Definition window_ok (w : list double) (head count size : Z) : Prop :=
  zlen w = size /\ 0 <= head < size /\ 0 <= count <= size /\ (count < size -> head = count).

(** The values the window holds, newest first. *)
Definition window_view (w : list double) (head count size : Z) : list double :=
  (fun k => aget d_zero w ((head - 1 - k) mod size)) <$> seqZ 0 count.

(** Pushing a list of values into an empty window, oldest first. *)
Definition window_run (size : Z) (vs : list double) : list double * Z * Z :=
  fold_left (fun '(w, h, c) v => window_add w h c size v) vs
    (replicate (Z.to_nat size) d_zero, 0, 0).

(** ** The circular buffer *)

Section Window.
Context (size : Z) (Hsize : 0 < size).

Lemma window_add_ok w head count v :
  window_ok w head count size ->
  let '(w', h', c') := window_add w head count size v in window_ok w' h' c' size.
Proof using Hsize.
  intros (Hl & Hh & Hc & He). unfold window_add, window_ok.
  rewrite zlen_aset, Z.rem_mod_nonneg by lia. zcase; [|assert (count = size) as -> by lia];
    destruct (decide (head + 1 = size)) as [E|E];
    try (rewrite E, Z_mod_same_full; lia); rewrite Z.mod_small by lia; lia.
Qed.

Lemma window_view_lookup w head count (i : nat) :
  Z.of_nat i < count ->
  window_view w head count size !! i = Some (aget d_zero w ((head - 1 - Z.of_nat i) mod size)).
Proof using.
  intros Hi. unfold window_view. rewrite list_lookup_fmap, lookup_seqZ_lt by lia. done.
Qed.

Lemma window_view_length w head count : length (window_view w head count size) = Z.to_nat count.
Proof using. unfold window_view. by rewrite length_fmap, length_seqZ. Qed.

Lemma window_add_view w head count v :
  window_ok w head count size ->
  let '(w', h', c') := window_add w head count size v in
  window_view w' h' c' size = take (Z.to_nat size) (v :: window_view w head count size).
Proof using Hsize.
  intros (Hl & Hh & Hc & He). unfold window_add. rewrite Z.rem_mod_nonneg by lia.
  set (c' := if count <? size then count + 1 else count).
  assert (c' = Z.min (count + 1) size) as Ec by (subst c'; zcase; lia).
  apply list_eq_same_length with (n := Z.to_nat c');
    [rewrite length_take; cbn; rewrite window_view_length; lia|apply window_view_length|].
  intros i x y Hi. rewrite window_view_lookup by lia. rewrite lookup_take_lt by lia.
  replace ((((head + 1) mod size) - 1 - Z.of_nat i) mod size) with ((head - Z.of_nat i) mod size);
    cycle 1.
  { rewrite <- Z.sub_add_distr, Zminus_mod_idemp_l. f_equal. lia. }
  destruct i as [|i].
  - rewrite Z.sub_0_r, Z.mod_small, aget_aset_eq by lia. cbn. congruence.
  - assert (head <> (head - Z.of_nat (S i)) mod size) as Hne.
    { destruct (decide (head < Z.of_nat (S i))).
      - rewrite <- (Z_mod_plus_full _ 1), Z.mod_small by lia. lia.
      - rewrite Z.mod_small by lia. lia. }
    rewrite aget_aset_ne by done.
    change ((v :: ?l) !! S i) with (l !! i). rewrite window_view_lookup by lia.
    replace (head - Z.of_nat (S i)) with (head - 1 - Z.of_nat i) by lia. congruence.
Qed.

Lemma window_run_snoc vs v :
  window_run size (vs ++ [v]) =
    let '(w, h, c) := window_run size vs in window_add w h c size v.
Proof using.
  unfold window_run. rewrite fold_left_app. cbn [fold_left].
  by destruct (fold_left _ vs _) as [[??]?].
Qed.

Lemma window_run_view vs :
  let '(w, h, c) := window_run size vs in
  window_ok w h c size /\ window_view w h c size = take (Z.to_nat size) (rev vs).
Proof using Hsize.
  induction vs as [|v vs IH] using rev_ind.
  - unfold window_run, window_ok, zlen, window_view. cbn.
    rewrite length_replicate, take_nil. split; [lia|done].
  - rewrite window_run_snoc. destruct (window_run size vs) as [[w h] c].
    destruct IH as [Hok Hv]. pose proof (window_add_ok w h c v Hok) as H1.
    pose proof (window_add_view w h c v Hok) as H2.
    destruct (window_add w h c size v) as [[w' h'] c']. split; [exact H1|].
    rewrite H2, rev_app_distr, Hv. cbn [rev app].
    destruct (Z.to_nat size) as [|n] eqn:En; [lia|]. rewrite !firstn_cons. f_equal.
    rewrite take_take. f_equal. lia.
Qed.

(** The cells below [count] are exactly the values in the window. *)
Lemma window_cells w h c i :
  window_ok w h c size -> 0 <= i < c -> aget d_zero w i ∈ window_view w h c size.
Proof using Hsize.
  intros (Hl & Hh & Hc & He) Hi. unfold window_view. apply list_elem_of_fmap.
  exists ((h - 1 - i) mod size). split.
  - rewrite Zminus_mod_idemp_r. replace (h - 1 - (h - 1 - i)) with i by lia.
    by rewrite Z.mod_small by lia.
  - apply elem_of_seqZ. pose proof (Z.mod_pos_bound (h - 1 - i) size ltac:(lia)).
    destruct (decide (c < size)) as [H1|H1]; [|lia].
    rewrite Z.mod_small; lia.
Qed.

Lemma window_cells_inv w h c x :
  window_ok w h c size -> x ∈ window_view w h c size ->
  exists i, 0 <= i < c /\ x = aget d_zero w i.
Proof using Hsize.
  intros (Hl & Hh & Hc & He) Hx. unfold window_view in Hx.
  apply list_elem_of_fmap in Hx as (k & -> & Hk). apply elem_of_seqZ in Hk.
  exists ((h - 1 - k) mod size). split; [|done].
  pose proof (Z.mod_pos_bound (h - 1 - k) size ltac:(lia)).
  destruct (decide (c < size)) as [H1|H1]; [|lia].
  rewrite Z.mod_small; lia.
Qed.
End Window.

(** ** The minimum *)

Lemma window_min_loop_spec w n : forall i m j,
  (exists k, 0 <= k < i /\ m = aget d_zero w k) ->
  (forall k, 0 <= k < i -> d_lt (aget d_zero w k) m = false) ->
  j = i + Z.of_nat n ->
  let m' := window_min_loop w i n m in
  (exists k, 0 <= k < j /\ m' = aget d_zero w k) /\
  (forall k, 0 <= k < j -> d_lt (aget d_zero w k) m' = false).
Proof.
  induction n as [|n IH]; intros i m j Hin Hle ->.
  { replace (i + Z.of_nat 0) with i by lia. by split. }
  cbn [window_min_loop]. apply (IH (i + 1)); [| |lia].
  - destruct Hin as (k & Hk & ->). destruct (d_lt _ _).
    + exists i. split; [lia|done].
    + exists k. split; [lia|done].
  - intros k Hk. destruct (d_lt (aget d_zero w i) m) eqn:E.
    + destruct (decide (k = i)) as [->|]; [apply d_lt_irrefl|].
      destruct (d_lt (aget d_zero w k) (aget d_zero w i)) eqn:E'; [|done].
      rewrite <- (Hle k) by lia. symmetry. by eapply d_lt_trans.
    + destruct (decide (k = i)) as [->|]; [done|]. apply Hle. lia.
Qed.

(** Whatever values were pushed since the last reset, [window_min] is one of
    the last [size] of them and none of those is below it: the circular
    buffer is a sliding window. *)
Theorem window_min_is_minimum size vs :
  0 < size -> vs <> [] ->
  let '(w, h, c) := window_run size vs in
  window_min w c ∈ take (Z.to_nat size) (rev vs) /\
  Forall (fun x => d_lt x (window_min w c) = false) (take (Z.to_nat size) (rev vs)).
Proof.
  intros Hs Hne. pose proof (window_run_view size Hs vs) as H.
  destruct (window_run size vs) as [[w h] c]. destruct H as [Hok Hv].
  assert (0 < c) as Hc.
  { destruct Hok as (_ & _ & Hc & _). destruct (decide (c = 0)) as [->|]; [|lia].
    apply (f_equal length) in Hv. rewrite window_view_length, length_take, length_rev in Hv.
    destruct vs; [done|]. cbn in Hv. lia. }
  unfold window_min. destruct (Z.eqb_spec c 0) as [|_]; [lia|].
  destruct (window_min_loop_spec w (Z.to_nat (c - 1)) 1 (aget d_zero w 0) c) as [(k & Hk & Em) Hle].
  - exists 0. split; [lia|done].
  - intros k Hk. replace k with 0 by lia. apply d_lt_irrefl.
  - lia.
  - rewrite <- Hv. split; [rewrite Em; apply window_cells; [lia|exact Hok|exact Hk]|].
    apply list.Forall_forall. intros x Hx.
    apply (window_cells_inv size Hs) in Hx as (i & Hi & ->); auto.
Qed.

Lemma window_min_is_minimum_witness :
  0 < 2 /\ [d_of_Z 3; d_of_Z 1; d_of_Z 2; d_of_Z 5] <> [] /\
  window_min [d_of_Z 2; d_of_Z 5] 2 ∈ take 2 [d_of_Z 5; d_of_Z 2; d_of_Z 1; d_of_Z 3].
Proof.
  assert (H : [d_of_Z 3; d_of_Z 1; d_of_Z 2; d_of_Z 5] <> []) by discriminate.
  split; [reflexivity|]. split; [exact H|].
  exact (proj1 (window_min_is_minimum 2 [d_of_Z 3; d_of_Z 1; d_of_Z 2; d_of_Z 5] eq_refl H)).
Defined.
