(* ===== verification/Histogram.v ===== *)
(** * The latency histogram

    [adaptive_engine.h] 182-275 (tiers, bucket maps) and [adaptive_engine.c]
    197-296 (reset, record, p99, the double-buffered pair).

    Counters are atomics of fixed width, so every increment wraps; a
    histogram pointer ([adaptive_histogram_t *]) is the index 0 or 1 of the
    pair's array. *)
From Stdlib Require Import ZArith Lia List SpecFloat.
From stdpp Require Import base tactics list.
From S2P Require Import Prelude Double.

#[local] Open Scope Z_scope.

(** ** Tiers *)

Definition LATENCY_TIERED_BUCKET_COUNT : Z := 320.
Definition LATENCY_BUCKET_COUNT : Z := LATENCY_TIERED_BUCKET_COUNT.
Definition LATENCY_TIERED_MAX_US : Z := 100000.

Record latency_tier_t := {
  start_us : Z;
  width_us : Z;
  bucket_count : Z;
  base_bucket : Z
}.

Definition LATENCY_TIERS : list latency_tier_t := [
  {| start_us := 0; width_us := 10; bucket_count := 100; base_bucket := 0 |};
  {| start_us := 1000; width_us := 50; bucket_count := 80; base_bucket := 100 |};
  {| start_us := 5000; width_us := 250; bucket_count := 60; base_bucket := 180 |};
  {| start_us := 20000; width_us := 1000; bucket_count := 80; base_bucket := 240 |} ].

(** [for (int t = LATENCY_TIER_COUNT - 1; t >= 0; t--)]: the tiers from the
    last to the first. *)
Definition tiers_high_to_low : list latency_tier_t := rev LATENCY_TIERS.

Fixpoint latency_us_to_bucket_loop (tiers : list latency_tier_t) (latency_us : Z) : Z :=
  match tiers with
  | [] => 0
  | tier :: rest =>
      if start_us tier <=? latency_us then
        (* (int)(latency_us - start_us) / width_us *)
        let offset := Z.quot (i32 (latency_us - start_us tier)) (width_us tier) in
        if bucket_count tier <=? offset then -1 else base_bucket tier + offset
      else latency_us_to_bucket_loop rest latency_us
  end.

Definition latency_us_to_bucket (latency_us : Z) : Z :=
  let latency_us := if latency_us <? 0 then 0 else latency_us in
  latency_us_to_bucket_loop tiers_high_to_low latency_us.

Definition d_half : double := d_lit 1 2.

Fixpoint bucket_to_midpoint_us_loop (tiers : list latency_tier_t) (bucket : Z) : double :=
  match tiers with
  | [] => d_zero
  | tier :: rest =>
      if base_bucket tier <=? bucket then
        let offset := bucket - base_bucket tier in
        d_add (d_of_Z (start_us tier))
              (d_mul (d_add (d_of_Z offset) d_half) (d_of_Z (width_us tier)))
      else bucket_to_midpoint_us_loop rest bucket
  end.

Definition bucket_to_midpoint_us (bucket : Z) : double :=
  bucket_to_midpoint_us_loop tiers_high_to_low bucket.

Fixpoint bucket_upper_bound_us_loop (tiers : list latency_tier_t) (bucket : Z) : Z :=
  match tiers with
  | [] => 0
  | tier :: rest =>
      if base_bucket tier <=? bucket then
        let offset := bucket - base_bucket tier in
        start_us tier + (offset + 1) * width_us tier
      else bucket_upper_bound_us_loop rest bucket
  end.

Definition bucket_upper_bound_us (bucket : Z) : Z :=
  bucket_upper_bound_us_loop tiers_high_to_low bucket.

(** ** Histograms *)

Record adaptive_histogram_t := {
  buckets : list Z;     (* uint32_t[LATENCY_BUCKET_COUNT] *)
  overflow : Z;         (* uint32_t *)
  total_count : Z       (* uint64_t *)
}.

Definition adaptive_hist_reset (hist : adaptive_histogram_t) : adaptive_histogram_t :=
  {| buckets := replicate (length (buckets hist)) 0; overflow := 0; total_count := 0 |}.

Definition adaptive_hist_record (hist : adaptive_histogram_t) (latency_us : Z)
  : adaptive_histogram_t :=
  let bucket := latency_us_to_bucket latency_us in
  if bucket <? 0 then
    {| buckets := buckets hist;
       overflow := u32 (overflow hist + 1);
       total_count := u64 (total_count hist + 1) |}
  else
    {| buckets := aset (buckets hist) bucket (u32 (aget 0 (buckets hist) bucket + 1));
       overflow := overflow hist;
       total_count := u64 (total_count hist + 1) |}.

(** The rank the scan looks for: 1% of the samples, 5% below 100 samples. *)
Definition p99_target (total : Z) : Z :=
  if 100 <=? total then
    let target := u32 (total / 100) in
    if target =? 0 then 1 else target
  else
    let target := u32 ((total + 19) / 20) in
    if target =? 0 then 1 else target.

(** The scan [for (i = LATENCY_BUCKET_COUNT - 1; i >= 0; i--)]: the first
    bucket, from the top, at which the running count reaches the target. *)
Fixpoint p99_scan (bs : list Z) (n : nat) (count target : Z) : option Z :=
  match n with
  | O => None
  | S n =>
      let i := Z.of_nat n in
      let count := u64 (count + aget 0 bs i) in
      if target <=? count then Some i else p99_scan bs n count target
  end.

Definition adaptive_hist_p99 (hist : adaptive_histogram_t) : double :=
  let total := total_count hist in
  if total =? 0 then d_of_Z (-1)
  else
    let target := p99_target total in
    let count := overflow hist in
    if target <=? count then
      d_div (d_mul (d_of_Z LATENCY_TIERED_MAX_US) (d_of_Z 2)) (d_of_Z 1000)
    else
      match p99_scan (buckets hist) (Z.to_nat LATENCY_BUCKET_COUNT) count target with
      | Some i => d_div (bucket_to_midpoint_us i) (d_of_Z 1000)
      | None => d_of_Z (-1)
      end.

(** ** The double-buffered pair *)

Record adaptive_histogram_pair_t := {
  active_index : Z;
  histograms : list adaptive_histogram_t;   (* two of them *)
  pending_reset : option Z                  (* histogram to reset on the next tick *)
}.

Definition hist_zero : adaptive_histogram_t :=
  {| buckets := replicate (Z.to_nat LATENCY_BUCKET_COUNT) 0; overflow := 0; total_count := 0 |}.

Definition adaptive_hist_pair_init : adaptive_histogram_pair_t :=
  {| active_index := 0; histograms := [hist_zero; hist_zero]; pending_reset := None |}.

(** Dereference and store through a histogram pointer. *)
Definition hist_at (pair : adaptive_histogram_pair_t) (idx : Z) : adaptive_histogram_t :=
  aget hist_zero (histograms pair) idx.

Definition hist_store (pair : adaptive_histogram_pair_t) (idx : Z) (h : adaptive_histogram_t)
  : adaptive_histogram_pair_t :=
  {| active_index := active_index pair;
     histograms := aset (histograms pair) idx h;
     pending_reset := pending_reset pair |}.

Definition set_pending_reset (p : option Z) (pair : adaptive_histogram_pair_t)
  : adaptive_histogram_pair_t :=
  {| active_index := active_index pair; histograms := histograms pair; pending_reset := p |}.

Definition adaptive_hist_active (pair : adaptive_histogram_pair_t) : Z := active_index pair.

(** [atomic_fetch_xor(&pair->active_index, 1)]; the old index is returned. *)
Definition adaptive_hist_swap (pair : adaptive_histogram_pair_t)
  : Z * adaptive_histogram_pair_t :=
  (active_index pair,
   {| active_index := Z.lxor (active_index pair) 1;
      histograms := histograms pair;
      pending_reset := pending_reset pair |}).

(** ** Specification vocabulary *)

(** Lower bound of a bucket: the upper bound of its predecessor. *)
Definition bucket_lower_bound_us (b : Z) : Z :=
  if b =? 0 then 0 else bucket_upper_bound_us (b - 1).

(** A histogram whose counters agree: the total is the sum of the buckets and
    the overflow, and no counter has wrapped. *)
Definition hist_wf (h : adaptive_histogram_t) : Prop :=
  zlen (buckets h) = LATENCY_BUCKET_COUNT /\
  Forall (fun x => 0 <= x) (buckets h) /\
  0 <= overflow h /\
  total_count h = overflow h + zsum (buckets h) /\
  total_count h <= UINT_MAX.

(** Samples in the buckets from [i] up, the overflow included. *)
Definition samples_from (h : adaptive_histogram_t) (i : Z) : Z :=
  overflow h + zsum_from (buckets h) i.

(** Two histograms, an index into them, and a pending reset that is always
    the inactive one. *)
Definition pair_wf (p : adaptive_histogram_pair_t) : Prop :=
  zlen (histograms p) = 2 /\ 0 <= active_index p <= 1 /\
  (forall i, pending_reset p = Some i -> i = 1 - active_index p).

(** ** The bucket map *)

Section BucketMap.

Lemma bucket_upper_tier b :
  0 <= b < 320 ->
  bucket_upper_bound_us b =
    if 240 <=? b then 20000 + (b - 240 + 1) * 1000
    else if 180 <=? b then 5000 + (b - 180 + 1) * 250
    else if 100 <=? b then 1000 + (b - 100 + 1) * 50
    else (b + 1) * 10.
Proof.
  intros H. unfold bucket_upper_bound_us, tiers_high_to_low. cbn [rev LATENCY_TIERS app].
  cbn [bucket_upper_bound_us_loop base_bucket start_us width_us].
  repeat case_match; lia.
Qed.

Lemma latency_us_to_bucket_tier lat :
  0 <= lat <= INT_MAX + 20000 ->
  latency_us_to_bucket lat =
    if 100000 <=? lat then -1
    else if 20000 <=? lat then 240 + (lat - 20000) / 1000
    else if 5000 <=? lat then 180 + (lat - 5000) / 250
    else if 1000 <=? lat then 100 + (lat - 1000) / 50
    else lat / 10.
Proof.
  unfold INT_MAX. intros H. unfold latency_us_to_bucket, tiers_high_to_low.
  cbn [rev LATENCY_TIERS app].
  cbn [latency_us_to_bucket_loop base_bucket start_us width_us bucket_count].
  destruct (Z.ltb_spec lat 0); [lia|].
  repeat (zcase; try lia);
    rewrite ?i32_id, ?Z.quot_div_nonneg in * by (unfold INT_MIN, INT_MAX; lia); dlia.
Qed.

(** Whatever the latency, the bucket index stays below the array length. *)
Lemma latency_us_to_bucket_lt lat : latency_us_to_bucket lat < LATENCY_BUCKET_COUNT.
Proof.
  unfold latency_us_to_bucket, tiers_high_to_low, LATENCY_BUCKET_COUNT,
    LATENCY_TIERED_BUCKET_COUNT. cbn [rev LATENCY_TIERS app].
  cbn [latency_us_to_bucket_loop base_bucket start_us width_us bucket_count].
  set (l := if lat <? 0 then 0 else lat). repeat (zcase; try lia).
Qed.

End BucketMap.

(** The bucket a latency is counted in is the one whose bounds contain
    it, and every latency from 100 ms on is an overflow, for every latency up
    to the point where the [int] cast of the offset wraps. *)
Theorem latency_us_to_bucket_spec lat :
  0 <= lat <= INT_MAX + 20000 ->
  if LATENCY_TIERED_MAX_US <=? lat then latency_us_to_bucket lat = -1
  else 0 <= latency_us_to_bucket lat < LATENCY_BUCKET_COUNT /\
       bucket_lower_bound_us (latency_us_to_bucket lat) <= lat
         < bucket_upper_bound_us (latency_us_to_bucket lat).
Proof.
  intros H. rewrite latency_us_to_bucket_tier by done.
  unfold LATENCY_TIERED_MAX_US, LATENCY_BUCKET_COUNT, LATENCY_TIERED_BUCKET_COUNT,
    bucket_lower_bound_us.
  repeat (zcase; try lia); rewrite ?bucket_upper_tier by dlia;
    repeat (zcase; try dlia); (split; [dlia|]); dlia.
Qed.

Lemma latency_us_to_bucket_spec_witness :
  0 <= 4321 <= INT_MAX + 20000 /\
  0 <= latency_us_to_bucket 4321 < LATENCY_BUCKET_COUNT.
Proof.
  assert (H : 0 <= 4321 <= INT_MAX + 20000) by (unfold INT_MAX; lia).
  split; [exact H|]. exact (proj1 (latency_us_to_bucket_spec 4321 H)).
Defined.

(** Round trip: the midpoint reported for a bucket is a latency that is
    counted in that bucket. *)
Theorem bucket_midpoint_roundtrip b :
  0 <= b < LATENCY_BUCKET_COUNT ->
  latency_us_to_bucket (d_trunc (bucket_to_midpoint_us b)) = b.
Proof.
  intros H. apply Z.eqb_eq.
  apply (all_below_spec (Z.to_nat LATENCY_BUCKET_COUNT) 0
           (fun b => latency_us_to_bucket (d_trunc (bucket_to_midpoint_us b)) =? b));
    [vm_compute; reflexivity|].
  unfold LATENCY_BUCKET_COUNT, LATENCY_TIERED_BUCKET_COUNT in *. lia.
Qed.

Lemma bucket_midpoint_roundtrip_witness :
  0 <= 250 < LATENCY_BUCKET_COUNT /\
  latency_us_to_bucket (d_trunc (bucket_to_midpoint_us 250)) = 250.
Proof.
  assert (H : 0 <= 250 < LATENCY_BUCKET_COUNT) by (vm_compute; split; congruence).
  split; [exact H|]. exact (bucket_midpoint_roundtrip 250 H).
Defined.

(** The [int] cast of the offset wraps: a latency of about 71 minutes is
    counted in the 20 ms bucket instead of the overflow. *)
Example latency_cast_wraps : latency_us_to_bucket (2 ^ 32 + 20000) = 240.
Proof. reflexivity. Qed.

(** ** Recording *)

Section Record.
Context (h : adaptive_histogram_t) (Hwf : hist_wf h).

Lemma hist_bucket_nonneg i : 0 <= aget 0 (buckets h) i.
Proof.
  destruct Hwf as (_ & HF & _). unfold aget. destruct (i <? 0); [lia|].
  rewrite nth_lookup. destruct (buckets h !! Z.to_nat i) eqn:E; [|done].
  by apply (Forall_lookup_1 _ _ _ _ HF E).
Qed.

Lemma hist_bucket_le_total i :
  0 <= i < LATENCY_BUCKET_COUNT -> aget 0 (buckets h) i <= zsum (buckets h).
Proof.
  destruct Hwf as (Hlen & HF & _). intros Hi. rewrite <- Hlen in Hi.
  pose proof (zsum_aset (buckets h) i 0 Hi) as E.
  assert (0 <= zsum (aset (buckets h) i 0)); [|lia].
  apply zsum_nonneg. unfold aset. destruct (i <? 0); [done|].
  apply Forall_insert; [done|lia].
Qed.

End Record.

(** Recording a sample increments exactly the counter of its bucket (the
    overflow for a latency past the last tier) and the total, and keeps the
    counters consistent. *)
Theorem adaptive_hist_record_counts h lat :
  hist_wf h -> total_count h < UINT_MAX ->
  let h' := adaptive_hist_record h lat in
  let b := latency_us_to_bucket lat in
  hist_wf h' /\ total_count h' = total_count h + 1 /\
  overflow h' = overflow h + (if b <? 0 then 1 else 0) /\
  (forall i, 0 <= i < LATENCY_BUCKET_COUNT ->
     aget 0 (buckets h') i = aget 0 (buckets h) i + (if i =? b then 1 else 0)).
Proof.
  intros Hwf Hlt. pose proof Hwf as (Hlen & HF & Hov & Htot & Hmax).
  pose proof (latency_us_to_bucket_lt lat) as Hb.
  pose proof (zsum_nonneg _ HF) as Hsum.
  unfold adaptive_hist_record. cbv zeta. unfold UINT_MAX in *.
  destruct (Z.ltb_spec (latency_us_to_bucket lat) 0) as [Hneg|Hpos];
    unfold hist_wf; cbn [buckets overflow total_count];
    rewrite (u64_id (total_count h + 1)) by (unfold SIZE_MAX; lia).
  - rewrite u32_id by (unfold UINT_MAX; lia). unfold UINT_MAX.
    split_and!; try done; try lia.
    intros i Hi. destruct (Z.eqb_spec i (latency_us_to_bucket lat)); lia.
  - set (b := latency_us_to_bucket lat) in *.
    pose proof (hist_bucket_le_total h Hwf b ltac:(lia)) as Hle.
    pose proof (hist_bucket_nonneg h Hwf b) as H0.
    rewrite u32_id by (unfold UINT_MAX; lia). unfold UINT_MAX.
    rewrite zlen_aset, zsum_aset by lia.
    split_and!; try done; try lia.
    + unfold aset. destruct (b <? 0); [done|]. apply Forall_insert; [done|lia].
    + intros i Hi. destruct (Z.eqb_spec i b) as [->|Hne].
      * rewrite aget_aset_eq by lia. lia.
      * rewrite aget_aset_ne by lia. lia.
Qed.

Lemma hist_zero_wf : hist_wf hist_zero.
Proof.
  unfold hist_wf. cbn [buckets overflow total_count hist_zero].
  rewrite zsum_replicate_0. split_and!; try done.
  apply Forall_replicate. lia.
Qed.

Lemma adaptive_hist_record_counts_witness :
  hist_wf hist_zero /\ total_count hist_zero < UINT_MAX /\
  total_count (adaptive_hist_record hist_zero 120) = 1.
Proof.
  assert (H : total_count hist_zero < UINT_MAX) by reflexivity.
  split; [exact hist_zero_wf|]. split; [exact H|].
  exact (proj1 (proj2 (adaptive_hist_record_counts hist_zero 120 hist_zero_wf H))).
Defined.

(** ** The percentile scan *)

Lemma p99_target_bounds total :
  0 < total <= UINT_MAX -> 1 <= p99_target total <= total.
Proof.
  unfold UINT_MAX. intros H. unfold p99_target.
  zcase; (rewrite u32_id by (unfold UINT_MAX; dlia)); zcase; dlia.
Qed.

Section Scan.
Context (h : adaptive_histogram_t) (Hwf : hist_wf h) (target : Z).

Lemma samples_from_step i :
  0 <= i < LATENCY_BUCKET_COUNT ->
  samples_from h i = aget 0 (buckets h) i + samples_from h (i + 1).
Proof.
  destruct Hwf as (Hlen & _). intros Hi. unfold samples_from.
  rewrite zsum_from_step by lia. lia.
Qed.

Lemma samples_from_range i : 0 <= i -> 0 <= samples_from h i <= total_count h.
Proof.
  destruct Hwf as (Hlen & HF & Hov & Htot & _). intros Hi. unfold samples_from, zsum_from.
  pose proof (Forall_drop _ (Z.to_nat i) _ HF) as H1.
  pose proof (Forall_take _ (Z.to_nat i) _ HF) as H2.
  apply zsum_nonneg in H1. apply zsum_nonneg in H2.
  pose proof (zsum_app (take (Z.to_nat i) (buckets h)) (drop (Z.to_nat i) (buckets h))) as E.
  rewrite take_drop in E. lia.
Qed.

Lemma p99_scan_spec n :
  Z.of_nat n <= LATENCY_BUCKET_COUNT ->
  samples_from h (Z.of_nat n) < target ->
  match p99_scan (buckets h) n (samples_from h (Z.of_nat n)) target with
  | Some i => 0 <= i < Z.of_nat n /\ samples_from h (i + 1) < target <= samples_from h i
  | None => samples_from h 0 < target
  end.
Proof.
  induction n as [|n IH]; intros Hn Hlt; [exact Hlt|]. cbn [p99_scan].
  pose proof (samples_from_step (Z.of_nat n) ltac:(lia)) as E.
  pose proof (samples_from_range (Z.of_nat n) ltac:(lia)) as R.
  assert (UINT_MAX < SIZE_MAX) by reflexivity.
  pose proof (proj2 (proj2 (proj2 (proj2 Hwf)))) as Hmax.
  replace (Z.of_nat (S n)) with (Z.of_nat n + 1) in * by lia.
  rewrite u64_id by lia.
  replace (samples_from h (Z.of_nat n + 1) + aget 0 (buckets h) (Z.of_nat n))
    with (samples_from h (Z.of_nat n)) by lia.
  destruct (Z.leb_spec target (samples_from h (Z.of_nat n))); [lia|].
  specialize (IH ltac:(lia) ltac:(lia)). destruct (p99_scan _ _ _ _); lia.
Qed.

End Scan.

(** The value reported for a sample set whose rank falls past the last tier. *)
Definition p99_overflow_ms : double :=
  d_div (d_mul (d_of_Z LATENCY_TIERED_MAX_US) (d_of_Z 2)) (d_of_Z 1000).

(** The reported p99 is the midpoint of the bucket in which the sample of
    the requested rank lies (or twice the tracked maximum when it lies in the
    overflow), and it is never negative: "no data" is not reported when there
    are samples. *)
Theorem adaptive_hist_p99_rank h :
  hist_wf h -> 0 < total_count h ->
  let target := p99_target (total_count h) in
  (target <= overflow h /\ adaptive_hist_p99 h = p99_overflow_ms
   \/ exists i, 0 <= i < LATENCY_BUCKET_COUNT /\
        adaptive_hist_p99 h = d_div (bucket_to_midpoint_us i) (d_of_Z 1000) /\
        samples_from h (i + 1) < target <= samples_from h i) /\
  d_ge (adaptive_hist_p99 h) d_zero = true.
Proof.
  intros Hwf Hpos. pose proof Hwf as (Hlen & HF & Hov & Htot & Hmax). cbv zeta.
  pose proof (p99_target_bounds (total_count h) ltac:(lia)) as Ht.
  assert (Hend : samples_from h LATENCY_BUCKET_COUNT = overflow h)
    by (unfold samples_from; rewrite zsum_from_end by lia; lia).
  unfold adaptive_hist_p99. destruct (Z.eqb_spec (total_count h) 0); [lia|].
  destruct (Z.leb_spec (p99_target (total_count h)) (overflow h)) as [Hle|Hgt].
  { split; [left; by split|]. reflexivity. }
  pose proof (p99_scan_spec h Hwf (p99_target (total_count h)) (Z.to_nat LATENCY_BUCKET_COUNT))
    as Hs.
  change (Z.of_nat (Z.to_nat LATENCY_BUCKET_COUNT)) with LATENCY_BUCKET_COUNT in Hs.
  rewrite Hend in Hs. specialize (Hs ltac:(lia) ltac:(lia)).
  destruct (p99_scan _ _ _ _) as [i|]; cycle 1.
  { unfold samples_from in Hs. rewrite zsum_from_0 in Hs. lia. }
  destruct Hs as [Hi Hr]. split; [right; exists i; auto|].
  apply (all_below_spec (Z.to_nat LATENCY_BUCKET_COUNT) 0
           (fun i => d_ge (d_div (bucket_to_midpoint_us i) (d_of_Z 1000)) d_zero));
    [vm_compute; reflexivity|].
  change (Z.of_nat (Z.to_nat LATENCY_BUCKET_COUNT)) with LATENCY_BUCKET_COUNT. lia.
Qed.

Lemma adaptive_hist_p99_rank_witness :
  let h := adaptive_hist_record hist_zero 120 in
  hist_wf h /\ 0 < total_count h /\ d_ge (adaptive_hist_p99 h) d_zero = true.
Proof.
  assert (Hw : hist_wf (adaptive_hist_record hist_zero 120)).
  { unfold hist_wf. split_and!; try (vm_compute; congruence).
    vm_compute. repeat constructor; discriminate. }
  assert (Hp : 0 < total_count (adaptive_hist_record hist_zero 120)) by reflexivity.
  split; [exact Hw|]. split; [exact Hp|].
  exact (proj2 (adaptive_hist_p99_rank _ Hw Hp)).
Defined.

(** ** The pair *)

Section Pair.
Context (p : adaptive_histogram_pair_t) (Hwf : pair_wf p).

Lemma swap_index : active_index (snd (adaptive_hist_swap p)) = 1 - active_index p.
Proof.
  destruct Hwf as (_ & Ha & _). cbn.
  assert (active_index p = 0 \/ active_index p = 1) as [-> | ->] by lia; reflexivity.
Qed.

Lemma hist_at_store_eq i h : 0 <= i <= 1 -> hist_at (hist_store p i h) i = h.
Proof.
  destruct Hwf as (Hl & _). intros. unfold hist_at, hist_store. cbn [histograms].
  apply aget_aset_eq. lia.
Qed.

Lemma hist_at_store_ne i j h : i <> j -> hist_at (hist_store p i h) j = hist_at p j.
Proof. intros. unfold hist_at, hist_store. cbn [histograms]. by apply aget_aset_ne. Qed.

Lemma hist_store_wf i h : pair_wf (hist_store p i h).
Proof.
  destruct Hwf as (Hl & Ha & Hp). unfold pair_wf, hist_store.
  cbn [histograms active_index pending_reset]. rewrite zlen_aset. auto.
Qed.

End Pair.

Lemma adaptive_hist_pair_init_wf : pair_wf adaptive_hist_pair_init.
Proof. repeat split; cbn; try lia. discriminate. Qed.
