(* ===== verification/Controller.v ===== *)
(** * The adaptive controller

    [adaptive_engine.c] and the types of [adaptive_engine.h]: the
    statistics of a tick, the AIMD state machine and
    [adaptive_tick]. *)
From Stdlib Require Import ZArith Lia List SpecFloat String.
From stdpp Require Import base tactics list relations.
From S2P Require Import Prelude Double Histogram Windows.

#[local] Open Scope Z_scope.

(** ** Constants *)

Definition ADAPTIVE_WARMUP_SAMPLES : Z := 10.
Definition ADAPTIVE_P99_WINDOW : Z := 15.
Definition ADAPTIVE_THROUGHPUT_WINDOW : Z := 25.
Definition ADAPTIVE_BASELINE_WINDOW : Z := 50.
Definition ADAPTIVE_AIMD_INCREASE : Z := 1.
Definition ADAPTIVE_AIMD_DECREASE : double := Eval vm_compute in d_lit 4 5.
Definition ADAPTIVE_ER_EPSILON_RATIO : double := Eval vm_compute in d_lit 1 100.
Definition ADAPTIVE_LATENCY_GUARD_MULT : double := Eval vm_compute in d_of_Z 10.
Definition ADAPTIVE_LOW_IOPS_MIN_SAMPLES : Z := 20.
Definition ADAPTIVE_MIN_SAMPLE_WINDOW_MS : Z := 100.
Definition ADAPTIVE_MIN_BATCH : Z := 2.
Definition ADAPTIVE_TARGET_SQE_RATIO : double := Eval vm_compute in d_of_Z 8.
Definition ADAPTIVE_MAX_BATCH_THRESHOLD : Z := 64.
Definition ADAPTIVE_DEFAULT_LATENCY_GUARD : double := Eval vm_compute in d_of_Z 50.
Definition ADAPTIVE_SETTLING_TICKS : Z := 10.
Definition ADAPTIVE_STEADY_THRESHOLD : Z := 500.
Definition ADAPTIVE_REPROBE_INTERVAL : Z := 100.
Definition AIMD_ENGAGE_TICKS : Z := 8.
Definition AIMD_ENGAGE_PENDING_DELTA : Z := 16.
Definition PASSTHROUGH_REENTER_TICKS : Z := 10.
Definition PASSTHROUGH_REENTER_DELTA_MAX : Z := 2.
Definition PASSTHROUGH_SAMPLE_MASK : Z := 63.

(** ** State *)

Inductive adaptive_phase_t :=
  | ADAPTIVE_PHASE_BASELINE
  | ADAPTIVE_PHASE_PROBING
  | ADAPTIVE_PHASE_STEADY
  | ADAPTIVE_PHASE_BACKOFF
  | ADAPTIVE_PHASE_SETTLING
  | ADAPTIVE_PHASE_CONVERGED
  | ADAPTIVE_PHASE_PASSTHROUGH.

#[export] Instance adaptive_phase_eq_dec : EqDecision adaptive_phase_t.
Proof. solve_decision. Defined.

Definition phase_eqb (a b : adaptive_phase_t) : bool := bool_decide (a = b).

(** [adaptive_controller_t]. The two [_Atomic uint64_t] that hold punned
    doubles are the doubles themselves. *)
Record adaptive_controller_t := {
  current_in_flight_limit : Z;
  current_batch_threshold : Z;
  submit_calls : Z;                 (* unsigned int *)
  sqes_submitted : Z;               (* unsigned int *)
  sample_start_ns : Z;              (* int64_t *)
  sample_bytes : Z;                 (* uint64_t *)
  current_p99_ms : double;
  current_throughput_bps : double;
  phase : adaptive_phase_t;
  passthrough_mode : bool;
  max_queue_depth : Z;
  min_in_flight : Z;
  aimd_initial_in_flight : Z;
  prev_in_flight_limit : Z;
  baseline_p99_ms : double;
  latency_rise_threshold : double;
  max_p99_ms : double;
  prev_throughput_bps : double;
  warmup_count : Z;
  plateau_count : Z;
  steady_count : Z;
  spike_count : Z;
  settling_timer : Z;
  entered_via_backoff : bool;
  passthrough_qualify_count : Z;
  pressure_qualify_count : Z;
  prev_pending_snapshot : Z;
  batch_threshold_fixed : bool;
  p99_head : Z;
  p99_count : Z;
  throughput_head : Z;
  throughput_count : Z;
  baseline_head : Z;
  baseline_count : Z;
  p99_window : list double;
  throughput_window : list double;
  baseline_window : list double;
  hist_pair : adaptive_histogram_pair_t;
  tick_entered : Z
}.

Definition controller_eta (c : adaptive_controller_t) : adaptive_controller_t := {|
  current_in_flight_limit := current_in_flight_limit c;
  current_batch_threshold := current_batch_threshold c;
  submit_calls := submit_calls c;
  sqes_submitted := sqes_submitted c;
  sample_start_ns := sample_start_ns c;
  sample_bytes := sample_bytes c;
  current_p99_ms := current_p99_ms c;
  current_throughput_bps := current_throughput_bps c;
  phase := phase c;
  passthrough_mode := passthrough_mode c;
  max_queue_depth := max_queue_depth c;
  min_in_flight := min_in_flight c;
  aimd_initial_in_flight := aimd_initial_in_flight c;
  prev_in_flight_limit := prev_in_flight_limit c;
  baseline_p99_ms := baseline_p99_ms c;
  latency_rise_threshold := latency_rise_threshold c;
  max_p99_ms := max_p99_ms c;
  prev_throughput_bps := prev_throughput_bps c;
  warmup_count := warmup_count c;
  plateau_count := plateau_count c;
  steady_count := steady_count c;
  spike_count := spike_count c;
  settling_timer := settling_timer c;
  entered_via_backoff := entered_via_backoff c;
  passthrough_qualify_count := passthrough_qualify_count c;
  pressure_qualify_count := pressure_qualify_count c;
  prev_pending_snapshot := prev_pending_snapshot c;
  batch_threshold_fixed := batch_threshold_fixed c;
  p99_head := p99_head c;
  p99_count := p99_count c;
  throughput_head := throughput_head c;
  throughput_count := throughput_count c;
  baseline_head := baseline_head c;
  baseline_count := baseline_count c;
  p99_window := p99_window c;
  throughput_window := throughput_window c;
  baseline_window := baseline_window c;
  hist_pair := hist_pair c;
  tick_entered := tick_entered c
|}.

#[export] Instance set_current_in_flight_limit : Setter current_in_flight_limit := ltac:(mk_setter controller_eta).
#[export] Instance set_current_batch_threshold : Setter current_batch_threshold := ltac:(mk_setter controller_eta).
#[export] Instance set_submit_calls : Setter submit_calls := ltac:(mk_setter controller_eta).
#[export] Instance set_sqes_submitted : Setter sqes_submitted := ltac:(mk_setter controller_eta).
#[export] Instance set_sample_start_ns : Setter sample_start_ns := ltac:(mk_setter controller_eta).
#[export] Instance set_sample_bytes : Setter sample_bytes := ltac:(mk_setter controller_eta).
#[export] Instance set_current_p99_ms : Setter current_p99_ms := ltac:(mk_setter controller_eta).
#[export] Instance set_current_throughput_bps : Setter current_throughput_bps := ltac:(mk_setter controller_eta).
#[export] Instance set_phase : Setter phase := ltac:(mk_setter controller_eta).
#[export] Instance set_passthrough_mode : Setter passthrough_mode := ltac:(mk_setter controller_eta).
#[export] Instance set_max_queue_depth : Setter max_queue_depth := ltac:(mk_setter controller_eta).
#[export] Instance set_min_in_flight : Setter min_in_flight := ltac:(mk_setter controller_eta).
#[export] Instance set_aimd_initial_in_flight : Setter aimd_initial_in_flight := ltac:(mk_setter controller_eta).
#[export] Instance set_prev_in_flight_limit : Setter prev_in_flight_limit := ltac:(mk_setter controller_eta).
#[export] Instance set_baseline_p99_ms : Setter baseline_p99_ms := ltac:(mk_setter controller_eta).
#[export] Instance set_latency_rise_threshold : Setter latency_rise_threshold := ltac:(mk_setter controller_eta).
#[export] Instance set_max_p99_ms : Setter max_p99_ms := ltac:(mk_setter controller_eta).
#[export] Instance set_prev_throughput_bps : Setter prev_throughput_bps := ltac:(mk_setter controller_eta).
#[export] Instance set_warmup_count : Setter warmup_count := ltac:(mk_setter controller_eta).
#[export] Instance set_plateau_count : Setter plateau_count := ltac:(mk_setter controller_eta).
#[export] Instance set_steady_count : Setter steady_count := ltac:(mk_setter controller_eta).
#[export] Instance set_spike_count : Setter spike_count := ltac:(mk_setter controller_eta).
#[export] Instance set_settling_timer : Setter settling_timer := ltac:(mk_setter controller_eta).
#[export] Instance set_entered_via_backoff : Setter entered_via_backoff := ltac:(mk_setter controller_eta).
#[export] Instance set_passthrough_qualify_count : Setter passthrough_qualify_count := ltac:(mk_setter controller_eta).
#[export] Instance set_pressure_qualify_count : Setter pressure_qualify_count := ltac:(mk_setter controller_eta).
#[export] Instance set_prev_pending_snapshot : Setter prev_pending_snapshot := ltac:(mk_setter controller_eta).
#[export] Instance set_batch_threshold_fixed : Setter batch_threshold_fixed := ltac:(mk_setter controller_eta).
#[export] Instance set_p99_head : Setter p99_head := ltac:(mk_setter controller_eta).
#[export] Instance set_p99_count : Setter p99_count := ltac:(mk_setter controller_eta).
#[export] Instance set_throughput_head : Setter throughput_head := ltac:(mk_setter controller_eta).
#[export] Instance set_throughput_count : Setter throughput_count := ltac:(mk_setter controller_eta).
#[export] Instance set_baseline_head : Setter baseline_head := ltac:(mk_setter controller_eta).
#[export] Instance set_baseline_count : Setter baseline_count := ltac:(mk_setter controller_eta).
#[export] Instance set_p99_window : Setter p99_window := ltac:(mk_setter controller_eta).
#[export] Instance set_throughput_window : Setter throughput_window := ltac:(mk_setter controller_eta).
#[export] Instance set_baseline_window : Setter baseline_window := ltac:(mk_setter controller_eta).
#[export] Instance set_hist_pair : Setter hist_pair := ltac:(mk_setter controller_eta).
#[export] Instance set_tick_entered : Setter tick_entered := ltac:(mk_setter controller_eta).

(** ** Tick statistics *)

Record tick_stats_t := {
  sample_count : Z;
  p99_ms : double;
  throughput_bps : double;
  sqe_ratio : double;
  latency_guard_ms : double;
  elapsed_ns : Z;
  have_valid_p99 : bool;
  latency_rising : bool;
  efficiency_ratio : double;
  delta_inflight : Z
}.

(** Reset the histogram swapped out on the previous tick. *)
Definition flush_pending_reset (pair : adaptive_histogram_pair_t) : adaptive_histogram_pair_t :=
  match pending_reset pair with
  | Some i => set_pending_reset None (hist_store pair i (adaptive_hist_reset (hist_at pair i)))
  | None => pair
  end.

Definition add_p99_window (v : double) (c : adaptive_controller_t) : adaptive_controller_t :=
  let '(w, h, n) := window_add (p99_window c) (p99_head c) (p99_count c) ADAPTIVE_P99_WINDOW v in
  c <| p99_window := w |> <| p99_head := h |> <| p99_count := n |>.

Definition add_baseline_window (v : double) (c : adaptive_controller_t) : adaptive_controller_t :=
  let '(w, h, n) := window_add (baseline_window c) (baseline_head c) (baseline_count c)
                      ADAPTIVE_BASELINE_WINDOW v in
  c <| baseline_window := w |> <| baseline_head := h |> <| baseline_count := n |>.

Definition add_throughput_window (v : double) (c : adaptive_controller_t)
  : adaptive_controller_t :=
  let '(w, h, n) := window_add (throughput_window c) (throughput_head c) (throughput_count c)
                      ADAPTIVE_THROUGHPUT_WINDOW v in
  c <| throughput_window := w |> <| throughput_head := h |> <| throughput_count := n |>.

Definition update_windows (p99 throughput : double) (c : adaptive_controller_t)
  : adaptive_controller_t :=
  let c :=
    if d_ge p99 d_zero then
      let c := add_p99_window p99 c in
      if negb (phase_eqb (phase c) ADAPTIVE_PHASE_BACKOFF) &&
         negb (phase_eqb (phase c) ADAPTIVE_PHASE_SETTLING && entered_via_backoff c)
      then add_baseline_window p99 c else c
    else c in
  let c := add_throughput_window throughput c in
  if 0 <? baseline_count c
  then c <| baseline_p99_ms := window_min (baseline_window c) (baseline_count c) |>
  else c.

Definition latency_guard (c : adaptive_controller_t) : double :=
  if d_gt (max_p99_ms c) d_zero then max_p99_ms c
  else if d_gt (baseline_p99_ms c) d_zero
       then d_mul (baseline_p99_ms c) ADAPTIVE_LATENCY_GUARD_MULT
       else ADAPTIVE_DEFAULT_LATENCY_GUARD.

(** The efficiency ratio and the change of the limit since the last tick; NaN
    stands for "no data". *)
Definition efficiency (c : adaptive_controller_t) (throughput : double) : double * Z :=
  let in_flight_limit := current_in_flight_limit c in
  if (0 <? prev_in_flight_limit c) && negb (in_flight_limit =? prev_in_flight_limit c) then
    let delta := in_flight_limit - prev_in_flight_limit c in
    (if 0 <? delta
     then d_div (d_sub throughput (prev_throughput_bps c)) (d_of_Z delta)
     else d_nan, delta)
  else (d_nan, 0).

Definition tick_swap_and_compute_stats (c : adaptive_controller_t) (elapsed : Z)
  : tick_stats_t * adaptive_controller_t :=
  let elapsed := if elapsed <=? 0 then 1 else elapsed in
  let hp := flush_pending_reset (hist_pair c) in
  let '(old, hp) := adaptive_hist_swap hp in
  let old_hist := hist_at hp old in
  let samples := u32 (total_count old_hist) in
  let p99 := adaptive_hist_p99 old_hist in
  let elapsed_sec := d_div (d_of_Z elapsed) (d_of_Z 1000000000) in
  let bytes := sample_bytes c in
  let throughput :=
    if d_gt elapsed_sec d_zero then d_div (d_of_Z bytes) elapsed_sec else d_zero in
  let calls := submit_calls c in
  let sqes := sqes_submitted c in
  let ratio := if 0 <? calls then d_div (d_of_Z sqes) (d_of_Z calls) else d_zero in
  let c := c <| hist_pair := hp |> <| sample_bytes := 0 |>
             <| submit_calls := 0 |> <| sqes_submitted := 0 |>
             <| current_throughput_bps := throughput |>
             <| current_p99_ms := if d_ge p99 d_zero then p99 else d_of_Z (-1) |> in
  let c := update_windows p99 throughput c in
  let guard := latency_guard c in
  let c := c <| latency_rise_threshold := guard |> in
  let valid := (ADAPTIVE_LOW_IOPS_MIN_SAMPLES <=? samples) && d_ge p99 d_zero in
  let '(er, delta) := efficiency c throughput in
  ({| sample_count := samples; p99_ms := p99; throughput_bps := throughput;
      sqe_ratio := ratio; latency_guard_ms := guard; elapsed_ns := elapsed;
      have_valid_p99 := valid; latency_rising := valid && d_ge p99 guard;
      efficiency_ratio := er; delta_inflight := delta |},
   c <| hist_pair := set_pending_reset (Some old) (hist_pair c) |>).

(** ** Lifecycle and hot path *)

(** [adaptive_init] on a zeroed controller ([ring_init] clears the ring);
    [now_ns] is the clock reading it takes. *)
Definition adaptive_init (max_depth initial_inflight min_inflight now_ns : Z)
  : option adaptive_controller_t :=
  if (max_depth <? 1) || (initial_inflight <? 1) then None
  else
    let min_inflight := if min_inflight <? 1 then 4 else min_inflight in
    Some {|
      current_in_flight_limit := max_depth;
      current_batch_threshold := ADAPTIVE_MIN_BATCH;
      submit_calls := 0; sqes_submitted := 0;
      sample_start_ns := now_ns; sample_bytes := 0;
      current_p99_ms := d_zero; current_throughput_bps := d_zero;
      phase := ADAPTIVE_PHASE_PASSTHROUGH; passthrough_mode := true;
      max_queue_depth := max_depth; min_in_flight := min_inflight;
      aimd_initial_in_flight := initial_inflight; prev_in_flight_limit := 0;
      baseline_p99_ms := d_zero; latency_rise_threshold := d_zero;
      max_p99_ms := d_zero; prev_throughput_bps := d_zero;
      warmup_count := 0; plateau_count := 0; steady_count := 0; spike_count := 0;
      settling_timer := 0; entered_via_backoff := false;
      passthrough_qualify_count := 0; pressure_qualify_count := 0;
      prev_pending_snapshot := 0; batch_threshold_fixed := false;
      p99_head := 0; p99_count := 0; throughput_head := 0; throughput_count := 0;
      baseline_head := 0; baseline_count := 0;
      p99_window := replicate (Z.to_nat ADAPTIVE_P99_WINDOW) d_zero;
      throughput_window := replicate (Z.to_nat ADAPTIVE_THROUGHPUT_WINDOW) d_zero;
      baseline_window := replicate (Z.to_nat ADAPTIVE_BASELINE_WINDOW) d_zero;
      hist_pair := adaptive_hist_pair_init;
      tick_entered := 0 |}.

Definition adaptive_record_completion (c : adaptive_controller_t) (latency_ns bytes : Z)
  : adaptive_controller_t :=
  let latency_us := Z.quot latency_ns 1000 in
  let idx := adaptive_hist_active (hist_pair c) in
  let hp := hist_store (hist_pair c) idx
              (adaptive_hist_record (hist_at (hist_pair c) idx) latency_us) in
  c <| hist_pair := hp |> <| sample_bytes := u64 (sample_bytes c + u64 bytes) |>.

Definition adaptive_record_submit (c : adaptive_controller_t) (sqe_count : Z)
  : adaptive_controller_t :=
  if sqe_count <=? 0 then c
  else c <| submit_calls := u32 (submit_calls c + 1) |>
         <| sqes_submitted := u32 (sqes_submitted c + sqe_count) |>.

Definition adaptive_get_inflight_limit (c : adaptive_controller_t) : Z :=
  current_in_flight_limit c.
Definition adaptive_get_batch_threshold (c : adaptive_controller_t) : Z :=
  current_batch_threshold c.
Definition adaptive_is_passthrough (c : adaptive_controller_t) : bool := passthrough_mode c.

(** The enum value is an [int] to the caller: the codes in declaration order,
    and every other value is unknown. *)
Definition phase_of_int (n : Z) : option adaptive_phase_t :=
  if n =? 0 then Some ADAPTIVE_PHASE_BASELINE
  else if n =? 1 then Some ADAPTIVE_PHASE_PROBING
  else if n =? 2 then Some ADAPTIVE_PHASE_STEADY
  else if n =? 3 then Some ADAPTIVE_PHASE_BACKOFF
  else if n =? 4 then Some ADAPTIVE_PHASE_SETTLING
  else if n =? 5 then Some ADAPTIVE_PHASE_CONVERGED
  else if n =? 6 then Some ADAPTIVE_PHASE_PASSTHROUGH
  else None.

Definition adaptive_phase_name (n : Z) : string :=
  match phase_of_int n with
  | Some ADAPTIVE_PHASE_BASELINE => "BASELINE"
  | Some ADAPTIVE_PHASE_PROBING => "PROBING"
  | Some ADAPTIVE_PHASE_STEADY => "STEADY"
  | Some ADAPTIVE_PHASE_BACKOFF => "BACKOFF"
  | Some ADAPTIVE_PHASE_SETTLING => "SETTLING"
  | Some ADAPTIVE_PHASE_CONVERGED => "CONVERGED"
  | Some ADAPTIVE_PHASE_PASSTHROUGH => "PASSTHROUGH"
  | None => "UNKNOWN"
  end.

(** ** The AIMD state machine *)

(** A non-atomic [int] counter: [n++]. *)
Definition incr (n : Z) : Z := i32 (n + 1).

(** Each handler returns the source's [bool] and the new state. *)
Definition check_spike_backoff (c : adaptive_controller_t) (stats : tick_stats_t)
  : bool * adaptive_controller_t :=
  if latency_rising stats then
    let c := c <| spike_count := incr (spike_count c) |> in
    if 2 <=? spike_count c
    then (true, c <| phase := ADAPTIVE_PHASE_BACKOFF |> <| spike_count := 0 |>)
    else (false, c)
  else (false, c <| spike_count := 0 |>).

Definition aimd_increase (c : adaptive_controller_t) : bool * adaptive_controller_t :=
  let limit := current_in_flight_limit c in
  if limit <? max_queue_depth c then
    let limit := limit + ADAPTIVE_AIMD_INCREASE in
    let limit := if max_queue_depth c <? limit then max_queue_depth c else limit in
    (true, c <| current_in_flight_limit := limit |>)
  else (false, c).

Definition handle_baseline_phase (c : adaptive_controller_t) (stats : tick_stats_t)
  : bool * adaptive_controller_t :=
  let c := c <| warmup_count := incr (warmup_count c) |> in
  if ADAPTIVE_WARMUP_SAMPLES <=? warmup_count c
  then (false, c <| phase := ADAPTIVE_PHASE_PROBING |>
                 <| prev_throughput_bps := throughput_bps stats |>
                 <| prev_in_flight_limit := current_in_flight_limit c |>)
  else (false, c).

Definition er_threshold (stats : tick_stats_t) : double :=
  if d_gt (throughput_bps stats) d_zero && negb (delta_inflight stats =? 0)
  then d_div (d_mul (throughput_bps stats) ADAPTIVE_ER_EPSILON_RATIO)
             (d_abs (d_of_Z (delta_inflight stats)))
  else d_zero.

Definition handle_probing_phase (c : adaptive_controller_t) (stats : tick_stats_t)
  : bool * adaptive_controller_t :=
  let '(spiked, c) := check_spike_backoff c stats in
  if spiked then (false, c)
  else if sample_count stats =? 0 then (false, c)
  else if d_isnan (efficiency_ratio stats) then
    let '(raised, c) := aimd_increase c in
    if raised then (true, c <| plateau_count := 0 |>)
    else (false, c <| plateau_count := incr (plateau_count c) |>)
  else if d_gt (efficiency_ratio stats) (er_threshold stats) then
    let '(raised, c) := aimd_increase c in
    (raised, c <| plateau_count := 0 |>)
  else if d_gt (max_p99_ms c) d_zero && have_valid_p99 stats
          && d_lt (p99_ms stats) (max_p99_ms c) then
    let '(raised, c) := aimd_increase c in
    (raised, c <| plateau_count := 0 |>)
  else
    let c := c <| plateau_count := incr (plateau_count c) |> in
    if 3 <=? plateau_count c
    then (false, c <| entered_via_backoff := false |> <| spike_count := 0 |>
                   <| phase := ADAPTIVE_PHASE_SETTLING |> <| settling_timer := 0 |>)
    else (false, c).

Definition handle_settling_phase (c : adaptive_controller_t) (stats : tick_stats_t)
  : bool * adaptive_controller_t :=
  if latency_rising stats then
    (false, c <| entered_via_backoff := true |> <| phase := ADAPTIVE_PHASE_BACKOFF |>
              <| settling_timer := 0 |> <| spike_count := 0 |>)
  else
    let c := c <| settling_timer := incr (settling_timer c) |> in
    if ADAPTIVE_SETTLING_TICKS <=? settling_timer c
    then (false, c <| phase := ADAPTIVE_PHASE_STEADY |> <| steady_count := 0 |>)
    else (false, c).

Definition handle_steady_phase (c : adaptive_controller_t) (stats : tick_stats_t)
  : bool * adaptive_controller_t :=
  let c := c <| steady_count := incr (steady_count c) |> in
  let '(spiked, c) := check_spike_backoff c stats in
  if spiked then (false, c <| steady_count := 0 |>)
  else if entered_via_backoff c && (ADAPTIVE_REPROBE_INTERVAL <=? steady_count c) then
    (false, c <| phase := ADAPTIVE_PHASE_PROBING |> <| entered_via_backoff := false |>
              <| plateau_count := 0 |>)
  else if negb (entered_via_backoff c) && (ADAPTIVE_STEADY_THRESHOLD <=? steady_count c) then
    (false, c <| phase := ADAPTIVE_PHASE_CONVERGED |>)
  else (false, c).

Definition handle_backoff_phase (c : adaptive_controller_t) (stats : tick_stats_t)
  : bool * adaptive_controller_t :=
  let in_flight_limit := current_in_flight_limit c in
  let reduced := d_floor (d_mul (d_of_Z in_flight_limit) ADAPTIVE_AIMD_DECREASE) in
  let new_limit := if min_in_flight c <? reduced then reduced else min_in_flight c in
  (true, c <| current_in_flight_limit := new_limit |> <| plateau_count := 0 |>
           <| entered_via_backoff := true |> <| phase := ADAPTIVE_PHASE_SETTLING |>
           <| settling_timer := 0 |>).

Definition handle_converged_phase (c : adaptive_controller_t) (stats : tick_stats_t)
  : bool * adaptive_controller_t :=
  let '(spiked, c) := check_spike_backoff c stats in
  (false, if spiked then c <| steady_count := 0 |> else c).

(** [now_ns] is the clock reading stored as the new sample start. *)
Definition adaptive_reset_to_baseline (c : adaptive_controller_t) (now_ns : Z)
  : adaptive_controller_t :=
  let initial := if 0 <? aimd_initial_in_flight c then aimd_initial_in_flight c
                 else Z.quot (max_queue_depth c) 2 in
  let initial := if initial <? min_in_flight c then min_in_flight c else initial in
  let c := c <| phase := ADAPTIVE_PHASE_BASELINE |> <| current_in_flight_limit := initial |>
             <| warmup_count := 0 |> <| plateau_count := 0 |> <| steady_count := 0 |>
             <| spike_count := 0 |> <| settling_timer := 0 |>
             <| entered_via_backoff := false |> <| passthrough_qualify_count := 0 |>
             <| p99_head := 0 |> <| p99_count := 0 |>
             <| throughput_head := 0 |> <| throughput_count := 0 |>
             <| baseline_head := 0 |> <| baseline_count := 0 |>
             <| baseline_p99_ms := d_zero |> <| prev_throughput_bps := d_zero |>
             <| prev_in_flight_limit := 0 |> in
  let hp := flush_pending_reset (hist_pair c) in
  let '(old, hp) := adaptive_hist_swap hp in
  c <| hist_pair := set_pending_reset (Some old) hp |>
    <| sample_start_ns := now_ns |> <| sample_bytes := 0 |>
    <| submit_calls := 0 |> <| sqes_submitted := 0 |>.

(** ** The control loop *)

(** The inner loop: one step of the batch threshold. *)
Definition batch_optimizer (c : adaptive_controller_t) (stats : tick_stats_t)
  : bool * adaptive_controller_t :=
  let batch_threshold := current_batch_threshold c in
  if negb (batch_threshold_fixed c) && d_gt (sqe_ratio stats) d_zero then
    if d_lt (sqe_ratio stats) ADAPTIVE_TARGET_SQE_RATIO
       && (batch_threshold <? ADAPTIVE_MAX_BATCH_THRESHOLD) then
      (true, c <| current_batch_threshold := batch_threshold + 1 |>)
    else if d_gt (sqe_ratio stats) (d_mul ADAPTIVE_TARGET_SQE_RATIO (d_lit 3 2))
            && (ADAPTIVE_MIN_BATCH <? batch_threshold) then
      (true, c <| current_batch_threshold := batch_threshold - 1 |>)
    else (false, c)
  else (false, c).

(** The outer loop: [switch (phase)]. *)
Definition aimd_step (c : adaptive_controller_t) (stats : tick_stats_t)
  : bool * adaptive_controller_t :=
  match phase c with
  | ADAPTIVE_PHASE_BASELINE => handle_baseline_phase c stats
  | ADAPTIVE_PHASE_PROBING => handle_probing_phase c stats
  | ADAPTIVE_PHASE_SETTLING => handle_settling_phase c stats
  | ADAPTIVE_PHASE_STEADY => handle_steady_phase c stats
  | ADAPTIVE_PHASE_BACKOFF => handle_backoff_phase c stats
  | ADAPTIVE_PHASE_CONVERGED => handle_converged_phase c stats
  | ADAPTIVE_PHASE_PASSTHROUGH => (false, c)
  end.

Definition passthrough_reentry (c : adaptive_controller_t) (pending_delta : Z)
  : bool * adaptive_controller_t :=
  match phase c with
  | ADAPTIVE_PHASE_CONVERGED =>
      if Z.abs pending_delta <=? PASSTHROUGH_REENTER_DELTA_MAX then
        let c := c <| passthrough_qualify_count := incr (passthrough_qualify_count c) |> in
        if PASSTHROUGH_REENTER_TICKS <=? passthrough_qualify_count c then
          (true, c <| passthrough_mode := true |> <| phase := ADAPTIVE_PHASE_PASSTHROUGH |>
                   <| current_in_flight_limit := max_queue_depth c |>
                   <| passthrough_qualify_count := 0 |>)
        else (false, c)
      else (false, c <| passthrough_qualify_count := 0 |>)
  | _ => (false, c)
  end.

(** The pressure test of a passthrough tick: pending growth, or a p99 above
    the configured maximum; [t1] is the clock reading that ends the period. *)
Definition passthrough_pressure (c : adaptive_controller_t) (elapsed pending_delta t1 : Z)
  : bool * adaptive_controller_t :=
  let pressure := AIMD_ENGAGE_PENDING_DELTA <? pending_delta in
  if negb pressure && d_gt (max_p99_ms c) d_zero then
    let '(pt_stats, c) := tick_swap_and_compute_stats c elapsed in
    (have_valid_p99 pt_stats && d_gt (p99_ms pt_stats) (max_p99_ms c),
     c <| sample_start_ns := t1 |>)
  else (pressure, c).

(** The passthrough branch of a tick; [t2] is the clock reading of the reset
    to BASELINE. *)
Definition passthrough_tick (c : adaptive_controller_t) (elapsed pending_delta t1 t2 : Z)
  : bool * adaptive_controller_t :=
  let '(pressure, c) := passthrough_pressure c elapsed pending_delta t1 in
  if (pressure : bool) then
    let c := c <| pressure_qualify_count := incr (pressure_qualify_count c) |> in
    if AIMD_ENGAGE_TICKS <=? pressure_qualify_count c then
      let c := c <| passthrough_mode := false |> in
      let c := adaptive_reset_to_baseline c t2 in
      (true, c <| pressure_qualify_count := 0 |>)
    else (false, c)
  else (false, c <| pressure_qualify_count := 0 |>).

(** The AIMD branch of a tick: statistics, inner loop, outer loop,
    passthrough re-entry; [t1] is its final clock reading. *)
Definition aimd_tick (c : adaptive_controller_t) (elapsed pending_delta t1 : Z)
  : bool * adaptive_controller_t :=
  let '(stats, c) := tick_swap_and_compute_stats c elapsed in
  let '(changed1, c) := batch_optimizer c stats in
  let c := c <| prev_throughput_bps := throughput_bps stats |>
             <| prev_in_flight_limit := current_in_flight_limit c |> in
  let '(changed2, c) := aimd_step c stats in
  let '(changed3, c) := passthrough_reentry c pending_delta in
  (changed1 || changed2 || changed3, c <| sample_start_ns := t1 |>).

(** The clock reading and the step-back repair that open a tick. *)
Definition tick_elapsed (c : adaptive_controller_t) (now_ns : Z) : Z * adaptive_controller_t :=
  let elapsed := i64 (now_ns - sample_start_ns c) in
  if elapsed <? 0 then
    (0, c <| sample_start_ns := now_ns |> <| sample_bytes := 0 |>
          <| submit_calls := 0 |> <| sqes_submitted := 0 |>)
  else (elapsed, c).

Definition have_enough_data (c : adaptive_controller_t) (elapsed : Z) : bool :=
  let active := hist_at (hist_pair c) (adaptive_hist_active (hist_pair c)) in
  let peek_count := i32 (total_count active) in
  (ADAPTIVE_LOW_IOPS_MIN_SAMPLES <=? peek_count)
  || (ADAPTIVE_MIN_SAMPLE_WINDOW_MS <=? Z.quot elapsed 1000000).

Definition release_tick (c : adaptive_controller_t) : adaptive_controller_t :=
  c <| tick_entered := i32 (tick_entered c - 1) |>.

(** [t0], [t1], [t2] are the clock readings of the tick in program order. *)
Definition adaptive_tick (c : adaptive_controller_t) (pending_count t0 t1 t2 : Z)
  : bool * adaptive_controller_t :=
  let entered := tick_entered c in
  let c := c <| tick_entered := i32 (entered + 1) |> in
  if negb (entered =? 0) then (false, release_tick c)
  else
    let '(elapsed, c) := tick_elapsed c t0 in
    if negb (have_enough_data c elapsed) then (false, release_tick c)
    else
      let pending_delta := i32 (pending_count - prev_pending_snapshot c) in
      let c := c <| prev_pending_snapshot := pending_count |> in
      let '(changed, c) :=
        if adaptive_is_passthrough c
        then passthrough_tick c elapsed pending_delta t1 t2
        else aimd_tick c elapsed pending_delta t1 in
      (changed, release_tick c).

(** One ring's share of [aura_set_batch_threshold]. *)
Definition ctrl_set_batch_threshold (c : adaptive_controller_t) (threshold : Z)
  : adaptive_controller_t :=
  if threshold =? -1 then c <| batch_threshold_fixed := false |>
  else if threshold =? 0 then
    c <| current_batch_threshold := INT_MAX |> <| batch_threshold_fixed := true |>
  else c <| current_batch_threshold := threshold |> <| batch_threshold_fixed := true |>.

(** ** The controller as a transition system *)

(** Everything the engine does to a controller after [adaptive_init]: ticks,
    completions, submits, and the three run-time setters with the guards of
    [aura_set_max_p99_latency], [aura_set_min_in_flight] and
    [aura_set_batch_threshold]. *)
Inductive ctrl_step (c : adaptive_controller_t) : adaptive_controller_t -> Prop :=
  | step_tick pending t0 t1 t2 :
      ctrl_step c (snd (adaptive_tick c pending t0 t1 t2))
  | step_completion latency_ns bytes :
      ctrl_step c (adaptive_record_completion c latency_ns bytes)
  | step_submit n :
      ctrl_step c (adaptive_record_submit c n)
  | step_set_max_p99 v :
      d_lt v d_zero = false -> ctrl_step c (c <| max_p99_ms := v |>)
  | step_set_min_in_flight m :
      1 <= m <= max_queue_depth c -> ctrl_step c (c <| min_in_flight := m |>)
  | step_set_batch_threshold t :
      -1 <= t -> ctrl_step c (ctrl_set_batch_threshold c t).

(** States reachable from a controller initialised with the parameters that
    [aura_create_with_options] lets through. *)
Definition ctrl_reachable (c : adaptive_controller_t) : Prop :=
  exists depth initial minimum now c0,
    adaptive_init depth initial minimum now = Some c0 /\
    initial <= depth <= 32768 /\ (if minimum <? 1 then 4 else minimum) <= depth /\
    rtc ctrl_step c0 c.

(** ** Invariants *)

(** The part of the state the AIMD machine reads and writes; the statistics of
    a tick leave it alone. *)
Definition aimd_view (c : adaptive_controller_t) :=
  (phase c, passthrough_mode c, current_in_flight_limit c, max_queue_depth c, min_in_flight c,
   aimd_initial_in_flight c, prev_in_flight_limit c, plateau_count c, entered_via_backoff c,
   (warmup_count c, steady_count c, spike_count c, settling_timer c, max_p99_ms c,
    current_batch_threshold c, batch_threshold_fixed c, passthrough_qualify_count c,
    pressure_qualify_count c, prev_pending_snapshot c, tick_entered c, sample_start_ns c)).

Definition limit_inv (c : adaptive_controller_t) : Prop :=
  1 <= current_in_flight_limit c <= max_queue_depth c /\
  1 <= min_in_flight c <= max_queue_depth c /\
  aimd_initial_in_flight c <= max_queue_depth c /\ max_queue_depth c <= 32768.

(** Why the plateau exit of PROBING is dead: whenever the limit has just been
    raised, the plateau counter has just been cleared. *)
Definition plateau_inv (c : adaptive_controller_t) : Prop :=
  (phase c = ADAPTIVE_PHASE_PROBING ->
     prev_in_flight_limit c < current_in_flight_limit c -> plateau_count c = 0) /\
  (phase c = ADAPTIVE_PHASE_SETTLING \/ phase c = ADAPTIVE_PHASE_STEADY ->
     entered_via_backoff c = true) /\
  phase c <> ADAPTIVE_PHASE_CONVERGED /\
  passthrough_mode c = phase_eqb (phase c) ADAPTIVE_PHASE_PASSTHROUGH.

Definition hist_empty (h : adaptive_histogram_t) : Prop :=
  Forall (fun x => x = 0) (buckets h) /\ overflow h = 0 /\ total_count h = 0.

(** The inactive histogram is the pending one or is empty. *)
Definition pair_inv (p : adaptive_histogram_pair_t) : Prop :=
  pair_wf p /\
  (pending_reset p = None -> hist_empty (hist_at p (1 - active_index p))).

(** The edges of the documented phase graph; the last one takes both
    CONVERGED edges in one tick. *)
Definition phase_edge (a b : adaptive_phase_t) : bool :=
  match a, b with
  | ADAPTIVE_PHASE_PASSTHROUGH, ADAPTIVE_PHASE_BASELINE
  | ADAPTIVE_PHASE_BASELINE, ADAPTIVE_PHASE_PROBING
  | ADAPTIVE_PHASE_PROBING, (ADAPTIVE_PHASE_BACKOFF | ADAPTIVE_PHASE_SETTLING)
  | ADAPTIVE_PHASE_SETTLING, (ADAPTIVE_PHASE_BACKOFF | ADAPTIVE_PHASE_STEADY)
  | ADAPTIVE_PHASE_STEADY,
      (ADAPTIVE_PHASE_BACKOFF | ADAPTIVE_PHASE_PROBING | ADAPTIVE_PHASE_CONVERGED)
  | ADAPTIVE_PHASE_BACKOFF, ADAPTIVE_PHASE_SETTLING
  | ADAPTIVE_PHASE_CONVERGED, (ADAPTIVE_PHASE_BACKOFF | ADAPTIVE_PHASE_PASSTHROUGH)
  | ADAPTIVE_PHASE_STEADY, ADAPTIVE_PHASE_PASSTHROUGH => true
  | _, _ => phase_eqb a b
  end.

(** ** Frames *)

(** Split a goal that is a chain of tests and tuples of the model. *)
Ltac ctl_case :=
  repeat match goal with
  | |- context [let '(_, _) := ?x in _] => destruct x eqn:?
  | |- context [if ?b then _ else _] => destruct b eqn:?
  | |- context [match ?b with _ => _ end] =>
      match type of b with
      | adaptive_phase_t => destruct b eqn:?
      | option _ => destruct b eqn:?
      end
  end.

Lemma update_windows_frame p t c : aimd_view (update_windows p t c) = aimd_view c.
Proof.
  unfold update_windows, add_p99_window, add_baseline_window, add_throughput_window, window_add.
  ctl_case; reflexivity.
Qed.

Lemma update_windows_hist p t c : hist_pair (update_windows p t c) = hist_pair c.
Proof.
  unfold update_windows, add_p99_window, add_baseline_window, add_throughput_window, window_add.
  ctl_case; reflexivity.
Qed.
