(* ===== verification/ControllerSpec.v ===== *)
(** * What the adaptive controller guarantees

    The invariants of [Controller.ctrl_step] and the theorems about the
    transition system, the phase machine, the windows and the tick. *)
From Stdlib Require Import ZArith Lia List SpecFloat.
From stdpp Require Import base tactics list relations.
From S2P Require Import Prelude Double Windows Histogram Controller.

#[local] Open Scope Z_scope.

(** ** The statistics of a tick *)

Lemma update_windows_counters p t c :
  sample_bytes (update_windows p t c) = sample_bytes c /\
  submit_calls (update_windows p t c) = submit_calls c /\
  sqes_submitted (update_windows p t c) = sqes_submitted c.
Proof.
  unfold update_windows, add_p99_window, add_baseline_window, add_throughput_window, window_add.
  ctl_case; auto.
Qed.

Lemma efficiency_raised c t :
  d_isnan (fst (efficiency c t)) = false -> prev_in_flight_limit c < current_in_flight_limit c.
Proof.
  unfold efficiency. repeat case_match; cbn; try done. lia.
Qed.


(** Everything the rest of the tick relies on in the statistics. *)
Lemma swap_stats_frame c e s c' :
  tick_swap_and_compute_stats c e = (s, c') ->
  aimd_view c' = aimd_view c /\
  hist_pair c' =
    set_pending_reset (Some (active_index (hist_pair c)))
      (snd (adaptive_hist_swap (flush_pending_reset (hist_pair c)))) /\
  (sample_bytes c' = 0 /\ submit_calls c' = 0 /\ sqes_submitted c' = 0).
Proof.
  unfold tick_swap_and_compute_stats.
  assert (active_index (flush_pending_reset (hist_pair c)) = active_index (hist_pair c)) as Ea.
  { unfold flush_pending_reset. by destruct (pending_reset _). }
  set (hp := flush_pending_reset (hist_pair c)) in *. unfold adaptive_hist_swap.
  cbv beta iota zeta.
  match goal with |- context [update_windows ?p ?t ?c] =>
    pose proof (update_windows_frame p t c) as Hv;
    pose proof (update_windows_hist p t c) as Hh;
    pose proof (update_windows_counters p t c) as Hc;
    generalize dependent (update_windows p t c); intros u Hv Hh Hc end.
  change (aimd_view u = aimd_view c) in Hv.
  cbn [hist_pair sample_bytes submit_calls sqes_submitted] in Hh, Hc.
  destruct (efficiency _ _). intros [= _ <-].
  split; [exact Hv|]. cbn [snd]. rewrite <- Ea. split; [|exact Hc].
  match goal with |- ?l = _ => change l with (set_pending_reset (Some (active_index hp)) (hist_pair u)) end.
  rewrite Hh. reflexivity.
Qed.

Lemma swap_stats_raised c e s c' :
  tick_swap_and_compute_stats c e = (s, c') ->
  d_isnan (efficiency_ratio s) = false ->
  prev_in_flight_limit c < current_in_flight_limit c.
Proof.
  unfold tick_swap_and_compute_stats. destruct (adaptive_hist_swap _) as [old hp].
  cbv beta iota zeta.
  match goal with |- context [update_windows ?p ?t ?c] =>
    pose proof (update_windows_frame p t c) as Hv;
    generalize dependent (update_windows p t c); intros u Hv end.
  change (aimd_view u = aimd_view c) in Hv.
  match goal with |- context [efficiency ?x ?t] =>
    pose proof (efficiency_raised x t) as Hr; destruct (efficiency x t) as [er d] end.
  intros [= <- _]. cbn [efficiency_ratio]. intros Hn. specialize (Hr Hn).
  change (prev_in_flight_limit u < current_in_flight_limit u) in Hr.
  unfold aimd_view in Hv. injection Hv. lia.
Qed.

Lemma swap_stats_measured c e s c' :
  tick_swap_and_compute_stats c e = (s, c') ->
  let hp := flush_pending_reset (hist_pair c) in
  let h := hist_at hp (active_index hp) in
  sample_count s = u32 (total_count h) /\ p99_ms s = adaptive_hist_p99 h.
Proof.
  unfold tick_swap_and_compute_stats. generalize (flush_pending_reset (hist_pair c)). intros hp.
  unfold adaptive_hist_swap. cbv beta iota zeta.
  match goal with |- context [update_windows ?p ?t ?c] => generalize (update_windows p t c) end.
  intros u. match goal with |- context [efficiency ?x ?t] => destruct (efficiency x t) as [er d] end.
  intros E. apply pair_equal_spec in E as [<- _]. split; reflexivity.
Qed.

(** ** The in-flight limit *)

Lemma d_floor_backoff l :
  1 <= l <= 32768 ->
  d_floor (d_mul (d_of_Z l) ADAPTIVE_AIMD_DECREASE) = 4 * l / 5.
Proof.
  intros H. apply Z.eqb_eq.
  apply (all_below_spec (Z.to_nat 32768) 1
    (fun l => d_floor (d_mul (d_of_Z l) ADAPTIVE_AIMD_DECREASE) =? 4 * l / 5)).
  - vm_compute. reflexivity.
  - rewrite Z2Nat.id; lia.
Qed.

(** The AIMD view determines both invariants. *)
Lemma limit_inv_view c c' : aimd_view c = aimd_view c' -> limit_inv c -> limit_inv c'.
Proof.
  intros Hv. unfold aimd_view in Hv. injection Hv. intros. unfold limit_inv in *. congruence.
Qed.

Lemma plateau_inv_view c c' : aimd_view c = aimd_view c' -> plateau_inv c -> plateau_inv c'.
Proof.
  intros Hv. unfold aimd_view in Hv. injection Hv. intros. unfold plateau_inv in *. congruence.
Qed.

Lemma view_max_depth c c' : aimd_view c = aimd_view c' -> max_queue_depth c = max_queue_depth c'.
Proof. unfold aimd_view. intros H. injection H. congruence. Qed.

(** Unfold one step of the machine and split every test of it. *)
Ltac ctl_unfold :=
  unfold aimd_step, handle_baseline_phase, handle_probing_phase, handle_settling_phase,
    handle_steady_phase, handle_backoff_phase, handle_converged_phase, check_spike_backoff,
    aimd_increase, passthrough_reentry, batch_optimizer in *.

Ltac ctl_split :=
  repeat match goal with
  | H : context [let '(_, _) := ?x in _] |- _ => destruct x eqn:?
  | H : (if ?b then _ else _) = _ |- _ => destruct b eqn:?
  | H : (_, _) = (_, _) |- _ => apply pair_equal_spec in H as [? ?]; subst
  end.

Lemma aimd_step_limit c s r c' :
  aimd_step c s = (r, c') -> limit_inv c ->
  limit_inv c' /\ max_queue_depth c' = max_queue_depth c.
Proof.
  intros E (Hl & Hm & Hi & Hq).
  pose proof (d_floor_backoff (current_in_flight_limit c) ltac:(lia)) as Hf.
  unfold aimd_step in E. destruct (phase c) eqn:?; ctl_unfold; ctl_split; unfold limit_inv; cbn in *.
  all: unfold ADAPTIVE_AIMD_INCREASE; try rewrite Hf in *.
  all: repeat zcase; try dlia.
Qed.

Lemma aimd_step_plateau c s r c' :
  aimd_step c s = (r, c') -> plateau_inv c ->
  prev_in_flight_limit c = current_in_flight_limit c ->
  (phase c = ADAPTIVE_PHASE_PROBING -> d_isnan (efficiency_ratio s) = false ->
     plateau_count c = 0) ->
  plateau_inv c'.
Proof.
  intros E (Hp & Hb & Hc & Hm) Hprev Hs.
  unfold aimd_step in E. destruct (phase c) eqn:Hph; try congruence;
    ctl_unfold; ctl_split; unfold plateau_inv; cbn in *; rewrite ?Hph in *.
  all: try (rewrite Hs in * by done; cbn in *; discriminate).
  all: split_and!; intros; try done; try lia; try solve [intuition congruence];
    rewrite Hb in * by auto; done.
Qed.

Lemma passthrough_reentry_id c d : phase c <> ADAPTIVE_PHASE_CONVERGED ->
  passthrough_reentry c d = (false, c).
Proof. unfold passthrough_reentry. by destruct (phase c). Qed.

Lemma batch_optimizer_frame c s r c' :
  batch_optimizer c s = (r, c') ->
  c' = c <| current_batch_threshold := current_batch_threshold c' |>.
Proof. unfold batch_optimizer. intros E. ctl_split; try reflexivity; by destruct c'. Qed.

Lemma reset_limit_inv c t :
  limit_inv c -> limit_inv (adaptive_reset_to_baseline c t) /\
  max_queue_depth (adaptive_reset_to_baseline c t) = max_queue_depth c.
Proof.
  intros (Hl & Hm & Hi & Hq). unfold adaptive_reset_to_baseline.
  destruct (adaptive_hist_swap _) as [old hp]. unfold limit_inv. cbn.
  repeat zcase; dlia.
Qed.

Definition ctrl_inv (c : adaptive_controller_t) : Prop := limit_inv c /\ plateau_inv c.

Lemma ctrl_inv_view c c' : aimd_view c = aimd_view c' -> ctrl_inv c -> ctrl_inv c'.
Proof. intros ? []. split; [by eapply limit_inv_view|by eapply plateau_inv_view]. Qed.

Lemma aimd_tick_inv c e d t r c' :
  aimd_tick c e d t = (r, c') -> ctrl_inv c ->
  ctrl_inv c' /\ max_queue_depth c' = max_queue_depth c.
Proof.
  unfold aimd_tick. intros E [Hl Hp].
  destruct (tick_swap_and_compute_stats c e) as [s c1] eqn:Es.
  destruct (swap_stats_frame _ _ _ _ Es) as (Hv & _ & _).
  pose proof (swap_stats_raised _ _ _ _ Es) as Hr.
  destruct (batch_optimizer c1 s) as [r1 c2] eqn:Eb.
  pose proof (batch_optimizer_frame _ _ _ _ Eb) as Hb.
  set (c3 := c2 <| prev_throughput_bps := _ |> <| prev_in_flight_limit := _ |>) in *.
  destruct (aimd_step c3 s) as [r2 c4] eqn:Ea.
  assert (max_queue_depth c1 = max_queue_depth c) as Hq by exact (view_max_depth _ _ Hv).
  assert (limit_inv c3 /\ max_queue_depth c3 = max_queue_depth c) as [Hl3 Hq3].
  { apply limit_inv_view with (c' := c1) in Hl; [|done]. subst c3. rewrite Hb. auto. }
  assert (plateau_inv c3) as Hp3.
  { apply plateau_inv_view with (c' := c1) in Hp as (P1 & P2 & P3 & P4); [|done].
    subst c3. rewrite Hb. unfold plateau_inv. cbn. split_and!; auto. lia. }
  assert (phase c3 = ADAPTIVE_PHASE_PROBING -> d_isnan (efficiency_ratio s) = false ->
          plateau_count c3 = 0) as Hs3.
  { subst c3. rewrite Hb. cbn. intros Hph Hn. destruct Hp as (P1 & _).
    unfold aimd_view in Hv. injection Hv. intros.
    replace (plateau_count c1) with (plateau_count c) by congruence.
    apply P1; [congruence|auto]. }
  destruct (aimd_step_limit _ _ _ _ Ea Hl3) as [Hl4 Hq4].
  pose proof (aimd_step_plateau _ _ _ _ Ea Hp3 eq_refl Hs3) as Hp4.
  rewrite passthrough_reentry_id in E by apply Hp4.
  apply pair_equal_spec in E as [_ <-]. split; [exact (conj Hl4 Hp4)|].
  change (max_queue_depth c4 = max_queue_depth c). congruence.
Qed.

(** The reset leaves passthrough for BASELINE with every counter cleared. *)
Lemma reset_plateau_inv c t :
  passthrough_mode c = false -> plateau_inv (adaptive_reset_to_baseline c t).
Proof.
  intros H. unfold adaptive_reset_to_baseline. destruct (adaptive_hist_swap _) as [old hp].
  unfold plateau_inv. cbn. split_and!; try done. intuition congruence.
Qed.

Lemma ctrl_inv_counters c a b d :
  ctrl_inv c ->
  ctrl_inv (c <| pressure_qualify_count := a |> <| sample_start_ns := b |>
              <| prev_pending_snapshot := d |>).
Proof. exact (fun H => H). Qed.

(** ** The histogram pair across a period *)

Lemma hist_reset_empty h : hist_empty (adaptive_hist_reset h).
Proof. split_and!; try done. by apply Forall_replicate. Qed.

(** After the flush the inactive histogram is empty. *)
Lemma flush_pair_inv p :
  pair_inv p ->
  let p' := flush_pending_reset p in
  pair_wf p' /\ active_index p' = active_index p /\ pending_reset p' = None /\
  hist_empty (hist_at p' (1 - active_index p)) /\
  hist_at p' (active_index p) = hist_at p (active_index p).
Proof.
  intros [Hwf He]. pose proof Hwf as (Hl & Ha & Hp). unfold flush_pending_reset.
  destruct (pending_reset p) as [i|] eqn:Ei; [|cbv zeta; split_and!; auto].
  specialize (Hp i eq_refl) as ->. cbv zeta.
  set (h := adaptive_hist_reset _).
  pose proof (hist_store_wf p Hwf (1 - active_index p) h) as (H1 & H2 & _).
  split; [split; [exact H1|split; [exact H2|done]]|]. split; [done|]. split; [done|].
  change (hist_at (set_pending_reset None ?q)) with (hist_at q).
  rewrite hist_at_store_eq, hist_at_store_ne by (auto; lia).
  split; [apply hist_reset_empty|done].
Qed.

(** The swap at a period's end, as the tick and the reset perform it. *)
Lemma swap_pair_inv p :
  pair_inv p ->
  let p' := set_pending_reset (Some (active_index p))
              (snd (adaptive_hist_swap (flush_pending_reset p))) in
  pair_inv p' /\ active_index p' = 1 - active_index p /\
  hist_empty (hist_at p' (active_index p')) /\
  hist_at p' (active_index p) = hist_at p (active_index p).
Proof.
  intros Hinv. destruct (flush_pair_inv p Hinv) as (Hwf & Ha & Hp & He & Hat).
  cbv zeta. pose proof (swap_index _ Hwf) as Hs. rewrite Ha in Hs.
  set (q := flush_pending_reset p) in *.
  change (active_index (set_pending_reset ?x ?y)) with (active_index y).
  change (hist_at (set_pending_reset ?x ?y)) with (hist_at y).
  change (hist_at (snd (adaptive_hist_swap q))) with (hist_at q).
  rewrite Hs. split_and!; try done.
  destruct Hwf as (H1 & H2 & H3). split; [|done].
  unfold pair_wf. cbn [histograms set_pending_reset snd adaptive_hist_swap active_index pending_reset].
  change (Z.lxor (active_index q) 1) with (active_index (snd (adaptive_hist_swap q))).
  rewrite Hs. split_and!; try done; try lia. intros i [= <-]. lia.
Qed.

Lemma record_pair_inv p idx h :
  pair_inv p -> idx = active_index p -> pair_inv (hist_store p idx h).
Proof.
  intros [Hwf He] ->. split; [by apply hist_store_wf|].
  cbn [active_index pending_reset hist_store]. intros Hp.
  fold (hist_store p (active_index p) h). rewrite hist_at_store_ne by lia. auto.
Qed.

(** The pressure test changes the statistics and the clock, nothing else. *)
Lemma passthrough_pressure_frame c e d t pr c' :
  passthrough_pressure c e d t = (pr, c') ->
  exists s, aimd_view c' = aimd_view (c <| sample_start_ns := s |>) /\
    (pair_inv (hist_pair c) -> pair_inv (hist_pair c')).
Proof.
  unfold passthrough_pressure. intros E. ctl_split.
  - destruct (swap_stats_frame _ _ _ _ Heqp) as (Hv & Hh & _).
    exists t. split; [|intros Hinv; change (hist_pair (a <| sample_start_ns := t |>)) with (hist_pair a);
      rewrite Hh; by apply swap_pair_inv].
    unfold aimd_view in *. cbn. injection Hv. congruence.
  - exists (sample_start_ns c'). split; [by destruct c'|done].
Qed.

Lemma passthrough_tick_inv c e d t1 t2 r c' :
  passthrough_tick c e d t1 t2 = (r, c') -> ctrl_inv c ->
  ctrl_inv c' /\ max_queue_depth c' = max_queue_depth c.
Proof.
  unfold passthrough_tick. intros E Hinv.
  destruct (passthrough_pressure c e d t1) as [pr c1] eqn:E1.
  destruct (passthrough_pressure_frame _ _ _ _ _ _ E1) as (st & Hv & _).
  assert (max_queue_depth c1 = max_queue_depth c) as Hq1 by exact (view_max_depth _ _ Hv).
  pose proof (ctrl_inv_view _ c1 (eq_sym Hv) Hinv) as Hinv1. clear E1 Hv.
  destruct pr; cycle 1; ctl_split; try (split; [exact Hinv1|exact Hq1]).
  destruct Hinv1 as [Hl1 _].
  set (c2 := c1 <| pressure_qualify_count := _ |> <| passthrough_mode := _ |>).
  destruct (reset_limit_inv c2 t2 Hl1) as [Hl2 Hq2].
  pose proof (reset_plateau_inv c2 t2 eq_refl) as Hp2.
  change (max_queue_depth c2) with (max_queue_depth c1) in Hq2. rewrite Hq1 in Hq2.
  generalize dependent (adaptive_reset_to_baseline c2 t2). intros c3 Hl3 Hq3 Hp3.
  split; [exact (conj Hl3 Hp3)|exact Hq3].
Qed.

Lemma adaptive_tick_inv c p t0 t1 t2 :
  ctrl_inv c -> ctrl_inv (snd (adaptive_tick c p t0 t1 t2)) /\
  max_queue_depth (snd (adaptive_tick c p t0 t1 t2)) = max_queue_depth c.
Proof.
  intros Hinv. unfold adaptive_tick.
  destruct (negb _); [split; [exact Hinv|done]|].
  destruct (tick_elapsed _ t0) as [e c1] eqn:E1.
  assert (ctrl_inv c1 /\ max_queue_depth c1 = max_queue_depth c) as [H1 Q1].
  { unfold tick_elapsed in E1. ctl_split; split; try exact Hinv; done. }
  destruct (negb _); [split; [exact H1|exact Q1]|].
  set (c2 := c1 <| prev_pending_snapshot := p |>).
  match goal with |- context [let '(_, _) := ?x in _] => destruct x as [r c3] eqn:E3 end.
  cbn [snd].
  assert (ctrl_inv c3 /\ max_queue_depth c3 = max_queue_depth c2) as [H3 Q3].
  { destruct (adaptive_is_passthrough c2);
      [by eapply passthrough_tick_inv|by eapply aimd_tick_inv]. }
  split; [exact H3|]. change (max_queue_depth c3 = max_queue_depth c). rewrite Q3. exact Q1.
Qed.

Lemma ctrl_step_inv c c' : ctrl_step c c' -> ctrl_inv c -> ctrl_inv c'.
Proof.
  intros Hs Hinv. destruct Hs.
  - by apply adaptive_tick_inv.
  - exact Hinv.
  - unfold adaptive_record_submit. destruct (_ <=? 0); exact Hinv.
  - exact Hinv.
  - destruct Hinv as [(Hl & Hm & Hr) Hp]. split; [|exact Hp]. unfold limit_inv. cbn. auto.
  - unfold ctrl_set_batch_threshold. destruct (_ =? -1); [|destruct (_ =? 0)]; exact Hinv.
Qed.

Lemma adaptive_init_inv depth initial minimum now c0 :
  adaptive_init depth initial minimum now = Some c0 ->
  initial <= depth <= 32768 -> (if minimum <? 1 then 4 else minimum) <= depth ->
  ctrl_inv c0.
Proof.
  unfold adaptive_init. intros E H1 H2. destruct (_ || _) eqn:?; [done|].
  injection E as <-. unfold ctrl_inv, limit_inv, plateau_inv. cbn.
  repeat zcase; split; try lia; split_and!; try done; intuition congruence.
Qed.

Lemma ctrl_reachable_inv c : ctrl_reachable c -> ctrl_inv c.
Proof.
  intros (depth & initial & minimum & now & c0 & Hi & Hd & Hm & Hr).
  pose proof (adaptive_init_inv _ _ _ _ _ Hi Hd Hm) as H0. clear Hi.
  induction Hr; [done|]. eauto using ctrl_step_inv.
Qed.

(** ** Reachable controllers *)

Lemma ctrl_reachable_init depth initial minimum now :
  1 <= initial <= depth -> depth <= 32768 -> 1 <= minimum <= depth ->
  exists c, adaptive_init depth initial minimum now = Some c /\ ctrl_reachable c /\
    phase c = ADAPTIVE_PHASE_PASSTHROUGH /\ max_queue_depth c = depth /\ tick_entered c = 0 /\
    pair_inv (hist_pair c) /\ min_in_flight c = minimum /\ current_in_flight_limit c = depth.
Proof.
  intros H1 H2 H3. unfold adaptive_init.
  destruct (_ || _) eqn:E; [lia|]. eexists. split; [reflexivity|].
  split; cycle 1.
  { cbn. split_and!; try done; try (zcase; lia); repeat split; try done; cbn; try lia.
    by apply Forall_replicate. }
  exists depth, initial, minimum, now. eexists. unfold adaptive_init. rewrite E.
  split_and!; [reflexivity|lia|lia|zcase; lia|apply rtc_refl].
Qed.

Lemma ctrl_reachable_step c c' : ctrl_reachable c -> ctrl_step c c' -> ctrl_reachable c'.
Proof.
  intros (d & i & m & n & c0 & H1 & H2 & H3 & H4) Hs.
  exists d, i, m, n, c0. split_and!; try done; try lia. by eapply rtc_r.
Qed.

(** C1. Whatever the engine does to a controller, its in-flight limit stays
    between 1 and the queue depth, and so does the minimum it backs off to. *)
Theorem controller_limit_bounds c :
  ctrl_reachable c ->
  1 <= current_in_flight_limit c <= max_queue_depth c /\
  1 <= min_in_flight c <= max_queue_depth c /\ max_queue_depth c <= 32768.
Proof. intros H. apply ctrl_reachable_inv in H as [(H1 & H2 & H3 & H4) _]. auto. Qed.

Lemma controller_limit_bounds_witness :
  exists c, ctrl_reachable c /\ max_queue_depth c = 64 /\ current_in_flight_limit c <= 64.
Proof.
  destruct (ctrl_reachable_init 64 8 4 0) as (c & _ & Hr & _ & Hq & _); [lia..|].
  exists c. split; [exact Hr|]. split; [exact Hq|].
  rewrite <- Hq. exact (proj2 (proj1 (controller_limit_bounds c Hr))).
Defined.

(** The CONVERGED phase is unreachable: PROBING leaves for SETTLING only
    after three plateau ticks in a row, a plateau tick needs a limit that was
    just raised, and every raise clears the plateau counter; so SETTLING and
    STEADY are entered through BACKOFF only, and STEADY then probes again. *)
Theorem converged_unreachable c :
  ctrl_reachable c ->
  phase c <> ADAPTIVE_PHASE_CONVERGED /\
  (phase c = ADAPTIVE_PHASE_SETTLING \/ phase c = ADAPTIVE_PHASE_STEADY ->
     entered_via_backoff c = true) /\
  (passthrough_mode c = true <-> phase c = ADAPTIVE_PHASE_PASSTHROUGH).
Proof.
  intros H. apply ctrl_reachable_inv in H as [_ (H1 & H2 & H3 & H4)].
  split; [done|]. split; [done|]. rewrite H4. apply bool_decide_eq_true.
Qed.

Lemma converged_unreachable_witness :
  exists c, ctrl_reachable c /\ phase c = ADAPTIVE_PHASE_PASSTHROUGH /\ passthrough_mode c = true.
Proof.
  destruct (ctrl_reachable_init 64 8 4 0) as (c & _ & Hr & Hp & _); [lia..|].
  exists c. split; [exact Hr|]. split; [exact Hp|].
  exact (proj2 (proj2 (proj2 (converged_unreachable c Hr))) Hp).
Defined.

(** A BACKOFF tick cuts the limit to exactly 80%, rounded down, but not
    below the minimum; the cut is strict whenever the limit was above the
    minimum, so repeated backoff reaches the minimum. *)
Theorem backoff_multiplicative c s r c' :
  limit_inv c -> phase c = ADAPTIVE_PHASE_BACKOFF -> aimd_step c s = (r, c') ->
  current_in_flight_limit c' = Z.max (min_in_flight c) (4 * current_in_flight_limit c / 5) /\
  (min_in_flight c < current_in_flight_limit c ->
     current_in_flight_limit c' < current_in_flight_limit c) /\
  phase c' = ADAPTIVE_PHASE_SETTLING /\ settling_timer c' = 0 /\ entered_via_backoff c' = true.
Proof.
  intros (Hl & Hm & _ & Hq) Hp E. unfold aimd_step in E. rewrite Hp in E.
  unfold handle_backoff_phase in E. rewrite d_floor_backoff in E by lia.
  apply pair_equal_spec in E as [_ <-]. cbn. split_and!; try done; zcase; dlia.
Qed.

Lemma backoff_multiplicative_witness :
  exists c s c', limit_inv c /\ phase c = ADAPTIVE_PHASE_BACKOFF /\
    aimd_step c s = (true, c') /\ current_in_flight_limit c' = 51.
Proof.
  destruct (ctrl_reachable_init 64 8 4 0) as (c0 & _ & Hr & _ & _ & _ & _ & Hm & Hc);
    [lia..|].
  pose proof (proj1 (ctrl_reachable_inv _ Hr)) as Hl0.
  set (c := c0 <| phase := ADAPTIVE_PHASE_BACKOFF |>).
  assert (limit_inv c) as Hl by exact Hl0.
  set (s := fst (tick_swap_and_compute_stats c 1)).
  exists c, s. eexists. split; [exact Hl|]. split; [reflexivity|]. split; [reflexivity|].
  refine (eq_trans (proj1 (backoff_multiplicative c s _ _ Hl eq_refl eq_refl)) _).
  change (Z.max (min_in_flight c0) (4 * current_in_flight_limit c0 / 5) = 51).
  rewrite Hm, Hc. reflexivity.
Defined.

(** ** The measurement periods *)

Lemma swap_stats_pair_inv c e s c' :
  tick_swap_and_compute_stats c e = (s, c') -> pair_inv (hist_pair c) ->
  pair_inv (hist_pair c').
Proof.
  intros E Hinv. apply swap_stats_frame in E as (_ & -> & _). by apply swap_pair_inv.
Qed.

Lemma reset_pair_inv c t :
  pair_inv (hist_pair c) -> pair_inv (hist_pair (adaptive_reset_to_baseline c t)).
Proof.
  intros Hinv. unfold adaptive_reset_to_baseline.
  destruct (adaptive_hist_swap _) as [old hp] eqn:E.
  match goal with |- pair_inv ?g => change g with (set_pending_reset (Some old) hp) end.
  change (flush_pending_reset (hist_pair c)) with (flush_pending_reset (hist_pair c)) in E.
  destruct (flush_pair_inv _ Hinv) as (_ & Ha & _).
  injection E as <- <-. cbn [hist_pair set_field].
  pose proof (proj1 (swap_pair_inv _ Hinv)) as H. cbv zeta in H.
  rewrite <- Ha in H at 1. exact H.
Qed.

(** The machine never touches the histograms or the period counters. *)
Definition period_view (c : adaptive_controller_t) :=
  (hist_pair c, sample_bytes c, submit_calls c, sqes_submitted c).

Lemma aimd_step_period c s r c' : aimd_step c s = (r, c') -> period_view c' = period_view c.
Proof.
  intros E. unfold aimd_step in E.
  destruct (phase c); ctl_unfold; ctl_split; reflexivity.
Qed.

Lemma passthrough_reentry_period c d r c' :
  passthrough_reentry c d = (r, c') -> period_view c' = period_view c.
Proof. unfold passthrough_reentry. intros E. destruct (phase c); ctl_split; reflexivity. Qed.

Lemma aimd_tick_period c e d t r c' :
  aimd_tick c e d t = (r, c') ->
  period_view c' = period_view (snd (tick_swap_and_compute_stats c e)).
Proof.
  unfold aimd_tick. destruct (tick_swap_and_compute_stats c e) as [s c1]. intros E.
  destruct (batch_optimizer c1 s) as [r1 c2] eqn:Eb. apply batch_optimizer_frame in Eb.
  set (c3 := c2 <| prev_throughput_bps := _ |> <| prev_in_flight_limit := _ |>) in *.
  destruct (aimd_step c3 s) as [r2 c4] eqn:Ea. apply aimd_step_period in Ea.
  destruct (passthrough_reentry c4 d) as [r3 c5] eqn:Er. apply passthrough_reentry_period in Er.
  apply pair_equal_spec in E as [_ <-].
  change (period_view c5 = period_view c1). rewrite Er, Ea.
  change (period_view c2 = period_view c1). rewrite Eb. reflexivity.
Qed.

Lemma period_hist c c' : period_view c = period_view c' -> hist_pair c = hist_pair c'.
Proof. unfold period_view. congruence. Qed.

Lemma pair_inv_pressure c n :
  pair_inv (hist_pair c) -> pair_inv (hist_pair (c <| pressure_qualify_count := n |>)).
Proof. exact (fun H => H). Qed.

Lemma passthrough_tick_pair c e d t1 t2 r c' :
  passthrough_tick c e d t1 t2 = (r, c') -> pair_inv (hist_pair c) -> pair_inv (hist_pair c').
Proof.
  unfold passthrough_tick. intros E Hinv.
  destruct (passthrough_pressure c e d t1) as [pr c1] eqn:E1.
  destruct (passthrough_pressure_frame _ _ _ _ _ _ E1) as (st & _ & Hp).
  specialize (Hp Hinv). clear E1.
  destruct pr; cycle 1; ctl_split; try exact Hp.
  set (c2 := c1 <| pressure_qualify_count := _ |> <| passthrough_mode := _ |>).
  apply (pair_inv_pressure (adaptive_reset_to_baseline c2 t2)), reset_pair_inv. exact Hp.
Qed.

Lemma adaptive_tick_pair c p t0 t1 t2 :
  pair_inv (hist_pair c) -> pair_inv (hist_pair (snd (adaptive_tick c p t0 t1 t2))).
Proof.
  intros Hinv. unfold adaptive_tick. destruct (negb _); [exact Hinv|].
  destruct (tick_elapsed _ t0) as [e c1] eqn:E1.
  assert (pair_inv (hist_pair c1)) as H1 by (unfold tick_elapsed in E1; ctl_split; exact Hinv).
  destruct (negb _); [exact H1|].
  set (c2 := c1 <| prev_pending_snapshot := p |>).
  destruct (adaptive_is_passthrough c2).
  - destruct (passthrough_tick _ _ _ _ _) as [r c3] eqn:E3.
    exact (passthrough_tick_pair _ _ _ _ _ _ _ E3 H1).
  - destruct (aimd_tick _ _ _ _) as [r c3] eqn:E3.
    apply aimd_tick_period, period_hist in E3.
    destruct (tick_swap_and_compute_stats c2 e) as [s c4] eqn:Es.
    pose proof (swap_stats_pair_inv _ _ _ _ Es H1) as H4. cbn [snd] in *.
    change (pair_inv (hist_pair c3)). rewrite E3. exact H4.
Qed.

Lemma ctrl_step_pair c c' : ctrl_step c c' -> pair_inv (hist_pair c) -> pair_inv (hist_pair c').
Proof.
  intros Hs Hinv. destruct Hs; try exact Hinv.
  - by apply adaptive_tick_pair.
  - by apply record_pair_inv.
  - unfold adaptive_record_submit. destruct (_ <=? 0); exact Hinv.
  - unfold ctrl_set_batch_threshold. destruct (_ =? -1); [|destruct (_ =? 0)]; exact Hinv.
Qed.

Lemma ctrl_reachable_pair c : ctrl_reachable c -> pair_inv (hist_pair c).
Proof.
  intros (d & i & m & n & c0 & Hi & _ & _ & Hr).
  assert (pair_inv (hist_pair c0)) as H0.
  { unfold adaptive_init in Hi. destruct (_ || _); [done|]. injection Hi as <-.
    split; [apply adaptive_hist_pair_init_wf|]. intros _. split_and!; try done.
    by apply Forall_replicate. }
  clear Hi. induction Hr; [done|]. eauto using ctrl_step_pair.
Qed.

(** Every tick that runs the AIMD branch closes one measurement period and
    opens the next: the statistics are those of the histogram that was active,
    the histogram that becomes active is empty, the old one keeps its samples
    for the readers until the next tick, and the period counters are zero. *)
Theorem tick_measures_period c e s c' :
  ctrl_reachable c -> tick_swap_and_compute_stats c e = (s, c') ->
  let old := active_index (hist_pair c) in
  let measured := hist_at (hist_pair c) old in
  sample_count s = u32 (total_count measured) /\ p99_ms s = adaptive_hist_p99 measured /\
  active_index (hist_pair c') = 1 - old /\
  hist_empty (hist_at (hist_pair c') (1 - old)) /\
  hist_at (hist_pair c') old = measured /\ pending_reset (hist_pair c') = Some old /\
  period_view c' = (hist_pair c', 0, 0, 0).
Proof.
  intros Hr E. pose proof (ctrl_reachable_pair _ Hr) as Hinv. cbv zeta.
  destruct (swap_stats_frame _ _ _ _ E) as (_ & Eh & E1 & E2 & E3).
  destruct (swap_pair_inv _ Hinv) as (_ & Ha & He & Ho).
  destruct (flush_pair_inv _ Hinv) as (_ & Ha' & _ & _ & Hat).
  destruct (swap_stats_measured _ _ _ _ E) as [-> ->]. rewrite Ha', Hat.
  rewrite Eh, Ha in *. unfold period_view. rewrite E1, E2, E3, Eh. by split_and!.
Qed.

Lemma tick_measures_period_witness :
  exists c s c', ctrl_reachable c /\ tick_swap_and_compute_stats c 5 = (s, c') /\
    pending_reset (hist_pair c') = Some (active_index (hist_pair c)).
Proof.
  destruct (ctrl_reachable_init 64 8 4 0) as (c0 & _ & Hr0 & _); [lia..|].
  pose proof (ctrl_reachable_step _ _ Hr0 (step_completion c0 42000 4096)) as Hr.
  set (c := adaptive_record_completion c0 42000 4096) in *.
  destruct (tick_swap_and_compute_stats c 5) as [s c'] eqn:E.
  exists c, s, c'. split; [exact Hr|]. split; [exact E|].
  exact (proj1 (proj2 (proj2 (proj2 (proj2 (proj2 (tick_measures_period c 5 s c' Hr E))))))).
Defined.

(** ** The tick as a whole *)

(** The tick lets one caller in at a time: a caller that finds another inside
    changes nothing, and every call gives the guard back as it found it. *)
Lemma passthrough_reentry_view c d r c' :
  passthrough_reentry c d = (r, c') -> tick_entered c' = tick_entered c.
Proof. unfold passthrough_reentry. intros E. destruct (phase c); ctl_split; reflexivity. Qed.

Lemma aimd_step_entered c s r c' :
  aimd_step c s = (r, c') ->
  tick_entered c' = tick_entered c /\ current_batch_threshold c' = current_batch_threshold c /\
  batch_threshold_fixed c' = batch_threshold_fixed c.
Proof.
  intros E. unfold aimd_step in E. destruct (phase c); ctl_unfold; ctl_split; by split_and!.
Qed.

Lemma batch_optimizer_bounds c s r c' :
  batch_optimizer c s = (r, c') ->
  (batch_threshold_fixed c = true -> current_batch_threshold c' = current_batch_threshold c) /\
  (ADAPTIVE_MIN_BATCH <= current_batch_threshold c <= ADAPTIVE_MAX_BATCH_THRESHOLD ->
   ADAPTIVE_MIN_BATCH <= current_batch_threshold c' <= ADAPTIVE_MAX_BATCH_THRESHOLD) /\
  Z.abs (current_batch_threshold c' - current_batch_threshold c) <= 1.
Proof.
  unfold batch_optimizer, ADAPTIVE_MIN_BATCH, ADAPTIVE_MAX_BATCH_THRESHOLD. intros E.
  ctl_split; cbn; split_and!; try lia; intros Hf; rewrite Hf in *; done.
Qed.

Definition batch_view (c : adaptive_controller_t) :=
  (tick_entered c, current_batch_threshold c, batch_threshold_fixed c).

Lemma view_batch c c' : aimd_view c = aimd_view c' -> batch_view c = batch_view c'.
Proof. unfold aimd_view, batch_view. intros H. injection H. congruence. Qed.

(** One tick moves the batch threshold by at most one step inside its bounds. *)
Definition batch_step (c c' : adaptive_controller_t) : Prop :=
  tick_entered c' = tick_entered c /\ batch_threshold_fixed c' = batch_threshold_fixed c /\
  (batch_threshold_fixed c = true -> current_batch_threshold c' = current_batch_threshold c) /\
  (ADAPTIVE_MIN_BATCH <= current_batch_threshold c <= ADAPTIVE_MAX_BATCH_THRESHOLD ->
   ADAPTIVE_MIN_BATCH <= current_batch_threshold c' <= ADAPTIVE_MAX_BATCH_THRESHOLD) /\
  Z.abs (current_batch_threshold c' - current_batch_threshold c) <= 1.

Lemma batch_step_view c c' : batch_view c' = batch_view c -> batch_step c c'.
Proof. unfold batch_view, batch_step. intros H. injection H. intros -> -> ->. split_and!; auto. lia. Qed.

Lemma aimd_tick_batch c e d t r c' : aimd_tick c e d t = (r, c') -> batch_step c c'.
Proof.
  unfold aimd_tick. intros E.
  destruct (tick_swap_and_compute_stats c e) as [s c1] eqn:Es.
  destruct (swap_stats_frame _ _ _ _ Es) as (Hv & _ & _). apply view_batch in Hv.
  destruct (batch_optimizer c1 s) as [r1 c2] eqn:Eb.
  pose proof (batch_optimizer_frame _ _ _ _ Eb) as Hf.
  apply batch_optimizer_bounds in Eb as (B1 & B2 & B3).
  set (c3 := c2 <| prev_throughput_bps := _ |> <| prev_in_flight_limit := _ |>) in *.
  destruct (aimd_step c3 s) as [r2 c4] eqn:Ea. apply aimd_step_entered in Ea as (A1 & A2 & A3).
  destruct (passthrough_reentry c4 d) as [r3 c5] eqn:Er.
  assert (batch_view c5 = batch_view c4) as Hr.
  { unfold passthrough_reentry in Er. destruct (phase c4); ctl_split; reflexivity. }
  apply pair_equal_spec in E as [_ <-].
  assert (tick_entered c2 = tick_entered c1 /\ batch_threshold_fixed c2 = batch_threshold_fixed c1)
    as [F1 F2] by (rewrite Hf; done).
  unfold batch_view in *. injection Hv as V1 V2 V3. injection Hr as R1 R2 R3.
  change (tick_entered c3) with (tick_entered c2) in A1.
  change (current_batch_threshold c3) with (current_batch_threshold c2) in A2.
  change (batch_threshold_fixed c3) with (batch_threshold_fixed c2) in A3.
  unfold batch_step. change (tick_entered (c5 <| sample_start_ns := t |>)) with (tick_entered c5).
  change (batch_threshold_fixed (c5 <| sample_start_ns := t |>)) with (batch_threshold_fixed c5).
  change (current_batch_threshold (c5 <| sample_start_ns := t |>)) with (current_batch_threshold c5).
  rewrite R1, R2, R3, A1, A2, A3, F1, F2, V1, V3, <- V2, <- V3. auto.
Qed.

Lemma reset_batch c t : batch_view (adaptive_reset_to_baseline c t) = batch_view c.
Proof. unfold adaptive_reset_to_baseline. by destruct (adaptive_hist_swap _). Qed.

Lemma passthrough_tick_batch c e d t1 t2 r c' :
  passthrough_tick c e d t1 t2 = (r, c') -> batch_view c' = batch_view c.
Proof.
  unfold passthrough_tick. intros E.
  destruct (passthrough_pressure c e d t1) as [pr c1] eqn:E1.
  destruct (passthrough_pressure_frame _ _ _ _ _ _ E1) as (st & Hv & _).
  apply view_batch in Hv. change (batch_view c1 = batch_view c) in Hv. clear E1.
  rewrite <- Hv. destruct pr; cycle 1; ctl_split; reflexivity.
Qed.

(** The tick guard and the inner loop. A tick that finds another one
    running changes nothing; every tick restores the guard; the batch
    threshold moves by at most one per tick, stays between 2 and 64 once
    there, and does not move at all while the user has fixed it. *)
Theorem tick_guard_and_batch c p t0 t1 t2 :
  0 <= tick_entered c < INT_MAX ->
  let c' := snd (adaptive_tick c p t0 t1 t2) in
  batch_step c c' /\ (tick_entered c <> 0 -> adaptive_tick c p t0 t1 t2 = (false, c)).
Proof.
  intros He. unfold adaptive_tick.
  rewrite (i32_id (tick_entered c + 1)) by (unfold INT_MIN, INT_MAX in *; lia).
  set (c1 := c <| tick_entered := tick_entered c + 1 |>).
  assert (forall x, batch_step c1 x -> batch_step c (release_tick x)) as Hrel.
  { intros x (X1 & X2). split; [|exact X2].
    cbn. rewrite X1. cbn. rewrite i32_id by (unfold INT_MIN, INT_MAX in *; lia). lia. }
  destruct (Z.eqb_spec (tick_entered c) 0) as [E|E]; cbn [negb].
  - split; [|done].
    destruct (tick_elapsed c1 t0) as [e c2] eqn:E2.
    assert (batch_view c2 = batch_view c1) as H2 by (unfold tick_elapsed in E2; ctl_split; done).
    destruct (negb _); [apply Hrel, batch_step_view, H2|].
    set (c3 := c2 <| prev_pending_snapshot := p |>).
    match goal with |- context [let '(_, _) := ?x in _] => destruct x as [r c4] eqn:E4 end.
    apply Hrel. destruct (adaptive_is_passthrough c3).
    + apply passthrough_tick_batch in E4. apply batch_step_view. by rewrite E4, <- H2.
    + apply aimd_tick_batch in E4. unfold batch_step in *.
      change (batch_view c3 = batch_view c1) in H2. unfold batch_view in H2.
      injection H2. congruence.
  - assert (release_tick c1 = c) as Hc.
    { unfold release_tick, c1. cbn. rewrite i32_id by (unfold INT_MIN, INT_MAX in *; lia).
      replace (tick_entered c + 1 - 1) with (tick_entered c) by lia. by destruct c. }
    rewrite Hc. split; [by apply batch_step_view|done].
Qed.

Lemma tick_guard_and_batch_witness :
  exists c, 0 <= tick_entered c < INT_MAX /\
    current_batch_threshold (snd (adaptive_tick c 0 0 0 0)) <= current_batch_threshold c + 1.
Proof.
  destruct (ctrl_reachable_init 64 8 4 0) as (c & _ & _ & _ & _ & He & _); [lia..|].
  assert (0 <= tick_entered c < INT_MAX) as Hc by (rewrite He; split; done).
  exists c. split; [exact Hc|].
  pose proof (proj2 (proj2 (proj2 (proj2 (proj1 (tick_guard_and_batch c 0 0 0 0 Hc)))))). lia.
Defined.

(** ** The phase graph *)

Lemma view_phase c c' : aimd_view c = aimd_view c' -> phase c = phase c'.
Proof. unfold aimd_view. intros H. injection H. congruence. Qed.

Lemma aimd_step_edge c s r c' :
  aimd_step c s = (r, c') -> phase_edge (phase c) (phase c') = true.
Proof.
  intros E. unfold aimd_step in E. destruct (phase c) eqn:Hp; ctl_unfold; ctl_split; cbn;
    rewrite ?Hp; reflexivity.
Qed.

Lemma aimd_tick_edge c e d t r c' :
  aimd_tick c e d t = (r, c') -> ctrl_inv c -> phase_edge (phase c) (phase c') = true.
Proof.
  unfold aimd_tick. intros E Hinv.
  destruct (tick_swap_and_compute_stats c e) as [s c1] eqn:Es.
  destruct (swap_stats_frame _ _ _ _ Es) as (Hv & _ & _).
  pose proof (ctrl_inv_view _ _ (eq_sym Hv) Hinv) as Hinv1. apply view_phase in Hv.
  destruct (batch_optimizer c1 s) as [r1 c2] eqn:Eb. apply batch_optimizer_frame in Eb.
  set (c3 := c2 <| prev_throughput_bps := _ |> <| prev_in_flight_limit := _ |>) in *.
  destruct (aimd_step c3 s) as [r2 c4] eqn:Ea. apply aimd_step_edge in Ea.
  change (phase c3) with (phase c2) in Ea.
  assert (phase c2 = phase c) as H2 by (rewrite Eb; exact Hv). rewrite H2 in Ea.
  destruct (passthrough_reentry c4 d) as [r3 c5] eqn:Er.
  apply pair_equal_spec in E as [_ <-]. change (phase_edge (phase c) (phase c5) = true).
  unfold passthrough_reentry in Er.
  destruct (phase c4) eqn:E4; ctl_split; cbn; rewrite ?E4; try done.
  destruct (phase c); done.
Qed.

Lemma passthrough_tick_edge c e d t1 t2 r c' :
  passthrough_tick c e d t1 t2 = (r, c') -> phase c = ADAPTIVE_PHASE_PASSTHROUGH ->
  phase_edge (phase c) (phase c') = true.
Proof.
  unfold passthrough_tick. intros E Hp.
  destruct (passthrough_pressure c e d t1) as [pr c1] eqn:E1.
  destruct (passthrough_pressure_frame _ _ _ _ _ _ E1) as (st & Hv & _).
  apply view_phase in Hv. change (phase c1 = phase c) in Hv. rewrite Hp in *. clear E1.
  destruct pr; cycle 1; ctl_split; cbn; by rewrite ?Hv.
Qed.

(** Ticks follow the documented phase graph: from any reachable state a
    tick leaves the phase alone or takes one of its edges. *)
Theorem tick_follows_phase_graph c p t0 t1 t2 :
  ctrl_reachable c ->
  phase_edge (phase c) (phase (snd (adaptive_tick c p t0 t1 t2))) = true.
Proof.
  intros Hr. pose proof (ctrl_reachable_inv _ Hr) as Hinv. unfold adaptive_tick.
  assert (phase_edge (phase c) (phase c) = true) as Hrefl by (destruct (phase c); done).
  destruct (negb _); [exact Hrefl|]. destruct (tick_elapsed _ t0) as [e c1] eqn:E1.
  assert (phase c1 = phase c /\ passthrough_mode c1 = passthrough_mode c /\ ctrl_inv c1)
    as (H1 & H1' & Hi1) by (unfold tick_elapsed in E1; ctl_split; split_and!; done || exact Hinv).
  destruct (negb _); [cbn; by rewrite H1|].
  set (c2 := c1 <| prev_pending_snapshot := p |>).
  match goal with |- context [let '(_, _) := ?x in _] => destruct x as [r c3] eqn:E3 end.
  change (phase_edge (phase c) (phase c3) = true). rewrite <- H1.
  change (phase c1) with (phase c2).
  destruct (adaptive_is_passthrough c2) eqn:Epm.
  - apply passthrough_tick_edge in E3; [done|]. destruct Hinv as (_ & _ & _ & _ & Hm).
    change (passthrough_mode c1 = true) in Epm. change (phase c1 = ADAPTIVE_PHASE_PASSTHROUGH).
    rewrite H1. rewrite H1', Hm in Epm. by apply bool_decide_eq_true in Epm.
  - exact (aimd_tick_edge _ _ _ _ _ _ E3 Hi1).
Qed.

Lemma tick_follows_phase_graph_witness :
  exists c, ctrl_reachable c /\
    phase_edge (phase c) (phase (snd (adaptive_tick c 3 200000000 200000001 200000002))) = true.
Proof.
  destruct (ctrl_reachable_init 64 8 4 0) as (c & _ & Hr & _); [lia..|].
  exists c. split; [exact Hr|]. exact (tick_follows_phase_graph c _ _ _ _ Hr).
Defined.

(** ** Leaving passthrough *)

(** The passthrough branch of successive ticks: (elapsed, delta, t1, t2). *)
Definition passthrough_run (c : adaptive_controller_t) (ticks : list (Z * Z * Z * Z))
  : adaptive_controller_t :=
  fold_left (fun c '(e, d, t1, t2) => snd (passthrough_tick c e d t1 t2)) ticks c.

Lemma passthrough_pressure_pending c e d t :
  AIMD_ENGAGE_PENDING_DELTA < d -> passthrough_pressure c e d t = (true, c).
Proof. intros H. unfold passthrough_pressure. by rewrite (proj2 (Z.ltb_lt _ _) H). Qed.

Lemma passthrough_run_pending ticks : forall c n,
  Forall (fun '(_, d, _, _) => AIMD_ENGAGE_PENDING_DELTA < d) ticks ->
  pressure_qualify_count c = n -> 0 <= n -> n + zlen ticks < AIMD_ENGAGE_TICKS ->
  passthrough_run c ticks = c <| pressure_qualify_count := n + zlen ticks |>.
Proof.
  unfold zlen. induction ticks as [|[[[e d] t1] t2] ticks IH]; intros c n HF Hc Hn Hlt.
  { cbn. rewrite Z.add_0_r, <- Hc. by destruct c. }
  apply Forall_cons in HF as [Hd HF]. unfold passthrough_run. cbn [fold_left].
  unfold passthrough_tick at 2. rewrite passthrough_pressure_pending by done.
  unfold AIMD_ENGAGE_TICKS in *. cbn [length] in Hlt. unfold incr.
  rewrite i32_id by (unfold INT_MIN, INT_MAX; lia).
  change (pressure_qualify_count (c <| pressure_qualify_count := ?x |>)) with x.
  rewrite Hc. destruct (Z.leb_spec 8 (n + 1)); [lia|]. cbn [snd].
  change (fold_left _ ticks ?x) with (passthrough_run x ticks).
  rewrite (IH _ (n + 1)) by (try done; lia).
  cbn [length]. replace (n + Z.of_nat (S (length ticks))) with (n + 1 + Z.of_nat (length ticks)) by lia.
  reflexivity.
Qed.

Lemma passthrough_run_snoc c l x :
  passthrough_run c (l ++ [x]) =
    let '(e, d, t1, t2) := x in snd (passthrough_tick (passthrough_run c l) e d t1 t2).
Proof. unfold passthrough_run. rewrite fold_left_app. cbn. by destruct x as [[[??]?]?]. Qed.

Lemma reset_fields c t :
  let c' := adaptive_reset_to_baseline c t in
  phase c' = ADAPTIVE_PHASE_BASELINE /\ passthrough_mode c' = passthrough_mode c /\
  (0 < aimd_initial_in_flight c ->
   current_in_flight_limit c' = Z.max (min_in_flight c) (aimd_initial_in_flight c)) /\
  (p99_count c' = 0 /\ throughput_count c' = 0 /\ baseline_count c' = 0).
Proof.
  cbv zeta. unfold adaptive_reset_to_baseline. destruct (adaptive_hist_swap _) as [old hp].
  cbn. split_and!; try done. intros Hi. rewrite (proj2 (Z.ltb_lt _ _) Hi). zcase; lia.
Qed.

(** The controller engages only after sustained pressure: while the pending
    count grows by more than 16 on every tick, the first seven ticks leave it
    in passthrough with its limit untouched, and the eighth starts AIMD in
    BASELINE at the configured initial limit with empty windows. *)
Theorem passthrough_engages_at_eight c ticks :
  passthrough_mode c = true -> pressure_qualify_count c = 0 -> 0 < aimd_initial_in_flight c ->
  Forall (fun '(_, d, _, _) => AIMD_ENGAGE_PENDING_DELTA < d) ticks ->
  (zlen ticks < AIMD_ENGAGE_TICKS ->
     passthrough_run c ticks = c <| pressure_qualify_count := zlen ticks |>) /\
  (zlen ticks = AIMD_ENGAGE_TICKS ->
     let c' := passthrough_run c ticks in
     phase c' = ADAPTIVE_PHASE_BASELINE /\ passthrough_mode c' = false /\
     current_in_flight_limit c' = Z.max (min_in_flight c) (aimd_initial_in_flight c) /\
     pressure_qualify_count c' = 0 /\
     (p99_count c' = 0 /\ throughput_count c' = 0 /\ baseline_count c' = 0)).
Proof.
  intros Hm Hc Hi HF. split; intros Hl.
  { rewrite (passthrough_run_pending ticks c 0); auto; lia. }
  destruct ticks as [|x ticks _] using rev_ind; [done|].
  apply Forall_app in HF as [HF Hx]. rewrite Forall_singleton in Hx.
  unfold zlen in Hl. rewrite length_app in Hl. cbn [length] in Hl.
  rewrite passthrough_run_snoc, (passthrough_run_pending ticks c 0) by
    (try done; unfold zlen; lia).
  destruct x as [[[e d] t1] t2]. unfold passthrough_tick.
  rewrite passthrough_pressure_pending by done. unfold incr, AIMD_ENGAGE_TICKS in *.
  rewrite i32_id by (cbn [set_field set_pressure_qualify_count pressure_qualify_count];
    unfold zlen, INT_MIN, INT_MAX; lia).
  cbn [set_field set_pressure_qualify_count pressure_qualify_count].
  destruct (Z.leb_spec 8 (0 + zlen ticks + 1)) as [_|Hlt]; [|unfold zlen in *; lia].
  match goal with |- context [adaptive_reset_to_baseline ?x ?t] =>
    pose proof (reset_fields x t) as (R1 & R2 & R3 & R4);
    generalize dependent (adaptive_reset_to_baseline x t) end.
  intros c3 R1 R2 R3 R4. cbv zeta. cbn [snd].
  split; [exact R1|]. split; [exact R2|]. split; [exact (R3 Hi)|]. split; [done|exact R4].
Qed.

Lemma passthrough_engages_at_eight_witness :
  exists c, passthrough_mode c = true /\ pressure_qualify_count c = 0 /\
    0 < aimd_initial_in_flight c /\
    phase (passthrough_run c (replicate 8 (1, 17, 0, 0))) = ADAPTIVE_PHASE_BASELINE.
Proof.
  assert (exists c, adaptive_init 64 8 4 0 = Some c) as [c E] by (eexists; reflexivity).
  assert (passthrough_mode c = true /\ pressure_qualify_count c = 0 /\
    0 < aimd_initial_in_flight c) as (H1 & H2 & H3).
  { unfold adaptive_init in E. injection E as <-. by split_and!. }
  exists c. split; [exact H1|]. split; [exact H2|]. split; [exact H3|].
  assert (Forall (fun '(_, d, _, _) => AIMD_ENGAGE_PENDING_DELTA < d)
            (replicate 8 (1, 17, 0, 0))) as HF by (apply Forall_replicate; reflexivity).
  exact (proj1 (proj2 (passthrough_engages_at_eight c _ H1 H2 H3 HF) eq_refl)).
Defined.
