(* ===== verification/BufSize.v ===== *)
(** * Size classes and shard counts

    [adaptive_buffer.c] 87-114 and 607-643: the map from buffer sizes to size
    classes and back, and the number of shards of a pool. *)
From Stdlib Require Import ZArith Lia List.
From stdpp Require Import base tactics.
From S2P Require Import Prelude.

#[local] Open Scope Z_scope.

Definition BUFFER_SIZE_CLASSES : Z := 16.
Definition BUFFER_POOL_MAX_SIZE : Z := Z.shiftl 4096 (BUFFER_SIZE_CLASSES - 1).
Definition BUFFER_POOL_MAX_SHARDS : Z := 256.
Definition BUFFER_POOL_MIN_SHARDS : Z := 2.

(** [__builtin_clzl] of a non-zero 64-bit value. *)
Definition clzl (x : Z) : Z := 63 - Z.log2 x.

Definition size_to_class (size : Z) : Z :=
  if size <=? 4096 then 0
  else
    let bits := 64 - clzl (size - 1) in
    let class_idx := bits - 12 in
    if BUFFER_SIZE_CLASSES <=? class_idx then BUFFER_SIZE_CLASSES - 1 else class_idx.

Definition class_to_size (class_idx : Z) : Z := u64 (Z.shiftl 4096 class_idx).

(** The doubling loop; [None] is a loop that has not ended after [fuel]
    iterations. *)
Fixpoint shard_count_loop (shards target : Z) (fuel : nat) : option Z :=
  match fuel with
  | O => None
  | S fuel =>
      if (shards <? target) && (shards <? BUFFER_POOL_MAX_SHARDS)
      then shard_count_loop (shards * 2) target fuel
      else Some shards
  end.

(** [cpus] is the answer of [sysconf(_SC_NPROCESSORS_ONLN)]. *)
Definition calculate_shard_count (cpus : Z) : option Z :=
  let cpus := if cpus <? 1 then 1 else cpus in
  let target := i32 (Z.quot cpus 4) in
  if target <? BUFFER_POOL_MIN_SHARDS then Some BUFFER_POOL_MIN_SHARDS
  else shard_count_loop BUFFER_POOL_MIN_SHARDS target 9.

(** ** Size classes *)

Lemma class_to_size_pow c : 0 <= c < 16 -> class_to_size c = 4096 * 2 ^ c.
Proof.
  intros Hc. unfold class_to_size. rewrite Z.shiftl_mul_pow2 by lia. apply u64_id.
  assert (2 ^ c <= 2 ^ 15) by (apply Z.pow_le_mono_r; lia).
  assert (0 < 2 ^ c) by (apply Z.pow_pos_nonneg; lia). unfold SIZE_MAX. lia.
Qed.

Lemma size_to_class_range size : 0 < size -> 0 <= size_to_class size < BUFFER_SIZE_CLASSES.
Proof.
  intros Hs. unfold size_to_class, clzl, BUFFER_SIZE_CLASSES. repeat zcase; try lia.
  assert (12 <= Z.log2 (size - 1)); [|lia]. apply (Z.log2_le_mono 4096). lia.
Qed.

Lemma size_class_ok size :
  0 < size <= BUFFER_POOL_MAX_SIZE ->
  let c := size_to_class size in
  0 <= c < BUFFER_SIZE_CLASSES /\ size <= class_to_size c /\
  (0 < c -> class_to_size (c - 1) < size).
Proof.
  intros [Hs Hm]. pose proof (size_to_class_range size Hs) as Hr. cbv zeta.
  split; [done|]. unfold BUFFER_SIZE_CLASSES in Hr.
  change BUFFER_POOL_MAX_SIZE with (2 ^ 27) in Hm.
  rewrite class_to_size_pow by done. change 4096 with (2 ^ 12).
  rewrite <- Z.pow_add_r by lia.
  revert Hr. unfold size_to_class, clzl, BUFFER_SIZE_CLASSES.
  destruct (Z.leb_spec size 4096); [intros; change (2 ^ (12 + 0)) with 4096; split; lia|].
  assert (12 <= Z.log2 (size - 1)) as H12 by (apply (Z.log2_le_mono 4096); lia).
  assert (Z.log2 (size - 1) < 27) as H27 by (apply Z.log2_lt_pow2; lia).
  destruct (Z.leb_spec 16 (64 - (63 - Z.log2 (size - 1)) - 12)); [lia|]. intros Hr.
  destruct (Z.log2_spec (size - 1)) as [H1 H2]; [lia|]. split.
  - replace (12 + _) with (Z.succ (Z.log2 (size - 1))) by lia. lia.
  - intros _. rewrite class_to_size_pow by lia. change 4096 with (2 ^ 12).
    rewrite <- Z.pow_add_r by lia.
    replace (12 + _) with (Z.log2 (size - 1)) by lia. lia.
Qed.

(** The class of every size the pool accepts is the smallest one whose
    buffers are large enough: a buffer of the class holds the request, and a
    buffer of the class below would not. *)
Theorem size_to_class_smallest size :
  0 < size <= BUFFER_POOL_MAX_SIZE ->
  let c := size_to_class size in
  0 <= c < BUFFER_SIZE_CLASSES /\ size <= class_to_size c /\
  (0 < c -> class_to_size (c - 1) < size).
Proof. apply size_class_ok. Qed.

Lemma size_to_class_smallest_witness :
  0 < 5000 <= BUFFER_POOL_MAX_SIZE /\ 5000 <= class_to_size (size_to_class 5000).
Proof.
  assert (H : 0 < 5000 <= BUFFER_POOL_MAX_SIZE) by (split; [lia|vm_compute; discriminate]).
  split; [exact H|]. exact (proj1 (proj2 (size_to_class_smallest 5000 H))).
Defined.

(** The free path recovers the class from the class's own size. *)
Lemma size_to_class_roundtrip c :
  0 <= c < BUFFER_SIZE_CLASSES -> size_to_class (class_to_size c) = c.
Proof.
  intros Hc. apply Z.eqb_eq.
  apply (all_below_spec 16 0 (fun c => size_to_class (class_to_size c) =? c));
    [reflexivity|unfold BUFFER_SIZE_CLASSES in Hc; lia].
Qed.

(** ** Shard counts *)

Lemma shard_count_loop_spec fuel : forall e target,
  1 <= e <= 8 -> 8 - e < Z.of_nat fuel -> 2 <= target -> (2 < 2 ^ e -> 2 ^ e < 2 * target) ->
  exists e', shard_count_loop (2 ^ e) target fuel = Some (2 ^ e') /\ e <= e' <= 8 /\
    Z.min target 256 <= 2 ^ e' /\ (2 < 2 ^ e' -> 2 ^ e' < 2 * target).
Proof.
  induction fuel as [|fuel IH]; intros e target He Hf Ht Hlt; [lia|].
  cbn [shard_count_loop]. unfold BUFFER_POOL_MAX_SHARDS.
  destruct (Z.ltb_spec (2 ^ e) target) as [H1|H1]; cbn [andb].
  - destruct (Z.ltb_spec (2 ^ e) 256) as [H2|H2].
    + assert (e < 8) by (apply (Z.pow_lt_mono_r_iff 2); lia).
      replace (2 ^ e * 2) with (2 ^ (e + 1)) by (rewrite Z.pow_add_r; lia).
      destruct (IH (e + 1) target) as (e' & E & H3); try lia.
      { rewrite Z.pow_add_r by lia. lia. }
      exists e'. split; [done|]. lia.
    + exists e. split; [done|]. split; [lia|]. split; [lia|done].
  - exists e. split; [done|]. split; [lia|]. split; [lia|done].
Qed.

Lemma shard_count_ok cpus :
  cpus <= 2 ^ 32 ->
  exists e, calculate_shard_count cpus = Some (2 ^ e) /\ 1 <= e <= 8 /\
    Z.min (cpus / 4) 256 <= 2 ^ e /\ (2 < 2 ^ e -> 2 ^ e < 2 * (cpus / 4)).
Proof.
  intros Hc. unfold calculate_shard_count, BUFFER_POOL_MIN_SHARDS.
  destruct (Z.ltb_spec cpus 1).
  { exists 1. split; [done|]. split; [lia|]. change (2 ^ 1) with 2. split; [dlia|lia]. }
  rewrite Z.quot_div_nonneg by lia. rewrite i32_id by (unfold INT_MIN, INT_MAX; dlia).
  destruct (Z.ltb_spec (cpus / 4) 2) as [Hlt|Hge].
  - exists 1. split; [done|]. split; [lia|]. change (2 ^ 1) with 2. split; [lia|lia].
  - destruct (shard_count_loop_spec 9 1 (cpus / 4)) as (e & E & He & H3); try lia.
    change (2 ^ 1) with 2 in E. exists e. split; [done|]. split; [lia|exact H3].
Qed.

(** The number of shards is a power of two between 2 and 256 (so the shard
    mask is right and the loop ends), at least a quarter of the processors up
    to that limit, and no larger than needed. *)
Theorem calculate_shard_count_spec cpus :
  cpus <= 2 ^ 32 ->
  exists e, calculate_shard_count cpus = Some (2 ^ e) /\ 1 <= e <= 8 /\
    Z.min (cpus / 4) 256 <= 2 ^ e /\ (2 < 2 ^ e -> 2 ^ e < 2 * (cpus / 4)).
Proof. apply shard_count_ok. Qed.

Lemma calculate_shard_count_spec_witness :
  64 <= 2 ^ 32 /\ exists e, calculate_shard_count 64 = Some (2 ^ e).
Proof.
  assert (H : 64 <= 2 ^ 32) by (vm_compute; discriminate). split; [exact H|].
  destruct (calculate_shard_count_spec 64 H) as (e & E & _). exists e. exact E.
Defined.

(** The table in the comment of [calculate_shard_count] promises 4, 8 and 256
    shards here. *)
Example shard_count_table :
  calculate_shard_count 9 = Some 2 /\ calculate_shard_count 17 = Some 4 /\
  calculate_shard_count 513 = Some 128.
Proof. repeat split. Qed.
