(* ===== verification/BufMap.v ===== *)
(** * The buffer size map

    [adaptive_buffer.c] 1071-1222: the open-addressing hash table from buffer
    addresses to size classes, with linear probing, doubling and deletion by
    backward shift. Every operation runs under the map's lock, so each is one
    function of the table. The table refines a finite map. *)
From Stdlib Require Import ZArith Lia List.
From stdpp Require Import base tactics list gmap.
From S2P Require Import Prelude.

#[local] Open Scope Z_scope.

Definition BUF_MAP_MAX_CAPACITY : Z := Z.shiftl 1 20.
Definition BUF_MAP_INITIAL_CAPACITY : Z := 1024.
Definition BUF_MAP_LOAD_FACTOR_NUM : Z := 3.
Definition BUF_MAP_LOAD_FACTOR_DEN : Z := 4.

Record buf_map_entry_t := {
  key : Z;         (* the pointer, 0 = empty slot *)
  class_idx : Z    (* uint8_t *)
}.

Record buf_size_map_t := {
  entries : list buf_map_entry_t;
  capacity : Z;
  count : Z
}.

Definition entry_zero : buf_map_entry_t := {| key := 0; class_idx := 0 |}.

Definition entry (es : list buf_map_entry_t) (i : Z) : buf_map_entry_t := aget entry_zero es i.

Definition buf_map_hash (key mask : Z) : Z :=
  let key := Z.lxor key (Z.shiftr key 16) in
  let key := u64 (key * 0x9E3779B97F4A7C15) in
  let key := Z.lxor key (Z.shiftr key 16) in
  Z.land key mask.

(** [calloc_ok] and [mutex_ok] are the outcomes of the two library calls. *)
Definition buf_size_map_init (calloc_ok mutex_ok : bool) : option buf_size_map_t :=
  if negb calloc_ok then None
  else if negb mutex_ok then None
  else Some {| entries := replicate (Z.to_nat BUF_MAP_INITIAL_CAPACITY) entry_zero;
               capacity := BUF_MAP_INITIAL_CAPACITY; count := 0 |}.

(** [free(NULL)] later is harmless: no entries and no capacity are left. *)
Definition buf_size_map_destroy (map : buf_size_map_t) : buf_size_map_t :=
  {| entries := []; capacity := 0; count := count map |}.

(** The unbounded [while (new_entries[idx].key != 0)] of the rehash; [None] is
    a scan that has not ended after [fuel] steps. *)
Fixpoint grow_probe (es : list buf_map_entry_t) (mask idx : Z) (fuel : nat) : option Z :=
  match fuel with
  | O => None
  | S fuel =>
      if key (entry es idx) =? 0 then Some idx
      else grow_probe es mask (Z.land (u64 (idx + 1)) mask) fuel
  end.

(** The rehash loop over the old entries. *)
Fixpoint grow_loop (old : list buf_map_entry_t) (new : list buf_map_entry_t) (mask : Z)
    (fuel : nat) : option (list buf_map_entry_t) :=
  match old with
  | [] => Some new
  | e :: old =>
      if key e =? 0 then grow_loop old new mask fuel
      else
        match grow_probe new mask (buf_map_hash (key e) mask) fuel with
        | Some idx => grow_loop old (aset new idx e) mask fuel
        | None => None
        end
  end.

(** The status (-1 is [Err]) and the table; [None] is a rehash that ran out of
    fuel, which never happens. *)
Definition buf_map_grow (map : buf_size_map_t) (calloc_ok : bool)
  : option (result unit * buf_size_map_t) :=
  let old_cap := capacity map in
  let new_cap := u64 (old_cap * 2) in
  if BUF_MAP_MAX_CAPACITY <? new_cap then Some (Err ENONE, map)
  else if negb calloc_ok then Some (Err ENONE, map)
  else
    let new_entries := replicate (Z.to_nat new_cap) entry_zero in
    let new_mask := new_cap - 1 in
    match grow_loop (entries map) new_entries new_mask (Z.to_nat new_cap) with
    | Some es => Some (Ok tt, {| entries := es; capacity := new_cap; count := count map |})
    | None => None
    end.

(** The probe of an insertion: whether it stopped at the key, and where. *)
Fixpoint insert_probe (es : list buf_map_entry_t) (mask k idx : Z) (n : nat) : bool * Z :=
  match n with
  | O => (false, idx)
  | S n =>
      if key (entry es idx) =? 0 then (false, idx)
      else if key (entry es idx) =? k then (true, idx)
      else insert_probe es mask k (Z.land (u64 (idx + 1)) mask) n
  end.

(** The part of [buf_size_map_insert] after the load-factor check. *)
Definition insert_slot (map : buf_size_map_t) (k cls : Z) : result unit * buf_size_map_t :=
  let mask := capacity map - 1 in
  let '(found, idx) :=
    insert_probe (entries map) mask k (buf_map_hash k mask) (Z.to_nat (capacity map)) in
  if (found : bool) then
    (Ok tt, {| entries := aset (entries map) idx {| key := k; class_idx := u8 cls |};
               capacity := capacity map; count := count map |})
  else if negb (key (entry (entries map) idx) =? 0) then (Err ENOMEM, map)
  else
    (Ok tt, {| entries := aset (entries map) idx {| key := k; class_idx := u8 cls |};
               capacity := capacity map; count := u64 (count map + 1) |}).

(** The load-factor check: the table to insert into, or the failure. *)
Definition insert_check (map : buf_size_map_t) (calloc_ok : bool)
  : option (result unit * buf_size_map_t) :=
  let count := count map in
  if u64 (capacity map * BUF_MAP_LOAD_FACTOR_NUM) <=? u64 (count * BUF_MAP_LOAD_FACTOR_DEN) then
    if BUF_MAP_MAX_CAPACITY <=? capacity map then
      if capacity map <=? count then Some (Err ENOMEM, map) else Some (Ok tt, map)
    else
      match buf_map_grow map calloc_ok with
      | Some (Err _, map) => Some (Err ENOMEM, map)
      | r => r
      end
  else Some (Ok tt, map).

Definition buf_size_map_insert (map : buf_size_map_t) (k cls : Z) (calloc_ok : bool)
  : option (result unit * buf_size_map_t) :=
  if k =? 0 then Some (Err ENONE, map)
  else
    match insert_check map calloc_ok with
    | Some (Ok _, map) => Some (insert_slot map k cls)
    | r => r
    end.

(** The backward shift: the final entries and hole. *)
Fixpoint remove_shift (es : list buf_map_entry_t) (mask hole next : Z) (n : nat)
  : list buf_map_entry_t * Z :=
  match n with
  | O => (es, hole)
  | S n =>
      if key (entry es next) =? 0 then (es, hole)
      else
        let natural := buf_map_hash (key (entry es next)) mask in
        let dist_natural_to_next := Z.land (u64 (next - natural)) mask in
        let dist_natural_to_hole := Z.land (u64 (hole - natural)) mask in
        if dist_natural_to_hole <=? dist_natural_to_next
        then remove_shift (aset es hole (entry es next)) mask next
               (Z.land (u64 (next + 1)) mask) n
        else remove_shift es mask hole (Z.land (u64 (next + 1)) mask) n
  end.

Fixpoint remove_probe (es : list buf_map_entry_t) (mask k idx : Z) (n : nat) : option Z :=
  match n with
  | O => None
  | S n =>
      if key (entry es idx) =? 0 then None
      else if key (entry es idx) =? k then Some idx
      else remove_probe es mask k (Z.land (u64 (idx + 1)) mask) n
  end.

(** The class index found, or -1, and the table. *)
Definition buf_size_map_remove (map : buf_size_map_t) (k : Z) : Z * buf_size_map_t :=
  let mask := capacity map - 1 in
  match remove_probe (entries map) mask k (buf_map_hash k mask) (Z.to_nat (capacity map)) with
  | Some idx =>
      let '(es, hole) :=
        remove_shift (entries map) mask idx (Z.land (u64 (idx + 1)) mask)
          (Z.to_nat (capacity map)) in
      (class_idx (entry (entries map) idx),
       {| entries := aset es hole {| key := 0; class_idx := class_idx (entry es hole) |};
          capacity := capacity map; count := u64 (count map - 1) |})
  | None => (-1, map)
  end.
