(* ===== verification/Probing.v ===== *)
(** * Linear probing on a circular table

    Positions on a ring of [N] slots counted from a pivot slot, the invariant
    of an open-addressing table, and how probing, insertion and the backward
    shift keep it. The pivot is a slot no probe path crosses; it makes the
    circular table a linear one, whether or not a slot is empty. *)
From Stdlib Require Import ZArith Lia List.
From stdpp Require Import base tactics list gmap.
From S2P Require Import Prelude BufMap.

#[local] Open Scope Z_scope.

(** Position of [x] counted from the slot after the pivot; the pivot is last. *)
Definition pos (N s x : Z) : Z := (x - s - 1) mod N.

Definition occ (es : list buf_map_entry_t) (x : Z) : Prop := key (entry es x) <> 0.

(** The table with capacity [N] and hash [h]. *)
Definition lin_ok (N : Z) (h : Z -> Z) (es : list buf_map_entry_t) (s x : Z) : Prop :=
  let q := pos N s (h (key (entry es x))) in
  q <= pos N s x /\ forall y, 0 <= y < N -> q <= pos N s y <= pos N s x -> occ es y.

Definition keys_unique (N : Z) (es : list buf_map_entry_t) : Prop :=
  forall x y, 0 <= x < N -> 0 <= y < N -> occ es x ->
    key (entry es x) = key (entry es y) -> x = y.

Definition table_inv (N : Z) (h : Z -> Z) (es : list buf_map_entry_t) : Prop :=
  zlen es = N /\ keys_unique N es /\
  exists s, 0 <= s < N /\ forall x, 0 <= x < N -> occ es x -> lin_ok N h es s x.

(** The entry [(k, c)] is in the table. *)
Definition holds (N : Z) (es : list buf_map_entry_t) (k c : Z) : Prop :=
  exists x, 0 <= x < N /\ occ es x /\ entry es x = {| key := k; class_idx := c |}.

(** Number of occupied slots. *)
Definition occupied (es : list buf_map_entry_t) : Z :=
  zsum ((fun e => if key e =? 0 then 0 else 1) <$> es).

Lemma mod_diff_small a n q : 0 <= a - q * n < n -> a mod n = a - q * n.
Proof. intros. symmetry. apply Z.mod_unique_pos with q; lia. Qed.

Section Ring.
Context (N : Z) (HN : 0 < N).

Lemma pos_range s x : 0 <= pos N s x < N.
Proof using HN. apply Z.mod_pos_bound. lia. Qed.

Lemma pos_cases s x :
  0 <= s < N -> 0 <= x < N ->
  pos N s x = if x <=? s then x - s - 1 + N else x - s - 1.
Proof using HN.
  intros. unfold pos. zcase; [rewrite (mod_diff_small _ _ (-1))|rewrite (mod_diff_small _ _ 0)]; lia.
Qed.

Lemma pos_inj s x y : 0 <= s < N -> 0 <= x < N -> 0 <= y < N -> pos N s x = pos N s y -> x = y.
Proof using HN. intros. rewrite !pos_cases in * by lia. repeat case_match; lia. Qed.

Lemma pos_pivot s : 0 <= s < N -> pos N s s = N - 1.
Proof using HN. intros. rewrite pos_cases by lia. zcase; lia. Qed.

Lemma pos_add s a i :
  0 <= s < N -> 0 <= a < N -> 0 <= i -> pos N s a + i < N ->
  pos N s ((a + i) mod N) = pos N s a + i.
Proof using HN.
  intros. unfold pos in *. replace ((a + i) mod N - s - 1) with ((a + i) mod N - (s + 1)) by lia.
  rewrite Zminus_mod_idemp_l. replace (a + i - (s + 1)) with (a - s - 1 + i) by lia.
  rewrite <- Zplus_mod_idemp_l. apply Z.mod_small.
  pose proof (Z.mod_pos_bound (a - s - 1) N). lia.
Qed.

Lemma pos_wrap s : 0 <= s < N -> pos N s ((s + 1) mod N) = 0.
Proof using HN.
  intros. unfold pos. replace ((s + 1) mod N - s - 1) with ((s + 1) mod N - (s + 1)) by lia.
  rewrite Zminus_mod_idemp_l, Z.sub_diag. apply Z.mod_0_l. lia.
Qed.

Lemma slot_range a : 0 <= a mod N < N.
Proof using HN. apply Z.mod_pos_bound. lia. Qed.

(** The slot at a later position is reached by stepping forward. *)
Lemma slot_of_pos s a y :
  0 <= s < N -> 0 <= a < N -> 0 <= y < N -> pos N s a <= pos N s y ->
  y = (a + (pos N s y - pos N s a)) mod N.
Proof using HN.
  intros. pose proof (pos_range s y). apply (pos_inj s); try done; [apply slot_range|].
  rewrite pos_add; lia.
Qed.

(** A run that does not leave the pivot does not wrap. *)
Lemma run_pos s a d :
  0 <= s < N -> 0 <= a < N -> 0 <= d -> (forall i, 0 <= i < d -> (a + i) mod N <> s) ->
  d < N -> pos N s ((a + d) mod N) = pos N s a + d.
Proof using HN.
  intros Hs Ha Hd Hrun HdN. apply pos_add; try done.
  destruct (decide (pos N s a + d < N)); [done|]. exfalso.
  pose proof (pos_range s a).
  apply (Hrun (N - 1 - pos N s a)); [lia|].
  apply (pos_inj s); try done; [apply slot_range|].
  rewrite pos_add, pos_pivot; lia.
Qed.

(** Circular distance, as the masked subtraction computes it. *)
Lemma dist_pos s a b :
  0 <= s < N -> 0 <= a < N -> 0 <= b < N ->
  (b - a) mod N = if pos N s a <=? pos N s b then pos N s b - pos N s a
                  else pos N s b - pos N s a + N.
Proof using HN.
  intros. rewrite !pos_cases by lia.
  destruct (decide (a <= b)); [rewrite (mod_diff_small _ _ 0)|rewrite (mod_diff_small _ _ (-1))];
    repeat zcase; lia.
Qed.

Section Table.
Context (h : Z -> Z) (Hh : forall k, 0 <= h k < N).

(** The probe path of an entry: every slot on it is occupied. *)
Lemma lin_run es s x :
  0 <= s < N -> 0 <= x < N -> lin_ok N h es s x ->
  exists d, 0 <= d < N /\ x = (h (key (entry es x)) + d) mod N /\
    forall i, 0 <= i <= d -> occ es ((h (key (entry es x)) + i) mod N).
Proof using HN Hh.
  intros Hs Hx. unfold lin_ok. pose proof (Hh (key (entry es x))) as Ha.
  set (a := h (key (entry es x))) in *. clearbody a. intros [Hq Hocc].
  pose proof (pos_range s x). pose proof (pos_range s a).
  exists (pos N s x - pos N s a). split; [lia|]. split; [by apply slot_of_pos|].
  intros i Hi. apply Hocc; [apply slot_range|]. rewrite pos_add; auto; lia.
Qed.

(** An empty slot can always be made the pivot. *)
Lemma repivot es s e x :
  0 <= s < N -> 0 <= e < N -> ~ occ es e -> 0 <= x < N ->
  lin_ok N h es s x -> lin_ok N h es e x.
Proof using HN Hh.
  intros Hs He Hempty Hx Hok. destruct (lin_run es s x Hs Hx Hok) as (d & Hd & Ex & Hrun).
  pose proof (Hh (key (entry es x))) as Ha. unfold lin_ok.
  set (a := h (key (entry es x))) in *. clearbody a.
  assert (pos N e x = pos N e a + d) as Ep.
  { rewrite Ex. apply run_pos; try done; try lia.
    intros i Hi Hc. apply Hempty. rewrite <- Hc. apply Hrun. lia. }
  cbv zeta. split; [lia|]. intros y Hy Hpy.
  rewrite (slot_of_pos e a y) by lia. apply Hrun. lia.
Qed.
End Table.
End Ring.

(** ** Probing with a mask *)

Lemma land_mask k a : 0 <= k <= 64 -> Z.land (u64 a) (2 ^ k - 1) = a mod 2 ^ k.
Proof.
  intros Hk. replace (2 ^ k - 1) with (Z.ones k) by (rewrite Z.ones_equiv; lia).
  rewrite Z.land_ones by lia. unfold u64, wrap_u.
  apply Z.mod_mod_divide. exists (2 ^ (64 - k)). rewrite <- Z.pow_add_r by lia. f_equal. lia.
Qed.

Lemma buf_map_hash_range k key : 0 <= k <= 64 -> 0 <= buf_map_hash key (2 ^ k - 1) < 2 ^ k.
Proof.
  intros Hk. unfold buf_map_hash. cbv zeta.
  replace (2 ^ k - 1) with (Z.ones k) by (rewrite Z.ones_equiv; lia).
  rewrite Z.land_ones by lia. apply Z.mod_pos_bound, Z.pow_pos_nonneg; lia.
Qed.

(** The counted number of occupied slots. *)
Section Occupied.
Context (es : list buf_map_entry_t).

Let f (e : buf_map_entry_t) : Z := if key e =? 0 then 0 else 1.

Lemma occupied_aset x e :
  0 <= x < zlen es -> occupied (aset es x e) = occupied es - f (entry es x) + f e.
Proof using.
  intros Hx. unfold occupied. fold f. unfold aset. destruct (Z.ltb_spec x 0); [lia|].
  rewrite list_fmap_insert, zsum_insert by (rewrite length_fmap; unfold zlen in Hx; lia).
  unfold entry, aget. destruct (Z.ltb_spec x 0); [lia|].
  change 0 with (f entry_zero) at 1. rewrite map_nth. done.
Qed.

Lemma occupied_full :
  (forall x, 0 <= x < zlen es -> occ es x) -> occupied es = zlen es.
Proof using.
  unfold occupied, zlen, occ, entry. intros H.
  assert (Forall (fun e => key e <> 0) es) as HF.
  { apply list.Forall_forall. intros e He. apply list_elem_of_lookup in He as [i Hi].
    pose proof (lookup_lt_Some _ _ _ Hi). specialize (H (Z.of_nat i)). unfold aget in H.
    destruct (Z.ltb_spec (Z.of_nat i) 0); [lia|]. rewrite Nat2Z.id in H.
    rewrite (nth_lookup_Some _ _ _ _ Hi) in H. apply H. lia. }
  clear H. induction HF as [|e l He HF IH]; [done|]. cbn [fmap list_fmap zsum length].
  rewrite IH. destruct (Z.eqb_spec (key e) 0); [done|]. lia.
Qed.

Lemma occupied_le : 0 <= occupied es <= zlen es.
Proof using.
  unfold occupied, zlen. induction es as [|e l IH]; [done|].
  cbn [fmap list_fmap zsum length]. destruct (key e =? 0); lia.
Qed.
End Occupied.

Section Probe.
Context (k : Z) (Hk : 0 <= k < 64).
Let N := 2 ^ k.
Let mask := N - 1.
Let h (key : Z) : Z := buf_map_hash key mask.

Lemma N_pos : 0 < N.
Proof using Hk. apply Z.pow_pos_nonneg; lia. Qed.

Lemma h_range key : 0 <= h key < N.
Proof using Hk. apply buf_map_hash_range. lia. Qed.

Lemma step_mod x : Z.land (u64 (x + 1)) mask = (x + 1) mod N.
Proof using Hk. apply land_mask. lia. Qed.

Lemma step_run a d : ((a + d) mod N + 1) mod N = (a + (d + 1)) mod N.
Proof using. rewrite Zplus_mod_idemp_l. f_equal. lia. Qed.

(** A key [d] occupied slots ahead is found, if no slot before holds it. *)
Lemma remove_probe_found es key0 a (d n : nat) :
  (forall i, 0 <= i <= Z.of_nat d -> occ es ((a + i) mod N)) ->
  (forall i, 0 <= i < Z.of_nat d -> key (entry es ((a + i) mod N)) <> key0) ->
  key (entry es ((a + Z.of_nat d) mod N)) = key0 -> (d < n)%nat ->
  remove_probe es mask key0 (a mod N) n = Some ((a + Z.of_nat d) mod N) /\
  insert_probe es mask key0 (a mod N) n = (true, (a + Z.of_nat d) mod N).
Proof using Hk.
  revert a n. induction d as [|d IH]; intros a [|n] Hocc Hne Heq Hn; try lia;
    cbn [remove_probe insert_probe].
  - pose proof (Hocc 0 ltac:(lia)) as H0. unfold occ in H0. rewrite Z.add_0_r in *.
    destruct (Z.eqb_spec (key (entry es (a mod N))) 0); [done|].
    destruct (Z.eqb_spec (key (entry es (a mod N))) key0); done.
  - pose proof (Hocc 0 ltac:(lia)) as H0. pose proof (Hne 0 ltac:(lia)) as H1.
    unfold occ in H0. rewrite Z.add_0_r in *.
    destruct (Z.eqb_spec (key (entry es (a mod N))) 0); [done|].
    destruct (Z.eqb_spec (key (entry es (a mod N))) key0); [done|].
    rewrite step_mod, Zplus_mod_idemp_l.
    replace (a + Z.of_nat (S d)) with (a + 1 + Z.of_nat d) by lia. apply IH; [| | |lia].
    + intros i Hi. replace (a + 1 + i) with (a + (i + 1)) by lia. apply Hocc. lia.
    + intros i Hi. replace (a + 1 + i) with (a + (i + 1)) by lia. apply Hne. lia.
    + rewrite <- Heq. do 3 f_equal. lia.
Qed.

(** A key that is nowhere is not found: the probe stops at the first empty
    slot, or has seen [n] occupied slots. *)
Lemma probe_absent es key0 n : forall a,
  (forall i, 0 <= i < Z.of_nat n -> occ es ((a + i) mod N) ->
     key (entry es ((a + i) mod N)) <> key0) ->
  remove_probe es mask key0 (a mod N) n = None /\
  exists d, 0 <= d <= Z.of_nat n /\
    insert_probe es mask key0 (a mod N) n = (false, (a + d) mod N) /\
    (forall i, 0 <= i < d -> occ es ((a + i) mod N)) /\
    (d < Z.of_nat n -> ~ occ es ((a + d) mod N)).
Proof using Hk.
  induction n as [|n IH]; intros a Hne; cbn [remove_probe insert_probe].
  { split; [done|]. exists 0. rewrite Z.add_0_r. split_and!; try done; intros; lia. }
  pose proof (Hne 0 ltac:(lia)) as H0. rewrite Z.add_0_r in H0.
  destruct (Z.eqb_spec (key (entry es (a mod N))) 0) as [E|E].
  { split; [done|]. exists 0. rewrite Z.add_0_r.
    split_and!; try done; try lia. intros _ Hc. by apply Hc. }
  destruct (Z.eqb_spec (key (entry es (a mod N))) key0); [by apply H0 in E|].
  rewrite step_mod, Zplus_mod_idemp_l.
  destruct (IH (a + 1)) as (Hr & d & Hd & Hi & Hocc & Hend).
  { intros i Hi. replace (a + 1 + i) with (a + (i + 1)) by lia. apply Hne. lia. }
  split; [done|]. exists (d + 1). replace (a + (d + 1)) with (a + 1 + d) by lia.
  split_and!; try done; try lia; [|intros; apply Hend; lia].
  intros i Hi'. destruct (decide (i = 0)) as [->|]; [by rewrite Z.add_0_r|].
  replace (a + i) with (a + 1 + (i - 1)) by lia. apply Hocc. lia.
Qed.

Lemma grow_probe_spec es fuel : forall a,
  (exists i, 0 <= i < Z.of_nat fuel /\ ~ occ es ((a + i) mod N)) ->
  exists d, 0 <= d < Z.of_nat fuel /\
    grow_probe es mask (a mod N) fuel = Some ((a + d) mod N) /\
    (forall i, 0 <= i < d -> occ es ((a + i) mod N)) /\ ~ occ es ((a + d) mod N).
Proof using Hk.
  induction fuel as [|fuel IH]; intros a (i & Hi & Hempty); [lia|]. cbn [grow_probe].
  destruct (Z.eqb_spec (key (entry es (a mod N))) 0) as [E|E].
  { exists 0. rewrite Z.add_0_r. split_and!; try done; try lia. intros Hc. by apply Hc. }
  destruct (decide (i = 0)) as [->|]; [by rewrite Z.add_0_r in Hempty|].
  rewrite step_mod, Zplus_mod_idemp_l.
  destruct (IH (a + 1)) as (d & Hd & Hg & Hocc & Hend).
  { exists (i - 1). split; [lia|]. by replace (a + 1 + (i - 1)) with (a + i) by lia. }
  exists (d + 1). replace (a + (d + 1)) with (a + 1 + d) by lia.
  split_and!; try done; try lia.
  intros j Hj. destruct (decide (j = 0)) as [->|]; [by rewrite Z.add_0_r|].
  replace (a + j) with (a + 1 + (j - 1)) by lia. apply Hocc. lia.
Qed.
End Probe.

(** ** Writing an entry *)

Lemma entry_aset_eq es x e : 0 <= x < zlen es -> entry (aset es x e) x = e.
Proof. apply aget_aset_eq. Qed.

Lemma entry_aset_ne es x y e : x <> y -> entry (aset es x e) y = entry es y.
Proof. apply aget_aset_ne. Qed.

Section Write.
Context (N : Z) (HN : 0 < N) (h : Z -> Z) (Hh : forall k, 0 <= h k < N).

(** A write of a live entry over a slot keeps every occupied slot occupied. *)
Lemma occ_aset es x e y :
  0 <= x < zlen es -> key e <> 0 -> occ es y -> occ (aset es x e) y.
Proof using.
  intros Hx He Hy. unfold occ. destruct (decide (x = y)) as [->|].
  - by rewrite entry_aset_eq.
  - by rewrite entry_aset_ne.
Qed.

Lemma insert_empty es e d k0 c :
  table_inv N h es -> k0 <> 0 -> 0 <= d < N -> e = (h k0 + d) mod N -> ~ occ es e ->
  (forall i, 0 <= i < d -> occ es ((h k0 + i) mod N)) ->
  (forall x, 0 <= x < N -> key (entry es x) <> k0) ->
  let es' := aset es e {| key := k0; class_idx := c |} in
  table_inv N h es' /\
  forall k c', holds N es' k c' <-> (k = k0 /\ c' = c) \/ holds N es k c'.
Proof using HN Hh.
  intros (Hl & Hu & s & Hs & Hok) Hk0 Hd Ee Hempty Hrun Hnew. cbv zeta.
  set (new := {| key := k0; class_idx := c |}).
  assert (0 <= e < N) as He by (rewrite Ee; apply Z.mod_pos_bound; lia).
  split; [split; [by rewrite zlen_aset|split]|].
  - intros x y Hx Hy. unfold occ.
    destruct (decide (e = x)) as [<-|]; destruct (decide (e = y)) as [<-|]; try done;
      rewrite ?entry_aset_eq, ?entry_aset_ne by (done || lia); cbn [key new].
    + intros _ E. by destruct (Hnew y Hy).
    + intros _ E. by destruct (Hnew x Hx).
    + intros. by apply Hu.
  - exists e. split; [done|]. intros x Hx Hox.
    destruct (decide (e = x)) as [<-|Hne].
    + unfold lin_ok. rewrite entry_aset_eq by lia. cbn [key new]. rewrite pos_pivot by lia.
      split; [pose proof (pos_range N HN e (h k0)); lia|].
      intros y Hy Hpy. pose proof (Hh k0).
      assert (pos N e e = pos N e (h k0) + d) as Ep.
      { rewrite Ee at 2. apply run_pos; try done; try lia.
        intros i Hi Hc. apply Hempty. rewrite <- Hc. by apply Hrun. }
      rewrite pos_pivot in Ep by lia.
      destruct (decide (e = y)) as [<-|Hne].
      { unfold occ. by rewrite entry_aset_eq by lia. }
      apply occ_aset; [lia|done|].
      rewrite (slot_of_pos N HN e (h k0) y) by lia. apply Hrun.
      assert (pos N e y <> N - 1); [|lia]. rewrite <- (pos_pivot N HN e He).
      intros Hc. apply Hne. symmetry. by apply (pos_inj N HN e).
    + unfold occ in Hox. rewrite entry_aset_ne in Hox by done.
      destruct (repivot N HN h Hh es s e x Hs He Hempty Hx (Hok x Hx Hox)) as [H1 H2].
      unfold lin_ok. rewrite entry_aset_ne by done. split; [done|].
      intros y Hy Hpy. apply occ_aset; [lia|done|by apply H2].
  - intros k c'. split.
    + intros (x & Hx & Hox & E). destruct (decide (e = x)) as [<-|Hne].
      * rewrite entry_aset_eq in E by lia. left. by injection E.
      * right. exists x. unfold occ in *. by rewrite entry_aset_ne in * by done.
    + intros [[-> ->]|(x & Hx & Hox & E)].
      * exists e. unfold occ. by rewrite entry_aset_eq by lia.
      * assert (e <> x) by (intros ->; done).
        exists x. unfold occ in *. by rewrite entry_aset_ne by done.
Qed.

Lemma update_key es x k0 c :
  table_inv N h es -> k0 <> 0 -> 0 <= x < N -> key (entry es x) = k0 ->
  let es' := aset es x {| key := k0; class_idx := c |} in
  table_inv N h es' /\
  forall k c', holds N es' k c' <-> (k = k0 /\ c' = c) \/ (k <> k0 /\ holds N es k c').
Proof using HN Hh.
  intros (Hl & Hu & s & Hs & Hok) Hk0 Hx Ek. cbv zeta.
  set (es' := aset es x _).
  assert (forall y, key (entry es' y) = key (entry es y)) as Hkey.
  { intros y. subst es'. destruct (decide (x = y)) as [<-|];
      [by rewrite entry_aset_eq by lia|by rewrite entry_aset_ne]. }
  assert (forall y, occ es' y <-> occ es y) as Hocc by (intros y; unfold occ; by rewrite Hkey).
  split; [split; [by unfold es'; rewrite zlen_aset|split]|].
  - intros a b Ha Hb. rewrite Hocc, !Hkey. by apply Hu.
  - exists s. split; [done|]. intros y Hy Hoy. apply Hocc in Hoy.
    destruct (Hok y Hy Hoy) as [H1 H2]. unfold lin_ok. rewrite Hkey.
    split; [done|]. intros z Hz Hp. apply Hocc. by apply H2.
  - intros k c'. split.
    + intros (y & Hy & Hoy & E). destruct (decide (x = y)) as [<-|Hne].
      * unfold es' in E. rewrite entry_aset_eq in E by lia. left. by injection E.
      * apply Hocc in Hoy. unfold es' in E. rewrite entry_aset_ne in E by done.
        right. split; [|by exists y]. intros ->. apply Hne.
        symmetry. apply (Hu y x); try done. by rewrite E.
    + intros [[-> ->]|(Hne & y & Hy & Hoy & E)].
      * exists x. split; [done|]. split; [apply Hocc; unfold occ; by rewrite Ek|].
        unfold es'. by rewrite entry_aset_eq by lia.
      * exists y. split; [done|]. split; [by apply Hocc|]. unfold es'.
        rewrite entry_aset_ne; [done|]. intros ->. rewrite E in Ek. done.
Qed.
End Write.

(** ** The backward shift *)

(** The entry [(k, c)] is in the table outside the hole. *)
Definition rest (N : Z) (es : list buf_map_entry_t) (hole k c : Z) : Prop :=
  exists x, 0 <= x < N /\ x <> hole /\ occ es x /\ entry es x = {| key := k; class_idx := c |}.

(** The table with a hole that still holds a stale entry: a table but for the
    paths that cross the hole, which lie ahead of position [pn]. *)
Record shift_inv (N : Z) (h : Z -> Z) (s : Z) (es : list buf_map_entry_t) (hole pn : Z) : Prop := {
  si_len : zlen es = N;
  si_hole : 0 <= hole < N /\ occ es hole;
  si_unique : forall x y, 0 <= x < N -> 0 <= y < N -> x <> hole -> y <> hole -> occ es x ->
    key (entry es x) = key (entry es y) -> x = y;
  si_lin : forall x, 0 <= x < N -> x <> hole -> occ es x -> lin_ok N h es s x;
  si_pn : pos N s hole < pn <= N;
  si_scanned : forall x, 0 <= x < N -> x <> hole -> occ es x -> pos N s hole < pos N s x < pn ->
    pos N s hole < pos N s (h (key (entry es x)))
}.

Lemma aset_same {A} (d : A) l x : aset l x (aget d l x) = l.
Proof.
  unfold aset, aget. destruct (x <? 0); [done|].
  destruct (decide (Z.to_nat x < length l)%nat) as [H|H].
  - apply list_insert_id. destruct (nth_lookup_or_length l (Z.to_nat x) d); [done|lia].
  - apply list_insert_ge. lia.
Qed.

Section Shift.
Context (k : Z) (Hk : 0 <= k < 64).
Let N := 2 ^ k.
Let mask := N - 1.
Let h (key : Z) : Z := buf_map_hash key mask.
Context (s : Z) (Hs : 0 <= s < N).

Let HN : 0 < N := N_pos k Hk.
Let Hh : forall key, 0 <= h key < N := h_range k Hk.

(** Moving the entry at position [pn] into the hole. *)
Lemma shift_move es hole next pn :
  shift_inv N h s es hole pn -> 0 <= next < N -> pos N s next = pn -> occ es next ->
  pos N s (h (key (entry es next))) <= pos N s hole ->
  let es' := aset es hole (entry es next) in
  shift_inv N h s es' next (pn + 1) /\
  (forall k c, rest N es' next k c <-> rest N es hole k c) /\
  occupied es' = occupied es.
Proof using Hk Hs.
  intros [Hl [Hh0 Ho] Hu Hlin Hpn Hsc] Hn Epn Hon Hq. cbv zeta.
  assert (next <> hole) as Hne by (intros ->; lia).
  set (es' := aset es hole (entry es next)).
  assert (entry es' hole = entry es next) as Eh by (apply entry_aset_eq; lia).
  assert (forall x, x <> hole -> entry es' x = entry es x) as Ene
    by (intros x Hx; apply entry_aset_ne; congruence).
  assert (forall x, occ es x -> occ es' x) as Hoc
    by (intros x; apply occ_aset; [lia|exact Hon]).
  assert (forall x, occ es' x -> occ es x) as Hoc'.
  { intros x Hx. destruct (decide (x = hole)) as [->|]; [done|].
    unfold occ in *. by rewrite Ene in Hx by done. }
  split; [split|split].
  - unfold es'. by rewrite zlen_aset.
  - auto.
  - intros x y Hx Hy Hxn Hyn Hox.
    destruct (decide (x = hole)) as [->|]; destruct (decide (y = hole)) as [->|]; try done;
      rewrite ?Eh, ?Ene by done; intros E.
    + symmetry in E. destruct Hyn. symmetry in E. symmetry. apply Hu; auto.
    + destruct Hxn. apply Hu; auto.
    + apply Hu; auto.
  - intros x Hx Hxn Hox. unfold lin_ok. destruct (decide (x = hole)) as [->|Hxh].
    + rewrite Eh. split; [done|]. intros y Hy Hpy. apply Hoc.
      destruct (Hlin next Hn Hne Hon) as [_ H2]. apply H2; [done|]. lia.
    + rewrite Ene by done. destruct (Hlin x Hx Hxh (Hoc' _ Hox)) as [H1 H2].
      split; [done|]. intros y Hy Hpy. apply Hoc. by apply H2.
  - pose proof (pos_range N HN s next). lia.
  - intros x Hx Hxn Hox Hp. exfalso. apply Hxn. apply (pos_inj N HN s); auto. lia.
  - intros k0 c. split; intros (x & Hx & Hxn & Hox & E).
    + destruct (decide (x = hole)) as [->|Hxh].
      * rewrite Eh in E. by exists next.
      * rewrite Ene in E by done. exists x. auto.
    + destruct (decide (x = next)) as [->|Hxx].
      * exists hole. rewrite Eh. auto.
      * exists x. rewrite Ene by done. auto.
  - unfold es'. rewrite occupied_aset by lia. fold (occ es hole) in Ho. unfold occ in *.
    destruct (Z.eqb_spec (key (entry es hole)) 0); [done|].
    destruct (Z.eqb_spec (key (entry es next)) 0); [done|]. lia.
Qed.

(** Once nothing ahead of the hole crosses it, the shift is over. *)
Lemma shift_end es hole pn x :
  shift_inv N h s es hole pn -> (pn = N \/ 0 <= x < N /\ pos N s x = pn /\ ~ occ es x) ->
  shift_inv N h s es hole N.
Proof using Hk Hs.
  intros [Hl [Hh0 Ho] Hu Hlin Hpn Hsc] Hend. split; auto; [lia|].
  intros y Hy Hyn Hoy Hp. destruct Hend as [->|(Hx & Ex & Hex)]; [by apply Hsc|].
  destruct (decide (pos N s y < pn)); [apply Hsc; auto; lia|].
  destruct (Hlin y Hy Hyn Hoy) as [H1 H2].
  destruct (decide (pos N s (h (key (entry es y))) <= pn)); [|lia].
  destruct Hex. apply H2; [done|]. lia.
Qed.

(** After the wrap past the pivot, the loop changes nothing. *)
Lemma shift_wrapped n : forall es hole next,
  shift_inv N h s es hole N -> 0 <= next < N ->
  pos N s next + Z.of_nat n <= pos N s hole + 1 ->
  remove_shift es mask hole next n = (es, hole).
Proof using Hk Hs.
  induction n as [|n IH]; intros es hole next Hinv Hn Hb; [done|]. cbn [remove_shift].
  destruct (Z.eqb_spec (key (entry es next)) 0) as [|Hon]; [done|].
  pose proof Hinv as [Hl [Hh0 Ho] Hu Hlin Hpn Hsc].
  unfold mask, N. rewrite !land_mask by lia. fold N mask.
  destruct (decide (next = hole)) as [->|Hne].
  - rewrite Z.leb_refl. unfold entry at 1. rewrite aset_same.
    destruct n as [|n]; [done|lia].
  - destruct (Hlin next Hn Hne Hon) as [H1 _].
    assert (pos N s next <> pos N s hole) by (intros E; apply Hne; by apply (pos_inj N HN s)).
    pose proof (Hh (key (entry es next))) as Hnat.
    change (buf_map_hash (key (entry es next)) mask) with (h (key (entry es next))).
    fold N. rewrite (dist_pos N HN s _ next), (dist_pos N HN s _ hole) by auto.
    pose proof (pos_range N HN s hole).
    destruct (Z.leb_spec (pos N s (h (key (entry es next)))) (pos N s hole)); [|lia].
    destruct (Z.leb_spec (pos N s (h (key (entry es next)))) (pos N s next)); [|lia].
    zcase; [lia|]. apply IH; [done|apply slot_range; lia|].
    rewrite pos_add by lia. lia.
Qed.

Lemma remove_shift_spec n : forall es hole next,
  shift_inv N h s es hole (pos N s next) -> 0 <= next < N ->
  Z.of_nat n <= N ->
  N - pos N s next < Z.of_nat n -> pos N s next + Z.of_nat n <= N + pos N s hole + 1 ->
  exists es' hole',
    remove_shift es mask hole next n = (es', hole') /\ shift_inv N h s es' hole' N /\
    (forall k c, rest N es' hole' k c <-> rest N es hole k c) /\
    occupied es' = occupied es.
Proof using Hk Hs.
  induction n as [|n IH]; intros es hole next Hinv Hn HnN Hlo Hhi.
  { pose proof (pos_range N HN s next). lia. }
  cbn [remove_shift].
  destruct (Z.eqb_spec (key (entry es next)) 0) as [Hempty|Hon].
  { exists es, hole. split; [done|]. split; [|done].
    apply (shift_end es hole (pos N s next) next); [done|]. right. split_and!; try lia.
    intros H. by apply H. }
  pose proof Hinv as [Hl [Hh0 Ho] Hu Hlin Hpn Hsc].
  unfold mask, N. rewrite !land_mask by lia. fold N mask.
  assert (next <> hole) as Hne by (intros ->; lia).
  destruct (Hlin next Hn Hne Hon) as [H1 H2].
  pose proof (Hh (key (entry es next))) as Hnat.
  change (buf_map_hash (key (entry es next)) mask) with (h (key (entry es next))).
  fold N. rewrite (dist_pos N HN s _ next), (dist_pos N HN s _ hole) by auto.
  destruct (Z.leb_spec (pos N s (h (key (entry es next)))) (pos N s next)); [|lia].
  pose proof (pos_range N HN s next). pose proof (pos_range N HN s hole).
  pose proof (slot_range N HN (next + 1)) as Hr.
  assert (forall es' hole', shift_inv N h s es' hole' (pos N s next + 1) ->
    pos N s hole <= pos N s hole' <= pos N s next ->
    (forall k c, rest N es' hole' k c <-> rest N es hole k c) ->
    occupied es' = occupied es ->
    exists es2 hole2, remove_shift es' mask hole' ((next + 1) mod N) n = (es2, hole2) /\
      shift_inv N h s es2 hole2 N /\
      (forall k c, rest N es2 hole2 k c <-> rest N es hole k c) /\
      occupied es2 = occupied es) as Hgo.
  { intros es' hole' Hinv' Hp' Hr' Ho'.
    destruct (decide (next = s)) as [->|Hns].
    - rewrite pos_pivot in * by lia. replace (N - 1 + 1) with N in Hinv' by lia.
      exists es', hole'. rewrite shift_wrapped; try done. rewrite pos_wrap by lia. lia.
    - assert (pos N s next <> N - 1).
      { rewrite <- (pos_pivot N HN s Hs). intros E. apply Hns. by apply (pos_inj N HN s). }
      assert (pos N s ((next + 1) mod N) = pos N s next + 1) as Ep by (apply pos_add; lia).
      destruct (IH es' hole' ((next + 1) mod N)) as (es2 & hole2 & E2 & Hi2 & Hr2 & Ho2);
        try rewrite Ep; try done; try lia.
      exists es2, hole2. split_and!; try done; [|congruence].
      intros k0 c. by rewrite Hr2. }
  destruct (Z.leb_spec (pos N s (h (key (entry es next)))) (pos N s hole)) as [Hq|Hq].
  - destruct (Z.leb_spec (pos N s hole - pos N s (h (key (entry es next))))
                (pos N s next - pos N s (h (key (entry es next))))); [|lia].
    destruct (shift_move es hole next (pos N s next) Hinv Hn eq_refl Hon Hq) as (Hm1 & Hm2 & Hm3).
    apply Hgo; try done. lia.
  - zcase; [pose proof (pos_range N HN s (h (key (entry es next)))); lia|].
    apply Hgo; try done; [|lia]. split; auto; [lia|].
    intros x Hx Hxn Hox Hp. destruct (decide (pos N s x < pos N s next)); [apply Hsc; auto; lia|].
    assert (x = next) as -> by (apply (pos_inj N HN s); auto; lia). done.
Qed.
End Shift.
