(* ===== verification/BufMapSpec.v ===== *)
(** * The buffer size map refines a finite map

    Lookup, insertion (with growth) and removal of [BufMap] against stdpp's
    [gmap], from the probing theory of [Probing]. *)
From Stdlib Require Import ZArith Lia List.
From stdpp Require Import base tactics list gmap.
From S2P Require Import Prelude BufMap Probing.

#[local] Open Scope Z_scope.

(** The table represents the finite map [g]. *)
Definition bm_repr (map : buf_size_map_t) (g : gmap Z Z) : Prop :=
  exists k, 10 <= k <= 20 /\ capacity map = 2 ^ k /\
    table_inv (2 ^ k) (fun x => buf_map_hash x (2 ^ k - 1)) (entries map) /\
    count map = occupied (entries map) /\ count map = Z.of_nat (size g) /\
    (forall key c, g !! key = Some c <-> holds (2 ^ k) (entries map) key c) /\
    (forall key c, g !! key = Some c -> 0 <= c <= 255).

Lemma occupied_lt_empty es : occupied es < zlen es -> exists x, 0 <= x < zlen es /\ ~ occ es x.
Proof.
  unfold occupied, zlen. induction es as [|e es IH]; cbn [fmap list_fmap zsum length]; [lia|].
  intros Hlt. destruct (Z.eqb_spec (key e) 0) as [E|E].
  - exists 0. split; [lia|]. intros H. by apply H.
  - destruct IH as (x & Hx & Hn); [lia|]. exists (x + 1). split; [lia|].
    unfold occ, entry, aget in *.
    destruct (Z.ltb_spec x 0); [lia|]. destruct (Z.ltb_spec (x + 1) 0); [lia|].
    replace (Z.to_nat (x + 1)) with (S (Z.to_nat x)) by lia. done.
Qed.

Lemma reach_slot N a x : 0 < N -> 0 <= a < N -> 0 <= x < N ->
  0 <= (x - a) mod N < N /\ (a + (x - a) mod N) mod N = x.
Proof.
  intros. split; [apply Z.mod_pos_bound; lia|].
  rewrite Zplus_mod_idemp_r. replace (a + (x - a)) with x by lia. by apply Z.mod_small.
Qed.

Section Table.
Context (k : Z) (Hk : 0 <= k < 64).
Let N := 2 ^ k.
Let h (key : Z) : Z := buf_map_hash key (N - 1).
Let HN : 0 < N := N_pos k Hk.
Let Hh : forall key, 0 <= h key < N := h_range k Hk.

(** A key in the table is found where it is. *)
Lemma probe_present es x :
  table_inv N h es -> 0 <= x < N -> occ es x ->
  remove_probe es (N - 1) (key (entry es x)) (h (key (entry es x))) (Z.to_nat N) = Some x /\
  insert_probe es (N - 1) (key (entry es x)) (h (key (entry es x))) (Z.to_nat N) = (true, x).
Proof using Hk.
  intros (Hl & Hu & s & Hs & Hok) Hx Ho.
  destruct (lin_run N HN h Hh es s x Hs Hx (Hok x Hx Ho)) as (d & Hd & Ex & Hrun).
  pose proof (Hh (key (entry es x))) as Ha. set (a := h (key (entry es x))) in *.
  rewrite <- (Z.mod_small a N) by lia.
  pose proof (remove_probe_found k Hk es (key (entry es x)) a (Z.to_nat d) (Z.to_nat N)) as H.
  rewrite Z2Nat.id in H by lia. fold N in H. rewrite <- Ex in H. apply H; try lia; try done.
  intros i Hi E. assert ((a + i) mod N = x) as Hc.
  { apply Hu; auto; [apply slot_range; lia|apply Hrun; lia]. }
  assert (forall j, 0 <= j < N -> (((a + j) mod N) - a) mod N = j) as Hj.
  { intros j Hj. rewrite Zminus_mod_idemp_l. replace (a + j - a) with j by lia.
    by apply Z.mod_small. }
  assert (i = d); [|lia]. rewrite <- (Hj i), <- (Hj d) by lia. by rewrite Hc, <- Ex.
Qed.

Lemma key_absent es key0 :
  (forall x, 0 <= x < N -> occ es x -> key (entry es x) <> key0) ->
  remove_probe es (N - 1) key0 (h key0) (Z.to_nat N) = None /\
  exists d, 0 <= d <= N /\
    insert_probe es (N - 1) key0 (h key0) (Z.to_nat N) = (false, (h key0 + d) mod N) /\
    (forall i, 0 <= i < d -> occ es ((h key0 + i) mod N)) /\
    (d < N -> ~ occ es ((h key0 + d) mod N)).
Proof using Hk.
  intros Hne. pose proof (Hh key0) as Ha.
  destruct (probe_absent k Hk es key0 (Z.to_nat N) (h key0)) as (Hr & d & Hd & Hi & Ho & He).
  { intros i Hi Ho. apply Hne; [apply slot_range; lia|done]. }
  rewrite Z2Nat.id in Hd, He by lia. fold N in Hr, Hi, Ho, He.
  rewrite (Z.mod_small (h key0) N) in Hr, Hi by lia.
  split; [done|]. by exists d.
Qed.

(** Decidable membership of a key. *)
Lemma key_dec es key0 :
  (exists x, 0 <= x < N /\ occ es x /\ key (entry es x) = key0) \/
  (forall x, 0 <= x < N -> occ es x -> key (entry es x) <> key0).
Proof using Hk.
  assert (forall n : nat,
    (exists x, 0 <= x < Z.of_nat n /\ occ es x /\ key (entry es x) = key0) \/
    (forall x, 0 <= x < Z.of_nat n -> occ es x -> key (entry es x) <> key0)) as H.
  { induction n as [|n [(x & Hx & H)|IH]]; [right; lia|left; exists x; split; [lia|done]|].
    destruct (decide (key (entry es (Z.of_nat n)) = key0)) as [E|E];
      [destruct (decide (key (entry es (Z.of_nat n)) = 0)) as [E0|E0]|].
    - right. intros x Hx Ho. destruct (decide (x = Z.of_nat n)) as [->|]; [done|apply IH; auto; lia].
    - left. exists (Z.of_nat n). split; [lia|done].
    - right. intros x Hx Ho. destruct (decide (x = Z.of_nat n)) as [->|]; [done|apply IH; auto; lia]. }
  specialize (H (Z.to_nat N)). by rewrite Z2Nat.id in H by lia.
Qed.

(** An empty slot ends every probe before the table is exhausted. *)
Lemma absent_room es d a :
  0 <= a < N -> zlen es = N -> occupied es < N -> 0 <= d <= N ->
  (forall i, 0 <= i < d -> occ es ((a + i) mod N)) -> d < N.
Proof using Hk.
  intros Ha Hl Hlt Hd Hrun. destruct (occupied_lt_empty es) as (x & Hx & Hn); [lia|].
  rewrite Hl in Hx. destruct (reach_slot N a x HN Ha Hx) as [H1 H2].
  destruct (decide (d < N)); [done|]. destruct Hn. rewrite <- H2. apply Hrun. lia.
Qed.

(** Rehashing the old entries into the new table. *)
Lemma grow_loop_spec old : forall new,
  table_inv N h new -> occupied new + zlen old < N ->
  (forall i j e e', old !! i = Some e -> old !! j = Some e' -> key e <> 0 -> key e = key e' ->
     i = j) ->
  (forall e x, e ∈ old -> key e <> 0 -> 0 <= x < N -> key (entry new x) <> key e) ->
  exists es, grow_loop old new (N - 1) (Z.to_nat N) = Some es /\ table_inv N h es /\
    (forall k c, holds N es k c <->
       holds N new k c \/ k <> 0 /\ {| key := k; class_idx := c |} ∈ old) /\
    occupied es = occupied new + occupied old.
Proof using Hk.
  induction old as [|e old IH]; intros new Hinv Hroom Hu Hnew.
  { exists new. unfold occupied at 3. cbn. split_and!; try done; [|lia].
    intros k0 c. split; [auto|]. intros [?|[_ H]]; [done|]. by apply not_elem_of_nil in H. }
  cbn [grow_loop]. unfold zlen in Hroom. cbn [length] in Hroom.
  assert (forall i j e e', old !! i = Some e -> old !! j = Some e' -> key e <> 0 ->
    key e = key e' -> i = j) as Hu'.
  { intros i j e1 e2 H1 H2 H3 H4. assert (S i = S j); [|lia]. by apply (Hu (S i) (S j) e1 e2). }
  assert (occupied (e :: old) = (if key e =? 0 then 0 else 1) + occupied old) as Eo by done.
  rewrite Eo. destruct (Z.eqb_spec (key e) 0) as [E|E].
  - destruct (IH new Hinv) as (es & E1 & E2 & E3 & E4); auto; [unfold zlen; lia|..].
    { intros e1 x He1. apply Hnew. by apply list_elem_of_further. }
    exists es. split_and!; auto. intros k0 c. rewrite E3, elem_of_cons.
    split; [intros [?|[? ?]]; auto|]. intros [?|[H [H'|H']]]; auto. subst e. done.
  - pose proof Hinv as (Hl & _). pose proof (Hh (key e)) as Ha.
    destruct (occupied_lt_empty new) as (x & Hx & Hn); [lia|]. rewrite Hl in Hx.
    destruct (reach_slot N (h (key e)) x HN Ha Hx) as [Hr1 Hr2].
    destruct (grow_probe_spec k Hk new (Z.to_nat N) (h (key e))) as (d & Hd & Eg & Hrun & Hend).
    { exists ((x - h (key e)) mod N). fold N. rewrite Hr2, Z2Nat.id by lia. done. }
    rewrite Z2Nat.id in Hd by lia. fold N in Eg, Hrun, Hend.
    rewrite (Z.mod_small (h (key e)) N) in Eg by lia. fold (h (key e)). rewrite Eg.
    set (slot := (h (key e) + d) mod N) in *.
    assert (0 <= slot < N) as Hslot by (apply slot_range; lia).
    destruct (insert_empty N HN h Hh new slot d (key e) (class_idx e)) as [Hi Hc]; auto.
    { intros y Hy. apply Hnew; [|done|done]. apply list_elem_of_here. }
    assert ({| key := key e; class_idx := class_idx e |} = e) as Ee by by destruct e.
    rewrite Ee in *.
    assert (occupied (aset new slot e) = occupied new + 1) as Eoc.
    { rewrite occupied_aset by lia. destruct (Z.eqb_spec (key (entry new slot)) 0); [|done].
      destruct (Z.eqb_spec (key e) 0); [done|]. lia. }
    destruct (IH (aset new slot e)) as (es & E1 & E2 & E3 & E4); auto.
    { unfold zlen. lia. }
    { intros e1 y He1 H1 Hy. destruct (decide (slot = y)) as [<-|].
      - rewrite entry_aset_eq by lia. intros Ek. apply list_elem_of_lookup in He1 as [i Hi1].
        assert (0%nat = S i); [|lia]. by apply (Hu 0%nat (S i) e e1).
      - rewrite entry_aset_ne by done. apply Hnew; auto. by apply list_elem_of_further. }
    exists es. split_and!; auto; [|lia].
    intros k0 c. rewrite E3, Hc, elem_of_cons. split.
    + intros [[[-> ->]|?]|[? ?]]; auto.
    + intros [?|[H [H'|H']]]; auto. left. left. by subst e.
Qed.
End Table.

(** Membership read off the representation. *)
Section Repr.
Context (map : buf_size_map_t) (g : gmap Z Z) (k : Z).
Let N := 2 ^ k.
Context (Hrel : forall key c, g !! key = Some c <-> holds N (entries map) key c).

Lemma repr_none key0 :
  key0 <> 0 ->
  (g !! key0 = None <-> forall x, 0 <= x < N -> key (entry (entries map) x) <> key0).
Proof using Hrel.
  intros H0. split.
  - intros Hn x Hx E.
    assert (g !! key0 = Some (class_idx (entry (entries map) x))) as Hc; [|congruence].
    apply Hrel. exists x. split; [done|]. split; [unfold occ; by rewrite E|].
    rewrite <- E. by destruct (entry (entries map) x).
  - intros Hn. destruct (g !! key0) as [c|] eqn:E; [|done].
    apply Hrel in E as (x & Hx & _ & E). destruct (Hn x Hx). by rewrite E.
Qed.

Lemma repr_present x :
  0 <= x < N -> occ (entries map) x ->
  g !! key (entry (entries map) x) = Some (class_idx (entry (entries map) x)).
Proof using Hrel.
  intros Hx Ho. apply Hrel. exists x. split; [exact Hx|]. split; [exact Ho|].
  by destruct (entry (entries map) x).
Qed.
End Repr.

(** ** Initialisation *)

Lemma zlen_replicate {A} n (x : A) : zlen (replicate (Z.to_nat n) x) = Z.max n 0.
Proof. unfold zlen. rewrite length_replicate. lia. Qed.

Lemma table_inv_empty N h : 0 < N -> table_inv N h (replicate (Z.to_nat N) entry_zero).
Proof.
  intros HN.
  assert (forall x, ~ occ (replicate (Z.to_nat N) entry_zero) x) as He.
  { intros x H. apply H. unfold entry. by rewrite aget_replicate. }
  split; [rewrite zlen_replicate; lia|]. split; [intros x y _ _ H; by destruct (He x)|].
  exists 0. split; [lia|]. intros x _ H. by destruct (He x).
Qed.

Lemma occupied_replicate n : occupied (replicate n entry_zero) = 0.
Proof. unfold occupied. rewrite fmap_replicate. apply zsum_replicate_0. Qed.

Lemma holds_empty N n k c : ~ holds N (replicate n entry_zero) k c.
Proof. intros (x & _ & H & _). apply H. unfold entry. by rewrite aget_replicate. Qed.

Lemma bm_repr_empty k :
  10 <= k <= 20 ->
  bm_repr {| entries := replicate (Z.to_nat (2 ^ k)) entry_zero; capacity := 2 ^ k; count := 0 |} ∅.
Proof.
  intros Hk. exists k. cbn [capacity count entries].
  split; [done|]. split; [done|].
  split; [apply table_inv_empty, Z.pow_pos_nonneg; lia|].
  rewrite occupied_replicate. split; [done|]. split; [done|]. split; [|done].
  intros key0 c. split; [by rewrite lookup_empty|]. intros H. by apply holds_empty in H.
Qed.

Lemma bm_repr_init : exists map, buf_size_map_init true true = Some map /\ bm_repr map ∅.
Proof. eexists. split; [reflexivity|]. apply (bm_repr_empty 10). lia. Qed.

(** ** Insertion *)

Section Insert.
Context (map : buf_size_map_t) (g : gmap Z Z) (key0 cls : Z).
Context (Hr : bm_repr map g) (H0 : key0 <> 0).

Lemma insert_classes i c :
  <[key0 := u8 cls]> g !! i = Some c -> 0 <= c <= 255.
Proof using Hr.
  destruct Hr as (k & _ & _ & _ & _ & _ & _ & Hb). destruct (decide (key0 = i)) as [<-|].
  - rewrite lookup_insert_eq. intros [= <-]. unfold u8, wrap_u.
    pose proof (Z.mod_pos_bound cls (2 ^ 8)). lia.
  - rewrite lookup_insert_ne by done. apply Hb.
Qed.

(** With room left, the insertion after the check succeeds. *)
Lemma insert_slot_spec :
  count map < capacity map ->
  exists map', insert_slot map key0 cls = (Ok tt, map') /\ bm_repr map' (<[key0 := u8 cls]> g) /\
    capacity map' = capacity map.
Proof using Hr H0.
  pose proof insert_classes as Hb'.
  destruct Hr as (k & Hk & Hcap & Hinv & Hcnt & Hsz & Hrel & Hb). intros Hroom.
  assert (0 <= k < 64) as Hk' by lia. pose proof (N_pos k Hk') as HN.
  pose proof Hinv as (Hl & _ & _). unfold insert_slot. rewrite Hcap.
  destruct (key_dec k Hk' (entries map) key0) as [(x & Hx & Ho & Ek)|Hne].
  - destruct (probe_present k Hk' _ x Hinv Hx Ho) as [_ Hp]. rewrite Ek in Hp. rewrite Hp.
    destruct (update_key (2 ^ k) HN _ (h_range k Hk') (entries map) x key0 (u8 cls) Hinv H0 Hx Ek)
      as [Hi Hc].
    eexists. split; [reflexivity|]. split; [|done]. exists k. cbn [capacity entries count].
    split_and!; try done; try lia.
    + rewrite occupied_aset by lia. cbn [key]. unfold occ in Ho.
      destruct (Z.eqb_spec (key (entry (entries map) x)) 0); [done|].
      destruct (Z.eqb_spec key0 0); [done|]. lia.
    + rewrite map_size_insert_Some; [done|].
      exists (class_idx (entry (entries map) x)). rewrite <- Ek. by apply (repr_present _ _ k).
    + intros i c. rewrite Hc. destruct (decide (key0 = i)) as [<-|Hni].
      * rewrite lookup_insert_eq. split; [intros [= <-]; auto|]. by intros [[_ ->]|[? _]].
      * rewrite lookup_insert_ne by done. rewrite Hrel.
        split; [auto|]. by intros [[-> _]|[_ ?]].
  - destruct (key_absent k Hk' (entries map) key0 Hne) as (_ & d & Hd & Hp & Hrun & Hend).
    rewrite Hp.
    pose proof (h_range k Hk' key0) as Ha.
    assert (d < 2 ^ k) as Hlt by (apply (absent_room k Hk' (entries map) d _ Ha); auto; lia).
    set (slot := (buf_map_hash key0 (2 ^ k - 1) + d) mod 2 ^ k) in *.
    assert (0 <= slot < 2 ^ k) as Hslot by (apply Z.mod_pos_bound; lia).
    specialize (Hend Hlt).
    assert (forall x, 0 <= x < 2 ^ k -> key (entry (entries map) x) <> key0) as Hne'.
    { intros x Hx Ek. apply (Hne x Hx); [|done]. unfold occ. by rewrite Ek. }
    destruct (Z.eqb_spec (key (entry (entries map) slot)) 0) as [Ez|]; [|by destruct Hend].
    cbn [negb].
    destruct (insert_empty (2 ^ k) HN _ (h_range k Hk') (entries map) slot d key0 (u8 cls))
      as [Hi Hc]; auto; [lia|].
    eexists. split; [reflexivity|]. split; [|done]. exists k. cbn [capacity entries count].
    assert (2 ^ k <= 2 ^ 20) by (apply Z.pow_le_mono_r; lia).
    rewrite u64_id by (unfold SIZE_MAX; lia).
    split_and!; try done; try lia.
    + rewrite occupied_aset by lia. cbn [key]. rewrite Ez. cbn.
      destruct (Z.eqb_spec key0 0); [done|]. lia.
    + rewrite map_size_insert_None; [lia|]. by apply (repr_none map g k).
    + intros i c. rewrite Hc. destruct (decide (key0 = i)) as [<-|Hni].
      * rewrite lookup_insert_eq. split; [intros [= <-]; auto|].
        intros [[_ ->]|(x & Hx & _ & E)]; [done|]. destruct (Hne' x Hx). by rewrite E.
      * rewrite lookup_insert_ne by done. rewrite Hrel.
        split; [auto|]. by intros [[-> _]|?].
Qed.
End Insert.

(** ** Growth *)

Lemma elem_of_entries es e :
  e ∈ es <-> exists x, 0 <= x < zlen es /\ entry es x = e.
Proof.
  rewrite list_elem_of_lookup. unfold entry, zlen. split.
  - intros [i Hi]. pose proof (lookup_lt_Some _ _ _ Hi). exists (Z.of_nat i). split; [lia|].
    unfold aget. destruct (Z.ltb_spec (Z.of_nat i) 0); [lia|]. rewrite Nat2Z.id.
    by apply nth_lookup_Some.
  - intros (x & Hx & E). exists (Z.to_nat x). unfold aget in E.
    destruct (Z.ltb_spec x 0); [lia|]. rewrite <- E, nth_lookup.
    destruct (lookup_lt_is_Some_2 es (Z.to_nat x)) as [y Hy]; [lia|]. by rewrite Hy.
Qed.

Lemma buf_map_grow_spec map g :
  bm_repr map g ->
  if BUF_MAP_MAX_CAPACITY <=? capacity map then
    forall ok, buf_map_grow map ok = Some (Err ENONE, map)
  else
    buf_map_grow map false = Some (Err ENONE, map) /\
    exists map', buf_map_grow map true = Some (Ok tt, map') /\ bm_repr map' g /\
      capacity map' = capacity map * 2 /\ count map' = count map.
Proof.
  intros (k & Hk & Hcap & Hinv & Hcnt & Hsz & Hrel & Hb).
  assert (BUF_MAP_MAX_CAPACITY = 2 ^ 20) as EM by reflexivity.
  assert (2 ^ k <= 2 ^ 20) by (apply Z.pow_le_mono_r; lia).
  assert (0 <= k + 1 < 64) as Hk' by lia. pose proof (N_pos (k + 1) Hk') as HN.
  unfold buf_map_grow. rewrite EM, Hcap.
  assert (2 ^ (k + 1) = 2 ^ k * 2) as E2 by (rewrite Z.pow_add_r; lia).
  rewrite u64_id by (unfold SIZE_MAX; lia). rewrite <- E2.
  destruct (Z.leb_spec (2 ^ 20) (2 ^ k)) as [Hge|Hlt].
  { intros ok. destruct (Z.ltb_spec (2 ^ 20) (2 ^ (k + 1))); [done|lia]. }
  assert (k < 20) as Hk20 by (apply (Z.pow_lt_mono_r_iff 2); lia).
  assert (2 ^ (k + 1) <= 2 ^ 20) by (apply Z.pow_le_mono_r; lia).
  destruct (Z.ltb_spec (2 ^ 20) (2 ^ (k + 1))); [lia|]. split; [done|]. cbn [negb].
  destruct Hinv as (Hl & Hu & Hs).
  destruct (grow_loop_spec (k + 1) Hk' (entries map)
              (replicate (Z.to_nat (2 ^ (k + 1))) entry_zero)) as (es & -> & Hi & Hc & Ho).
  - by apply table_inv_empty.
  - rewrite occupied_replicate, Hl. lia.
  - intros i j e e' Hi Hj Hne Ee.
    pose proof (lookup_lt_Some _ _ _ Hi). pose proof (lookup_lt_Some _ _ _ Hj).
    assert (forall n x, entries map !! n = Some x -> entry (entries map) (Z.of_nat n) = x) as Hen.
    { intros n x Hn. unfold entry, aget. destruct (Z.ltb_spec (Z.of_nat n) 0); [lia|].
      rewrite Nat2Z.id. by apply nth_lookup_Some. }
    unfold zlen in Hl. apply Nat2Z.inj.
    apply Hu; try lia; unfold occ; rewrite (Hen _ _ Hi); [done|]. by rewrite (Hen _ _ Hj).
  - intros e x _ Hne _. unfold entry. rewrite aget_replicate. done.
  - eexists. split; [reflexivity|]. split; [|split; [cbn [capacity]; lia|done]].
    exists (k + 1). cbn [capacity entries count]. split_and!; try done; try lia.
    + rewrite Ho, occupied_replicate. lia.
    + intros key0 c. rewrite Hc, Hrel, elem_of_entries, Hl. split.
      * intros (x & Hx & Hox & E). right. split; [|by exists x].
        unfold occ in Hox. by rewrite E in Hox.
      * intros [Hh|(Hne & x & Hx & E)]; [by apply holds_empty in Hh|].
        exists x. split; [lia|]. split; [|exact E]. unfold occ. by rewrite E.
Qed.

(** ** Removal *)

(** Emptying the hole once the shift is over. *)
Lemma hole_emptied N h s es hole c :
  0 < N -> 0 <= s < N -> shift_inv N h s es hole N ->
  let es' := aset es hole {| key := 0; class_idx := c |} in
  table_inv N h es' /\ (forall k c, holds N es' k c <-> rest N es hole k c) /\
  occupied es' = occupied es - 1.
Proof.
  intros HN Hs [Hl [Hh0 Ho] Hu Hlin Hpn Hsc]. cbv zeta.
  set (es' := aset es hole _).
  assert (entry es' hole = {| key := 0; class_idx := c |}) as Eh by (apply entry_aset_eq; lia).
  assert (forall x, x <> hole -> entry es' x = entry es x) as Ene
    by (intros x Hx; apply entry_aset_ne; congruence).
  assert (forall x, occ es' x -> x <> hole /\ occ es x) as Hoc.
  { intros x Hx. destruct (decide (x = hole)) as [->|Hne].
    - unfold occ in Hx. by rewrite Eh in Hx.
    - unfold occ in *. by rewrite Ene in Hx. }
  split; [split; [by unfold es'; rewrite zlen_aset|split]|split].
  - intros x y Hx Hy Hox Ek. apply Hoc in Hox as [Hxn Hox].
    destruct (decide (y = hole)) as [->|Hyn].
    + rewrite Eh, Ene in Ek by done. unfold occ in Hox. done.
    + rewrite !Ene in Ek by done. by apply Hu.
  - exists s. split; [done|]. intros x Hx Hox. apply Hoc in Hox as [Hxn Hox].
    destruct (Hlin x Hx Hxn Hox) as [H1 H2]. unfold lin_ok. rewrite Ene by done.
    split; [done|]. intros y Hy Hpy. specialize (H2 y Hy Hpy).
    destruct (decide (y = hole)) as [->|Hyn]; [|unfold occ in *; by rewrite Ene].
    exfalso. assert (pos N s hole <> pos N s x).
    { intros E. apply Hxn. symmetry. by apply (pos_inj N HN s). }
    pose proof (pos_range N HN s x). specialize (Hsc x Hx Hxn Hox). lia.
  - intros k0 c0. split.
    + intros (x & Hx & Hox & E). apply Hoc in Hox as [Hxn Hox]. rewrite Ene in E by done.
      by exists x.
    + intros (x & Hx & Hxn & Hox & E). exists x. unfold occ. by rewrite Ene by done.
  - unfold es'. rewrite occupied_aset by lia. cbn [key]. unfold occ in Ho.
    destruct (Z.eqb_spec (key (entry es hole)) 0); [done|]. cbn. lia.
Qed.

Section Remove.
Context (map : buf_size_map_t) (g : gmap Z Z) (key0 : Z) (Hr : bm_repr map g).

Lemma remove_present c :
  g !! key0 = Some c ->
  exists map', buf_size_map_remove map key0 = (c, map') /\ bm_repr map' (delete key0 g) /\
    capacity map' = capacity map.
Proof using Hr.
  intros Hg. destruct Hr as (k & Hk & Hcap & Hinv & Hcnt & Hsz & Hrel & Hb).
  assert (0 <= k < 64) as Hk' by lia. pose proof (N_pos k Hk') as HN.
  pose proof (proj1 (Hrel _ _) Hg) as (idx & Hx & Ho & E).
  assert (key (entry (entries map) idx) = key0) as Ek by by rewrite E.
  destruct (probe_present k Hk' _ idx Hinv Hx Ho) as [Hp _]. rewrite Ek in Hp.
  destruct Hinv as (Hl & Hu & s & Hs & Hok).
  unfold buf_size_map_remove. rewrite Hcap, Hp, land_mask by lia.
  set (h := fun x => buf_map_hash x (2 ^ k - 1)) in *.
  pose proof (pos_range (2 ^ k) HN s idx) as Hpi.
  assert (forall pn, pos (2 ^ k) s idx < pn <= 2 ^ k -> pn <= pos (2 ^ k) s idx + 1 \/ idx = s ->
    shift_inv (2 ^ k) h s (entries map) idx pn) as Hstart.
  { intros pn Hpn Hor. split; auto.
    intros y Hy Hyn Hoy Hpy. exfalso. destruct Hor as [?| ->]; [lia|].
    rewrite pos_pivot in Hpy by lia. lia. }
  assert (exists es' hole',
    remove_shift (entries map) (2 ^ k - 1) idx ((idx + 1) mod 2 ^ k) (Z.to_nat (2 ^ k))
      = (es', hole') /\ shift_inv (2 ^ k) h s es' hole' (2 ^ k) /\
    (forall k0 c, rest (2 ^ k) es' hole' k0 c <-> rest (2 ^ k) (entries map) idx k0 c) /\
    occupied es' = occupied (entries map)) as (es' & hole' & -> & Hi' & Hr' & Ho').
  { destruct (decide (idx = s)) as [->|Hns].
    - exists (entries map), s. rewrite (shift_wrapped k Hk' s Hs); [|apply Hstart; auto| |].
      + split; [done|]. split; [|done]. apply Hstart; auto. rewrite pos_pivot by lia. lia.
      + rewrite pos_pivot by lia. lia.
      + apply slot_range. lia.
      + rewrite pos_wrap, pos_pivot by lia. rewrite Z2Nat.id by lia. lia.
    - assert (pos (2 ^ k) s idx <> 2 ^ k - 1).
      { rewrite <- (pos_pivot (2 ^ k) HN s Hs). intros Ec. apply Hns.
        by apply (pos_inj (2 ^ k) HN s). }
      assert (pos (2 ^ k) s ((idx + 1) mod 2 ^ k) = pos (2 ^ k) s idx + 1) as Ep
        by (apply pos_add; lia).
      apply (remove_shift_spec k Hk' s Hs); rewrite ?Ep, ?Z2Nat.id by lia; try lia.
      + apply Hstart; lia.
      + apply slot_range. lia. }
  destruct (hole_emptied (2 ^ k) h s es' hole' (class_idx (entry es' hole')) HN Hs Hi')
    as (Hi2 & Hc2 & Ho2).
  eexists. split; [rewrite E; reflexivity|]. split; [|done]. exists k.
  cbn [capacity entries count].
  assert (Hsize : Z.of_nat (size (delete key0 g)) = Z.of_nat (size g) - 1).
  { rewrite map_size_delete_Some by eauto.
    assert (size g <> 0%nat); [|lia]. intros Hz. apply map_size_empty_iff in Hz. subst g.
    by rewrite lookup_empty in Hg. }
  assert (2 ^ k <= 2 ^ 20) by (apply Z.pow_le_mono_r; lia).
  pose proof (occupied_le (entries map)). pose proof (occupied_le es').
  assert (zlen (aset es' hole' {| key := 0; class_idx := class_idx (entry es' hole') |}) = 2 ^ k)
    by exact (proj1 Hi2).
  pose proof (occupied_le (aset es' hole' {| key := 0; class_idx := class_idx (entry es' hole') |})).
  rewrite u64_id by (unfold SIZE_MAX; lia).
  split; [done|]. split; [done|]. split; [exact Hi2|]. split; [lia|]. split; [lia|]. split.
  - intros k0 c0. rewrite Hc2, Hr'. destruct (decide (key0 = k0)) as [<-|Hne].
    + rewrite lookup_delete_eq. split; [done|]. intros (x & Hxx & Hxn & Hox & Ex).
      destruct Hxn. apply Hu; auto. rewrite Ex. done.
    + rewrite lookup_delete_ne, Hrel by done. split.
      * intros (x & Hxx & Hox & Ex). exists x. split; [done|]. split; [|done].
        intros ->. rewrite Ex in Ek. done.
      * intros (x & Hxx & _ & Hox & Ex). by exists x.
  - intros k0 c0 Hd. apply lookup_delete_Some in Hd as [_ Hd]. by apply (Hb k0).
Qed.

Lemma remove_missing :
  g !! key0 = None -> buf_size_map_remove map key0 = (-1, map).
Proof using Hr.
  intros Hg. destruct Hr as (k & Hk & Hcap & Hinv & Hcnt & Hsz & Hrel & Hb).
  assert (0 <= k < 64) as Hk' by lia.
  unfold buf_size_map_remove. rewrite Hcap.
  destruct (key_absent k Hk' (entries map) key0) as [Hp _]; [|by rewrite Hp].
  intros x Hx Hox E. pose proof (repr_present map g k Hrel x Hx Hox) as Hc. congruence.
Qed.
End Remove.

Lemma insert_ok map g key0 cls calloc_ok :
  bm_repr map g -> key0 <> 0 ->
  exists r map', buf_size_map_insert map key0 cls calloc_ok = Some (r, map') /\
    match r with
    | Ok _ => bm_repr map' (<[key0 := u8 cls]> g)
    | Err e =>
        map' = map /\ e = ENOMEM /\ capacity map * 3 <= Z.of_nat (size g) * 4 /\
        (capacity map < BUF_MAP_MAX_CAPACITY /\ calloc_ok = false \/
         capacity map = BUF_MAP_MAX_CAPACITY /\ Z.of_nat (size g) = capacity map)
    end.
Proof.
  intros Hr H0. pose proof Hr as (k & Hk & Hcap & (Hl & _) & Hcnt & Hsz & _).
  pose proof (buf_map_grow_spec map g Hr) as Hg.
  assert (2 ^ k <= 2 ^ 20) by (apply Z.pow_le_mono_r; lia).
  assert (2 ^ 10 <= 2 ^ k) by (apply Z.pow_le_mono_r; lia).
  pose proof (occupied_le (entries map)) as Hoc.
  assert (BUF_MAP_MAX_CAPACITY = 2 ^ 20) as EM by reflexivity.
  unfold buf_size_map_insert, insert_check, BUF_MAP_LOAD_FACTOR_NUM, BUF_MAP_LOAD_FACTOR_DEN.
  destruct (Z.eqb_spec key0 0); [done|].
  rewrite !u64_id by (unfold SIZE_MAX; lia).
  destruct (Z.leb_spec (capacity map * 3) (count map * 4)) as [Hfull|Hfree].
  - destruct (Z.leb_spec BUF_MAP_MAX_CAPACITY (capacity map)) as [Hmax|Hmax].
    + destruct (Z.leb_spec (capacity map) (count map)).
      * do 2 eexists. split; [reflexivity|]. split_and!; try done; lia.
      * destruct (insert_slot_spec map g key0 cls Hr H0) as (m' & -> & Hr' & _); [lia|].
        do 2 eexists. split; [reflexivity|]. done.
    + destruct Hg as [Hg0 (m1 & Hg1 & Hr1 & Hc1 & Hn1)]. destruct calloc_ok.
      * rewrite Hg1.
        destruct (insert_slot_spec m1 g key0 cls Hr1 H0) as (m' & -> & Hr' & _); [lia|].
        do 2 eexists. split; [reflexivity|]. done.
      * rewrite Hg0. do 2 eexists. split; [reflexivity|]. split_and!; try done; lia.
  - destruct (insert_slot_spec map g key0 cls Hr H0) as (m' & -> & Hr' & _); [lia|].
    do 2 eexists. split; [reflexivity|]. done.
Qed.

(** C9. Insertion refines map update. On a table that represents [g], inserting
    a key either updates [g] (the class is stored as a byte), or fails with
    ENOMEM and leaves the table alone; it fails only when the table is three
    quarters full and could not grow: the allocation failed, or the capacity is
    at its maximum and every slot is used. *)
Theorem buf_size_map_insert_refines map g key0 cls calloc_ok :
  bm_repr map g -> key0 <> 0 ->
  exists r map', buf_size_map_insert map key0 cls calloc_ok = Some (r, map') /\
    match r with
    | Ok _ => bm_repr map' (<[key0 := u8 cls]> g)
    | Err e =>
        map' = map /\ e = ENOMEM /\ capacity map * 3 <= Z.of_nat (size g) * 4 /\
        (capacity map < BUF_MAP_MAX_CAPACITY /\ calloc_ok = false \/
         capacity map = BUF_MAP_MAX_CAPACITY /\ Z.of_nat (size g) = capacity map)
    end.
Proof. apply insert_ok. Qed.

Lemma buf_size_map_insert_refines_witness :
  exists map, bm_repr map ∅ /\ 4096 <> 0 /\
    exists r map', buf_size_map_insert map 4096 3 true = Some (r, map').
Proof.
  destruct bm_repr_init as (map & _ & Hr). assert (4096 <> 0) as H0 by lia.
  exists map. split; [exact Hr|]. split; [exact H0|].
  destruct (buf_size_map_insert_refines map ∅ 4096 3 true Hr H0) as (r & map' & E & _).
  exists r, map'. exact E.
Defined.

(** C10. Removal refines lookup and deletion, at any load up to a completely full
    table: it returns the class stored for the key and removes exactly that
    key, or returns -1 and changes nothing when the key is not there. *)
Theorem buf_size_map_remove_refines map g key0 :
  bm_repr map g ->
  let '(r, map') := buf_size_map_remove map key0 in
  match g !! key0 with
  | Some c => r = c /\ 0 <= r <= 255 /\ bm_repr map' (delete key0 g)
  | None => r = -1 /\ map' = map
  end.
Proof.
  intros Hr. destruct (g !! key0) as [c|] eqn:Hg.
  - destruct (remove_present map g key0 Hr c Hg) as (map' & -> & Hr' & _).
    destruct Hr as (k & _ & _ & _ & _ & _ & _ & Hb). split_and!; try done; by apply (Hb key0).
  - by rewrite (remove_missing map g key0 Hr Hg).
Qed.

Lemma buf_size_map_remove_refines_witness :
  exists map, bm_repr map ∅ /\ fst (buf_size_map_remove map 4096) = -1.
Proof.
  destruct bm_repr_init as (map & _ & Hr). exists map. split; [exact Hr|].
  pose proof (buf_size_map_remove_refines map ∅ 4096 Hr) as H. rewrite lookup_empty in H.
  destruct (buf_size_map_remove map 4096) as [r map']. exact (proj1 H).
Defined.
