(* ===== verification/BufPool.v ===== *)
(** * The buffer pool

    [adaptive_buffer.c] 116-1069 and 1224-1236 with the types of
    [adaptive_buffer.h]: shards with their pre-allocated metadata slots,
    per-thread caches, the shared heap of pools and caches, allocation, free,
    thread exit and the three phases of destruction.

    An operation is a function of the world; this file gives the effect of one
    operation at a time, and [PoolLife] the interleavings of the destruction
    protocol. Addresses of pools and caches are indices into the world's lists,
    buffers are addresses the allocator chose, and slot pointers are indices
    into the shard's slot array. *)
From Stdlib Require Import ZArith Lia List.
From stdpp Require Import base tactics list.
From S2P Require Import Prelude BufSize BufMap.

#[local] Open Scope Z_scope.

Definition BUFFER_POOL_DEFAULT_MAX_FREE_PER_SHARD : Z := 256.
Definition THREAD_CACHE_SIZE : Z := 32.
Definition THREAD_CACHE_BATCH_SIZE : Z := 16.

(** ** Shards *)

Record buffer_slot_t := {
  buffer : Z;            (* 0 = NULL *)
  actual_size : Z;
  next : option Z
}.

Record buffer_shard_t := {
  size_buckets : list (option Z);
  slot_pool : list buffer_slot_t;
  free_slots : option Z;
  slot_pool_size : Z;
  free_count : Z;
  max_free_count : Z
}.

Definition slot_zero : buffer_slot_t := {| buffer := 0; actual_size := 0; next := None |}.

Definition bucket (shard : buffer_shard_t) (class_idx : Z) : option Z :=
  aget None (size_buckets shard) class_idx.

Definition slot_at (shard : buffer_shard_t) (i : Z) : buffer_slot_t :=
  aget slot_zero (slot_pool shard) i.

(** The slot array with each slot linked to the next one. *)
Definition linked_slots (n : Z) : list buffer_slot_t :=
  (fun i => {| buffer := 0; actual_size := 0;
               next := if i <? n - 1 then Some (i + 1) else None |}) <$> seqZ 0 n.

Definition shard_init (mutex_ok calloc_ok : bool) : option buffer_shard_t :=
  if negb mutex_ok then None
  else if negb calloc_ok then None
  else
    let n := BUFFER_POOL_DEFAULT_MAX_FREE_PER_SHARD in
    Some {| size_buckets := replicate (Z.to_nat BUFFER_SIZE_CLASSES) None;
            slot_pool := linked_slots n;
            free_slots := Some 0;
            slot_pool_size := n;
            free_count := 0;
            max_free_count := n |}.

(** Pop the head of a bucket; its slot goes to the free list. *)
Definition shard_pop (shard : buffer_shard_t) (class_idx : Z) : option (Z * buffer_shard_t) :=
  match bucket shard class_idx with
  | None => None
  | Some i =>
      let slot := slot_at shard i in
      Some (buffer slot,
        {| size_buckets := aset (size_buckets shard) class_idx (next slot);
           slot_pool := aset (slot_pool shard) i
             {| buffer := 0; actual_size := actual_size slot; next := free_slots shard |};
           free_slots := Some i;
           slot_pool_size := slot_pool_size shard;
           free_count := free_count shard - 1;
           max_free_count := max_free_count shard |})
  end.

(** Push a buffer on a bucket with the first free slot, if there is one. *)
Definition shard_push (shard : buffer_shard_t) (class_idx buf bucket_size : Z)
  : option buffer_shard_t :=
  match free_slots shard with
  | None => None
  | Some i =>
      let slot := slot_at shard i in
      Some {| size_buckets := aset (size_buckets shard) class_idx (Some i);
              slot_pool := aset (slot_pool shard) i
                {| buffer := buf; actual_size := bucket_size; next := bucket shard class_idx |};
              free_slots := next slot;
              slot_pool_size := slot_pool_size shard;
              free_count := free_count shard + 1;
              max_free_count := max_free_count shard |}
  end.

Definition at_high_water (shard : buffer_shard_t) : bool :=
  (0 <? max_free_count shard) && (max_free_count shard <=? free_count shard).

(** The buffers linked from a slot; [None] is a walk longer than [fuel]. *)
Fixpoint chain_buffers (slots : list buffer_slot_t) (head : option Z) (fuel : nat)
  : option (list Z) :=
  match head, fuel with
  | None, _ => Some []
  | Some _, O => None
  | Some i, S fuel =>
      let slot := aget slot_zero slots i in
      match chain_buffers slots (next slot) fuel with
      | None => None
      | Some l => Some (if buffer slot =? 0 then l else buffer slot :: l)
      end
  end.

(** The buffers [shard_destroy] frees, bucket by bucket. *)
Fixpoint destroy_buckets (slots : list buffer_slot_t) (heads : list (option Z)) (fuel : nat)
  : option (list Z) :=
  match heads with
  | [] => Some []
  | head :: heads =>
      match chain_buffers slots head fuel, destroy_buckets slots heads fuel with
      | Some l, Some l' => Some (l ++ l')
      | _, _ => None
      end
  end.

Definition shard_destroy (shard : buffer_shard_t) : option (list Z * buffer_shard_t) :=
  match destroy_buckets (slot_pool shard) (size_buckets shard)
          (Z.to_nat (slot_pool_size shard)) with
  | None => None
  | Some bufs =>
      Some (bufs,
        {| size_buckets := replicate (length (size_buckets shard)) None; slot_pool := [];
           free_slots := None; slot_pool_size := slot_pool_size shard; free_count := 0;
           max_free_count := max_free_count shard |})
  end.

(** ** Thread caches *)

Record thread_cache_t := {
  tc_pool : option Z;            (* pool address, None = orphaned *)
  tc_pool_id : Z;
  tc_next : option Z;
  owner_thread : Z;
  shard_id : Z;
  counts : list Z;
  tc_buffers : list (list Z);    (* [16][32] *)
  cleaned_up : bool;
  thread_exited : bool
}.

Definition thread_cache_eta (c : thread_cache_t) : thread_cache_t := {|
  tc_pool := tc_pool c; tc_pool_id := tc_pool_id c; tc_next := tc_next c;
  owner_thread := owner_thread c; shard_id := shard_id c; counts := counts c;
  tc_buffers := tc_buffers c; cleaned_up := cleaned_up c; thread_exited := thread_exited c
|}.

#[export] Instance set_tc_pool : Setter tc_pool := ltac:(mk_setter thread_cache_eta).
#[export] Instance set_tc_next : Setter tc_next := ltac:(mk_setter thread_cache_eta).
#[export] Instance set_shard_id : Setter shard_id := ltac:(mk_setter thread_cache_eta).
#[export] Instance set_counts : Setter counts := ltac:(mk_setter thread_cache_eta).
#[export] Instance set_tc_buffers : Setter tc_buffers := ltac:(mk_setter thread_cache_eta).
#[export] Instance set_cleaned_up : Setter cleaned_up := ltac:(mk_setter thread_cache_eta).
#[export] Instance set_thread_exited : Setter thread_exited := ltac:(mk_setter thread_cache_eta).

Definition tc_count (cache : thread_cache_t) (class_idx : Z) : Z := aget 0 (counts cache) class_idx.

(** [cache->buffers[class_idx][cache->counts[class_idx]++] = buf] *)
Definition cache_push (cache : thread_cache_t) (class_idx buf : Z) : thread_cache_t :=
  let n := tc_count cache class_idx in
  cache <| tc_buffers := aset (tc_buffers cache) class_idx
                           (aset (aget [] (tc_buffers cache) class_idx) n buf) |>
        <| counts := aset (counts cache) class_idx (n + 1) |>.

(** [cache->buffers[class_idx][--cache->counts[class_idx]]] *)
Definition cache_pop (cache : thread_cache_t) (class_idx : Z) : Z * thread_cache_t :=
  let n := tc_count cache class_idx - 1 in
  (aget 0 (aget [] (tc_buffers cache) class_idx) n,
   cache <| counts := aset (counts cache) class_idx n |>).

(** ** The refill and flush loops *)

(** [n] is what is left of the batch. *)
Fixpoint refill_loop (shard : buffer_shard_t) (cache : thread_cache_t) (class_idx : Z) (n : nat)
    (transferred : Z) : Z * buffer_shard_t * thread_cache_t :=
  match n with
  | O => (transferred, shard, cache)
  | S n =>
      if tc_count cache class_idx <? THREAD_CACHE_SIZE then
        match shard_pop shard class_idx with
        | None => (transferred, shard, cache)
        | Some (buf, shard) =>
            refill_loop shard (cache_push cache class_idx buf) class_idx n (transferred + 1)
        end
      else (transferred, shard, cache)
  end.

(** [while (cache->counts[class_idx] > 0) to_free[free_count++] = ...] *)
Fixpoint drain_loop (cache : thread_cache_t) (class_idx : Z) (n : nat) (to_free : list Z)
  : thread_cache_t * list Z :=
  match n with
  | O => (cache, to_free)
  | S n =>
      if 0 <? tc_count cache class_idx then
        let '(buf, cache) := cache_pop cache class_idx in
        drain_loop cache class_idx n (to_free ++ [buf])
      else (cache, to_free)
  end.

(** The flush loop; every iteration pops the cache, so [n] = its count is
    enough. The result is (transferred, shard, cache, to_free). *)
Fixpoint flush_loop (shard : buffer_shard_t) (cache : thread_cache_t) (class_idx bucket_size : Z)
    (n : nat) (transferred : Z) (to_free : list Z)
  : Z * buffer_shard_t * thread_cache_t * list Z :=
  match n with
  | O => (transferred, shard, cache, to_free)
  | S n' =>
      if (transferred <? THREAD_CACHE_BATCH_SIZE) && (0 <? tc_count cache class_idx) then
        if at_high_water shard then
          let '(cache, to_free) := drain_loop cache class_idx n to_free in
          (transferred, shard, cache, to_free)
        else
          match free_slots shard with
          | None =>
              let '(buf, cache) := cache_pop cache class_idx in
              flush_loop shard cache class_idx bucket_size n' transferred (to_free ++ [buf])
          | Some _ =>
              let '(buf, cache) := cache_pop cache class_idx in
              match shard_push shard class_idx buf bucket_size with
              | None => (transferred, shard, cache, to_free)   (* not reached *)
              | Some shard =>
                  flush_loop shard cache class_idx bucket_size n' (transferred + 1) to_free
              end
          end
      else (transferred, shard, cache, to_free)
  end.

(** ** Pools and the world *)

Record buffer_pool_t := {
  shards : list buffer_shard_t;        (* [] once freed *)
  shard_count : Z;
  shard_mask : Z;
  pool_id : Z;
  alignment : Z;
  thread_caches : option Z;            (* head of the cache list *)
  destroyed : bool;
  registrations_inflight : Z;
  active_users : Z;
  total_allocated : Z;                 (* size_t *)
  total_buffers : Z;                   (* size_t *)
  next_shard : Z                       (* int *)
}.

Definition buffer_pool_eta (p : buffer_pool_t) : buffer_pool_t := {|
  shards := shards p; shard_count := shard_count p; shard_mask := shard_mask p;
  pool_id := pool_id p; alignment := alignment p; thread_caches := thread_caches p;
  destroyed := destroyed p; registrations_inflight := registrations_inflight p;
  active_users := active_users p; total_allocated := total_allocated p;
  total_buffers := total_buffers p; next_shard := next_shard p
|}.

#[export] Instance set_shards : Setter shards := ltac:(mk_setter buffer_pool_eta).
#[export] Instance set_shard_count : Setter shard_count := ltac:(mk_setter buffer_pool_eta).
#[export] Instance set_shard_mask : Setter shard_mask := ltac:(mk_setter buffer_pool_eta).
#[export] Instance set_thread_caches : Setter thread_caches := ltac:(mk_setter buffer_pool_eta).
#[export] Instance set_destroyed : Setter destroyed := ltac:(mk_setter buffer_pool_eta).
#[export] Instance set_registrations_inflight : Setter registrations_inflight := ltac:(mk_setter buffer_pool_eta).
#[export] Instance set_active_users : Setter active_users := ltac:(mk_setter buffer_pool_eta).
#[export] Instance set_total_allocated : Setter total_allocated := ltac:(mk_setter buffer_pool_eta).
#[export] Instance set_total_buffers : Setter total_buffers := ltac:(mk_setter buffer_pool_eta).
#[export] Instance set_next_shard : Setter next_shard := ltac:(mk_setter buffer_pool_eta).

(** [heap] holds the outcomes of the successive [posix_memalign] calls and
    [libc] those of the other calls that can fail ([calloc],
    [pthread_mutex_init], [pthread_key_create]); when one runs out, its calls
    fail. [freed] lists the buffers given to [free]. *)
Record world := {
  pools : list buffer_pool_t;
  caches : list (option thread_cache_t);   (* None = freed *)
  tls_cache : list (option Z);             (* per thread *)
  tls_key : list (option Z);               (* per thread *)
  tls_key_valid : bool;
  tls_key_once : bool;
  pool_generation_counter : Z;
  freed : list Z;
  heap : list (result Z);
  libc : list (result unit)
}.

Definition world_eta (w : world) : world := {|
  pools := pools w; caches := caches w; tls_cache := tls_cache w; tls_key := tls_key w;
  tls_key_valid := tls_key_valid w; tls_key_once := tls_key_once w;
  pool_generation_counter := pool_generation_counter w; freed := freed w; heap := heap w; libc := libc w
|}.

#[export] Instance set_pools : Setter pools := ltac:(mk_setter world_eta).
#[export] Instance set_caches : Setter caches := ltac:(mk_setter world_eta).
#[export] Instance set_tls_cache : Setter tls_cache := ltac:(mk_setter world_eta).
#[export] Instance set_tls_key : Setter tls_key := ltac:(mk_setter world_eta).
#[export] Instance set_tls_key_valid : Setter tls_key_valid := ltac:(mk_setter world_eta).
#[export] Instance set_tls_key_once : Setter tls_key_once := ltac:(mk_setter world_eta).
#[export] Instance set_pool_generation_counter : Setter pool_generation_counter := ltac:(mk_setter world_eta).
#[export] Instance set_freed : Setter freed := ltac:(mk_setter world_eta).
#[export] Instance set_heap : Setter heap := ltac:(mk_setter world_eta).
#[export] Instance set_libc : Setter libc := ltac:(mk_setter world_eta).

Definition shard_zero : buffer_shard_t :=
  {| size_buckets := []; slot_pool := []; free_slots := None; slot_pool_size := 0;
     free_count := 0; max_free_count := 0 |}.

Definition pool_zero : buffer_pool_t :=
  {| shards := []; shard_count := 0; shard_mask := 0; pool_id := 0; alignment := 0;
     thread_caches := None; destroyed := false; registrations_inflight := 0; active_users := 0;
     total_allocated := 0; total_buffers := 0; next_shard := 0 |}.

Definition cache_zero : thread_cache_t :=
  {| tc_pool := None; tc_pool_id := 0; tc_next := None; owner_thread := 0; shard_id := 0;
     counts := replicate (Z.to_nat BUFFER_SIZE_CLASSES) 0;
     tc_buffers := replicate (Z.to_nat BUFFER_SIZE_CLASSES)
                     (replicate (Z.to_nat THREAD_CACHE_SIZE) 0);
     cleaned_up := false; thread_exited := false |}.

(** Dereference and update through pool and cache pointers. *)
Definition pool_at (w : world) (p : Z) : buffer_pool_t := aget pool_zero (pools w) p.
Definition upd_pool (p : Z) (f : buffer_pool_t -> buffer_pool_t) (w : world) : world :=
  w <| pools := aset (pools w) p (f (pool_at w p)) |>.

Definition cache_at (w : world) (c : Z) : thread_cache_t :=
  default cache_zero (aget None (caches w) c).
Definition upd_cache (c : Z) (f : thread_cache_t -> thread_cache_t) (w : world) : world :=
  w <| caches := aset (caches w) c (Some (f (cache_at w c))) |>.
Definition free_cache (c : Z) (w : world) : world := w <| caches := aset (caches w) c None |>.

Definition tls_at (w : world) (tid : Z) : option Z := aget None (tls_cache w) tid.
Definition set_tls (tid : Z) (v : option Z) (w : world) : world :=
  w <| tls_cache := aset (tls_cache w) tid v |>.
Definition setspecific (tid : Z) (v : option Z) (w : world) : world :=
  if tls_key_valid w then w <| tls_key := aset (tls_key w) tid v |> else w.

Definition free_bufs (bufs : list Z) (w : world) : world := w <| freed := freed w ++ bufs |>.

Definition libc_call (w : world) : result unit * world :=
  match libc w with
  | [] => (Err ENOMEM, w)
  | r :: rest => (r, w <| libc := rest |>)
  end.

Definition posix_memalign (w : world) : result Z * world :=
  match heap w with
  | [] => (Err ENOMEM, w)
  | r :: rest => (r, w <| heap := rest |>)
  end.

Definition shard_at (pool : buffer_pool_t) (i : Z) : buffer_shard_t :=
  aget shard_zero (shards pool) i.
Definition set_shard (i : Z) (s : buffer_shard_t) (pool : buffer_pool_t) : buffer_pool_t :=
  pool <| shards := aset (shards pool) i s |>.

(** The two counters after [n] more (or fewer) buffers of a size. *)
Definition count_buffers (bucket_size n : Z) (pool : buffer_pool_t) : buffer_pool_t :=
  pool <| total_allocated := u64 (total_allocated pool + bucket_size * n) |>
       <| total_buffers := u64 (total_buffers pool + n) |>.

(** ** Refill and flush *)

Definition cache_refill (p c class_idx : Z) (w : world) : Z * world :=
  let cache := cache_at w c in
  let sid := shard_id cache in
  let '(transferred, shard, cache) :=
    refill_loop (shard_at (pool_at w p) sid) cache class_idx
      (Z.to_nat THREAD_CACHE_BATCH_SIZE) 0 in
  (transferred, upd_cache c (fun _ => cache) (upd_pool p (set_shard sid shard) w)).

Definition cache_flush (p c class_idx bucket_size : Z) (w : world) : Z * world :=
  let cache := cache_at w c in
  let sid := shard_id cache in
  let '(transferred, shard, cache, to_free) :=
    flush_loop (shard_at (pool_at w p) sid) cache class_idx bucket_size
      (Z.to_nat (tc_count cache class_idx)) 0 [] in
  let w := upd_cache c (fun _ => cache) (upd_pool p (set_shard sid shard) w) in
  let free_count := zlen to_free in
  let w := if 0 <? free_count
           then free_bufs to_free (upd_pool p (count_buffers bucket_size (- free_count)) w)
           else w in
  (if 0 <? transferred then transferred else - free_count, w).

(** ** Cleaning a cache *)

Inductive cache_cleanup_mode_t := CACHE_CLEANUP_FLUSH | CACHE_CLEANUP_FREE.

(** [while (cache->counts[class_idx] > 0) cache_flush(...)]; every flush empties
    the class or moves a batch of it, so its count bounds the iterations. *)
Fixpoint flush_class_loop (p c class_idx : Z) (n : nat) (w : world) : world :=
  match n with
  | O => w
  | S n =>
      if 0 <? tc_count (cache_at w c) class_idx
      then flush_class_loop p c class_idx n
             (snd (cache_flush p c class_idx (class_to_size class_idx) w))
      else w
  end.

Fixpoint flush_classes (p c : Z) (class_idx : Z) (n : nat) (w : world) : world :=
  match n with
  | O => w
  | S n =>
      flush_classes p c (class_idx + 1) n
        (flush_class_loop p c class_idx (Z.to_nat (tc_count (cache_at w c) class_idx)) w)
  end.

(** The first [n] buffers of a class. *)
Definition cache_row (cache : thread_cache_t) (class_idx : Z) : list Z :=
  take (Z.to_nat (tc_count cache class_idx)) (aget [] (tc_buffers cache) class_idx).

Fixpoint free_classes (pool : option Z) (c : Z) (class_idx : Z) (n : nat) (w : world) : world :=
  match n with
  | O => w
  | S n =>
      let cache := cache_at w c in
      let count := tc_count cache class_idx in
      let w :=
        if 0 <? count then
          let w := free_bufs (cache_row cache class_idx) w in
          let w := match pool with
                   | Some p => upd_pool p (count_buffers (class_to_size class_idx) (- count)) w
                   | None => w
                   end in
          upd_cache c (fun ca => ca <| counts := aset (counts ca) class_idx 0 |>) w
        else w in
      free_classes pool c (class_idx + 1) n w
  end.

Definition cleanup_cache_buffers_locked (pool : option Z) (c : Z) (mode : cache_cleanup_mode_t)
    (w : world) : world :=
  if cleaned_up (cache_at w c) then w
  else
    let n := Z.to_nat BUFFER_SIZE_CLASSES in
    let w :=
      match mode, pool with
      | CACHE_CLEANUP_FLUSH, Some p => flush_classes p c 0 n w
      | _, _ => free_classes pool c 0 n w
      end in
    upd_cache c (fun ca => ca <| cleaned_up := true |>) w.

(** ** Finding or creating the thread's cache *)

Definition pool_eqb (a b : option Z) : bool := bool_decide (a = b).

Definition tls_key_init (w : world) : world :=
  let '(r, w) := libc_call w in
  match r with Ok _ => w <| tls_key_valid := true |> | Err _ => w end.

Definition pthread_once_tls (w : world) : world :=
  if tls_key_once w then w else tls_key_init (w <| tls_key_once := true |>).

(** [atomic_fetch_add(&pool->next_shard, 1) & pool->shard_mask] *)
Definition next_shard_id (p : Z) (w : world) : Z * world :=
  let pool := pool_at w p in
  (Z.land (next_shard pool) (shard_mask pool),
   upd_pool p (fun pool => pool <| next_shard := i32 (next_shard pool + 1) |>) w).

Definition registrations_add (p n : Z) (w : world) : world :=
  upd_pool p (fun pool => pool <| registrations_inflight := registrations_inflight pool + n |>) w.
Definition active_users_add (p n : Z) (w : world) : world :=
  upd_pool p (fun pool => pool <| active_users := active_users pool + n |>) w.

(** The branch for a cache that belongs to another pool: free it if that pool
    orphaned it, else give its buffers back. *)
Definition leave_old_pool (c tid : Z) (w : world) : world :=
  match tc_pool (cache_at w c) with
  | None => setspecific tid None (set_tls tid None (free_cache c w))
  | Some old =>
      let w := active_users_add old 1 w in
      let w :=
        if destroyed (pool_at w old)
        then cleanup_cache_buffers_locked (Some old) c CACHE_CLEANUP_FREE w
        else cleanup_cache_buffers_locked (Some old) c CACHE_CLEANUP_FLUSH w in
      let w := active_users_add old (-1) w in
      setspecific tid None (set_tls tid None w)
  end.

(** The first access of a thread: allocate, assign a shard, push on the pool's
    list, and re-check that the pool is alive. *)
Definition register_cache (p tid : Z) (w : world) : option Z * world :=
  let w := registrations_add p 1 w in
  if destroyed (pool_at w p) then (None, set_tls tid None (registrations_add p (-1) w))
  else
    let w := pthread_once_tls w in
    let '(calloc_r, w) := libc_call w in
    match calloc_r with
    | Err _ => (None, registrations_add p (-1) w)
    | Ok _ =>
        let '(mutex_r, w) := libc_call w in
        match mutex_r with
        | Err _ => (None, registrations_add p (-1) w)
        | Ok _ =>
            let '(sid, w) := next_shard_id p w in
            let c := zlen (caches w) in
            let cache := {| tc_pool := Some p; tc_pool_id := pool_id (pool_at w p);
                            tc_next := thread_caches (pool_at w p); owner_thread := tid;
                            shard_id := sid; counts := counts cache_zero;
                            tc_buffers := tc_buffers cache_zero;
                            cleaned_up := false; thread_exited := false |} in
            let w := w <| caches := caches w ++ [Some cache] |> in
            let w := upd_pool p (fun pool => pool <| thread_caches := Some c |>) w in
            if destroyed (pool_at w p) then
              let w := upd_cache c (fun ca => ca <| cleaned_up := true |>) w in
              (None, registrations_add p (-1) (set_tls tid (Some c) (setspecific tid (Some c) w)))
            else
              (Some c, registrations_add p (-1) (set_tls tid (Some c) (setspecific tid (Some c) w)))
        end
    end.

Definition get_thread_cache (p tid : Z) (w : world) : option Z * world :=
  match tls_at w tid with
  | Some c =>
      let cache := cache_at w c in
      let pool := pool_at w p in
      if pool_eqb (tc_pool cache) (Some p) && (tc_pool_id cache =? pool_id pool)
         && negb (destroyed pool) then (Some c, w)
      else if destroyed pool then (None, set_tls tid None w)
      else if negb (pool_eqb (tc_pool cache) (Some p)) then (None, leave_old_pool c tid w)
      else register_cache p tid w
  | None =>
      if destroyed (pool_at w p) then (None, set_tls tid None w) else register_cache p tid w
  end.

(** The destructor of the thread-specific key, at thread exit. *)
Definition tls_destructor (tid : Z) (arg : option Z) (w : world) : world :=
  match arg with
  | None => w
  | Some c =>
      let w := set_tls tid None w in
      let w := upd_cache c (fun ca => ca <| thread_exited := true |>) w in
      let w :=
        match tc_pool (cache_at w c) with
        | Some p =>
            let w := active_users_add p 1 w in
            if destroyed (pool_at w p) then
              cleanup_cache_buffers_locked None c CACHE_CLEANUP_FREE (active_users_add p (-1) w)
            else
              active_users_add p (-1) (cleanup_cache_buffers_locked (Some p) c CACHE_CLEANUP_FLUSH w)
        | None => cleanup_cache_buffers_locked None c CACHE_CLEANUP_FREE w
        end in
      match tc_pool (cache_at w c) with
      | None => free_cache c w
      | Some _ => w
      end
  end.

Definition select_shard (p : Z) (cache : option Z) (w : world) : Z * world :=
  match cache with
  | Some c => (shard_id (cache_at w c), w)
  | None => next_shard_id p w
  end.

Definition pool_enter (p : Z) (w : world) : bool * world :=
  let w := active_users_add p 1 w in
  if destroyed (pool_at w p) then (false, active_users_add p (-1) w) else (true, w).

Definition pool_leave (p : Z) (w : world) : world := active_users_add p (-1) w.

(** ** Initialisation *)

(** All shards, or the ones initialised before the first failure. *)
Fixpoint init_shards (n : nat) (w : world) (done : list buffer_shard_t)
  : bool * list buffer_shard_t * world :=
  match n with
  | O => (true, done, w)
  | S n =>
      let '(mutex_r, w) := libc_call w in
      match mutex_r with
      | Err _ => (false, done, w)
      | Ok _ =>
          let '(calloc_r, w) := libc_call w in
          match calloc_r with
          | Err _ => (false, done, w)
          | Ok _ =>
              match shard_init true true with
              | Some s => init_shards n w (done ++ [s])
              | None => (false, done, w)
              end
          end
      end
  end.

Definition power_of_two_mask_clear (a : Z) : bool := Z.land a (u64 (a - 1)) =? 0.

(** Initialise the pool at address [p]; [cpus] is the answer of [sysconf]. *)
Definition buffer_pool_init (p align cpus : Z) (w : world) : result unit * world :=
  if (align =? 0) || negb (power_of_two_mask_clear align) || (align <? 8)
  then (Err EINVAL, w)
  else
    match calculate_shard_count cpus with
    | None => (Err ENONE, w)                            (* not reached *)
    | Some n =>
        let pool := {| shards := []; shard_count := n; shard_mask := n - 1;
                       pool_id := pool_generation_counter w; alignment := align;
                       thread_caches := None; destroyed := false; registrations_inflight := 0;
                       active_users := 0; total_allocated := 0; total_buffers := 0;
                       next_shard := 0 |} in
        let w := w <| pool_generation_counter := u64 (pool_generation_counter w + 1) |> in
        let w := upd_pool p (fun _ => pool) w in
        let '(calloc_r, w) := libc_call w in
        match calloc_r with
        | Err _ => (Err ENONE, w)
        | Ok _ =>
            let '(ok, ss, w) := init_shards (Z.to_nat n) w [] in
            if (ok : bool) then (Ok tt, upd_pool p (fun pool => pool <| shards := ss |>) w)
            else (Err ENONE, w)
        end
    end.

(** ** Allocation *)

(** [posix_memalign] up to [n] times, stopping at the first failure. *)
Fixpoint prefill_loop (n : nat) (extras : list Z) (w : world) : list Z * world :=
  match n with
  | O => (extras, w)
  | S n =>
      let '(r, w) := posix_memalign w in
      match r with
      | Ok a => prefill_loop n (extras ++ [a]) w
      | Err _ => (extras, w)
      end
  end.

(** Store extras while the class has room: the number stored and the cache. *)
Fixpoint store_loop (extras : list Z) (class_idx : Z) (cache : thread_cache_t) (stored : Z)
  : Z * thread_cache_t :=
  match extras with
  | [] => (stored, cache)
  | x :: extras =>
      if tc_count cache class_idx <? THREAD_CACHE_SIZE
      then store_loop extras class_idx (cache_push cache class_idx x) (stored + 1)
      else (stored, cache)
  end.

(** Fill the thread cache with extra buffers after a trip to the heap. *)
Definition prefill (p c class_idx bucket_size : Z) (w : world) : world :=
  let '(extras, w) := prefill_loop (Z.to_nat (THREAD_CACHE_BATCH_SIZE - 1)) [] w in
  if 0 <? zlen extras then
    let cache := cache_at w c in
    let '(stored, cache) :=
      if negb (cleaned_up cache) && negb (destroyed (pool_at w p))
      then store_loop extras class_idx cache 0
      else (0, cache) in
    let w := upd_cache c (fun _ => cache) w in
    let w := free_bufs (drop (Z.to_nat stored) extras) w in
    if 0 <? stored then upd_pool p (count_buffers bucket_size stored) w else w
  else w.

(** A new buffer from the heap. *)
Definition heap_alloc (p : Z) (cache : option Z) (class_idx bucket_size : Z) (w : world)
  : result Z * world :=
  let '(r, w) := posix_memalign w in
  match r with
  | Err e => (Err e, w)
  | Ok buf =>
      let w := upd_pool p (count_buffers bucket_size 1) w in
      let w := match cache with Some c => prefill p c class_idx bucket_size w | None => w end in
      (Ok buf, w)
  end.

(** The shard's bucket, then the heap; the pool is entered. *)
Definition alloc_from_shard (p : Z) (cache : option Z) (class_idx bucket_size : Z) (w : world)
  : result Z * world :=
  let '(sid, w) := select_shard p cache w in
  match shard_pop (shard_at (pool_at w p) sid) class_idx with
  | Some (buf, shard) => (Ok buf, pool_leave p (upd_pool p (set_shard sid shard) w))
  | None => heap_alloc p cache class_idx bucket_size (pool_leave p w)
  end.

Definition take_cached (c class_idx : Z) (w : world) : result Z * world :=
  let '(buf, cache) := cache_pop (cache_at w c) class_idx in
  (Ok buf, upd_cache c (fun _ => cache) w).

Definition buffer_pool_alloc (p size tid : Z) (w : world) : result Z * world :=
  if (size =? 0) || (BUFFER_POOL_MAX_SIZE <? size) then (Err EINVAL, w)
  else
    let class_idx := size_to_class size in
    let bucket_size := class_to_size class_idx in
    let '(cache, w) := get_thread_cache p tid w in
    match cache with
    | Some c =>
        if 0 <? tc_count (cache_at w c) class_idx then take_cached c class_idx w
        else
          let '(entered, w) := pool_enter p w in
          if negb entered then (Err ENXIO, w)
          else
            let '(refilled, w) := cache_refill p c class_idx w in
            if 0 <? refilled then take_cached c class_idx (pool_leave p w)
            else alloc_from_shard p cache class_idx bucket_size w
    | None =>
        let '(entered, w) := pool_enter p w in
        if negb entered then (Err ENXIO, w)
        else alloc_from_shard p cache class_idx bucket_size w
    end.

(** ** Free *)

(** Store a buffer in the cache under its mutex, unless it was cleaned up. *)
Definition store_cached (p c class_idx buf : Z) (w : world) : world :=
  if cleaned_up (cache_at w c) || destroyed (pool_at w p) then free_bufs [buf] w
  else upd_cache c (fun ca => cache_push ca class_idx buf) w.

(** The shard path; the pool is entered. *)
Definition free_to_shard (p : Z) (cache : option Z) (class_idx bucket_size buf : Z) (w : world)
  : world :=
  let '(sid, w) := select_shard p cache w in
  let shard := shard_at (pool_at w p) sid in
  let free_and_return (_ : unit) :=
    free_bufs [buf] (pool_leave p (upd_pool p (count_buffers bucket_size (-1)) w)) in
  if at_high_water shard then free_and_return tt
  else
    match shard_push shard class_idx buf bucket_size with
    | None => free_and_return tt
    | Some shard => pool_leave p (upd_pool p (set_shard sid shard) w)
    end.

(** [size = 0] is an assertion failure in a debug build; with [NDEBUG] the
    buffer is freed, which is what is modelled. *)
Definition buffer_pool_free (p buf size tid : Z) (w : world) : world :=
  if buf =? 0 then w
  else if size =? 0 then free_bufs [buf] w
  else if destroyed (pool_at w p) then free_bufs [buf] w
  else
    let class_idx := size_to_class size in
    let bucket_size := class_to_size class_idx in
    let '(cache, w) := get_thread_cache p tid w in
    let room w := match cache with
                  | Some c => tc_count (cache_at w c) class_idx <? THREAD_CACHE_SIZE
                  | None => false
                  end in
    match cache with
    | Some c =>
        if room w then store_cached p c class_idx buf w
        else
          let '(entered, w) := pool_enter p w in
          if negb entered then free_bufs [buf] w
          else
            let w := snd (cache_flush p c class_idx bucket_size w) in
            if room w then store_cached p c class_idx buf (pool_leave p w)
            else free_to_shard p cache class_idx bucket_size buf w
    | None =>
        let '(entered, w) := pool_enter p w in
        if negb entered then free_bufs [buf] w
        else free_to_shard p cache class_idx bucket_size buf w
    end.

Definition buffer_pool_free_tracked (p : Z) (map : buf_size_map_t) (buf tid : Z) (w : world)
  : buf_size_map_t * world :=
  if buf =? 0 then (map, w)
  else
    let '(class_idx, map) := buf_size_map_remove map buf in
    if class_idx <? 0 then (map, free_bufs [buf] w)
    else (map, buffer_pool_free p buf (class_to_size class_idx) tid w).

(** ** Destruction *)

(** [None] is a wait that never ends: nobody else runs. *)
Definition cleanup_phase_1_mark_destroyed (p : Z) (w : world) : option world :=
  let w := upd_pool p (fun pool => pool <| destroyed := true |>) w in
  if (0 <? registrations_inflight (pool_at w p)) || (0 <? active_users (pool_at w p))
  then None else Some w.

(** One cache of the detached list; [self] is the destroying thread. *)
Definition process_cache (c self : Z) (w : world) : world :=
  let w := cleanup_cache_buffers_locked None c CACHE_CLEANUP_FREE w in
  let w := upd_cache c (fun ca => ca <| tc_pool := None |>) w in
  let exited := thread_exited (cache_at w c) in
  if owner_thread (cache_at w c) =? self then
    let w := if pool_eqb (tls_at w self) (Some c) then set_tls self None w else w in
    free_cache c (setspecific self None w)
  else if exited then free_cache c w
  else w.

Fixpoint process_list (c : option Z) (self : Z) (fuel : nat) (w : world) : option world :=
  match c, fuel with
  | None, _ => Some w
  | Some _, O => None
  | Some c, S fuel =>
      let nxt := tc_next (cache_at w c) in
      process_list nxt self fuel (process_cache c self w)
  end.

(** [for (;;) { cache = exchange(&pool->thread_caches, NULL); ... }]; with no
    other thread running the second exchange finds the list empty. *)
Definition cleanup_phase_2_process_caches (p self : Z) (w : world) : option world :=
  let head := thread_caches (pool_at w p) in
  let w := upd_pool p (fun pool => pool <| thread_caches := None |>) w in
  process_list head self (length (caches w)) w.

Fixpoint destroy_shards (ss : list buffer_shard_t) : option (list Z) :=
  match ss with
  | [] => Some []
  | s :: ss =>
      match shard_destroy s, destroy_shards ss with
      | Some (bufs, _), Some rest => Some (bufs ++ rest)
      | _, _ => None
      end
  end.

Definition cleanup_phase_3_destroy_shards (p : Z) (w : world) : option world :=
  match destroy_shards (shards (pool_at w p)) with
  | None => None
  | Some bufs =>
      Some (upd_pool p (fun pool =>
              pool <| shards := [] |> <| shard_count := 0 |> <| shard_mask := 0 |>
                   <| total_allocated := 0 |> <| total_buffers := 0 |>) (free_bufs bufs w))
  end.

Definition buffer_pool_destroy (p self : Z) (w : world) : option world :=
  match cleanup_phase_1_mark_destroyed p w with
  | None => None
  | Some w =>
      match cleanup_phase_2_process_caches p self w with
      | None => None
      | Some w => cleanup_phase_3_destroy_shards p w
      end
  end.
