(* ===== verification/BufShardSpec.v ===== *)
(** * A shard is sixteen stacks of buffers

    The slot array of a shard, with its free list and one linked list per size
    class, implements one stack of buffers per class, of 256 buffers in all
    ([shard_abs]); popping, pushing and destroying a shard are the operations
    of the stacks. The transfers between a thread cache and its shard neither
    lose nor duplicate a buffer. *)
From Stdlib Require Import ZArith Lia List.
From stdpp Require Import base tactics list.
From S2P Require Import Prelude BufSize BufMap BufPool.

#[local] Open Scope Z_scope.

(** ** Linked lists of slots *)

(** The slots linked from [head] are [l]. *)
Fixpoint chain (slots : list buffer_slot_t) (head : option Z) (l : list Z) : Prop :=
  match l with
  | [] => head = None
  | i :: l => head = Some i /\ chain slots (next (aget slot_zero slots i)) l
  end.

Lemma chain_frame slots i x l : forall head,
  i ∉ l -> chain slots head l -> chain (aset slots i x) head l.
Proof.
  induction l as [|j l IH]; intros head Hi Hc; [done|]. destruct Hc as [-> Hc].
  apply not_elem_of_cons in Hi as [Hij Hi]. split; [done|].
  rewrite aget_aset_ne by congruence. by apply IH.
Qed.

Definition slot_buf (slots : list buffer_slot_t) (i : Z) : Z := buffer (aget slot_zero slots i).

Lemma slot_buf_frame slots i x l : i ∉ l -> map (slot_buf (aset slots i x)) l = map (slot_buf slots) l.
Proof.
  intros Hi. apply map_ext_in. intros j Hj. unfold slot_buf. rewrite aget_aset_ne; [done|].
  intros ->. by apply Hi, list_elem_of_In.
Qed.

Definition SLOTS : Z := BUFFER_POOL_DEFAULT_MAX_FREE_PER_SHARD.
Ltac slots_lia := unfold SLOTS, BUFFER_POOL_DEFAULT_MAX_FREE_PER_SHARD in *; lia.

(** The stacks, as functions of the class. *)
Definition stacks : Type := Z -> list Z.
Definition st_set (st : stacks) (k : Z) (l : list Z) : stacks := fun j => if j =? k then l else st j.
Definition st_all (st : stacks) : list Z := concat (map st (seqZ 0 BUFFER_SIZE_CLASSES)).

(** The free list is [fl] and the list of class [k] is [bs k]; each slot is on
    exactly one of them. *)
Record shard_rep (sh : buffer_shard_t) (fl : list Z) (bs : stacks) : Prop := {
  sr_buckets : zlen (size_buckets sh) = BUFFER_SIZE_CLASSES;
  sr_pool : zlen (slot_pool sh) = SLOTS /\ slot_pool_size sh = SLOTS /\ max_free_count sh = SLOTS;
  sr_free : chain (slot_pool sh) (free_slots sh) fl;
  sr_chain : forall k, 0 <= k < BUFFER_SIZE_CLASSES -> chain (slot_pool sh) (bucket sh k) (bs k);
  sr_perm : fl ++ st_all bs ≡ₚ seqZ 0 SLOTS;
  sr_count : free_count sh = zlen (st_all bs)
}.

(** The shard holds the buffers [st k] for class [k], the last freed first. *)
Definition shard_abs (sh : buffer_shard_t) (st : stacks) : Prop :=
  exists fl bs, shard_rep sh fl bs /\
    forall k, 0 <= k < BUFFER_SIZE_CLASSES -> st k = map (slot_buf (slot_pool sh)) (bs k).

(** Replacing the list of one class. *)
Lemma concat_map_ext {A B} (f g : A -> list B) l : (forall a, a ∈ l -> f a = g a) ->
  concat (map f l) = concat (map g l).
Proof.
  intros H. f_equal. apply map_ext_in. intros a Ha. by apply H, list_elem_of_In.
Qed.

Lemma st_all_ext st st' : (forall k, 0 <= k < BUFFER_SIZE_CLASSES -> st k = st' k) -> st_all st = st_all st'.
Proof. intros H. apply concat_map_ext. intros a Ha. apply elem_of_seqZ in Ha. apply H. lia. Qed.

Lemma st_all_set st k l : 0 <= k < BUFFER_SIZE_CLASSES ->
  exists a b, st_all st = a ++ st k ++ b /\ st_all (st_set st k l) = a ++ l ++ b.
Proof.
  intros Hk. unfold st_all. change BUFFER_SIZE_CLASSES with 16 in *.
  set (a := seqZ 0 k). set (b := seqZ (k + 1) (16 - (k + 1))).
  assert (seqZ 0 16 = a ++ k :: b) as ->.
  { replace 16 with (k + (1 + (16 - (k + 1)))) at 1 by lia.
    rewrite seqZ_app by lia. unfold a, b. f_equal. rewrite seqZ_app by lia. cbn.
    replace (0 + k) with k by lia. done. }
  exists (concat (map st a)), (concat (map st b)).
  rewrite !map_app, !concat_app. cbn. split; [done|].
  unfold st_set at 2. rewrite Z.eqb_refl. f_equal; [|f_equal]; apply concat_map_ext;
    intros j Hj; apply elem_of_seqZ in Hj; unfold st_set; destruct (Z.eqb_spec j k); (done || lia).
Qed.

Lemma st_all_length st k l : 0 <= k < BUFFER_SIZE_CLASSES ->
  zlen (st_all (st_set st k l)) = zlen (st_all st) - zlen (st k) + zlen l.
Proof.
  intros Hk. destruct (st_all_set st k l Hk) as (a & b & -> & ->).
  unfold zlen. rewrite !length_app. lia.
Qed.

Lemma st_all_map (f : Z -> Z) st : map f (st_all st) = st_all (fun k => map f (st k)).
Proof. unfold st_all. rewrite concat_map, map_map. done. Qed.

Lemma elem_st_all st k x : 0 <= k < BUFFER_SIZE_CLASSES -> x ∈ st k -> x ∈ st_all st.
Proof.
  intros Hk Hx. destruct (st_all_set st k [] Hk) as (a & b & -> & _). rewrite !elem_of_app. auto.
Qed.

Lemma abs_length sh fl bs st :
  (forall k, 0 <= k < BUFFER_SIZE_CLASSES -> st k = map (slot_buf (slot_pool sh)) (bs k)) ->
  shard_rep sh fl bs -> free_count sh = zlen (st_all st).
Proof.
  intros H Hr. rewrite (sr_count _ _ _ Hr), (st_all_ext _ _ H), <- st_all_map.
  unfold zlen. by rewrite length_map.
Qed.

Lemma rep_nodup sh fl bs : shard_rep sh fl bs ->
  NoDup (fl ++ st_all bs) /\ forall i, i ∈ fl ++ st_all bs -> 0 <= i < SLOTS.
Proof.
  intros Hr. pose proof (sr_perm _ _ _ Hr) as Hp. split.
  - rewrite Hp. apply NoDup_seqZ.
  - intros i. rewrite Hp, elem_of_seqZ. unfold SLOTS, BUFFER_POOL_DEFAULT_MAX_FREE_PER_SHARD. lia.
Qed.

(** ** The operations *)

Section Ops.
Context (sh : buffer_shard_t) (fl : list Z) (bs : stacks) (Hr : shard_rep sh fl bs).
Context (k : Z) (Hk : 0 <= k < BUFFER_SIZE_CLASSES).

Lemma pop_rep i r : bs k = i :: r ->
  exists sh', shard_pop sh k = Some (slot_buf (slot_pool sh) i, sh') /\
    shard_rep sh' (i :: fl) (st_set bs k r) /\
    forall j, 0 <= j < BUFFER_SIZE_CLASSES ->
      map (slot_buf (slot_pool sh')) (st_set bs k r j) = map (slot_buf (slot_pool sh)) (st_set bs k r j).
Proof using Hr Hk.
  intros Ek. destruct (rep_nodup _ _ _ Hr) as [Hnd Hin].
  pose proof (sr_chain _ _ _ Hr k Hk) as Hc. rewrite Ek in Hc. destruct Hc as [Hb Hc].
  destruct (st_all_set bs k r Hk) as (a & b & Ea & Eb). rewrite Ek in Ea.
  assert (Hp2 : fl ++ st_all bs ≡ₚ (i :: fl) ++ st_all (st_set bs k r))
    by (rewrite Ea, Eb; solve_Permutation).
  rewrite Hp2 in Hnd. cbn in Hnd. apply NoDup_cons in Hnd as [Hni _].
  assert (i ∉ fl) as Hnf by (intros H; apply Hni, elem_of_app; by left).
  assert (forall j, 0 <= j < BUFFER_SIZE_CLASSES -> i ∉ st_set bs k r j) as Hnb.
  { intros j Hj H. apply Hni, elem_of_app. right. by apply (elem_st_all _ j). }
  assert (0 <= i < SLOTS) as Hi.
  { apply Hin. rewrite Ea, !elem_of_app, elem_of_cons. auto. }
  destruct (sr_pool _ _ _ Hr) as (Hlen & Hs1 & Hs2).
  unfold shard_pop. rewrite Hb. eexists. split; [reflexivity|]. cbn. split.
  - split; cbn.
    + rewrite zlen_aset. apply Hr.
    + by rewrite zlen_aset.
    + split; [done|]. rewrite aget_aset_eq by lia. cbn. apply chain_frame; [done|apply Hr].
    + intros j Hj. unfold bucket. cbn. unfold st_set at 1. specialize (Hnb j Hj). unfold st_set in Hnb.
      destruct (decide (j = k)) as [Hjk|Hne]; [subst j; rewrite ?Z.eqb_refl in *|rewrite ?(proj2 (Z.eqb_neq j k) Hne) in *].
      * rewrite aget_aset_eq by (rewrite (sr_buckets _ _ _ Hr); lia). by apply chain_frame.
      * rewrite aget_aset_ne by congruence. apply chain_frame; [done|]. by apply (sr_chain _ _ _ Hr).
    + rewrite app_comm_cons, <- Hp2. apply Hr.
    + rewrite st_all_length by done. rewrite (sr_count _ _ _ Hr), Ek. unfold zlen. cbn [length]. lia.
  - intros j Hj. apply slot_buf_frame. by apply Hnb.
Qed.

Lemma push_rep i fl' buf size : fl = i :: fl' ->
  exists sh', shard_push sh k buf size = Some sh' /\
    shard_rep sh' fl' (st_set bs k (i :: bs k)) /\
    forall j, 0 <= j < BUFFER_SIZE_CLASSES ->
      map (slot_buf (slot_pool sh')) (st_set bs k (i :: bs k) j) =
      if j =? k then buf :: map (slot_buf (slot_pool sh)) (bs k) else map (slot_buf (slot_pool sh)) (bs j).
Proof using Hr Hk.
  intros Ef. destruct (rep_nodup _ _ _ Hr) as [Hnd Hin].
  pose proof (sr_free _ _ _ Hr) as Hc. rewrite Ef in Hc. destruct Hc as [Hb Hc].
  rewrite Ef in Hnd. cbn in Hnd. apply NoDup_cons in Hnd as [Hni _].
  assert (i ∉ fl') as Hnf by (intros H; apply Hni, elem_of_app; by left).
  assert (forall j, 0 <= j < BUFFER_SIZE_CLASSES -> i ∉ bs j) as Hnb.
  { intros j Hj H. apply Hni, elem_of_app. right. by apply (elem_st_all _ j). }
  assert (0 <= i < SLOTS) as Hi by (apply Hin; rewrite Ef; cbn; apply elem_of_cons; by left).
  destruct (sr_pool _ _ _ Hr) as (Hlen & Hs1 & Hs2).
  destruct (st_all_set bs k (i :: bs k) Hk) as (a & b & Ea & Eb).
  unfold shard_push. rewrite Hb. eexists. split; [reflexivity|]. cbn. split.
  - split; cbn.
    + rewrite zlen_aset. apply Hr.
    + by rewrite zlen_aset.
    + by apply chain_frame.
    + intros j Hj. unfold bucket. cbn. unfold st_set. destruct (decide (j = k)) as [Hjk|Hne]; [subst j; rewrite ?Z.eqb_refl in *|rewrite ?(proj2 (Z.eqb_neq j k) Hne) in *].
      * rewrite aget_aset_eq by (rewrite (sr_buckets _ _ _ Hr); lia). split; [done|].
        rewrite aget_aset_eq by lia. cbn. apply chain_frame; [by apply Hnb|]. by apply (sr_chain _ _ _ Hr).
      * rewrite aget_aset_ne by congruence. apply chain_frame; [by apply Hnb|].
        by apply (sr_chain _ _ _ Hr).
    + rewrite <- (sr_perm _ _ _ Hr), Ef, Ea, Eb. solve_Permutation.
    + rewrite st_all_length by done. rewrite (sr_count _ _ _ Hr). unfold zlen. cbn [length]. lia.
  - intros j Hj. unfold st_set. destruct (decide (j = k)) as [Hjk|Hne]; [subst j; rewrite ?Z.eqb_refl in *|rewrite ?(proj2 (Z.eqb_neq j k) Hne) in *].
    + cbn. unfold slot_buf at 1. rewrite aget_aset_eq by lia. cbn. f_equal. by apply slot_buf_frame, Hnb.
    + by apply slot_buf_frame, Hnb.
Qed.
End Ops.

(** ** The stacks *)

Lemma abs_rep sh st : shard_abs sh st -> zlen (st_all st) <= SLOTS /\ free_count sh = zlen (st_all st).
Proof.
  intros (fl & bs & Hr & Hst). rewrite <- (abs_length _ _ _ _ Hst Hr). split; [|done].
  rewrite (sr_count _ _ _ Hr). pose proof (Permutation_length (sr_perm _ _ _ Hr)) as Hl.
  rewrite length_app, length_seqZ in Hl. unfold zlen. slots_lia.
Qed.

Lemma abs_high_water sh st : shard_abs sh st -> at_high_water sh = (SLOTS <=? zlen (st_all st)).
Proof.
  intros Ha. destruct (abs_rep _ _ Ha) as [_ Hf]. destruct Ha as (fl & bs & Hr & _).
  unfold at_high_water. destruct (sr_pool _ _ _ Hr) as (_ & _ & ->). by rewrite Hf.
Qed.

Lemma abs_pop sh st k : shard_abs sh st -> 0 <= k < BUFFER_SIZE_CLASSES ->
  match st k with
  | [] => shard_pop sh k = None
  | b :: r => exists sh', shard_pop sh k = Some (b, sh') /\ shard_abs sh' (st_set st k r)
  end.
Proof.
  intros (fl & bs & Hr & Hst) Hk. rewrite (Hst k Hk). destruct (bs k) as [|i r] eqn:Ek; cbn.
  - pose proof (sr_chain _ _ _ Hr k Hk) as Hc. rewrite Ek in Hc. unfold shard_pop. by rewrite Hc.
  - destruct (pop_rep sh fl bs Hr k Hk i r Ek) as (sh' & E & Hr' & Hm).
    exists sh'. split; [done|]. exists (i :: fl), (st_set bs k r). split; [done|].
    intros j Hj. rewrite Hm by done. unfold st_set. destruct (j =? k); [done|]. by apply Hst.
Qed.

Lemma abs_push sh st k buf size : shard_abs sh st -> 0 <= k < BUFFER_SIZE_CLASSES ->
  if zlen (st_all st) <? SLOTS
  then exists sh', shard_push sh k buf size = Some sh' /\ shard_abs sh' (st_set st k (buf :: st k))
  else shard_push sh k buf size = None.
Proof.
  intros (fl & bs & Hr & Hst) Hk. rewrite <- (abs_length _ _ _ _ Hst Hr).
  rewrite (sr_count _ _ _ Hr). pose proof (Permutation_length (sr_perm _ _ _ Hr)) as Hl.
  rewrite length_app, length_seqZ in Hl. unfold zlen. destruct fl as [|i fl]; cbn in Hl.
  - replace (Z.of_nat (length (st_all bs)) <? SLOTS) with false by (symmetry; apply Z.ltb_ge; slots_lia).
    pose proof (sr_free _ _ _ Hr) as Hf. cbn in Hf. unfold shard_push. by rewrite Hf.
  - replace (Z.of_nat (length (st_all bs)) <? SLOTS) with true by (symmetry; apply Z.ltb_lt; slots_lia).
    destruct (push_rep sh (i :: fl) bs Hr k Hk i fl buf size eq_refl) as (sh' & E & Hr' & Hm).
    exists sh'. split; [done|]. exists fl, (st_set bs k (i :: bs k)). split; [done|].
    intros j Hj. rewrite Hm by done. unfold st_set. destruct (Z.eqb_spec j k) as [->|].
    + f_equal. by apply Hst.
    + by apply Hst.
Qed.

Lemma abs_ext sh st st' : (forall k, 0 <= k < BUFFER_SIZE_CLASSES -> st k = st' k) ->
  shard_abs sh st -> shard_abs sh st'.
Proof. intros He (fl & bs & Hr & Hst). exists fl, bs. split; [done|]. intros k Hk. rewrite <- He; auto. Qed.

Lemma linked_chain n m : 0 <= m -> chain (linked_slots n) (if m <? n then Some m else None) (seqZ m (n - m)).
Proof.
  intros Hm. destruct (Z.ltb_spec m n) as [Hlt|].
  2:{ unfold seqZ. by replace (Z.to_nat (n - m)) with O by lia. }
  remember (Z.to_nat (n - m)) as d eqn:Hd. revert m Hm Hlt Hd.
  induction d as [|d IH]; intros m Hm Hlt Hd; [lia|].
  rewrite (seqZ_cons m) by lia. cbn. split; [done|].
  assert (aget slot_zero (linked_slots n) m =
    {| buffer := 0; actual_size := 0; next := if m <? n - 1 then Some (m + 1) else None |}) as ->.
  { unfold aget, linked_slots. destruct (Z.ltb_spec m 0); [lia|]. apply nth_lookup_Some.
    rewrite list_lookup_fmap, lookup_seqZ_lt by lia. cbn. rewrite Z2Nat.id by lia. done. }
  cbn. destruct (Z.ltb_spec m (n - 1)).
  - replace (Z.pred (n - m)) with (n - (m + 1)) by lia. apply IH; lia.
  - replace (Z.pred (n - m)) with 0 by lia. done.
Qed.

Lemma abs_init : exists sh, shard_init true true = Some sh /\ shard_abs sh (fun _ => []).
Proof.
  eexists. split; [reflexivity|]. exists (seqZ 0 SLOTS), (fun _ => []). split; [|done]. split; cbn.
  - done.
  - unfold zlen, linked_slots. rewrite length_fmap, length_seqZ. done.
  - apply (linked_chain SLOTS 0). done.
  - intros k Hk. unfold bucket. cbn. apply aget_replicate.
  - by rewrite app_nil_r.
  - done.
Qed.

Lemma chain_buffers_spec slots l : forall head fuel, (length l <= fuel)%nat -> chain slots head l ->
  chain_buffers slots head fuel = Some (filter (fun b => b <> 0) (map (slot_buf slots) l)).
Proof.
  induction l as [|i l IH]; intros head fuel Hf Hc; cbn in Hc.
  - subst. by destruct fuel.
  - destruct Hc as [-> Hc]. destruct fuel as [|fuel]; cbn in Hf; [lia|]. cbn [chain_buffers map].
    rewrite (IH _ fuel) by (done || lia). rewrite filter_cons. unfold slot_buf at 3.
    destruct (Z.eqb_spec (buffer (aget slot_zero slots i)) 0); destruct (decide _); done.
Qed.

Lemma destroy_buckets_spec slots fuel ls : forall heads,
  Forall2 (fun h l => chain slots h l /\ (length l <= fuel)%nat) heads ls ->
  destroy_buckets slots heads fuel =
  Some (filter (fun b => b <> 0) (map (slot_buf slots) (concat ls))).
Proof.
  induction ls as [|l ls IH]; intros heads H; inversion H as [|h ? hs ? [Hc Hl] Hrest]; subst; [done|].
  cbn. rewrite (chain_buffers_spec slots l) by done. rewrite IH by done.
  by rewrite map_app, filter_app.
Qed.

Lemma abs_destroy sh st : shard_abs sh st ->
  exists sh', shard_destroy sh = Some (filter (fun b => b <> 0) (st_all st), sh').
Proof.
  intros (fl & bs & Hr & Hst). unfold shard_destroy.
  destruct (sr_pool _ _ _ Hr) as (_ & -> & _).
  rewrite (destroy_buckets_spec _ _ (map bs (seqZ 0 BUFFER_SIZE_CLASSES))).
  - eexists. do 3 f_equal. rewrite (st_all_ext _ _ Hst), <- st_all_map. done.
  - apply Forall2_same_length_lookup. split.
    { rewrite length_map, length_seqZ. pose proof (sr_buckets _ _ _ Hr). unfold zlen in *. lia. }
    intros i h l Hh Hl. rewrite list_lookup_fmap in Hl.
    destruct (seqZ 0 BUFFER_SIZE_CLASSES !! i) as [k|] eqn:Ek; [|done]. cbn in Hl. injection Hl as <-.
    apply lookup_seqZ in Ek as [-> Hi]. replace (0 + Z.of_nat i) with (Z.of_nat i) by lia.
    assert (0 <= Z.of_nat i < BUFFER_SIZE_CLASSES) as Hk by lia. split.
    + pose proof (sr_chain _ _ _ Hr _ Hk) as Hc. unfold bucket, aget in Hc.
      destruct (Z.ltb_spec (Z.of_nat i) 0); [lia|]. rewrite Nat2Z.id in Hc.
      by rewrite (nth_lookup_Some _ _ _ _ Hh) in Hc.
    + destruct (st_all_set bs _ [] Hk) as (a & b & Ea & _).
      pose proof (Permutation_length (sr_perm _ _ _ Hr)) as Hp.
      rewrite length_app, length_seqZ, Ea, !length_app in Hp. slots_lia.
Qed.

(** ** Thread caches *)

(** The arrays have their declared sizes and the counts are in bounds. *)
Record cache_ok (c : thread_cache_t) : Prop := {
  co_counts : zlen (counts c) = BUFFER_SIZE_CLASSES;
  co_rows : zlen (tc_buffers c) = BUFFER_SIZE_CLASSES;
  co_count : forall k, 0 <= k < BUFFER_SIZE_CLASSES -> 0 <= tc_count c k <= THREAD_CACHE_SIZE;
  co_row : forall k, 0 <= k < BUFFER_SIZE_CLASSES ->
    zlen (aget [] (tc_buffers c) k) = THREAD_CACHE_SIZE
}.

(** The cache with other arrays: what every transfer preserves. *)
Definition same_cache (c c' : thread_cache_t) : Prop :=
  c' = c <| tc_buffers := tc_buffers c' |> <| counts := counts c' |>.

Lemma same_cache_refl c : same_cache c c.
Proof. by destruct c. Qed.

Lemma same_cache_trans c1 c2 c3 : same_cache c1 c2 -> same_cache c2 c3 -> same_cache c1 c3.
Proof. intros H1 H2. unfold same_cache in *. rewrite H2, H1. by destruct c1. Qed.

Lemma cache_push_ok c k b : cache_ok c -> 0 <= k < BUFFER_SIZE_CLASSES ->
  tc_count c k < THREAD_CACHE_SIZE ->
  cache_ok (cache_push c k b) /\ tc_count (cache_push c k b) k = tc_count c k + 1 /\
  (forall j, cache_row (cache_push c k b) j = st_set (cache_row c) k (cache_row c k ++ [b]) j) /\
  same_cache c (cache_push c k b).
Proof.
  intros Hc Hk Hn. pose proof (co_count _ Hc k Hk). pose proof (co_row _ Hc k Hk) as Hl.
  assert (tc_count (cache_push c k b) k = tc_count c k + 1) as Hcnt.
  { unfold tc_count, cache_push. cbn. apply aget_aset_eq. rewrite (co_counts _ Hc). done. }
  split_and!; [|done| |by destruct c].
  - split; cbn.
    + rewrite zlen_aset. apply Hc.
    + rewrite zlen_aset. apply Hc.
    + intros j Hj. destruct (decide (j = k)) as [->|Hne]; [rewrite Hcnt; lia|].
      unfold tc_count. cbn. rewrite aget_aset_ne by congruence. by apply (co_count _ Hc).
    + intros j Hj. destruct (decide (j = k)) as [->|Hne].
      * rewrite aget_aset_eq by (rewrite (co_rows _ Hc); lia). by rewrite zlen_aset.
      * rewrite aget_aset_ne by congruence. by apply (co_row _ Hc).
  - intros j. unfold st_set. destruct (Z.eqb_spec j k) as [->|Hne].
    + unfold cache_row at 1. rewrite Hcnt. cbn.
      rewrite aget_aset_eq by (rewrite (co_rows _ Hc); lia).
      unfold aset. destruct (Z.ltb_spec (tc_count c k) 0); [lia|].
      replace (Z.to_nat (tc_count c k + 1)) with (S (Z.to_nat (tc_count c k))) by lia.
      rewrite (take_S_r _ _ b) by (apply list_lookup_insert_eq; unfold zlen in *; lia).
      f_equal. apply take_insert_ge. lia.
    + unfold cache_row, tc_count. cbn. by rewrite !aget_aset_ne by congruence.
Qed.

Lemma cache_pop_ok c k : cache_ok c -> 0 <= k < BUFFER_SIZE_CLASSES -> 0 < tc_count c k ->
  exists r b c', cache_row c k = r ++ [b] /\ cache_pop c k = (b, c') /\ cache_ok c' /\
    tc_count c' k = tc_count c k - 1 /\ (forall j, cache_row c' j = st_set (cache_row c) k r j) /\
    same_cache c c'.
Proof.
  intros Hc Hk Hn. pose proof (co_count _ Hc k Hk) as Hb. pose proof (co_row _ Hc k Hk) as Hl.
  set (row := aget [] (tc_buffers c) k) in *. set (n := Z.to_nat (tc_count c k - 1)).
  exists (take n row), (aget 0 row (tc_count c k - 1)). eexists.
  assert (row !! n = Some (aget 0 row (tc_count c k - 1))) as Hx.
  { unfold aget. destruct (Z.ltb_spec (tc_count c k - 1) 0); [lia|]. fold n.
    destruct (lookup_lt_is_Some_2 row n) as [x Hx]; [unfold zlen, n in *; lia|].
    rewrite Hx. f_equal. symmetry. by apply nth_lookup_Some. }
  split_and!; [|reflexivity| | | |by destruct c].
  - unfold cache_row. fold row. replace (Z.to_nat (tc_count c k)) with (S n) by lia.
    by apply take_S_r.
  - split; cbn.
    + rewrite zlen_aset. apply Hc.
    + apply Hc.
    + intros j Hj. unfold tc_count. cbn. destruct (decide (j = k)) as [->|Hne].
      * rewrite aget_aset_eq by (rewrite (co_counts _ Hc); done). fold (tc_count c k). lia.
      * rewrite aget_aset_ne by congruence. by apply (co_count _ Hc).
    + intros j Hj. by apply (co_row _ Hc).
  - unfold tc_count. cbn. rewrite aget_aset_eq by (rewrite (co_counts _ Hc); done). done.
  - intros j. unfold st_set. destruct (Z.eqb_spec j k) as [->|Hne]; unfold cache_row, tc_count; cbn.
    + rewrite aget_aset_eq by (rewrite (co_counts _ Hc); done). done.
    + by rewrite aget_aset_ne by congruence.
Qed.

Lemma cache_row_length c k : cache_ok c -> 0 <= k < BUFFER_SIZE_CLASSES ->
  zlen (cache_row c k) = tc_count c k.
Proof.
  intros Hc Hk. pose proof (co_count _ Hc k Hk). pose proof (co_row _ Hc k Hk).
  unfold cache_row, zlen in *. rewrite length_take. lia.
Qed.

Lemma st_set_set st k a b j : st_set (st_set st k a) k b j = st_set st k b j.
Proof. unfold st_set. by destruct (j =? k). Qed.

Lemma st_set_eq st k a : st_set st k a k = a.
Proof. unfold st_set. by rewrite Z.eqb_refl. Qed.

Lemma st_set_id st k j : st_set st k (st k) j = st j.
Proof. unfold st_set. by destruct (Z.eqb_spec j k) as [->|]. Qed.

Lemma st_set_cong st st' k a j : st j = st' j -> st_set st k a j = st_set st' k a j.
Proof. unfold st_set. by destruct (j =? k). Qed.

(** ** Transfers *)

(** What a transfer of class [k] leaves: the class's list in the shard is
    [stk] and in the cache [row]; everything else is as before. *)
Definition moved_to (sh : buffer_shard_t) (st : stacks) (c : thread_cache_t) (k : Z) (stk row : list Z)
    (sh' : buffer_shard_t) (c' : thread_cache_t) : Prop :=
  shard_abs sh' (st_set st k stk) /\ cache_ok c' /\ same_cache c c' /\
  forall j, cache_row c' j = st_set (cache_row c) k row j.

Lemma moved_to_none sh st c k : shard_abs sh st -> cache_ok c ->
  moved_to sh st c k (st k) (cache_row c k) sh c.
Proof.
  intros Ha Hc. split_and!; [|done|apply same_cache_refl|].
  - eapply abs_ext; [|done]. intros j _. by rewrite st_set_id.
  - intros j. by rewrite st_set_id.
Qed.

Lemma moved_to_trans sh st c k stk row sh1 c1 stk' row' sh2 c2 :
  moved_to sh st c k stk row sh1 c1 ->
  moved_to sh1 (st_set st k stk) c1 k stk' row' sh2 c2 ->
  moved_to sh st c k stk' row' sh2 c2.
Proof.
  intros (_ & _ & Hs & Hrow) (Ha' & Hc' & Hs' & Hrow'). split_and!; [|done| |].
  - eapply abs_ext; [|exact Ha']. intros j _. apply st_set_set.
  - by eapply same_cache_trans.
  - intros j. rewrite Hrow'. rewrite <- (st_set_set (cache_row c) k row row' j).
    apply st_set_cong, Hrow.
Qed.

(** A refill moves the top of the stack to the cache: as much as the batch,
    the room in the cache and the stack allow. *)
Lemma refill_loop_spec k n : forall sh st c t, shard_abs sh st -> cache_ok c ->
  0 <= k < BUFFER_SIZE_CLASSES ->
  let m := Z.min (Z.of_nat n) (Z.min (THREAD_CACHE_SIZE - tc_count c k) (zlen (st k))) in
  let '(t', sh', c') := refill_loop sh c k n t in
  t' = t + m /\
  moved_to sh st c k (drop (Z.to_nat m) (st k)) (cache_row c k ++ take (Z.to_nat m) (st k)) sh' c'.
Proof.
  induction n as [|n IH]; intros sh st c t Ha Hc Hk m; pose proof (co_count _ Hc k Hk) as Hb.
  - replace (Z.to_nat m) with O by (unfold m, zlen; lia). cbn. split; [unfold m, zlen; lia|].
    rewrite app_nil_r. by apply moved_to_none.
  - cbn [refill_loop]. pose proof (abs_pop _ _ k Ha Hk) as Hp.
    destruct (Z.ltb_spec (tc_count c k) THREAD_CACHE_SIZE) as [Hlt|Hge].
    2:{ replace (Z.to_nat m) with O by (unfold m, zlen; lia). cbn. split; [unfold m, zlen; lia|].
        rewrite app_nil_r. by apply moved_to_none. }
    destruct (st k) as [|b r] eqn:Est.
    + rewrite Hp. replace (Z.to_nat m) with O by (unfold m, zlen; cbn; lia). cbn.
      split; [unfold m, zlen; cbn; lia|]. rewrite app_nil_r, <- Est. by apply moved_to_none.
    + destruct Hp as (sh1 & -> & Ha1).
      destruct (cache_push_ok c k b Hc Hk Hlt) as (Hc1 & Hn1 & Hr1 & Hs1).
      specialize (IH sh1 _ (cache_push c k b) (t + 1) Ha1 Hc1 Hk). cbn zeta in IH.
      rewrite st_set_eq, Hn1 in IH.
      destruct (refill_loop sh1 (cache_push c k b) k n (t + 1)) as [[t' sh'] c'].
      destruct IH as [-> Hm].
      set (m' := Z.min (Z.of_nat n) _) in Hm |- *.
      assert (m = m' + 1) as Em by (unfold m, m', zlen; cbn [length]; lia).
      split; [lia|]. rewrite Em. replace (Z.to_nat (m' + 1)) with (S (Z.to_nat m')) by (unfold m', zlen; lia).
      cbn [drop take]. rewrite Hr1, st_set_eq, <- app_assoc in Hm. cbn in Hm.
      eapply moved_to_trans; [|exact Hm]. by split_and!.
Qed.

Lemma drain_loop_spec k n : forall c tf, cache_ok c -> 0 <= k < BUFFER_SIZE_CLASSES ->
  tc_count c k <= Z.of_nat n ->
  let '(c', tf') := drain_loop c k n tf in
  tf' = tf ++ reverse (cache_row c k) /\ cache_ok c' /\ same_cache c c' /\
  forall j, cache_row c' j = st_set (cache_row c) k [] j.
Proof.
  assert (forall c tf, cache_ok c -> 0 <= k < BUFFER_SIZE_CLASSES -> tc_count c k <= 0 ->
    tf = tf ++ reverse (cache_row c k) /\ cache_ok c /\ same_cache c c /\
    forall j, cache_row c j = st_set (cache_row c) k [] j) as Hbase.
  { intros c tf Hc Hk Hn. assert (cache_row c k = []) as E.
    { pose proof (cache_row_length c k Hc Hk). destruct (cache_row c k); [done|].
      unfold zlen in *; cbn in *; lia. }
    rewrite E. split_and!; [by rewrite app_nil_r|done|apply same_cache_refl|].
    intros j. by rewrite <- E at 1; rewrite st_set_id. }
  induction n as [|n IH]; intros c tf Hc Hk Hn; [by apply Hbase|]. cbn [drain_loop].
  destruct (Z.ltb_spec 0 (tc_count c k)); [|by apply Hbase].
  destruct (cache_pop_ok c k) as (r & b & c1 & Er & -> & Hc1 & Hn1 & Hr1 & Hs1); [done|done|done|].
  specialize (IH c1 (tf ++ [b]) Hc1 Hk ltac:(lia)).
  destruct (drain_loop c1 k n (tf ++ [b])) as [c' tf']. destruct IH as (-> & Hc' & Hs' & Hr').
  split_and!; [|done|by eapply same_cache_trans|].
  - rewrite Hr1, st_set_eq, Er, reverse_app, <- app_assoc. done.
  - intros j. rewrite Hr', <- (st_set_set (cache_row c) k r [] j). apply st_set_cong, Hr1.
Qed.

Lemma row_nil c k : cache_ok c -> 0 <= k < BUFFER_SIZE_CLASSES -> tc_count c k <= 0 -> cache_row c k = [].
Proof.
  intros Hc Hk Hn. pose proof (cache_row_length c k Hc Hk). destruct (cache_row c k); [done|].
  unfold zlen in *; cbn in *; lia.
Qed.

(** What a flush did with the row of its class: it kept the bottom, gave the
    top to the shard and freed what lay between, which happens only when the
    shard is full, and then nothing is kept. *)
Definition flushed (sh : buffer_shard_t) (st : stacks) (c : thread_cache_t) (k t : Z) (tf : list Z)
    (res : Z * buffer_shard_t * thread_cache_t * list Z) : Prop :=
  let '(t', sh', c', tf') := res in
  exists keep fr mv, cache_row c k = keep ++ reverse fr ++ mv /\
    t' = t + zlen mv /\ tf' = tf ++ fr /\ moved_to sh st c k (mv ++ st k) keep sh' c' /\
    (fr = [] \/ keep = [] /\ zlen (st_all st) + zlen mv = SLOTS) /\
    (keep = [] \/ THREAD_CACHE_BATCH_SIZE <= t').

Lemma flushed_stop sh st c k t tf : shard_abs sh st -> cache_ok c ->
  cache_row c k = [] \/ THREAD_CACHE_BATCH_SIZE <= t -> flushed sh st c k t tf (t, sh, c, tf).
Proof.
  intros Ha Hc Hstop. exists (cache_row c k), [], []. cbn. rewrite !app_nil_r.
  split_and!; [done|unfold zlen; cbn; lia|done|by apply moved_to_none|by left|done].
Qed.

Lemma flush_loop_spec k size n : forall sh st c t tf, shard_abs sh st -> cache_ok c ->
  0 <= k < BUFFER_SIZE_CLASSES -> tc_count c k <= Z.of_nat n ->
  flushed sh st c k t tf (flush_loop sh c k size n t tf).
Proof.
  induction n as [|n IH]; intros sh st c t tf Ha Hc Hk Hn.
  { apply flushed_stop; [done|done|]. left. by apply row_nil. }
  cbn [flush_loop]. destruct (Z.ltb_spec t THREAD_CACHE_BATCH_SIZE); cbn [andb].
  2:{ apply flushed_stop; auto. }
  destruct (Z.ltb_spec 0 (tc_count c k)).
  2:{ apply flushed_stop; [done|done|]. left. by apply row_nil. }
  destruct (abs_rep _ _ Ha) as [Hle _]. rewrite (abs_high_water _ _ Ha).
  destruct (Z.leb_spec SLOTS (zlen (st_all st))).
  - pose proof (drain_loop_spec k (S n) c tf Hc Hk Hn) as Hd.
    destruct (drain_loop c k (S n) tf) as [c' tf']. destruct Hd as (-> & Hc' & Hs & Hr).
    exists [], (reverse (cache_row c k)), []. rewrite reverse_involutive, app_nil_r.
    split_and!; [done|unfold zlen; cbn; lia|done| |right; split; [done|unfold zlen in *; cbn; lia]|by left].
    split_and!; [|done|done|done]. eapply abs_ext; [|done]. intros j _. cbn. by rewrite st_set_id.
  - pose proof (fun b => abs_push sh st k b size Ha Hk) as Hp.
    destruct (Z.ltb_spec (zlen (st_all st)) SLOTS); [|lia].
    destruct (cache_pop_ok c k) as (r & b & c1 & Er & -> & Hc1 & Hn1 & Hr1 & Hs1); [done|done|done|].
    destruct (Hp b) as (sh1 & Ep & Ha1).
    destruct (free_slots sh) eqn:Ef; [|unfold shard_push in Ep; by rewrite Ef in Ep].
    rewrite Ep. specialize (IH sh1 _ c1 (t + 1) tf Ha1 Hc1 Hk ltac:(lia)).
    destruct (flush_loop sh1 c1 k size n (t + 1) tf) as [[[t' sh'] c'] tf'].
    destruct IH as (keep & fr & mv & Erow & -> & -> & Hm & Hfr & Hkeep).
    rewrite st_set_eq in Hm. rewrite Hr1, st_set_eq in Erow.
    exists keep, fr, (mv ++ [b]). rewrite <- app_assoc. cbn.
    assert (zlen (mv ++ [b]) = zlen mv + 1) as -> by (unfold zlen; rewrite length_app; cbn; lia).
    split_and!; [by rewrite Er, Erow, !app_assoc|lia|done| | |destruct Hkeep; [by left|right; lia]].
    + eapply moved_to_trans; [|exact Hm]. by split_and!.
    + destruct Hfr as [->|[-> Hfull]]; [by left|right]. split; [done|].
      rewrite st_all_length in Hfull by done. unfold zlen in *. cbn [length] in Hfull. lia.
Qed.

(** C7. A shard implements one stack of buffers per size class with 256 buffers
    in all. Popping a class yields the last buffer pushed on it, and nothing
    when it is empty; pushing succeeds exactly while fewer than 256 buffers are
    in the shard, whatever the class; the other classes do not change;
    [at_high_water] holds exactly when the shard is full; and destroying the
    shard frees every buffer in it, within the walk of 256 slots per class. The
    slots, their free list and the sixteen linked lists are not visible. *)
Theorem shard_refines_stacks sh st k buf size : shard_abs sh st -> 0 <= k < BUFFER_SIZE_CLASSES ->
  match st k with
  | [] => shard_pop sh k = None
  | b :: r => exists sh', shard_pop sh k = Some (b, sh') /\ shard_abs sh' (st_set st k r)
  end /\
  (if zlen (st_all st) <? 256
   then exists sh', shard_push sh k buf size = Some sh' /\ shard_abs sh' (st_set st k (buf :: st k))
   else shard_push sh k buf size = None) /\
  at_high_water sh = (256 <=? zlen (st_all st)) /\
  free_count sh = zlen (st_all st) /\
  exists sh', shard_destroy sh = Some (filter (fun b => b <> 0) (st_all st), sh').
Proof.
  intros Ha Hk. split_and!.
  - by apply abs_pop.
  - by apply (abs_push sh st k buf size).
  - by apply abs_high_water.
  - by apply (abs_rep sh st).
  - by apply abs_destroy.
Qed.

(** A new shard with two buffers of class 3. *)
Definition demo_shard : buffer_shard_t :=
  match shard_init true true with
  | Some sh =>
      match shard_push sh 3 4096 512 with
      | Some sh => default sh (shard_push sh 3 8192 512)
      | None => sh
      end
  | None => shard_zero
  end.

Definition demo_stacks : stacks := fun k => if k =? 3 then [8192; 4096] else [].

Lemma demo_shard_abs : shard_abs demo_shard demo_stacks.
Proof.
  destruct abs_init as (sh0 & E0 & A0). unfold demo_shard. rewrite E0.
  pose proof (abs_push sh0 _ 3 4096 512 A0 ltac:(done)) as H1. cbn in H1.
  destruct H1 as (sh1 & -> & A1).
  pose proof (abs_push sh1 _ 3 8192 512 A1 ltac:(done)) as H2. vm_compute (_ <? _) in H2.
  destruct H2 as (sh2 & -> & A2). cbn.
  eapply abs_ext; [|exact A2]. intros j _. unfold st_set, demo_stacks. by destruct (j =? 3).
Qed.

Lemma shard_refines_stacks_witness :
  0 <= 3 < BUFFER_SIZE_CLASSES /\
  (exists sh', shard_pop demo_shard 3 = Some (8192, sh') /\ shard_abs sh' (st_set demo_stacks 3 [4096])) /\
  free_count demo_shard = 2.
Proof.
  destruct (shard_refines_stacks demo_shard demo_stacks 3 1 512 demo_shard_abs ltac:(done))
    as (Hpop & _ & _ & Hcount & _).
  split; [done|]. split; [exact Hpop|exact Hcount].
Defined.
