(* ===== verification/BufPoolInv.v ===== *)
(** * The invariant of the buffer pool's world

    [pooled] lists the buffers that shards and thread caches hold and [ledger]
    adds those already freed and those the allocator will still hand out: every
    operation moves buffers between these places. The wiring of the world (which
    cache belongs to which pool, which thread reaches which cache, the pools'
    lists of caches) is [shape]; most operations do not touch it, and [wired] is
    its invariant. *)
From Stdlib Require Import ZArith Lia List.
From stdpp Require Import base tactics list.
From S2P Require Import Prelude BufSize BufMap BufPool BufShardSpec.

#[local] Open Scope Z_scope.

(** ** Contents *)

(** The slots linked from [head], at most [fuel] of them. *)
Fixpoint walk (slots : list buffer_slot_t) (head : option Z) (fuel : nat) : list Z :=
  match head, fuel with
  | Some i, S fuel => i :: walk slots (next (aget slot_zero slots i)) fuel
  | _, _ => []
  end.

Lemma walk_chain slots l : forall head fuel, chain slots head l -> (length l <= fuel)%nat ->
  walk slots head fuel = l.
Proof.
  induction l as [|i l IH]; intros head fuel Hc Hf; cbn in Hc.
  - subst. by destruct fuel.
  - destruct Hc as [-> Hc]. destruct fuel as [|fuel]; cbn in *; [lia|]. f_equal. apply IH; [done|lia].
Qed.

Definition shard_stacks (sh : buffer_shard_t) : stacks := fun k =>
  map (slot_buf (slot_pool sh)) (walk (slot_pool sh) (bucket sh k) (Z.to_nat SLOTS)).

Lemma abs_stacks sh st k : shard_abs sh st -> 0 <= k < BUFFER_SIZE_CLASSES -> shard_stacks sh k = st k.
Proof.
  intros (fl & bs & Hr & Hst) Hk. rewrite (Hst k Hk). unfold shard_stacks. f_equal.
  apply walk_chain; [by apply (sr_chain _ _ _ Hr)|].
  pose proof (Permutation_length (sr_perm _ _ _ Hr)) as Hl.
  destruct (st_all_set bs k [] Hk) as (a & b & Ea & _).
  rewrite length_app, length_seqZ, Ea, !length_app in Hl. lia.
Qed.

Definition shard_ok (sh : buffer_shard_t) : Prop := shard_abs sh (shard_stacks sh).
Definition shard_bufs (sh : buffer_shard_t) : list Z := st_all (shard_stacks sh).
Definition cache_bufs (c : thread_cache_t) : list Z := st_all (cache_row c).
Definition pool_bufs (pool : buffer_pool_t) : list Z := concat (map shard_bufs (shards pool)).
Definition cached (c : option thread_cache_t) : list Z := from_option cache_bufs [] c.

Lemma abs_ok sh st : shard_abs sh st -> shard_ok sh.
Proof.
  intros Ha. eapply abs_ext; [|exact Ha]. intros k Hk. symmetry. by apply abs_stacks.
Qed.

Lemma abs_bufs sh st : shard_abs sh st -> shard_bufs sh = st_all st.
Proof. intros Ha. apply st_all_ext. intros k Hk. by apply abs_stacks. Qed.

(** The buffers in the shards and caches. *)
Definition pooled (w : world) : list Z :=
  concat (map pool_bufs (pools w)) ++ concat (map cached (caches w)).

Definition result_ok {A} (r : result A) : option A := match r with Ok a => Some a | Err _ => None end.

(** The buffers the allocator will still hand out. *)
Definition heap_left (w : world) : list Z := omap result_ok (heap w).

(** Every buffer there is, client-held ones apart. *)
Definition ledger (w : world) : list Z := pooled w ++ freed w ++ heap_left w.

(** ** The wiring *)

Record pview := { v_destroyed : bool; v_shards : Z; v_mask : Z; v_list : option Z }.
Record cview := {
  v_pool : option Z; v_next : option Z; v_owner : Z; v_shard : Z; v_cleaned : bool; v_exited : bool
}.
Record shape_t := {
  s_pools : list pview;
  s_caches : list (option cview);
  s_tls : list (option Z);
  s_key : list (option Z);
  s_valid : bool
}.

Definition pview_of (p : buffer_pool_t) : pview :=
  {| v_destroyed := destroyed p; v_shards := zlen (shards p); v_mask := shard_mask p;
     v_list := thread_caches p |}.
Definition cview_of (c : thread_cache_t) : cview :=
  {| v_pool := tc_pool c; v_next := tc_next c; v_owner := owner_thread c; v_shard := shard_id c;
     v_cleaned := cleaned_up c; v_exited := thread_exited c |}.
Definition shape (w : world) : shape_t :=
  {| s_pools := map pview_of (pools w); s_caches := map (fmap cview_of) (caches w);
     s_tls := tls_cache w; s_key := tls_key w; s_valid := tls_key_valid w |}.

Definition pview_zero : pview := pview_of pool_zero.
Definition s_pool (s : shape_t) (p : Z) : pview := aget pview_zero (s_pools s) p.
Definition s_cache (s : shape_t) (c : Z) : option cview := aget None (s_caches s) c.

(** The caches linked from [head] are [l]. *)
Fixpoint clist (s : shape_t) (head : option Z) (l : list Z) : Prop :=
  match l with
  | [] => head = None
  | c :: l => head = Some c /\ exists v, s_cache s c = Some v /\ clist s (v_next v) l
  end.

(** A cache that belongs to a pool belongs to a live one and has one of its
    shards; a pool's list holds exactly its caches; a thread's pointer leads to
    a cache of its own that is still allocated, and the pthread key agrees. *)
Record wired (s : shape_t) : Prop := {
  wi_mask : forall p, 0 <= p < zlen (s_pools s) -> 0 < v_shards (s_pool s p) ->
    v_mask (s_pool s p) = v_shards (s_pool s p) - 1 /\
    exists j, 0 <= j /\ v_shards (s_pool s p) = 2 ^ j;
  wi_pool : forall c v p, s_cache s c = Some v -> v_pool v = Some p ->
    0 <= p < zlen (s_pools s) /\ v_destroyed (s_pool s p) = false /\
    0 <= v_shard v < v_shards (s_pool s p);
  wi_list : forall p, 0 <= p < zlen (s_pools s) -> exists l, NoDup l /\
    clist s (v_list (s_pool s p)) l /\
    forall c, c ∈ l <-> exists v, s_cache s c = Some v /\ v_pool v = Some p;
  wi_len : length (s_tls s) = length (s_key s);
  wi_tls : forall t c, aget None (s_tls s) t = Some c ->
    (exists v, s_cache s c = Some v /\ v_owner v = t /\ v_exited v = false) /\
    (s_valid s = true -> aget None (s_key s) t = Some c \/ aget None (s_key s) t = None);
  wi_key : forall t c, aget None (s_key s) t = Some c ->
    s_valid s = true /\ exists v, s_cache s c = Some v /\ v_owner v = t /\ v_exited v = false
}.

(** The contents are well formed, and a cache that was cleaned up or
    orphaned is empty. *)
Record stored_ok (w : world) : Prop := {
  so_shards : forall p sh, 0 <= p < zlen (pools w) -> sh ∈ shards (pool_at w p) -> shard_ok sh;
  so_caches : forall c ca, aget None (caches w) c = Some ca ->
    cache_ok ca /\ (cleaned_up ca = true \/ tc_pool ca = None -> cache_bufs ca = [])
}.

Record world_ok (w : world) : Prop := { wo_wired : wired (shape w); wo_stored : stored_ok w }.

(** A thread does not hold on to a cache that was cleaned up before its pool
    went away. *)
Definition tls_fresh (s : shape_t) : Prop := forall t c v,
  aget None (s_tls s) t = Some c -> s_cache s c = Some v -> v_pool v <> None -> v_cleaned v = false.

(** The counters that destruction waits for. *)
Definition counters (w : world) : list (Z * Z) :=
  map (fun p => (registrations_inflight p, active_users p)) (pools w).

(** ** Updates *)

Lemma map_aset {A B} (f : A -> B) l i x : map f (aset l i x) = aset (map f l) i (f x).
Proof. unfold aset. destruct (i <? 0); [done|]. apply list_fmap_insert. Qed.

Lemma aset_id {A} (d : A) l i : aset l i (aget d l i) = l.
Proof.
  unfold aset, aget. destruct (i <? 0); [done|].
  destruct (decide (Z.to_nat i < length l)%nat) as [H|H].
  - apply list_insert_id. apply lookup_lt_is_Some_2 in H as [x Hx].
    by rewrite Hx, (nth_lookup_Some _ _ _ _ Hx).
  - apply list_insert_ge. lia.
Qed.

Lemma aget_map {A B} (f : A -> B) d d' l i : f d = d' -> aget d' (map f l) i = f (aget d l i).
Proof. intros <-. unfold aget. destruct (i <? 0); [done|]. apply map_nth. Qed.

Lemma concat_map_aset {A B} (f : A -> list B) (d : A) l i y : 0 <= i < zlen l ->
  concat (map f (aset l i y)) ++ f (aget d l i) ≡ₚ f y ++ concat (map f l).
Proof.
  intros Hi. unfold aset, aget. destruct (Z.ltb_spec i 0); [lia|].
  assert (Z.to_nat i < length l)%nat as Hn by (unfold zlen in *; lia).
  generalize dependent (Z.to_nat i). clear. induction l as [|x l IH]; intros [|n] Hn; cbn in *; [lia|lia| |].
  - solve_Permutation.
  - rewrite <- app_assoc, (IH n) by lia. solve_Permutation.
Qed.

Lemma aget_some_range {A} (l : list (option A)) i x : aget None l i = Some x -> 0 <= i < zlen l.
Proof.
  unfold aget, zlen. destruct (Z.ltb_spec i 0); [done|]. intros H1.
  destruct (decide (Z.to_nat i < length l)%nat); [lia|].
  rewrite nth_overflow in H1 by lia. done.
Qed.

(** A cache that is still allocated. *)
Definition alive (w : world) (c : Z) (ca : thread_cache_t) : Prop := aget None (caches w) c = Some ca.

Lemma alive_at w c ca : alive w c ca -> cache_at w c = ca.
Proof. unfold alive, cache_at. by intros ->. Qed.

Lemma s_cache_shape w c : s_cache (shape w) c = cview_of <$> aget None (caches w) c.
Proof. unfold s_cache, shape. cbn. by rewrite (aget_map (fmap cview_of) None None). Qed.

Lemma s_pool_shape w p : s_pool (shape w) p = pview_of (pool_at w p).
Proof. unfold s_pool, shape, pool_at. cbn. by rewrite (aget_map pview_of pool_zero). Qed.

Lemma zlen_pools_shape w : zlen (s_pools (shape w)) = zlen (pools w).
Proof. unfold zlen, shape. cbn. by rewrite length_map. Qed.

Lemma shape_upd_cache c f w ca : alive w c ca -> cview_of (f ca) = cview_of ca ->
  shape (upd_cache c f w) = shape w.
Proof.
  intros Ha Hv. unfold shape, upd_cache. cbn. rewrite (alive_at _ _ _ Ha), map_aset. cbn. rewrite Hv.
  f_equal. replace (Some (cview_of ca)) with (aget None (map (fmap cview_of) (caches w)) c).
  - apply aset_id.
  - rewrite (aget_map (fmap cview_of) None None) by done. by rewrite Ha.
Qed.

Lemma shape_upd_pool p f w : pview_of (f (pool_at w p)) = pview_of (pool_at w p) ->
  shape (upd_pool p f w) = shape w.
Proof.
  intros Hv. unfold shape, upd_pool. cbn. rewrite map_aset, Hv. f_equal.
  unfold pool_at. rewrite <- (aget_map pview_of pool_zero pview_zero) by done. apply aset_id.
Qed.

Lemma pool_at_upd p f w : 0 <= p < zlen (pools w) -> pool_at (upd_pool p f w) p = f (pool_at w p).
Proof. intros Hp. unfold pool_at at 1, upd_pool. cbn. by apply aget_aset_eq. Qed.

Lemma pool_at_upd_ne p q f w : p <> q -> pool_at (upd_pool p f w) q = pool_at w q.
Proof. intros Hp. unfold pool_at at 1, upd_pool. cbn. by apply aget_aset_ne. Qed.

Lemma alive_upd c f w ca : alive w c ca -> alive (upd_cache c f w) c (f ca).
Proof.
  intros Ha. unfold alive, upd_cache. cbn. rewrite (alive_at _ _ _ Ha).
  apply aget_aset_eq. by eapply aget_some_range.
Qed.

Lemma cache_at_upd c f w ca : alive w c ca -> cache_at (upd_cache c f w) c = f ca.
Proof. intros Ha. by apply alive_at, alive_upd. Qed.

Lemma pooled_upd_cache c f w ca : alive w c ca ->
  pooled (upd_cache c f w) ++ cache_bufs ca ≡ₚ cache_bufs (f ca) ++ pooled w.
Proof.
  intros Ha. unfold pooled, upd_cache. cbn. rewrite (alive_at _ _ _ Ha).
  pose proof (concat_map_aset cached None (caches w) c (Some (f ca))
                ltac:(by eapply aget_some_range)) as H. rewrite Ha in H. cbn in H.
  rewrite <- app_assoc, H. solve_Permutation.
Qed.

Lemma pooled_upd_pool p f w : 0 <= p < zlen (pools w) ->
  pooled (upd_pool p f w) ++ pool_bufs (pool_at w p) ≡ₚ pool_bufs (f (pool_at w p)) ++ pooled w.
Proof.
  intros Hp. unfold pooled, upd_pool. cbn.
  pose proof (concat_map_aset pool_bufs pool_zero (pools w) p (f (pool_at w p)) Hp) as H.
  fold (pool_at w p) in H. rewrite app_assoc, <- H. solve_Permutation.
Qed.

Lemma pool_bufs_set_shard i sh pool : 0 <= i < zlen (shards pool) ->
  pool_bufs (set_shard i sh pool) ++ shard_bufs (shard_at pool i) ≡ₚ shard_bufs sh ++ pool_bufs pool.
Proof. intros Hi. unfold pool_bufs, set_shard, shard_at. cbn. by apply concat_map_aset. Qed.

(** ** Steps *)

(** [w'] is [w] with the buffers [ins] put into the ledger and [out] taken out
    of it; the invariants hold again, and the destruction counters are where
    they were. *)
Record evolves (w w' : world) (ins out : list Z) : Prop := {
  ev_ok : world_ok w';
  ev_ledger : ins ++ ledger w ≡ₚ out ++ ledger w';
  ev_counters : counters w' = counters w
}.

(** The same, with the wiring untouched. *)
Record moves (w w' : world) (ins out : list Z) : Prop := {
  mv_evolves : evolves w w' ins out;
  mv_shape : shape w' = shape w
}.

Lemma evolves_refl w : world_ok w -> evolves w w [] [].
Proof. by split. Qed.

Lemma moves_refl w : world_ok w -> moves w w [] [].
Proof. split; [by apply evolves_refl|done]. Qed.

Lemma evolves_trans w1 w2 w3 i1 o1 i2 o2 :
  evolves w1 w2 i1 o1 -> evolves w2 w3 i2 o2 -> evolves w1 w3 (i1 ++ i2) (o1 ++ o2).
Proof.
  intros [_ L1 C1] [H2 L2 C2]. split; [done|perm_lia|congruence].
Qed.

Lemma evolves_perm w w' i o i' o' : i' ++ o ≡ₚ i ++ o' -> evolves w w' i o -> evolves w w' i' o'.
Proof. intros Hp [H L C]. split; [done|perm_lia|done]. Qed.

Lemma moves_trans w1 w2 w3 i1 o1 i2 o2 :
  moves w1 w2 i1 o1 -> moves w2 w3 i2 o2 -> moves w1 w3 (i1 ++ i2) (o1 ++ o2).
Proof. intros [E1 S1] [E2 S2]. split; [by eapply evolves_trans|congruence]. Qed.

Lemma moves_perm w w' i o i' o' : i' ++ o ≡ₚ i ++ o' -> moves w w' i o -> moves w w' i' o'.
Proof. intros Hp [E S]. split; [by eapply evolves_perm|done]. Qed.

Lemma stored_ok_pools w w' : stored_ok w -> zlen (pools w') = zlen (pools w) -> caches w' = caches w ->
  (forall p sh, 0 <= p < zlen (pools w) -> sh ∈ shards (pool_at w' p) ->
     shard_ok sh \/ sh ∈ shards (pool_at w p)) -> stored_ok w'.
Proof.
  intros [Hs Hc] Hl Ec H. split.
  - intros p sh Hp Hsh. rewrite Hl in Hp. destruct (H p sh Hp Hsh) as [?|Hin]; [done|]. by apply (Hs p).
  - intros c ca. rewrite Ec. apply Hc.
Qed.

Lemma zlen_upd_pool p f w : zlen (pools (upd_pool p f w)) = zlen (pools w).
Proof. unfold upd_pool. cbn. apply zlen_aset. Qed.

Lemma pool_at_upd_proj {A} (g : buffer_pool_t -> A) p f w q :
  g (f (pool_at w p)) = g (pool_at w p) -> g (pool_at (upd_pool p f w) q) = g (pool_at w q).
Proof.
  intros H. destruct (decide (p = q)) as [<-|Hne]; [|by rewrite pool_at_upd_ne].
  unfold pool_at at 1, upd_pool. cbn. unfold aget, aset. destruct (Z.ltb_spec p 0) as [Hp|Hp].
  - by unfold pool_at, aget; rewrite (proj2 (Z.ltb_lt p 0) Hp).
  - destruct (decide (Z.to_nat p < length (pools w))%nat).
    + rewrite nth_lookup, list_lookup_insert_eq by done. done.
    + rewrite list_insert_ge by lia. unfold pool_at, aget. by destruct (Z.ltb_spec p 0); [lia|].
Qed.

Lemma counters_upd_pool p f w :
  (registrations_inflight (f (pool_at w p)), active_users (f (pool_at w p))) =
  (registrations_inflight (pool_at w p), active_users (pool_at w p)) ->
  counters (upd_pool p f w) = counters w.
Proof.
  intros H. unfold counters, upd_pool. cbn. rewrite map_aset, H. unfold pool_at.
  rewrite <- (aget_map (fun p => (registrations_inflight p, active_users p)) pool_zero (0, 0)) by done.
  apply aset_id.
Qed.

Lemma ledger_upd_pool_same p f w : pool_bufs (f (pool_at w p)) = pool_bufs (pool_at w p) ->
  ledger (upd_pool p f w) ≡ₚ ledger w.
Proof.
  intros H. unfold ledger. change (freed (upd_pool p f w)) with (freed w).
  change (heap_left (upd_pool p f w)) with (heap_left w). apply Permutation_app_tail.
  destruct (decide (0 <= p < zlen (pools w))) as [Hp|Hp].
  - apply (Permutation_app_inv_r (pool_bufs (pool_at w p))). rewrite pooled_upd_pool by done. rewrite H.
    solve_Permutation.
  - unfold pooled, upd_pool. cbn. replace (aset (pools w) p (f (pool_at w p))) with (pools w); [done|].
    unfold aset. destruct (Z.ltb_spec p 0); [done|]. symmetry. apply list_insert_ge. unfold zlen in *. lia.
Qed.

(** A change of fields of a pool that the invariants do not mention. *)
Lemma moves_pool p f w : world_ok w -> pview_of (f (pool_at w p)) = pview_of (pool_at w p) ->
  shards (f (pool_at w p)) = shards (pool_at w p) ->
  (registrations_inflight (f (pool_at w p)), active_users (f (pool_at w p))) =
  (registrations_inflight (pool_at w p), active_users (pool_at w p)) ->
  moves w (upd_pool p f w) [] [].
Proof.
  intros [Hw Hs] Hv Hsh Hc. pose proof (shape_upd_pool p f w Hv) as Es. split; [|done]. split.
  - split; [by rewrite Es|]. eapply stored_ok_pools; [done|apply zlen_upd_pool|done|].
    intros q sh _ Hin. right. by rewrite (pool_at_upd_proj shards) in Hin.
  - cbn. symmetry. apply ledger_upd_pool_same. unfold pool_bufs. by rewrite Hsh.
  - by apply counters_upd_pool.
Qed.

(** Another shard in place of shard [sid]. *)
Lemma moves_shard p sid sh w ins out : world_ok w -> 0 <= p < zlen (pools w) ->
  0 <= sid < zlen (shards (pool_at w p)) -> shard_ok sh ->
  ins ++ shard_bufs (shard_at (pool_at w p) sid) ≡ₚ out ++ shard_bufs sh ->
  moves w (upd_pool p (set_shard sid sh) w) ins out.
Proof.
  intros [Hw Hs] Hp Hsid Hok Hperm.
  assert (pview_of (set_shard sid sh (pool_at w p)) = pview_of (pool_at w p)) as Hv.
  { unfold pview_of, set_shard. cbn. by rewrite zlen_aset. }
  pose proof (shape_upd_pool p (set_shard sid sh) w Hv) as Es. split; [|done]. split.
  - split; [by rewrite Es|]. eapply stored_ok_pools; [done|apply zlen_upd_pool|done|].
    intros q s _ Hin. destruct (decide (p = q)) as [<-|Hne]; [|right; by rewrite pool_at_upd_ne in Hin].
    rewrite pool_at_upd in Hin by done. unfold set_shard in Hin. cbn in Hin.
    unfold aset in Hin. destruct (Z.ltb_spec sid 0); [lia|].
    apply list_elem_of_lookup in Hin as [i Hi]. apply list_lookup_insert_Some in Hi as [(_ & <- & _)|(_ & Hi)].
    + by left.
    + right. by eapply list_elem_of_lookup_2.
  - unfold ledger. change (freed (upd_pool p (set_shard sid sh) w)) with (freed w).
    change (heap_left (upd_pool p (set_shard sid sh) w)) with (heap_left w).
    pose proof (pooled_upd_pool p (set_shard sid sh) w Hp) as H1.
    pose proof (pool_bufs_set_shard sid sh (pool_at w p) Hsid) as H2.
    perm_lia.
  - apply counters_upd_pool. done.
Qed.

(** Other arrays in a cache. *)
Lemma moves_cache c f w ca ins out : world_ok w -> alive w c ca -> cview_of (f ca) = cview_of ca ->
  cache_ok (f ca) ->
  (cleaned_up (f ca) = true \/ tc_pool (f ca) = None -> cache_bufs (f ca) = []) ->
  ins ++ cache_bufs ca ≡ₚ out ++ cache_bufs (f ca) ->
  moves w (upd_cache c f w) ins out.
Proof.
  intros [Hw Hs] Ha Hv Hok Hcl Hperm. pose proof (shape_upd_cache c f w ca Ha Hv) as Es.
  split; [|done]. split; [|..].
  - split; [by rewrite Es|]. split.
    + apply Hs.
    + intros c' ca'. destruct (decide (c' = c)) as [->|Hne].
      * pose proof (alive_upd c f w ca Ha) as Ha'. unfold alive in Ha'. rewrite Ha'. by intros [= <-].
      * unfold upd_cache. cbn. rewrite aget_aset_ne by congruence. apply Hs.
  - pose proof (pooled_upd_cache c f w ca Ha) as H1. unfold ledger.
    change (freed (upd_cache c f w)) with (freed w).
    change (heap_left (upd_cache c f w)) with (heap_left w). perm_lia.
  - done.
Qed.

Lemma same_cview c c' : same_cache c c' -> cview_of c' = cview_of c.
Proof. intros ->. by destruct c. Qed.

Lemma moves_free bufs w : world_ok w -> moves w (free_bufs bufs w) bufs [].
Proof.
  intros [Hw Hs]. split; [|done]. split; [|..].
  - split; [done|]. by split; apply Hs.
  - unfold ledger. change (pooled (free_bufs bufs w)) with (pooled w).
    change (heap_left (free_bufs bufs w)) with (heap_left w).
    change (freed (free_bufs bufs w)) with (freed w ++ bufs). perm_lia.
  - done.
Qed.

Lemma moves_libc w : world_ok w -> moves w (snd (libc_call w)) [] [].
Proof.
  intros [Hw Hs]. unfold libc_call. destruct (libc w); cbn; split; try done; split; try done.
  split; [done|]. by split; apply Hs.
Qed.

Lemma moves_memalign w : world_ok w ->
  let '(r, w') := posix_memalign w in moves w w' [] (option_list (result_ok r)).
Proof.
  intros [Hw Hs]. unfold posix_memalign. destruct (heap w) as [|r rest] eqn:Eh.
  - split; [|done]. split; done.
  - split; [|done]. split; [|..].
    + split; [done|]. by split; apply Hs.
    + unfold ledger. change (pooled (w <| heap := rest |>)) with (pooled w).
      change (freed (w <| heap := rest |>)) with (freed w). unfold heap_left.
      change (heap (w <| heap := rest |>)) with rest. rewrite Eh.
      destruct r; cbn; perm_lia.
    + done.
Qed.

(** Changes of the wiring only. *)
Lemma evolves_wiring w w' : world_ok w -> pools w' = pools w -> caches w' = caches w ->
  freed w' = freed w -> heap w' = heap w -> wired (shape w') -> evolves w w' [] [].
Proof.
  intros [_ [Hs1 Hs2]] Ep Ec Ef Eh Hw. split; [|..].
  - split; [done|]. unfold pool_at in *. split.
    + unfold pool_at. rewrite Ep. exact Hs1.
    + rewrite Ec. exact Hs2.
  - unfold ledger, pooled, heap_left. by rewrite Ep, Ec, Ef, Eh.
  - unfold counters. by rewrite Ep.
Qed.

(** *** Entering and leaving a pool *)

Definition cadd (p n m : Z) (l : list (Z * Z)) : list (Z * Z) :=
  aset l p (let '(r, a) := aget (0, 0) l p in (r + n, a + m)).

Lemma cadd_add p n m n' m' l : cadd p n m (cadd p n' m' l) = cadd p (n' + n) (m' + m) l.
Proof.
  unfold cadd. destruct (decide (0 <= p < zlen l)) as [Hp|Hp].
  - rewrite aget_aset_eq by done. destruct (aget (0, 0) l p) as [r a].
    unfold aset. destruct (p <? 0); [done|]. rewrite list_insert_insert_eq. do 2 f_equal; lia.
  - assert (forall x, aset l p x = l) as E.
    { intros x. unfold aset, zlen in *. destruct (Z.ltb_spec p 0); [done|]. apply list_insert_ge. lia. }
    by rewrite !E.
Qed.

Lemma cadd_0 p l : cadd p 0 0 l = l.
Proof.
  unfold cadd. rewrite <- (aset_id (0, 0) l p) at 3. destruct (aget (0, 0) l p) as [r a].
  do 2 f_equal; lia.
Qed.

Lemma counters_active p n w : counters (active_users_add p n w) = cadd p 0 n (counters w).
Proof.
  unfold counters, active_users_add, upd_pool, cadd. cbn. rewrite map_aset. cbn.
  rewrite (aget_map _ pool_zero) by done. unfold pool_at. f_equal. f_equal; lia.
Qed.

Lemma counters_registrations p n w : counters (registrations_add p n w) = cadd p n 0 (counters w).
Proof.
  unfold counters, registrations_add, upd_pool, cadd. cbn. rewrite map_aset. cbn.
  rewrite (aget_map _ pool_zero) by done. unfold pool_at. f_equal. f_equal; lia.
Qed.

(** A world that differs from [w] in the counters of pools only. *)
Record recounted (w w' : world) (l : list (Z * Z)) : Prop := {
  rc_ok : world_ok w';
  rc_ledger : ledger w' ≡ₚ ledger w;
  rc_shape : shape w' = shape w;
  rc_counters : counters w' = l
}.

Lemma recounted_upd p f w : world_ok w -> pview_of (f (pool_at w p)) = pview_of (pool_at w p) ->
  shards (f (pool_at w p)) = shards (pool_at w p) ->
  recounted w (upd_pool p f w) (counters (upd_pool p f w)).
Proof.
  intros [Hw Hs] Hv Hsh. pose proof (shape_upd_pool p f w Hv) as Es. split; [| |done|done].
  - split; [by rewrite Es|]. eapply stored_ok_pools; [done|apply zlen_upd_pool|done|].
    intros q sh _ Hin. right. by rewrite (pool_at_upd_proj shards) in Hin.
  - apply ledger_upd_pool_same. unfold pool_bufs. by rewrite Hsh.
Qed.

Lemma recounted_active p n w : world_ok w ->
  recounted w (active_users_add p n w) (cadd p 0 n (counters w)).
Proof. intros Hw. rewrite <- counters_active. by apply recounted_upd. Qed.

Lemma recounted_registrations p n w : world_ok w ->
  recounted w (registrations_add p n w) (cadd p n 0 (counters w)).
Proof. intros Hw. rewrite <- counters_registrations. by apply recounted_upd. Qed.

(** What happens between entering and leaving is a step. *)
Lemma evolves_bracket w1 w1' w2 w2' l l' ins out :
  recounted w1 w1' l -> evolves w1' w2 ins out -> recounted w2 w2' l' ->
  (counters w2 = l -> l' = counters w1) -> evolves w1 w2' ins out.
Proof.
  intros R1 [H2 L2 C2] R2 Hl. split.
  - by apply (rc_ok _ _ _ R2).
  - pose proof (rc_ledger _ _ _ R1). pose proof (rc_ledger _ _ _ R2). perm_lia.
  - rewrite (rc_counters _ _ _ R2). apply Hl. rewrite C2. by apply (rc_counters _ _ _ R1).
Qed.

Lemma evolves_active p w w2 ins out : world_ok w -> evolves (active_users_add p 1 w) w2 ins out ->
  evolves w (active_users_add p (-1) w2) ins out.
Proof.
  intros Hw E. eapply evolves_bracket; [by apply recounted_active|done|apply recounted_active, E|].
  intros ->. rewrite cadd_add. apply cadd_0.
Qed.

Lemma evolves_registrations p w w2 ins out : world_ok w ->
  evolves (registrations_add p 1 w) w2 ins out -> evolves w (registrations_add p (-1) w2) ins out.
Proof.
  intros Hw E. eapply evolves_bracket; [by apply recounted_registrations|done|apply recounted_registrations, E|].
  intros ->. rewrite cadd_add. apply cadd_0.
Qed.

Lemma moves_active p w w2 ins out : world_ok w -> moves (active_users_add p 1 w) w2 ins out ->
  moves w (active_users_add p (-1) w2) ins out.
Proof.
  intros Hw [E S]. split; [by apply evolves_active|].
  rewrite (rc_shape _ _ _ (recounted_active p (-1) w2 ltac:(apply E))), S.
  by apply (rc_shape _ _ _ (recounted_active p 1 w Hw)).
Qed.
