(* ===== verification/BufPoolSpec.v ===== *)
(** * The operations of the buffer pool conserve buffers

    Refill, flush, allocation and free move buffers between the shards, the
    thread caches, the C library and the client, and keep the invariants of
    [BufPoolInv]. *)
From Stdlib Require Import ZArith Lia List.
From stdpp Require Import base tactics list.
From S2P Require Import Prelude BufSize BufMap BufPool BufShardSpec BufPoolInv.

#[local] Open Scope Z_scope.

(** ** Transfers *)

(** Cache [c] belongs to pool [p] and is in use. *)
Definition attached (s : shape_t) (c p : Z) : Prop :=
  exists v, s_cache s c = Some v /\ v_pool v = Some p /\ v_cleaned v = false.

Lemma attached_alive w c p : world_ok w -> attached (shape w) c p ->
  alive w c (cache_at w c) /\ cache_ok (cache_at w c) /\ cleaned_up (cache_at w c) = false /\
  tc_pool (cache_at w c) = Some p /\ 0 <= p < zlen (pools w) /\ destroyed (pool_at w p) = false /\
  0 <= shard_id (cache_at w c) < zlen (shards (pool_at w p)).
Proof.
  intros [Hw Hs] (v & Hv & Hp & Hcl). pose proof (wi_pool _ Hw c v p Hv Hp) as (H1 & H2 & H3).
  rewrite s_cache_shape in Hv. destruct (aget None (caches w) c) as [ca|] eqn:Ha; [|done].
  cbn in Hv. injection Hv as <-. rewrite (alive_at w c ca Ha).
  rewrite zlen_pools_shape in H1. rewrite !s_pool_shape in *.
  split_and!; try done; try apply H1; try apply H3. by apply (so_caches _ Hs c).
Qed.

Lemma shard_at_ok w p sid : world_ok w -> 0 <= p < zlen (pools w) ->
  0 <= sid < zlen (shards (pool_at w p)) -> shard_ok (shard_at (pool_at w p) sid).
Proof.
  intros [_ Hs] Hp Hsid. apply (so_shards _ Hs p); [done|].
  unfold shard_at, aget. destruct (Z.ltb_spec sid 0); [lia|]. apply list_elem_of_In, nth_In.
  unfold zlen in *. lia.
Qed.

Lemma st_all_set_perm st k l : 0 <= k < BUFFER_SIZE_CLASSES ->
  st_all (st_set st k l) ++ st k ≡ₚ l ++ st_all st.
Proof. intros Hk. destruct (st_all_set st k l Hk) as (a & b & -> & ->). perm_lia. Qed.

Lemma moved_perm sh c k stk row sh' c' : moved_to sh (shard_stacks sh) c k stk row sh' c' ->
  0 <= k < BUFFER_SIZE_CLASSES ->
  shard_bufs sh' ++ shard_stacks sh k ≡ₚ stk ++ shard_bufs sh /\
  cache_bufs c' ++ cache_row c k ≡ₚ row ++ cache_bufs c.
Proof.
  intros (Ha & _ & _ & Hr) Hk. split.
  - rewrite (abs_bufs _ _ Ha). by apply st_all_set_perm.
  - unfold cache_bufs. rewrite (st_all_ext _ _ (fun j _ => Hr j)). by apply st_all_set_perm.
Qed.

(** A transfer between a cache and its shard. *)
Lemma moves_transfer w p c k stk row sh' c' ins out : world_ok w -> attached (shape w) c p ->
  0 <= k < BUFFER_SIZE_CLASSES ->
  let ca := cache_at w c in let sh := shard_at (pool_at w p) (shard_id ca) in
  moved_to sh (shard_stacks sh) ca k stk row sh' c' ->
  ins ++ shard_stacks sh k ++ cache_row ca k ≡ₚ out ++ stk ++ row ->
  moves w (upd_cache c (fun _ => c') (upd_pool p (set_shard (shard_id ca) sh') w)) ins out.
Proof.
  intros Hw Hat Hk ca sh Hm Hperm.
  destruct (attached_alive w c p Hw Hat) as (Ha & Hok & Hcl & Hpool & Hp & Hd & Hsid).
  fold ca in Ha, Hok, Hcl, Hpool, Hsid.
  destruct (moved_perm _ _ _ _ _ _ _ Hm Hk) as [P1 P2]. destruct Hm as (Hab & Hok' & Hsame & _).
  assert (moves w (upd_pool p (set_shard (shard_id ca) sh') w) (ins ++ cache_bufs ca) (out ++ cache_bufs c')) as M1.
  { apply moves_shard; [done|done|done|by eapply abs_ok|]. fold sh. perm_lia. }
  eapply moves_perm; [|eapply moves_trans; [exact M1|
    apply (moves_cache c _ _ ca (cache_bufs c') (cache_bufs ca))]].
  - perm_lia.
  - apply M1.
  - exact Ha.
  - by apply same_cview.
  - done.
  - rewrite Hsame. cbn. rewrite Hcl, Hpool. by intros [|].
  - perm_lia.
Qed.

Lemma attached_shape w w' c p : shape w' = shape w -> attached (shape w) c p -> attached (shape w') c p.
Proof. by intros ->. Qed.

Lemma cache_refill_moves w p c k : world_ok w -> attached (shape w) c p -> 0 <= k < BUFFER_SIZE_CLASSES ->
  moves w (snd (cache_refill p c k w)) [] [] /\
  (0 < fst (cache_refill p c k w) -> 0 < tc_count (cache_at (snd (cache_refill p c k w)) c) k).
Proof.
  intros Hw Hat Hk. destruct (attached_alive w c p Hw Hat) as (Ha & Hok & Hcl & Hpool & Hp & Hd & Hsid).
  unfold cache_refill.
  pose proof (refill_loop_spec k (Z.to_nat THREAD_CACHE_BATCH_SIZE) _ _ (cache_at w c) 0
    (shard_at_ok w p _ Hw Hp Hsid) Hok Hk) as Hr. cbn zeta in Hr.
  destruct (refill_loop _ _ _ _ _) as [[n sh'] c'] eqn:El. destruct Hr as [-> Hm]. cbn [fst snd].
  set (m := Z.min _ _) in Hm |- *. split.
  - eapply moves_transfer; [done|done|done|exact Hm|].
    rewrite <- (take_drop (Z.to_nat m) (shard_stacks _ k)) at 1. perm_lia.
  - intros Hpos. rewrite (cache_at_upd c _ _ (cache_at w c)) by exact Ha.
    destruct Hm as (_ & Hok' & _ & Hrow). rewrite <- cache_row_length by done.
    rewrite Hrow, st_set_eq, zlen_app. unfold zlen at 2. rewrite length_take.
    pose proof (zlen_nonneg (cache_row (cache_at w c) k)). unfold zlen in m. lia.
Qed.

Lemma view_count size n pool : pview_of (count_buffers size n pool) = pview_of pool.
Proof. done. Qed.

Lemma moves_count p size n w : world_ok w -> moves w (upd_pool p (count_buffers size n) w) [] [].
Proof. intros Hw. by apply moves_pool. Qed.

Lemma moves_then w1 w2 w3 ins out : moves w1 w2 ins out ->
  (world_ok w2 -> moves w2 w3 [] []) -> moves w1 w3 ins out.
Proof.
  intros M H. eapply moves_perm; [|eapply moves_trans; [exact M|apply H, M]]. perm_lia.
Qed.

Lemma cache_flush_moves w p c k size : world_ok w -> attached (shape w) c p ->
  0 <= k < BUFFER_SIZE_CLASSES ->
  let w' := snd (cache_flush p c k size w) in
  moves w w' [] [] /\
  (tc_count (cache_at w' c) k = 0 \/
   tc_count (cache_at w' c) k <= tc_count (cache_at w c) k - THREAD_CACHE_BATCH_SIZE) /\
  forall j, j <> k -> cache_row (cache_at w' c) j = cache_row (cache_at w c) j.
Proof.
  intros Hw Hat Hk. destruct (attached_alive w c p Hw Hat) as (Ha & Hok & Hcl & Hpool & Hp & Hd & Hsid).
  unfold cache_flush.
  pose proof (flush_loop_spec k size (Z.to_nat (tc_count (cache_at w c) k)) _ _ (cache_at w c) 0 []
    (shard_at_ok w p _ Hw Hp Hsid) Hok Hk ltac:(pose proof (co_count _ Hok k Hk); lia)) as Hf.
  destruct (flush_loop _ _ _ _ _ _ _) as [[[n sh'] c'] tf]. cbn zeta.
  destruct Hf as (keep & fr & mv & Hrow & -> & -> & Hm & _ & Hkeep). cbn [app snd fst].
  set (w1 := upd_cache c _ _).
  assert (moves w w1 [] fr) as M1.
  { eapply moves_transfer; [done|done|done|exact Hm|]. rewrite Hrow. perm_lia. }
  assert (cache_at w1 c = c') as E1 by exact (cache_at_upd c (fun _ => c') (upd_pool _ _ w) (cache_at w c) Ha).
  set (w2 := if 0 <? zlen fr then _ else w1).
  assert (moves w w2 [] [] /\ cache_at w2 c = c') as [M2 E2].
  { unfold w2. destruct (Z.ltb_spec 0 (zlen fr)) as [_|H0].
    - split; [|exact E1]. eapply moves_perm; [|eapply moves_trans; [exact M1|]].
      2:{ eapply moves_trans; [apply moves_count, M1|apply (moves_free fr)].
          apply (moves_count p size (- zlen fr)), M1. }
      perm_lia.
    - split; [|exact E1]. assert (fr = []) as -> by (destruct fr; [done|rewrite zlen_cons in H0;
        pose proof (zlen_nonneg fr); lia]). exact M1. }
  split; [exact M2|]. rewrite E2. destruct Hm as (_ & Hok' & _ & Hr').
  split.
  - rewrite <- !cache_row_length by done. rewrite Hr', st_set_eq, Hrow, !zlen_app.
    destruct Hkeep as [->|Hge]; [by left|right]. pose proof (zlen_nonneg (reverse fr)). lia.
  - intros j Hj. rewrite Hr'. unfold st_set. by destruct (Z.eqb_spec j k).
Qed.

(** ** Cleaning a cache *)

Lemma flush_class_moves p c k n : forall w, world_ok w -> attached (shape w) c p ->
  0 <= k < BUFFER_SIZE_CLASSES -> tc_count (cache_at w c) k <= Z.of_nat n ->
  let w' := flush_class_loop p c k n w in
  moves w w' [] [] /\ tc_count (cache_at w' c) k = 0 /\
  forall j, j <> k -> cache_row (cache_at w' c) j = cache_row (cache_at w c) j.
Proof.
  induction n as [|n IH]; intros w Hw Hat Hk Hn; cbn zeta;
    destruct (attached_alive w c p Hw Hat) as (_ & Hok & _); pose proof (co_count _ Hok k Hk);
    cbn [flush_class_loop].
  - split_and!; [by apply moves_refl|lia|done].
  - destruct (Z.ltb_spec 0 (tc_count (cache_at w c) k)); [|split_and!; [by apply moves_refl|lia|done]].
    destruct (cache_flush_moves w p c k (class_to_size k) Hw Hat Hk) as (M & Hc & Hj).
    set (w1 := snd _) in *. pose proof (attached_shape w w1 c p (mv_shape _ _ _ _ M) Hat) as Hat1.
    unfold THREAD_CACHE_BATCH_SIZE in Hc.
    destruct (IH w1 ltac:(apply M) Hat1 Hk) as (M' & Hz & Hj'); [lia|].
    split_and!; [by eapply moves_then|done|]. intros j Hne. rewrite Hj' by done. by apply Hj.
Qed.

Lemma row_empty c k : cache_ok c -> 0 <= k < BUFFER_SIZE_CLASSES -> tc_count c k = 0 -> cache_row c k = [].
Proof. intros Hc Hk H. apply row_nil; [done|done|lia]. Qed.

Lemma rows_empty c : (forall j, 0 <= j < BUFFER_SIZE_CLASSES -> cache_row c j = []) -> cache_bufs c = [].
Proof.
  intros H. unfold cache_bufs. rewrite (st_all_ext _ (fun _ => []) H). done.
Qed.

Lemma flush_classes_moves p c n : forall k w, world_ok w -> attached (shape w) c p ->
  0 <= k -> k + Z.of_nat n = BUFFER_SIZE_CLASSES ->
  (forall j, 0 <= j < k -> cache_row (cache_at w c) j = []) ->
  let w' := flush_classes p c k n w in
  moves w w' [] [] /\ cache_bufs (cache_at w' c) = [].
Proof.
  induction n as [|n IH]; intros k w Hw Hat H0 Hn Hz; cbn [flush_classes]; cbn zeta.
  - split; [by apply moves_refl|]. apply rows_empty. intros j Hj. apply Hz. lia.
  - destruct (attached_alive w c p Hw Hat) as (_ & Hok & _).
    destruct (flush_class_moves p c k (Z.to_nat (tc_count (cache_at w c) k)) w Hw Hat ltac:(lia))
      as (M & Hc & Hj).
    { pose proof (co_count _ Hok k ltac:(lia)). lia. }
    set (w1 := flush_class_loop _ _ _ _ _) in *.
    pose proof (attached_shape w w1 c p (mv_shape _ _ _ _ M) Hat) as Hat1.
    destruct (attached_alive w1 c p ltac:(apply M) Hat1) as (_ & Hok1 & _).
    destruct (IH (k + 1) w1 ltac:(apply M) Hat1) as [M' Hb]; [lia|lia| |].
    { intros j Hjk. destruct (decide (j = k)) as [->|Hne]; [apply row_empty; [done|lia|done]|].
      rewrite Hj by done. apply Hz. lia. }
    split; [by eapply moves_then|done].
Qed.

(** The world after freeing the buffers of [cache_row] [k], ... of a cache; no
    pool is needed for it. *)
Lemma free_class_moves pool w c ca k : world_ok w -> alive w c ca -> 0 <= k < BUFFER_SIZE_CLASSES ->
  let w1 := free_bufs (cache_row ca k) w in
  let w2 := match pool with
            | Some p => upd_pool p (count_buffers (class_to_size k) (- tc_count ca k)) w1
            | None => w1 end in
  let ca' := ca <| counts := aset (counts ca) k 0 |> in
  let w' := upd_cache c (fun ca => ca <| counts := aset (counts ca) k 0 |>) w2 in
  moves w w' [] [] /\ alive w' c ca' /\ cache_row ca' k = [] /\
  forall j, j <> k -> cache_row ca' j = cache_row ca j.
Proof.
  intros Hw Ha Hk w1 w2 ca' w'. pose proof (wo_stored _ Hw) as Hs.
  destruct (so_caches _ Hs c ca Ha) as [Hok Hcl].
  assert (forall j, j <> k -> cache_row ca' j = cache_row ca j) as Hne.
  { intros j Hj. unfold cache_row, tc_count, ca'. cbn. by rewrite aget_aset_ne by congruence. }
  assert (cache_row ca' k = []) as Hnil.
  { unfold cache_row, tc_count, ca'. cbn. rewrite aget_aset_eq; [done|]. by rewrite (co_counts _ Hok). }
  assert (moves w w2 (cache_row ca k) []) as M2.
  { unfold w2. destruct pool as [p|]; [|by apply moves_free].
    eapply moves_then; [by apply moves_free|]. intros H. by apply moves_count. }
  assert (alive w2 c ca) as Ha2 by (unfold w2; destruct pool; exact Ha).
  assert (cache_ok ca') as Hok'.
  { split; cbn.
    - rewrite zlen_aset. apply Hok.
    - apply Hok.
    - intros j Hj. unfold tc_count. cbn. destruct (decide (j = k)) as [->|Hjk].
      + rewrite aget_aset_eq by (rewrite (co_counts _ Hok); done). done.
      + rewrite aget_aset_ne by congruence. by apply (co_count _ Hok).
    - by apply (co_row _ Hok). }
  assert (cache_bufs ca' ++ cache_row ca k ≡ₚ cache_bufs ca) as Hp.
  { unfold cache_bufs. rewrite (st_all_ext (cache_row ca') (st_set (cache_row ca) k [])).
    - apply (st_all_set_perm (cache_row ca) k [] Hk).
    - intros j _. unfold st_set. destruct (Z.eqb_spec j k) as [->|Hjk]; [done|by apply Hne]. }
  split_and!; [|exact (alive_upd c (fun ca => ca <| counts := aset (counts ca) k 0 |>) w2 ca Ha2)|done|done].
  eapply moves_perm; [|eapply moves_trans; [exact M2|
    apply (moves_cache c (fun ca => ca <| counts := aset (counts ca) k 0 |>) w2 ca [] (cache_row ca k))]].
  - perm_lia.
  - apply M2.
  - done.
  - done.
  - exact Hok'.
  - intros Hc. apply rows_empty. intros j Hj. fold ca'. destruct (decide (j = k)) as [->|Hjk]; [done|].
    rewrite Hne by done. specialize (Hcl Hc). unfold cache_bufs in Hcl.
    destruct (st_all_set (cache_row ca) j [] Hj) as (a & b & E & _). rewrite E in Hcl.
    apply app_nil in Hcl as [_ Hcl]. by apply app_nil in Hcl as [-> _].
  - fold ca'. perm_lia.
Qed.

Lemma free_classes_moves pool c n : forall k w ca, world_ok w -> alive w c ca ->
  0 <= k -> k + Z.of_nat n = BUFFER_SIZE_CLASSES ->
  (forall j, 0 <= j < k -> cache_row ca j = []) ->
  let w' := free_classes pool c k n w in
  moves w w' [] [] /\ exists ca', alive w' c ca' /\ cache_bufs ca' = [].
Proof.
  induction n as [|n IH]; intros k w ca Hw Ha H0 Hn Hz; cbn [free_classes]; cbn zeta.
  - split; [by apply moves_refl|]. exists ca. split; [done|]. apply rows_empty. intros j Hj. apply Hz. lia.
  - rewrite (alive_at _ _ _ Ha). destruct (so_caches _ (wo_stored _ Hw) c ca Ha) as [Hok _].
    destruct (Z.ltb_spec 0 (tc_count ca k)).
    + destruct (free_class_moves pool w c ca k Hw Ha ltac:(lia)) as (M & Ha' & Hnil & Hne).
      set (w1 := upd_cache c _ _) in *.
      destruct (IH (k + 1) w1 _ ltac:(apply M) Ha') as [M' Hc']; [lia|lia| |].
      * intros j Hj. destruct (decide (j = k)) as [->|Hjk]; [done|]. rewrite Hne by done. apply Hz. lia.
      * split; [by eapply moves_then|done].
    + apply (IH (k + 1) w ca); try done; try lia. intros j Hj.
      destruct (decide (j = k)) as [->|Hjk]; [|apply Hz; lia]. apply row_nil; [done|lia|lia].
Qed.

(** ** Rewiring *)

Lemma clist_ext s s' l : forall h, (forall c, c ∈ l -> v_next <$> s_cache s' c = v_next <$> s_cache s c) ->
  clist s h l -> clist s' h l.
Proof.
  induction l as [|c l IH]; intros h H Hc; [done|]. destruct Hc as (-> & v & Hv & Hl).
  pose proof (H c ltac:(by left)) as E. rewrite Hv in E. cbn in E.
  destruct (s_cache s' c) as [v'|] eqn:Ev'; [|done]. cbn in E. injection E as E.
  split; [done|]. exists v'. rewrite E. split; [done|]. apply IH; [|done]. intros d Hd. apply H. by right.
Qed.

(** The marks of a cache are not part of the wiring. *)
Definition same_wire (v v' : cview) : Prop :=
  v_pool v' = v_pool v /\ v_next v' = v_next v /\ v_owner v' = v_owner v /\ v_shard v' = v_shard v.

(** [s'] has the caches of [s], orphans it forgot apart, and thread pointers
    of [s] that still lead to a cache of a running thread. *)
Record less_wired (s s' : shape_t) : Prop := {
  lw_pools : s_pools s' = s_pools s;
  lw_valid : s_valid s' = s_valid s;
  lw_len : length (s_tls s') = length (s_tls s) /\ length (s_key s') = length (s_key s);
  lw_back : forall c v', s_cache s' c = Some v' -> exists v, s_cache s c = Some v /\ same_wire v v';
  lw_forth : forall c v, s_cache s c = Some v ->
    (exists v', s_cache s' c = Some v' /\ same_wire v v') \/ (s_cache s' c = None /\ v_pool v = None);
  lw_tls : forall t c, aget None (s_tls s') t = Some c -> aget None (s_tls s) t = Some c /\
    exists v', s_cache s' c = Some v' /\ v_exited v' = false;
  lw_key : forall t c, aget None (s_key s') t = Some c -> aget None (s_key s) t = Some c /\
    exists v', s_cache s' c = Some v' /\ v_exited v' = false
}.

Lemma wired_less s s' : less_wired s s' -> wired s -> wired s'.
Proof.
  intros [Ep Ev [El1 El2] Hb Hf Ht Hk] [W1 W2 W3 W4 W5 W6].
  assert (forall p, s_pool s' p = s_pool s p) as Hp by (intros p; unfold s_pool; by rewrite Ep).
  split.
  - intros p. rewrite Ep, Hp. apply W1.
  - intros c v' p Hv' Hpool. rewrite Ep, Hp. destruct (Hb c v' Hv') as (v & Hv & S1 & S2 & S3 & S4).
    rewrite S4. apply (W2 c v); [done|congruence].
  - intros p. rewrite Ep, Hp. intros Hr. destruct (W3 p Hr) as (l & Hnd & Hl & Hin).
    assert (forall c v, s_cache s c = Some v -> v_pool v = Some p ->
      exists v', s_cache s' c = Some v' /\ same_wire v v') as Hkeep.
    { intros c v Hv Hvp. destruct (Hf c v Hv) as [?|[_ ?]]; [done|congruence]. }
    exists l. split_and!; [done| |].
    + eapply clist_ext; [|exact Hl]. intros c Hc. apply Hin in Hc as (v & Hv & Hvp).
      destruct (Hkeep c v Hv Hvp) as (v' & -> & _ & S & _). rewrite Hv. cbn. by rewrite S.
    + intros c. rewrite Hin. split; intros (v & Hv & Hvp).
      * destruct (Hkeep c v Hv Hvp) as (v' & Hv' & S & _). exists v'. split; [done|congruence].
      * destruct (Hb c v Hv) as (v' & Hv' & S & _). exists v'. split; [done|congruence].
  - congruence.
  - intros t c H. destruct (Ht t c H) as [Htc (v' & Hv' & He)].
    destruct (W5 t c Htc) as ((v & Hv & Ho & _) & Hkey). split.
    + exists v'. split_and!; [done| |done]. destruct (Hb c v' Hv') as (v2 & Hv2 & _ & _ & S & _). congruence.
    + rewrite Ev. intros Hval. destruct (aget None (s_key s') t) as [d|] eqn:E; [|by right].
      destruct (Hk t d E) as [Hd _]. destruct (Hkey Hval); left; congruence.
  - intros t c H. destruct (Hk t c H) as [Htc (v' & Hv' & He)].
    destruct (W6 t c Htc) as (Hval & v & Hv & Ho & _). rewrite Ev. split; [done|].
    exists v'. split_and!; [done| |done]. destruct (Hb c v' Hv') as (v2 & Hv2 & _ & _ & S & _). congruence.
Qed.

Lemma s_cache_upd w c f ca d : alive w c ca ->
  s_cache (shape (upd_cache c f w)) d = if d =? c then Some (cview_of (f ca)) else s_cache (shape w) d.
Proof.
  intros Ha. rewrite !s_cache_shape. destruct (Z.eqb_spec d c) as [->|Hne].
  - pose proof (alive_upd c f w ca Ha) as Ha'. unfold alive in Ha'. by rewrite Ha'.
  - unfold upd_cache. cbn. by rewrite aget_aset_ne by congruence.
Qed.

(** Setting a mark of cache [c]; its thread's pointers go when it exits. *)
Lemma less_remark s s' c v v1 : s_cache s c = Some v ->
  (forall d, s_cache s' d = if d =? c then Some v1 else s_cache s d) -> same_wire v v1 ->
  v_exited v1 = v_exited v -> s_pools s' = s_pools s -> s_valid s' = s_valid s ->
  s_tls s' = s_tls s -> s_key s' = s_key s -> wired s -> less_wired s s'.
Proof.
  intros Hc Hd Hs He Ep Ev Et Ek Hw.
  assert (forall d v, s_cache s d = Some v -> v_exited v = false ->
    exists v', s_cache s' d = Some v' /\ v_exited v' = false) as Hex.
  { intros d v2 Hv2 He2. rewrite Hd. destruct (Z.eqb_spec d c) as [->|]; [|by exists v2].
    exists v1. split; [done|congruence]. }
  split; rewrite ?Ep, ?Ev, ?Et, ?Ek; try done.
  - intros d v'. rewrite Hd. destruct (Z.eqb_spec d c) as [->|]; [|by exists v'].
    intros [= <-]. by exists v.
  - intros d v'. rewrite Hd. destruct (Z.eqb_spec d c) as [->|]; [|left; by exists v'].
    rewrite Hc. intros [= <-]. left. by exists v1.
  - intros t d H. split; [done|]. destruct (wi_tls _ Hw t d H) as ((v2 & Hv2 & _ & He2) & _). by eapply Hex.
  - intros t d H. split; [done|]. destruct (wi_key _ Hw t d H) as (_ & v2 & Hv2 & _ & He2). by eapply Hex.
Qed.

(** Changes of a cache's fields that leave its arrays alone. *)
Lemma stored_mark c f w ca : stored_ok w -> alive w c ca ->
  counts (f ca) = counts ca -> tc_buffers (f ca) = tc_buffers ca ->
  (cleaned_up (f ca) = true \/ tc_pool (f ca) = None -> cache_bufs ca = []) ->
  stored_ok (upd_cache c f w) /\ ledger (upd_cache c f w) ≡ₚ ledger w.
Proof.
  intros Hs Ha Ec Eb Hcl. set (w' := upd_cache c f w) in *.
  assert (cache_bufs (f ca) = cache_bufs ca) as Ebufs.
  { unfold cache_bufs, cache_row, tc_count. by rewrite Ec, Eb. }
  split.
  - split; [apply Hs|]. intros d da. destruct (decide (d = c)) as [->|Hne].
    + pose proof (alive_upd c f w ca Ha) as Ha'. fold w' in Ha'. unfold alive in Ha'.
      rewrite Ha'. intros [= <-]. rewrite Ebufs. split; [|done].
      destruct (so_caches _ Hs c ca Ha) as [Hok _]. split; unfold tc_count; rewrite ?Ec, ?Eb; apply Hok.
    + unfold w', upd_cache. cbn. rewrite aget_aset_ne by congruence. apply Hs.
  - pose proof (pooled_upd_cache c f w ca Ha) as H1. fold w' in H1. rewrite Ebufs in H1.
    unfold ledger. change (freed w') with (freed w). change (heap_left w') with (heap_left w). perm_lia.
Qed.

Lemma evolves_mark c f w ca : world_ok w -> alive w c ca ->
  counts (f ca) = counts ca -> tc_buffers (f ca) = tc_buffers ca ->
  (cleaned_up (f ca) = true \/ tc_pool (f ca) = None -> cache_bufs ca = []) ->
  wired (shape (upd_cache c f w)) -> evolves w (upd_cache c f w) [] [].
Proof.
  intros [_ Hs] Ha Ec Eb Hcl Hw'. destruct (stored_mark c f w ca Hs Ha Ec Eb Hcl) as [Hs' P].
  split; [by split|perm_lia|done].
Qed.

(** Cleaning a cache moves its buffers to the shard or frees them. Afterwards
    the cache is empty and marked; its other fields are as before. *)
Lemma mark_cleaned c w ca : world_ok w -> alive w c ca -> cache_bufs ca = [] ->
  evolves w (upd_cache c (fun ca => ca <| cleaned_up := true |>) w) [] [].
Proof.
  intros Hok Ha Hb. apply (evolves_mark c _ w ca); try done. destruct Hok as [Hw Hs].
  apply (wired_less (shape w)); [|done].
  apply (less_remark _ _ c (cview_of ca) (cview_of (ca <| cleaned_up := true |>))); try done.
  - rewrite s_cache_shape. by rewrite Ha.
  - intros d. by apply s_cache_upd.
Qed.

(** What cleaning cache [c] does. *)
Definition cleans (w w' : world) (c : Z) (ca : thread_cache_t) : Prop :=
  evolves w w' [] [] /\ s_pools (shape w') = s_pools (shape w) /\ s_tls (shape w') = s_tls (shape w) /\
  s_key (shape w') = s_key (shape w) /\ s_valid (shape w') = s_valid (shape w) /\
  length (caches w') = length (caches w) /\
  (exists ca', alive w' c ca' /\ cview_of ca' = cview_of (ca <| cleaned_up := true |>) /\ cache_bufs ca' = []) /\
  forall d, d <> c -> s_cache (shape w') d = s_cache (shape w) d.

Lemma shape_length w w' : shape w' = shape w -> length (caches w') = length (caches w).
Proof.
  intros H. pose proof (f_equal (fun s => length (s_caches s)) H) as E. cbn in E. by rewrite !length_map in E.
Qed.

Lemma alive_shape w w' c ca : shape w' = shape w -> alive w c ca ->
  exists ca', alive w' c ca' /\ cview_of ca' = cview_of ca.
Proof.
  intros E Ha. pose proof (s_cache_shape w c) as H. rewrite Ha, <- E, s_cache_shape in H.
  destruct (aget None (caches w') c) as [ca'|] eqn:E'; [|done]. cbn in H. apply (inj Some) in H.
  by exists ca'.
Qed.

Lemma cleans_mark w w1 c ca : alive w c ca -> moves w w1 [] [] -> cache_bufs (cache_at w1 c) = [] ->
  cleans w (upd_cache c (fun ca => ca <| cleaned_up := true |>) w1) c ca.
Proof.
  intros Ha [E S] Hb. destruct (alive_shape w w1 c ca S Ha) as (ca1 & Ha1 & Hv).
  rewrite (alive_at _ _ _ Ha1) in Hb.
  pose proof (mark_cleaned c w1 ca1 ltac:(apply E) Ha1 Hb) as M.
  set (w2 := upd_cache c _ w1) in *.
  unfold cleans. split_and!.
  - eapply evolves_perm; [|eapply evolves_trans; [exact E|exact M]]. perm_lia.
  - by rewrite <- S.
  - by rewrite <- S.
  - by rewrite <- S.
  - by rewrite <- S.
  - unfold w2, upd_cache. cbn. rewrite length_aset. by apply shape_length.
  - exists (ca1 <| cleaned_up := true |>). split_and!; [|unfold cview_of in *; cbn; congruence|exact Hb].
    exact (alive_upd c (fun ca => ca <| cleaned_up := true |>) w1 ca1 Ha1).
  - intros d Hd. unfold w2. rewrite (s_cache_upd w1 c _ ca1 d Ha1), <- S.
    by destruct (Z.eqb_spec d c).
Qed.

Lemma cleans_already w c ca : world_ok w -> alive w c ca -> cleaned_up ca = true -> cleans w w c ca.
Proof.
  intros Hw Ha Hcl. unfold cleans. split_and!; try done.
  exists ca. split_and!; [done| |apply (so_caches _ (wo_stored _ Hw) c ca); auto].
  destruct ca. cbn in *. by subst.
Qed.

Lemma cleanup_free pool c w ca : world_ok w -> alive w c ca ->
  cleans w (cleanup_cache_buffers_locked pool c CACHE_CLEANUP_FREE w) c ca.
Proof.
  intros Hw Ha. unfold cleanup_cache_buffers_locked. rewrite (alive_at _ _ _ Ha).
  destruct (cleaned_up ca) eqn:Hcl; [by apply cleans_already|].
  destruct (free_classes_moves pool c (Z.to_nat BUFFER_SIZE_CLASSES) 0 w ca Hw Ha) as (M & ca' & Ha' & Hb);
    [done|done|lia|].
  apply cleans_mark; [done|exact M|]. by rewrite (alive_at _ _ _ Ha').
Qed.

Lemma cleanup_flush p c w ca : world_ok w -> alive w c ca -> tc_pool ca = Some p ->
  cleans w (cleanup_cache_buffers_locked (Some p) c CACHE_CLEANUP_FLUSH w) c ca.
Proof.
  intros Hw Ha Hp. unfold cleanup_cache_buffers_locked. rewrite (alive_at _ _ _ Ha).
  destruct (cleaned_up ca) eqn:Hcl; [by apply cleans_already|].
  destruct (flush_classes_moves p c (Z.to_nat BUFFER_SIZE_CLASSES) 0 w Hw) as [M Hb]; [|done|done|lia|].
  { exists (cview_of ca). rewrite s_cache_shape, Ha. by split_and!. }
  by apply cleans_mark.
Qed.

Lemma aget_aset_none {A} (l : list (option A)) t u c : aget None (aset l t None) u = Some c ->
  u <> t /\ aget None l u = Some c.
Proof.
  destruct (decide (t = u)) as [<-|Hne]; [|rewrite aget_aset_ne by done; auto].
  intros H. exfalso. pose proof (aget_some_range _ _ _ H) as Hr. rewrite zlen_aset in Hr.
  by rewrite aget_aset_eq in H.
Qed.

(** Dropping the pointers of thread [t]. *)
Definition forget (t : Z) (w : world) : world := setspecific t None (set_tls t None w).

Lemma forget_shape t w : shape (forget t w) =
  {| s_pools := s_pools (shape w); s_caches := s_caches (shape w);
     s_tls := aset (s_tls (shape w)) t None;
     s_key := if s_valid (shape w) then aset (s_key (shape w)) t None else s_key (shape w);
     s_valid := s_valid (shape w) |}.
Proof.
  unfold forget, setspecific. change (tls_key_valid (set_tls t None w)) with (tls_key_valid w).
  change (s_valid (shape w)) with (tls_key_valid w). by destruct (tls_key_valid w) eqn:E; unfold shape; cbn; rewrite E.
Qed.

Lemma forget_key t w u c : wired (shape w) -> aget None (s_key (shape (forget t w))) u = Some c ->
  u <> t /\ aget None (s_key (shape w)) u = Some c.
Proof.
  intros Hw. rewrite forget_shape. cbn [s_key]. destruct (s_valid (shape w)) eqn:E.
  - apply aget_aset_none.
  - intros H. destruct (wi_key _ Hw u c H). congruence.
Qed.

Lemma forget_less t w s' : wired (shape w) -> s_pools s' = s_pools (shape w) ->
  s_tls s' = s_tls (shape (forget t w)) -> s_key s' = s_key (shape (forget t w)) ->
  s_valid s' = s_valid (shape w) ->
  (forall c v', s_cache s' c = Some v' -> exists v, s_cache (shape w) c = Some v /\ same_wire v v') ->
  (forall c v, s_cache (shape w) c = Some v ->
    (exists v', s_cache s' c = Some v' /\ same_wire v v' /\ (v_owner v <> t -> v_exited v' = v_exited v)) \/
    (s_cache s' c = None /\ v_pool v = None /\ v_owner v = t)) ->
  less_wired (shape w) s'.
Proof.
  intros Hw Ep Et Ek Ev Hb Hf.
  assert (forall u c v, u <> t -> s_cache (shape w) c = Some v -> v_owner v = u -> v_exited v = false ->
    exists v', s_cache s' c = Some v' /\ v_exited v' = false) as Hex.
  { intros u c v Hu Hv Ho He. destruct (Hf c v Hv) as [(v' & Hv' & _ & H)|(_ & _ & H)]; [|congruence].
    exists v'. split; [done|]. rewrite H; congruence. }
  split; rewrite ?Et, ?Ek; try done.
  - rewrite forget_shape. cbn [s_tls s_key].
    destruct (s_valid (shape w)); by rewrite ?length_aset.
  - intros c v Hv. destruct (Hf c v Hv) as [(v' & ? & ? & _)|(? & ? & _)]; [left; by exists v'|by right].
  - intros u c. rewrite forget_shape. cbn [s_tls]. intros H. apply aget_aset_none in H as [Hu H].
    split; [done|]. destruct (wi_tls _ Hw u c H) as ((v & Hv & Ho & He) & _). by apply (Hex u c v).
  - intros u c H. apply forget_key in H as [Hu H]; [|done].
    split; [done|]. destruct (wi_key _ Hw u c H) as (_ & v & Hv & Ho & He). by apply (Hex u c v).
Qed.

Lemma evolves_forget t w : world_ok w -> evolves w (forget t w) [] [].
Proof.
  intros [Hw Hs]. assert (pools (forget t w) = pools w /\ caches (forget t w) = caches w /\
    freed (forget t w) = freed w /\ heap (forget t w) = heap w) as (E1 & E2 & E3 & E4).
  { unfold forget, setspecific. by destruct (tls_key_valid _). }
  apply evolves_wiring; [done|done..|]. apply (wired_less (shape w)); [|done].
  apply (forget_less t); try done; rewrite ?forget_shape; try done.
  - intros c v' H. exists v'. by split_and!.
  - intros c v H. left. exists v. by split_and!.
Qed.

Lemma s_cache_free w c d : s_cache (shape (free_cache c w)) d = if d =? c then None else s_cache (shape w) d.
Proof.
  rewrite !s_cache_shape. unfold free_cache. cbn. destruct (Z.eqb_spec d c) as [->|Hne].
  - destruct (aget None (aset (caches w) c None) c) eqn:E; [|done].
    by apply aget_aset_none in E as [? _].
  - by rewrite aget_aset_ne by congruence.
Qed.

(** Freeing an empty cache. *)
Lemma evolves_drop w w' c ca : world_ok w -> alive w c ca -> cache_bufs ca = [] ->
  pools w' = pools w -> caches w' = aset (caches w) c None -> freed w' = freed w -> heap w' = heap w ->
  wired (shape w') -> evolves w w' [] [].
Proof.
  intros [Hw Hs] Ha Hb Ep Ec Ef Eh Hw'. split.
  - split; [done|]. split.
    + unfold pool_at. rewrite Ep. apply Hs.
    + intros d da. rewrite Ec. intros H. apply (so_caches _ Hs d).
      destruct (decide (d = c)) as [->|Hne]; [|by rewrite aget_aset_ne in H by congruence].
      by apply aget_aset_none in H as [? _].
  - unfold ledger, pooled, heap_left. rewrite Ep, Ec, Ef, Eh.
    pose proof (concat_map_aset cached None (caches w) c None ltac:(by eapply aget_some_range)) as H.
    rewrite Ha in H. cbn in H. rewrite Hb in H. perm_lia.
  - unfold counters. by rewrite Ep.
Qed.

Lemma evolves_forget_free w c ca t : world_ok w -> alive w c ca -> tc_pool ca = None ->
  owner_thread ca = t -> evolves w (forget t (free_cache c w)) [] [].
Proof.
  intros Hok Ha Hp Ho. destruct Hok as [Hw Hs].
  assert (pools (forget t (free_cache c w)) = pools w /\
    caches (forget t (free_cache c w)) = aset (caches w) c None /\
    freed (forget t (free_cache c w)) = freed w /\ heap (forget t (free_cache c w)) = heap w)
    as (E1 & E2 & E3 & E4).
  { unfold forget, setspecific. by destruct (tls_key_valid _). }
  eapply (evolves_drop w _ c ca); try done; [by apply (so_caches _ Hs c ca); auto|].
  apply (wired_less (shape w)); [|done].
  assert (forall d, s_cache (shape (forget t (free_cache c w))) d =
    if d =? c then None else s_cache (shape w) d) as Hd.
  { intros d. rewrite <- s_cache_free. unfold s_cache at 1. by rewrite forget_shape. }
  apply (forget_less t); try done.
  - by rewrite forget_shape.
  - by rewrite !forget_shape.
  - by rewrite !forget_shape.
  - by rewrite forget_shape.
  - intros d v'. rewrite Hd. destruct (Z.eqb_spec d c) as [->|]; [done|]. intros H. exists v'. by split_and!.
  - intros d v. rewrite Hd. intros H. destruct (Z.eqb_spec d c) as [->|].
    + right. rewrite s_cache_shape, Ha in H. cbn in H. apply (inj Some) in H as <-. done.
    + left. exists v. by split_and!.
Qed.

(** ** Finding the thread's cache *)

(** [p] is the address of a pool that was initialised. *)
Definition serving (s : shape_t) (p : Z) : Prop :=
  0 <= p < zlen (s_pools s) /\ (v_destroyed (s_pool s p) = false -> 0 < v_shards (s_pool s p)).

(** The pools are as they were, their lists of caches apart. *)
Definition same_pools (s s' : shape_t) : Prop :=
  zlen (s_pools s') = zlen (s_pools s) /\ forall p,
    v_destroyed (s_pool s' p) = v_destroyed (s_pool s p) /\ v_shards (s_pool s' p) = v_shards (s_pool s p).

Lemma same_pools_eq s s' : s_pools s' = s_pools s -> same_pools s s'.
Proof. intros E. split; [by rewrite E|]. intros p. unfold s_pool. by rewrite E. Qed.

Lemma same_pools_trans s1 s2 s3 : same_pools s1 s2 -> same_pools s2 s3 -> same_pools s1 s3.
Proof.
  intros [H1 H2] [H3 H4]. split; [congruence|]. intros p. destruct (H2 p), (H4 p). split; congruence.
Qed.

Lemma serving_same s s' p : same_pools s s' -> serving s p -> serving s' p.
Proof. intros [E H] [Hr Hd]. destruct (H p) as [E1 E2]. split; [by rewrite E|]. by rewrite E1, E2. Qed.

Record world_inv (w : world) : Prop := { wv_ok : world_ok w; wv_fresh : tls_fresh (shape w) }.

(** A step between operations. *)
Definition steps_to (w w' : world) (ins out : list Z) : Prop :=
  evolves w w' ins out /\ tls_fresh (shape w') /\ same_pools (shape w) (shape w').

Lemma steps_inv w w' ins out : steps_to w w' ins out -> world_inv w'.
Proof. intros (E & F & _). split; [apply E|done]. Qed.

Lemma steps_trans w1 w2 w3 i1 o1 i2 o2 :
  steps_to w1 w2 i1 o1 -> steps_to w2 w3 i2 o2 -> steps_to w1 w3 (i1 ++ i2) (o1 ++ o2).
Proof.
  intros (E1 & _ & P1) (E2 & F2 & P2). split; [by eapply evolves_trans|]. split; [done|].
  by eapply same_pools_trans.
Qed.

Lemma steps_moves w w' ins out : tls_fresh (shape w) -> moves w w' ins out -> steps_to w w' ins out.
Proof.
  intros F [E S]. split; [done|]. rewrite S. split; [done|]. by apply same_pools_eq.
Qed.

Lemma evolves_nil w1 w2 w3 : evolves w1 w2 [] [] -> evolves w2 w3 [] [] -> evolves w1 w3 [] [].
Proof. intros E1 E2. by apply (evolves_trans w1 w2 w3 [] [] [] []). Qed.

(** After thread [t] dropped its pointers, a change of its own cache [c] does
    not matter. *)
Lemma fresh_forget t c w w' : wired (shape w) -> tls_fresh (shape w) ->
  s_tls (shape w') = s_tls (shape (forget t w)) ->
  (forall v, s_cache (shape w) c = Some v -> v_owner v = t) ->
  (forall d, d <> c -> s_cache (shape w') d = s_cache (shape w) d) -> tls_fresh (shape w').
Proof.
  intros Hw Hf Et Ho Hd u d v H Hv Hp. rewrite Et, forget_shape in H. cbn [s_tls] in H.
  apply aget_aset_none in H as [Hu H]. destruct (decide (d = c)) as [->|Hne].
  - destruct (wi_tls _ Hw u c H) as ((v0 & Hv0 & Hov & _) & _). specialize (Ho v0 Hv0). congruence.
  - rewrite Hd in Hv by done. by apply (Hf u d).
Qed.

Lemma destroyed_active p n w q : destroyed (pool_at (active_users_add p n w) q) = destroyed (pool_at w q).
Proof. by apply pool_at_upd_proj. Qed.

Lemma leave_old_pool_steps c tid w : world_inv w -> tls_at w tid = Some c ->
  steps_to w (leave_old_pool c tid w) [] [].
Proof.
  intros [Hok Hf] Ht. pose proof Hok as [Hw Hs].
  destruct (wi_tls _ Hw tid c Ht) as ((v & Hv & Ho & He) & _).
  pose proof Hv as Hv'. rewrite s_cache_shape in Hv'.
  destruct (aget None (caches w) c) as [ca|] eqn:Ha; [|done]. cbn in Hv'.
  assert (v = cview_of ca) as -> by congruence. clear Hv'.
  unfold leave_old_pool. rewrite (alive_at w c ca Ha). fold (forget tid).
  assert (forall v, s_cache (shape w) c = Some v -> v_owner v = tid) as Hown by congruence.
  destruct (tc_pool ca) as [old|] eqn:Ep.
  - destruct (wi_pool _ Hw c _ old Hv Ep) as (Hr & Hd & _). rewrite zlen_pools_shape in Hr.
    rewrite s_pool_shape in Hd. cbn in Hd.
    cbv zeta. rewrite destroyed_active, Hd.
    pose proof (recounted_active old 1 w Hok) as R.
    assert (alive (active_users_add old 1 w) c ca) as Ha1 by exact Ha.
    pose proof (cleanup_flush old c _ ca (rc_ok _ _ _ R) Ha1 Ep) as C.
    set (w2 := cleanup_cache_buffers_locked _ _ _ _) in *.
    destruct C as (E & C1 & C2 & C3 & C4 & _ & _ & C6). rewrite (rc_shape _ _ _ R) in *.
    pose proof (evolves_active old w w2 [] [] Hok E) as E'.
    assert (shape (active_users_add old (-1) w2) = shape w2) as E2 by apply shape_upd_pool, eq_refl.
    set (w3 := active_users_add old (-1) w2) in *.
    assert (steps_to w (forget tid w3) [] []); [|exact H].
    split; [eapply evolves_nil; [exact E'|apply evolves_forget, E']|]. split.
    + apply (fresh_forget tid c w _ Hw Hf).
      * rewrite !forget_shape. cbn [s_tls]. by rewrite E2, C2.
      * done.
      * intros d Hd'. rewrite <- C6 by done. unfold s_cache. rewrite forget_shape. cbn [s_caches]. by rewrite E2.
    + apply same_pools_eq. rewrite forget_shape. cbn [s_pools]. by rewrite E2.
  - assert (steps_to w (forget tid (free_cache c w)) [] []); [|exact H].
    split; [by eapply evolves_forget_free|]. split.
    + apply (fresh_forget tid c w _ Hw Hf).
      * by rewrite !forget_shape.
      * done.
      * intros d Hd. unfold s_cache at 1. rewrite forget_shape. cbn [s_caches].
        pose proof (s_cache_free w c d) as E. rewrite (proj2 (Z.eqb_neq d c) Hd) in E. exact E.
    + apply same_pools_eq. by rewrite forget_shape.
Qed.
