(* ===== verification/BufPoolOps.v ===== *)
(** * Allocation, free and thread exit

    The operations of the buffer pool as steps of the world: each keeps the
    invariants of [BufPoolInv] and moves buffers between the client, the pool,
    the allocator and the freed ones, and none is lost or handed out twice. *)
From Stdlib Require Import ZArith Lia List.
From stdpp Require Import base tactics list.
From S2P Require Import Prelude BufSize BufMap BufPool BufShardSpec BufPoolInv BufPoolSpec.

#[local] Open Scope Z_scope.

(** ** Registering a cache *)

Lemma aget_snoc {A} (d : A) l x i : aget d (l ++ [x]) i = if i =? zlen l then x else aget d l i.
Proof.
  unfold aget, zlen. destruct (Z.ltb_spec i 0); [by destruct (Z.eqb_spec i (Z.of_nat (length l))); [lia|]|].
  destruct (Z.eqb_spec i (Z.of_nat (length l))) as [->|Hne].
  - rewrite Nat2Z.id, app_nth2 by lia. by rewrite Nat.sub_diag.
  - destruct (decide (Z.to_nat i < length l)%nat).
    + by rewrite app_nth1.
    + rewrite !nth_overflow; [done|lia|]. rewrite length_app. cbn. lia.
Qed.

(** [register_cache] once the cache is allocated. *)
Definition attach_cache (p tid sid : Z) (w : world) : world :=
  let c := zlen (caches w) in
  let cache := {| tc_pool := Some p; tc_pool_id := pool_id (pool_at w p);
                  tc_next := thread_caches (pool_at w p); owner_thread := tid;
                  shard_id := sid; counts := counts cache_zero;
                  tc_buffers := tc_buffers cache_zero;
                  cleaned_up := false; thread_exited := false |} in
  let w := w <| caches := caches w ++ [Some cache] |> in
  let w := upd_pool p (fun pool => pool <| thread_caches := Some c |>) w in
  set_tls tid (Some c) (setspecific tid (Some c) w).

Definition attached_view (p tid sid : Z) (w : world) : cview :=
  {| v_pool := Some p; v_next := v_list (s_pool (shape w) p); v_owner := tid; v_shard := sid;
     v_cleaned := false; v_exited := false |}.

Lemma attach_shape p tid sid w : shape (attach_cache p tid sid w) =
  {| s_pools := aset (s_pools (shape w)) p
       {| v_destroyed := v_destroyed (s_pool (shape w) p); v_shards := v_shards (s_pool (shape w) p);
          v_mask := v_mask (s_pool (shape w) p); v_list := Some (zlen (caches w)) |};
     s_caches := s_caches (shape w) ++ [Some (attached_view p tid sid w)];
     s_tls := aset (s_tls (shape w)) tid (Some (zlen (caches w)));
     s_key := if s_valid (shape w) then aset (s_key (shape w)) tid (Some (zlen (caches w)))
              else s_key (shape w);
     s_valid := s_valid (shape w) |}.
Proof.
  unfold attach_cache, attached_view. rewrite !s_pool_shape. unfold setspecific, set_tls. cbn.
  destruct (tls_key_valid w) eqn:E; unfold shape; cbn; rewrite ?E, map_aset, map_app; done.
Qed.

Lemma s_caches_len w : zlen (s_caches (shape w)) = zlen (caches w).
Proof. unfold zlen, shape. cbn. by rewrite length_map. Qed.

Lemma aget_aset_some {A} (l : list (option A)) t u x c : aget None (aset l t (Some x)) u = Some c ->
  u = t /\ c = x \/ u <> t /\ aget None l u = Some c.
Proof.
  destruct (decide (t = u)) as [<-|Hne]; [|rewrite aget_aset_ne by done; auto].
  intros H. left. pose proof (aget_some_range _ _ _ H) as Hr. rewrite zlen_aset in Hr.
  rewrite aget_aset_eq in H by done. split; [done|congruence].
Qed.

Section Attach.
Context (w : world) (p tid sid : Z).
Context (Hw : wired (shape w)) (Hp : 0 <= p < zlen (pools w)) (Hd : destroyed (pool_at w p) = false).
Context (Hsid : 0 <= sid < zlen (shards (pool_at w p))).

#[local] Abbreviation w' := (attach_cache p tid sid w).
#[local] Abbreviation c := (zlen (caches w)).

Lemma attach_cell d : s_cache (shape w') d =
  if d =? c then Some (attached_view p tid sid w) else s_cache (shape w) d.
Proof using Type. unfold s_cache at 1. rewrite attach_shape. cbn [s_caches]. rewrite aget_snoc, s_caches_len. done. Qed.

Lemma attach_fresh : s_cache (shape w) c = None.
Proof using Type.
  destruct (s_cache (shape w) c) eqn:E; [|done]. unfold s_cache in E.
  apply aget_some_range in E. rewrite s_caches_len in E. lia.
Qed.

Lemma attach_pool q : s_pool (shape w') q =
  {| v_destroyed := v_destroyed (s_pool (shape w) q); v_shards := v_shards (s_pool (shape w) q);
     v_mask := v_mask (s_pool (shape w) q);
     v_list := if q =? p then Some c else v_list (s_pool (shape w) q) |}.
Proof using Hp.
  unfold s_pool at 1. rewrite attach_shape. cbn [s_pools]. destruct (Z.eqb_spec q p) as [->|Hne].
  - rewrite aget_aset_eq by (rewrite zlen_pools_shape; lia). done.
  - rewrite aget_aset_ne by congruence. fold (s_pool (shape w) q). by destruct (s_pool (shape w) q).
Qed.

Lemma attach_pools_len : zlen (s_pools (shape w')) = zlen (pools w).
Proof using Type. rewrite attach_shape. cbn [s_pools]. by rewrite zlen_aset, zlen_pools_shape. Qed.

Lemma attach_old d v : s_cache (shape w) d = Some v -> s_cache (shape w') d = Some v.
Proof using Type.
  intros H. rewrite attach_cell. destruct (Z.eqb_spec d c) as [->|]; [by rewrite attach_fresh in H|done].
Qed.

Lemma attach_same_pools : same_pools (shape w) (shape w').
Proof using Hp. split; [by rewrite attach_pools_len, zlen_pools_shape|]. intros q. by rewrite attach_pool. Qed.

Lemma attach_wired : wired (shape w').
Proof using All.
  pose proof attach_cell as Hcell. pose proof attach_fresh as Hnone. destruct Hw as [W1 W2 W3 W4 W5 W6].
  assert (s_cache (shape w') c = Some (attached_view p tid sid w)) as Hself
    by (rewrite Hcell; by rewrite Z.eqb_refl).
  split.
  - intros q. rewrite attach_pools_len, attach_pool, <- zlen_pools_shape. apply W1.
  - intros d v q Hv Hvp. rewrite attach_pools_len, attach_pool. cbn. rewrite Hcell in Hv.
    destruct (Z.eqb_spec d c) as [->|]; [|rewrite <- zlen_pools_shape; by apply (W2 d)].
    injection Hv as <-. cbn in Hvp. injection Hvp as <-. rewrite s_pool_shape. cbn. done.
  - intros q. rewrite attach_pools_len, attach_pool, <- zlen_pools_shape. intros Hq. cbn.
    destruct (W3 q Hq) as (l & Hnd & Hl & Hin).
    assert (c ∉ l) as Hc by (intros H; apply Hin in H as (v & H & _); congruence).
    assert (forall h, clist (shape w) h l -> clist (shape w') h l) as Hframe.
    { intros h. apply clist_ext. intros d Hdl. rewrite Hcell. by destruct (Z.eqb_spec d c) as [->|]. }
    destruct (Z.eqb_spec q p) as [->|Hne].
    + exists (c :: l). split_and!; [by apply NoDup_cons|split; [done|]; eexists; split; [exact Hself|by apply Hframe]|].
      intros d. rewrite elem_of_cons, Hin. split.
      * intros [->|(v & Hv & Hvp)]; [by eexists|]. exists v. split; [by apply attach_old|done].
      * intros (v & Hv & Hvp). rewrite Hcell in Hv. destruct (Z.eqb_spec d c); [by left|right; by exists v].
    + exists l. split_and!; [done|by apply Hframe|]. intros d. rewrite Hin. split.
      * intros (v & Hv & Hvp). exists v. split; [by apply attach_old|done].
      * intros (v & Hv & Hvp). rewrite Hcell in Hv. destruct (Z.eqb_spec d c); [|by exists v].
        injection Hv as <-. cbn in Hvp. congruence.
  - rewrite attach_shape. cbn [s_tls s_key]. destruct (s_valid (shape w)); rewrite ?length_aset; done.
  - intros t d. rewrite attach_shape. cbn [s_tls s_key s_valid]. rewrite <- attach_shape. intros H.
    apply aget_aset_some in H as [[-> ->]|[Ht H]].
    + split; [eexists; split; [exact Hself|done]|]. intros ->.
      destruct (decide (0 <= tid < zlen (s_key (shape w)))).
      * left. by rewrite aget_aset_eq.
      * right. destruct (aget None (aset _ _ _) tid) eqn:E; [|done]. apply aget_some_range in E.
        rewrite zlen_aset in E. lia.
    + destruct (W5 t d H) as ((v & Hv & Hov) & Hk). split; [exists v; split; [by apply attach_old|done]|].
      intros Hval. rewrite Hval. rewrite aget_aset_ne by congruence. by apply Hk.
  - intros t d. rewrite attach_shape. cbn [s_key s_valid]. rewrite <- attach_shape. intros H.
    destruct (s_valid (shape w)) eqn:Hval.
    + split; [done|]. apply aget_aset_some in H as [[-> ->]|[Ht H]]; [eexists; split; [exact Hself|done]|].
      destruct (W6 t d H) as (_ & v & Hv & Hov). exists v. split; [by apply attach_old|done].
    + by destruct (W6 t d H).
Qed.
End Attach.

Lemma zero_row k : 0 <= k < BUFFER_SIZE_CLASSES ->
  aget 0 (counts cache_zero) k = 0 /\ zlen (aget [] (tc_buffers cache_zero) k) = THREAD_CACHE_SIZE.
Proof.
  intros Hk. split; [apply aget_replicate|]. unfold aget, cache_zero. cbn [tc_buffers].
  destruct (Z.ltb_spec k 0); [lia|].
  assert (Z.to_nat k < Z.to_nat BUFFER_SIZE_CLASSES)%nat as Hn by lia.
  rewrite nth_lookup, lookup_replicate_2 by exact Hn. done.
Qed.

Lemma zero_arrays_ok ca : counts ca = counts cache_zero -> tc_buffers ca = tc_buffers cache_zero ->
  cache_ok ca /\ cache_bufs ca = [].
Proof.
  intros Ec Eb.
  assert (cache_ok ca) as Hok.
  { split; unfold tc_count; rewrite ?Ec, ?Eb; try done.
    - intros k Hk. destruct (zero_row k Hk) as [-> _]. done.
    - intros k Hk. by apply zero_row. }
  split; [done|]. apply rows_empty. intros k Hk. apply row_empty; [done|done|].
  unfold tc_count. rewrite Ec. by apply zero_row.
Qed.

Lemma evolves_attach p tid sid w : world_ok w -> 0 <= p < zlen (pools w) ->
  destroyed (pool_at w p) = false -> 0 <= sid < zlen (shards (pool_at w p)) ->
  evolves w (attach_cache p tid sid w) [] [].
Proof.
  intros [Hw Hs] Hp Hd Hsid. set (c := zlen (caches w)).
  assert (exists ca, caches (attach_cache p tid sid w) = caches w ++ [Some ca] /\
    counts ca = counts cache_zero /\ tc_buffers ca = tc_buffers cache_zero) as (ca & Eca & Ec & Eb).
  { unfold attach_cache, setspecific, set_tls. cbn. destruct (tls_key_valid w); by eexists. }
  destruct (zero_arrays_ok ca Ec Eb) as [Hok Hnil].
  set (pool' := fun pool : buffer_pool_t => pool <| thread_caches := Some c |>).
  assert (pools (attach_cache p tid sid w) = pools (upd_pool p pool' w) /\
    freed (attach_cache p tid sid w) = freed w /\ heap (attach_cache p tid sid w) = heap w)
    as (Ep & Ef & Eh).
  { unfold attach_cache, setspecific, set_tls. cbn. by destruct (tls_key_valid w). }
  split.
  - split; [by apply attach_wired|]. split.
    + intros q sh. unfold pool_at. rewrite Ep. fold (pool_at (upd_pool p pool' w) q).
      rewrite zlen_upd_pool, (pool_at_upd_proj shards) by done. apply Hs.
    + intros d da. rewrite Eca, aget_snoc. destruct (Z.eqb_spec d (zlen (caches w))); [|apply Hs].
      intros [= <-]. by split.
  - unfold ledger, pooled, heap_left. rewrite Ep, Eca, Ef, Eh.
    pose proof (ledger_upd_pool_same p pool' w eq_refl) as H.
    unfold ledger, pooled, heap_left in H. change (caches (upd_pool p pool' w)) with (caches w) in H.
    change (freed (upd_pool p pool' w)) with (freed w) in H.
    change (heap (upd_pool p pool' w)) with (heap w) in H.
    rewrite map_app, concat_app. cbn [map concat].
    change (cached (Some ca)) with (cache_bufs ca). rewrite Hnil. perm_lia.
  - unfold counters. rewrite Ep. apply (counters_upd_pool p pool' w). done.
Qed.

Lemma evolves_once w : world_ok w -> evolves w (pthread_once_tls w) [] [] /\
  s_pools (shape (pthread_once_tls w)) = s_pools (shape w) /\
  s_caches (shape (pthread_once_tls w)) = s_caches (shape w) /\
  s_tls (shape (pthread_once_tls w)) = s_tls (shape w).
Proof.
  intros Hok. pose proof Hok as [Hw Hs].
  assert (pools (pthread_once_tls w) = pools w /\ caches (pthread_once_tls w) = caches w /\
    freed (pthread_once_tls w) = freed w /\ heap (pthread_once_tls w) = heap w /\
    tls_cache (pthread_once_tls w) = tls_cache w /\ tls_key (pthread_once_tls w) = tls_key w /\
    (tls_key_valid w = true -> tls_key_valid (pthread_once_tls w) = true))
    as (E1 & E2 & E3 & E4 & E5 & E6 & E7).
  { unfold pthread_once_tls, tls_key_init, libc_call. destruct (tls_key_once w); [done|]. cbn.
    destruct (libc w) as [|[]]; done. }
  split; [|unfold shape; by rewrite E1, E2, E5].
  apply evolves_wiring; try done. unfold shape. rewrite E1, E2, E5, E6.
  destruct Hw as [W1 W2 W3 W4 W5 W6].
  split; [exact W1|exact W2| |exact W4|..].
  - intros p Hp. destruct (W3 p Hp) as (l & Hnd & Hl & Hin). exists l.
    split; [exact Hnd|]. split; [by eapply clist_ext; [|exact Hl]|exact Hin].
  - intros t c H. destruct (W5 t c H) as [Hv Hk]. split; [done|]. intros _. cbn.
    destruct (aget None (tls_key w) t) as [d|] eqn:E; [|by right].
    destruct (W6 t d E) as [Hval _]. rewrite <- E. cbn in Hval, Hk. by apply Hk.
  - intros t c H. destruct (W6 t c H) as [Hval Hv]. split; [by apply E7|done].
Qed.

Lemma next_shard_range p w : world_ok w -> 0 <= p < zlen (pools w) ->
  0 < zlen (shards (pool_at w p)) -> 0 <= fst (next_shard_id p w) < zlen (shards (pool_at w p)).
Proof.
  intros [Hw _] Hp Hs. destruct (wi_mask _ Hw p) as (Hm & j & Hj & E).
  { by rewrite zlen_pools_shape. }
  { by rewrite s_pool_shape. }
  rewrite s_pool_shape in Hm, E. cbn in Hm, E. unfold next_shard_id. cbn. rewrite Hm, E.
  replace (2 ^ j - 1) with (Z.ones j) by (rewrite Z.ones_equiv; lia).
  rewrite Z.land_ones by done. apply Z.mod_pos_bound. lia.
Qed.

Lemma moves_next_shard p w : world_ok w -> moves w (snd (next_shard_id p w)) [] [].
Proof. intros Hw. by apply moves_pool. Qed.

Lemma attach_fresh_tls p tid sid w : wired (shape w) -> tls_fresh (shape w) -> 0 <= p < zlen (pools w) ->
  tls_fresh (shape (attach_cache p tid sid w)).
Proof.
  intros Hw Hf Hp t d v Ht Hv Hvp. rewrite attach_cell in Hv. destruct (Z.eqb_spec d (zlen (caches w))).
  - injection Hv as <-. done.
  - rewrite attach_shape in Ht. cbn [s_tls] in Ht. apply aget_aset_some in Ht as [[-> ->]|[_ Ht]]; [done|].
    by apply (Hf t d).
Qed.

Lemma attach_attached p tid sid w : attached (shape (attach_cache p tid sid w)) (zlen (caches w)) p.
Proof. eexists. rewrite attach_cell, Z.eqb_refl. by split. Qed.

Lemma shape_registrations p n w : shape (registrations_add p n w) = shape w.
Proof. by apply shape_upd_pool. Qed.

Lemma shape_active p n w : shape (active_users_add p n w) = shape w.
Proof. by apply shape_upd_pool. Qed.

Lemma destroyed_shape w p : destroyed (pool_at w p) = v_destroyed (s_pool (shape w) p).
Proof. by rewrite s_pool_shape. Qed.

Lemma shards_shape w p : zlen (shards (pool_at w p)) = v_shards (s_pool (shape w) p).
Proof. by rewrite s_pool_shape. Qed.

Lemma steps_nil w1 w2 w3 : steps_to w1 w2 [] [] -> steps_to w2 w3 [] [] -> steps_to w1 w3 [] [].
Proof. intros S1 S2. by apply (steps_trans w1 w2 w3 [] [] [] []). Qed.

(** A registration is bracketed by the counter of registrations. *)
Lemma steps_registrations p w w2 : world_ok w -> steps_to (registrations_add p 1 w) w2 [] [] ->
  steps_to w (registrations_add p (-1) w2) [] [].
Proof.
  intros Hw (E & F & P). split; [by apply evolves_registrations|].
  rewrite !shape_registrations in *. done.
Qed.

Lemma steps_active p w w2 ins out : world_ok w -> steps_to (active_users_add p 1 w) w2 ins out ->
  steps_to w (active_users_add p (-1) w2) ins out.
Proof.
  intros Hw (E & F & P). split; [by apply evolves_active|]. rewrite !shape_active in *. done.
Qed.

Lemma register_cache_steps p tid w : world_inv w -> serving (shape w) p ->
  destroyed (pool_at w p) = false ->
  let '(r, w') := register_cache p tid w in
  steps_to w w' [] [] /\ match r with Some c => attached (shape w') c p | None => True end.
Proof.
  intros [Hok Hf] Hs Hd. unfold register_cache.
  pose proof (recounted_registrations p 1 w Hok) as R. pose proof (rc_shape _ _ _ R) as Sh.
  set (w1 := registrations_add p 1 w) in *.
  assert (destroyed (pool_at w1 p) = false) as Hd1 by (rewrite destroyed_shape, Sh, <- destroyed_shape; done).
  rewrite Hd1. destruct (evolves_once w1 ltac:(apply R)) as (E1 & P1 & C1 & T1).
  set (w2 := pthread_once_tls w1) in *.
  assert (steps_to w1 w2 [] []) as S2.
  { split; [exact E1|]. split; [|by apply same_pools_eq]. intros t c v. rewrite T1. unfold s_cache.
    rewrite C1, Sh. apply Hf. }
  assert (forall w3, moves w2 w3 [] [] -> steps_to w1 w3 [] []) as Hmv.
  { intros w3 M. eapply steps_nil; [exact S2|]. apply steps_moves; [apply S2|done]. }
  pose proof (moves_libc w2 ltac:(apply S2)) as M3. destruct (libc_call w2) as [r3 w3]. cbn in M3.
  destruct r3; [|split; [by apply steps_registrations, Hmv|done]].
  pose proof (moves_then _ w3 _ _ _ M3 (moves_libc w3)) as M4. destruct (libc_call w3) as [r4 w4]. cbn in M4.
  destruct r4; [|split; [by apply steps_registrations, Hmv|done]].
  pose proof (moves_then _ w4 _ _ _ M4 (moves_next_shard p w4)) as M5.
  pose proof (Hmv _ M4) as S4.
  assert (serving (shape w4) p) as Hs4.
  { eapply serving_same; [apply S4|]. by rewrite Sh. }
  assert (destroyed (pool_at w4 p) = false) as Hd4.
  { rewrite destroyed_shape. destruct S4 as (_ & _ & _ & P). destruct (P p) as [-> _]. by rewrite <- destroyed_shape. }
  destruct Hs4 as [Hp4 Hsh4]. rewrite zlen_pools_shape in Hp4. rewrite <- destroyed_shape in Hsh4.
  specialize (Hsh4 Hd4). rewrite <- shards_shape in Hsh4.
  pose proof (next_shard_range p w4 ltac:(apply S4) Hp4 Hsh4) as Hsid.
  destruct (next_shard_id p w4) as [sid w5]. cbn in M5, Hsid. pose proof (Hmv _ M5) as S5.
  assert (shape w5 = shape w4) as Sh5 by (rewrite (mv_shape _ _ _ _ M5), (mv_shape _ _ _ _ M4); done).
  assert (destroyed (pool_at w5 p) = false) as Hd5 by (rewrite destroyed_shape, Sh5, <- destroyed_shape; done).
  assert (0 <= p < zlen (pools w5)) as Hp5 by (rewrite <- zlen_pools_shape, Sh5, zlen_pools_shape; done).
  assert (0 <= sid < zlen (shards (pool_at w5 p))) as Hsid5 by (rewrite shards_shape, Sh5, <- shards_shape; done).
  pose proof (steps_inv _ _ _ _ S5) as [Hok5 Hf5].
  assert (steps_to w1 (attach_cache p tid sid w5) [] []) as S6.
  { eapply steps_nil; [exact S5|]. split; [by apply evolves_attach|]. split.
    - apply attach_fresh_tls; [apply Hok5|done|done].
    - by apply attach_same_pools. }
  cbv zeta. rewrite (pool_at_upd_proj destroyed) by done. cbn [pools].
  change (pool_at (w5 <| caches := _ |>) p) with (pool_at w5 p). rewrite Hd5. split.
  - apply steps_registrations; [done|]. exact S6.
  - rewrite shape_registrations. apply attach_attached.
Qed.

Lemma get_thread_cache_steps p tid w : world_inv w -> serving (shape w) p ->
  let '(r, w') := get_thread_cache p tid w in
  steps_to w w' [] [] /\ match r with Some c => attached (shape w') c p | None => True end.
Proof.
  intros Hinv Hs. pose proof Hinv as [Hok Hf].
  assert (steps_to w w [] []) as Hrefl by (apply steps_moves; [done|by apply moves_refl]).
  assert (steps_to w (set_tls tid None w) [] []) as Htls.
  { split; [|split; [|by apply same_pools_eq]].
    - apply evolves_wiring; try done. apply (wired_less (shape w)); [|apply Hok].
      split; try done.
      + cbn. by rewrite length_aset.
      + intros c v Hv. exists v. by split_and!.
      + intros c v Hv. left. exists v. by split_and!.
      + intros t c H. apply aget_aset_none in H as [_ H]. split; [done|].
        destruct (wi_tls _ (wo_wired _ Hok) t c H) as ((v & Hv & _ & He) & _). by exists v.
      + intros t c H. split; [done|].
        destruct (wi_key _ (wo_wired _ Hok) t c H) as (_ & v & Hv & _ & He). by exists v.
    - intros t c v H. apply aget_aset_none in H as [_ H]. by apply (Hf t). }
  unfold get_thread_cache. destruct (tls_at w tid) as [c|] eqn:Et.
  - destruct (pool_eqb (tc_pool (cache_at w c)) (Some p)) eqn:Ep; cbn [andb negb].
    + apply bool_decide_eq_true in Ep.
      destruct ((tc_pool_id (cache_at w c) =? pool_id (pool_at w p)) && negb (destroyed (pool_at w p))).
      * split; [done|]. destruct (wi_tls _ (wo_wired _ Hok) tid c Et) as ((v & Hv & _) & _).
        exists v. pose proof Hv as Hv2. rewrite s_cache_shape in Hv2.
        destruct (aget None (caches w) c) as [ca|] eqn:Ha; [|done]. cbn in Hv2.
        rewrite (alive_at w c ca Ha) in Ep. assert (v_pool v = Some p) as Hvp by (injection Hv2 as <-; done).
        split_and!; [done|done|]. apply (Hf tid c v Et Hv). congruence.
      * destruct (destroyed (pool_at w p)) eqn:Hd; [done|]. by apply register_cache_steps.
    + destruct (destroyed (pool_at w p)); [done|]. split; [by apply leave_old_pool_steps|done].
  - destruct (destroyed (pool_at w p)) eqn:Hd; [done|]. by apply register_cache_steps.
Qed.

(** ** Allocation *)

Definition given (r : result Z) : list Z := option_list (result_ok r).

Lemma take_cached_moves c p k w : world_ok w -> attached (shape w) c p -> 0 <= k < BUFFER_SIZE_CLASSES ->
  0 < tc_count (cache_at w c) k ->
  let '(r, w') := take_cached c k w in moves w w' [] (given r) /\ exists b, r = Ok b.
Proof.
  intros Hw Hat Hk Hn. destruct (attached_alive w c p Hw Hat) as (Ha & Hok & Hcl & Hpool & _).
  unfold take_cached.
  destruct (cache_pop_ok (cache_at w c) k Hok Hk Hn) as (r & b & c' & Er & -> & Hok' & _ & Hrow & Hsame).
  cbn. split; [|by exists b]. apply (moves_cache c (fun _ => c') w (cache_at w c)); try done.
  - by apply same_cview.
  - rewrite Hsame. cbn. rewrite Hcl, Hpool. by intros [|].
  - unfold cache_bufs. rewrite (st_all_ext (cache_row c') _ (fun j _ => Hrow j)).
    pose proof (st_all_set_perm (cache_row (cache_at w c)) k r Hk) as P. rewrite Er in P. perm_lia.
Qed.

Lemma prefill_loop_moves n : forall extras w, world_ok w ->
  let '(extras', w') := prefill_loop n extras w in
  exists new, extras' = extras ++ new /\ moves w w' [] new.
Proof.
  induction n as [|n IH]; intros extras w Hw; cbn [prefill_loop].
  - exists []. rewrite app_nil_r. split; [done|by apply moves_refl].
  - pose proof (moves_memalign w Hw) as M. destruct (posix_memalign w) as [r w1].
    destruct r as [a|e]; cbn in M.
    + specialize (IH (extras ++ [a]) w1 ltac:(apply M)).
      destruct (prefill_loop n (extras ++ [a]) w1) as [extras' w']. destruct IH as (new & -> & M').
      exists (a :: new). rewrite <- app_assoc. split; [done|].
      by apply (moves_trans w w1 w' [] [a] [] new).
    + exists []. by rewrite app_nil_r.
Qed.

Lemma store_loop_spec k extras : forall ca stored, cache_ok ca -> 0 <= k < BUFFER_SIZE_CLASSES ->
  let '(stored', ca') := store_loop extras k ca stored in
  exists m, (m <= length extras)%nat /\ stored' = stored + Z.of_nat m /\ cache_ok ca' /\ same_cache ca ca' /\
    cache_bufs ca' ≡ₚ take m extras ++ cache_bufs ca.
Proof.
  induction extras as [|x extras IH]; intros ca stored Hok Hk; cbn [store_loop].
  - exists O. split_and!; [done|lia|done|apply same_cache_refl|done].
  - destruct (Z.ltb_spec (tc_count ca k) THREAD_CACHE_SIZE) as [Hlt|Hge].
    2:{ exists O. split_and!; [lia|lia|done|apply same_cache_refl|done]. }
    destruct (cache_push_ok ca k x Hok Hk Hlt) as (Hok1 & _ & Hrow & Hs1).
    specialize (IH (cache_push ca k x) (stored + 1) Hok1 Hk).
    destruct (store_loop extras k (cache_push ca k x) (stored + 1)) as [stored' ca'].
    destruct IH as (m & Hm & -> & Hok' & Hs' & Hp). exists (S m).
    split_and!; [cbn; lia|lia|done|by eapply same_cache_trans|].
    rewrite Hp. unfold cache_bufs at 1. rewrite (st_all_ext _ _ (fun j _ => Hrow j)).
    pose proof (st_all_set_perm (cache_row ca) k (cache_row ca k ++ [x]) Hk) as P. cbn.
    unfold cache_bufs. perm_lia.
Qed.

Lemma prefill_moves p c k size w : world_ok w -> attached (shape w) c p -> 0 <= k < BUFFER_SIZE_CLASSES ->
  moves w (prefill p c k size w) [] [].
Proof.
  intros Hw Hat Hk. unfold prefill.
  pose proof (prefill_loop_moves (Z.to_nat (THREAD_CACHE_BATCH_SIZE - 1)) [] w Hw) as H.
  destruct (prefill_loop _ _ _) as [extras w1]. destruct H as (new & -> & M). cbn [app].
  destruct (Z.ltb_spec 0 (zlen new)) as [Hn|Hn].
  2:{ assert (new = []) as -> by (destruct new; [done|rewrite zlen_cons in Hn;
        pose proof (zlen_nonneg new); lia]). exact M. }
  pose proof (attached_shape w w1 c p (mv_shape _ _ _ _ M) Hat) as Hat1.
  destruct (attached_alive w1 c p ltac:(apply M) Hat1) as (Ha & Hok & Hcl & Hpool & _ & Hd & _).
  rewrite Hcl, Hd. cbn [negb andb].
  pose proof (store_loop_spec k new (cache_at w1 c) 0 Hok Hk) as Hst.
  destruct (store_loop new k (cache_at w1 c) 0) as [stored ca'].
  destruct Hst as (m & Hm & -> & Hok' & Hsame & Hp).
  assert (moves w (upd_cache c (fun _ => ca') w1) [] (drop m new)) as M2.
  { eapply moves_perm; [|eapply moves_trans; [exact M|
      apply (moves_cache c (fun _ => ca') w1 (cache_at w1 c) (take m new) [])]].
    - rewrite <- (take_drop m new) at 1. perm_lia.
    - apply M.
    - done.
    - by apply same_cview.
    - done.
    - rewrite Hsame. cbn. rewrite Hcl, Hpool. by intros [|].
    - by rewrite Hp. }
  set (w2 := upd_cache c _ w1) in *. replace (Z.to_nat (0 + Z.of_nat m)) with m by lia.
  assert (moves w (free_bufs (drop m new) w2) [] []) as M3.
  { eapply moves_perm; [|eapply moves_trans; [exact M2|apply moves_free, M2]]. perm_lia. }
  destruct (0 <? 0 + Z.of_nat m); [|exact M3].
  eapply moves_then; [exact M3|]. intros H. by apply moves_count.
Qed.

Lemma heap_alloc_moves p cache k size w : world_ok w ->
  match cache with Some c => attached (shape w) c p | None => True end -> 0 <= k < BUFFER_SIZE_CLASSES ->
  let '(r, w') := heap_alloc p cache k size w in moves w w' [] (given r).
Proof.
  intros Hw Hat Hk. unfold heap_alloc. pose proof (moves_memalign w Hw) as M.
  destruct (posix_memalign w) as [[buf|e] w1]; [|done]. cbn in M.
  pose proof (moves_then _ _ _ _ _ M (moves_count p size 1 w1)) as M2.
  destruct cache as [c|]; [|done]. eapply moves_then; [exact M2|]. intros H.
  apply prefill_moves; [done| |done]. eapply attached_shape; [|exact Hat]. apply M2.
Qed.

Lemma select_shard_moves p cache w : world_ok w -> serving (shape w) p -> destroyed (pool_at w p) = false ->
  match cache with Some c => attached (shape w) c p | None => True end ->
  let '(sid, w') := select_shard p cache w in
  moves w w' [] [] /\ 0 <= p < zlen (pools w') /\ 0 <= sid < zlen (shards (pool_at w' p)).
Proof.
  intros Hw [Hp Hs] Hd Hat. rewrite zlen_pools_shape in Hp. unfold select_shard. destruct cache as [c|].
  - destruct (attached_alive w c p Hw Hat) as (_ & _ & _ & _ & _ & _ & Hsid).
    by split; [apply moves_refl|].
  - rewrite destroyed_shape in Hd. specialize (Hs Hd). rewrite <- shards_shape in Hs.
    pose proof (next_shard_range p w Hw Hp Hs) as Hr. pose proof (moves_next_shard p w Hw) as M.
    destruct (next_shard_id p w) as [sid w']. cbn in Hr, M. split; [done|].
    rewrite <- zlen_pools_shape, shards_shape, (mv_shape _ _ _ _ M), zlen_pools_shape, <- shards_shape. done.
Qed.

Lemma moves_pop p sid k w b sh : world_ok w -> 0 <= p < zlen (pools w) ->
  0 <= sid < zlen (shards (pool_at w p)) -> 0 <= k < BUFFER_SIZE_CLASSES ->
  shard_pop (shard_at (pool_at w p) sid) k = Some (b, sh) ->
  moves w (upd_pool p (set_shard sid sh) w) [] [b].
Proof.
  intros Hw Hp Hsid Hk E. pose proof (shard_at_ok w p sid Hw Hp Hsid) as Hok.
  pose proof (abs_pop _ _ k Hok Hk) as H. destruct (shard_stacks _ k) as [|b0 r] eqn:Ek; [congruence|].
  destruct H as (sh' & E' & Hab). rewrite E' in E. injection E as <- <-.
  apply moves_shard; try done; [by eapply abs_ok|]. rewrite (abs_bufs _ _ Hab).
  pose proof (st_all_set_perm (shard_stacks (shard_at (pool_at w p) sid)) k r Hk) as P. rewrite Ek in P.
  unfold shard_bufs. perm_lia.
Qed.

Lemma moves_push p sid k w b size sh : world_ok w -> 0 <= p < zlen (pools w) ->
  0 <= sid < zlen (shards (pool_at w p)) -> 0 <= k < BUFFER_SIZE_CLASSES ->
  shard_push (shard_at (pool_at w p) sid) k b size = Some sh ->
  moves w (upd_pool p (set_shard sid sh) w) [b] [].
Proof.
  intros Hw Hp Hsid Hk E. pose proof (shard_at_ok w p sid Hw Hp Hsid) as Hok.
  pose proof (abs_push _ _ k b size Hok Hk) as H. destruct (_ <? _); [|congruence].
  destruct H as (sh' & E' & Hab). rewrite E' in E. injection E as <-.
  apply moves_shard; try done; [by eapply abs_ok|]. rewrite (abs_bufs _ _ Hab).
  set (st := shard_stacks (shard_at (pool_at w p) sid)).
  pose proof (st_all_set_perm st k (b :: st k) Hk) as P.
  unfold shard_bufs. fold st. perm_lia.
Qed.

Lemma steps_mv w1 w2 w3 i1 o1 i2 o2 : steps_to w1 w2 i1 o1 -> moves w2 w3 i2 o2 ->
  steps_to w1 w3 (i1 ++ i2) (o1 ++ o2).
Proof. intros S M. eapply steps_trans; [exact S|]. by apply steps_moves; [apply S|]. Qed.

Definition cache_for (p : Z) (cache : option Z) (w : world) : Prop :=
  match cache with Some c => attached (shape w) c p | None => True end.

Lemma cache_for_shape p cache w w' : shape w' = shape w -> cache_for p cache w -> cache_for p cache w'.
Proof. destruct cache; [|done]. apply attached_shape. Qed.

(** What a thread finds between entering the pool and leaving it. *)
Record inside (w0 : world) (p : Z) (cache : option Z) (w : world) : Prop := {
  in_ok : world_ok w0;
  in_steps : steps_to (active_users_add p 1 w0) w [] [];
  in_serving : serving (shape w) p;
  in_alive : destroyed (pool_at w p) = false;
  in_cache : cache_for p cache w
}.

Lemma inside_leave w0 p cache w w' ins out : inside w0 p cache w -> moves w w' ins out ->
  steps_to w0 (pool_leave p w') ins out.
Proof.
  intros [H0 S _ _ _] M. apply steps_active; [done|]. by apply (steps_mv _ w w' [] [] ins out).
Qed.

Lemma alloc_from_shard_steps w0 p cache k size w : inside w0 p cache w -> 0 <= k < BUFFER_SIZE_CLASSES ->
  let '(r, w') := alloc_from_shard p cache k size w in steps_to w0 w' [] (given r).
Proof.
  intros In Hk. pose proof In as [H0 S Hsv Hd Hc]. pose proof (steps_inv _ _ _ _ S) as [Hw Hf].
  unfold alloc_from_shard.
  pose proof (select_shard_moves p cache w Hw Hsv Hd Hc) as Hsel.
  destruct (select_shard p cache w) as [sid w1]. destruct Hsel as (M & Hp & Hsid).
  destruct (shard_pop _ k) as [[buf sh]|] eqn:E.
  - pose proof (moves_pop p sid k w1 buf sh ltac:(apply M) Hp Hsid Hk E) as M2.
    exact (inside_leave _ _ _ _ _ _ _ In (moves_trans w w1 _ [] [] [] [buf] M M2)).
  - pose proof (inside_leave _ _ _ _ _ _ _ In M) as S1.
    pose proof (steps_inv _ _ _ _ S1) as [Hw1 _].
    pose proof (heap_alloc_moves p cache k size (pool_leave p w1) Hw1) as Hh.
    destruct (heap_alloc p cache k size (pool_leave p w1)) as [r w2].
    apply (steps_mv _ _ _ [] [] [] (given r) S1). apply Hh; [|done].
    eapply cache_for_shape; [|exact Hc]. unfold pool_leave. rewrite shape_active. apply M.
Qed.

(** The steps of a thread that entered the pool. *)
Lemma pool_enter_inside p cache w : world_inv w -> serving (shape w) p -> cache_for p cache w ->
  let '(entered, w') := pool_enter p w in
  if (entered : bool) then inside w p cache w' /\ shape w' = shape w else steps_to w w' [] [].
Proof.
  intros [Hw Hf] Hs Hc. unfold pool_enter. rewrite destroyed_active.
  pose proof (recounted_active p 1 w Hw) as R. destruct (destroyed (pool_at w p)) eqn:Hd.
  - apply steps_active; [done|]. apply steps_moves; [by rewrite shape_active|]. apply moves_refl, R.
  - split; [|apply shape_active]. split; [done| | | |].
    + apply steps_moves; [by rewrite shape_active|]. apply moves_refl, R.
    + by rewrite shape_active.
    + by rewrite destroyed_active.
    + eapply cache_for_shape; [apply shape_active|done].
Qed.

Lemma steps_after w1 w2 w3 ins out : steps_to w1 w2 [] [] -> steps_to w2 w3 ins out -> steps_to w1 w3 ins out.
Proof. intros S1 S2. by apply (steps_trans w1 w2 w3 [] [] ins out). Qed.

Lemma inside_moves w0 p cache w w' : inside w0 p cache w -> moves w w' [] [] -> inside w0 p cache w'.
Proof.
  intros [H0 S Hs Hd Hc] M. pose proof (mv_shape _ _ _ _ M) as E. split; [done| | | |].
  - by apply (steps_mv _ w w' [] [] [] [] S).
  - by rewrite E.
  - by rewrite destroyed_shape, E, <- destroyed_shape.
  - by eapply cache_for_shape.
Qed.

Lemma buffer_pool_alloc_steps p size tid w : world_inv w -> serving (shape w) p -> 0 <= size ->
  let '(r, w') := buffer_pool_alloc p size tid w in steps_to w w' [] (given r).
Proof.
  intros Hinv Hs Hsz. unfold buffer_pool_alloc.
  destruct (Z.eqb_spec size 0) as [|Hne]; cbn [orb].
  { apply steps_moves; [apply Hinv|apply moves_refl, Hinv]. }
  destruct (BUFFER_POOL_MAX_SIZE <? size).
  { apply steps_moves; [apply Hinv|apply moves_refl, Hinv]. }
  pose proof (size_to_class_range size ltac:(lia)) as Hk. set (k := size_to_class size) in *.
  pose proof (get_thread_cache_steps p tid w Hinv Hs) as Hg.
  destruct (get_thread_cache p tid w) as [cache w1]. destruct Hg as [S1 Hc1].
  pose proof (steps_inv _ _ _ _ S1) as Hinv1. pose proof (serving_same _ _ p (proj2 (proj2 S1)) Hs) as Hs1.
  destruct cache as [c|].
  - destruct (Z.ltb_spec 0 (tc_count (cache_at w1 c) k)) as [Hn|Hn].
    + pose proof (take_cached_moves c p k w1 ltac:(apply Hinv1) Hc1 Hk Hn) as Ht.
      destruct (take_cached c k w1) as [r w2]. exact (steps_mv _ _ _ _ _ _ _ S1 (proj1 Ht)).
    + pose proof (pool_enter_inside p (Some c) w1 Hinv1 Hs1 Hc1) as He.
      destruct (pool_enter p w1) as [[] w2]; cbn [negb].
      2:{ eapply steps_after; [exact S1|exact He]. }
      destruct He as [In _]. pose proof (steps_inv _ _ _ _ (in_steps _ _ _ _ In)) as [Hw2 _].
      destruct (cache_refill_moves w2 p c k Hw2 (in_cache _ _ _ _ In) Hk) as [M Hpos].
      destruct (cache_refill p c k w2) as [n w3]. cbn [fst snd] in M, Hpos.
      destruct (Z.ltb_spec 0 n) as [Hn3|Hn3].
      * pose proof (inside_leave _ _ _ _ _ _ _ In M) as S3. pose proof (steps_inv _ _ _ _ S3) as [Hw3 _].
        assert (attached (shape (pool_leave p w3)) c p) as Hat.
        { eapply attached_shape; [|exact (in_cache _ _ _ _ In)]. unfold pool_leave. rewrite shape_active. apply M. }
        pose proof (take_cached_moves c p k (pool_leave p w3) Hw3 Hat Hk (Hpos Hn3)) as Ht.
        destruct (take_cached c k (pool_leave p w3)) as [r w4].
        eapply steps_after; [exact S1|]. exact (steps_mv _ _ _ _ _ _ _ S3 (proj1 Ht)).
      * pose proof (alloc_from_shard_steps w1 p (Some c) k (class_to_size k) w3
          (inside_moves _ _ _ _ _ In M) Hk) as Ha.
        destruct (alloc_from_shard p (Some c) k (class_to_size k) w3) as [r w4].
        by eapply steps_after.
  - pose proof (pool_enter_inside p None w1 Hinv1 Hs1 I) as He.
    destruct (pool_enter p w1) as [[] w2]; cbn [negb].
    2:{ eapply steps_after; [exact S1|exact He]. }
    pose proof (alloc_from_shard_steps w1 p None k (class_to_size k) w2 (proj1 He) Hk) as Ha.
    destruct (alloc_from_shard p None k (class_to_size k) w2) as [r w3]. by eapply steps_after.
Qed.

(** ** Free *)

Lemma store_cached_moves p c k buf w : world_ok w -> attached (shape w) c p -> 0 <= k < BUFFER_SIZE_CLASSES ->
  tc_count (cache_at w c) k < THREAD_CACHE_SIZE -> moves w (store_cached p c k buf w) [buf] [].
Proof.
  intros Hw Hat Hk Hn. destruct (attached_alive w c p Hw Hat) as (Ha & Hok & Hcl & Hpool & _ & Hd & _).
  unfold store_cached. rewrite Hcl, Hd. cbn [orb].
  destruct (cache_push_ok (cache_at w c) k buf Hok Hk Hn) as (Hok' & _ & Hrow & Hsame).
  apply (moves_cache c _ w (cache_at w c)); try done.
  - cbn. rewrite Hcl, Hpool. by intros [|].
  - unfold cache_bufs. rewrite (st_all_ext (cache_row (cache_push _ _ _)) _ (fun j _ => Hrow j)).
    pose proof (st_all_set_perm (cache_row (cache_at w c)) k (cache_row (cache_at w c) k ++ [buf]) Hk). perm_lia.
Qed.

Lemma free_to_shard_steps w0 p cache k size buf w : inside w0 p cache w -> 0 <= k < BUFFER_SIZE_CLASSES ->
  steps_to w0 (free_to_shard p cache k size buf w) [buf] [].
Proof.
  intros In Hk. pose proof In as [H0 S Hsv Hd Hc]. pose proof (steps_inv _ _ _ _ S) as [Hw Hf].
  unfold free_to_shard. pose proof (select_shard_moves p cache w Hw Hsv Hd Hc) as Hsel.
  destruct (select_shard p cache w) as [sid w1]. destruct Hsel as (M & Hp & Hsid).
  assert (steps_to w0 (free_bufs [buf] (pool_leave p (upd_pool p (count_buffers size (-1)) w1))) [buf] []) as Hfree.
  { set (w2 := pool_leave p _).
    assert (steps_to w0 w2 [] []) as S2.
    { eapply inside_leave; [exact In|]. eapply moves_then; [exact M|]. intros H. by apply moves_count. }
    eapply steps_after; [exact S2|]. apply steps_moves; [apply S2|]. apply moves_free, S2. }
  destruct (at_high_water _); [exact Hfree|].
  destruct (shard_push _ k buf size) as [sh|] eqn:E; [|exact Hfree].
  pose proof (moves_push p sid k w1 buf size sh ltac:(apply M) Hp Hsid Hk E) as M2.
  exact (inside_leave _ _ _ _ _ _ _ In (moves_trans w w1 _ [] [] [buf] [] M M2)).
Qed.

Lemma buffer_pool_free_steps p buf size tid w : world_inv w -> serving (shape w) p -> 0 <= size -> buf <> 0 ->
  steps_to w (buffer_pool_free p buf size tid w) [buf] [].
Proof.
  intros Hinv Hs Hsz Hb. unfold buffer_pool_free. rewrite (proj2 (Z.eqb_neq buf 0) Hb).
  assert (forall w, world_inv w -> steps_to w (free_bufs [buf] w) [buf] []) as Hfree.
  { intros w' Hi. apply steps_moves; [apply Hi|]. apply moves_free, Hi. }
  destruct (Z.eqb_spec size 0); [by apply Hfree|]. destruct (destroyed (pool_at w p)); [by apply Hfree|].
  pose proof (size_to_class_range size ltac:(lia)) as Hk. set (k := size_to_class size) in *.
  pose proof (get_thread_cache_steps p tid w Hinv Hs) as Hg.
  destruct (get_thread_cache p tid w) as [cache w1]. destruct Hg as [S1 Hc1].
  pose proof (steps_inv _ _ _ _ S1) as Hinv1. pose proof (serving_same _ _ p (proj2 (proj2 S1)) Hs) as Hs1.
  destruct cache as [c|]; (eapply steps_after; [exact S1|]).
  - destruct (Z.ltb_spec (tc_count (cache_at w1 c) k) THREAD_CACHE_SIZE) as [Hn|Hn].
    { apply steps_moves; [apply Hinv1|]. by apply store_cached_moves; [apply Hinv1|..]. }
    pose proof (pool_enter_inside p (Some c) w1 Hinv1 Hs1 Hc1) as He.
    destruct (pool_enter p w1) as [[] w2]; cbn [negb].
    2:{ eapply steps_after; [exact He|]. apply Hfree. by eapply steps_inv. }
    destruct He as [In _]. pose proof (steps_inv _ _ _ _ (in_steps _ _ _ _ In)) as [Hw2 _].
    destruct (cache_flush_moves w2 p c k (class_to_size k) Hw2 (in_cache _ _ _ _ In) Hk) as (M & _).
    set (w3 := snd _) in *.
    destruct (Z.ltb_spec (tc_count (cache_at w3 c) k) THREAD_CACHE_SIZE) as [Hn3|Hn3].
    + pose proof (inside_leave _ _ _ _ _ _ _ In M) as S3. pose proof (steps_inv _ _ _ _ S3) as [Hw3 Hf3].
      eapply steps_after; [exact S3|]. apply steps_moves; [done|]. apply store_cached_moves; try done.
      eapply attached_shape; [|exact (in_cache _ _ _ _ In)]. unfold pool_leave. rewrite shape_active. apply M.
    + apply free_to_shard_steps; [exact (inside_moves _ _ _ _ _ In M)|done].
  - pose proof (pool_enter_inside p None w1 Hinv1 Hs1 I) as He.
    destruct (pool_enter p w1) as [[] w2]; cbn [negb].
    2:{ eapply steps_after; [exact He|]. apply Hfree. by eapply steps_inv. }
    exact (free_to_shard_steps _ _ _ _ _ _ _ (proj1 He) Hk).
Qed.

(** ** Thread exit *)

(** The C library clears the key and runs the destructor on its old value. *)
Definition thread_exit (tid : Z) (w : world) : world :=
  tls_destructor tid (aget None (tls_key w) tid) (w <| tls_key := aset (tls_key w) tid None |>).

Lemma evolves_free_exited w c ca : world_ok w -> alive w c ca -> tc_pool ca = None ->
  thread_exited ca = true -> evolves w (free_cache c w) [] [].
Proof.
  intros [Hw Hs] Ha Hp He. apply (evolves_drop w _ c ca); try done; [apply (so_caches _ Hs c ca); auto|].
  assert (s_cache (shape w) c = Some (cview_of ca)) as Hc by (rewrite s_cache_shape; by rewrite Ha).
  apply (wired_less (shape w)); [|done]. split; try done.
  - intros d v. rewrite s_cache_free. destruct (Z.eqb_spec d c); [done|]. exists v. by split_and!.
  - intros d v Hv. rewrite s_cache_free. destruct (Z.eqb_spec d c) as [->|].
    + right. split; [done|]. rewrite Hc in Hv. by injection Hv as <-.
    + left. exists v. by split_and!.
  - intros t d H. split; [done|]. rewrite s_cache_free.
    destruct (wi_tls _ Hw t d H) as ((v & Hv & _ & Hx) & _). destruct (Z.eqb_spec d c) as [->|]; [|by exists v].
    rewrite Hc in Hv. injection Hv as <-. cbn in Hx. congruence.
  - intros t d H. split; [done|]. rewrite s_cache_free.
    destruct (wi_key _ Hw t d H) as (_ & v & Hv & _ & Hx). destruct (Z.eqb_spec d c) as [->|]; [|by exists v].
    rewrite Hc in Hv. injection Hv as <-. cbn in Hx. congruence.
Qed.

Lemma fresh_free c w : tls_fresh (shape w) -> tls_fresh (shape (free_cache c w)).
Proof.
  intros Hf t d v Ht. rewrite s_cache_free. destruct (Z.eqb_spec d c); [done|]. by apply Hf with (t := t).
Qed.

(** Cleaning a cache whose thread is gone. *)
Lemma cleans_fresh w w' c ca : wired (shape w) -> alive w c ca -> thread_exited ca = true ->
  tls_fresh (shape w) -> cleans w w' c ca -> tls_fresh (shape w') /\ same_pools (shape w) (shape w').
Proof.
  intros Hw Ha Hx Hf (_ & C1 & C2 & _ & _ & _ & _ & C6). split; [|by apply same_pools_eq].
  intros t d v. rewrite C2. intros Ht Hv. destruct (decide (d = c)) as [->|Hne].
  - destruct (wi_tls _ Hw t c Ht) as ((v0 & Hv0 & _ & Hx0) & _).
    rewrite s_cache_shape, Ha in Hv0. injection Hv0 as <-. cbn in Hx0. congruence.
  - rewrite C6 in Hv by done. by apply (Hf t d).
Qed.

Section Exit.
Context (w : world) (tid c : Z) (ca : thread_cache_t).
Context (Hinv : world_inv w) (Hkey : aget None (tls_key w) tid = Some c) (Ha : alive w c ca).

#[local] Abbreviation w1 := (set_tls tid None (w <| tls_key := aset (tls_key w) tid None |>)).
#[local] Abbreviation mark := (fun ca : thread_cache_t => ca <| thread_exited := true |>).
#[local] Abbreviation w2 := (upd_cache c mark w1).

Lemma exit_owner : owner_thread ca = tid /\ tls_key_valid w = true.
Proof using All.
  destruct (wi_key _ (wo_wired _ (wv_ok _ Hinv)) tid c Hkey) as (Hv & v & Hc & Ho & _).
  rewrite s_cache_shape, Ha in Hc. injection Hc as <-. done.
Qed.

Lemma exit_shape : shape w1 = shape (forget tid w).
Proof using All. rewrite forget_shape. unfold shape at 1. cbn. destruct exit_owner as [_ ->]. done. Qed.

Lemma exit_cell d : s_cache (shape w2) d = if d =? c then Some (cview_of (mark ca)) else s_cache (shape w) d.
Proof using Ha. rewrite (s_cache_upd w1 c mark ca d) by exact Ha. done. Qed.

Lemma exit_wired : wired (shape w1) /\ wired (shape w2).
Proof using All.
  destruct Hinv as [[Hw Hs] Hf]. destruct exit_owner as [Ho Hv].
  assert (s_cache (shape w) c = Some (cview_of ca)) as Hc by (rewrite s_cache_shape; by rewrite Ha).
  split.
  - rewrite exit_shape. apply evolves_forget. by apply Hinv.
  - apply (wired_less (shape w)); [|done]. apply (forget_less tid); try done.
    + by rewrite <- exit_shape.
    + by rewrite <- exit_shape.
    + intros d v. rewrite exit_cell. destruct (Z.eqb_spec d c) as [->|]; [|intros H; exists v; by split_and!].
      intros [= <-]. exists (cview_of ca). by split_and!.
    + intros d v Hv0. rewrite exit_cell. left. destruct (Z.eqb_spec d c) as [->|]; [|exists v; by split_and!].
      rewrite Hc in Hv0. injection Hv0 as <-. eexists. split; [done|]. split; [by split_and!|]. cbn. congruence.
Qed.

Lemma exit_steps : steps_to w w2 [] [].
Proof using All.
  destruct exit_wired as [W1 W2]. destruct Hinv as [Hok Hf]. destruct exit_owner as [Ho _].
  assert (evolves w w1 [] []) as E1 by (apply evolves_wiring; done).
  assert (evolves w1 w2 [] []) as E2.
  { apply (evolves_mark c mark w1 ca); try done; [apply E1|].
    intros H. by apply (so_caches _ (wo_stored _ Hok) c ca). }
  split; [by eapply evolves_nil|]. split; [|by apply same_pools_eq].
  apply (fresh_forget tid c w); [apply Hok|done|by rewrite <- exit_shape| |].
  - intros v Hv. rewrite s_cache_shape, Ha in Hv. injection Hv as <-. exact Ho.
  - intros d Hd. rewrite exit_cell. by destruct (Z.eqb_spec d c).
Qed.

Lemma exit_alive : alive w2 c (mark ca).
Proof using Ha. apply (alive_upd c mark w1 ca). exact Ha. Qed.
End Exit.

Lemma thread_exit_steps tid w : world_inv w -> steps_to w (thread_exit tid w) [] [].
Proof.
  intros Hinv. unfold thread_exit. destruct (aget None (tls_key w) tid) as [c|] eqn:Hkey; cbn [tls_destructor].
  2:{ replace (w <| tls_key := aset (tls_key w) tid None |>) with w.
      - apply steps_moves; [apply Hinv|apply moves_refl, Hinv].
      - rewrite <- Hkey, aset_id. by destruct w. }
  destruct (wi_key _ (wo_wired _ (wv_ok _ Hinv)) tid c Hkey) as (_ & v & Hc & _).
  rewrite s_cache_shape in Hc. destruct (aget None (caches w) c) as [ca|] eqn:Ha; [|done]. clear v Hc.
  pose proof (exit_steps w tid c ca Hinv Hkey Ha) as S. pose proof (exit_alive w tid c ca Ha) as Ha2.
  set (w2 := upd_cache c _ _) in *. pose proof (steps_inv _ _ _ _ S) as [Hok2 Hf2].
  rewrite (alive_at _ _ _ Ha2). cbn [tc_pool]. 
  change (tc_pool (ca <| thread_exited := true |>)) with (tc_pool ca).
  assert (forall w3, cleans w2 w3 c (ca <| thread_exited := true |>) -> steps_to w w3 [] []) as Hcl.
  { intros w3 C. eapply steps_after; [exact S|]. split; [apply C|].
    by apply (cleans_fresh w2 w3 c (ca <| thread_exited := true |>)); [apply Hok2|..]. }
  destruct (tc_pool ca) as [p|] eqn:Hp.
  - assert (destroyed (pool_at w2 p) = false) as Hd.
    { rewrite destroyed_shape. apply (wi_pool _ (wo_wired _ Hok2) c (cview_of (ca <| thread_exited := true |>))).
      - rewrite s_cache_shape. unfold alive in Ha2. by rewrite Ha2.
      - exact Hp. }
    rewrite destroyed_active, Hd. pose proof (recounted_active p 1 w2 Hok2) as R.
    pose proof (cleanup_flush p c (active_users_add p 1 w2) _ (rc_ok _ _ _ R) Ha2 Hp) as C.
    set (w3 := cleanup_cache_buffers_locked _ _ _ _) in *.
    assert (cleans w2 (active_users_add p (-1) w3) c (ca <| thread_exited := true |>)) as C'.
    { destruct C as (E & C). unfold cleans. rewrite !shape_active in *. split; [by apply evolves_active|].
      destruct C as (? & ? & ? & ? & Hl & Hc & ?). by split_and!. }
    pose proof (Hcl _ C') as S3. destruct C' as (_ & _ & _ & _ & _ & _ & (ca' & Ha' & Hv & _) & _).
    rewrite (alive_at _ _ _ Ha').
    assert (tc_pool ca' = Some p) as -> by (injection Hv as -> _; exact Hp). exact S3.
  - pose proof (cleanup_free None c w2 _ Hok2 Ha2) as C. pose proof (Hcl _ C) as S3.
    set (w3 := cleanup_cache_buffers_locked _ _ _ _) in *.
    destruct C as (_ & _ & _ & _ & _ & _ & (ca' & Ha' & Hv & _) & _). rewrite (alive_at _ _ _ Ha').
    injection Hv as Hp' _ _ _ _ Hx. cbn in Hp', Hx. rewrite Hp', Hp.
    eapply steps_after; [exact S3|]. split; [|split].
    + apply (evolves_free_exited w3 c ca'); [apply S3|done|congruence|done].
    + apply fresh_free, S3.
    + by apply same_pools_eq.
Qed.
