(* ===== verification/BufPoolDestroy.v ===== *)
(** * Destroying a pool

    With no thread inside it, [buffer_pool_destroy] returns, frees every buffer
    of the pool and of its caches, and leaves no cache that refers to it.
    Between the phases the invariant holds of the world in which the pool is
    revived with the caches that are still to be processed ([revive]). *)
From Stdlib Require Import ZArith Lia List.
From stdpp Require Import base tactics list.
From S2P Require Import Prelude BufSize BufMap BufPool BufShardSpec BufPoolInv BufPoolSpec BufPoolOps.

#[local] Open Scope Z_scope.

(** ** Processing a cache does not look at the pools *)

Definition with_pools (P : list buffer_pool_t) (w : world) : world := w <| pools := P |>.

Lemma free_classes_pools P c n : forall k w,
  free_classes None c k n (with_pools P w) = with_pools P (free_classes None c k n w).
Proof.
  induction n as [|n IH]; intros k w; [done|]. cbn [free_classes].
  change (cache_at (with_pools P w) c) with (cache_at w c).
  destruct (0 <? tc_count (cache_at w c) k); rewrite <- IH; done.
Qed.

Definition orphan (ca : thread_cache_t) : thread_cache_t := ca <| tc_pool := None |>.
Definition relist (h : option Z) (pool : buffer_pool_t) : buffer_pool_t := pool <| thread_caches := h |>.

(** [process_cache] after the pointer to the pool is cleared. *)
Definition drop_cache (c self : Z) (w : world) : world :=
  if owner_thread (cache_at w c) =? self then
    free_cache c (setspecific self None
      (if pool_eqb (tls_at w self) (Some c) then set_tls self None w else w))
  else if thread_exited (cache_at w c) then free_cache c w
  else w.

Lemma process_cache_drop c self w : process_cache c self w =
  drop_cache c self (upd_cache c orphan (cleanup_cache_buffers_locked None c CACHE_CLEANUP_FREE w)).
Proof. done. Qed.

Lemma drop_cache_pools P c self w : drop_cache c self (with_pools P w) = with_pools P (drop_cache c self w).
Proof.
  unfold drop_cache. change (cache_at (with_pools P w) c) with (cache_at w c).
  change (tls_at (with_pools P w) self) with (tls_at w self).
  destruct (owner_thread (cache_at w c) =? self); [|by destruct (thread_exited (cache_at w c))].
  unfold setspecific, set_tls. destruct (pool_eqb (tls_at w self) (Some c)); cbn;
    by destruct (tls_key_valid w) eqn:E; rewrite ?E.
Qed.

Lemma drop_cache_same_pools c self w : pools (drop_cache c self w) = pools w.
Proof.
  assert (with_pools (pools w) w = w) as E by (by destruct w).
  rewrite <- E at 1. by rewrite drop_cache_pools.
Qed.

Lemma free_mark_pools P c n w :
  upd_cache c (fun ca => ca <| cleaned_up := true |>) (free_classes None c 0 n (with_pools P w)) =
  with_pools P (upd_cache c (fun ca => ca <| cleaned_up := true |>) (free_classes None c 0 n w)).
Proof. by rewrite free_classes_pools. Qed.

Lemma cleanup_pools P c w :
  cleanup_cache_buffers_locked None c CACHE_CLEANUP_FREE (with_pools P w) =
  with_pools P (cleanup_cache_buffers_locked None c CACHE_CLEANUP_FREE w).
Proof.
  unfold cleanup_cache_buffers_locked. cbv zeta.
  generalize (Z.to_nat BUFFER_SIZE_CLASSES). intros n. rewrite free_mark_pools.
  change (cache_at (with_pools P w) c) with (cache_at w c). by destruct (cleaned_up (cache_at w c)).
Qed.

Lemma process_cache_pools P c self w :
  process_cache c self (with_pools P w) = with_pools P (process_cache c self w).
Proof.
  rewrite !process_cache_drop, cleanup_pools, <- drop_cache_pools. done.
Qed.

(** The world in which pool [p] is alive with the list [h] of caches. *)
Definition revive (p : Z) (h : option Z) (w : world) : world :=
  upd_pool p (fun pool => pool <| destroyed := false |> <| thread_caches := h |>) w.

Lemma process_cache_same_pools c self w : pools (process_cache c self w) = pools w.
Proof.
  assert (with_pools (pools w) w = w) as E by (by destruct w).
  rewrite <- E at 1. by rewrite process_cache_pools.
Qed.

Lemma process_cache_revive p h c self w :
  process_cache c self (revive p h w) = revive p h (process_cache c self w).
Proof.
  assert (forall w, revive p h w = with_pools (aset (pools w) p
    ((pool_at w p) <| destroyed := false |> <| thread_caches := h |>)) w) as E by done.
  rewrite !E, process_cache_pools. unfold pool_at. by rewrite process_cache_same_pools.
Qed.

(** ** One cache *)

Section Pop.
Context (w : world) (p c : Z) (ca : thread_cache_t).
Context (Hok : world_ok w) (Hp : 0 <= p < zlen (pools w)) (Ha : alive w c ca).
Context (Hhead : thread_caches (pool_at w p) = Some c) (Hnil : cache_bufs ca = []).

#[local] Abbreviation w' := (upd_pool p (relist (tc_next ca)) (upd_cache c orphan w)).

Lemma pop_cell d : s_cache (shape w') d = if d =? c then Some (cview_of (orphan ca)) else s_cache (shape w) d.
Proof using Ha. exact (s_cache_upd w c orphan ca d Ha). Qed.

Lemma pop_pool q : s_pool (shape w') q =
  {| v_destroyed := v_destroyed (s_pool (shape w) q); v_shards := v_shards (s_pool (shape w) q);
     v_mask := v_mask (s_pool (shape w) q);
     v_list := if q =? p then tc_next ca else v_list (s_pool (shape w) q) |}.
Proof using Hp.
  rewrite !s_pool_shape. destruct (Z.eqb_spec q p) as [->|Hne].
  - by rewrite pool_at_upd.
  - by rewrite pool_at_upd_ne by congruence.
Qed.

Lemma pop_own : s_cache (shape w) c = Some (cview_of ca).
Proof using Ha. rewrite s_cache_shape. by rewrite Ha. Qed.

Lemma pop_wired : wired (shape w').
Proof using Hok Hp Ha Hhead.
  pose proof pop_cell as Hcell. pose proof pop_pool as Hpool. pose proof pop_own as Hown.
  destruct (wo_wired _ Hok) as [W1 W2 W3 W4 W5 W6].
  assert (zlen (s_pools (shape w')) = zlen (s_pools (shape w))) as Elen
    by (rewrite !zlen_pools_shape, zlen_upd_pool; done).
  assert (forall d v, s_cache (shape w') d = Some v -> forall q, v_pool v = Some q ->
    d <> c /\ s_cache (shape w) d = Some v) as Hback.
  { intros d v Hv q Hq. rewrite Hcell in Hv. destruct (Z.eqb_spec d c); [|done].
    by injection Hv as <-. }
  assert (forall d v t, s_cache (shape w) d = Some v -> v_owner v = t -> v_exited v = false ->
    exists v', s_cache (shape w') d = Some v' /\ v_owner v' = t /\ v_exited v' = false) as Hfwd.
  { intros d v t Hv Ho He. rewrite Hcell. destruct (Z.eqb_spec d c) as [->|]; [|by exists v].
    rewrite Hown in Hv. injection Hv as <-. by eexists. }
  split.
  - intros q. rewrite Elen, Hpool. apply W1.
  - intros d v q Hv Hq. destruct (Hback d v Hv q Hq) as [_ Hv0]. rewrite Elen, Hpool. by apply (W2 d).
  - intros q. rewrite Elen, Hpool. intros Hq. cbn. destruct (W3 q Hq) as (l & Hnd & Hl & Hin).
    destruct (Z.eqb_spec q p) as [->|Hne].
    + rewrite s_pool_shape in Hl. cbn in Hl. rewrite Hhead in Hl.
      destruct l as [|d l]; [done|]. destruct Hl as (Ed & v & Hv & Hl). injection Ed as <-.
      rewrite Hown in Hv. injection Hv as <-. apply NoDup_cons in Hnd as [Hc Hnd].
      exists l. split_and!; [done| |].
      * eapply clist_ext; [|exact Hl]. intros d Hd. rewrite Hcell. by destruct (Z.eqb_spec d c) as [->|].
      * intros d. split.
        -- intros Hd. destruct (proj1 (Hin d)) as (v & Hv & Hvp); [by right|]. exists v. split; [|done].
           rewrite Hcell. by destruct (Z.eqb_spec d c) as [->|].
        -- intros (v & Hv & Hvp). destruct (Hback d v Hv p Hvp) as [Hne Hv0].
           assert (d ∈ c :: l) as Hd by (apply Hin; by exists v). by apply elem_of_cons in Hd as [->|].
    + assert (c ∉ l \/ v_pool (cview_of ca) = Some q) as Hc.
      { destruct (decide (c ∈ l)) as [Hc|]; [right|by left]. apply Hin in Hc as (v & Hv & Hvp). congruence. }
      assert (tc_pool ca = Some p) as Hcp.
      { destruct (W3 p) as (lp & _ & Hlp & Hinp); [rewrite zlen_pools_shape; done|].
        rewrite s_pool_shape in Hlp. cbn in Hlp. rewrite Hhead in Hlp. destruct lp as [|d lp]; [done|].
        destruct Hlp as [Ed _]. injection Ed as <-. destruct (proj1 (Hinp c)) as (v & Hv & Hvp); [by left|].
        rewrite Hown in Hv. by injection Hv as <-. }
      assert (c ∉ l) as Hcl by (destruct Hc as [|Hc]; [done|cbn in Hc; congruence]).
      exists l. split_and!; [done| |].
      * eapply clist_ext; [|exact Hl]. intros d Hd. rewrite Hcell. by destruct (Z.eqb_spec d c) as [->|].
      * intros d. rewrite Hin. split.
        -- intros (v & Hv & Hvp). exists v. split; [|done]. rewrite Hcell.
           destruct (Z.eqb_spec d c) as [->|]; [|done]. rewrite Hown in Hv. injection Hv as <-. cbn in Hvp. congruence.
        -- intros (v & Hv & Hvp). destruct (Hback d v Hv q Hvp) as [_ Hv0]. by exists v.
  - exact W4.
  - intros t d H. destruct (W5 t d H) as ((v & Hv & Ho & He) & Hk). split; [by eapply Hfwd|exact Hk].
  - intros t d H. destruct (W6 t d H) as (Hval & v & Hv & Ho & He). split; [exact Hval|by eapply Hfwd].
Qed.

Lemma pop_evolves : evolves w w' [] [].
Proof using Hok Hp Ha Hhead Hnil.
  destruct Hok as [Hw Hs].
  destruct (stored_mark c orphan w ca Hs Ha eq_refl eq_refl (fun _ => Hnil)) as [Hs1 P1].
  set (w1 := upd_cache c orphan w) in *. split.
  - split; [exact pop_wired|]. apply (stored_ok_pools w1 (upd_pool p (relist (tc_next ca)) w1) Hs1 (zlen_upd_pool p (relist (tc_next ca)) w1) eq_refl).
    intros q sh _ Hin. right. by rewrite (pool_at_upd_proj shards) in Hin.
  - pose proof (ledger_upd_pool_same p (relist (tc_next ca)) w1 eq_refl). perm_lia.
  - by rewrite counters_upd_pool.
Qed.

Lemma pop_alive : alive w' c (orphan ca).
Proof using Ha. apply (alive_upd c orphan w ca). exact Ha. Qed.
End Pop.

Lemma drop_views c self w : let w' := drop_cache c self w in
  s_pools (shape w') = s_pools (shape w) /\
  (forall d, s_cache (shape w') d = s_cache (shape w) d \/ d = c /\ s_cache (shape w') d = None) /\
  (forall t d, aget None (s_tls (shape w')) t = Some d -> aget None (s_tls (shape w)) t = Some d).
Proof.
  assert (forall w0, pools w0 = pools w -> caches w0 = caches w ->
    (forall t d, aget None (s_tls (shape w0)) t = Some d -> aget None (s_tls (shape w)) t = Some d) ->
    let w' := free_cache c w0 in s_pools (shape w') = s_pools (shape w) /\
    (forall d, s_cache (shape w') d = s_cache (shape w) d \/ d = c /\ s_cache (shape w') d = None) /\
    (forall t d, aget None (s_tls (shape w')) t = Some d -> aget None (s_tls (shape w)) t = Some d)) as Hf.
  { intros w0 Ep Ec Et. split_and!; [unfold shape; cbn; by rewrite Ep| |exact Et].
    intros d. rewrite s_cache_free. destruct (Z.eqb_spec d c); [by right|left].
    rewrite !s_cache_shape. by rewrite Ec. }
  unfold drop_cache. destruct (_ =? self); [|destruct (thread_exited _); [by apply Hf|]].
  - apply Hf; unfold setspecific, set_tls; destruct (pool_eqb _ _); cbn; destruct (tls_key_valid w); cbn; try done;
      intros t d H; by apply aget_aset_none in H as [_ H].
  - split_and!; [done|by left|done].
Qed.

Lemma drop_evolves c self w ca : world_ok w -> alive w c ca -> tc_pool ca = None ->
  evolves w (drop_cache c self w) [] [].
Proof.
  intros Hok Ha Hp. unfold drop_cache. rewrite (alive_at _ _ _ Ha).
  assert (s_cache (shape w) c = Some (cview_of ca)) as Hc by (rewrite s_cache_shape; by rewrite Ha).
  destruct (Z.eqb_spec (owner_thread ca) self) as [Ho|Ho].
  2:{ destruct (thread_exited ca) eqn:He; [by apply (evolves_free_exited w c ca)|by apply evolves_refl]. }
  set (w1 := if pool_eqb _ _ then _ else _). set (w2 := setspecific self None w1).
  assert (shape w2 = {| s_pools := s_pools (shape w); s_caches := s_caches (shape w);
    s_tls := if pool_eqb (tls_at w self) (Some c) then aset (s_tls (shape w)) self None else s_tls (shape w);
    s_key := if s_valid (shape w) then aset (s_key (shape w)) self None else s_key (shape w);
    s_valid := s_valid (shape w) |}) as Esh.
  { unfold w2, w1, setspecific, set_tls. destruct (pool_eqb _ _); unfold shape; cbn;
      by destruct (tls_key_valid w) eqn:E; cbn; rewrite ?E. }
  assert (pools w2 = pools w /\ caches w2 = caches w /\ freed w2 = freed w /\ heap w2 = heap w)
    as (E1 & E2 & E3 & E4).
  { unfold w2, w1, setspecific, set_tls. destruct (pool_eqb _ _); cbn; by destruct (tls_key_valid w). }
  apply (evolves_drop w _ c ca); try done; [by apply (so_caches _ (wo_stored _ Hok) c ca); auto|by cbn; rewrite E2|].
  pose proof (wo_wired _ Hok) as Hw. apply (wired_less (shape w)); [|done].
  assert (forall d, s_cache (shape (free_cache c w2)) d = if d =? c then None else s_cache (shape w) d) as Hd.
  { intros d. rewrite s_cache_free. destruct (d =? c); [done|]. unfold s_cache. by rewrite Esh. }
  assert (forall d v, s_cache (shape w) d = Some v -> v_owner v <> self \/ d <> c -> d <> c) as Hne.
  { intros d v Hv [H| ]; [|done]. intros ->. rewrite Hc in Hv. injection Hv as <-. by cbn in H. }
  split.
  - exact (f_equal s_pools Esh).
  - exact (f_equal s_valid Esh).
  - change (s_tls (shape (free_cache c w2))) with (s_tls (shape w2)).
    change (s_key (shape (free_cache c w2))) with (s_key (shape w2)). rewrite Esh. cbn [s_tls s_key].
    destruct (pool_eqb _ _), (s_valid (shape w)); by rewrite ?length_aset.
  - intros d v. rewrite Hd. destruct (d =? c); [done|]. intros H. exists v. by split_and!.
  - intros d v Hv. rewrite Hd. destruct (Z.eqb_spec d c) as [->|].
    + right. split; [done|]. rewrite Hc in Hv. by injection Hv as <-.
    + left. exists v. by split_and!.
  - intros t d. change (s_tls (shape (free_cache c w2))) with (s_tls (shape w2)). rewrite Esh. cbn [s_tls].
    intros H. assert (aget None (s_tls (shape w)) t = Some d /\ d <> c) as [Ht Hdc].
    { destruct (pool_eqb (tls_at w self) (Some c)) eqn:E.
      - apply aget_aset_none in H as [Ht H]. split; [done|].
        destruct (wi_tls _ Hw t d H) as ((v & Hv & Hov & _) & _). apply (Hne d v Hv). left. congruence.
      - split; [done|]. apply bool_decide_eq_false in E.
        destruct (wi_tls _ Hw t d H) as ((v & Hv & Hov & _) & _). apply (Hne d v Hv).
        destruct (decide (t = self)) as [->|]; [right|left; congruence]. intros ->. by apply E. }
    split; [done|]. destruct (wi_tls _ Hw t d Ht) as ((v & Hv & _ & Hx) & _). exists v. split; [|done].
    rewrite Hd. by destruct (Z.eqb_spec d c).
  - intros t d. change (s_key (shape (free_cache c w2))) with (s_key (shape w2)). rewrite Esh. cbn [s_key].
    intros H. assert (t <> self /\ aget None (s_key (shape w)) t = Some d) as [Hts Ht].
    { destruct (s_valid (shape w)) eqn:Hv; [by apply aget_aset_none in H|].
      destruct (wi_key _ Hw t d H). congruence. }
    split; [done|]. destruct (wi_key _ Hw t d Ht) as (_ & v & Hv & Hov & Hx). exists v. split; [|done].
    rewrite Hd. destruct (Z.eqb_spec d c); [|done]. exfalso. apply (Hne d v Hv); [left; congruence|done].
Qed.

Lemma clist_head w p : world_ok w -> 0 <= p < zlen (pools w) -> forall c,
  thread_caches (pool_at w p) = Some c -> exists ca, alive w c ca /\ tc_pool ca = Some p.
Proof.
  intros [Hw _] Hp c Hc. destruct (wi_list _ Hw p) as (l & _ & Hl & Hin); [by rewrite zlen_pools_shape|].
  rewrite s_pool_shape in Hl. cbn in Hl. rewrite Hc in Hl. destruct l as [|d l]; [done|].
  destruct Hl as [Ed _]. injection Ed as <-. destruct (proj1 (Hin c)) as (v & Hv & Hvp); [by left|].
  rewrite s_cache_shape in Hv. destruct (aget None (caches w) c) as [ca|] eqn:Ha; [|done].
  injection Hv as <-. by exists ca.
Qed.

(** Processing the head of the list and unlinking it. *)
Lemma process_pop w p c self : world_inv w -> 0 <= p < zlen (pools w) ->
  thread_caches (pool_at w p) = Some c ->
  let w' := upd_pool p (relist (tc_next (cache_at w c))) (process_cache c self w) in
  steps_to w w' [] [] /\ forall d, d <> c -> s_cache (shape w') d = s_cache (shape w) d.
Proof.
  intros [Hok Hf] Hp Hc. destruct (clist_head w p Hok Hp c Hc) as (ca & Ha & Hpool).
  rewrite (alive_at _ _ _ Ha), process_cache_drop.
  pose proof (cleanup_free None c w ca Hok Ha) as C. set (w1 := cleanup_cache_buffers_locked _ _ _ _) in *.
  destruct C as (E1 & C1 & C2 & _ & _ & _ & (ca1 & Ha1 & Hv1 & Hb1) & C6).
  assert (tc_next ca = tc_next ca1) as -> by (by injection Hv1).
  assert (0 <= p < zlen (pools w1)) as Hp1 by (rewrite <- zlen_pools_shape, C1, zlen_pools_shape; done).
  assert (thread_caches (pool_at w1 p) = Some c) as Hc1.
  { pose proof (f_equal v_list (s_pool_shape w1 p)) as H. cbn in H. rewrite <- H. unfold s_pool.
    rewrite C1. fold (s_pool (shape w) p). by rewrite s_pool_shape. }
  set (w2 := upd_pool p (relist (tc_next ca1)) (upd_cache c orphan w1)).
  assert (upd_pool p (relist (tc_next ca1)) (drop_cache c self (upd_cache c orphan w1)) = drop_cache c self w2) as ->.
  { unfold w2, upd_pool, pool_at. rewrite drop_cache_same_pools. symmetry. apply drop_cache_pools. }
  pose proof (pop_evolves w1 p c ca1 ltac:(apply E1) Hp1 Ha1 Hc1 Hb1) as E2. fold w2 in E2.
  pose proof (drop_evolves c self w2 (orphan ca1) ltac:(apply E2) (pop_alive w1 p c ca1 Ha1) eq_refl) as E3.
  destruct (drop_views c self w2) as (D1 & D2 & D3). cbv zeta in D1, D2, D3.
  pose proof (pop_cell w1 p c ca1 Ha1) as Hcell. fold w2 in Hcell.
  split; [split; [eapply evolves_nil; [exact E1|by eapply evolves_nil]|]; split|].
  - intros t d v Ht Hv Hvp. apply D3 in Ht.
    assert (aget None (s_tls (shape w)) t = Some d) as Ht0 by (rewrite <- C2; exact Ht).
    destruct (D2 d) as [Ed|[_ Ed]]; [|congruence]. rewrite Ed in Hv.
    rewrite Hcell in Hv.
    destruct (Z.eqb_spec d c) as [->|Hne]; [by injection Hv as <-|].
    rewrite C6 in Hv by done. by apply (Hf t d v).
  - apply (same_pools_trans _ (shape w1)); [by apply same_pools_eq|].
    apply (same_pools_trans _ (shape w2)); [|by apply same_pools_eq].
    split; [rewrite !zlen_pools_shape; exact (zlen_upd_pool _ _ (upd_cache c orphan w1))|]. intros q.
    pose proof (pop_pool w1 p c ca1 Hp1 q) as Hq. fold w2 in Hq. by rewrite Hq.
  - intros d Hd. destruct (D2 d) as [->|[-> _]]; [|done]. rewrite Hcell.
    destruct (Z.eqb_spec d c); [done|]. by apply C6.
Qed.

(** ** The phases *)

Lemma aset_aset {A} (l : list A) i x y : aset (aset l i x) i y = aset l i y.
Proof. unfold aset. destruct (i <? 0); [done|]. apply list_insert_insert_eq. Qed.

Lemma revive_relist p h h' w : 0 <= p < zlen (pools w) ->
  upd_pool p (relist h') (revive p h w) = revive p h' w.
Proof.
  intros Hp. unfold revive at 1, upd_pool at 1. cbn.
  rewrite pool_at_upd by done. unfold revive, upd_pool. cbn. by rewrite aset_aset.
Qed.

Lemma revive_pool p h w : 0 <= p < zlen (pools w) ->
  thread_caches (pool_at (revive p h w) p) = h /\ destroyed (pool_at (revive p h w) p) = false /\
  shards (pool_at (revive p h w) p) = shards (pool_at w p).
Proof. intros Hp. unfold revive. by rewrite pool_at_upd. Qed.

Lemma clist_det s l : forall h l', clist s h l -> clist s h l' -> l = l'.
Proof.
  induction l as [|c l IH]; intros h [|c' l'] H H'; cbn in H, H'; [done| | |].
  - destruct H' as [-> _]. done.
  - destruct H as [-> _]. done.
  - destruct H as (-> & v & Hv & Hl), H' as (E & v' & Hv' & Hl'). injection E as <-.
    rewrite Hv in Hv'. injection Hv' as <-. f_equal. by apply (IH (v_next v)).
Qed.

Lemma process_list_spec p self l : forall fuel h w, world_inv (revive p h w) -> 0 <= p < zlen (pools w) ->
  clist (shape (revive p h w)) h l -> (length l <= fuel)%nat ->
  exists w', process_list h self fuel w = Some w' /\ pools w' = pools w /\
    steps_to (revive p h w) (revive p None w') [] [].
Proof.
  induction l as [|c l IH]; intros fuel h w Hinv Hp Hl Hf.
  - cbn in Hl. subst h. exists w. split_and!; [by destruct fuel|done|].
    apply steps_moves; [apply Hinv|apply moves_refl, Hinv].
  - destruct Hl as (-> & v & Hv & Hl). destruct fuel as [|fuel]; cbn in Hf; [lia|]. cbn [process_list].
    destruct (revive_pool p (Some c) w Hp) as (Hh & _ & _).
    assert (0 <= p < zlen (pools (revive p (Some c) w))) as Hp' by (unfold revive; rewrite zlen_upd_pool; done).
    pose proof (process_pop (revive p (Some c) w) p c self Hinv Hp' Hh) as [S Hd]; cbv zeta in Hd.
    change (cache_at (revive p (Some c) w) c) with (cache_at w c) in S, Hd.
    set (h' := tc_next (cache_at w c)) in *. set (w1 := process_cache c self w) in *.
    assert (zlen (pools w1) = zlen (pools w)) as Ez by (unfold w1; by rewrite process_cache_same_pools).
    rewrite process_cache_revive, revive_relist in S, Hd by (fold w1; lia). fold w1 in S, Hd.
    assert (v_next v = h') as Eh.
    { rewrite s_cache_shape in Hv. unfold h', cache_at. change (caches (revive p (Some c) w)) with (caches w) in Hv.
      destruct (aget None (caches w) c); [by injection Hv as <-|done]. }
    rewrite Eh in Hl. destruct (IH fuel h' w1) as (w' & E & Ep & S'); [by eapply steps_inv|lia| |lia|].
    + destruct (wi_list _ (wo_wired _ (wv_ok _ Hinv)) p) as (l2 & Hnd & Hl2 & _).
      { by rewrite zlen_pools_shape. }
      rewrite s_pool_shape in Hl2. cbn [v_list pview_of] in Hl2. rewrite Hh in Hl2.
      assert (c :: l = l2) as <-.
      { eapply clist_det; [|exact Hl2]. split; [done|]. exists v. by rewrite Eh. }
      apply NoDup_cons in Hnd as [Hc _]. eapply clist_ext; [|exact Hl]. intros d Hdl.
      rewrite Hd; [done|]. by intros ->.
    + exists w'. split_and!; [done|by rewrite Ep; unfold w1; rewrite process_cache_same_pools|].
      by eapply steps_nil.
Qed.

Lemma filter_nonzero (l : list Z) : 0 ∉ l -> filter (fun b => b <> 0) l = l.
Proof.
  induction l as [|x l IH]; intros H; [done|]. apply not_elem_of_cons in H as [Hx H].
  rewrite filter_cons_True by congruence. by rewrite IH.
Qed.

Lemma destroy_shards_spec ss : (forall sh, sh ∈ ss -> shard_ok sh) -> 0 ∉ concat (map shard_bufs ss) ->
  destroy_shards ss = Some (concat (map shard_bufs ss)).
Proof.
  induction ss as [|s ss IH]; intros Hok H0; [done|]. cbn in *.
  rewrite elem_of_app in H0. destruct (abs_destroy s _ (Hok s ltac:(by left))) as (s' & ->).
  rewrite IH; [| |tauto]. 2:{ intros sh Hsh. apply Hok. by right. }
  rewrite filter_nonzero; [done|]. unfold shard_bufs in H0. tauto.
Qed.

Lemma nodup_range (l : list Z) n : NoDup l -> (forall c, c ∈ l -> 0 <= c < n) -> (length l <= Z.to_nat n)%nat.
Proof.
  intros Hnd Hr. rewrite <- (length_seqZ 0 n). apply NoDup_incl_length; [by apply NoDup_ListNoDup|].
  intros c Hc. apply list_elem_of_In. apply list_elem_of_In in Hc. apply elem_of_seqZ. specialize (Hr c Hc). lia.
Qed.

(** Phase 3 on a pool without caches. *)
Definition bury (pool : buffer_pool_t) : buffer_pool_t :=
  pool <| shards := [] |> <| shard_count := 0 |> <| shard_mask := 0 |>
       <| total_allocated := 0 |> <| total_buffers := 0 |>.

Definition unattached (s : shape_t) (p : Z) : Prop :=
  forall c v, s_cache s c = Some v -> v_pool v <> Some p.

(** Replacing a pool that no cache belongs to. *)
Lemma repool_wired s s' p v : wired s -> unattached s p ->
  (forall q, s_pool s' q = if q =? p then v else s_pool s q) -> zlen (s_pools s') = zlen (s_pools s) ->
  s_caches s' = s_caches s -> s_tls s' = s_tls s -> s_key s' = s_key s -> s_valid s' = s_valid s ->
  v_list v = None ->
  (0 < v_shards v -> v_mask v = v_shards v - 1 /\ exists j, 0 <= j /\ v_shards v = 2 ^ j) -> wired s'.
Proof.
  intros [W1 W2 W3 W4 W5 W6] Hun Hpool El Ec Et Ek Ev Hnil Hmask.
  assert (forall c, s_cache s' c = s_cache s c) as Hc by (intros c; unfold s_cache; by rewrite Ec).
  split; rewrite ?Et, ?Ek, ?Ev; try setoid_rewrite Hc; try done.
  - intros q. rewrite El, Hpool. destruct (q =? p); [done|apply W1].
  - intros c u q Hu Hq. rewrite El, Hpool.
    destruct (Z.eqb_spec q p) as [->|]; [by destruct (Hun c u Hu)|by apply (W2 c)].
  - intros q. rewrite El, Hpool. intros Hq. destruct (Z.eqb_spec q p) as [->|].
    + exists []. split_and!; [apply NoDup_nil_2|done|]. intros c. split; [intros H; by apply elem_of_nil in H|].
      intros (u & Hu & Hp). by destruct (Hun c u Hu).
    + destruct (W3 q Hq) as (l & Hnd & Hl2 & Hin2). exists l. split_and!; [done| |exact Hin2].
      eapply clist_ext; [|exact Hl2]. intros c _. by rewrite Hc.
Qed.

Lemma bury_wired w p : let r := revive p None w in
  world_ok r -> 0 <= p < zlen (pools w) -> destroyed (pool_at w p) = true ->
  thread_caches (pool_at w p) = None ->
  unattached (shape r) p /\ wired (shape (upd_pool p bury w)).
Proof.
  intros r [Hw _] Hp Hd Ht. destruct (revive_pool p None w Hp) as (Rh & Rd & Rs). fold r in Rh, Rd, Rs.
  assert (zlen (pools r) = zlen (pools w)) as Er by apply zlen_upd_pool.
  destruct (wi_list _ Hw p) as (l & _ & Hl & Hin); [by rewrite zlen_pools_shape, Er|].
  rewrite s_pool_shape in Hl. cbn [v_list pview_of] in Hl. rewrite Rh in Hl.
  assert (l = []) as -> by (destruct l as [|d l]; [done|by destruct Hl]).
  assert (unattached (shape r) p) as Hun.
  { intros c v Hv Hvp. assert (c ∈ []) as Hc by (apply Hin; by exists v). by apply elem_of_nil in Hc. }
  split; [done|].
  apply (repool_wired (shape r) _ p {| v_destroyed := true; v_shards := 0; v_mask := 0; v_list := None |});
    try done.
  - intros q. rewrite !s_pool_shape. destruct (Z.eqb_spec q p) as [->|Hne].
    + rewrite pool_at_upd by done. unfold pview_of, bury. cbn. by rewrite Hd, Ht.
    + unfold r, revive. by rewrite !pool_at_upd_ne by congruence.
  - rewrite !zlen_pools_shape, Er. apply zlen_upd_pool.
Qed.

(** What destroying pool [p] achieves: it returns; nothing of the pool is left
    (no shard, no list, no cache attached to it), so that by the conservation
    of the ledger its buffers were all given to [free]; the other pools, the
    counters and the invariants are as before. *)
Definition destroyed_well (w w' : world) (p : Z) : Prop :=
  world_inv w' /\ ledger w' ≡ₚ ledger w /\ counters w' = counters w /\
  zlen (pools w') = zlen (pools w) /\
  destroyed (pool_at w' p) = true /\ shards (pool_at w' p) = [] /\ thread_caches (pool_at w' p) = None /\
  unattached (shape w') p /\
  forall q, q <> p -> pool_at w' q = pool_at w q.

Definition doom (pool : buffer_pool_t) : buffer_pool_t := pool <| destroyed := true |>.

Lemma phase_1_ok w p : 0 <= p < zlen (pools w) -> registrations_inflight (pool_at w p) = 0 ->
  active_users (pool_at w p) = 0 -> cleanup_phase_1_mark_destroyed p w = Some (upd_pool p doom w).
Proof.
  intros Hp Hr Hu. unfold cleanup_phase_1_mark_destroyed. fold doom. rewrite pool_at_upd by done.
  change (registrations_inflight (doom (pool_at w p))) with (registrations_inflight (pool_at w p)).
  change (active_users (doom (pool_at w p))) with (active_users (pool_at w p)). by rewrite Hr, Hu.
Qed.

Lemma phase_2_ok w p self : world_inv w -> 0 <= p < zlen (pools w) -> destroyed (pool_at w p) = false ->
  exists w3, cleanup_phase_2_process_caches p self (upd_pool p doom w) = Some w3 /\
    pools w3 = aset (pools w) p (relist None (doom (pool_at w p))) /\
    steps_to w (revive p None w3) [] [].
Proof.
  intros Hinv Hp Hd. unfold cleanup_phase_2_process_caches. cbv zeta. rewrite pool_at_upd by done.
  change (thread_caches (doom (pool_at w p))) with (thread_caches (pool_at w p)).
  set (h := thread_caches (pool_at w p)). set (w2 := upd_pool p _ (upd_pool p doom w)).
  assert (pools w2 = aset (pools w) p (relist None (doom (pool_at w p)))) as E2.
  { unfold w2, upd_pool. cbn. rewrite aset_aset. fold (upd_pool p doom w). by rewrite pool_at_upd. }
  assert (0 <= p < zlen (pools w2)) as Hp2 by (rewrite E2, zlen_aset; done).
  assert (revive p h w2 = w) as Er.
  { unfold revive, upd_pool. assert (pool_at w2 p = relist None (doom (pool_at w p))) as ->.
    { unfold pool_at at 1. rewrite E2. by apply aget_aset_eq. }
    rewrite E2, aset_aset. 
    assert ((relist None (doom (pool_at w p))) <| destroyed := false |> <| thread_caches := h |> = pool_at w p) as ->.
    { unfold h. destruct (pool_at w p) eqn:E. cbn in Hd. by subst. }
    unfold pool_at. rewrite aset_id. by destruct w. }
  destruct (wi_list _ (wo_wired _ (wv_ok _ Hinv)) p) as (l & Hnd & Hl & Hin); [by rewrite zlen_pools_shape|].
  rewrite s_pool_shape in Hl. cbn [v_list pview_of] in Hl.
  destruct (process_list_spec p self l (length (caches w2)) h w2) as (w3 & E & Ep & S); try done.
  - by rewrite Er.
  - by rewrite Er.
  - change (caches w2) with (caches w). rewrite <- (Nat2Z.id (length (caches w))). apply nodup_range; [done|].
    intros c Hc. apply Hin in Hc as (v & Hv & _). apply aget_some_range in Hv. by rewrite s_caches_len in Hv.
  - exists w3. rewrite Ep, Er in *. by split_and!.
Qed.

Lemma buffer_pool_destroy_ok w p self : world_inv w -> 0 <= p < zlen (pools w) ->
  destroyed (pool_at w p) = false -> registrations_inflight (pool_at w p) = 0 ->
  active_users (pool_at w p) = 0 -> 0 ∉ ledger w ->
  exists w', buffer_pool_destroy p self w = Some w' /\ destroyed_well w w' p.
Proof.
  intros Hinv Hp Hd Hr Hu H0. unfold buffer_pool_destroy. rewrite phase_1_ok by done.
  destruct (phase_2_ok w p self Hinv Hp Hd) as (w3 & -> & Ep & S). unfold cleanup_phase_3_destroy_shards.
  set (r := revive p None w3) in *. pose proof (steps_inv _ _ _ _ S) as [Hrok Hrf].
  assert (0 <= p < zlen (pools w3)) as Hp3 by (rewrite Ep, zlen_aset; done).
  assert (pool_at w3 p = relist None (doom (pool_at w p))) as E3
    by (unfold pool_at at 1; rewrite Ep; by apply aget_aset_eq).
  destruct (bury_wired w3 p Hrok Hp3) as [Hun Hwired]; [by rewrite E3|by rewrite E3|]. fold r in Hun.
  destruct (revive_pool p None w3 Hp3) as (_ & _ & Rs). fold r in Rs.
  assert (0 <= p < zlen (pools r)) as Hpr by (unfold r, revive; by rewrite zlen_upd_pool).
  pose proof (ev_ledger _ _ _ _ (proj1 S)) as L. cbn [app] in L.
  pose proof (pooled_upd_pool p bury w3 Hp3) as P. change (pool_bufs (bury (pool_at w3 p))) with (@nil Z) in P.
  assert (ledger r ≡ₚ ledger w3) as Q by (by apply ledger_upd_pool_same).
  assert (pool_bufs (pool_at r p) = concat (map shard_bufs (shards (pool_at w3 p)))) as Eb
    by (unfold pool_bufs; by rewrite Rs).
  rewrite (destroy_shards_spec (shards (pool_at w3 p))).
  2:{ intros sh Hsh. rewrite <- Rs in Hsh. by apply (so_shards _ (wo_stored _ Hrok) p). }
  2:{ rewrite <- Eb. intros H. apply H0. rewrite L. unfold ledger, pooled. rewrite !elem_of_app. left. left.
      apply list_elem_of_In, in_concat. exists (pool_bufs (pool_at r p)). split; [|by apply list_elem_of_In].
      apply in_map. unfold pool_at, aget. destruct (Z.ltb_spec p 0); [lia|]. apply nth_In. unfold zlen in Hpr. lia. }
  change (concat (map shard_bufs (shards (pool_at w3 p)))) with (pool_bufs (pool_at w3 p)) in Eb |- *.
  rewrite <- Eb in P |- *. set (bufs := pool_bufs (pool_at r p)) in *. fold bury.
  eexists. split; [reflexivity|]. set (w' := upd_pool p bury (free_bufs bufs w3)).
  assert (pool_at w' p = bury (pool_at w3 p)) as Ew by (unfold w'; rewrite pool_at_upd; done).
  assert (forall q, q <> p -> pool_at w' q = pool_at w q) as Hne.
  { intros q Hq. unfold w'. rewrite pool_at_upd_ne by congruence.
    change (pool_at (free_bufs bufs w3) q) with (pool_at w3 q). unfold pool_at. rewrite Ep.
    by apply aget_aset_ne. }
  assert (zlen (pools w') = zlen (pools w)) as Ez by (unfold w'; rewrite zlen_upd_pool; cbn; by rewrite Ep, zlen_aset).
  split_and!; try done.
  - split; [split; [exact Hwired|]|exact Hrf]. split; [|apply (wo_stored _ Hrok)].
    intros q sh Hq Hin. destruct (decide (q = p)) as [->|Hqp]; [rewrite Ew in Hin; by apply elem_of_nil in Hin|].
    rewrite Hne in Hin by done. apply (so_shards _ (wo_stored _ (wv_ok _ Hinv)) q); [lia|done].
  - unfold ledger. change (pooled w') with (pooled (upd_pool p bury w3)).
    change (freed w') with (freed w3 ++ bufs). change (heap_left w') with (heap_left w3).
    unfold ledger in L, Q. perm_lia.
  - transitivity (counters w3); [by apply (counters_upd_pool p bury (free_bufs bufs w3))|].
    rewrite <- (ev_counters _ _ _ _ (proj1 S)). symmetry. by apply counters_upd_pool.
  - by rewrite Ew, E3.
  - by rewrite Ew, E3.
  - by rewrite Ew, E3.
Qed.
