(* ===== verification/BufPoolRun.v ===== *)
(** * Histories of pools

    Any sequence of operations on any number of pools by any threads, with the
    buffers the clients hold: initialisation, allocation, free, thread exit and
    destruction. *)
From Stdlib Require Import ZArith Lia List.
From stdpp Require Import base tactics list relations.
From S2P Require Import Prelude BufSize BufMap BufPool BufShardSpec BufPoolInv BufPoolSpec BufPoolOps BufPoolDestroy.

#[local] Open Scope Z_scope.

(** ** Initialisation *)

Lemma libc_call_libc w : exists L, snd (libc_call w) = w <| libc := L |>.
Proof.
  unfold libc_call. destruct (libc w) as [|r rest] eqn:E; [|by eexists].
  exists []. rewrite <- E. by destruct w.
Qed.

Lemma init_shards_spec n : forall w done, (forall sh, sh ∈ done -> shard_ok sh) ->
  concat (map shard_bufs done) = [] ->
  let '(ok, ss, w') := init_shards n w done in
  (exists L, w' = w <| libc := L |>) /\
  (ok = true -> zlen ss = zlen done + Z.of_nat n /\ (forall sh, sh ∈ ss -> shard_ok sh) /\
   concat (map shard_bufs ss) = []).
Proof.
  assert (forall w, w = w <| libc := libc w |>) as Hid by (by intros []).
  induction n as [|n IH]; intros w done Hok Hnil; cbn [init_shards].
  { split; [by exists (libc w)|]. intros _. split; [lia|done]. }
  destruct (libc_call_libc w) as [L1 E1]. destruct (libc_call w) as [[[]|] w1]; cbn in E1; subst w1.
  2:{ split; [by eexists|done]. }
  destruct (libc_call_libc (w <| libc := L1 |>)) as [L2 E2].
  destruct (libc_call (w <| libc := L1 |>)) as [[[]|] w2]; cbn in E2; subst w2.
  2:{ split; [by eexists|done]. }
  destruct abs_init as (s & -> & Hs). specialize (IH (w <| libc := L1 |> <| libc := L2 |>) (done ++ [s])).
  destruct (init_shards n _ (done ++ [s])) as [[ok ss] w']. destruct IH as [(L & ->) Hss].
  - intros sh. rewrite elem_of_app, list_elem_of_singleton. intros [?| ->]; [by apply Hok|by eapply abs_ok].
  - rewrite map_app, concat_app, Hnil. cbn. by rewrite (abs_bufs _ _ Hs).
  - split; [by exists L|]. intros H. destruct (Hss H) as (E & H1 & H2).
    split; [|done]. rewrite E, zlen_app. unfold zlen. cbn. lia.
Qed.

(** The memory at [p] holds no pool: it was never used, or its pool was destroyed. *)
Definition vacant (w : world) (p : Z) : Prop :=
  0 <= p < zlen (pools w) /\ shards (pool_at w p) = [] /\ thread_caches (pool_at w p) = None /\
  registrations_inflight (pool_at w p) = 0 /\ active_users (pool_at w p) = 0 /\ unattached (shape w) p.

(** Replacing what is at [p] by a pool without buffers. *)
Lemma repool w w' p pool : world_inv w -> vacant w p ->
  pools w' = aset (pools w) p pool -> caches w' = caches w -> tls_cache w' = tls_cache w ->
  tls_key w' = tls_key w -> tls_key_valid w' = tls_key_valid w -> freed w' = freed w -> heap w' = heap w ->
  thread_caches pool = None -> registrations_inflight pool = 0 -> active_users pool = 0 ->
  (forall sh, sh ∈ shards pool -> shard_ok sh) -> pool_bufs pool = [] ->
  (0 < zlen (shards pool) -> shard_mask pool = zlen (shards pool) - 1 /\
    exists j, 0 <= j /\ zlen (shards pool) = 2 ^ j) ->
  evolves w w' [] [] /\ tls_fresh (shape w').
Proof.
  intros [[Hw Hs] Hf] (Hp & Vs & Vt & Vr & Va & Hun) Ep Ec Et Ek Ev Ef Eh Pt Pr Pa Psh Pb Pm.
  assert (forall q, pool_at w' q = if q =? p then pool else pool_at w q) as Hpool.
  { intros q. unfold pool_at. rewrite Ep. destruct (Z.eqb_spec q p) as [->|];
      [by apply aget_aset_eq|by apply aget_aset_ne]. }
  split.
  - split.
    + split.
      * apply (repool_wired (shape w) _ p (pview_of pool)); try done;
          [| |unfold shape; cbn; congruence..].
        -- intros q. rewrite (s_pool_shape w'), Hpool, (s_pool_shape w). by destruct (q =? p).
        -- rewrite (zlen_pools_shape w'), (zlen_pools_shape w), Ep. apply zlen_aset.
      * split; [|rewrite Ec; apply Hs]. intros q sh. rewrite Hpool, Ep, zlen_aset.
        destruct (q =? p); [intros _; apply Psh|apply Hs].
    + unfold ledger, pooled, heap_left. rewrite Ep, Ec, Ef, Eh.
      pose proof (concat_map_aset pool_bufs pool_zero (pools w) p pool Hp) as P. fold (pool_at w p) in P.
      assert (pool_bufs (pool_at w p) = []) as E0 by (unfold pool_bufs; by rewrite Vs).
      rewrite E0, Pb in P. perm_lia.
    + unfold counters. rewrite Ep, map_aset, Pr, Pa.
      replace (0, 0) with (aget (0, 0) (map (fun p => (registrations_inflight p, active_users p)) (pools w)) p).
      * apply aset_id.
      * rewrite (aget_map _ pool_zero) by done. fold (pool_at w p). by rewrite Vr, Va.
  - intros t c v. unfold s_cache, shape. cbn. rewrite Ec, Et. apply Hf.
Qed.

Lemma buffer_pool_init_ok p align cpus w : world_inv w -> vacant w p -> cpus <= 2 ^ 32 ->
  let '(r, w') := buffer_pool_init p align cpus w in
  evolves w w' [] [] /\ tls_fresh (shape w') /\
  (forall q, q <> p -> pool_at w' q = pool_at w q) /\ zlen (pools w') = zlen (pools w) /\
  match r with
  | Ok _ => serving (shape w') p /\ destroyed (pool_at w' p) = false
  | Err _ => vacant w' p
  end.
Proof.
  intros Hinv V Hcpu. pose proof V as (Hp & _). unfold buffer_pool_init.
  destruct (_ || _).
  { split; [apply evolves_refl, Hinv|]. split; [apply Hinv|done]. }
  destruct (shard_count_ok cpus Hcpu) as (e & -> & He).
  set (pool := {| shards := []; shard_count := 2 ^ e; shard_mask := 2 ^ e - 1 |}).
  set (w0 := w <| pool_generation_counter := _ |>).
  assert (forall w' pool', pools w' = aset (pools w) p pool' -> caches w' = caches w ->
    tls_cache w' = tls_cache w -> tls_key w' = tls_key w -> tls_key_valid w' = tls_key_valid w ->
    freed w' = freed w -> heap w' = heap w ->
    (exists ss, pool' = pool <| shards := ss |> /\ (forall sh, sh ∈ ss -> shard_ok sh) /\
       concat (map shard_bufs ss) = [] /\ (0 < zlen ss -> zlen ss = 2 ^ e)) ->
    evolves w w' [] [] /\ tls_fresh (shape w') /\ (forall q, q <> p -> pool_at w' q = pool_at w q) /\
    zlen (pools w') = zlen (pools w) /\ (shards pool' = [] -> vacant w' p)) as Hre.
  { intros w' pool' Ep Ec Et Ek Ev Ef Eh (ss & -> & Hss & Hb & Hz).
    destruct (repool w w' p (pool <| shards := ss |>)) as [E F]; try done.
    - cbn. intros Hpos. rewrite (Hz Hpos). split; [done|]. exists e. split; [lia|done].
    - split; [done|]. split; [done|]. split; [|split; [by rewrite Ep, zlen_aset|]].
      + intros q Hq. unfold pool_at. rewrite Ep. by apply aget_aset_ne.
      + cbn. intros ->. unfold vacant, pool_at. rewrite Ep, zlen_aset, aget_aset_eq by done.
        do 5 (split; [done|]). intros c v. rewrite s_cache_shape, Ec, <- s_cache_shape. apply V. }
  destruct (libc_call_libc (upd_pool p (fun _ => pool) w0)) as [L1 E2].
  destruct (libc_call (upd_pool p (fun _ => pool) w0)) as [[[]|] w1]; cbn [snd] in E2; subst w1.
  2:{ destruct (Hre (upd_pool p (fun _ => pool) w0 <| libc := L1 |>) pool) as (E & F & Hq & Hz & Hv); try done.
      { exists []. split_and!; try done. intros sh H. by apply elem_of_nil in H. }
      do 4 (split; [done|]). by apply Hv. }
  pose proof (init_shards_spec (Z.to_nat (2 ^ e)) (upd_pool p (fun _ => pool) w0 <| libc := L1 |>) []
    ltac:(intros sh H; by apply elem_of_nil in H) eq_refl) as Hi.
  destruct (init_shards _ _ []) as [[ok ss] w2]. destruct Hi as [(L2 & ->) Hss].
  destruct ok.
  - destruct (Hss eq_refl) as (Hlen & Hok & Hb). clear Hss.
    assert (0 < 2 ^ e) as Hpos by (apply Z.pow_pos_nonneg; lia).
    assert (zlen ss = 2 ^ e) as Hz by (rewrite Hlen; unfold zlen; cbn; lia).
    set (w3 := upd_pool p _ _).
    assert (pools w3 = aset (pools w) p (pool <| shards := ss |>)) as Ep3.
    { unfold w3, upd_pool, pool_at. cbn. by rewrite aget_aset_eq, aset_aset. }
    destruct (Hre w3 (pool <| shards := ss |>)) as (E & F & Hq & Hlw & _); try done; [by exists ss|].
    assert (pool_at w3 p = pool <| shards := ss |>) as Eat by (unfold pool_at; rewrite Ep3; by apply aget_aset_eq).
    do 4 (split; [done|]). split; [|by rewrite Eat].
    split; [by rewrite zlen_pools_shape, Hlw|]. rewrite s_pool_shape, Eat. cbn. lia.
  - destruct (Hre (upd_pool p (fun _ => pool) w0 <| libc := L1 |> <| libc := L2 |>) pool) as (E & F & Hq & Hz & Hv); try done.
    { exists []. split_and!; try done. intros sh H. by apply elem_of_nil in H. }
    do 4 (split; [done|]). by apply Hv.
Qed.

(** ** Histories *)

(** A pool that was initialised and not destroyed, with nobody inside. *)
Definition live (w : world) (p : Z) : Prop :=
  serving (shape w) p /\ destroyed (pool_at w p) = false /\
  registrations_inflight (pool_at w p) = 0 /\ active_users (pool_at w p) = 0.

(** The buffers the clients hold, and the world. *)
Definition history : Type := list Z * world.

(** One operation. Clients free what they hold, once; a pool is initialised in
    vacant memory and destroyed while it is live. Threads allocate from pools
    that were initialised, even after their destruction. *)
Inductive pool_step : history -> history -> Prop :=
  | step_init held w p align cpus : vacant w p -> cpus <= 2 ^ 32 ->
      pool_step (held, w) (held, snd (buffer_pool_init p align cpus w))
  | step_alloc held w p size tid : serving (shape w) p -> 0 <= size ->
      pool_step (held, w)
        (given (fst (buffer_pool_alloc p size tid w)) ++ held, snd (buffer_pool_alloc p size tid w))
  | step_free held held' w p buf size tid : serving (shape w) p -> 0 <= size ->
      held ≡ₚ buf :: held' ->
      pool_step (held, w) (held', buffer_pool_free p buf size tid w)
  | step_exit held w tid : pool_step (held, w) (held, thread_exit tid w)
  | step_destroy held w p self w' : live w p -> buffer_pool_destroy p self w = Some w' ->
      pool_step (held, w) (held, w').

Definition history_ok (h : history) : Prop :=
  world_inv (snd h) /\ 0 ∉ fst h ++ ledger (snd h).

Definition conserves (h h' : history) : Prop := fst h' ++ ledger (snd h') ≡ₚ fst h ++ ledger (snd h).

Lemma pool_step_ok h h' : pool_step h h' -> history_ok h -> history_ok h' /\ conserves h h'.
Proof.
  intros St [Hinv H0].
  assert (forall h', world_inv (snd h') -> conserves h h' -> history_ok h' /\ conserves h h') as Hdone.
  { intros h2 H2 Hc. split; [split; [done|]|done]. unfold conserves in Hc. by rewrite Hc. }
  destruct St as [held w p align cpus V Hcpu|held w p size tid Hs Hsz|held held' w p buf size tid Hs Hsz Hb
    |held w tid|held w p self w' (Hs & Hd & Hr & Hu) E]; cbn [fst snd] in *; apply Hdone; unfold conserves; cbn [fst snd].
  - pose proof (buffer_pool_init_ok p align cpus w Hinv V Hcpu) as H.
    destruct (buffer_pool_init p align cpus w) as [r w']. cbn. destruct H as (E & F & _). split; [apply E|done].
  - pose proof (buffer_pool_init_ok p align cpus w Hinv V Hcpu) as H.
    destruct (buffer_pool_init p align cpus w) as [r w']. cbn. destruct H as ([_ L _] & _). cbn in L. perm_lia.
  - pose proof (buffer_pool_alloc_steps p size tid w Hinv Hs Hsz) as H.
    destruct (buffer_pool_alloc p size tid w) as [r w']. by eapply steps_inv.
  - pose proof (buffer_pool_alloc_steps p size tid w Hinv Hs Hsz) as H.
    destruct (buffer_pool_alloc p size tid w) as [r w']. cbn. destruct H as ([_ L _] & _). cbn in L. perm_lia.
  - eapply steps_inv, buffer_pool_free_steps; try done. intros ->. apply H0. rewrite Hb.
    apply elem_of_app. left. by left.
  - destruct (buffer_pool_free_steps p buf size tid w Hinv Hs Hsz) as ([_ L _] & _).
    + intros ->. apply H0. rewrite Hb. apply elem_of_app. left. by left.
    + cbn in L. perm_lia.
  - eapply steps_inv, thread_exit_steps, Hinv.
  - destruct (thread_exit_steps tid w Hinv) as ([_ L _] & _). cbn in L. perm_lia.
  - destruct Hs as [Hp _]. rewrite zlen_pools_shape in Hp.
    destruct (buffer_pool_destroy_ok w p self) as (w2 & E2 & D & _); try done.
    { intros H. apply H0, elem_of_app. by right. }
    rewrite E in E2. by injection E2 as <-.
  - destruct Hs as [Hp _]. rewrite zlen_pools_shape in Hp.
    destruct (buffer_pool_destroy_ok w p self) as (w2 & E2 & _ & L & _); try done.
    { intros H. apply H0, elem_of_app. by right. }
    rewrite E in E2. injection E2 as <-. perm_lia.
Qed.

Lemma history_conserves h h' : rtc pool_step h h' -> history_ok h -> history_ok h' /\ conserves h h'.
Proof.
  induction 1 as [h|h1 h2 h3 St _ IH]; intros Hok.
  { split; [done|]. unfold conserves. reflexivity. }
  destruct (pool_step_ok _ _ St Hok) as [Hok2 C2]. destruct (IH Hok2) as [Hok3 C3]. split; [done|].
  unfold conserves in *. by rewrite C3.
Qed.

(** ** A fresh process *)

(** Memory for [np] pools, [nt] threads, nothing allocated yet. *)
Definition blank (np nt : nat) (heap : list (result Z)) (libc : list (result unit)) : world := {|
  pools := replicate np pool_zero; caches := [];
  tls_cache := replicate nt None; tls_key := replicate nt None;
  tls_key_valid := false; tls_key_once := false; pool_generation_counter := 1;
  freed := []; heap := heap; libc := libc
|}.

Lemma blank_pool np nt h l p : pool_at (blank np nt h l) p = pool_zero.
Proof. unfold pool_at, blank. cbn. apply aget_replicate. Qed.

Lemma blank_inv np nt h l : world_inv (blank np nt h l).
Proof.
  set (w := blank np nt h l).
  assert (forall p, s_pool (shape w) p = pview_zero) as Hp.
  { intros p. rewrite s_pool_shape. unfold w. by rewrite blank_pool. }
  assert (forall c, s_cache (shape w) c = None) as Hc.
  { intros c. rewrite s_cache_shape. unfold w, blank, aget. cbn. by destruct (c <? 0), (Z.to_nat c). }
  split; [split|].
  - split.
    + intros p _. rewrite Hp. cbn. intros H. unfold zlen in H. cbn in H. lia.
    + intros c v p H. by rewrite Hc in H.
    + intros p _. exists []. rewrite Hp. split_and!; [apply NoDup_nil_2|done|]. intros c. rewrite Hc.
      split; [intros H; by apply elem_of_nil in H|intros (v & H & _); done].
    + done.
    + intros t c H. unfold w, shape, blank in H. cbn in H. by rewrite aget_replicate in H.
    + intros t c H. unfold w, shape, blank in H. cbn in H. by rewrite aget_replicate in H.
  - split.
    + intros p sh _. unfold w. rewrite blank_pool. intros H. by apply elem_of_nil in H.
    + intros c ca H. pose proof (s_cache_shape w c) as E. rewrite Hc, H in E. done.
  - intros t c v _ H. by rewrite Hc in H.
Qed.

Lemma blank_vacant np nt h l p : 0 <= p < Z.of_nat np -> vacant (blank np nt h l) p.
Proof.
  intros Hp. unfold vacant. rewrite blank_pool. split_and!; try done; try lia.
  - unfold zlen, blank. cbn. rewrite length_replicate. lia.
  - intros c v H. rewrite s_cache_shape in H. unfold blank, aget in H. cbn in H.
    by destruct (c <? 0), (Z.to_nat c).
Qed.

(** A process with one pool and two threads; thread 0 allocates two buffers and
    frees the first. *)
Definition demo_heap : list (result Z) := Ok <$> seqZ 4096 40.
Definition demo_blank : world := blank 1 2 demo_heap (replicate 20 (Ok tt)).
Definition demo_init : world := snd (buffer_pool_init 0 64 4 demo_blank).
Definition demo_alloc1 : world := snd (buffer_pool_alloc 0 100 0 demo_init).
Definition demo_alloc2 : world := snd (buffer_pool_alloc 0 9000 1 demo_alloc1).
Definition demo_freed : world := buffer_pool_free 0 4096 100 0 demo_alloc2.

Lemma demo_serving : serving (shape demo_init) 0 /\ serving (shape demo_alloc1) 0 /\
  serving (shape demo_alloc2) 0 /\ live demo_freed 0.
Proof. vm_compute. repeat split; try discriminate; try (intros; discriminate). Qed.

Lemma demo_history : rtc pool_step ([], demo_blank) ([4112], demo_freed).
Proof.
  destruct demo_serving as (S1 & S2 & S3 & _).
  apply rtc_l with ([], demo_init); [|apply rtc_l with ([4096], demo_alloc1); [|
    apply rtc_l with ([4112; 4096], demo_alloc2); [|apply rtc_once]]].
  - apply (step_init [] demo_blank 0 64 4); [by apply blank_vacant|lia].
  - pose proof (step_alloc [] demo_init 0 100 0 S1 ltac:(lia)) as H.
    assert (fst (buffer_pool_alloc 0 100 0 demo_init) = Ok 4096) as E by (vm_compute; reflexivity).
    rewrite E in H. exact H.
  - pose proof (step_alloc [4096] demo_alloc1 0 9000 1 S2 ltac:(lia)) as H.
    assert (fst (buffer_pool_alloc 0 9000 1 demo_alloc1) = Ok 4112) as E by (vm_compute; reflexivity).
    rewrite E in H. exact H.
  - apply (step_free [4112; 4096] [4112] demo_alloc2 0 4096 100 0 S3); [lia|apply perm_swap].
Qed.

(** Destruction leaves vacant memory. *)
Lemma live_destroyed w p self : world_inv w -> 0 ∉ ledger w -> live w p ->
  exists w2, buffer_pool_destroy p self w = Some w2 /\ destroyed_well w w2 p /\ vacant w2 p.
Proof.
  intros Hinv H0 (Hs & Hd & Hreg & Hu). pose proof (proj1 Hs) as Hp. rewrite zlen_pools_shape in Hp.
  destruct (buffer_pool_destroy_ok w p self) as (w2 & E & D); try done.
  exists w2. split_and!; [done|done|]. destruct D as (_ & _ & C & Ez & _ & Dsh & Dl & Dun & _).
  pose proof (f_equal (fun l => aget (0, 0) l p) C) as Ec. unfold counters in Ec. cbv beta in Ec.
  rewrite !(aget_map (fun p => (registrations_inflight p, active_users p)) pool_zero (0, 0)) in Ec by done.
  unfold pool_at in Hreg, Hu. rewrite Hreg, Hu in Ec. apply pair_equal_spec in Ec as [E1 E2].
  split_and!; try done; lia.
Qed.

(** ** The theorems *)

(** C4. No operation loses a buffer or hands one out twice. Take any history of
    any number of pools and threads: initialisations, allocations, frees of held
    buffers, thread exits and destructions, with the allocator failing at will.
    Every buffer the allocator handed out is at one place: held by a client, in
    a shard, in a thread cache or freed. The invariant of the pools holds
    throughout, and if the allocator never hands out an address twice, what the
    clients hold, what the pools hold and what was freed are disjoint and free
    of duplicates, so an allocation never returns a buffer that somebody has. *)
Theorem buffers_never_shared held w held' w' :
  rtc pool_step (held, w) (held', w') -> world_inv w -> 0 ∉ held ++ ledger w ->
  world_inv w' /\
  held' ++ pooled w' ++ freed w' ++ heap_left w' ≡ₚ held ++ pooled w ++ freed w ++ heap_left w /\
  (NoDup (held ++ pooled w ++ freed w ++ heap_left w) ->
   NoDup (held' ++ pooled w' ++ freed w') /\
   forall p size tid b w2, serving (shape w') p -> 0 <= size ->
     buffer_pool_alloc p size tid w' = (Ok b, w2) ->
     (b ∉ held') /\ (b ∉ pooled w2) /\ (b ∉ freed w2)).
Proof.
  intros Hr Hinv H0. destruct (history_conserves _ _ Hr (conj Hinv H0)) as [[Hinv' H0'] C].
  unfold conserves, ledger in C. cbn in Hinv', C, H0'. split_and!; [done|done|]. intros Hnd.
  rewrite <- C in Hnd. split.
  - rewrite !app_assoc in Hnd. apply NoDup_app in Hnd as [Hnd _]. by rewrite <- !app_assoc in Hnd.
  - intros p size tid b w2 Hs Hsz E.
    pose proof (step_alloc held' w' p size tid Hs Hsz) as St. rewrite E in St. cbn in St.
    destruct (pool_step_ok _ _ St (conj Hinv' H0')) as [_ C2]. unfold conserves, ledger in C2. cbn in C2.
    rewrite <- C2 in Hnd. apply NoDup_cons in Hnd as [Hb _].
    rewrite !elem_of_app in Hb. split_and!; intros H; apply Hb; tauto.
Qed.

(** C6. Destroying a live pool with no thread inside it returns, after any
    history: the walk of its list of caches ends within as many steps as there
    are caches. Afterwards the pool has no shards, no list and no cache attached
    to it, every buffer it had in shards and caches has been given to [free]
    (nothing of them is left in a pool), and the other pools are untouched. *)
Theorem destroy_returns held w held' w' p self :
  rtc pool_step (held, w) (held', w') -> world_inv w -> 0 ∉ held ++ ledger w -> live w' p ->
  exists w2, buffer_pool_destroy p self w' = Some w2 /\ destroyed_well w' w2 p /\ vacant w2 p.
Proof.
  intros Hr Hinv H0 Hl.
  destruct (history_conserves _ _ Hr (conj Hinv H0)) as [[Hinv' H0'] _]. cbn in Hinv', H0'.
  apply live_destroyed; [done| |done]. intros H. apply H0', elem_of_app. by right.
Qed.

Lemma demo_start : world_inv demo_blank /\ 0 ∉ [] ++ ledger demo_blank.
Proof.
  split; [apply blank_inv|]. change ([] ++ ledger demo_blank) with (omap result_ok demo_heap).
  vm_compute. intros H. repeat (apply elem_of_cons in H as [H|H]; [discriminate|]). by apply elem_of_nil in H.
Qed.

Lemma buffers_never_shared_witness :
  world_inv demo_freed /\ pooled demo_freed <> [].
Proof.
  destruct demo_start as [H1 H2]. split; [|vm_compute; discriminate].
  exact (proj1 (buffers_never_shared [] demo_blank [4112] demo_freed demo_history H1 H2)).
Defined.

Lemma destroy_returns_witness :
  exists w2, buffer_pool_destroy 0 0 demo_freed = Some w2 /\ shards (pool_at w2 0) = [].
Proof.
  destruct demo_start as [H1 H2].
  destruct (destroy_returns [] demo_blank [4112] demo_freed 0 0 demo_history H1 H2
    (proj2 (proj2 (proj2 demo_serving)))) as (w2 & E & D & _).
  exists w2. split; [exact E|exact (proj1 (proj2 (proj2 (proj2 (proj2 (proj2 D))))))].
Defined.
