(* ===== verification/BufTyped.v ===== *)
(** * Buffers keep their size class

    The pool stores a buffer in a list of one size class, and hands it out for
    requests of that class: a buffer on the wrong list would be shorter than
    the client asked for. [listed w k b] says that some shard or thread cache of
    [w] has buffer [b] on a list of class [k]; an operation [retypes] the world
    by putting on a list of class [k] only buffers that were there before, that
    the client gave back for class [k], or that were just allocated for it.
    The class of a buffer is therefore fixed when the allocator hands it out
    ([typed]). *)
From Stdlib Require Import ZArith Lia List.
From stdpp Require Import base tactics list.
From S2P Require Import Prelude BufSize BufMap BufPool BufShardSpec BufPoolInv BufPoolSpec BufPoolOps BufPoolDestroy BufPoolRun.

#[local] Open Scope Z_scope.

(** ** Where a class has its buffers *)

Definition in_class (k : Z) : Prop := 0 <= k < BUFFER_SIZE_CLASSES.

Definition in_shards (w : world) (k b : Z) : Prop :=
  exists p sid, b ∈ shard_stacks (shard_at (pool_at w p) sid) k.
Definition in_caches (w : world) (k b : Z) : Prop := exists c, b ∈ cache_row (cache_at w c) k.

Definition listed (w : world) (k b : Z) : Prop := in_class k /\ (in_shards w k b \/ in_caches w k b).

Lemma listed_stack w p sid k b : in_class k -> b ∈ shard_stacks (shard_at (pool_at w p) sid) k -> listed w k b.
Proof. intros Hk H. split; [done|]. left. by exists p, sid. Qed.

Lemma listed_row w c k b : in_class k -> b ∈ cache_row (cache_at w c) k -> listed w k b.
Proof. intros Hk H. split; [done|]. right. by exists c. Qed.

Lemma no_shard_stack k : shard_stacks shard_zero k = [].
Proof.
  unfold shard_stacks, bucket, shard_zero. cbn [size_buckets slot_pool].
  unfold aget. destruct (k <? 0); [|destruct (Z.to_nat k)]; by destruct (Z.to_nat SLOTS).
Qed.

Lemma no_pool_stack pool sid k : shards pool = [] -> shard_stacks (shard_at pool sid) k = [].
Proof.
  intros E. unfold shard_at. rewrite E. unfold aget.
  destruct (sid <? 0); [apply no_shard_stack|]. destruct (Z.to_nat sid); apply no_shard_stack.
Qed.

Lemma zero_counts_row ca k : counts ca = counts cache_zero -> cache_row ca k = [].
Proof. intros E. unfold cache_row, tc_count. rewrite E. cbn [counts cache_zero]. by rewrite aget_replicate. Qed.

(** What an update can have put on the lists. *)
Lemma listed_upd_pool p f w k b : listed (upd_pool p f w) k b ->
  listed w k b \/ exists sid, in_class k /\ b ∈ shard_stacks (shard_at (f (pool_at w p)) sid) k.
Proof.
  intros [Hk [(q & sid & H)|H]]; [|left; split; [done|by right]].
  unfold pool_at at 1, upd_pool in H. cbn in H.
  destruct (aget_aset_cases pool_zero (pools w) p (f (pool_at w p)) q) as [E|E]; rewrite E in H.
  - right. by exists sid.
  - left. by eapply listed_stack.
Qed.

Lemma listed_set_shard p sid sh w k b : listed (upd_pool p (set_shard sid sh) w) k b ->
  listed w k b \/ (in_class k /\ b ∈ shard_stacks sh k).
Proof.
  intros H. apply listed_upd_pool in H as [H|(sid' & Hk & H)]; [by left|].
  unfold shard_at, set_shard in H. cbn in H.
  destruct (aget_aset_cases shard_zero (shards (pool_at w p)) sid sh sid') as [E|E]; rewrite E in H.
  - by right.
  - left. by eapply listed_stack.
Qed.

Lemma listed_upd_cache c f w k b : listed (upd_cache c f w) k b ->
  listed w k b \/ (in_class k /\ b ∈ cache_row (f (cache_at w c)) k).
Proof.
  intros [Hk [H|(d & H)]]; [left; split; [done|by left]|].
  unfold cache_at at 1, upd_cache in H. cbn in H.
  destruct (aget_aset_cases None (caches w) c (Some (f (cache_at w c))) d) as [E|E]; rewrite E in H.
  - by right.
  - left. by eapply listed_row.
Qed.

(** ** Steps that keep the classes *)

Section Retypes.
(** The buffers that an operation may newly put on a list of a class. *)
Context (X : Z -> Z -> Prop).

Record retypes (w w' : world) : Prop := {
  rt_listed : forall k b, listed w' k b -> listed w k b \/ X k b;
  rt_heap : forall b, b ∈ heap_left w' -> b ∈ heap_left w
}.

Lemma retypes_refl w : retypes w w.
Proof using Type. split; auto. Qed.

Lemma retypes_trans w1 w2 w3 : retypes w1 w2 -> retypes w2 w3 -> retypes w1 w3.
Proof using Type.
  intros [H1 L1] [H2 L2]. split; [|auto]. intros k b H. destruct (H2 k b H) as [|]; [by apply H1|by right].
Qed.

Lemma retypes_same w w' : pools w' = pools w -> caches w' = caches w ->
  (forall b, b ∈ heap_left w' -> b ∈ heap_left w) -> retypes w w'.
Proof using Type.
  intros Ep Ec Hh. split; [|done]. intros k b [Hk H]. left. split; [done|].
  unfold in_shards, in_caches, pool_at, cache_at in *. by rewrite Ep, Ec in H.
Qed.

Lemma retypes_pool p f w :
  (forall sid k b, in_class k -> b ∈ shard_stacks (shard_at (f (pool_at w p)) sid) k -> listed w k b \/ X k b) ->
  retypes w (upd_pool p f w).
Proof using Type.
  intros Hf. split; [|done]. intros k b H. apply listed_upd_pool in H as [H|(sid & H)]; [by left|].
  by apply (Hf sid); apply H.
Qed.

Lemma retypes_same_shards p f w : shards (f (pool_at w p)) = shards (pool_at w p) -> retypes w (upd_pool p f w).
Proof using Type.
  intros E. apply retypes_pool. intros sid k b Hk H. left. apply (listed_stack w p sid); [done|].
  unfold shard_at in *. by rewrite <- E.
Qed.

Lemma retypes_no_shards p f w : shards (f (pool_at w p)) = [] -> retypes w (upd_pool p f w).
Proof using Type.
  intros E. apply retypes_pool. intros sid k b Hk H. rewrite no_pool_stack in H by done. by apply elem_of_nil in H.
Qed.

Lemma retypes_shard p sid sh w :
  (forall k b, in_class k -> b ∈ shard_stacks sh k -> listed w k b \/ X k b) ->
  retypes w (upd_pool p (set_shard sid sh) w).
Proof using Type.
  intros Hsh. split; [|done]. intros k b H. apply listed_set_shard in H as [H|[Hk H]]; [by left|by apply Hsh].
Qed.

Lemma retypes_cache c f w :
  (forall k b, in_class k -> b ∈ cache_row (f (cache_at w c)) k -> listed w k b \/ X k b) ->
  retypes w (upd_cache c f w).
Proof using Type.
  intros Hf. split; [|done]. intros k b H. apply listed_upd_cache in H as [H|[Hk H]]; [by left|by apply Hf].
Qed.

Lemma retypes_free_cache c w : retypes w (free_cache c w).
Proof using Type.
  split; [|done]. intros k b [Hk [H|(d & H)]].
  { left. split; [done|by left]. }
  left. unfold cache_at, free_cache in H. cbn in H.
  destruct (aget_aset_cases None (caches w) c None d) as [E|E]; rewrite E in H.
  - cbn in H. rewrite zero_counts_row in H by done. by apply elem_of_nil in H.
  - by eapply listed_row.
Qed.

Lemma retypes_attach_cell ca w : counts ca = counts cache_zero -> retypes w (w <| caches := caches w ++ [Some ca] |>).
Proof using Type.
  intros Hz. split; [|done]. intros k b [Hk [H|(d & H)]]; left.
  { split; [done|by left]. }
  unfold cache_at in H. cbn in H. rewrite aget_snoc in H. destruct (d =? zlen (caches w)).
  - cbn in H. rewrite zero_counts_row in H by done. by apply elem_of_nil in H.
  - by eapply listed_row.
Qed.

Lemma retypes_setspecific t v w : retypes w (setspecific t v w).
Proof using Type. unfold setspecific. destruct (tls_key_valid w); by apply retypes_same. Qed.

Lemma retypes_libc w : retypes w (snd (libc_call w)).
Proof using Type. unfold libc_call. destruct (libc w); by apply retypes_same. Qed.

Lemma retypes_once w : retypes w (pthread_once_tls w).
Proof using Type.
  unfold pthread_once_tls, tls_key_init, libc_call. destruct (tls_key_once w); [apply retypes_refl|].
  cbn. by destruct (libc w) as [|[]]; apply retypes_same.
Qed.

(** ** Refill and flush *)

Lemma retypes_transfer w p c sid k stk row sh' c' : in_class k ->
  let ca := cache_at w c in let sh := shard_at (pool_at w p) sid in
  moved_to sh (shard_stacks sh) ca k stk row sh' c' ->
  (forall b, b ∈ stk ++ row -> b ∈ shard_stacks sh k ++ cache_row ca k \/ X k b) ->
  retypes w (upd_cache c (fun _ => c') (upd_pool p (set_shard sid sh') w)).
Proof using Type.
  intros Hk ca sh (Hab & _ & _ & Hrow) Hin. split; [|done]. intros j b H.
  assert (forall b, b ∈ stk ++ row -> listed w k b \/ X k b) as Hk'.
  { intros x Hx. destruct (Hin x Hx) as [Hs|]; [left|by right].
    apply elem_of_app in Hs as [Hs|Hs]; [by eapply listed_stack|by eapply listed_row]. }
  apply listed_upd_cache in H as [H|[Hj H]].
  - apply listed_set_shard in H as [H|[Hj H]]; [by left|]. rewrite (abs_stacks _ _ _ Hab Hj) in H.
    unfold st_set in H. destruct (Z.eqb_spec j k) as [->|]; [apply Hk', elem_of_app; by left|].
    left. by eapply listed_stack.
  - rewrite Hrow in H. unfold st_set in H.
    destruct (Z.eqb_spec j k) as [->|]; [apply Hk', elem_of_app; by right|]. left. by eapply listed_row.
Qed.

Lemma retypes_refill w p c k : world_ok w -> attached (shape w) c p -> in_class k ->
  retypes w (snd (cache_refill p c k w)).
Proof using Type.
  intros Hw Hat Hk. destruct (attached_alive w c p Hw Hat) as (Ha & Hok & _ & _ & Hp & _ & Hsid).
  unfold cache_refill.
  pose proof (refill_loop_spec k (Z.to_nat THREAD_CACHE_BATCH_SIZE) _ _ (cache_at w c) 0
    (shard_at_ok w p _ Hw Hp Hsid) Hok Hk) as Hr. cbn zeta in Hr.
  destruct (refill_loop _ _ _ _ _) as [[n sh'] c']. destruct Hr as [_ Hm]. cbn [snd].
  set (m := Z.to_nat (Z.min _ _)) in Hm.
  eapply retypes_transfer; [done|exact Hm|]. intros b Hb. left.
  rewrite <- (take_drop m (shard_stacks _ k)). rewrite !elem_of_app in *. tauto.
Qed.

Lemma retypes_free bufs w : retypes w (free_bufs bufs w).
Proof using Type. by apply retypes_same. Qed.

Lemma retypes_count p size n w : retypes w (upd_pool p (count_buffers size n) w).
Proof using Type. by apply retypes_same_shards. Qed.

Lemma retypes_flush w p c k size : world_ok w -> attached (shape w) c p -> in_class k ->
  retypes w (snd (cache_flush p c k size w)).
Proof using Type.
  intros Hw Hat Hk. destruct (attached_alive w c p Hw Hat) as (Ha & Hok & _ & _ & Hp & _ & Hsid).
  unfold cache_flush.
  pose proof (flush_loop_spec k size (Z.to_nat (tc_count (cache_at w c) k)) _ _ (cache_at w c) 0 []
    (shard_at_ok w p _ Hw Hp Hsid) Hok Hk ltac:(pose proof (co_count _ Hok k Hk); lia)) as Hf.
  destruct (flush_loop _ _ _ _ _ _ _) as [[[n sh'] c'] tf]. cbn zeta.
  destruct Hf as (keep & fr & mv & Hrow & _ & -> & Hm & _). cbn [app snd].
  assert (retypes w (upd_cache c (fun _ => c') (upd_pool p (set_shard (shard_id (cache_at w c)) sh') w))) as R.
  { eapply retypes_transfer; [done|exact Hm|]. intros b Hb. left. rewrite Hrow, !elem_of_app in *. tauto. }
  destruct (0 <? zlen fr); [|exact R].
  eapply retypes_trans; [exact R|]. eapply retypes_trans; [apply retypes_count|apply retypes_free].
Qed.

(** ** Cleaning a cache *)

Lemma retypes_flush_class p c k n : forall w, world_ok w -> attached (shape w) c p -> in_class k ->
  retypes w (flush_class_loop p c k n w).
Proof using Type.
  induction n as [|n IH]; intros w Hw Hat Hk; cbn [flush_class_loop]; [apply retypes_refl|].
  destruct (0 <? _); [|apply retypes_refl].
  destruct (cache_flush_moves w p c k (class_to_size k) Hw Hat Hk) as (M & _).
  eapply retypes_trans; [by apply retypes_flush|].
  apply IH; [apply M|by apply (attached_shape w); [apply M|]|done].
Qed.

Lemma retypes_flush_classes p c n : forall k w, world_ok w -> attached (shape w) c p ->
  0 <= k -> k + Z.of_nat n <= BUFFER_SIZE_CLASSES -> retypes w (flush_classes p c k n w).
Proof using Type.
  induction n as [|n IH]; intros k w Hw Hat H0 Hn; cbn [flush_classes]; [apply retypes_refl|].
  assert (in_class k) as Hk by (unfold in_class; lia).
  destruct (attached_alive w c p Hw Hat) as (_ & Hok & _). pose proof (co_count _ Hok k Hk) as Hc.
  destruct (flush_class_moves p c k (Z.to_nat (tc_count (cache_at w c) k)) w Hw Hat Hk ltac:(lia)) as (M & _).
  eapply retypes_trans; [by apply retypes_flush_class|].
  apply IH; [apply M|by apply (attached_shape w); [apply M|]|lia|lia].
Qed.

Lemma retypes_reset c k w : retypes w (upd_cache c (fun ca => ca <| counts := aset (counts ca) k 0 |>) w).
Proof using Type.
  apply retypes_cache. intros j b Hj H. left. apply (listed_row w c); [done|].
  unfold cache_row, tc_count in *. cbn in H.
  destruct (aget_aset_cases 0 (counts (cache_at w c)) k 0 j) as [E|E]; rewrite E in H; [|done].
  by apply elem_of_nil in H.
Qed.

Lemma retypes_free_classes pool c n : forall k w, retypes w (free_classes pool c k n w).
Proof using Type.
  induction n as [|n IH]; intros k w; cbn [free_classes]; [apply retypes_refl|].
  eapply retypes_trans; [|apply IH]. destruct (0 <? _); [|apply retypes_refl].
  eapply retypes_trans; [|apply retypes_reset]. destruct pool as [p|]; [|apply retypes_free].
  eapply retypes_trans; [apply retypes_free|apply retypes_count].
Qed.

(** A mark on a cache does not touch its lists. *)
Lemma retypes_mark c f w : counts (f (cache_at w c)) = counts (cache_at w c) ->
  tc_buffers (f (cache_at w c)) = tc_buffers (cache_at w c) -> retypes w (upd_cache c f w).
Proof using Type.
  intros E1 E2. apply retypes_cache. intros k b Hk H. left. apply (listed_row w c); [done|].
  unfold cache_row, tc_count in *. by rewrite E1, E2 in H.
Qed.

Lemma retypes_cleanup_free pool c w :
  retypes w (cleanup_cache_buffers_locked pool c CACHE_CLEANUP_FREE w).
Proof using Type.
  unfold cleanup_cache_buffers_locked. destruct (cleaned_up _); [apply retypes_refl|].
  eapply retypes_trans; [apply retypes_free_classes|by apply retypes_mark].
Qed.

Lemma retypes_cleanup_flush p c w ca : world_ok w -> alive w c ca -> tc_pool ca = Some p ->
  retypes w (cleanup_cache_buffers_locked (Some p) c CACHE_CLEANUP_FLUSH w).
Proof using Type.
  intros Hw Ha Hp. unfold cleanup_cache_buffers_locked. rewrite (alive_at _ _ _ Ha).
  destruct (cleaned_up ca) eqn:Hcl; [apply retypes_refl|].
  eapply retypes_trans; [|by apply retypes_mark].
  apply retypes_flush_classes; [done| |lia|done].
  exists (cview_of ca). rewrite s_cache_shape, Ha. by split_and!.
Qed.

End Retypes.

Section Finding.
Context (X : Z -> Z -> Prop).

Lemma retypes_active p n w : retypes X w (active_users_add p n w).
Proof using Type. by apply retypes_same_shards. Qed.
Lemma retypes_registrations p n w : retypes X w (registrations_add p n w).
Proof using Type. by apply retypes_same_shards. Qed.
Lemma retypes_next_shard p w : retypes X w (snd (next_shard_id p w)).
Proof using Type. by apply retypes_same_shards. Qed.
Lemma retypes_set_tls t v w : retypes X w (set_tls t v w).
Proof using Type. by apply retypes_same. Qed.
Lemma retypes_list p v w : retypes X w (upd_pool p (fun pool => pool <| thread_caches := v |>) w).
Proof using Type. by apply retypes_same_shards. Qed.
Lemma retypes_cleaned c w : retypes X w (upd_cache c (fun ca => ca <| cleaned_up := true |>) w).
Proof using Type. by apply retypes_mark. Qed.
End Finding.

Create HintDb retypes.
#[export] Hint Resolve retypes_refl retypes_active retypes_registrations retypes_set_tls retypes_setspecific
  retypes_list retypes_cleaned retypes_free retypes_count retypes_free_cache retypes_once
  retypes_cleanup_free : retypes.

(** Peel the last updates of a world off the goal. *)
Ltac retypes_peel :=
  repeat first [ assumption | solve [eauto 2 with retypes]
               | eapply retypes_trans; [|solve [eauto 2 with retypes]] ].

Section Operations.
Context (X : Z -> Z -> Prop).

Lemma retypes_leave_old_pool c tid w : world_inv w -> tls_at w tid = Some c ->
  retypes X w (leave_old_pool c tid w).
Proof using Type.
  intros [Hok Hf] Ht. pose proof Hok as [Hw Hs].
  destruct (wi_tls _ Hw tid c Ht) as ((v & Hv & _) & _).
  rewrite s_cache_shape in Hv. destruct (aget None (caches w) c) as [ca|] eqn:Ha; [|done]. clear v Hv.
  unfold leave_old_pool. rewrite (alive_at w c ca Ha). destruct (tc_pool ca) as [old|] eqn:Ep; [|retypes_peel].
  cbv zeta. do 3 (eapply retypes_trans; [|solve [eauto 2 with retypes]]).
  eapply retypes_trans; [apply (retypes_active X old 1)|].
  destruct (destroyed _); [apply retypes_cleanup_free|].
  apply (retypes_cleanup_flush X old c _ ca); [|exact Ha|done]. by apply recounted_active.
Qed.

Lemma retypes_register_cache p tid w : retypes X w (snd (register_cache p tid w)).
Proof using Type.
  unfold register_cache. destruct (destroyed _); [cbn [snd]; retypes_peel|].
  set (w2 := pthread_once_tls _). assert (retypes X w w2) as R2 by (unfold w2; retypes_peel). clearbody w2.
  pose proof (retypes_trans X _ _ _ R2 (retypes_libc X w2)) as R3.
  destruct (libc_call w2) as [[] w3]; cbn [snd] in R3 |- *; [|retypes_peel].
  pose proof (retypes_trans X _ _ _ R3 (retypes_libc X w3)) as R4.
  destruct (libc_call w3) as [[] w4]; cbn [snd] in R4 |- *; [|retypes_peel].
  pose proof (retypes_trans X _ _ _ R4 (retypes_next_shard X p w4)) as R5.
  destruct (next_shard_id p w4) as [sid w5]. cbn [snd] in R5. cbv zeta.
  match goal with |- context[caches w5 ++ [Some ?ca]] =>
    pose proof (retypes_trans X _ _ _ R5 (retypes_attach_cell X ca w5 eq_refl)) as R6 end.
  destruct (destroyed _); cbn [snd]; retypes_peel.
Qed.

Lemma retypes_get_thread_cache p tid w : world_inv w -> retypes X w (snd (get_thread_cache p tid w)).
Proof using Type.
  intros Hinv. unfold get_thread_cache. destruct (tls_at w tid) as [c|] eqn:Et.
  - destruct (_ && _ && _); [apply retypes_refl|].
    destruct (destroyed _); [cbn [snd]; retypes_peel|].
    destruct (negb _); [by apply retypes_leave_old_pool|apply retypes_register_cache].
  - destruct (destroyed _); [cbn [snd]; retypes_peel|apply retypes_register_cache].
Qed.

Lemma retypes_pool_enter p w : retypes X w (snd (pool_enter p w)).
Proof using Type. unfold pool_enter. destruct (destroyed _); cbn [snd]; retypes_peel. Qed.

Lemma retypes_select_shard p cache w : retypes X w (snd (select_shard p cache w)).
Proof using Type. unfold select_shard. destruct cache; [apply retypes_refl|apply retypes_next_shard]. Qed.

Lemma retypes_pop p sid k w b sh : world_ok w -> 0 <= p < zlen (pools w) ->
  0 <= sid < zlen (shards (pool_at w p)) -> in_class k ->
  shard_pop (shard_at (pool_at w p) sid) k = Some (b, sh) ->
  retypes X w (upd_pool p (set_shard sid sh) w) /\ listed w k b.
Proof using Type.
  intros Hw Hp Hsid Hk E. pose proof (shard_at_ok w p sid Hw Hp Hsid) as Hok.
  pose proof (abs_pop _ _ k Hok Hk) as H. destruct (shard_stacks _ k) as [|b0 r] eqn:Ek; [congruence|].
  destruct H as (sh' & E' & Hab). rewrite E' in E. injection E as <- <-. split.
  - apply retypes_shard. intros j b Hj H. left. apply (listed_stack w p sid); [done|].
    rewrite (abs_stacks _ _ _ Hab Hj) in H. unfold st_set in H.
    destruct (Z.eqb_spec j k) as [->|]; [|done]. rewrite Ek. by right.
  - apply (listed_stack w p sid); [done|]. rewrite Ek. by left.
Qed.

Lemma retypes_push p sid k w b size sh : world_ok w -> 0 <= p < zlen (pools w) ->
  0 <= sid < zlen (shards (pool_at w p)) -> in_class k -> X k b ->
  shard_push (shard_at (pool_at w p) sid) k b size = Some sh ->
  retypes X w (upd_pool p (set_shard sid sh) w).
Proof using Type.
  intros Hw Hp Hsid Hk HX E. pose proof (shard_at_ok w p sid Hw Hp Hsid) as Hok.
  pose proof (abs_push _ _ k b size Hok Hk) as H. destruct (_ <? _); [|congruence].
  destruct H as (sh' & E' & Hab). rewrite E' in E. injection E as <-.
  apply retypes_shard. intros j x Hj H. rewrite (abs_stacks _ _ _ Hab Hj) in H. unfold st_set in H.
  destruct (Z.eqb_spec j k) as [->|]; [|left; by apply (listed_stack w p sid)].
  apply elem_of_cons in H as [->|H]; [by right|left; by apply (listed_stack w p sid)].
Qed.

Lemma retypes_take_cached c p k w : world_ok w -> attached (shape w) c p -> in_class k ->
  0 < tc_count (cache_at w c) k ->
  let '(r, w') := take_cached c k w in retypes X w w' /\ forall b, r = Ok b -> listed w k b.
Proof using Type.
  intros Hw Hat Hk Hn. destruct (attached_alive w c p Hw Hat) as (_ & Hok & _). unfold take_cached.
  destruct (cache_pop_ok (cache_at w c) k Hok Hk Hn) as (r & b & c' & Er & -> & _ & _ & Hrow & _). split.
  - apply retypes_cache. intros j x Hj H. left. apply (listed_row w c); [done|].
    rewrite Hrow in H. unfold st_set in H. destruct (Z.eqb_spec j k) as [->|]; [|done].
    rewrite Er. apply elem_of_app. by left.
  - intros x [= <-]. apply (listed_row w c); [done|]. rewrite Er. apply elem_of_app. right. by left.
Qed.

End Operations.

(** ** Allocation *)

Section Alloc.
Context (X : Z -> Z -> Prop) (k : Z) (Hk : in_class k).

(** What the allocator will hand out may become a buffer of class [k]. *)
Definition supplies (w : world) : Prop := forall b, b ∈ heap_left w -> X k b.

(** A step that returns a buffer of class [k], or a new one. *)
Definition yields (w : world) (r : result Z) (w' : world) : Prop :=
  retypes X w w' /\ forall b, r = Ok b -> listed w k b \/ X k b.

Lemma supplies_after w w' : retypes X w w' -> supplies w -> supplies w'.
Proof using Type. intros R H b Hb. by apply H, (rt_heap _ _ _ R). Qed.

Lemma yields_after w w1 r w2 : retypes X w w1 -> yields w1 r w2 -> yields w r w2.
Proof using Type.
  intros R [R2 Hr]. split; [by eapply retypes_trans|]. intros b Hb.
  destruct (Hr b Hb) as [H|]; [by apply (rt_listed _ _ _ R)|by right].
Qed.

Lemma yields_then w r w1 w2 : yields w r w1 -> retypes X w1 w2 -> yields w r w2.
Proof using Type. intros [R Hr] R2. split; [by eapply retypes_trans|done]. Qed.

Lemma yields_error w e w' : retypes X w w' -> yields w (Err e) w'.
Proof using Type. by split. Qed.

Lemma retypes_memalign w : let '(r, w') := posix_memalign w in
  retypes X w w' /\ forall b, r = Ok b -> b ∈ heap_left w.
Proof using Type.
  unfold posix_memalign. destruct (heap w) as [|r rest] eqn:E; [split; [apply retypes_refl|done]|].
  unfold heap_left. rewrite E. split.
  - apply retypes_same; try done. unfold heap_left. rewrite E. cbn. intros b Hb.
    destruct r; [by right|done].
  - intros b ->. by left.
Qed.

Lemma retypes_prefill_loop n : forall extras w, let '(extras', w') := prefill_loop n extras w in
  retypes X w w' /\ forall b, b ∈ extras' -> b ∈ extras \/ b ∈ heap_left w.
Proof using Type.
  induction n as [|n IH]; intros extras w; cbn [prefill_loop]; [split; [apply retypes_refl|auto]|].
  pose proof (retypes_memalign w) as M. destruct (posix_memalign w) as [[a|] w1]; destruct M as [R Ha]; [|auto].
  specialize (IH (extras ++ [a]) w1). destruct (prefill_loop n _ w1) as [extras' w'].
  destruct IH as [R' H']. split; [by eapply retypes_trans|]. intros b Hb.
  destruct (H' b Hb) as [H|H]; [|right; by apply (rt_heap _ _ _ R)].
  apply elem_of_app in H as [H|H]; [by left|right]. apply list_elem_of_singleton in H as ->. by apply Ha.
Qed.

Lemma store_loop_row extras : forall ca stored, cache_ok ca ->
  let '(_, ca') := store_loop extras k ca stored in
  forall j b, b ∈ cache_row ca' j -> b ∈ cache_row ca j \/ (j = k /\ b ∈ extras).
Proof using Hk.
  induction extras as [|x extras IH]; intros ca stored Hok; cbn [store_loop]; [auto|].
  destruct (Z.ltb_spec (tc_count ca k) THREAD_CACHE_SIZE) as [Hlt|]; [|auto].
  destruct (cache_push_ok ca k x Hok Hk Hlt) as (Hok1 & _ & Hrow & _).
  specialize (IH (cache_push ca k x) (stored + 1) Hok1). destruct (store_loop _ _ _ _) as [stored' ca'].
  intros j b Hb. destruct (IH j b Hb) as [H|[-> H]]; [|right; split; [done|by right]].
  rewrite Hrow in H. unfold st_set in H. destruct (Z.eqb_spec j k) as [->|]; [|by left].
  apply elem_of_app in H as [H|H]; [by left|right]. apply list_elem_of_singleton in H as ->. split; [done|by left].
Qed.

Lemma retypes_prefill p c size w : world_ok w -> attached (shape w) c p -> supplies w ->
  retypes X w (prefill p c k size w).
Proof using Hk.
  intros Hw Hat Hsup. unfold prefill. set (n := Z.to_nat _).
  pose proof (prefill_loop_moves n [] w Hw) as M. pose proof (retypes_prefill_loop n [] w) as R.
  destruct (prefill_loop n [] w) as [extras w1]. destruct M as (new & _ & M), R as [R Hnew].
  destruct (0 <? zlen extras); [|done].
  destruct (attached_alive w1 c p ltac:(apply M) (attached_shape w w1 c p (mv_shape _ _ _ _ M) Hat))
    as (_ & Hok & _).
  set (st := if _ && _ then _ else _).
  assert (let '(_, ca') := st in forall j b, b ∈ cache_row ca' j ->
            b ∈ cache_row (cache_at w1 c) j \/ (j = k /\ b ∈ extras)) as Hst.
  { unfold st. destruct (_ && _); [by apply store_loop_row|auto]. }
  clearbody st. destruct st as [stored ca'].
  assert (retypes X w (upd_cache c (fun _ => ca') w1)) as R2.
  { split; [|apply R]. intros j b H. apply listed_upd_cache in H as [H|[Hj H]]; [by apply R|].
    destruct (Hst j b H) as [Hb|[-> Hb]]; [apply R; by eapply listed_row|].
    right. destruct (Hnew b Hb) as [Hb'|Hb']; [by apply elem_of_nil in Hb'|by apply Hsup]. }
  destruct (0 <? stored); retypes_peel.
Qed.

Lemma yields_heap_alloc p cache size w : world_ok w -> cache_for p cache w -> supplies w ->
  let '(r, w') := heap_alloc p cache k size w in yields w r w'.
Proof using Hk.
  intros Hw Hc Hsup. unfold heap_alloc. pose proof (moves_memalign w Hw) as M.
  pose proof (retypes_memalign w) as R. destruct (posix_memalign w) as [[buf|e] w1]; destruct R as [R Hb].
  2:{ by apply yields_error. }
  assert (retypes X w (upd_pool p (count_buffers size 1) w1)) as R2 by retypes_peel.
  split; [|intros b [= <-]; right; by apply Hsup, Hb].
  destruct cache as [c|]; [|done]. eapply retypes_trans; [exact R2|]. apply retypes_prefill.
  - apply (moves_then _ _ _ _ _ M (moves_count p size 1 w1)).
  - eapply attached_shape; [|exact Hc]. rewrite (mv_shape _ _ _ _ (moves_count p size 1 w1 ltac:(apply M))).
    apply M.
  - by eapply supplies_after.
Qed.

Lemma yields_alloc_from_shard w0 p cache size w : inside w0 p cache w -> supplies w ->
  let '(r, w') := alloc_from_shard p cache k size w in yields w r w'.
Proof using Hk.
  intros In Hsup. pose proof In as [H0 S Hsv Hd Hc]. pose proof (steps_inv _ _ _ _ S) as [Hw _].
  unfold alloc_from_shard. pose proof (select_shard_moves p cache w Hw Hsv Hd Hc) as Hsel.
  pose proof (retypes_select_shard X p cache w) as R.
  destruct (select_shard p cache w) as [sid w1]. destruct Hsel as (M & Hp & Hsid). cbn [snd] in R.
  destruct (shard_pop _ k) as [[buf sh]|] eqn:E.
  - destruct (retypes_pop X p sid k w1 buf sh ltac:(apply M) Hp Hsid Hk E) as [R2 Hb].
    apply (yields_after _ w1); [done|]. split; [unfold pool_leave; retypes_peel|].
    intros b [= <-]. by left.
  - assert (retypes X w (pool_leave p w1)) as R1 by (unfold pool_leave; retypes_peel).
    pose proof (yields_heap_alloc p cache size (pool_leave p w1)) as Hh.
    destruct (heap_alloc p cache k size (pool_leave p w1)) as [r w2].
    apply (yields_after _ (pool_leave p w1)); [done|]. apply Hh.
    + apply (recounted_active p (-1)), M.
    + eapply cache_for_shape; [|exact Hc]. unfold pool_leave. rewrite shape_active. apply M.
    + by eapply supplies_after.
Qed.

(** A thread with an empty row, inside the pool. *)
Lemma yields_refilled w1 p c w : inside w1 p (Some c) w -> supplies w ->
  let '(r, w') := let '(n, w) := cache_refill p c k w in
                  if 0 <? n then take_cached c k (pool_leave p w)
                  else alloc_from_shard p (Some c) k (class_to_size k) w in
  yields w r w'.
Proof using Hk.
  intros In Hsup. pose proof (steps_inv _ _ _ _ (in_steps _ _ _ _ In)) as [Hw _].
  destruct (cache_refill_moves w p c k Hw (in_cache _ _ _ _ In) Hk) as [M Hpos].
  pose proof (retypes_refill X w p c k Hw (in_cache _ _ _ _ In) Hk) as R.
  destruct (cache_refill p c k w) as [n w3]. cbn [fst snd] in M, Hpos, R.
  destruct (Z.ltb_spec 0 n) as [Hn|Hn].
  - pose proof (steps_inv _ _ _ _ (inside_leave _ _ _ _ _ _ _ In M)) as [Hw3 _].
    assert (attached (shape (pool_leave p w3)) c p) as Hat.
    { eapply attached_shape; [|exact (in_cache _ _ _ _ In)]. unfold pool_leave. rewrite shape_active. apply M. }
    pose proof (retypes_take_cached X c p k (pool_leave p w3) Hw3 Hat Hk (Hpos Hn)) as Ht.
    destruct (take_cached c k (pool_leave p w3)) as [r w4]. destruct Ht as [Rt Hb].
    apply (yields_after _ w3); [done|]. apply (yields_after _ (pool_leave p w3)); [apply retypes_active|].
    split; [done|]. intros b Eb. left. by apply Hb.
  - pose proof (yields_alloc_from_shard w1 p (Some c) (class_to_size k) w3 (inside_moves _ _ _ _ _ In M)
      (supplies_after _ _ R Hsup)) as Ha.
    destruct (alloc_from_shard _ _ _ _ w3) as [r w4]. by apply (yields_after _ w3).
Qed.

Lemma alloc_retypes p size tid w : world_inv w -> serving (shape w) p -> 0 <= size ->
  size_to_class size = k -> supplies w ->
  let '(r, w') := buffer_pool_alloc p size tid w in yields w r w'.
Proof using Hk.
  intros Hinv Hs Hsz Ek Hsup. unfold buffer_pool_alloc. rewrite Ek.
  destruct (_ || _); [apply yields_error, retypes_refl|].
  pose proof (get_thread_cache_steps p tid w Hinv Hs) as Hg.
  pose proof (retypes_get_thread_cache X p tid w Hinv) as R1.
  destruct (get_thread_cache p tid w) as [cache w1]. destruct Hg as [S1 Hc1]. cbn [snd] in R1.
  pose proof (steps_inv _ _ _ _ S1) as Hinv1. pose proof (serving_same _ _ p (proj2 (proj2 S1)) Hs) as Hs1.
  pose proof (pool_enter_inside p cache w1 Hinv1 Hs1 Hc1) as He.
  pose proof (retypes_pool_enter X p w1) as R2. pose proof (retypes_trans X _ _ _ R1 R2) as R12.
  destruct (pool_enter p w1) as [entered w2]. cbn [snd] in R2, R12.
  pose proof (supplies_after _ _ R12 Hsup) as Hsup2.
  destruct cache as [c|].
  - destruct (Z.ltb_spec 0 (tc_count (cache_at w1 c) k)) as [Hn|Hn].
    { pose proof (retypes_take_cached X c p k w1 ltac:(apply Hinv1) Hc1 Hk Hn) as Ht.
      destruct (take_cached c k w1) as [r w3]. destruct Ht as [R Hb].
      apply (yields_after _ w1); [done|]. split; [done|]. intros b Eb. left. by apply Hb. }
    destruct entered; cbn [negb]; [|by apply yields_error].
    pose proof (yields_refilled w1 p c w2 (proj1 He) Hsup2) as Hr.
    destruct (cache_refill p c k w2) as [n w3]. destruct (if 0 <? n then _ else _) as [r w4].
    by apply (yields_after _ w2).
  - destruct entered; cbn [negb]; [|by apply yields_error].
    pose proof (yields_alloc_from_shard w1 p None (class_to_size k) w2 (proj1 He) Hsup2) as Ha.
    destruct (alloc_from_shard _ _ _ _ w2) as [r w3]. by apply (yields_after _ w2).
Qed.
End Alloc.

(** ** Free, thread exit, destruction and initialisation *)

Section Free.
Context (X : Z -> Z -> Prop).

Lemma retypes_store_cached p c k buf w : world_ok w -> attached (shape w) c p -> in_class k ->
  tc_count (cache_at w c) k < THREAD_CACHE_SIZE -> X k buf -> retypes X w (store_cached p c k buf w).
Proof using Type.
  intros Hw Hat Hk Hn HX. destruct (attached_alive w c p Hw Hat) as (_ & Hok & _). unfold store_cached.
  destruct (_ || _); [apply retypes_free|].
  destruct (cache_push_ok (cache_at w c) k buf Hok Hk Hn) as (_ & _ & Hrow & _).
  apply retypes_cache. intros j b Hj H. rewrite Hrow in H. unfold st_set in H.
  destruct (Z.eqb_spec j k) as [->|]; [|left; by eapply listed_row].
  apply elem_of_app in H as [H|H]; [left; by eapply listed_row|right]. by apply list_elem_of_singleton in H as ->.
Qed.

Lemma retypes_free_to_shard w0 p cache k size buf w : inside w0 p cache w -> in_class k -> X k buf ->
  retypes X w (free_to_shard p cache k size buf w).
Proof using Type.
  intros In Hk HX. pose proof In as [H0 S Hsv Hd Hc]. pose proof (steps_inv _ _ _ _ S) as [Hw _].
  unfold free_to_shard. pose proof (select_shard_moves p cache w Hw Hsv Hd Hc) as Hsel.
  pose proof (retypes_select_shard X p cache w) as R.
  destruct (select_shard p cache w) as [sid w1]. destruct Hsel as (M & Hp & Hsid). cbn [snd] in R.
  assert (retypes X w (free_bufs [buf] (pool_leave p (upd_pool p (count_buffers size (-1)) w1)))) as Rf.
  { unfold pool_leave. retypes_peel. }
  destruct (at_high_water _); [done|].
  destruct (shard_push _ k buf size) as [sh|] eqn:E; [|done].
  eapply retypes_trans; [exact R|]. eapply retypes_trans; [|apply retypes_active].
  by apply (retypes_push X p sid k w1 buf size sh); [apply M|..].
Qed.

Lemma free_retypes p buf size k tid w : world_inv w -> serving (shape w) p -> 0 <= size ->
  size_to_class size = k -> in_class k -> X k buf -> retypes X w (buffer_pool_free p buf size tid w).
Proof using Type.
  intros Hinv Hs Hsz Ek Hk HX. unfold buffer_pool_free. rewrite Ek.
  destruct (buf =? 0); [apply retypes_refl|]. destruct (size =? 0); [apply retypes_free|].
  destruct (destroyed _); [apply retypes_free|].
  pose proof (get_thread_cache_steps p tid w Hinv Hs) as Hg.
  pose proof (retypes_get_thread_cache X p tid w Hinv) as R1.
  destruct (get_thread_cache p tid w) as [cache w1]. destruct Hg as [S1 Hc1]. cbn [snd] in R1.
  pose proof (steps_inv _ _ _ _ S1) as Hinv1. pose proof (serving_same _ _ p (proj2 (proj2 S1)) Hs) as Hs1.
  pose proof (pool_enter_inside p cache w1 Hinv1 Hs1 Hc1) as He.
  pose proof (retypes_pool_enter X p w1) as R2. eapply retypes_trans; [exact R1|].
  destruct (pool_enter p w1) as [entered w2]. cbn [snd] in R2.
  destruct cache as [c|].
  2:{ destruct entered; cbn [negb]; [|retypes_peel]. eapply retypes_trans; [exact R2|].
      by apply (retypes_free_to_shard w1 p None); [apply He|..]. }
  destruct (Z.ltb_spec (tc_count (cache_at w1 c) k) THREAD_CACHE_SIZE) as [Hn|Hn].
  { by apply retypes_store_cached; [apply Hinv1|..]. }
  destruct entered; cbn [negb]; [|retypes_peel]. eapply retypes_trans; [exact R2|].
  destruct He as [In _]. pose proof (steps_inv _ _ _ _ (in_steps _ _ _ _ In)) as [Hw2 _].
  destruct (cache_flush_moves w2 p c k (class_to_size k) Hw2 (in_cache _ _ _ _ In) Hk) as (M & _).
  pose proof (retypes_flush X w2 p c k (class_to_size k) Hw2 (in_cache _ _ _ _ In) Hk) as R3.
  set (w3 := snd _) in *. eapply retypes_trans; [exact R3|].
  destruct (Z.ltb_spec (tc_count (cache_at w3 c) k) THREAD_CACHE_SIZE) as [Hn3|Hn3].
  - pose proof (steps_inv _ _ _ _ (inside_leave _ _ _ _ _ _ _ In M)) as [Hw3 _].
    eapply retypes_trans; [apply (retypes_active X p (-1))|]. apply retypes_store_cached; try done.
    eapply attached_shape; [|exact (in_cache _ _ _ _ In)]. unfold pool_leave. rewrite shape_active. apply M.
  - by apply (retypes_free_to_shard w1); [exact (inside_moves _ _ _ _ _ In M)|..].
Qed.

Lemma exit_retypes tid w : world_inv w -> retypes X w (thread_exit tid w).
Proof using Type.
  intros Hinv. unfold thread_exit. destruct (aget None (tls_key w) tid) as [c|] eqn:Hkey; cbn [tls_destructor].
  2:{ by apply retypes_same. }
  destruct (wi_key _ (wo_wired _ (wv_ok _ Hinv)) tid c Hkey) as (_ & v & Hc & _).
  rewrite s_cache_shape in Hc. destruct (aget None (caches w) c) as [ca|] eqn:Ha; [|done]. clear v Hc.
  pose proof (exit_steps w tid c ca Hinv Hkey Ha) as S. pose proof (exit_alive w tid c ca Ha) as Ha2.
  set (w2 := upd_cache c _ _) in *. pose proof (steps_inv _ _ _ _ S) as [Hok2 _].
  assert (retypes X w w2) as R.
  { apply (retypes_trans X _ (set_tls tid None (w <| tls_key := aset (tls_key w) tid None |>)));
      [by apply retypes_same|by apply retypes_mark]. }
  cbv zeta. set (w3 := match tc_pool (cache_at w2 c) with Some p => _ | None => _ end).
  assert (retypes X w w3) as R3.
  { eapply retypes_trans; [exact R|]. unfold w3. destruct (tc_pool _) as [p|] eqn:Ep; [|apply retypes_cleanup_free].
    destruct (destroyed _); [retypes_peel|]. eapply retypes_trans; [|apply retypes_active].
    rewrite (alive_at _ _ _ Ha2) in Ep. eapply retypes_trans; [apply (retypes_active X p 1)|].
    apply (retypes_cleanup_flush X p c _ (ca <| thread_exited := true |>)); [|exact Ha2|done].
    by apply recounted_active. }
  clearbody w3. destruct (tc_pool (cache_at w3 c)); [done|]. retypes_peel.
Qed.

Lemma retypes_process_cache c self w : retypes X w (process_cache c self w).
Proof using Type.
  unfold process_cache. cbv zeta. set (w2 := upd_cache c _ _).
  assert (retypes X w w2) as R.
  { eapply retypes_trans; [apply retypes_cleanup_free|]. by apply retypes_mark. }
  clearbody w2. destruct (_ =? self).
  - destruct (pool_eqb _ _); retypes_peel.
  - destruct (thread_exited _); retypes_peel.
Qed.

Lemma retypes_process_list self fuel : forall c w w',
  process_list c self fuel w = Some w' -> retypes X w w'.
Proof using Type.
  induction fuel as [|fuel IH]; intros [c|] w w' E; cbn in E; simplify_eq; try apply retypes_refl.
  eapply retypes_trans; [apply (retypes_process_cache c self)|]. by eapply IH.
Qed.

Lemma destroy_retypes p self w w' : buffer_pool_destroy p self w = Some w' -> retypes X w w'.
Proof using Type.
  unfold buffer_pool_destroy, cleanup_phase_1_mark_destroyed, cleanup_phase_2_process_caches,
    cleanup_phase_3_destroy_shards. cbv zeta.
  set (w1 := upd_pool p (fun pool => pool <| destroyed := true |>) w).
  assert (retypes X w w1) as R1 by (by apply retypes_same_shards). clearbody w1.
  destruct (_ || _); [done|]. destruct (process_list _ _ _ _) as [w3|] eqn:E; [|done].
  pose proof (retypes_process_list _ _ _ _ _ E) as R2.
  destruct (destroy_shards _) as [bufs|]; [|done]. intros [= <-].
  eapply retypes_trans; [exact R1|]. eapply retypes_trans; [apply (retypes_list X p None)|].
  eapply retypes_trans; [exact R2|]. eapply retypes_trans; [apply (retypes_free X bufs)|].
  by apply retypes_no_shards.
Qed.

Lemma st_all_nil st k : in_class k -> st_all st = [] -> st k = [].
Proof using Type.
  intros Hk E. destruct (st_all_set st k [] Hk) as (a & b & Ea & _). rewrite E in Ea.
  symmetry in Ea. apply app_nil in Ea as [_ Ea]. by apply app_nil in Ea as [-> _].
Qed.

Lemma init_retypes p align cpus w : retypes X w (snd (buffer_pool_init p align cpus w)).
Proof using Type.
  unfold buffer_pool_init. destruct (_ || _); [apply retypes_refl|].
  destruct (calculate_shard_count cpus) as [n|]; [|apply retypes_refl].
  match goal with |- context[upd_pool p (fun _ => ?P) ?W] => set (pool := P); set (w0 := W) end.
  assert (retypes X w (upd_pool p (fun _ => pool) w0)) as R.
  { apply (retypes_trans X _ w0); [by apply retypes_same|by apply retypes_no_shards]. }
  set (w1 := upd_pool p _ w0) in *. clearbody w1. pose proof (retypes_libc X w1) as R1.
  destruct (libc_call w1) as [[] w2]; cbn [snd] in R1; [|by eapply retypes_trans].
  pose proof (init_shards_spec (Z.to_nat n) w2 []) as Hi.
  destruct (init_shards (Z.to_nat n) w2 []) as [[ok ss] w3].
  destruct Hi as [[l Hl] Hok]; [intros sh H; by apply elem_of_nil in H|done|].
  assert (retypes X w w3) as R3.
  { eapply retypes_trans; [exact R|]. eapply retypes_trans; [exact R1|]. rewrite Hl. by apply retypes_same. }
  destruct ok; [|exact R3]. destruct (Hok eq_refl) as (_ & Hss & Hnil). cbn [snd].
  eapply retypes_trans; [exact R3|]. apply retypes_pool. intros sid k b Hk H. exfalso.
  assert (forall sh, sh ∈ ss -> shard_stacks sh k = []) as Hempty.
  { intros sh Hsh. apply st_all_nil; [done|]. fold (shard_bufs sh).
    apply list_elem_of_split in Hsh as (l1 & l2 & ->). rewrite map_app, concat_app in Hnil.
    apply app_nil in Hnil as [_ Hnil]. cbn in Hnil. by apply app_nil in Hnil as [-> _]. }
  unfold shard_at in H. cbn in H. unfold aget in H. destruct (sid <? 0); [|].
  - rewrite no_shard_stack in H. by apply elem_of_nil in H.
  - destruct (nth_in_or_default (Z.to_nat sid) ss shard_zero) as [Hin|Hd].
    + rewrite Hempty in H by (by apply list_elem_of_In). by apply elem_of_nil in H.
    + rewrite Hd, no_shard_stack in H. by apply elem_of_nil in H.
Qed.
End Free.

(** ** Typed pools *)

(** Every pooled buffer is on a list of its class. *)
Definition typed (τ : Z -> Z) (w : world) : Prop := forall k b, listed w k b -> τ b = k.

Lemma stack_in_bufs sh k b : in_class k -> b ∈ shard_stacks sh k -> b ∈ shard_bufs sh.
Proof.
  intros Hk H. unfold shard_bufs. destruct (st_all_set (shard_stacks sh) k [] Hk) as (x & y & -> & _).
  rewrite !elem_of_app. tauto.
Qed.

Lemma row_in_bufs c k b : in_class k -> b ∈ cache_row c k -> b ∈ cache_bufs c.
Proof.
  intros Hk H. unfold cache_bufs. destruct (st_all_set (cache_row c) k [] Hk) as (x & y & -> & _).
  rewrite !elem_of_app. tauto.
Qed.

Lemma aget_or_default {A} (d : A) l i : aget d l i ∈ l \/ aget d l i = d.
Proof.
  unfold aget. destruct (i <? 0); [by right|].
  destruct (nth_in_or_default (Z.to_nat i) l d) as [H|H]; [left; by apply list_elem_of_In|by right].
Qed.

Lemma elem_of_concat_map {A B} (f : A -> list B) l x b : x ∈ l -> b ∈ f x -> b ∈ concat (map f l).
Proof.
  intros Hx Hb. apply list_elem_of_In, in_concat. exists (f x). split; [|by apply list_elem_of_In].
  by apply in_map, list_elem_of_In.
Qed.

Lemma listed_pooled w k b : listed w k b -> b ∈ pooled w.
Proof.
  intros [Hk [(p & sid & H)|(c & H)]]; unfold pooled; rewrite elem_of_app.
  - left. unfold pool_at in H. destruct (aget_or_default pool_zero (pools w) p) as [Hp|E].
    2:{ rewrite E, no_pool_stack in H by done. by apply elem_of_nil in H. }
    eapply elem_of_concat_map; [exact Hp|]. unfold pool_bufs. set (pool := aget _ _ _) in *.
    destruct (aget_or_default shard_zero (shards pool) sid) as [Hs|E].
    2:{ unfold shard_at in H. rewrite E, no_shard_stack in H. by apply elem_of_nil in H. }
    eapply elem_of_concat_map; [exact Hs|]. by eapply stack_in_bufs.
  - right. unfold cache_at in H. destruct (aget_or_default None (caches w) c) as [Hc|E].
    2:{ rewrite E in H. cbn in H. rewrite zero_counts_row in H by done. by apply elem_of_nil in H. }
    eapply elem_of_concat_map; [exact Hc|]. destruct (aget None (caches w) c) as [ca|]; cbn in *.
    + by eapply row_in_bufs.
    + rewrite zero_counts_row in H by done. by apply elem_of_nil in H.
Qed.

Definition retype (τ : Z -> Z) (news : list Z) (k : Z) : Z -> Z :=
  fun b => if decide (b ∈ news) then k else τ b.

Lemma retype_old τ news k b : b ∉ news -> retype τ news k b = τ b.
Proof. intros H. unfold retype. by rewrite decide_False. Qed.

Lemma retype_new τ news k b : b ∈ news -> retype τ news k b = k.
Proof. intros H. unfold retype. by rewrite decide_True. Qed.

Lemma pooled_not_new w b : NoDup (ledger w) -> b ∈ pooled w -> b ∉ heap_left w.
Proof.
  unfold ledger. intros Hnd H Hh. apply NoDup_app in Hnd as (_ & Hd & _).
  apply (Hd b H). apply elem_of_app. by right.
Qed.

(** A step that puts only new buffers of class [k] on the lists. *)
Lemma retypes_typed τ k w w' : NoDup (ledger w) -> typed τ w ->
  retypes (fun j b => j = k /\ b ∈ heap_left w) w w' -> typed (retype τ (heap_left w) k) w'.
Proof.
  intros Hnd Ht R j b H. destruct (rt_listed _ _ _ R j b H) as [Hl|[-> Hn]]; [|by apply retype_new].
  rewrite retype_old by (eapply pooled_not_new; [done|by eapply listed_pooled]). by apply Ht.
Qed.
