(* ===== verification/EngineBuffers.v ===== *)
(** * Managed buffers

    [aura.c] 2323-2345: a buffer of the engine comes from its pool, and the
    buffer size map remembers its class until it is given back, so that
    [aura_buffer_free] needs no size. The map represents exactly the buffers
    the clients hold, and a buffer goes back to the list of the class it was
    allocated for. *)
From Stdlib Require Import ZArith Lia List.
From stdpp Require Import base tactics list gmap.
From S2P Require Import Prelude BufSize BufMap BufMapSpec BufPool BufPoolInv BufPoolSpec BufPoolOps BufPoolDestroy BufPoolRun BufTyped.

#[local] Open Scope Z_scope.

(** The pool is at address [p]; [calloc_ok] is the outcome of the allocation a
    growing map makes. [None] is a rehash that ran out of fuel, which never
    happens. *)
Definition aura_buffer_alloc (p size tid : Z) (calloc_ok : bool) (map : buf_size_map_t) (w : world)
  : option (result Z * buf_size_map_t * world) :=
  if size =? 0 then Some (Err EINVAL, map, w)
  else
    let '(r, w) := buffer_pool_alloc p size tid w in
    match r with
    | Err e => Some (Err e, map, w)
    | Ok buf =>
        match buf_size_map_insert map buf (size_to_class size) calloc_ok with
        | None => None
        | Some (Err e, map) => Some (Err e, map, buffer_pool_free p buf size tid w)
        | Some (Ok _, map) => Some (Ok buf, map, w)
        end
    end.

Definition aura_buffer_free (p buf tid : Z) (map : buf_size_map_t) (w : world) : buf_size_map_t * world :=
  if buf =? 0 then (map, w) else buffer_pool_free_tracked p map buf tid w.

(** ** The clients' buffers *)

(** The clients hold the buffers of [held], each with its class; [τ] is the
    class of every buffer the allocator has handed out. *)
Record keeps (p : Z) (τ : Z -> Z) (held : list (Z * Z)) (w : world) : Prop := {
  kp_inv : world_inv w;
  kp_serving : serving (shape w) p;
  kp_once : NoDup (held.*1 ++ ledger w);
  kp_nonzero : 0 ∉ held.*1 ++ ledger w;
  kp_held : forall b k, (b, k) ∈ held -> in_class k /\ τ b = k;
  kp_typed : typed τ w
}.

Lemma keeps_perm p τ held held' w : held ≡ₚ held' -> keeps p τ held w -> keeps p τ held' w.
Proof.
  intros P [H1 H2 H3 H4 H5 H6]. pose proof (fmap_Permutation fst _ _ P) as P'.
  split; try done; [by rewrite <- P'|by rewrite <- P'|]. intros b k. rewrite <- P. apply H5.
Qed.

Lemma held_not_new p τ held w b k : keeps p τ held w -> (b, k) ∈ held -> b ∉ heap_left w.
Proof.
  intros [_ _ Hnd _ _ _] Hb Hh. apply NoDup_app in Hnd as (_ & Hd & _).
  apply (Hd b); [by apply (list_elem_of_fmap_2 fst _ (b, k))|]. unfold ledger. rewrite !elem_of_app. tauto.
Qed.

Definition handed (r : result Z) (k : Z) : list (Z * Z) :=
  match r with Ok b => [(b, k)] | Err _ => [] end.

Lemma keeps_alloc p τ held size tid w : keeps p τ held w -> 0 < size ->
  let k := size_to_class size in
  let '(r, w') := buffer_pool_alloc p size tid w in
  keeps p (retype τ (heap_left w) k) (handed r k ++ held) w' /\
  (forall b, b ∈ heap_left w' -> b ∈ heap_left w) /\
  forall b, r = Ok b -> (b ∉ held.*1) /\ (b ∉ heap_left w -> τ b = k).
Proof.
  intros Kp Hs k. pose proof Kp as [Hinv Hsv Hnd H0 Hheld Ht]. pose proof (size_to_class_range size Hs) as Hk.
  pose proof (buffer_pool_alloc_steps p size tid w Hinv Hsv ltac:(lia)) as S.
  set (X := fun j b => j = k /\ b ∈ heap_left w).
  pose proof (alloc_retypes X k Hk p size tid w Hinv Hsv ltac:(lia) eq_refl (fun b Hb => conj eq_refl Hb)) as Y.
  destruct (buffer_pool_alloc p size tid w) as [r w']. destruct Y as [R Hr].
  assert (held.*1 ++ ledger w ≡ₚ (handed r k ++ held).*1 ++ ledger w') as P.
  { pose proof (ev_ledger _ _ _ _ (proj1 S)) as L. destruct r as [b|e]; cbn in *; perm_lia. }
  assert (NoDup (ledger w)) as Hndw by (by apply NoDup_app in Hnd as (_ & _ & Hnd)).
  assert (forall b, r = Ok b -> retype τ (heap_left w) k b = k) as Hnew.
  { intros b E. destruct (decide (b ∈ heap_left w)) as [Hb|Hb]; [by apply retype_new|].
    rewrite retype_old by done. destruct (Hr b E) as [Hl|[_ Hb']]; [by apply Ht|done]. }
  split; [|split; [apply R|]].
  - split; [by eapply steps_inv|by eapply serving_same; [apply S|]|by rewrite <- P|by rewrite <- P| |].
    + intros b j Hb. apply elem_of_app in Hb as [Hb|Hb].
      * destruct r as [x|e]; cbn in Hb; [|by apply elem_of_nil in Hb].
        apply list_elem_of_singleton in Hb. assert (b = x /\ j = k) as [-> ->] by (split; congruence).
        split; [done|by apply Hnew].
      * rewrite retype_old by (by eapply held_not_new). by apply Hheld.
    + by apply retypes_typed.
  - intros b ->. cbn in P. split.
    + rewrite P in Hnd. cbn in Hnd. apply NoDup_cons in Hnd as [Hb _]. rewrite elem_of_app in Hb. tauto.
    + intros Hb. rewrite <- (Hnew b eq_refl). by rewrite retype_old.
Qed.

Lemma keeps_free p τ held b k size tid w : keeps p τ ((b, k) :: held) w -> 0 <= size ->
  size_to_class size = k ->
  keeps p τ held (buffer_pool_free p b size tid w) /\
  forall x, x ∈ heap_left (buffer_pool_free p b size tid w) -> x ∈ heap_left w.
Proof.
  intros [Hinv Hsv Hnd H0 Hheld Ht] Hs Ek. cbn in Hnd, H0.
  assert (b <> 0) as Hb by (intros ->; apply H0; by left).
  destruct (Hheld b k ltac:(by left)) as [Hk Hτ].
  pose proof (buffer_pool_free_steps p b size tid w Hinv Hsv Hs Hb) as S.
  pose proof (free_retypes (fun j x => j = k /\ x = b) p b size k tid w Hinv Hsv Hs Ek Hk (conj eq_refl eq_refl)) as R.
  set (w' := buffer_pool_free _ _ _ _ _) in *.
  assert (b :: held.*1 ++ ledger w ≡ₚ held.*1 ++ ledger w') as P.
  { pose proof (ev_ledger _ _ _ _ (proj1 S)) as L. cbn in L. perm_lia. }
  split; [|apply R].
  split; [by eapply steps_inv|by eapply serving_same; [apply S|]|by rewrite <- P|by rewrite <- P| |].
  - intros x j Hx. apply Hheld. by right.
  - intros j x Hx. destruct (rt_listed _ _ _ R j x Hx) as [Hl|[-> ->]]; [by apply Ht|done].
Qed.

Lemma keeps_exit p τ held tid w : keeps p τ held w ->
  keeps p τ held (thread_exit tid w) /\ forall x, x ∈ heap_left (thread_exit tid w) -> x ∈ heap_left w.
Proof.
  intros [Hinv Hsv Hnd H0 Hheld Ht]. pose proof (thread_exit_steps tid w Hinv) as S.
  pose proof (exit_retypes (fun _ _ => False) tid w Hinv) as R. set (w' := thread_exit tid w) in *.
  assert (held.*1 ++ ledger w ≡ₚ held.*1 ++ ledger w') as P.
  { pose proof (ev_ledger _ _ _ _ (proj1 S)) as L. cbn in L. by rewrite L. }
  split; [|apply R].
  split; [by eapply steps_inv|by eapply serving_same; [apply S|]|by rewrite <- P|by rewrite <- P|done|].
  intros j x Hx. destruct (rt_listed _ _ _ R j x Hx) as [Hl|[]]. by apply Ht.
Qed.

(** ** The buffers of an engine *)

(** The map represents the buffers the clients hold. *)
Definition managed (p : Z) (τ : Z -> Z) (g : gmap Z Z) (map : buf_size_map_t) (w : world) : Prop :=
  keeps p τ (map_to_list g) w /\ bm_repr map g.

(** The pool and the map of a new engine. *)
Lemma created_managed p align cpus w τ map : world_inv w -> vacant w p -> cpus <= 2 ^ 32 ->
  NoDup (ledger w) -> 0 ∉ ledger w -> typed τ w ->
  fst (buffer_pool_init p align cpus w) = Ok tt -> buf_size_map_init true true = Some map ->
  managed p τ ∅ map (snd (buffer_pool_init p align cpus w)).
Proof.
  intros Hinv V Hcpu Hnd H0 Ht Eok Emap. destruct bm_repr_init as (map' & E & Hr).
  rewrite Emap in E. injection E as <-. split; [|done]. rewrite map_to_list_empty.
  pose proof (buffer_pool_init_ok p align cpus w Hinv V Hcpu) as Hi.
  pose proof (init_retypes (fun _ _ => False) p align cpus w) as R.
  destruct (buffer_pool_init p align cpus w) as [r w']. cbn [fst snd] in *.
  destruct Hi as (Ev & Hf & _ & _ & Hs). subst r. destruct Hs as [Hsv _].
  pose proof (ev_ledger _ _ _ _ Ev) as L. cbn in L.
  split; cbn; [by split; [apply Ev|]|done|by rewrite <- L|by rewrite <- L| |].
  - intros b k H. by apply elem_of_nil in H.
  - intros k b H. destruct (rt_listed _ _ _ R k b H) as [Hl|[]]. by apply Ht.
Qed.

(** One operation on the engine's buffers: any thread allocates, gives back a
    buffer that the clients hold, or exits. *)
Definition buffers : Type := gmap Z Z * buf_size_map_t * world.

Inductive buffer_step (p : Z) : buffers -> buffers -> Prop :=
  | bs_alloc g m w size tid calloc_ok r m' w' : 0 <= size ->
      aura_buffer_alloc p size tid calloc_ok m w = Some (r, m', w') ->
      buffer_step p (g, m, w) (match r with Ok b => <[b := size_to_class size]> g | Err _ => g end, m', w')
  | bs_free g m w b k tid : g !! b = Some k ->
      buffer_step p (g, m, w)
        (delete b g, fst (aura_buffer_free p b tid m w), snd (aura_buffer_free p b tid m w))
  | bs_exit g m w tid : buffer_step p (g, m, w) (g, m, thread_exit tid w).

Lemma u8_class k : in_class k -> u8 k = k.
Proof. intros [H1 H2]. unfold BUFFER_SIZE_CLASSES in H2. apply Z.mod_small. lia. Qed.

Lemma alloc_size p size tid w b : fst (buffer_pool_alloc p size tid w) = Ok b -> size <= BUFFER_POOL_MAX_SIZE.
Proof.
  unfold buffer_pool_alloc. destruct (Z.ltb_spec BUFFER_POOL_MAX_SIZE size); [|done].
  by rewrite orb_true_r.
Qed.

(** Allocation on every branch. *)
Lemma alloc_managed p τ g m w size tid calloc_ok : managed p τ g m w -> 0 <= size ->
  exists r m' w' τ', aura_buffer_alloc p size tid calloc_ok m w = Some (r, m', w') /\
    managed p τ' (match r with Ok b => <[b := size_to_class size]> g | Err _ => g end) m' w' /\
    (forall b, b ∈ heap_left w' -> b ∈ heap_left w) /\
    (forall b, b ∉ heap_left w -> τ' b = τ b) /\
    forall b, r = Ok b -> g !! b = None /\ 0 < size <= class_to_size (size_to_class size) /\
      (b ∉ heap_left w -> τ b = size_to_class size).
Proof.
  intros [Kp Hm] Hs. unfold aura_buffer_alloc. destruct (Z.eqb_spec size 0) as [->|Hne].
  { exists (Err EINVAL), m, w, τ. by split_and!. }
  pose proof (size_to_class_range size ltac:(lia)) as Hk. set (k := size_to_class size) in *.
  pose proof (keeps_alloc p τ _ size tid w Kp ltac:(lia)) as Ha. fold k in Ha. cbv zeta in Ha.
  pose proof (alloc_size p size tid w) as Hsize.
  destruct (buffer_pool_alloc p size tid w) as [[b|e] w']; destruct Ha as (Kp' & Hheap & Hr); cbn [handed app] in Kp'.
  2:{ exists (Err e), m, w', (retype τ (heap_left w) k). split_and!; try done. intros b. apply retype_old. }
  destruct (Hr b eq_refl) as [Hfresh Hcls].
  assert (g !! b = None) as Hg.
  { destruct (g !! b) as [j|] eqn:E; [|done]. exfalso. apply Hfresh.
    apply (list_elem_of_fmap_2 fst _ (b, j)). by apply elem_of_map_to_list. }
  assert (b <> 0) as Hb by (intros ->; apply (kp_nonzero _ _ _ _ Kp'); by left).
  destruct (insert_ok m g b k calloc_ok Hm Hb) as (r & m' & -> & Hins). destruct r as [[]|e].
  - exists (Ok b), m', w', (retype τ (heap_left w) k). rewrite u8_class in Hins by done.
    split; [done|]. split; [|split; [done|split; [intros x; apply retype_old|]]].
    + split; [|done]. eapply keeps_perm; [|exact Kp']. by rewrite map_to_list_insert.
    + intros x [= <-]. split; [done|]. split; [|done].
      assert (size <= BUFFER_POOL_MAX_SIZE) by by apply (Hsize b). split; [lia|].
      destruct (size_class_ok size) as (_ & Hfit & _); [lia|done].
  - destruct Hins as (-> & _). exists (Err e), m. eexists. exists (retype τ (heap_left w) k).
    destruct (keeps_free _ _ _ _ _ size tid _ Kp' Hs eq_refl) as [Kp2 Hheap2].
    split; [done|]. split; [by split|]. split; [auto|]. split; [intros x; apply retype_old|done].
Qed.

Lemma free_managed p τ g m w b k tid : managed p τ g m w -> g !! b = Some k ->
  let '(m', w') := aura_buffer_free p b tid m w in
  managed p τ (delete b g) m' w' /\ forall x, x ∈ heap_left w' -> x ∈ heap_left w.
Proof.
  intros [Kp Hm] Hg. pose proof (map_to_list_delete g b k Hg) as P.
  pose proof (keeps_perm _ _ _ _ _ (symmetry P) Kp) as Kp'.
  assert (b <> 0) as Hb by (intros ->; apply (kp_nonzero _ _ _ _ Kp'); by left).
  destruct (kp_held _ _ _ _ Kp' b k ltac:(by left)) as [Hk _].
  unfold aura_buffer_free, buffer_pool_free_tracked. rewrite (proj2 (Z.eqb_neq b 0) Hb).
  destruct (remove_present m g b Hm k Hg) as (m' & -> & Hm' & _).
  destruct (Z.ltb_spec k 0) as [Hlt|_]; [unfold in_class in Hk; lia|].
  pose proof (class_to_size_pow k Hk) as Es.
  assert (0 <= class_to_size k) as Hs by (rewrite Es; pose proof (Z.pow_nonneg 2 k); lia).
  destruct (keeps_free p τ _ b k (class_to_size k) tid w Kp' Hs (size_to_class_roundtrip k Hk)) as [Kp2 Hh].
  by split.
Qed.

Lemma buffer_step_managed p τ g m w s : buffer_step p (g, m, w) s -> managed p τ g m w ->
  exists g' m' w' τ', s = (g', m', w') /\ managed p τ' g' m' w' /\
    (forall b, b ∈ heap_left w' -> b ∈ heap_left w) /\ forall b, b ∉ heap_left w -> τ' b = τ b.
Proof.
  intros St Hm. inversion St as [? ? ? size tid ok r m' w' Hs E|? ? ? b k tid Hb|? ? ? tid]; subst.
  - destruct (alloc_managed p τ g m w size tid ok Hm Hs) as (r2 & m2 & w2 & τ2 & E2 & Hm2 & Hh & Hτ & _).
    rewrite E in E2. injection E2 as <- <- <-. do 3 eexists. exists τ2. by split_and!.
  - pose proof (free_managed p τ g m w b k tid Hm Hb) as H. destruct (aura_buffer_free p b tid m w) as [m' w'].
    do 3 eexists. exists τ. split; [done|]. split; [apply H|]. split; [apply H|done].
  - destruct Hm as [Kp Hm]. destruct (keeps_exit p τ _ tid w Kp) as [Kp' Hh].
    do 3 eexists. exists τ. split; [done|]. by split_and!.
Qed.

(** C5. Managed buffers keep their class. Along any sequence of
    [aura_buffer_alloc] and [aura_buffer_free] by any threads and of thread
    exits, on an engine whose pool is empty or typed: the map keeps
    representing exactly the buffers the clients hold, with their classes;
    no buffer is handed out twice; and every buffer in a shard or a thread
    cache is on a list of the class it was allocated for, which never changes
    ([τ'] extends [τ]). So an allocation that succeeds returns a buffer nobody
    holds, whose class holds the requested size, and which, unless it is new,
    was allocated for that same class. *)
Theorem managed_buffers_typed p τ g m w g' m' w' :
  rtc (buffer_step p) (g, m, w) (g', m', w') -> managed p τ g m w ->
  exists τ', managed p τ' g' m' w' /\ (forall b, b ∉ heap_left w -> τ' b = τ b) /\
    forall size tid calloc_ok, 0 <= size ->
      exists r m2 w2, aura_buffer_alloc p size tid calloc_ok m' w' = Some (r, m2, w2) /\
        forall b, r = Ok b -> g' !! b = None /\ 0 < size <= class_to_size (size_to_class size) /\
          (b ∉ heap_left w' -> τ' b = size_to_class size).
Proof.
  intros Hsteps Hm.
  assert (exists τ', managed p τ' g' m' w' /\ (forall b, b ∉ heap_left w -> τ' b = τ b)) as (τ' & Hm' & Hτ).
  { remember (g, m, w) as s eqn:Es. remember (g', m', w') as s' eqn:Es'. revert g m w τ Es Hm.
    induction Hsteps as [s|s1 s2 s3 St _ IH]; intros g m w τ -> Hm.
    { injection Es' as -> -> ->. by exists τ. }
    specialize (IH Es'). destruct (buffer_step_managed p τ _ _ _ _ St Hm) as (g2 & m2 & w2 & τ2 & -> & Hm2 & Hh & Hτ2).
    destruct (IH g2 m2 w2 τ2 eq_refl Hm2) as (τ' & Hm' & Hτ). exists τ'. split; [done|].
    intros b Hb. rewrite Hτ by auto. by apply Hτ2. }
  exists τ'. split_and!; [done|done|]. intros size tid calloc_ok Hs.
  destruct (alloc_managed p τ' g' m' w' size tid calloc_ok Hm' Hs) as (r & m2 & w2 & _ & E & _ & _ & _ & Hr).
  by exists r, m2, w2.
Qed.

(** The pool and the map of a new engine, two threads, forty buffers at the
    allocator. *)
Definition demo_map : buf_size_map_t :=
  default {| entries := []; capacity := 0; count := 0 |} (buf_size_map_init true true).

Definition demo_alloc (size tid : Z) (s : buf_size_map_t * world) : buf_size_map_t * world :=
  match aura_buffer_alloc 0 size tid true (fst s) (snd s) with
  | Some (_, m, w) => (m, w)
  | None => s
  end.

(** Two allocations, by two threads, and the first buffer given back. *)
Definition demo_s1 : buf_size_map_t * world := demo_alloc 100 0 (demo_map, demo_init).
Definition demo_s2 : buf_size_map_t * world := demo_alloc 9000 1 demo_s1.
Definition demo_s3 : buf_size_map_t * world := aura_buffer_free 0 4096 0 (fst demo_s2) (snd demo_s2).
Definition demo_g : gmap Z Z := delete 4096 (<[4112 := 2]> (<[4096 := 0]> ∅)).

Lemma demo_steps : rtc (buffer_step 0) (∅, demo_map, demo_init) (demo_g, fst demo_s3, snd demo_s3).
Proof.
  apply rtc_l with (<[4096 := 0]> ∅, fst demo_s1, snd demo_s1).
  { apply (bs_alloc 0 ∅ demo_map demo_init 100 0 true (Ok 4096)); [lia|]. by vm_compute. }
  apply rtc_l with (<[4112 := 2]> (<[4096 := 0]> ∅), fst demo_s2, snd demo_s2).
  { apply (bs_alloc 0 _ _ _ 9000 1 true (Ok 4112)); [lia|]. by vm_compute. }
  apply rtc_once, (bs_free 0 _ _ _ 4096 0 0). by vm_compute.
Qed.

Lemma demo_blank_once : NoDup (ledger demo_blank) /\ forall k b, ~ listed demo_blank k b.
Proof.
  split; [|intros k b H; apply listed_pooled in H; by apply elem_of_nil in H].
  change (NoDup (omap result_ok demo_heap)).
  apply (bool_decide_unpack (NoDup (omap result_ok demo_heap))). by vm_compute.
Qed.

Lemma demo_managed : managed 0 (fun _ => 0) ∅ demo_map demo_init.
Proof.
  destruct bm_repr_init as (map & E & _). unfold demo_map. rewrite E. destruct demo_start as [Hinv H0].
  destruct demo_blank_once as [Hnd Hl].
  pose proof (blank_vacant 1 2 demo_heap (replicate 20 (Ok tt)) 0 ltac:(lia)) as V.
  apply (created_managed 0 64 4 demo_blank (fun _ => 0) map Hinv V); [lia|exact Hnd|exact H0| |by vm_compute|done].
  intros k b H. by apply Hl in H.
Qed.

Lemma managed_buffers_typed_witness :
  exists τ', managed 0 τ' demo_g (fst demo_s3) (snd demo_s3) /\ τ' 4096 = 0 /\
    exists m w, aura_buffer_alloc 0 50 0 true (fst demo_s3) (snd demo_s3) = Some (Ok 4096, m, w).
Proof.
  destruct (managed_buffers_typed 0 (fun _ => 0) ∅ demo_map demo_init demo_g (fst demo_s3) (snd demo_s3)
    demo_steps demo_managed) as (τ' & Hm & _ & Hnext).
  exists τ'. split; [exact Hm|]. destruct (Hnext 50 0 true ltac:(lia)) as (r & m & w & E & Hr).
  assert (r = Ok 4096) as ->.
  { assert (fst <$> (fst <$> aura_buffer_alloc 0 50 0 true (fst demo_s3) (snd demo_s3)) = Some (Ok 4096)) as E'
      by by vm_compute.
    rewrite E in E'. cbn in E'. congruence. }
  destruct (Hr 4096 eq_refl) as (_ & _ & Hτ). split; [|by exists m, w]. apply Hτ.
  apply (bool_decide_unpack (4096 ∉ heap_left (snd demo_s3))). by vm_compute.
Defined.
