(* ===== verification/PoolLife.v ===== *)
(** * The life of a pool, between threads

    [adaptive_buffer.c] 317-321 and 345-383 (registration of a cache), 546-556
    and 588-602 ([pool_enter], [pool_leave], the bracket of [tls_destructor])
    against 698-832 (the three phases of [buffer_pool_destroy]): one step per
    atomic access to [destroyed], [registrations_inflight], [active_users] and
    [thread_caches], so that the steps of any number of threads interleave in
    any order. What a thread does inside the bracket is in [BufPool].

    The memory is sequentially consistent, except that the plain store of
    [destroyed] may wait in the destroying processor's store buffer
    ([EvMarkBuffered]), as x86 allows for a [memory_order_release] store.
    [destruction_excludes] holds when it does not; [buffered_mark_races] is the
    run in which it does. *)
From Stdlib Require Import ZArith Lia List.
From stdpp Require Import base tactics list relations.
From S2P Require Import Prelude.

#[local] Open Scope Z_scope.

(** ** Threads *)

(** Where a client thread stands. *)
Inductive client_pc :=
  | Out
  | Entered            (* bumped active_users, to read destroyed *)
  | Inside             (* using the shards *)
  | Refused            (* it was destroyed: to take the bump back *)
  | Registering        (* bumped registrations_inflight, to read destroyed *)
  | Publishing         (* to push its cache on the list *)
  | Registered.        (* to take the bump back *)

(** Where the destroying thread stands. *)
Inductive destroyer_pc :=
  | Alive              (* buffer_pool_destroy not called *)
  | WaitRegistrations  (* phase 1, first loop *)
  | WaitUsers          (* phase 1, second loop *)
  | DrainCaches        (* phase 2: to exchange the list with NULL *)
  | FreeShards         (* phase 3: the list was empty *)
  | Gone.

#[export] Instance client_pc_eq_dec : EqDecision client_pc.
Proof. solve_decision. Defined.
#[export] Instance destroyer_pc_eq_dec : EqDecision destroyer_pc.
Proof. solve_decision. Defined.

Record life := {
  destroyed : bool;
  store_buffer : bool;         (* the store of destroyed = true has not reached memory *)
  registrations_inflight : Z;
  active_users : Z;
  thread_caches : Z;           (* the length of the list *)
  shards : bool;               (* not yet freed *)
  client : list client_pc;     (* per thread *)
  destroyer : destroyer_pc
}.

(** A pool as [buffer_pool_init] leaves it, with [n] threads. *)
Definition life_init (n : nat) : life := {|
  destroyed := false; store_buffer := false; registrations_inflight := 0; active_users := 0;
  thread_caches := 0; shards := true; client := replicate n Out; destroyer := Alive |}.

Definition life_eta (s : life) : life := {|
  destroyed := destroyed s; store_buffer := store_buffer s;
  registrations_inflight := registrations_inflight s; active_users := active_users s;
  thread_caches := thread_caches s; shards := shards s; client := client s; destroyer := destroyer s |}.

#[export] Instance set_destroyed : Setter destroyed := ltac:(mk_setter life_eta).
#[export] Instance set_store_buffer : Setter store_buffer := ltac:(mk_setter life_eta).
#[export] Instance set_registrations : Setter registrations_inflight := ltac:(mk_setter life_eta).
#[export] Instance set_users : Setter active_users := ltac:(mk_setter life_eta).
#[export] Instance set_caches : Setter thread_caches := ltac:(mk_setter life_eta).
#[export] Instance set_shards : Setter shards := ltac:(mk_setter life_eta).
#[export] Instance set_client : Setter client := ltac:(mk_setter life_eta).
#[export] Instance set_destroyer : Setter destroyer := ltac:(mk_setter life_eta).

Definition goto (s : life) (t : nat) (p : client_pc) : life := s <| client := <[t := p]> (client s) |>.
Definition add_users (n : Z) (s : life) : life := s <| active_users := active_users s + n |>.
Definition add_registrations (n : Z) (s : life) : life :=
  s <| registrations_inflight := registrations_inflight s + n |>.

(** ** Steps *)

Inductive event :=
  | EvEnter | EvCheck                    (* pool_enter *)
  | EvUse                                (* an access to pool->shards *)
  | EvLeave                              (* pool_leave, and the refusal *)
  | EvRegister | EvRegisterCheck | EvPublish | EvRegistered
  | EvMark                               (* destroyed = true *)
  | EvMarkBuffered | EvDrainBuffer
  | EvNoRegistrations | EvNoUsers        (* the loops of phase 1 end *)
  | EvExchange                           (* phase 2 *)
  | EvFree.                              (* phase 3 *)

Inductive step (s : life) (t : nat) : event -> life -> Prop :=
  | step_enter : client s !! t = Some Out -> step s t EvEnter (add_users 1 (goto s t Entered))
  | step_check : client s !! t = Some Entered ->
      step s t EvCheck (goto s t (if destroyed s then Refused else Inside))
  | step_use : client s !! t = Some Inside -> step s t EvUse s
  | step_leave p : client s !! t = Some p -> p = Inside \/ p = Refused ->
      step s t EvLeave (add_users (-1) (goto s t Out))
  | step_register : client s !! t = Some Out ->
      step s t EvRegister (add_registrations 1 (goto s t Registering))
  | step_register_check : client s !! t = Some Registering ->
      step s t EvRegisterCheck (goto s t (if destroyed s then Registered else Publishing))
  | step_publish : client s !! t = Some Publishing ->
      step s t EvPublish ((goto s t Registered) <| thread_caches := thread_caches s + 1 |>)
  | step_registered : client s !! t = Some Registered ->
      step s t EvRegistered (add_registrations (-1) (goto s t Out))
  | step_mark : destroyer s = Alive ->
      step s t EvMark (s <| destroyed := true |> <| destroyer := WaitRegistrations |>)
  | step_mark_buffered : destroyer s = Alive ->
      step s t EvMarkBuffered (s <| store_buffer := true |> <| destroyer := WaitRegistrations |>)
  | step_drain_buffer : store_buffer s = true ->
      step s t EvDrainBuffer (s <| destroyed := true |> <| store_buffer := false |>)
  | step_no_registrations : destroyer s = WaitRegistrations -> registrations_inflight s <= 0 ->
      step s t EvNoRegistrations (s <| destroyer := WaitUsers |>)
  | step_no_users : destroyer s = WaitUsers -> active_users s <= 0 ->
      step s t EvNoUsers (s <| destroyer := DrainCaches |>)
  | step_exchange : destroyer s = DrainCaches -> store_buffer s = false ->
      step s t EvExchange
        (if thread_caches s =? 0 then s <| destroyer := FreeShards |> else s <| thread_caches := 0 |>)
  | step_free : destroyer s = FreeShards ->
      step s t EvFree (s <| shards := false |> <| destroyer := Gone |>).

(** The same steps as a function. *)
Definition exec (s : life) (t : nat) (ev : event) : option life :=
  match ev, client s !! t, destroyer s with
  | EvEnter, Some Out, _ => Some (add_users 1 (goto s t Entered))
  | EvCheck, Some Entered, _ => Some (goto s t (if destroyed s then Refused else Inside))
  | EvUse, Some Inside, _ => Some s
  | EvLeave, Some (Inside | Refused), _ => Some (add_users (-1) (goto s t Out))
  | EvRegister, Some Out, _ => Some (add_registrations 1 (goto s t Registering))
  | EvRegisterCheck, Some Registering, _ =>
      Some (goto s t (if destroyed s then Registered else Publishing))
  | EvPublish, Some Publishing, _ =>
      Some ((goto s t Registered) <| thread_caches := thread_caches s + 1 |>)
  | EvRegistered, Some Registered, _ => Some (add_registrations (-1) (goto s t Out))
  | EvMark, _, Alive => Some (s <| destroyed := true |> <| destroyer := WaitRegistrations |>)
  | EvMarkBuffered, _, Alive => Some (s <| store_buffer := true |> <| destroyer := WaitRegistrations |>)
  | EvDrainBuffer, _, _ =>
      if store_buffer s then Some (s <| destroyed := true |> <| store_buffer := false |>) else None
  | EvNoRegistrations, _, WaitRegistrations =>
      if registrations_inflight s <=? 0 then Some (s <| destroyer := WaitUsers |>) else None
  | EvNoUsers, _, WaitUsers => if active_users s <=? 0 then Some (s <| destroyer := DrainCaches |>) else None
  | EvExchange, _, DrainCaches =>
      if store_buffer s then None
      else Some (if thread_caches s =? 0 then s <| destroyer := FreeShards |> else s <| thread_caches := 0 |>)
  | EvFree, _, FreeShards => Some (s <| shards := false |> <| destroyer := Gone |>)
  | _, _, _ => None
  end.

Lemma life_exec_step s t ev s' : exec s t ev = Some s' <-> step s t ev s'.
Proof.
  split.
  - unfold exec. intros E.
    destruct ev, (client s !! t) as [[]|] eqn:Ec, (destroyer s) eqn:Ed; try done;
      repeat match type of E with
             | context [if store_buffer s then _ else _] => destruct (store_buffer s) eqn:?; try done
             | context [?a <=? 0] => destruct (Z.leb_spec a 0); [|done]
             end; injection E as <-; econstructor; eauto.
  - destruct 1 as [H|H|H|p H [->| ->]|H|H|H|H|H|H|H|H H1|H H1|H H1|H]; unfold exec; rewrite ?H; try done.
    + by apply Z.leb_le in H1 as ->.
    + by apply Z.leb_le in H1 as ->.
    + by rewrite H1.
Qed.

(** Steps with the store of [destroyed] ordered before the loads that follow. *)
Definition ordered_step (s s' : life) : Prop := exists t ev, ev <> EvMarkBuffered /\ step s t ev s'.
Definition reachable (n : nat) (s : life) : Prop := rtc ordered_step (life_init n) s.

(** ** The invariant *)

Definition uses (p : client_pc) : Z := match p with Entered | Inside | Refused => 1 | _ => 0 end.
Definition registers (p : client_pc) : Z :=
  match p with Registering | Publishing | Registered => 1 | _ => 0 end.
Definition total (f : client_pc -> Z) (s : life) : Z := zsum (map f (client s)).

(** How far destruction is. *)
Definition stage (p : destroyer_pc) : Z :=
  match p with
  | Alive => 0 | WaitRegistrations => 1 | WaitUsers => 2 | DrainCaches => 3 | FreeShards => 4 | Gone => 5
  end.

Record life_inv (s : life) : Prop := {
  li_buffer : store_buffer s = false;
  li_users : active_users s = total uses s;
  li_registrations : registrations_inflight s = total registers s;
  li_destroyed : destroyed s = true <-> 0 < stage (destroyer s);
  li_inside : forall t, client s !! t = Some Inside -> stage (destroyer s) <= 2;
  li_publishing : forall t, client s !! t = Some Publishing -> stage (destroyer s) <= 1;
  li_caches : 0 <= thread_caches s /\ (4 <= stage (destroyer s) -> thread_caches s = 0);
  li_shards : shards s = true <-> stage (destroyer s) < 5
}.

Lemma total_goto f s t p q : client s !! t = Some q -> total f (goto s t p) = total f s - f q + f p.
Proof.
  intros H. unfold total, goto. cbn. rewrite list_fmap_insert, zsum_insert.
  - do 2 f_equal. apply nth_lookup_Some. by rewrite list_lookup_fmap, H.
  - rewrite length_map. by eapply lookup_lt_Some.
Qed.

Lemma total_pos f s t q : (forall p, 0 <= f p) -> client s !! t = Some q -> f q <= total f s.
Proof.
  intros Hf H. unfold total. revert t H. induction (client s) as [|p l IH]; intros [|t] H; try done; cbn in *.
  - injection H as ->. pose proof (zsum_nonneg (map f l)) as Hn. rewrite Forall_forall in Hn.
    assert (0 <= zsum (map f l)); [|lia]. apply Hn. intros x Hx. apply list_elem_of_In, in_map_iff in Hx as (y & <- & _).
    apply Hf.
  - specialize (IH t H). pose proof (Hf p). lia.
Qed.

Lemma uses_nonneg p : 0 <= uses p.
Proof. by destruct p. Qed.
Lemma registers_nonneg p : 0 <= registers p.
Proof. by destruct p. Qed.

(** A move of one client. *)
Lemma inv_client s t q p u r c : life_inv s -> client s !! t = Some q ->
  u = active_users s + uses p - uses q -> r = registrations_inflight s + registers p - registers q ->
  c = thread_caches s \/ (c = thread_caches s + 1 /\ q = Publishing) ->
  (p = Inside \/ p = Publishing -> destroyed s = false) ->
  life_inv {| destroyed := destroyed s; store_buffer := store_buffer s; registrations_inflight := r;
              active_users := u; thread_caches := c; shards := shards s;
              client := <[t := p]> (client s); destroyer := destroyer s |}.
Proof.
  intros [I1 I2 I3 I4 I5 I6 I7 I8] Hq -> -> Hc Hin.
  pose proof (total_goto uses s t p q Hq) as Hu. pose proof (total_goto registers s t p q Hq) as Hr.
  unfold total, goto in *. cbn in Hu, Hr.
  assert (p = Inside \/ p = Publishing -> stage (destroyer s) = 0) as Hz.
  { intros Hp. specialize (Hin Hp).
    destruct (Z_lt_le_dec 0 (stage (destroyer s))) as [Hlt|Hle]; [apply I4 in Hlt; congruence|].
    destruct (destroyer s); cbn in *; lia. }
  assert (forall t' x, <[t := p]> (client s) !! t' = Some x -> x = p \/ client s !! t' = Some x) as Hins.
  { intros t' x Hx. apply list_lookup_insert_Some in Hx as [(_ & -> & _)|[_ Hx]]; auto. }
  split; cbn; try done; try lia.
  - intros t' Ht'. destruct (Hins t' Inside Ht') as [<-|Hx]; [rewrite Hz; auto; lia|by eapply I5].
  - intros t' Ht'. destruct (Hins t' Publishing Ht') as [<-|Hx]; [rewrite Hz; auto; lia|by eapply I6].
  - destruct I7 as [I7 I7']. split; [lia|]. intros H4. specialize (I7' H4).
    destruct Hc as [->|[-> ->]]; [done|]. specialize (I6 t Hq). lia.
Qed.

(** A move of the destroying thread. *)
Lemma inv_destroyer s b c sh p : life_inv s -> b = (0 <? stage p) ->
  0 <= c -> (4 <= stage p -> c = 0) -> sh = (stage p <? 5) ->
  (2 < stage p -> forall t, client s !! t <> Some Inside) ->
  (1 < stage p -> forall t, client s !! t <> Some Publishing) ->
  life_inv {| destroyed := b; store_buffer := store_buffer s;
              registrations_inflight := registrations_inflight s;
              active_users := active_users s; thread_caches := c; shards := sh; client := client s;
              destroyer := p |}.
Proof.
  intros [I1 I2 I3 I4 I5 I6 I7 I8] -> Hc Hc4 -> Hin Hpub. split; cbn; try done.
  - by rewrite Z.ltb_lt.
  - intros t Ht. destruct (Z_lt_le_dec 2 (stage p)) as [H|]; [|done]. by destruct (Hin H t).
  - intros t Ht. destruct (Z_lt_le_dec 1 (stage p)) as [H|]; [|done]. by destruct (Hpub H t).
  - by rewrite Z.ltb_lt.
Qed.

Lemma none_inside s : life_inv s -> active_users s <= 0 -> forall t, client s !! t <> Some Inside.
Proof.
  intros [_ I2 _ _ _ _ _ _] Hu t Ht. pose proof (total_pos uses s t Inside uses_nonneg Ht) as H. cbn in H. lia.
Qed.

Lemma none_publishing s : life_inv s -> registrations_inflight s <= 0 ->
  forall t, client s !! t <> Some Publishing.
Proof.
  intros [_ _ I3 _ _ _ _ _] Hu t Ht.
  pose proof (total_pos registers s t Publishing registers_nonneg Ht) as H. cbn in H. lia.
Qed.

Lemma step_inv s t ev s' : ev <> EvMarkBuffered -> step s t ev s' -> life_inv s -> life_inv s'.
Proof.
  intros Hev St Inv. pose proof Inv as [I1 I2 I3 I4 I5 I6 [I7 I7'] I8].
  destruct St; try done.
  - refine (inv_client s t Out Entered _ _ _ Inv H _ _ _ _); cbn; auto; try lia. by intros [|].
  - refine (inv_client s t Entered (if destroyed s then Refused else Inside) _ _ _ Inv H _ _ _ _); cbn; auto;
      destruct (destroyed s); cbn; try lia; try done. by intros [|].
  - refine (inv_client s t p Out _ _ _ Inv H _ _ _ _); cbn; auto; try (by intros [|]);
      destruct H0 as [->| ->]; cbn; lia.
  - refine (inv_client s t Out Registering _ _ _ Inv H _ _ _ _); cbn; auto; try lia. by intros [|].
  - refine (inv_client s t Registering (if destroyed s then Registered else Publishing) _ _ _ Inv H _ _ _ _);
      cbn; auto; destruct (destroyed s); cbn; try lia; try done. by intros [|].
  - refine (inv_client s t Publishing Registered _ _ _ Inv H _ _ _ _); cbn; auto; try lia. by intros [|].
  - refine (inv_client s t Registered Out _ _ _ Inv H _ _ _ _); cbn; auto; try lia. by intros [|].
  - refine (inv_destroyer s _ _ _ WaitRegistrations Inv _ _ _ _ _ _); cbn; try done; try lia.
    apply I8. rewrite H. done.
  - congruence.
  - assert (destroyed s = true) as Hd by (apply I4; by rewrite H).
    refine (inv_destroyer s _ _ _ WaitUsers Inv _ _ _ _ _ _); cbn; try done; try lia.
    + apply I8. by rewrite H.
    + intros _. by apply none_publishing.
  - assert (destroyed s = true) as Hd by (apply I4; by rewrite H).
    refine (inv_destroyer s _ _ _ DrainCaches Inv _ _ _ _ _ _); cbn; try done; try lia.
    + apply I8. by rewrite H.
    + intros _. by apply none_inside.
    + intros _ u Hu. specialize (I6 u Hu). rewrite H in I6. cbn in I6. lia.
  - assert (destroyed s = true) as Hd by (apply I4; by rewrite H).
    assert (shards s = true) as Hsh by (apply I8; by rewrite H).
    assert (forall u, client s !! u <> Some Inside) as Hin
      by (intros u Hu; specialize (I5 u Hu); rewrite H in I5; cbn in I5; lia).
    assert (forall u, client s !! u <> Some Publishing) as Hpub
      by (intros u Hu; specialize (I6 u Hu); rewrite H in I6; cbn in I6; lia).
    destruct (Z.eqb_spec (thread_caches s) 0) as [E|E].
    + by refine (inv_destroyer s _ _ _ FreeShards Inv _ _ _ _ _ _).
    + by refine (inv_destroyer s _ _ _ (destroyer s) Inv _ _ _ _ _ _); rewrite ?H.
  - assert (destroyed s = true) as Hd by (apply I4; by rewrite H).
    assert (thread_caches s = 0) as Hc by (apply I7'; by rewrite H).
    refine (inv_destroyer s _ _ _ Gone Inv _ _ _ _ _ _); cbn; try done.
    + intros _ u Hu. specialize (I5 u Hu). rewrite H in I5. cbn in I5. lia.
    + intros _ u Hu. specialize (I6 u Hu). rewrite H in I6. cbn in I6. lia.
Qed.

Lemma life_reachable_inv n s : reachable n s -> life_inv s.
Proof.
  assert (forall s0, rtc ordered_step s0 s -> life_inv s0 -> life_inv s) as H.
  { induction 1 as [|s1 s2 s3 (t & ev & Hev & St) _ IH]; [done|]. intros Hi. by eapply IH, step_inv. }
  intros Hr. apply (H _ Hr).
  assert (forall f, (f Out = 0) -> total f (life_init n) = 0) as Ht.
  { intros f Hf. unfold total, life_init. cbn. rewrite fmap_replicate, Hf. apply zsum_replicate_0. }
  split.
  - done.
  - by rewrite Ht.
  - by rewrite Ht.
  - split; [done|cbn; lia].
  - intros t Ht'. by apply lookup_replicate in Ht' as [? _].
  - intros t Ht'. by apply lookup_replicate in Ht' as [? _].
  - cbn. lia.
  - split; [cbn; lia|done].
Qed.

(** ** Completion *)

(** The steps a client still takes before it is out. *)
Definition to_go (p : client_pc) : Z :=
  match p with
  | Out => 0 | Entered => 2 | Inside | Refused => 1
  | Registering => 3 | Publishing => 2 | Registered => 1
  end.

Lemma to_go_nonneg p : 0 <= to_go p.
Proof. by destruct p. Qed.

Lemma goto_mid s t q p : client s !! t = Some q -> total to_go (goto s t p) = total to_go s - to_go q + to_go p.
Proof. apply total_goto. Qed.

(** A client in a bracket has a step that brings it nearer to its end. *)
Lemma client_steps s t q : client s !! t = Some q -> q <> Out ->
  exists ev s', ev <> EvMarkBuffered /\ step s t ev s' /\ total to_go s' < total to_go s /\
    destroyer s' = destroyer s.
Proof.
  intros Hq Hne. pose proof (goto_mid s t q) as Hm. unfold total, goto in Hm. cbn in Hm.
  destruct q; [done|..].
  - exists EvCheck. eexists. split_and!; [done|by apply step_check| |done]. unfold total. cbn.
    rewrite Hm by done. destruct (destroyed s); cbn; lia.
  - exists EvLeave. eexists. split_and!; [done|eapply step_leave; eauto| |done]. unfold total. cbn.
    rewrite Hm by done. cbn. lia.
  - exists EvLeave. eexists. split_and!; [done|eapply step_leave; eauto| |done]. unfold total. cbn.
    rewrite Hm by done. cbn. lia.
  - exists EvRegisterCheck. eexists. split_and!; [done|by apply step_register_check| |done]. unfold total. cbn.
    rewrite Hm by done. destruct (destroyed s); cbn; lia.
  - exists EvPublish. eexists. split_and!; [done|by apply step_publish| |done]. unfold total. cbn.
    rewrite Hm by done. cbn. lia.
  - exists EvRegistered. eexists. split_and!; [done|by apply step_registered| |done]. unfold total. cbn.
    rewrite Hm by done. cbn. lia.
Qed.

Lemma clients_leave s : exists s', rtc ordered_step s s' /\ destroyer s' = destroyer s /\
  (forall t q, client s' !! t = Some q -> q = Out).
Proof.
  assert (forall n s, total to_go s <= Z.of_nat n -> exists s', rtc ordered_step s s' /\
    destroyer s' = destroyer s /\ forall t q, client s' !! t = Some q -> q = Out) as H.
  { induction n as [|n IH]; intros s0 Hn.
    - exists s0. split_and!; [apply rtc_refl|done|]. intros t q Hq.
      pose proof (total_pos to_go s0 t q to_go_nonneg Hq) as Ht. destruct q; cbn in Ht; (done || lia).
    - destruct (decide (Forall (fun q => q = Out) (client s0))) as [Hall|Hex].
      + exists s0. split_and!; [apply rtc_refl|done|]. intros t q Hq. rewrite Forall_lookup in Hall. by eapply Hall.
      + apply not_Forall_Exists in Hex; [|apply _]. apply Exists_exists in Hex as (q & Hin & Hq).
        apply list_elem_of_lookup in Hin as [t Ht].
        destruct (client_steps s0 t q Ht Hq) as (ev & s1 & Hev & St & Hlt & Hd).
        destruct (IH s1) as (s2 & Hr & Hd2 & Hout); [lia|]. exists s2. split_and!; [|congruence|done].
        eapply rtc_l; [|done]. by exists t, ev. }
  apply (H (Z.to_nat (total to_go s))). lia.
Qed.

Lemma out_counts f s : f Out = 0 -> (forall t q, client s !! t = Some q -> q = Out) -> total f s = 0.
Proof.
  intros Hf Hout. unfold total. assert (Forall (fun q => q = Out) (client s)) as H by (by apply Forall_lookup).
  clear Hout. induction H as [|q l -> _ IH]; [done|]. cbn. lia.
Qed.

(** Once every client is out, the destroying thread runs to its end. *)
Lemma destroyer_finishes s : life_inv s -> (forall t q, client s !! t = Some q -> q = Out) ->
  destroyer s <> Alive -> exists s', rtc ordered_step s s' /\ destroyer s' = Gone.
Proof.
  intros Inv Hout Ha.
  assert (forall n s, life_inv s -> (forall t q, client s !! t = Some q -> q = Out) -> destroyer s <> Alive ->
    2 * (5 - stage (destroyer s)) + (if thread_caches s =? 0 then 0 else 1) <= Z.of_nat n ->
    exists s', rtc ordered_step s s' /\ destroyer s' = Gone) as H.
  2:{ eapply (H 20%nat); try done. destruct (thread_caches s =? 0), (destroyer s); cbn; lia. }
  clear. induction n as [|n IH]; intros s Inv Hout Ha Hn.
  { exists s. split; [apply rtc_refl|]. destruct (thread_caches s =? 0), (destroyer s); cbn in Hn; (done || lia). }
  pose proof Inv as [I1 I2 I3 I4 I5 I6 I7 I8].
  rewrite (out_counts uses s eq_refl Hout) in I2. rewrite (out_counts registers s eq_refl Hout) in I3.
  assert (forall ev s1, ev <> EvMarkBuffered -> step s 0 ev s1 -> client s1 = client s ->
    destroyer s1 <> Alive ->
    2 * (5 - stage (destroyer s1)) + (if thread_caches s1 =? 0 then 0 else 1) <
    2 * (5 - stage (destroyer s)) + (if thread_caches s =? 0 then 0 else 1) ->
    exists s', rtc ordered_step s s' /\ destroyer s' = Gone) as Hgo.
  { intros ev s1 Hev St Hcl Ha1 Hlt. destruct (IH s1) as (s2 & Hr & Hg); try done.
    - by eapply step_inv.
    - by rewrite Hcl.
    - lia.
    - exists s2. split; [|done]. eapply rtc_l; [|done]. by exists 0%nat, ev. }
  destruct (destroyer s) eqn:Ed; [done|..].
  - eapply Hgo; [|apply step_no_registrations; [done|lia]|..]; try done. cbn. lia.
  - eapply Hgo; [|apply step_no_users; [done|lia]|..]; try done. cbn. lia.
  - eapply Hgo; [|by apply step_exchange|..]; try done; destruct (thread_caches s =? 0) eqn:Ec; cbn; rewrite ?Ed, ?Ec; cbn; try done; lia.
  - eapply Hgo; [|by apply step_free|..]; try done. cbn. lia.
  - exists s. split; [apply rtc_refl|done].
Qed.

(** ** The theorems *)

(** C8. Provided that the store of [destroyed] that opens [buffer_pool_destroy]
    is visible to the other threads before the destroying thread reads the
    counters (the steps are [ordered_step], without [EvMarkBuffered]; a release
    store on x86 does not ensure that, and [buffered_mark_races] is a run in
    which the shards are freed under a user): while a thread uses the shards of
    a pool they are not freed, however the steps of any number of threads that
    allocate, free, register caches or exit interleave with
    [buffer_pool_destroy]. Once phase 1 is over nobody is inside the bracket,
    and once phase 2 found the list empty no cache is on it and no thread can
    push one any more. *)
Theorem destruction_excludes n s : reachable n s ->
  (forall t, client s !! t = Some Inside -> shards s = true /\ stage (destroyer s) < stage DrainCaches) /\
  (stage FreeShards <= stage (destroyer s) ->
   thread_caches s = 0 /\ forall s', rtc ordered_step s s' -> thread_caches s' = 0).
Proof.
  intros Hr. pose proof (life_reachable_inv n s Hr) as Inv. split.
  - intros t Ht. pose proof (li_inside _ Inv t Ht). split; [apply (li_shards _ Inv)|]; cbn; lia.
  - intros H4. split; [by apply (li_caches _ Inv)|]. intros s' Hr'.
    assert (stage (destroyer s) <= stage (destroyer s')) as Hle.
    { clear -Hr'. induction Hr' as [|s1 s2 s3 (t & ev & _ & St) _ IH]; [lia|].
      assert (stage (destroyer s1) <= stage (destroyer s2)); [|lia].
      destruct St; cbn; try lia; rewrite ?H; cbn; try lia. destruct (thread_caches s1 =? 0); cbn; rewrite ?H; cbn; lia. }
    apply (li_caches s'); [|cbn in *; lia]. apply (life_reachable_inv n). unfold reachable in *. by etransitivity.
Qed.

(** Destruction can always be completed: from every state in which
    [buffer_pool_destroy] has begun, whatever the other threads are doing, there
    is a continuation in which it ends. The waits of phase 1 are not deadlocks:
    each counter above zero belongs to a thread in its bracket, and that thread
    always has a step to take. *)
Theorem destruction_completes n s : reachable n s -> destroyer s <> Alive ->
  (exists s', rtc ordered_step s s' /\ destroyer s' = Gone) /\
  (0 < active_users s + registrations_inflight s ->
   exists t q ev s', client s !! t = Some q /\ q <> Out /\ ev <> EvMarkBuffered /\ step s t ev s' /\
     total to_go s' < total to_go s).
Proof.
  intros Hr Ha. pose proof (life_reachable_inv n s Hr) as Inv. split.
  - destruct (clients_leave s) as (s1 & Hr1 & Hd & Hout).
    assert (life_inv s1) as Inv1 by (apply (life_reachable_inv n); unfold reachable in *; by etransitivity).
    destruct (destroyer_finishes s1 Inv1 Hout) as (s2 & Hr2 & Hg); [congruence|].
    exists s2. split; [by etransitivity|done].
  - intros Hpos. destruct (decide (Forall (fun q => q = Out) (client s))) as [Hall|Hex].
    + assert (forall t q, client s !! t = Some q -> q = Out) as Hout by (by apply Forall_lookup).
      rewrite (li_users _ Inv), (li_registrations _ Inv), !out_counts in Hpos by done. lia.
    + apply not_Forall_Exists in Hex; [|apply _]. apply Exists_exists in Hex as (q & Hin & Hq).
      apply list_elem_of_lookup in Hin as [t Ht].
      destruct (client_steps s t q Ht Hq) as (ev & s1 & Hev & St & Hlt & _). by exists t, q, ev, s1.
Qed.

Fixpoint exec_all (s : life) (l : list (nat * event)) : option life :=
  match l with
  | [] => Some s
  | (t, ev) :: l => match exec s t ev with Some s => exec_all s l | None => None end
  end.

(** The store of [destroyed] is only a release store, so that the processor
    may run the loads of phase 1 before the store is visible (the store buffer
    of x86, and C11, allow it). Then the protocol fails: destruction reads
    [active_users] = 0, a thread enters and reads [destroyed] = false, and it
    uses the shards after they are freed; in the same way a thread pushes its
    cache on the list after the last exchange. *)
Theorem buffered_mark_races :
  (exists s, exec_all (life_init 2) [(1, EvMarkBuffered); (1, EvNoRegistrations); (1, EvNoUsers);
     (0, EvEnter); (0, EvCheck); (1, EvDrainBuffer); (1, EvExchange); (1, EvFree)]%nat = Some s /\
   shards s = false /\ step s 0 EvUse s) /\
  (exists s, exec_all (life_init 2) [(1, EvMarkBuffered); (1, EvNoRegistrations); (1, EvNoUsers);
     (0, EvRegister); (0, EvRegisterCheck); (1, EvDrainBuffer); (1, EvExchange); (1, EvFree);
     (0, EvPublish)]%nat = Some s /\
   destroyer s = Gone /\ thread_caches s = 1).
Proof.
  split; (eexists; split; [vm_compute; reflexivity|]); cbn; [|done]. split; [done|]. by apply step_use.
Qed.

(** ** Witnesses *)

(** Thread 0 is inside, and thread 1 waits for it. *)
Definition demo_life : life :=
  default (life_init 2) (exec_all (life_init 2) [(0, EvEnter); (0, EvCheck); (1, EvMark); (1, EvNoRegistrations)]%nat).

Lemma ordered_run n s l s' : Forall (fun e => snd e <> EvMarkBuffered) l -> reachable n s ->
  exec_all s l = Some s' -> reachable n s'.
Proof.
  intros Hl. revert s. induction Hl as [|[t ev] l Hev _ IH]; intros s Hr E; cbn in E; [by injection E as <-|].
  destruct (exec s t ev) as [s1|] eqn:E1; [|done]. apply (IH s1); [|done]. unfold reachable in *.
  eapply rtc_r; [exact Hr|]. exists t, ev. split; [done|by apply life_exec_step].
Qed.

Lemma demo_life_reachable : reachable 2 demo_life.
Proof.
  apply (ordered_run 2 (life_init 2) [(0, EvEnter); (0, EvCheck); (1, EvMark); (1, EvNoRegistrations)]%nat).
  - by repeat constructor.
  - apply rtc_refl.
  - vm_compute. reflexivity.
Qed.

Lemma destruction_excludes_witness :
  client demo_life !! 0%nat = Some Inside /\ destroyed demo_life = true /\ shards demo_life = true.
Proof.
  split; [reflexivity|]. split; [reflexivity|].
  exact (proj1 (proj1 (destruction_excludes 2 demo_life demo_life_reachable) 0%nat eq_refl)).
Defined.

Lemma destruction_completes_witness :
  destroyer demo_life = WaitUsers /\ exists s', rtc ordered_step demo_life s' /\ destroyer s' = Gone.
Proof.
  split; [reflexivity|].
  exact (proj1 (destruction_completes 2 demo_life demo_life_reachable ltac:(discriminate))).
Defined.
