(* ===== verification/Ring.v ===== *)
(** * The ring

    [adaptive_ring.c] and [adaptive_ring.h]: the request slots, the submission
    operations, flushing, completion processing and the limits. Liburing and
    the kernel are the parameter [Liburing]; what a completion callback does is
    the parameter [rs_callback] of the state the drain loops run on.

    A request pointer is the index of its slot; [ring->lock] and
    [ring->cq_lock] are hold counts (a count above one would be a thread
    waiting for itself), and their interleavings are in [RingLock]. *)
From Stdlib Require Import ZArith Lia List.
From stdpp Require Import base tactics list.
From S2P Require Import Prelude Histogram Controller.

#[local] Open Scope Z_scope.

Inductive aura_op_type_t :=
  | AURA_OP_READ | AURA_OP_WRITE | AURA_OP_READV | AURA_OP_WRITEV | AURA_OP_FSYNC
  | AURA_OP_FDATASYNC | AURA_OP_CANCEL | AURA_OP_READ_FIXED | AURA_OP_WRITE_FIXED
  | AURA_OP_OPENAT | AURA_OP_CLOSE | AURA_OP_STATX | AURA_OP_FALLOCATE | AURA_OP_FTRUNCATE
  | AURA_OP_SYNC_FILE_RANGE | AURA_OP__RESERVED_15 | AURA_OP__RESERVED_16.

#[export] Instance aura_op_type_eq_dec : EqDecision aura_op_type_t.
Proof. solve_decision. Defined.

Definition op_eqb (a b : aura_op_type_t) : bool := bool_decide (a = b).

(** The operands of the metadata operations (a union in C). *)
Inductive meta_t :=
  | meta_none
  | meta_open (pathname flags mode : Z)
  | meta_statx (pathname buf flags mask : Z)
  | meta_fallocate (mode : Z)
  | meta_sync_range (flags : Z).

(** [struct aura_request]; pointers are addresses, 0 = NULL. *)
Record aura_request_t := {
  op_type : aura_op_type_t;
  fd : Z;
  offset : Z;
  buffer : Z;
  len : Z;                       (* size_t *)
  buf_index : Z;
  iovcnt : Z;
  buf_offset : Z;
  iov : Z;
  callback : Z;
  user_data : Z;
  submit_time_ns : Z;
  ring_idx : Z;
  op_idx : Z;
  uses_registered_buffer : bool;
  uses_registered_file : bool;
  pending : bool;
  original_fd : Z;
  meta : meta_t;
  in_pool : bool;
  linked : bool
}.

Definition aura_request_eta (r : aura_request_t) : aura_request_t := {|
  op_type := op_type r; fd := fd r; offset := offset r; buffer := buffer r; len := len r;
  buf_index := buf_index r; iovcnt := iovcnt r; buf_offset := buf_offset r; iov := iov r;
  callback := callback r; user_data := user_data r; submit_time_ns := submit_time_ns r;
  ring_idx := ring_idx r; op_idx := op_idx r;
  uses_registered_buffer := uses_registered_buffer r;
  uses_registered_file := uses_registered_file r; pending := pending r;
  original_fd := original_fd r; meta := meta r; in_pool := in_pool r; linked := linked r
|}.

#[export] Instance set_op_type : Setter op_type := ltac:(mk_setter aura_request_eta).
#[export] Instance set_fd : Setter fd := ltac:(mk_setter aura_request_eta).
#[export] Instance set_offset : Setter offset := ltac:(mk_setter aura_request_eta).
#[export] Instance set_buffer : Setter buffer := ltac:(mk_setter aura_request_eta).
#[export] Instance set_len : Setter len := ltac:(mk_setter aura_request_eta).
#[export] Instance set_buf_index : Setter buf_index := ltac:(mk_setter aura_request_eta).
#[export] Instance set_iovcnt : Setter iovcnt := ltac:(mk_setter aura_request_eta).
#[export] Instance set_buf_offset : Setter buf_offset := ltac:(mk_setter aura_request_eta).
#[export] Instance set_iov : Setter iov := ltac:(mk_setter aura_request_eta).
#[export] Instance set_callback : Setter callback := ltac:(mk_setter aura_request_eta).
#[export] Instance set_user_data : Setter user_data := ltac:(mk_setter aura_request_eta).
#[export] Instance set_submit_time_ns : Setter submit_time_ns := ltac:(mk_setter aura_request_eta).
#[export] Instance set_req_ring_idx : Setter ring_idx := ltac:(mk_setter aura_request_eta).
#[export] Instance set_op_idx : Setter op_idx := ltac:(mk_setter aura_request_eta).
#[export] Instance set_uses_registered_buffer : Setter uses_registered_buffer := ltac:(mk_setter aura_request_eta).
#[export] Instance set_uses_registered_file : Setter uses_registered_file := ltac:(mk_setter aura_request_eta).
#[export] Instance set_pending : Setter pending := ltac:(mk_setter aura_request_eta).
#[export] Instance set_original_fd : Setter original_fd := ltac:(mk_setter aura_request_eta).
#[export] Instance set_meta : Setter meta := ltac:(mk_setter aura_request_eta).
#[export] Instance set_in_pool : Setter in_pool := ltac:(mk_setter aura_request_eta).
#[export] Instance set_linked : Setter linked := ltac:(mk_setter aura_request_eta).

(** A zeroed request ([memset]). *)
Definition request_zero : aura_request_t := {|
  op_type := AURA_OP_READ; fd := 0; offset := 0; buffer := 0; len := 0; buf_index := 0;
  iovcnt := 0; buf_offset := 0; iov := 0; callback := 0; user_data := 0; submit_time_ns := 0;
  ring_idx := 0; op_idx := 0; uses_registered_buffer := false; uses_registered_file := false;
  pending := false; original_fd := 0; meta := meta_none; in_pool := false; linked := false |}.

(** ** Liburing *)

(** Which [io_uring_prep_*] function filled the entry, and its arguments. *)
Inductive prep_t :=
  | prep_read (fd buf len off : Z)
  | prep_write (fd buf len off : Z)
  | prep_readv (fd iov cnt off : Z)
  | prep_writev (fd iov cnt off : Z)
  | prep_read_fixed (fd buf len off index : Z)
  | prep_write_fixed (fd buf len off index : Z)
  | prep_fsync (fd : Z) (datasync : bool)
  | prep_cancel (target : Z)
  | prep_openat (dirfd path flags mode : Z)
  | prep_close (fd : Z)
  | prep_statx (dirfd path flags mask buf : Z)
  | prep_fallocate (fd mode off len : Z)
  | prep_ftruncate (fd len : Z)
  | prep_sync_file_range (fd len off flags : Z).

Record sqe_t := {
  sqe_prep : prep_t;
  sqe_fixed_file : bool;         (* IOSQE_FIXED_FILE *)
  sqe_io_link : bool;            (* IOSQE_IO_LINK *)
  sqe_data : Z                   (* the request *)
}.

Record cqe_t := {
  cqe_data : option Z;           (* the request, None = NULL *)
  cqe_res : Z
}.

Record io_uring_params := {
  setup_coop_taskrun : bool;
  setup_sqpoll : option Z;       (* sq_thread_idle *)
  setup_single_issuer : bool;
  setup_r_disabled : bool
}.

(** What the ring uses of liburing, of the kernel behind it and of the clock:
    [K] is their state. Return codes are the C ones (negative = -errno). *)
Class Liburing (K : Type) := {
  lu_queue_init_params : Z -> io_uring_params -> K -> Z * K;
  lu_queue_exit : K -> K;
  lu_enable_rings : K -> Z * K;
  lu_get_sqe : K -> option (Z * K);            (* the entry's position *)
  lu_write_sqe : Z -> sqe_t -> K -> K;
  lu_or_link : Z -> K -> K;                    (* sqe->flags |= IOSQE_IO_LINK *)
  lu_submit : K -> Z * K;
  lu_peek_cqe : K -> option cqe_t;
  lu_cqe_seen : K -> K;
  lu_wait_cqe_timeout : Z -> K -> Z * K;       (* the timeout in milliseconds *)
  lu_ring_fd : K -> Z;
  lu_clock_ns : K -> Z * K
}.

(** ** The ring context *)

Record ring_options_t := {
  enable_sqpoll : bool;
  sqpoll_idle_ms : Z;
  enable_single_issuer : bool;
  start_disabled : bool
}.

Record ring_ctx_t {K : Type} := {
  ring : K;
  ring_initialized : bool;
  shutting_down : bool;
  sqpoll_enabled : bool;
  cpu_id : Z;
  rc_ring_idx : Z;
  lock : Z;                          (* times held *)
  cq_lock : Z;
  requests : list aura_request_t;
  free_request_stack : list Z;
  free_request_count : Z;
  max_requests : Z;
  pending_count : Z;                 (* int *)
  peak_pending_count : Z;
  adaptive : adaptive_controller_t;
  queued_sqes : Z;                   (* int *)
  sample_counter : Z;                (* unsigned int *)
  bytes_completed : Z;               (* int64_t *)
  ops_completed : Z;                 (* int64_t *)
  fixed_buf_inflight : Z;            (* uint32_t *)
  fixed_file_inflight : Z;           (* uint32_t *)
  poll_batch_size : Z;
  single_thread : bool;
  st_users : Z;                      (* int *)
  st_cq_users : Z;
  owner_count : Z;
  single_issuer_enabled : bool;
  needs_enable : bool
}.
#[global] Arguments ring_ctx_t K : clear implicits.

Definition ring_ctx_eta {K} (c : ring_ctx_t K) : ring_ctx_t K := {|
  ring := ring c; ring_initialized := ring_initialized c; shutting_down := shutting_down c;
  sqpoll_enabled := sqpoll_enabled c; cpu_id := cpu_id c; rc_ring_idx := rc_ring_idx c;
  lock := lock c; cq_lock := cq_lock c; requests := requests c;
  free_request_stack := free_request_stack c; free_request_count := free_request_count c;
  max_requests := max_requests c; pending_count := pending_count c;
  peak_pending_count := peak_pending_count c; adaptive := adaptive c;
  queued_sqes := queued_sqes c; sample_counter := sample_counter c;
  bytes_completed := bytes_completed c; ops_completed := ops_completed c;
  fixed_buf_inflight := fixed_buf_inflight c; fixed_file_inflight := fixed_file_inflight c;
  poll_batch_size := poll_batch_size c; single_thread := single_thread c;
  st_users := st_users c; st_cq_users := st_cq_users c; owner_count := owner_count c;
  single_issuer_enabled := single_issuer_enabled c; needs_enable := needs_enable c
|}.

Section Setters.
Context {K : Type}.
#[export] Instance set_ring : Setter (@ring K) := ltac:(mk_setter (@ring_ctx_eta K)).
#[export] Instance set_ring_initialized : Setter (@ring_initialized K) := ltac:(mk_setter (@ring_ctx_eta K)).
#[export] Instance set_rc_shutting_down : Setter (@shutting_down K) := ltac:(mk_setter (@ring_ctx_eta K)).
#[export] Instance set_sqpoll_enabled : Setter (@sqpoll_enabled K) := ltac:(mk_setter (@ring_ctx_eta K)).
#[export] Instance set_rc_ring_idx : Setter (@rc_ring_idx K) := ltac:(mk_setter (@ring_ctx_eta K)).
#[export] Instance set_lock : Setter (@lock K) := ltac:(mk_setter (@ring_ctx_eta K)).
#[export] Instance set_cq_lock : Setter (@cq_lock K) := ltac:(mk_setter (@ring_ctx_eta K)).
#[export] Instance set_requests : Setter (@requests K) := ltac:(mk_setter (@ring_ctx_eta K)).
#[export] Instance set_free_request_stack : Setter (@free_request_stack K) := ltac:(mk_setter (@ring_ctx_eta K)).
#[export] Instance set_free_request_count : Setter (@free_request_count K) := ltac:(mk_setter (@ring_ctx_eta K)).
#[export] Instance set_pending_count : Setter (@pending_count K) := ltac:(mk_setter (@ring_ctx_eta K)).
#[export] Instance set_peak_pending_count : Setter (@peak_pending_count K) := ltac:(mk_setter (@ring_ctx_eta K)).
#[export] Instance set_adaptive : Setter (@adaptive K) := ltac:(mk_setter (@ring_ctx_eta K)).
#[export] Instance set_queued_sqes : Setter (@queued_sqes K) := ltac:(mk_setter (@ring_ctx_eta K)).
#[export] Instance set_sample_counter : Setter (@sample_counter K) := ltac:(mk_setter (@ring_ctx_eta K)).
#[export] Instance set_bytes_completed : Setter (@bytes_completed K) := ltac:(mk_setter (@ring_ctx_eta K)).
#[export] Instance set_ops_completed : Setter (@ops_completed K) := ltac:(mk_setter (@ring_ctx_eta K)).
#[export] Instance set_fixed_buf_inflight : Setter (@fixed_buf_inflight K) := ltac:(mk_setter (@ring_ctx_eta K)).
#[export] Instance set_fixed_file_inflight : Setter (@fixed_file_inflight K) := ltac:(mk_setter (@ring_ctx_eta K)).
#[export] Instance set_single_thread : Setter (@single_thread K) := ltac:(mk_setter (@ring_ctx_eta K)).
#[export] Instance set_st_users : Setter (@st_users K) := ltac:(mk_setter (@ring_ctx_eta K)).
#[export] Instance set_st_cq_users : Setter (@st_cq_users K) := ltac:(mk_setter (@ring_ctx_eta K)).
#[export] Instance set_owner_count : Setter (@owner_count K) := ltac:(mk_setter (@ring_ctx_eta K)).
#[export] Instance set_needs_enable : Setter (@needs_enable K) := ltac:(mk_setter (@ring_ctx_eta K)).
End Setters.

(** The calling thread's variables of [adaptive_ring.c]; [tls_last_sqe] is the
    ring and the position of the entry. *)
Record thread_t := {
  callback_context_depth : Z;
  tls_last_sqe : option (Z * Z)
}.

Definition thread_eta (t : thread_t) : thread_t := {|
  callback_context_depth := callback_context_depth t; tls_last_sqe := tls_last_sqe t |}.
#[export] Instance set_callback_context_depth : Setter callback_context_depth := ltac:(mk_setter thread_eta).
#[export] Instance set_tls_last_sqe : Setter tls_last_sqe := ltac:(mk_setter thread_eta).

Definition ring_get_last_sqe (t : thread_t) : option (Z * Z) := tls_last_sqe t.
Definition ring_clear_last_sqe (t : thread_t) : thread_t := t <| tls_last_sqe := None |>.
Definition ring_in_callback_context (t : thread_t) : bool := 0 <? callback_context_depth t.

Definition op_is_data_transfer (op : aura_op_type_t) : bool :=
  op_eqb op AURA_OP_READ || op_eqb op AURA_OP_WRITE || op_eqb op AURA_OP_READV
  || op_eqb op AURA_OP_WRITEV || op_eqb op AURA_OP_READ_FIXED || op_eqb op AURA_OP_WRITE_FIXED.

Definition RING_MIN_POLL_BATCH : Z := 16.
Definition RING_MAX_POLL_BATCH : Z := 128.
Definition RING_LATENCY_SAMPLE_RATE : Z := 8.
Definition RING_LATENCY_SAMPLE_MASK : Z := RING_LATENCY_SAMPLE_RATE - 1.
Definition RING_DESTROY_MAX_DRAIN_ATTEMPTS : Z := 100.
Definition IOV_MAX : Z := 1024.

Section Ring.
Context {K : Type} {L : Liburing K}.
Implicit Types (c : ring_ctx_t K) (t : thread_t).

(** ** Locks, as one thread at a time sees them *)

Definition ring_lock c : bool * ring_ctx_t K :=
  if single_thread c then
    let c := c <| st_users := i32 (st_users c + 1) |> in
    if negb (single_thread c) then
      (false, c <| st_users := i32 (st_users c - 1) |> <| lock := lock c + 1 |>)
    else (true, c)
  else (false, c <| lock := lock c + 1 |>).

(** Whether the lock was taken, and the snapshot of [single_thread]. *)
Definition ring_trylock c : bool * bool * ring_ctx_t K :=
  let trylock c :=
    if lock c =? 0 then (true, false, c <| lock := 1 |>) else (false, false, c) in
  if single_thread c then
    let c := c <| st_users := i32 (st_users c + 1) |> in
    if negb (single_thread c) then trylock (c <| st_users := i32 (st_users c - 1) |>)
    else (true, true, c)
  else trylock c.

Definition ring_unlock c (st : bool) : ring_ctx_t K :=
  if st then c <| st_users := i32 (st_users c - 1) |>
  else c <| lock := lock c - 1 |>.

Definition ring_cq_lock c : bool * ring_ctx_t K :=
  if single_thread c then
    let c := c <| st_cq_users := i32 (st_cq_users c + 1) |> in
    if negb (single_thread c) then
      (false, c <| st_cq_users := i32 (st_cq_users c - 1) |> <| cq_lock := cq_lock c + 1 |>)
    else (true, c)
  else (false, c <| cq_lock := cq_lock c + 1 |>).

Definition ring_cq_unlock c (st : bool) : ring_ctx_t K :=
  if st then c <| st_cq_users := i32 (st_cq_users c - 1) |>
  else c <| cq_lock := cq_lock c - 1 |>.

(** ** Requests *)

Definition req_at c (i : Z) : aura_request_t := aget request_zero (requests c) i.
Definition upd_req (i : Z) (f : aura_request_t -> aura_request_t) c : ring_ctx_t K :=
  c <| requests := aset (requests c) i (f (req_at c i)) |>.

(** Pop a slot and zero the fields that differ between operations. *)
Definition ring_get_request c : option (Z * ring_ctx_t K) :=
  if free_request_count c =? 0 then None
  else
    let n := free_request_count c - 1 in
    let idx := aget 0 (free_request_stack c) n in
    let c := c <| free_request_count := n |> in
    Some (idx, upd_req idx (fun r =>
      r <| offset := 0 |> <| buffer := 0 |> <| len := 0 |> <| buf_index := 0 |>
        <| iovcnt := 0 |> <| buf_offset := 0 |> <| iov := 0 |>
        <| uses_registered_buffer := false |> <| uses_registered_file := false |>
        <| original_fd := -1 |> <| in_pool := false |> <| linked := false |>
        <| pending := false |>) c).

Definition ring_put_request c (op_idx : Z) : ring_ctx_t K :=
  if (op_idx <? 0) || (max_requests c <=? op_idx) then c
  else if in_pool (req_at c op_idx) then c
  else if pending (req_at c op_idx) then c
  else
    let c := upd_req op_idx (fun r => r <| in_pool := true |>) c in
    c <| free_request_stack := aset (free_request_stack c) (free_request_count c) op_idx |>
      <| free_request_count := free_request_count c + 1 |>.

(** ** Initialisation *)

(** The outcomes of the two [pthread_mutex_init] and of the two allocations. *)
Record ring_init_env := {
  ri_lock : Z;
  ri_cq_lock : Z;
  ri_requests_ok : bool;
  ri_stack_ok : bool;
  ri_now : Z
}.

Definition bare_params : io_uring_params :=
  {| setup_coop_taskrun := false; setup_sqpoll := None; setup_single_issuer := false;
     setup_r_disabled := false |}.

Definition sqpoll_params (o : option ring_options_t) (p : io_uring_params) : io_uring_params :=
  match o with
  | Some o =>
      if enable_sqpoll o then
        {| setup_coop_taskrun := setup_coop_taskrun p;
           setup_sqpoll := Some (if 0 <? sqpoll_idle_ms o then sqpoll_idle_ms o else 1000);
           setup_single_issuer := setup_single_issuer p; setup_r_disabled := setup_r_disabled p |}
      else p
  | None => p
  end.

Definition coop_params : io_uring_params :=
  {| setup_coop_taskrun := true; setup_sqpoll := None; setup_single_issuer := false;
     setup_r_disabled := false |}.

Definition opt_flag (f : ring_options_t -> bool) (o : option ring_options_t) : bool :=
  match o with Some o => f o | None => false end.

(** The queue set-up with its retries: the return code, whether SQPOLL and
    SINGLE_ISSUER are on, and the kernel's state. *)
Definition ring_setup (depth : Z) (o : option ring_options_t) (k : K) : Z * bool * bool * K :=
  let try_sqpoll := opt_flag enable_sqpoll o in
  let try_si := opt_flag enable_single_issuer o in
  let try_disabled := opt_flag start_disabled o in
  let p := sqpoll_params o coop_params in
  let p := {| setup_coop_taskrun := true; setup_sqpoll := setup_sqpoll p;
              setup_single_issuer := try_si; setup_r_disabled := try_si && try_disabled |} in
  let '(ret, k) := lu_queue_init_params depth p k in
  if ret <? 0 then
    let '(ret, k) := lu_queue_init_params depth (sqpoll_params o coop_params) k in
    let sqpoll := try_sqpoll && (0 <=? ret) in
    let '(ret, sqpoll, k) :=
      if ret <? 0 then
        let '(ret, k) := lu_queue_init_params depth (sqpoll_params o bare_params) k in
        (ret, try_sqpoll && (0 <=? ret), k)
      else (ret, sqpoll, k) in
    if (ret <? 0) && try_sqpoll then
      let '(ret, k) := lu_queue_init_params depth bare_params k in
      (ret, false, false, k)
    else (ret, sqpoll, false, k)
  else (ret, try_sqpoll, try_si, k).

(** [queue_depth >> 2] clamped to the array bounds of the drain. *)
Definition poll_batch (queue_depth : Z) : Z :=
  let batch := Z.shiftr queue_depth 2 in
  let batch := if batch <? RING_MIN_POLL_BATCH then RING_MIN_POLL_BATCH else batch in
  if RING_MAX_POLL_BATCH <? batch then RING_MAX_POLL_BATCH else batch.

Definition initial_inflight (queue_depth : Z) : Z :=
  let i := Z.quot queue_depth 4 in
  let i := if i <? 4 then 4 else i in
  if queue_depth <? i then queue_depth else i.

(** The requests and the free stack after the initialisation loop. *)
Definition initial_requests (queue_depth : Z) : list aura_request_t :=
  (fun i => request_zero <| op_idx := i |> <| in_pool := true |>) <$> seqZ 0 queue_depth.

Definition ring_init (env : ring_init_env) (queue_depth cpu : Z) (o : option ring_options_t) (k : K)
  : result (ring_ctx_t K) * K :=
  if queue_depth <? 1 then (Err EINVAL, k)
  else if negb (ri_lock env =? 0) then (Err (ESYS (ri_lock env)), k)
  else if negb (ri_cq_lock env =? 0) then (Err (ESYS (ri_cq_lock env)), k)
  else
    let '(ret, sqpoll, si, k) := ring_setup queue_depth o k in
    if ret <? 0 then (Err (ESYS (- ret)), k)
    else if negb (ri_requests_ok env) then (Err ENONE, lu_queue_exit k)
    else if negb (ri_stack_ok env) then (Err ENONE, lu_queue_exit k)
    else
      match adaptive_init queue_depth (initial_inflight queue_depth) 4 (ri_now env) with
      | None => (Err ENONE, lu_queue_exit k)
      | Some ctrl =>
          (Ok {| ring := k; ring_initialized := true; shutting_down := false;
                 sqpoll_enabled := sqpoll; cpu_id := cpu; rc_ring_idx := 0; lock := 0;
                 cq_lock := 0; requests := initial_requests queue_depth;
                 free_request_stack := seqZ 0 queue_depth; free_request_count := queue_depth;
                 max_requests := queue_depth; pending_count := 0; peak_pending_count := 0;
                 adaptive := ctrl; queued_sqes := 0; sample_counter := 0; bytes_completed := 0;
                 ops_completed := 0; fixed_buf_inflight := 0; fixed_file_inflight := 0;
                 poll_batch_size := poll_batch queue_depth; single_thread := false; st_users := 0;
                 st_cq_users := 0; owner_count := 0; single_issuer_enabled := si;
                 needs_enable := si && opt_flag start_disabled o |}, k)
      end.

Definition ring_enable c : result unit * ring_ctx_t K :=
  if negb (ring_initialized c) then (Err EINVAL, c)
  else if negb (needs_enable c) then (Ok tt, c)
  else
    let '(ret, k) := lu_enable_rings (ring c) in
    let c := c <| ring := k |> in
    if ret <? 0 then (Err (ESYS (- ret)), c) else (Ok tt, c <| needs_enable := false |>).

(** ** Submission *)

Definition submit_get_sqe c : result Z * ring_ctx_t K :=
  if negb (ring_initialized c) then (Err EINVAL, c)
  else if shutting_down c then (Err ESHUTDOWN, c)
  else
    match lu_get_sqe (ring c) with
    | None => (Err EBUSY, c)
    | Some (sqe, k) => (Ok sqe, c <| ring := k |>)
    end.

(** [atomic_load(&ctx->sample_counter)] and the clock for the sampled ones. *)
Definition sample_time c : Z * ring_ctx_t K :=
  let mask := if adaptive_is_passthrough (adaptive c) then PASSTHROUGH_SAMPLE_MASK
              else RING_LATENCY_SAMPLE_MASK in
  let sc := sample_counter c in
  let c := c <| sample_counter := u32 (sc + 1) |> in
  if Z.land sc mask =? 0 then
    let '(now, k) := lu_clock_ns (ring c) in (now, c <| ring := k |>)
  else (0, c).

(** [ATOMIC_ADD_ST] of the two counters of a queued request. *)
Definition count_queued c : ring_ctx_t K :=
  c <| queued_sqes := i32 (queued_sqes c + 1) |> <| pending_count := i32 (pending_count c + 1) |>.

Definition data_finish c (req : Z) (op : aura_op_type_t) : ring_ctx_t K :=
  let c := upd_req req (fun r => r <| op_type := op |>) c in
  let '(time, c) := sample_time c in
  let c := upd_req req (fun r => r <| submit_time_ns := time |> <| pending := true |>) c in
  count_queued c.

Definition meta_finish c (req : Z) (op : aura_op_type_t) : ring_ctx_t K :=
  let c := upd_req req (fun r =>
    r <| op_type := op |> <| submit_time_ns := 0 |> <| pending := true |>) c in
  count_queued c.

(** [RING_SUBMIT_DATA_OP], [RING_SUBMIT_META_OP] and
    [RING_SUBMIT_META_OP_FIXED]: [fixed] says whether the operation applies
    [sqe_apply_fixed_file], [data] which postamble it uses. *)
Definition ring_submit_op c t (req : Z) (op : aura_op_type_t) (prep : prep_t) (fixed data : bool)
  : result unit * ring_ctx_t K * thread_t :=
  let '(r, c) := submit_get_sqe c in
  match r with
  | Err e => (Err e, c, t)
  | Ok sqe =>
      let entry := {| sqe_prep := prep;
                      sqe_fixed_file := fixed && uses_registered_file (req_at c req);
                      sqe_io_link := linked (req_at c req);
                      sqe_data := req |} in
      let c := c <| ring := lu_write_sqe sqe entry (ring c) |> in
      let t := t <| tls_last_sqe := Some (rc_ring_idx c, sqe) |> in
      (Ok tt, if data then data_finish c req op else meta_finish c req op, t)
  end.

Definition RING_SUBMIT_DATA_OP c t req op prep := ring_submit_op c t req op prep true true.
Definition RING_SUBMIT_META_OP c t req op prep := ring_submit_op c t req op prep false false.
Definition RING_SUBMIT_META_OP_FIXED c t req op prep := ring_submit_op c t req op prep true false.

Definition ring_submit_read c t (req : Z) : result unit * ring_ctx_t K * thread_t :=
  let r := req_at c req in
  if UINT_MAX <? len r then (Err EINVAL, c, t)
  else RING_SUBMIT_DATA_OP c t req AURA_OP_READ (prep_read (fd r) (buffer r) (u32 (len r)) (offset r)).

Definition ring_submit_write c t (req : Z) : result unit * ring_ctx_t K * thread_t :=
  let r := req_at c req in
  if UINT_MAX <? len r then (Err EINVAL, c, t)
  else RING_SUBMIT_DATA_OP c t req AURA_OP_WRITE
         (prep_write (fd r) (buffer r) (u32 (len r)) (offset r)).

Definition bad_iov (r : aura_request_t) : bool :=
  (iov r =? 0) || (iovcnt r <=? 0) || (IOV_MAX <? iovcnt r).

Definition ring_submit_readv c t (req : Z) : result unit * ring_ctx_t K * thread_t :=
  let r := req_at c req in
  if bad_iov r then (Err EINVAL, c, t)
  else RING_SUBMIT_DATA_OP c t req AURA_OP_READV (prep_readv (fd r) (iov r) (iovcnt r) (offset r)).

Definition ring_submit_writev c t (req : Z) : result unit * ring_ctx_t K * thread_t :=
  let r := req_at c req in
  if bad_iov r then (Err EINVAL, c, t)
  else RING_SUBMIT_DATA_OP c t req AURA_OP_WRITEV (prep_writev (fd r) (iov r) (iovcnt r) (offset r)).

Definition ring_submit_cancel c t (req : Z) (target : option Z)
  : result unit * ring_ctx_t K * thread_t :=
  match target with
  | None => (Err EINVAL, c, t)
  | Some target =>
      if negb (pending (req_at c target)) then (Err EALREADY, c, t)
      else
        let '(r, c) := submit_get_sqe c in
        match r with
        | Err e => (Err e, c, t)
        | Ok sqe =>
            let entry := {| sqe_prep := prep_cancel target; sqe_fixed_file := false;
                            sqe_io_link := false; sqe_data := req |} in
            let c := c <| ring := lu_write_sqe sqe entry (ring c) |> in
            (Ok tt, meta_finish c req AURA_OP_CANCEL, t <| tls_last_sqe := None |>)
        end
  end.

Definition ring_submit_read_fixed c t (req : Z) : result unit * ring_ctx_t K * thread_t :=
  let r := req_at c req in
  if UINT_MAX <? len r then (Err EINVAL, c, t)
  else RING_SUBMIT_DATA_OP c t req AURA_OP_READ_FIXED
         (prep_read_fixed (fd r) (buffer r) (u32 (len r)) (offset r) (buf_index r)).

Definition ring_submit_write_fixed c t (req : Z) : result unit * ring_ctx_t K * thread_t :=
  let r := req_at c req in
  if UINT_MAX <? len r then (Err EINVAL, c, t)
  else RING_SUBMIT_DATA_OP c t req AURA_OP_WRITE_FIXED
         (prep_write_fixed (fd r) (buffer r) (u32 (len r)) (offset r) (buf_index r)).

Definition ring_submit_fsync c t (req : Z) : result unit * ring_ctx_t K * thread_t :=
  RING_SUBMIT_META_OP_FIXED c t req AURA_OP_FSYNC (prep_fsync (fd (req_at c req)) false).

Definition ring_submit_fdatasync c t (req : Z) : result unit * ring_ctx_t K * thread_t :=
  RING_SUBMIT_META_OP_FIXED c t req AURA_OP_FDATASYNC (prep_fsync (fd (req_at c req)) true).

(** The operands of a metadata operation, whichever union member was set. *)
Definition meta_pathname (m : meta_t) : Z :=
  match m with meta_open p _ _ | meta_statx p _ _ _ => p | _ => 0 end.
Definition meta_flags (m : meta_t) : Z :=
  match m with meta_open _ f _ | meta_statx _ _ f _ | meta_sync_range f => f | _ => 0 end.
Definition meta_mode (m : meta_t) : Z :=
  match m with meta_open _ _ m | meta_fallocate m => m | _ => 0 end.
Definition meta_mask (m : meta_t) : Z := match m with meta_statx _ _ _ k => k | _ => 0 end.
Definition meta_statx_buf (m : meta_t) : Z := match m with meta_statx _ b _ _ => b | _ => 0 end.

Definition ring_submit_openat c t (req : Z) : result unit * ring_ctx_t K * thread_t :=
  let r := req_at c req in
  RING_SUBMIT_META_OP c t req AURA_OP_OPENAT
    (prep_openat (fd r) (meta_pathname (meta r)) (meta_flags (meta r)) (meta_mode (meta r))).

Definition ring_submit_close c t (req : Z) : result unit * ring_ctx_t K * thread_t :=
  RING_SUBMIT_META_OP c t req AURA_OP_CLOSE (prep_close (fd (req_at c req))).

Definition ring_submit_statx c t (req : Z) : result unit * ring_ctx_t K * thread_t :=
  let r := req_at c req in
  RING_SUBMIT_META_OP c t req AURA_OP_STATX
    (prep_statx (fd r) (meta_pathname (meta r)) (meta_flags (meta r)) (meta_mask (meta r))
       (meta_statx_buf (meta r))).

Definition ring_submit_fallocate c t (req : Z) : result unit * ring_ctx_t K * thread_t :=
  let r := req_at c req in
  if INT64_MAX <? len r then (Err EOVERFLOW, c, t)
  else RING_SUBMIT_META_OP_FIXED c t req AURA_OP_FALLOCATE
         (prep_fallocate (fd r) (meta_mode (meta r)) (offset r) (len r)).

(** [have_ftruncate]: liburing is 2.7 or newer (a build-time fact). *)
Definition ring_submit_ftruncate (have_ftruncate : bool) c t (req : Z)
  : result unit * ring_ctx_t K * thread_t :=
  let r := req_at c req in
  if INT64_MAX <? len r then (Err EOVERFLOW, c, t)
  else if negb have_ftruncate then (Err ENOSYS, c, t)
  else RING_SUBMIT_META_OP_FIXED c t req AURA_OP_FTRUNCATE (prep_ftruncate (fd r) (len r)).

Definition ring_submit_sync_file_range c t (req : Z) : result unit * ring_ctx_t K * thread_t :=
  let r := req_at c req in
  if UINT_MAX <? len r then (Err EINVAL, c, t)
  else RING_SUBMIT_META_OP_FIXED c t req AURA_OP_SYNC_FILE_RANGE
         (prep_sync_file_range (fd r) (u32 (len r)) (offset r) (meta_flags (meta r))).

(** ** Flushing *)

(** The clamped subtraction of the submitted count. *)
Definition clamp_queued (old submitted : Z) : Z :=
  old - (if submitted <? old then submitted else old).

(** What both flushes do once there is something to flush. *)
Definition flush_submit c t : result Z * ring_ctx_t K * thread_t :=
  let t := ring_clear_last_sqe t in
  let '(submitted, k) := lu_submit (ring c) in
  let c := c <| ring := k |> in
  if submitted <? 0 then (Err (ESYS (- submitted)), c, t)
  else
    let c := c <| adaptive := adaptive_record_submit (adaptive c) submitted |> in
    let c := if 0 <? submitted
             then c <| queued_sqes := clamp_queued (queued_sqes c) submitted |> else c in
    (Ok submitted, c, t).

Definition ring_flush c t : result Z * ring_ctx_t K * thread_t :=
  if negb (ring_initialized c) then (Ok 0, c, t)
  else if queued_sqes c =? 0 then (Ok 0, c, t)
  else flush_submit c t.

Definition ring_flush_fast c t : result Z * ring_ctx_t K * thread_t :=
  if queued_sqes c =? 0 then (Ok 0, c, t) else flush_submit c t.

(** ** Limits *)

Definition ring_can_submit c : bool :=
  if adaptive_is_passthrough (adaptive c) then true
  else pending_count c <? adaptive_get_inflight_limit (adaptive c).

Definition ring_should_flush c : bool :=
  adaptive_get_batch_threshold (adaptive c) <=? queued_sqes c.

Definition ring_get_fd c : Z := if negb (ring_initialized c) then -1 else lu_ring_fd (ring c).

End Ring.
