(* ===== verification/RingCq.v ===== *)
(** * Completions

    [adaptive_ring.c] 747-1064 and 285-347: processing a completion, retiring a
    batch, draining the completion queue, polling, waiting and destroying the
    ring. The loops run on any state that contains a ring and the calling
    thread's variables ([RingState]), because the user's callbacks run inside
    them and may do to that state whatever the API allows. *)
From Stdlib Require Import ZArith Lia List.
From stdpp Require Import base tactics list.
From S2P Require Import Prelude Histogram Controller Ring.

#[local] Open Scope Z_scope.

(** A state [S] with a ring, a thread, and the effect of the callback [cb]
    called with the request, the result and the user data. *)
Class RingState (K S : Type) := {
  rs_ring : S -> ring_ctx_t K;
  rs_set_ring : ring_ctx_t K -> S -> S;
  rs_thread : S -> thread_t;
  rs_set_thread : thread_t -> S -> S;
  rs_callback : Z -> Z -> Z -> Z -> S -> S
}.

Record retire_entry_t := {
  re_op_idx : Z;
  re_result : Z;
  re_op_type : aura_op_type_t
}.

Section Completion.
Context {K : Type} {L : Liburing K} {S : Type} {RS : RingState K S}.
Implicit Types (s : S).

Definition upd_ring (f : ring_ctx_t K -> ring_ctx_t K) s : S := rs_set_ring (f (rs_ring s)) s.
Definition upd_thread (f : thread_t -> thread_t) s : S := rs_set_thread (f (rs_thread s)) s.

(** Run an operation of [Ring] on the state. *)
Definition on_ring {A} (op : ring_ctx_t K -> A * ring_ctx_t K) s : A * S :=
  let '(a, c) := op (rs_ring s) in (a, rs_set_ring c s).

Definition on_ring_thread {A} (op : ring_ctx_t K -> thread_t -> A * ring_ctx_t K * thread_t) s
  : A * S :=
  let '(a, c, t) := op (rs_ring s) (rs_thread s) in (a, rs_set_thread t (rs_set_ring c s)).

(** What the adaptive controller learns from a sampled completion. *)
Definition record_sample (submit_time result : Z) (c : ring_ctx_t K) : ring_ctx_t K :=
  if submit_time =? 0 then c
  else
    let '(now, k) := lu_clock_ns (ring c) in
    let c := c <| ring := k |> in
    let latency := i64 (now - submit_time) in
    let bytes := if 0 <? result then result else 0 in
    if 0 <? latency
    then c <| adaptive := adaptive_record_completion (adaptive c) latency bytes |> else c.

(** The part of [process_completion] before the callback. *)
Definition complete_request (req result : Z) (c : ring_ctx_t K) : ring_ctx_t K :=
  let r := req_at c req in
  let c := upd_req req (fun r => r <| pending := false |>) c in
  let c := record_sample (submit_time_ns r) result c in
  let c := if uses_registered_buffer r
           then c <| fixed_buf_inflight := u32 (fixed_buf_inflight c - 1) |> else c in
  if uses_registered_file r
  then c <| fixed_file_inflight := u32 (fixed_file_inflight c - 1) |> else c.

(** The callback, inside the thread's callback context. *)
Definition invoke_callback (cb req result data : Z) s : S :=
  if cb =? 0 then s
  else
    let saved := callback_context_depth (rs_thread s) in
    let s := upd_thread (fun t => t <| callback_context_depth := saved + 1 |>) s in
    let s := rs_callback cb req result data s in
    upd_thread (fun t => t <| callback_context_depth := saved |>) s.

Definition process_completion (req : option Z) (result : Z) s : retire_entry_t * S :=
  let retire := {| re_op_idx := -1; re_result := result; re_op_type := AURA_OP_CANCEL |} in
  match req with
  | None => (retire, s)
  | Some req =>
      let r := req_at (rs_ring s) req in
      if negb (pending r) then (retire, s)
      else
        let s := upd_ring (complete_request req result) s in
        let s := invoke_callback (callback r) req result (user_data r) s in
        ({| re_op_idx := op_idx r; re_result := result; re_op_type := op_type r |}, s)
  end.

(** The counters and the slot of one retired request. *)
Definition retire_one (e : retire_entry_t) (c : ring_ctx_t K) : ring_ctx_t K :=
  let c :=
    if op_eqb (re_op_type e) AURA_OP_CANCEL then c
    else
      let c := c <| ops_completed := i64 (ops_completed c + 1) |> in
      if (0 <? re_result e) && op_is_data_transfer (re_op_type e)
      then c <| bytes_completed := i64 (bytes_completed c + re_result e) |> else c in
  ring_put_request c (re_op_idx e).

Fixpoint retire_loop (es : list retire_entry_t) (c : ring_ctx_t K) (delta : Z)
  : ring_ctx_t K * Z :=
  match es with
  | [] => (c, delta)
  | e :: es =>
      if re_op_idx e <? 0 then retire_loop es c delta
      else retire_loop es (retire_one e c) (delta + 1)
  end.

Definition ring_retire_batch (es : list retire_entry_t) (c : ring_ctx_t K) : ring_ctx_t K :=
  if zlen es <=? 0 then c
  else
    let '(st, c) := ring_lock c in
    let '(c, delta) := retire_loop es c 0 in
    ring_unlock (c <| pending_count := i32 (pending_count c - delta) |>) st.

(** Take up to [n] completions off the queue, under [cq_lock]. *)
Fixpoint peek_batch (n : nat) (k : K) : list cqe_t * K :=
  match n with
  | O => ([], k)
  | Datatypes.S n =>
      match lu_peek_cqe k with
      | None => ([], k)
      | Some cqe => let '(l, k) := peek_batch n (lu_cqe_seen k) in (cqe :: l, k)
      end
  end.

Definition take_batch (c : ring_ctx_t K) : list cqe_t * ring_ctx_t K :=
  let '(st, c) := ring_cq_lock c in
  let '(batch, k) := peek_batch (Z.to_nat (poll_batch_size c)) (ring c) in
  (batch, ring_cq_unlock (c <| ring := k |>) st).

Fixpoint process_batch (batch : list cqe_t) s : list retire_entry_t * S :=
  match batch with
  | [] => ([], s)
  | cqe :: batch =>
      let '(e, s) := process_completion (cqe_data cqe) (cqe_res cqe) s in
      let '(es, s) := process_batch batch s in
      (e :: es, s)
  end.

(** [None] is a drain that has not emptied the queue after [fuel] batches (the
    callbacks keep it full). *)
Fixpoint ring_drain_cqes (fuel : nat) (completed : Z) s : option (Z * S) :=
  match fuel with
  | O => None
  | Datatypes.S fuel =>
      let '(batch, s) := on_ring take_batch s in
      if zlen batch =? 0 then Some (completed, s)
      else
        let '(es, s) := process_batch batch s in
        let s := upd_ring (ring_retire_batch es) s in
        ring_drain_cqes fuel (completed + zlen batch) s
  end.

(** The inline retirement of the single-thread drain. *)
Definition retire_fast (e : retire_entry_t) (c : ring_ctx_t K) : ring_ctx_t K :=
  if re_op_idx e <? 0 then c
  else
    let c := retire_one e c in
    c <| pending_count := i32 (pending_count c - 1) |>.

Fixpoint drain_fast_loop (fuel : nat) (completed : Z) s : option (Z * S) :=
  match fuel with
  | O => None
  | Datatypes.S fuel =>
      match lu_peek_cqe (ring (rs_ring s)) with
      | None => Some (completed, s)
      | Some cqe =>
          let s := upd_ring (fun c => c <| ring := lu_cqe_seen (ring c) |>) s in
          let '(e, s) := process_completion (cqe_data cqe) (cqe_res cqe) s in
          drain_fast_loop fuel (completed + 1) (upd_ring (retire_fast e) s)
      end
  end.

Definition ring_drain_cqes_fast (fuel : nat) s : option (Z * S) :=
  if negb (ring_initialized (rs_ring s)) then Some (0, s) else drain_fast_loop fuel 0 s.

Definition ring_poll (fuel : nat) s : option (Z * S) :=
  if negb (ring_initialized (rs_ring s)) then Some (0, s)
  else if single_thread (rs_ring s) then ring_drain_cqes_fast fuel s
  else ring_drain_cqes fuel 0 s.

(** The one-second waits of [timeout_ms < 0]; the last return code. *)
Definition ETIME_ret : Z := -62.
Definition EAGAIN_ret : Z := -11.
Definition EINTR_ret : Z := -4.

Fixpoint wait_forever (fuel : nat) s : option (Z * S) :=
  match fuel with
  | O => None
  | Datatypes.S fuel =>
      let '(ret, s) := on_ring (fun c =>
        let '(ret, k) := lu_wait_cqe_timeout 1000 (ring c) in (ret, c <| ring := k |>)) s in
      if negb (ret =? ETIME_ret) && negb (ret =? EAGAIN_ret) then Some (ret, s)
      else if pending_count (rs_ring s) =? 0 then Some (ret, s)
      else if shutting_down (rs_ring s) then Some (ret, s)
      else wait_forever fuel s
  end.

Definition wait_blocking (fuel : nat) (timeout_ms : Z) s : option (Z * S) :=
  if timeout_ms <? 0 then wait_forever fuel s
  else
    Some (on_ring (fun c =>
      let '(ret, k) := lu_wait_cqe_timeout timeout_ms (ring c) in (ret, c <| ring := k |>)) s).

Definition ok_drain (r : option (Z * S)) : option (result Z * S) :=
  match r with Some (n, s) => Some (Ok n, s) | None => None end.

Definition ring_wait (fuel : nat) (timeout_ms : Z) s : option (result Z * S) :=
  if negb (ring_initialized (rs_ring s)) then Some (Err EINVAL, s)
  else if pending_count (rs_ring s) =? 0 then Some (Ok 0, s)
  else if timeout_ms =? 0 then
    ok_drain (if single_thread (rs_ring s) then ring_drain_cqes_fast fuel s
              else ring_drain_cqes fuel 0 s)
  else
    let '(cq_st, s) := on_ring ring_cq_lock s in
    match lu_peek_cqe (ring (rs_ring s)) with
    | Some _ =>
        ok_drain (ring_drain_cqes fuel 0 (upd_ring (fun c => ring_cq_unlock c cq_st) s))
    | None =>
        let s := upd_ring (fun c => ring_cq_unlock c cq_st) s in
        match wait_blocking fuel timeout_ms s with
        | None => None
        | Some (ret, s) =>
            if (ret <? 0) && negb (ret =? ETIME_ret) && negb (ret =? EAGAIN_ret)
               && negb (ret =? EINTR_ret)
            then Some (Err (ESYS (- ret)), s)
            else ok_drain (ring_drain_cqes fuel 0 s)
        end
    end.

(** ** Destruction *)

Definition flush_locked s : S :=
  let '(st, s) := on_ring ring_lock s in
  let '(_, s) := on_ring_thread ring_flush s in
  upd_ring (fun c => ring_unlock c st) s.

Fixpoint destroy_drain (attempts : nat) (fuel : nat) s : option S :=
  match attempts with
  | O => Some s
  | Datatypes.S attempts =>
      if 0 <? pending_count (rs_ring s) then
        let s := flush_locked s in
        match ring_wait fuel 100 s with
        | None => None
        | Some (_, s) => destroy_drain attempts fuel s
        end
      else Some s
  end.

Definition ring_destroy (fuel : nat) s : option S :=
  let s := if needs_enable (rs_ring s) then snd (on_ring ring_enable s) else s in
  let s := upd_ring (fun c => c <| shutting_down := true |>) s in
  let s := flush_locked s in
  match destroy_drain (Z.to_nat RING_DESTROY_MAX_DRAIN_ATTEMPTS) fuel s with
  | None => None
  | Some s =>
      let s := upd_ring (fun c =>
        if ring_initialized c
        then c <| ring_initialized := false |> <| ring := lu_queue_exit (ring c) |> else c) s in
      Some (upd_ring (fun c => c <| free_request_stack := [] |> <| requests := [] |>) s)
  end.

End Completion.
