(* ===== verification/RingSpec.v ===== *)
(** * What the ring guarantees

    Conservation of request slots, the in-flight count, idempotence of
    duplicate completions, flushing and initialisation. *)
From Stdlib Require Import ZArith Lia List.
From stdpp Require Import base tactics list.
From S2P Require Import Prelude Histogram Controller Ring RingCq.

#[local] Open Scope Z_scope.

(** ** Counting *)

Definition count_if {A} (f : A -> bool) (l : list A) : Z :=
  zsum ((fun x => if f x then 1 else 0) <$> l).

Lemma count_if_aset {A} (f : A -> bool) (d : A) l i x :
  0 <= i < zlen l ->
  count_if f (aset l i x) =
    count_if f l - (if f (aget d l i) then 1 else 0) + (if f x then 1 else 0).
Proof.
  intros Hi. unfold count_if, aset, aget, zlen in *. destruct (Z.ltb_spec i 0); [lia|].
  rewrite list_fmap_insert, zsum_insert by (rewrite length_fmap; lia).
  rewrite !nth_lookup, list_lookup_fmap.
  destruct (lookup_lt_is_Some_2 l (Z.to_nat i)) as [y Hy]; [lia|]. by rewrite Hy.
Qed.

Lemma count_if_range {A} (f : A -> bool) l : 0 <= count_if f l <= zlen l.
Proof.
  unfold count_if, zlen. induction l as [|x l IH]; [done|]. cbn [fmap list_fmap zsum length].
  destruct (f x); lia.
Qed.

(** ** The invariant *)

Section Inv.
Context {K : Type}.
Implicit Types (c : ring_ctx_t K).

(** The free slots: the part of the stack below the count. *)
Definition free_slots_of c : list Z := take (Z.to_nat (free_request_count c)) (free_request_stack c).

Definition pending_total c : Z := count_if pending (requests c).

(** Every slot is on the free stack exactly once, or is in use; a slot in
    the pool is not pending; a slot knows its own index. *)
Record slot_inv c : Prop := {
  sl_len : zlen (requests c) = max_requests c;
  sl_stack : zlen (free_request_stack c) = max_requests c;
  sl_count : 0 <= free_request_count c <= max_requests c;
  sl_nodup : NoDup (free_slots_of c);
  sl_free : forall i, i ∈ free_slots_of c <->
    0 <= i < max_requests c /\ in_pool (req_at c i) = true;
  sl_idle : forall i, 0 <= i < max_requests c -> in_pool (req_at c i) = true ->
    pending (req_at c i) = false;
  sl_idx : forall i, 0 <= i < max_requests c -> op_idx (req_at c i) = i;
  sl_max : max_requests c <= 32768
}.

(** The in-flight count is the number of pending slots plus the completed
    ones [R] whose retirement is still due. *)
Record ring_inv c (R : list Z) : Prop := {
  ri_slots : slot_inv c;
  ri_nodup : NoDup R;
  ri_due : forall i, i ∈ R -> 0 <= i < max_requests c /\ in_pool (req_at c i) = false /\
    pending (req_at c i) = false;
  ri_pending : pending_count c = pending_total c + zlen R
}.

(** The fields the invariant reads. *)
Definition slot_view c :=
  (requests c, free_request_stack c, free_request_count c, max_requests c).

Lemma slot_view_req c c' i : slot_view c = slot_view c' -> req_at c i = req_at c' i.
Proof. unfold slot_view, req_at. intros H. by injection H as -> _ _ _. Qed.

Lemma slot_inv_view c c' : slot_view c = slot_view c' -> slot_inv c -> slot_inv c'.
Proof.
  intros Hv [H1 H2 H3 H4 H5 H6 H7 H8].
  assert (forall i, req_at c' i = req_at c i) as Hr by (intros i; by rewrite (slot_view_req c c')).
  assert (free_slots_of c' = free_slots_of c) as Hf.
  { unfold slot_view in Hv. injection Hv as _ E1 E2 _. unfold free_slots_of. by rewrite E1, E2. }
  unfold slot_view in Hv. injection Hv as E1 E2 E3 E4.
  split; rewrite <- ?E1, <- ?E2, <- ?E3, <- ?E4, ?Hf; auto.
  all: intros i; rewrite Hr; auto.
Qed.

Lemma ring_inv_view c c' R :
  slot_view c = slot_view c' -> pending_count c = pending_count c' -> ring_inv c R -> ring_inv c' R.
Proof.
  intros Hv Hp [H1 H2 H3 H4].
  split; [by apply (slot_inv_view c)|done| |].
  - intros i Hi. rewrite <- (slot_view_req c c' i Hv). unfold slot_view in Hv.
    injection Hv as _ _ _ <-. auto.
  - rewrite <- Hp, H4. unfold slot_view in Hv. injection Hv as E _ _ _.
    unfold pending_total. by rewrite E.
Qed.

(** A change of one request that keeps its index and its flags' meaning. *)
Lemma req_at_upd_eq c i f :
  0 <= i < zlen (requests c) -> req_at (upd_req i f c) i = f (req_at c i).
Proof. intros. unfold req_at, upd_req. cbn. by apply aget_aset_eq. Qed.

Lemma req_at_upd_ne c i j f : i <> j -> req_at (upd_req i f c) j = req_at c j.
Proof. intros. unfold req_at, upd_req. cbn. by apply aget_aset_ne. Qed.

Lemma pending_total_upd c i f :
  0 <= i < zlen (requests c) ->
  pending_total (upd_req i f c) =
    pending_total c - (if pending (req_at c i) then 1 else 0)
      + (if pending (f (req_at c i)) then 1 else 0).
Proof.
  intros H. exact (count_if_aset pending request_zero (requests c) i (f (req_at c i)) H).
Qed.

(** An update that keeps [in_pool] and [op_idx] and never marks a pooled slot
    pending keeps the slots. *)
Lemma upd_slot_inv c i f :
  slot_inv c -> 0 <= i < max_requests c ->
  in_pool (f (req_at c i)) = in_pool (req_at c i) ->
  op_idx (f (req_at c i)) = op_idx (req_at c i) ->
  (in_pool (req_at c i) = true -> pending (f (req_at c i)) = false) ->
  slot_inv (upd_req i f c).
Proof.
  intros [H1 H2 H3 H4 H5 H6 H7 H8] Hi Hp Ho Hn.
  assert (forall j, in_pool (req_at (upd_req i f c) j) = in_pool (req_at c j)) as Hpj.
  { intros j. destruct (decide (i = j)) as [<-|]; [by rewrite req_at_upd_eq by lia|].
    by rewrite req_at_upd_ne. }
  split; try exact H2; try exact H3; try exact H4; try exact H8.
  - unfold upd_req. cbn. by rewrite zlen_aset.
  - intros j. rewrite Hpj. exact (H5 j).
  - intros j Hj. rewrite Hpj. intros Hj'. destruct (decide (i = j)) as [<-|].
    + rewrite req_at_upd_eq by lia. auto.
    + rewrite req_at_upd_ne by done. by apply H6.
  - intros j Hj. destruct (decide (i = j)) as [<-|].
    + rewrite req_at_upd_eq by lia. rewrite Ho. by apply H7.
    + rewrite req_at_upd_ne by done. by apply H7.
Qed.
End Inv.

(** ** Getting and returning a slot *)

Section Slots.
Context {K : Type} {L : Liburing K}.
Implicit Types (c : ring_ctx_t K).

Lemma free_slots_pop c i rest :
  free_slots_of c = rest ++ [i] -> 0 < free_request_count c <= zlen (free_request_stack c) ->
  aget 0 (free_request_stack c) (free_request_count c - 1) = i /\
  take (Z.to_nat (free_request_count c - 1)) (free_request_stack c) = rest.
Proof.
  unfold free_slots_of, aget, zlen. intros E Hn.
  destruct (Z.ltb_spec (free_request_count c - 1) 0); [lia|].
  set (n := Z.to_nat (free_request_count c - 1)).
  replace (Z.to_nat (free_request_count c)) with (Datatypes.S n) in E by lia.
  destruct (lookup_lt_is_Some_2 (free_request_stack c) n) as [x Hx]; [lia|].
  rewrite (take_S_r _ _ _ Hx) in E. apply app_inj_tail in E as [-> ->].
  split; [by apply nth_lookup_Some|done].
Qed.

Lemma free_slots_last c :
  slot_inv c -> free_request_count c <> 0 ->
  exists rest i, free_slots_of c = rest ++ [i] /\ i ∈ free_slots_of c /\ i ∉ rest.
Proof.
  intros Hs Hne. destruct (free_slots_of c) as [|i rest _] eqn:E using rev_ind.
  - apply (f_equal length) in E. unfold free_slots_of in E. rewrite length_take in E.
    pose proof (sl_stack c Hs). pose proof (sl_count c Hs). unfold zlen in *. cbn in E. lia.
  - exists rest, i. split; [done|]. split; [apply elem_of_app; right; by apply list_elem_of_singleton|].
    pose proof (sl_nodup c Hs) as Hnd. rewrite E in Hnd. apply NoDup_app in Hnd as (_ & Hd & _).
    intros Hi. apply (Hd i Hi). by apply list_elem_of_singleton.
Qed.

(** The fields [ring_get_request] resets. *)
Definition fresh_request (r : aura_request_t) : aura_request_t :=
  r <| offset := 0 |> <| buffer := 0 |> <| len := 0 |> <| buf_index := 0 |>
    <| iovcnt := 0 |> <| buf_offset := 0 |> <| iov := 0 |>
    <| uses_registered_buffer := false |> <| uses_registered_file := false |>
    <| original_fd := -1 |> <| in_pool := false |> <| linked := false |>
    <| pending := false |>.

Lemma ring_get_slot c i c' :
  slot_inv c -> ring_get_request c = Some (i, c') ->
  slot_inv c' /\ 0 <= i < max_requests c /\ in_pool (req_at c i) = true /\
  req_at c' i = fresh_request (req_at c i) /\
  (forall j, j <> i -> req_at c' j = req_at c j) /\
  free_request_count c' = free_request_count c - 1 /\
  max_requests c' = max_requests c /\ pending_count c' = pending_count c /\
  pending_total c' = pending_total c.
Proof.
  intros Hs. unfold ring_get_request.
  destruct (Z.eqb_spec (free_request_count c) 0) as [|Hne]; [done|].
  pose proof Hs as [H1 H2 H3 H4 H5 H6 H7 H8].
  destruct (free_slots_last c Hs Hne) as (rest & x & Ef & Hin & Hnin).
  destruct (free_slots_pop c x rest Ef) as [Hx Hrest]; [lia|]. rewrite Hx.
  apply H5 in Hin as [Hr Hp].
  set (c1 := c <| free_request_count := free_request_count c - 1 |>).
  intros [= <- <-]. change (upd_req x _ c1) with (upd_req x fresh_request c1).
  assert (0 <= x < zlen (requests c1)) as Hxl by (cbn; lia).
  assert (req_at (upd_req x fresh_request c1) x = fresh_request (req_at c x)) as Eq
    by exact (req_at_upd_eq c1 x fresh_request Hxl).
  assert (forall j, j <> x -> req_at (upd_req x fresh_request c1) j = req_at c j) as Ene.
  { intros j Hj. rewrite req_at_upd_ne by congruence. done. }
  split_and!; try done; try lia.
  - split; try exact H2; try exact H8.
    + cbn. by rewrite zlen_aset.
    + cbn. lia.
    + change (free_slots_of (upd_req x fresh_request c1)) with
        (take (Z.to_nat (free_request_count c - 1)) (free_request_stack c)).
      rewrite Hrest. rewrite Ef in H4. by apply NoDup_app in H4 as (? & _ & _).
    + intros j. change (free_slots_of (upd_req x fresh_request c1)) with
        (take (Z.to_nat (free_request_count c - 1)) (free_request_stack c)).
      rewrite Hrest. change (max_requests (upd_req x fresh_request c1)) with (max_requests c).
      destruct (decide (j = x)) as [->|Hj].
      * rewrite Eq. split; [done|]. by intros [_ ?].
      * rewrite Ene by done. rewrite <- H5, Ef, elem_of_app, list_elem_of_singleton. tauto.
    + intros j Hj. destruct (decide (j = x)) as [->|Hne'].
      * by rewrite Eq.
      * rewrite Ene by done. by apply H6.
    + intros j Hj. destruct (decide (j = x)) as [->|Hne'].
      * rewrite Eq. by apply H7.
      * rewrite Ene by done. by apply H7.
  - rewrite (pending_total_upd c1 x fresh_request Hxl).
    change (req_at c1 x) with (req_at c x). rewrite (H6 x Hr Hp).
    change (pending_total c1) with (pending_total c). cbn. lia.
Qed.

Lemma in_use_room c i :
  slot_inv c -> 0 <= i < max_requests c -> in_pool (req_at c i) = false ->
  free_request_count c < max_requests c /\ i ∉ free_slots_of c.
Proof.
  intros Hs Hi Hp. pose proof Hs as [H1 H2 H3 H4 H5 H6 H7 H8].
  assert (i ∉ free_slots_of c) as Hn by (rewrite H5, Hp; by intros [_ ?]).
  split; [|done].
  assert (NoDup (i :: free_slots_of c)) as Hnd by by apply NoDup_cons.
  assert (i :: free_slots_of c ⊆ seqZ 0 (max_requests c)) as Hsub.
  { intros j Hj. apply elem_of_seqZ. apply elem_of_cons in Hj as [->|Hj]; [lia|].
    apply H5 in Hj. lia. }
  pose proof (NoDup_submseteq _ _ Hnd Hsub) as Hlen. apply submseteq_length in Hlen.
  cbn [length] in Hlen. unfold free_slots_of in Hlen. rewrite length_take, length_seqZ in Hlen.
  unfold zlen in *. lia.
Qed.

Lemma ring_put_slot c i :
  slot_inv c -> 0 <= i < max_requests c -> in_pool (req_at c i) = false ->
  pending (req_at c i) = false ->
  let c' := ring_put_request c i in
  slot_inv c' /\ req_at c' i = (req_at c i) <| in_pool := true |> /\
  (forall j, j <> i -> req_at c' j = req_at c j) /\
  free_request_count c' = free_request_count c + 1 /\
  max_requests c' = max_requests c /\ pending_count c' = pending_count c /\
  pending_total c' = pending_total c.
Proof.
  intros Hs Hi Hp Hpend. cbv zeta. unfold ring_put_request.
  destruct (Z.ltb_spec i 0); [lia|]. destruct (Z.leb_spec (max_requests c) i); [lia|].
  cbn [orb]. rewrite Hp, Hpend.
  destruct (in_use_room c i Hs Hi Hp) as [Hroom Hnin].
  pose proof Hs as [H1 H2 H3 H4 H5 H6 H7 H8].
  set (f := fun r : aura_request_t => r <| in_pool := true |>).
  set (c1 := upd_req i f c).
  set (c2 := c1 <| free_request_stack := _ |> <| free_request_count := _ |>).
  assert (0 <= i < zlen (requests c)) as Hil by lia.
  assert (req_at c2 i = f (req_at c i)) as Eq by exact (req_at_upd_eq c i f Hil).
  assert (forall j, j <> i -> req_at c2 j = req_at c j) as Ene.
  { intros j Hj. change (req_at c2 j) with (req_at c1 j). apply req_at_upd_ne. congruence. }
  assert (free_slots_of c2 = free_slots_of c ++ [i]) as Ef.
  { change (free_slots_of c2) with (take (Z.to_nat (free_request_count c + 1))
      (aset (free_request_stack c) (free_request_count c) i)).
    unfold aset, free_slots_of. destruct (Z.ltb_spec (free_request_count c) 0); [lia|].
    replace (Z.to_nat (free_request_count c + 1)) with
      (Datatypes.S (Z.to_nat (free_request_count c))) by lia.
    unfold zlen in *.
    rewrite (take_S_r _ _ i) by (apply list_lookup_insert_eq; lia).
    by rewrite take_insert_ge by lia. }
  split_and!; try done.
  - split; try exact H8.
    + cbn. by rewrite zlen_aset.
    + cbn. by rewrite zlen_aset.
    + cbn. lia.
    + rewrite Ef. apply NoDup_app. split_and!; [done| |apply NoDup_singleton].
      intros j Hj Hj'. apply list_elem_of_singleton in Hj' as ->. done.
    + intros j. rewrite Ef, elem_of_app, list_elem_of_singleton, H5.
      change (max_requests c2) with (max_requests c).
      destruct (decide (j = i)) as [->|Hj].
      * rewrite Eq. split; [by split|]. by right.
      * rewrite Ene by done. tauto.
    + intros j Hj. destruct (decide (j = i)) as [->|Hj'].
      * rewrite Eq. cbn. done.
      * rewrite Ene by done. by apply H6.
    + intros j Hj. destruct (decide (j = i)) as [->|Hj'].
      * rewrite Eq. cbn. by apply H7.
      * rewrite Ene by done. by apply H7.
  - change (pending_total c2) with (pending_total c1). unfold c1.
    rewrite pending_total_upd by lia. cbn. rewrite Hpend. lia.
Qed.

(** A slot that is free, still pending or out of range is not returned. *)
Lemma ring_put_guard c i :
  ~ (0 <= i < max_requests c /\ in_pool (req_at c i) = false /\ pending (req_at c i) = false) ->
  ring_put_request c i = c.
Proof.
  intros H. unfold ring_put_request.
  destruct (Z.ltb_spec i 0); [done|]. destruct (Z.leb_spec (max_requests c) i); [done|].
  cbn [orb]. destruct (in_pool _); [done|]. destruct (pending _); [done|].
  destruct H. split_and!; auto; lia.
Qed.
End Slots.

(** ** What a lock and its release leave *)

Section Locks.
Context {K : Type}.
Implicit Types (c : ring_ctx_t K).

(** The lock counters are not about to wrap. *)
Definition users_ok c : Prop :=
  INT_MIN <= st_users c < INT_MAX /\ INT_MIN <= st_cq_users c < INT_MAX.

(** The counters a lock and a retirement change, set to [p], [u] and [l]. *)
Definition tuned (p u l : Z) c : ring_ctx_t K :=
  c <| pending_count := p |> <| st_users := u |> <| lock := l |>.

Lemma tuned_same c : tuned (pending_count c) (st_users c) (lock c) c = c.
Proof. by destruct c. Qed.

(** Taking the lock changes its counter only, and releasing it restores it. *)
Lemma ring_lock_tuned c :
  INT_MIN <= st_users c < INT_MAX ->
  exists st u l, ring_lock c = (st, tuned (pending_count c) u l c) /\
    forall x c', ring_unlock (tuned x u l c') st = tuned x (st_users c) (lock c) c'.
Proof.
  intros Hu. unfold ring_lock. destruct (single_thread c) eqn:Est; cbn; rewrite ?Est; cbn.
  - exists true, (i32 (st_users c + 1)), (lock c). split; [by destruct c|].
    intros x c'. unfold tuned. cbn. rewrite i32_sub.
    replace (st_users c + 1 - 1) with (st_users c) by lia. by rewrite i32_id by lia.
  - exists false, (st_users c), (lock c + 1). split; [by destruct c|].
    intros x c'. unfold tuned. cbn. by replace (lock c + 1 - 1) with (lock c) by lia.
Qed.
End Locks.

(** ** The interface of the state and of liburing's completion queue *)

(** The projections and updates of [RingState] behave like record fields. *)
Class RingStateLaws (K S : Type) `{RingState K S} : Prop := {
  rs_ring_set : forall c s, rs_ring (rs_set_ring c s) = c;
  rs_ring_thread : forall t s, rs_ring (rs_set_thread t s) = rs_ring s
}.

(** The completion queue is a queue: peeking reads its head, [io_uring_cqe_seen]
    drops it, and reading the clock does not touch it. *)
Class LiburingCq (K : Type) `{Liburing K} := {
  lu_cq : K -> list cqe_t;
  lu_peek_head : forall k, lu_peek_cqe k = head (lu_cq k);
  lu_seen_tail : forall k, lu_cq (lu_cqe_seen k) = tail (lu_cq k);
  lu_clock_cq : forall k, lu_cq (snd (lu_clock_ns k)) = lu_cq k
}.

(** A user callback uses the ring through the API: it keeps the invariant for
    whatever completions are still to be retired. *)
Definition callback_ok {K S} {RS : RingState K S} : Prop :=
  forall cb req res data s R,
    ring_inv (rs_ring s) R -> ring_inv (rs_ring (rs_callback cb req res data s)) R.

(** No completion arrives while a callback runs. *)
Definition callback_quiet {K S} {L : Liburing K} {LC : LiburingCq K} {RS : RingState K S} : Prop :=
  forall cb req res data s,
    lu_cq (ring (rs_ring (rs_callback cb req res data s))) = lu_cq (ring (rs_ring s)) /\
    poll_batch_size (rs_ring (rs_callback cb req res data s)) = poll_batch_size (rs_ring s).

(** ** Completions *)

(** The slots of a batch that are due for retirement. *)
Definition due (es : list retire_entry_t) : list Z :=
  filter (fun i => 0 <= i) (re_op_idx <$> es).

Section Completions.
Context {K : Type} {L : Liburing K}.
Implicit Types (c : ring_ctx_t K).

Lemma pending_range c i : zlen (requests c) = max_requests c ->
  pending (req_at c i) = true -> 0 <= i < max_requests c.
Proof.
  unfold req_at, aget, zlen. intros Hl. destruct (Z.ltb_spec i 0); [done|].
  destruct (decide (Z.to_nat i < length (requests c))%nat); [lia|].
  rewrite nth_overflow by lia. done.
Qed.

Lemma ring_inv_perm c R R' : R ≡ₚ R' -> ring_inv c R -> ring_inv c R'.
Proof.
  intros HP [H1 H2 H3 H4]. split; [done|by rewrite <- HP| |].
  - intros i Hi. apply H3. by rewrite HP.
  - unfold zlen in *. by rewrite <- HP.
Qed.

Lemma due_length c R : slot_inv c -> NoDup R ->
  (forall i, i ∈ R -> 0 <= i < max_requests c) -> zlen R <= max_requests c.
Proof.
  intros Hs Hnd Hr. assert (R ⊆ seqZ 0 (max_requests c)) as Hsub.
  { intros i Hi. apply elem_of_seqZ. specialize (Hr i Hi). lia. }
  pose proof (NoDup_submseteq _ _ Hnd Hsub) as Hlen. apply submseteq_length in Hlen.
  rewrite length_seqZ in Hlen. pose proof (sl_count c Hs). unfold zlen. lia.
Qed.

Lemma ring_inv_pending_range c R :
  ring_inv c R -> 0 <= pending_count c <= 65536 /\ zlen R <= 32768.
Proof.
  intros [Hs Hnd Hdue Hpc].
  pose proof (due_length c R Hs Hnd ltac:(intros i Hi; by apply Hdue)).
  pose proof (count_if_range pending (requests c)). pose proof (sl_max c Hs).
  pose proof (sl_len c Hs). unfold pending_total in Hpc. unfold zlen in *. lia.
Qed.

Lemma record_sample_view time res c :
  slot_view (record_sample time res c) = slot_view c /\
  pending_count (record_sample time res c) = pending_count c /\
  poll_batch_size (record_sample time res c) = poll_batch_size c.
Proof.
  unfold record_sample. destruct (time =? 0); [done|].
  destruct (lu_clock_ns (ring c)) as [now k]. by destruct (0 <? _).
Qed.

Lemma complete_request_view req res c :
  let c' := complete_request req res c in
  let c1 := upd_req req (fun r => r <| pending := false |>) c in
  slot_view c' = slot_view c1 /\ pending_count c' = pending_count c1 /\
  poll_batch_size c' = poll_batch_size c.
Proof.
  cbv zeta. unfold complete_request.
  destruct (record_sample_view (submit_time_ns (req_at c req)) res
              (upd_req req (fun r => r <| pending := false |>) c)) as (Hv & Hp & Hb).
  generalize dependent (record_sample (submit_time_ns (req_at c req)) res
              (upd_req req (fun r => r <| pending := false |>) c)).
  intros c2 Hv Hp Hb. cbv zeta.
  destruct (uses_registered_buffer _); destruct (uses_registered_file _);
    (split; [exact Hv|split; [exact Hp|exact Hb]]).
Qed.

(** Completing a pending request moves it to the ones due. *)
Lemma complete_request_inv c R req res :
  ring_inv c R -> pending (req_at c req) = true ->
  ring_inv (complete_request req res c) (req :: R) /\ op_idx (req_at c req) = req /\ 0 <= req.
Proof.
  intros [Hs Hnd Hdue Hp] Hpend. pose proof Hs as [H1 H2 H3 H4 H5 H6 H7 H8].
  pose proof (pending_range c req H1 Hpend) as Hr.
  assert (in_pool (req_at c req) = false) as Hip.
  { destruct (in_pool (req_at c req)) eqn:E; [|done]. rewrite (H6 req Hr E) in Hpend. done. }
  split; [|split; [by apply H7|lia]].
  set (f := fun r : aura_request_t => r <| pending := false |>).
  set (c1 := upd_req req f c).
  assert (ring_inv c1 (req :: R)) as Hinv.
  { assert (slot_inv c1) as Hs1 by (apply upd_slot_inv; done).
    split; [done| | |].
    - apply NoDup_cons. split; [|done]. intros Hin. apply Hdue in Hin as (_ & _ & Hf). congruence.
    - intros i Hi. destruct (decide (i = req)) as [->|Hne].
      + unfold c1. rewrite req_at_upd_eq by lia. done.
      + apply elem_of_cons in Hi as [->|Hi]; [done|].
        unfold c1. rewrite req_at_upd_ne by congruence. by apply Hdue.
    - change (pending_count c1) with (pending_count c). unfold c1.
      rewrite pending_total_upd, Hpend, Hp by lia. cbn. unfold zlen. cbn [length]. lia. }
  destruct (complete_request_view req res c) as (Hv & Hq & _).
  apply (ring_inv_view c1); [symmetry; exact Hv|symmetry; exact Hq|exact Hinv].
Qed.

Lemma ring_put_view c c' i :
  slot_view c = slot_view c' ->
  slot_view (ring_put_request c i) = slot_view (ring_put_request c' i) /\
  pending_count (ring_put_request c i) = pending_count c /\
  poll_batch_size (ring_put_request c i) = poll_batch_size c /\
  ring (ring_put_request c i) = ring c.
Proof.
  intros Hv. unfold ring_put_request. rewrite (slot_view_req c c' i Hv).
  unfold slot_view in *. injection Hv as E1 E2 E3 E4. rewrite E4.
  destruct ((i <? 0) || _); [by rewrite E1, E2, E3, E4|].
  destruct (in_pool _); [by rewrite E1, E2, E3, E4|].
  destruct (pending _); [by rewrite E1, E2, E3, E4|].
  unfold upd_req, req_at. cbn. rewrite E1, E2, E3, E4. done.
Qed.

Lemma retire_one_view e c :
  slot_view (retire_one e c) = slot_view (ring_put_request c (re_op_idx e)) /\
  pending_count (retire_one e c) = pending_count c /\
  poll_batch_size (retire_one e c) = poll_batch_size c /\ ring (retire_one e c) = ring c.
Proof.
  unfold retire_one. destruct (op_eqb _ _); [by apply ring_put_view|].
  cbv zeta. destruct ((0 <? _) && _);
    match goal with |- context [ring_put_request ?x ?i] =>
      exact (ring_put_view x c i eq_refl) end.
Qed.

(** Retiring a slot that is due, with the count decremented later. *)
Lemma retire_one_inv c R e n :
  ring_inv (c <| pending_count := n |>) (re_op_idx e :: R) ->
  pending_count (retire_one e c) = pending_count c /\
  ring_inv ((retire_one e c) <| pending_count := n - 1 |>) R.
Proof.
  intros [Hs Hnd Hdue Hp]. destruct (retire_one_view e c) as (Hv & Hq & _ & _).
  destruct (Hdue (re_op_idx e)) as (Hr & Hip & Hpe); [by apply elem_of_cons; left|].
  change (req_at (c <| pending_count := n |>)) with (req_at c) in Hip, Hpe.
  assert (slot_inv c) as Hs0 by by apply (slot_inv_view (c <| pending_count := n |>)).
  destruct (ring_put_slot c (re_op_idx e) Hs0 Hr Hip Hpe) as (P1 & P2 & P3 & _ & P5 & P6 & P7).
  split; [exact Hq|]. apply NoDup_cons in Hnd as [Hn Hnd].
  apply (ring_inv_view ((ring_put_request c (re_op_idx e)) <| pending_count := n - 1 |>)); [done|done|].
  set (c' := ring_put_request c (re_op_idx e)) in *.
  split; [by apply (slot_inv_view c')|done| |].
  - intros i Hi. change (req_at (c' <| pending_count := n - 1 |>) i) with (req_at c' i).
    rewrite P3 by (intros ->; done).
    change (max_requests (c' <| pending_count := n - 1 |>)) with (max_requests c').
    rewrite P5. apply (Hdue i). by apply elem_of_cons; right.
  - change (n = pending_total c + zlen (re_op_idx e :: R)) in Hp.
    change (n - 1 = pending_total c' + zlen R).
    unfold zlen in *. cbn [length] in Hp. lia.
Qed.
End Completions.

Section Drain.
Context {K : Type} {L : Liburing K} {S : Type} {RS : RingState K S} {RL : RingStateLaws K S}.
Context (Hcb : callback_ok (K := K) (S := S)).
Implicit Types (s : S) (c : ring_ctx_t K).

Lemma invoke_callback_inv cb req res data s R :
  ring_inv (rs_ring s) R -> ring_inv (rs_ring (invoke_callback cb req res data s)) R.
Proof using Hcb RL.
  intros H. unfold invoke_callback. destruct (cb =? 0); [done|].
  unfold upd_thread. rewrite rs_ring_thread. apply Hcb. by rewrite rs_ring_thread.
Qed.

Lemma process_completion_inv req res s R e s' :
  process_completion req res s = (e, s') -> ring_inv (rs_ring s) R ->
  ring_inv (rs_ring s') (due [e] ++ R).
Proof using Hcb RL.
  unfold process_completion. intros E Hinv.
  destruct req as [req|]; [|injection E as <- <-; exact Hinv].
  destruct (pending (req_at (rs_ring s) req)) eqn:Hp; [|injection E as <- <-; exact Hinv].
  cbn [negb] in E. injection E as <- <-.
  destruct (complete_request_inv (rs_ring s) R req res Hinv Hp) as (H1 & H2 & H3).
  unfold due. cbn [re_op_idx fmap list_fmap]. rewrite H2, filter_cons_True by done.
  rewrite filter_nil. apply invoke_callback_inv. unfold upd_ring. by rewrite rs_ring_set.
Qed.

Lemma due_app es es' : due (es ++ es') = due es ++ due es'.
Proof using. unfold due. by rewrite fmap_app, filter_app. Qed.

Lemma process_batch_inv batch : forall s R es s',
  process_batch batch s = (es, s') -> ring_inv (rs_ring s) R ->
  ring_inv (rs_ring s') (due es ++ R) /\ length es = length batch.
Proof using Hcb RL.
  induction batch as [|cqe batch IH]; intros s R es s' E Hinv; cbn [process_batch] in E.
  { injection E as <- <-. by split. }
  destruct (process_completion _ _ s) as [e s1] eqn:E1.
  destruct (process_batch batch s1) as [es1 s2] eqn:E2.
  injection E as <- <-. apply process_completion_inv with (R := R) in E1; [|done].
  destruct (IH s1 _ _ _ E2 E1) as [H Hlen]. split; [|cbn; lia].
  change (e :: es1) with ([e] ++ es1). rewrite due_app.
  eapply ring_inv_perm; [|exact H]. rewrite (assoc_L (++)).
  apply Permutation_app_tail, Permutation_app_comm.
Qed.

Lemma retire_loop_inv es : forall c delta R c' delta',
  retire_loop es c delta = (c', delta') -> forall n,
  ring_inv (c <| pending_count := n |>) (due es ++ R) ->
  pending_count c' = pending_count c /\ delta' = delta + zlen (due es) /\
  poll_batch_size c' = poll_batch_size c /\ ring c' = ring c /\
  ring_inv (c' <| pending_count := n - zlen (due es) |>) R.
Proof using.
  induction es as [|e es IH]; intros c delta R c' delta' E n Hinv; cbn [retire_loop] in E.
  { injection E as <- <-. unfold zlen. cbn [due length fmap list_fmap].
    unfold due. cbn. rewrite Z.sub_0_r. split_and!; try done. lia. }
  unfold due in *. cbn [fmap list_fmap] in *.
  destruct (Z.ltb_spec (re_op_idx e) 0) as [Hneg|Hpos].
  - rewrite filter_cons_False in * by lia. by apply (IH _ _ _ _ _ E).
  - rewrite filter_cons_True in * by lia.
    destruct (retire_one_inv c _ e n Hinv) as [H1 H2].
    destruct (retire_one_view e c) as (_ & _ & H3 & H4).
    destruct (IH _ _ _ _ _ E (n - 1) H2) as (G1 & G2 & G3 & G4 & G5).
    unfold zlen in *. cbn [length]. split_and!; try congruence; [lia|].
    replace (n - Z.of_nat (Datatypes.S (length (filter (fun i => 0 <= i) (re_op_idx <$> es)))))
      with (n - 1 - Z.of_nat (length (filter (fun i => 0 <= i) (re_op_idx <$> es)))) by lia.
    exact G5.
Qed.

Lemma ring_retire_batch_inv es c :
  ring_inv c (due es) ->
  ring_inv (ring_retire_batch es c) [] /\
  poll_batch_size (ring_retire_batch es c) = poll_batch_size c /\
  ring (ring_retire_batch es c) = ring c.
Proof using.
  intros Hinv. unfold ring_retire_batch.
  destruct (Z.leb_spec (zlen es) 0) as [Hz|Hz].
  { assert (es = []) as -> by (destruct es; [done|unfold zlen in Hz; cbn in Hz; lia]). done. }
  assert (exists st c1, ring_lock c = (st, c1) /\ slot_view c1 = slot_view c /\
    pending_count c1 = pending_count c /\ poll_batch_size c1 = poll_batch_size c /\
    ring c1 = ring c) as (st & c1 & -> & Hv & Hp & Hb & Hk).
  { unfold ring_lock. destruct (single_thread c); [|by do 2 eexists].
    destruct (negb _); by do 2 eexists. }
  destruct (retire_loop es c1 0) as [c2 delta] eqn:E.
  destruct (retire_loop_inv es c1 0 [] c2 delta E (pending_count c)) as (G1 & G2 & G3 & G4 & G5).
  { rewrite app_nil_r. by apply (ring_inv_view c). }
  rewrite Z.add_0_l in G2. subst delta.
  assert (0 <= pending_count c <= 65536 /\ 0 <= zlen (due es) <= 32768) as [Hr1 Hr2].
  { pose proof (ring_inv_pending_range c _ Hinv). unfold zlen in *. lia. }
  rewrite G1, Hp. rewrite i32_id by (unfold INT_MIN, INT_MAX; lia).
  assert (forall x : ring_ctx_t K, slot_view (ring_unlock x st) = slot_view x /\
    pending_count (ring_unlock x st) = pending_count x /\
    poll_batch_size (ring_unlock x st) = poll_batch_size x /\
    ring (ring_unlock x st) = ring x) as Hu by (intros x; unfold ring_unlock; by destruct st).
  match goal with |- context [ring_unlock ?x st] => destruct (Hu x) as (U1 & U2 & U3 & U4) end.
  split; [|split].
  - by eapply ring_inv_view; [symmetry; exact U1|symmetry; exact U2|].
  - rewrite U3. cbn. congruence.
  - rewrite U4. cbn. congruence.
Qed.

Lemma take_batch_inv c batch c' R :
  take_batch c = (batch, c') -> ring_inv c R ->
  ring_inv c' R /\ poll_batch_size c' = poll_batch_size c.
Proof using.
  unfold take_batch. intros E Hinv.
  assert (exists st c1, ring_cq_lock c = (st, c1) /\ slot_view c1 = slot_view c /\
    pending_count c1 = pending_count c /\ poll_batch_size c1 = poll_batch_size c)
    as (st & c1 & E1 & Hv & Hp & Hb).
  { unfold ring_cq_lock. destruct (single_thread c); [|by do 2 eexists].
    destruct (negb _); by do 2 eexists. }
  rewrite E1 in E. destruct (peek_batch _ _) as [l k]. injection E as _ <-.
  split; [apply (ring_inv_view c); [| |done]|]; unfold ring_cq_unlock; by destruct st.
Qed.

Lemma on_ring_set {A} (op : ring_ctx_t K -> A * ring_ctx_t K) s :
  on_ring op s = (fst (op (rs_ring s)), rs_set_ring (snd (op (rs_ring s))) s).
Proof using. unfold on_ring. by destruct (op (rs_ring s)). Qed.

(** Whatever the drain does, it ends with every completed slot retired. *)
Lemma ring_drain_cqes_inv fuel : forall n s r s',
  ring_drain_cqes fuel n s = Some (r, s') -> ring_inv (rs_ring s) [] -> ring_inv (rs_ring s') [].
Proof using Hcb RL.
  induction fuel as [|fuel IH]; intros n s r s' E Hinv; [done|]. cbn [ring_drain_cqes] in E.
  rewrite on_ring_set in E.
  destruct (take_batch (rs_ring s)) as [batch c1] eqn:E1. cbn [fst snd] in E.
  destruct (take_batch_inv _ _ _ [] E1 Hinv) as [H1 _].
  destruct (zlen batch =? 0); [injection E as _ <-; by rewrite rs_ring_set|].
  destruct (process_batch batch _) as [es s2] eqn:E2.
  apply process_batch_inv with (R := []) in E2 as [H2 _]; [|by rewrite rs_ring_set].
  rewrite app_nil_r in H2.
  apply (IH _ _ _ _ E). unfold upd_ring. rewrite rs_ring_set. by apply ring_retire_batch_inv.
Qed.

Lemma retire_fast_inv e c : ring_inv c (due [e]) -> ring_inv (retire_fast e c) [].
Proof using.
  intros Hinv. unfold retire_fast, due in *. cbn [fmap list_fmap] in Hinv.
  destruct (Z.ltb_spec (re_op_idx e) 0); [by rewrite filter_cons_False in Hinv by lia|].
  rewrite filter_cons_True, filter_nil in Hinv by lia.
  destruct (retire_one_inv c [] e (pending_count c)) as [H1 H2].
  { by apply (ring_inv_view c). }
  cbv zeta. rewrite H1.
  pose proof (ring_inv_pending_range c _ Hinv).
  by rewrite i32_id by (unfold INT_MIN, INT_MAX; lia).
Qed.

Lemma drain_fast_loop_inv fuel : forall n s r s',
  drain_fast_loop fuel n s = Some (r, s') -> ring_inv (rs_ring s) [] -> ring_inv (rs_ring s') [].
Proof using Hcb RL.
  induction fuel as [|fuel IH]; intros n s r s' E Hinv; [done|]. cbn [drain_fast_loop] in E.
  destruct (lu_peek_cqe _) as [cqe|]; [|injection E as _ <-; done].
  destruct (process_completion _ _ _) as [e s2] eqn:E2.
  apply process_completion_inv with (R := []) in E2.
  2: { unfold upd_ring. rewrite rs_ring_set. by apply (ring_inv_view (rs_ring s)). }
  rewrite app_nil_r in E2.
  apply (IH _ _ _ _ E). unfold upd_ring. rewrite rs_ring_set. by apply retire_fast_inv.
Qed.
End Drain.

(** ** Draining to the end *)

Section Exact.
Context {K : Type} {L : Liburing K} {LC : LiburingCq K}.
Context {S : Type} {RS : RingState K S} {RL : RingStateLaws K S}.
Context (Hquiet : callback_quiet (K := K) (S := S)).
Implicit Types (s : S) (c : ring_ctx_t K).

Lemma record_sample_cq time res c : lu_cq (ring (record_sample time res c)) = lu_cq (ring c).
Proof using.
  unfold record_sample. destruct (time =? 0); [done|].
  pose proof (lu_clock_cq (ring c)) as H. destruct (lu_clock_ns (ring c)) as [now k].
  by destruct (0 <? _).
Qed.

Lemma complete_request_cq req res c :
  lu_cq (ring (complete_request req res c)) = lu_cq (ring c).
Proof using.
  unfold complete_request.
  pose proof (record_sample_cq (submit_time_ns (req_at c req)) res
    (upd_req req (fun r => r <| pending := false |>) c)) as H.
  generalize dependent (record_sample (submit_time_ns (req_at c req)) res
    (upd_req req (fun r => r <| pending := false |>) c)). intros c2 H.
  destruct (uses_registered_buffer _); destruct (uses_registered_file _); exact H.
Qed.

Definition drain_view s := (lu_cq (ring (rs_ring s)), poll_batch_size (rs_ring s)).

Lemma process_completion_cq req res s e s' :
  process_completion req res s = (e, s') -> drain_view s' = drain_view s.
Proof using Hquiet RL.
  unfold process_completion, drain_view. intros E.
  destruct req as [req|]; [|by injection E as _ <-].
  destruct (negb _); [by injection E as _ <-|]. injection E as _ <-.
  unfold invoke_callback. destruct (_ =? 0).
  - unfold upd_ring. rewrite rs_ring_set, complete_request_cq.
    by destruct (complete_request_view req res (rs_ring s)) as (_ & _ & ->).
  - unfold upd_thread. rewrite rs_ring_thread.
    match goal with |- context [rs_callback ?a ?b ?x ?d ?y] =>
      destruct (Hquiet a b x d y) as [-> ->] end.
    unfold upd_ring. rewrite rs_ring_thread, rs_ring_set, complete_request_cq.
    by destruct (complete_request_view req res (rs_ring s)) as (_ & _ & ->).
Qed.

Lemma process_batch_cq batch : forall s es s',
  process_batch batch s = (es, s') -> drain_view s' = drain_view s.
Proof using Hquiet RL.
  induction batch as [|cqe batch IH]; intros s es s' E; cbn [process_batch] in E.
  { by injection E as _ <-. }
  destruct (process_completion _ _ s) as [e s1] eqn:E1.
  destruct (process_batch batch s1) as [es1 s2] eqn:E2. injection E as _ <-.
  apply process_completion_cq in E1. rewrite <- E1. by apply (IH _ _ _ E2).
Qed.

Lemma peek_batch_cq n : forall k l k',
  peek_batch n k = (l, k') -> l = take n (lu_cq k) /\ lu_cq k' = drop n (lu_cq k).
Proof using.
  induction n as [|n IH]; intros k l k' E; cbn [peek_batch] in E.
  { injection E as <- <-. done. }
  rewrite lu_peek_head in E. destruct (lu_cq k) as [|cqe q] eqn:Eq; cbn [head] in E.
  { injection E as <- <-. by rewrite Eq. }
  destruct (peek_batch n (lu_cqe_seen k)) as [l' k2] eqn:E2. injection E as <- <-.
  apply IH in E2 as [-> ->]. rewrite lu_seen_tail, Eq. done.
Qed.

Lemma take_batch_cq c batch c' :
  take_batch c = (batch, c') ->
  batch = take (Z.to_nat (poll_batch_size c)) (lu_cq (ring c)) /\
  lu_cq (ring c') = drop (Z.to_nat (poll_batch_size c)) (lu_cq (ring c)) /\
  poll_batch_size c' = poll_batch_size c.
Proof using.
  unfold take_batch. intros E.
  assert (exists st c1, ring_cq_lock c = (st, c1) /\ ring c1 = ring c /\
    poll_batch_size c1 = poll_batch_size c) as (st & c1 & E1 & Hk & Hb).
  { unfold ring_cq_lock. destruct (single_thread c); [|by do 2 eexists].
    destruct (negb _); by do 2 eexists. }
  rewrite E1 in E. destruct (peek_batch _ _) as [l k] eqn:Ep. injection E as <- <-.
  apply peek_batch_cq in Ep as [-> Ek]. rewrite Hb, Hk in *.
  unfold ring_cq_unlock. destruct st; split_and!; try done; exact Ek.
Qed.

Lemma ring_retire_batch_cq es c :
  ring (ring_retire_batch es c) = ring c /\
  poll_batch_size (ring_retire_batch es c) = poll_batch_size c.
Proof using.
  unfold ring_retire_batch. destruct (_ <=? 0); [done|].
  assert (exists st c1, ring_lock c = (st, c1) /\ ring c1 = ring c /\
    poll_batch_size c1 = poll_batch_size c) as (st & c1 & -> & Hk & Hb).
  { unfold ring_lock. destruct (single_thread c); [|by do 2 eexists].
    destruct (negb _); by do 2 eexists. }
  assert (forall es c d, ring (fst (retire_loop es c d)) = ring c /\
    poll_batch_size (fst (retire_loop es c d)) = poll_batch_size c) as Hl.
  { clear. induction es as [|e es IH]; intros c d; cbn [retire_loop]; [done|].
    destruct (_ <? 0); [apply IH|]. destruct (IH (retire_one e c) (d + 1)) as [-> ->].
    by destruct (retire_one_view e c) as (_ & _ & -> & ->). }
  specialize (Hl es c1 0). destruct (retire_loop es c1 0) as [c2 delta]. cbn [fst] in Hl.
  destruct Hl as [H1 H2]. unfold ring_unlock. destruct st; cbn; split; congruence.
Qed.

Lemma ring_drain_cqes_exact fuel : forall n s,
  0 < poll_batch_size (rs_ring s) ->
  (length (lu_cq (ring (rs_ring s))) < fuel)%nat ->
  exists s', ring_drain_cqes fuel n s = Some (n + zlen (lu_cq (ring (rs_ring s))), s') /\
    lu_cq (ring (rs_ring s')) = [].
Proof using Hquiet RL.
  induction fuel as [|fuel IH]; intros n s Hb Hf; [lia|]. cbn [ring_drain_cqes].
  rewrite on_ring_set. destruct (take_batch (rs_ring s)) as [batch c1] eqn:E1. cbn [fst snd].
  apply take_batch_cq in E1 as (Eb & Ec & Ep).
  set (q := lu_cq (ring (rs_ring s))) in *. set (b := poll_batch_size (rs_ring s)) in *.
  assert (length batch = Nat.min (Z.to_nat b) (length q)) as Hlb by (rewrite Eb; apply length_take).
  destruct (Z.eqb_spec (zlen batch) 0) as [Hz|Hz].
  - assert (q = []) as Hq by (destruct q; [done|unfold zlen in Hz; cbn in Hlb; lia]).
    eexists. rewrite Hq. split; [do 2 f_equal; unfold zlen; cbn; lia|].
    rewrite rs_ring_set, Ec, Hq. by rewrite drop_nil.
  - destruct (process_batch batch _) as [es s2] eqn:E2.
    apply process_batch_cq in E2. unfold drain_view in E2. rewrite rs_ring_set in E2.
    injection E2 as E2 E3. destruct (ring_retire_batch_cq es (rs_ring s2)) as [H1 H2].
    destruct (IH (n + zlen batch) (upd_ring (ring_retire_batch es) s2)) as (s' & E & Hs').
    + unfold upd_ring. rewrite rs_ring_set, H2, E3, Ep. lia.
    + unfold upd_ring. rewrite rs_ring_set, H1, E2, Ec, length_drop. unfold zlen in Hz. lia.
    + exists s'. split; [|done]. rewrite E. unfold upd_ring. rewrite rs_ring_set, H1, E2, Ec.
      unfold zlen in *. rewrite length_drop. do 2 f_equal. lia.
Qed.

Lemma drain_fast_loop_exact fuel : forall n s,
  (length (lu_cq (ring (rs_ring s))) < fuel)%nat ->
  exists s', drain_fast_loop fuel n s = Some (n + zlen (lu_cq (ring (rs_ring s))), s') /\
    lu_cq (ring (rs_ring s')) = [].
Proof using Hquiet RL.
  induction fuel as [|fuel IH]; intros n s Hf; [lia|]. cbn [drain_fast_loop].
  rewrite lu_peek_head. destruct (lu_cq (ring (rs_ring s))) as [|cqe q] eqn:Eq; cbn [head].
  { exists s. split; [do 2 f_equal; unfold zlen; cbn; lia|done]. }
  destruct (process_completion _ _ _) as [e s2] eqn:E2. apply process_completion_cq in E2.
  unfold drain_view, upd_ring in E2. rewrite rs_ring_set in E2. injection E2 as E2 _.
  change (lu_cq (ring (rs_ring s2)) = lu_cq (lu_cqe_seen (ring (rs_ring s)))) in E2.
  rewrite lu_seen_tail, Eq in E2. cbn [tail] in E2.
  assert (ring (retire_fast e (rs_ring s2)) = ring (rs_ring s2)) as Hr.
  { unfold retire_fast. destruct (_ <? 0); [done|].
    by destruct (retire_one_view e (rs_ring s2)) as (_ & _ & _ & H). }
  destruct (IH (n + 1) (upd_ring (retire_fast e) s2)) as (s' & E & Hs').
  { unfold upd_ring. rewrite rs_ring_set, Hr, E2. cbn in Hf. lia. }
  exists s'. split; [|done]. rewrite E. unfold upd_ring. rewrite rs_ring_set, Hr, E2.
  unfold zlen. cbn [length]. do 2 f_equal. lia.
Qed.
End Exact.
