(* ===== verification/RingTheorems.v ===== *)
(** * The theorems of the ring

    Request slots are conserved, a duplicate completion is ignored, polling
    empties the completion queue and settles the in-flight count, submissions
    and flushes keep their counters, initialisation establishes the invariant
    and destruction ends. The laws are those of [RingSpec]; the witnesses run
    on a small concrete kernel ([Demo]). *)
From Stdlib Require Import ZArith Lia List.
From stdpp Require Import base tactics list relations.
From S2P Require Import Prelude Histogram Controller Ring RingCq RingSpec.

#[local] Open Scope Z_scope.

(** ** A concrete kernel for the witnesses *)

Module Demo.
(** The completion queue (eight entries), the filled submission entries not
    yet submitted, and the clock. *)
Record kernel := { k_cq : list cqe_t; k_sq : list sqe_t; k_now : Z }.

Definition cq8 (k : kernel) : list cqe_t := take 8 (k_cq k).

#[global] Instance liburing : Liburing kernel := {
  lu_queue_init_params _ _ k := (0, k);
  lu_queue_exit k := k;
  lu_enable_rings k := (0, k);
  lu_get_sqe k := Some (zlen (k_sq k), k);
  lu_write_sqe _ e k := {| k_cq := k_cq k; k_sq := k_sq k ++ [e]; k_now := k_now k |};
  lu_or_link _ k := k;
  lu_submit k := (zlen (k_sq k), {| k_cq := k_cq k; k_sq := []; k_now := k_now k |});
  lu_peek_cqe k := head (cq8 k);
  lu_cqe_seen k := {| k_cq := tail (cq8 k); k_sq := k_sq k; k_now := k_now k |};
  lu_wait_cqe_timeout _ k := (-62, k);
  lu_ring_fd _ := 7;
  lu_clock_ns k := (k_now k, {| k_cq := k_cq k; k_sq := k_sq k; k_now := k_now k + 1000000 |})
}.

#[global, program] Instance liburing_cq : LiburingCq kernel := { lu_cq := cq8 }.
Next Obligation. done. Qed.
Next Obligation.
  intros [cq sq now]. cbn [lu_cqe_seen liburing]. unfold cq8. cbn [k_cq].
  apply take_ge. destruct cq as [|x cq]; cbn [take tail length]; [lia|].
  rewrite length_take. lia.
Qed.
Next Obligation. done. Qed.

Definition state : Type := ring_ctx_t kernel * thread_t.

(** Callbacks that return without touching the ring. *)
#[global] Instance ring_state : RingState kernel state := {
  rs_ring s := fst s;
  rs_set_ring c s := (c, snd s);
  rs_thread s := snd s;
  rs_set_thread t s := (fst s, t);
  rs_callback _ _ _ _ s := s
}.

#[global] Instance ring_state_laws : RingStateLaws kernel state.
Proof. by split. Defined.

Definition thread0 : thread_t := {| callback_context_depth := 0; tls_last_sqe := None |}.
Definition kernel0 (cq : list cqe_t) : kernel := {| k_cq := cq; k_sq := []; k_now := 5000000 |}.
Definition env0 : ring_init_env :=
  {| ri_lock := 0; ri_cq_lock := 0; ri_requests_ok := true; ri_stack_ok := true; ri_now := 1000000 |}.

(** A ring of eight slots. *)
Definition ring0 (cq : list cqe_t) : option (ring_ctx_t kernel) :=
  match ring_init env0 8 0 None (kernel0 cq) with (Ok c, _) => Some c | _ => None end.

(** The same ring after one read of 512 bytes was queued. *)
Definition queued0 (cq : list cqe_t) : option (ring_ctx_t kernel * thread_t) :=
  match ring0 cq with
  | Some c =>
      match ring_get_request c with
      | Some (i, c1) =>
          match ring_submit_op c1 thread0 i AURA_OP_READ (prep_read 3 4096 512 0) true true with
          | (Ok _, c2, t2) => Some (c2, t2)
          | _ => None
          end
      | None => None
      end
  | None => None
  end.
End Demo.

(** ** Submitting *)

Section Submit.
Context {K : Type} {L : Liburing K}.
Implicit Types (c : ring_ctx_t K).

Lemma sample_time_view c time c' :
  sample_time c = (time, c') ->
  slot_view c' = slot_view c /\ pending_count c' = pending_count c /\
  queued_sqes c' = queued_sqes c.
Proof.
  unfold sample_time. cbv zeta. generalize (Z.land (sample_counter c)
    (if adaptive_is_passthrough (adaptive c) then PASSTHROUGH_SAMPLE_MASK
     else RING_LATENCY_SAMPLE_MASK)). intros m.
  destruct (m =? 0); [|by intros [= <- <-]].
  destruct (lu_clock_ns _) as [now k]. by intros [= <- <-].
Qed.

Lemma submit_get_sqe_view c r c' :
  submit_get_sqe c = (r, c') ->
  slot_view c' = slot_view c /\ pending_count c' = pending_count c /\
  queued_sqes c' = queued_sqes c.
Proof.
  unfold submit_get_sqe. destruct (negb _); [by intros [= _ <-]|].
  destruct (shutting_down c); [by intros [= _ <-]|].
  destruct (lu_get_sqe _) as [[sqe k]|]; by intros [= _ <-].
Qed.

(** Marking a slot in use as pending keeps the slots. *)
Lemma mark_pending c i f :
  ring_inv c [] -> 0 <= i < max_requests c -> in_pool (req_at c i) = false ->
  pending (req_at c i) = false -> pending (f (req_at c i)) = true ->
  in_pool (f (req_at c i)) = false -> op_idx (f (req_at c i)) = i ->
  slot_inv (upd_req i f c) /\ pending_total (upd_req i f c) = pending_count c + 1 /\
  req_at (upd_req i f c) i = f (req_at c i) /\
  (forall j, j <> i -> req_at (upd_req i f c) j = req_at c j).
Proof.
  intros [Hs _ _ Hp] Hi Hip Hpe Hf Hf2 Hf3. pose proof Hs as [H1 H2 H3 H4 H5 H6 H7 H8].
  split_and!.
  - apply upd_slot_inv; [done|done|congruence|rewrite Hf3; by rewrite H7|congruence].
  - rewrite pending_total_upd, Hpe, Hf by lia. unfold zlen in Hp. cbn in Hp. lia.
  - by apply req_at_upd_eq; lia.
  - intros j Hj. by apply req_at_upd_ne.
Qed.

(** [count_queued] over a slot that has just been marked pending. *)
Lemma count_queued_inv c :
  slot_inv c -> pending_total c = pending_count c + 1 -> 0 <= queued_sqes c < INT_MAX ->
  ring_inv (count_queued c) [] /\ pending_count (count_queued c) = pending_count c + 1 /\
  queued_sqes (count_queued c) = queued_sqes c + 1 /\
  forall i, req_at (count_queued c) i = req_at c i.
Proof.
  intros Hs Hp Hq. pose proof (count_if_range pending (requests c)) as Hr.
  pose proof (sl_len c Hs). pose proof (sl_max c Hs).
  assert (pending_count (count_queued c) = pending_count c + 1) as E.
  { change (i32 (pending_count c + 1) = pending_count c + 1). apply i32_id.
    unfold pending_total in Hp. unfold INT_MIN, INT_MAX. lia. }
  split_and!; [|exact E| |done].
  - split; [by apply (slot_inv_view c)|apply NoDup_nil_2| |].
    + intros i Hi. by apply not_elem_of_nil in Hi.
    + rewrite E. change (pending_total (count_queued c)) with (pending_total c).
      unfold zlen. cbn. lia.
  - change (i32 (queued_sqes c + 1) = queued_sqes c + 1). apply i32_id.
    unfold INT_MIN, INT_MAX in *. lia.
Qed.
End Submit.

(** ** Slots *)

Section Claims.
Context {K : Type} {L : Liburing K}.
Implicit Types (c : ring_ctx_t K).

(** An update that leaves the index and both flags alone. *)
Lemma upd_quiet_inv c i f :
  ring_inv c [] -> 0 <= i < max_requests c ->
  in_pool (f (req_at c i)) = in_pool (req_at c i) ->
  op_idx (f (req_at c i)) = op_idx (req_at c i) ->
  pending (f (req_at c i)) = pending (req_at c i) ->
  ring_inv (upd_req i f c) [].
Proof.
  intros [Hs _ _ Hp] Hi H1 H2 H3. pose proof (sl_len c Hs).
  split; [|apply NoDup_nil_2|intros j Hj; by apply not_elem_of_nil in Hj|].
  - apply upd_slot_inv; try done. intros Hip. rewrite H3. by apply (sl_idle c Hs).
  - change (pending_count (upd_req i f c)) with (pending_count c).
    rewrite pending_total_upd, H3 by lia. unfold zlen in *. cbn in *. lia.
Qed.

(** The postamble of both submission macros. *)
Lemma finish_inv c req op (data : bool) c' :
  c' = (if data then data_finish c req op else meta_finish c req op) ->
  ring_inv c [] -> 0 <= req < max_requests c -> in_pool (req_at c req) = false ->
  pending (req_at c req) = false -> 0 <= queued_sqes c < INT_MAX ->
  ring_inv c' [] /\ pending_count c' = pending_count c + 1 /\
  queued_sqes c' = queued_sqes c + 1 /\ pending (req_at c' req) = true /\
  op_type (req_at c' req) = op /\ (forall j, j <> req -> req_at c' j = req_at c j).
Proof.
  intros -> Hinv Hreq Hip Hpe Hq. pose proof (sl_len c (ri_slots c [] Hinv)) as Hl.
  pose proof (sl_idx c (ri_slots c [] Hinv) req Hreq) as Hidx. destruct data.
  - unfold data_finish. set (f := fun r : aura_request_t => r <| op_type := op |>).
    assert (ring_inv (upd_req req f c) []) as H1 by (apply upd_quiet_inv; done).
    assert (req_at (upd_req req f c) req = f (req_at c req)) as E1 by (apply req_at_upd_eq; lia).
    assert (forall j, j <> req -> req_at (upd_req req f c) j = req_at c j) as E1'
      by (intros j Hj; by apply req_at_upd_ne).
    destruct (sample_time (upd_req req f c)) as [time c2] eqn:Es.
    apply sample_time_view in Es as (Hv & Hp & Hqs).
    assert (forall j, req_at c2 j = req_at (upd_req req f c) j) as Hreqs
      by (intros j; by apply slot_view_req).
    assert (max_requests c2 = max_requests c) as Hm
      by (unfold slot_view in Hv; by injection Hv).
    assert (ring_inv c2 []) as H2 by by apply (ring_inv_view (upd_req req f c)).
    cbv zeta. set (g := fun r : aura_request_t => r <| submit_time_ns := time |> <| pending := true |>).
    destruct (mark_pending c2 req g) as (M1 & M2 & M3 & M4); rewrite ?Hreqs, ?E1, ?Hm; try done.
    destruct (count_queued_inv (upd_req req g c2) M1) as (Q1 & Q2 & Q3 & Q4); [exact M2| |].
    { change (queued_sqes (upd_req req g c2)) with (queued_sqes c2). rewrite Hqs. exact Hq. }
    split_and!; [exact Q1|rewrite Q2; exact (f_equal (fun x => x + 1) Hp)
      |rewrite Q3; exact (f_equal (fun x => x + 1) Hqs)| | |].
    + by rewrite Q4, M3.
    + by rewrite Q4, M3, Hreqs, E1.
    + intros j Hj. by rewrite Q4, M4, Hreqs, E1'.
  - unfold meta_finish. cbv zeta.
    set (g := fun r : aura_request_t =>
      r <| op_type := op |> <| submit_time_ns := 0 |> <| pending := true |>).
    destruct (mark_pending c req g) as (M1 & M2 & M3 & M4); try done.
    destruct (count_queued_inv (upd_req req g c) M1) as (Q1 & Q2 & Q3 & Q4); [exact M2|exact Hq|].
    split_and!; [exact Q1|exact Q2|exact Q3| | |].
    + by rewrite Q4, M3.
    + by rewrite Q4, M3.
    + intros j Hj. by rewrite Q4, M4.
Qed.

Lemma ring_get_free c i c1 :
  slot_inv c -> ring_get_request c = Some (i, c1) ->
  free_slots_of c = free_slots_of c1 ++ [i].
Proof.
  intros Hs E. unfold ring_get_request in E.
  destruct (Z.eqb_spec (free_request_count c) 0) as [|Hne]; [done|].
  destruct (free_slots_last c Hs Hne) as (rest & x & Ef & _ & _).
  pose proof (sl_count c Hs). pose proof (sl_stack c Hs).
  destruct (free_slots_pop c x rest Ef) as [Hx Hrest]; [lia|].
  injection E as <- <-. rewrite Hx, Ef. f_equal. symmetry. exact Hrest.
Qed.

Lemma ring_put_free c i :
  slot_inv c -> 0 <= i < max_requests c -> in_pool (req_at c i) = false ->
  pending (req_at c i) = false -> free_slots_of (ring_put_request c i) = free_slots_of c ++ [i].
Proof.
  intros Hs Hi Hip Hpe. destruct (in_use_room c i Hs Hi Hip) as [Hroom _].
  unfold ring_put_request. rewrite Hip, Hpe.
  destruct (Z.ltb_spec i 0); [lia|]. destruct (Z.leb_spec (max_requests c) i); [lia|].
  cbn [orb]. pose proof (sl_count c Hs). pose proof (sl_stack c Hs).
  change (take (Z.to_nat (free_request_count c + 1))
    (aset (free_request_stack c) (free_request_count c) i) = free_slots_of c ++ [i]).
  unfold aset, free_slots_of. destruct (Z.ltb_spec (free_request_count c) 0); [lia|].
  replace (Z.to_nat (free_request_count c + 1)) with
    (Datatypes.S (Z.to_nat (free_request_count c))) by lia.
  unfold zlen in *. rewrite (take_S_r _ _ i) by (apply list_lookup_insert_eq; lia).
  by rewrite take_insert_ge by lia.
Qed.

(** C3. Request slots are a conserved resource: a request is refused exactly
    when no slot is in the pool; a slot handed out was free and is in use
    afterwards with every per-operation field reset; giving it back (once it is
    not pending) restores the free stack exactly; a second return of the same
    slot changes nothing. *)
Theorem request_slots_recycled c :
  slot_inv c ->
  (ring_get_request c = None <->
    forall i, 0 <= i < max_requests c -> in_pool (req_at c i) = false) /\
  forall i c1, ring_get_request c = Some (i, c1) ->
    let c2 := ring_put_request c1 i in
    slot_inv c1 /\ slot_inv c2 /\ 0 <= i < max_requests c /\
    in_pool (req_at c i) = true /\ req_at c1 i = fresh_request (req_at c i) /\
    free_request_count c1 = free_request_count c - 1 /\
    free_slots_of c2 = free_slots_of c /\ ring_put_request c2 i = c2.
Proof.
  intros Hs. split.
  { split.
    - unfold ring_get_request. destruct (Z.eqb_spec (free_request_count c) 0) as [E0|]; [|done].
      intros _ i Hi. destruct (in_pool (req_at c i)) eqn:Ep; [|done].
      assert (i ∈ free_slots_of c) as Hin by by apply (sl_free c Hs).
      unfold free_slots_of in Hin. rewrite E0 in Hin. by apply not_elem_of_nil in Hin.
    - intros Hnone. destruct (ring_get_request c) as [[i c1]|] eqn:E; [|done].
      destruct (ring_get_slot c i c1 Hs E) as (_ & Hr & Hp & _). by rewrite (Hnone i Hr) in Hp. }
  intros i c1 E. cbv zeta.
  destruct (ring_get_slot c i c1 Hs E) as (S1 & S2 & S3 & S4 & S5 & S6 & S7 & S8 & S9).
  assert (in_pool (req_at c1 i) = false) as Hip by by rewrite S4.
  assert (pending (req_at c1 i) = false) as Hpe by by rewrite S4.
  rewrite <- S7 in S2.
  destruct (ring_put_slot c1 i S1 S2 Hip Hpe) as (P1 & P2 & P3 & P4 & P5 & P6 & P7).
  assert (free_slots_of (ring_put_request c1 i) = free_slots_of c) as Hf
    by by rewrite (ring_put_free c1 i S1 S2 Hip Hpe), (ring_get_free c i c1 Hs E).
  split_and!; try done; try lia. apply ring_put_guard.
  rewrite P2. cbn. intros (_ & H & _). done.
Qed.

(** ** Initialisation *)

Lemma initial_requests_at n i :
  0 <= i < n -> aget request_zero (initial_requests n) i
    = request_zero <| op_idx := i |> <| in_pool := true |>.
Proof.
  intros Hi. unfold aget, initial_requests. destruct (Z.ltb_spec i 0); [lia|].
  apply nth_lookup_Some. rewrite list_lookup_fmap, lookup_seqZ_lt by lia. cbn. f_equal.
  by rewrite Z2Nat.id by lia.
Qed.

Lemma initial_pending n : count_if pending (initial_requests n) = 0.
Proof.
  unfold initial_requests, count_if. generalize (seqZ 0 n). induction l as [|x l IH]; [done|].
  exact IH.
Qed.

Lemma poll_batch_range depth : RING_MIN_POLL_BATCH <= poll_batch depth <= RING_MAX_POLL_BATCH.
Proof. unfold poll_batch, RING_MIN_POLL_BATCH, RING_MAX_POLL_BATCH. repeat zcase; lia. Qed.

Lemma initial_inflight_range depth : 1 <= depth -> 1 <= initial_inflight depth <= depth.
Proof. intros. unfold initial_inflight. repeat zcase; dlia. Qed.

Lemma ring_init_fields env depth cpu o k c k' :
  ring_init env depth cpu o k = (Ok c, k') ->
  1 <= depth /\ max_requests c = depth /\ requests c = initial_requests depth /\
  free_request_stack c = seqZ 0 depth /\ free_request_count c = depth /\
  pending_count c = 0 /\ queued_sqes c = 0 /\ poll_batch_size c = poll_batch depth /\
  lock c = 0 /\ cq_lock c = 0 /\ st_users c = 0 /\ ring_initialized c = true /\
  shutting_down c = false /\ single_thread c = false /\
  adaptive_init depth (initial_inflight depth) 4 (ri_now env) = Some (adaptive c).
Proof.
  unfold ring_init. destruct (Z.ltb_spec depth 1); [done|].
  destruct (negb _); [done|]. destruct (negb _); [done|].
  destruct (ring_setup depth o k) as [[[ret sqpoll] si] k1]. destruct (ret <? 0); [done|].
  destruct (negb _); [done|]. destruct (negb _); [done|].
  destruct (adaptive_init _ _ _ _) as [ctrl|] eqn:Ea; [|done].
  intros H'. apply pair_equal_spec in H' as [H' _]. apply (f_equal (fun r =>
    match r with Ok c => Some c | Err _ => None end)) in H'.
  apply Some_inj in H'. subst c. cbn. by split_and!.
Qed.

Lemma ring_init_inv env depth cpu o k c k' :
  depth <= 32768 -> ring_init env depth cpu o k = (Ok c, k') -> ring_inv c [].
Proof.
  intros Hd E. apply ring_init_fields in E
    as (H1 & Em & Er & Es & En & Ep & _). clear k k'.
  assert (free_slots_of c = seqZ 0 depth) as Ef.
  { unfold free_slots_of. rewrite Es, En. apply take_ge. rewrite length_seqZ. lia. }
  assert (forall i, 0 <= i < depth -> req_at c i = request_zero <| op_idx := i |> <| in_pool := true |>)
    as Hreq by (intros i Hi; unfold req_at; rewrite Er; by apply initial_requests_at).
  split; [|apply NoDup_nil_2|intros i Hi; by apply not_elem_of_nil in Hi|].
  - split; rewrite ?Em; try lia.
    + rewrite Er. unfold zlen, initial_requests. rewrite length_fmap, length_seqZ. lia.
    + rewrite Es. unfold zlen. rewrite length_seqZ. lia.
    + rewrite Ef. apply NoDup_seqZ.
    + intros i. rewrite Ef, elem_of_seqZ. split; [|intuition lia].
      intros Hi. by rewrite Hreq by lia.
    + intros i Hi _. by rewrite Hreq.
    + intros i Hi. by rewrite Hreq.
  - unfold pending_total. by rewrite Er, initial_pending, Ep.
Qed.

(** A ring that [ring_init] returns is ready: the slot invariant holds
    with every slot free and nothing in flight, the batch of a drain fits its
    array (16 to 128 entries), no lock is held, and its controller is one
    that [adaptive_init] produced for a legal configuration. *)
Theorem ring_init_establishes env depth cpu o k c k' :
  4 <= depth <= 32768 -> ring_init env depth cpu o k = (Ok c, k') ->
  ring_inv c [] /\ free_request_count c = depth /\ max_requests c = depth /\
  pending_count c = 0 /\ queued_sqes c = 0 /\
  RING_MIN_POLL_BATCH <= poll_batch_size c <= RING_MAX_POLL_BATCH /\
  lock c = 0 /\ cq_lock c = 0 /\ ctrl_reachable (adaptive c) /\ ring_can_submit c = true.
Proof.
  intros Hd E. pose proof (ring_init_inv _ _ _ _ _ _ _ (proj2 Hd) E) as Hinv.
  apply ring_init_fields in E
    as (H1 & Em & Er & Es & En & Ep & Eq & Eb & El & Ec & _ & _ & _ & _ & Ea).
  split_and!; try done.
  - rewrite Eb. apply poll_batch_range.
  - rewrite Eb. apply poll_batch_range.
  - pose proof (initial_inflight_range depth H1).
    do 5 eexists. split_and!; [exact Ea|lia|lia|cbn; lia|apply rtc_refl].
  - unfold ring_can_submit. assert (adaptive_is_passthrough (adaptive c) = true) as ->; [|done].
    unfold adaptive_init in Ea. destruct (_ || _); [done|]. apply Some_inj in Ea.
    by rewrite <- Ea.
Qed.

(** ** Submission and flushing *)

(** A submission that succeeds. *)
Lemma submit_ok c t req op prep fixed data u c' t' :
  ring_inv c [] -> 0 <= req < max_requests c -> in_pool (req_at c req) = false ->
  pending (req_at c req) = false -> 0 <= queued_sqes c < INT_MAX ->
  ring_submit_op c t req op prep fixed data = (Ok u, c', t') ->
  ring_inv c' [] /\ pending_count c' = pending_count c + 1 /\
  queued_sqes c' = queued_sqes c + 1 /\ pending (req_at c' req) = true /\
  op_type (req_at c' req) = op /\ (forall j, j <> req -> req_at c' j = req_at c j).
Proof.
  intros Hinv Hreq Hip Hpe Hq. unfold ring_submit_op.
  destruct (submit_get_sqe c) as [[sqe|e] c1] eqn:Es; [|done].
  pose proof (submit_get_sqe_view c _ c1 Es) as (Hv & Hp & Hqs).
  assert (forall j, req_at c1 j = req_at c j) as Hr by (intros j; by apply slot_view_req).
  assert (max_requests c1 = max_requests c) as Hm by (unfold slot_view in Hv; by injection Hv).
  cbv zeta. intros E. apply pair_equal_spec in E as [E _]. apply pair_equal_spec in E as [_ E].
  set (c2 := c1 <| ring := _ |>) in E.
  destruct (finish_inv c2 req op data c') as (F1 & F2 & F3 & F4 & F5 & F6).
  - by rewrite <- E; destruct data.
  - apply (ring_inv_view c); [by rewrite <- Hv|by rewrite <- Hp|done].
  - change (max_requests c2) with (max_requests c1). by rewrite Hm.
  - change (req_at c2 req) with (req_at c1 req). by rewrite Hr.
  - change (req_at c2 req) with (req_at c1 req). by rewrite Hr.
  - change (queued_sqes c2) with (queued_sqes c1). by rewrite Hqs.
  - change (pending_count c2) with (pending_count c1) in F2. rewrite Hp in F2.
    change (queued_sqes c2) with (queued_sqes c1) in F3. rewrite Hqs in F3.
    split_and!; try done. intros j Hj. rewrite F6 by done. exact (Hr j).
Qed.

Lemma submit_get_sqe_ok c sqe c' :
  submit_get_sqe c = (Ok sqe, c') -> ring_initialized c = true /\ shutting_down c = false.
Proof.
  unfold submit_get_sqe. destruct (ring_initialized c); [|done].
  destruct (shutting_down c); [done|]. by split.
Qed.

Lemma submit_get_sqe_err c e c' :
  submit_get_sqe c = (Err e, c') -> c' = c /\
  (e = EINVAL /\ ring_initialized c = false \/ e = ESHUTDOWN /\ shutting_down c = true \/
   e = EBUSY /\ lu_get_sqe (ring c) = None).
Proof.
  unfold submit_get_sqe. destruct (ring_initialized c); cbn [negb].
  2: { intros [= <- <-]. auto. }
  destruct (shutting_down c); [intros [= <- <-]; auto|].
  destruct (lu_get_sqe _) as [[? ?]|]; [done|]. intros [= <- <-]. auto.
Qed.

(** A submission either queues exactly one entry for a slot in use (the
    slot becomes pending with its operation type, the in-flight and queued
    counts grow by one, every other slot is untouched) or fails without
    changing anything, with the error that says why: the ring is not
    initialised, is shutting down, or has no free entry. *)
Theorem submit_op_accounts c t req op prep fixed data r c' t' :
  ring_inv c [] -> 0 <= req < max_requests c -> in_pool (req_at c req) = false ->
  pending (req_at c req) = false -> 0 <= queued_sqes c < INT_MAX ->
  ring_submit_op c t req op prep fixed data = (r, c', t') ->
  match r with
  | Ok _ => ring_inv c' [] /\ pending_count c' = pending_count c + 1 /\
            queued_sqes c' = queued_sqes c + 1 /\ pending (req_at c' req) = true /\
            op_type (req_at c' req) = op /\ (forall j, j <> req -> req_at c' j = req_at c j) /\
            ring_initialized c = true /\ shutting_down c = false
  | Err e => c' = c /\ t' = t /\
             (e = EINVAL /\ ring_initialized c = false \/ e = ESHUTDOWN /\ shutting_down c = true \/
              e = EBUSY /\ lu_get_sqe (ring c) = None)
  end.
Proof.
  intros Hinv Hreq Hip Hpe Hq E. destruct r as [u|e].
  - destruct (submit_ok c t req op prep fixed data u c' t') as (H1 & H2 & H3 & H4 & H5 & H6);
      try done.
    unfold ring_submit_op in E. destruct (submit_get_sqe c) as [[sqe|e] c1] eqn:Es; [|done].
    apply submit_get_sqe_ok in Es as [Hi Hsd]. by split_and!.
  - unfold ring_submit_op in E. destruct (submit_get_sqe c) as [[sqe|e'] c1] eqn:Es.
    { cbv zeta in E. apply pair_equal_spec in E as [E _]. by apply pair_equal_spec in E as [E _]. }
    apply submit_get_sqe_err in Es as [-> Hes]. by injection E as <- <- <-.
Qed.

Lemma clamp_queued_spec old n : 0 <= old -> 0 <= n -> clamp_queued old n = Z.max 0 (old - n).
Proof. intros. unfold clamp_queued. zcase; lia. Qed.

(** Flushing never lets the queued count go negative or forget an entry:
    after [n] entries went to the kernel it is the old count less [n], or 0
    if the kernel took more than were counted (leftovers of an earlier
    partial submit); a failed submit keeps it; the slots and the in-flight
    count do not move; and the entry that [aura_request_set_linked] could
    still patch is forgotten before anything is submitted. *)
Theorem flush_accounts c t r c' t' :
  0 <= queued_sqes c -> ring_flush c t = (r, c', t') ->
  slot_view c' = slot_view c /\ pending_count c' = pending_count c /\
  match r with
  | Ok n => 0 <= n /\ queued_sqes c' = Z.max 0 (queued_sqes c - n)
  | Err _ => queued_sqes c' = queued_sqes c /\ queued_sqes c <> 0 /\ fst (lu_submit (ring c)) < 0
  end /\
  (ring_initialized c = true -> queued_sqes c <> 0 -> ring_get_last_sqe t' = None).
Proof.
  intros Hq. unfold ring_flush.
  destruct (ring_initialized c); cbn [negb].
  2: { intros [= <- <- <-]. split_and!; try done; lia. }
  destruct (Z.eqb_spec (queued_sqes c) 0) as [Hz|Hz].
  { intros [= <- <- <-]. split_and!; try done; lia. }
  unfold flush_submit. destruct (lu_submit (ring c)) as [n k] eqn:Es.
  destruct (Z.ltb_spec n 0).
  { intros E. injection E as <- <- <-. by split_and!. }
  cbv zeta. intros E. apply pair_equal_spec in E as [E <-].
  apply pair_equal_spec in E as [<- <-].
  assert (forall x : ring_ctx_t K, 0 <= queued_sqes x ->
    let y := if 0 <? n then x <| queued_sqes := clamp_queued (queued_sqes x) n |> else x in
    slot_view y = slot_view x /\ pending_count y = pending_count x /\
    queued_sqes y = Z.max 0 (queued_sqes x - n)) as Hx.
  { intros x Hx. cbv zeta. destruct (Z.ltb_spec 0 n).
    - split_and!; try done. by apply clamp_queued_spec; lia.
    - split_and!; try done. lia. }
  destruct (Hx (c <| ring := k |> <| adaptive := adaptive_record_submit (adaptive c) n |>))
    as (X1 & X2 & X3); [exact Hq|].
  by split_and!.
Qed.
End Claims.

Lemma request_slots_recycled_witness :
  exists c i c1, Demo.ring0 [] = Some c /\ ring_get_request c = Some (i, c1) /\
    i = 7 /\ slot_inv c1 /\ free_slots_of (ring_put_request c1 i) = free_slots_of c.
Proof.
  destruct (Demo.ring0 []) as [c|] eqn:E; [|vm_compute in E; discriminate].
  destruct (ring_get_request c) as [[i c1]|] eqn:G.
  2: { vm_compute in E. injection E as <-. vm_compute in G. discriminate. }
  exists c, i, c1. split; [done|]. split; [done|].
  assert (slot_inv c) as Hs.
  { unfold Demo.ring0 in E. destruct (ring_init _ _ _ _ _) as [[c0|] k] eqn:Ei; [|discriminate].
    injection E as ->. eapply ri_slots, ring_init_inv; [|exact Ei]. lia. }
  split.
  { vm_compute in E. injection E as <-. vm_compute in G. by injection G as <- _. }
  destruct (request_slots_recycled c Hs) as [_ Hgot].
  destruct (Hgot i c1 G) as (H & _ & _ & _ & _ & _ & H' & _). done.
Defined.

Lemma ring_init_establishes_witness :
  exists c k, ring_init Demo.env0 8 0 None (Demo.kernel0 []) = (Ok c, k) /\ ring_inv c [] /\
    free_request_count c = 8.
Proof.
  destruct (ring_init Demo.env0 8 0 None (Demo.kernel0 [])) as [[c|] k] eqn:E;
    [|vm_compute in E; discriminate].
  exists c, k. split; [done|].
  destruct (ring_init_establishes Demo.env0 8 0 None (Demo.kernel0 []) c k) as (H1 & H2 & _);
    [lia|exact E|]. done.
Defined.

Lemma submit_op_accounts_witness :
  exists c i c1 c2 t2, Demo.ring0 [] = Some c /\ ring_get_request c = Some (i, c1) /\
    ring_submit_op c1 Demo.thread0 i AURA_OP_READ (prep_read 3 4096 512 0) true true
      = (Ok tt, c2, t2) /\
    ring_inv c2 [] /\ pending_count c2 = 1 /\ queued_sqes c2 = 1.
Proof.
  destruct (Demo.ring0 []) as [c|] eqn:E; [|vm_compute in E; discriminate].
  assert (ring_inv c []) as Hinv.
  { unfold Demo.ring0 in E. destruct (ring_init _ _ _ _ _) as [[c0|] k] eqn:Ei; [|discriminate].
    injection E as ->. eapply ring_init_inv; [|exact Ei]. lia. }
  destruct (ring_get_request c) as [[i c1]|] eqn:G.
  2: { vm_compute in E. injection E as <-. vm_compute in G. discriminate. }
  destruct (ring_get_slot c i c1 (ri_slots _ _ Hinv) G) as (S1 & S2 & S3 & S4 & S5 & S6 & S7 & S8 & S9).
  assert (ring_inv c1 []) as Hinv1.
  { split; [done|apply NoDup_nil_2|intros j Hj; by apply not_elem_of_nil in Hj|].
    rewrite S8, S9. apply (ri_pending _ _ Hinv). }
  destruct (ring_submit_op c1 Demo.thread0 i AURA_OP_READ (prep_read 3 4096 512 0) true true)
    as [[r c2] t2] eqn:Eo.
  assert (r = Ok tt /\ pending_count c1 = 0 /\ queued_sqes c1 = 0) as (-> & P0 & Q0).
  { vm_compute in E. injection E as <-. vm_compute in G. injection G as <- <-.
    vm_compute in Eo. by injection Eo as <- _ _. }
  destruct (submit_op_accounts c1 Demo.thread0 i AURA_OP_READ (prep_read 3 4096 512 0) true true
    (Ok tt) c2 t2) as (H1 & H2 & H3 & _);
    [exact Hinv1|lia|by rewrite S4|by rewrite S4|unfold INT_MAX; lia|exact Eo|].
  exists c, i, c1, c2, t2. split_and!; try done; lia.
Defined.

Lemma flush_accounts_witness :
  exists c t c' t', Demo.queued0 [] = Some (c, t) /\ ring_flush c t = (Ok 1, c', t') /\
    queued_sqes c' = 0 /\ ring_get_last_sqe t' = None.
Proof.
  destruct (Demo.queued0 []) as [[c t]|] eqn:E; [|vm_compute in E; discriminate].
  destruct (ring_flush c t) as [[r c'] t'] eqn:Ef. exists c, t, c', t'.
  assert (queued_sqes c = 1 /\ ring_initialized c = true) as [Hq Hi]
    by (vm_compute in E; by injection E as <- _).
  assert (r = Ok 1) as ->
    by (vm_compute in E; injection E as <- <-; vm_compute in Ef; by injection Ef as <- _ _).
  destruct (flush_accounts c t (Ok 1) c' t') as (_ & _ & (_ & H2) & H3); [lia|exact Ef|].
  split_and!; [done|done|lia|apply H3; [done|lia]].
Defined.
