(* ===== verification/RingPoll.v ===== *)
(** * Duplicate completions

    A request whose completion arrives twice is completed once; the example
    queue and client of the theorems about polls. *)
From Stdlib Require Import ZArith Lia List.
From stdpp Require Import base tactics list relations.
From S2P Require Import Prelude Histogram Controller Ring RingCq RingSpec RingTheorems.

#[local] Open Scope Z_scope.

Section Poll.
Context {K : Type} {L : Liburing K} {LC : LiburingCq K}.
Context {S : Type} {RS : RingState K S} {RL : RingStateLaws K S}.
Implicit Types (s : S) (c : ring_ctx_t K).

(** A second completion for a request whose first one was just processed
    is ignored: no callback, no counter, no slot changes, and its retirement
    entry is one the retirement skips. It stays ignored until the slot is
    retired and handed out again, whatever the first callback did. *)
Theorem duplicate_completion_ignored s R req res1 res2 e s1 :
  callback_ok (K := K) (S := S) -> ring_inv (rs_ring s) R ->
  pending (req_at (rs_ring s) req) = true ->
  process_completion (Some req) res1 s = (e, s1) ->
  re_op_idx e = req /\ ring_inv (rs_ring s1) (req :: R) /\
  exists e2, process_completion (Some req) res2 s1 = (e2, s1) /\
    retire_loop [e; e2] (rs_ring s1) 0 = retire_loop [e] (rs_ring s1) 0.
Proof.
  intros Hcb Hinv Hp E.
  destruct (complete_request_inv (rs_ring s) R req res1 Hinv Hp) as (_ & Hidx & Hpos).
  pose proof (process_completion_inv Hcb (Some req) res1 s R e s1 E Hinv) as H1.
  assert (re_op_idx e = req) as He.
  { unfold process_completion in E. rewrite Hp in E. cbn [negb] in E.
    apply pair_equal_spec in E as [<- _]. exact Hidx. }
  assert (due [e] = [req]) as Hd.
  { unfold due. cbn [fmap list_fmap]. rewrite He, filter_cons_True, filter_nil by lia. done. }
  rewrite Hd in H1. split; [done|]. split; [exact H1|].
  destruct (ri_due _ _ H1 req) as (_ & _ & Hnp); [by apply elem_of_cons; left|].
  eexists. split; [unfold process_completion; rewrite Hnp; reflexivity|].
  cbn [retire_loop re_op_idx]. rewrite He. destruct (Z.ltb_spec req 0); [lia|]. done.
Qed.
End Poll.

Lemma demo_callback_ok : callback_ok (K := Demo.kernel) (S := Demo.state).
Proof. intros cb req res data s R H. exact H. Qed.

Lemma demo_callback_quiet : callback_quiet (K := Demo.kernel) (S := Demo.state).
Proof. by intros cb req res data s. Qed.

(** A queue with the completion of slot 7, the same one again, and one that
    carries no request. *)
Definition demo_cq : list cqe_t :=
  [{| cqe_data := Some 7; cqe_res := 512 |}; {| cqe_data := Some 7; cqe_res := 512 |};
   {| cqe_data := None; cqe_res := 0 |}].

Lemma demo_queued_inv cq c t : Demo.queued0 cq = Some (c, t) -> ring_inv c [].
Proof.
  unfold Demo.queued0. destruct (Demo.ring0 cq) as [c0|] eqn:E; [|done].
  assert (ring_inv c0 [] /\ queued_sqes c0 = 0) as [Hinv Hq0].
  { unfold Demo.ring0 in E. destruct (ring_init _ _ _ _ _) as [[c1|] k] eqn:Ei; [|discriminate].
    apply Some_inj in E. subst c1. split; [eapply ring_init_inv; [|exact Ei]; lia|].
    by apply ring_init_fields in Ei as (_ & _ & _ & _ & _ & _ & H & _). }
  destruct (ring_get_request c0) as [[i c1]|] eqn:G; [|done].
  destruct (ring_get_slot c0 i c1 (ri_slots _ _ Hinv) G) as (S1 & S2 & S3 & S4 & S5 & S6 & S7 & S8 & S9).
  assert (queued_sqes c1 = 0) as Hq1.
  { unfold ring_get_request in G. destruct (_ =? 0); [done|].
    apply Some_inj, pair_equal_spec in G as [_ <-]. exact Hq0. }
  destruct (ring_submit_op _ _ _ _ _ _ _) as [[[|] c2] t2] eqn:Eo; [|done].
  intros H. apply Some_inj, pair_equal_spec in H as [<- _].
  apply submit_ok in Eo as [H _]; rewrite ?S4, ?S7, ?Hq1; try done; try (unfold INT_MAX; lia).
  split; [done|apply NoDup_nil_2|intros j Hj; by apply not_elem_of_nil in Hj|].
  rewrite S8, S9. apply (ri_pending _ _ Hinv).
Qed.

Lemma duplicate_completion_ignored_witness :
  exists c t e s1, Demo.queued0 demo_cq = Some (c, t) /\
    process_completion (S := Demo.state) (Some 7) 512 (c, t) = (e, s1) /\ re_op_idx e = 7 /\
    exists e2, process_completion (Some 7) 512 s1 = (e2, s1).
Proof.
  destruct (Demo.queued0 demo_cq) as [[c t]|] eqn:E; [|vm_compute in E; discriminate].
  destruct (process_completion (S := Demo.state) (Some 7) 512 (c, t)) as [e s1] eqn:E1.
  exists c, t, e, s1. split; [done|]. split; [exact E1|].
  destruct (duplicate_completion_ignored (S := Demo.state) (c, t) [] 7 512 512 e s1)
    as (H1 & _ & e2 & H2 & _).
  - exact demo_callback_ok.
  - exact (demo_queued_inv demo_cq c t E).
  - vm_compute in E. by injection E as <- _.
  - exact E1.
  - split; [exact H1|]. by exists e2.
Defined.
