(* ===== verification/RingDeliver.v ===== *)
(** * Which callbacks a poll runs, and in which order

    The calls a poll makes are a function of the completion queue and of the
    requests as they are when it starts ([calls]): each pending request's
    first completion, in queue order, with the request's callback and user
    data. *)
From Stdlib Require Import ZArith Lia List.
From stdpp Require Import base tactics list.
From S2P Require Import Prelude Histogram Controller Ring RingCq RingSpec RingTheorems.

#[local] Open Scope Z_scope.

(** A callback invocation: the function, the request, the result, the user
    data. *)
Record call_t := { call_fn : Z; call_req : Z; call_res : Z; call_data : Z }.

Section Deliver.
Context {K : Type} {L : Liburing K} {LC : LiburingCq K}.
Context {S : Type} {RS : RingState K S} {RL : RingStateLaws K S}.
Implicit Types (s : S) (c : ring_ctx_t K).

(** The calls for a queue, given the requests [seen] so far. *)
Fixpoint calls (seen : list Z) c (cq : list cqe_t) : list call_t :=
  match cq with
  | [] => []
  | e :: cq =>
      match cqe_data e with
      | None => calls seen c cq
      | Some r =>
          let q := req_at c r in
          (if bool_decide (r ∈ seen) || negb (pending q) || (callback q =? 0) then []
           else [{| call_fn := callback q; call_req := r; call_res := cqe_res e;
                    call_data := user_data q |}])
          ++ calls (r :: seen) c cq
      end
  end.

(** The requests a queue mentions. *)
Definition mentioned (cq : list cqe_t) : list Z := omap cqe_data cq.

Lemma calls_seen seen seen' c cq :
  (forall r, r ∈ seen <-> r ∈ seen') -> calls seen c cq = calls seen' c cq.
Proof using.
  revert seen seen'. induction cq as [|e cq IH]; intros seen seen' H; [done|]. cbn [calls].
  destruct (cqe_data e) as [r|]; [|by apply IH]. cbv zeta.
  rewrite (bool_decide_ext (r ∈ seen) (r ∈ seen')) by apply H. f_equal. apply IH.
  intros r'. rewrite !elem_of_cons. by rewrite H.
Qed.

Lemma calls_app seen c p q :
  calls seen c (p ++ q) = calls seen c p ++ calls (mentioned p ++ seen) c q.
Proof using.
  revert seen. induction p as [|e p IH]; intros seen; [done|]. cbn [calls app].
  destruct (cqe_data e) as [r|] eqn:E.
  - assert (mentioned (e :: p) = r :: mentioned p) as -> by (unfold mentioned; cbn; by rewrite E).
    cbv zeta. rewrite IH, (assoc_L (++)). f_equal. apply calls_seen.
    intros r'. cbn [app]. rewrite elem_of_cons, !elem_of_app, elem_of_cons. tauto.
  - assert (mentioned (e :: p) = mentioned p) as -> by (unfold mentioned; cbn; by rewrite E).
    apply IH.
Qed.

(** ** What delivery reads of the requests *)

Definition cb_view c i : bool * Z * Z :=
  let r := req_at c i in (pending r, callback r, user_data r).

(** The requests of [c] are those of [c0] with the [seen] ones completed. *)
Definition delivered c0 (seen : list Z) c : Prop :=
  forall i, cb_view c i =
    (pending (req_at c0 i) && negb (bool_decide (i ∈ seen)), callback (req_at c0 i),
     user_data (req_at c0 i)).

Lemma cb_view_slot c c' i : slot_view c = slot_view c' -> cb_view c i = cb_view c' i.
Proof using. intros H. unfold cb_view. by rewrite (slot_view_req c c' i H). Qed.

Lemma req_at_upd c i j f :
  req_at (upd_req i f c) j = f (req_at c j) /\ i = j \/ req_at (upd_req i f c) j = req_at c j.
Proof using.
  destruct (decide (i = j)) as [<-|]; [|right; by apply req_at_upd_ne].
  destruct (decide (0 <= i < zlen (requests c))); [left; by rewrite req_at_upd_eq|]. right.
  unfold upd_req, req_at. cbn. unfold aset, aget, zlen in *. destruct (Z.ltb_spec i 0); [done|].
  rewrite list_insert_ge; [done|lia].
Qed.

Lemma cb_view_put c j i : cb_view (ring_put_request c j) i = cb_view c i.
Proof using.
  unfold ring_put_request. destruct (_ || _); [done|]. destruct (in_pool _); [done|].
  destruct (pending _); [done|].
  unfold cb_view.
  change (req_at _ i) with (req_at (upd_req j (fun r => r <| in_pool := true |>) c) i) at 1 2 3.
  by destruct (req_at_upd c j i (fun r => r <| in_pool := true |>)) as [[-> _]| ->].
Qed.
Lemma cb_view_retire e c i : cb_view (retire_one e c) i = cb_view c i.
Proof using.
  destruct (retire_one_view e c) as (Hv & _). rewrite (cb_view_slot _ _ i Hv). apply cb_view_put.
Qed.

Lemma cb_view_retire_loop es c d i : cb_view (fst (retire_loop es c d)) i = cb_view c i.
Proof using.
  revert c d. induction es as [|e es IH]; intros c d; cbn [retire_loop]; [done|].
  destruct (_ <? 0); [apply IH|]. rewrite IH. apply cb_view_retire.
Qed.

Lemma cb_view_retire_batch es c i : cb_view (ring_retire_batch es c) i = cb_view c i.
Proof using.
  unfold ring_retire_batch. destruct (_ <=? 0); [done|].
  assert (exists st c1, ring_lock c = (st, c1) /\ slot_view c1 = slot_view c)
    as (st & c1 & -> & Hv).
  { unfold ring_lock. destruct (single_thread c); [|by do 2 eexists].
    destruct (negb _); by do 2 eexists. }
  pose proof (cb_view_retire_loop es c1 0 i) as Hl. destruct (retire_loop es c1 0) as [c2 delta].
  cbn [fst] in Hl. rewrite <- (cb_view_slot c1 c i Hv), <- Hl.
  apply cb_view_slot. unfold ring_unlock. by destruct st.
Qed.

Lemma cb_view_retire_fast e c i : cb_view (retire_fast e c) i = cb_view c i.
Proof using.
  unfold retire_fast. destruct (_ <? 0); [done|]. rewrite <- (cb_view_retire e c i).
  by apply cb_view_slot.
Qed.

Lemma cb_view_complete req res c i :
  cb_view (complete_request req res c) i =
    (if decide (i = req) then false else pending (req_at c i), callback (req_at c i),
     user_data (req_at c i)).
Proof using.
  destruct (complete_request_view req res c) as (Hv & _). rewrite (cb_view_slot _ _ i Hv).
  unfold cb_view. destruct (decide (i = req)) as [->|Hne].
  - destruct (decide (0 <= req < zlen (requests c))) as [Hr|Hr].
    + by rewrite req_at_upd_eq.
    + assert (req_at c req = request_zero) as E.
      { unfold req_at, aget, zlen in *. destruct (Z.ltb_spec req 0); [done|].
        apply nth_overflow. lia. }
      destruct (req_at_upd c req req (fun r => r <| pending := false |>)) as [[-> _]| ->];
        by rewrite E.
  - by rewrite req_at_upd_ne.
Qed.

Lemma delivered_view c0 seen c c' :
  (forall i, cb_view c' i = cb_view c i) -> delivered c0 seen c -> delivered c0 seen c'.
Proof using. intros H Hd i. by rewrite H. Qed.

Lemma delivered_seen c0 seen seen' c :
  (forall r, r ∈ seen <-> r ∈ seen') -> delivered c0 seen c -> delivered c0 seen' c.
Proof using.
  intros H Hd i. rewrite (Hd i). by rewrite (bool_decide_ext (i ∈ seen) (i ∈ seen')) by apply H.
Qed.

(** ** Delivery *)

(** A callback that leaves the ring alone. *)
Definition callback_inert : Prop := forall cb req res data s,
  rs_ring (rs_callback cb req res data s) = rs_ring s.

(** What a completion does to the ring when its callback does nothing. *)
Definition complete_ring (req : option Z) (res : Z) c : ring_ctx_t K :=
  match req with
  | Some q => if pending (req_at c q) then complete_request q res c else c
  | None => c
  end.

Lemma process_completion_ring req res s e s' :
  callback_inert -> process_completion req res s = (e, s') ->
  rs_ring s' = complete_ring req res (rs_ring s).
Proof using RL.
  intros Hin E. unfold process_completion, complete_ring in *.
  destruct req as [q|]; [|by apply pair_equal_spec in E as [_ <-]].
  destruct (pending (req_at (rs_ring s) q)); cbn [negb] in E; apply pair_equal_spec in E as [_ <-]; [|done].
  unfold invoke_callback. destruct (_ =? 0); unfold upd_thread, upd_ring.
  - by rewrite rs_ring_set.
  - by rewrite rs_ring_thread, Hin, rs_ring_thread, rs_ring_set.
Qed.

Lemma complete_ring_delivered c0 seen e c :
  delivered c0 seen c ->
  delivered c0 (mentioned [e] ++ seen) (complete_ring (cqe_data e) (cqe_res e) c).
Proof using.
  intros Hd. unfold mentioned, complete_ring. cbn. destruct (cqe_data e) as [q|]; [|done].
  pose proof (Hd q) as Hq. unfold cb_view in Hq. injection Hq as Hp _ _.
  destruct (pending (req_at c q)) eqn:Epend; intros i; cbn [app].
  - rewrite cb_view_complete. pose proof (Hd i) as Hi. unfold cb_view in Hi.
    injection Hi as -> -> ->. rewrite (bool_decide_ext (i ∈ q :: seen) (i = q \/ i ∈ seen))
      by apply elem_of_cons.
    destruct (decide (i = q)) as [->|Hne].
    + rewrite (bool_decide_eq_true_2 (q = q \/ q ∈ seen)) by auto. by rewrite andb_false_r.
    + rewrite (bool_decide_ext (i = q \/ i ∈ seen) (i ∈ seen)) by tauto. done.
  - rewrite (Hd i). f_equal. f_equal. destruct (decide (i = q)) as [->|Hne].
    + rewrite (bool_decide_eq_true_2 (q ∈ q :: seen)) by by apply elem_of_cons; left.
      rewrite <- Hp. by rewrite andb_false_r.
    + rewrite (bool_decide_ext (i ∈ q :: seen) (i ∈ seen)); [done|]. rewrite elem_of_cons. tauto.
Qed.

Lemma delivered_start c : delivered c [] c.
Proof using.
  intros i. unfold cb_view. rewrite (bool_decide_eq_false_2 (i ∈ [])) by apply not_elem_of_nil.
  by rewrite andb_true_r.
Qed.

(** Callbacks that only write a log of their calls. *)
Context (log : S -> list call_t).
Context (Hlog_ring : forall c s, log (rs_set_ring c s) = log s).
Context (Hlog_thread : forall t s, log (rs_set_thread t s) = log s).
Context (Hcall : forall cb req res data s,
  rs_ring (rs_callback cb req res data s) = rs_ring s /\
  log (rs_callback cb req res data s) =
    log s ++ [{| call_fn := cb; call_req := req; call_res := res; call_data := data |}]).

Lemma logging_inert : callback_inert.
Proof using Hcall. intros cb req res data s. apply Hcall. Qed.

Lemma logging_quiet : callback_quiet (K := K) (S := S).
Proof using Hcall. intros cb req res data s. destruct (Hcall cb req res data s) as [-> _]. done. Qed.

Lemma process_completion_delivers c0 seen e s r s' :
  process_completion (cqe_data e) (cqe_res e) s = (r, s') -> delivered c0 seen (rs_ring s) ->
  log s' = log s ++ calls seen c0 [e] /\ delivered c0 (mentioned [e] ++ seen) (rs_ring s').
Proof using Hcall Hlog_ring Hlog_thread RL.
  intros E Hd. split.
  2: { rewrite (process_completion_ring _ _ _ _ _ logging_inert E). by apply complete_ring_delivered. }
  unfold process_completion in E. cbn.
  destruct (cqe_data e) as [q|]; [|injection E as _ <-; by rewrite app_nil_r].
  cbv zeta in *. rewrite app_nil_r.
  pose proof (Hd q) as Hq. unfold cb_view in Hq. injection Hq as Hp Hcb Hud.
  destruct (pending (req_at (rs_ring s) q)) eqn:Epend; cbn [negb] in E;
    apply pair_equal_spec in E as [_ <-].
  - symmetry in Hp. apply andb_true_iff in Hp as [Hp0 Hns]. apply negb_true_iff in Hns.
    rewrite Hp0, Hns. cbn [negb orb]. rewrite <- Hcb, <- Hud.
    unfold invoke_callback. destruct (callback (req_at (rs_ring s) q) =? 0).
    + unfold upd_ring. by rewrite Hlog_ring, app_nil_r.
    + cbv zeta. unfold upd_thread. rewrite Hlog_thread.
      match goal with |- context [rs_callback ?a ?b ?x ?d ?y] =>
        destruct (Hcall a b x d y) as [_ ->] end.
      unfold upd_ring. by rewrite Hlog_thread, Hlog_ring.
  - assert (bool_decide (q ∈ seen) || negb (pending (req_at c0 q)) = true) as ->.
    { destruct (pending (req_at c0 q)), (bool_decide (q ∈ seen)); done. }
    cbn [orb]. by rewrite app_nil_r.
Qed.

Lemma process_batch_delivers c0 batch : forall seen s es s',
  process_batch batch s = (es, s') -> delivered c0 seen (rs_ring s) ->
  log s' = log s ++ calls seen c0 batch /\ delivered c0 (mentioned batch ++ seen) (rs_ring s').
Proof using Hcall Hlog_ring Hlog_thread RL.
  induction batch as [|e batch IH]; intros seen s es s' E Hd; cbn [process_batch] in E.
  { injection E as _ <-. by rewrite app_nil_r. }
  destruct (process_completion _ _ s) as [r s1] eqn:E1.
  destruct (process_batch batch s1) as [es1 s2] eqn:E2. injection E as _ <-.
  destruct (process_completion_delivers c0 seen e s r s1 E1 Hd) as [Hl1 Hd1].
  destruct (IH _ _ _ _ E2 Hd1) as [Hl2 Hd2]. change (e :: batch) with ([e] ++ batch).
  rewrite calls_app, (assoc_L (++)), <- Hl1. split; [done|].
  apply (delivered_seen c0 (mentioned batch ++ mentioned [e] ++ seen)); [|done].
  intros i. unfold mentioned. rewrite omap_app, !elem_of_app. tauto.
Qed.

Lemma take_batch_slots c batch c' : take_batch c = (batch, c') -> slot_view c' = slot_view c.
Proof using.
  unfold take_batch. intros E.
  assert (exists st c1, ring_cq_lock c = (st, c1) /\ slot_view c1 = slot_view c)
    as (st & c1 & E1 & Hv).
  { unfold ring_cq_lock. destruct (single_thread c); [|by do 2 eexists].
    destruct (negb _); by do 2 eexists. }
  rewrite E1 in E. destruct (peek_batch _ _) as [l k]. injection E as _ <-.
  rewrite <- Hv. unfold ring_cq_unlock. by destruct st.
Qed.

Lemma drain_delivers c0 fuel : forall n seen s r s',
  ring_drain_cqes fuel n s = Some (r, s') -> 0 < poll_batch_size (rs_ring s) ->
  delivered c0 seen (rs_ring s) ->
  log s' = log s ++ calls seen c0 (lu_cq (ring (rs_ring s))).
Proof using Hcall Hlog_ring Hlog_thread RL.
  induction fuel as [|fuel IH]; intros n seen s r s' E Hb Hd; [done|]. cbn [ring_drain_cqes] in E.
  rewrite on_ring_set in E. destruct (take_batch (rs_ring s)) as [batch c1] eqn:E1.
  cbn [fst snd] in E. destruct (take_batch_cq _ _ _ E1) as (Eb & Ec & Ep).
  set (q := lu_cq (ring (rs_ring s))) in *.
  assert (delivered c0 seen (rs_ring (rs_set_ring c1 s))) as Hd1.
  { rewrite rs_ring_set. apply (delivered_view c0 seen (rs_ring s)); [|done].
    intros i. by apply cb_view_slot, take_batch_slots with (batch := batch). }
  destruct (Z.eqb_spec (zlen batch) 0) as [Hz|Hz].
  { injection E as _ <-. rewrite Hlog_ring.
    assert (q = []) as ->; [|by rewrite app_nil_r].
    destruct q as [|x q]; [done|]. rewrite Eb in Hz. unfold zlen in Hz.
    rewrite length_take in Hz. cbn in Hz. lia. }
  destruct (process_batch batch _) as [es s2] eqn:E2.
  pose proof (process_batch_cq logging_quiet _ _ _ _ E2) as Hq. unfold drain_view in Hq.
  rewrite rs_ring_set in Hq. injection Hq as Hq1 Hq2.
  destruct (process_batch_delivers c0 batch seen _ _ _ E2 Hd1) as [Hl2 Hd2].
  destruct (ring_retire_batch_cq es (rs_ring s2)) as [Hr1 Hr2].
  unfold upd_ring in E. rewrite (IH _ (mentioned batch ++ seen) _ _ _ E).
  - rewrite Hlog_ring, Hl2, Hlog_ring, rs_ring_set, Hr1, Hq1, Ec, <- (assoc_L (++)), <- calls_app.
    by rewrite Eb, take_drop.
  - rewrite rs_ring_set, Hr2, Hq2, Ep. done.
  - rewrite rs_ring_set. apply (delivered_view c0 _ (rs_ring s2)); [|done].
    intros i. apply cb_view_retire_batch.
Qed.

Lemma drain_fast_delivers c0 fuel : forall n seen s r s',
  drain_fast_loop fuel n s = Some (r, s') -> delivered c0 seen (rs_ring s) ->
  log s' = log s ++ calls seen c0 (lu_cq (ring (rs_ring s))).
Proof using Hcall Hlog_ring Hlog_thread RL.
  induction fuel as [|fuel IH]; intros n seen s r s' E Hd; [done|]. cbn [drain_fast_loop] in E.
  rewrite lu_peek_head in E. destruct (lu_cq (ring (rs_ring s))) as [|e q] eqn:Eq; cbn [head] in E.
  { injection E as _ <-. by rewrite app_nil_r. }
  destruct (process_completion _ _ _) as [x s2] eqn:E2.
  pose proof (process_completion_cq logging_quiet _ _ _ _ _ E2) as Hq. unfold drain_view in Hq.
  injection Hq as Hq _. unfold upd_ring in Hq. rewrite rs_ring_set in Hq.
  change (lu_cq (ring (rs_ring s2)) = lu_cq (lu_cqe_seen (ring (rs_ring s)))) in Hq.
  rewrite lu_seen_tail, Eq in Hq. cbn [tail] in Hq.
  destruct (process_completion_delivers c0 seen e _ _ _ E2) as [Hl2 Hd2].
  { unfold upd_ring. rewrite rs_ring_set. apply (delivered_view c0 seen (rs_ring s)); [|done].
    intros i. by apply cb_view_slot. }
  assert (ring (retire_fast x (rs_ring s2)) = ring (rs_ring s2)) as Hr.
  { unfold retire_fast. destruct (_ <? 0); [done|].
    by destruct (retire_one_view x (rs_ring s2)) as (_ & _ & _ & H). }
  unfold upd_ring in E. rewrite (IH _ (mentioned [e] ++ seen) _ _ _ E).
  - rewrite Hlog_ring, Hl2. unfold upd_ring. rewrite Hlog_ring, rs_ring_set, Hr, Hq.
    by rewrite <- (assoc_L (++)), <- calls_app.
  - rewrite rs_ring_set. apply (delivered_view c0 _ (rs_ring s2)); [|done].
    intros i. apply cb_view_retire_fast.
Qed.

(** C12. A poll returns, with the number of completions in the queue, when it
    may take one loop turn more than there are completions, and has then run
    the callbacks of exactly the requests that were pending when it started
    and whose completion is in the queue: in queue order, once each (further
    completions of the same request run nothing), each with the request, the
    result its first completion carried and the request's user data. For
    callbacks that do not touch the ring; in both drains. *)
Theorem poll_delivers_in_order fuel s :
  0 < poll_batch_size (rs_ring s) -> ring_initialized (rs_ring s) = true ->
  (length (lu_cq (ring (rs_ring s))) < fuel)%nat ->
  exists s', ring_poll fuel s = Some (zlen (lu_cq (ring (rs_ring s))), s') /\
    lu_cq (ring (rs_ring s')) = [] /\
    log s' = log s ++ calls [] (rs_ring s) (lu_cq (ring (rs_ring s))).
Proof using Hcall Hlog_ring Hlog_thread RL.
  intros Hb Hi Hf. unfold ring_poll, ring_drain_cqes_fast. rewrite Hi. cbn [negb].
  pose proof (delivered_start (rs_ring s)) as Hd. destruct (single_thread (rs_ring s)).
  - destruct (drain_fast_loop_exact logging_quiet fuel 0 s Hf) as (s' & E & Hq). exists s'.
    split_and!; [done|done|]. by eapply drain_fast_delivers.
  - destruct (ring_drain_cqes_exact logging_quiet fuel 0 s Hb Hf) as (s' & E & Hq). exists s'.
    split_and!; [done|done|]. by eapply drain_delivers.
Qed.
End Deliver.

(** ** A logging client *)

Module Logging.
Definition state : Type := ring_ctx_t Demo.kernel * thread_t * list call_t.

#[global] Instance ring_state : RingState Demo.kernel state := {
  rs_ring s := fst (fst s);
  rs_set_ring c s := (c, snd (fst s), snd s);
  rs_thread s := snd (fst s);
  rs_set_thread t s := (fst (fst s), t, snd s);
  rs_callback cb req res data s :=
    (fst s, snd s ++ [{| call_fn := cb; call_req := req; call_res := res; call_data := data |}])
}.

#[global] Instance ring_state_laws : RingStateLaws Demo.kernel state.
Proof. by split. Defined.
End Logging.

(** Slot 7 with callback 99 and user data 5 completes twice: one call. *)
Lemma poll_delivers_in_order_witness :
  exists c t s', Demo.queued0 [{| cqe_data := Some 7; cqe_res := 512 |};
                               {| cqe_data := Some 7; cqe_res := -5 |}] = Some (c, t) /\
    let s := (upd_req 7 (fun r => r <| callback := 99 |> <| user_data := 5 |>) c, t, [])
             : Logging.state in
    ring_poll 9 s = Some (2, s') /\
    snd s' = [{| call_fn := 99; call_req := 7; call_res := 512; call_data := 5 |}].
Proof.
  destruct (Demo.queued0 _) as [[c t]|] eqn:E; [|vm_compute in E; discriminate].
  set (s := (upd_req 7 (fun r => r <| callback := 99 |> <| user_data := 5 |>) c, t, []) : Logging.state).
  assert (zlen (lu_cq (ring c)) = 2 /\ 0 < poll_batch_size c /\ ring_initialized c = true /\
    calls [] (upd_req 7 (fun r => r <| callback := 99 |> <| user_data := 5 |>) c)
      (lu_cq (ring c)) = [{| call_fn := 99; call_req := 7; call_res := 512; call_data := 5 |}])
    as (Hn & Hb & Hi & Hc).
  { vm_compute in E. injection E as <- <-. vm_compute. repeat split. }
  destruct (poll_delivers_in_order (RS := Logging.ring_state) (fun s => snd s)
    (fun _ _ => eq_refl) (fun _ _ => eq_refl) (fun _ _ _ _ _ => conj eq_refl eq_refl) 9 s
    Hb Hi) as (s' & E' & _ & Hl).
  { change (length (lu_cq (ring c)) < 9)%nat. unfold zlen in Hn. lia. }
  exists c, t, s'. split; [done|]. cbv zeta.
  change (lu_cq (ring (rs_ring s))) with (lu_cq (ring c)) in E'. rewrite Hn in E'.
  split; [exact E'|]. rewrite <- Hc. exact Hl.
Defined.
