(* ===== verification/RingSettle.v ===== *)
(** * What a poll does to the slots

    Every request that was pending and whose completion the queue holds is
    back in the pool when the poll returns, and no other slot changes hands:
    the accounts of the two drains of [RingCq], slot by slot. *)
From Stdlib Require Import ZArith Lia List.
From stdpp Require Import base tactics list.
From S2P Require Import Prelude Histogram Controller Ring RingCq RingSpec RingTheorems.
From S2P Require Import RingPoll RingDeliver.

#[local] Open Scope Z_scope.

(** ** The balance of slots

    A slot leaves the free stack when a request is submitted and returns to
    it when the request is retired, so the free slots and the requests in
    flight add up to the same number. *)

Section Balance.
Context {K : Type} {L : Liburing K} {S : Type} {RS : RingState K S} {RL : RingStateLaws K S}.
Implicit Types (s : S) (c : ring_ctx_t K).

Definition slots_accounted c : Z := free_request_count c + pending_count c.

(** A callback that submits requests takes one slot for each. *)
Definition callback_balanced : Prop := forall cb req res data s,
  slots_accounted (rs_ring (rs_callback cb req res data s)) = slots_accounted (rs_ring s).

Context (Hcb : callback_ok (K := K) (S := S)).
Context (Hbal : callback_balanced).

Lemma slots_accounted_view c c' :
  slot_view c = slot_view c' -> pending_count c = pending_count c' ->
  slots_accounted c = slots_accounted c'.
Proof using. unfold slot_view, slots_accounted. intros H ->. by injection H as _ _ -> _. Qed.

Lemma process_completion_accounted req res s e s' :
  process_completion req res s = (e, s') ->
  slots_accounted (rs_ring s') = slots_accounted (rs_ring s).
Proof using Hbal RL.
  unfold process_completion. intros E. destruct req as [q|]; [|by apply pair_equal_spec in E as [_ <-]].
  destruct (negb _); apply pair_equal_spec in E as [_ <-]; [done|].
  assert (slots_accounted (complete_request q res (rs_ring s)) = slots_accounted (rs_ring s)) as Hc.
  { destruct (complete_request_view q res (rs_ring s)) as (Hv & Hp & _).
    by rewrite (slots_accounted_view _ _ Hv Hp). }
  unfold invoke_callback. destruct (_ =? 0); unfold upd_thread, upd_ring.
  - by rewrite rs_ring_set.
  - by rewrite rs_ring_thread, Hbal, rs_ring_thread, rs_ring_set.
Qed.

Lemma process_batch_accounted batch : forall s es s',
  process_batch batch s = (es, s') -> slots_accounted (rs_ring s') = slots_accounted (rs_ring s).
Proof using Hbal RL.
  induction batch as [|e batch IH]; intros s es s' E; cbn [process_batch] in E.
  { by injection E as _ <-. }
  destruct (process_completion _ _ s) as [r s1] eqn:E1.
  destruct (process_batch batch s1) as [es1 s2] eqn:E2. injection E as _ <-.
  rewrite (IH _ _ _ E2). by eapply process_completion_accounted.
Qed.

(** Retiring a slot that is due gives it back. *)
Lemma retire_one_free c R e n :
  ring_inv (c <| pending_count := n |>) (re_op_idx e :: R) ->
  free_request_count (retire_one e c) = free_request_count c + 1 /\
  in_pool (req_at (retire_one e c) (re_op_idx e)) = true /\
  forall j, j <> re_op_idx e -> req_at (retire_one e c) j = req_at c j.
Proof using.
  intros [Hs Hnd Hdue _]. destruct (retire_one_view e c) as (Hv & _).
  destruct (Hdue (re_op_idx e)) as (Hr & Hip & Hpe); [by apply elem_of_cons; left|].
  assert (slot_inv c) as Hs0 by by apply (slot_inv_view (c <| pending_count := n |>)).
  destruct (ring_put_slot c (re_op_idx e) Hs0 Hr Hip Hpe) as (_ & P2 & P3 & P4 & _).
  split; [|split].
  - rewrite <- P4. unfold slot_view in Hv. by injection Hv as _ _ -> _.
  - rewrite (slot_view_req _ _ _ Hv), P2. done.
  - intros j Hj. rewrite (slot_view_req _ _ _ Hv). by apply P3.
Qed.

Lemma due_cons e es : due (e :: es) = if decide (0 <= re_op_idx e) then re_op_idx e :: due es else due es.
Proof using. unfold due. cbn [fmap list_fmap]. by rewrite filter_cons. Qed.

Lemma retire_loop_free es : forall c delta R c' delta',
  retire_loop es c delta = (c', delta') -> forall n,
  ring_inv (c <| pending_count := n |>) (due es ++ R) ->
  free_request_count c' = free_request_count c + zlen (due es).
Proof using.
  induction es as [|e es IH]; intros c delta R c' delta' E n Hinv; cbn [retire_loop] in E.
  { injection E as <- <-. unfold zlen, due. cbn. lia. }
  rewrite due_cons in *. destruct (Z.ltb_spec (re_op_idx e) 0) as [Hneg|Hpos].
  - rewrite decide_False in * by lia. by eapply IH.
  - rewrite decide_True in * by lia. destruct (retire_one_inv c _ e n Hinv) as [_ H2].
    destruct (retire_one_free c _ e n Hinv) as (H3 & _).
    rewrite (IH _ _ _ _ _ E (n - 1) H2), H3. unfold zlen. cbn [length]. lia.
Qed.

(** Taking and releasing the lock leaves everything a slot count reads. *)
Lemma ring_lock_slots c : exists st c1, ring_lock c = (st, c1) /\ slot_view c1 = slot_view c /\
  pending_count c1 = pending_count c.
Proof using.
  unfold ring_lock. destruct (single_thread c); [|by do 2 eexists].
  destruct (negb _); by do 2 eexists.
Qed.

Lemma ring_retire_batch_accounted es c :
  ring_inv c (due es) -> slots_accounted (ring_retire_batch es c) = slots_accounted c.
Proof using.
  intros Hinv. unfold ring_retire_batch. destruct (_ <=? 0); [done|].
  destruct (ring_lock_slots c) as (st & c1 & -> & Hv & Hp).
  destruct (retire_loop es c1 0) as [c2 delta] eqn:E.
  assert (ring_inv (c1 <| pending_count := pending_count c |>) (due es ++ [])) as H1.
  { rewrite app_nil_r. by apply (ring_inv_view c). }
  destruct (retire_loop_inv es c1 0 [] c2 delta E _ H1) as (G1 & G2 & _).
  pose proof (retire_loop_free es c1 0 [] c2 delta E _ H1) as G3.
  assert (0 <= pending_count c <= 65536 /\ 0 <= zlen (due es) <= 32768) as [Hr1 Hr2].
  { pose proof (ring_inv_pending_range c _ Hinv). unfold zlen in *. lia. }
  assert (free_request_count c1 = free_request_count c) as Hf.
  { unfold slot_view in Hv. by injection Hv as _ _ -> _. }
  transitivity (free_request_count c2 + i32 (pending_count c2 - delta)); [by destruct st|].
  rewrite G1, Hp, G2, Z.add_0_l, i32_id by (unfold INT_MIN, INT_MAX; lia).
  unfold slots_accounted. lia.
Qed.

Lemma retire_fast_accounted e c :
  ring_inv c (due [e]) -> slots_accounted (retire_fast e c) = slots_accounted c.
Proof using.
  intros Hinv. unfold retire_fast. pose proof (ring_inv_pending_range c _ Hinv) as [Hr _].
  rewrite due_cons in Hinv. destruct (Z.ltb_spec (re_op_idx e) 0); [done|].
  rewrite decide_True in Hinv by lia.
  assert (ring_inv (c <| pending_count := pending_count c |>) (re_op_idx e :: [])) as H1
    by by apply (ring_inv_view c).
  destruct (retire_one_inv c _ e _ H1) as [H2 _]. destruct (retire_one_free c _ e _ H1) as [H3 _].
  unfold slots_accounted. cbn. rewrite H3, H2, i32_id by (unfold INT_MIN, INT_MAX; lia). lia.
Qed.

Lemma take_batch_accounted c batch c' :
  take_batch c = (batch, c') -> slots_accounted c' = slots_accounted c.
Proof using.
  unfold take_batch. intros E.
  assert (exists st c1, ring_cq_lock c = (st, c1) /\ slots_accounted c1 = slots_accounted c)
    as (st & c1 & E1 & Hv).
  { unfold ring_cq_lock. destruct (single_thread c); [|by do 2 eexists].
    destruct (negb _); by do 2 eexists. }
  rewrite E1 in E. destruct (peek_batch _ _) as [l k]. injection E as _ <-.
  rewrite <- Hv. by destruct st.
Qed.

Lemma ring_drain_accounted fuel : forall n s r s',
  ring_drain_cqes fuel n s = Some (r, s') -> ring_inv (rs_ring s) [] ->
  slots_accounted (rs_ring s') = slots_accounted (rs_ring s).
Proof using Hbal Hcb RL.
  induction fuel as [|fuel IH]; intros n s r s' E Hinv; [done|]. cbn [ring_drain_cqes] in E.
  rewrite on_ring_set in E. destruct (take_batch (rs_ring s)) as [batch c1] eqn:E1.
  cbn [fst snd] in E. destruct (take_batch_inv _ _ _ [] E1 Hinv) as [H1 _].
  rewrite <- (take_batch_accounted _ _ _ E1).
  destruct (zlen batch =? 0); [injection E as _ <-; by rewrite rs_ring_set|].
  destruct (process_batch batch _) as [es s2] eqn:E2.
  pose proof (process_batch_accounted _ _ _ _ E2) as Ha. rewrite rs_ring_set in Ha.
  apply (process_batch_inv Hcb) with (R := []) in E2 as [H2 _]; [|by rewrite rs_ring_set].
  rewrite app_nil_r in H2. unfold upd_ring in E. rewrite (IH _ _ _ _ E); rewrite rs_ring_set.
  - by rewrite ring_retire_batch_accounted.
  - by apply ring_retire_batch_inv.
Qed.

Lemma drain_fast_accounted fuel : forall n s r s',
  drain_fast_loop fuel n s = Some (r, s') -> ring_inv (rs_ring s) [] ->
  slots_accounted (rs_ring s') = slots_accounted (rs_ring s).
Proof using Hbal Hcb RL.
  induction fuel as [|fuel IH]; intros n s r s' E Hinv; [done|]. cbn [drain_fast_loop] in E.
  destruct (lu_peek_cqe _) as [cqe|]; [|by injection E as _ <-].
  destruct (process_completion _ _ _) as [e s2] eqn:E2.
  pose proof (process_completion_accounted _ _ _ _ _ E2) as Ha.
  apply (process_completion_inv Hcb) with (R := []) in E2.
  2: { unfold upd_ring. rewrite rs_ring_set. by apply (ring_inv_view (rs_ring s)). }
  rewrite app_nil_r in E2. unfold upd_ring in E, Ha. rewrite rs_ring_set in Ha.
  rewrite (IH _ _ _ _ E); rewrite rs_ring_set.
  - by rewrite retire_fast_accounted.
  - by apply retire_fast_inv.
Qed.
End Balance.

(** ** The account of each slot *)

Section Settle.
Context {K : Type} {L : Liburing K} {LC : LiburingCq K}.
Context {S : Type} {RS : RingState K S} {RL : RingStateLaws K S}.
Implicit Types (s : S) (c : ring_ctx_t K).

(** The slots of [c] are those of [c0] with the completions of [seen]
    processed and all of them retired but [R]. *)
Record settled c0 (seen R : list Z) c : Prop := {
  st_delivered : delivered c0 seen c;
  st_due : forall i, i ∈ R -> i ∈ seen /\ pending (req_at c0 i) = true;
  st_pool : forall i, in_pool (req_at c i) = true <->
    in_pool (req_at c0 i) = true \/ (pending (req_at c0 i) = true /\ i ∈ seen /\ i ∉ R)
}.

Lemma settled_start c : settled c [] [] c.
Proof using.
  split; [apply delivered_start|by intros i Hi; apply not_elem_of_nil in Hi|].
  intros i. rewrite elem_of_nil. tauto.
Qed.

Lemma settled_view c0 seen R c c' :
  slot_view c = slot_view c' -> settled c0 seen R c -> settled c0 seen R c'.
Proof using.
  intros Hv [H1 H2 H3]. split; [|done|].
  - apply (delivered_view c0 seen c); [|done]. intros i. symmetry. by apply cb_view_slot.
  - intros i. rewrite <- (slot_view_req c c' i Hv). apply H3.
Qed.

Lemma settled_seen c0 seen seen' R c :
  (forall r, r ∈ seen <-> r ∈ seen') -> settled c0 seen R c -> settled c0 seen' R c.
Proof using.
  intros H [H1 H2 H3]. split.
  - by apply (delivered_seen c0 seen).
  - intros i. rewrite <- H. apply H2.
  - intros i. rewrite <- H. apply H3.
Qed.

Lemma settled_due c0 seen R R' c :
  (forall r, r ∈ R <-> r ∈ R') -> settled c0 seen R c -> settled c0 seen R' c.
Proof using.
  intros H [H1 H2 H3]. split; [done| |].
  - intros i. rewrite <- H. apply H2.
  - intros i. rewrite <- H. apply H3.
Qed.

Lemma complete_request_pool req res c i :
  in_pool (req_at (complete_request req res c) i) = in_pool (req_at c i).
Proof using.
  destruct (complete_request_view req res c) as (Hv & _). rewrite (slot_view_req _ _ i Hv).
  by destruct (req_at_upd c req i (fun r => r <| pending := false |>)) as [[-> _]| ->].
Qed.

Lemma delivered_pending c0 seen c q :
  delivered c0 seen c ->
  pending (req_at c q) = true <-> pending (req_at c0 q) = true /\ q ∉ seen.
Proof using.
  intros Hd. pose proof (Hd q) as Hq. unfold cb_view in Hq. injection Hq as -> _ _.
  rewrite andb_true_iff, negb_true_iff, bool_decide_eq_false. done.
Qed.

Lemma process_completion_settled c0 seen R e s x s' :
  callback_inert (K := K) (S := S) ->
  process_completion (cqe_data e) (cqe_res e) s = (x, s') ->
  ring_inv (rs_ring s) R -> settled c0 seen R (rs_ring s) ->
  settled c0 (mentioned [e] ++ seen) (due [x] ++ R) (rs_ring s').
Proof using RL.
  intros Hin E Hinv [H1 H2 H3].
  rewrite (process_completion_ring _ _ _ _ _ Hin E).
  pose proof (complete_ring_delivered c0 seen e _ H1) as Hd. rewrite due_cons.
  unfold process_completion, complete_ring, mentioned in *. cbn in *.
  destruct (cqe_data e) as [q|].
  2: { apply pair_equal_spec in E as [<- _]. by split. }
  pose proof (delivered_pending c0 seen _ q H1) as Hq.
  destruct (pending (req_at (rs_ring s) q)) eqn:Hp; cbn [negb] in E.
  - destruct (complete_request_inv (rs_ring s) R q (cqe_res e) Hinv Hp) as (_ & Hidx & Hpos).
    apply pair_equal_spec in E as [<- _]. cbn [re_op_idx]. rewrite Hidx, decide_True by done.
    destruct Hq as [Hq _]. destruct (Hq eq_refl) as [Hq0 Hns]. split; [done| |].
    + intros i Hi. cbn in Hi. apply elem_of_cons in Hi as [->|Hi].
      * split; [by apply elem_of_cons; left|done].
      * destruct (H2 i Hi) as [A B]. split; [by apply elem_of_cons; right|done].
    + intros i. rewrite complete_request_pool, H3. change (due [] ++ R) with R. cbn [app].
      rewrite !elem_of_cons. destruct (decide (i = q)) as [->|Hne]; tauto.
  - apply pair_equal_spec in E as [<- _]. cbn [re_op_idx]. rewrite decide_False by lia.
    change (due [] ++ R) with R. split; [done| |].
    + intros i Hi. destruct (H2 i Hi) as [A B]. split; [by apply elem_of_cons; right|done].
    + intros i. cbn [app]. rewrite H3, elem_of_cons. destruct (decide (i = q)) as [->|Hne]; [|tauto].
      assert (~ (pending (req_at c0 q) = true /\ q ∉ seen)) as Hn by (intros A; by apply Hq in A).
      destruct (decide (q ∈ seen)); tauto.
Qed.

Lemma process_batch_settled c0 batch : callback_inert (K := K) (S := S) ->
  callback_ok (K := K) (S := S) -> forall seen R s es s',
  process_batch batch s = (es, s') -> ring_inv (rs_ring s) R -> settled c0 seen R (rs_ring s) ->
  settled c0 (mentioned batch ++ seen) (due es ++ R) (rs_ring s').
Proof using RL.
  intros Hin Hcb. induction batch as [|e batch IH]; intros seen R s es s' E Hinv Hs;
    cbn [process_batch] in E; [by injection E as <- <-|].
  destruct (process_completion _ _ s) as [r s1] eqn:E1.
  destruct (process_batch batch s1) as [es1 s2] eqn:E2. injection E as <- <-.
  pose proof (process_completion_settled c0 seen R e s r s1 Hin E1 Hinv Hs) as Hs1.
  apply (process_completion_inv Hcb) with (R := R) in E1; [|done].
  specialize (IH _ _ _ _ _ E2 E1 Hs1). change (r :: es1) with ([r] ++ es1).
  change (e :: batch) with ([e] ++ batch). rewrite due_app.
  eapply settled_seen; [|eapply settled_due; [|exact IH]]; unfold mentioned;
    rewrite ?omap_app; intros i; rewrite !elem_of_app; tauto.
Qed.

Lemma retire_one_settled c0 seen c R e n :
  ring_inv (c <| pending_count := n |>) (re_op_idx e :: R) ->
  settled c0 seen (re_op_idx e :: R) c -> settled c0 seen R (retire_one e c).
Proof using.
  intros Hinv [H1 H2 H3]. destruct (retire_one_free c R e n Hinv) as (_ & Hi & Hne). split.
  - apply (delivered_view c0 seen c); [|done]. intros i. apply cb_view_retire.
  - intros i Hj. apply H2. by apply elem_of_cons; right.
  - intros i. destruct (decide (i = re_op_idx e)) as [->|Hn].
    + rewrite Hi. split; [|done]. intros _. right.
      destruct (H2 (re_op_idx e)) as [A B]; [by apply elem_of_cons; left|].
      split_and!; [done|done|]. pose proof (ri_nodup _ _ Hinv) as Hnd.
      by apply NoDup_cons in Hnd as [? _].
    + rewrite Hne by done. rewrite H3, not_elem_of_cons. tauto.
Qed.

Lemma retire_loop_settled c0 seen es : forall c delta R c' delta',
  retire_loop es c delta = (c', delta') -> forall n,
  ring_inv (c <| pending_count := n |>) (due es ++ R) ->
  settled c0 seen (due es ++ R) c -> settled c0 seen R c'.
Proof using.
  induction es as [|e es IH]; intros c delta R c' delta' E n Hinv Hs; cbn [retire_loop] in E.
  { by injection E as <- <-. }
  rewrite due_cons in *. destruct (Z.ltb_spec (re_op_idx e) 0) as [Hneg|Hpos].
  - rewrite decide_False in * by lia. by eapply IH.
  - rewrite decide_True in * by lia. destruct (retire_one_inv c _ e n Hinv) as [_ H2].
    eapply (IH _ _ _ _ _ E (n - 1) H2). by apply (retire_one_settled _ _ _ _ _ n).
Qed.

Lemma ring_retire_batch_settled c0 seen es c :
  ring_inv c (due es) -> settled c0 seen (due es) c ->
  settled c0 seen [] (ring_retire_batch es c).
Proof using.
  intros Hinv Hs. unfold ring_retire_batch. destruct (Z.leb_spec (zlen es) 0) as [Hz|Hz].
  { assert (es = []) as -> by (destruct es; [done|unfold zlen in Hz; cbn in Hz; lia]). done. }
  destruct (ring_lock_slots c) as (st & c1 & -> & Hv & Hp).
  destruct (retire_loop es c1 0) as [c2 delta] eqn:E.
  apply (settled_view _ _ _ c2); [by destruct st|].
  apply (retire_loop_settled c0 seen es c1 0 [] c2 delta E (pending_count c)); rewrite app_nil_r.
  - by apply (ring_inv_view c).
  - by apply (settled_view _ _ _ c).
Qed.

Lemma retire_fast_settled c0 seen e c :
  ring_inv c (due [e]) -> settled c0 seen (due [e]) c -> settled c0 seen [] (retire_fast e c).
Proof using.
  intros Hinv Hs. unfold retire_fast. rewrite due_cons in *.
  destruct (Z.ltb_spec (re_op_idx e) 0); [by rewrite decide_False in Hs by lia|].
  rewrite decide_True in * by lia. apply (settled_view _ _ _ (retire_one e c)); [done|].
  apply (retire_one_settled _ _ _ _ _ (pending_count c)); [|done]. by apply (ring_inv_view c).
Qed.

Context (Hin : callback_inert (K := K) (S := S)).

Lemma inert_ok : callback_ok (K := K) (S := S).
Proof using Hin. intros cb req res data s R. by rewrite Hin. Qed.
Lemma inert_quiet : callback_quiet (K := K) (S := S).
Proof using Hin. intros cb req res data s. by rewrite Hin. Qed.

Lemma ring_drain_settled c0 fuel : forall n seen s r s',
  ring_drain_cqes fuel n s = Some (r, s') -> 0 < poll_batch_size (rs_ring s) ->
  ring_inv (rs_ring s) [] -> settled c0 seen [] (rs_ring s) ->
  settled c0 (mentioned (lu_cq (ring (rs_ring s))) ++ seen) [] (rs_ring s').
Proof using Hin RL.
  induction fuel as [|fuel IH]; intros n seen s r s' E Hb Hinv Hs; [done|].
  cbn [ring_drain_cqes] in E. rewrite on_ring_set in E.
  destruct (take_batch (rs_ring s)) as [batch c1] eqn:E1. cbn [fst snd] in E.
  destruct (take_batch_cq _ _ _ E1) as (Eb & Ec & Ep).
  destruct (take_batch_inv _ _ _ [] E1 Hinv) as [H1 _].
  set (q := lu_cq (ring (rs_ring s))) in *.
  assert (settled c0 seen [] (rs_ring (rs_set_ring c1 s))) as Hs1.
  { rewrite rs_ring_set. apply (settled_view _ _ _ (rs_ring s)); [|done].
    symmetry. by apply take_batch_slots with (batch := batch). }
  destruct (Z.eqb_spec (zlen batch) 0) as [Hz|Hz].
  { injection E as _ <-. assert (q = []) as ->; [|done].
    destruct q as [|y q]; [done|]. rewrite Eb in Hz. unfold zlen in Hz.
    rewrite length_take in Hz. cbn in Hz. lia. }
  destruct (process_batch batch _) as [es s2] eqn:E2.
  pose proof (process_batch_cq inert_quiet _ _ _ _ E2) as Hq. unfold drain_view in Hq.
  rewrite rs_ring_set in Hq. injection Hq as Hq1 Hq2.
  pose proof (process_batch_settled c0 batch Hin inert_ok seen [] _ _ _ E2
    ltac:(by rewrite rs_ring_set) Hs1) as Hs2.
  apply (process_batch_inv inert_ok) with (R := []) in E2 as [H2 _]; [|by rewrite rs_ring_set].
  rewrite app_nil_r in H2, Hs2. destruct (ring_retire_batch_cq es (rs_ring s2)) as [Hr1 Hr2].
  unfold upd_ring in E. eapply settled_seen; [|apply (IH _ (mentioned batch ++ seen) _ _ _ E)];
    rewrite ?rs_ring_set.
  - intros i. rewrite Hr1, Hq1, Ec. rewrite <- (take_drop (Z.to_nat (poll_batch_size (rs_ring s))) q) at 2.
    rewrite <- Eb. unfold mentioned. rewrite omap_app, !elem_of_app. tauto.
  - by rewrite Hr2, Hq2, Ep.
  - by apply ring_retire_batch_inv.
  - by apply ring_retire_batch_settled.
Qed.

Lemma drain_fast_settled c0 fuel : forall n seen s r s',
  drain_fast_loop fuel n s = Some (r, s') ->
  ring_inv (rs_ring s) [] -> settled c0 seen [] (rs_ring s) ->
  settled c0 (mentioned (lu_cq (ring (rs_ring s))) ++ seen) [] (rs_ring s').
Proof using Hin RL.
  induction fuel as [|fuel IH]; intros n seen s r s' E Hinv Hs; [done|]. cbn [drain_fast_loop] in E.
  rewrite lu_peek_head in E. destruct (lu_cq (ring (rs_ring s))) as [|e q] eqn:Eq; cbn [head] in E.
  { injection E as _ <-. done. }
  destruct (process_completion _ _ _) as [x s2] eqn:E2.
  pose proof (process_completion_cq inert_quiet _ _ _ _ _ E2) as Hq. unfold drain_view in Hq.
  injection Hq as Hq _. unfold upd_ring in Hq. rewrite rs_ring_set in Hq.
  change (lu_cq (ring (rs_ring s2)) = lu_cq (lu_cqe_seen (ring (rs_ring s)))) in Hq.
  rewrite lu_seen_tail, Eq in Hq. cbn [tail] in Hq. unfold upd_ring in E2.
  assert (ring_inv (rs_ring (rs_set_ring ((rs_ring s) <| ring := lu_cqe_seen (ring (rs_ring s)) |>) s)) [] /\
    settled c0 seen [] (rs_ring (rs_set_ring ((rs_ring s) <| ring := lu_cqe_seen (ring (rs_ring s)) |>) s)))
    as [Hi1 Hs1].
  { rewrite rs_ring_set. split; [by apply (ring_inv_view (rs_ring s))|].
    by apply (settled_view _ _ _ (rs_ring s)). }
  pose proof (process_completion_settled c0 seen [] e _ x s2 Hin E2 Hi1 Hs1) as Hs2.
  pose proof (process_completion_inv inert_ok _ _ _ [] _ _ E2 Hi1) as H2.
  rewrite app_nil_r in H2, Hs2.
  assert (ring (retire_fast x (rs_ring s2)) = ring (rs_ring s2)) as Hr.
  { unfold retire_fast. destruct (_ <? 0); [done|].
    by destruct (retire_one_view x (rs_ring s2)) as (_ & _ & _ & H). }
  unfold upd_ring in E. eapply settled_seen; [|apply (IH _ (mentioned [e] ++ seen) _ _ _ E)];
    rewrite ?rs_ring_set.
  - intros i. rewrite Hr, Hq. change (e :: q) with ([e] ++ q). unfold mentioned.
    rewrite omap_app, !elem_of_app. tauto.
  - by apply retire_fast_inv.
  - by apply retire_fast_settled.
Qed.
End Settle.

Section Poll.
Context {K : Type} {L : Liburing K} {LC : LiburingCq K}.
Context {S : Type} {RS : RingState K S} {RL : RingStateLaws K S}.
Implicit Types (s : S) (c : ring_ctx_t K).

(** The slot [i] is pending in [c] and the queue holds its completion. *)
Definition completed_in c i : Prop :=
  pending (req_at c i) = true /\ i ∈ mentioned (lu_cq (ring c)).

(** C2. One poll handles every completion that is in the queue when it
    starts. With callbacks that keep the ring's invariant, take one slot for
    each request they submit and let nothing arrive, and with one loop turn
    more than there are completions, it returns their number and leaves the
    queue empty, the in-flight count is the number of requests still pending,
    and no slot is lost: the free slots and the requests in flight add up to
    what they did before. When the callbacks leave the ring alone, exactly the
    slots that were free or were pending with their completion in the queue
    are in the pool afterwards, and exactly the other pending ones are still
    pending. In both the locked and the single-threaded drain. *)
Theorem ring_poll_drains fuel s :
  callback_ok (K := K) (S := S) -> callback_quiet (K := K) (S := S) ->
  callback_balanced (K := K) (S := S) ->
  ring_initialized (rs_ring s) = true -> ring_inv (rs_ring s) [] ->
  0 < poll_batch_size (rs_ring s) -> (length (lu_cq (ring (rs_ring s))) < fuel)%nat ->
  exists s', ring_poll fuel s = Some (zlen (lu_cq (ring (rs_ring s))), s') /\
    lu_cq (ring (rs_ring s')) = [] /\ ring_inv (rs_ring s') [] /\
    pending_count (rs_ring s') = pending_total (rs_ring s') /\
    free_request_count (rs_ring s') + pending_count (rs_ring s') =
      free_request_count (rs_ring s) + pending_count (rs_ring s) /\
    (callback_inert (K := K) (S := S) -> forall i,
      (in_pool (req_at (rs_ring s') i) = true <->
        in_pool (req_at (rs_ring s) i) = true \/ completed_in (rs_ring s) i) /\
      (pending (req_at (rs_ring s') i) = true <->
        pending (req_at (rs_ring s) i) = true /\ ~ completed_in (rs_ring s) i)).
Proof.
  intros Hcb Hquiet Hbal Hi Hinv Hb Hf.
  assert (exists s', ring_poll fuel s = Some (zlen (lu_cq (ring (rs_ring s))), s') /\
    lu_cq (ring (rs_ring s')) = [] /\ ring_inv (rs_ring s') [] /\
    slots_accounted (rs_ring s') = slots_accounted (rs_ring s) /\
    (callback_inert (K := K) (S := S) ->
      settled (rs_ring s) (mentioned (lu_cq (ring (rs_ring s))) ++ []) [] (rs_ring s')))
    as (s' & E & Hq & H & Ha & Hs).
  { unfold ring_poll, ring_drain_cqes_fast. rewrite Hi. cbn [negb].
    pose proof (settled_start (rs_ring s)) as H0. destruct (single_thread (rs_ring s)).
    - destruct (drain_fast_loop_exact Hquiet fuel 0 s Hf) as (s' & E & Hq). exists s'.
      split_and!; [done|done| | |].
      + by eapply drain_fast_loop_inv.
      + by eapply drain_fast_accounted.
      + intros Hin. by eapply drain_fast_settled.
    - destruct (ring_drain_cqes_exact Hquiet fuel 0 s Hb Hf) as (s' & E & Hq). exists s'.
      split_and!; [done|done| | |].
      + by eapply ring_drain_cqes_inv.
      + by eapply ring_drain_accounted.
      + intros Hin. by eapply ring_drain_settled. }
  exists s'. split_and!; [done|done|done| |exact Ha|].
  { rewrite (ri_pending _ _ H). unfold zlen. cbn. lia. }
  intros Hin i. destruct (Hs Hin) as [H1 _ H3]. rewrite app_nil_r in H1, H3.
  pose proof (delivered_pending _ _ _ i H1) as Hp. specialize (H3 i). rewrite elem_of_nil in H3.
  unfold completed_in. destruct (decide (i ∈ mentioned (lu_cq (ring (rs_ring s))))); tauto.
Qed.
End Poll.

(** One callback runs per request, however often its completion is queued,
    and its slot is free again. *)
Lemma ring_poll_drains_witness :
  exists c t s', Demo.queued0 demo_cq = Some (c, t) /\
    ring_poll 9 (c, t) = Some (3, s') /\ ring_inv (fst s') [] /\ pending_count (fst s') = 0 /\
    in_pool (req_at c 7) = false /\ in_pool (req_at (fst s') 7) = true.
Proof.
  destruct (Demo.queued0 demo_cq) as [[c t]|] eqn:E; [|vm_compute in E; discriminate].
  assert (ring_initialized c = true /\ poll_batch_size c = 16 /\ lu_cq (ring c) = demo_cq /\
    in_pool (req_at c 7) = false /\ pending (req_at c 7) = true)
    as (Hi & Hb & Hq & Hp1 & Hp2)
    by (vm_compute in E; injection E as <- _; vm_compute; repeat split).
  destruct (ring_poll_drains (S := Demo.state) 9 (c, t) demo_callback_ok demo_callback_quiet)
    as (s' & E' & _ & Hinv & Hp & _ & Hin).
  - by intros cb req res data s.
  - exact Hi.
  - exact (demo_queued_inv demo_cq c t E).
  - change (0 < poll_batch_size c). rewrite Hb. lia.
  - change (length (lu_cq (ring c)) < 9)%nat. rewrite Hq. cbn. lia.
  - change (lu_cq (ring (rs_ring (c, t)))) with (lu_cq (ring c)) in E'. rewrite Hq in E'.
    exists c, t, s'. split_and!; [done|exact E'|exact Hinv| |done|].
    + vm_compute in E. injection E as <- <-. vm_compute in E'. by injection E' as <-.
    + destruct (Hin ltac:(by intros cb req res data s) 7) as [H _]. apply H. right.
      split; [exact Hp2|]. change (lu_cq (ring (rs_ring (c, t)))) with (lu_cq (ring c)).
      rewrite Hq. apply elem_of_cons. by left.
Defined.
