(* ===== verification/RingEquiv.v ===== *)
(** * The two drains are equivalent

    A ring with one owner is drained without locks and retires each request as
    soon as its callback has run ([ring_drain_cqes_fast]); a shared ring is
    drained in batches, whose requests are retired together under the lock
    ([ring_drain_cqes]). For callbacks that do not touch the ring the two
    compute the same state: processing a completion commutes with retiring the
    earlier ones and with taking entries off the queue. *)
From Stdlib Require Import ZArith Lia List.
From stdpp Require Import base tactics list.
From S2P Require Import Prelude Histogram Controller Ring RingCq RingSpec RingTheorems RingPoll RingDeliver.

#[local] Open Scope Z_scope.

(** The ring and the calling thread's variables are independent components of
    the state. *)
Class RingStateLens (K S : Type) `{RingState K S} : Prop := {
  lens_get_set : forall c s, rs_ring (rs_set_ring c s) = c;
  lens_set_get : forall s, rs_set_ring (rs_ring s) s = s;
  lens_set_set : forall c c' s, rs_set_ring c (rs_set_ring c' s) = rs_set_ring c s;
  lens_get_thread : forall t s, rs_ring (rs_set_thread t s) = rs_ring s;
  lens_thread_set : forall c s, rs_thread (rs_set_ring c s) = rs_thread s;
  lens_swap : forall c t s, rs_set_thread t (rs_set_ring c s) = rs_set_ring c (rs_set_thread t s)
}.

#[export] Instance lens_laws {K S} {RS : RingState K S} {RN : RingStateLens K S} :
  RingStateLaws K S.
Proof. split; [exact lens_get_set|exact lens_get_thread]. Qed.

(** Callbacks that neither read nor write the ring. *)
Definition callback_apart {K S} {RS : RingState K S} : Prop :=
  forall cb req res data s,
    rs_ring (rs_callback cb req res data s) = rs_ring s /\
    forall c, rs_callback cb req res data (rs_set_ring c s) =
              rs_set_ring c (rs_callback cb req res data s).

(** Reading the clock and taking an entry off the queue do not interfere. *)
Definition clock_apart {K} {L : Liburing K} : Prop :=
  forall k, lu_clock_ns (lu_cqe_seen k) =
    (fst (lu_clock_ns k), lu_cqe_seen (snd (lu_clock_ns k))).

(** [seen c]: the head of the queue is taken. *)
Definition seen {K} {L : Liburing K} (c : ring_ctx_t K) : ring_ctx_t K :=
  c <| ring := lu_cqe_seen (ring c) |>.

Definition seen_n {K} {L : Liburing K} (n : nat) (c : ring_ctx_t K) : ring_ctx_t K :=
  c <| ring := Nat.iter n lu_cqe_seen (ring c) |>.

(** ** Updates of the ring that processing a completion commutes with *)

Section Commute.
Context {K : Type} {L : Liburing K}.
Implicit Types (c : ring_ctx_t K).

(** [f] leaves alone what processing the completion of [req] reads and writes. *)
Definition apart (f : ring_ctx_t K -> ring_ctx_t K) (req : Z) c : Prop :=
  pending (req_at (f c) req) = pending (req_at c req) /\
  (pending (req_at c req) = true ->
     req_at (f c) req = req_at c req /\
     forall res, complete_request req res (f c) = f (complete_request req res c)).

Lemma seen_apart req c : clock_apart (K := K) -> apart seen req c.
Proof.
  intros Hk. split; [done|]. intros _. split; [done|]. intros res.
  unfold complete_request, record_sample, seen, upd_req, req_at. cbn.
  destruct (submit_time_ns _ =? 0).
  - by destruct (uses_registered_buffer _), (uses_registered_file _).
  - rewrite !Hk. destruct (lu_clock_ns (ring c)) as [now k]. cbn.
    by destruct (0 <? i64 _), (uses_registered_buffer _), (uses_registered_file _).
Qed.

Lemma seen_retire r c : seen (retire_fast r c) = retire_fast r (seen c).
Proof.
  unfold retire_fast, retire_one, ring_put_request, seen, upd_req, req_at. cbn.
  destruct (re_op_idx r <? 0); [done|].
  destruct (op_eqb _ _); [|destruct ((0 <? _) && _)]; cbn;
    destruct (max_requests c <=? re_op_idx r),
      (in_pool (aget request_zero (requests c) (re_op_idx r))),
      (pending (aget request_zero (requests c) (re_op_idx r))); reflexivity.
Qed.

(** What retiring an entry that is due does to the ring. *)
Definition retired (e : retire_entry_t) c : ring_ctx_t K :=
  let i := re_op_idx e in
  let counts := negb (op_eqb (re_op_type e) AURA_OP_CANCEL) in
  c <| ops_completed := if counts then i64 (ops_completed c + 1) else ops_completed c |>
    <| bytes_completed :=
         if counts && ((0 <? re_result e) && op_is_data_transfer (re_op_type e))
         then i64 (bytes_completed c + re_result e) else bytes_completed c |>
    <| requests := aset (requests c) i ((req_at c i) <| in_pool := true |>) |>
    <| free_request_stack := aset (free_request_stack c) (free_request_count c) i |>
    <| free_request_count := free_request_count c + 1 |>
    <| pending_count := i32 (pending_count c - 1) |>.

Lemma retire_fast_retired e c :
  0 <= re_op_idx e < max_requests c ->
  in_pool (req_at c (re_op_idx e)) = false -> pending (req_at c (re_op_idx e)) = false ->
  retire_fast e c = retired e c.
Proof.
  intros Hi Hp Hq. unfold retire_fast, retire_one, retired, ring_put_request, upd_req, req_at in *.
  destruct (Z.ltb_spec (re_op_idx e) 0); [lia|].
  destruct (op_eqb _ _); cbn; [|destruct ((0 <? _) && _); cbn];
    (destruct (Z.ltb_spec (re_op_idx e) 0); [lia|]);
    (destruct (Z.leb_spec (max_requests c) (re_op_idx e)); [lia|]); cbn;
    rewrite Hp, Hq; by destruct c.
Qed.

Lemma due_one e : 0 <= re_op_idx e -> due [e] = [re_op_idx e].
Proof. intros. unfold due. cbn [fmap list_fmap]. by rewrite filter_cons_True. Qed.

Lemma aset_swap {A} (l : list A) i j x y :
  i <> j -> aset (aset l i x) j y = aset (aset l j y) i x.
Proof.
  intros Hne. unfold aset. destruct (Z.ltb_spec i 0), (Z.ltb_spec j 0); try done.
  apply list_insert_insert_ne. lia.
Qed.

Lemma retire_apart e req c R :
  ring_inv c (due [e] ++ R) -> apart (retire_fast e) req c.
Proof.
  intros Hinv. destruct (Z.ltb_spec (re_op_idx e) 0) as [Hneg|Hpos].
  { assert (forall c, retire_fast e c = c) as H.
    { intros c'. unfold retire_fast. by destruct (Z.ltb_spec (re_op_idx e) 0); [|lia]. }
    split; rewrite H; [done|]. intros _. split; [done|]. intros res. by rewrite H. }
  destruct (ri_due _ _ Hinv (re_op_idx e)) as (Hi & Hip & Hpe).
  { rewrite due_one by done. by left. }
  pose proof (sl_len c (ri_slots _ _ Hinv)) as Hl.
  unfold apart. rewrite (retire_fast_retired e c) by done. split.
  - unfold retired, req_at in *. cbn. destruct (decide (re_op_idx e = req)) as [<-|Hne].
    + by rewrite aget_aset_eq by lia.
    + by rewrite aget_aset_ne.
  - intros Hpr. assert (re_op_idx e <> req) as Hne by (intros <-; congruence).
    assert (req_at (retired e c) req = req_at c req) as Er
      by (unfold retired, req_at; cbn; by apply aget_aset_ne).
    split; [exact Er|]. intros res.
    destruct (complete_request_view req res c) as (Hv & _).
    assert (req_at (complete_request req res c) (re_op_idx e) = req_at c (re_op_idx e)) as Ei
      by (rewrite (slot_view_req _ _ _ Hv); apply req_at_upd_ne; congruence).
    assert (max_requests (complete_request req res c) = max_requests c) as Em
      by (unfold slot_view in Hv; by injection Hv as _ _ _ ->).
    rewrite retire_fast_retired by (by rewrite ?Ei, ?Em).
    assert (forall res, complete_request req res (retired e c) =
      retired e (complete_request req res c)) as H; [|apply H].
    clear res Hv Ei Em. intros res.
    unfold complete_request, record_sample. rewrite Er. unfold retired, req_at, upd_req. cbn.
    destruct (submit_time_ns _ =? 0); [|destruct (lu_clock_ns (ring c)) as [now k]; cbn;
      destruct (0 <? i64 _)].
    all: destruct (uses_registered_buffer _); destruct (uses_registered_file _); cbn.
    all: unfold upd_req, req_at; cbn; rewrite !aget_aset_ne by congruence;
      rewrite (aset_swap (requests c) (re_op_idx e) req) by done; reflexivity.
Qed.

(** ** Locking around a retirement *)

Lemma retire_one_tuned e p u l c : retire_one e (tuned p u l c) = tuned p u l (retire_one e c).
Proof.
  unfold retire_one, ring_put_request, tuned, upd_req, req_at. cbn.
  destruct (op_eqb _ _); [|destruct ((0 <? _) && _)]; cbn;
    destruct (re_op_idx e <? 0), (max_requests c <=? re_op_idx e),
      (in_pool (aget request_zero (requests c) (re_op_idx e))),
      (pending (aget request_zero (requests c) (re_op_idx e))); reflexivity.
Qed.

Lemma retire_loop_tuned es p u l : forall c d,
  retire_loop es (tuned p u l c) d =
    (tuned p u l (fst (retire_loop es c d)), snd (retire_loop es c d)).
Proof.
  induction es as [|e es IH]; intros c d; cbn [retire_loop]; [done|].
  destruct (re_op_idx e <? 0); [done|]. by rewrite retire_one_tuned.
Qed.

(** Retiring a list of entries one by one. *)
Definition retire_all (es : list retire_entry_t) c : ring_ctx_t K :=
  foldl (fun c e => retire_fast e c) c es.

Lemma retire_all_loop es u l : forall c d p,
  INT_MIN <= p <= INT_MAX ->
  retire_all es (tuned p u l c) =
    tuned (i32 (p - (snd (retire_loop es c d) - d))) u l (fst (retire_loop es c d)).
Proof.
  induction es as [|e es IH]; intros c d p Hp; cbn [retire_loop retire_all foldl].
  { cbn. by rewrite Z.sub_diag, Z.sub_0_r, i32_id. }
  unfold retire_fast at 2. destruct (re_op_idx e <? 0); [by apply IH|].
  cbv zeta. rewrite retire_one_tuned.
  change (retire_all es (tuned (i32 (p - 1)) u l (retire_one e c)) =
    tuned (i32 (p - (snd (retire_loop es (retire_one e c) (d + 1)) - d))) u l
      (fst (retire_loop es (retire_one e c) (d + 1)))).
  rewrite (IH _ (d + 1)) by apply i32_range. f_equal. rewrite i32_sub. f_equal. lia.
Qed.

Lemma ring_retire_batch_all es c :
  users_ok c -> INT_MIN <= pending_count c <= INT_MAX ->
  ring_retire_batch es c = retire_all es c.
Proof.
  intros Hu Hp. unfold ring_retire_batch.
  destruct (Z.leb_spec (zlen es) 0) as [Hz|_].
  { by destruct es; [|unfold zlen in Hz; cbn in Hz; lia]. }
  destruct (ring_lock_tuned c (proj1 Hu)) as (st & u & l & -> & Hun).
  rewrite retire_loop_tuned.
  assert (retire_all es c = tuned (i32 (pending_count c - snd (retire_loop es c 0)))
    (st_users c) (lock c) (fst (retire_loop es c 0))) as ->.
  { rewrite <- (tuned_same c) at 1. rewrite (retire_all_loop es _ _ c 0) by done.
    by rewrite Z.sub_0_r. }
  destruct (retire_loop es c 0) as [c2 delta]. cbn [fst snd]. cbv zeta.
  apply (Hun (i32 (pending_count c - delta)) c2).
Qed.
End Commute.

(** ** Processing a batch, then retiring it *)

Section Batches.
Context {K : Type} {L : Liburing K} {LC : LiburingCq K}.
Context {S : Type} {RS : RingState K S} {RN : RingStateLens K S}.
Context (Hcb : callback_apart (K := K) (S := S)) (Hclock : clock_apart (K := K)).
Implicit Types (s : S) (c : ring_ctx_t K).

Lemma upd_ring_upd f g s : upd_ring f (upd_ring g s) = upd_ring (fun c => f (g c)) s.
Proof using RN. unfold upd_ring. by rewrite lens_get_set, lens_set_set. Qed.

Lemma rs_ring_upd f s : rs_ring (upd_ring f s) = f (rs_ring s).
Proof using RN. apply lens_get_set. Qed.

Lemma upd_ring_ext f g s : f (rs_ring s) = g (rs_ring s) -> upd_ring f s = upd_ring g s.
Proof using. unfold upd_ring. by intros ->. Qed.

Lemma upd_ring_same f s : f (rs_ring s) = rs_ring s -> upd_ring f s = s.
Proof using RN. unfold upd_ring. intros ->. apply lens_set_get. Qed.

Lemma apart_ok : callback_ok (K := K) (S := S).
Proof using Hcb. intros cb req res data s R H. by destruct (Hcb cb req res data s) as [-> _]. Qed.

Lemma apart_quiet : callback_quiet (K := K) (S := S).
Proof using Hcb. intros cb req res data s. by destruct (Hcb cb req res data s) as [-> _]. Qed.

Lemma invoke_callback_commute cb req res data f s :
  invoke_callback cb req res data (upd_ring f s) =
    upd_ring f (invoke_callback cb req res data s) /\
  rs_ring (invoke_callback cb req res data s) = rs_ring s.
Proof using Hcb RN.
  unfold invoke_callback. destruct (cb =? 0); [done|].
  unfold upd_thread, upd_ring. rewrite !lens_thread_set, !lens_swap.
  set (s1 := rs_set_thread _ s). destruct (Hcb cb req res data s1) as [Hr Hc].
  rewrite Hc, lens_thread_set, lens_swap, lens_get_thread, Hr.
  unfold s1. by rewrite !lens_get_thread.
Qed.

(** Processing a completion commutes with the updates that leave it apart. *)
Lemma process_commute f req res s r s' :
  (forall q, req = Some q -> apart f q (rs_ring s)) ->
  process_completion req res s = (r, s') ->
  process_completion req res (upd_ring f s) = (r, upd_ring f s').
Proof using Hcb RN.
  intros Ha. destruct req as [q|]; [|by intros [= <- <-]]. destruct (Ha q eq_refl) as [Hp Hc].
  unfold process_completion. rewrite rs_ring_upd, Hp.
  destruct (pending (req_at (rs_ring s) q)); cbn [negb]; [|by intros [= <- <-]].
  destruct (Hc eq_refl) as [-> Hc']. intros E. apply pair_equal_spec in E as [<- <-].
  f_equal. destruct (invoke_callback_commute (callback (req_at (rs_ring s) q)) q res
    (user_data (req_at (rs_ring s) q)) f (upd_ring (complete_request q res) s)) as [<- _].
  f_equal. rewrite !upd_ring_upd. by apply upd_ring_ext.
Qed.

Lemma process_seen req res s r s' :
  process_completion req res s = (r, s') ->
  process_completion req res (upd_ring seen s) = (r, upd_ring seen s').
Proof using Hcb Hclock RN. apply process_commute. intros q _. by apply seen_apart. Qed.

Lemma batch_seen batch : forall s es s',
  process_batch batch s = (es, s') ->
  process_batch batch (upd_ring seen s) = (es, upd_ring seen s').
Proof using Hcb Hclock RN.
  induction batch as [|e batch IH]; intros s es s' E; cbn [process_batch] in *; [by injection E as <- <-|].
  destruct (process_completion _ _ s) as [r s1] eqn:E1. rewrite (process_seen _ _ _ _ _ E1).
  destruct (process_batch batch s1) as [es1 s2] eqn:E2. rewrite (IH _ _ _ E2).
  by injection E as <- <-.
Qed.

Lemma batch_retire r batch : forall s R es s',
  process_batch batch s = (es, s') -> ring_inv (rs_ring s) (due [r] ++ R) ->
  process_batch batch (upd_ring (retire_fast r) s) = (es, upd_ring (retire_fast r) s').
Proof using Hcb RN.
  induction batch as [|e batch IH]; intros s R es s' E Hinv; cbn [process_batch] in *;
    [by injection E as <- <-|].
  destruct (process_completion _ _ s) as [x s1] eqn:E1.
  rewrite (process_commute (retire_fast r) _ _ _ _ _ (fun q _ => retire_apart r q _ R Hinv) E1).
  destruct (process_batch batch s1) as [es1 s2] eqn:E2.
  rewrite (IH _ (due [x] ++ R) _ _ E2).
  - by injection E as <- <-.
  - eapply ring_inv_perm; [|by apply (process_completion_inv apart_ok _ _ _ (due [r] ++ R) _ _ E1)].
    rewrite !(assoc_L (++)). apply Permutation_app_tail, Permutation_app_comm.
Qed.

Lemma iter_seen n s : Nat.iter n (upd_ring seen) s = upd_ring (seen_n n) s.
Proof using RN.
  induction n as [|n IH].
  { symmetry. apply upd_ring_same. unfold seen_n. cbn. by destruct (rs_ring s). }
  rewrite Nat.iter_succ, IH, upd_ring_upd. by apply upd_ring_ext.
Qed.

Lemma process_iter_seen n req res s r s' :
  process_completion req res s = (r, s') ->
  process_completion req res (Nat.iter n (upd_ring seen) s) = (r, Nat.iter n (upd_ring seen) s').
Proof using Hcb Hclock RN.
  intros E. induction n as [|n IH]; [done|]. rewrite !Nat.iter_succ. by apply process_seen.
Qed.

Lemma iter_seen_retire n r s :
  Nat.iter n (upd_ring seen) (upd_ring (retire_fast r) s) =
    upd_ring (retire_fast r) (Nat.iter n (upd_ring seen) s).
Proof using RN.
  induction n as [|n IH]; [done|]. rewrite !Nat.iter_succ, IH, !upd_ring_upd. apply upd_ring_ext, seen_retire.
Qed.

(** The fast drain of a batch. *)
Fixpoint handle_batch (batch : list cqe_t) s : S :=
  match batch with
  | [] => s
  | e :: batch =>
      let '(r, s) := process_completion (cqe_data e) (cqe_res e) (upd_ring seen s) in
      handle_batch batch (upd_ring (retire_fast r) s)
  end.

Lemma handle_batch_retire batch : forall s es s',
  process_batch batch (Nat.iter (length batch) (upd_ring seen) s) = (es, s') ->
  ring_inv (rs_ring s) [] ->
  handle_batch batch s = upd_ring (retire_all es) s'.
Proof using Hcb Hclock RN.
  induction batch as [|e batch IH]; intros s es s' E Hinv; cbn [process_batch handle_batch] in *.
  { injection E as <- <-. symmetry. by apply upd_ring_same. }
  destruct (process_completion _ _ (upd_ring seen s)) as [r s1] eqn:E1.
  assert (ring_inv (rs_ring s1) (due [r])) as Hinv1.
  { rewrite <- (app_nil_r (due [r])). apply (process_completion_inv apart_ok _ _ _ _ _ _ E1).
    rewrite rs_ring_upd. by apply (ring_inv_view (rs_ring s)). }
  cbn [length] in E. rewrite Nat.iter_succ_r, (process_iter_seen _ _ _ _ _ _ E1) in E.
  destruct (process_batch batch _) as [es1 s2] eqn:E2. injection E as <- <-.
  rewrite (IH (upd_ring (retire_fast r) s1) es1 (upd_ring (retire_fast r) s2)).
  - by rewrite upd_ring_upd.
  - rewrite iter_seen_retire. apply (batch_retire r batch _ []); [done|].
    rewrite app_nil_r, iter_seen, rs_ring_upd. by apply (ring_inv_view (rs_ring s1)).
  - rewrite rs_ring_upd. by apply retire_fast_inv.
Qed.
End Batches.

(** ** The loops *)

Section Loops.
Context {K : Type} {L : Liburing K} {LC : LiburingCq K}.
Context {S : Type} {RS : RingState K S} {RN : RingStateLens K S}.
Context (Hcb : callback_apart (K := K) (S := S)) (Hclock : clock_apart (K := K)).
Implicit Types (s : S) (c : ring_ctx_t K).

(** What the next turn of the drain needs of the ring. *)
Definition drainable c : Prop :=
  ring_inv c [] /\ users_ok c /\ 0 < poll_batch_size c.

Lemma complete_request_users req res c : users_ok c -> users_ok (complete_request req res c).
Proof using.
  unfold complete_request, record_sample, users_ok. intros H.
  destruct (submit_time_ns _ =? 0); [|destruct (lu_clock_ns _); destruct (0 <? _)];
    destruct (uses_registered_buffer _), (uses_registered_file _); exact H.
Qed.

Lemma process_batch_users batch : forall s es s',
  process_batch batch s = (es, s') -> users_ok (rs_ring s) -> users_ok (rs_ring s').
Proof using Hcb RN.
  induction batch as [|e batch IH]; intros s es s' E H; cbn [process_batch] in E; [by injection E as _ <-|].
  destruct (process_completion _ _ s) as [r s1] eqn:E1.
  destruct (process_batch batch s1) as [es1 s2] eqn:E2. injection E as _ <-.
  apply (IH _ _ _ E2). unfold process_completion in E1.
  destruct (cqe_data e) as [q|]; [|by injection E1 as _ <-].
  destruct (negb _); [by injection E1 as _ <-|]. apply pair_equal_spec in E1 as [_ <-].
  destruct (invoke_callback_commute Hcb (callback (req_at (rs_ring s) q)) q (cqe_res e)
    (user_data (req_at (rs_ring s) q)) id (upd_ring (complete_request q (cqe_res e)) s)) as [_ ->].
  rewrite rs_ring_upd. by apply complete_request_users.
Qed.

Lemma put_users c i : users_ok c -> users_ok (ring_put_request c i).
Proof using.
  intros H. unfold ring_put_request. destruct (_ || _); [done|].
  destruct (in_pool _); [done|]. by destruct (pending _).
Qed.

Lemma retire_all_users es : forall c, users_ok c -> users_ok (retire_all es c).
Proof using.
  induction es as [|e es IH]; intros c H; [done|]. apply IH.
  unfold retire_fast, retire_one. destruct (re_op_idx e <? 0); [done|].
  apply (put_users _ (re_op_idx e)).
  destruct (op_eqb _ _); [done|]. by destruct ((0 <? _) && _).
Qed.

Lemma peek_batch_seen n : forall k,
  peek_batch n k = (take n (lu_cq k), Nat.iter (length (take n (lu_cq k))) lu_cqe_seen k).
Proof using.
  induction n as [|n IH]; intros k; cbn [peek_batch take]; [done|].
  rewrite lu_peek_head, IH, lu_seen_tail. destruct (lu_cq k) as [|e q]; [done|].
  cbn [head tail]. f_equal. symmetry. apply (Nat.iter_succ_r (length (take n q))).
Qed.

(** A batch is taken off the queue and the lock counter is back. *)
Lemma take_batch_seen c :
  users_ok c ->
  take_batch c =
    (take (Z.to_nat (poll_batch_size c)) (lu_cq (ring c)),
     seen_n (length (take (Z.to_nat (poll_batch_size c)) (lu_cq (ring c)))) c).
Proof using.
  intros [_ Hu]. unfold take_batch.
  assert (exists st q, ring_cq_lock c = (st, c <| st_cq_users := fst q |> <| cq_lock := snd q |>) /\
    forall c', ring_cq_unlock (c' <| st_cq_users := fst q |> <| cq_lock := snd q |>) st =
      c' <| st_cq_users := st_cq_users c |> <| cq_lock := cq_lock c |>) as (st & q & -> & Hun).
  { unfold ring_cq_lock. destruct (single_thread c) eqn:Est; cbn; rewrite ?Est; cbn.
    - exists true, (i32 (st_cq_users c + 1), cq_lock c). split; [by destruct c|].
      intros c'. cbn. rewrite i32_sub.
      replace (st_cq_users c + 1 - 1) with (st_cq_users c) by lia. by rewrite i32_id by lia.
    - exists false, (st_cq_users c, cq_lock c + 1). split; [by destruct c|].
      intros c'. cbn. by replace (cq_lock c + 1 - 1) with (cq_lock c) by lia. }
  cbn. rewrite peek_batch_seen.
  f_equal. etrans; [exact (Hun (c <| ring := Nat.iter _ lu_cqe_seen (ring c) |>))|by destruct c].
Qed.
Lemma seen_cq n c : lu_cq (ring (seen_n n c)) = drop n (lu_cq (ring c)).
Proof using.
  unfold seen_n. cbn. generalize (ring c). induction n as [|n IH]; intros k; [done|].
  rewrite Nat.iter_succ_r, IH, lu_seen_tail. destruct (lu_cq k); cbn; by rewrite ?drop_nil.
Qed.

Lemma handle_batch_app p q : forall s, handle_batch (p ++ q) s = handle_batch q (handle_batch p s).
Proof using.
  induction p as [|e p IH]; intros s; [done|]. cbn [handle_batch app].
  destruct (process_completion _ _ _) as [r s1]. apply IH.
Qed.

(** One turn of the batch drain is the fast drain of the batch. *)
Lemma batch_turn s :
  drainable (rs_ring s) ->
  let batch := take (Z.to_nat (poll_batch_size (rs_ring s))) (lu_cq (ring (rs_ring s))) in
  exists es s2, process_batch batch (upd_ring (seen_n (length batch)) s) = (es, s2) /\
    upd_ring (ring_retire_batch es) s2 = handle_batch batch s /\
    drainable (rs_ring (handle_batch batch s)) /\
    lu_cq (ring (rs_ring (handle_batch batch s))) = drop (length batch) (lu_cq (ring (rs_ring s))) /\
    poll_batch_size (rs_ring (handle_batch batch s)) = poll_batch_size (rs_ring s).
Proof using Hcb Hclock RN.
  intros (Hinv & Hu & Hb) batch.
  destruct (process_batch batch (upd_ring (seen_n (length batch)) s)) as [es s2] eqn:E.
  assert (Hinv1 : ring_inv (rs_ring (upd_ring (seen_n (length batch)) s)) [])
    by (rewrite rs_ring_upd; by apply (ring_inv_view (rs_ring s))).
  destruct (process_batch_inv (apart_ok Hcb) _ _ [] _ _ E Hinv1) as [Hinv2 _].
  rewrite app_nil_r in Hinv2.
  pose proof (process_batch_users _ _ _ _ E) as Hu2. rewrite rs_ring_upd in Hu2.
  specialize (Hu2 Hu).
  pose proof (process_batch_cq (apart_quiet Hcb) _ _ _ _ E) as Hq. unfold drain_view in Hq.
  rewrite rs_ring_upd, seen_cq in Hq. injection Hq as Hq1 Hq2.
  assert (upd_ring (ring_retire_batch es) s2 = upd_ring (retire_all es) s2) as Er.
  { apply upd_ring_ext, ring_retire_batch_all; [done|].
    pose proof (ring_inv_pending_range _ _ Hinv2). unfold INT_MIN, INT_MAX. lia. }
  destruct (ring_retire_batch_inv es (rs_ring s2) Hinv2) as (Hinv3 & Hb3 & Hk3).
  exists es, s2. split; [done|].
  rewrite (handle_batch_retire Hcb Hclock batch s es s2) by (by rewrite ?iter_seen).
  split; [done|]. rewrite <- Er, rs_ring_upd, Hk3, Hb3, Hq1, Hq2. split; [|done].
  split; [done|]. split; [|by rewrite Hb3, Hq2].
  replace (ring_retire_batch es (rs_ring s2)) with (retire_all es (rs_ring s2)).
  - by apply retire_all_users.
  - rewrite <- (rs_ring_upd (retire_all es)), <- Er. by rewrite rs_ring_upd.
Qed.

Lemma drain_handles fuel : forall n s,
  drainable (rs_ring s) -> (length (lu_cq (ring (rs_ring s))) < fuel)%nat ->
  ring_drain_cqes fuel n s =
    Some (n + zlen (lu_cq (ring (rs_ring s))), handle_batch (lu_cq (ring (rs_ring s))) s).
Proof using Hcb Hclock RN.
  induction fuel as [|fuel IH]; intros n s Hd Hf; [lia|]. cbn [ring_drain_cqes].
  pose proof Hd as (_ & Hu & Hb). rewrite on_ring_set, take_batch_seen by done. cbn [fst snd].
  destruct (batch_turn s Hd) as (es & s2 & E & Er & Hd2 & Hq2 & Hb2).
  set (q := lu_cq (ring (rs_ring s))) in *. set (b := poll_batch_size (rs_ring s)) in *.
  set (batch := take (Z.to_nat b) q) in *.
  assert (length batch = Nat.min (Z.to_nat b) (length q)) as Hlb by apply length_take.
  destruct (Z.eqb_spec (zlen batch) 0) as [Hz|Hz].
  { assert (q = []) as Hq by (destruct q; [done|unfold zlen in Hz; cbn in Hlb; lia]).
    assert (batch = []) as -> by (unfold batch; by rewrite Hq, take_nil). rewrite Hq. cbn.
    rewrite Z.add_0_r. do 2 f_equal. apply (upd_ring_same (seen_n 0)). by destruct (rs_ring s). }
  fold (upd_ring (seen_n (length batch)) s). rewrite E, Er, IH; [|done|].
  - rewrite Hq2, <- handle_batch_app.
    assert (batch ++ drop (length batch) q = q) as Eq.
    { rewrite Hlb. destruct (Nat.min_spec (Z.to_nat b) (length q)) as [[_ ->]|[? ->]];
        [apply take_drop|unfold batch]. by rewrite drop_all, app_nil_r, take_ge by lia. }
    rewrite Eq. rewrite <- Eq at 3. unfold zlen. rewrite length_app. do 2 f_equal. lia.
  - rewrite Hq2, length_drop. unfold zlen in Hz. lia.
Qed.
Lemma fast_handles fuel : forall n s,
  (length (lu_cq (ring (rs_ring s))) < fuel)%nat ->
  drain_fast_loop fuel n s =
    Some (n + zlen (lu_cq (ring (rs_ring s))), handle_batch (lu_cq (ring (rs_ring s))) s).
Proof using Hcb RN.
  induction fuel as [|fuel IH]; intros n s Hf; [lia|]. cbn [drain_fast_loop].
  rewrite lu_peek_head. destruct (lu_cq (ring (rs_ring s))) as [|e q] eqn:Eq; cbn [head handle_batch].
  { by rewrite Z.add_0_r. }
  change (upd_ring _ s) with (upd_ring seen s).
  destruct (process_completion _ _ (upd_ring seen s)) as [r s1] eqn:E.
  apply (process_completion_cq (apart_quiet Hcb)) in E. unfold drain_view in E.
  rewrite rs_ring_upd in E. apply pair_equal_spec in E as [E _].
  change (lu_cq (ring (rs_ring s1)) = lu_cq (lu_cqe_seen (ring (rs_ring s)))) in E.
  rewrite lu_seen_tail, Eq in E. cbn [tail] in E.
  assert (lu_cq (ring (rs_ring (upd_ring (retire_fast r) s1))) = q) as Eq2.
  { rewrite rs_ring_upd. unfold retire_fast. destruct (_ <? 0); [done|].
    change (lu_cq (ring (retire_one r (rs_ring s1))) = q).
    by destruct (retire_one_view r (rs_ring s1)) as (_ & _ & _ & ->). }
  rewrite IH, Eq2 by (rewrite Eq2; cbn in Hf; lia). unfold zlen. cbn [length].
  do 2 f_equal. lia.
Qed.

(** C11. The lock-free drain of a ring with one owner and the batched drain of
    a shared ring are equivalent: for callbacks that do not touch the ring they
    both return the number of queued completions and leave the same state, to
    the last field of the ring (slots, free stack, counters, controller, locks
    released) and with the same effects of the callbacks in the same order. *)
Theorem drains_equivalent fuel s :
  ring_initialized (rs_ring s) = true -> drainable (rs_ring s) ->
  (length (lu_cq (ring (rs_ring s))) < fuel)%nat ->
  exists s', ring_drain_cqes_fast fuel s = Some (zlen (lu_cq (ring (rs_ring s))), s') /\
    ring_drain_cqes fuel 0 s = Some (zlen (lu_cq (ring (rs_ring s))), s').
Proof using Hcb Hclock RN.
  intros Hi Hd Hf. eexists. unfold ring_drain_cqes_fast. rewrite Hi. cbn [negb].
  by rewrite fast_handles, drain_handles by done.
Qed.
End Loops.

#[export] Instance logging_lens : RingStateLens Demo.kernel Logging.state.
Proof. split; by intros; destruct_and?; repeat match goal with s : Logging.state |- _ => destruct s as [[? ?] ?] end. Defined.

Lemma logging_apart : callback_apart (K := Demo.kernel) (S := Logging.state).
Proof. by intros cb req res data [[c t] l]. Qed.

Lemma demo_clock_apart : clock_apart (K := Demo.kernel).
Proof. done. Qed.

(** The completion of slot 7, the same again, and one without a request. *)
Lemma drains_equivalent_witness :
  exists c t s', Demo.queued0 demo_cq = Some (c, t) /\
    ring_drain_cqes_fast 9 ((c, t, []) : Logging.state) = Some (3, s') /\
    ring_drain_cqes 9 0 ((c, t, []) : Logging.state) = Some (3, s').
Proof.
  destruct (Demo.queued0 demo_cq) as [[c t]|] eqn:E; [|vm_compute in E; discriminate].
  assert (ring_initialized c = true /\ poll_batch_size c = 16 /\ lu_cq (ring c) = demo_cq /\
    st_users c = 0 /\ st_cq_users c = 0) as (Hi & Hb & Hq & Hu1 & Hu2)
    by (vm_compute in E; by injection E as <- _).
  destruct (drains_equivalent (S := Logging.state) logging_apart demo_clock_apart 9 (c, t, []))
    as (s' & E1 & E2).
  - exact Hi.
  - split; [exact (demo_queued_inv demo_cq c t E)|]. split; [|change (0 < poll_batch_size c); lia].
    unfold users_ok, INT_MIN, INT_MAX. cbn. lia.
  - change (length (lu_cq (ring c)) < 9)%nat. rewrite Hq. cbn. lia.
  - change (lu_cq (ring (rs_ring (c, t, [])))) with (lu_cq (ring c)) in E1, E2. rewrite Hq in E1, E2.
    exists c, t, s'. split_and!; [done|exact E1|exact E2].
Defined.
