(* ===== verification/RingDestroy.v ===== *)
(** * Destruction of a ring ends

    [ring_wait] with a finite timeout returns, and [ring_destroy] makes at most
    a hundred attempts to drain, whatever liburing and the callbacks do, as
    long as the completion queue is bounded. *)
From Stdlib Require Import ZArith Lia List.
From stdpp Require Import base tactics list.
From S2P Require Import Prelude Histogram Controller Ring RingCq RingSpec RingTheorems RingPoll.

#[local] Open Scope Z_scope.

(** The completion queue has a fixed size. *)
Class LiburingBounded (K : Type) `{LiburingCq K} := {
  lu_cq_size : nat;
  lu_cq_bounded : forall k, (length (lu_cq k) <= lu_cq_size)%nat
}.

Section Destroy.
Context {K : Type} {L : Liburing K} {LC : LiburingCq K} {LB : LiburingBounded K}.
Context {S : Type} {RS : RingState K S} {RL : RingStateLaws K S}.
Context (Hquiet : callback_quiet (K := K) (S := S)).
Implicit Types (s : S) (c : ring_ctx_t K).

Lemma drain_batch_size fuel : forall n s r s',
  ring_drain_cqes fuel n s = Some (r, s') ->
  poll_batch_size (rs_ring s') = poll_batch_size (rs_ring s).
Proof using Hquiet RL.
  induction fuel as [|fuel IH]; intros n s r s' E; [done|]. cbn [ring_drain_cqes] in E.
  rewrite on_ring_set in E. destruct (take_batch (rs_ring s)) as [batch c1] eqn:E1.
  cbn [fst snd] in E. apply take_batch_cq in E1 as (_ & _ & Ep).
  destruct (_ =? 0); [injection E as _ <-; by rewrite rs_ring_set|].
  destruct (process_batch batch _) as [es s2] eqn:E2.
  apply (process_batch_cq Hquiet) in E2. unfold drain_view in E2. rewrite rs_ring_set in E2.
  injection E2 as _ E2. apply IH in E. rewrite E. unfold upd_ring. rewrite rs_ring_set.
  destruct (ring_retire_batch_cq es (rs_ring s2)) as [_ ->]. congruence.
Qed.

Lemma drain_fast_batch_size fuel : forall n s r s',
  drain_fast_loop fuel n s = Some (r, s') ->
  poll_batch_size (rs_ring s') = poll_batch_size (rs_ring s).
Proof using Hquiet RL.
  induction fuel as [|fuel IH]; intros n s r s' E; [done|]. cbn [drain_fast_loop] in E.
  destruct (lu_peek_cqe _) as [cqe|]; [|by injection E as _ <-].
  destruct (process_completion _ _ _) as [e s2] eqn:E2.
  apply (process_completion_cq Hquiet) in E2. unfold drain_view, upd_ring in E2.
  rewrite rs_ring_set in E2. injection E2 as _ E2. apply IH in E. rewrite E. unfold upd_ring.
  rewrite rs_ring_set. unfold retire_fast. destruct (_ <? 0); [exact E2|].
  destruct (retire_one_view e (rs_ring s2)) as (_ & _ & H & _). cbn. rewrite H. exact E2.
Qed.

Lemma drain_returns fuel n s :
  0 < poll_batch_size (rs_ring s) -> (lu_cq_size < fuel)%nat ->
  exists r s', ring_drain_cqes fuel n s = Some (r, s') /\
    poll_batch_size (rs_ring s') = poll_batch_size (rs_ring s).
Proof using Hquiet RL.
  intros Hb Hf. pose proof (lu_cq_bounded (ring (rs_ring s))).
  destruct (ring_drain_cqes_exact Hquiet fuel n s Hb) as (s' & E & _); [lia|].
  do 2 eexists. split; [exact E|]. by eapply drain_batch_size.
Qed.

Lemma lock_batch_size c : poll_batch_size (snd (ring_cq_lock c)) = poll_batch_size c.
Proof using. unfold ring_cq_lock. destruct (single_thread c); [destruct (negb _)|]; done. Qed.

(** [ring_wait] with a timeout of zero or more returns. *)
Lemma ring_wait_returns fuel timeout s :
  0 <= timeout -> 0 < poll_batch_size (rs_ring s) -> (lu_cq_size < fuel)%nat ->
  exists r s', ring_wait fuel timeout s = Some (r, s') /\
    poll_batch_size (rs_ring s') = poll_batch_size (rs_ring s).
Proof using Hquiet RL.
  intros Ht Hb Hf. unfold ring_wait. destruct (negb _); [by do 2 eexists|].
  destruct (_ =? 0); [by do 2 eexists|]. destruct (Z.eqb_spec timeout 0) as [->|Hne].
  - destruct (single_thread (rs_ring s)).
    + unfold ring_drain_cqes_fast. destruct (negb _); [by do 2 eexists|].
      pose proof (lu_cq_bounded (ring (rs_ring s))).
      destruct (drain_fast_loop_exact Hquiet fuel 0 s) as (s' & E & _); [lia|].
      rewrite E. do 2 eexists. split; [reflexivity|]. by eapply drain_fast_batch_size.
    + destruct (drain_returns fuel 0 s Hb Hf) as (r & s' & E & Hs'). rewrite E. by do 2 eexists.
  - rewrite on_ring_set. destruct (ring_cq_lock (rs_ring s)) as [st c1] eqn:El. cbn [fst snd].
    pose proof (lock_batch_size (rs_ring s)) as Hl. rewrite El in Hl. cbn [snd] in Hl.
    set (s1 := rs_set_ring c1 s).
    assert (poll_batch_size (rs_ring s1) = poll_batch_size (rs_ring s)) as H1
      by (unfold s1; by rewrite rs_ring_set).
    set (s2 := upd_ring (fun c => ring_cq_unlock c st) s1).
    assert (poll_batch_size (rs_ring s2) = poll_batch_size (rs_ring s)) as H2.
    { unfold s2, upd_ring. rewrite rs_ring_set, <- H1. unfold ring_cq_unlock. by destruct st. }
    destruct (lu_peek_cqe _) as [cqe|].
    + destruct (drain_returns fuel 0 s2) as (r & s' & E & Hs'); [lia|done|].
      rewrite E. do 2 eexists. split; [reflexivity|]. congruence.
    + unfold wait_blocking. destruct (Z.ltb_spec timeout 0); [lia|]. rewrite on_ring_set.
      destruct (lu_wait_cqe_timeout timeout (ring (rs_ring s2))) as [ret k]. cbn [fst snd].
      set (s3 := rs_set_ring _ s2).
      assert (poll_batch_size (rs_ring s3) = poll_batch_size (rs_ring s)) as H3
        by (unfold s3; by rewrite rs_ring_set).
      destruct (_ && _); [by do 2 eexists|].
      destruct (drain_returns fuel 0 s3) as (r & s' & E & Hs'); [lia|done|].
      rewrite E. do 2 eexists. split; [reflexivity|]. congruence.
Qed.

Lemma ring_flush_batch_size c t : poll_batch_size (snd (fst (ring_flush c t))) = poll_batch_size c.
Proof using.
  unfold ring_flush. destruct (negb _); [done|]. destruct (_ =? 0); [done|]. unfold flush_submit.
  destruct (lu_submit _) as [n k]. destruct (n <? 0); [done|]. cbv zeta. by destruct (0 <? n).
Qed.

Lemma flush_locked_batch_size s :
  poll_batch_size (rs_ring (flush_locked s)) = poll_batch_size (rs_ring s).
Proof using RL.
  unfold flush_locked. rewrite on_ring_set.
  assert (poll_batch_size (snd (ring_lock (rs_ring s))) = poll_batch_size (rs_ring s)) as Hl.
  { unfold ring_lock. destruct (single_thread _); [destruct (negb _)|]; done. }
  destruct (ring_lock (rs_ring s)) as [st c1]. cbn [fst snd] in *. unfold on_ring_thread.
  rewrite rs_ring_set. pose proof (ring_flush_batch_size c1 (rs_thread (rs_set_ring c1 s))) as Hf.
  destruct (ring_flush _ _) as [[r c2] t2]. cbn [fst snd] in Hf. unfold upd_ring.
  rewrite rs_ring_set, rs_ring_thread, rs_ring_set. unfold ring_unlock. destruct st; cbn; congruence.
Qed.

Lemma destroy_drain_returns attempts fuel : forall s,
  0 < poll_batch_size (rs_ring s) -> (lu_cq_size < fuel)%nat ->
  exists s', destroy_drain attempts fuel s = Some s'.
Proof using Hquiet RL.
  induction attempts as [|n IH]; intros s Hb Hf; cbn [destroy_drain]; [by eexists|].
  destruct (0 <? _); [|by eexists].
  destruct (ring_wait_returns fuel 100 (flush_locked s)) as (r & s' & E & Hs');
    [lia|by rewrite flush_locked_batch_size|done|].
  rewrite E. apply IH; [|done]. by rewrite Hs', flush_locked_batch_size.
Qed.

(** C13. Destroying a ring always ends: with a completion queue of bounded size
    and callbacks during which no completion arrives, [ring_destroy] returns
    even if requests never complete (it gives up after a hundred timed waits),
    and leaves a ring that is not initialised and owns no request memory. *)
Theorem ring_destroy_terminates fuel s :
  0 < poll_batch_size (rs_ring s) -> (lu_cq_size < fuel)%nat ->
  exists s', ring_destroy fuel s = Some s' /\ ring_initialized (rs_ring s') = false /\
    requests (rs_ring s') = [] /\ free_request_stack (rs_ring s') = [].
Proof using Hquiet RL.
  intros Hb Hf. unfold ring_destroy.
  set (s1 := if needs_enable (rs_ring s) then _ else _).
  assert (poll_batch_size (rs_ring s1) = poll_batch_size (rs_ring s)) as H1.
  { unfold s1. destruct (needs_enable _); [|done]. rewrite on_ring_set. cbn [snd].
    rewrite rs_ring_set. unfold ring_enable. destruct (negb _); [done|]. destruct (negb _); [done|].
    destruct (lu_enable_rings _) as [ret k]. by destruct (ret <? 0). }
  clearbody s1. set (s2 := flush_locked _).
  assert (poll_batch_size (rs_ring s2) = poll_batch_size (rs_ring s)) as H2.
  { unfold s2. rewrite flush_locked_batch_size. unfold upd_ring. by rewrite rs_ring_set. }
  destruct (destroy_drain_returns (Z.to_nat RING_DESTROY_MAX_DRAIN_ATTEMPTS) fuel s2)
    as (s3 & ->); [lia|done|].
  eexists. split; [reflexivity|]. unfold upd_ring. rewrite !rs_ring_set.
  destruct (ring_initialized (rs_ring s3)) eqn:Ei; by repeat split.
Qed.
End Destroy.

#[global, program] Instance demo_bounded : LiburingBounded Demo.kernel := { lu_cq_size := 8 }.
Next Obligation. intros k. cbn. unfold Demo.cq8. rewrite length_take. lia. Qed.

(** A ring whose one request never completes. *)
Lemma ring_destroy_terminates_witness :
  exists c t s', Demo.queued0 [] = Some (c, t) /\
    ring_destroy 9 ((c, t) : Demo.state) = Some s' /\ ring_initialized (fst s') = false.
Proof.
  destruct (Demo.queued0 []) as [[c t]|] eqn:E; [|vm_compute in E; discriminate].
  assert (0 < poll_batch_size c) as Hb by (vm_compute in E; by injection E as <- _).
  destruct (ring_destroy_terminates (S := Demo.state) demo_callback_quiet 9 (c, t)) as (s' & E' & Hi & _);
    [exact Hb|cbn; lia|].
  exists c, t, s'. split; [done|]. split; [exact E'|exact Hi].
Defined.
