(* ===== verification/Engine.v ===== *)
(** * The engine: state, ring selection, registration, submission

    [aura.c] 80-511 and 677-934: the engine structure and the calling thread's variables,
    ring selection, registered files and buffers with their deferred
    unregistration, and the submit_begin / submit_end / submit_abort protocol.

    A ring pointer is its index in [engine->rings]; a pointer is in the array
    when the index is between 0 and [ring_count]. The registration lock is a
    pair of hold counts, like the ring locks of [Ring]. An operation maps a
    state to a value and a state, or to [None] when it does not return (a spin
    nobody ends, or a drain longer than [fuel]). *)
From Stdlib Require Import ZArith Lia List.
From stdpp Require Import base tactics list.
From S2P Require Import Prelude Double Histogram Controller Ring RingCq.

#[local] Open Scope Z_scope.

(** ** State *)

Inductive aura_ring_select_t :=
  | AURA_SELECT_ADAPTIVE | AURA_SELECT_CPU_LOCAL | AURA_SELECT_ROUND_ROBIN | AURA_SELECT_THREAD_LOCAL.

Definition is_thread_local (m : aura_ring_select_t) : bool :=
  match m with AURA_SELECT_THREAD_LOCAL => true | _ => false end.

Record iovec := { iov_base : Z; iov_len : Z }.

(** The registration calls of liburing on one ring. *)
Class LiburingReg (K : Type) := {
  lu_register_buffers : list iovec -> K -> Z * K;
  lu_unregister_buffers : K -> K;
  lu_register_files : list Z -> K -> Z * K;
  lu_unregister_files : K -> K;
  lu_register_files_update : Z -> Z -> K -> Z * K;
  lu_register_eventfd : Z -> K -> Z * K;
  lu_unregister_eventfd : K -> K
}.

(** The rest of the operating system. *)
Class EngineOs (O : Type) := {
  os_getcpu : O -> Z * O;              (* sched_getcpu *)
  os_self : O -> Z;                    (* pthread_self *)
  os_eventfd_write : Z -> O -> O;
  os_eventfd_drain : Z -> O -> O;
  os_close : Z -> O -> O;
  os_poll : Z -> Z -> O -> Z * O;      (* poll(eventfd, timeout): > 0, 0 or -errno *)
  os_now_ns : O -> Z * O;
  os_malloc : Z -> O -> bool * O       (* whether an allocation succeeds *)
}.

(** [struct aura_engine]; the array of rings is a function of the index. *)
Record engine_t {K : Type} := {
  rings : Z -> ring_ctx_t K;
  ring_count : Z;
  queue_depth : Z;
  next_ring : Z;                       (* unsigned *)
  avg_ring_pending : Z;
  e_shutting_down : bool;
  ring_select : aura_ring_select_t;
  e_single_thread : bool;
  fatal_submit_errno : Z;              (* 0 = none *)
  buffers_registered : bool;
  files_registered : bool;
  buffers_unreg_pending : bool;
  files_unreg_pending : bool;
  reg_rd : Z;                          (* reg_lock: read holds *)
  reg_wr : Z;                          (* reg_lock: write holds *)
  registered_buffers : list iovec;
  registered_files : list Z;
  registered_buffer_count : Z;
  registered_file_count : Z;
  running : bool;
  stop_requested : bool;
  tick_running : bool;
  adaptive_enabled : bool;
  e_sqpoll_enabled : bool;
  event_fd : Z;
  eventfd_registered : bool;
  buffer_alignment : Z;
  adaptive_spills : Z                  (* uint64_t *)
}.
#[global] Arguments engine_t K : clear implicits.

Definition engine_eta {K} (e : engine_t K) : engine_t K := {|
  rings := rings e; ring_count := ring_count e; queue_depth := queue_depth e;
  next_ring := next_ring e; avg_ring_pending := avg_ring_pending e;
  e_shutting_down := e_shutting_down e; ring_select := ring_select e;
  e_single_thread := e_single_thread e; fatal_submit_errno := fatal_submit_errno e;
  buffers_registered := buffers_registered e; files_registered := files_registered e;
  buffers_unreg_pending := buffers_unreg_pending e; files_unreg_pending := files_unreg_pending e;
  reg_rd := reg_rd e; reg_wr := reg_wr e; registered_buffers := registered_buffers e;
  registered_files := registered_files e; registered_buffer_count := registered_buffer_count e;
  registered_file_count := registered_file_count e; running := running e;
  stop_requested := stop_requested e; tick_running := tick_running e;
  adaptive_enabled := adaptive_enabled e; e_sqpoll_enabled := e_sqpoll_enabled e;
  event_fd := event_fd e; eventfd_registered := eventfd_registered e;
  buffer_alignment := buffer_alignment e; adaptive_spills := adaptive_spills e
|}.

(** The calling thread's variables of [aura.c], with those of
    [adaptive_ring.c] in [thr]; [tls_engine] says whether the pointer is this
    engine. *)
Record tls_t := {
  thr : thread_t;
  cached_cpu : Z;
  cpu_refresh_counter : Z;
  tls_link_ring : option Z;
  tls_link_depth : Z;
  tls_last_ring : option Z;
  tls_owned_ring : option Z;
  tls_engine : bool;
  tls_rng_state : Z
}.

Definition tls_eta (t : tls_t) : tls_t := {|
  thr := thr t; cached_cpu := cached_cpu t; cpu_refresh_counter := cpu_refresh_counter t;
  tls_link_ring := tls_link_ring t; tls_link_depth := tls_link_depth t;
  tls_last_ring := tls_last_ring t; tls_owned_ring := tls_owned_ring t;
  tls_engine := tls_engine t; tls_rng_state := tls_rng_state t
|}.

Record estate {K O : Type} := { eng : engine_t K; tls : tls_t; os : O }.
#[global] Arguments estate K O : clear implicits.
Definition estate_eta {K O} (s : estate K O) : estate K O :=
  {| eng := eng s; tls := tls s; os := os s |}.

Section Setters.
Context {K O : Type}.
#[export] Instance set_rings : Setter (@rings K) := ltac:(mk_setter (@engine_eta K)).
#[export] Instance set_next_ring : Setter (@next_ring K) := ltac:(mk_setter (@engine_eta K)).
#[export] Instance set_avg_ring_pending : Setter (@avg_ring_pending K) := ltac:(mk_setter (@engine_eta K)).
#[export] Instance set_e_shutting_down : Setter (@e_shutting_down K) := ltac:(mk_setter (@engine_eta K)).
#[export] Instance set_e_single_thread : Setter (@e_single_thread K) := ltac:(mk_setter (@engine_eta K)).
#[export] Instance set_fatal_submit_errno : Setter (@fatal_submit_errno K) := ltac:(mk_setter (@engine_eta K)).
#[export] Instance set_buffers_registered : Setter (@buffers_registered K) := ltac:(mk_setter (@engine_eta K)).
#[export] Instance set_files_registered : Setter (@files_registered K) := ltac:(mk_setter (@engine_eta K)).
#[export] Instance set_buffers_unreg_pending : Setter (@buffers_unreg_pending K) := ltac:(mk_setter (@engine_eta K)).
#[export] Instance set_files_unreg_pending : Setter (@files_unreg_pending K) := ltac:(mk_setter (@engine_eta K)).
#[export] Instance set_reg_rd : Setter (@reg_rd K) := ltac:(mk_setter (@engine_eta K)).
#[export] Instance set_reg_wr : Setter (@reg_wr K) := ltac:(mk_setter (@engine_eta K)).
#[export] Instance set_registered_buffers : Setter (@registered_buffers K) := ltac:(mk_setter (@engine_eta K)).
#[export] Instance set_registered_files : Setter (@registered_files K) := ltac:(mk_setter (@engine_eta K)).
#[export] Instance set_registered_buffer_count : Setter (@registered_buffer_count K) := ltac:(mk_setter (@engine_eta K)).
#[export] Instance set_registered_file_count : Setter (@registered_file_count K) := ltac:(mk_setter (@engine_eta K)).
#[export] Instance set_running : Setter (@running K) := ltac:(mk_setter (@engine_eta K)).
#[export] Instance set_stop_requested : Setter (@stop_requested K) := ltac:(mk_setter (@engine_eta K)).
#[export] Instance set_tick_running : Setter (@tick_running K) := ltac:(mk_setter (@engine_eta K)).
#[export] Instance set_e_sqpoll_enabled : Setter (@e_sqpoll_enabled K) := ltac:(mk_setter (@engine_eta K)).
#[export] Instance set_event_fd : Setter (@event_fd K) := ltac:(mk_setter (@engine_eta K)).
#[export] Instance set_eventfd_registered : Setter (@eventfd_registered K) := ltac:(mk_setter (@engine_eta K)).
#[export] Instance set_adaptive_spills : Setter (@adaptive_spills K) := ltac:(mk_setter (@engine_eta K)).
#[export] Instance set_ring_count : Setter (@ring_count K) := ltac:(mk_setter (@engine_eta K)).
#[export] Instance set_eng : Setter (@eng K O) := ltac:(mk_setter (@estate_eta K O)).
#[export] Instance set_tls : Setter (@tls K O) := ltac:(mk_setter (@estate_eta K O)).
#[export] Instance set_os : Setter (@os K O) := ltac:(mk_setter (@estate_eta K O)).
End Setters.

#[export] Instance set_thr : Setter thr := ltac:(mk_setter tls_eta).
#[export] Instance set_cached_cpu : Setter cached_cpu := ltac:(mk_setter tls_eta).
#[export] Instance set_cpu_refresh_counter : Setter cpu_refresh_counter := ltac:(mk_setter tls_eta).
#[export] Instance set_tls_link_ring : Setter tls_link_ring := ltac:(mk_setter tls_eta).
#[export] Instance set_tls_link_depth : Setter tls_link_depth := ltac:(mk_setter tls_eta).
#[export] Instance set_tls_last_ring : Setter tls_last_ring := ltac:(mk_setter tls_eta).
#[export] Instance set_tls_owned_ring : Setter tls_owned_ring := ltac:(mk_setter tls_eta).
#[export] Instance set_tls_engine : Setter tls_engine := ltac:(mk_setter tls_eta).
#[export] Instance set_tls_rng_state : Setter tls_rng_state := ltac:(mk_setter tls_eta).

(** ** Operations that may not return *)

Definition M (S A : Type) : Type := S -> option (A * S).
Definition mret {S A} (a : A) : M S A := fun s => Some (a, s).
Definition mbind {S A B} (m : M S A) (k : A -> M S B) : M S B :=
  fun s => match m s with Some (a, s) => k a s | None => None end.
Definition never {S A} : M S A := fun _ => None.
Definition mget {S A} (f : S -> A) : M S A := fun s => Some (f s, s).
Definition mupd {S} (f : S -> S) : M S unit := fun s => Some (tt, f s).

Declare Scope op_scope.
Delimit Scope op_scope with op.
Notation "'let*' x := m 'in' k" := (mbind m (fun x => k))
  (at level 10, x pattern, m at level 200, k at level 200) : op_scope.
Notation "m ;; k" := (mbind m (fun _ => k)) (at level 100, k at level 200, right associativity) : op_scope.
#[local] Open Scope op_scope.

Definition SELECT_RING_REFRESH : Z := 32.
Definition ADAPTIVE_SPILL_THRESHOLD_NUM : Z := 3.
Definition ADAPTIVE_SPILL_THRESHOLD_DEN : Z := 4.

(** One step of [xorshift_tls] on a non-zero state. *)
Definition xorshift_step (s : Z) : Z :=
  let s := Z.lxor s (u32 (Z.shiftl s 13)) in
  let s := Z.lxor s (Z.shiftr s 17) in
  Z.lxor s (u32 (Z.shiftl s 5)).

(** The state a thread starts from: its seed if it has none yet. *)
Definition xorshift_seed (state self : Z) : Z :=
  if state =? 0 then
    let s := Z.lxor (u32 self) 1515870810 in           (* 0x5A5A5A5A *)
    if s =? 0 then 1 else s
  else state.

(** The two random rings other than [local]: [ra] and [rb] are the two numbers
    drawn. *)
Definition spill_first (rc local ra : Z) : Z :=
  let a := ra mod (rc - 1) in if local <=? a then a + 1 else a.

Definition spill_second (rc local a rb : Z) : Z :=
  let b := rb mod (rc - 2) in
  let skip1 := if local <? a then local else a in
  let skip2 := if local <? a then a else local in
  let b := if skip1 <=? b then b + 1 else b in
  if skip2 <=? b then b + 1 else b.

(** The errno values of Linux the engine compares or latches. *)
Definition errno_code (e : errno) : Z :=
  match e with
  | ENONE => 0 | EINTR => 4 | EIO => 5 | ENXIO => 6 | EAGAIN => 11 | ENOMEM => 12 | EBUSY => 16
  | EINVAL => 22 | ENOENT => 2 | ENOSYS => 38 | EOVERFLOW => 75 | ESHUTDOWN => 108
  | ETIMEDOUT => 110 | EALREADY => 114 | ESYS code => code
  end.

Definition flush_error_is_fatal (err : Z) : bool :=
  negb (err =? errno_code EAGAIN) && negb (err =? errno_code EBUSY) && negb (err =? errno_code EINTR).

(** The user's completion callbacks, which may call the API. *)
Class UserCallbacks (S : Type) := user_callback : Z -> Z -> Z -> Z -> S -> S.

Record submit_ctx_t := { sc_ring : Z; sc_req : Z; sc_lock_st : bool }.

Record file_resolve_guard_t := { submit_fd : Z; g_registered : bool; g_locked : bool }.

Section Engine.
Context {K O : Type} {L : Liburing K} {LR : LiburingReg K} {OS : EngineOs O}.
Abbreviation S := (estate K O).
Context {UC : UserCallbacks S}.
Variable fuel : nat.
Implicit Types (s : S) (c : ring_ctx_t K).

(** ** Access *)

Definition upd_eng (f : engine_t K -> engine_t K) s : S := s <| eng := f (eng s) |>.
Definition upd_tls (f : tls_t -> tls_t) s : S := s <| tls := f (tls s) |>.

(** Ring [i] as the ring of the state. *)
Definition at_ring (i : Z) : RingState K S := {|
  rs_ring s := rings (eng s) i;
  rs_set_ring c := upd_eng (fun e => e <| rings := fun j => if j =? i then c else rings e j |>);
  rs_thread s := thr (tls s);
  rs_set_thread t := upd_tls (fun x => x <| thr := t |>);
  rs_callback := user_callback
|}.

Definition ring_at (i : Z) : M S (ring_ctx_t K) := mget (fun s => rings (eng s) i).
Definition ring_op {A} (i : Z) (op : ring_ctx_t K -> A * ring_ctx_t K) : M S A :=
  fun s => Some (@on_ring K S (at_ring i) A op s).
Definition ring_op_t {A} (i : Z) (op : ring_ctx_t K -> thread_t -> A * ring_ctx_t K * thread_t) : M S A :=
  fun s => Some (@on_ring_thread K S (at_ring i) A op s).
Definition ring_upd (i : Z) (f : ring_ctx_t K -> ring_ctx_t K) : M S unit :=
  fun s => Some (tt, @upd_ring K S (at_ring i) f s).
Definition lock_ring (i : Z) : M S bool := ring_op i ring_lock.
Definition unlock_ring (i : Z) (st : bool) : M S unit := ring_upd i (fun c => ring_unlock c st).
Definition poll_ring (i : Z) : M S Z := @ring_poll K L S (at_ring i) fuel.
Definition drain_fast (i : Z) : M S Z := @ring_drain_cqes_fast K L S (at_ring i) fuel.

Definition eng_upd (f : engine_t K -> engine_t K) : M S unit := mupd (upd_eng f).
Definition tls_upd (f : tls_t -> tls_t) : M S unit := mupd (upd_tls f).
Definition eng_get {A} (f : engine_t K -> A) : M S A := mget (fun s => f (eng s)).
Definition tls_get {A} (f : tls_t -> A) : M S A := mget (fun s => f (tls s)).
Definition os_op {A} (f : O -> A * O) : M S A :=
  fun s => let '(a, o) := f (os s) in Some (a, s <| os := o |>).

(** A pointer into this engine's array. *)
Definition own_ring (e : engine_t K) (t : tls_t) (p : option Z) : option Z :=
  match p with
  | Some i => if tls_engine t && (0 <=? i) && (i <? ring_count e) then Some i else None
  | None => None
  end.

(** ** Ring selection *)

Definition select_ring_cpu_local : M S Z :=
  let* counter := tls_get cpu_refresh_counter in
  let counter := i32 (counter - 1) in
  (if counter <=? 0 then
     let* cpu := os_op os_getcpu in
     tls_upd (fun t => t <| cpu_refresh_counter := SELECT_RING_REFRESH |> <| cached_cpu := cpu |>)
   else tls_upd (fun t => t <| cpu_refresh_counter := counter |>)) ;;
  let* cpu := tls_get cached_cpu in
  let* n := eng_get ring_count in
  if (0 <=? cpu) && (cpu <? n) then mret cpu
  else
    let* self := mget (fun s => os_self (os s)) in
    tls_upd (fun t => t <| cached_cpu := i32 (self mod n) |>) ;;
    tls_get cached_cpu.

Definition xorshift_tls : M S Z :=
  let* state := tls_get tls_rng_state in
  let* self := mget (fun s => os_self (os s)) in
  let s := xorshift_step (xorshift_seed state self) in
  tls_upd (fun t => t <| tls_rng_state := s |>) ;;
  mret s.

(** [while (st_users > 0) sched_yield()]: nobody else runs. *)
Definition wait_lockless_users (i : Z) : M S unit :=
  let* c := ring_at i in
  if (0 <? st_users c) || (0 <? st_cq_users c) then never else mret tt.

Definition fetch_next_ring : M S Z :=
  let* idx := eng_get next_ring in
  eng_upd (fun e => e <| next_ring := u32 (next_ring e + 1) |>) ;;
  mret idx.

Definition select_ring_thread_local : M S Z :=
  let* e := mget eng in
  let* t := mget tls in
  match own_ring e t (tls_owned_ring t) with
  | Some i => mret i
  | None =>
      tls_upd (fun t => t <| tls_owned_ring := None |>) ;;
      let* idx := fetch_next_ring in
      let i := idx mod ring_count e in
      let* prev := ring_op i (fun c => (owner_count c, c <| owner_count := i32 (owner_count c + 1) |>)) in
      (if prev =? 0 then
         let* c := ring_at i in
         (if needs_enable c then ring_op i ring_enable ;; mret tt else mret tt) ;;
         ring_upd i (fun c => c <| single_thread := true |>)
       else
         ring_upd i (fun c => c <| single_thread := false |>) ;;
         wait_lockless_users i) ;;
      tls_upd (fun t => t <| tls_owned_ring := Some i |> <| tls_engine := true |>) ;;
      mret i
  end.

(** The spill of ADAPTIVE: two random rings other than [local], the lighter. *)
Definition spill (local : Z) : M S Z :=
  eng_upd (fun e => e <| adaptive_spills := u64 (adaptive_spills e + 1) |>) ;;
  let* rc := eng_get ring_count in
  let* ra := xorshift_tls in
  let a := spill_first rc local ra in
  let* b := (if 2 <=? rc - 1 then let* rb := xorshift_tls in mret (spill_second rc local a rb)
             else mret a) in
  let* ca := ring_at a in
  let* cb := ring_at b in
  mret (if pending_count ca <=? pending_count cb then a else b).

Definition select_ring_adaptive : M S Z :=
  let* local := select_ring_cpu_local in
  let* c := ring_at local in
  let pending := pending_count c in
  let limit := adaptive_get_inflight_limit (adaptive c) in
  if pending <? Z.quot (limit * ADAPTIVE_SPILL_THRESHOLD_NUM) ADAPTIVE_SPILL_THRESHOLD_DEN
  then mret local
  else
    let* avg := eng_get avg_ring_pending in
    if (0 <? avg) && (pending <=? avg * 2) then mret local else spill local.

Definition select_ring : M S Z :=
  let* e := mget eng in
  if (ring_count e =? 1) && negb (needs_enable (rings e 0)) then mret 0
  else
    match ring_select e with
    | AURA_SELECT_THREAD_LOCAL => select_ring_thread_local
    | AURA_SELECT_ROUND_ROBIN => let* idx := fetch_next_ring in mret (idx mod ring_count e)
    | AURA_SELECT_CPU_LOCAL => select_ring_cpu_local
    | AURA_SELECT_ADAPTIVE => select_ring_adaptive
    end.

(** ** Fatal errors and flushing *)

Definition latch_fatal_submit_errno (err : Z) : M S unit :=
  let err := if err <=? 0 then errno_code EIO else err in
  let* e := mget eng in
  if negb (fatal_submit_errno e =? 0) then mret tt
  else
    eng_upd (fun e => e <| fatal_submit_errno := err |>) ;;
    if 0 <=? event_fd e then os_op (fun o => (tt, os_eventfd_write (event_fd e) o)) else mret tt.

Definition ring_is_sole_owner (e : engine_t K) (i : Z) : bool :=
  single_thread (rings e i) && (is_thread_local (ring_select e) || (ring_count e =? 1)).

Definition drain_eventfd : M S unit :=
  let* e := mget eng in
  if 0 <=? event_fd e then os_op (fun o => (tt, os_eventfd_drain (event_fd e) o)) else mret tt.

(** Whether a fatal error was latched. *)
Definition flush_ring_checked (i : Z) : M S bool :=
  let* r := ring_op_t i ring_flush in
  match r with
  | Err err =>
      if flush_error_is_fatal (errno_code err)
      then latch_fatal_submit_errno (errno_code err) ;; mret true
      else mret false
  | Ok _ => mret false
  end.

(** [if (ring_flush(ring) < 0 && flush_error_is_fatal(errno)) latch(...)] *)
Definition flush_and_latch (i : Z) : M S unit := flush_ring_checked i ;; mret tt.

(** ** Registered files *)

Fixpoint find_fd (fds : list Z) (fd i : Z) (n : nat) : option Z :=
  match n with
  | Datatypes.O => None
  | Datatypes.S n => if aget (-1) fds i =? fd then Some i else find_fd fds fd (i + 1) n
  end.

Definition resolve_registered_file_locked (e : engine_t K) (fd : Z) : option Z :=
  if negb (files_registered e) || files_unreg_pending e then None
  else find_fd (registered_files e) fd 0 (Z.to_nat (registered_file_count e)).

Definition rdlock : M S unit := eng_upd (fun e => e <| reg_rd := reg_rd e + 1 |>).
Definition rdunlock : M S unit := eng_upd (fun e => e <| reg_rd := reg_rd e - 1 |>).
Definition wrlock : M S unit := eng_upd (fun e => e <| reg_wr := reg_wr e + 1 |>).
Definition wrunlock : M S unit := eng_upd (fun e => e <| reg_wr := reg_wr e - 1 |>).

Definition resolve_file_begin (fd : Z) : M S file_resolve_guard_t :=
  let* e := mget eng in
  if negb (files_registered e)
  then mret {| submit_fd := fd; g_registered := false; g_locked := false |}
  else
    let locked := negb (e_single_thread e) in
    (if locked then rdlock else mret tt) ;;
    match resolve_registered_file_locked e fd with
    | Some i => mret {| submit_fd := i; g_registered := true; g_locked := locked |}
    | None =>
        (if locked then rdunlock else mret tt) ;;
        mret {| submit_fd := fd; g_registered := false; g_locked := false |}
    end.

Definition resolve_file_end (g : file_resolve_guard_t) : M S unit :=
  if g_locked g then rdunlock else mret tt.

Definition validate_fixed_file (e : engine_t K) (index : Z) : bool :=
  files_registered e && negb ((index <? 0) || (registered_file_count e <=? index)).

(** ** submit_begin, submit_end, submit_abort *)

Definition alloc_slot (i : Z) : M S (option Z) :=
  ring_op i (fun c => match ring_get_request c with
                      | Some (req, c) => (Some req, c)
                      | None => (None, c)
                      end).

Definition can_submit (i : Z) : M S bool := let* c := ring_at i in mret (ring_can_submit c).

(** The ring of the submission: the one of the link chain, or a selected one. *)
Definition submit_ring : M S Z :=
  let* e := mget eng in
  let* t := mget tls in
  match own_ring e t (tls_link_ring t) with
  | Some i => mret i
  | None =>
      (match tls_link_ring t with
       | Some _ => tls_upd (fun t => t <| tls_link_ring := None |> <| tls_link_depth := 0 |>)
       | None => mret tt
       end) ;;
      select_ring
  end.

(** The sole owner's path: no lock, and [lock_st] true. *)
Definition submit_begin_fast (i : Z) : M S (result submit_ctx_t) :=
  let* room := can_submit i in
  let* room := (if room : bool then mret true
                else ring_op_t i ring_flush_fast ;; drain_fast i ;; can_submit i) in
  if negb room then mret (Err EAGAIN)
  else
    let* req := alloc_slot i in
    match req with
    | None => mret (Err ENOMEM)
    | Some req => mret (Ok {| sc_ring := i; sc_req := req; sc_lock_st := true |})
    end.

Definition take_slot (i : Z) (st : bool) : M S (result submit_ctx_t) :=
  let* req := alloc_slot i in
  match req with
  | None => unlock_ring i st ;; mret (Err ENOMEM)
  | Some req => mret (Ok {| sc_ring := i; sc_req := req; sc_lock_st := st |})
  end.

(** After the flush: poll without the lock if allowed, and look again. *)
Definition submit_begin_retry (i : Z) (allow_poll st : bool) : M S (result submit_ctx_t) :=
  let* st := (if allow_poll then unlock_ring i st ;; poll_ring i ;; lock_ring i else mret st) in
  let* room := can_submit i in
  if negb room then unlock_ring i st ;; mret (Err EAGAIN) else take_slot i st.

Definition submit_begin_locked (i : Z) (allow_poll : bool) : M S (result submit_ctx_t) :=
  let* st := lock_ring i in
  let* room := can_submit i in
  if room : bool then take_slot i st
  else
    let* r := ring_op_t i ring_flush in
    match r with
    | Err err =>
        if flush_error_is_fatal (errno_code err) then
          latch_fatal_submit_errno (errno_code err) ;; unlock_ring i st ;; mret (Err err)
        else submit_begin_retry i allow_poll st
    | Ok _ => submit_begin_retry i allow_poll st
    end.

Definition submit_begin (allow_poll : bool) : M S (result submit_ctx_t) :=
  let* e := mget eng in
  if negb (fatal_submit_errno e =? 0) then mret (Err (ESYS (fatal_submit_errno e)))
  else if e_shutting_down e then mret (Err ESHUTDOWN)
  else
    let* i := submit_ring in
    let* e := mget eng in
    let* t := mget tls in
    match tls_link_ring t with
    | None => if ring_is_sole_owner e i then submit_begin_fast i else submit_begin_locked i allow_poll
    | Some _ => submit_begin_locked i allow_poll
    end.

Definition should_flush (i : Z) : M S bool := let* c := ring_at i in mret (ring_should_flush c).

Definition add_file_inflight (i n : Z) : M S unit :=
  ring_upd i (fun c => c <| fixed_file_inflight := u32 (fixed_file_inflight c + n) |>).
Definition add_buf_inflight (i n : Z) : M S unit :=
  ring_upd i (fun c => c <| fixed_buf_inflight := u32 (fixed_buf_inflight c + n) |>).

(** The tail of a link chain: flush the chain together and unpin the thread. *)
Definition end_chain (i : Z) (lock_st : bool) : M S unit :=
  let* st := (if lock_st then lock_ring i else mret false) in
  flush_and_latch i ;;
  tls_upd (fun t => t <| tls_link_ring := None |> <| tls_link_depth := 0 |>
                      <| thr := ring_clear_last_sqe (thr t) |>) ;;
  unlock_ring i st.

Definition submit_end (ctx : submit_ctx_t) : M S unit :=
  let i := sc_ring ctx in
  let* c := ring_at i in
  (if uses_registered_file (req_at c (sc_req ctx)) then add_file_inflight i 1 else mret tt) ;;
  let* e := mget eng in
  let* t := mget tls in
  match tls_link_ring t with
  | None =>
      if ring_is_sole_owner e i then
        tls_upd (fun t => t <| tls_last_ring := Some i |>) ;;
        let* full := should_flush i in
        if full : bool then ring_op_t i ring_flush_fast ;; mret tt else mret tt
      else
        tls_upd (fun t => t <| tls_last_ring := Some i |>) ;;
        let* full := should_flush i in
        (if full : bool then flush_and_latch i else mret tt) ;;
        unlock_ring i (sc_lock_st ctx)
  | Some _ =>
      tls_upd (fun t => t <| tls_last_ring := Some i |>) ;;
      end_chain i (sc_lock_st ctx)
  end.

Definition submit_abort (ctx : submit_ctx_t) : M S unit :=
  let i := sc_ring ctx in
  ring_upd i (fun c => ring_put_request c (sc_req ctx)) ;;
  let* t := mget tls in
  (match tls_link_ring t with
   | Some _ =>
       ring_op_t i ring_flush ;;
       tls_upd (fun t => t <| tls_link_ring := None |> <| tls_link_depth := 0 |>)
   | None => mret tt
   end) ;;
  unlock_ring i (sc_lock_st ctx).

(** ** Deferred unregistration *)

(** [for (int i = 0; i < ring_count; i++) total += ...] over [n] rings from
    [i], in [uint32_t]. *)
Fixpoint sum_rings (f : ring_ctx_t K -> Z) (e : engine_t K) (i : Z) (n : nat) (total : Z) : Z :=
  match n with
  | Datatypes.O => total
  | Datatypes.S n => sum_rings f e (i + 1) n (u32 (total + f (rings e i)))
  end.

Definition fixed_buf_inflight_total (e : engine_t K) : Z :=
  sum_rings fixed_buf_inflight e 0 (Z.to_nat (ring_count e)) 0.
Definition fixed_file_inflight_total (e : engine_t K) : Z :=
  sum_rings fixed_file_inflight e 0 (Z.to_nat (ring_count e)) 0.

(** Apply [f] to the kernel state of the rings below [ring_count]. *)
Definition each_kernel (f : K -> K) (e : engine_t K) : engine_t K :=
  e <| rings := fun j => if (0 <=? j) && (j <? ring_count e)
                         then (rings e j) <| ring := f (ring (rings e j)) |> else rings e j |>.

Definition finalize_buffers (e : engine_t K) : engine_t K :=
  if buffers_registered e && buffers_unreg_pending e && (fixed_buf_inflight_total e =? 0) then
    (each_kernel lu_unregister_buffers e)
      <| registered_buffers := [] |> <| registered_buffer_count := 0 |>
      <| buffers_registered := false |> <| buffers_unreg_pending := false |>
  else e.

Definition finalize_files (e : engine_t K) : engine_t K :=
  if files_registered e && files_unreg_pending e && (fixed_file_inflight_total e =? 0) then
    (each_kernel lu_unregister_files e)
      <| registered_files := [] |> <| registered_file_count := 0 |>
      <| files_registered := false |> <| files_unreg_pending := false |>
  else e.

Definition finalize_deferred_unregistration : M S unit :=
  wrlock ;; eng_upd finalize_buffers ;; eng_upd finalize_files ;; wrunlock.

Definition maybe_finalize_deferred_unregistration : M S unit :=
  let* e := mget eng in
  if negb (buffers_registered e) && negb (files_registered e) then mret tt
  else
    rdlock ;;
    let* need := eng_get (fun e => buffers_unreg_pending e || files_unreg_pending e) in
    rdunlock ;;
    if need : bool then finalize_deferred_unregistration else mret tt.

End Engine.
