(* ===== verification/EngineOps.v ===== *)
(** * The submission entry points and registration

    [aura.c] 519-675 and 1446-1851: reads, writes, vectored and metadata
    operations, cancellation; 2351-2456, 2524-2630 and 2854-2880: registering,
    updating and unregistering buffers and files, linking. The engine and request
    pointers are valid (the NULL checks of the C entry points have no
    counterpart). *)
From Stdlib Require Import ZArith Lia List.
From stdpp Require Import base tactics list.
From S2P Require Import Prelude Double Histogram Controller Ring RingCq Engine.

#[local] Open Scope Z_scope.
#[local] Open Scope op_scope.

(** [aura_buf_t], with an unknown tag. *)
Inductive aura_buf_t :=
  | AURA_BUF_UNREGISTERED (ptr : Z)
  | AURA_BUF_REGISTERED (index offset : Z)
  | AURA_BUF_INVALID.

Definition AURA_FIXED_FILE : Z := 1.
Definition AURA_FSYNC_DATASYNC : Z := 1.
Definition AT_FDCWD : Z := -100.

Definition has_flag (flags bit : Z) : bool := negb (Z.land flags bit =? 0).

(** [VALIDATE_SUBMIT_FLAGS]: any bit but AURA_FIXED_FILE is rejected. *)
Definition bad_flags (flags : Z) : bool := negb (Z.ldiff flags AURA_FIXED_FILE =? 0).

Inductive aura_reg_type_t := AURA_REG_BUFFERS | AURA_REG_FILES.

(** A request handle: the ring and the slot. *)
Record request_ref := { rq_ring : Z; rq_slot : Z }.

Section Ops.
Context {K O : Type} {L : Liburing K} {LR : LiburingReg K} {OS : EngineOs O}.
Abbreviation S := (estate K O).
Context {UC : UserCallbacks S}.
Variable fuel : nat.

(** A ring submission function on a prepared request. *)
Definition submit_fn_t : Type :=
  ring_ctx_t K -> thread_t -> Z -> result unit * ring_ctx_t K * thread_t.

(** The fields every entry point sets. *)
Definition set_common (ring_i submit_fd fd callback user_data : Z) (reg_file : bool)
    (r : aura_request_t) : aura_request_t :=
  r <| Ring.fd := submit_fd |> <| original_fd := fd |> <| Ring.callback := callback |>
    <| Ring.user_data := user_data |> <| ring_idx := ring_i |> <| uses_registered_file := reg_file |>.

(** Fill the slot and run the ring submission; [false] if it failed. *)
Definition fill_and_submit (ctx : submit_ctx_t) (setup : aura_request_t -> aura_request_t)
    (submit_fn : submit_fn_t) : M S (result unit) :=
  ring_upd (sc_ring ctx) (upd_req (sc_req ctx) setup) ;;
  ring_op_t (sc_ring ctx) (fun c t => submit_fn c t (sc_req ctx)).

Definition ref_of (ctx : submit_ctx_t) : request_ref :=
  {| rq_ring := sc_ring ctx; rq_slot := sc_req ctx |}.

(** [SUBMIT_FILE_RESOLVED_OP] after the flag check, and the body of
    [submit_unregistered_io] and [aura_fsync]. *)
Definition submit_resolved (fd flags callback user_data : Z)
    (setup : aura_request_t -> aura_request_t) (submit_fn : submit_fn_t) : M S (result request_ref) :=
  let* e := mget eng in
  if has_flag flags AURA_FIXED_FILE && negb (validate_fixed_file e fd) then mret (Err EINVAL)
  else
    let* guard := (if has_flag flags AURA_FIXED_FILE
                   then mret {| submit_fd := fd; g_registered := true; g_locked := false |}
                   else resolve_file_begin fd) in
    let* b := submit_begin fuel (negb (g_registered guard)) in
    match b with
    | Err err => resolve_file_end guard ;; mret (Err err)
    | Ok ctx =>
        let* c := ring_at (sc_ring ctx) in
        let common := set_common (rc_ring_idx c) (submit_fd guard) fd callback user_data
                        (g_registered guard) in
        let* r := fill_and_submit ctx (fun q => setup (common q)) submit_fn in
        match r with
        | Err err => submit_abort ctx ;; resolve_file_end guard ;; mret (Err err)
        | Ok _ => submit_end ctx ;; resolve_file_end guard ;; mret (Ok (ref_of ctx))
        end
    end.

Definition submit_unregistered_io (fd buffer len offset flags callback user_data : Z)
    (submit_fn : submit_fn_t) : M S (result request_ref) :=
  submit_resolved fd flags callback user_data
    (fun r => r <| Ring.len := len |> <| Ring.offset := offset |> <| Ring.buffer := buffer |>) submit_fn.

(** ** Registered buffers *)

Definition rd_unless_single (e : engine_t K) : M S unit :=
  if e_single_thread e then mret tt else rdlock.
Definition rdunlock_unless_single (e : engine_t K) : M S unit :=
  if e_single_thread e then mret tt else rdunlock.

Definition iovec_zero : iovec := {| iov_base := 0; iov_len := 0 |}.

(** The checks, on an engine: what a read of [len] bytes at [offset] of
    registered buffer [index] is allowed to touch. *)
Definition check_registered_buffer (e : engine_t K) (index offset len : Z) : result iovec :=
  if negb (buffers_registered e) then Err ENOENT
  else if buffers_unreg_pending e then Err EBUSY
  else if (index <? 0) || (registered_buffer_count e <=? index) then Err EINVAL
  else
    let reg := aget iovec_zero (registered_buffers e) index in
    if (iov_len reg <=? offset) || (u64 (iov_len reg - offset) <? len) then Err EOVERFLOW
    else Ok reg.

(** On success the read lock stays held. *)
Definition validate_registered_buffer (index offset len : Z) : M S (result iovec) :=
  let* e := mget eng in
  rd_unless_single e ;;
  let r := check_registered_buffer e index offset len in
  (match r with Ok _ => mret tt | Err _ => rdunlock_unless_single e end) ;;
  mret r.

Definition submit_registered_buffer_io (fd : Z) (reg : iovec)
    (index buf_off len offset flags callback user_data : Z) (submit_fn : submit_fn_t)
  : M S (result request_ref) :=
  let* e0 := mget eng in
  let* b := submit_begin fuel false in
  match b with
  | Err err => rdunlock_unless_single e0 ;; mret (Err err)
  | Ok ctx =>
      let* e := mget eng in
      if has_flag flags AURA_FIXED_FILE && negb (validate_fixed_file e fd)
      then rdunlock_unless_single e0 ;; mret (Err EINVAL)     (* no submit_abort *)
      else
        let '(sub_fd, reg_file) :=
          if has_flag flags AURA_FIXED_FILE then (fd, true)
          else match resolve_registered_file_locked e fd with
               | Some i => (i, true)
               | None => (fd, false)
               end in
        let* c := ring_at (sc_ring ctx) in
        let setup r :=
          (set_common (rc_ring_idx c) sub_fd fd callback user_data reg_file r)
            <| Ring.len := len |> <| Ring.offset := offset |> <| uses_registered_buffer := true |>
            <| Ring.buffer := iov_base reg + buf_off |> <| Ring.buf_index := index |>
            <| buf_offset := buf_off |> in
        add_buf_inflight (sc_ring ctx) 1 ;;
        let* r := fill_and_submit ctx setup submit_fn in
        match r with
        | Err err =>
            add_buf_inflight (sc_ring ctx) (-1) ;; submit_abort ctx ;;
            rdunlock_unless_single e0 ;; mret (Err err)
        | Ok _ => submit_end ctx ;; rdunlock_unless_single e0 ;; mret (Ok (ref_of ctx))
        end
  end.

(** ** The entry points *)

Definition submit_io_generic (fd : Z) (buf : aura_buf_t) (len offset flags callback user_data : Z)
    (submit_unreg submit_reg : submit_fn_t) : M S (result request_ref) :=
  if (fd <? 0) || (len =? 0) then mret (Err EINVAL)
  else if bad_flags flags then mret (Err EINVAL)
  else
    match buf with
    | AURA_BUF_UNREGISTERED ptr =>
        if ptr =? 0 then mret (Err EINVAL)
        else submit_unregistered_io fd ptr len offset flags callback user_data submit_unreg
    | AURA_BUF_REGISTERED index off =>
        let* r := validate_registered_buffer index off len in
        match r with
        | Err err => mret (Err err)
        | Ok reg =>
            submit_registered_buffer_io fd reg index off len offset flags callback user_data submit_reg
        end
    | AURA_BUF_INVALID => mret (Err EINVAL)
    end.

Definition aura_read fd buf len offset flags callback user_data :=
  submit_io_generic fd buf len offset flags callback user_data ring_submit_read ring_submit_read_fixed.

Definition aura_write fd buf len offset flags callback user_data :=
  submit_io_generic fd buf len offset flags callback user_data ring_submit_write ring_submit_write_fixed.

Definition aura_fsync (fd fsync_flags flags callback user_data : Z) : M S (result request_ref) :=
  if fd <? 0 then mret (Err EINVAL)
  else if negb (Z.ldiff fsync_flags AURA_FSYNC_DATASYNC =? 0) then mret (Err EINVAL)
  else if bad_flags flags then mret (Err EINVAL)
  else submit_resolved fd flags callback user_data (fun r => r)
         (if has_flag fsync_flags AURA_FSYNC_DATASYNC then ring_submit_fdatasync else ring_submit_fsync).

(** [aura_openat], [aura_close] and [aura_statx] after their checks: no
    registered file. *)
Definition submit_plain (fd callback user_data : Z) (setup : aura_request_t -> aura_request_t)
    (submit_fn : submit_fn_t) : M S (result request_ref) :=
  let* b := submit_begin fuel true in
  match b with
  | Err err => mret (Err err)
  | Ok ctx =>
      let* c := ring_at (sc_ring ctx) in
      let common := set_common (rc_ring_idx c) fd fd callback user_data false in
      let* r := fill_and_submit ctx (fun q => setup (common q)) submit_fn in
      match r with
      | Err err => submit_abort ctx ;; mret (Err err)
      | Ok _ => submit_end ctx ;; mret (Ok (ref_of ctx))
      end
  end.

Definition bad_dirfd (dirfd : Z) : bool := (dirfd <? 0) && negb (dirfd =? AT_FDCWD).

Definition aura_openat (dirfd pathname open_flags mode flags callback user_data : Z)
  : M S (result request_ref) :=
  if (pathname =? 0) || bad_dirfd dirfd then mret (Err EINVAL)
  else if negb (flags =? 0) then mret (Err EINVAL)
  else submit_plain dirfd callback user_data
         (fun r => r <| meta := meta_open pathname open_flags mode |>) ring_submit_openat.

Definition aura_close (fd flags callback user_data : Z) : M S (result request_ref) :=
  if fd <? 0 then mret (Err EINVAL)
  else if negb (flags =? 0) then mret (Err EINVAL)
  else submit_plain fd callback user_data (fun r => r) ring_submit_close.

Definition aura_statx (dirfd pathname statx_flags mask statxbuf flags callback user_data : Z)
  : M S (result request_ref) :=
  if (pathname =? 0) || (statxbuf =? 0) || bad_dirfd dirfd then mret (Err EINVAL)
  else if negb (flags =? 0) then mret (Err EINVAL)
  else submit_plain dirfd callback user_data
         (fun r => r <| meta := meta_statx pathname statxbuf statx_flags mask |>) ring_submit_statx.

Definition aura_fallocate (fd mode offset len flags callback user_data : Z) : M S (result request_ref) :=
  if (fd <? 0) || (offset <? 0) || (len <=? 0) then mret (Err EINVAL)
  else if bad_flags flags then mret (Err EINVAL)
  else submit_resolved fd flags callback user_data
         (fun r => r <| Ring.offset := offset |> <| Ring.len := len |> <| meta := meta_fallocate mode |>)
         ring_submit_fallocate.

Definition aura_ftruncate (have : bool) (fd length flags callback user_data : Z)
  : M S (result request_ref) :=
  if (fd <? 0) || (length <? 0) then mret (Err EINVAL)
  else if bad_flags flags then mret (Err EINVAL)
  else submit_resolved fd flags callback user_data (fun r => r <| Ring.len := length |>)
         (ring_submit_ftruncate have).

Definition aura_sync_file_range (fd offset nbytes range_flags flags callback user_data : Z)
  : M S (result request_ref) :=
  if (fd <? 0) || (offset <? 0) || (nbytes <? 0) then mret (Err EINVAL)
  else if bad_flags flags then mret (Err EINVAL)
  else submit_resolved fd flags callback user_data
         (fun r => r <| Ring.offset := offset |> <| Ring.len := nbytes |>
                     <| meta := meta_sync_range range_flags |>)
         ring_submit_sync_file_range.

Definition submit_vectored (fd iov iovcnt offset flags callback user_data : Z)
    (submit_fn : submit_fn_t) : M S (result request_ref) :=
  if (fd <? 0) || (iov =? 0) || (iovcnt <=? 0) || (IOV_MAX <? iovcnt) then mret (Err EINVAL)
  else if bad_flags flags then mret (Err EINVAL)
  else submit_resolved fd flags callback user_data
         (fun r => r <| Ring.iov := iov |> <| Ring.iovcnt := iovcnt |> <| Ring.offset := offset |>)
         submit_fn.

Definition aura_readv fd iov iovcnt offset flags callback user_data :=
  submit_vectored fd iov iovcnt offset flags callback user_data ring_submit_readv.
Definition aura_writev fd iov iovcnt offset flags callback user_data :=
  submit_vectored fd iov iovcnt offset flags callback user_data ring_submit_writev.

(** [req] is a request of this engine; its ring index is a field of it. *)
Definition aura_cancel (req : request_ref) : M S (result unit) :=
  let* e := mget eng in
  let r := req_at (rings e (rq_ring req)) (rq_slot req) in
  if e_shutting_down e then mret (Err ESHUTDOWN)
  else if negb (pending r) then mret (Err EALREADY)
  else if (ring_idx r <? 0) || (ring_count e <=? ring_idx r) then mret (Err EINVAL)
  else
    let i := ring_idx r in
    let* st := lock_ring i in
    let* c0 := ring_at (rq_ring req) in
    if negb (pending (req_at c0 (rq_slot req))) then unlock_ring i st ;; mret (Err EALREADY)
    else
      let* slot := alloc_slot i in
      match slot with
      | None => unlock_ring i st ;; mret (Err ENOMEM)
      | Some slot =>
          ring_upd i (fun c => upd_req slot (fun r =>
            r <| ring_idx := rc_ring_idx c |> <| Ring.fd := -1 |> <| original_fd := -1 |>
              <| Ring.callback := 0 |> <| Ring.user_data := 0 |>) c) ;;
          let* r := ring_op_t i (fun c t => ring_submit_cancel c t slot (Some (rq_slot req))) in
          match r with
          | Err err => ring_upd i (fun c => ring_put_request c slot) ;; unlock_ring i st ;; mret (Err err)
          | Ok _ =>
              let* f := ring_op_t i ring_flush in
              match f with
              | Ok _ => unlock_ring i st ;; mret (Ok tt)
              | Err err =>
                  if negb (flush_error_is_fatal (errno_code err)) then unlock_ring i st ;; mret (Ok tt)
                  else
                    latch_fatal_submit_errno (errno_code err) ;; unlock_ring i st ;;
                    let* code := eng_get fatal_submit_errno in
                    mret (Err (ESYS code))
              end
          end
      end.

(** ** Registration *)

(** Register with rings [i], [i+1], ...; on failure undo the earlier ones. *)
Fixpoint register_loop (reg : K -> Z * K) (unreg : K -> K) (i : Z) (n : nat) : M S (result unit) :=
  match n with
  | Datatypes.O => mret (Ok tt)
  | Datatypes.S n =>
      let* ret := ring_op i (fun c => let '(ret, k) := reg (ring c) in (ret, c <| ring := k |>)) in
      if ret <? 0 then
        eng_upd (fun e => e <| rings := fun j => if (0 <=? j) && (j <? i)
                   then (rings e j) <| ring := unreg (ring (rings e j)) |> else rings e j |>) ;;
        mret (Err (ESYS (- ret)))
      else register_loop reg unreg (i + 1) n
  end.

Definition bad_count (count : Z) : bool := (count =? 0) || (INT_MAX <? count).

Definition aura_register_buffers (iovs : list iovec) : M S (result unit) :=
  let count := zlen iovs in
  if bad_count count then mret (Err EINVAL)
  else
    wrlock ;;
    let* e := mget eng in
    if buffers_registered e || buffers_unreg_pending e then wrunlock ;; mret (Err EBUSY)
    else
      let* ok := os_op (os_malloc (count * 16)) in
      if negb ok then wrunlock ;; mret (Err ENONE)
      else
        eng_upd (fun e => e <| registered_buffers := iovs |> <| registered_buffer_count := count |>) ;;
        let* r := register_loop (lu_register_buffers iovs) lu_unregister_buffers 0
                    (Z.to_nat (ring_count e)) in
        match r with
        | Err err =>
            eng_upd (fun e => e <| registered_buffers := [] |> <| registered_buffer_count := 0 |>) ;;
            wrunlock ;; mret (Err err)
        | Ok _ =>
            eng_upd (fun e => e <| buffers_registered := true |> <| buffers_unreg_pending := false |>) ;;
            wrunlock ;; mret (Ok tt)
        end.

Definition aura_register_files (fds : list Z) : M S (result unit) :=
  let count := zlen fds in
  if bad_count count then mret (Err EINVAL)
  else
    wrlock ;;
    let* e := mget eng in
    if files_registered e || files_unreg_pending e then wrunlock ;; mret (Err EBUSY)
    else
      let* ok := os_op (os_malloc (count * 4)) in
      if negb ok then wrunlock ;; mret (Err ENONE)
      else
        eng_upd (fun e => e <| registered_files := fds |> <| registered_file_count := count |>) ;;
        let* r := register_loop (lu_register_files fds) lu_unregister_files 0
                    (Z.to_nat (ring_count e)) in
        match r with
        | Err err =>
            eng_upd (fun e => e <| registered_files := [] |> <| registered_file_count := 0 |>) ;;
            wrunlock ;; mret (Err err)
        | Ok _ =>
            eng_upd (fun e => e <| files_registered := true |> <| files_unreg_pending := false |>) ;;
            wrunlock ;; mret (Ok tt)
        end.

Definition request_unregister_buffers : M S (result unit) :=
  wrlock ;;
  let* e := mget eng in
  if negb (buffers_registered e) && negb (buffers_unreg_pending e) then wrunlock ;; mret (Ok tt)
  else
    eng_upd (fun e => e <| buffers_unreg_pending := true |>) ;; wrunlock ;;
    finalize_deferred_unregistration ;; mret (Ok tt).

Definition request_unregister_files : M S (result unit) :=
  wrlock ;;
  let* e := mget eng in
  if negb (files_registered e) && negb (files_unreg_pending e) then wrunlock ;; mret (Ok tt)
  else
    eng_upd (fun e => e <| files_unreg_pending := true |>) ;; wrunlock ;;
    finalize_deferred_unregistration ;; mret (Ok tt).

(** [None] is a value that is neither enumerator. *)
Definition aura_request_unregister (type : option aura_reg_type_t) : M S (result unit) :=
  match type with
  | Some AURA_REG_BUFFERS => request_unregister_buffers
  | Some AURA_REG_FILES => request_unregister_files
  | None => mret (Err EINVAL)
  end.

(** Undo the update of the rings below [i]; [true] if one of them failed. *)
Fixpoint rollback_loop (index old_fd j : Z) (n : nat) (failed : bool) : M S bool :=
  match n with
  | Datatypes.O => mret failed
  | Datatypes.S n =>
      let* rb := ring_op j (fun c => let '(ret, k) := lu_register_files_update index old_fd (ring c) in
                                     (ret, c <| ring := k |>)) in
      rollback_loop index old_fd (j + 1) n (failed || (rb <? 0))
  end.

Fixpoint update_loop (index new_fd old_fd i : Z) (n : nat) : M S (result unit) :=
  match n with
  | Datatypes.O => mret (Ok tt)
  | Datatypes.S n =>
      let* ret := ring_op i (fun c => let '(ret, k) := lu_register_files_update index new_fd (ring c) in
                                      (ret, c <| ring := k |>)) in
      if ret <? 0 then
        let* failed := rollback_loop index old_fd 0 (Z.to_nat i) false in
        (if failed : bool then latch_fatal_submit_errno (errno_code EIO) else mret tt) ;;
        mret (Err (ESYS (- ret)))
      else update_loop index new_fd old_fd (i + 1) n
  end.

Definition aura_update_file (index new_fd : Z) : M S (result unit) :=
  if index <? 0 then mret (Err EINVAL)
  else
    wrlock ;;
    let* e := mget eng in
    if negb (files_registered e) || files_unreg_pending e then
      wrunlock ;; mret (Err (if files_unreg_pending e then EBUSY else ENOENT))
    else if registered_file_count e <=? index then wrunlock ;; mret (Err EINVAL)
    else
      let old_fd := aget (-1) (registered_files e) index in
      let* r := update_loop index new_fd old_fd 0 (Z.to_nat (ring_count e)) in
      match r with
      | Err err => wrunlock ;; mret (Err err)
      | Ok _ =>
          eng_upd (fun e => e <| registered_files := aset (registered_files e) index new_fd |>) ;;
          wrunlock ;; mret (Ok tt)
      end.

(** The thread that submitted last on this engine's rings; linking is only for
    THREAD_LOCAL. *)
Definition aura_request_set_linked (req : request_ref) : M S (result unit) :=
  let* e := mget eng in
  let* t := mget tls in
  if negb (tls_engine t) || negb (is_thread_local (ring_select e)) then mret (Err EINVAL)
  else
    ring_upd (rq_ring req) (upd_req (rq_slot req) (fun r => r <| linked := true |>)) ;;
    (match ring_get_last_sqe (thr t) with
     | Some (i, sqe) => ring_upd i (fun c => c <| ring := lu_or_link sqe (ring c) |>)
     | None => mret tt
     end) ;;
    match tls_last_ring t with
    | None => mret (Ok tt)
    | Some i =>
        tls_upd (fun t => t <| tls_link_ring := Some i |>
                            <| tls_link_depth := i32 (tls_link_depth t + 1) |>) ;;
        mret (Ok tt)
    end.

End Ops.
