(* ===== verification/EngineLoop.v ===== *)
(** * Event processing and run-time settings

    [aura.c] 967-984 (a round of the tick thread), 1930-2315 (flush, poll, wait,
    run, stop, drain), 2458-2517 (blocking unregistration), 2645-2652 and
    2952-3010 (the pending count and the run-time settings). *)
From Stdlib Require Import ZArith Lia List.
From stdpp Require Import base tactics list.
From S2P Require Import Prelude Double Histogram Controller Ring RingCq Engine EngineOps.

#[local] Open Scope Z_scope.
#[local] Open Scope op_scope.

Section Loop.
Context {K O : Type} {L : Liburing K} {LR : LiburingReg K} {OS : EngineOs O}.
Abbreviation S := (estate K O).
Context {UC : UserCallbacks S}.
Variable fuel : nat.

(** [for (int i = ...; n times) acc = body(i, acc)] *)
Fixpoint for_rings {A} (body : Z -> A -> M S A) (i : Z) (n : nat) (acc : A) : M S A :=
  match n with
  | Datatypes.O => mret acc
  | Datatypes.S n => let* acc := body i acc in for_rings body (i + 1) n acc
  end.

Definition all_rings {A} (body : Z -> A -> M S A) (acc : A) : M S A :=
  let* n := eng_get ring_count in for_rings body 0 (Z.to_nat n) acc.

(** Lock, flush, unlock one ring; whether a fatal error was latched. *)
Definition flush_ring_locked (i : Z) : M S bool :=
  let* st := lock_ring i in
  let* fatal := flush_ring_checked i in
  unlock_ring i st ;; mret fatal.

Definition fatal_result {A} : M S (result A) :=
  let* code := eng_get fatal_submit_errno in mret (Err (ESYS code)).

Definition aura_flush : M S (result unit) :=
  let* fatal := all_rings (fun i fatal => let* f := flush_ring_locked i in mret (fatal || f)) false in
  if fatal : bool then fatal_result else mret (Ok tt).

(** ** Polling *)

Definition finalize_if_pending : M S unit :=
  let* e := mget eng in
  if buffers_unreg_pending e || files_unreg_pending e then maybe_finalize_deferred_unregistration
  else mret tt.

(** The ring of a thread in THREAD_LOCAL mode. *)
Definition thread_local_ring (e : engine_t K) (t : tls_t) : option Z :=
  if is_thread_local (ring_select e) then own_ring e t (tls_owned_ring t) else None.

(** The flush of the own ring, before polling it. *)
Definition flush_own (i : Z) : M S unit :=
  let* c := ring_at i in
  if single_thread c then ring_op_t i ring_flush_fast ;; mret tt
  else flush_ring_locked i ;; mret tt.

(** The two fast paths of [aura_poll] and [aura_wait]: the completions of the
    own ring, or [None] if neither applies. *)
Definition poll_own : M S (option (Z * Z)) :=
  let* e := mget eng in
  let* t := mget tls in
  if (ring_count e =? 1) && ring_is_sole_owner e 0 then
    ring_op_t 0 ring_flush_fast ;;
    let* n := poll_ring fuel 0 in
    finalize_if_pending ;; mret (Some (0, n))
  else
    match thread_local_ring e t with
    | Some i =>
        flush_own i ;;
        let* n := poll_ring fuel i in
        finalize_if_pending ;; mret (Some (i, n))
    | None => mret None
    end.

(** First pass over ring [i]: (total, skipped, fatal). *)
Definition poll_try (i : Z) (acc : Z * Z * bool) : M S (Z * Z * bool) :=
  let '(total, skipped, fatal) := acc in
  let* got := ring_op i (fun c => let '(ok, st, c) := ring_trylock c in ((ok, st), c)) in
  let '(ok, st) := got in
  if ok : bool then
    let* f := flush_ring_checked i in
    unlock_ring i st ;;
    let* n := poll_ring fuel i in
    mret (if 0 <? n then total + n else total, skipped, fatal || f)
  else mret (total, skipped + 1, fatal).

(** Second pass: (total, fatal). *)
Definition poll_block (i : Z) (acc : Z * bool) : M S (Z * bool) :=
  let '(total, fatal) := acc in
  let* f := flush_ring_locked i in
  let* n := poll_ring fuel i in
  mret (if 0 <? n then total + n else total, fatal || f).

Definition drain_registered_eventfd : M S unit :=
  let* e := mget eng in if eventfd_registered e then drain_eventfd else mret tt.

Definition aura_poll : M S (result Z) :=
  let* own := poll_own in
  match own with
  | Some (_, n) => mret (Ok (if 0 <? n then n else 0))
  | None =>
      let* latched := eng_get (fun e => negb (fatal_submit_errno e =? 0)) in
      maybe_finalize_deferred_unregistration ;;
      drain_registered_eventfd ;;
      let* first := all_rings poll_try (0, 0, latched) in
      let '(total, skipped, fatal) := first in
      let* second := (if (0 <? skipped) && (total =? 0) then all_rings poll_block (total, fatal)
                      else mret (total, fatal)) in
      let '(total, fatal) := second in
      maybe_finalize_deferred_unregistration ;;
      if (fatal : bool) && (total =? 0) then fatal_result else mret (Ok total)
  end.

(** ** Waiting *)

Definition wait_ring (i timeout_ms : Z) : M S (result Z) :=
  @ring_wait K L S (at_ring i) fuel timeout_ms.

(** One ring of the flush-and-poll pass: (total, first_pending, fatal). *)
Definition wait_pass (i : Z) (acc : Z * Z * bool) : M S (Z * Z * bool) :=
  let '(total, first, fatal) := acc in
  let* st := lock_ring i in
  let* f := flush_ring_checked i in
  let* c := ring_at i in
  let has_pending := 0 <? pending_count c in
  unlock_ring i st ;;
  let* n := poll_ring fuel i in
  mret (if 0 <? n then total + n else total,
        if has_pending && (first <? 0) then i else first, fatal || f).

Definition poll_sum (i total : Z) : M S Z :=
  let* n := poll_ring fuel i in mret (if 0 <? n then total + n else total).

Definition flush_poll_sum (i total : Z) : M S Z :=
  flush_ring_locked i ;; poll_sum i total.

(** Block on the eventfd; [Ok 0] is a time-out. *)
Definition wait_eventfd (fd timeout_ms : Z) : M S (result Z) :=
  let* pret := os_op (os_poll fd (if timeout_ms <? 0 then -1 else timeout_ms)) in
  let* completed := (if 0 <? pret then
                       drain_eventfd ;;
                       let* n := all_rings flush_poll_sum 0 in
                       maybe_finalize_deferred_unregistration ;; mret n
                     else mret 0) in
  if 0 <? completed then mret (Ok completed)
  else if (pret <? 0) && negb (- pret =? errno_code EINTR) then mret (Err (ESYS (- pret)))
  else
    let* completed := all_rings poll_sum 0 in
    if 0 <? completed then maybe_finalize_deferred_unregistration ;; mret (Ok completed)
    else mret (Ok 0).

(** Without an eventfd: block on the first ring with pending operations. *)
Definition wait_first (first timeout_ms : Z) : M S (result Z) :=
  let* r := wait_ring first timeout_ms in
  match r with
  | Err err => mret (Err err)
  | Ok n =>
      if 0 <? n then
        let* n := all_rings (fun j total => if j =? first then mret total else poll_sum j total) n in
        maybe_finalize_deferred_unregistration ;; mret (Ok n)
      else mret (Ok 0)
  end.

Definition aura_wait (timeout_ms : Z) : M S (result Z) :=
  let* own := poll_own in
  match own with
  | Some (i, n) => if 0 <? n then mret (Ok n) else wait_ring i timeout_ms
  | None =>
      let* latched := eng_get (fun e => negb (fatal_submit_errno e =? 0)) in
      maybe_finalize_deferred_unregistration ;;
      drain_registered_eventfd ;;
      let* pass := all_rings wait_pass (0, -1, latched) in
      let '(total, first, fatal) := pass in
      if 0 <? total then maybe_finalize_deferred_unregistration ;; mret (Ok total)
      else if (fatal : bool) then fatal_result
      else if first <? 0 then mret (Ok 0)
      else
        let* fd := eng_get event_fd in
        let* r := (if 0 <=? fd then wait_eventfd fd timeout_ms else wait_first first timeout_ms) in
        match r with
        | Err err => mret (Err err)
        | Ok n =>
            if 0 <? n then mret (Ok n)
            else maybe_finalize_deferred_unregistration ;; mret (Err ETIMEDOUT)
        end
  end.

(** ** Running and draining *)

Definition pending_any (e : engine_t K) : bool :=
  existsb (fun i => 0 <? pending_count (rings e i)) (seqZ 0 (ring_count e)).

(** What [aura_run] does after a wait: stop, or go round again with the number
    of drain iterations. *)
Definition run_step (completed drain_iterations : Z) : M S (option Z) :=
  let* e := mget eng in
  if negb (stop_requested e) then mret (Some 0)
  else if negb (pending_any e) && (completed <=? 0) then mret None
  else if 100 <=? drain_iterations + 1 then mret None
  else mret (Some (drain_iterations + 1)).

Fixpoint run_loop (n : nat) (drain_iterations : Z) : M S unit :=
  match n with
  | Datatypes.O => never
  | Datatypes.S n =>
      let* r := aura_wait 100 in
      let go completed :=
        let* next := run_step completed drain_iterations in
        match next with Some d => run_loop n d | None => mret tt end in
      match r with
      | Ok completed => go completed
      | Err ETIMEDOUT => go (-1)
      | Err _ => mret tt
      end
  end.

Definition aura_run : M S unit :=
  eng_upd (fun e => e <| stop_requested := false |> <| running := true |>) ;;
  run_loop fuel 0 ;;
  eng_upd (fun e => e <| running := false |>).

Definition aura_stop : M S unit := eng_upd (fun e => e <| stop_requested := true |>).

(** [deadline] is in nanoseconds; the loop is bounded by [n] waits. *)
Fixpoint drain_loop (n : nat) (timeout_ms deadline total : Z) : M S (result Z) :=
  match n with
  | Datatypes.O => never
  | Datatypes.S n =>
      maybe_finalize_deferred_unregistration ;;
      let* e := mget eng in
      if negb (pending_any e) then maybe_finalize_deferred_unregistration ;; mret (Ok total)
      else if timeout_ms =? 0 then
        let* r := aura_poll in
        match r with
        | Ok k => mret (Ok (total + k))
        | Err err => mret (if 0 <? total then Ok total else Err err)
        end
      else
        let* wait_ms :=
          (if timeout_ms <? 0 then mret (Some 100)
           else
             let* now := os_op os_now_ns in
             let remaining := deadline - now in
             if remaining <=? 0 then mret None
             else
               let w := i32 (Z.quot remaining 1000000) in
               let w := if w <=? 0 then 1 else w in
               mret (Some (if 100 <? w then 100 else w))) in
        match wait_ms with
        | None => mret (Err ETIMEDOUT)
        | Some w =>
            let* r := aura_wait w in
            match r with
            | Ok k => drain_loop n timeout_ms deadline (if 0 <? k then total + k else total)
            | Err ETIMEDOUT => drain_loop n timeout_ms deadline total
            | Err err => mret (Err err)
            end
        end
  end.

Definition aura_drain (timeout_ms : Z) : M S (result Z) :=
  if 0 <? timeout_ms then
    let* now := os_op os_now_ns in
    drain_loop fuel timeout_ms (now + timeout_ms * 1000000) 0
  else drain_loop fuel timeout_ms 0 0.

(** ** Blocking unregistration *)

Definition unregistered (type : aura_reg_type_t) (e : engine_t K) : bool :=
  match type with
  | AURA_REG_BUFFERS => negb (buffers_registered e) && negb (buffers_unreg_pending e)
  | AURA_REG_FILES => negb (files_registered e) && negb (files_unreg_pending e)
  end.

Fixpoint unregister_loop (n : nat) (type : aura_reg_type_t) (deadline_ms : Z) : M S (result unit) :=
  match n with
  | Datatypes.O => never
  | Datatypes.S n =>
      rdlock ;;
      let* finished := eng_get (unregistered type) in
      rdunlock ;;
      if finished : bool then mret (Ok tt)
      else
        let* now := os_op os_now_ns in
        if deadline_ms <=? Z.quot now 1000000 then mret (Err ETIMEDOUT)
        else
          let* r := aura_wait 100 in
          match r with
          | Ok _ | Err ETIMEDOUT => unregister_loop n type deadline_ms
          | Err err => mret (Err err)
          end
  end.

Definition aura_unregister (type : option aura_reg_type_t) : M S (result unit) :=
  let* t := tls_get thr in
  if ring_in_callback_context t then aura_request_unregister type
  else
    let* r := aura_request_unregister type in
    match r, type with
    | Err err, _ => mret (Err err)
    | Ok _, None => mret (Ok tt)
    | Ok _, Some type =>
        let* now := os_op os_now_ns in
        unregister_loop fuel type (Z.quot now 1000000 + 10000)
    end.

(** ** The tick *)

(** The clock readings of [adaptive_tick] on ring [i]. *)
Definition tick_ring (clock : Z -> Z * Z * Z) (i total : Z) : M S Z :=
  let* c := ring_at i in
  let p := pending_count c in
  let '(t0, t1, t2) := clock i in
  ring_upd i (fun c => c <| adaptive := snd (adaptive_tick (adaptive c) p t0 t1 t2) |>) ;;
  ring_upd i (fun c => if peak_pending_count c <? p then c <| peak_pending_count := p |> else c) ;;
  mret (total + p).

(** One round of [tick_thread_func]. *)
Definition tick_round (clock : Z -> Z * Z * Z) : M S unit :=
  let* n := eng_get ring_count in
  let* total := all_rings (tick_ring clock) 0 in
  if 0 <? n then eng_upd (fun e => e <| avg_ring_pending := Z.quot total n |>) else mret tt.

(** ** Counters and run-time settings *)

Definition aura_pending_count : M S Z :=
  all_rings (fun i total => let* c := ring_at i in mret (total + pending_count c)) 0.

(** Set a field of every controller under its ring's lock. *)
Definition set_controllers (f : adaptive_controller_t -> adaptive_controller_t) : M S unit :=
  all_rings (fun i _ =>
    let* st := lock_ring i in
    ring_upd i (fun c => c <| adaptive := f (adaptive c) |>) ;;
    unlock_ring i st) tt.

Definition aura_set_max_p99_latency (latency_ms : double) : M S (result unit) :=
  if d_lt latency_ms d_zero then mret (Err EINVAL)
  else set_controllers (fun a => a <| max_p99_ms := latency_ms |>) ;; mret (Ok tt).

Definition aura_set_min_in_flight (m : Z) : M S (result unit) :=
  let* depth := eng_get queue_depth in
  if (m <? 1) || (depth <? m) then mret (Err EINVAL)
  else set_controllers (fun a => a <| min_in_flight := m |>) ;; mret (Ok tt).

Definition aura_set_batch_threshold (threshold : Z) : M S (result unit) :=
  if threshold <? -1 then mret (Err EINVAL)
  else
    all_rings (fun i _ => ring_upd i (fun c =>
      c <| adaptive := ctrl_set_batch_threshold (adaptive c) threshold |>)) tt ;;
    mret (Ok tt).

End Loop.
