(* ===== verification/EngineInit.v ===== *)
(** * Creating an engine

    [aura.c] 994-1127, 1144-1254, 1340-1439 and 1891-1928: option defaults and
    validation, ring creation with its failure path, eventfd registration, and
    destruction of the registrations and rings. The stages are put together with
    the buffer pool in [EngineLife]; here the outcomes of allocations are
    parameters. *)
From Stdlib Require Import ZArith Lia List.
From stdpp Require Import base tactics list.
From S2P Require Import Prelude Double Histogram Controller Ring RingCq Engine EngineOps EngineLoop.

#[local] Open Scope Z_scope.
#[local] Open Scope op_scope.

Definition DEFAULT_QUEUE_DEPTH : Z := 1024.
Definition AURA_MAX_RINGS : Z := 1024.

(** [aura_options_t]; [o_padding] is the word of padding after [_reserved]. *)
Record aura_options_t := {
  struct_size : Z;
  o_queue_depth : Z;
  o_ring_count : Z;
  initial_in_flight : Z;
  o_min_in_flight : Z;
  max_p99_latency_ms : double;
  o_buffer_alignment : Z;
  disable_adaptive : bool;
  o_enable_sqpoll : bool;
  o_sqpoll_idle_ms : Z;
  o_ring_select : aura_ring_select_t;
  o_single_thread : bool;
  batch_threshold : Z;
  _reserved : list Z;                (* uint32_t [6] *)
  o_padding : Z
}.

(** The layout on LP64: [_reserved] starts at byte 60 and the structure, with
    its 8-byte alignment, takes 88 bytes. *)
Definition RESERVED_OFFSET : Z := 60.
Definition SIZEOF_OPTIONS : Z := 88.

Definition aura_options_init (page_size : Z) : aura_options_t := {|
  struct_size := SIZEOF_OPTIONS; o_queue_depth := DEFAULT_QUEUE_DEPTH; o_ring_count := 0;
  initial_in_flight := 0; o_min_in_flight := 4; max_p99_latency_ms := d_zero;
  o_buffer_alignment := page_size; disable_adaptive := false; o_enable_sqpoll := false;
  o_sqpoll_idle_ms := 1000; o_ring_select := AURA_SELECT_ADAPTIVE; o_single_thread := false;
  batch_threshold := -1; _reserved := replicate 6 0; o_padding := 0 |}.

(** The number of reserved words the check reads, and the words in memory. *)
Definition reserved_count (size : Z) : Z :=
  if RESERVED_OFFSET <? size then (size - RESERVED_OFFSET) / 4 else 0.
Definition reserved_words (o : aura_options_t) : list Z := _reserved o ++ [o_padding o].

Definition reserved_zero (o : aura_options_t) : bool :=
  forallb (fun w => w =? 0) (take (Z.to_nat (reserved_count (struct_size o))) (reserved_words o)).

Definition effective_depth (o : aura_options_t) : Z :=
  if 0 <? o_queue_depth o then o_queue_depth o else DEFAULT_QUEUE_DEPTH.

Definition validate_options (o : aura_options_t) : bool :=
  negb ((struct_size o =? 0) || (SIZEOF_OPTIONS <? struct_size o))
  && reserved_zero o
  && negb ((o_queue_depth o <? 0) || (32768 <? o_queue_depth o)
           || ((0 <? o_queue_depth o) && (o_queue_depth o <? 4)))
  && negb ((0 <? o_buffer_alignment o)
           && negb (Z.land (o_buffer_alignment o) (o_buffer_alignment o - 1) =? 0))
  && negb ((o_ring_count o <? 0) || (AURA_MAX_RINGS <? o_ring_count o))
  && negb (negb (o_min_in_flight o =? 0)
           && ((o_min_in_flight o <? 1) || (effective_depth o <? o_min_in_flight o)))
  && (let effective_min := if 0 <? o_min_in_flight o then o_min_in_flight o else 4 in
      negb (negb (initial_in_flight o =? 0)
            && ((initial_in_flight o <? effective_min) || (effective_depth o <? initial_in_flight o)))).

(** [get_cpu_count] on the answer of [sysconf]. *)
Definition get_cpu_count (cpus : Z) : Z :=
  let n := if cpus <? 1 then 1 else cpus in if AURA_MAX_RINGS <? n then AURA_MAX_RINGS else n.

(** The settings [init_engine_rings] applies to a new ring's controller. *)
Definition configure_controller (o : aura_options_t) (a : adaptive_controller_t)
  : adaptive_controller_t :=
  let a := if 0 <? initial_in_flight o then a <| aimd_initial_in_flight := initial_in_flight o |> else a in
  let a := if 0 <? o_min_in_flight o then a <| min_in_flight := o_min_in_flight o |> else a in
  let a := if d_gt (max_p99_latency_ms o) d_zero then a <| max_p99_ms := max_p99_latency_ms o |> else a in
  if batch_threshold o =? 0 then
    a <| current_batch_threshold := INT_MAX |> <| batch_threshold_fixed := true |>
  else if 0 <? batch_threshold o then
    a <| current_batch_threshold := batch_threshold o |> <| batch_threshold_fixed := true |>
  else a.

Section Init.
Context {K O : Type} {L : Liburing K} {LR : LiburingReg K} {OS : EngineOs O}.
Abbreviation S := (estate K O).
Context {UC : UserCallbacks S}.
Variable fuel : nat.

Definition configure_ring (o : aura_options_t) (i : Z) (c : ring_ctx_t K) : ring_ctx_t K :=
  c <| rc_ring_idx := i |> <| single_thread := o_single_thread o |>
    <| adaptive := configure_controller o (adaptive c) |>.

Definition ring_options (o : aura_options_t) : ring_options_t :=
  let tl := is_thread_local (o_ring_select o) in
  {| enable_sqpoll := o_enable_sqpoll o;
     sqpoll_idle_ms := if 0 <? o_sqpoll_idle_ms o then o_sqpoll_idle_ms o else 1000;
     enable_single_issuer := tl; start_disabled := tl |}.

Definition destroy_ring (i : Z) : M S unit :=
  fun s => match @ring_destroy K L S (at_ring i) fuel s with Some s => Some (tt, s) | None => None end.

(** Rings [i], [i+1], ...; [env] and [k] give the outcomes of the allocations
    and the fresh kernel state of each ring. A ring that cannot be initialised
    has released what it had acquired ([ring_init]); the rings before it are
    destroyed, and the array, which is freed then, is not used again. *)
Fixpoint init_rings (o : aura_options_t) (env : Z -> ring_init_env) (k : Z -> K) (i : Z) (n : nat)
  : M S (result unit) :=
  match n with
  | Datatypes.O => mret (Ok tt)
  | Datatypes.S n =>
      let* depth := eng_get queue_depth in
      match ring_init (env i) depth i (Some (ring_options o)) (k i) with
      | (Err err, _) =>
          for_rings (fun j _ => destroy_ring j) 0 (Z.to_nat i) tt ;; mret (Err err)
      | (Ok c, _) =>
          let c := configure_ring o i c in
          eng_upd (fun e =>
            e <| rings := fun j => if j =? i then c else rings e j |>
              <| e_sqpoll_enabled := e_sqpoll_enabled e || sqpoll_enabled c |>) ;;
          init_rings o env k (i + 1) n
      end
  end.

(** The engine structure after stage 1: zeroed, then configured. [dead] is the
    content of the ring array's memory before the rings are initialised and
    [addr] the engine's address. *)
Definition engine_core (o : aura_options_t) (page_size addr : Z) (dead : ring_ctx_t K) : engine_t K := {|
  rings := fun _ => dead; ring_count := 0; queue_depth := effective_depth o;
  next_ring := u32 (Z.shiftr addr 6); avg_ring_pending := 0; e_shutting_down := false;
  ring_select := o_ring_select o; e_single_thread := false; fatal_submit_errno := 0;
  buffers_registered := false; files_registered := false; buffers_unreg_pending := false;
  files_unreg_pending := false; reg_rd := 0; reg_wr := 0; registered_buffers := [];
  registered_files := []; registered_buffer_count := 0; registered_file_count := 0;
  running := false; stop_requested := false; tick_running := false;
  adaptive_enabled := negb (disable_adaptive o); e_sqpoll_enabled := false; event_fd := -1;
  eventfd_registered := false;
  buffer_alignment := if 0 <? o_buffer_alignment o then o_buffer_alignment o else page_size;
  adaptive_spills := 0
|}.

Definition validate_and_init_engine_core (o : aura_options_t) (page_size addr : Z)
    (dead : ring_ctx_t K) (calloc_ok : bool) (rwlock_ret : Z) : result (engine_t K) :=
  if negb (validate_options o) then Err EINVAL
  else if negb calloc_ok then Err ENONE
  else if negb (rwlock_ret =? 0) then Err (ESYS rwlock_ret)
  else Ok (engine_core o page_size addr dead).

Definition rings_wanted (o : aura_options_t) (cpus : Z) : Z :=
  if 0 <? o_ring_count o then o_ring_count o else get_cpu_count cpus.

Definition init_engine_rings (o : aura_options_t) (cpus : Z) (calloc_ok : bool)
    (env : Z -> ring_init_env) (k : Z -> K) : M S (result unit) :=
  eng_upd (fun e => e <| ring_count := rings_wanted o cpus |>) ;;
  if negb calloc_ok then mret (Err ENONE)
  else
    let* r := init_rings o env k 0 (Z.to_nat (rings_wanted o cpus)) in
    match r with
    | Err err => mret (Err err)
    | Ok _ => eng_upd (fun e => e <| e_single_thread := o_single_thread o |>) ;; mret (Ok tt)
    end.

(** Register the eventfd with every ring, or with none. The call answers 0 or
    -errno, so that [ret != 0] is [ret < 0]. *)
Definition register_eventfd_loop (fd : Z) : M S (result unit) :=
  let* n := eng_get ring_count in
  register_loop (lu_register_eventfd fd) lu_unregister_eventfd 0 (Z.to_nat n).

(** [fd] is the answer of [eventfd]: a descriptor or -errno. *)
Definition register_eventfd_with_rings (fd : Z) : M S (result unit) :=
  eng_upd (fun e => e <| event_fd := fd |>) ;;
  let* e := mget eng in
  if fd <? 0 then mret (Err (ESYS (- fd)))
  else if is_thread_local (ring_select e) then
    eng_upd (fun e => e <| eventfd_registered := false |>) ;; mret (Ok tt)
  else
    let* r := register_eventfd_loop fd in
    match r with
    | Ok _ => eng_upd (fun e => e <| eventfd_registered := true |>) ;; mret (Ok tt)
    | Err err =>
        os_op (fun o => (tt, os_close fd o)) ;;
        eng_upd (fun e => e <| event_fd := -1 |>) ;; mret (Err err)
    end.

(** Lazy registration, for THREAD_LOCAL. *)
Definition aura_get_poll_fd : M S (result Z) :=
  let* e := mget eng in
  if ring_count e =? 0 then mret (Err EINVAL)
  else if (0 <=? event_fd e) && negb (eventfd_registered e) then
    eng_upd (fun e => e <| eventfd_registered := true |>) ;;
    let* r := register_eventfd_loop (event_fd e) in
    match r with
    | Ok _ => mret (Ok (event_fd e))
    | Err err => eng_upd (fun e => e <| eventfd_registered := false |>) ;; mret (Err err)
    end
  else mret (Ok (event_fd e)).

(** ** Destruction *)

Definition destroy_phase_1_shutdown : M S unit :=
  eng_upd (fun e => e <| e_shutting_down := true |>) ;;
  eng_upd (fun e => if adaptive_enabled e then e <| tick_running := false |> else e) ;;
  aura_stop.

Definition destroy_phase_3_unregister : M S unit :=
  rdlock ;;
  let* e := mget eng in
  rdunlock ;;
  (if buffers_registered e && negb (buffers_unreg_pending e)
   then request_unregister_buffers ;; mret tt else mret tt) ;;
  (if files_registered e && negb (files_unreg_pending e)
   then request_unregister_files ;; mret tt else mret tt) ;;
  finalize_deferred_unregistration.

(** The eventfd is taken from the rings before it is closed. *)
Definition close_eventfd : M S unit :=
  let* e := mget eng in
  if 0 <=? event_fd e then
    (if eventfd_registered e then eng_upd (each_kernel lu_unregister_eventfd) else mret tt) ;;
    os_op (fun o => (tt, os_close (event_fd e) o))
  else mret tt.

(** The eventfd and the rings; the pool and the map are [BufPool]'s. *)
Definition destroy_phase_4_cleanup_resources : M S unit :=
  close_eventfd ;;
  all_rings (fun i _ => destroy_ring i) tt.

Definition aura_destroy : M S unit :=
  destroy_phase_1_shutdown ;;
  tls_upd (fun t => t <| tls_owned_ring := None |> <| tls_engine := false |>
                      <| tls_last_ring := None |> <| tls_link_ring := None |> <| tls_link_depth := 0 |>) ;;
  aura_drain fuel (-1) ;;
  destroy_phase_3_unregister ;;
  destroy_phase_4_cleanup_resources.

End Init.
