(* ===== verification/EngineWp.v ===== *)
(** * Reasoning about engine operations

    The weakest precondition of an operation of [Engine.M] (it returns, and
    its value and state satisfy the postcondition), its rules for the monad's
    combinators and for the elementary operations, a tactic that applies them,
    and what the ring accesses change. *)
From Stdlib Require Import ZArith Lia List.
From stdpp Require Import base tactics list.
From S2P Require Import Prelude Double Histogram Controller Ring RingCq RingTheorems Engine.

#[local] Open Scope Z_scope.
#[local] Open Scope op_scope.

(** ** The weakest precondition *)

Definition wp {S A} (m : M S A) (Q : A -> S -> Prop) (s : S) : Prop :=
  match m s with Some (a, s') => Q a s' | None => False end.

Section Wp.
Context {S : Type}.
Implicit Types (s : S).

Lemma wp_ret {A} (a : A) (Q : A -> S -> Prop) s : Q a s -> wp (mret a) Q s.
Proof. done. Qed.

Lemma wp_bind {A B} (m : M S A) (k : A -> M S B) (Q : B -> S -> Prop) s :
  wp m (fun a s' => wp (k a) Q s') s -> wp (mbind m k) Q s.
Proof. unfold wp, mbind. by destruct (m s) as [[a s']|]. Qed.

Lemma wp_get {A} (f : S -> A) (Q : A -> S -> Prop) s : Q (f s) s -> wp (mget f) Q s.
Proof. done. Qed.

Lemma wp_upd f (Q : unit -> S -> Prop) s : Q tt (f s) -> wp (mupd f) Q s.
Proof. done. Qed.

Lemma wp_mono {A} (m : M S A) (P Q : A -> S -> Prop) s :
  wp m P s -> (forall a s', P a s' -> Q a s') -> wp m Q s.
Proof. unfold wp. destruct (m s) as [[a s']|]; eauto. Qed.

Lemma wp_and {A} (m : M S A) (P Q : A -> S -> Prop) s :
  wp m P s -> wp m Q s -> wp m (fun a s' => P a s' /\ Q a s') s.
Proof. unfold wp. by destruct (m s) as [[a s']|]. Qed.

Lemma wp_if {A} (b : bool) (m k : M S A) (Q : A -> S -> Prop) s :
  (b = true -> wp m Q s) -> (b = false -> wp k Q s) -> wp (if b then m else k) Q s.
Proof. destruct b; auto. Qed.

(** A run of the operation, and what the postcondition says of it. *)
Lemma wp_run {A} (m : M S A) (Q : A -> S -> Prop) s :
  wp m Q s -> exists a s', m s = Some (a, s') /\ Q a s'.
Proof. unfold wp. destruct (m s) as [[a s']|]; [eauto|done]. Qed.

Lemma wp_of_run {A} (m : M S A) (Q : A -> S -> Prop) s a s' :
  m s = Some (a, s') -> Q a s' -> wp m Q s.
Proof. unfold wp. by intros ->. Qed.
End Wp.

(** ** The operations of the engine *)

Section EngineWp.
Context {K O : Type} {L : Liburing K} {LR : LiburingReg K} {OS : EngineOs O}.
Abbreviation S := (estate K O).
Context {UC : UserCallbacks S}.
Implicit Types (s : S) (c : ring_ctx_t K).

(** [s] with ring [i] replaced. *)
Definition put_ring (i : Z) c s : S := @rs_set_ring K S (at_ring i) c s.
Definition put_thr (t : thread_t) s : S := upd_tls (fun x => x <| thr := t |>) s.

Lemma rings_put_eq i c s : rings (eng (put_ring i c s)) i = c.
Proof. unfold put_ring. cbn. by rewrite Z.eqb_refl. Qed.

Lemma rings_put_ne i j c s : j <> i -> rings (eng (put_ring i c s)) j = rings (eng s) j.
Proof. intros H. unfold put_ring. cbn. by destruct (Z.eqb_spec j i). Qed.

Lemma wp_ring_at i Q s : Q (rings (eng s) i) s -> wp (ring_at i) Q s.
Proof. done. Qed.

Lemma wp_ring_op {A} i (op : ring_ctx_t K -> A * ring_ctx_t K) Q s :
  (forall a c, op (rings (eng s) i) = (a, c) -> Q a (put_ring i c s)) -> wp (ring_op i op) Q s.
Proof.
  unfold wp, ring_op, on_ring. cbn. destruct (op (rings (eng s) i)) as [a c]. auto.
Qed.

Lemma wp_ring_op_t {A} i (op : ring_ctx_t K -> thread_t -> A * ring_ctx_t K * thread_t) Q s :
  (forall a c t, op (rings (eng s) i) (thr (tls s)) = (a, c, t) -> Q a (put_thr t (put_ring i c s))) ->
  wp (ring_op_t i op) Q s.
Proof.
  intros H. unfold wp, ring_op_t, on_ring_thread. cbn [rs_ring rs_thread at_ring].
  destruct (op (rings (eng s) i) (thr (tls s))) as [[a c] t]. by apply H.
Qed.

Lemma wp_ring_upd i f Q s : Q tt (put_ring i (f (rings (eng s) i)) s) -> wp (ring_upd i f) Q s.
Proof. done. Qed.

Lemma wp_eng_upd f Q s : Q tt (upd_eng f s) -> wp (eng_upd f) Q s.
Proof. done. Qed.
Lemma wp_tls_upd f Q s : Q tt (upd_tls f s) -> wp (tls_upd f) Q s.
Proof. done. Qed.
Lemma wp_eng_get {A} (f : engine_t K -> A) Q s : Q (f (eng s)) s -> wp (eng_get f) Q s.
Proof. done. Qed.
Lemma wp_tls_get {A} (f : tls_t -> A) Q s : Q (f (tls s)) s -> wp (tls_get f) Q s.
Proof. done. Qed.

Lemma wp_os_op {A} (f : O -> A * O) Q s :
  (forall a o, f (os s) = (a, o) -> Q a (s <| os := o |>)) -> wp (os_op f) Q s.
Proof. unfold wp, os_op. destruct (f (os s)) as [a o]. auto. Qed.

End EngineWp.

(** One step of an operation: the head combinator's rule. Conditionals and
    matches are left to the proof. *)
Ltac wp_step :=
  lazymatch goal with
  | |- wp (mbind _ _) _ _ => apply wp_bind
  | |- wp (mret _) _ _ => apply wp_ret
  | |- wp (mget _) _ _ => apply wp_get
  | |- wp (mupd _) _ _ => apply wp_upd
  | |- wp (ring_at _) _ _ => apply wp_ring_at
  | |- wp (ring_op _ _) _ _ => apply wp_ring_op; intros ? ? ?
  | |- wp (ring_op_t _ _) _ _ => apply wp_ring_op_t; intros ? ? ? ?
  | |- wp (ring_upd _ _) _ _ => apply wp_ring_upd
  | |- wp (eng_upd _) _ _ => apply wp_eng_upd
  | |- wp (tls_upd _) _ _ => apply wp_tls_upd
  | |- wp (eng_get _) _ _ => apply wp_eng_get
  | |- wp (tls_get _) _ _ => apply wp_tls_get
  | |- wp (os_op _) _ _ => apply wp_os_op; intros ? ? ?
  | |- wp (let _ := _ in _) _ _ => cbv zeta
  end.
Ltac wp_steps := repeat (wp_step; cbv beta).
