(* ===== verification/SubmitSpec.v ===== *)
(** * A submission on one ring

    What each step of a submission (lock, take a slot, fill it, queue it,
    count it, flush, give it back, unlock) keeps of a ring: the predicates
    [begun], [queued_as], [settled] and [accepted] follow the slot through the
    protocol of [Engine.submit_begin], [submit_end] and [submit_abort].
    [submit_fn_ok] holds of every submission function of [Ring]. *)
From Stdlib Require Import ZArith Lia List.
From stdpp Require Import base tactics list.
From S2P Require Import Prelude Double Histogram Controller Ring RingCq RingSpec RingTheorems.

#[local] Open Scope Z_scope.

Create HintDb submit_db.

Section Spec.
Context {K : Type} {L : Liburing K}.
Implicit Types (c : ring_ctx_t K).

(** The fields a submission may only change in pairs. *)
Definition lock_view c :=
  (lock c, st_users c, single_thread c, cq_lock c, st_cq_users c, owner_count c, fixed_buf_inflight c).

(** [c'] holds the lock that [c] does not: unlocking gives it back. *)
Definition held (st : bool) c c' : Prop := lock_view (ring_unlock c' st) = lock_view c.

Lemma held_view st c c' c'' : lock_view c'' = lock_view c' -> held st c c' -> held st c c''.
Proof.
  unfold held, ring_unlock. intros E H. destruct st; unfold lock_view in *; cbn in *;
    injection E as E1 E2 E3 E4 E5 E6 E7; by rewrite E1, E2, E3, E4, E5, E6, E7.
Qed.

Lemma lock_held c st c' :
  0 <= st_users c < INT_MAX -> ring_lock c = (st, c') -> held st c c' /\
  slot_view c' = slot_view c /\ pending_count c' = pending_count c /\
  queued_sqes c' = queued_sqes c /\ fixed_file_inflight c' = fixed_file_inflight c /\
  adaptive c' = adaptive c.
Proof.
  intros Hst. unfold ring_lock, held. destruct (single_thread c) eqn:E; cbn; rewrite ?E; cbn;
    intros [= <- <-]; (split; [|done]); unfold lock_view; cbn.
  - rewrite (i32_id (st_users c + 1)) by (unfold INT_MIN, INT_MAX in *; lia).
    rewrite i32_id by (unfold INT_MIN, INT_MAX in *; lia). do 5 f_equal. f_equal. lia.
  - do 6 f_equal. lia.
Qed.

(** A ring that is consistent and has room under its limits. *)
Definition ring_ready c : Prop :=
  ring_inv c [] /\ ring_can_submit c = true /\ 0 <= st_users c < INT_MAX /\
  0 <= queued_sqes c < INT_MAX.

(** *** The slot through the protocol *)

(** The lock is held and [slot], free before, is in use and not queued. *)
Record begun (st : bool) (slot : Z) c c' : Prop := {
  bg_held : held st c c';
  bg_inv : ring_inv c' [];
  bg_slot : 0 <= slot < max_requests c';
  bg_use : in_pool (req_at c' slot) = false;
  bg_idle : pending (req_at c' slot) = false;
  bg_was : pending (req_at c slot) = false;
  bg_free : free_slots_of c = free_slots_of c' ++ [slot];
  bg_pending : pending_count c' = pending_count c;
  bg_queued : queued_sqes c' = queued_sqes c;
  bg_file : fixed_file_inflight c' = fixed_file_inflight c;
  bg_others : forall j, j <> slot -> req_at c' j = req_at c j
}.

(** The lock is held and [slot] is queued with callback [cb] and data [ud]. *)
Record queued_as (st : bool) (slot cb ud : Z) (reg : bool) c c' : Prop := {
  qa_held : held st c c';
  qa_inv : ring_inv c' [];
  qa_free : free_slots_of c = free_slots_of c' ++ [slot];
  qa_on : pending (req_at c' slot) = true;
  qa_cb : Ring.callback (req_at c' slot) = cb;
  qa_ud : Ring.user_data (req_at c' slot) = ud;
  qa_reg : uses_registered_file (req_at c' slot) = reg;
  qa_pending : pending_count c' = pending_count c + 1;
  qa_queued : 0 <= queued_sqes c';
  qa_others : forall j, j <> slot -> req_at c' j = req_at c j
}.

(** Nothing is left of a submission that failed. *)
Record settled c c' : Prop := {
  se_locks : lock_view c' = lock_view c;
  se_inv : ring_inv c' [];
  se_free : free_slots_of c' = free_slots_of c;
  se_pending : pending_count c' = pending_count c;
  se_queued : queued_sqes c' = queued_sqes c;
  se_file : fixed_file_inflight c' = fixed_file_inflight c;
  se_flags : forall j, pending (req_at c' j) = pending (req_at c j)
}.

(** A submission that succeeded holds one slot and nothing else. *)
Record accepted (slot cb ud : Z) (reg : bool) c c' : Prop := {
  ac_locks : lock_view c' = lock_view c;
  ac_inv : ring_inv c' [];
  ac_free : free_slots_of c = free_slots_of c' ++ [slot];
  ac_on : pending (req_at c' slot) = true;
  ac_cb : Ring.callback (req_at c' slot) = cb;
  ac_ud : Ring.user_data (req_at c' slot) = ud;
  ac_pending : pending_count c' = pending_count c + 1;
  ac_file : fixed_file_inflight c' =
    if reg then u32 (fixed_file_inflight c + 1) else fixed_file_inflight c;
  ac_others : forall j, j <> slot -> req_at c' j = req_at c j
}.

Lemma settled_refl c : ring_inv c [] -> settled c c.
Proof. by split. Qed.

Lemma slot_view_free c c' : slot_view c' = slot_view c -> free_slots_of c' = free_slots_of c.
Proof. unfold slot_view, free_slots_of. intros H. by injection H as _ -> -> _. Qed.

(** Taking a slot under the lock. *)
Lemma get_begun c st c1 slot c2 :
  ring_inv c [] -> 0 <= st_users c < INT_MAX -> ring_lock c = (st, c1) ->
  ring_get_request c1 = Some (slot, c2) -> begun st slot c c2.
Proof.
  intros Hinv Hst El Eg. destruct (lock_held c st c1 Hst El) as (Hh & Hv & Hp & Hq & Hf & _).
  assert (ring_inv c1 []) as Hinv1 by by apply (ring_inv_view c).
  assert (forall j, req_at c1 j = req_at c j) as Hr by (intros j; by apply slot_view_req).
  destruct (ring_get_slot c1 slot c2 (ri_slots _ _ Hinv1) Eg)
    as (G1 & G2 & G3 & G4 & G5 & G6 & G7 & G8 & G9).
  pose proof (ring_get_free c1 slot c2 (ri_slots _ _ Hinv1) Eg) as Gf.
  assert (lock_view c2 = lock_view c1 /\ queued_sqes c2 = queued_sqes c1 /\
          fixed_file_inflight c2 = fixed_file_inflight c1) as (V1 & V2 & V3).
  { unfold ring_get_request in Eg. destruct (_ =? 0); [done|]. by injection Eg as _ <-. }
  split.
  - by apply (held_view st c c1).
  - split; [done|by apply NoDup_nil_2|by intros j ?%not_elem_of_nil|].
    rewrite G8, G9. by apply ri_pending.
  - by rewrite G7.
  - by rewrite G4.
  - by rewrite G4.
  - rewrite <- Hr. apply (sl_idle c1 (ri_slots _ _ Hinv1)); done.
  - rewrite <- Gf. symmetry. by apply slot_view_free.
  - by rewrite G8.
  - by rewrite V2.
  - by rewrite V3.
  - intros j Hj. by rewrite G5, Hr.
Qed.

(** Filling the slot: [setup] keeps what the ring manages. *)
Definition setup_ok (setup : aura_request_t -> aura_request_t) (cb ud : Z) (reg : bool) : Prop :=
  forall r, let r' := setup r in
    in_pool r' = in_pool r /\ op_idx r' = op_idx r /\ pending r' = pending r /\
    Ring.callback r' = cb /\ Ring.user_data r' = ud /\ uses_registered_file r' = reg.

Lemma fill_begun st slot c c1 setup cb ud reg :
  setup_ok setup cb ud reg -> begun st slot c c1 ->
  begun st slot c (upd_req slot setup c1) /\
  req_at (upd_req slot setup c1) slot = setup (req_at c1 slot).
Proof.
  intros Hs [B1 B2 B3 B4 B5 B6 B7 B8 B9 B10 B11]. destruct (Hs (req_at c1 slot)) as (S1 & S2 & S3 & _).
  pose proof (sl_len c1 (ri_slots _ _ B2)) as Hl.
  assert (req_at (upd_req slot setup c1) slot = setup (req_at c1 slot)) as E
    by (apply req_at_upd_eq; lia).
  split; [|done]. split; try done.
  - by apply (held_view st c c1).
  - by apply upd_quiet_inv.
  - by rewrite E, S1.
  - by rewrite E, S3.
  - intros j Hj. rewrite req_at_upd_ne by congruence. by apply B11.
Qed.

(** Giving the slot back. *)
Lemma put_settled st slot c c1 :
  begun st slot c c1 -> settled c (ring_unlock (ring_put_request c1 slot) st).
Proof.
  intros [B1 B2 B3 B4 B5 B6 B7 B8 B9 B10 B11]. pose proof (ri_slots _ _ B2) as Hs.
  destruct (ring_put_slot c1 slot Hs B3 B4 B5) as (P1 & P2 & P3 & P4 & P5 & P6 & P7).
  pose proof (ring_put_free c1 slot Hs B3 B4 B5) as Pf.
  set (c2 := ring_put_request c1 slot) in *.
  assert (lock_view c2 = lock_view c1 /\ queued_sqes c2 = queued_sqes c1 /\
          fixed_file_inflight c2 = fixed_file_inflight c1) as (V1 & V2 & V3).
  { unfold c2, ring_put_request. destruct (_ || _); [done|]. destruct (in_pool _); [done|].
    by destruct (pending _). }
  assert (ring_inv c2 []) as Hinv.
  { split; [done|by apply NoDup_nil_2|by intros j ?%not_elem_of_nil|].
    rewrite P6, P7. apply (ri_pending _ _ B2). }
  assert (slot_view (ring_unlock c2 st) = slot_view c2 /\
          pending_count (ring_unlock c2 st) = pending_count c2 /\
          queued_sqes (ring_unlock c2 st) = queued_sqes c2 /\
          fixed_file_inflight (ring_unlock c2 st) = fixed_file_inflight c2) as (U1 & U2 & U3 & U4)
    by by destruct st.
  split.
  - by apply (held_view st c c1).
  - by apply (ring_inv_view c2).
  - by rewrite (slot_view_free c2), Pf, B7 by done.
  - by rewrite U2, P6.
  - by rewrite U3, V2.
  - by rewrite U4, V3.
  - intros j. rewrite (slot_view_req _ c2 j U1). destruct (decide (j = slot)) as [->|Hj].
    + rewrite P2, B6. exact B5.
    + by rewrite P3, B11.
Qed.

(** *** Queuing *)

(** What a submission function can do: refuse and change nothing, or run the
    common submission. *)
Definition submit_fn_ok (fn : ring_ctx_t K -> thread_t -> Z -> result unit * ring_ctx_t K * thread_t)
  : Prop :=
  forall c t req, (exists e, fn c t req = (Err e, c, t)) \/
    exists op prep fixed data, fn c t req = ring_submit_op c t req op prep fixed data.

(** The fields of the request, and of the ring, that queuing keeps. *)
Definition user_view (r : aura_request_t) :=
  (Ring.callback r, Ring.user_data r, uses_registered_file r).
Definition side_view c := (lock_view c, fixed_file_inflight c).

Lemma sample_time_side c time c' : sample_time c = (time, c') -> side_view c' = side_view c.
Proof.
  unfold sample_time. cbv zeta. destruct (_ =? 0); [|by intros [= _ <-]].
  destruct (lu_clock_ns _) as [now k]. by intros [= _ <-].
Qed.

Lemma submit_get_sqe_side c r c' : submit_get_sqe c = (r, c') -> side_view c' = side_view c.
Proof.
  unfold submit_get_sqe. destruct (negb _); [by intros [= _ <-]|].
  destruct (shutting_down c); [by intros [= _ <-]|].
  destruct (lu_get_sqe _) as [[sqe k]|]; by intros [= _ <-].
Qed.

Lemma finish_user c req op (data : bool) :
  0 <= req < zlen (requests c) ->
  let c' := if data then data_finish c req op else meta_finish c req op in
  user_view (req_at c' req) = user_view (req_at c req) /\ side_view c' = side_view c.
Proof.
  intros Hreq. destruct data; cbv zeta.
  - unfold data_finish. set (f := fun r : aura_request_t => r <| op_type := op |>).
    destruct (sample_time (upd_req req f c)) as [time c2] eqn:Es.
    pose proof (sample_time_side _ _ _ Es) as Hs. apply sample_time_view in Es as (Hv & _ & _).
    set (g := fun r : aura_request_t => r <| submit_time_ns := time |> <| pending := true |>).
    change (req_at (count_queued (upd_req req g c2)) req) with (req_at (upd_req req g c2) req).
    assert (zlen (requests c2) = zlen (requests c)) as Hl.
    { unfold slot_view in Hv. injection Hv as E _ _ _. rewrite E. cbn. by rewrite zlen_aset. }
    rewrite (req_at_upd_eq c2) by lia. rewrite (slot_view_req c2 (upd_req req f c)) by done.
    rewrite req_at_upd_eq by done. split; [done|]. exact Hs.
  - unfold meta_finish. cbv zeta.
    match goal with |- context [count_queued ?x] =>
      change (req_at (count_queued x) req) with (req_at x req) end.
    by rewrite req_at_upd_eq.
Qed.

Lemma submit_op_user c t req op prep fixed data u c' t' :
  0 <= req < zlen (requests c) ->
  ring_submit_op c t req op prep fixed data = (Ok u, c', t') ->
  user_view (req_at c' req) = user_view (req_at c req) /\ side_view c' = side_view c.
Proof.
  intros Hreq. unfold ring_submit_op. destruct (submit_get_sqe c) as [[sqe|e] c1] eqn:Es; [|done].
  pose proof (submit_get_sqe_side _ _ _ Es) as Hs. apply submit_get_sqe_view in Es as (Hv & _ & _).
  cbv zeta. intros E. apply pair_equal_spec in E as [E _]. apply pair_equal_spec in E as [_ <-].
  set (c2 := c1 <| ring := _ |>).
  assert (requests c2 = requests c) as Hr by (unfold slot_view in Hv; by injection Hv).
  destruct (finish_user c2 req op data) as [F1 F2]; [by rewrite Hr|].
  rewrite F1, F2. unfold req_at. rewrite Hr. by split.
Qed.

Lemma queue_ok st slot cb ud reg c c1 t op prep fixed data u c2 t2 :
  begun st slot c c1 -> user_view (req_at c1 slot) = (cb, ud, reg) ->
  0 <= queued_sqes c < INT_MAX ->
  ring_submit_op c1 t slot op prep fixed data = (Ok u, c2, t2) ->
  queued_as st slot cb ud reg c c2 /\ fixed_file_inflight c2 = fixed_file_inflight c.
Proof.
  intros [B1 B2 B3 B4 B5 B6 B7 B8 B9 B10 B11] Hu Hq E.
  destruct (submit_ok c1 t slot op prep fixed data u c2 t2 B2 B3 B4 B5 ltac:(by rewrite B9) E)
    as (S1 & S2 & S3 & S4 & _ & S6).
  pose proof (sl_len c1 (ri_slots _ _ B2)) as Hl.
  destruct (submit_op_user c1 t slot op prep fixed data u c2 t2 ltac:(lia) E) as [Ur Us].
  rewrite Hu in Ur. unfold user_view in Ur. injection Ur as Ur1 Ur2 Ur3.
  unfold side_view in Us. apply pair_equal_spec in Us as [Us1 Us2].
  split; [|by rewrite Us2].
  assert (free_slots_of c2 = free_slots_of c1) as Hf.
  { unfold ring_submit_op in E. destruct (submit_get_sqe c1) as [[sqe|e] c1'] eqn:Es; [|done].
    apply submit_get_sqe_view in Es as (Hv & _ & _). cbv zeta in E.
    apply pair_equal_spec in E as [E _]. apply pair_equal_spec in E as [_ <-].
    apply slot_view_free in Hv. rewrite <- Hv. unfold data_finish, meta_finish. destruct data; [|done].
    cbv zeta. destruct (sample_time _) as [time c3] eqn:Es. apply sample_time_view in Es as (Hv' & _ & _).
    apply slot_view_free in Hv'. exact Hv'. }
  split; try done.
  - by apply (held_view st c c1).
  - by rewrite Hf.
  - by rewrite S2, B8.
  - rewrite S3, B9. lia.
  - intros j Hj. rewrite S6 by done. by apply B11.
Qed.

(** Flushing under the lock. *)
Lemma flush_views c t r c' t' :
  0 <= queued_sqes c -> ring_flush c t = (r, c', t') ->
  slot_view c' = slot_view c /\ pending_count c' = pending_count c /\ side_view c' = side_view c /\
  0 <= queued_sqes c'.
Proof.
  intros Hq. unfold ring_flush. destruct (negb _); [by intros [= _ <- _]|].
  destruct (queued_sqes c =? 0); [by intros [= _ <- _]|].
  unfold flush_submit. destruct (lu_submit (ring c)) as [n k]. destruct (Z.ltb_spec n 0).
  { intros E. by injection E as _ <- _. }
  cbv zeta. intros E. apply pair_equal_spec in E as [E _]. apply pair_equal_spec in E as [_ <-].
  destruct (Z.ltb_spec 0 n); split_and!; try done. cbn. unfold clamp_queued. destruct (_ <? _) eqn:El; [|lia].
  apply Z.ltb_lt in El. cbn in El. lia.
Qed.

Lemma queued_as_view st slot cb ud reg c c1 c2 :
  slot_view c2 = slot_view c1 -> pending_count c2 = pending_count c1 ->
  lock_view c2 = lock_view c1 -> 0 <= queued_sqes c2 ->
  queued_as st slot cb ud reg c c1 -> queued_as st slot cb ud reg c c2.
Proof.
  intros Hv Hp Hl Hq [Q1 Q2 Q3 Q4 Q5 Q6 Q7 Q8 Q9 Q10].
  assert (forall j, req_at c2 j = req_at c1 j) as Hr by (intros j; by apply slot_view_req).
  split; rewrite ?Hr, ?Hp; try done.
  - by apply (held_view st c c1).
  - by apply (ring_inv_view c1 c2 []).
  - by rewrite (slot_view_free c1 c2).
  - intros j Hj. rewrite Hr. by apply Q10.
Qed.

Lemma unlock_accepted st slot cb ud reg c c1 :
  queued_as st slot cb ud reg c c1 ->
  fixed_file_inflight c1 = (if reg then u32 (fixed_file_inflight c + 1) else fixed_file_inflight c) ->
  accepted slot cb ud reg c (ring_unlock c1 st).
Proof.
  intros [Q1 Q2 Q3 Q4 Q5 Q6 Q7 Q8 Q9 Q10] Hf.
  assert (slot_view (ring_unlock c1 st) = slot_view c1 /\
          pending_count (ring_unlock c1 st) = pending_count c1 /\
          fixed_file_inflight (ring_unlock c1 st) = fixed_file_inflight c1) as (U1 & U2 & U3)
    by by destruct st.
  assert (forall j, req_at (ring_unlock c1 st) j = req_at c1 j) as Hr
    by (intros j; by apply slot_view_req).
  split; rewrite ?Hr, ?U2, ?U3; try done.
  - by apply (ring_inv_view c1).
  - by rewrite (slot_view_free c1 (ring_unlock c1 st)).
  - intros j Hj. rewrite Hr. by apply Q10.
Qed.

(** *** The submission functions *)

Ltac submit_fn_case :=
  intros c t req; cbv zeta;
  repeat match goal with |- context [if ?b then _ else _] => destruct b end;
  first [left; eexists; reflexivity | right; do 4 eexists; reflexivity].

Lemma read_fn_ok : submit_fn_ok ring_submit_read.
Proof. unfold ring_submit_read. submit_fn_case. Qed.
Lemma write_fn_ok : submit_fn_ok ring_submit_write.
Proof. unfold ring_submit_write. submit_fn_case. Qed.
Lemma readv_fn_ok : submit_fn_ok ring_submit_readv.
Proof. unfold ring_submit_readv. submit_fn_case. Qed.
Lemma writev_fn_ok : submit_fn_ok ring_submit_writev.
Proof. unfold ring_submit_writev. submit_fn_case. Qed.
Lemma read_fixed_fn_ok : submit_fn_ok ring_submit_read_fixed.
Proof. unfold ring_submit_read_fixed. submit_fn_case. Qed.
Lemma write_fixed_fn_ok : submit_fn_ok ring_submit_write_fixed.
Proof. unfold ring_submit_write_fixed. submit_fn_case. Qed.
Lemma fsync_fn_ok : submit_fn_ok ring_submit_fsync.
Proof. unfold ring_submit_fsync. submit_fn_case. Qed.
Lemma fdatasync_fn_ok : submit_fn_ok ring_submit_fdatasync.
Proof. unfold ring_submit_fdatasync. submit_fn_case. Qed.
Lemma openat_fn_ok : submit_fn_ok ring_submit_openat.
Proof. unfold ring_submit_openat. submit_fn_case. Qed.
Lemma close_fn_ok : submit_fn_ok ring_submit_close.
Proof. unfold ring_submit_close. submit_fn_case. Qed.
Lemma statx_fn_ok : submit_fn_ok ring_submit_statx.
Proof. unfold ring_submit_statx. submit_fn_case. Qed.
Lemma fallocate_fn_ok : submit_fn_ok ring_submit_fallocate.
Proof. unfold ring_submit_fallocate. submit_fn_case. Qed.
Lemma sync_file_range_fn_ok : submit_fn_ok ring_submit_sync_file_range.
Proof. unfold ring_submit_sync_file_range. submit_fn_case. Qed.
Lemma ftruncate_fn_ok have : submit_fn_ok (ring_submit_ftruncate have).
Proof. unfold ring_submit_ftruncate. submit_fn_case. Qed.

End Spec.

#[export] Hint Resolve read_fn_ok write_fn_ok readv_fn_ok writev_fn_ok read_fixed_fn_ok write_fixed_fn_ok fsync_fn_ok fdatasync_fn_ok openat_fn_ok close_fn_ok statx_fn_ok fallocate_fn_ok sync_file_range_fn_ok ftruncate_fn_ok : submit_db.
