(* ===== verification/EngineDemo.v ===== *)
(** * A concrete engine

    The kernel of [RingTheorems.Demo] extended with registrations, a concrete
    operating system, callbacks that do nothing, and engines of [n] rings of
    eight slots made by the creation functions of [EngineInit]: the witnesses
    of the engine's theorems run on them. *)
From Stdlib Require Import ZArith Lia List.
From stdpp Require Import base tactics list.
From S2P Require Import Prelude Double Histogram Controller Ring RingCq RingSpec RingTheorems Engine EngineOps EngineLoop EngineInit.

#[local] Open Scope Z_scope.

Module EngineDemo.
(** At most [limit] entries are accepted in a table. *)
Record kernel := {
  base : Demo.kernel;
  limit : Z;
  bufs : option (list iovec);
  files : option (list Z);
  efd : option Z
}.

Definition with_base (k : kernel) (b : Demo.kernel) : kernel :=
  {| base := b; limit := limit k; bufs := bufs k; files := files k; efd := efd k |}.
Definition with_bufs (k : kernel) (b : option (list iovec)) : kernel :=
  {| base := base k; limit := limit k; bufs := b; files := files k; efd := efd k |}.
Definition with_files (k : kernel) (f : option (list Z)) : kernel :=
  {| base := base k; limit := limit k; bufs := bufs k; files := f; efd := efd k |}.
Definition with_efd (k : kernel) (f : option Z) : kernel :=
  {| base := base k; limit := limit k; bufs := bufs k; files := files k; efd := f |}.

Definition lift {A} (f : Demo.kernel -> A * Demo.kernel) (k : kernel) : A * kernel :=
  let '(a, b) := f (base k) in (a, with_base k b).

#[global] Instance liburing : Liburing kernel := {
  lu_queue_init_params d p := lift (lu_queue_init_params d p);
  lu_queue_exit k := with_base k (lu_queue_exit (base k));
  lu_enable_rings := lift lu_enable_rings;
  lu_get_sqe k := match lu_get_sqe (base k) with Some (i, b) => Some (i, with_base k b) | None => None end;
  lu_write_sqe i e k := with_base k (lu_write_sqe i e (base k));
  lu_or_link i k := with_base k (lu_or_link i (base k));
  lu_submit := lift lu_submit;
  lu_peek_cqe k := lu_peek_cqe (base k);
  lu_cqe_seen k := with_base k (lu_cqe_seen (base k));
  lu_wait_cqe_timeout ms := lift (lu_wait_cqe_timeout ms);
  lu_ring_fd k := lu_ring_fd (base k);
  lu_clock_ns := lift lu_clock_ns
}.

(** Registering too many entries fails with EINVAL, updating an index out of
    the table too. *)
#[global] Instance liburing_reg : LiburingReg kernel := {
  lu_register_buffers iovs k := if limit k <? zlen iovs then (-22, k) else (0, with_bufs k (Some iovs));
  lu_unregister_buffers k := with_bufs k None;
  lu_register_files fds k := if limit k <? zlen fds then (-22, k) else (0, with_files k (Some fds));
  lu_unregister_files k := with_files k None;
  lu_register_files_update i fd k :=
    match files k with
    | Some fds => if (limit k <=? i) then (-22, k) else (1, with_files k (Some (aset fds i fd)))
    | None => (-6, k)
    end;
  lu_register_eventfd fd k := (0, with_efd k (Some fd));
  lu_unregister_eventfd k := with_efd k None
}.

Record sys := { cpu : Z; tid : Z; now : Z }.
#[global] Instance engine_os : EngineOs sys := {
  os_getcpu o := (cpu o, o);
  os_self := tid;
  os_eventfd_write _ o := o;
  os_eventfd_drain _ o := o;
  os_close _ o := o;
  os_poll _ _ o := (0, o);
  os_now_ns o := (now o, {| cpu := cpu o; tid := tid o; now := now o + 1000000 |});
  os_malloc _ o := (true, o)
}.

Abbreviation state := (estate kernel sys).
#[global] Instance callbacks : UserCallbacks state := fun _ _ _ _ s => s.

Definition kernel0 (lim : Z) : kernel :=
  {| base := Demo.kernel0 []; limit := lim; bufs := None; files := None; efd := None |}.

Definition options (n : Z) (mode : aura_ring_select_t) (single : bool) : aura_options_t :=
  {| struct_size := SIZEOF_OPTIONS; o_queue_depth := 8; o_ring_count := n; initial_in_flight := 0;
     o_min_in_flight := 4; max_p99_latency_ms := d_zero; o_buffer_alignment := 4096;
     disable_adaptive := true; o_enable_sqpoll := false; o_sqpoll_idle_ms := 1000;
     o_ring_select := mode; o_single_thread := single; batch_threshold := -1;
     _reserved := replicate 6 0; o_padding := 0 |}.

Definition tls0 : tls_t := {|
  thr := Demo.thread0; cached_cpu := -1; cpu_refresh_counter := 0; tls_link_ring := None;
  tls_link_depth := 0; tls_last_ring := None; tls_owned_ring := None; tls_engine := false;
  tls_rng_state := 0 |}.

(** The engine as the thread on CPU [c] sees it; ring [i]'s kernel accepts
    [lim i] entries. *)
Definition start (n : Z) (mode : aura_ring_select_t) (single : bool) (lim : Z -> Z) (c : Z)
  : option state :=
  match ring_init Demo.env0 8 0 None (kernel0 0) with
  | (Ok dead, _) =>
      match validate_and_init_engine_core (options n mode single) 4096 640 dead true 0 with
      | Ok e =>
          match init_engine_rings 9 (options n mode single) 4 true (fun _ => Demo.env0)
                  (fun i => kernel0 (lim i))
                  {| eng := e; tls := tls0; os := {| cpu := c; tid := 77; now := 0 |} |} with
          | Some (Ok _, s) => Some s
          | _ => None
          end
      | Err _ => None
      end
  | (Err _, _) => None
  end.
End EngineDemo.

(** In a proof with [E : start ... = Some s]: [f s = v], by evaluation. *)
Lemma demo_eval {A B} (f : A -> B) (o : option A) s v :
  o = Some s -> option_map f o = Some v -> f s = v.
Proof. intros ->. by intros [= ->]. Qed.
Ltac demo_fact E f v := pose proof (demo_eval f _ _ v E ltac:(vm_compute; reflexivity)); cbv beta in *.
