(* ===== verification/EngineStats.v ===== *)
(** * Statistics and introspection

    [aura.c] 1852-1890 and 2646-2951 with the public structures of [aura.h]
    268-376: the engine's totals, the snapshots of one ring, of its histogram
    and of the buffer pool, percentiles of a snapshot, and what a callback can
    ask of its request.

    The public structures have their own name spaces. A snapshot function
    returns what it writes to the caller's structure: the number of bytes
    copied and the value they are copied from ([None] when nothing is
    written). *)
From Stdlib Require Import ZArith Lia List String SpecFloat.
From stdpp Require Import base tactics list.
From S2P Require Import Prelude Double Histogram Controller BufPool Ring RingCq RingSpec Engine EngineOps EngineLoop EngineInit EngineWp EngineDemo.

#[local] Open Scope Z_scope.
#[local] Open Scope op_scope.

(** ** The public structures *)

Module Stats.
Record aura_stats_t := {
  ops_completed : Z;                 (* int64_t *)
  bytes_transferred : Z;
  current_throughput_bps : double;
  p99_latency_ms : double;
  current_in_flight : Z;             (* int *)
  optimal_in_flight : Z;
  peak_in_flight : Z;
  optimal_batch_size : Z;
  adaptive_spills : Z                (* uint64_t *)
}.
Definition size : Z := 72.
End Stats.

Module RingStats.
Record aura_ring_stats_t := {
  ops_completed : Z;
  bytes_transferred : Z;
  pending_count : Z;
  peak_in_flight : Z;
  in_flight_limit : Z;
  batch_threshold : Z;
  p99_latency_ms : double;
  throughput_bps : double;
  aimd_phase : Z;
  queue_depth : Z
}.
Definition size : Z := 72.
Definition zero : aura_ring_stats_t :=
  {| ops_completed := 0; bytes_transferred := 0; pending_count := 0; peak_in_flight := 0;
     in_flight_limit := 0; batch_threshold := 0; p99_latency_ms := d_zero;
     throughput_bps := d_zero; aimd_phase := 0; queue_depth := 0 |}.
End RingStats.

Module Hist.
Record aura_histogram_t := {
  buckets : list Z;                  (* uint32_t [320] *)
  overflow : Z;                      (* uint32_t *)
  total_count : Z;                   (* uint32_t *)
  max_tracked_us : Z;
  tier_count : Z;
  tier_start_us : list Z;            (* int [4] *)
  tier_width_us : list Z;
  tier_base_bucket : list Z
}.
Definition size : Z := 1352.
Definition zero : aura_histogram_t :=
  {| buckets := replicate (Z.to_nat LATENCY_BUCKET_COUNT) 0; overflow := 0; total_count := 0;
     max_tracked_us := 0; tier_count := 0; tier_start_us := replicate 4 0;
     tier_width_us := replicate 4 0; tier_base_bucket := replicate 4 0 |}.
End Hist.

Module BufferStats.
Record aura_buffer_stats_t := {
  total_allocated_bytes : Z;         (* size_t *)
  total_buffers : Z;                 (* size_t *)
  shard_count : Z
}.
Definition size : Z := 40.
End BufferStats.

(** What a snapshot function does with the caller's structure. *)
Definition snapshot (T : Type) : Type := option (Z * T).

(** [memcpy] of at most the caller's size. *)
Definition copy_out {T} (caller_size own_size : Z) (v : T) : snapshot T :=
  Some (if caller_size <? own_size then caller_size else own_size, v).

(** The public constants of the phases. *)
Definition phase_to_int (p : adaptive_phase_t) : Z :=
  match p with
  | ADAPTIVE_PHASE_BASELINE => 0
  | ADAPTIVE_PHASE_PROBING => 1
  | ADAPTIVE_PHASE_STEADY => 2
  | ADAPTIVE_PHASE_BACKOFF => 3
  | ADAPTIVE_PHASE_SETTLING => 4
  | ADAPTIVE_PHASE_CONVERGED => 5
  | ADAPTIVE_PHASE_PASSTHROUGH => 6
  end.

Definition aura_phase_name (phase : Z) : string := adaptive_phase_name phase.

(** ** Percentiles of a snapshot *)

Definition percentile_target (percentile : double) (total : Z) : Z :=
  let target := d_trunc (d_mul (d_div (d_sub (d_of_Z 100) percentile) (d_of_Z 100)) (d_of_Z total)) in
  if (target =? 0) && d_lt percentile (d_of_Z 100) then 1 else target.

(** [for (int t = tier_count - 1; t >= 0; t--)]: the tier of bucket [i]. *)
Fixpoint tier_of (hist : Hist.aura_histogram_t) (i : Z) (n : nat) : option Z :=
  match n with
  | O => None
  | S n =>
      let t := Z.of_nat n in
      if aget 0 (Hist.tier_base_bucket hist) t <=? i then Some t else tier_of hist i n
  end.

Definition bucket_mid_us (hist : Hist.aura_histogram_t) (i : Z) : double :=
  match tier_of hist i (Z.to_nat (Hist.tier_count hist)) with
  | Some t =>
      let offset := i - aget 0 (Hist.tier_base_bucket hist) t in
      d_add (d_of_Z (aget 0 (Hist.tier_start_us hist) t))
        (d_mul (d_add (d_of_Z offset) d_half) (d_of_Z (aget 0 (Hist.tier_width_us hist) t)))
  | None => d_zero
  end.

(** [percentile] is not NaN: the range test lets NaN through, and the cast of
    the target is then undefined. *)
Definition aura_histogram_percentile (hist : Hist.aura_histogram_t) (percentile : double) : double :=
  if d_lt percentile d_zero || d_gt percentile (d_of_Z 100) then d_of_Z (-1)
  else if Hist.total_count hist =? 0 then d_of_Z (-1)
  else
    let target := percentile_target percentile (Hist.total_count hist) in
    let count := Hist.overflow hist in
    if target <=? count then d_div (d_of_Z (Hist.max_tracked_us hist)) (d_of_Z 1000)
    else
      match p99_scan (Hist.buckets hist) (Z.to_nat LATENCY_BUCKET_COUNT) count target with
      | Some i => d_div (bucket_mid_us hist i) (d_of_Z 1000)
      | None => d_of_Z (-1)
      end.

Definition aura_histogram_bucket_upper_bound_us (hist : Hist.aura_histogram_t) (bucket : Z) : Z :=
  if (bucket <? 0) || (LATENCY_BUCKET_COUNT <=? bucket) then 0
  else
    match tier_of hist bucket (Z.to_nat (Hist.tier_count hist)) with
    | Some t =>
        let offset := bucket - aget 0 (Hist.tier_base_bucket hist) t in
        aget 0 (Hist.tier_start_us hist) t + (offset + 1) * aget 0 (Hist.tier_width_us hist) t
    | None => 0
    end.

(** The snapshot of a histogram. *)
Definition hist_snapshot (h : adaptive_histogram_t) : Hist.aura_histogram_t :=
  {| Hist.buckets := buckets h; Hist.overflow := overflow h;
     Hist.total_count := if UINT_MAX <? total_count h then UINT_MAX else total_count h;
     Hist.max_tracked_us := LATENCY_TIERED_MAX_US; Hist.tier_count := zlen LATENCY_TIERS;
     Hist.tier_start_us := start_us <$> LATENCY_TIERS;
     Hist.tier_width_us := width_us <$> LATENCY_TIERS;
     Hist.tier_base_bucket := base_bucket <$> LATENCY_TIERS |}.

(** ** Requests *)

Definition aura_request_pending (r : aura_request_t) : bool := pending r.
Definition aura_request_fd (r : aura_request_t) : Z :=
  if uses_registered_file r then original_fd r else fd r.
Definition aura_request_user_data (r : aura_request_t) : Z := user_data r.
Definition aura_request_op_type (r : aura_request_t) : aura_op_type_t := op_type r.
Definition aura_request_is_linked (r : aura_request_t) : bool := linked r.

(** ** The engine's statistics *)

Section Snapshots.
Context {K O : Type} {L : Liburing K} {LR : LiburingReg K} {OS : EngineOs O}.
Abbreviation S := (estate K O).
Context {UC : UserCallbacks S}.

(** The sums of the loop over the rings. *)
Record totals_t := {
  t_ops : Z; t_bytes : Z; t_in_flight : Z; t_peak : Z; t_optimal : Z; t_batch : Z;
  t_throughput : double; t_p99 : double
}.
Definition totals_zero : totals_t :=
  {| t_ops := 0; t_bytes := 0; t_in_flight := 0; t_peak := 0; t_optimal := 0; t_batch := 0;
     t_throughput := d_zero; t_p99 := d_zero |}.

Definition add_ring (t : totals_t) (c : ring_ctx_t K) : totals_t := {|
  t_ops := i64 (t_ops t + ops_completed c);
  t_bytes := i64 (t_bytes t + bytes_completed c);
  t_in_flight := i32 (t_in_flight t + pending_count c);
  t_peak := i32 (t_peak t + peak_pending_count c);
  t_optimal := i32 (t_optimal t + current_in_flight_limit (adaptive c));
  t_batch := i32 (t_batch t + current_batch_threshold (adaptive c));
  t_throughput := d_add (t_throughput t) (current_throughput_bps (adaptive c));
  t_p99 := if d_gt (current_p99_ms (adaptive c)) (t_p99 t) then current_p99_ms (adaptive c)
           else t_p99 t
|}.

(** Read a ring under its lock. *)
Definition read_ring {A} (i : Z) (f : ring_ctx_t K -> A) : M S A :=
  let* st := lock_ring i in
  let* c := ring_at i in
  unlock_ring i st ;; mret (f c).

Definition stats_of (e : engine_t K) (t : totals_t) : Stats.aura_stats_t := {|
  Stats.ops_completed := t_ops t; Stats.bytes_transferred := t_bytes t;
  Stats.current_throughput_bps := t_throughput t; Stats.p99_latency_ms := t_p99 t;
  Stats.current_in_flight := t_in_flight t; Stats.optimal_in_flight := t_optimal t;
  Stats.peak_in_flight := t_peak t;
  Stats.optimal_batch_size := if 0 <? ring_count e then Z.quot (t_batch t) (ring_count e) else 0;
  Stats.adaptive_spills := adaptive_spills e |}.

Definition aura_get_stats (stats_size : Z) : M S (result unit * snapshot Stats.aura_stats_t) :=
  if stats_size =? 0 then mret (Err EINVAL, None)
  else
    let* t := all_rings (fun i t => read_ring i (add_ring t)) totals_zero in
    let* e := mget eng in
    mret (Ok tt, copy_out stats_size Stats.size (stats_of e t)).

Definition aura_get_ring_count : M S Z := eng_get ring_count.

Definition ring_stats_of (c : ring_ctx_t K) : RingStats.aura_ring_stats_t := {|
  RingStats.ops_completed := ops_completed c; RingStats.bytes_transferred := bytes_completed c;
  RingStats.pending_count := pending_count c; RingStats.peak_in_flight := peak_pending_count c;
  RingStats.in_flight_limit := current_in_flight_limit (adaptive c);
  RingStats.batch_threshold := current_batch_threshold (adaptive c);
  RingStats.p99_latency_ms := current_p99_ms (adaptive c);
  RingStats.throughput_bps := current_throughput_bps (adaptive c);
  RingStats.aimd_phase := phase_to_int (phase (adaptive c));
  RingStats.queue_depth := max_requests c |}.

Definition bad_ring_idx (e : engine_t K) (ring_idx : Z) : bool :=
  (ring_idx <? 0) || (ring_count e <=? ring_idx).

Definition aura_get_ring_stats (ring_idx stats_size : Z)
  : M S (result unit * snapshot RingStats.aura_ring_stats_t) :=
  if stats_size =? 0 then mret (Err EINVAL, None)
  else
    let* e := mget eng in
    if bad_ring_idx e ring_idx then
      mret (Err EINVAL, copy_out stats_size RingStats.size RingStats.zero)
    else
      let* v := read_ring ring_idx ring_stats_of in
      mret (Ok tt, copy_out stats_size RingStats.size v).

Definition aura_get_histogram (ring_idx hist_size : Z)
  : M S (result unit * snapshot Hist.aura_histogram_t) :=
  if hist_size =? 0 then mret (Err EINVAL, None)
  else
    let* e := mget eng in
    if bad_ring_idx e ring_idx then
      mret (Err EINVAL, copy_out hist_size Hist.size Hist.zero)
    else
      let* h := read_ring ring_idx (fun c =>
        let pair := hist_pair (adaptive c) in hist_snapshot (hist_at pair (adaptive_hist_active pair))) in
      mret (Ok tt, copy_out hist_size Hist.size h).

Definition aura_get_fatal_error : M S Z := eng_get fatal_submit_errno.
Definition aura_in_callback_context : M S bool := tls_get (fun t => ring_in_callback_context (thr t)).
End Snapshots.

Definition aura_get_buffer_stats (pool : buffer_pool_t) (stats_size : Z)
  : result unit * snapshot BufferStats.aura_buffer_stats_t :=
  if stats_size =? 0 then (Err EINVAL, None)
  else
    (Ok tt, copy_out stats_size BufferStats.size
      {| BufferStats.total_allocated_bytes := total_allocated pool;
         BufferStats.total_buffers := total_buffers pool;
         BufferStats.shard_count := shard_count pool |}).

(** ** Reading is not writing *)

Section Reading.
Context {K O : Type} {L : Liburing K} {LR : LiburingReg K} {OS : EngineOs O}.
Abbreviation S := (estate K O).
Context {UC : UserCallbacks S}.
Implicit Types (s : S) (e : engine_t K).

(** The same state; rings are compared one by one, because the array is a
    function. *)
Definition unchanged s s' : Prop :=
  tls s' = tls s /\ os s' = os s /\ (eng s') <| rings := rings (eng s) |> = eng s /\
  forall j, rings (eng s') j = rings (eng s) j.

Lemma unchanged_refl s : unchanged s s.
Proof using. split_and!; try done. by destruct (eng s). Qed.

Lemma unchanged_trans s s' s'' : unchanged s s' -> unchanged s' s'' -> unchanged s s''.
Proof using.
  intros (H1 & H2 & H3 & H4) (G1 & G2 & G3 & G4).
  split_and!; [congruence|congruence| |congruence].
  rewrite <- H3, <- G3. by destruct (eng s'').
Qed.

Definition lockable (c : ring_ctx_t K) : Prop := INT_MIN <= st_users c < INT_MAX.

(** Taking a ring's lock, reading and releasing it returns what is read and
    changes nothing, for a reader that looks at nothing the lock changes. *)
Lemma wp_read_ring {A} i (f : ring_ctx_t K -> A) (Q : A -> S -> Prop) s :
  lockable (rings (eng s) i) ->
  (forall p u l c, p = pending_count c -> f (tuned p u l c) = f c) ->
  (forall s', unchanged s s' -> Q (f (rings (eng s) i)) s') -> wp (read_ring i f) Q s.
Proof using.
  intros Hl Hf HQ. unfold read_ring, lock_ring, unlock_ring. wp_step. wp_step. cbv beta.
  destruct (ring_lock_tuned _ Hl) as (st & u & l & E & Hun). rewrite E in *.
  apply pair_equal_spec in H as [<- <-]. wp_steps. rewrite !rings_put_eq.
  rewrite Hun, tuned_same, Hf by done. apply HQ.
  split_and!; try done.
  - unfold put_ring, upd_eng. cbn. by destruct (eng s).
  - intros j. cbn. by destruct (Z.eqb_spec j i) as [->|].
Qed.

(** The fold over the rings of a loop that only reads them. *)
Lemma wp_for_rings {A} (g : A -> ring_ctx_t K -> A) n : forall i acc s (Q : A -> S -> Prop),
  (forall a p u l c, p = pending_count c -> g a (tuned p u l c) = g a c) ->
  (forall j, i <= j < i + Z.of_nat n -> lockable (rings (eng s) j)) ->
  (forall s', unchanged s s' ->
     Q (foldl (fun a j => g a (rings (eng s) j)) acc (seqZ i (Z.of_nat n))) s') ->
  wp (for_rings (fun i a => read_ring i (g a)) i n acc) Q s.
Proof using.
  induction n as [|n IH]; intros i acc s Q Hg Hl HQ; cbn [for_rings].
  { apply wp_ret. apply (HQ s), unchanged_refl. }
  apply wp_bind, wp_read_ring; [apply Hl; lia|by apply Hg|].
  intros s1 H1. apply IH; [done| |].
  - intros j Hj. destruct H1 as (_ & _ & _ & ->). apply Hl. lia.
  - intros s' H'. replace (Z.of_nat (Datatypes.S n)) with (Z.succ (Z.of_nat n)) in HQ by lia.
    specialize (HQ s' (unchanged_trans _ _ _ H1 H')). rewrite seqZ_cons in HQ by lia.
    cbn [foldl] in HQ. rewrite Z.pred_succ in HQ. rewrite Z.add_1_r.
    destruct H1 as (_ & _ & _ & Hr). rewrite (foldl_pointwise _ (fun a j => g a (rings (eng s) j)));
      [exact HQ|]. intros a j. by rewrite Hr.
Qed.

(** ** The totals *)

Definition sum_rings (f : ring_ctx_t K -> Z) e : Z :=
  zsum ((fun i => f (rings e i)) <$> seqZ 0 (ring_count e)).

(** A sum that never leaves its type is not wrapped. *)
Lemma foldl_total (proj : totals_t -> Z) (f : ring_ctx_t K -> Z) (wrap : Z -> Z) hi e l : forall t,
  (forall t c, proj (add_ring t c) = wrap (proj t + f c)) ->
  (forall x, 0 <= x <= hi -> wrap x = x) ->
  (forall j, j ∈ l -> 0 <= f (rings e j)) ->
  0 <= proj t -> proj t + zsum ((fun j => f (rings e j)) <$> l) <= hi ->
  proj (foldl (fun t j => add_ring t (rings e j)) t l) =
    proj t + zsum ((fun j => f (rings e j)) <$> l).
Proof using.
  induction l as [|j l IH]; intros t Hp Hw Hf H0 Hh; cbn [foldl fmap list_fmap zsum] in *; [lia|].
  assert (0 <= f (rings e j)) by (apply Hf; by left).
  assert (0 <= zsum ((fun j => f (rings e j)) <$> l)).
  { apply zsum_nonneg, Forall_fmap, Forall_forall. intros x Hx. apply Hf. by right. }
  assert (proj (add_ring t (rings e j)) = proj t + f (rings e j)) as E by (rewrite Hp, Hw; lia).
  rewrite IH; rewrite ?E; try done; try lia. intros x Hx. apply Hf. by right.
Qed.

(** The largest p99, over numbers. *)
Lemma foldl_p99 e l : forall t,
  d_isnan (t_p99 t) = false ->
  let p i := current_p99_ms (adaptive (rings e i)) in
  let m := t_p99 (foldl (fun t j => add_ring t (rings e j)) t l) in
  d_lt m (t_p99 t) = false /\ (forall i, i ∈ l -> d_lt m (p i) = false) /\
  (m = t_p99 t \/ exists i, i ∈ l /\ m = p i).
Proof using.
  induction l as [|j l IH]; intros t Ht; cbn [foldl]; cbv zeta.
  { split_and!; [apply d_lt_irrefl|by intros i Hi%not_elem_of_nil|by left]. }
  set (p := current_p99_ms (adaptive (rings e j))).
  assert (t_p99 (add_ring t (rings e j)) = if d_lt (t_p99 t) p then p else t_p99 t) as Et by done.
  destruct (IH (add_ring t (rings e j))) as (H1 & H2 & H3).
  { rewrite Et. destruct (d_lt (t_p99 t) p) eqn:E; [|done]. by apply d_lt_number in E. }
  set (m := t_p99 (foldl _ _ l)) in *. rewrite Et in H1, H3.
  assert (d_lt m (t_p99 t) = false /\ d_lt m p = false) as [G1 G2].
  { destruct (d_lt (t_p99 t) p) eqn:E; (split; [|]); try done; apply not_true_iff_false; intros Hm.
    - pose proof (d_lt_trans _ _ _ Hm E). congruence.
    - destruct (d_lt_split _ _ _ Hm Ht); congruence. }
  split; [done|]. split.
  - intros i [->|Hi]%elem_of_cons; [exact G2|by apply H2].
  - destruct H3 as [->|(i & Hi & ->)]; [|right; exists i; split; [by right|done]].
    destruct (d_lt (t_p99 t) p); [|by left]. right. exists j. split; [by left|done].
Qed.

(** What the counters of a ring are when nothing has wrapped. *)
Record countable (c : ring_ctx_t K) : Prop := {
  co_lock : lockable c;
  co_pending : 0 <= pending_count c <= 65536;
  co_peak : 0 <= peak_pending_count c <= 65536;
  co_limit : 0 <= current_in_flight_limit (adaptive c) <= 32768;
  co_batch : 0 <= current_batch_threshold (adaptive c);
  co_ops : 0 <= ops_completed c;
  co_bytes : 0 <= bytes_completed c
}.

Lemma sum_rings_le (f : ring_ctx_t K -> Z) b e :
  (forall i, 0 <= i < ring_count e -> 0 <= f (rings e i) <= b) -> 0 <= ring_count e ->
  0 <= sum_rings f e <= ring_count e * b.
Proof using.
  intros H Hn. unfold sum_rings.
  assert (forall l, (forall j, j ∈ l -> 0 <= f (rings e j) <= b) ->
    0 <= zsum ((fun i => f (rings e i)) <$> l) <= zlen l * b) as Hl.
  { induction l as [|j l IH]; intros Hj; cbn [fmap list_fmap zsum]; [unfold zlen; cbn; lia|].
    specialize (IH (fun i Hi => Hj i ltac:(by right))). specialize (Hj j ltac:(by left)).
    unfold zlen in *. cbn [length]. lia. }
  specialize (Hl (seqZ 0 (ring_count e))). unfold zlen in Hl. rewrite length_seqZ in Hl.
  rewrite Z2Nat.id in Hl by lia. apply Hl. intros j Hj%elem_of_seqZ. apply H. lia.
Qed.

Ltac side :=
  first [done | match goal with H : forall i, _ -> countable _ |- _ =>
                  intros ? Hrange; apply H, Hrange end | lia].

(** The totals of an engine's rings. *)
Definition totals_of e : totals_t :=
  foldl (fun t j => add_ring t (rings e j)) totals_zero (seqZ 0 (ring_count e)).

Lemma totals_field (proj : totals_t -> Z) f wrap hi e :
  (forall t c, proj (add_ring t c) = wrap (proj t + f c)) ->
  (forall x, 0 <= x <= hi -> wrap x = x) ->
  (forall i, 0 <= i < ring_count e -> 0 <= f (rings e i)) ->
  proj totals_zero = 0 -> sum_rings f e <= hi ->
  proj (totals_of e) = sum_rings f e /\ 0 <= proj (totals_of e) <= hi.
Proof using.
  intros Hp Hw Hf H0 Hh. unfold totals_of.
  rewrite (foldl_total proj f wrap hi); rewrite ?H0; try done.
  - fold (sum_rings f e). split; [done|]. split; [|done].
    apply zsum_nonneg, Forall_fmap, Forall_forall. intros j Hj%elem_of_seqZ. apply Hf. lia.
  - intros j Hj%elem_of_seqZ. apply Hf. lia.
Qed.

Lemma totals_spec e :
  1 <= ring_count e <= 1024 ->
  (forall i, 0 <= i < ring_count e -> countable (rings e i)) ->
  sum_rings ops_completed e <= INT64_MAX -> sum_rings bytes_completed e <= INT64_MAX ->
  sum_rings (fun c => current_batch_threshold (adaptive c)) e <= INT_MAX ->
  let t := totals_of e in
  t_ops t = sum_rings ops_completed e /\ t_bytes t = sum_rings bytes_completed e /\
  (t_in_flight t = sum_rings pending_count e /\ 0 <= t_in_flight t <= INT_MAX) /\
  (t_peak t = sum_rings peak_pending_count e /\ 0 <= t_peak t <= INT_MAX) /\
  (t_optimal t = sum_rings (fun c => current_in_flight_limit (adaptive c)) e /\
   0 <= t_optimal t <= INT_MAX) /\
  (t_batch t = sum_rings (fun c => current_batch_threshold (adaptive c)) e /\
   0 <= t_batch t <= INT_MAX).
Proof using.
  intros Hc Hco Hops Hbytes Hbatch t.
  assert (Hi : forall f b, (forall c, countable c -> 0 <= f c <= b) -> b <= 65536 ->
    sum_rings f e <= INT_MAX).
  { intros f b Hf Hb. pose proof (sum_rings_le f b e) as Hle.
    specialize (Hle (fun i Hj => Hf _ (Hco i Hj)) ltac:(lia)). unfold INT_MAX. nia. }
  assert (Hi32 : forall x, 0 <= x <= INT_MAX -> i32 x = x)
    by (intros; apply i32_id; unfold INT_MIN; lia).
  assert (Hi64 : forall x, 0 <= x <= INT64_MAX -> i64 x = x)
    by (intros; apply i64_id; unfold INT64_MAX in *; lia).
  pose proof (Hi pending_count 65536 ltac:(by intros ? []) ltac:(lia)).
  pose proof (Hi peak_pending_count 65536 ltac:(by intros ? []) ltac:(lia)).
  pose proof (Hi (fun c => current_in_flight_limit (adaptive c)) 32768 ltac:(by intros ? [])
    ltac:(lia)).
  split; [|split; [|split; [|split; [|split]]]].
  - by apply (totals_field t_ops ops_completed i64 INT64_MAX); side.
  - by apply (totals_field t_bytes bytes_completed i64 INT64_MAX); side.
  - apply (totals_field t_in_flight pending_count i32); side.
  - apply (totals_field t_peak peak_pending_count i32); side.
  - apply (totals_field t_optimal _ i32); side.
  - apply (totals_field t_batch _ i32); side.
Qed.

(** The throughput total: the rings' numbers added from left to right. *)
Lemma totals_throughput e :
  t_throughput (totals_of e) =
    foldl d_add d_zero ((fun i => current_throughput_bps (adaptive (rings e i))) <$> seqZ 0 (ring_count e)).
Proof using.
  unfold totals_of. change d_zero with (t_throughput totals_zero). generalize totals_zero.
  induction (seqZ 0 (ring_count e)) as [|i l IH]; intros t; [done|]. cbn [foldl fmap list_fmap].
  by rewrite IH.
Qed.

(** C33. For an engine of 1 to 1024 rings whose counters are in range
    ([countable]), whose completed operations and bytes add up to at most
    [INT64_MAX] and whose batch thresholds add up to at most [INT_MAX] (two rings
    with the threshold "never" exceed it: [batch_total_overflows]), every field of
    the statistics is what it should be: the operations, bytes and requests in
    flight, their peaks and limits are the sums over the rings, and none of the
    [int] totals overflows; the batch size is the mean of the thresholds, rounded
    down; the throughput is the sum of the rings' in binary64; the spills are the
    engine's; the reported p99 is that of some ring (or zero) and no ring's is
    larger. Reading changes nothing: every lock taken is released. *)
Theorem aura_get_stats_totals n s :
  n <> 0 -> 1 <= ring_count (eng s) <= 1024 ->
  (forall i, 0 <= i < ring_count (eng s) -> countable (rings (eng s) i)) ->
  sum_rings ops_completed (eng s) <= INT64_MAX ->
  sum_rings bytes_completed (eng s) <= INT64_MAX ->
  sum_rings (fun c => current_batch_threshold (adaptive c)) (eng s) <= INT_MAX ->
  let sum f := sum_rings f (eng s) in
  let p99 i := current_p99_ms (adaptive (rings (eng s) i)) in
  wp (aura_get_stats n) (fun r s' => unchanged s s' /\ exists st,
    r = (Ok tt, copy_out n Stats.size st) /\
    Stats.ops_completed st = sum ops_completed /\
    Stats.bytes_transferred st = sum bytes_completed /\
    Stats.current_in_flight st = sum pending_count /\
    Stats.peak_in_flight st = sum peak_pending_count /\
    Stats.optimal_in_flight st = sum (fun c => current_in_flight_limit (adaptive c)) /\
    Stats.optimal_batch_size st =
      sum (fun c => current_batch_threshold (adaptive c)) / ring_count (eng s) /\
    Stats.current_throughput_bps st =
      foldl d_add d_zero ((fun i => current_throughput_bps (adaptive (rings (eng s) i))) <$>
                          seqZ 0 (ring_count (eng s))) /\
    Stats.adaptive_spills st = adaptive_spills (eng s) /\
    Forall (fun x => 0 <= x <= INT_MAX) [Stats.current_in_flight st; Stats.peak_in_flight st;
      Stats.optimal_in_flight st; Stats.optimal_batch_size st] /\
    (forall i, 0 <= i < ring_count (eng s) -> d_lt (Stats.p99_latency_ms st) (p99 i) = false) /\
    (Stats.p99_latency_ms st = d_zero \/
     exists i, 0 <= i < ring_count (eng s) /\ Stats.p99_latency_ms st = p99 i)) s.
Proof using.
  intros Hn Hc Hco Hops Hbytes Hbatch. cbv zeta. unfold aura_get_stats.
  destruct (Z.eqb_spec n 0); [done|]. unfold all_rings. wp_steps.
  apply wp_for_rings; [by intros a p u l c ->|intros j Hj; apply Hco; lia|].
  intros s' Hs. wp_steps. split; [done|]. rewrite Z2Nat.id by lia. fold (totals_of (eng s)).
  destruct Hs as (_ & _ & He & _).
  assert (ring_count (eng s') = ring_count (eng s) /\ adaptive_spills (eng s') = adaptive_spills (eng s))
    as [Erc Esp] by (by rewrite <- He).
  pose proof (totals_throughput (eng s)) as Eth.
  destruct (totals_spec (eng s) Hc Hco Hops Hbytes Hbatch)
    as (E1 & E2 & [E3 B3] & [E4 B4] & [E5 B5] & [E6 B6]).
  pose proof (foldl_p99 (eng s) (seqZ 0 (ring_count (eng s))) totals_zero eq_refl) as Hp99.
  cbv zeta in Hp99. fold (totals_of (eng s)) in Hp99. destruct Hp99 as (_ & Hmax & Hwho).
  eexists. split; [reflexivity|].
  cbn [stats_of Stats.ops_completed Stats.bytes_transferred Stats.current_in_flight
    Stats.peak_in_flight Stats.optimal_in_flight Stats.optimal_batch_size Stats.p99_latency_ms
    Stats.current_throughput_bps Stats.adaptive_spills].
  rewrite Erc. destruct (Z.ltb_spec 0 (ring_count (eng s))); [|lia].
  rewrite Z.quot_div_nonneg by lia.
  assert (0 <= t_batch (totals_of (eng s)) / ring_count (eng s) <= INT_MAX)
    by (split; [apply Z.div_pos; lia|apply Z.div_le_upper_bound; nia]).
  split_and!; try congruence.
  - by repeat (apply Forall_cons; split; [done|]).
  - intros i Hi. apply Hmax, elem_of_seqZ. lia.
  - destruct Hwho as [->|(i & Hi%elem_of_seqZ & ->)]; [by left|]. right. exists i. split; [lia|done].
Qed.
End Reading.

Section DemoStats.
Abbreviation get := (aura_get_stats (K := EngineDemo.kernel) (O := EngineDemo.sys)).

(** The statistics of a fresh engine of two rings, after an optional change of
    the batch threshold. *)
Definition demo_stats (threshold : option Z) : option Stats.aura_stats_t :=
  match EngineDemo.start 2 AURA_SELECT_ADAPTIVE false (fun _ => 8) 0 with
  | Some s =>
      let s := match threshold with
               | Some t => match aura_set_batch_threshold t s with Some (_, s) => Some s | None => None end
               | None => Some s
               end in
      match s with
      | Some s => match get 72 s with Some ((_, Some (_, st)), _) => Some st | _ => None end
      | None => None
      end
  | None => None
  end.

(** With the threshold 0 ("never flush"), which is stored as [INT_MAX], two
    rings are enough to overflow the sum; with the usual wrap-around the
    reported batch size is -1. *)
Example batch_total_overflows :
  Stats.optimal_batch_size <$> demo_stats (Some 0) = Some (-1) /\
  Stats.optimal_batch_size <$> demo_stats None = Some 2.
Proof. vm_compute. split; reflexivity. Qed.

Lemma aura_get_stats_totals_witness :
  exists s, EngineDemo.start 2 AURA_SELECT_ADAPTIVE false (fun _ => 8) 0 = Some s /\
    wp (get 72) (fun r s' => unchanged s s' /\
      exists st, r = (Ok tt, copy_out 72 72 st) /\ Stats.optimal_in_flight st = 16) s.
Proof.
  destruct (EngineDemo.start 2 AURA_SELECT_ADAPTIVE false (fun _ => 8) 0) as [s|] eqn:E;
    [|vm_compute in E; discriminate].
  exists s. split; [done|]. demo_fact E (fun s : EngineDemo.state => ring_count (eng s)) 2.
  demo_fact E (fun s : EngineDemo.state => sum_rings ops_completed (eng s)) 0.
  demo_fact E (fun s : EngineDemo.state => sum_rings bytes_completed (eng s)) 0.
  demo_fact E (fun s : EngineDemo.state => sum_rings (fun c => current_batch_threshold (adaptive c)) (eng s)) 4.
  demo_fact E (fun s : EngineDemo.state => sum_rings (fun c => current_in_flight_limit (adaptive c)) (eng s)) 16.
  eapply wp_mono; [apply (aura_get_stats_totals 72 s)|].
  all: rewrite ?H, ?H0, ?H1, ?H2; try (unfold INT64_MAX, INT_MAX; lia).
  - intros i Hi. assert (i = 0 \/ i = 1) as [-> | ->] by lia; vm_compute in E;
      injection E as <-; split; vm_compute; repeat split; congruence.
  - intros r s' (Hu & st & -> & _ & _ & _ & _ & Ho & _). split; [done|].
    exists st. split; [done|]. by rewrite Ho.
Defined.
End DemoStats.

(** ** Percentiles *)

(** The hundredth percentile asks for no sample at all, so the first test
    succeeds whatever was measured: the answer is the tracked maximum. *)
Theorem percentile_hundred h :
  Hist.total_count h <> 0 -> 0 <= Hist.overflow h -> 
  aura_histogram_percentile h (d_of_Z 100) = d_div (d_of_Z (Hist.max_tracked_us h)) (d_of_Z 1000).
Proof.
  intros Ht Ho. unfold aura_histogram_percentile.
  change (d_lt (d_of_Z 100) d_zero || d_gt (d_of_Z 100) (d_of_Z 100)) with false. cbn [orb].
  destruct (Z.eqb_spec (Hist.total_count h) 0); [done|].
  assert (percentile_target (d_of_Z 100) (Hist.total_count h) = 0) as ->.
  { unfold percentile_target.
    change (d_div (d_sub (d_of_Z 100) (d_of_Z 100)) (d_of_Z 100)) with d_zero.
    assert (d_trunc (d_mul d_zero (d_of_Z (Hist.total_count h))) = 0) as ->; [|done].
    unfold d_mul. by destruct (d_of_Z _). }
  by destruct (Z.leb_spec 0 (Hist.overflow h)); [|lia].
Qed.
