(* ===== verification/EngineSelect.v ===== *)
(** * Which ring a submission goes to

    Ring selection ([Engine.select_ring]) returns a ring of the engine in
    every mode; a THREAD_LOCAL thread stays on its ring; the two random rings
    of an ADAPTIVE spill are exactly the pairs of distinct rings other than
    the local one, and the lighter one is taken; the generator never reaches
    the state 0 it could not leave. *)
From Stdlib Require Import ZArith Lia List Znumtheory.
From stdpp Require Import base tactics list.
From S2P Require Import Prelude Double Histogram Controller Ring RingCq RingTheorems Engine EngineWp EngineDemo.

#[local] Open Scope Z_scope.
#[local] Open Scope op_scope.

(** ** The random numbers *)

Lemma lxor_u32 a b : 0 <= a < 2 ^ 32 -> 0 <= b < 2 ^ 32 -> 0 <= Z.lxor a b < 2 ^ 32.
Proof.
  intros Ha Hb. split; [apply Z.lxor_nonneg; lia|].
  destruct (Z.eq_dec (Z.lxor a b) 0) as [->|H0]; [lia|].
  apply Z.log2_lt_pow2; [pose proof (proj2 (Z.lxor_nonneg a b)); lia|].
  pose proof (Z.log2_lxor a b ltac:(lia) ltac:(lia)) as H.
  assert (forall x, 0 <= x < 2 ^ 32 -> Z.log2 x < 32) as Hl.
  { intros x Hx. destruct (Z.eq_dec x 0) as [->|]; [done|]. apply Z.log2_lt_pow2; lia. }
  pose proof (Hl a Ha). pose proof (Hl b Hb). lia.
Qed.

(** A left xorshift keeps a non-zero 32-bit state non-zero. *)
Lemma xor_shiftl_nonzero s k :
  0 < s < 2 ^ 32 -> 0 <= k -> Z.gcd (2 ^ 32) (2 ^ k - 1) = 1 ->
  0 < Z.lxor s (u32 (Z.shiftl s k)) < 2 ^ 32.
Proof.
  intros Hs Hk Hg. pose proof (u32_range (Z.shiftl s k)) as Hr. unfold UINT_MAX in Hr.
  pose proof (lxor_u32 s (u32 (Z.shiftl s k)) ltac:(lia) ltac:(lia)) as Hx.
  destruct (Z.eq_dec (Z.lxor s (u32 (Z.shiftl s k))) 0) as [E|]; [|lia].
  apply Z.lxor_eq in E. unfold u32, wrap_u in E. rewrite Z.shiftl_mul_pow2 in E by lia.
  exfalso. assert ((2 ^ 32 | (2 ^ k - 1) * s)) as Hd.
  { exists (s * 2 ^ k / 2 ^ 32). pose proof (Z.div_mod (s * 2 ^ k) (2 ^ 32)). lia. }
  apply Z.gauss in Hd; [|done]. apply Z.divide_pos_le in Hd; lia.
Qed.

Lemma xor_shiftr_nonzero s k :
  0 < s < 2 ^ 32 -> 0 < k -> 0 < Z.lxor s (Z.shiftr s k) < 2 ^ 32.
Proof.
  intros Hs Hk. rewrite Z.shiftr_div_pow2 by lia.
  assert (1 < 2 ^ k) by (apply Z.pow_gt_1; lia).
  assert (0 <= s / 2 ^ k < s) as Hq.
  { split; [apply Z.div_pos; lia|]. apply Z.div_lt; lia. }
  pose proof (lxor_u32 s (s / 2 ^ k) ltac:(lia) ltac:(lia)).
  destruct (Z.eq_dec (Z.lxor s (s / 2 ^ k)) 0) as [E|]; [|lia]. apply Z.lxor_eq in E. lia.
Qed.

Lemma xorshift_seed_range state self :
  0 <= state < 2 ^ 32 -> 0 < xorshift_seed state self < 2 ^ 32.
Proof.
  intros H. unfold xorshift_seed. destruct (Z.eqb_spec state 0); [|lia]. cbv zeta.
  pose proof (u32_range self) as Hr. unfold UINT_MAX in Hr.
  pose proof (lxor_u32 (u32 self) 1515870810 ltac:(lia) ltac:(lia)).
  destruct (Z.eqb_spec (Z.lxor (u32 self) 1515870810) 0); lia.
Qed.

(** The thread's random generator never gets stuck: whatever its state (0
    before the first draw) and whatever the thread's identifier, each draw is
    a non-zero 32-bit number, which is also the next state, so that the fixed
    point 0 of xorshift32 is never reached and the seeding happens once. *)
Theorem xorshift_never_zero state self :
  0 <= state < 2 ^ 32 -> 0 < xorshift_step (xorshift_seed state self) < 2 ^ 32.
Proof.
  intros H. unfold xorshift_step. cbv zeta.
  apply xor_shiftl_nonzero; [|lia|done]. apply xor_shiftr_nonzero; [|lia].
  apply xor_shiftl_nonzero; [|lia|done]. by apply xorshift_seed_range.
Qed.

Lemma xorshift_never_zero_witness :
  0 <= 0 < 2 ^ 32 /\ 0 < xorshift_step (xorshift_seed 0 1515870810) < 2 ^ 32.
Proof. split; [lia|]. apply (xorshift_never_zero 0 1515870810). lia. Defined.

(** ** The two choices *)

Lemma spill_first_range rc local ra :
  2 <= rc -> 0 <= local < rc ->
  0 <= spill_first rc local ra < rc /\ spill_first rc local ra <> local.
Proof.
  intros Hrc Hl. unfold spill_first. pose proof (Z.mod_pos_bound ra (rc - 1) ltac:(lia)).
  cbv zeta. zcase; lia.
Qed.

Lemma spill_second_range rc local a rb :
  3 <= rc -> 0 <= local < rc -> 0 <= a < rc -> a <> local ->
  0 <= spill_second rc local a rb < rc /\ spill_second rc local a rb <> local /\
  spill_second rc local a rb <> a.
Proof.
  intros Hrc Hl Ha Hne. unfold spill_second. pose proof (Z.mod_pos_bound rb (rc - 2) ltac:(lia)).
  cbv zeta. destruct (Z.ltb_spec local a); repeat zcase; lia.
Qed.

(** The two draws of a spill select among exactly the rings other than the
    local one: whatever is drawn, the first choice is a ring of the engine
    other than the local one and, with three rings or more, the second is
    different from both; and each such ring is selected by some draw. *)
Theorem spill_choices rc local :
  2 <= rc <= INT_MAX -> 0 <= local < rc ->
  (forall a, (exists ra, 0 <= ra <= UINT_MAX /\ spill_first rc local ra = a) <->
             (0 <= a < rc /\ a <> local)) /\
  (3 <= rc -> forall a, 0 <= a < rc -> a <> local -> forall b,
     (exists rb, 0 <= rb <= UINT_MAX /\ spill_second rc local a rb = b) <->
     (0 <= b < rc /\ b <> local /\ b <> a)).
Proof.
  intros Hrc Hl. unfold INT_MAX, UINT_MAX in *. split; [|intros H3 a Ha Hal]; intros b; split.
  - intros (ra & Hra & <-). apply spill_first_range; lia.
  - intros [Hb Hne]. exists (if local <? b then b - 1 else b). unfold spill_first.
    destruct (Z.ltb_spec local b); (rewrite Z.mod_small by lia); zcase; lia.
  - intros (rb & Hrb & <-). by apply spill_second_range.
  - intros (Hb & Hne1 & Hne2).
    exists (b - (if local <? b then 1 else 0) - (if a <? b then 1 else 0)). unfold spill_second.
    destruct (Z.ltb_spec local b), (Z.ltb_spec a b), (Z.ltb_spec local a);
      (rewrite Z.mod_small by lia); repeat (zcase; try lia).
Qed.

Lemma spill_choices_witness : 2 <= 4 <= INT_MAX /\ 0 <= 2 < 4 /\
  exists rb, 0 <= rb <= UINT_MAX /\ spill_second 4 2 0 rb = 3.
Proof.
  split; [unfold INT_MAX; lia|]. split; [lia|].
  apply (proj2 (spill_choices 4 2 ltac:(unfold INT_MAX; lia) ltac:(lia))); lia.
Defined.

(** ** Selecting a ring *)

Section Select.
Context {K O : Type} {L : Liburing K} {LR : LiburingReg K} {OS : EngineOs O}.
Abbreviation S := (estate K O).
Context {UC : UserCallbacks S}.
Implicit Types (s : S) (e : engine_t K).

(** Selection without a ring claim changes the spill count of the engine only,
    and no link chain of the thread. *)
Definition same_rings s s' : Prop :=
  (exists n, eng s' = (eng s) <| adaptive_spills := n |>) /\
  tls_link_ring (tls s') = tls_link_ring (tls s).

Lemma same_rings_eng s s' :
  eng s' = eng s -> tls_link_ring (tls s') = tls_link_ring (tls s) -> same_rings s s'.
Proof.
  intros E El. split; [|done]. exists (adaptive_spills (eng s)). rewrite E. by destruct s as [[] ? ?].
Qed.

Lemma same_rings_trans s s1 s2 : same_rings s s1 -> same_rings s1 s2 -> same_rings s s2.
Proof.
  intros [[n E] El] [[n' E'] El']. split; [|by rewrite El']. exists n'. rewrite E', E. done.
Qed.

Lemma same_rings_rings s s' : same_rings s s' ->
  rings (eng s') = rings (eng s) /\ ring_count (eng s') = ring_count (eng s).
Proof. intros [[n ->] _]. by split. Qed.

Lemma select_ring_cpu_local_spec s :
  0 < ring_count (eng s) <= INT_MAX ->
  wp select_ring_cpu_local (fun i s' => 0 <= i < ring_count (eng s) /\ eng s' = eng s /\
    tls_link_ring (tls s') = tls_link_ring (tls s)) s.
Proof.
  intros Hn. unfold select_ring_cpu_local.
  assert (forall t, eng t = eng s -> tls_link_ring (tls t) = tls_link_ring (tls s) ->
    wp (let* cpu := tls_get cached_cpu in
        let* n := eng_get ring_count in
        if (0 <=? cpu) && (cpu <? n) then mret cpu
        else let* self := mget (fun s => os_self (os s)) in
             tls_upd (fun t => t <| cached_cpu := i32 (self mod n) |>) ;; tls_get cached_cpu)
      (fun i s' => 0 <= i < ring_count (eng s) /\ eng s' = eng s /\
         tls_link_ring (tls s') = tls_link_ring (tls s)) t) as Htail.
  { intros t Ht Hlink. wp_steps. rewrite Ht. apply wp_if.
    - intros [H1%Z.leb_le H2%Z.ltb_lt]%andb_true_iff. wp_steps. split; [lia|done].
    - intros _. wp_steps. cbn. split; [|done].
      pose proof (Z.mod_pos_bound (os_self (os t)) (ring_count (eng s)) ltac:(lia)).
      rewrite i32_id; unfold INT_MIN, INT_MAX in *; lia. }
  wp_steps. apply wp_if; intros _; wp_steps; by apply Htail.
Qed.

Lemma xorshift_tls_spec (Q : Z -> S -> Prop) s :
  (forall r s', eng s' = eng s -> tls_link_ring (tls s') = tls_link_ring (tls s) -> Q r s') ->
  wp xorshift_tls Q s.
Proof. intros H. unfold xorshift_tls. wp_steps. cbn. wp_steps. by apply H. Qed.

(** The ring is not congested, or the load is spread over the rings. *)
Definition stays_local e (local : Z) : bool :=
  let pending := pending_count (rings e local) in
  let limit := adaptive_get_inflight_limit (adaptive (rings e local)) in
  (pending <? Z.quot (limit * 3) 4)
  || (0 <? avg_ring_pending e) && (pending <=? avg_ring_pending e * 2).

(** The target of a spill: the lighter of two distinct rings other than
    [local] (of one ring, when there is only one other). *)
Definition spill_target e (local i : Z) : Prop :=
  0 <= i < ring_count e /\ i <> local /\
  exists j, 0 <= j < ring_count e /\ j <> local /\ (3 <= ring_count e -> j <> i) /\
    pending_count (rings e i) <= pending_count (rings e j).

Lemma spill_spec s local :
  2 <= ring_count (eng s) -> 0 <= local < ring_count (eng s) ->
  wp (spill local) (fun i s' => spill_target (eng s) local i /\ same_rings s s' /\
    adaptive_spills (eng s') = u64 (adaptive_spills (eng s) + 1)) s.
Proof.
  intros Hn Hl. unfold spill. wp_steps. apply xorshift_tls_spec. intros ra s1 E1 L1. cbn in E1, L1.
  cbv zeta. wp_steps. set (a := spill_first _ local ra).
  pose proof (spill_first_range (ring_count (eng s)) local ra Hn Hl) as Ha.
  change (0 <= a < ring_count (eng s) /\ a <> local) in Ha.
  set (Fin := fun (b : Z) (s' : S) => 0 <= b < ring_count (eng s) /\ b <> local /\
    (3 <= ring_count (eng s) -> b <> a) /\ same_rings s s' /\
    adaptive_spills (eng s') = u64 (adaptive_spills (eng s) + 1)).
  apply wp_mono with (P := Fin).
  - cbn. apply wp_if; intros Hrc.
    + apply Z.leb_le in Hrc. wp_steps. apply xorshift_tls_spec. intros rb s2 E2 L2. wp_steps.
      destruct (spill_second_range (ring_count (eng s)) local a rb ltac:(lia) Hl
        (proj1 Ha) (proj2 Ha)) as ([H1 H2] & H3 & H4).
      unfold Fin, same_rings. rewrite E2, E1, L2, L1. split_and!; try done. by eexists.
    + apply Z.leb_gt in Hrc. wp_steps. unfold Fin, same_rings. rewrite E1, L1.
      split_and!; try done; try tauto; try lia. by eexists.
  - intros b s2 (Hb & Hbl & Hba & Hsame & Es). wp_steps. rewrite (proj1 (same_rings_rings _ _ Hsame)).
    destruct (Z.leb_spec (pending_count (rings (eng s) a)) (pending_count (rings (eng s) b)));
      (split; [|by split]); unfold spill_target.
    + split; [lia|]. split; [tauto|]. exists b. tauto.
    + split; [lia|]. split; [tauto|]. exists a. split_and!; try tauto; [|lia].
      intros H3 E. by apply (Hba H3).
Qed.

(** ADAPTIVE selection: a submission stays on the ring of its CPU unless
    that ring has reached three quarters of its in-flight limit and has more
    than twice the average load; it then goes to the less loaded of two
    distinct rings other than the local one, and the spill is counted. Nothing
    else of the engine is changed. *)
Theorem select_ring_adaptive_spec s local s1 :
  2 <= ring_count (eng s) <= INT_MAX -> select_ring_cpu_local s = Some (local, s1) ->
  wp select_ring_adaptive (fun i s' =>
    0 <= local < ring_count (eng s) /\ same_rings s s' /\
    (stays_local (eng s) local = true /\ i = local /\ eng s' = eng s \/
     stays_local (eng s) local = false /\ spill_target (eng s) local i /\
     adaptive_spills (eng s') = u64 (adaptive_spills (eng s) + 1))) s.
Proof.
  intros Hn E. pose proof (select_ring_cpu_local_spec s ltac:(lia)) as Hl.
  unfold wp in Hl. rewrite E in Hl. destruct Hl as (Hl & E1 & L1).
  unfold select_ring_adaptive. wp_steps. apply (wp_of_run _ _ _ _ _ E). wp_steps. rewrite E1.
  unfold stays_local, ADAPTIVE_SPILL_THRESHOLD_NUM, ADAPTIVE_SPILL_THRESHOLD_DEN. cbv zeta.
  assert (same_rings s s1) as Hsame by by apply same_rings_eng.
  destruct (_ <? _) eqn:C1; [wp_steps; by auto 10|]. wp_steps. rewrite E1.
  destruct (_ && _) eqn:C2; [wp_steps; by auto 10|].
  eapply wp_mono; [apply spill_spec; by rewrite E1; lia|].
  cbv beta. rewrite E1. intros i s' (H1 & H2 & H3).
  split; [done|]. split; [by eapply same_rings_trans|]. by right.
Qed.

(** *** THREAD_LOCAL *)

(** No thread is inside a lockless section. *)
Definition no_lockless e : Prop :=
  forall i, 0 <= i < ring_count e -> st_users (rings e i) <= 0 /\ st_cq_users (rings e i) <= 0.

Lemma ring_enable_owner (c : ring_ctx_t K) r c' :
  ring_enable c = (r, c') -> owner_count c' = owner_count c.
Proof.
  unfold ring_enable. destruct (negb _); [by intros [= _ <-]|].
  destruct (negb _); [by intros [= _ <-]|]. destruct (lu_enable_rings _) as [ret k].
  by destruct (ret <? 0); intros [= _ <-].
Qed.

(** What claiming ring [i] does to it: the first owner makes it lockless. *)
Definition claimed (c c' : ring_ctx_t K) : Prop :=
  owner_count c' = i32 (owner_count c + 1) /\ single_thread c' = (owner_count c =? 0).

Lemma claim_owned n e t i : 0 <= i < n -> ring_count e = n ->
  own_ring e (t <| tls_owned_ring := Some i |> <| tls_engine := true |>) (Some i) = Some i.
Proof.
  intros Hi <-. unfold own_ring. cbn.
  destruct (Z.leb_spec 0 i), (Z.ltb_spec i (ring_count e)); (done || lia).
Qed.

(** [s'] is [s] with the mode of ring [i] set. *)
Definition mode_set (i : Z) (st : bool) s s' : Prop :=
  ring_count (eng s') = ring_count (eng s) /\ single_thread (rings (eng s') i) = st /\
  owner_count (rings (eng s') i) = owner_count (rings (eng s) i) /\
  forall j, j <> i -> rings (eng s') j = rings (eng s) j.

Lemma claim_first s i :
  wp (let* c := ring_at i in
      (if needs_enable c then ring_op i ring_enable ;; mret tt else mret tt) ;;
      ring_upd i (fun c => c <| single_thread := true |>)) (fun _ => mode_set i true s) s.
Proof.
  unfold mode_set. wp_steps. apply wp_if; intros _; wp_steps.
  - rewrite !rings_put_eq. cbn [single_thread owner_count set_field set_single_thread].
    split; [done|]. split; [done|]. split; [by apply ring_enable_owner in H|].
    intros j Hj. by rewrite !rings_put_ne.
  - rewrite !rings_put_eq. split_and!; try done. intros j Hj. by rewrite !rings_put_ne.
Qed.

Lemma claim_shared s i :
  st_users (rings (eng s) i) <= 0 -> st_cq_users (rings (eng s) i) <= 0 ->
  wp (ring_upd i (fun c => c <| single_thread := false |>) ;; wait_lockless_users i)
    (fun _ => mode_set i false s) s.
Proof.
  intros H1 H2. unfold wait_lockless_users, mode_set. wp_steps. rewrite rings_put_eq.
  cbn [st_users st_cq_users set_field set_single_thread].
  destruct (Z.ltb_spec 0 (st_users (rings (eng s) i))); [lia|].
  destruct (Z.ltb_spec 0 (st_cq_users (rings (eng s) i))); [lia|]. cbn [orb]. wp_steps.
  rewrite !rings_put_eq. split_and!; try done. intros j Hj. by rewrite !rings_put_ne.
Qed.

Lemma thread_local_claim s :
  0 < ring_count (eng s) -> no_lockless (eng s) ->
  own_ring (eng s) (tls s) (tls_owned_ring (tls s)) = None ->
  wp select_ring_thread_local (fun i s' =>
    i = next_ring (eng s) mod ring_count (eng s) /\ ring_count (eng s') = ring_count (eng s) /\
    own_ring (eng s') (tls s') (tls_owned_ring (tls s')) = Some i /\
    claimed (rings (eng s) i) (rings (eng s') i) /\
    forall j, j <> i -> rings (eng s') j = rings (eng s) j) s.
Proof.
  intros Hn Hq Hown. unfold select_ring_thread_local, fetch_next_ring. wp_steps.
  rewrite Hown. wp_steps.
  set (i := next_ring _ mod ring_count _).
  pose proof (Z.mod_pos_bound (next_ring (eng s)) (ring_count (eng s)) Hn) as Hi.
  change (0 <= i < ring_count (eng s)) in Hi.
  cbn in H. apply pair_equal_spec in H as [<- <-].
  change (next_ring (eng s) mod ring_count (eng s)) with i. set (s1 := put_ring i _ _).
  apply wp_mono with (P := fun _ => mode_set i (owner_count (rings (eng s) i) =? 0) s1).
  - destruct (Z.eqb_spec (owner_count (rings (eng s) i)) 0); [apply claim_first|].
    destruct (Hq i Hi). apply claim_shared; unfold s1; by rewrite rings_put_eq.
  - intros _ s2 (Hc & Hst & Ho & Hoth). wp_steps. unfold s1 in *. rewrite rings_put_eq in Ho.
    split; [done|]. split; [done|]. split; [by apply (claim_owned (ring_count (eng s)))|].
    split; [by split|]. intros j Hj. cbn. rewrite Hoth by done. by rewrite rings_put_ne.
Qed.

Lemma thread_local_owned s i :
  own_ring (eng s) (tls s) (tls_owned_ring (tls s)) = Some i ->
  select_ring_thread_local s = Some (i, s).
Proof. intros H. unfold select_ring_thread_local, mbind, mget. cbn. by rewrite H. Qed.

Lemma own_ring_range e t p i : own_ring e t p = Some i -> 0 <= i < ring_count e.
Proof.
  destruct p as [j|]; [|done]. cbn. destruct (_ && _) eqn:E; [|done]. intros [= <-].
  apply andb_true_iff in E as [[_ H1%Z.leb_le]%andb_true_iff H2%Z.ltb_lt]. lia.
Qed.

(** THREAD_LOCAL selection returns, and is sticky. A thread that owns a
    ring of this engine gets that ring and nothing changes. Otherwise it claims
    the next ring in turn: the ring's owner count goes up, the ring is put in
    lockless mode exactly when the thread is its first owner, no other ring is
    touched, and a later selection by the thread returns the same ring. A
    stale pointer from another engine is never followed. *)
Theorem select_ring_thread_local_sticky s :
  0 < ring_count (eng s) -> no_lockless (eng s) ->
  wp select_ring_thread_local (fun i s' =>
    0 <= i < ring_count (eng s) /\ select_ring_thread_local s' = Some (i, s') /\
    match own_ring (eng s) (tls s) (tls_owned_ring (tls s)) with
    | Some j => i = j /\ s' = s
    | None => i = next_ring (eng s) mod ring_count (eng s) /\
        claimed (rings (eng s) i) (rings (eng s') i) /\
        forall j, j <> i -> rings (eng s') j = rings (eng s) j
    end) s.
Proof.
  intros Hn Hq. destruct (own_ring _ _ _) as [j|] eqn:E.
  - pose proof (thread_local_owned s j E) as Hr. apply (wp_of_run _ _ _ _ _ Hr).
    split; [by eapply own_ring_range|]. by split.
  - eapply wp_mono; [by apply thread_local_claim|]. intros i s' (Hi & Hc & Ho & Hcl & Hoth).
    split; [rewrite <- Hc; by eapply own_ring_range|]. split; [by apply thread_local_owned|done].
Qed.

(** *** Any mode *)

(** Whatever the mode, the answer of [sched_getcpu], the random numbers and
    the thread's cached pointers, a selection that need not wait for a lockless
    section returns, and it returns a ring of the engine. *)
Theorem select_ring_valid s :
  0 < ring_count (eng s) <= INT_MAX -> no_lockless (eng s) ->
  (needs_enable (rings (eng s) 0) = true -> is_thread_local (ring_select (eng s)) = true) ->
  wp select_ring (fun i s' =>
    0 <= i < ring_count (eng s) /\ ring_count (eng s') = ring_count (eng s)) s.
Proof.
  intros Hn Hq He. unfold select_ring. wp_steps. destruct (_ && _) eqn:E1.
  { wp_steps. split; [lia|done]. }
  destruct (ring_select (eng s)) eqn:Em; cbn in He.
  - assert (2 <= ring_count (eng s)) as H2.
    { destruct (Z.eqb_spec (ring_count (eng s)) 1); [|lia].
      destruct (needs_enable _); [by specialize (He eq_refl)|done]. }
    unfold select_ring_adaptive. apply wp_bind.
    eapply wp_mono; [apply select_ring_cpu_local_spec; lia|].
    intros i s1 (Hi & E & El). wp_steps. rewrite E. apply wp_if; [wp_steps; split; [done|by rewrite E]|].
    intros _. wp_steps. apply wp_if; [wp_steps; split; [done|by rewrite E]|]. intros _.
    eapply wp_mono; [apply spill_spec; rewrite E; lia|].
    cbv beta. rewrite E. intros j s' ((Hj & _) & Hs & _). split; [done|].
    rewrite (proj2 (same_rings_rings _ _ Hs)). by rewrite E.
  - eapply wp_mono; [apply select_ring_cpu_local_spec; lia|]. intros i s' (Hi & E & _). by rewrite E.
  - unfold fetch_next_ring. wp_steps. split; [apply Z.mod_pos_bound; lia|done].
  - destruct (own_ring (eng s) (tls s) (tls_owned_ring (tls s))) as [j|] eqn:E.
    + apply (wp_of_run _ _ _ _ _ (thread_local_owned s j E)).
      split; [by eapply own_ring_range|done].
    + eapply wp_mono; [apply thread_local_claim; [lia|done|done]|].
      intros i s' (Hi & Hc & _). split; [|done]. rewrite Hi. apply Z.mod_pos_bound. lia.
Qed.

End Select.

(** ** Witnesses *)

Import EngineDemo.

Lemma demo_no_lockless (s : state) :
  ring_count (eng s) = 3 ->
  forallb (fun i => (st_users (rings (eng s) i) =? 0) && (st_cq_users (rings (eng s) i) =? 0))
    [0; 1; 2] = true ->
  no_lockless (eng s).
Proof.
  intros Hn H i Hi. rewrite forallb_forall in H. specialize (H i).
  rewrite andb_true_iff, !Z.eqb_eq in H. destruct H; [|lia].
  assert (i = 0 \/ i = 1 \/ i = 2) as [->|[->| ->]] by lia; cbn; tauto.
Qed.

Lemma select_ring_adaptive_spec_witness :
  match start 3 AURA_SELECT_ADAPTIVE false (fun _ => 4) 1 with
  | Some s =>
      let s := put_ring 1 ((rings (eng s) 1) <| pending_count := 8 |>) s in
      2 <= ring_count (eng s) <= INT_MAX /\ stays_local (eng s) 1 = false /\
      wp select_ring_adaptive (fun i s' => spill_target (eng s) 1 i) s
  | None => False
  end.
Proof.
  destruct (start _ _ _ _ _) as [s|] eqn:E; [|vm_compute in E; discriminate]. cbv zeta.
  set (s1 := put_ring 1 _ s).
  demo_fact E (fun s : state => ring_count (eng s)) 3.
  demo_fact E (fun s : state => stays_local (eng (put_ring 1 ((rings (eng s) 1) <| pending_count := 8 |>) s)) 1) false.
  demo_fact E (fun s : state => option_map fst (select_ring_cpu_local (put_ring 1 ((rings (eng s) 1) <| pending_count := 8 |>) s))) (Some 1).
  assert (option_map fst (select_ring_cpu_local s1) = Some 1) as Hl by done.
  destruct (select_ring_cpu_local s1) as [[l s2]|] eqn:El; [|done].
  injection Hl as ->.
  assert (2 <= ring_count (eng s1) <= INT_MAX) as Hn.
  { change (ring_count (eng s1)) with (ring_count (eng s)). unfold INT_MAX. lia. }
  assert (stays_local (eng s1) 1 = false) as Hst by done.
  split; [done|]. split; [done|].
  eapply wp_mono; [exact (select_ring_adaptive_spec s1 1 s2 Hn El)|].
  intros i s' (_ & _ & [[Hs _]|[_ [Ht _]]]); [|done]. by rewrite Hst in Hs.
Defined.

Lemma select_ring_thread_local_sticky_witness :
  match start 3 AURA_SELECT_THREAD_LOCAL false (fun _ => 4) 0 with
  | Some s => 0 < ring_count (eng s) /\ no_lockless (eng s) /\
      wp select_ring_thread_local (fun i s' => select_ring_thread_local s' = Some (i, s')) s
  | None => False
  end.
Proof.
  destruct (start _ _ _ _ _) as [s|] eqn:E; [|vm_compute in E; discriminate].
  demo_fact E (fun s : state => ring_count (eng s)) 3.
  demo_fact E (fun s : state => forallb (fun i => (st_users (rings (eng s) i) =? 0)
    && (st_cq_users (rings (eng s) i) =? 0)) [0; 1; 2]) true.
  assert (no_lockless (eng s)) as Hq by by apply demo_no_lockless.
  split; [lia|]. split; [done|].
  eapply wp_mono; [apply (select_ring_thread_local_sticky s); [lia|done]|].
  by intros i s' (_ & Hs & _).
Defined.

Lemma select_ring_valid_witness :
  match start 3 AURA_SELECT_ROUND_ROBIN false (fun _ => 4) 0 with
  | Some s => 0 < ring_count (eng s) <= INT_MAX /\ no_lockless (eng s) /\
      wp select_ring (fun i s' => 0 <= i < 3) s
  | None => False
  end.
Proof.
  destruct (start _ _ _ _ _) as [s|] eqn:E; [|vm_compute in E; discriminate].
  demo_fact E (fun s : state => ring_count (eng s)) 3.
  demo_fact E (fun s : state => needs_enable (rings (eng s) 0)) false.
  demo_fact E (fun s : state => forallb (fun i => (st_users (rings (eng s) i) =? 0)
    && (st_cq_users (rings (eng s) i) =? 0)) [0; 1; 2]) true.
  assert (no_lockless (eng s)) as Hq by by apply demo_no_lockless.
  split; [unfold INT_MAX; lia|]. split; [done|].
  eapply wp_mono; [apply (select_ring_valid s); [unfold INT_MAX; lia|done|congruence]|].
  intros i s' [Hi _]. lia.
Defined.
