(* ===== verification/EngineReg.v ===== *)
(** * Registered buffers and files

    A registration is made with every ring or with none, a submission may only
    touch bytes inside the registered buffer it names, and the two tables
    follow a state machine (none, live, draining) whose last step waits for
    the operations in flight. The abstract machine is [table]; the theorem
    [registration_refines] relates every operation of [EngineOps] on a table to
    it. *)
From Stdlib Require Import ZArith Lia List.
From stdpp Require Import base tactics list.
From S2P Require Import Prelude Double Histogram Controller Ring RingCq RingTheorems Engine EngineOps EngineWp EngineDemo.

#[local] Open Scope Z_scope.
#[local] Open Scope op_scope.

(** ** What a submission may touch *)

Section Bounds.
Context {K : Type}.
Implicit Types (e : engine_t K).

(** The table as [aura_register_buffers] fills it. *)
Definition buffers_wf e : Prop :=
  registered_buffer_count e = zlen (registered_buffers e) /\
  Forall (fun v => 0 <= iov_len v <= SIZE_MAX) (registered_buffers e).

(** A submission on a registered buffer is accepted exactly when the table
    is live (not being unregistered), the index is in the table, and the bytes
    [offset, offset + len) lie inside the registered buffer, computed without
    wrap-around: the C comparison never subtracts below zero. The entry used
    is the one at the index. *)
Theorem check_registered_buffer_bounds e index offset len reg :
  buffers_wf e -> 0 <= offset <= SIZE_MAX -> 0 <= len <= SIZE_MAX ->
  check_registered_buffer e index offset len = Ok reg <->
  buffers_registered e = true /\ buffers_unreg_pending e = false /\
  0 <= index < zlen (registered_buffers e) /\
  registered_buffers e !! Z.to_nat index = Some reg /\
  offset < iov_len reg /\ offset + len <= iov_len reg.
Proof.
  intros [Hc Hf] Ho Hl. unfold check_registered_buffer. rewrite Hc.
  destruct (buffers_registered e); [|split; [done|by intros (? & _)]].
  destruct (buffers_unreg_pending e); [split; [done|by intros (_ & ? & _)]|].
  destruct (Z.ltb_spec index 0); [split; [done|intros (_ & _ & ? & _); lia]|].
  destruct (Z.leb_spec (zlen (registered_buffers e)) index);
    [split; [done|intros (_ & _ & ? & _); lia]|]. cbn.
  destruct (lookup_lt_is_Some_2 (registered_buffers e) (Z.to_nat index)) as [v Hv];
    [unfold zlen in *; lia|].
  assert (aget iovec_zero (registered_buffers e) index = v) as ->.
  { unfold aget. destruct (Z.ltb_spec index 0); [lia|]. by apply nth_lookup_Some. }
  pose proof (proj1 (Forall_lookup _ _) Hf _ _ Hv) as Hr. cbn in Hr. rewrite Hv.
  destruct (Z.leb_spec (iov_len v) offset); [split; [done|intros (_ & _ & _ & [= <-] & ? & _); lia]|]. cbn.
  rewrite u64_id by lia. destruct (Z.ltb_spec (iov_len v - offset) len).
  - split; [done|]. intros (_ & _ & _ & [= <-] & _ & H3). lia.
  - split; [intros [= <-]; split_and!; try done; lia|]. by intros (_ & _ & _ & [= <-] & _).
Qed.
End Bounds.

(** ** Registering with every ring *)

Section Registration.
Context {K O : Type} {L : Liburing K} {LR : LiburingReg K} {OS : EngineOs O}.
Abbreviation S := (estate K O).
Context {UC : UserCallbacks S}.
Implicit Types (s : S) (e : engine_t K).

Definition with_ring (f : K -> K) (c : ring_ctx_t K) : ring_ctx_t K := c <| ring := f (ring c) |>.

Section Loop.
Variables (reg : K -> Z * K) (unreg : K -> K).
Definition reg_ret (c : ring_ctx_t K) : Z := fst (reg (ring c)).
Definition reg_done : ring_ctx_t K -> ring_ctx_t K := with_ring (fun k => snd (reg k)).

(** The rings after the calls on rings [i] to [i + n]. *)
Definition all_done (i n : Z) (e : engine_t K) (rs : Z -> ring_ctx_t K) : Prop :=
  forall j, (i <= j < i + n -> 0 <= reg_ret (rings e j) /\ rs j = reg_done (rings e j)) /\
            (~ i <= j < i + n -> rs j = rings e j).

(** The rings after a failure at ring [m]: the rings before it are undone. *)
Definition undone_at (i n m : Z) (e : engine_t K) (err : errno) (rs : Z -> ring_ctx_t K) : Prop :=
  i <= m < i + n /\ reg_ret (rings e m) < 0 /\ err = ESYS (- reg_ret (rings e m)) /\
    rs m = reg_done (rings e m) /\
    forall j, (i <= j < m -> 0 <= reg_ret (rings e j) /\ rs j = with_ring unreg (reg_done (rings e j))) /\
              (0 <= j < i -> rs j = with_ring unreg (rings e j)) /\
              (j < 0 \/ m < j -> rs j = rings e j).

Definition undone (i n : Z) (e : engine_t K) (err : errno) (rs : Z -> ring_ctx_t K) : Prop :=
  exists m, undone_at i n m e err rs.

Lemma register_loop_spec n : forall i s, 0 <= i ->
  wp (register_loop reg unreg i n) (fun r s' =>
    tls s' = tls s /\ os s' = os s /\
    exists rs, eng s' = (eng s) <| rings := rs |> /\
    match r with
    | Ok _ => all_done i (Z.of_nat n) (eng s) rs
    | Err err => undone i (Z.of_nat n) (eng s) err rs
    end) s.
Proof.
  induction n as [|n IH]; intros i s Hi; cbn [register_loop].
  { wp_steps. split; [done|]. split; [done|]. exists (rings (eng s)). split; [by destruct s as [[] ? ?]|].
    intros j. split; [lia|done]. }
  wp_steps. rename H into E. destruct (reg (ring (rings (eng s) i))) as [ret k] eqn:Er.
  apply pair_equal_spec in E as [<- <-].
  assert (reg_ret (rings (eng s) i) = ret) as Eret by (unfold reg_ret; by rewrite Er).
  assert ((rings (eng s) i) <| ring := k |> = reg_done (rings (eng s) i)) as Ek
    by (unfold reg_done, with_ring; by rewrite Er).
  rewrite Ek. set (s1 := put_ring i _ s). destruct (Z.ltb_spec ret 0).
  - wp_steps. split; [done|]. split; [done|]. eexists. split; [reflexivity|].
    exists i. split; [lia|]. rewrite Eret. split; [done|]. split; [done|]. cbn.
    rewrite Z.ltb_irrefl, andb_false_r, Z.eqb_refl. split; [done|]. intros j.
    destruct (Z.leb_spec 0 j), (Z.ltb_spec j i), (Z.eqb_spec j i); cbn; split_and!; try done; try lia.
  - eapply wp_mono; [apply (IH (i + 1) s1); lia|].
    intros r s' (Ht & Ho & rs & Hrs & Hr). split; [done|]. split; [done|]. exists rs.
    split; [done|].
    assert (forall j, j <> i -> rings (eng s1) j = rings (eng s) j) as Hne
      by (intros; by apply rings_put_ne).
    assert (rings (eng s1) i = reg_done (rings (eng s) i)) as Heq by apply rings_put_eq.
    destruct r as [u|err].
    + intros j. destruct (Hr j) as [Ha Hb]. destruct (Z.eq_dec j i) as [->|Hji].
      * split; [intros _; split; [lia|]|lia]. rewrite Hb by lia. done.
      * rewrite (Hne j Hji) in Ha, Hb. split; intros Hj; [apply Ha; lia|apply Hb; lia].
    + destruct Hr as (m & Hm & Hneg & Herr & Hat & Hoth). exists m.
      rewrite (Hne m) in Hneg, Herr, Hat by lia. split_and!; try done; try lia. intros j.
      destruct (Hoth j) as (Ha & Hb & Hc). destruct (Z.eq_dec j i) as [->|Hji].
      * rewrite Heq in Hb. split_and!; [|lia|lia]. intros _. split; [lia|]. apply Hb. lia.
      * rewrite (Hne j Hji) in Ha, Hb, Hc. split_and!; intros Hj; [apply Ha|apply Hb|apply Hc]; lia.
Qed.
End Loop.

(** ** The state machine of a table *)

Inductive table (A : Type) := t_none | t_live (a : A) | t_draining (a : A).
#[global] Arguments t_none {A}.
#[global] Arguments t_live {A} a.
#[global] Arguments t_draining {A} a.

Definition buf_table e : table (list iovec) :=
  if buffers_registered e then
    if buffers_unreg_pending e then t_draining (registered_buffers e) else t_live (registered_buffers e)
  else t_none.

Definition file_table e : table (list Z) :=
  if files_registered e then
    if files_unreg_pending e then t_draining (registered_files e) else t_live (registered_files e)
  else t_none.

(** The fields of the engine agree with the tables. *)
Record reg_wf e : Prop := {
  rw_buf_count : registered_buffer_count e = zlen (registered_buffers e);
  rw_file_count : registered_file_count e = zlen (registered_files e);
  rw_buf_pending : buffers_unreg_pending e = true -> buffers_registered e = true;
  rw_file_pending : files_unreg_pending e = true -> files_registered e = true;
  rw_buf_none : buffers_registered e = false -> registered_buffers e = [];
  rw_file_none : files_registered e = false -> registered_files e = [];
  rw_rings : 0 <= ring_count e
}.

(** What the operations on a table leave alone: the lock is released. *)
Definition reg_locks e : Z * Z := (reg_rd e, reg_wr e).

Definition is_live {A} (t : table A) : bool := match t with t_live _ => true | _ => false end.

(** The steps the machine allows: [idle] says whether no operation that uses
    the table is in flight. *)
Definition register_spec {A} (new : list A) (t : table (list A)) (r : result unit)
    (t' : table (list A)) : Prop :=
  if bad_count (zlen new) then r = Err EINVAL /\ t' = t
  else match t with
       | t_none => r = Ok tt /\ t' = t_live new \/ (exists err, r = Err err) /\ t' = t_none
       | _ => r = Err EBUSY /\ t' = t
       end.

Definition finish {A} (idle : bool) (t : table A) : table A :=
  match t with t_draining a => if idle then t_none else t_draining a | _ => t end.

Definition start_drain {A} (t : table A) : table A :=
  match t with t_live a => t_draining a | _ => t end.

Definition bufs_idle e : bool := fixed_buf_inflight_total e =? 0.
Definition files_idle e : bool := fixed_file_inflight_total e =? 0.

Lemma sum_rings_ext f e e' n : forall i total,
  (forall j, f (rings e' j) = f (rings e j)) ->
  sum_rings f e' i n total = sum_rings f e i n total.
Proof. induction n as [|n IH]; intros i total H; [done|]. cbn. rewrite H. by apply IH. Qed.

(** What is in flight depends on the counters of the rings only. *)
Definition same_inflight e e' : Prop :=
  ring_count e' = ring_count e /\
  forall j, fixed_buf_inflight (rings e' j) = fixed_buf_inflight (rings e j) /\
            fixed_file_inflight (rings e' j) = fixed_file_inflight (rings e j).

Lemma idle_ext e e' :
  same_inflight e e' -> files_idle e' = files_idle e /\ bufs_idle e' = bufs_idle e.
Proof.
  intros [Hc H]. unfold files_idle, bufs_idle, fixed_file_inflight_total, fixed_buf_inflight_total.
  rewrite Hc. split; (erewrite sum_rings_ext; [reflexivity|]); intros j; apply H.
Qed.

Lemma each_kernel_inflight (f : K -> K) (e : engine_t K) : same_inflight e (each_kernel f e).
Proof. split; [done|]. intros j. cbn. by destruct (_ && _). Qed.

(** Finalizing one table. *)
Lemma finalize_buffers_spec e :
  reg_wf e -> reg_wf (finalize_buffers e) /\
  buf_table (finalize_buffers e) = finish (bufs_idle e) (buf_table e) /\
  file_table (finalize_buffers e) = file_table e /\ files_idle (finalize_buffers e) = files_idle e /\
  reg_locks (finalize_buffers e) = reg_locks e /\ ring_count (finalize_buffers e) = ring_count e.
Proof.
  intros Hwf. unfold finalize_buffers. destruct (_ && (_ =? 0)) eqn:E.
  - apply andb_true_iff in E as [[Er Ep]%andb_true_iff Et].
    unfold buf_table, bufs_idle, finish. rewrite Er, Ep, Et. destruct Hwf as [H1 H2 H3 H4 H5 H6 H7].
    split; [by split|]. split_and!; try done. apply idle_ext, (each_kernel_inflight lu_unregister_buffers).
  - split; [done|]. split_and!; try done. unfold buf_table, bufs_idle, finish.
    destruct (buffers_registered e); [|done]. destruct (buffers_unreg_pending e); [|done].
    cbn in E. by rewrite E.
Qed.

Lemma finalize_files_spec e :
  reg_wf e -> reg_wf (finalize_files e) /\
  file_table (finalize_files e) = finish (files_idle e) (file_table e) /\
  buf_table (finalize_files e) = buf_table e /\ bufs_idle (finalize_files e) = bufs_idle e /\
  reg_locks (finalize_files e) = reg_locks e /\ ring_count (finalize_files e) = ring_count e.
Proof.
  intros Hwf. unfold finalize_files. destruct (_ && (_ =? 0)) eqn:E.
  - apply andb_true_iff in E as [[Er Ep]%andb_true_iff Et].
    unfold file_table, files_idle, finish. rewrite Er, Ep, Et. destruct Hwf as [H1 H2 H3 H4 H5 H6 H7].
    split; [by split|]. split_and!; try done. apply idle_ext, (each_kernel_inflight lu_unregister_files).
  - split; [done|]. split_and!; try done. unfold file_table, files_idle, finish.
    destruct (files_registered e); [|done]. destruct (files_unreg_pending e); [|done].
    cbn in E. by rewrite E.
Qed.

(** The conclusion shared by every operation: well-formed, lock released. *)
Definition reg_post s s' : Prop := reg_wf (eng s') /\ reg_locks (eng s') = reg_locks (eng s).

Lemma locks_back e : (reg_rd e, reg_wr e + 1 - 1) = reg_locks e.
Proof. unfold reg_locks. f_equal. lia. Qed.

Lemma finalize_spec s :
  reg_wf (eng s) ->
  wp finalize_deferred_unregistration (fun _ s' => reg_post s s' /\
    buf_table (eng s') = finish (bufs_idle (eng s)) (buf_table (eng s)) /\
    file_table (eng s') = finish (files_idle (eng s)) (file_table (eng s))) s.
Proof.
  intros Hwf. unfold finalize_deferred_unregistration, wrlock, wrunlock. wp_steps.
  set (e1 := (eng s) <| reg_wr := reg_wr (eng s) + 1 |>).
  assert (reg_wf e1) as H1 by (by destruct Hwf; split).
  destruct (finalize_buffers_spec e1 H1) as (H2 & Hb2 & Hf2 & Hi2 & Hl2 & _).
  destruct (finalize_files_spec _ H2) as (H3 & Hf3 & Hb3 & _ & Hl3 & _).
  destruct (idle_ext (eng s) e1 ltac:(by split)) as [If Ib].
  change (buf_table (eng s)) with (buf_table e1). change (file_table (eng s)) with (file_table e1).
  rewrite <- If, <- Ib. unfold reg_post.
  set (e3 := finalize_files (finalize_buffers e1)) in *.
  match goal with |- context [upd_eng (fun e => _) ?t] => change (eng t) with e3; set (s3 := t) end.
  change (eng (upd_eng (fun e => e <| reg_wr := reg_wr e - 1 |>) s3)) with (e3 <| reg_wr := reg_wr e3 - 1 |>).
  split; [split; [by destruct H3; split|]|].
  - rewrite Hl2 in Hl3. unfold reg_locks in *. apply pair_equal_spec in Hl3 as [E1 E2].
    cbn in E1, E2 |- *. f_equal; lia.
  - split; [by rewrite <- Hb2, <- Hb3|]. rewrite <- Hf2, <- Hi2. by rewrite <- Hf3.
Qed.

Lemma wf_bufs_busy e : reg_wf e ->
  buffers_registered e || buffers_unreg_pending e = buffers_registered e.
Proof.
  intros [_ _ H _ _ _ _]. destruct (buffers_registered e), (buffers_unreg_pending e); try done.
  by specialize (H eq_refl).
Qed.

Lemma wf_files_busy e : reg_wf e ->
  files_registered e || files_unreg_pending e = files_registered e.
Proof.
  intros [_ _ _ H _ _ _]. destruct (files_registered e), (files_unreg_pending e); try done.
  by specialize (H eq_refl).
Qed.

(** [reg_post] of an engine that differs from a well-formed one in a table and
    in balanced lock counts. *)
Ltac reg_closed :=
  split; [match goal with H : reg_wf _ |- _ => destruct H; split; cbn; congruence || done || idtac end
         |unfold reg_locks; cbn; f_equal; lia].

(** Registering, with what happens to the kernels of the rings. *)
Lemma aura_register_buffers_spec iovs s :
  reg_wf (eng s) ->
  wp (aura_register_buffers iovs) (fun r s' => reg_post s s' /\
    file_table (eng s') = file_table (eng s) /\
    register_spec iovs (buf_table (eng s)) r (buf_table (eng s')) /\
    match r with
    | Ok _ => all_done (lu_register_buffers iovs) 0 (ring_count (eng s)) (eng s) (rings (eng s'))
    | Err err => rings (eng s') = rings (eng s) \/
        undone (lu_register_buffers iovs) lu_unregister_buffers 0 (ring_count (eng s)) (eng s) err
          (rings (eng s'))
    end) s.
Proof.
  intros Hwf. unfold aura_register_buffers, wrlock, wrunlock. cbv zeta.
  unfold register_spec. destruct (bad_count (zlen iovs)) eqn:Ebad.
  { wp_steps. split; [by split|]. auto. }
  wp_steps. change (buffers_registered ?e || buffers_unreg_pending ?e) with
    (buffers_registered (eng s) || buffers_unreg_pending (eng s)).
  rewrite wf_bufs_busy by done. unfold buf_table at 1 3 4.
  destruct (buffers_registered (eng s)) eqn:Er.
  { wp_steps. split; [reg_closed|]. split; [done|]. split; [|by left].
    unfold buf_table. cbn. rewrite Er. by destruct (buffers_unreg_pending (eng s)). }
  assert (buffers_unreg_pending (eng s) = false) as Ep.
  { destruct Hwf. destruct (buffers_unreg_pending (eng s)); [by rewrite rw_buf_pending0 in Er|done]. }
  wp_steps. destruct (negb a).
  { wp_steps. split; [reg_closed|]. split; [done|]. split; [|by left]. right.
    split; [by eexists|]. unfold buf_table. cbn. by rewrite Er. }
  wp_steps. eapply wp_mono; [apply register_loop_spec; lia|].
  intros r s' (_ & _ & rs & Ers & Hr). cbn in Ers, Hr.
  rewrite Z2Nat.id in Hr by (by destruct Hwf).
  destruct r as [[]|err]; wp_steps; unfold upd_eng; cbn; rewrite Ers.
  - split; [reg_closed|]. split; [done|]. split; [|done]. left. split; [done|].
    unfold buf_table. cbn. done.
  - split; [reg_closed|]. split; [done|]. split; [|by right]. right. split; [by eexists|].
    unfold buf_table. cbn. by rewrite Er.
Qed.

Lemma aura_register_files_spec fds s :
  reg_wf (eng s) ->
  wp (aura_register_files fds) (fun r s' => reg_post s s' /\
    buf_table (eng s') = buf_table (eng s) /\
    register_spec fds (file_table (eng s)) r (file_table (eng s')) /\
    match r with
    | Ok _ => all_done (lu_register_files fds) 0 (ring_count (eng s)) (eng s) (rings (eng s'))
    | Err err => rings (eng s') = rings (eng s) \/
        undone (lu_register_files fds) lu_unregister_files 0 (ring_count (eng s)) (eng s) err
          (rings (eng s'))
    end) s.
Proof.
  intros Hwf. unfold aura_register_files, wrlock, wrunlock. cbv zeta.
  unfold register_spec. destruct (bad_count (zlen fds)) eqn:Ebad.
  { wp_steps. split; [by split|]. auto. }
  wp_steps. change (files_registered ?e || files_unreg_pending ?e) with
    (files_registered (eng s) || files_unreg_pending (eng s)).
  rewrite wf_files_busy by done. unfold file_table at 1 3 4.
  destruct (files_registered (eng s)) eqn:Er.
  { wp_steps. split; [reg_closed|]. split; [done|]. split; [|by left].
    unfold file_table. cbn. rewrite Er. by destruct (files_unreg_pending (eng s)). }
  assert (files_unreg_pending (eng s) = false) as Ep.
  { destruct Hwf. destruct (files_unreg_pending (eng s)); [by rewrite rw_file_pending0 in Er|done]. }
  wp_steps. destruct (negb a).
  { wp_steps. split; [reg_closed|]. split; [done|]. split; [|by left]. right.
    split; [by eexists|]. unfold file_table. cbn. by rewrite Er. }
  wp_steps. eapply wp_mono; [apply register_loop_spec; lia|].
  intros r s' (_ & _ & rs & Ers & Hr). cbn in Ers, Hr.
  rewrite Z2Nat.id in Hr by (by destruct Hwf).
  destruct r as [[]|err]; wp_steps; unfold upd_eng; cbn; rewrite Ers.
  - split; [reg_closed|]. split; [done|]. split; [|done]. left. split; [done|].
    unfold file_table. cbn. done.
  - split; [reg_closed|]. split; [done|]. split; [|by right]. right. split; [by eexists|].
    unfold file_table. cbn. by rewrite Er.
Qed.

(** Requesting the unregistration of a table. *)
Lemma request_unregister_buffers_spec s :
  reg_wf (eng s) ->
  wp request_unregister_buffers (fun r s' => reg_post s s' /\ r = Ok tt /\
    buf_table (eng s') = finish (bufs_idle (eng s)) (start_drain (buf_table (eng s))) /\
    (buf_table (eng s) = t_none -> file_table (eng s') = file_table (eng s)) /\
    (buf_table (eng s) <> t_none ->
     file_table (eng s') = finish (files_idle (eng s)) (file_table (eng s)))) s.
Proof.
  intros Hwf. unfold request_unregister_buffers, wrlock, wrunlock. wp_steps.
  change (negb (buffers_registered ?e) && negb (buffers_unreg_pending ?e)) with
    (negb (buffers_registered (eng s)) && negb (buffers_unreg_pending (eng s))).
  rewrite <- negb_orb, wf_bufs_busy by done.
  destruct (buffers_registered (eng s)) eqn:Er; cbn [negb]; wp_steps.
  - match goal with |- wp _ _ ?t => set (s1 := t) end.
    assert (reg_post s s1) as [H1 H2] by reg_closed.
    eapply wp_mono; [by apply finalize_spec|]. intros [] s' ([H3 H4] & Hb & Hf). wp_steps.
    split; [split; [done|by rewrite H4]|]. split; [done|]. rewrite Hb, Hf.
    destruct (idle_ext (eng s) (eng s1) ltac:(by split)) as [-> ->].
    assert (buf_table (eng s1) = start_drain (buf_table (eng s))) as ->.
    { unfold buf_table. cbn. rewrite Er. by destruct (buffers_unreg_pending (eng s)). }
    split; [done|]. split; [|done]. unfold buf_table. rewrite Er.
    by destruct (buffers_unreg_pending (eng s)).
  - split; [reg_closed|]. split; [done|]. unfold buf_table. cbn. rewrite Er. done.
Qed.

Lemma request_unregister_files_spec s :
  reg_wf (eng s) ->
  wp request_unregister_files (fun r s' => reg_post s s' /\ r = Ok tt /\
    file_table (eng s') = finish (files_idle (eng s)) (start_drain (file_table (eng s))) /\
    (file_table (eng s) = t_none -> buf_table (eng s') = buf_table (eng s)) /\
    (file_table (eng s) <> t_none ->
     buf_table (eng s') = finish (bufs_idle (eng s)) (buf_table (eng s)))) s.
Proof.
  intros Hwf. unfold request_unregister_files, wrlock, wrunlock. wp_steps.
  change (negb (files_registered ?e) && negb (files_unreg_pending ?e)) with
    (negb (files_registered (eng s)) && negb (files_unreg_pending (eng s))).
  rewrite <- negb_orb, wf_files_busy by done.
  destruct (files_registered (eng s)) eqn:Er; cbn [negb]; wp_steps.
  - match goal with |- wp _ _ ?t => set (s1 := t) end.
    assert (reg_post s s1) as [H1 H2] by reg_closed.
    eapply wp_mono; [by apply finalize_spec|]. intros [] s' ([H3 H4] & Hb & Hf). wp_steps.
    split; [split; [done|by rewrite H4]|]. split; [done|]. rewrite Hb, Hf.
    destruct (idle_ext (eng s) (eng s1) ltac:(by split)) as [-> ->].
    assert (file_table (eng s1) = start_drain (file_table (eng s))) as ->.
    { unfold file_table. cbn. rewrite Er. by destruct (files_unreg_pending (eng s)). }
    split; [done|]. split; [|done]. unfold file_table. rewrite Er.
    by destruct (files_unreg_pending (eng s)).
  - split; [reg_closed|]. split; [done|]. unfold file_table. cbn. rewrite Er. done.
Qed.

(** ** Updating a registered file *)

Section Update.
Variables (index new_fd old_fd : Z).
Definition upd_new : K -> Z * K := lu_register_files_update index new_fd.
Definition upd_old : K -> Z * K := lu_register_files_update index old_fd.
Definition undo (k : K) : K := snd (upd_old k).

Lemma rollback_loop_spec n : forall j s failed,
  wp (rollback_loop index old_fd j n failed) (fun b s' =>
    exists rs, s' = s <| eng := (eng s) <| rings := rs |> |> /\
    (b = true <-> failed = true \/
       exists q, j <= q < j + Z.of_nat n /\ reg_ret upd_old (rings (eng s) q) < 0) /\
    forall q, rs q = if (j <=? q) && (q <? j + Z.of_nat n) then with_ring undo (rings (eng s) q)
                     else rings (eng s) q) s.
Proof.
  induction n as [|n IH]; intros j s failed; cbn [rollback_loop].
  { wp_steps. exists (rings (eng s)). split; [by destruct s as [[] ? ?]|]. split.
    - split; [by left|]. intros [?|(q & ? & _)]; [done|lia].
    - intros q. destruct (Z.leb_spec j q), (Z.ltb_spec q (j + Z.of_nat 0)); (done || lia). }
  wp_steps. rename H into E. destruct (lu_register_files_update index old_fd _) as [ret k] eqn:Er.
  apply pair_equal_spec in E as [<- <-].
  assert (reg_ret upd_old (rings (eng s) j) = ret) as Eret by (unfold reg_ret, upd_old; by rewrite Er).
  assert ((rings (eng s) j) <| ring := k |> = with_ring undo (rings (eng s) j)) as Ek
    by (unfold with_ring, undo, upd_old; by rewrite Er).
  rewrite Ek. eapply wp_mono; [apply IH|]. intros b s' (rs & -> & Hb & Hq).
  exists rs. split; [done|]. split.
  - rewrite Hb, orb_true_iff, Z.ltb_lt, <- Eret. split.
    + intros [[H|H]|(q & Hr & H)]; [by left|right; exists j; split; [lia|done]|].
      right. exists q. rewrite rings_put_ne in H by lia. split; [lia|done].
    + intros [H|(q & Hr & H)]; [by left; left|]. destruct (Z.eq_dec q j) as [->|]; [by left; right|].
      right. exists q. rewrite rings_put_ne by lia. split; [lia|done].
  - intros q. rewrite Hq. destruct (Z.eq_dec q j) as [->|Hne].
    + rewrite rings_put_eq. destruct (Z.leb_spec j j); [|lia].
      destruct (Z.leb_spec (j + 1) j), (Z.ltb_spec j (j + Z.of_nat (Datatypes.S n))); (done || lia).
    + rewrite rings_put_ne by done. destruct (Z.leb_spec (j + 1) q), (Z.leb_spec j q); try lia; try done.
      destruct (Z.ltb_spec q (j + 1 + Z.of_nat n)), (Z.ltb_spec q (j + Z.of_nat (Datatypes.S n)));
        (done || lia).
Qed.

Lemma latch_spec err s :
  wp (latch_fatal_submit_errno err) (fun _ s' =>
    eng s' = (eng s) <| fatal_submit_errno :=
      if fatal_submit_errno (eng s) =? 0 then (if err <=? 0 then 5 else err)
      else fatal_submit_errno (eng s) |>) s.
Proof.
  unfold latch_fatal_submit_errno. cbv zeta. wp_steps.
  destruct (Z.eqb_spec (fatal_submit_errno (eng s)) 0) as [E|E]; cbn [negb].
  - wp_steps. apply wp_if; intros _; wp_steps; cbn; done.
  - wp_steps. by destruct s as [[] ? ?].
Qed.

(** A ring below [m] refused to take the old descriptor back. *)
Definition rollback_failed (e : engine_t K) (m : Z) : Prop :=
  exists q, 0 <= q < m /\ reg_ret upd_old (reg_done upd_new (rings e q)) < 0.

Definition update_post (n : Z) (e : engine_t K) (r : result unit) (rs : Z -> ring_ctx_t K) (f : Z) : Prop :=
  match r with
  | Ok _ => all_done upd_new 0 n e rs /\ f = fatal_submit_errno e
  | Err err => exists m, undone_at upd_new undo 0 n m e err rs /\
      (rollback_failed e m ->
       f = if fatal_submit_errno e =? 0 then 5 else fatal_submit_errno e) /\
      (~ rollback_failed e m -> f = fatal_submit_errno e)
  end.

(** The rings below [i] took the new descriptor. *)
Definition updated_to (i : Z) (e e' : engine_t K) : Prop :=
  fatal_submit_errno e' = fatal_submit_errno e /\
  forall j, (0 <= j < i -> 0 <= reg_ret upd_new (rings e j) /\ rings e' j = reg_done upd_new (rings e j)) /\
            (~ 0 <= j < i -> rings e' j = rings e j).

Lemma update_fails s e i ret :
  0 <= i -> updated_to i e (eng s) -> reg_ret upd_new (rings e i) = ret -> ret < 0 ->
  forall n, i < n ->
  wp (let* failed := rollback_loop index old_fd 0 (Z.to_nat i) false in
      (if failed : bool then latch_fatal_submit_errno (errno_code EIO) else mret tt) ;;
      mret (Err (ESYS (- ret))))
    (fun r s' => exists rs f, eng s' = (eng s) <| rings := rs |> <| fatal_submit_errno := f |> /\
       update_post n e r rs f) (put_ring i (reg_done upd_new (rings e i)) s).
Proof.
  intros Hi [Hf Hu] Hret Hneg n Hn. wp_steps. set (s1 := put_ring i _ s).
  assert (forall q, 0 <= q < i -> rings (eng s1) q = reg_done upd_new (rings e q)) as Hlow.
  { intros q Hq. unfold s1. rewrite rings_put_ne by lia. by apply Hu. }
  eapply wp_mono; [apply rollback_loop_spec|]. intros b s' (rs & -> & Hb & Hq).
  rewrite Z2Nat.id in Hb, Hq by lia.
  assert (b = true <-> rollback_failed e i) as Hb'.
  { rewrite Hb. split.
    - intros [?|(q & Hr & H)]; [done|]. exists q. rewrite Hlow in H by lia. done.
    - intros (q & Hr & H). right. exists q. rewrite Hlow by lia. done. }
  assert (undone_at upd_new undo 0 n i e (ESYS (- ret)) rs) as Hundo.
  { unfold undone_at. rewrite Hret. split; [lia|]. split; [done|]. split; [done|].
    assert (forall j, 0 <= j < i -> rs j = with_ring undo (rings (eng s1) j)) as Hin
      by (intros j Hj; rewrite Hq; destruct (Z.leb_spec 0 j), (Z.ltb_spec j (0 + i)); done || lia).
    assert (forall j, ~ 0 <= j < i -> rs j = rings (eng s1) j) as Hout
      by (intros j Hj; rewrite Hq; destruct (Z.leb_spec 0 j), (Z.ltb_spec j (0 + i)); done || lia).
    split; [rewrite Hout by lia; apply rings_put_eq|].
    intros j. split; [|split; [lia|]]; intros Hj.
    - rewrite Hin, Hlow by lia. split; [|done]. by apply Hu.
    - rewrite Hout by lia. unfold s1. rewrite rings_put_ne by lia. apply Hu. lia. }
  wp_steps. destruct b.
  - eapply wp_mono; [apply latch_spec|]. intros [] s' E. wp_steps. exists rs. eexists.
    split; [by rewrite E; cbn|]. exists i. split; [done|]. cbn. rewrite Hf. split; [done|].
    intros []. by apply Hb'.
  - wp_steps. exists rs, (fatal_submit_errno (eng s)). split; [by destruct s as [[] ? ?]|].
    exists i. split; [done|]. rewrite Hf. split; [|done]. by intros ?%Hb'.
Qed.

Lemma update_loop_spec n : forall i s e, 0 <= i -> updated_to i e (eng s) ->
  wp (update_loop index new_fd old_fd i n) (fun r s' =>
    exists rs f, eng s' = (eng s) <| rings := rs |> <| fatal_submit_errno := f |> /\
      update_post (i + Z.of_nat n) e r rs f) s.
Proof.
  induction n as [|n IH]; intros i s e Hi Hu; cbn [update_loop].
  { wp_steps. exists (rings (eng s)), (fatal_submit_errno (eng s)). destruct Hu as [Hf Hu].
    split; [by destruct s as [[] ? ?]|]. rewrite Z.add_0_r. split; [|done].
    intros j. split; intros Hj; apply Hu; lia. }
  wp_steps. rename H into E.
  destruct (lu_register_files_update index new_fd _) as [ret k] eqn:Er.
  apply pair_equal_spec in E as [<- <-].
  assert (rings (eng s) i = rings e i) as Ei by (apply Hu; lia). rewrite Ei in Er |- *.
  assert (reg_ret upd_new (rings e i) = ret) as Eret by (unfold reg_ret, upd_new; by rewrite Er).
  assert ((rings e i) <| ring := k |> = reg_done upd_new (rings e i)) as Ek
    by (unfold reg_done, with_ring, upd_new; by rewrite Er).
  rewrite Ek. destruct (Z.ltb_spec ret 0).
  - apply update_fails; [done|done|done|done|lia].
  - eapply wp_mono; [apply (IH (i + 1) _ e); [lia|]|].
    + destruct Hu as [Hf Hu]. split; [done|]. intros j. destruct (Z.eq_dec j i) as [->|Hne].
      * rewrite rings_put_eq. split; [|lia]. split; [lia|done].
      * rewrite rings_put_ne by done. destruct (Hu j) as [Ha Hb].
        split; intros Hj; [apply Ha|apply Hb]; lia.
    + intros r s' (rs & f & Hs & Hp). exists rs, f. split; [done|].
      by replace (i + Z.of_nat (Datatypes.S n)) with (i + 1 + Z.of_nat n) by lia.
Qed.
End Update.

(** ** The theorems *)

(** C39. Each of the two tables (buffers, files) follows the machine none, live,
    draining. Registering is refused with EBUSY unless the table is free, and
    otherwise makes it live or, on any failure, leaves it free; unregistering
    drains a live table and frees it at once when no operation that uses it is
    in flight; a draining table is freed by the first finalization that finds
    none in flight, and by nothing else. Registering one table does not disturb
    the other. Every operation returns with the registration lock released and
    the engine's fields consistent. *)
Theorem registration_refines s :
  reg_wf (eng s) ->
  (forall iovs, wp (aura_register_buffers iovs) (fun r s' => reg_post s s' /\
     file_table (eng s') = file_table (eng s) /\
     register_spec iovs (buf_table (eng s)) r (buf_table (eng s'))) s) /\
  (forall fds, wp (aura_register_files fds) (fun r s' => reg_post s s' /\
     buf_table (eng s') = buf_table (eng s) /\
     register_spec fds (file_table (eng s)) r (file_table (eng s'))) s) /\
  wp (aura_request_unregister (Some AURA_REG_BUFFERS)) (fun r s' => reg_post s s' /\ r = Ok tt /\
     buf_table (eng s') = finish (bufs_idle (eng s)) (start_drain (buf_table (eng s)))) s /\
  wp (aura_request_unregister (Some AURA_REG_FILES)) (fun r s' => reg_post s s' /\ r = Ok tt /\
     file_table (eng s') = finish (files_idle (eng s)) (start_drain (file_table (eng s)))) s /\
  wp finalize_deferred_unregistration (fun _ s' => reg_post s s' /\
     buf_table (eng s') = finish (bufs_idle (eng s)) (buf_table (eng s)) /\
     file_table (eng s') = finish (files_idle (eng s)) (file_table (eng s))) s.
Proof.
  intros Hwf. split; [|split; [|split; [|split; [|by apply finalize_spec]]]].
  - intros l. eapply wp_mono; [by apply aura_register_buffers_spec|]. by intros r s' (? & ? & ? & _).
  - intros l. eapply wp_mono; [by apply aura_register_files_spec|]. by intros r s' (? & ? & ? & _).
  - eapply wp_mono; [by apply request_unregister_buffers_spec|]. by intros r s' (? & ? & ? & _).
  - eapply wp_mono; [by apply request_unregister_files_spec|]. by intros r s' (? & ? & ? & _).
Qed.

(** A registration is made with every ring or with none: on success each
    ring's kernel accepted the table, on failure each ring that had accepted
    it was told to forget it, the error is the one of the ring that refused,
    and the rings after it were not asked. *)
Theorem registration_all_or_nothing s :
  reg_wf (eng s) ->
  (forall iovs, wp (aura_register_buffers iovs) (fun r s' =>
     match r with
     | Ok _ => all_done (lu_register_buffers iovs) 0 (ring_count (eng s)) (eng s) (rings (eng s'))
     | Err err => rings (eng s') = rings (eng s) \/
         undone (lu_register_buffers iovs) lu_unregister_buffers 0 (ring_count (eng s)) (eng s) err
           (rings (eng s'))
     end) s) /\
  (forall fds, wp (aura_register_files fds) (fun r s' =>
     match r with
     | Ok _ => all_done (lu_register_files fds) 0 (ring_count (eng s)) (eng s) (rings (eng s'))
     | Err err => rings (eng s') = rings (eng s) \/
         undone (lu_register_files fds) lu_unregister_files 0 (ring_count (eng s)) (eng s) err
           (rings (eng s'))
     end) s).
Proof.
  intros Hwf. split; intros l.
  - eapply wp_mono; [by apply aura_register_buffers_spec|]. by intros r s' (_ & _ & _ & H).
  - eapply wp_mono; [by apply aura_register_files_spec|]. by intros r s' (_ & _ & _ & H).
Qed.

(** The outcome of an update of entry [index] of a live table [fds]. *)
Definition update_outcome (index new_fd : Z) (fds : list Z) s (r : result unit) s' : Prop :=
  update_post index new_fd (aget (-1) fds index) (ring_count (eng s)) (eng s) r (rings (eng s'))
    (fatal_submit_errno (eng s')) /\
  file_table (eng s') = t_live (match r with Ok _ => aset fds index new_fd | Err _ => fds end).

Definition update_refused (index : Z) (t : table (list Z)) : option errno :=
  if index <? 0 then Some EINVAL
  else match t with
       | t_none => Some ENOENT
       | t_draining _ => Some EBUSY
       | t_live fds => if zlen fds <=? index then Some EINVAL else None
       end.

(** Updating a registered file changes the entry in every ring and in the
    engine's table, or in none of them: when ring [m] refuses, the rings before
    it are given the old descriptor again, the table keeps the old entry and
    the error is that ring's; if one of those rings refuses the old descriptor,
    EIO is latched as the fatal error (unless one was latched before), so that
    no submission can use the inconsistent entry. An update of a table that is
    not live, or outside the table, changes nothing. *)
Theorem update_file_rolls_back index new_fd s :
  reg_wf (eng s) ->
  wp (aura_update_file index new_fd) (fun r s' =>
    reg_post s s' /\ buf_table (eng s') = buf_table (eng s) /\
    match update_refused index (file_table (eng s)) with
    | Some err => r = Err err /\ rings (eng s') = rings (eng s) /\
        file_table (eng s') = file_table (eng s) /\
        fatal_submit_errno (eng s') = fatal_submit_errno (eng s)
    | None => exists fds, file_table (eng s) = t_live fds /\ update_outcome index new_fd fds s r s'
    end) s.
Proof.
  intros Hwf. unfold aura_update_file, update_refused, wrlock, wrunlock.
  destruct (index <? 0); [wp_steps; split; [by split|]; done|]. wp_steps.
  assert (files_registered (eng s) = false -> files_unreg_pending (eng s) = false) as Hpend.
  { intros Hr. destruct Hwf. destruct (files_unreg_pending _); [by rewrite rw_file_pending0 in Hr|done]. }
  unfold file_table at 1. cbn -[wp aget reg_post update_loop file_table].
  destruct (files_registered (eng s)) eqn:Er; [destruct (files_unreg_pending (eng s)) eqn:Ep|];
    [..|rewrite Hpend by done]; cbn [negb orb]; wp_steps;
    [split; [reg_closed|]; done| |split; [reg_closed|]; done].
  destruct Hwf as [H1 H2 H3 H4 H5 H6 H7]. rewrite H2.
  destruct (zlen (registered_files (eng s)) <=? index) eqn:Ei.
  { wp_steps. split; [split; [by split|unfold reg_locks; cbn; f_equal; lia]|]. done. }
  wp_steps. eapply wp_mono; [apply (update_loop_spec _ _ _ _ _ _ (eng s)); [lia|]|].
  { split; [done|]. intros j. split; [lia|done]. }
  intros r s' (rs & f & Ers & Hp). rewrite Z.add_0_l, Z2Nat.id in Hp by done.
  destruct r as [[]|err]; wp_steps; unfold upd_eng; cbn -[wp aget file_table]; rewrite Ers.
  - split; [split; [split; cbn; try done; [by rewrite zlen_aset|by rewrite Er]
                   |unfold reg_locks; cbn; f_equal; lia]|].
    split; [done|]. exists (registered_files (eng s)). split; [by unfold file_table; rewrite Er, Ep|].
    split; [exact Hp|]. unfold file_table. cbn. by rewrite Er, Ep.
  - split; [split; [by split|unfold reg_locks; cbn; f_equal; lia]|].
    split; [done|]. exists (registered_files (eng s)). split; [by unfold file_table; rewrite Er, Ep|].
    split; [exact Hp|]. unfold file_table. cbn. by rewrite Er, Ep.
Qed.

End Registration.

(** ** Witnesses *)

Import EngineDemo.

Definition reg_fields (e : engine_t kernel) :=
  (registered_buffers e, registered_files e, registered_buffer_count e, registered_file_count e,
   (buffers_registered e, files_registered e, buffers_unreg_pending e, files_unreg_pending e),
   ring_count e).

Lemma demo_reg_wf (e : engine_t kernel) :
  reg_fields e = ([], [], 0, 0, (false, false, false, false), 3) -> reg_wf e.
Proof. intros [= H1 H2 H3 H4 H5 H6 H7 H8 H9]. split; rewrite ?H1, ?H2, ?H3, ?H4, ?H7, ?H8, ?H9; done. Qed.

Definition demo_iovs : list iovec := [{| iov_base := 4096; iov_len := 512 |}].

(** Three rings; the last refuses any table. *)
Definition demo_start : option state :=
  start 3 AURA_SELECT_ADAPTIVE false (fun i => if i =? 2 then 0 else 4) 0.

Lemma check_registered_buffer_bounds_witness :
  match demo_start with
  | Some s =>
      let e := (eng s) <| registered_buffers := demo_iovs |> <| registered_buffer_count := 1 |>
                       <| buffers_registered := true |> in
      buffers_wf e /\ check_registered_buffer e 0 500 12 = Ok {| iov_base := 4096; iov_len := 512 |}
  | None => False
  end.
Proof.
  destruct demo_start as [s|] eqn:E; [|vm_compute in E; discriminate]. cbv zeta.
  demo_fact E (fun s : state => buffers_unreg_pending (eng s)) false.
  match goal with |- buffers_wf ?x /\ _ => set (e := x) end.
  assert (buffers_wf e) as Hwf.
  { split; [done|]. repeat constructor; cbn; unfold SIZE_MAX; lia. }
  split; [done|].
  apply (check_registered_buffer_bounds e 0 500 12 _ Hwf); [unfold SIZE_MAX; lia..|].
  cbn. split_and!; (done || unfold zlen; cbn; lia).
Defined.

Lemma registration_refines_witness :
  match demo_start with
  | Some s => reg_wf (eng s) /\
      wp (aura_register_buffers demo_iovs) (fun r s' => reg_post s s') s
  | None => False
  end.
Proof.
  destruct demo_start as [s|] eqn:E; [|vm_compute in E; discriminate].
  demo_fact E (fun s : state => reg_fields (eng s)) (@nil iovec, @nil Z, 0, 0, (false, false, false, false), 3).
  assert (reg_wf (eng s)) as Hwf by by apply demo_reg_wf.
  split; [done|]. eapply wp_mono; [apply (registration_refines s Hwf)|]. by intros r s' [H' _].
Defined.

Lemma registration_all_or_nothing_witness :
  match demo_start with
  | Some s => reg_wf (eng s) /\
      wp (aura_register_buffers demo_iovs) (fun r s' => forall j, rings (eng s') j = rings (eng s) j \/
        exists f, rings (eng s') j = with_ring f (rings (eng s) j)) s
  | None => False
  end.
Proof.
  destruct demo_start as [s|] eqn:E; [|vm_compute in E; discriminate].
  demo_fact E (fun s : state => reg_fields (eng s)) (@nil iovec, @nil Z, 0, 0, (false, false, false, false), 3).
  assert (reg_wf (eng s)) as Hwf by by apply demo_reg_wf.
  split; [done|]. eapply wp_mono; [apply (registration_all_or_nothing s Hwf)|].
  intros [[]|err] s' H' j.
  - destruct (H' j) as [Ha Hb]. destruct (decide (0 <= j < 0 + ring_count (eng s))) as [Hj|Hj].
    + right. eexists. by apply Ha.
    + left. by apply Hb.
  - destruct H' as [->|(m & Hm & _ & _ & Hat & Hoth)]; [by left|].
    destruct (Hoth j) as (Ha & _ & Hc). destruct (decide (j = m)) as [->|]; [right; by eexists|].
    destruct (decide (0 <= j < m)) as [Hj|Hj]; [|left; apply Hc; lia].
    right. destruct (Ha Hj) as [_ ->]. by exists (fun k => lu_unregister_buffers (snd (lu_register_buffers demo_iovs k))).
Defined.

Lemma update_file_rolls_back_witness :
  match demo_start with
  | Some s =>
      let s := upd_eng (fun e => e <| registered_files := [5; 6] |> <| registered_file_count := 2 |>
                                   <| files_registered := true |>) s in
      reg_wf (eng s) /\ wp (aura_update_file 1 9) (fun r s' => update_outcome 1 9 [5; 6] s r s') s
  | None => False
  end.
Proof.
  destruct demo_start as [s|] eqn:E; [|vm_compute in E; discriminate]. cbv zeta.
  demo_fact E (fun s : state => reg_fields (eng s)) (@nil iovec, @nil Z, 0, 0, (false, false, false, false), 3).
  match goal with |- reg_wf (eng ?x) /\ _ => set (s1 := x) end.
  assert (reg_wf (eng s1)) as Hwf.
  { match goal with H : reg_fields _ = _ |- _ => injection H as H1 H2 H3 H4 H5 H6 H7 H8 H9 end.
    unfold s1. split; cbn; rewrite ?H1, ?H3, ?H5, ?H7, ?H8, ?H9; done. }
  split; [done|]. eapply wp_mono; [apply (update_file_rolls_back 1 9 s1 Hwf)|].
  assert (file_table (eng s1) = t_live [5; 6]) as Ht.
  { match goal with H : reg_fields _ = _ |- _ => injection H as H1 H2 H3 H4 H5 H6 H7 H8 H9 end.
    unfold s1, file_table. cbn. by rewrite H8. }
  rewrite Ht. intros r s' (_ & _ & fds & Hf & Ho). by injection Hf as <-.
Defined.
