(* ===== verification/EngineInitSpec.v ===== *)
(** * A created engine is ready

    Validated options and successful ring creations give an engine on which
    the hypotheses of the other theorems hold: rings with every slot free,
    controllers in a reachable configuration, tables free, no lock held; and
    the range of the reserved-word check. *)
From Stdlib Require Import ZArith Lia List.
From stdpp Require Import base tactics list relations.
From S2P Require Import Prelude Double Histogram Controller ControllerSpec Ring RingCq RingSpec RingTheorems SubmitSpec Engine EngineOps EngineLoop EngineInit EngineWp EngineDemo EngineSelect EngineReg.

#[local] Open Scope Z_scope.

(** ** Options *)

Definition effective_min (o : aura_options_t) : Z :=
  if 0 <? o_min_in_flight o then o_min_in_flight o else 4.

Lemma validate_options_facts o :
  validate_options o = true ->
  4 <= effective_depth o <= 32768 /\ 0 <= o_ring_count o <= AURA_MAX_RINGS /\
  1 <= effective_min o <= effective_depth o /\
  (initial_in_flight o = 0 \/ effective_min o <= initial_in_flight o <= effective_depth o).
Proof.
  unfold validate_options. cbv zeta. rewrite !andb_true_iff, !negb_true_iff, !orb_false_iff.
  rewrite !andb_false_iff, !negb_false_iff, !orb_false_iff, !Z.ltb_ge, !Z.eqb_eq, !Z.eqb_neq.
  fold (effective_min o).
  intros ((((((H1 & H2) & ((H3 & H3') & H3'')) & H4) & (H5 & H5')) & H6) & H7).
  unfold effective_min, effective_depth, DEFAULT_QUEUE_DEPTH in *.
  destruct (Z.ltb_spec 0 (o_queue_depth o)), (Z.ltb_spec 0 (o_min_in_flight o)); split_and!; lia.
Qed.

Lemma d_gt_zero_not_lt x : d_gt x d_zero = true -> d_lt x d_zero = false.
Proof. destruct x as [[]|[]| |[] m e]; done. Qed.

(** Overwriting the two limits is initialising with them. *)
Lemma adaptive_init_override d i m now a i' m' :
  adaptive_init d i m now = Some a -> 1 <= i' -> 1 <= m' ->
  adaptive_init d i' m' now = Some (a <| aimd_initial_in_flight := i' |> <| min_in_flight := m' |>).
Proof.
  unfold adaptive_init. intros E H1 H2. destruct (Z.ltb_spec d 1); [done|].
  destruct (Z.ltb_spec i 1); [done|]. destruct (Z.ltb_spec i' 1); [lia|]. destruct (Z.ltb_spec m' 1); [lia|].
  cbn [orb] in *. apply Some_inj in E. by rewrite <- E.
Qed.

(** The limits [init_engine_rings] gives a controller, then its settings. *)
Definition configure_limits (o : aura_options_t) (a : adaptive_controller_t) : adaptive_controller_t :=
  let a := if 0 <? initial_in_flight o then a <| aimd_initial_in_flight := initial_in_flight o |> else a in
  if 0 <? o_min_in_flight o then a <| min_in_flight := o_min_in_flight o |> else a.

Lemma configure_limits_reachable o now a :
  validate_options o = true ->
  adaptive_init (effective_depth o) (initial_inflight (effective_depth o)) 4 now = Some a ->
  ctrl_reachable (configure_limits o a) /\
  current_in_flight_limit (configure_limits o a) = effective_depth o /\
  max_queue_depth (configure_limits o a) = effective_depth o /\
  min_in_flight (configure_limits o a) = effective_min o /\
  passthrough_mode (configure_limits o a) = true.
Proof.
  intros Hv Ea. apply validate_options_facts in Hv as (Hd & _ & Hm & Hi).
  set (d := effective_depth o) in *. pose proof (initial_inflight_range d ltac:(lia)) as Hir.
  set (i := if 0 <? initial_in_flight o then initial_in_flight o else initial_inflight d).
  assert (1 <= i <= d) as Hii by (unfold i; zcase; lia).
  pose proof (adaptive_init_override _ _ _ _ _ i (effective_min o) Ea ltac:(lia) ltac:(lia)) as E1.
  assert (configure_limits o a =
    a <| aimd_initial_in_flight := i |> <| min_in_flight := effective_min o |>) as ->.
  { unfold adaptive_init in Ea. destruct (_ || _); [done|]. apply Some_inj in Ea. rewrite <- Ea.
    unfold configure_limits, i, effective_min.
    destruct (0 <? initial_in_flight o), (0 <? o_min_in_flight o); reflexivity. }
  split; [|unfold adaptive_init in Ea; destruct (_ || _); [done|]; apply Some_inj in Ea; by rewrite <- Ea].
  exists d, i, (effective_min o), now. eexists. split; [exact E1|]. split; [lia|].
  split; [zcase; lia|apply rtc_refl].
Qed.

Lemma configure_reachable o now a :
  validate_options o = true ->
  adaptive_init (effective_depth o) (initial_inflight (effective_depth o)) 4 now = Some a ->
  let a' := configure_controller o a in
  ctrl_reachable a' /\ current_in_flight_limit a' = effective_depth o /\
  max_queue_depth a' = effective_depth o /\ min_in_flight a' = effective_min o /\
  passthrough_mode a' = true.
Proof.
  intros Hv Ea. cbv zeta. pose proof (configure_limits_reachable o now a Hv Ea) as (H1 & H2).
  change (configure_controller o a) with
    (let a := configure_limits o a in
     let a := if d_gt (max_p99_latency_ms o) d_zero then a <| max_p99_ms := max_p99_latency_ms o |> else a in
     if batch_threshold o =? 0 then a <| current_batch_threshold := INT_MAX |> <| batch_threshold_fixed := true |>
     else if 0 <? batch_threshold o
          then a <| current_batch_threshold := batch_threshold o |> <| batch_threshold_fixed := true |>
          else a).
  generalize dependent (configure_limits o a). intros a1 H1 H2. cbv zeta.
  set (a2 := if d_gt _ _ then _ else _).
  assert (ctrl_reachable a2 /\ current_in_flight_limit a2 = effective_depth o /\
    max_queue_depth a2 = effective_depth o /\ min_in_flight a2 = effective_min o /\
    passthrough_mode a2 = true) as [H3 H4].
  { unfold a2. destruct (d_gt _ _) eqn:Eg; [|by split].
    split; [|exact H2]. eapply ctrl_reachable_step; [exact H1|].
    apply step_set_max_p99. by apply d_gt_zero_not_lt. }
  assert (forall t, 0 <= t -> ctrl_reachable (ctrl_set_batch_threshold a2 t)) as Hset.
  { intros t Ht. eapply ctrl_reachable_step; [exact H3|]. apply step_set_batch_threshold. lia. }
  destruct (Z.eqb_spec (batch_threshold o) 0) as [E0|E0]; [split; [exact (Hset 0 ltac:(lia))|exact H4]|].
  destruct (Z.ltb_spec 0 (batch_threshold o)); [|by split].
  split; [|exact H4]. specialize (Hset (batch_threshold o) ltac:(lia)).
  unfold ctrl_set_batch_threshold in Hset. destruct (Z.eqb_spec (batch_threshold o) (-1)); [lia|].
  destruct (Z.eqb_spec (batch_threshold o) 0); [lia|]. exact Hset.
Qed.

(** ** Creating the rings *)

Section Creation.
Context {K O : Type} {L : Liburing K} {LR : LiburingReg K} {OS : EngineOs O}.
Abbreviation S := (estate K O).
Context {UC : UserCallbacks S}.
Implicit Types (e : engine_t K) (c : ring_ctx_t K) (s : S).

Lemma ring_init_enable env depth cpu o k c k' :
  ring_init env depth cpu o k = (Ok c, k') ->
  (needs_enable c = true -> opt_flag start_disabled o = true) /\ st_cq_users c = 0 /\
  owner_count c = 0 /\ fixed_buf_inflight c = 0 /\ fixed_file_inflight c = 0.
Proof.
  unfold ring_init. destruct (depth <? 1); [done|]. destruct (negb _); [done|]. destruct (negb _); [done|].
  destruct (ring_setup depth o k) as [[[ret sqpoll] si] k1]. destruct (ret <? 0); [done|].
  destruct (negb _); [done|]. destruct (negb _); [done|].
  destruct (adaptive_init _ _ _ _) as [ctrl|]; [|done].
  intros H'. apply pair_equal_spec in H' as [H' _]. apply (f_equal (fun r =>
    match r with Ok c => Some c | Err _ => None end)) in H'.
  apply Some_inj in H'. subst c. cbn. split; [|done]. by destruct si.
Qed.

Definition rings_ready e : Prop := forall i, 0 <= i < ring_count e -> ring_ready (rings e i).

(** Ring [i] of a created engine. *)
Definition ring_created (o : aura_options_t) (env : Z -> ring_init_env) (k : Z -> K) (i : Z) c : Prop :=
  exists c0 k', ring_init (env i) (effective_depth o) i (Some (ring_options o)) (k i) = (Ok c0, k') /\
    c = configure_ring o i c0.

(** The engine after some rings were written. *)
Definition with_rings (rs : Z -> ring_ctx_t K) (sq : bool) s : S :=
  upd_eng (fun e => e <| rings := rs |> <| e_sqpoll_enabled := sq |>) s.

Lemma init_rings_spec fuel o env k n : forall i s s',
  queue_depth (eng s) = effective_depth o -> init_rings fuel o env k i n s = Some (Ok tt, s') ->
  (exists rs sq, s' = with_rings rs sq s) /\
  (forall j, j < i \/ i + Z.of_nat n <= j -> rings (eng s') j = rings (eng s) j) /\
  forall j, i <= j < i + Z.of_nat n -> ring_created o env k j (rings (eng s') j).
Proof.
  induction n as [|n IH]; intros i s s' Hd E; cbn [init_rings] in E.
  { injection E as <-. split; [|split; [done|lia]].
    exists (rings (eng s)), (e_sqpoll_enabled (eng s)). by destruct s as [[] ? ?]. }
  unfold mbind at 1, eng_get, mget in E. rewrite Hd in E.
  destruct (ring_init (env i) (effective_depth o) i (Some (ring_options o)) (k i)) as [[c|err] k'] eqn:Ei.
  2:{ exfalso. unfold mbind in E. by destruct (for_rings _ _ _ _ _) as [[? ?]|]. }
  cbv zeta in E. unfold mbind, eng_upd, mupd in E. apply IH in E as ((rs & sq & E) & Hout & Hin); [|done].
  split; [|split].
  - exists rs, sq. rewrite E. done.
  - intros j Hj. rewrite Hout by lia. cbn. by destruct (Z.eqb_spec j i); [lia|].
  - intros j Hj. destruct (Z.eq_dec j i) as [->|]; [|apply Hin; lia].
    rewrite Hout by lia. cbn. rewrite Z.eqb_refl. by exists c, k'.
Qed.

(** What every ring of a new engine satisfies. *)
Record ring_fresh (o : aura_options_t) (i : Z) c : Prop := {
  rf_ready : ring_ready c;
  rf_slots : free_request_count c = effective_depth o /\ max_requests c = effective_depth o;
  rf_idle : pending_count c = 0 /\ queued_sqes c = 0 /\ fixed_buf_inflight c = 0 /\ fixed_file_inflight c = 0;
  rf_unlocked : lock c = 0 /\ cq_lock c = 0 /\ st_users c = 0 /\ st_cq_users c = 0 /\ owner_count c = 0;
  rf_mode : single_thread c = o_single_thread o;
  rf_index : rc_ring_idx c = i;
  rf_ctrl : ctrl_reachable (adaptive c);
  rf_limit : current_in_flight_limit (adaptive c) = effective_depth o;
  rf_min : min_in_flight (adaptive c) = effective_min o;
  rf_enable : needs_enable c = true -> is_thread_local (o_ring_select o) = true
}.

Lemma ring_created_fresh o env k i c :
  validate_options o = true -> ring_created o env k i c -> ring_fresh o i c.
Proof.
  intros Hv (c0 & k' & Ei & ->). pose proof (validate_options_facts o Hv) as (Hd & _).
  pose proof (ring_init_inv _ _ _ _ _ _ _ (proj2 Hd) Ei) as Hinv.
  destruct (ring_init_enable _ _ _ _ _ _ _ Ei) as (He & Hcq & How & Hfb & Hff).
  apply ring_init_fields in Ei as (H1 & Em & Er & Es & En & Ep & Eq & Eb & El & Ec & Est & _ & _ & _ & Ea).
  destruct (configure_reachable o _ _ Hv Ea) as (R1 & R2 & R3 & R4 & R5).
  unfold configure_ring. split; try done.
  - split; [by apply (ring_inv_view c0)|]. split; [unfold ring_can_submit, adaptive_is_passthrough; cbn; by rewrite R5|].
    cbn. rewrite Est, Eq. unfold INT_MAX. lia.
Qed.

Lemma rings_wanted_range o cpus :
  validate_options o = true -> 1 <= rings_wanted o cpus <= AURA_MAX_RINGS.
Proof.
  intros Hv. apply validate_options_facts in Hv as (_ & Hn & _).
  unfold rings_wanted, get_cpu_count, AURA_MAX_RINGS in *. repeat zcase; lia.
Qed.

(** A successful stage 3 changes the rings, their number and two flags. *)
Lemma engine_rings_spec fuel o cpus ok env k s s' :
  queue_depth (eng s) = effective_depth o ->
  init_engine_rings fuel o cpus ok env k s = Some (Ok tt, s') ->
  (exists rs sq, s' = upd_eng (fun e => e <| e_single_thread := o_single_thread o |>)
    (with_rings rs sq (upd_eng (fun e => e <| ring_count := rings_wanted o cpus |>) s))) /\
  forall j, 0 <= j < rings_wanted o cpus -> ring_created o env k j (rings (eng s') j).
Proof.
  intros Hd. unfold init_engine_rings, mbind at 1, eng_upd, mupd. destruct ok; cbn [negb]; [|done].
  unfold mbind at 1. set (s1 := upd_eng _ s).
  destruct (init_rings _ _ _ _ _ _ s1) as [[[[]|err] s2]|] eqn:E; [|done..].
  intros E2. apply Some_inj in E2. assert (s' = upd_eng (fun e => e <| e_single_thread := o_single_thread o |>) s2)
    as -> by congruence.
  apply init_rings_spec in E as ((rs & sq & ->) & _ & Hr); [|done].
  split; [by exists rs, sq|]. intros j Hj. apply Hr. lia.
Qed.

(** No buffer and no file is registered, nor about to be unregistered. *)
Definition tables_free e : Prop :=
  buffers_registered e = false /\ buffers_unreg_pending e = false /\
  files_registered e = false /\ files_unreg_pending e = false /\
  registered_buffers e = [] /\ registered_files e = [] /\
  registered_buffer_count e = 0 /\ registered_file_count e = 0.

(** The facts below, as the other files use them. *)
Lemma created_facts fuel o page_size addr dead cpus ok env k e0 s0 s :
  validate_and_init_engine_core o page_size addr dead true 0 = Ok e0 -> eng s0 = e0 ->
  init_engine_rings fuel o cpus ok env k s0 = Some (Ok tt, s) -> let e := eng s in
  1 <= ring_count e <= AURA_MAX_RINGS /\ 4 <= effective_depth o <= 32768 /\
  (forall i, 0 <= i < ring_count e -> ring_fresh o i (rings e i)) /\
  rings_ready e /\ reg_wf e /\ no_lockless e /\ reg_locks e = (0, 0) /\
  fatal_submit_errno e = 0 /\ e_shutting_down e = false /\ e_single_thread e = o_single_thread o /\
  ring_select e = o_ring_select o /\ tables_free e.
Proof.
  unfold validate_and_init_engine_core. intros E0 Es E.
  destruct (validate_options o) eqn:Hv; [|done]. injection E0 as <-.
  pose proof (validate_options_facts o Hv) as (Hd & _). pose proof (rings_wanted_range o cpus Hv) as Hn.
  apply engine_rings_spec in E as ((rs & sq & E1) & Hr); [|by rewrite Es].
  assert (forall i, 0 <= i < rings_wanted o cpus -> ring_fresh o i (rings (eng s) i)) as Hf.
  { intros i Hi. by apply (ring_created_fresh o env k), Hr. }
  rewrite E1 in Hf |- *. cbn in Hf |- *. rewrite Es.
  split; [done|]. split; [done|]. split; [exact Hf|].
  split; [intros i Hi; apply (rf_ready _ _ _ (Hf i Hi))|].
  split; [by split; cbn; try done; lia|].
  split; [|by split_and!]. intros i Hi. destruct (rf_unlocked _ _ _ (Hf i Hi)) as (_ & _ & H1 & H2 & _).
  cbn in H1, H2 |- *. lia.
Qed.

(** C37. Creating an engine from options that pass the validation gives, once
    every ring could be initialised, an engine whose 1 to 1024 rings, of 4 to
    32768 slots each, are all ready:
    every slot free, nothing queued or in flight, no lock held, a controller
    that [adaptive_init] and the setters can produce, whose limit is the queue
    depth and whose minimum is the one asked for; the tables of registered
    buffers and files are free (nothing registered, nothing to be
    unregistered, both empty), no fatal error is latched, and only a
    THREAD_LOCAL engine has rings still to be enabled. These are the
    hypotheses of the theorems on selection, submission and registration. *)
Theorem engine_created fuel o page_size addr dead cpus env k e0 s0 s :
  validate_and_init_engine_core o page_size addr dead true 0 = Ok e0 -> eng s0 = e0 ->
  init_engine_rings fuel o cpus true env k s0 = Some (Ok tt, s) -> let e := eng s in
  1 <= ring_count e <= AURA_MAX_RINGS /\ 4 <= effective_depth o <= 32768 /\
  (forall i, 0 <= i < ring_count e -> ring_fresh o i (rings e i)) /\
  rings_ready e /\ reg_wf e /\ no_lockless e /\ reg_locks e = (0, 0) /\
  fatal_submit_errno e = 0 /\ e_shutting_down e = false /\ e_single_thread e = o_single_thread o /\
  ring_select e = o_ring_select o /\ tables_free e.
Proof. apply created_facts. Qed.
End Creation.

(** ** The reserved words *)

(** The check covers one word more than the structure has reserved: a full
    structure is rejected for what its padding holds. *)
Lemma reserved_check_reads_padding o :
  struct_size o = SIZEOF_OPTIONS -> length (_reserved o) = 6%nat -> o_padding o <> 0 ->
  validate_options o = false.
Proof.
  intros Hs Hl Hp. unfold validate_options.
  assert (reserved_zero o = false) as ->; [|by rewrite andb_false_r].
  unfold reserved_zero, reserved_words. rewrite Hs. change (Z.to_nat (reserved_count SIZEOF_OPTIONS)) with 7%nat.
  rewrite take_ge by (rewrite length_app, Hl; done). rewrite forallb_app. cbn.
  apply Z.eqb_neq in Hp as ->. by rewrite andb_false_r.
Qed.

(** ** Witness *)

Import EngineDemo.

(** The engines of [EngineDemo] are created by these functions. *)
Lemma demo_made n mode single lim c s :
  start n mode single lim c = Some s ->
  exists dead e0 s0,
    validate_and_init_engine_core (options n mode single) 4096 640 dead true 0 = Ok e0 /\ eng s0 = e0 /\
    init_engine_rings 9 (options n mode single) 4 true (fun _ => Demo.env0) (fun i => kernel0 (lim i)) s0
      = Some (Ok tt, s).
Proof.
  unfold start. destruct (ring_init _ _ _ _ _) as [[dead|] k]; [|done].
  destruct (validate_and_init_engine_core _ _ _ _ _ _) as [e0|] eqn:E0; [|done].
  set (s0 := {| eng := e0; tls := _; os := _ |}).
  destruct (init_engine_rings _ _ _ _ _ _ _) as [[[[]|] s1]|] eqn:E; [|done..]. intros Es.
  exists dead, e0, s0. apply Some_inj in Es. by rewrite <- Es.
Qed.

Lemma demo_created n mode single lim c s :
  start n mode single lim c = Some s ->
  let e := eng s in let o := options n mode single in
  1 <= ring_count e <= AURA_MAX_RINGS /\ 4 <= effective_depth o <= 32768 /\
  (forall i, 0 <= i < ring_count e -> ring_fresh o i (rings e i)) /\
  rings_ready e /\ reg_wf e /\ no_lockless e.
Proof.
  intros E. destruct (demo_made _ _ _ _ _ _ E) as (dead & e0 & s0 & E0 & Es & E1).
  destruct (created_facts _ _ _ _ _ _ _ _ _ _ _ _ E0 Es E1) as (H1 & H2 & H3 & H4 & H5 & H6 & _). done.
Qed.

Lemma engine_created_witness :
  match start 3 AURA_SELECT_ADAPTIVE false (fun _ => 4) 0 with
  | Some s => rings_ready (eng s) /\ tables_free (eng s)
  | None => False
  end.
Proof.
  destruct (start _ _ _ _ _) as [s|] eqn:E; [|vm_compute in E; discriminate].
  destruct (demo_made _ _ _ _ _ _ E) as (dead & e0 & s0 & E0 & Es & E1).
  destruct (engine_created _ _ _ _ _ _ _ _ _ _ _ E0 Es E1)
    as (_ & _ & _ & H1 & _ & _ & _ & _ & _ & _ & _ & H2). by split.
Defined.
