(* ===== verification/EngineLife.v ===== *)
(** * The life of an engine

    [aura.c] 935-985, 1128-1143 and 1255-1409: the tick thread and its
    deadlines, the stages of [aura_create_with_options] with the cleanup labels
    they fall through to, and the last phase of [aura_destroy], on the engine
    together with its buffer pool and its buffer size map. *)
From Stdlib Require Import ZArith Lia List.
From stdpp Require Import base tactics list gmap.
From S2P Require Import Prelude Double Histogram Controller BufSize BufMap BufMapSpec BufPool BufPoolInv BufPoolSpec BufPoolOps BufPoolDestroy BufPoolRun BufTyped EngineBuffers Ring RingCq RingSpec RingTheorems Engine EngineOps EngineLoop EngineInit EngineWp SubmitSpec EngineDemo EngineReg EngineInitSpec.

#[local] Open Scope Z_scope.
#[local] Open Scope op_scope.

(** ** The tick thread *)

Record timespec := { tv_sec : Z; tv_nsec : Z }.

Definition NSEC : Z := 1000000000.
Definition TICK_INTERVAL_MS : Z := 10.

(** [while (next_tick.tv_nsec >= 1000000000LL) ...] *)
Fixpoint carry_nsec (fuel : nat) (t : timespec) : timespec :=
  match fuel with
  | O => t
  | S fuel =>
      if NSEC <=? tv_nsec t
      then carry_nsec fuel {| tv_sec := tv_sec t + 1; tv_nsec := tv_nsec t - NSEC |}
      else t
  end.

(** One carry is enough: the interval is less than a second. *)
Definition next_tick (t : timespec) : timespec :=
  carry_nsec 1 {| tv_sec := tv_sec t; tv_nsec := tv_nsec t + TICK_INTERVAL_MS * 1000000 |}.

Section Life.
Context {K O : Type} {L : Liburing K} {LR : LiburingReg K} {OS : EngineOs O}.
Abbreviation S := (estate K O).
Context {UC : UserCallbacks S}.
Variable fuel : nat.

(** [n] iterations of [tick_thread_func], or fewer if [tick_running] is cleared;
    the deadlines slept until are returned. [clock_nanosleep] is repeated until
    it is not interrupted, and changes nothing; [clocks] are the clock readings
    of each round. *)
Fixpoint tick_thread_func (clocks : nat -> Z -> Z * Z * Z) (n : nat) (t : timespec)
  : M S (list timespec) :=
  match n with
  | Datatypes.O => mret []
  | Datatypes.S n =>
      let* run := eng_get tick_running in
      if negb run then mret []
      else
        let t := next_tick t in
        tick_round (clocks n) ;;
        let* ts := tick_thread_func clocks n t in
        mret (t :: ts)
  end.

(** [ret] is the answer of [pthread_create]. *)
Definition start_tick_thread (ret : Z) : M S (result unit) :=
  let* enabled := eng_get adaptive_enabled in
  if negb enabled then mret (Ok tt)
  else
    eng_upd (fun e => e <| tick_running := true |>) ;;
    if negb (ret =? 0) then
      eng_upd (fun e => e <| tick_running := false |>) ;; mret (Err (ESYS ret))
    else mret (Ok tt).

(** ** Creation *)

(** What the outside world answers during [aura_create_with_options]: the page
    size, [sysconf]'s number of processors, the address the engine gets, the
    content of fresh ring memory, the outcomes of the library calls, and the
    kernel state of each new ring. *)
Record create_env := {
  ce_page_size : Z; ce_cpus : Z; ce_addr : Z; ce_dead : ring_ctx_t K;
  ce_engine_ok : bool; ce_rwlock : Z;
  ce_map_ok : bool; ce_map_mutex : bool;
  ce_rings_ok : bool; ce_ring : Z -> ring_init_env; ce_kernel : Z -> K;
  ce_eventfd : Z; ce_pthread : Z
}.

(** Stage 2. [self] is the calling thread; [None] is a destruction that waits
    for ever. *)
Definition init_engine_buffer_pool (env : create_env) (p align self : Z) (w : world)
  : option (result buf_size_map_t * world) :=
  match buffer_pool_init p align (ce_cpus env) w with
  | (Err e, w) => Some (Err e, w)
  | (Ok _, w) =>
      match buf_size_map_init (ce_map_ok env) (ce_map_mutex env) with
      | Some map => Some (Ok map, w)
      | None => (fun w => (Err ENONE, w)) <$> buffer_pool_destroy p self w
      end
  end.

Definition cleanup_rings : M S unit := all_rings (fun i _ => destroy_ring fuel i) tt.

(** The same calls as in the last phase of [aura_destroy]. *)
Definition cleanup_eventfd : M S unit := close_eventfd.

(** Stages 4 and 5, with the labels [cleanup_eventfd] and [cleanup_rings]. *)
Definition start_engine (env : create_env) : M S (result unit) :=
  let* r := register_eventfd_with_rings (ce_eventfd env) in
  match r with
  | Err e => cleanup_rings ;; mret (Err e)
  | Ok _ =>
      let* r := start_tick_thread (ce_pthread env) in
      match r with
      | Err e => cleanup_eventfd ;; cleanup_rings ;; mret (Err e)
      | Ok _ => mret (Ok tt)
      end
  end.

(** What a creation ends with: an engine, or an error with the state of the
    engine at the moment it is freed ([None]: it was not allocated). *)
Inductive creation :=
  | Created (s : S) (map : buf_size_map_t)
  | Failed (e : errno) (s : option S).

(** The labels [cleanup_buffer_pool] and [cleanup_engine]; the size map goes
    with the engine. *)
Definition cleanup_buffer_pool (e : errno) (s : S) (p self : Z) (w : world)
  : option (creation * world) :=
  (fun w => (Failed e (Some s), w)) <$> buffer_pool_destroy p self w.

(** The error is the [errno] of the stage that failed (the cleanup calls may
    overwrite it). *)
Definition aura_create_with_options (env : create_env) (options : option aura_options_t) (t : tls_t) (o : O)
    (p self : Z) (w : world) : option (creation * world) :=
  let opts := default (aura_options_init (ce_page_size env)) options in
  match validate_and_init_engine_core opts (ce_page_size env) (ce_addr env) (ce_dead env)
          (ce_engine_ok env) (ce_rwlock env) with
  | Err e => Some (Failed e None, w)
  | Ok e0 =>
      let s := {| eng := e0; tls := t; os := o |} in
      match init_engine_buffer_pool env p (buffer_alignment e0) self w with
      | None => None
      | Some (Err e, w) => Some (Failed e (Some s), w)
      | Some (Ok map, w) =>
          match init_engine_rings fuel opts (ce_cpus env) (ce_rings_ok env) (ce_ring env) (ce_kernel env) s with
          | None => None
          | Some (Err e, s) => cleanup_buffer_pool e s p self w
          | Some (Ok _, s) =>
              match start_engine env s with
              | None => None
              | Some (Err e, s) => cleanup_buffer_pool e s p self w
              | Some (Ok _, s) => Some (Created s map, w)
              end
          end
      end
  end.

(** Destruction of the engine with its buffers: the phases of
    [EngineInit.aura_destroy], whose last one ends with the map and the pool. *)
Definition destroy_engine (p self : Z) (map : buf_size_map_t) (w : world) (s : S)
  : option (S * buf_size_map_t * world) :=
  match aura_destroy fuel s with
  | None => None
  | Some (_, s) => (fun w => (s, buf_size_map_destroy map, w)) <$> buffer_pool_destroy p self w
  end.

End Life.

(** ** Destroying rings without requests *)

Section Idle.
Context {K O : Type} {L : Liburing K} {LR : LiburingReg K} {OS : EngineOs O}.
Abbreviation S := (estate K O).
Context {UC : UserCallbacks S}.
Implicit Types (s : S) (c : ring_ctx_t K).

(** What the destruction of a ring without requests depends on. *)
Definition idle_view c : Z * Z * bool * bool * K :=
  (pending_count c, queued_sqes c, ring_initialized c, needs_enable c, ring c).

(** An initialised ring with nothing queued and nothing in flight. *)
Definition idle c : Prop := pending_count c = 0 /\ queued_sqes c = 0 /\ ring_initialized c = true.

(** The engine and the system are the same but for the rings. *)
Definition only_rings s s' : Prop :=
  eng s' = (eng s) <| rings := rings (eng s') |> /\ os s' = os s.

Definition only_ring (i : Z) s s' : Prop :=
  only_rings s s' /\ forall j, j <> i -> rings (eng s') j = rings (eng s) j.

Lemma only_rings_trans s1 s2 s3 : only_rings s1 s2 -> only_rings s2 s3 -> only_rings s1 s3.
Proof using Type. intros [E1 H1] [E2 H2]. split; [by rewrite E2, E1|congruence]. Qed.

Lemma only_rings_refl s : only_rings s s.
Proof using Type. split; [by destruct s as [[] ? ?]|done]. Qed.

Lemma only_ring_trans i s1 s2 s3 : only_ring i s1 s2 -> only_ring i s2 s3 -> only_ring i s1 s3.
Proof using Type.
  intros [E1 H1] [E2 H2]. split; [by eapply only_rings_trans|]. intros j Hj. by rewrite H2, H1.
Qed.

Lemma only_ring_refl i s : only_ring i s s.
Proof using Type. split; [apply only_rings_refl|done]. Qed.

Lemma only_ring_put i c s : only_ring i s (put_ring i c s).
Proof using Type. split; [done|]. intros j Hj. by apply rings_put_ne. Qed.

Lemma only_ring_thr i t s : only_ring i s (put_thr t s).
Proof using Type. split; [|done]. split; [by destruct s as [[] ? ?]|done]. Qed.

Lemma view_lock c : idle_view (snd (ring_lock c)) = idle_view c.
Proof using Type. unfold ring_lock. destruct (single_thread c); [|done]. by destruct (negb _). Qed.

Lemma view_unlock c st : idle_view (ring_unlock c st) = idle_view c.
Proof using Type. by destruct st. Qed.

Lemma view_flush c t : queued_sqes c = 0 -> idle_view (snd (fst (ring_flush c t))) = idle_view c.
Proof using Type. intros E. unfold ring_flush. rewrite E. by destruct (negb _). Qed.

Lemma flush_locked_idle i s : queued_sqes (rings (eng s) i) = 0 ->
  let s' := @flush_locked K L S (at_ring i) s in
  only_ring i s s' /\ idle_view (rings (eng s') i) = idle_view (rings (eng s) i).
Proof using Type.
  intros Hq. unfold flush_locked, on_ring. cbn [rs_ring at_ring].
  pose proof (view_lock (rings (eng s) i)) as Hl. destruct (ring_lock _) as [st c1]. cbn [snd] in Hl.
  set (s1 := rs_set_ring c1 s). change s1 with (put_ring i c1 s). clear s1. unfold on_ring_thread.
  cbn [rs_ring rs_thread at_ring]. rewrite rings_put_eq.
  assert (queued_sqes c1 = 0) as Hq1 by (unfold idle_view in Hl; congruence).
  pose proof (view_flush c1 (thr (tls (put_ring i c1 s))) Hq1) as Hf.
  destruct (ring_flush c1 _) as [[r c2] t2]. cbn [fst snd] in Hf. cbv iota zeta.
  unfold upd_ring. cbn [rs_set_ring rs_set_thread rs_ring at_ring].
  set (s2 := put_thr t2 (put_ring i c2 (put_ring i c1 s))).
  change (only_ring i s (put_ring i (ring_unlock (rings (eng s2) i) st) s2) /\
    idle_view (rings (eng (put_ring i (ring_unlock (rings (eng s2) i) st) s2)) i) = idle_view (rings (eng s) i)).
  assert (rings (eng s2) i = c2) as -> by (unfold s2, put_thr; cbn [eng upd_tls]; apply rings_put_eq).
  rewrite rings_put_eq, view_unlock, Hf. split; [|done].
  eapply only_ring_trans; [|apply only_ring_put].
  eapply only_ring_trans; [|apply only_ring_thr].
  eapply only_ring_trans; apply only_ring_put.
Qed.

(** The kernel of a ring whose queue was released: a ring that was created
    disabled is enabled first. *)
Definition kernel_at_exit c : K :=
  lu_queue_exit (if needs_enable c then snd (lu_enable_rings (ring c)) else ring c).

(** [c'] is the ring [c] once destroyed. *)
Definition destroyed c c' : Prop :=
  ring_initialized c' = false /\ requests c' = [] /\ free_request_stack c' = [] /\
  ring c' = kernel_at_exit c.

Lemma destroy_ring_idle fuel i s : idle (rings (eng s) i) ->
  wp (destroy_ring fuel i) (fun _ s' =>
    only_ring i s s' /\ destroyed (rings (eng s) i) (rings (eng s') i)) s.
Proof using Type.
  intros (Hp & Hq & Hi). unfold wp, destroy_ring, ring_destroy. cbv zeta. cbn [rs_ring at_ring].
  set (s1 := if needs_enable _ then _ else _).
  assert (only_ring i s s1 /\ idle (rings (eng s1) i) /\
    lu_queue_exit (ring (rings (eng s1) i)) = kernel_at_exit (rings (eng s) i)) as (H1 & (Hp1 & Hq1 & Hi1) & Hk1).
  { unfold s1, kernel_at_exit. destruct (needs_enable _) eqn:En; [|by split; [apply only_ring_refl|]].
    unfold on_ring. cbn [rs_ring at_ring]. unfold ring_enable. rewrite Hi, En. cbn [negb].
    destruct (lu_enable_rings _) as [ret k]. destruct (ret <? 0); cbn [snd];
      (split; [apply (only_ring_put i)|]); cbn; by rewrite Z.eqb_refl. }
  clearbody s1. set (s2 := upd_ring _ s1).
  assert (only_ring i s s2 /\ idle_view (rings (eng s2) i) = idle_view (rings (eng s1) i)) as [H2 V2].
  { split; [eapply only_ring_trans; [exact H1|apply (only_ring_put i)]|]. cbn. by rewrite Z.eqb_refl. }
  clearbody s2. destruct (flush_locked_idle i s2) as [H3 V3].
  { unfold idle_view in V2. congruence. }
  cbv zeta in H3, V3. set (s3 := flush_locked s2) in *. rewrite V2 in V3. clearbody s3.
  change (Z.to_nat RING_DESTROY_MAX_DRAIN_ATTEMPTS) with (Datatypes.S 99). cbn [destroy_drain rs_ring at_ring].
  unfold idle_view in V3. apply pair_equal_spec in V3 as [V3 K3]. apply pair_equal_spec in V3 as [V3 _].
  apply pair_equal_spec in V3 as [V3 I3]. apply pair_equal_spec in V3 as [P3 _].
  rewrite P3, Hp1. cbn [Z.ltb Z.compare]. unfold upd_ring. cbn [rs_ring rs_set_ring at_ring].
  split.
  - eapply only_ring_trans; [exact H2|]. eapply only_ring_trans; [exact H3|].
    eapply only_ring_trans; [apply (only_ring_put i)|apply (only_ring_put i)].
  - cbn. rewrite !Z.eqb_refl, I3, Hi1. unfold destroyed. cbn.
    rewrite K3. split_and!; done.
Qed.

Lemma destroy_rings_idle fuel n : forall i s, 0 <= i ->
  (forall j, i <= j < i + Z.of_nat n -> idle (rings (eng s) j)) ->
  wp (for_rings (fun j _ => destroy_ring fuel j) i n tt) (fun _ s' =>
    only_rings s s' /\
    (forall j, i <= j < i + Z.of_nat n -> destroyed (rings (eng s) j) (rings (eng s') j)) /\
    forall j, ~ i <= j < i + Z.of_nat n -> rings (eng s') j = rings (eng s) j) s.
Proof using Type.
  induction n as [|n IH]; intros i s H0 Hi; cbn [for_rings].
  { apply wp_ret. split; [apply only_rings_refl|]. split; [lia|done]. }
  apply wp_bind. eapply wp_mono; [apply destroy_ring_idle, Hi; lia|]. intros [] s1 [[E1 H1] D1].
  eapply wp_mono; [apply IH; [lia|]|].
  { intros j Hj. rewrite H1 by lia. apply Hi. lia. }
  intros _ s2 (E2 & D2 & H2). split; [by eapply only_rings_trans|]. split; intros j Hj.
  - destruct (Z.eq_dec j i) as [->|Hne]; [rewrite H2 by lia; exact D1|].
    rewrite <- (H1 j Hne). apply D2. lia.
  - rewrite H2, H1 by lia. done.
Qed.

Lemma cleanup_rings_idle fuel s : (forall j, 0 <= j < ring_count (eng s) -> idle (rings (eng s) j)) ->
  wp (cleanup_rings fuel) (fun _ s' =>
    only_rings s s' /\
    (forall j, 0 <= j < ring_count (eng s) -> destroyed (rings (eng s) j) (rings (eng s') j)) /\
    forall j, ~ 0 <= j < ring_count (eng s) -> rings (eng s') j = rings (eng s) j) s.
Proof using Type.
  intros Hi. unfold cleanup_rings, all_rings. wp_steps.
  eapply wp_mono; [apply destroy_rings_idle; [lia|]|].
  { intros j Hj. apply Hi. lia. }
  intros _ s' (E & D & H). split; [exact E|]. split; intros j Hj; [apply D|apply H]; lia.
Qed.
End Idle.

(** ** Starting an engine *)

Section Starting.
Context {K O : Type} {L : Liburing K} {LR : LiburingReg K} {OS : EngineOs O}.
Abbreviation S := (estate K O).
Context {UC : UserCallbacks S}.
Implicit Types (s : S) (c : ring_ctx_t K) (e : engine_t K).

(** [c'] is [c] with another kernel state. *)
Definition rekernel c c' : Prop := c' = with_ring (fun _ => ring c') c.

Lemma rekernel_with (f : K -> K) c : rekernel c (with_ring f c).
Proof using Type. done. Qed.

Lemma rekernel_refl c : rekernel c c.
Proof using Type. by destruct c. Qed.

Lemma rekernel_trans c1 c2 c3 : rekernel c1 c2 -> rekernel c2 c3 -> rekernel c1 c3.
Proof using Type. unfold rekernel. intros -> ->. done. Qed.

Lemma rekernel_fresh o i c c' : rekernel c c' -> ring_fresh o i c -> ring_fresh o i c'.
Proof using Type.
  unfold rekernel. intros -> [H1 H2 H3 H4 H5 H6 H7 H8 H9 H10]. destruct H1 as (Hinv & Hsub).
  split; try done. split; [|exact Hsub]. by apply (ring_inv_view c).
Qed.

(** What stages 4 and 5 make of an engine: its rings may have new kernel states. *)
Definition restarted e e' : Prop :=
  ring_count e' = ring_count e /\ adaptive_enabled e' = adaptive_enabled e /\
  ring_select e' = ring_select e /\ (forall j, rekernel (rings e j) (rings e' j)) /\
  forall j, ~ 0 <= j < ring_count e -> rings e' j = rings e j.

Lemma restarted_trans e1 e2 e3 : restarted e1 e2 -> restarted e2 e3 -> restarted e1 e3.
Proof using Type.
  intros (A1 & A2 & A3 & A4 & A5) (B1 & B2 & B3 & B4 & B5). split_and!; [congruence..| |].
  - intros j. by eapply rekernel_trans.
  - intros j Hj. rewrite B5 by (rewrite A1; done). by apply A5.
Qed.

Lemma restarted_same e e' : ring_count e' = ring_count e -> adaptive_enabled e' = adaptive_enabled e ->
  ring_select e' = ring_select e -> rings e' = rings e -> restarted e e'.
Proof using Type.
  intros E1 E2 E3 E4. split_and!; try done; rewrite E4; [|done]. intros j. apply rekernel_refl.
Qed.

(** The kernel states in which a ring that had [k] does not refer to the
    eventfd [fd]: it was never given it, it refused it, or it gave it up. *)
Inductive unlinked (fd : Z) (k : K) : K -> Prop :=
  | unl_never : unlinked fd k k
  | unl_refused : fst (lu_register_eventfd fd k) < 0 -> unlinked fd k (snd (lu_register_eventfd fd k))
  | unl_undone : 0 <= fst (lu_register_eventfd fd k) ->
      unlinked fd k (lu_unregister_eventfd (snd (lu_register_eventfd fd k))).

(** The rings of [e'] are those of [e], without the eventfd. *)
Definition detached fd e e' : Prop :=
  restarted e e' /\ forall j, unlinked fd (ring (rings e j)) (ring (rings e' j)).

(** Every ring of [e'] has the eventfd. *)
Definition attached fd e e' : Prop :=
  restarted e e' /\ forall j, 0 <= j < ring_count e ->
    0 <= fst (lu_register_eventfd fd (ring (rings e j))) /\
    ring (rings e' j) = snd (lu_register_eventfd fd (ring (rings e j))).

Lemma detached_same fd e e' : restarted e e' -> rings e' = rings e -> detached fd e e'.
Proof using Type. intros R E. split; [done|]. intros j. rewrite E. constructor. Qed.

(** The registration loop changes nothing but kernel states. *)
Lemma register_loop_restarts fd e rs (r : result unit) : let n := Z.of_nat (Z.to_nat (ring_count e)) in
  match r with
  | Ok _ => all_done (K := K) (lu_register_eventfd fd) 0 n e rs
  | Err err => undone (lu_register_eventfd fd) lu_unregister_eventfd 0 n e err rs
  end ->
  let e' := e <| rings := rs |> in
  match r with Ok _ => attached fd e e' | Err _ => detached fd e e' end.
Proof using Type.
  cbv zeta. destruct r as [u|err].
  - intros Hr. split.
    + split_and!; try done; intros j; [|intros Hj]; cbn; destruct (Hr j) as [Hin Hout]; [|apply Hout; lia].
      destruct (decide (0 <= j < 0 + Z.of_nat (Z.to_nat (ring_count e)))) as [Hj|Hj].
      * destruct (Hin Hj) as [_ ->]. apply rekernel_with.
      * rewrite (Hout Hj). apply rekernel_refl.
    + intros j Hj. destruct (Hr j) as [Hin _]. destruct Hin as [H1 H2]; [lia|]. cbn. by rewrite H2.
  - intros (m & Hm & Hneg & _ & Hat & Hr).
    assert (forall j, (exists k, rs j = with_ring (fun _ => k) (rings e j) /\
      unlinked fd (ring (rings e j)) k) /\ (~ 0 <= j < ring_count e -> rs j = rings e j)) as H.
    { intros j. destruct (Hr j) as (Hlow & _ & Hout). split; [|intros Hj; apply Hout; lia].
      destruct (decide (j = m)) as [->|Hne].
      { rewrite Hat. eexists. split; [done|]. by constructor. }
      destruct (decide (0 <= j < m)) as [Hj|Hj].
      - destruct (Hlow Hj) as [H0 ->]. eexists. split; [done|]. by constructor.
      - rewrite Hout by lia. exists (ring (rings e j)). split; [by destruct (rings e j)|constructor]. }
    split; [split_and!; try done; intros j|intros j]; cbn; destruct (H j) as [(k & E & U) Ho]; [|done|].
    + rewrite E. apply rekernel_with.
    + rewrite E. exact U.
Qed.

Lemma attached_more fd e1 e2 e3 : attached fd e1 e2 -> restarted e2 e3 -> rings e3 = rings e2 ->
  attached fd e1 e3.
Proof using Type. intros [R H] R' E. split; [by eapply restarted_trans|]. by rewrite E. Qed.

Lemma detached_more fd e1 e2 e3 : detached fd e1 e2 -> restarted e2 e3 -> rings e3 = rings e2 ->
  detached fd e1 e3.
Proof using Type. intros [R H] R' E. split; [by eapply restarted_trans|]. by rewrite E. Qed.

(** Stage 4: the descriptor is closed again if a ring refuses it. *)
Lemma register_eventfd_restarts fd s :
  wp (register_eventfd_with_rings fd) (fun r s' =>
    tick_running (eng s') = tick_running (eng s) /\
    match r with
    | Ok _ => event_fd (eng s') = fd /\ 0 <= fd /\ os s' = os s /\
        eventfd_registered (eng s') = negb (is_thread_local (ring_select (eng s))) /\
        if is_thread_local (ring_select (eng s)) then detached fd (eng s) (eng s')
        else attached fd (eng s) (eng s')
    | Err _ => detached fd (eng s) (eng s') /\ os s' = if 0 <=? fd then os_close fd (os s) else os s
    end) s.
Proof using Type.
  unfold register_eventfd_with_rings. wp_steps. destruct (Z.ltb_spec fd 0) as [Hfd|Hfd].
  { wp_steps. split; [done|]. split; [by apply detached_same; [apply restarted_same|]|].
    by destruct (Z.leb_spec 0 fd); [lia|]. }
  cbn [eng upd_eng]. destruct (is_thread_local _) eqn:Etl;
    [change (is_thread_local (ring_select (eng s)) = true) in Etl|
     change (is_thread_local (ring_select (eng s)) = false) in Etl]; rewrite ?Etl.
  { wp_steps. split; [done|]. split_and!; try done. by apply detached_same; [apply restarted_same|]. }
  unfold register_eventfd_loop. wp_steps.
  eapply wp_mono; [apply register_loop_spec; lia|].
  intros r s' (_ & Eo & rs & Er & Hr). apply (register_loop_restarts fd _ rs r) in Hr. cbv zeta in Hr.
  rewrite <- Er in Hr. assert (restarted (eng s) (eng (upd_eng (fun e => e <| event_fd := fd |>) s))) as R
    by by apply restarted_same.
  destruct r as [[]|err]; wp_steps.
  - split; [by change (tick_running (eng s') = tick_running (eng s)); rewrite Er|].
    split; [by change (event_fd (eng s') = fd); rewrite Er|]. by split_and!.
  - split; [by change (tick_running (eng s') = tick_running (eng s)); rewrite Er|].
    rename H into Ec. apply pair_equal_spec in Ec as [_ <-].
    destruct (Z.leb_spec 0 fd); [|lia]. split; [|by change (os_close fd (os s') = os_close fd (os s)); rewrite Eo].
    destruct Hr as [R' Hr]. split; [|exact Hr]. eapply restarted_trans; [exact R|].
    eapply restarted_trans; [exact R'|]. by apply restarted_same.
Qed.

(** The label [cleanup_eventfd], on an engine that has its eventfd. *)
Lemma cleanup_eventfd_detaches fd s s1 :
  event_fd (eng s1) = fd -> 0 <= fd ->
  (if eventfd_registered (eng s1) then attached fd (eng s) (eng s1) else detached fd (eng s) (eng s1)) ->
  wp cleanup_eventfd (fun _ s' => detached fd (eng s) (eng s') /\ os s' = os_close fd (os s1) /\
    tick_running (eng s') = tick_running (eng s1)) s1.
Proof using Type.
  intros Efd H0 Hat. unfold cleanup_eventfd, close_eventfd. wp_steps. rewrite Efd.
  destruct (Z.leb_spec 0 fd); [|lia]. destruct (eventfd_registered (eng s1)); wp_steps.
  all: match goal with H : (tt, _) = (_, _) |- _ => apply pair_equal_spec in H as [_ <-] end.
  2:{ split; [|done]. exact Hat. }
  split; [|done]. destruct Hat as ((Ec & Ea & Es & Hk & Ho) & Hat). cbn [eng upd_eng].
  split; [split_and!; try done|]; cbn; rewrite ?Ec.
  - intros j. destruct (_ && _); [|apply Hk]. eapply rekernel_trans; [apply Hk|apply rekernel_with].
  - intros j Hj. destruct (Z.leb_spec 0 j), (Z.ltb_spec j (ring_count (eng s))); cbn [andb];
      try (by apply Ho); lia.
  - intros j. destruct (decide (0 <= j < ring_count (eng s))) as [Hj|Hj].
    + destruct (Z.leb_spec 0 j), (Z.ltb_spec j (ring_count (eng s))); cbn [andb]; [|lia..]. cbn.
      destruct (Hat j Hj) as [Hpos ->]. by constructor.
    + destruct (Z.leb_spec 0 j), (Z.ltb_spec j (ring_count (eng s))); cbn [andb]; [lia|..];
        rewrite Ho by done; constructor.
Qed.

(** The engine stages 4 and 5 leave. *)
Definition started (env : @create_env K) e e' : Prop :=
  restarted e e' /\ event_fd e' = ce_eventfd env /\ 0 <= ce_eventfd env /\
  eventfd_registered e' = negb (is_thread_local (ring_select e)) /\
  (adaptive_enabled e = true -> tick_running e' = true).

(** Ring [c'] is what destroying [c], taken from the eventfd, leaves. *)
Definition wound_up fd c c' : Prop :=
  exists k, unlinked fd (ring c) k /\ destroyed (with_ring (fun _ => k) c) c'.

(** Their failure: the rings are detached from the eventfd and destroyed, the
    descriptor is closed. *)
Definition stopped (env : @create_env K) s s' : Prop :=
  ring_count (eng s') = ring_count (eng s) /\ tick_running (eng s') = false /\
  os s' = (if 0 <=? ce_eventfd env then os_close (ce_eventfd env) (os s) else os s) /\
  (forall j, 0 <= j < ring_count (eng s) ->
    wound_up (ce_eventfd env) (rings (eng s) j) (rings (eng s') j)) /\
  forall j, ~ 0 <= j < ring_count (eng s) -> rings (eng s') j = rings (eng s) j.

Lemma cleanup_rings_stops fuel (env : @create_env K) (err : errno) s s1 :
  (forall j, 0 <= j < ring_count (eng s) -> idle (rings (eng s) j)) ->
  detached (ce_eventfd env) (eng s) (eng s1) -> tick_running (eng s1) = false ->
  os s1 = (if 0 <=? ce_eventfd env then os_close (ce_eventfd env) (os s) else os s) ->
  wp (cleanup_rings fuel ;; mret (@Err unit err)) (fun r s' =>
    match r with Ok _ => started env (eng s) (eng s') | Err _ => stopped env s s' end) s1.
Proof using Type.
  intros Hi ((Ec & _ & _ & Hk & Ho) & Hu) Ht Hos. apply wp_bind.
  eapply wp_mono; [apply cleanup_rings_idle|].
  { rewrite Ec. intros j Hj. unfold idle. rewrite (Hk j). by apply Hi. }
  intros _ s2 ([E2 O2] & D & H2). apply wp_ret. rewrite Ec in D, H2. split_and!.
  - by rewrite E2.
  - by rewrite E2.
  - by rewrite O2.
  - intros j Hj. exists (ring (rings (eng s1) j)). split; [apply Hu|]. rewrite <- (Hk j). by apply D.
  - intros j Hj. by rewrite H2, Ho.
Qed.

Lemma start_engine_outcome fuel (env : @create_env K) s :
  (forall j, 0 <= j < ring_count (eng s) -> idle (rings (eng s) j)) -> tick_running (eng s) = false ->
  wp (start_engine fuel env) (fun r s' =>
    match r with Ok _ => started env (eng s) (eng s') | Err _ => stopped env s s' end) s.
Proof using Type.
  intros Hidle Ht. unfold start_engine. apply wp_bind.
  eapply wp_mono; [apply register_eventfd_restarts|]. intros r s1 [Ht1 Hr].
  destruct r as [[]|e]; [|by apply cleanup_rings_stops; [|apply Hr|congruence|apply Hr]].
  destruct Hr as (Hfd & H0 & Ho & Hreg & Hat).
  assert (restarted (eng s) (eng s1)) as R by (destruct (is_thread_local _); apply Hat).
  unfold start_tick_thread. wp_steps. pose proof R as (_ & Ra & _).
  destruct (adaptive_enabled (eng s1)) eqn:Ea; cbn [negb].
  2:{ wp_steps. unfold started. split_and!; try done. congruence. }
  wp_steps. destruct (ce_pthread env =? 0); cbn [negb]; wp_steps.
  { unfold started. by split_and!. }
  eapply wp_mono; [apply (cleanup_eventfd_detaches (ce_eventfd env) s)|]; [done..| |].
  - lazymatch goal with |- if ?b then _ else _ => change b with (eventfd_registered (eng s1)) end.
    rewrite Hreg. destruct (is_thread_local _); cbn [negb].
    + eapply detached_more; [exact Hat|by apply restarted_same|done].
    + eapply attached_more; [exact Hat|by apply restarted_same|done].
  - intros _ s2 (D & O2 & T2). apply cleanup_rings_stops; [done..| |].
    + rewrite T2. done.
    + rewrite O2. destruct (Z.leb_spec 0 (ce_eventfd env)); [|lia]. change (os_close (ce_eventfd env) (os s1) = os_close (ce_eventfd env) (os s)). by rewrite Ho.
Qed.

(** ** Creation *)

(** Every stage can fail; what the earlier ones made is then given back. *)
Lemma engine_buffer_pool_outcome (env : @create_env K) p align self w τ :
  world_inv w -> vacant w p -> ce_cpus env <= 2 ^ 32 -> NoDup (ledger w) -> 0 ∉ ledger w -> typed τ w ->
  exists r w', init_engine_buffer_pool env p align self w = Some (r, w') /\
    ledger w' ≡ₚ ledger w /\
    match r with
    | Ok map => managed p τ ∅ map w' /\ live w' p
    | Err _ => world_inv w' /\ vacant w' p
    end.
Proof using Type.
  intros Hinv V Hcpu Hnd H0 Ht. unfold init_engine_buffer_pool.
  pose proof (buffer_pool_init_ok p align (ce_cpus env) w Hinv V Hcpu) as Hi.
  pose proof (fun map => created_managed p align (ce_cpus env) w τ map Hinv V Hcpu Hnd H0 Ht) as Hm.
  destruct (buffer_pool_init p align (ce_cpus env) w) as [[[]|e] w1]; cbn [fst snd] in Hm;
    destruct Hi as (E & Hf & _ & Hlen & Hi); pose proof (ev_ledger _ _ _ _ E) as Hl; cbn in Hl.
  2:{ do 2 eexists. split; [done|]. split; [by symmetry|]. split; [by split; [apply E|]|done]. }
  destruct Hi as [Hsv Hd].
  assert (live w1 p) as Hlive.
  { split; [done|]. split; [done|]. destruct V as (Hp & _ & _ & Hr & Hu & _).
    pose proof (f_equal (fun l => aget (0, 0) l p) (ev_counters _ _ _ _ E)) as Ec. unfold counters in Ec.
    cbv beta in Ec. rewrite !(aget_map (fun p => (registrations_inflight p, active_users p)) pool_zero (0, 0)) in Ec by done.
    unfold pool_at in *. rewrite Hr, Hu in Ec. by apply pair_equal_spec in Ec. }
  destruct (ce_map_ok env) eqn:E1, (ce_map_mutex env) eqn:E2; cbn [buf_size_map_init negb].
  1:{ do 2 eexists. split; [reflexivity|]. split; [by symmetry|]. split; [by apply Hm|done]. }
  all: destruct (live_destroyed w1 p self) as (w2 & Ed & D & V2); [by split; [apply E|]|by rewrite <- Hl|done|];
    cbn [buf_size_map_init negb]; rewrite Ed; do 2 eexists; (split; [reflexivity|]);
    destruct D as (Hi2 & Hl2 & _); (split; [by rewrite Hl2|done]).
Qed.

(** What a ring of the array is once it is released: a ring that was created,
    with a kernel state that no longer has the eventfd, its queue given back,
    its memory freed. *)
Definition ring_gone (o : aura_options_t) (env : @create_env K) (i : Z) c : Prop :=
  exists c0, ring_created o (ce_ring env) (ce_kernel env) i c0 /\ wound_up (ce_eventfd env) c0 c.

(** What a failed creation leaves of the engine it frees: the rings it had
    created, the first [n], are released, the rest of the array is as it was
    allocated, an eventfd, which is asked for once all rings exist, is closed,
    and no tick thread runs. *)
Definition nothing_left (o : aura_options_t) (env : @create_env K) (os0 : O) s : Prop :=
  exists n, 0 <= n <= ring_count (eng s) /\
    (forall i, 0 <= i < n -> ring_gone o env i (rings (eng s) i)) /\
    (forall i, ~ 0 <= i < n -> rings (eng s) i = ce_dead env) /\
    os s = (if (0 <? n) && (n =? ring_count (eng s)) && (0 <=? ce_eventfd env)
            then os_close (ce_eventfd env) os0 else os0) /\
    tick_running (eng s) = false.

(** What a successful creation hands over. *)
Record engine_live (o : aura_options_t) (env : @create_env K) (p : Z) (τ : Z -> Z) s
    (map : buf_size_map_t) (w : world) : Prop := {
  el_buffers : managed p τ ∅ map w /\ live w p;
  el_count : 1 <= ring_count (eng s) <= AURA_MAX_RINGS;
  el_rings : forall i, 0 <= i < ring_count (eng s) -> ring_fresh o i (rings (eng s) i);
  el_eventfd : event_fd (eng s) = ce_eventfd env /\ 0 <= ce_eventfd env /\
    eventfd_registered (eng s) = negb (is_thread_local (o_ring_select o));
  el_tick : disable_adaptive o = false -> tick_running (eng s) = true
}.

Lemma core_facts o page addr dead ok rw e0 :
  validate_and_init_engine_core o page addr dead ok rw = Ok e0 ->
  validate_and_init_engine_core (K := K) o page addr dead true 0 = Ok e0 /\
  validate_options o = true /\ e0 = engine_core o page addr dead.
Proof using Type.
  unfold validate_and_init_engine_core. destruct (validate_options o); cbn [negb]; [|done].
  destruct (negb ok); [done|]. destruct (negb (rw =? 0)); [done|]. by intros [= <-].
Qed.

Lemma created_idle o env k i c : ring_created o env k i c -> idle c.
Proof using Type.
  intros (c0 & k' & E & ->). apply ring_init_fields in E as (_ & _ & _ & _ & _ & H1 & H2 & _ & _ & _ & _ & H3 & _).
  by split.
Qed.

(** Stage 3: if a ring cannot be initialised the ones before it are destroyed. *)
Lemma init_rings_outcome fuel o env k n : forall i s, 0 <= i ->
  queue_depth (eng s) = effective_depth o ->
  (forall j, 0 <= j < i -> ring_created o env k j (rings (eng s) j)) ->
  wp (init_rings fuel o env k i n) (fun r s' =>
    match r with
    | Ok _ => True
    | Err _ => exists m, i <= m < i + Z.of_nat n /\ os s' = os s /\
        ring_count (eng s') = ring_count (eng s) /\ tick_running (eng s') = tick_running (eng s) /\
        (forall j, 0 <= j < m -> exists c, ring_created o env k j c /\ destroyed c (rings (eng s') j)) /\
        forall j, ~ 0 <= j < m -> rings (eng s') j = rings (eng s) j
    end) s.
Proof using Type.
  induction n as [|n IH]; intros i s H0 Hd Hc; cbn [init_rings]; [done|]. wp_steps. rewrite Hd.
  destruct (ring_init (env i) (effective_depth o) i (Some (ring_options o)) (k i)) as [[c|err] k'] eqn:Ei.
  - cbv zeta. wp_steps. set (s1 := upd_eng _ s). eapply wp_mono; [apply IH; [lia|done|]|].
    { intros j Hj. cbn. destruct (Z.eqb_spec j i) as [->|]; [by exists c, k'|]. apply Hc. lia. }
    intros [?|err] s'; [done|]. intros (m & Hm & Ho & En & Et & Hin & Hout).
    exists m. split; [lia|]. split_and!; try done. intros j Hj. rewrite Hout by done. cbn.
    by destruct (Z.eqb_spec j i); [lia|].
  - wp_steps. eapply wp_mono; [apply destroy_rings_idle; [lia|]|].
    { intros j Hj. eapply created_idle, Hc. lia. }
    intros _ s' ([E Ho] & D & Hout). wp_steps. exists i. split; [lia|]. split_and!; [done|by rewrite E..| |].
    + intros j Hj. exists (rings (eng s) j). split; [by apply Hc|]. apply D. lia.
    + intros j Hj. apply Hout. lia.
Qed.

Lemma destroyed_gone o (env : @create_env K) i c c' :
  ring_created o (ce_ring env) (ce_kernel env) i c -> destroyed c c' -> ring_gone o env i c'.
Proof using Type.
  intros Hc D. exists c. split; [done|]. exists (ring c). split; [constructor|]. by destruct c.
Qed.

Lemma engine_rings_outcome fuel o (env : @create_env K) s e0 :
  validate_options o = true -> e0 = engine_core o (ce_page_size env) (ce_addr env) (ce_dead env) ->
  eng s = e0 ->
  wp (init_engine_rings fuel o (ce_cpus env) (ce_rings_ok env) (ce_ring env) (ce_kernel env)) (fun r s' =>
    match r with
    | Ok _ => os s' = os s /\ ring_count (eng s') = rings_wanted o (ce_cpus env) /\
        adaptive_enabled (eng s') = negb (disable_adaptive o) /\ tick_running (eng s') = false /\
        (forall i, 0 <= i < ring_count (eng s') ->
          ring_created o (ce_ring env) (ce_kernel env) i (rings (eng s') i)) /\
        forall i, ~ 0 <= i < ring_count (eng s') -> rings (eng s') i = ce_dead env
    | Err _ => nothing_left o env (os s) s'
    end) s.
Proof using Type.
  intros Hv He Es. pose proof (rings_wanted_range o (ce_cpus env) Hv) as Hn.
  unfold init_engine_rings. wp_steps. set (s1 := upd_eng _ s).
  assert (eng s1 = (engine_core o (ce_page_size env) (ce_addr env) (ce_dead env))
    <| ring_count := rings_wanted o (ce_cpus env) |>) as E1 by (by subst s1; cbn; rewrite Es, He).
  assert (os s1 = os s) as O1 by done. clearbody s1. rewrite <- O1. clear O1.
  destruct (ce_rings_ok env); cbn [negb].
  2:{ wp_steps. exists 0. rewrite E1. split_and!; [cbn; lia|cbn; lia|lia|done|done|done]. }
  wp_steps. assert (queue_depth (eng s1) = effective_depth o) as Hd by by rewrite E1.
  destruct (wp_run _ _ _ (init_rings_outcome fuel o (ce_ring env) (ce_kernel env)
    (Z.to_nat (rings_wanted o (ce_cpus env))) 0 s1 ltac:(lia) Hd ltac:(lia))) as (r & s2 & Er & Hr).
  apply (wp_of_run _ _ _ _ _ Er). destruct r as [[]|err]; wp_steps.
  - apply init_rings_spec in Er as ((rs & sq & E2) & Hout & Hin); [|done]. rewrite E2 in Hout, Hin |- *.
    rewrite E1 in Hout. cbn in Hout, Hin. cbn. rewrite E1. cbn. split_and!; try done.
    + intros i Hi. apply Hin. lia.
    + intros i Hi. apply Hout. lia.
  - destruct Hr as (m & Hm & Ho & En & Et & Hin & Hout). rewrite E1 in En, Et, Hout. cbn in En, Et, Hout.
    exists m. rewrite En. split_and!; [lia|lia| |done| |done].
    + intros i Hi. destruct (Hin i Hi) as (c & Hc & D). by eapply destroyed_gone.
    + rewrite Ho. destruct (Z.eqb_spec m (rings_wanted o (ce_cpus env))); [lia|]. by rewrite andb_false_r.
Qed.

(** C40. Creating an engine always returns, and it is all or nothing. Wherever
    a stage fails (options, memory, lock, pool, map, a ring, the eventfd or
    its registration, the tick thread), the error paths give back what the
    earlier stages made. Every ring that was created ends destroyed, without
    waiting: not initialised, its kernel queue released, its request memory
    freed, and no longer attached to the eventfd; the rest of the array is
    untouched, the eventfd, if it was opened, is closed, and no tick thread
    runs. The pool's memory is vacant again, and no buffer was taken from the
    allocator. On success the engine has between 1 and 1024 fresh rings,
    a pool and a map in which no client holds anything, an eventfd that is
    registered with the rings except in THREAD_LOCAL mode, and a running tick
    thread unless adaptation is disabled. The world before is one in which the
    pool's place is vacant, the sizes are recorded, and at most 2^32
    processors are reported. *)
Theorem create_all_or_nothing fuel (env : @create_env K) options t (o : O) p self w τ :
  world_inv w -> vacant w p -> ce_cpus env <= 2 ^ 32 -> NoDup (ledger w) -> 0 ∉ ledger w -> typed τ w ->
  let opts := default (aura_options_init (ce_page_size env)) options in
  exists r w', aura_create_with_options fuel env options t o p self w = Some (r, w') /\
    ledger w' ≡ₚ ledger w /\
    match r with
    | Created s map => engine_live opts env p τ s map w'
    | Failed _ None => w' = w
    | Failed _ (Some s) => nothing_left opts env o s /\ world_inv w' /\ vacant w' p
    end.
Proof using Type.
  intros Hinv V Hcpu Hnd H0 Ht. unfold aura_create_with_options. set (opts := default _ options). cbv zeta.
  destruct (validate_and_init_engine_core _ _ _ _ _ _) as [e0|e] eqn:E0; [|by do 2 eexists].
  apply core_facts in E0 as (E0 & Hv & He). set (s0 := {| eng := e0; tls := t; os := o |}).
  destruct (engine_buffer_pool_outcome env p (buffer_alignment e0) self w τ Hinv V Hcpu Hnd H0 Ht)
    as (r & w1 & -> & Hl & Hr).
  destruct r as [map|e].
  2:{ do 2 eexists. split; [done|]. split; [done|]. split; [|done]. exists 0. subst s0 e0.
    split_and!; [cbn; lia|cbn; lia|lia|done|done|done]. }
  destruct Hr as [Hm Hlive].
  assert (forall (e : errno) s, nothing_left opts env o s ->
    exists r w', cleanup_buffer_pool e s p self w1 = Some (r, w') /\ ledger w' ≡ₚ ledger w /\
    match r with
    | Created s map => engine_live opts env p τ s map w'
    | Failed _ None => w' = w
    | Failed _ (Some s) => nothing_left opts env o s /\ world_inv w' /\ vacant w' p
    end) as Hclean.
  { intros e s Hs. destruct (live_destroyed w1 p self) as (w2 & Ed & D & V2); [apply Hm|by rewrite Hl|done|].
    unfold cleanup_buffer_pool. rewrite Ed. do 2 eexists. split; [reflexivity|].
    destruct D as (Hi & Hl2 & _). split; [by rewrite Hl2|done]. }
  destruct (wp_run _ _ _ (engine_rings_outcome fuel opts env s0 e0 Hv He eq_refl)) as (r & s1 & E1 & Hr).
  rewrite E1. destruct r as [[]|e]; [|by apply Hclean].
  destruct (created_facts _ _ _ _ _ _ _ _ _ _ _ _ E0 (eq_refl : eng s0 = e0) E1)
    as (Hn & _ & Hf & _ & _ & _ & _ & _ & _ & _ & Hsel & _).
  destruct Hr as (Ho & _ & Ead & Htick & Hc & Hdead).
  destruct (wp_run _ _ _ (start_engine_outcome fuel env s1 (fun j Hj => created_idle _ _ _ _ _ (Hc j Hj)) Htick))
    as (r & s & -> & Hs).
  destruct r as [[]|e].
  2:{ apply Hclean. destruct Hs as (En & Et & Eo & Hin & Hout). exists (ring_count (eng s1)).
    rewrite En. split_and!; [lia|lia| | | |done].
    - intros i Hi. exists (rings (eng s1) i). by split; [apply Hc|apply Hin].
    - intros i Hi. by rewrite Hout, Hdead.
    - rewrite Eo, Ho, Z.eqb_refl. destruct (Z.ltb_spec 0 (ring_count (eng s1))); [|lia]. done. }
  do 2 eexists. split; [reflexivity|]. split; [done|].
  destruct Hs as ((Rc & _ & _ & Rk & _) & Hfd & Hfd0 & Hreg & Htr).
  split; [done|by rewrite Rc| |by rewrite <- Hsel|].
  - intros i Hi. rewrite Rc in Hi. by eapply rekernel_fresh; [apply Rk|apply Hf].
  - intros Hd. apply Htr. by rewrite Ead, Hd.
Qed.
End Starting.

(** ** The deadlines of the tick thread *)

Definition nanoseconds (t : timespec) : Z := tv_sec t * NSEC + tv_nsec t.
Definition normal (t : timespec) : Prop := 0 <= tv_nsec t < NSEC.

Lemma next_tick_deadline t : normal t ->
  normal (next_tick t) /\ nanoseconds (next_tick t) = nanoseconds t + 10 * 1000000.
Proof.
  unfold normal, nanoseconds, next_tick, carry_nsec, TICK_INTERVAL_MS, NSEC. cbn [tv_sec tv_nsec]. intros H.
  destruct (Z.leb_spec 1000000000 (tv_nsec t + 10 * 1000000)); cbn [tv_sec tv_nsec]; lia.
Qed.

(** The deadlines do not drift: the [i]-th sleep ends [i + 1] intervals after
    the start, however long the rounds between them take. *)
Lemma deadlines_do_not_drift {K O} {L : Liburing K} {LR : LiburingReg K} {OS : EngineOs O}
    {UC : UserCallbacks (estate K O)} clocks n : forall t (s : estate K O) ts s',
  normal t -> tick_thread_func clocks n t s = Some (ts, s') ->
  forall i d, ts !! i = Some d -> normal d /\ nanoseconds d = nanoseconds t + (Z.of_nat i + 1) * 10000000.
Proof.
  induction n as [|n IH]; intros t s ts s' Hn E i d Hd; cbn [tick_thread_func] in E.
  { injection E as <- <-. by rewrite lookup_nil in Hd. }
  unfold mbind, eng_get, mget in E. destruct (negb _); [injection E as <- <-; by rewrite lookup_nil in Hd|].
  cbv beta zeta in E. destruct (next_tick_deadline t Hn) as [Hn' Ed].
  destruct (tick_round (clocks n) s) as [[u s1]|]; [|done].
  destruct (tick_thread_func clocks n (next_tick t) s1) as [[ts1 s2]|] eqn:E1; [|done].
  injection E as <- <-. destruct i as [|i]; cbn [lookup list_lookup] in Hd.
  - injection Hd as <-. split; [done|]. change (Z.of_nat 0) with 0. lia.
  - destruct (IH _ _ _ _ Hn' E1 i d Hd) as [Hd1 Hd2]. split; [done|]. lia.
Qed.

(** ** A created engine *)

Import EngineDemo.

(** The default options; [ret] is the answer of [pthread_create]. *)
Definition demo_env (dead : ring_ctx_t kernel) (ret : Z) : @create_env kernel := {|
  ce_page_size := 4096; ce_cpus := 4; ce_addr := 640; ce_dead := dead; ce_engine_ok := true;
  ce_rwlock := 0; ce_map_ok := true; ce_map_mutex := true; ce_rings_ok := true;
  ce_ring := fun _ => Demo.env0; ce_kernel := fun _ => kernel0 4; ce_eventfd := 9; ce_pthread := ret
|}.

Abbreviation demo_create dead ret :=
  (aura_create_with_options 9 (demo_env dead ret) None tls0 {| cpu := 0; tid := 77; now := 0 |} 0 0 demo_blank).

Definition is_created (r : option (@creation kernel sys * world)) : bool :=
  match r with Some (Created _ _, _) => true | _ => false end.
Definition is_failed (r : option (@creation kernel sys * world)) : bool :=
  match r with Some (Failed _ (Some _), _) => true | _ => false end.

(** With a tick thread the creation succeeds, without one it fails. *)
Definition demo_outcomes : bool :=
  match ring_init Demo.env0 8 0 None (kernel0 0) with
  | (Ok dead, _) => is_created (demo_create dead 0) && is_failed (demo_create dead 11)
  | _ => false
  end.

Lemma create_all_or_nothing_witness :
  exists dead s1 map w1 e s2 w2,
    demo_create dead 0 = Some (Created s1 map, w1) /\ managed 0 (fun _ => 0) ∅ map w1 /\
    event_fd (eng s1) = 9 /\
    demo_create dead 11 = Some (Failed e (Some s2), w2) /\ vacant w2 0 /\
    nothing_left (aura_options_init 4096) (demo_env dead 11) {| cpu := 0; tid := 77; now := 0 |} s2.
Proof.
  destruct BufPoolRun.demo_start as [Hinv H0]. destruct demo_blank_once as [Hnd Hl].
  pose proof (blank_vacant 1 2 demo_heap (replicate 20 (Ok tt)) 0 ltac:(lia)) as V.
  assert (typed (fun _ => 0) demo_blank) as Hty by (intros k' b H'; by apply Hl in H').
  assert (4 <= 2 ^ 32) as Hcpu by lia.
  assert (demo_outcomes = true) as H by by vm_compute. unfold demo_outcomes in H.
  destruct (ring_init Demo.env0 8 0 None (kernel0 0)) as [[dead|] k]; [|discriminate].
  pose proof (fun ret => create_all_or_nothing 9 (demo_env dead ret) None tls0
    {| cpu := 0; tid := 77; now := 0 |} 0 0 demo_blank (fun _ => 0) Hinv V Hcpu Hnd H0 Hty) as Hcreate.
  apply andb_prop in H as [H1 H2].
  destruct (Hcreate 0) as (r1 & w1 & E1 & _ & Hr1). rewrite E1 in H1.
  destruct (Hcreate 11) as (r2 & w2 & E2 & _ & Hr2). rewrite E2 in H2.
  destruct r1 as [s1 map|]; [|discriminate H1]. clear H1.
  destruct r2 as [|e [s2|]]; [discriminate H2| |discriminate H2]. clear H2.
  exists dead, s1, map, w1, e, s2, w2. split_and!; [exact E1|apply (el_buffers _ _ _ _ _ _ _ Hr1)| |exact E2| |].
  - apply (el_eventfd _ _ _ _ _ _ _ Hr1).
  - apply Hr2.
  - apply Hr2.
Defined.
