(* ===== verification/EngineSubmit.v ===== *)
(** * Submissions leave nothing behind

    Every entry point of [EngineOps] that does not name a registered buffer,
    in the modes where rings are shared: a submission that fails leaves the
    rings, the locks and the registration lock as they were, and one that
    succeeds holds exactly one slot of one ring, with the caller's callback. *)
From Stdlib Require Import ZArith Lia List.
From stdpp Require Import base tactics list.
From S2P Require Import Prelude Double Histogram Controller Ring RingCq RingSpec RingTheorems SubmitSpec Engine EngineOps EngineWp EngineDemo EngineSelect EngineInitSpec.

#[local] Open Scope Z_scope.
#[local] Open Scope op_scope.

Section Submit.
Context {K O : Type} {L : Liburing K} {LR : LiburingReg K} {OS : EngineOs O}.
Abbreviation S := (estate K O).
Context {UC : UserCallbacks S}.
Variable fuel : nat.
Implicit Types (s : S) (e : engine_t K).

(** ** What a submission may change *)

(** Only ring [i], the fatal error, the round-robin counter and the spill count
    of the engine; of the thread, nothing that links requests. *)
Definition frame (i : Z) s s' : Prop :=
  (exists rs f n m, eng s' = (eng s) <| rings := rs |> <| fatal_submit_errno := f |>
      <| next_ring := n |> <| adaptive_spills := m |>) /\
  (forall j, j <> i -> rings (eng s') j = rings (eng s) j) /\
  tls_link_ring (tls s') = tls_link_ring (tls s).

Lemma frame_refl i s : frame i s s.
Proof.
  split; [|by split].
  exists (rings (eng s)), (fatal_submit_errno (eng s)), (next_ring (eng s)), (adaptive_spills (eng s)).
  by destruct s as [[] ? ?].
Qed.

Lemma frame_trans i s s1 s2 : frame i s s1 -> frame i s1 s2 -> frame i s s2.
Proof.
  intros ((rs & f & n & m & E) & Ho & Hl) ((rs' & f' & n' & m' & E') & Ho' & Hl').
  split; [|split].
  - exists rs', f', n', m'. rewrite E', E. done.
  - intros j Hj. by rewrite Ho', Ho.
  - by rewrite Hl'.
Qed.

Lemma frame_put i c s : frame i s (put_ring i c s).
Proof.
  split; [|split; [|done]].
  - exists (rings (eng (put_ring i c s))), (fatal_submit_errno (eng s)), (next_ring (eng s)),
      (adaptive_spills (eng s)). by destruct s as [[] ? ?].
  - intros j Hj. by apply rings_put_ne.
Qed.

Lemma frame_thr i t s s' : frame i s s' -> frame i s (put_thr t s').
Proof. by intros (H1 & H2 & H3). Qed.

Lemma frame_same_eng i s s1 s2 :
  frame i s s1 -> eng s2 = eng s1 -> tls_link_ring (tls s2) = tls_link_ring (tls s1) -> frame i s s2.
Proof. intros (H1 & H2 & H3) E El. split; [by rewrite E|]. split; [by rewrite E|congruence]. Qed.

Lemma frame_fatal i s f s' :
  eng s' = (eng s) <| fatal_submit_errno := f |> -> tls_link_ring (tls s') = tls_link_ring (tls s) ->
  frame i s s'.
Proof.
  intros E El. split; [|split; [by rewrite E|done]].
  exists (rings (eng s)), f, (next_ring (eng s)), (adaptive_spills (eng s)).
  rewrite E. by destruct s as [[] ? ?].
Qed.

(** The shared modes: two rings or more, none of them owned by a thread. *)
Definition shared_rings s : Prop :=
  2 <= ring_count (eng s) <= INT_MAX /\ is_thread_local (ring_select (eng s)) = false /\
  tls_link_ring (tls s) = None.

(** Selecting a ring changes no ring. *)
Lemma frame_selected i s s' : same_rings s s' -> frame i s s'.
Proof.
  intros [[n E] El]. split; [|split; [by rewrite E|done]].
  exists (rings (eng s)), (fatal_submit_errno (eng s)), (next_ring (eng s)), n.
  rewrite E. by destruct s as [[] ? ?].
Qed.

Definition selected s (i : Z) s' : Prop :=
  0 <= i < ring_count (eng s) /\ (forall j, frame j s s') /\ rings (eng s') = rings (eng s).

Lemma selected_same s i s' : 0 <= i < ring_count (eng s) -> same_rings s s' -> selected s i s'.
Proof.
  intros Hi Hs. split; [done|]. split; [intros j; by apply frame_selected|by apply same_rings_rings].
Qed.

Lemma select_adaptive_shared s :
  2 <= ring_count (eng s) <= INT_MAX -> wp select_ring_adaptive (selected s) s.
Proof.
  intros Hn. unfold select_ring_adaptive. apply wp_bind.
  eapply wp_mono; [apply select_ring_cpu_local_spec; lia|]. intros i s1 (Hi & E & El).
  assert (same_rings s s1) as Hs by by apply same_rings_eng.
  wp_steps. rewrite E. apply wp_if; intros _; [wp_steps; by apply selected_same|].
  wp_steps. rewrite E. apply wp_if; intros _; [wp_steps; by apply selected_same|].
  eapply wp_mono; [apply spill_spec; rewrite E; lia|]. cbv beta. rewrite E.
  intros j s' ((Hj & _) & Hs' & _). apply selected_same; [done|by eapply same_rings_trans].
Qed.

Lemma select_shared s : shared_rings s -> wp submit_ring (selected s) s.
Proof.
  intros (Hn & Hm & Hl). unfold submit_ring. wp_steps. rewrite Hl. cbn [own_ring]. wp_steps.
  unfold select_ring. wp_steps. destruct (Z.eqb_spec (ring_count (eng s)) 1); [lia|]. cbn [andb].
  destruct (ring_select (eng s)); [by apply select_adaptive_shared| | |done].
  - eapply wp_mono; [apply select_ring_cpu_local_spec; lia|]. intros i s' (Hi & E & El).
    apply selected_same; [done|by apply same_rings_eng].
  - unfold fetch_next_ring. wp_steps. split; [apply Z.mod_pos_bound; lia|]. split; [|done].
    intros j. split; [|by split]. exists (rings (eng s)), (fatal_submit_errno (eng s)),
      (u32 (next_ring (eng s) + 1)), (adaptive_spills (eng s)). by destruct s as [[] ? ?].
Qed.

(** ** Beginning *)

(** A ring where nothing is left, and no other ring touched. *)
Definition untouched s s' : Prop :=
  exists i, frame i s s' /\
    (rings (eng s') i = rings (eng s) i \/ settled (rings (eng s) i) (rings (eng s') i)).

(** The engine takes submissions; and a ring has no slot left (requests that were
    completed and not yet retired still hold theirs). *)
Definition takes_submissions e : bool := (fatal_submit_errno e =? 0) && negb (e_shutting_down e).
Definition no_slot s : Prop :=
  exists i, 0 <= i < ring_count (eng s) /\ free_request_count (rings (eng s) i) = 0.

Definition begin_post s (r : result submit_ctx_t) s' : Prop :=
  match r with
  | Err err => untouched s s' /\ (takes_submissions (eng s) = true -> err = ENOMEM /\ no_slot s)
  | Ok ctx => takes_submissions (eng s) = true /\ 0 <= sc_ring ctx < ring_count (eng s) /\ frame (sc_ring ctx) s s' /\
      begun (sc_lock_st ctx) (sc_req ctx) (rings (eng s) (sc_ring ctx)) (rings (eng s') (sc_ring ctx))
  end.

Lemma begin_locked_spec i allow s :
  ring_ready (rings (eng s) i) -> 0 <= i < ring_count (eng s) ->
  wp (submit_begin_locked fuel i allow) (fun r s' =>
    match r with
    | Err err => untouched s s' /\ err = ENOMEM /\ no_slot s
    | Ok ctx => 0 <= sc_ring ctx < ring_count (eng s) /\ frame (sc_ring ctx) s s' /\
        begun (sc_lock_st ctx) (sc_req ctx) (rings (eng s) (sc_ring ctx)) (rings (eng s') (sc_ring ctx))
    end) s.
Proof.
  intros (Hinv & Hroom & Hst & _) Hi. unfold submit_begin_locked, lock_ring, can_submit. wp_steps.
  rename a into st, c into c1, H into El. rewrite rings_put_eq.
  destruct (lock_held _ _ _ Hst El) as (Hh & Hv & Hp & Hq & Hf & Ha).
  assert (ring_can_submit c1 = true) as -> by (unfold ring_can_submit in *; by rewrite Ha, Hp).
  unfold take_slot, alloc_slot, unlock_ring. wp_steps. rewrite rings_put_eq in H.
  destruct (ring_get_request c1) as [[slot c2]|] eqn:Eg;
    apply pair_equal_spec in H as [<- <-]; wp_steps.
  - split; [done|]. cbn [sc_ring sc_req sc_lock_st].
    split; [by eapply frame_trans; apply frame_put|]. rewrite rings_put_eq. by eapply get_begun.
  - split.
    2: { split; [done|]. exists i. split; [done|]. unfold ring_get_request in Eg.
         destruct (Z.eqb_spec (free_request_count c1) 0) as [E0|]; [|done].
         unfold slot_view in Hv. injection Hv as _ _ Hv _. by rewrite <- Hv. }
    exists i. split; [by eapply frame_trans; [eapply frame_trans|]; apply frame_put|].
    right. rewrite !rings_put_eq.
    assert (slot_view (ring_unlock c1 st) = slot_view c1 /\
      pending_count (ring_unlock c1 st) = pending_count c1 /\
      queued_sqes (ring_unlock c1 st) = queued_sqes c1 /\
      fixed_file_inflight (ring_unlock c1 st) = fixed_file_inflight c1) as (U1 & U2 & U3 & U4)
      by by destruct st.
    split; [done| |by rewrite (slot_view_free c1), (slot_view_free (rings (eng s) i))|congruence..|].
    + apply (ring_inv_view (rings (eng s) i)); [congruence|congruence|done].
    + intros j. f_equal. apply slot_view_req. congruence.
Qed.

Lemma begin_spec allow s :
  shared_rings s -> rings_ready (eng s) -> wp (submit_begin fuel allow) (begin_post s) s.
Proof.
  intros Hsh Hr. unfold submit_begin. wp_steps.
  assert (untouched s s) as H0 by (exists 0; split; [apply frame_refl|by left]).
  unfold begin_post, takes_submissions.
  destruct (fatal_submit_errno (eng s) =? 0); cbn [negb]; [|by wp_steps].
  destruct (e_shutting_down (eng s)); cbn [negb]; [by wp_steps|].
  apply wp_bind. eapply wp_mono; [by apply select_shared|]. intros i s1 (Hi & Hf & Er). wp_steps.
  destruct (Hf i) as ((rs & f & n & m & E) & _ & El). rewrite El.
  destruct Hsh as (Hn & Hm & ->).
  assert (ring_is_sole_owner (eng s1) i = false) as ->.
  { unfold ring_is_sole_owner. rewrite E. cbn. rewrite Hm.
    destruct (Z.eqb_spec (ring_count (eng s)) 1); [lia|]. by rewrite andb_false_r. }
  assert (ring_count (eng s1) = ring_count (eng s)) as Ec by by rewrite E.
  eapply wp_mono; [apply begin_locked_spec; [rewrite Er; by apply Hr|by rewrite Ec]|].
  unfold no_slot. intros [ctx|err] s2; rewrite ?Ec, ?Er.
  - intros (H1 & H2 & H3). split; [done|]. split; [done|]. split; [|done]. by eapply frame_trans.
  - intros ((j & Hj & H) & Hrest). split; [|done]. exists j. rewrite Er in H. split; [|done]. by eapply frame_trans.
Qed.

(** ** Filling, ending and aborting *)

(** [s1]: the submission has begun on ring [i]; the states of the ring before
    and since are [rings (eng s) i] and [rings (eng s1) i]. *)
Definition in_begun s s1 (ctx : submit_ctx_t) : Prop :=
  frame (sc_ring ctx) s s1 /\
  begun (sc_lock_st ctx) (sc_req ctx) (rings (eng s) (sc_ring ctx)) (rings (eng s1) (sc_ring ctx)).

Definition in_queued (cb ud : Z) (reg : bool) s s1 (ctx : submit_ctx_t) : Prop :=
  frame (sc_ring ctx) s s1 /\
  queued_as (sc_lock_st ctx) (sc_req ctx) cb ud reg (rings (eng s) (sc_ring ctx))
    (rings (eng s1) (sc_ring ctx)) /\
  fixed_file_inflight (rings (eng s1) (sc_ring ctx)) = fixed_file_inflight (rings (eng s) (sc_ring ctx)).

Lemma fill_spec ctx setup fn cb ud reg s s1 :
  setup_ok setup cb ud reg -> submit_fn_ok fn ->
  0 <= queued_sqes (rings (eng s) (sc_ring ctx)) < INT_MAX -> in_begun s s1 ctx ->
  wp (fill_and_submit ctx setup fn) (fun r s2 =>
    match r with
    | Ok _ => in_queued cb ud reg s s2 ctx
    | Err _ => in_begun s s2 ctx
    end) s1.
Proof.
  intros Hset Hfn Hq [Hf Hb]. unfold fill_and_submit, in_queued, in_begun.
  set (i := sc_ring ctx) in *. set (slot := sc_req ctx) in *. wp_steps.
  rewrite rings_put_eq in H. set (c1 := upd_req slot setup (rings (eng s1) i)) in *.
  destruct (fill_begun _ _ _ _ _ _ _ _ Hset Hb) as [Hb1 Er].
  assert (forall c2 t, frame i s (put_thr t (put_ring i c2 (put_ring i c1 s1)))) as Hfr.
  { intros c2 t2. apply frame_thr. eapply frame_trans; [done|]. eapply frame_trans; apply frame_put. }
  assert (forall c2 t (x : S), rings (eng (put_thr t (put_ring i c2 x))) i = c2) as Hri
    by (intros; apply rings_put_eq).
  destruct (Hfn c1 (thr (tls (put_ring i c1 s1))) slot) as [[e Ee]|(op & prep & fixed & data & Eo)].
  - rewrite Ee in H. injection H as <- <- <-. split; [done|]. by rewrite Hri.
  - rewrite Eo in H. destruct a as [u|e].
    + destruct (queue_ok _ _ cb ud reg _ _ _ _ _ _ _ _ _ _ Hb1
        ltac:(rewrite Er; unfold user_view; by destruct (Hset (req_at (rings (eng s1) i) slot)) as (_ & _ & _ & -> & -> & ->))
        Hq H) as [H1 H2].
      split; [done|]. rewrite Hri. by split.
    + unfold ring_submit_op in H. destruct (submit_get_sqe c1) as [[sqe|e'] c2] eqn:Eg.
      { cbv zeta in H. apply pair_equal_spec in H as [H _]. by apply pair_equal_spec in H as [H _]. }
      apply submit_get_sqe_err in Eg as [-> _]. injection H as <- <- <-.
      split; [done|]. by rewrite Hri.
Qed.

Lemma abort_spec ctx s s1 :
  tls_link_ring (tls s) = None -> in_begun s s1 ctx ->
  wp (submit_abort ctx) (fun _ s2 => untouched s s2) s1.
Proof.
  intros Hl [Hf Hb]. unfold submit_abort, unlock_ring. wp_steps.
  change (tls_link_ring (tls (put_ring ?i ?c s1))) with (tls_link_ring (tls s1)).
  destruct (Hf) as (_ & _ & ->). rewrite Hl. wp_steps. exists (sc_ring ctx).
  split; [eapply frame_trans; [done|]; eapply frame_trans; apply frame_put|].
  right. rewrite !rings_put_eq. by apply put_settled.
Qed.

(** The ring [i] after a submission of [cb] and [ud] in [slot]. *)
Definition submitted (cb ud : Z) (reg : bool) s (i slot : Z) s' : Prop :=
  0 <= i < ring_count (eng s) /\ frame i s s' /\
  accepted slot cb ud reg (rings (eng s) i) (rings (eng s') i).

Lemma flush_latch_spec i s :
  0 <= queued_sqes (rings (eng s) i) ->
  wp (flush_and_latch i) (fun _ s' => frame i s s' /\
    let c := rings (eng s) i in let c' := rings (eng s') i in
    slot_view c' = slot_view c /\ pending_count c' = pending_count c /\ side_view c' = side_view c /\
    0 <= queued_sqes c') s.
Proof.
  intros Hq. unfold flush_and_latch, flush_ring_checked. wp_steps.
  pose proof (flush_views _ _ _ _ _ Hq H) as Hv. set (s1 := put_thr t (put_ring i c s)).
  assert (frame i s s1) as Hf by apply frame_thr, frame_put.
  assert (rings (eng s1) i = c) as Ei by apply rings_put_eq.
  destruct a as [n|err]; [wp_steps; by rewrite Ei|]. apply wp_if; intros _; wp_steps; [|by rewrite Ei].
  unfold latch_fatal_submit_errno. cbv zeta. wp_steps. apply wp_if; intros _; [wp_steps; by rewrite Ei|].
  wp_steps. apply wp_if; intros _; wp_steps; cbn -[s1]; rewrite Ei; (split; [|done]);
    (eapply frame_trans; [done|]; by eapply (frame_fatal i s1)).
Qed.

(** What [submit_end] sees after counting the registered file. *)
Definition in_counted (cb ud : Z) (reg : bool) s s1 (ctx : submit_ctx_t) : Prop :=
  frame (sc_ring ctx) s s1 /\
  queued_as (sc_lock_st ctx) (sc_req ctx) cb ud reg (rings (eng s) (sc_ring ctx))
    (rings (eng s1) (sc_ring ctx)) /\
  fixed_file_inflight (rings (eng s1) (sc_ring ctx)) =
    if reg then u32 (fixed_file_inflight (rings (eng s) (sc_ring ctx)) + 1)
    else fixed_file_inflight (rings (eng s) (sc_ring ctx)).

Lemma count_file_spec ctx cb ud reg s s1 :
  in_queued cb ud reg s s1 ctx ->
  wp (if uses_registered_file (req_at (rings (eng s1) (sc_ring ctx)) (sc_req ctx))
      then add_file_inflight (sc_ring ctx) 1 else mret tt)
     (fun _ s2 => in_counted cb ud reg s s2 ctx) s1.
Proof.
  intros (Hf & Hq & Hff). rewrite (qa_reg _ _ _ _ _ _ _ Hq). unfold in_counted, add_file_inflight.
  destruct reg; wp_steps; [|done]. rewrite rings_put_eq. cbn [fixed_file_inflight set_field set_fixed_file_inflight].
  rewrite Hff. split; [by eapply frame_trans; [|apply frame_put]|]. split; [|done].
  eapply (queued_as_view _ _ _ _ _ _ (rings (eng s1) (sc_ring ctx))); try done.
  apply (qa_queued _ _ _ _ _ _ _ Hq).
Qed.

Lemma flush_if_full_spec ctx cb ud reg (full : bool) s s1 :
  in_counted cb ud reg s s1 ctx ->
  wp (if full then flush_and_latch (sc_ring ctx) else mret tt)
     (fun _ s2 => in_counted cb ud reg s s2 ctx) s1.
Proof.
  intros (Hf & Hq & Hff). destruct full; [|by wp_steps].
  eapply wp_mono; [apply flush_latch_spec; apply (qa_queued _ _ _ _ _ _ _ Hq)|].
  intros _ s2 (Hf2 & Hv & Hp & Hs & Hq2). unfold side_view in Hs. apply pair_equal_spec in Hs as [Hs1 Hs2].
  split; [by eapply frame_trans|]. split; [|by rewrite Hs2].
  by eapply (queued_as_view _ _ _ _ _ _ (rings (eng s1) (sc_ring ctx))).
Qed.

Lemma end_spec ctx cb ud reg s s1 :
  shared_rings s -> 0 <= sc_ring ctx < ring_count (eng s) -> in_queued cb ud reg s s1 ctx ->
  wp (submit_end ctx) (fun _ s2 => submitted cb ud reg s (sc_ring ctx) (sc_req ctx) s2) s1.
Proof.
  intros (Hn & Hm & Hl) Hi Hq. unfold submit_end. wp_steps.
  eapply wp_mono; [by apply count_file_spec|]. intros [] s2 Hc.
  destruct Hc as [Hf Hc']. pose proof Hf as ((rs & f & n & m & E) & _ & El). wp_steps.
  rewrite El, Hl.
  assert (ring_is_sole_owner (eng s2) (sc_ring ctx) = false) as ->.
  { unfold ring_is_sole_owner. rewrite E. cbn. rewrite Hm.
    destruct (Z.eqb_spec (ring_count (eng s)) 1); [lia|]. by rewrite andb_false_r. }
  wp_steps. unfold should_flush, unlock_ring. wp_steps.
  eapply wp_mono; [apply flush_if_full_spec; exact (conj Hf Hc')|]. intros [] s3 (Hf3 & Hq3 & Hff3). wp_steps.
  split; [done|]. split; [eapply frame_trans; [done|]; apply frame_put|].
  rewrite rings_put_eq. by apply unlock_accepted.
Qed.

(** ** Resolving the file *)

Definition reg_held s (locked : bool) s' : Prop :=
  eng s' = (eng s) <| reg_rd := reg_rd (eng s) + (if locked then 1 else 0) |> /\ tls s' = tls s.

Lemma reg_held_0 s : reg_held s false s.
Proof. split; [|done]. rewrite Z.add_0_r. by destruct s as [[] ? ?]. Qed.

(** A submission uses a registered file when the caller names one by its index, or
    when its descriptor is in a live table. *)
Definition names_file e (flags fd : Z) : bool :=
  has_flag flags AURA_FIXED_FILE || bool_decide (is_Some (resolve_registered_file_locked e fd)).

Lemma resolve_spec (flags fd : Z) s :
  wp (if has_flag flags AURA_FIXED_FILE
      then mret {| submit_fd := fd; g_registered := true; g_locked := false |}
      else resolve_file_begin fd)
     (fun g s' => reg_held s (g_locked g) s' /\ g_registered g = names_file (eng s) flags fd) s.
Proof.
  unfold names_file. destruct (has_flag flags AURA_FIXED_FILE); cbn [orb]; [wp_steps; split; [apply reg_held_0|done]|].
  unfold resolve_file_begin, rdlock, rdunlock. wp_steps.
  destruct (files_registered (eng s)) eqn:Efr; cbn [negb].
  2: { wp_steps. split; [apply reg_held_0|]. unfold resolve_registered_file_locked. by rewrite Efr. }
  cbv zeta.
  destruct (e_single_thread (eng s)); cbn [negb]; wp_steps;
    (destruct (resolve_registered_file_locked _ _); wp_steps; (split; [|done])); try apply reg_held_0; (split; [|done]); cbn; [done|].
  rewrite Z.add_0_r. replace (reg_rd (eng s) + 1 - 1) with (reg_rd (eng s)) by lia. done.
Qed.

Lemma release_spec g i s s1 s2 :
  reg_held s (g_locked g) s1 -> frame i s1 s2 ->
  wp (resolve_file_end g) (fun _ s3 => frame i s s3 /\ rings (eng s3) = rings (eng s2)) s2.
Proof.
  intros [E1 Et1] ((rs & f & n & m & E) & Ho & El).
  assert (forall s3, tls s3 = tls s2 -> eng s3 = (eng s2) <| reg_rd := reg_rd (eng s) |> ->
    frame i s s3 /\ rings (eng s3) = rings (eng s2)) as Hfin.
  { intros s3 Et3 E3. split; [|by rewrite E3]. split; [|split].
    - exists rs, f, n, m. rewrite E3, E, E1. by destruct s as [[] ? ?].
    - intros j Hj. rewrite E3. cbn. rewrite Ho by done. by rewrite E1.
    - by rewrite Et3, El, Et1. }
  unfold resolve_file_end, rdunlock. destruct (g_locked g); wp_steps; apply Hfin; try done.
  - unfold upd_eng. cbn. rewrite E, E1. cbn. by replace (reg_rd (eng s) + 1 - 1) with (reg_rd (eng s)) by lia.
  - rewrite E, E1. cbn. by rewrite Z.add_0_r.
Qed.

(** ** A whole submission *)

(** Fields the operations set beside the common ones. *)
Definition extra_ok (setup : aura_request_t -> aura_request_t) : Prop :=
  forall r, let r' := setup r in
    (in_pool r', op_idx r', pending r', Ring.callback r', Ring.user_data r', uses_registered_file r') =
    (in_pool r, op_idx r, pending r, Ring.callback r, Ring.user_data r, uses_registered_file r).

Lemma common_setup_ok setup ri sfd fd cb ud reg :
  extra_ok setup -> setup_ok (fun q => setup (set_common ri sfd fd cb ud reg q)) cb ud reg.
Proof.
  intros H r. cbv zeta. specialize (H (set_common ri sfd fd cb ud reg r)). cbv zeta in H.
  injection H as H1 H2 H3 H4 H5 H6. by rewrite H1, H2, H3, H4, H5, H6.
Qed.

(** The outcome of a submission of callback [cb] with user data [ud]. *)
Definition clean (reg : bool) (cb ud : Z) s (r : result request_ref) s' : Prop :=
  match r with
  | Err _ => untouched s s'
  | Ok req => submitted cb ud reg s (rq_ring req) (rq_slot req) s'
  end.

Lemma reg_held_ready s b s1 : reg_held s b s1 ->
  shared_rings s -> rings_ready (eng s) ->
  shared_rings s1 /\ rings_ready (eng s1) /\ ring_count (eng s1) = ring_count (eng s) /\
  rings (eng s1) = rings (eng s).
Proof.
  intros [E Et] (H1 & H2 & H3) Hr. unfold shared_rings, rings_ready. rewrite Et, E.
  split; [by repeat split; try apply H1|]. split; [exact Hr|]. done.
Qed.

(** From a begun submission to its end, whatever follows. *)
Lemma run_begun {R} ctx setup fn cb ud reg s s1 (kerr : errno -> M S R) (kok : M S R) Q :
  setup_ok setup cb ud reg -> submit_fn_ok fn -> shared_rings s -> rings_ready (eng s) ->
  0 <= sc_ring ctx < ring_count (eng s) -> in_begun s s1 ctx ->
  (forall err s2, untouched s s2 -> wp (kerr err) Q s2) ->
  (forall s2, submitted cb ud reg s (sc_ring ctx) (sc_req ctx) s2 -> wp kok Q s2) ->
  wp (fill_and_submit ctx setup fn) (fun r s2 =>
    wp (match r with
        | Err err => submit_abort ctx ;; kerr err
        | Ok _ => submit_end ctx ;; kok
        end) Q s2) s1.
Proof.
  intros Hset Hfn Hsh Hr Hi Hb Hke Hko.
  destruct (Hr (sc_ring ctx) Hi) as (_ & _ & _ & Hq).
  eapply wp_mono; [by apply (fill_spec ctx setup fn cb ud reg s s1)|]. intros [u|err] s2 H; wp_steps.
  - eapply wp_mono; [by apply end_spec|]. intros [] s3 H3. by apply Hko.
  - destruct Hsh as (_ & _ & Hl).
    eapply wp_mono; [by apply (abort_spec ctx s s2)|]. intros [] s3 H3. by apply Hke.
Qed.

Lemma release_untouched {R} g s s1 s2 (r : R) (Q : R -> S -> Prop) :
  reg_held s (g_locked g) s1 -> rings (eng s1) = rings (eng s) -> untouched s1 s2 ->
  (forall s3, untouched s s3 -> Q r s3) -> wp (resolve_file_end g ;; mret r) Q s2.
Proof.
  intros Hg Er (i & Hf & Hu) HQ. wp_steps. eapply wp_mono; [by apply (release_spec g i s s1 s2)|].
  intros [] s3 [Hf3 E3]. wp_steps. apply HQ. exists i. split; [done|]. by rewrite E3, <- Er.
Qed.

Lemma submit_resolved_spec fd flags cb ud setup fn s :
  extra_ok setup -> submit_fn_ok fn -> shared_rings s -> rings_ready (eng s) ->
  wp (submit_resolved fuel fd flags cb ud setup fn) (clean (names_file (eng s) flags fd) cb ud s) s.
Proof.
  intros Hset Hfn Hsh Hr. unfold submit_resolved. wp_steps. apply wp_if; intros _.
  { wp_steps. exists 0. split; [apply frame_refl|by left]. }
  wp_steps. eapply wp_mono; [apply resolve_spec|]. intros g s1 [Hg <-]. wp_steps.
  destruct (reg_held_ready _ _ _ Hg Hsh Hr) as (Hsh1 & Hr1 & Hc1 & Er1).
  eapply wp_mono; [by apply begin_spec|]. intros [ctx|err] s2.
  - intros (_ & Hi & Hf & Hb). wp_steps.
    apply (run_begun ctx _ fn cb ud (g_registered g) s1 s2); try done; [by apply common_setup_ok|..].
    + intros err s3 Hu. by apply (release_untouched g s s1 s3).
    + intros s3 (_ & Hf3 & Ha). wp_steps.
      eapply wp_mono; [by apply (release_spec g (sc_ring ctx) s s1 s3)|]. intros [] s4 [Hf4 E4].
      wp_steps. split; [by rewrite <- Hc1|]. split; [done|]. cbn.
      by rewrite E4, <- Er1.
  - intros [Hu _]. by apply (release_untouched g s s1 s2).
Qed.

Lemma submit_plain_spec fd cb ud setup fn s :
  extra_ok setup -> submit_fn_ok fn -> shared_rings s -> rings_ready (eng s) ->
  wp (submit_plain fuel fd cb ud setup fn) (clean false cb ud s) s.
Proof.
  intros Hset Hfn Hsh Hr. unfold submit_plain. wp_steps.
  eapply wp_mono; [by apply begin_spec|]. intros [ctx|err] s2.
  2: { intros [Hu _]. by wp_steps. }
  intros (_ & Hi & Hf & Hb). wp_steps.
  apply (run_begun ctx _ fn cb ud false s s2); try done; [by apply common_setup_ok|..].
Qed.

(** ** The entry points *)

(** A call of the API that submits an operation without a registered buffer. *)
Inductive api_call :=
  | call_read (fd ptr len offset flags : Z)
  | call_write (fd ptr len offset flags : Z)
  | call_readv (fd iov iovcnt offset flags : Z)
  | call_writev (fd iov iovcnt offset flags : Z)
  | call_fsync (fd fsync_flags flags : Z)
  | call_openat (dirfd pathname open_flags mode flags : Z)
  | call_close (fd flags : Z)
  | call_statx (dirfd pathname statx_flags mask statxbuf flags : Z)
  | call_fallocate (fd mode offset len flags : Z)
  | call_ftruncate (have : bool) (fd length flags : Z)
  | call_sync_file_range (fd offset nbytes range_flags flags : Z).

Definition run_call (call : api_call) (cb ud : Z) : M S (result request_ref) :=
  match call with
  | call_read fd ptr len off flags => aura_read fuel fd (AURA_BUF_UNREGISTERED ptr) len off flags cb ud
  | call_write fd ptr len off flags => aura_write fuel fd (AURA_BUF_UNREGISTERED ptr) len off flags cb ud
  | call_readv fd iov cnt off flags => aura_readv fuel fd iov cnt off flags cb ud
  | call_writev fd iov cnt off flags => aura_writev fuel fd iov cnt off flags cb ud
  | call_fsync fd ff flags => aura_fsync fuel fd ff flags cb ud
  | call_openat d p f m flags => aura_openat fuel d p f m flags cb ud
  | call_close fd flags => aura_close fuel fd flags cb ud
  | call_statx d p sf m b flags => aura_statx fuel d p sf m b flags cb ud
  | call_fallocate fd m off len flags => aura_fallocate fuel fd m off len flags cb ud
  | call_ftruncate h fd len flags => aura_ftruncate fuel h fd len flags cb ud
  | call_sync_file_range fd off n rf flags => aura_sync_file_range fuel fd off n rf flags cb ud
  end.

(** The calls that take a descriptor to read, write or sync can use a registered
    file; those that name a directory or close a descriptor cannot. *)
Definition uses_file e (call : api_call) : bool :=
  match call with
  | call_read fd _ _ _ flags | call_write fd _ _ _ flags | call_readv fd _ _ _ flags
  | call_writev fd _ _ _ flags | call_fsync fd _ flags | call_fallocate fd _ _ _ flags
  | call_ftruncate _ fd _ flags | call_sync_file_range fd _ _ _ flags => names_file e flags fd
  | call_openat _ _ _ _ _ | call_close _ _ | call_statx _ _ _ _ _ _ => false
  end.

(** C34. Submitting leaves nothing behind. With two rings or more, in the modes
    that share them, outside a chain of linked requests ([shared_rings]), and
    when no ring is at its limit ([rings_ready]), every call that submits an
    operation returns. If it fails, no request slot, no lock of a ring, no
    in-flight count and not the registration lock is left taken, whatever step
    failed (arguments, file resolution, slot, submission entry). If it succeeds,
    the request returned is a slot that was free, now pending with the caller's
    callback and data; the ring's in-flight count is one more, its locks are
    released, every other request and ring is untouched, and the ring counts one
    more registered file in flight if the caller passed AURA_FIXED_FILE or its
    descriptor is in a live table ([uses_file]), and none otherwise. *)
Theorem submission_leaves_nothing call cb ud s :
  shared_rings s -> rings_ready (eng s) -> wp (run_call call cb ud) (clean (uses_file (eng s) call) cb ud s) s.
Proof.
  intros Hsh Hr.
  assert (forall (err : errno) reg, clean reg cb ud s (Err err) s) as Herr
    by (intros err reg; exists 0; split; [apply frame_refl|by left]).
  destruct call; cbn [run_call uses_file];
    unfold aura_read, aura_write, aura_readv, aura_writev, submit_vectored, submit_io_generic, aura_fsync,
      aura_openat, aura_close, aura_statx, aura_fallocate, aura_ftruncate, aura_sync_file_range;
    repeat lazymatch goal with
    | |- wp (if _ then _ else _) _ _ => apply wp_if; intros _; [wp_steps; apply Herr|]
    end;
    try unfold submit_unregistered_io;
    lazymatch goal with
    | |- wp (submit_resolved _ _ _ _ _ _ _) _ _ => apply submit_resolved_spec
    | |- _ => apply submit_plain_spec
    end; try done;
    try (destruct (has_flag _ _)); auto with submit_db.
Qed.

(** ** Submissions on a registered buffer *)

(** [c] with one more operation on a registered buffer in flight. *)
Definition one_more_buf (c : ring_ctx_t K) : ring_ctx_t K :=
  c <| fixed_buf_inflight := u32 (fixed_buf_inflight c + 1) |>.

Lemma begun_buf st slot (c c1 : ring_ctx_t K) n :
  begun st slot c c1 ->
  begun st slot (c <| fixed_buf_inflight := n |>) (c1 <| fixed_buf_inflight := n |>).
Proof.
  intros [B1 B2 B3 B4 B5 B6 B7 B8 B9 B10 B11]. split; try done.
  - unfold held, lock_view, ring_unlock in *. destruct st; cbn in *; by injection B1 as -> -> -> -> -> ->.
  - by apply (ring_inv_view c1).
Qed.

Lemma begun_fixed_buf st slot (c c1 : ring_ctx_t K) :
  begun st slot c c1 -> fixed_buf_inflight c1 = fixed_buf_inflight c.
Proof.
  intros [B1 _ _ _ _ _ _ _ _ _ _]. unfold held, lock_view, ring_unlock in B1.
  destruct st; cbn in B1; by injection B1.
Qed.

Lemma release_single e : @rdunlock_unless_single K O e =
  resolve_file_end {| submit_fd := 0; g_registered := false; g_locked := negb (e_single_thread e) |}.
Proof. unfold rdunlock_unless_single, resolve_file_end. by destruct (e_single_thread e). Qed.

Lemma hold_single s :
  wp (rd_unless_single (eng s)) (fun _ s' => reg_held s (negb (e_single_thread (eng s))) s') s.
Proof.
  unfold rd_unless_single, rdlock. destruct (e_single_thread (eng s)); wp_steps; [apply reg_held_0|].
  by split.
Qed.

(** The outcome of a submission on a registered buffer: as [clean], with the
    operation counted on the ring, or a slot and the lock of a ring lost. *)
Definition clean_reg (reg : bool) (cb ud : Z) s (r : result request_ref) s' : Prop :=
  match r with
  | Err _ => untouched s s'
  | Ok req => 0 <= rq_ring req < ring_count (eng s) /\ frame (rq_ring req) s s' /\
      accepted (rq_slot req) cb ud reg (one_more_buf (rings (eng s) (rq_ring req)))
        (rings (eng s') (rq_ring req))
  end.

Definition leaked s s' : Prop :=
  exists i slot st, 0 <= i < ring_count (eng s) /\ frame i s s' /\
    begun st slot (rings (eng s) i) (rings (eng s') i).

(** Counting the buffer, filling and queuing, undone on failure. *)
Lemma run_registered {R} ctx setup fn cb ud reg s s1 (kerr : errno -> M S R) (kok : M S R) Q :
  setup_ok setup cb ud reg -> submit_fn_ok fn -> shared_rings s -> rings_ready (eng s) ->
  0 <= fixed_buf_inflight (rings (eng s) (sc_ring ctx)) <= UINT_MAX ->
  0 <= sc_ring ctx < ring_count (eng s) -> in_begun s s1 ctx ->
  (forall err s2, untouched s s2 -> wp (kerr err) Q s2) ->
  (forall s2, frame (sc_ring ctx) s s2 ->
     accepted (sc_req ctx) cb ud reg (one_more_buf (rings (eng s) (sc_ring ctx)))
       (rings (eng s2) (sc_ring ctx)) -> wp kok Q s2) ->
  wp (add_buf_inflight (sc_ring ctx) 1) (fun _ s2 =>
    wp (let* r := fill_and_submit ctx setup fn in
        match r with
        | Err err => add_buf_inflight (sc_ring ctx) (-1) ;; submit_abort ctx ;; kerr err
        | Ok _ => submit_end ctx ;; kok
        end) Q s2) s1.
Proof.
  intros Hset Hfn Hsh Hr Hfb Hi [Hf Hb] Hke Hko. set (i := sc_ring ctx) in *.
  pose proof (begun_fixed_buf _ _ _ _ Hb) as Eb. unfold add_buf_inflight. wp_steps. rewrite Eb.
  set (n := u32 (fixed_buf_inflight (rings (eng s) i) + 1)).
  set (sb := put_ring i (one_more_buf (rings (eng s) i)) s).
  assert (frame i s sb) as Hsb by apply frame_put.
  assert (rings (eng sb) i = one_more_buf (rings (eng s) i)) as Ei by apply rings_put_eq.
  assert (in_begun sb (put_ring i ((rings (eng s1) i) <| fixed_buf_inflight := n |>) s1) ctx) as Hin.
  { split; [|fold i; rewrite rings_put_eq, Ei; by apply begun_buf].
    destruct Hf as ((rs & f & q & m & E) & Ho & El). split; [|split; [|done]].
    - set (s2 := put_ring i _ s1). exists (rings (eng s2)), f, q, m.
      change (eng s2) with ((eng s1) <| rings := rings (eng s2) |>) at 1.
      generalize (rings (eng s2)). intros R2. rewrite E. reflexivity.
    - fold i. intros j Hj. unfold sb. rewrite !rings_put_ne by done. by apply Ho. }
  destruct (Hr i Hi) as (_ & _ & _ & Hq).
  eapply wp_mono; [apply (fill_spec ctx setup fn cb ud reg sb); try done; fold i; by rewrite Ei|].
  intros [u|err] s2 H; wp_steps.
  - eapply wp_mono; [apply (end_spec ctx cb ud reg sb); done|]. intros [] s3 (_ & H3 & Ha).
    fold i in H3, Ha. rewrite Ei in Ha. apply Hko; [by eapply frame_trans|done].
  - destruct H as [Hf2 Hb2]. fold i in Hf2, Hb2. rewrite Ei in Hb2.
    pose proof (begun_fixed_buf _ _ _ _ Hb2) as Eb2. rewrite Eb2. cbn [fixed_buf_inflight one_more_buf set_field set_fixed_buf_inflight].
    assert (u32 (u32 (fixed_buf_inflight (rings (eng s) i) + 1) + -1) = fixed_buf_inflight (rings (eng s) i)) as ->.
    { unfold u32, wrap_u. rewrite Zplus_mod_idemp_l.
      replace (fixed_buf_inflight (rings (eng s) i) + 1 + -1) with (fixed_buf_inflight (rings (eng s) i)) by lia.
      apply Z.mod_small. unfold UINT_MAX in *. lia. }
    apply (begun_buf _ _ _ _ (fixed_buf_inflight (rings (eng s) i))) in Hb2.
    destruct Hsh as (_ & _ & Hl).
    eapply wp_mono; [apply (abort_spec ctx s); [done|]|intros [] s3 H3; by apply Hke].
    split; fold i; [by eapply frame_trans; [|eapply frame_trans; [|apply frame_put]]|].
    rewrite rings_put_eq.
    assert ((one_more_buf (rings (eng s) i)) <| fixed_buf_inflight := fixed_buf_inflight (rings (eng s) i) |>
      = rings (eng s) i) as E by (by destruct (rings (eng s) i)).
    by rewrite E in Hb2.
Qed.

Lemma release_with {R} s s1 s2 (i : Z) (r : R) (Q : R -> S -> Prop) :
  reg_held s (negb (e_single_thread (eng s))) s1 -> frame i s1 s2 ->
  (forall s3, frame i s s3 -> rings (eng s3) = rings (eng s2) -> Q r s3) ->
  wp (rdunlock_unless_single (eng s1) ;; mret r) Q s2.
Proof.
  intros Hg Hf HQ. wp_steps. rewrite release_single.
  assert (e_single_thread (eng s1) = e_single_thread (eng s)) as -> by (by destruct Hg as [-> _]).
  eapply wp_mono; [by eapply (release_spec _ i s s1)|]. intros [] s3 [Hf3 E3]. wp_steps. by apply HQ.
Qed.

(** The flag and index that [submit_registered_buffer_io] rejects late. *)
Definition rejected_late e (flags fd : Z) : bool :=
  has_flag flags AURA_FIXED_FILE && negb (validate_fixed_file e fd).

(** The exception: [begun] says whether a request is begun at all. *)
Definition late_outcome (begun : bool) s (r : result request_ref) s' : Prop :=
  if begun
  then (r = Err EINVAL /\ leaked s s') \/ (r = Err ENOMEM /\ untouched s s' /\ no_slot s)
  else (exists err, r = Err err) /\ untouched s s'.

Lemma registered_buffer_io_spec fd reg index boff len offset flags cb ud fn s s1 :
  submit_fn_ok fn -> shared_rings s -> rings_ready (eng s) ->
  (forall i, 0 <= i < ring_count (eng s) -> 0 <= fixed_buf_inflight (rings (eng s) i) <= UINT_MAX) ->
  reg_held s (negb (e_single_thread (eng s))) s1 ->
  wp (submit_registered_buffer_io fuel fd reg index boff len offset flags cb ud fn) (fun r s' =>
    if rejected_late (eng s) flags fd then late_outcome (takes_submissions (eng s)) s r s'
    else clean_reg (names_file (eng s) flags fd) cb ud s r s') s1.
Proof.
  intros Hfn Hsh Hr Hfb Hg. unfold submit_registered_buffer_io. wp_steps.
  destruct (reg_held_ready _ _ _ Hg Hsh Hr) as (Hsh1 & Hr1 & Hc1 & Er1).
  assert (takes_submissions (eng s1) = takes_submissions (eng s)) as Et by (by destruct Hg as [-> _]).
  eapply wp_mono; [by apply begin_spec|]. intros [ctx|err] s2.
  2: { intros [(i & Hf & Hu) Hwhy]. eapply (release_with s s1 s2 i); [done|done|]. intros s3 Hf3 E3.
       assert (untouched s s3) as Hun by (exists i; split; [done|]; by rewrite E3, <- Er1).
       destruct (rejected_late _ _ _); [|done]. unfold late_outcome. rewrite Et in Hwhy.
       destruct (takes_submissions (eng s)); [|split; [by eexists|done]]. right.
       destruct (Hwhy eq_refl) as [-> (j & Hj & Hz)]. split; [done|]. split; [done|]. exists j.
       split; [by rewrite <- Hc1|by rewrite <- Er1]. }
  intros (Ht & Hi & Hf & Hb). rewrite Et in Ht. wp_steps.
  assert (has_flag flags AURA_FIXED_FILE && negb (validate_fixed_file (eng s2) fd) =
          rejected_late (eng s) flags fd /\
    resolve_registered_file_locked (eng s2) fd = resolve_registered_file_locked (eng s) fd) as [-> ->].
  { destruct Hf as ((rs & f & n & m & E) & _). unfold rejected_late, validate_fixed_file, resolve_registered_file_locked.
    rewrite E. destruct Hg as [-> _]. done. }
  destruct (rejected_late (eng s) flags fd).
  - eapply (release_with s s1 s2 (sc_ring ctx)); [done|done|]. intros s3 Hf3 E3.
    unfold late_outcome. rewrite Ht. left. split; [done|]. exists (sc_ring ctx), (sc_req ctx), (sc_lock_st ctx).
    split; [by rewrite <- Hc1|]. split; [done|]. by rewrite E3, <- Er1.
  - match goal with |- context [let '(_, _) := ?x in _] =>
      assert (snd x = names_file (eng s) flags fd) as Hreg;
        [unfold names_file; destruct (has_flag flags AURA_FIXED_FILE); [done|];
         by destruct (resolve_registered_file_locked (eng s) fd)|destruct x as [sub_fd regf]] end.
    cbn [snd] in Hreg. subst regf. set (regf := names_file (eng s) flags fd).
    wp_step. wp_step. cbv zeta. wp_step. cbv beta.
    apply (run_registered ctx _ fn cb ud regf s1 s2
      (fun err => rdunlock_unless_single (eng s1) ;; mret (Err err))
      (rdunlock_unless_single (eng s1) ;; mret (Ok (ref_of ctx))) (clean_reg regf cb ud s)); try done.
    + rewrite Er1. apply Hfb. by rewrite <- Hc1.
    + intros err s3 (i & Hf3 & Hu). eapply (release_with s s1 s3 i); [done|done|]. intros s4 Hf4 E4.
      exists i. split; [done|]. by rewrite E4, <- Er1.
    + intros s3 Hf3 Ha. eapply (release_with s s1 s3 (sc_ring ctx)); [done|done|]. intros s4 Hf4 E4.
      split; [by rewrite <- Hc1|]. split; [done|]. cbn. by rewrite E4, <- Er1.
Qed.

Definition is_ok {A} (r : result A) : bool := match r with Ok _ => true | Err _ => false end.

Lemma validate_spec index off len s :
  wp (validate_registered_buffer index off len) (fun r s' =>
    is_ok r = is_ok (check_registered_buffer (eng s) index off len) /\
    match r with
    | Ok _ => reg_held s (negb (e_single_thread (eng s))) s'
    | Err _ => frame 0 s s' /\ rings (eng s') = rings (eng s)
    end) s.
Proof.
  unfold validate_registered_buffer. cbv zeta. wp_steps.
  eapply wp_mono; [apply hold_single|]. intros [] s1 Hg. wp_steps.
  destruct (check_registered_buffer _ _ _ _) as [reg|err]; wp_steps; [done|].
  rewrite release_single.
  eapply wp_mono; [apply (release_spec _ 0 s s1 s1); [done|apply frame_refl]|].
  intros [] s2 [Hf E]. wp_steps. split; [done|]. split; [done|]. rewrite E. by destruct Hg as [-> _].
Qed.

(** The call gets as far as taking a request slot. *)
Definition attempted e (fd index off len flags : Z) : bool :=
  negb ((fd <? 0) || (len =? 0)) && negb (bad_flags flags) &&
  is_ok (check_registered_buffer e index off len) && takes_submissions e.

(** C38. Submissions on a registered buffer, with two rings or more in the modes
    that share them, outside a chain of linked requests, and when no ring is at its
    limit. With one exception every call returns as cleanly as the others: an error
    leaves nothing taken, the registration lock included, and a success holds one
    slot and counts one operation on a registered buffer, and on a registered file
    if it uses one. The exception is a call with AURA_FIXED_FILE whose index is not
    in the file table. It always fails. If its arguments and buffer are in order
    and the engine takes submissions, it returns EINVAL and has lost the slot and
    the lock of the ring it had taken, unless the ring had no slot left (ENOMEM,
    nothing taken); otherwise nothing is taken. *)
Theorem registered_io_outcome fd index off len offset flags cb ud unreg fn s :
  submit_fn_ok fn -> shared_rings s -> rings_ready (eng s) ->
  (forall i, 0 <= i < ring_count (eng s) -> 0 <= fixed_buf_inflight (rings (eng s) i) <= UINT_MAX) ->
  wp (submit_io_generic fuel fd (AURA_BUF_REGISTERED index off) len offset flags cb ud unreg fn) (fun r s' =>
    if rejected_late (eng s) flags fd
    then if attempted (eng s) fd index off len flags
         then (r = Err EINVAL /\ leaked s s') \/ (r = Err ENOMEM /\ untouched s s' /\ no_slot s)
         else (exists err, r = Err err) /\ untouched s s'
    else clean_reg (names_file (eng s) flags fd) cb ud s r s') s.
Proof.
  intros Hfn Hsh Hr Hfb. unfold submit_io_generic, attempted.
  assert (forall err s', frame 0 s s' -> rings (eng s') = rings (eng s) ->
    if rejected_late (eng s) flags fd
    then (exists x : errno, @Err request_ref err = Err x) /\ untouched s s'
    else clean_reg (names_file (eng s) flags fd) cb ud s (Err err) s') as Herr.
  { intros err s' Hf E. assert (untouched s s') as H by (exists 0; split; [done|]; left; by rewrite E).
    destruct (rejected_late _ _ _); [split; [by eexists|done]|done]. }
  destruct ((fd <? 0) || (len =? 0)); cbn [negb andb]; [wp_steps; apply Herr; [apply frame_refl|done]|].
  destruct (bad_flags flags); cbn [negb andb]; [wp_steps; apply Herr; [apply frame_refl|done]|].
  apply wp_bind. eapply wp_mono; [apply validate_spec|]. intros [reg|err] s1; cbv beta; intros [<- Hv]; cbn [is_ok andb].
  - by apply registered_buffer_io_spec.
  - destruct Hv as [Hf E]. wp_steps. by apply Herr.
Qed.

End Submit.

(** ** Witness *)

Import EngineDemo.

Abbreviation demo_shared := (start 3 AURA_SELECT_ROUND_ROBIN false (fun _ : Z => 4) 0).

Lemma demo_shared_ok s : demo_shared = Some s ->
  shared_rings s /\ rings_ready (eng s) /\ ring_count (eng s) = 3 /\
  (forall i, 0 <= i < ring_count (eng s) -> 0 <= fixed_buf_inflight (rings (eng s) i) <= UINT_MAX).
Proof.
  intros E. destruct (demo_created _ _ _ _ _ _ E) as (_ & _ & Hf & Hr & _).
  demo_fact E (fun s : state => (ring_count (eng s), ring_select (eng s), tls_link_ring (tls s)))
    (3, AURA_SELECT_ROUND_ROBIN, @None Z).
  match goal with H : _ = _ |- _ => injection H as H1 H2 H3 end.
  split; [unfold shared_rings; rewrite H1, H2, H3; unfold INT_MAX; split; [lia|done]|].
  split; [done|]. split; [done|]. intros i Hi. destruct (rf_idle _ _ _ (Hf i Hi)) as (_ & _ & -> & _).
  unfold UINT_MAX. lia.
Qed.

Lemma submission_leaves_nothing_witness :
  match demo_shared with
  | Some s => shared_rings s /\ rings_ready (eng s) /\
      wp (run_call 4 (call_read 3 4096 512 0 0) 11 22) (clean (uses_file (eng s) (call_read 3 4096 512 0 0)) 11 22 s) s
  | None => False
  end.
Proof.
  destruct demo_shared as [s|] eqn:E; [|vm_compute in E; discriminate].
  destruct (demo_shared_ok s E) as (Hs & Hr & _). split; [done|]. split; [done|].
  exact (submission_leaves_nothing 4 (call_read 3 4096 512 0 0) 11 22 s Hs Hr).
Defined.

(** A live table of one buffer of 512 bytes. *)
Definition with_buffer (s : state) : state :=
  upd_eng (fun e => e <| registered_buffers := [{| iov_base := 4096; iov_len := 512 |}] |>
                      <| registered_buffer_count := 1 |> <| buffers_registered := true |>) s.

Lemma registered_io_outcome_witness :
  match demo_shared with
  | Some s0 => let s := with_buffer s0 in
      shared_rings s /\ rings_ready (eng s) /\
      wp (aura_read 4 3 (AURA_BUF_REGISTERED 0 0) 512 0 0 11 22) (clean_reg (names_file (eng s) 0 3) 11 22 s) s
  | None => False
  end.
Proof.
  destruct demo_shared as [s|] eqn:E; [|vm_compute in E; discriminate]. cbv zeta.
  destruct (demo_shared_ok s E) as (H1 & H2 & H3 & H4).
  split; [exact H1|]. split; [exact H2|].
  exact (registered_io_outcome 4 3 0 0 512 0 0 11 22 ring_submit_read ring_submit_read_fixed
    (with_buffer s) read_fixed_fn_ok H1 H2 H4).
Defined.

(** The exception is real: on an engine of three rings with a registered
    buffer and no registered file, a read of that buffer with AURA_FIXED_FILE
    returns EINVAL and leaves a ring with its mutex held and seven of its eight
    slots free, so that the next submission to that ring blocks for ever. *)
Example registered_io_leaks :
  match demo_shared with
  | Some s0 =>
      match aura_read 4 3 (AURA_BUF_REGISTERED 0 0) 512 0 AURA_FIXED_FILE 11 22 (with_buffer s0) with
      | Some (r, s') => r = Err EINVAL /\ exists i, lock (rings (eng s0) i) = 0 /\
          lock (rings (eng s') i) = 1 /\ free_request_count (rings (eng s') i) = 7 /\
          pending_count (rings (eng s') i) = 0
      | None => False
      end
  | None => False
  end.
Proof.
  destruct demo_shared as [s|] eqn:E; [|vm_compute in E; discriminate].
  demo_fact E (fun s : state =>
    match aura_read 4 3 (AURA_BUF_REGISTERED 0 0) 512 0 AURA_FIXED_FILE 11 22 (with_buffer s) with
    | Some (Err EINVAL, s') =>
        (lock (rings (eng s) 1), lock (rings (eng s') 1), free_request_count (rings (eng s') 1),
         pending_count (rings (eng s') 1))
    | _ => (0, 0, 0, 0)
    end) (0, 1, 7, 0).
  destruct (aura_read _ _ _ _ _ _ _ _ _) as [[[req|[]] s']|]; try (by injection H).
  split; [done|]. exists 1. by injection H as -> -> -> ->.
Qed.
