(* ===== verification/RingLock.v ===== *)
(** * The lock of a ring, between threads

    [adaptive_ring.h] 489-525 ([ring_lock], [ring_trylock], [ring_unlock]) and
    the claim of a ring in [aura.c] 215-260 ([select_ring_thread_local]), as
    steps of concurrent threads on the shared words of one ring: one step per
    atomic access, so that the steps of several threads interleave in any
    order. The completion lock ([ring_cq_lock], [st_cq_users]) is the same
    protocol on its own counter and mutex; a claim waits for both counters, one
    after the other.

    [mutual_exclusion] and [handover_progress] hold for [polite] steps: the
    assumptions under which the protocol is correct. [overlaps] shows runs of the
    code that do without one of them and enter a section twice. *)
From Stdlib Require Import ZArith Lia List.
From stdpp Require Import base tactics list relations.
From S2P Require Import Prelude.

#[local] Open Scope Z_scope.

(** ** Threads *)

(** Where a thread stands with respect to one ring. *)
Inductive pc_t :=
  | Idle
  | ClaimFirst                 (* owner_count was 0: to store single_thread = true *)
  | ClaimStore                 (* owner_count was not 0: to store single_thread = false *)
  | ClaimWait                  (* spinning on st_users *)
  | LockAdd (try : bool)       (* read single_thread = true: to bump st_users *)
  | LockRecheck (try : bool)   (* to read single_thread again *)
  | LockSub (try : bool)       (* it was false: to take the bump back *)
  | LockMutex (try : bool)     (* to lock the mutex *)
  | InLock (st : bool)         (* in the critical section, [st] the snapshot *)
  | InFast.                    (* in the sole owner's section of submit_begin *)

Inductive role_t := Unclaimed | FirstOwner | SharedOwner.

#[export] Instance pc_eq_dec : EqDecision pc_t.
Proof. solve_decision. Defined.
#[export] Instance role_eq_dec : EqDecision role_t.
Proof. solve_decision. Defined.

Record lock_state := {
  single_thread : bool;
  store_buffer : bool;         (* a store of single_thread = false has not reached memory *)
  st_users : Z;
  owner_count : Z;
  mutex : option nat;          (* the thread that holds ctx->lock *)
  pc : nat -> pc_t;
  role : nat -> role_t
}.

(** A ring as [ring_init] leaves it, before any thread claims it. *)
Definition lock_init : lock_state := {|
  single_thread := false; store_buffer := false; st_users := 0; owner_count := 0; mutex := None;
  pc := fun _ => Idle; role := fun _ => Unclaimed |}.

Definition upd {A} (f : nat -> A) (t : nat) (x : A) : nat -> A :=
  fun t' => if Nat.eqb t' t then x else f t'.

Definition goto (s : lock_state) (t : nat) (p : pc_t) : lock_state := {|
  single_thread := single_thread s; store_buffer := store_buffer s; st_users := st_users s; owner_count := owner_count s;
  mutex := mutex s; pc := upd (pc s) t p; role := role s |}.
Definition with_single (s : lock_state) (b : bool) : lock_state := {|
  single_thread := b; store_buffer := store_buffer s; st_users := st_users s; owner_count := owner_count s;
  mutex := mutex s; pc := pc s; role := role s |}.
Definition with_users (s : lock_state) (n : Z) : lock_state := {|
  single_thread := single_thread s; store_buffer := store_buffer s; st_users := i32 n; owner_count := owner_count s;
  mutex := mutex s; pc := pc s; role := role s |}.
Definition with_owners (s : lock_state) (n : Z) : lock_state := {|
  single_thread := single_thread s; store_buffer := store_buffer s; st_users := st_users s; owner_count := i32 n;
  mutex := mutex s; pc := pc s; role := role s |}.
Definition with_mutex (s : lock_state) (m : option nat) : lock_state := {|
  single_thread := single_thread s; store_buffer := store_buffer s; st_users := st_users s; owner_count := owner_count s;
  mutex := m; pc := pc s; role := role s |}.
Definition with_role (s : lock_state) (t : nat) (r : role_t) : lock_state := {|
  single_thread := single_thread s; store_buffer := store_buffer s; st_users := st_users s; owner_count := owner_count s;
  mutex := mutex s; pc := pc s; role := upd (role s) t r |}.

Definition with_buffer (s : lock_state) (b : bool) : lock_state := {|
  single_thread := single_thread s; store_buffer := b; st_users := st_users s; owner_count := owner_count s;
  mutex := mutex s; pc := pc s; role := role s |}.

(** ** Steps *)

(** What a thread does in a step; the conditions are in [step]. *)
Inductive event :=
  | EvClaim        (* fetch_add(owner_count, 1) *)
  | EvFirst        (* store single_thread = true, tls_owned_ring = ring *)
  | EvShare        (* store single_thread = false *)
  | EvShareBuffered | EvDrain   (* the same store, delayed in the store buffer *)
  | EvWaited       (* st_users was 0, tls_owned_ring = ring *)
  | EvLock (try : bool)    (* load single_thread in ring_lock / ring_trylock *)
  | EvAdd | EvRecheck | EvSub
  | EvAcquire | EvTryFail
  | EvUnlock
  | EvFast | EvFastOut.    (* ring_is_sole_owner in submit_begin; the end of submit_end *)

Inductive step (s : lock_state) (t : nat) : event -> lock_state -> Prop :=
  | step_claim : pc s t = Idle -> role s t = Unclaimed ->
      step s t EvClaim (with_owners (goto s t (if owner_count s =? 0 then ClaimFirst else ClaimStore))
                          (owner_count s + 1))
  | step_first : pc s t = ClaimFirst ->
      step s t EvFirst (with_role (with_single (goto s t Idle) true) t FirstOwner)
  | step_share : pc s t = ClaimStore ->
      step s t EvShare (with_single (goto s t ClaimWait) false)
  | step_share_buffered : pc s t = ClaimStore ->
      step s t EvShareBuffered (with_buffer (goto s t ClaimWait) true)
  | step_drain : store_buffer s = true ->
      step s t EvDrain (with_buffer (with_single s false) false)
  | step_waited : pc s t = ClaimWait -> st_users s <= 0 ->
      step s t EvWaited (with_role (goto s t Idle) t SharedOwner)
  | step_lock try : pc s t = Idle ->
      step s t (EvLock try) (goto s t (if single_thread s then LockAdd try else LockMutex try))
  | step_add try : pc s t = LockAdd try ->
      step s t EvAdd (with_users (goto s t (LockRecheck try)) (st_users s + 1))
  | step_recheck try : pc s t = LockRecheck try ->
      step s t EvRecheck (goto s t (if single_thread s then InLock true else LockSub try))
  | step_sub try : pc s t = LockSub try ->
      step s t EvSub (with_users (goto s t (LockMutex try)) (st_users s - 1))
  | step_acquire try : pc s t = LockMutex try -> mutex s = None ->
      step s t EvAcquire (with_mutex (goto s t (InLock false)) (Some t))
  | step_try_fail : pc s t = LockMutex true -> mutex s <> None ->
      step s t EvTryFail (goto s t Idle)
  | step_unlock_st : pc s t = InLock true ->
      step s t EvUnlock (with_users (goto s t Idle) (st_users s - 1))
  | step_unlock : pc s t = InLock false ->
      step s t EvUnlock (with_mutex (goto s t Idle) None)
  | step_fast : pc s t = Idle -> role s t <> Unclaimed -> single_thread s = true ->
      step s t EvFast (goto s t InFast)
  | step_fast_out : pc s t = InFast -> step s t EvFastOut (goto s t Idle).

(** The same steps as a function. *)
Definition exec (s : lock_state) (t : nat) (ev : event) : option lock_state :=
  match ev, pc s t with
  | EvClaim, Idle =>
      if decide (role s t = Unclaimed)
      then Some (with_owners (goto s t (if owner_count s =? 0 then ClaimFirst else ClaimStore))
                   (owner_count s + 1))
      else None
  | EvFirst, ClaimFirst => Some (with_role (with_single (goto s t Idle) true) t FirstOwner)
  | EvShare, ClaimStore => Some (with_single (goto s t ClaimWait) false)
  | EvShareBuffered, ClaimStore => Some (with_buffer (goto s t ClaimWait) true)
  | EvDrain, _ => if store_buffer s then Some (with_buffer (with_single s false) false) else None
  | EvWaited, ClaimWait =>
      if st_users s <=? 0 then Some (with_role (goto s t Idle) t SharedOwner) else None
  | EvLock try, Idle => Some (goto s t (if single_thread s then LockAdd try else LockMutex try))
  | EvAdd, LockAdd try => Some (with_users (goto s t (LockRecheck try)) (st_users s + 1))
  | EvRecheck, LockRecheck try => Some (goto s t (if single_thread s then InLock true else LockSub try))
  | EvSub, LockSub try => Some (with_users (goto s t (LockMutex try)) (st_users s - 1))
  | EvAcquire, LockMutex _ =>
      match mutex s with None => Some (with_mutex (goto s t (InLock false)) (Some t)) | Some _ => None end
  | EvTryFail, LockMutex true => match mutex s with Some _ => Some (goto s t Idle) | None => None end
  | EvUnlock, InLock true => Some (with_users (goto s t Idle) (st_users s - 1))
  | EvUnlock, InLock false => Some (with_mutex (goto s t Idle) None)
  | EvFast, Idle =>
      if decide (role s t <> Unclaimed) then if single_thread s then Some (goto s t InFast) else None
      else None
  | EvFastOut, InFast => Some (goto s t Idle)
  | _, _ => None
  end.

Lemma exec_step s t ev s' : exec s t ev = Some s' <-> step s t ev s'.
Proof.
  split.
  - unfold exec. intros E. destruct ev as [ | | | | | |try| | | | | | | | ], (pc s t) as [ | | | |tr|tr|tr|tr|st| ] eqn:Ep;
      try done; repeat case_decide; try done;
      repeat match type of E with
             | context [st_users s <=? 0] => destruct (Z.leb_spec (st_users s) 0); [|done]
             | context [match mutex s with _ => _ end] => destruct (mutex s) eqn:Em; try done
             | context [match ?b with true => _ | false => None end] => destruct b eqn:?; try done
             | context [if ?b then Some _ else Some _] => destruct b; try done
             | context [if ?b then Some _ else None] => destruct b eqn:?; [|done]
             end; injection E as <-; by econstructor; eauto; congruence.
  - destruct 1; unfold exec; rewrite H; try done.
    + by rewrite decide_True.
    + by apply Z.leb_le in H0 as ->.
    + by rewrite H0.
    + by destruct (mutex s).
    + by rewrite decide_True, H1.
Qed.

Fixpoint exec_all (s : lock_state) (l : list (nat * event)) : option lock_state :=
  match l with
  | [] => Some s
  | (t, ev) :: l => match exec s t ev with Some s => exec_all s l | None => None end
  end.

(** The assumptions: only owners lock the ring; a thread does not claim it
    between the first owner's count and its store (nor 2^31 threads do); and the
    sole owner's sections go through [ring_lock]. *)
Definition polite (s : lock_state) (t : nat) (ev : event) : Prop :=
  match ev with
  | EvLock _ => role s t <> Unclaimed
  | EvClaim => (forall t', pc s t' <> ClaimFirst) /\ owner_count s < INT_MAX
  | EvFast | EvShareBuffered => False
  | _ => True
  end.

Definition polite_step (s s' : lock_state) : Prop := exists t ev, polite s t ev /\ step s t ev s'.
Definition reachable (s : lock_state) : Prop := rtc polite_step lock_init s.

(** Inside a section that assumes it is alone on the ring. *)
Definition in_section (p : pc_t) : bool :=
  match p with InLock _ | InFast => true | _ => false end.

(** ** The invariant *)

(** What a thread adds to [st_users]. *)
Definition counted (p : pc_t) : Z :=
  match p with LockRecheck _ | LockSub _ | InLock true => 1 | _ => 0 end.

(** Where the first owner can be. *)
Definition first_pc (p : pc_t) (st : bool) : Prop :=
  match p with
  | Idle | LockAdd _ | LockRecheck _ | InLock true => True
  | LockSub _ | LockMutex _ | InLock false => st = false
  | _ => False
  end.

(** Where the others can be, [o] the first owner's place. *)
Definition other_pc (r : role_t) (p o : pc_t) (st : bool) : Prop :=
  match r, p with
  | Unclaimed, (Idle | ClaimStore) => True
  | Unclaimed, ClaimWait => st = false
  | SharedOwner, (Idle | LockMutex _ | InLock false) => st = false /\ o <> InLock true
  | _, _ => False
  end.

Inductive lock_inv (s : lock_state) : Prop :=
  | inv_new :
      store_buffer s = false ->
      owner_count s = 0 -> single_thread s = false -> st_users s = 0 -> mutex s = None ->
      (forall t, role s t = Unclaimed /\ pc s t = Idle) -> lock_inv s
  | inv_claiming o :
      store_buffer s = false ->
      0 < owner_count s <= INT_MAX -> single_thread s = false -> st_users s = 0 -> mutex s = None ->
      role s o = Unclaimed -> pc s o = ClaimFirst ->
      (forall t, t <> o -> role s t = Unclaimed /\ pc s t = Idle) -> lock_inv s
  | inv_owned o :
      store_buffer s = false ->
      0 < owner_count s <= INT_MAX -> role s o = FirstOwner -> first_pc (pc s o) (single_thread s) ->
      st_users s = counted (pc s o) ->
      (forall t, mutex s = Some t <-> pc s t = InLock false) ->
      (forall t, t <> o -> other_pc (role s t) (pc s t) (pc s o) (single_thread s)) -> lock_inv s.

Lemma upd_eq {A} (f : nat -> A) t x : upd f t x t = x.
Proof. unfold upd. by rewrite Nat.eqb_refl. Qed.
Lemma upd_ne {A} (f : nat -> A) t t' x : t' <> t -> upd f t x t' = f t'.
Proof. unfold upd. intros H. by destruct (Nat.eqb_spec t' t). Qed.

(** A mutex other steps do not touch. *)
Lemma mutex_keep s t p (m : option nat) :
  (forall t', m = Some t' <-> pc s t' = InLock false) -> pc s t <> InLock false -> p <> InLock false ->
  forall t', m = Some t' <-> upd (pc s) t p t' = InLock false.
Proof.
  intros H H1 H2 t'. destruct (decide (t' = t)) as [->|]; [rewrite upd_eq|by rewrite upd_ne].
  rewrite H. tauto.
Qed.

Lemma mutex_take s t (m : option nat) :
  (forall t', m = Some t' <-> pc s t' = InLock false) -> m = None ->
  forall t', Some t = Some t' <-> upd (pc s) t (InLock false) t' = InLock false.
Proof.
  intros H -> t'. destruct (decide (t' = t)) as [->|Hne]; [by rewrite upd_eq|rewrite upd_ne by done].
  rewrite <- H. split; [intros [= ->]; done|done].
Qed.

Lemma mutex_drop s t (m : option nat) p :
  (forall t', m = Some t' <-> pc s t' = InLock false) -> pc s t = InLock false -> p <> InLock false ->
  forall t', None = Some t' <-> upd (pc s) t p t' = InLock false.
Proof.
  intros H Hp Hn t'. destruct (decide (t' = t)) as [->|Hne]; [by rewrite upd_eq|rewrite upd_ne by done].
  rewrite <- H. split; [done|]. apply H in Hp. rewrite Hp. by intros [= ->].
Qed.

(** A step of the first owner. *)
Lemma inv_step_first s o ev s' :
  store_buffer s = false ->
  0 < owner_count s <= INT_MAX -> role s o = FirstOwner -> first_pc (pc s o) (single_thread s) ->
  st_users s = counted (pc s o) ->
  (forall t, mutex s = Some t <-> pc s t = InLock false) ->
  (forall t, t <> o -> other_pc (role s t) (pc s t) (pc s o) (single_thread s)) ->
  polite s o ev -> step s o ev s' -> lock_inv s'.
Proof.
  intros Hb Hc Hr Hf Hu Hm Ho Hp Hs.
  assert (forall p u st m, first_pc p st -> u = counted p -> single_thread s = st ->
    (st = false -> p <> InLock true) ->
    (forall t, m = Some t <-> upd (pc s) o p t = InLock false) ->
    lock_inv {| single_thread := st; store_buffer := store_buffer s; st_users := u; owner_count := owner_count s; mutex := m;
                pc := upd (pc s) o p; role := role s |}) as Hgo.
  { intros p u st m H1 H2 H3 H4 H5. apply (inv_owned _ o); cbn; rewrite ?upd_eq; try done.
    intros t Ht. rewrite upd_ne by done. specialize (Ho t Ht). rewrite <- H3. rewrite <- H3 in H4.
    unfold other_pc in *. destruct (role s t), (pc s t) as [ | | | | [] | [] | [] | [] | [] | ]; tauto. }
  destruct Hs; cbn in Hp; rewrite ?H in Hf, Hu; try done; try congruence;
    unfold goto, with_users, with_mutex; cbn in Hf, Hu; cbn.
  - apply Hgo; try done; [by destruct (single_thread s)|by destruct (single_thread s)
      |by destruct (single_thread s)|].
    apply mutex_keep; [done|by rewrite H|by destruct (single_thread s)].
  - rewrite Hu. apply Hgo; try done. by apply mutex_keep; [|rewrite H|].
  - apply Hgo; try done; [by destruct (single_thread s)|by destruct (single_thread s)
      |by destruct (single_thread s)|].
    apply mutex_keep; [done|by rewrite H|by destruct (single_thread s)].
  - rewrite Hu. apply Hgo; try done. by apply mutex_keep; [|rewrite H|].
  - apply Hgo; try done. by apply mutex_take with (m := mutex s).
  - apply Hgo; try done. by apply mutex_keep; [|rewrite H|].
  - rewrite Hu. apply Hgo; try done. by apply mutex_keep; [|rewrite H|].
  - apply Hgo; try done. by apply mutex_drop with (m := mutex s).
Qed.

(** A step of another thread, once the ring has its first owner. *)
Lemma inv_step_other s o t ev s' :
  t <> o ->
  store_buffer s = false ->
  0 < owner_count s <= INT_MAX -> role s o = FirstOwner -> first_pc (pc s o) (single_thread s) ->
  st_users s = counted (pc s o) ->
  (forall t, mutex s = Some t <-> pc s t = InLock false) ->
  (forall t, t <> o -> other_pc (role s t) (pc s t) (pc s o) (single_thread s)) ->
  polite s t ev -> step s t ev s' -> lock_inv s'.
Proof.
  intros Hto Hb Hc Hr Hf Hu Hm Ho Hp Hs. pose proof (Ho t Hto) as Ht.
  assert (forall p rl st n m, (st = false \/ st = single_thread s) -> 0 < n <= INT_MAX ->
    (forall t', t' <> t -> rl t' = role s t') ->
    other_pc (rl t) p (pc s o) st -> (forall t', m = Some t' <-> upd (pc s) t p t' = InLock false) ->
    lock_inv {| single_thread := st; store_buffer := store_buffer s; st_users := st_users s; owner_count := n; mutex := m;
                pc := upd (pc s) t p; role := rl |}) as Hgo.
  { intros p rl st n m Hst Hn Hrl Hop Hm'.
    apply (inv_owned _ o); cbn; rewrite ?upd_ne, ?Hrl by congruence; try done.
    - destruct Hst as [->| ->]; [|done]. by destruct (pc s o) as [ | | | | [] | [] | [] | [] | [] | ].
    - intros t' Ht'. destruct (decide (t' = t)) as [->|Hne]; [by rewrite !upd_eq|].
      rewrite !upd_ne, Hrl by done. destruct Hst as [->| ->]; [|by apply Ho]. specialize (Ho t' Ht').
      unfold other_pc in *.
      destruct (role s t'), (pc s t') as [ | | | | [] | [] | [] | [] | [] | ]; tauto. }
  destruct Hs; cbn in Hp; rewrite ?H in Ht; unfold goto, with_users, with_mutex, with_owners, with_single, with_role; cbn.
  all: try (by destruct (role s t)).
  all: try (rewrite Hb in H; discriminate H).
  - assert (0 < owner_count s < INT_MAX) as Hcl by (destruct Hp; lia).
    destruct (Z.eqb_spec (owner_count s) 0); [lia|].
    rewrite i32_id by (unfold INT_MIN, INT_MAX in *; lia).
    apply Hgo; auto; [lia|by rewrite H0|]. by apply mutex_keep; [|rewrite H|].
  - apply Hgo; auto; [destruct (role s t); done|]. by apply mutex_keep; [|rewrite H|].
  - destruct (role s t) eqn:Er; cbn in Ht; try done. apply Hgo; auto.
    + intros t' Ht'. by rewrite upd_ne.
    + rewrite upd_eq. split; [done|]. intros E. rewrite E in Hu. cbn in Hu. lia.
    + by apply mutex_keep; [|rewrite H|].
  - destruct (role s t) eqn:Er; cbn in Ht; try done. destruct Ht as [Hst Hno]. rewrite Hst.
    apply Hgo; auto; [by rewrite Er|]. by apply mutex_keep; [|rewrite H|].
  - destruct (role s t) eqn:Er; cbn in Ht; try done.
    apply Hgo; auto; [by rewrite Er|]. by apply mutex_take with (m := mutex s).
  - destruct (role s t) eqn:Er; cbn in Ht; try done.
    apply Hgo; auto; [by rewrite Er|]. by apply mutex_keep; [|rewrite H|].
  - destruct (role s t) eqn:Er; cbn in Ht; try done.
    apply Hgo; auto; [by rewrite Er|]. by apply mutex_drop with (m := mutex s).
Qed.

Lemma polite_step_inv s s' : polite_step s s' -> lock_inv s -> lock_inv s'.
Proof.
  intros (t & ev & Hp & Hs) [Hb H1 H2 H3 H4 H5|o Hb H1 H2 H3 H4 H5 H6 H7|o Hb H1 H2 H3 H4 H5 H6].
  - destruct (H5 t) as [Hr Hi]. destruct Hs; try congruence; try (by cbn in Hp).
    rewrite H1. cbn. apply (inv_claiming _ t); cbn; rewrite ?upd_eq, ?H1; try done.
    intros t' Ht'. rewrite upd_ne by done. apply H5.
  - destruct (decide (t = o)) as [->|Hne].
    + destruct Hs; try congruence.
      apply (inv_owned _ o); cbn; rewrite ?upd_eq; try done.
      * intros t. rewrite H4. destruct (decide (t = o)) as [->|Hne]; [by rewrite upd_eq|].
        rewrite upd_ne by done. by destruct (H7 t Hne) as [_ ->].
      * intros t Ht. rewrite !upd_ne by done. by destruct (H7 t Ht) as [-> ->].
    + destruct (H7 t Hne) as [Hr Hi]. destruct Hs; try congruence; try (by cbn in Hp).
      destruct Hp as [Hp _]. by destruct (Hp o).
  - destruct (decide (t = o)) as [->|Hne]; [by eapply inv_step_first|by eapply inv_step_other].
Qed.

Lemma reachable_inv s : reachable s -> lock_inv s.
Proof.
  assert (forall s0, rtc polite_step s0 s -> lock_inv s0 -> lock_inv s) as H.
  { induction 1; eauto using polite_step_inv. }
  intros Hr. apply (H _ Hr). by apply inv_new.
Qed.

(** ** The theorems *)

(** C35. In every state that [polite] steps reach, two threads are never
    inside the critical section of a ring at the same time, one through the
    mutex and the other through the lockless snapshot included, however the
    atomic accesses of any number of threads interleave, and across the moment
    when a ring owned by one thread becomes shared. A step is polite when
    - only owners lock the ring, and every section goes through [ring_lock];
    - no thread claims the ring between the first owner's count and its store,
      and fewer than INT_MAX threads own it;
    - the store of [single_thread = false] is visible to the first owner before
      the sharing thread reads the counters (memory ordering: the release
      store and the acquire loads of the source do not give this).
    [overlaps] shows that the code does not ensure them and that, but for the
    bound, none can be dropped. *)
Theorem mutual_exclusion s t t' :
  reachable s -> in_section (pc s t) = true -> in_section (pc s t') = true -> t = t'.
Proof.
  intros Hr H H'. destruct (reachable_inv s Hr) as [_ _ _ _ _ H5|o _ _ _ _ _ _ H6 H7|o _ _ Hro Hf _ Hm Ho].
  - destruct (H5 t) as [_ E]. by rewrite E in H.
  - destruct (decide (t = o)) as [->|Ht]; [by rewrite H6 in H|]. destruct (H7 t Ht) as [_ E]. by rewrite E in H.
  - assert (forall x, in_section (pc s x) = true -> pc s x = InLock false \/ x = o /\ pc s x = InLock true) as Hx.
    { intros x Hx. destruct (decide (x = o)) as [->|Hne].
      - destruct (pc s o) as [ | | | | | | | |[]| ]; try done; auto.
      - specialize (Ho x Hne). unfold other_pc in Ho.
        destruct (role s x), (pc s x) as [ | | | | | | | |[]| ]; try done; auto. }
    assert (forall x, pc s x = InLock false -> x <> o -> pc s o <> InLock true) as Hno.
    { intros x Ex Hne. specialize (Ho x Hne). rewrite Ex in Ho. unfold other_pc in Ho.
      destruct (role s x); tauto. }
    destruct (Hx t H) as [E|[-> E]], (Hx t' H') as [E'|[-> E']].
    + apply Hm in E, E'. congruence.
    + destruct (decide (t = o)); [done|]. by destruct (Hno t E).
    + destruct (decide (t' = o)); [done|]. by destruct (Hno t' E').
    + done.
Qed.

(** What is left of a lockless section that started before the flag fell. *)
Definition lockless_work (p : pc_t) : Z :=
  match p with LockAdd _ => 3 | LockRecheck _ => 2 | LockSub _ | InLock true => 1 | _ => 0 end.

(** C36. In every state that [polite] steps reach (sections through
    [ring_lock] by owners only, no claim between the first owner's count and
    its store, fewer than INT_MAX owners, and the store of
    [single_thread = false] visible before the counters are read), a thread
    that shares a ring does not wait for ever for the first owner, provided
    the owner runs: while it waits, only that owner can keep [st_users] above
    zero, by a lockless section that began before the flag fell; the owner
    always has a polite step to take, each of its steps shortens what is left
    of that section, of length at most 3, and no polite step of any thread
    makes it longer. *)
Theorem handover_progress s t :
  reachable s -> pc s t = ClaimWait ->
  exists o, role s o = FirstOwner /\ 0 <= lockless_work (pc s o) <= 3 /\
    (0 < st_users s -> 0 < lockless_work (pc s o)) /\
    (0 < lockless_work (pc s o) -> exists ev s', polite s o ev /\ step s o ev s') /\
    (forall u ev s', polite s u ev -> step s u ev s' ->
       lockless_work (pc s' o) <= lockless_work (pc s o) /\
       (u = o -> 0 < lockless_work (pc s o) -> lockless_work (pc s' o) < lockless_work (pc s o))).
Proof.
  intros Hr Hw. destruct (reachable_inv s Hr) as [_ _ _ _ _ H5|o _ _ _ _ _ _ H6 H7|o Hb _ Hro Hf Hu Hm Ho].
  - destruct (H5 t). congruence.
  - destruct (decide (t = o)) as [->|Ht]; [congruence|]. destruct (H7 t Ht). congruence.
  - assert (t <> o) as Hto by (intros ->; by rewrite Hw in Hf).
    assert (single_thread s = false) as Hst.
    { specialize (Ho t Hto). rewrite Hw in Ho. unfold other_pc in Ho. by destruct (role s t). }
    exists o. split; [done|].
    split; [destruct (pc s o) as [ | | | | | | | |[]| ]; cbn; lia|].
    split; [rewrite Hu; destruct (pc s o) as [ | | | | | | | |[]| ]; cbn; lia|].
    split.
    + intros Hpos. destruct (pc s o) as [ | | | |tr|tr|tr|tr|[]| ] eqn:E; cbn in Hpos; try lia.
      * eexists EvAdd, _. split; [done|by eapply step_add].
      * eexists EvRecheck, _. split; [done|by eapply step_recheck].
      * eexists EvSub, _. split; [done|by eapply step_sub].
      * eexists EvUnlock, _. split; [done|by eapply step_unlock_st].
    + intros u ev s' Hp Hs. destruct (decide (u = o)) as [->|Hne].
      * destruct Hs; cbn in *; rewrite ?upd_eq, ?H, ?Hst in *; cbn; try lia; try done; congruence.
      * assert (pc s' o = pc s o) as ->; [|split; [lia|congruence]].
        destruct Hs; cbn; first [congruence | by rewrite upd_ne by congruence].
Qed.

(** The engine does not ensure the assumptions: there are
    runs of the code in which two threads are in the section of a ring at
    once. (1) The sole owner's path of [submit_begin] does not bump
    [st_users], so that a thread that shares the ring does not wait for it.
    (2) The first owner's late store of [single_thread] undoes the store of a
    thread that already shares the ring, and both go lockless. (3) A thread
    that does not own the ring, for example in [aura_flush], locks it while it
    is lockless. (4) Polite steps also take the store that ends the lockless mode
    to be visible before the loads of [st_users] that follow it; it is only a
    release store, so that x86 may keep it in the store buffer meanwhile. *)
Theorem overlaps :
  let overlap l := match exec_all lock_init l with
                   | Some s => in_section (pc s 0%nat) && in_section (pc s 1%nat)
                   | None => false
                   end in
  overlap [(0, EvClaim); (0, EvFirst); (0, EvFast);
           (1, EvClaim); (1, EvShare); (1, EvWaited); (1, EvLock false); (1, EvAcquire)]%nat = true /\
  overlap [(0, EvClaim); (1, EvClaim); (1, EvShare); (0, EvFirst); (1, EvWaited);
           (0, EvLock false); (0, EvAdd); (0, EvRecheck);
           (1, EvLock false); (1, EvAdd); (1, EvRecheck)]%nat = true /\
  overlap [(0, EvClaim); (0, EvFirst); (0, EvLock false); (0, EvAdd); (0, EvRecheck);
           (1, EvLock false); (1, EvAdd); (1, EvRecheck)]%nat = true /\
  overlap [(0, EvClaim); (0, EvFirst); (1, EvClaim); (1, EvShareBuffered); (1, EvWaited);
           (0, EvLock false); (0, EvAdd); (0, EvRecheck);
           (1, EvDrain); (1, EvLock false); (1, EvAcquire)]%nat = true.
Proof. by vm_compute. Qed.

(** ** Witnesses *)

(** A run with polite steps only, by evaluation. *)
Lemma polite_run t ev s s' : polite s t ev -> exec s t ev = Some s' -> reachable s -> reachable s'.
Proof.
  intros Hp He Hr. unfold reachable in *. eapply rtc_r; [exact Hr|]. exists t, ev.
  split; [done|]. by apply exec_step.
Qed.

Definition after (l : list (nat * event)) : lock_state := default lock_init (exec_all lock_init l).

(** Thread 0 owns the ring and is in a lockless section; thread 1 shares it. *)
Definition demo_run : list (nat * event) :=
  [(0, EvClaim); (0, EvFirst); (0, EvLock false); (0, EvAdd); (0, EvRecheck);
   (1, EvClaim); (1, EvShare)]%nat.

Lemma demo_prefix n : (n <= 7)%nat -> reachable (after (take n demo_run)).
Proof.
  intros Hn. induction n as [|n IH]; [apply rtc_refl|].
  specialize (IH ltac:(lia)).
  set (step_n := nth n demo_run (0%nat, EvUnlock)).
  assert (polite (after (take n demo_run)) (fst step_n) (snd step_n)) as Hp.
  { unfold step_n. do 7 (destruct n as [|n]; [first [by cbn | split; [by intros [|[|t]]|done]]|]). lia. }
  refine (polite_run _ _ _ _ Hp _ IH). clear Hp IH. unfold step_n.
  do 7 (destruct n as [|n]; [vm_compute; reflexivity|]). lia.
Qed.

Lemma mutual_exclusion_witness :
  reachable (after demo_run) /\ in_section (pc (after demo_run) 0) = true /\
  forall t, in_section (pc (after demo_run) t) = true -> 0%nat = t.
Proof.
  assert (reachable (after demo_run)) as Hr by exact (demo_prefix 7 ltac:(lia)).
  split; [exact Hr|]. split; [reflexivity|]. intros t. by apply (mutual_exclusion (after demo_run) 0 t Hr).
Defined.

Lemma handover_progress_witness :
  reachable (after demo_run) /\ pc (after demo_run) 1 = ClaimWait /\
  exists o, role (after demo_run) o = FirstOwner.
Proof.
  assert (reachable (after demo_run)) as Hr by exact (demo_prefix 7 ltac:(lia)).
  split; [exact Hr|]. split; [reflexivity|].
  destruct (handover_progress (after demo_run) 1 Hr eq_refl) as (o & Ho & _). by exists o.
Defined.
