(* ===== verification/Client.v ===== *)
(** * A client of the engine

    What a tool sees of the engine and of the operating system, shared by the
    models of auracp and aura-hash: files are byte lists, a read or a write
    transfers at most what the kernel decides ([answer]), accepted requests are a
    list that [aura_wait] completes in any order, and every decision of the
    outside world comes from the class [ClientEnv], indexed by the number of
    questions asked so far; those of the walks over directories come from
    [TaskEnv]. *)
From Stdlib Require Import ZArith Lia List String.
From stdpp Require Import base tactics strings list gmap.
From S2P Require Import Prelude.

#[local] Open Scope Z_scope.

(** ** Files and descriptors *)

(** [pwrite] of [data] at [off]: a gap before [off] reads as zeros. *)
Definition pwrite (l : list Z) (off : Z) (data : list Z) : list Z :=
  let off := Z.to_nat off in
  take off (l ++ replicate (off - length l) 0) ++ data ++ drop (off + length data) l.

Definition pread (l : list Z) (off len : Z) : list Z := take (Z.to_nat len) (drop (Z.to_nat off) l).

Definition resize (l : list Z) (size : Z) : list Z :=
  take (Z.to_nat size) l ++ replicate (Z.to_nat size - length l) 0.

(** The lowest descriptor from [fd] on that is not open; [fuel] is the number
    of open descriptors. *)
Fixpoint lowest_fd (fuel : nat) (fd : Z) (m : gmap Z string) : Z :=
  match fuel with
  | O => fd
  | S fuel => match m !! fd with None => fd | Some _ => lowest_fd fuel (fd + 1) (delete fd m) end
  end.

(** ** The outside world *)

(** How the kernel completes a request: at most [limit] bytes, or an error. *)
Inductive answer := Transfer (limit : Z) | Refuse (errno : positive).

(** [ask_errno] is the outcome of a system call or of a submission (0 is
    success), [ask_wait], which is told how many requests are in flight, the
    completions one [aura_wait] delivers (positions in the list of accepted
    requests, with the kernel's answer) and its return value, a negative one
    standing for [-errno]. *)
Class ClientEnv := {
  ask_errno : nat -> Z;
  ask_interrupted : nat -> bool;
  ask_wait : nat -> nat -> list (nat * answer) * Z
}.

Definition EBADF_CODE : Z := 9.
Definition EINTR_CODE : Z := 4.
Definition ETIME_CODE : Z := 62.
Definition ETIMEDOUT_CODE : Z := 110.

(** ** Directories *)

Inductive file_kind := S_DIR | S_REG | S_OTHER.
Record stat_t := { sb_kind : file_kind; sb_size : Z; sb_mode : Z; sb_id : Z * Z }.

Inductive ftw_flag := FTW_D | FTW_F | FTW_SL | FTW_OTHER.
Record ftw_entry := { fpath : string; typeflag : ftw_flag; fsize : Z; fmode : Z }.

(** [ask_mkdir] is 0 or an [errno]; the answers of [ask_stat] may change as
    directories are made. *)
Class TaskEnv := {
  ask_stat : nat -> string -> option stat_t;
  ask_mkdir : nat -> string -> Z;
  ask_alloc : nat -> bool;
  ask_nftw : string -> option (list ftw_entry)
}.

(** ** Lists gathered from the slots *)

Section Gather.
Context {A B : Type} (f : nat -> A -> option B).

Fixpoint gather (n : nat) (l : list A) : list B :=
  match l with [] => [] | x :: l => option_list (f n x) ++ gather (S n) l end.

(** What slot [k] contributes, and what the others do. *)
Lemma gather_split n l k x : l !! k = Some x ->
  exists rest, gather n l ≡ₚ option_list (f (n + k)%nat x) ++ rest /\
    forall y, gather n (<[k := y]> l) ≡ₚ option_list (f (n + k)%nat y) ++ rest.
Proof.
  revert n k. induction l as [|z l IH]; intros n k Hk; [done|]. destruct k as [|k]; cbn in Hk.
  - injection Hk as ->. exists (gather (S n) l). rewrite Nat.add_0_r. done.
  - destruct (IH (S n) k Hk) as (rest & H1 & H2). exists (option_list (f n z) ++ rest).
    rewrite Nat.add_succ_r. split; [|intros y]; cbn; [rewrite H1|rewrite H2]; solve_Permutation.
Qed.

Lemma gather_same n l k x y : l !! k = Some x -> f (n + k)%nat y = f (n + k)%nat x ->
  gather n (<[k := y]> l) = gather n l.
Proof.
  revert n k. induction l as [|z l IH]; intros n k Hk E; [done|]. destruct k as [|k]; cbn in *.
  - injection Hk as ->. rewrite Nat.add_0_r in E. by rewrite E.
  - f_equal. apply IH; [done|]. by rewrite Nat.add_succ_r in E.
Qed.

Lemma gather_nil n l : (forall k x, l !! k = Some x -> f (n + k)%nat x = None) -> gather n l = [].
Proof.
  revert n. induction l as [|z l IH]; intros n H; [done|]. cbn.
  rewrite (IH (S n)); [|intros k x Hk; rewrite <- (H (S k) x Hk); f_equal; lia].
  specialize (H 0%nat z eq_refl). rewrite Nat.add_0_r in H. by rewrite H.
Qed.

Lemma elem_of_gather n l b :
  b ∈ gather n l <-> exists k x, l !! k = Some x /\ f (n + k)%nat x = Some b.
Proof.
  revert n. induction l as [|z l IH]; intros n; cbn.
  - rewrite elem_of_nil. split; [done|]. by intros (k & x & Hk & _).
  - rewrite elem_of_app, IH. split.
    + intros [H|(k & x & Hk & Hx)].
      * exists 0%nat, z. rewrite Nat.add_0_r. split; [done|].
        destruct (f n z); cbn in H; [by apply list_elem_of_singleton in H as ->|by apply elem_of_nil in H].
      * exists (S k), x. by rewrite Nat.add_succ_r.
    + intros ([|k] & x & Hk & Hx).
      * cbn in Hk. injection Hk as <-. rewrite Nat.add_0_r in Hx. rewrite Hx. left. by apply list_elem_of_singleton.
      * right. exists k, x. by rewrite Nat.add_succ_r in Hx.
Qed.
End Gather.

(** ** Updates of a cell *)

Lemma alter_at {A} (f : A -> A) k (l : list A) d : alter f k l = <[k := f (nth k l d)]> l.
Proof.
  destruct (l !! k) as [x|] eqn:Hk.
  - rewrite (nth_lookup_Some _ _ _ _ Hk). apply list_eq. intros j.
    destruct (decide (j = k)) as [->|Hj].
    + rewrite list_lookup_alter_eq, Hk, list_lookup_insert_eq; [done|by eapply lookup_lt_Some].
    + by rewrite list_lookup_alter_ne, list_lookup_insert_ne.
  - apply lookup_ge_None in Hk. rewrite list_insert_ge by done. apply list_eq. intros j.
    destruct (decide (j = k)) as [->|Hj]; [|by rewrite list_lookup_alter_ne].
    rewrite list_lookup_alter_eq. by rewrite (proj2 (lookup_ge_None l k) Hk).
Qed.

Lemma nth_insert_at {A} k (l : list A) x d : (k < length l)%nat -> nth k (<[k := x]> l) d = x.
Proof. intros. by apply nth_lookup_Some, list_lookup_insert_eq. Qed.

(** ** File contents *)

Lemma lookup_pread l o n x : 0 <= o -> Z.of_nat x < n -> pread l o n !! x = l !! (Z.to_nat o + x)%nat.
Proof. intros. unfold pread. rewrite lookup_take_lt by lia. apply lookup_drop. Qed.

Lemma zlen_pread l o n : 0 <= o -> zlen (pread l o n) = Z.max 0 (Z.min n (zlen l - o)).
Proof. intros. unfold pread, zlen. rewrite length_take, length_drop. lia. Qed.

Lemma lookup_pwrite_in l o d (x : nat) : 0 <= o -> o <= Z.of_nat x < o + zlen d ->
  pwrite l o d !! x = d !! (x - Z.to_nat o)%nat.
Proof.
  intros Ho Hx. unfold pwrite, zlen in *.
  assert (length (take (Z.to_nat o) (l ++ replicate (Z.to_nat o - length l) 0)) = Z.to_nat o) as Hl
    by (rewrite length_take, length_app, length_replicate; lia).
  rewrite lookup_app_r by lia. rewrite Hl. apply lookup_app_l. lia.
Qed.

Lemma lookup_pwrite_out l o d (x : nat) : 0 <= o -> (x < length l)%nat ->
  ~ (o <= Z.of_nat x < o + zlen d) -> pwrite l o d !! x = l !! x.
Proof.
  intros Ho Hl Hx. unfold pwrite, zlen in *.
  assert (length (take (Z.to_nat o) (l ++ replicate (Z.to_nat o - length l) 0)) = Z.to_nat o) as Hn
    by (rewrite length_take, length_app, length_replicate; lia).
  destruct (decide (x < Z.to_nat o)%nat) as [H|H].
  - rewrite lookup_app_l, lookup_take_lt, lookup_app_l by lia. done.
  - rewrite lookup_app_r by lia. rewrite Hn. rewrite lookup_app_r by lia. rewrite lookup_drop.
    f_equal. lia.
Qed.

Lemma zlen_pwrite l o d : 0 <= o -> zlen (pwrite l o d) = Z.max (zlen l) (o + zlen d).
Proof.
  intros Ho. unfold pwrite, zlen. rewrite !length_app, length_take, length_app, length_replicate, length_drop. lia.
Qed.

Lemma zlen_resize l n : 0 <= n -> zlen (resize l n) = n.
Proof. intros. unfold resize, zlen. rewrite length_app, length_take, length_replicate. lia. Qed.

Lemma lookup_resize l n (x : nat) : Z.of_nat x < n -> (x < length l)%nat -> resize l n !! x = l !! x.
Proof.
  intros Hn Hl. unfold resize. rewrite lookup_app_l by (rewrite length_take; lia). by apply lookup_take_lt; lia.
Qed.

(** The whole chunk read into a buffer and written elsewhere. *)
Lemma pread_pwrite_0 b d : zlen d <= zlen b -> pread (pwrite b 0 d) 0 (zlen d) = d.
Proof.
  intros H. unfold pread, pwrite, zlen in *. change (Z.to_nat 0) with 0%nat.
  rewrite take_0, drop_0, app_nil_l, Nat2Z.id. by apply take_app_length.
Qed.

(** ** Descriptors *)

Lemma lowest_fd_ge fuel fd m : fd <= lowest_fd fuel fd m.
Proof.
  revert fd m. induction fuel as [|n IH]; intros fd m; cbn; [lia|]. destruct (m !! fd); [|lia].
  specialize (IH (fd + 1) (delete fd m)). lia.
Qed.

Lemma lowest_fd_free fuel fd m : (size m <= fuel)%nat -> m !! lowest_fd fuel fd m = None.
Proof.
  revert fd m. induction fuel as [|n IH]; intros fd m Hs; cbn.
  - assert (m = ∅) as -> by (apply map_size_empty_inv; lia). apply lookup_empty.
  - destruct (m !! fd) eqn:E; [|done].
    rewrite <- (IH (fd + 1) (delete fd m)); [|rewrite map_size_delete_Some by done; lia].
    pose proof (lowest_fd_ge n (fd + 1) (delete fd m)). by rewrite lookup_delete_ne by lia.
Qed.
