(* ===== verification/Copy.v ===== *)
(** * auracp: the pipelined file copy

    [src/tools/auracp/auracp.c]: the task queue, the buffer slots, the three
    completion callbacks, [submit_next_read] and [copy_pipeline]. The program is
    a client of the engine: what it sees of it is a list of accepted requests
    ([ops]) that [aura_wait] completes in any order, each once, running its
    callback. Files are byte lists, and a read or a write transfers at most what
    the kernel decides ([answer]); every such decision, the outcome of each
    system call and the arrival of SIGINT come from the class [ClientEnv], indexed
    by the number of questions asked so far ([now]). The progress display and
    the messages are left out; timestamps change only where the code sets
    them. *)
From Stdlib Require Import ZArith Lia List String.
From stdpp Require Import base tactics strings list gmap.
From S2P Require Import Prelude Client.

#[local] Open Scope Z_scope.

(** ** Files *)

(** A file: its bytes, its mode, its access and modification times. *)
Record file_t := { content : list Z; st_mode : Z; st_times : Z * Z }.

Definition no_file : file_t := {| content := []; st_mode := 0; st_times := (0, 0) |}.

(** ** Data *)

Record config_t := {
  chunk_size : Z; pipeline_depth : nat;
  recursive : bool; use_direct : bool; no_fsync : bool; preserve : bool; keep_partial : bool
}.

Record file_task_t := {
  src_path : string; dst_path : string; file_size : Z; mode : Z;
  src_fd : Z; dst_fd : Z; read_offset : Z; bytes_written : Z;
  t_active_ops : Z; reads_done : bool; done : bool
}.

(** The linked list of tasks in its order; [current] and [next] are positions,
    [NULL] is a position past the end. *)
Record task_queue_t := {
  tasks : list file_task_t; current : nat;
  total_files : Z; completed_files : Z; total_bytes : Z; total_written : Z
}.

Inductive buf_state_t := BUF_FREE | BUF_READING | BUF_WRITING | BUF_FSYNCING.

#[export] Instance buf_state_eq_dec : EqDecision buf_state_t.
Proof. solve_decision. Defined.

Record buf_slot_t := {
  buf : list Z; offset : Z; bytes : Z; data_bytes : Z;
  state : buf_state_t; task : option nat
}.

(** A request the engine accepted: the callback follows from the kind, the
    user data is the slot; a descriptor is resolved when it is submitted. *)
Inductive op_kind := OpRead | OpWrite | OpFsync.

Record io_op := { op_kind_of : op_kind; op_file : option string; op_slot : nat; op_off : Z; op_len : Z }.

Record copy_ctx_t := {
  queue : task_queue_t; slots : list buf_slot_t; active_ops : Z; error : Z;
  ops : list io_op;
  fds : gmap Z string; files : gmap string file_t; now : nat
}.

Definition file_task_eta (r : file_task_t) : file_task_t :=
  {| src_path := src_path r; dst_path := dst_path r; file_size := file_size r; mode := mode r; src_fd := src_fd r; dst_fd := dst_fd r; read_offset := read_offset r; bytes_written := bytes_written r; t_active_ops := t_active_ops r; reads_done := reads_done r; done := done r |}.
#[export] Instance cset_src_path : Setter src_path := ltac:(mk_setter file_task_eta).
#[export] Instance cset_dst_path : Setter dst_path := ltac:(mk_setter file_task_eta).
#[export] Instance cset_file_size : Setter file_size := ltac:(mk_setter file_task_eta).
#[export] Instance cset_mode : Setter mode := ltac:(mk_setter file_task_eta).
#[export] Instance cset_src_fd : Setter src_fd := ltac:(mk_setter file_task_eta).
#[export] Instance cset_dst_fd : Setter dst_fd := ltac:(mk_setter file_task_eta).
#[export] Instance cset_read_offset : Setter read_offset := ltac:(mk_setter file_task_eta).
#[export] Instance cset_bytes_written : Setter bytes_written := ltac:(mk_setter file_task_eta).
#[export] Instance cset_t_active_ops : Setter t_active_ops := ltac:(mk_setter file_task_eta).
#[export] Instance cset_reads_done : Setter reads_done := ltac:(mk_setter file_task_eta).
#[export] Instance cset_done : Setter done := ltac:(mk_setter file_task_eta).

Definition task_queue_eta (r : task_queue_t) : task_queue_t :=
  {| tasks := tasks r; current := current r; total_files := total_files r; completed_files := completed_files r; total_bytes := total_bytes r; total_written := total_written r |}.
#[export] Instance cset_tasks : Setter tasks := ltac:(mk_setter task_queue_eta).
#[export] Instance cset_current : Setter current := ltac:(mk_setter task_queue_eta).
#[export] Instance cset_total_files : Setter total_files := ltac:(mk_setter task_queue_eta).
#[export] Instance cset_completed_files : Setter completed_files := ltac:(mk_setter task_queue_eta).
#[export] Instance cset_total_bytes : Setter total_bytes := ltac:(mk_setter task_queue_eta).
#[export] Instance cset_total_written : Setter total_written := ltac:(mk_setter task_queue_eta).

Definition buf_slot_eta (r : buf_slot_t) : buf_slot_t :=
  {| buf := buf r; offset := offset r; bytes := bytes r; data_bytes := data_bytes r; state := state r; task := task r |}.
#[export] Instance cset_buf : Setter buf := ltac:(mk_setter buf_slot_eta).
#[export] Instance cset_offset : Setter offset := ltac:(mk_setter buf_slot_eta).
#[export] Instance cset_bytes : Setter bytes := ltac:(mk_setter buf_slot_eta).
#[export] Instance cset_data_bytes : Setter data_bytes := ltac:(mk_setter buf_slot_eta).
#[export] Instance cset_state : Setter state := ltac:(mk_setter buf_slot_eta).
#[export] Instance cset_task : Setter task := ltac:(mk_setter buf_slot_eta).

Definition copy_ctx_eta (r : copy_ctx_t) : copy_ctx_t :=
  {| queue := queue r; slots := slots r; active_ops := active_ops r; error := error r; ops := ops r; fds := fds r; files := files r; now := now r |}.
#[export] Instance cset_queue : Setter queue := ltac:(mk_setter copy_ctx_eta).
#[export] Instance cset_slots : Setter slots := ltac:(mk_setter copy_ctx_eta).
#[export] Instance cset_active_ops : Setter active_ops := ltac:(mk_setter copy_ctx_eta).
#[export] Instance cset_error : Setter error := ltac:(mk_setter copy_ctx_eta).
#[export] Instance cset_ops : Setter ops := ltac:(mk_setter copy_ctx_eta).
#[export] Instance cset_fds : Setter fds := ltac:(mk_setter copy_ctx_eta).
#[export] Instance cset_files : Setter files := ltac:(mk_setter copy_ctx_eta).
#[export] Instance cset_now : Setter now := ltac:(mk_setter copy_ctx_eta).

(** ** Alignment *)

Definition SECTOR_SIZE : Z := 512.
Definition EIO_CODE : Z := 5.
(** [(x + a - 1) & ~(a - 1)] on [size_t]. *)
Definition round_up_sz (x a : Z) : Z := Z.land (u64 (x + a - 1)) (u64 (Z.lnot (a - 1))).

Definition dummy_task : file_task_t :=
  {| src_path := ""; dst_path := ""; file_size := 0; mode := 0; src_fd := -1; dst_fd := -1;
     read_offset := 0; bytes_written := 0; t_active_ops := 0; reads_done := false; done := false |}.

Definition dummy_slot : buf_slot_t :=
  {| buf := []; offset := 0; bytes := 0; data_bytes := 0; state := BUF_FREE; task := None |}.

Section Copy.
Context {E : ClientEnv} (cfg : config_t).
Implicit Types c : copy_ctx_t.

Definition task_at c (i : nat) : file_task_t := nth i (tasks (queue c)) dummy_task.
Definition slot_at c (k : nat) : buf_slot_t := nth k (slots c) dummy_slot.

Definition upd_queue c (f : task_queue_t -> task_queue_t) : copy_ctx_t := c <| queue := f (queue c) |>.
Definition upd_task c (i : nat) (f : file_task_t -> file_task_t) : copy_ctx_t :=
  upd_queue c (fun q => q <| tasks := alter f i (tasks q) |>).
Definition upd_slot c (k : nat) (f : buf_slot_t -> buf_slot_t) : copy_ctx_t :=
  c <| slots := alter f k (slots c) |>.
Definition set_current c (i : nat) : copy_ctx_t := upd_queue c (fun q => q <| current := i |>).
Definition add_active c (d : Z) : copy_ctx_t := c <| active_ops := active_ops c + d |>.
Definition add_task_active c (i : nat) (d : Z) : copy_ctx_t :=
  upd_task c i (fun t => t <| t_active_ops := t_active_ops t + d |>).

(** [if (ctx->error == 0) ctx->error = e]. *)
Definition set_error c (e : Z) : copy_ctx_t := if error c =? 0 then c <| error := e |> else c.

Definition file_at c (path : string) : file_t := default no_file (files c !! path).

(** Answers of the outside world. *)
Definition sys c : Z * copy_ctx_t := (ask_errno (now c), c <| now := S (now c) |>).
Definition g_interrupted c : bool * copy_ctx_t := (ask_interrupted (now c), c <| now := S (now c) |>).

(** ** System calls *)

Definition close c (fd : Z) : copy_ctx_t := c <| fds := delete fd (fds c) |>.

Definition open_fd c (path : string) : Z * copy_ctx_t :=
  let fd := lowest_fd (size (fds c)) 0 (fds c) in
  (fd, c <| fds := <[fd := path]> (fds c) |>).

Definition set_file c (fd : Z) (f : file_t -> file_t) : copy_ctx_t :=
  match fds c !! fd with
  | Some path => c <| files := <[path := f (file_at c path)]> (files c) |>
  | None => c
  end.

(** [ftruncate], [posix_fallocate], [fchmod] and [futimens] on an open file. *)
Definition ftruncate c (fd size : Z) : Z * copy_ctx_t :=
  let '(e, c) := sys c in
  if e =? 0 then (0, set_file c fd (fun f =>
    {| content := resize (content f) size; st_mode := st_mode f; st_times := st_times f |})) else (e, c).

Definition posix_fallocate c (fd size : Z) : copy_ctx_t :=
  let '(e, c) := sys c in
  if e =? 0 then set_file c fd (fun f =>
    {| content := resize (content f) (Z.max size (zlen (content f)));
       st_mode := st_mode f; st_times := st_times f |}) else c.

Definition fchmod c (fd m : Z) : copy_ctx_t :=
  let '(e, c) := sys c in
  if e =? 0 then set_file c fd (fun f =>
    {| content := content f; st_mode := m; st_times := st_times f |}) else c.

(** [fstat] of [src] followed by [futimens] of [dst]. *)
Definition copy_times c (src dst : Z) : copy_ctx_t :=
  let '(e, c) := sys c in
  match fds c !! src with
  | Some path =>
      if e =? 0 then
        let '(e, c) := sys c in
        if e =? 0 then set_file c dst (fun f =>
          {| content := content f; st_mode := st_mode f; st_times := st_times (file_at c path) |}) else c
      else c
  | None => c
  end.

(** ** The engine as its client sees it *)

(** [aura_read], [aura_write] and [aura_fsync]: accepted, or refused with an
    [errno]. *)
Definition submit c (kind : op_kind) (fd : Z) (k : nat) (off len : Z) : Z * copy_ctx_t :=
  let '(e, c) := sys c in
  if e =? 0
  then (0, c <| ops := ops c ++ [{| op_kind_of := kind; op_file := fds c !! fd; op_slot := k;
                                    op_off := off; op_len := len |}] |>)
  else (e, c).

(** The kernel executes a request: its result and its effect. *)
Definition execute c (op : io_op) (a : answer) : Z * copy_ctx_t :=
  match a, op_file op with
  | Refuse e, _ => (Z.neg e, c)
  | Transfer _, None => (- EBADF_CODE, c)
  | Transfer limit, Some path =>
      match op_kind_of op with
      | OpRead =>
          let data := pread (content (file_at c path)) (op_off op) (Z.min limit (op_len op)) in
          (zlen data, upd_slot c (op_slot op) (fun s => s <| buf := pwrite (buf s) 0 data |>))
      | OpWrite =>
          let data := pread (buf (slot_at c (op_slot op))) 0 (Z.min limit (op_len op)) in
          (zlen data, c <| files := <[path := let f := file_at c path in
             {| content := pwrite (content f) (op_off op) data; st_mode := st_mode f;
                st_times := st_times f |}]> (files c) |>)
      | OpFsync => (0, c)
      end
  end.

(** ** Finishing a file *)

Definition close_task c (i : nat) : copy_ctx_t :=
  let c := close c (src_fd (task_at c i)) in
  let c := close c (dst_fd (task_at c i)) in
  upd_task c i (fun t => t <| src_fd := -1 |> <| dst_fd := -1 |> <| done := true |>).

Definition free_slot c (k : nat) : copy_ctx_t :=
  upd_slot c k (fun s => s <| state := BUF_FREE |> <| task := None |>).

Definition finish_task c (i k : nat) : copy_ctx_t :=
  let c := upd_queue c (fun q => q <| completed_files := completed_files q + 1 |>) in
  let t := task_at c i in
  let c :=
    if use_direct cfg && (0 <=? dst_fd t) then
      let '(e, c) := ftruncate c (dst_fd t) (file_size t) in
      if negb (e =? 0) then set_error c (- e) else c
    else c in
  let c := if preserve cfg && (0 <=? dst_fd t) then copy_times c (src_fd t) (dst_fd t) else c in
  if negb (no_fsync cfg) && (0 <=? dst_fd t) then
    let c := upd_slot c k (fun s => s <| task := Some i |> <| state := BUF_FSYNCING |>) in
    let c := add_active c 1 in
    let '(e, c) := submit c OpFsync (dst_fd t) k 0 0 in
    if negb (e =? 0) then close_task (add_active (free_slot c k) (-1)) i
    else c
  else close_task c i.

(** ** Callbacks *)

(** The end of a chunk: [slot->state = BUF_FREE; slot->task = NULL;
    ctx->active_ops--; task->active_ops--]. *)
Definition release c (k i : nat) : copy_ctx_t := add_task_active (add_active (free_slot c k) (-1)) i (-1).

(** The slot and its task; [None] is a [NULL] task dereferenced. *)
Definition with_task c (k : nat) (f : nat -> copy_ctx_t) : option copy_ctx_t :=
  f <$> task (slot_at c k).

Definition on_read_complete c (result : Z) (k : nat) : option copy_ctx_t :=
  with_task c k (fun i =>
    if result <=? 0 then
      let c := if result <? 0 then set_error c (i32 result) else c in
      release c k i
    else
      let wlen := if use_direct cfg then round_up_sz result SECTOR_SIZE else result in
      let c :=
        if use_direct cfg && (result <? wlen) then
          upd_slot c k (fun s => s <| buf := pwrite (buf s) result (replicate (Z.to_nat (wlen - result)) 0) |>)
        else c in
      let c := upd_slot c k (fun s => s <| data_bytes := result |> <| bytes := wlen |> <| state := BUF_WRITING |>) in
      let '(e, c) := submit c OpWrite (dst_fd (task_at c i)) k (offset (slot_at c k)) wlen in
      if negb (e =? 0) then release (set_error c (- e)) k i
      else c).

Definition on_write_complete c (result : Z) (k : nat) : option copy_ctx_t :=
  with_task c k (fun i =>
    let s := slot_at c k in
    let c :=
      if result <? 0 then set_error c (i32 result)
      else if negb (result =? bytes s) then set_error c (- EIO_CODE)
      else
        upd_queue (upd_task c i (fun t => t <| bytes_written := bytes_written t + data_bytes s |>))
          (fun q => q <| total_written := total_written q + data_bytes s |>) in
    let c := release c k i in
    let t := task_at c i in
    if reads_done t && (t_active_ops t =? 0) && negb (done t) then finish_task c i k else c).

Definition on_fsync_complete c (result : Z) (k : nat) : option copy_ctx_t :=
  with_task c k (fun i =>
    let c := if result <? 0 then set_error c (i32 result) else c in
    add_active (free_slot (close_task c i) k) (-1)).

(** One completion: the request leaves the engine, the kernel's effect and the
    callback happen. Positions past the end are skipped. *)
Definition complete_op c (j : nat) (a : answer) : option copy_ctx_t :=
  match ops c !! j with
  | None => Some c
  | Some op =>
      let c := c <| ops := delete j (ops c) |> in
      let '(r, c) := execute c op a in
      match op_kind_of op with
      | OpRead => on_read_complete c r (op_slot op)
      | OpWrite => on_write_complete c r (op_slot op)
      | OpFsync => on_fsync_complete c r (op_slot op)
      end
  end.

Fixpoint complete_all c (l : list (nat * answer)) : option copy_ctx_t :=
  match l with
  | [] => Some c
  | (j, a) :: l => c ← complete_op c j a; complete_all c l
  end.

Definition aura_wait c : option (Z * copy_ctx_t) :=
  let '(l, r) := ask_wait (now c) (List.length (ops c)) in
  c ← complete_all (c <| now := S (now c) |>) l; Some (r, c).

(** ** The pipeline *)

(** [None] is a failure, with the descriptors as the code leaves them. *)
Definition open_task c (i : nat) : bool * copy_ctx_t :=
  let '(e, c) := sys c in
  if negb (e =? 0) then (false, c)
  else
    let '(fd, c) := open_fd c (src_path (task_at c i)) in
    let c := upd_task c i (fun t => t <| src_fd := fd |>) in
    let '(e, c) := sys c in
    if negb (e =? 0) then
      (false, upd_task (close c (src_fd (task_at c i))) i (fun t => t <| src_fd := -1 |>))
    else
      let t := task_at c i in
      let '(fd, c) := open_fd c (dst_path t) in
      let c := upd_task c i (fun t => t <| dst_fd := fd |>) in
      let c := set_file c fd (fun f =>
        {| content := []; st_mode := default (Z.land (mode t) 4095) (st_mode <$> files c !! dst_path t);
           st_times := st_times f |}) in
      let c := if 0 <? file_size t then posix_fallocate c fd (file_size t) else c in
      (true, fchmod c fd (Z.land (mode t) 4095)).

(** The first task from [i] on that still needs reads, if any. *)
Fixpoint find_reader (n : nat) (l : list file_task_t) (i : nat) : option nat :=
  match n with
  | O => None
  | S n => match l !! i with
           | None => None
           | Some t => if reads_done t || done t then find_reader n l (S i) else Some i
           end
  end.

(** The rest of [submit_next_read] once the task is open. *)
Definition submit_read c (i k : nat) : copy_ctx_t :=
  let t := task_at c i in
  let chunk := if file_size t <? read_offset t + chunk_size cfg
               then file_size t - read_offset t else chunk_size cfg in
  let io_len := if use_direct cfg then round_up_sz chunk SECTOR_SIZE else chunk in
  let c := upd_slot c k (fun s => s <| offset := read_offset t |> <| bytes := io_len |>
                                    <| data_bytes := chunk |> <| state := BUF_READING |> <| task := Some i |>) in
  let c := upd_task c i (fun t => t <| read_offset := read_offset t + chunk |>) in
  let c :=
    if file_size t <=? read_offset (task_at c i)
    then set_current (upd_task c i (fun t => t <| reads_done := true |>)) (S i) else c in
  let '(e, c) := submit c OpRead (src_fd t) k (read_offset t) io_len in
  if negb (e =? 0) then
    upd_task (free_slot (set_error c (- e)) k) i (fun t => t <| read_offset := read_offset t - chunk |>)
  else add_task_active (add_active c 1) i 1.

(** [fuel] bounds the recursive calls, each of which follows the end of a task. *)
Fixpoint submit_next_read (fuel : nat) c (k : nat) : copy_ctx_t :=
  match fuel with
  | O => c
  | S fuel =>
      let l := tasks (queue c) in
      match find_reader (List.length l) l (current (queue c)) with
      | None => c
      | Some i =>
          if src_fd (task_at c i) <? 0 then
            match open_task c i with
            | (false, c) =>
                let c := upd_task c i (fun t => t <| reads_done := true |> <| done := true |>) in
                let c := upd_queue c (fun q => q <| completed_files := completed_files q + 1 |>) in
                submit_next_read fuel (set_current c (S i)) k
            | (true, c) =>
                if file_size (task_at c i) =? 0 then
                  let c := upd_task c i (fun t => t <| reads_done := true |>) in
                  submit_next_read fuel (set_current (finish_task c i k) (S i)) k
                else submit_read c i k
            end
          else submit_read c i k
      end
  end.

Definition next_read c (k : nat) : copy_ctx_t := submit_next_read (S (List.length (tasks (queue c)))) c k.

Definition all_tasks_done c : bool := forallb done (tasks (queue c)).

(** The first batch stops at the first error or interrupt; the refill skips
    busy slots. *)
Fixpoint first_batch c (k n : nat) : copy_ctx_t :=
  match n with
  | O => c
  | S n =>
      if negb (error c =? 0) then c
      else let '(stop, c) := g_interrupted c in
           if stop then c else first_batch (next_read c k) (S k) n
  end.

Fixpoint refill c (k n : nat) : copy_ctx_t :=
  match n with
  | O => c
  | S n =>
      if decide (state (slot_at c k) = BUF_FREE) then
        if negb (error c =? 0) then refill c (S k) n
        else let '(stop, c) := g_interrupted c in
             refill (if stop then c else next_read c k) (S k) n
      else refill c (S k) n
  end.

(** [Returned] with [ctx->error], a [NULL] task dereferenced, or still running
    after [fuel] iterations. *)
Inductive outcome := Returned (err : Z) (c : copy_ctx_t) | NullTask | Running (c : copy_ctx_t).

Fixpoint drain (fuel : nat) c : outcome :=
  if active_ops c <=? 0 then Returned (error c) c
  else match fuel with
       | O => Running c
       | S fuel => match aura_wait c with None => NullTask | Some (_, c) => drain fuel c end
       end.

Definition wait_failed (n : Z) : bool :=
  (n <? 0) && negb (n =? - EINTR_CODE) && negb (n =? - ETIME_CODE) && negb (n =? - ETIMEDOUT_CODE).

(** The main loop, then the drain; each gets [fuel] iterations. *)
Fixpoint main_loop (fuel : nat) c : outcome :=
  if all_tasks_done c || negb (error c =? 0) then drain fuel c
  else
    let '(stop, c) := g_interrupted c in
    if stop then drain fuel c
    else match fuel with
         | O => Running c
         | S fuel =>
             match aura_wait c with
             | None => NullTask
             | Some (n, c) =>
                 if wait_failed n then drain fuel (set_error c n)
                 else main_loop fuel (refill c 0 (pipeline_depth cfg))
             end
         end.

Definition copy_pipeline (fuel : nat) c : outcome :=
  main_loop fuel (first_batch c 0 (pipeline_depth cfg)).

(** [cleanup_partial_files]: the destinations that are unlinked. *)
Definition cleanup_partial_files c : list string :=
  if keep_partial cfg then []
  else dst_path <$> List.filter (fun t => negb (done t)) (tasks (queue c)).

End Copy.
