(* ===== verification/CopySpec.v ===== *)
(** * The state of a copy in progress

    The invariant of [Copy.copy_pipeline]: the requests in flight are exactly
    those the busy slots describe, and what a task has read, written and still
    has in flight accounts for every byte of its file. *)
From Stdlib Require Import ZArith Lia List String.
From stdpp Require Import base tactics strings list gmap.
From S2P Require Import Prelude Client Copy.

#[local] Open Scope Z_scope.

(** ** Sector padding *)

Lemma land_sectors x : 0 <= x <= SIZE_MAX -> Z.land x (u64 (Z.lnot 511)) = 512 * (x / 512).
Proof.
  intros Hx. unfold SIZE_MAX in Hx.
  replace (512 * (x / 512)) with (Z.ldiff x (Z.ones 9)).
  2:{ rewrite Z.ldiff_ones_r, Z.shiftl_mul_pow2, Z.shiftr_div_pow2 by lia. change (2 ^ 9) with 512. lia. }
  change 511 with (Z.ones 9). apply Z.bits_inj'. intros i Hi.
  rewrite Z.land_spec, Z.ldiff_spec. unfold u64, wrap_u.
  destruct (Z.lt_decidable i 64) as [H|H].
  - by rewrite Z.mod_pow2_bits_low, Z.lnot_spec by lia.
  - assert (Z.testbit x i = false) as ->; [|done].
    destruct (decide (x = 0)) as [->|]; [apply Z.bits_0|]. apply Z.bits_above_log2; [lia|].
    apply Z.log2_lt_pow2; [lia|]. apply Z.lt_le_trans with (2 ^ 64); [lia|]. by apply Z.pow_le_mono_r; lia.
Qed.

Lemma round_up_sector n : 0 <= n < 2 ^ 62 -> round_up_sz n SECTOR_SIZE = 512 * ((n + 511) / 512).
Proof.
  intros Hn. unfold round_up_sz, SECTOR_SIZE. change (512 - 1) with 511.
  replace (n + 512 - 1) with (n + 511) by lia. rewrite u64_id by (unfold SIZE_MAX; lia).
  apply land_sectors. unfold SIZE_MAX. lia.
Qed.

(** ** The invariant *)

(** The files to copy: the tasks' paths and sizes, and the contents of the
    sources. *)
Record job_t := {
  j_count : nat; j_src : nat -> string; j_dst : nat -> string; j_size : nat -> Z; j_data : nat -> list Z
}.

Section Spec.
Context {E : ClientEnv} (cfg : config_t) (J : job_t).
Implicit Types c : copy_ctx_t.

(** Nothing fails: no call is refused, nothing interrupts, every transfer is as
    long as it can be, and a wait completes a request if there is one. *)
Definition friendly : Prop :=
  (forall n, ask_errno n = 0) /\ (forall n, ask_interrupted n = false) /\
  (forall n m l r, ask_wait n m = (l, r) -> 0 <= r /\
     Forall (fun p => exists limit, snd p = Transfer limit /\ chunk_size cfg <= limit) l /\
     ((0 < m)%nat -> exists j a l', l = (j, a) :: l' /\ (j < m)%nat)).

Record job_ok : Prop := {
  ok_src : forall i j, (i < j_count J)%nat -> (j < j_count J)%nat -> i <> j -> j_src J i <> j_src J j;
  ok_dst : forall i j, (i < j_count J)%nat -> (j < j_count J)%nat -> i <> j -> j_dst J i <> j_dst J j;
  ok_apart : forall i j, (i < j_count J)%nat -> (j < j_count J)%nat -> j_src J i <> j_dst J j;
  ok_size : forall i, (i < j_count J)%nat -> zlen (j_data J i) = j_size J i;
  ok_chunk : 0 < chunk_size cfg < 2 ^ 62;
  ok_sector : use_direct cfg = true -> (512 | chunk_size cfg);
  (** [submit_next_read] reuses the slot of an empty file while its fsync is in
      flight. *)
  ok_empty : no_fsync cfg = true \/ forall i, (i < j_count J)%nat -> 0 < j_size J i
}.

Definition io_len (n : Z) : Z := if use_direct cfg then round_up_sz n SECTOR_SIZE else n.

(** The length of the chunk of file [i] that starts at [o]. *)
Definition chunk_at (i : nat) (o : Z) : Z := Z.min (chunk_size cfg) (j_size J i - o).

(** The chunks of task [i] in flight, its fsync, and the request of each slot. *)
Definition flight (i : nat) (_ : nat) (s : buf_slot_t) : option buf_slot_t :=
  match state s with
  | BUF_READING | BUF_WRITING => if decide (task s = Some i) then Some s else None
  | _ => None
  end.

Definition syncing (i : nat) (k : nat) (s : buf_slot_t) : option nat :=
  match state s with BUF_FSYNCING => if decide (task s = Some i) then Some k else None | _ => None end.

Definition request (k : nat) (s : buf_slot_t) : option io_op :=
  let i := default 0%nat (task s) in
  match state s with
  | BUF_FREE => None
  | BUF_READING => Some {| op_kind_of := OpRead; op_file := Some (j_src J i); op_slot := k;
                           op_off := offset s; op_len := bytes s |}
  | BUF_WRITING => Some {| op_kind_of := OpWrite; op_file := Some (j_dst J i); op_slot := k;
                           op_off := offset s; op_len := bytes s |}
  | BUF_FSYNCING => Some {| op_kind_of := OpFsync; op_file := Some (j_dst J i); op_slot := k;
                            op_off := 0; op_len := 0 |}
  end.

Definition flights c i : list buf_slot_t := gather (flight i) 0 (slots c).
Definition syncs c i : list nat := gather (syncing i) 0 (slots c).

Record flight_ok (i : nat) (s : buf_slot_t) : Prop := {
  f_off : 0 <= offset s;
  f_data : 0 < data_bytes s <= chunk_at i (offset s);
  f_read : state s = BUF_READING ->
    data_bytes s = chunk_at i (offset s) /\ bytes s = io_len (chunk_at i (offset s));
  f_write : state s = BUF_WRITING ->
    bytes s = io_len (data_bytes s) /\ bytes s <= chunk_size cfg /\
    pread (buf s) 0 (data_bytes s) = pread (j_data J i) (offset s) (data_bytes s)
}.

Definition in_chunk (i : nat) (x : Z) (s : buf_slot_t) : Prop :=
  offset s <= x < offset s + chunk_at i (offset s).

Definition claimed (i : nat) (s : buf_slot_t) : Z := chunk_at i (offset s).

(** Task [i], its chunks in flight, its fsync, the open descriptors and its
    destination. *)
Record task_ok (i : nat) (t : file_task_t) (fl : list buf_slot_t) (sy : list nat)
    (open : gmap Z string) (dst : list Z) : Prop := {
  k_static : src_path t = j_src J i /\ dst_path t = j_dst J i /\ file_size t = j_size J i;
  k_active : t_active_ops t = zlen fl;
  k_done : done t = true -> reads_done t = true;
  k_flights : Forall (flight_ok i) fl;
  k_closed : src_fd t < 0 -> fl = [] /\ sy = [] /\
    (done t = true \/ read_offset t = 0 /\ bytes_written t = 0 /\ reads_done t = false);
  k_open : 0 <= src_fd t -> done t = false /\ 0 <= dst_fd t /\
    open !! src_fd t = Some (j_src J i) /\ open !! dst_fd t = Some (j_dst J i) /\
    (reads_done t = true <-> read_offset t = j_size J i);
  k_range : 0 <= read_offset t <= j_size J i;
  k_sync : sy <> [] -> length sy = 1%nat /\ fl = [] /\ reads_done t = true /\ 0 <= src_fd t;
  k_count : bytes_written t + zsum (claimed i <$> fl) <= read_offset t;
  k_agree : 0 <= src_fd t -> bytes_written t + zsum (data_bytes <$> fl) = read_offset t ->
    forall x : nat, Z.of_nat x < read_offset t -> Forall (fun s => ~ in_chunk i (Z.of_nat x) s) fl ->
    dst !! x = j_data J i !! x;
  k_len : 0 <= src_fd t -> use_direct cfg = false -> zlen dst <= j_size J i;
  k_finished : done t = true \/ sy <> [] -> bytes_written t = j_size J i ->
    0 < j_size J i \/ friendly -> dst = j_data J i;
  k_exact : friendly -> bytes_written t + zsum (data_bytes <$> fl) = read_offset t /\
    (done t = true -> read_offset t = j_size J i)
}.

(** A descriptor of task [i]. *)
Definition owns (i : nat) (t : file_task_t) (fd : Z) (path : string) : Prop :=
  0 <= src_fd t /\ (fd = src_fd t /\ path = j_src J i \/ fd = dst_fd t /\ path = j_dst J i).

Record slot_ok (s : buf_slot_t) : Prop := {
  sl_buf : zlen (buf s) = chunk_size cfg;
  sl_task : state s <> BUF_FREE -> exists i, task s = Some i /\ (i < j_count J)%nat
}.

Definition task_inv c (i : nat) (t : file_task_t) : Prop :=
  task_ok i t (flights c i) (syncs c i) (fds c) (content (file_at c (j_dst J i))).

(** [fds0] are the descriptors that were open before the copy. *)
Record copy_inv (fds0 : gmap Z string) c : Prop := {
  g_count : length (tasks (queue c)) = j_count J;
  g_tasks : forall i t, tasks (queue c) !! i = Some t -> task_inv c i t;
  g_slots : Forall slot_ok (slots c);
  g_ops : ops c ≡ₚ gather request 0 (slots c);
  g_active : active_ops c = zlen (ops c);
  g_current : forall i t, (i < current (queue c))%nat -> tasks (queue c) !! i = Some t -> reads_done t = true;
  g_sources : forall i, (i < j_count J)%nat -> content (file_at c (j_src J i)) = j_data J i;
  g_fds : forall fd path, fds c !! fd = Some path ->
    fds0 !! fd = Some path \/ exists i t, tasks (queue c) !! i = Some t /\ owns i t fd path;
  g_error : error c = 0
}.

(** The clauses do not depend on the order of the chunks. *)
Lemma task_ok_perm i t fl fl' sy sy' open dst :
  fl ≡ₚ fl' -> sy ≡ₚ sy' -> task_ok i t fl sy open dst -> task_ok i t fl' sy' open dst.
Proof.
  intros P Q [].
  assert (forall f, zsum (f <$> fl) = zsum (f <$> fl')) as Es.
  { intros f. clear -P. induction P; cbn; lia. }
  assert (forall l l' : list nat, l ≡ₚ l' -> l' <> [] -> l <> []) as Hn.
  { intros l l' R H ->. by apply Permutation_nil in R. }
  assert (sy' <> [] -> sy <> []) as Hs' by (by apply Hn).
  split; try done.
  - rewrite k_active0. unfold zlen. by rewrite P.
  - by rewrite <- P.
  - intros H. destruct (k_closed0 H) as (-> & -> & ?). apply Permutation_nil in P as ->.
    by apply Permutation_nil in Q as ->.
  - intros H. destruct (k_sync0 (Hs' H)) as (? & -> & ?). rewrite <- Q. apply Permutation_nil in P as ->. done.
  - by rewrite <- Es.
  - rewrite <- Es. intros H1 H2 x Hx Hall. apply k_agree0; [done|done|done|]. by rewrite P.
  - intros [H|H]; apply k_finished0; auto.
  - by rewrite <- Es.
Qed.

(** A step that concerns slot [k] and task [i]: the rest of the state keeps the
    invariant when the step leaves their files and descriptors alone. *)
Record change c c' (i k : nat) (t t' : file_task_t) (s s' : buf_slot_t) : Prop := {
  ch_i : tasks (queue c) !! i = Some t;
  ch_k : slots c !! k = Some s;
  ch_tasks : tasks (queue c') = <[i := t']> (tasks (queue c));
  ch_slots : slots c' = <[k := s']> (slots c);
  ch_owner : (task s = Some i \/ state s = BUF_FREE) /\ (task s' = Some i \/ state s' = BUF_FREE);
  ch_buf : zlen (buf s') = zlen (buf s);
  ch_ops : ops c' ++ option_list (request k s) ≡ₚ ops c ++ option_list (request k s');
  ch_active : active_ops c' = zlen (ops c');
  ch_current : current (queue c') = current (queue c) \/
    current (queue c') = S i /\ reads_done t' = true /\
    forall j u, (current (queue c) <= j < i)%nat -> tasks (queue c) !! j = Some u -> reads_done u = true;
  ch_reads : reads_done t = true -> reads_done t' = true;
  ch_files : forall path, path <> j_dst J i -> files c' !! path = files c !! path;
  ch_fds : forall fd path, path <> j_src J i -> path <> j_dst J i ->
    fds c !! fd = Some path -> fds c' !! fd = Some path;
  ch_fds' : forall fd path, fds c' !! fd = Some path -> owns i t' fd path \/
    fds c !! fd = Some path /\ (owns i t fd path -> owns i t' fd path)
}.

Lemma other_flight i j k s : task s = Some i \/ state s = BUF_FREE -> i <> j -> flight j k s = None.
Proof. unfold flight. intros [Hs|Hs] Hij; rewrite Hs; [|done]. destruct (state s); [done| | |done]; rewrite decide_False by congruence; done. Qed.

Lemma other_syncing i j k s : task s = Some i \/ state s = BUF_FREE -> i <> j -> syncing j k s = None.
Proof. unfold syncing. intros [Hs|Hs] Hij; rewrite Hs; [|done]. destruct (state s); try done; rewrite decide_False by congruence; done. Qed.

Lemma task_index fds0 c i t : copy_inv fds0 c -> tasks (queue c) !! i = Some t -> (i < j_count J)%nat.
Proof. intros [Hn _ _ _ _ _ _ _] H. rewrite <- Hn. by eapply lookup_lt_Some. Qed.

(** What a step leaves alone. *)
Lemma change_others c c' i k t t' s s' j : change c c' i k t t' s s' -> j <> i ->
  tasks (queue c') !! j = tasks (queue c) !! j /\ flights c' j = flights c j /\ syncs c' j = syncs c j.
Proof.
  intros C Hj. pose proof (ch_k _ _ _ _ _ _ _ _ C) as Hk. destruct (ch_owner _ _ _ _ _ _ _ _ C) as [Ho Ho'].
  unfold flights, syncs. rewrite (ch_tasks _ _ _ _ _ _ _ _ C), (ch_slots _ _ _ _ _ _ _ _ C).
  split; [by rewrite list_lookup_insert_ne|].
  split; eapply gather_same; try done; [by rewrite !(other_flight i j)|by rewrite !(other_syncing i j)].
Qed.

Lemma inv_change fds0 c c' i k t t' s s' : job_ok -> copy_inv fds0 c -> change c c' i k t t' s s' ->
  error c' = 0 -> task_inv c' i t' -> copy_inv fds0 c'.
Proof.
  intros HJ I C Herr Ht'. pose proof (fun j => change_others _ _ _ _ _ _ _ _ j C) as Hoth.
  destruct C as [Hi Hk Et Es [Ho Ho'] Hb Hops Hact Hcur Hrd Hfiles Hfds Hfds'].
  pose proof (task_index _ _ _ _ I Hi) as Hin. destruct I as [Hn Htasks Hslots Hop _ Hc Hsrc Hfd _].
  assert (forall j u, j <> i -> tasks (queue c) !! j = Some u -> task_inv c' j u) as Hother.
  { intros j u Hj Hu. specialize (Htasks j u Hu).
    assert (j < j_count J)%nat as Hjn by (rewrite <- Hn; by eapply lookup_lt_Some).
    destruct (Hoth j Hj) as (_ & Ef & Ey).
    assert (file_at c' (j_dst J j) = file_at c (j_dst J j)) as Ed.
    { unfold file_at. rewrite Hfiles; [done|]. by apply (ok_dst HJ). }
    unfold task_inv. rewrite Ef, Ey, Ed. destruct Htasks. split; try done. intros H.
    destruct (k_open0 H) as (? & ? & ? & ? & ?). split_and!; try done; apply Hfds; try done.
    - by apply (ok_src HJ).
    - by apply (ok_apart HJ).
    - intros Eq. symmetry in Eq. by apply (ok_apart HJ) in Eq.
    - by apply (ok_dst HJ). }
  split.
  - by rewrite Et, length_insert.
  - intros j u. rewrite Et. destruct (decide (j = i)) as [->|Hj].
    + rewrite list_lookup_insert_eq by (by eapply lookup_lt_Some). by intros [= <-].
    + rewrite list_lookup_insert_ne by done. by apply Hother.
  - rewrite Es. apply Forall_insert; [done|]. pose proof (Forall_lookup_1 _ _ _ _ Hslots Hk) as [Hb0 _].
    split; [lia|]. intros Hs'. destruct Ho' as [Ho'|Ho']; [eauto|done].
  - rewrite Es. destruct (gather_split request 0 (slots c) k s Hk) as (rest & H1 & H2). rewrite (H2 s').
    rewrite Hop, H1 in Hops. cbn in Hops |- *.
    apply (Permutation_app_inv_r (option_list (request k s))). rewrite Hops. solve_Permutation.
  - done.
  - intros j u Hj. rewrite Et. destruct (decide (j = i)) as [->|Hji].
    + rewrite list_lookup_insert_eq by (by eapply lookup_lt_Some). intros [= <-].
      destruct Hcur as [Hcur|(_ & Hcur & _)]; [|done]. apply Hrd. apply (Hc i t); [lia|done].
    + rewrite list_lookup_insert_ne by done. intros Hu.
      destruct Hcur as [Hcur|(Hcur & _ & Hb')]; [apply (Hc j u); [lia|done]|].
      destruct (decide (j < current (queue c))%nat) as [Hlt|Hge]; [by apply (Hc j u)|].
      apply (Hb' j u); [lia|done].
  - intros j Hj. unfold file_at. rewrite Hfiles by (by apply (ok_apart HJ)). by apply Hsrc.
  - intros fd path Hp. destruct (Hfds' fd path Hp) as [Hown|[Hp0 Hown]].
    + right. exists i, t'. rewrite Et, list_lookup_insert_eq by (by eapply lookup_lt_Some). done.
    + destruct (Hfd fd path Hp0) as [?|(j & u & Hu & Hj)]; [by left|]. right.
      destruct (decide (j = i)) as [->|Hji].
      * rewrite Hi in Hu. injection Hu as <-. exists i, t'. rewrite Et, list_lookup_insert_eq by (by eapply lookup_lt_Some). auto.
      * exists j, u. by rewrite Et, list_lookup_insert_ne.
  - done.
Qed.

(** What slot [k] adds to the chunks and the fsyncs of a task. *)
Lemma flights_split c i k s : slots c !! k = Some s ->
  exists rest, flights c i ≡ₚ option_list (flight i k s) ++ rest /\
    forall c' s', slots c' = <[k := s']> (slots c) -> flights c' i ≡ₚ option_list (flight i k s') ++ rest.
Proof.
  intros Hk. destruct (gather_split (flight i) 0 _ k s Hk) as (rest & H1 & H2). exists rest.
  split; [done|]. intros c' s' E'. unfold flights. rewrite E'. apply H2.
Qed.

Lemma syncs_split c i k s : slots c !! k = Some s ->
  exists rest, syncs c i ≡ₚ option_list (syncing i k s) ++ rest /\
    forall c' s', slots c' = <[k := s']> (slots c) -> syncs c' i ≡ₚ option_list (syncing i k s') ++ rest.
Proof.
  intros Hk. destruct (gather_split (syncing i) 0 _ k s Hk) as (rest & H1 & H2). exists rest.
  split; [done|]. intros c' s' E'. unfold syncs. rewrite E'. apply H2.
Qed.

(** The task of the changed slot, seen with that slot taken out. *)
Lemma change_task fds0 c c' i k t t' s s' : copy_inv fds0 c -> change c c' i k t t' s s' ->
  exists fl sy,
    task_ok i t (option_list (flight i k s) ++ fl) (option_list (syncing i k s) ++ sy) (fds c)
      (content (file_at c (j_dst J i))) /\
    (task_ok i t' (option_list (flight i k s') ++ fl) (option_list (syncing i k s') ++ sy) (fds c')
       (content (file_at c' (j_dst J i))) -> task_inv c' i t') /\
    flights c i ≡ₚ option_list (flight i k s) ++ fl /\ flights c' i ≡ₚ option_list (flight i k s') ++ fl /\
    syncs c i ≡ₚ option_list (syncing i k s) ++ sy /\ syncs c' i ≡ₚ option_list (syncing i k s') ++ sy.
Proof.
  intros I C. pose proof (g_tasks _ _ I i t (ch_i _ _ _ _ _ _ _ _ C)) as Ht.
  destruct (flights_split c i k s (ch_k _ _ _ _ _ _ _ _ C)) as (fl & F1 & F2).
  destruct (syncs_split c i k s (ch_k _ _ _ _ _ _ _ _ C)) as (sy & Y1 & Y2).
  pose proof (ch_slots _ _ _ _ _ _ _ _ C) as Es. specialize (F2 c' s' Es). specialize (Y2 c' s' Es).
  exists fl, sy. split; [by eapply task_ok_perm|]. split; [|done].
  intros H. eapply task_ok_perm; [| |exact H]; done.
Qed.

End Spec.
