(* ===== verification/CopySteps.v ===== *)
(** * The steps of a copy preserve its invariant

    Completions of reads, writes and fsyncs, the end of a file, and the
    submission of the next read, each against [CopySpec.copy_inv]. *)
From Stdlib Require Import ZArith Lia List String.
From stdpp Require Import base tactics strings list gmap.
From S2P Require Import Prelude Client Copy CopySpec.

#[local] Open Scope Z_scope.

#[local] Arguments pwrite : simpl never.
#[local] Arguments pread : simpl never.
#[local] Arguments gather : simpl never.
#[local] Arguments zlen : simpl never.
#[local] Arguments round_up_sz : simpl never.

Section Steps.
Context {E : ClientEnv} (cfg : config_t) (J : job_t) (HJ : job_ok cfg J) (fds0 : gmap Z string).
Implicit Types c : copy_ctx_t.

Abbreviation inv := (copy_inv cfg J fds0).
Abbreviation tok := (task_ok cfg J).

(** The request at position [j], its slot and its task. *)
Lemma op_in_flight c j op : inv c -> ops c !! j = Some op ->
  exists s i t, slots c !! op_slot op = Some s /\ request J (op_slot op) s = Some op /\
    task s = Some i /\ tasks (queue c) !! i = Some t /\ ops c ≡ₚ op :: delete j (ops c).
Proof.
  intros I Hj. assert (op ∈ ops c) as Hin by (by eapply list_elem_of_lookup_2).
  rewrite (g_ops _ _ _ _ I) in Hin. apply elem_of_gather in Hin as (k & s & Hk & Hr). cbn in Hr.
  assert (op_slot op = k) as <-.
  { unfold request in Hr. destruct (state s); [done|..]; injection Hr as <-; done. }
  pose proof (Forall_lookup_1 _ _ _ _ (g_slots _ _ _ _ I) Hk) as [_ Ht].
  destruct Ht as (i & Hi & Hn); [intros Hs; unfold request in Hr; by rewrite Hs in Hr|].
  destruct (lookup_lt_is_Some_2 (tasks (queue c)) i) as [t Ht]; [by rewrite (g_count _ _ _ _ I)|].
  exists s, i, t. split_and!; try done. by apply delete_Permutation.
Qed.

Lemma task_at_lookup c i t : tasks (queue c) !! i = Some t -> task_at c i = t.
Proof. apply nth_lookup_Some. Qed.

Lemma slot_at_lookup c k s : slots c !! k = Some s -> slot_at c k = s.
Proof. apply nth_lookup_Some. Qed.

Lemma io_len_pos n : 0 < n <= chunk_size cfg -> n <= io_len cfg n <= chunk_size cfg.
Proof.
  intros Hn. unfold io_len. destruct (use_direct cfg) eqn:Ed; [|lia].
  pose proof (ok_chunk _ _ HJ). destruct (ok_sector _ _ HJ Ed) as [q Hq].
  rewrite round_up_sector by lia. rewrite Hq in *. split; dlia.
Qed.

Lemma chunk_le i o : chunk_at cfg J i o <= chunk_size cfg.
Proof. unfold chunk_at. lia. Qed.

Lemma flights_bound i fl : Forall (flight_ok cfg J i) fl ->
  zsum (data_bytes <$> fl) <= zsum (claimed cfg J i <$> fl).
Proof. induction 1 as [|s fl [_ Hd _ _]]; cbn; [lia|]. unfold claimed at 1. lia. Qed.

(** A padded read of a chunk gets the chunk: the padding is past the end of the
    file. *)
Lemma io_len_clipped i o : 0 < chunk_at cfg J i o ->
  Z.min (io_len cfg (chunk_at cfg J i o)) (j_size J i - o) = chunk_at cfg J i o.
Proof.
  intros H. pose proof (io_len_pos (chunk_at cfg J i o) ltac:(unfold chunk_at in *; lia)) as Hl.
  unfold chunk_at in *. lia.
Qed.

(** ** A chunk leaves its slot *)

Section Retire.
Context (c c' : copy_ctx_t) (i k : nat) (t t' : file_task_t) (s s' : buf_slot_t) (op : io_op).
Hypothesis (I : inv c) (Hi : tasks (queue c) !! i = Some t) (Hk : slots c !! k = Some s)
  (Hs : state s = BUF_READING \/ state s = BUF_WRITING) (Htask : task s = Some i)
  (Hop : request J k s = Some op)
  (Etasks : tasks (queue c') = <[i := t']> (tasks (queue c)))
  (Ecur : current (queue c') = current (queue c))
  (Eslots : slots c' = <[k := s']> (slots c)) (Hfree : state s' = BUF_FREE) (Hbuf : zlen (buf s') = zlen (buf s))
  (Eops : ops c ≡ₚ op :: ops c') (Eact : active_ops c' = active_ops c - 1)
  (Efds : fds c' = fds c)
  (Efiles : forall path, path <> j_dst J i -> files c' !! path = files c !! path)
  (Eerr : error c' = 0)
  (Et : src_path t' = src_path t /\ dst_path t' = dst_path t /\ file_size t' = file_size t /\
        src_fd t' = src_fd t /\ dst_fd t' = dst_fd t /\ read_offset t' = read_offset t /\
        reads_done t' = reads_done t /\ done t' = done t /\ t_active_ops t' = t_active_ops t - 1).

Lemma retire_flight : flight i k s = Some s /\ flight i k s' = None /\ syncing i k s = None /\ syncing i k s' = None.
Proof using Hs Htask Hfree.
  unfold flight, syncing. rewrite Hfree, Htask, decide_True by done. by destruct Hs as [-> | ->].
Qed.

Lemma retire_change : change J c c' i k t t' s s'.
Proof using I Hi Hk Htask Hop Etasks Ecur Eslots Hfree Hbuf Eops Eact Efds Efiles Et.
  split; try done; try (by left); try (by right).
  - split; [by left|by right].
  - rewrite Hop. unfold request. rewrite Hfree, Eops, app_nil_r. cbn. by rewrite Permutation_app_comm.
  - rewrite Eact, (g_active _ _ _ _ I). unfold zlen. rewrite Eops. cbn. lia.
  - by destruct Et as (_ & _ & _ & _ & _ & _ & -> & _).
  - by rewrite Efds.
  - intros fd path. rewrite Efds. intros H. right. split; [done|]. unfold owns.
    by destruct Et as (_ & _ & _ & -> & -> & _).
Qed.

(** The bytes of the chunk are either lost or have been written. *)
Lemma retire_ok w :
  bytes_written t' = bytes_written t + w ->
  (w = 0 \/ w = data_bytes s) ->
  (use_direct cfg = false -> zlen (content (file_at c (j_dst J i))) <= j_size J i ->
    zlen (content (file_at c' (j_dst J i))) <= j_size J i) ->
  (w = chunk_at cfg J i (offset s) ->
    forall x : nat, Z.of_nat x < j_size J i ->
      if decide (in_chunk cfg J i (Z.of_nat x) s)
      then content (file_at c' (j_dst J i)) !! x = j_data J i !! x
      else content (file_at c (j_dst J i)) !! x = j_data J i !! x ->
           content (file_at c' (j_dst J i)) !! x = j_data J i !! x) ->
  (friendly cfg -> w = data_bytes s) ->
  inv c' /\ (flights c' i = [] -> t_active_ops t' = 0) /\ (t_active_ops t' = 0 -> flights c' i = []) /\
  syncs c' i = [] /\ 0 <= src_fd t' /\ done t' = false.
Proof using All.
  intros Ew Hw Hlen Hagree Hfr. destruct retire_flight as (F1 & F2 & Y1 & Y2).
  destruct (change_task _ _ _ _ _ _ _ _ _ _ _ I retire_change) as (fl & sy & T & Hback & _ & P' & _ & Q').
  rewrite F1, Y1 in T. rewrite F2, Y2 in *. cbn in T, Hback, P', Q'.
  destruct Et as (E1 & E2 & E3 & E4 & E5 & E6 & E7 & E8 & E9).
  assert (sy = []) as ->.
  { destruct sy; [done|]. destruct (k_sync _ _ _ _ _ _ _ _ T) as (_ & H & _); done. }
  assert (0 <= src_fd t) as Hopen.
  { destruct (Z.le_gt_cases 0 (src_fd t)); [done|]. destruct (k_closed _ _ _ _ _ _ _ _ T) as (? & _); done. }
  pose proof (k_open _ _ _ _ _ _ _ _ T Hopen) as (Hnd & _).
  assert (t_active_ops t' = zlen fl) as Hact'.
  { rewrite E9, (k_active _ _ _ _ _ _ _ _ T), zlen_cons. lia. }
  assert (tok i t' fl [] (fds c') (content (file_at c' (j_dst J i)))) as T'.
  { rewrite Efds. destruct T as [K1 K2 Kd K3 K4 K5 K6 K7 K8 K9 K10 K11 K12].
    apply Forall_cons in K3 as [[Hf1 Hf2 _ _] K3]. rewrite fmap_cons in K8, K9, K12. cbn [zsum] in K8, K9, K12.
    split; rewrite ?E1, ?E2, ?E3, ?E4, ?E5, ?E6, ?E7, ?E8, ?Ew; try done; try lia.
    - change (claimed cfg J i s) with (chunk_at cfg J i (offset s)) in K8. destruct Hw as [-> | ->]; lia.
    - intros _ Hc x Hx Hall.
      pose proof (flights_bound i fl K3) as Hb.
      assert (w = chunk_at cfg J i (offset s)) as Hwc by (change (claimed cfg J i s) with (chunk_at cfg J i (offset s)) in K8; destruct Hw; lia).
      specialize (Hagree Hwc x ltac:(lia)). destruct (decide _) as [Hc'|Hc']; [done|].
      apply Hagree, K9; [done|destruct Hw; lia|done|by constructor].
    - intros _ Hu. auto.
    - intros [H|H]; [by rewrite Hnd in H|done].
    - intros HF. destruct (K12 HF) as [H1 H2]. split; [specialize (Hfr HF); lia|done]. }
  split; [eapply inv_change; [done|done|apply retire_change|done|by apply Hback]|].
  rewrite Hact'. split_and!.
  - intros E'. rewrite E' in P'. apply Permutation_nil in P' as ->. done.
  - intros E'. destruct fl; [|unfold zlen in E'; cbn in E'; lia]. by apply Permutation_nil.
  - by apply Permutation_nil.
  - lia.
  - congruence.
Qed.
End Retire.

(** ** What a step promises *)

Definition weight (s : buf_slot_t) : Z :=
  match state s with BUF_FREE => 0 | BUF_READING => 3 | BUF_WRITING => 2 | BUF_FSYNCING => 1 end.

Definition left (t : file_task_t) : Z := file_size t - read_offset t.

(** The work left: completions strictly decrease it. *)
Definition work c : Z := 3 * zsum (left <$> tasks (queue c)) + zsum (weight <$> slots c).

(** Every file whose reads are submitted still has a request in flight. *)
Definition live c : Prop := forall i t, tasks (queue c) !! i = Some t ->
  reads_done t = true -> done t = false -> flights c i <> [] \/ syncs c i <> [].

Record step_ok (d : Z) c c' : Prop := {
  so_inv : inv c';
  so_depth : length (slots c') = length (slots c);
  so_live : friendly cfg -> live c -> live c';
  so_work : friendly cfg -> work c' + d <= work c
}.

Lemma step_ok_trans d d' c c1 c2 : step_ok d c c1 -> step_ok d' c1 c2 -> step_ok (d + d') c c2.
Proof.
  intros [A1 A2 A3 A4] [B1 B2 B3 B4]. split; [done|lia|auto|].
  intros F. specialize (A4 F). specialize (B4 F). lia.
Qed.

Lemma zsum_fmap_insert {A} (f : A -> Z) l k x y : l !! k = Some x ->
  zsum (f <$> <[k := y]> l) = zsum (f <$> l) - f x + f y.
Proof.
  intros H. rewrite list_fmap_insert, zsum_insert by (rewrite length_fmap; by eapply lookup_lt_Some).
  erewrite nth_lookup_Some by (by rewrite list_lookup_fmap, H). done.
Qed.

Lemma change_work c c' i k t t' s s' : change J c c' i k t t' s s' ->
  work c' = work c - 3 * left t + 3 * left t' - weight s + weight s'.
Proof.
  intros C. unfold work. rewrite (ch_tasks _ _ _ _ _ _ _ _ _ C), (ch_slots _ _ _ _ _ _ _ _ _ C).
  rewrite (zsum_fmap_insert left _ _ t), (zsum_fmap_insert weight _ _ s); [lia|apply C|apply C].
Qed.

(** A change of one slot and one task that keeps the invariant is a step. *)
Lemma change_step d c c' i k t t' s s' : change J c c' i k t t' s s' -> inv c' ->
  (friendly cfg -> reads_done t' = true -> done t' = false -> flights c' i <> [] \/ syncs c' i <> []) ->
  (friendly cfg -> 3 * left t' + weight s' + d <= 3 * left t + weight s) ->
  step_ok d c c'.
Proof.
  intros C I Hl Hw. split; [done| | |].
  - by rewrite (ch_slots _ _ _ _ _ _ _ _ _ C), length_insert.
  - intros F L j u Hu Hr Hd. destruct (decide (j = i)) as [->|Hj].
    + rewrite (ch_tasks _ _ _ _ _ _ _ _ _ C) in Hu.
      rewrite list_lookup_insert_eq in Hu by (eapply lookup_lt_Some, C). injection Hu as <-. auto.
    + destruct (change_others _ _ _ _ _ _ _ _ _ j C Hj) as (Eu & -> & ->). rewrite Eu in Hu. by apply (L j u).
  - intros F. rewrite (change_work _ _ _ _ _ _ _ _ C). specialize (Hw F). lia.
Qed.

(** ** Completions *)

(** The state in which a callback runs: the request has left the engine, and the
    kernel has filled the buffer of its slot. *)
Definition taken c (j k : nat) (s : buf_slot_t) : copy_ctx_t :=
  c <| ops := delete j (ops c) |> <| slots := <[k := s]> (slots c) |>.

(** What [complete_op] has to show about its callback. *)
Definition completes c (r : option copy_ctx_t) : Prop :=
  exists c', r = Some c' /\ (error c' = 0 -> step_ok 1 c c') /\ (friendly cfg -> error c' = 0).

Lemma insert_k {A} (l : list A) k x y : l !! k = Some x -> (<[k := y]> l) !! k = Some y.
Proof. intros. apply list_lookup_insert_eq. by eapply lookup_lt_Some. Qed.

Lemma i32_neg_error c r : error c = 0 -> r < 0 -> error (set_error c (i32 r)) = 0 -> i32 r = 0.
Proof. intros H _. unfold set_error. rewrite H. done. Qed.

Lemma friendly_errno n : friendly cfg -> ask_errno n = 0.
Proof. intros F. apply F. Qed.

Lemma flight_facts c i k t s : inv c -> tasks (queue c) !! i = Some t -> slots c !! k = Some s ->
  task s = Some i -> state s = BUF_READING \/ state s = BUF_WRITING ->
  flight_ok cfg J i s /\ 0 <= src_fd t /\ dst_path t = j_dst J i /\ file_size t = j_size J i /\
  fds c !! dst_fd t = Some (j_dst J i).
Proof.
  intros I Hi Hk Ht Hs. pose proof (g_tasks _ _ _ _ I i t Hi) as T.
  assert (s ∈ flights c i) as Hin.
  { apply elem_of_gather. exists k, s. split; [done|]. unfold flight. rewrite Ht, decide_True by done. by destruct Hs as [-> | ->]. }
  assert (0 <= src_fd t) as Ho.
  { destruct (Z.le_gt_cases 0 (src_fd t)); [done|].
    destruct (k_closed _ _ _ _ _ _ _ _ T) as (E0 & _); [done|]. rewrite E0 in Hin. by apply elem_of_nil in Hin. }
  destruct (k_open _ _ _ _ _ _ _ _ T Ho) as (_ & _ & _ & Hd & _). destruct (k_static _ _ _ _ _ _ _ _ T) as (_ & ? & ?).
  split; [|done]. by eapply (proj1 (Forall_forall _ _) (k_flights _ _ _ _ _ _ _ _ T)).
Qed.

Section Callbacks.
Context (c : copy_ctx_t) (j k i : nat) (t : file_task_t) (s : buf_slot_t) (op : io_op).
Hypothesis (I : inv c) (Hj : ops c !! j = Some op) (Hk : slots c !! k = Some s)
  (Hreq : request J k s = Some op) (Htask : task s = Some i) (Hi : tasks (queue c) !! i = Some t).

Lemma taken_slot s' : slot_at (taken c j k s') k = s'.
Proof using Hk. unfold slot_at. cbn. apply nth_insert_at. by eapply lookup_lt_Some. Qed.

Lemma taken_ops : ops c ≡ₚ op :: delete j (ops c).
Proof using Hj. by apply delete_Permutation. Qed.

Lemma chunk_lost c' s' t' :
  state s = BUF_READING ->
  tasks (queue c') = <[i := t']> (tasks (queue c)) -> current (queue c') = current (queue c) ->
  slots c' = <[k := s']> (slots c) -> state s' = BUF_FREE -> zlen (buf s') = zlen (buf s) ->
  ops c' = delete j (ops c) -> active_ops c' = active_ops c - 1 -> fds c' = fds c -> files c' = files c ->
  t' = t <| t_active_ops := t_active_ops t - 1 |> ->
  ~ friendly cfg -> error c' = 0 -> step_ok 1 c c'.
Proof using All.
  intros Hs Et Ec Es Hf Hb Eo Ea Efd Efl Ett Hnf Herr. subst t'.
  set (t' := t <| t_active_ops := t_active_ops t - 1 |>) in *.
  assert (change J c c' i k t t' s s') as C.
  { eapply (retire_change c c' i k t t' s s' op); try done.
    - rewrite Eo. apply taken_ops.
    - intros. by rewrite Efl. }
  destruct (flight_facts c i k t s I Hi Hk Htask ltac:(by left)) as ([_ Hd _ _] & _).
  eapply change_step; [exact C| |done|done].
  apply (retire_ok c c' i k t t' s s' op) with (w := 0); try done; try (by left); cbn; try lia.
  - rewrite Eo. apply taken_ops.
  - intros. by rewrite Efl.
  - unfold file_at. by rewrite Efl.
Qed.

Lemma tasks_release c0 : tasks (queue (release c0 k i)) =
  <[i := (task_at c0 i) <| t_active_ops := t_active_ops (task_at c0 i) + -1 |>]> (tasks (queue c0)).
Proof using. etransitivity; [apply (alter_at _ _ _ dummy_task)|done]. Qed.

Lemma slots_release c0 : slots (release c0 k i) =
  <[k := (slot_at c0 k) <| state := BUF_FREE |> <| task := None |>]> (slots c0).
Proof using. etransitivity; [apply (alter_at _ _ _ dummy_slot)|done]. Qed.

(** A result of zero or less frees the slot; only an error is noted. *)
Lemma read_cb_lost b r : state s = BUF_READING -> zlen b = zlen (buf s) -> r <= 0 -> ~ friendly cfg ->
  let c1 := taken c j k (s <| buf := b |>) in
  let c2 := if r <? 0 then set_error c1 (i32 r) else c1 in
  error (release c2 k i) = 0 -> step_ok 1 c (release c2 k i).
Proof using All.
  intros Hs Hb Hr Hnf c1 c2 Herr.
  assert (queue c2 = queue c /\ slots c2 = <[k := s <| buf := b |>]> (slots c) /\ ops c2 = delete j (ops c) /\
    active_ops c2 = active_ops c /\ fds c2 = fds c /\ files c2 = files c) as (Q1 & Q2 & Q3 & Q4 & Q5 & Q6).
  { unfold c2, set_error. destruct (r <? 0); [destruct (_ =? 0)|]; done. }
  assert (slot_at c2 k = s <| buf := b |>) as Esl by (unfold slot_at; rewrite Q2; apply nth_insert_at; by eapply lookup_lt_Some).
  assert (task_at c2 i = t) as Eta by (unfold task_at; rewrite Q1; by apply nth_lookup_Some).
  apply (chunk_lost _ (s <| buf := b |> <| state := BUF_FREE |> <| task := None |>)
    (t <| t_active_ops := t_active_ops t + -1 |>)); try done.
  - by rewrite tasks_release, Eta, Q1.
  - change (current (queue c2) = current (queue c)). by rewrite Q1.
  - rewrite slots_release, Esl, Q2, list_insert_insert_eq. done.
  - change (active_ops c2 + -1 = active_ops c - 1). lia.
Qed.

(** The chunk has been read and its write is in flight. *)
Lemma chunk_read c' b r :
  let s' := s <| buf := b |> <| data_bytes := r |> <| bytes := io_len cfg r |> <| state := BUF_WRITING |> in
  state s = BUF_READING -> zlen b = zlen (buf s) -> 0 < r <= chunk_at cfg J i (offset s) ->
  pread b 0 r = pread (j_data J i) (offset s) r -> (friendly cfg -> r = chunk_at cfg J i (offset s)) ->
  queue c' = queue c -> slots c' = <[k := s']> (slots c) ->
  (exists w, request J k s' = Some w /\ ops c' = delete j (ops c) ++ [w]) ->
  active_ops c' = active_ops c -> fds c' = fds c -> files c' = files c -> error c' = 0 ->
  step_ok 1 c c'.
Proof using All.
  intros s' Hs Hb Hr Hdata Hfr Eq Es (w & Hw & Eo) Ea Efd Efl Herr.
  destruct (flight_facts c i k t s I Hi Hk Htask ltac:(by left)) as ([Hoff Hd Hrd _] & Hopen & _).
  destruct (Hrd Hs) as [Hdb Hby]. pose proof (chunk_le i (offset s)) as Hle.
  assert (change J c c' i k t t s s') as C.
  { split; try done; try (by left); try (by rewrite Eq); try (by rewrite Efd).
    - rewrite Eq. by rewrite list_insert_id.
    - split; by left.
    - rewrite Hreq, Hw, Eo. cbn. pose proof taken_ops as P0. set (d := delete j (ops c)) in *.
      rewrite P0. solve_Permutation.
    - rewrite Ea, (g_active _ _ _ _ I), Eo. unfold zlen. rewrite length_app.
      pose proof (Permutation_length taken_ops) as P0. cbn in *. lia.
    - left. by rewrite Eq.
    - intros. by rewrite Efl.
    - intros fd path. rewrite Efd. intros. by right. }
  assert (flight i k s = Some s /\ syncing i k s = None) as [F1 Y1].
  { unfold flight, syncing. by rewrite Hs, Htask, decide_True by done. }
  assert (flight i k s' = Some s' /\ syncing i k s' = None) as [F2 Y2].
  { unfold flight, syncing. cbn. by rewrite Htask, decide_True by done. }
  destruct (change_task _ _ _ _ _ _ _ _ _ _ _ I C) as (fl & sy & T & Hback & _ & P' & _ & _).
  rewrite F1, Y1 in T. rewrite F2, Y2 in *. cbn in T, Hback, P'.
  eapply change_step; [exact C| | |].
  - eapply inv_change; [done|done|exact C|done|]. apply Hback. rewrite Efd. unfold file_at. rewrite Efl. fold (file_at c (j_dst J i)).
    destruct T as [K1 K2 Kd K3 K4 K5 K6 K7 K8 K9 K10 K11 K12].
    apply Forall_cons in K3 as [_ K3]. rewrite fmap_cons in K8, K9, K12. cbn [zsum] in K8, K9, K12.
    change (claimed cfg J i s) with (chunk_at cfg J i (offset s)) in K8. pose proof (flights_bound i fl K3) as Hbd.
    split; try done; rewrite ?fmap_cons; cbn [zsum].
    + apply Forall_cons. split; [|done]. split; cbn; [done|lia|done|]. intros _.
      split; [done|]. split; [|done]. apply (io_len_pos r). lia.
    + intros Hsf. destruct (K4 Hsf) as (? & _). done.
    + intros Hsy. destruct (K7 Hsy) as (_ & ? & _). done.
    + cbn. intros _ Hx x Hxr Hall. assert (r = data_bytes s) as -> by lia.
      apply (K9 Hopen Hx x Hxr). apply Forall_cons in Hall as [H1 H2]. by apply Forall_cons.
    + cbn. intros HF. destruct (K12 HF) as [H1 H2]. split; [|done]. specialize (Hfr HF). lia.
  - intros _ _ _. left. intros E0. rewrite E0 in P'. by apply Permutation_nil_cons in P'.
  - intros _. unfold weight. rewrite Hs. cbn. lia.
Qed.

(** Padding a short buffer leaves the data it holds alone. *)
Lemma pad_keeps (b : list Z) r w : zlen b = chunk_size cfg -> 0 < r -> r <= w <= chunk_size cfg ->
  let b' := pwrite b r (replicate (Z.to_nat (w - r)) 0) in
  zlen b' = zlen b /\ pread b' 0 r = pread b 0 r.
Proof using.
  intros Hb Hr Hw b'. assert (zlen b' = zlen b) as El.
  { unfold b'. rewrite zlen_pwrite by lia.
    assert (zlen (replicate (Z.to_nat (w - r)) 0) = w - r) by (unfold zlen; rewrite length_replicate; lia). lia. }
  split; [done|]. unfold pread, b', pwrite. rewrite !drop_0, take_app_le, take_take, take_app_le.
  - f_equal. lia.
  - unfold zlen in Hb. lia.
  - rewrite length_take, length_app. unfold zlen in Hb. lia.
Qed.

Lemma submit_cases c0 kind fd off len :
  let '(e, c') := submit c0 kind fd k off len in
  e <> 0 /\ ask_errno (now c0) = e /\ c' = c0 <| now := S (now c0) |> \/
  e = 0 /\ c' = c0 <| now := S (now c0) |> <| ops := ops c0 ++
    [{| op_kind_of := kind; op_file := fds c0 !! fd; op_slot := k; op_off := off; op_len := len |}] |>.
Proof using. unfold submit, sys. destruct (Z.eqb_spec (ask_errno (now c0)) 0); [by right|by left]. Qed.

Lemma error_release c0 : error (release c0 k i) = error c0.
Proof using. done. Qed.

Lemma set_error_nonzero c0 e : e <> 0 -> error (set_error c0 e) <> 0.
Proof using. unfold set_error. destruct (Z.eqb_spec (error c0) 0); done. Qed.

Lemma read_cb_write b r : state s = BUF_READING -> zlen b = chunk_size cfg -> 0 < r ->
  let wlen := if use_direct cfg then round_up_sz r SECTOR_SIZE else r in
  r <= wlen <= chunk_size cfg ->
  let c1 := if use_direct cfg && (r <? wlen)
    then upd_slot (taken c j k (s <| buf := b |>)) k
           (fun s => s <| buf := pwrite (buf s) r (replicate (Z.to_nat (wlen - r)) 0) |>)
    else taken c j k (s <| buf := b |>) in
  let c2 := upd_slot c1 k (fun s => s <| data_bytes := r |> <| bytes := wlen |> <| state := BUF_WRITING |>) in
  exists b', zlen b' = zlen b /\ pread b' 0 r = pread b 0 r /\
    slots c2 = <[k := s <| buf := b' |> <| data_bytes := r |> <| bytes := wlen |> <| state := BUF_WRITING |>]> (slots c) /\
    queue c2 = queue c /\ ops c2 = delete j (ops c) /\ active_ops c2 = active_ops c /\ error c2 = error c /\
    fds c2 = fds c /\ files c2 = files c.
Proof using Hk.
  intros Hs Hb Hr wlen Hw c1 c2.
  assert (k < length (slots c))%nat as Hlt by (by eapply lookup_lt_Some).
  destruct (use_direct cfg && (r <? wlen)).
  - exists (pwrite b r (replicate (Z.to_nat (wlen - r)) 0)).
    destruct (pad_keeps b r wlen Hb Hr Hw) as [E1 E2]. split; [done|]. split; [done|]. split; [|done].
    unfold c2, c1, upd_slot, taken. cbn. rewrite !(alter_at _ _ _ dummy_slot).
    by rewrite !nth_insert_at, !list_insert_insert_eq by (rewrite ?length_insert; done).
  - exists b. split; [done|]. split; [done|]. split; [|done].
    unfold c2, c1, upd_slot, taken. cbn. rewrite !(alter_at _ _ _ dummy_slot).
    by rewrite !nth_insert_at, !list_insert_insert_eq by (rewrite ?length_insert; done).
Qed.

Lemma read_cb b r : state s = BUF_READING -> zlen b = zlen (buf s) ->
  (0 < r -> r <= chunk_at cfg J i (offset s) /\ pread b 0 r = pread (j_data J i) (offset s) r) ->
  (friendly cfg -> r = chunk_at cfg J i (offset s)) ->
  completes c (on_read_complete cfg (taken c j k (s <| buf := b |>)) r k).
Proof using All.
  intros Hs Hb Hr Hfr.
  destruct (flight_facts c i k t s I Hi Hk Htask ltac:(by left)) as ([_ Hd _ _] & Hopen & _ & _ & Hdfd).
  pose proof (g_error _ _ _ _ I) as He. unfold on_read_complete, with_task. rewrite taken_slot.
  change (task (s <| buf := b |>)) with (task s). rewrite Htask.
  unfold completes. eexists. split; [reflexivity|]. destruct (Z.leb_spec r 0) as [Hr0|Hr0].
  - assert (~ friendly cfg) as Hnf by (intros F; specialize (Hfr F); lia).
    split; [|done]. by apply read_cb_lost.
  - destruct (Hr Hr0) as [Hle Hdata]. pose proof (io_len_pos r ltac:(pose proof (chunk_le i (offset s)); lia)) as Hio.
    pose proof (sl_buf _ _ _ (Forall_lookup_1 _ _ _ _ (g_slots _ _ _ _ I) Hk)) as Hlen.
    destruct (read_cb_write b r Hs ltac:(congruence) Hr0 Hio) as (b' & Hb1 & Hb2 & E1 & E2 & E3 & E4 & E5 & E6 & E7).
    set (c2 := upd_slot _ _ _) in *. clearbody c2.
    assert (task_at c2 i = t) as Et by (unfold task_at; rewrite E2; by apply nth_lookup_Some).
    assert (offset (slot_at c2 k) = offset s) as Eo.
    { unfold slot_at. by rewrite E1, nth_insert_at by (by eapply lookup_lt_Some). }
    rewrite Et, Eo. pose proof (submit_cases c2 OpWrite (dst_fd t) (offset s) (io_len cfg r)) as Hsub.
    unfold io_len in Hsub at 1. destruct (submit c2 _ _ _ _ _) as [e c3].
    destruct Hsub as [(He' & Hask & ->)|(-> & ->)].
    + destruct (Z.eqb_spec e 0); [done|]. cbn [negb]. rewrite error_release. split.
      * intros Herr. exfalso. by eapply (set_error_nonzero _ (- e)); [lia|].
      * intros F. by rewrite friendly_errno in Hask.
    + cbn [Z.eqb negb]. split; [|intros _; cbn; congruence]. intros Herr.
      eapply (chunk_read _ b' r); try done; cbn; try congruence; try lia.
      eexists. split; [unfold request; cbn; rewrite Htask; cbn; reflexivity|]. by rewrite E3, E6, Hdfd.
Qed.
End Callbacks.

(** ** The end of a file *)

(** Only the destination of task [i] may have changed. *)
Record quiet (i : nat) c c' : Prop := {
  q_tasks : tasks (queue c') = tasks (queue c);
  q_current : current (queue c') = current (queue c);
  q_slots : slots c' = slots c;
  q_ops : ops c' = ops c;
  q_active : active_ops c' = active_ops c;
  q_fds : fds c' = fds c;
  q_files : forall path, path <> j_dst J i -> files c' !! path = files c !! path
}.

Lemma quiet_refl i c : quiet i c c.
Proof. by split. Qed.

Lemma quiet_trans i c1 c2 c3 : quiet i c1 c2 -> quiet i c2 c3 -> quiet i c1 c3.
Proof.
  intros [A1 A2 A3 A4 A5 A6 A7] [B1 B2 B3 B4 B5 B6 B7]. split; try congruence.
  intros path H. by rewrite B7, A7.
Qed.

Lemma quiet_task i c c' j : quiet i c c' -> task_at c' j = task_at c j.
Proof. intros Q. unfold task_at. by rewrite (q_tasks _ _ _ Q). Qed.

Lemma quiet_slot i c c' j : quiet i c c' -> slot_at c' j = slot_at c j.
Proof. intros Q. unfold slot_at. by rewrite (q_slots _ _ _ Q). Qed.

Lemma quiet_set_error i c e : quiet i c (set_error c e).
Proof. unfold set_error. destruct (_ =? 0); by split. Qed.

Lemma quiet_sys i c : quiet i c (snd (sys c)).
Proof. by split. Qed.

Lemma quiet_set_file i c fd f : fds c !! fd = Some (j_dst J i) -> quiet i c (set_file c fd f).
Proof.
  intros Hfd. unfold set_file. rewrite Hfd. split; try done. intros path Hp. cbn. by rewrite lookup_insert_ne.
Qed.

Lemma content_set_file i c fd f : fds c !! fd = Some (j_dst J i) ->
  file_at (set_file c fd f) (j_dst J i) = f (file_at c (j_dst J i)).
Proof. intros Hfd. unfold set_file. rewrite Hfd. unfold file_at at 1. cbn. by rewrite lookup_insert_eq. Qed.

Lemma error_set_file c fd f : error (set_file c fd f) = error c.
Proof. unfold set_file. by destruct (fds c !! fd). Qed.

(** The truncation and the timestamps at the end of a file. *)
Definition trim c (i : nat) : copy_ctx_t :=
  let t := task_at c i in
  let c :=
    if use_direct cfg && (0 <=? dst_fd t) then
      let '(e, c) := ftruncate c (dst_fd t) (file_size t) in
      if negb (e =? 0) then set_error c (- e) else c
    else c in
  if preserve cfg && (0 <=? dst_fd t) then copy_times c (src_fd t) (dst_fd t) else c.

Lemma copy_times_quiet i c src dst : fds c !! dst = Some (j_dst J i) ->
  quiet i c (copy_times c src dst) /\ error (copy_times c src dst) = error c /\
  content (file_at (copy_times c src dst) (j_dst J i)) = content (file_at c (j_dst J i)).
Proof.
  intros Hd. unfold copy_times, sys. cbn [fds set_field cset_now].
  change (fds (c <| now := S (now c) |>)) with (fds c).
  destruct (fds c !! src) as [path|]; [|done]. destruct (_ =? 0); [|done]. cbn [now].
  destruct (ask_errno _ =? 0); [|done]. set (c2 := set_field now _ _).
  assert (fds c2 !! dst = Some (j_dst J i)) as Hd2 by done.
  split; [|split].
  - eapply quiet_trans; [|by apply quiet_set_file]. done.
  - by rewrite error_set_file.
  - by rewrite content_set_file.
Qed.

Lemma trim_ok i t c : error c = 0 -> task_at c i = t -> fds c !! dst_fd t = Some (j_dst J i) -> 0 <= dst_fd t ->
  quiet i c (trim c i) /\ (friendly cfg -> error (trim c i) = 0) /\
  (error (trim c i) = 0 -> content (file_at (trim c i) (j_dst J i)) =
     if use_direct cfg then resize (content (file_at c (j_dst J i))) (file_size t)
     else content (file_at c (j_dst J i))).
Proof.
  intros He Et Hfd Hpos. unfold trim. rewrite Et. destruct (Z.leb_spec 0 (dst_fd t)); [|lia].
  rewrite !andb_true_r.
  set (c1 := if use_direct cfg then _ else c).
  assert (quiet i c c1 /\ (friendly cfg -> error c1 = 0) /\
    (error c1 = 0 -> content (file_at c1 (j_dst J i)) =
       if use_direct cfg then resize (content (file_at c (j_dst J i))) (file_size t)
       else content (file_at c (j_dst J i)))) as (Q & F & C).
  { unfold c1. destruct (use_direct cfg); [|done]. unfold ftruncate, sys.
    set (c0 := set_field now _ _). assert (quiet i c c0) as Q0 by done.
    destruct (Z.eqb_spec (ask_errno (now c)) 0) as [E0|E0]; cbn.
    - assert (fds c0 !! dst_fd t = Some (j_dst J i)) as Hfd0 by done.
      split; [eapply quiet_trans; [exact Q0|by apply quiet_set_file]|]. rewrite error_set_file.
      split; [done|]. intros _. by rewrite content_set_file.
    - destruct (Z.eqb_spec (ask_errno (now c)) 0); [done|]. cbn. split; [|split].
      + eapply quiet_trans; [exact Q0|apply quiet_set_error].
      + intros HF. by rewrite friendly_errno in E0.
      + intros H0. exfalso. by eapply (set_error_nonzero c0 (- ask_errno (now c))); [lia|]. }
  clearbody c1. destruct (preserve cfg); [|done].
  destruct (copy_times_quiet i c1 (src_fd t) (dst_fd t)) as (Q' & E' & C'); [by rewrite (q_fds _ _ _ Q)|].
  split; [by eapply quiet_trans|]. rewrite E', C'. done.
Qed.

(** The rest of [finish_task]: fsync if requested, then close. *)
Definition conclude c (t : file_task_t) (i k : nat) : copy_ctx_t :=
  if negb (no_fsync cfg) && (0 <=? dst_fd t) then
    let c := upd_slot c k (fun s => s <| task := Some i |> <| state := BUF_FSYNCING |>) in
    let c := add_active c 1 in
    let '(e, c) := submit c OpFsync (dst_fd t) k 0 0 in
    if negb (e =? 0) then close_task (add_active (free_slot c k) (-1)) i
    else c
  else close_task c i.

Definition counted c : copy_ctx_t := upd_queue c (fun q => q <| completed_files := completed_files q + 1 |>).

Lemma finish_task_eq c i k :
  finish_task cfg c i k = conclude (trim (counted c) i) (task_at (counted c) i) i k.
Proof. done. Qed.

Section Finish.
Context (c : copy_ctx_t) (i k : nat) (t : file_task_t) (s : buf_slot_t).
Hypothesis (I : inv c) (Hi : tasks (queue c) !! i = Some t) (Hk : slots c !! k = Some s)
  (Hs : state s = BUF_FREE) (Hopen : 0 <= src_fd t) (Hrd : reads_done t = true) (Hnd : done t = false)
  (Hfl : flights c i = []) (Hsy : syncs c i = []).

(** The outcome of [finish_task]: an fsync in flight, or a closed file. *)
Definition synced_slot : buf_slot_t := s <| task := Some i |> <| state := BUF_FSYNCING |>.
Definition closed_task : file_task_t := t <| src_fd := -1 |> <| dst_fd := -1 |> <| done := true |>.

Lemma finish_facts : task_ok cfg J i t [] [] (fds c) (content (file_at c (j_dst J i))).
Proof using I Hi Hfl Hsy. pose proof (g_tasks _ _ _ _ I i t Hi) as T. unfold task_inv in T. by rewrite Hfl, Hsy in T. Qed.

(** A file that was written exactly is the source. *)
Lemma exact_content dst : 0 <= j_size J i -> zlen (j_data J i) = j_size J i ->
  (use_direct cfg = false -> zlen dst <= j_size J i) ->
  (forall x : nat, Z.of_nat x < j_size J i -> dst !! x = j_data J i !! x) ->
  (if use_direct cfg then resize dst (j_size J i) else dst) = j_data J i.
Proof using.
  intros H0 Hd Hlen Hx.
  assert (length dst >= length (j_data J i))%nat as Hge.
  { destruct (decide (length (j_data J i) <= length dst)%nat) as [|Hlt]; [lia|]. exfalso.
    assert (length dst < length (j_data J i))%nat as Hlt' by lia.
    destruct (lookup_lt_is_Some_2 _ _ Hlt') as [y Hy]. specialize (Hx (length dst)).
    unfold zlen in Hd. rewrite Hy, lookup_ge_None_2 in Hx by lia. discriminate Hx. lia. }
  unfold zlen in *. apply list_eq. intros x. destruct (decide (x < length (j_data J i))%nat) as [Hlt|Hlt].
  - rewrite <- Hx by lia. destruct (use_direct cfg); [|done]. apply lookup_resize; lia.
  - rewrite (lookup_ge_None_2 (j_data J i)) by lia. apply lookup_ge_None_2. destruct (use_direct cfg).
    + pose proof (zlen_resize dst (j_size J i) H0) as Hr. unfold zlen in Hr. lia.
    + specialize (Hlen eq_refl). lia.
Qed.

Let dst0 := content (file_at c (j_dst J i)).
Let dst1 := if use_direct cfg then resize dst0 (file_size t) else dst0.

Lemma finish_exact : bytes_written t = j_size J i -> dst1 = j_data J i.
Proof using All.
  intros Hw. destruct finish_facts as [K1 K2 Kd K3 K4 K5 K6 K7 K8 K9 K10 K11 K12].
  destruct K1 as (_ & _ & Esz). unfold dst1. rewrite Esz.
  assert (read_offset t = j_size J i) as Er by (by apply (K5 Hopen)).
  apply exact_content; [lia|by eapply ok_size, task_index|by apply K10|].
  intros x Hx. apply K9; [done|cbn; lia|lia|done].
Qed.

Lemma finish_read_offset : read_offset t = j_size J i.
Proof using All. by apply (k_open _ _ _ _ _ _ _ _ finish_facts Hopen). Qed.

Lemma closed_ok open : tok i closed_task [] [] open dst1.
Proof using All.
  pose proof finish_exact as Hx. pose proof finish_read_offset as Er.
  destruct finish_facts as [K1 K2 Kd K3 K4 K5 K6 K7 K8 K9 K10 K11 K12].
  split; cbn; try done; try lia.
  - intros _. by split_and!; auto.
  - intros _ Hw _. auto.
  - intros F. destruct (K12 F) as [H1 _]. done.
Qed.

Lemma synced_ok : tok i t [] [k] (fds c) dst1.
Proof using All.
  pose proof finish_exact as Hx. pose proof finish_read_offset as Er.
  destruct finish_facts as [K1 K2 Kd K3 K4 K5 K6 K7 K8 K9 K10 K11 K12].
  split; try done; try lia.
  - intros _ Hw x Hxr _. cbn in Hw. rewrite Hx by lia. done.
  - intros _ Hd. unfold dst1. rewrite Hd. by apply K10.
  - intros _ Hw _. auto.
Qed.

Lemma close_change c2 c' s' : quiet i c c2 ->
  tasks (queue c') = <[i := closed_task]> (tasks (queue c2)) -> current (queue c') = current (queue c2) ->
  slots c' = <[k := s']> (slots c) -> state s' = BUF_FREE -> zlen (buf s') = zlen (buf s) ->
  ops c' = ops c2 -> active_ops c' = active_ops c2 ->
  fds c' = delete (dst_fd t) (delete (src_fd t) (fds c2)) -> files c' = files c2 ->
  change J c c' i k t closed_task s s'.
Proof using I Hi Hk Hs Hopen Hrd Hfl Hsy.
  intros [Q1 Q2 Q3 Q4 Q5 Q6 Q7] E1 E2 E3 Hf Hb E4 E5 E6 E7.
  destruct (k_open _ _ _ _ _ _ _ _ finish_facts Hopen) as (_ & Hdpos & Hsf & Hdf & _).
  split; try done; try (by left).
  - by rewrite E1, Q1.
  - split; by right.
  - unfold request. by rewrite Hf, Hs, E4, Q4.
  - rewrite E5, Q5, E4, Q4. apply I.
  - left. by rewrite E2.
  - intros path Hp. by rewrite E7, Q7.
  - intros fd path H1 H2 H3. rewrite E6, Q6. rewrite !lookup_delete_ne; [done|congruence|congruence].
  - intros fd path. rewrite E6, Q6. rewrite !lookup_delete_Some. intros (H1 & H2 & H3). right. split; [done|].
    intros [_ [[? _]|[? _]]]; congruence.
Qed.

Lemma finish_ok :
  let c' := finish_task cfg c i k in
  (error c' = 0 -> exists t' s', change J c c' i k t t' s s' /\ inv c' /\
     (done t' = false -> syncs c' i <> []) /\ reads_done t' = true /\ left t' = left t /\ weight s' <= 1 /\
     (no_fsync cfg = true -> s' = s) /\ current (queue c') = current (queue c)) /\
  (friendly cfg -> error c' = 0).
Proof using All.
  intros c'. unfold c'. rewrite finish_task_eq. set (c1 := counted c).
  pose proof finish_facts as T. pose proof (task_index _ _ _ _ _ _ I Hi) as Hin.
  assert (task_at c1 i = t) as Et by (unfold task_at; by apply nth_lookup_Some). rewrite Et.
  destruct (k_open _ _ _ _ _ _ _ _ T Hopen) as (_ & Hdpos & Hsf & Hdf & Hdone).
  assert (quiet i c c1) as Q1 by done.
  destruct (trim_ok i t c1 (g_error _ _ _ _ I) Et Hdf Hdpos) as (Q2 & F2 & C2).
  change (file_at c1 (j_dst J i)) with (file_at c (j_dst J i)) in C2. fold dst0 dst1 in C2.
  set (c2 := trim c1 i) in *. clearbody c2. pose proof (quiet_trans _ _ _ _ Q1 Q2) as Q. clear Q1 Q2 Et c1.
  assert (task_at c2 i = t) as Et by (rewrite (quiet_task _ _ _ _ Q); by apply nth_lookup_Some).
  assert (forall c3, tasks (queue c3) = tasks (queue c2) -> tasks (queue (close_task c3 i)) = <[i := closed_task]> (tasks (queue c2)))
    as Eclose.
  { intros c3 E3. etransitivity; [apply (alter_at _ _ _ dummy_task)|]. cbn.
    unfold task_at in Et. by rewrite E3, Et. }
  unfold conclude. destruct (Z.leb_spec 0 (dst_fd t)); [|lia]. rewrite andb_true_r.
  destruct (no_fsync cfg) eqn:Enf; cbn [negb].
  - split; [|exact F2]. intros Herr. specialize (C2 Herr). exists closed_task, s.
    assert (change J c (close_task c2 i) i k t closed_task s s) as C.
    { apply (close_change c2); try done; [by apply Eclose|rewrite list_insert_id by done; by destruct Q|].
      change (delete (dst_fd (task_at c2 i)) (delete (src_fd (task_at c2 i)) (fds c2)) =
        delete (dst_fd t) (delete (src_fd t) (fds c2))). by rewrite Et. }
    split; [done|]. split; [|split_and!; try done; [by unfold weight; rewrite Hs|by destruct Q]].
    eapply inv_change; [done|done|exact C|done|].
    unfold task_inv, flights, syncs. rewrite (ch_slots _ _ _ _ _ _ _ _ _ C), list_insert_id by done.
    fold (flights c i) (syncs c i). rewrite Hfl, Hsy.
    change (file_at (close_task c2 i) (j_dst J i)) with (file_at c2 (j_dst J i)). rewrite C2. apply closed_ok.
  - set (c3 := add_active _ 1). assert (error c3 = error c2) as E3 by done.
    assert (slots c3 = <[k := synced_slot]> (slots c)) as S3.
    { etransitivity; [apply (alter_at _ _ _ dummy_slot)|]. cbn. rewrite (q_slots _ _ _ Q).
      by erewrite nth_lookup_Some by done. }
    pose proof (submit_cases k c3 OpFsync (dst_fd t) 0 0) as Hsub. destruct (submit c3 _ _ _ _ _) as [e c4].
    destruct Hsub as [(He & Hask & ->)|(-> & ->)].
    + destruct (Z.eqb_spec e 0); [done|]. cbn [negb].
      set (c5 := add_active _ (-1)). split; [|intros F; by rewrite friendly_errno in Hask].
      intros Herr. specialize (C2 Herr).
      exists closed_task, (synced_slot <| state := BUF_FREE |> <| task := None |>).
      assert (change J c (close_task c5 i) i k t closed_task s (synced_slot <| state := BUF_FREE |> <| task := None |>)) as C.
      { apply (close_change c2); try done; [by apply Eclose|..].
        - etransitivity; [apply (alter_at _ _ _ dummy_slot)|].
          change (slots (c3 <| now := S (now c3) |>)) with (slots c3).
          rewrite S3, nth_insert_at, list_insert_insert_eq by (by eapply lookup_lt_Some). done.
        - change (active_ops c2 + 1 + -1 = active_ops c2). lia.
        - change (delete (dst_fd (task_at c2 i)) (delete (src_fd (task_at c2 i)) (fds c2)) =
            delete (dst_fd t) (delete (src_fd t) (fds c2))). by rewrite Et. }
      split; [done|]. split; [|split_and!; try done; by destruct Q].
      eapply inv_change; [done|done|exact C|done|].
      destruct (change_task _ _ _ _ _ _ _ _ _ _ _ I C) as (fl & sy & _ & Hback & P1 & P2 & R1 & R2).
      apply Hback.
      rewrite Hfl in P1. rewrite Hsy in R1. apply Permutation_nil in P1, R1.
      apply app_nil in P1 as [_ ->], R1 as [_ ->]. cbn.
      change (file_at (close_task c5 i) (j_dst J i)) with (file_at c2 (j_dst J i)). rewrite C2. apply closed_ok.
    + cbn [Z.eqb negb]. set (c5 := set_field ops _ _). split; [|exact F2]. intros Herr. specialize (C2 Herr).
      exists t, synced_slot.
      assert (change J c c5 i k t t s synced_slot) as C.
      { destruct Q as [Q1 Q2 Q3 Q4 Q5 Q6 Q7]. split; try done.
        - change (tasks (queue c2) = <[i := t]> (tasks (queue c))). rewrite list_insert_id by done. done.
        - split; [by right|by left].
        - change (ops c5) with (ops c2 ++ [{| op_kind_of := OpFsync; op_file := fds c2 !! dst_fd t;
            op_slot := k; op_off := 0; op_len := 0 |}]).
          unfold request. rewrite Hs, Q4, Q6, Hdf. cbn. by rewrite app_nil_r.
        - change (active_ops c2 + 1 = zlen (ops c2 ++ [{| op_kind_of := OpFsync; op_file := fds c2 !! dst_fd t;
            op_slot := k; op_off := 0; op_len := 0 |}])).
          rewrite zlen_app, Q4, Q5, (g_active _ _ _ _ I). done.
        - by left.
        - intros fd path _ _. change (fds c !! fd = Some path -> fds c2 !! fd = Some path). by rewrite Q6.
        - intros fd path. change (fds c5) with (fds c2). rewrite Q6. by right. }
      destruct (change_task _ _ _ _ _ _ _ _ _ _ _ I C) as (fl & sy & _ & Hback & P1 & P2 & R1 & R2).
      rewrite Hfl in P1. rewrite Hsy in R1. apply Permutation_nil in P1, R1.
      apply app_nil in P1 as [_ ->], R1 as [_ ->].
      assert (flight i k synced_slot = None /\ syncing i k synced_slot = Some k) as [F Y].
      { unfold flight, syncing. cbn. by rewrite decide_True. }
      rewrite F, Y in Hback. rewrite Y in R2.
      split; [done|]. split; [|split_and!; try done; [|by destruct Q]].
      * eapply inv_change; [done|done|exact C|done|]. apply Hback.
        change (file_at c5 (j_dst J i)) with (file_at c2 (j_dst J i)). rewrite C2.
        change (fds c5) with (fds c2). rewrite (q_fds _ _ _ Q). apply synced_ok.
      * intros _ E0. rewrite E0 in R2. by apply Permutation_nil_cons in R2.
Qed.
End Finish.

(** ** An error stays *)

Lemma set_error_sticky c e : error c <> 0 -> error (set_error c e) = error c.
Proof. unfold set_error. by destruct (Z.eqb_spec (error c) 0). Qed.

Lemma submit_error c k kind fd off len : error (snd (submit c kind fd k off len)) = error c.
Proof. unfold submit, sys. by destruct (_ =? 0). Qed.

Lemma copy_times_error c src dst : error (copy_times c src dst) = error c.
Proof.
  unfold copy_times, sys. destruct (fds _ !! src); [|done]. destruct (_ =? 0); [|done]. cbn [now].
  destruct (_ =? 0); [|done]. by rewrite error_set_file.
Qed.

Lemma finish_sticky c i k : error c <> 0 -> error (finish_task cfg c i k) = error c.
Proof.
  intros He. rewrite finish_task_eq. assert (error (trim (counted c) i) = error c) as E1.
  { unfold trim. destruct (preserve cfg && _); rewrite ?copy_times_error.
    all: destruct (use_direct cfg && _); [|done]; unfold ftruncate, sys; cbn [now].
    all: destruct (ask_errno _ =? 0) eqn:Ea; cbn [negb]; [by rewrite Z.eqb_refl; cbn [negb]; rewrite error_set_file|].
    all: rewrite Ea; cbn [negb]; by rewrite set_error_sticky. }
  unfold conclude. destruct (_ && _); [|done].
  set (c2 := add_active _ 1). pose proof (submit_error c2 k OpFsync (dst_fd (task_at (counted c) i)) 0 0) as E2.
  destruct (submit c2 _ _ _ _ _) as [e c3]. cbn in E2. destruct (negb _); change (error c3 = error c); by rewrite E2.
Qed.

(** ** The write and fsync callbacks *)

Section Callbacks2.
Context (c : copy_ctx_t) (j k i : nat) (t : file_task_t) (s : buf_slot_t) (op : io_op).
Hypothesis (I : inv c) (Hj : ops c !! j = Some op) (Hk : slots c !! k = Some s)
  (Hreq : request J k s = Some op) (Htask : task s = Some i) (Hi : tasks (queue c) !! i = Some t).

(** The state after the kernel's part of a write. *)
Record wrote c2 : Prop := {
  wr_queue : queue c2 = queue c;
  wr_slots : slots c2 = slots c;
  wr_ops : ops c2 = delete j (ops c);
  wr_active : active_ops c2 = active_ops c;
  wr_error : error c2 = error c;
  wr_fds : fds c2 = fds c;
  wr_files : forall path, path <> j_dst J i -> files c2 !! path = files c !! path;
  wr_len : use_direct cfg = false -> zlen (content (file_at c (j_dst J i))) <= j_size J i ->
    zlen (content (file_at c2 (j_dst J i))) <= j_size J i
}.

Lemma write_retired c2 c3 w tw :
  state s = BUF_WRITING -> wrote c2 ->
  tasks (queue c3) = <[i := tw]> (tasks (queue c)) -> current (queue c3) = current (queue c) ->
  slots c3 = slots c -> ops c3 = ops c2 -> active_ops c3 = active_ops c2 -> fds c3 = fds c2 -> files c3 = files c2 ->
  error c3 = 0 -> tw = t <| bytes_written := bytes_written t + w |> -> w = 0 \/ w = data_bytes s ->
  (w = chunk_at cfg J i (offset s) ->
    forall x : nat, Z.of_nat x < j_size J i ->
      if decide (in_chunk cfg J i (Z.of_nat x) s)
      then content (file_at c2 (j_dst J i)) !! x = j_data J i !! x
      else content (file_at c (j_dst J i)) !! x = j_data J i !! x ->
           content (file_at c2 (j_dst J i)) !! x = j_data J i !! x) ->
  (friendly cfg -> w = data_bytes s) ->
  let c4 := release c3 k i in
  let c5 := if reads_done (task_at c4 i) && (t_active_ops (task_at c4 i) =? 0) && negb (done (task_at c4 i))
            then finish_task cfg c4 i k else c4 in
  (error c5 = 0 -> step_ok 1 c c5) /\ (friendly cfg -> error c5 = 0).
Proof using All.
  intros Hs [W1 W2 W3 W4 W5 W6 W7 W8] E1 E2 E3 E4 E5 E6 E7 E8 Etw Hw Hag Hfr c4 c5.
  set (t' := tw <| t_active_ops := t_active_ops tw + -1 |>).
  set (s' := s <| state := BUF_FREE |> <| task := None |>).
  assert (i < length (tasks (queue c)))%nat as Hlt by (by eapply lookup_lt_Some).
  assert (task_at c3 i = tw) as Et3 by (unfold task_at; rewrite E1; by apply nth_insert_at).
  assert (tasks (queue c4) = <[i := t']> (tasks (queue c))) as T4.
  { unfold c4. rewrite (tasks_release k i), Et3, E1. by rewrite list_insert_insert_eq. }
  assert (slots c4 = <[k := s']> (slots c)) as S4.
  { unfold c4. rewrite (slots_release k i), E3. unfold slot_at. rewrite E3. by erewrite nth_lookup_Some by done. }
  assert (task_at c4 i = t') as Et4 by (unfold task_at; rewrite T4; by apply nth_insert_at).
  assert (forall path, path <> j_dst J i -> files c4 !! path = files c !! path) as F4.
  { intros path Hp. change (files c4) with (files c3). by rewrite E7, W7. }
  assert (file_at c4 (j_dst J i) = file_at c2 (j_dst J i)) as D4.
  { unfold file_at. change (files c4) with (files c3). by rewrite E7. }
  assert (ops c ≡ₚ op :: ops c4) as O4.
  { change (ops c4) with (ops c3). rewrite E4, W3. by apply delete_Permutation. }
  assert (active_ops c4 = active_ops c - 1) as A4.
  { change (active_ops c4) with (active_ops c3 + -1). lia. }
  assert (fds c4 = fds c) as X4 by (change (fds c4) with (fds c3); by rewrite E6).
  assert (change J c c4 i k t t' s s') as C.
  { apply (retire_change c c4 i k t t' s s' op); try done. subst tw. by split_and!. }
  destruct (retire_ok c c4 i k t t' s s' op) with (w := w) as (I4 & R1 & R2 & R3 & R4 & R5); try done; try (by right).
  { subst tw. by split_and!. }
  { by subst tw. }
  { by rewrite D4. }
  { by rewrite D4. }
  assert (reads_done t' = reads_done t /\ left t' = left t) as [Er El] by (by subst tw).
  unfold c5. rewrite Et4. destruct (reads_done t' && (t_active_ops t' =? 0) && negb (done t')) eqn:Eb.
  - apply andb_true_iff in Eb as [Eb _]. apply andb_true_iff in Eb as [Eb1 Eb2]. apply Z.eqb_eq in Eb2.
    assert (tasks (queue c4) !! i = Some t') as Hi4 by (rewrite T4; by apply list_lookup_insert_eq).
    assert (slots c4 !! k = Some s') as Hk4 by (rewrite S4; by eapply insert_k).
    destruct (finish_ok c4 i k t' s' I4 Hi4 Hk4 eq_refl R4 Eb1 R5 (R2 Eb2) R3) as [Hfin Hfrn].
    split; [|exact Hfrn]. intros Herr. destruct (Hfin Herr) as (t2 & s2 & C2 & I2 & Hlive & Hr2 & Hl2 & Hw2 & _).
    split; [done| | |].
    + by rewrite (ch_slots _ _ _ _ _ _ _ _ _ C2), S4, !length_insert.
    + intros _ L j' u Hu Hru Hdu. destruct (decide (j' = i)) as [->|Hne].
      * right. apply Hlive. rewrite (ch_tasks _ _ _ _ _ _ _ _ _ C2) in Hu.
        rewrite list_lookup_insert_eq in Hu by (by eapply lookup_lt_Some). congruence.
      * destruct (change_others _ _ _ _ _ _ _ _ _ j' C2 Hne) as (U1 & -> & ->).
        destruct (change_others _ _ _ _ _ _ _ _ _ j' C Hne) as (U2 & -> & ->). apply (L j' u); congruence.
    + intros _. rewrite (change_work _ _ _ _ _ _ _ _ C2), (change_work _ _ _ _ _ _ _ _ C).
      assert (weight s = 2) by (unfold weight; by rewrite Hs). lia.
  - split; [|by intros _; change (error c4) with (error c3)]. intros Herr.
    eapply change_step; [exact C|done| |].
    + intros _ Hr Hd. left. intros E0. rewrite Hr, Hd, (R1 E0) in Eb. done.
    + intros _. rewrite El. unfold weight. rewrite Hs. cbn. lia.
Qed.

(** What the kernel makes of the destination. *)
Lemma write_cb c2 r : state s = BUF_WRITING -> wrote c2 ->
  (r = bytes s -> data_bytes s = chunk_at cfg J i (offset s) ->
    forall x : nat, Z.of_nat x < j_size J i ->
      if decide (in_chunk cfg J i (Z.of_nat x) s)
      then content (file_at c2 (j_dst J i)) !! x = j_data J i !! x
      else content (file_at c (j_dst J i)) !! x = j_data J i !! x ->
           content (file_at c2 (j_dst J i)) !! x = j_data J i !! x) ->
  (friendly cfg -> r = bytes s) ->
  completes c (on_write_complete cfg c2 r k).
Proof using All.
  intros Hs W Hag Hfr.
  destruct (flight_facts c i k t s I Hi Hk Htask ltac:(by right)) as ([Hoff Hd _ Hwr] & Hopen & _).
  destruct (Hwr Hs) as (Hby & Hbc & _).
  pose proof (io_len_pos (data_bytes s) ltac:(pose proof (chunk_le i (offset s)); lia)) as Hio.
  assert (slot_at c2 k = s) as Es by (unfold slot_at; rewrite (wr_slots _ W); by apply nth_lookup_Some).
  assert (error c2 = 0) as He by (rewrite (wr_error _ W); apply I).
  assert (tasks (queue c2) = <[i := t <| bytes_written := bytes_written t + 0 |>]> (tasks (queue c))) as Et0.
  { rewrite (wr_queue _ W), list_insert_id; [done|]. rewrite Hi. rewrite Z.add_0_r. by destruct t. }
  unfold on_write_complete, with_task. rewrite Es, Htask.
  unfold completes. eexists. split; [reflexivity|]. cbn beta zeta.
  destruct (Z.ltb_spec r 0) as [Hr|Hr]; [|destruct (Z.eqb_spec r (bytes s)) as [->|Hne]; cbn [negb]].
  - assert (~ friendly cfg) as Hnf by (intros F; specialize (Hfr F); lia).
    unfold set_error. rewrite He. cbn [Z.eqb].
    destruct (decide (i32 r = 0)) as [E0|E0].
    + eapply (write_retired c2 _ 0); try done; try (by left); [|apply W|intros Hw; lia].
      change (current (queue c2) = current (queue c)). by rewrite (wr_queue _ W).
    + split; [|done]. intros Herr. exfalso. revert Herr. destruct (_ && _); [|done]. by rewrite finish_sticky.
  - apply (write_retired c2 _ (data_bytes s) (t <| bytes_written := bytes_written t + data_bytes s |>)); try done.
    + etransitivity; [apply (alter_at _ _ _ dummy_task)|]. rewrite (wr_queue _ W). cbn.
      by erewrite nth_lookup_Some by done.
    + change (current (queue c2) = current (queue c)). by rewrite (wr_queue _ W).
    + apply W.
    + by right.
    + by apply Hag.
  - assert (~ friendly cfg) as Hnf by (intros F; specialize (Hfr F); lia). split; [|done].
    unfold set_error. rewrite He. intros Herr. exfalso. revert Herr. cbn [Z.eqb].
    destruct (_ && _); [|done]. by rewrite finish_sticky.
Qed.

(** The file is closed when its fsync is done. *)
Lemma fsync_cb r : state s = BUF_FSYNCING -> (friendly cfg -> 0 <= r) ->
  completes c (on_fsync_complete (c <| ops := delete j (ops c) |>) r k).
Proof using All.
  intros Hs Hfr. pose proof (g_error _ _ _ _ I) as He.
  set (c1 := c <| ops := delete j (ops c) |>).
  assert (task (slot_at c1 k) = Some i) as Et by (unfold slot_at; by erewrite nth_lookup_Some by done).
  unfold on_fsync_complete, with_task. rewrite Et. unfold completes. eexists. split; [reflexivity|]. cbn beta zeta.
  set (c2 := if r <? 0 then _ else c1).
  assert (queue c2 = queue c /\ slots c2 = slots c /\ ops c2 = delete j (ops c) /\ active_ops c2 = active_ops c /\
    fds c2 = fds c /\ files c2 = files c /\ (friendly cfg -> error c2 = 0)) as (Q1 & Q2 & Q3 & Q4 & Q5 & Q6 & Q7).
  { unfold c2. destruct (Z.ltb_spec r 0); [|done]. unfold set_error. rewrite (He : error c1 = 0).
    split_and!; try done. intros F. specialize (Hfr F). lia. }
  clearbody c2. set (c' := add_active _ (-1)). split; [|done]. intros Herr.
  assert (task_at c2 i = t) as Eta by (unfold task_at; rewrite Q1; by apply nth_lookup_Some).
  set (t' := t <| src_fd := -1 |> <| dst_fd := -1 |> <| done := true |>).
  set (s' := s <| state := BUF_FREE |> <| task := None |>).
  assert (flight i k s = None /\ syncing i k s = Some k /\ flight i k s' = None /\ syncing i k s' = None)
    as (F1 & Y1 & F2 & Y2).
  { unfold flight, syncing. rewrite Hs, Htask, decide_True by done. done. }
  pose proof (g_tasks _ _ _ _ I i t Hi) as T0.
  assert (syncs c i <> []) as Hsy.
  { intros E0. assert (k ∈ syncs c i) as Hin by (apply elem_of_gather; eauto). rewrite E0 in Hin. by apply elem_of_nil in Hin. }
  destruct (k_sync _ _ _ _ _ _ _ _ T0 Hsy) as (_ & _ & Hrd & Hopen).
  destruct (k_open _ _ _ _ _ _ _ _ T0 Hopen) as (Hnd & Hdpos & Hsf & Hdf & Hro).
  assert (change J c c' i k t t' s s') as C.
  { split; try done.
    - etransitivity; [apply (alter_at _ _ _ dummy_task)|].
      change (<[i := (task_at c2 i) <| src_fd := -1 |> <| dst_fd := -1 |> <| done := true |>]> (tasks (queue c2)) =
              <[i := t']> (tasks (queue c))). by rewrite Eta, Q1.
    - etransitivity; [apply (alter_at _ _ _ dummy_slot)|]. change (slots (close_task c2 i)) with (slots c2).
      rewrite Q2. by erewrite nth_lookup_Some by done.
    - split; [by left|by right].
    - rewrite Hreq. change (ops c') with (ops c2). rewrite Q3. cbn. rewrite app_nil_r.
      rewrite (delete_Permutation (ops c) j op Hj) at 2. solve_Permutation.
    - change (active_ops c2 + -1 = zlen (ops c2)). rewrite Q3, Q4, (g_active _ _ _ _ I).
      unfold zlen. rewrite (Permutation_length (delete_Permutation (ops c) j op Hj)). cbn. lia.
    - left. change (current (queue c2) = current (queue c)). by rewrite Q1.
    - intros path _. change (files c2 !! path = files c !! path). by rewrite Q6.
    - intros fd path H1 H2 H3.
      change (delete (dst_fd (task_at c2 i)) (delete (src_fd (task_at c2 i)) (fds c2)) !! fd = Some path).
      rewrite Eta, Q5, !lookup_delete_ne; [done|congruence|congruence].
    - intros fd path.
      change (delete (dst_fd (task_at c2 i)) (delete (src_fd (task_at c2 i)) (fds c2)) !! fd = Some path ->
        owns J i t' fd path \/ fds c !! fd = Some path /\ (owns J i t fd path -> owns J i t' fd path)).
      rewrite Eta, Q5, !lookup_delete_Some. intros (H1 & H2 & H3). right. split; [done|].
      intros [_ [[? _]|[? _]]]; congruence. }
  destruct (change_task _ _ _ _ _ _ _ _ _ _ _ I C) as (fl & sy & T & Hback & _).
  rewrite F1, Y1 in T. rewrite F2, Y2 in Hback. cbn in T, Hback.
  destruct (k_sync _ _ _ _ _ _ _ _ T) as (Hone & -> & _); [done|].
  assert (sy = []) as -> by (destruct sy; [done|cbn in Hone; lia]).
  eapply change_step; [exact C| |done|].
  - eapply inv_change; [done|done|exact C|done|]. apply Hback.
    change (file_at c' (j_dst J i)) with (file_at c2 (j_dst J i)).
    assert (file_at c2 (j_dst J i) = file_at c (j_dst J i)) as -> by (unfold file_at; by rewrite Q6).
    destruct T as [K1 K2 Kd K3 K4 K5 K6 K7 K8 K9 K10 K11 K12].
    split; cbn; try done; try lia.
    + intros _. by split_and!; auto.
    + intros _. apply K11. by right.
    + intros F. destruct (K12 F). split; [done|]. intros _. by apply Hro.
  - intros _. unfold weight. rewrite Hs. cbn. unfold left. cbn. lia.
Qed.

End Callbacks2.

(** ** The kernel's part *)

(** A transfer that nothing shortens. *)
Definition full (a : answer) : Prop := exists limit, a = Transfer limit /\ chunk_size cfg <= limit.

Lemma pread_zlen (l : list Z) o n : pread l o n = pread l o (zlen (pread l o n)).
Proof.
  unfold pread, zlen. rewrite Nat2Z.id, length_take.
  destruct (decide (Z.to_nat n <= length (drop (Z.to_nat o) l))%nat).
  - by rewrite Nat.min_l.
  - by rewrite Nat.min_r, firstn_all, take_ge by lia.
Qed.

Lemma taken_same c j k s : slots c !! k = Some s ->
  c <| ops := delete j (ops c) |> = taken c j k (s <| buf := buf s |>).
Proof.
  intros Hk. unfold taken. destruct s. cbn in *. rewrite list_insert_id; [|done]. by destruct c.
Qed.

Section Kernel.
Context (c : copy_ctx_t) (j k i : nat) (t : file_task_t) (s : buf_slot_t) (op : io_op) (a : answer).
Hypothesis (I : inv c) (Hj : ops c !! j = Some op) (Eslot : op_slot op = k) (Hk : slots c !! k = Some s)
  (Hreq : request J k s = Some op) (Htask : task s = Some i) (Hi : tasks (queue c) !! i = Some t)
  (Hfull : friendly cfg -> full a).
Let c1 := c <| ops := delete j (ops c) |>.

Lemma buf_len : zlen (buf s) = chunk_size cfg.
Proof using I Hk. by destruct (Forall_lookup_1 _ _ _ _ (g_slots _ _ _ _ I) Hk). Qed.

Lemma read_completes : state s = BUF_READING ->
  completes c (let '(r, c2) := execute c1 op a in on_read_complete cfg c2 r k).
Proof using All.
  intros Hs. destruct (flight_facts c i k t s I Hi Hk Htask ltac:(by left)) as ([Hoff Hd Hrd _] & _).
  destruct (Hrd Hs) as [Hdb Hby]. pose proof buf_len as Hlen. pose proof (chunk_le i (offset s)) as Hcl.
  pose proof (task_index _ _ _ _ _ _ I Hi) as Hin. pose proof (ok_size _ _ HJ i Hin) as Hsz.
  pose proof (io_len_clipped i (offset s) ltac:(lia)) as Hclip.
  pose proof Hreq as HR. unfold request in HR. rewrite Hs, Htask in HR. cbn in HR.
  assert (op = {| op_kind_of := OpRead; op_file := Some (j_src J i); op_slot := k; op_off := offset s;
    op_len := bytes s |}) as Eop by congruence.
  rewrite Eop. destruct a as [limit|e]; cbn [execute op_file op_kind_of op_slot op_off op_len].
  - change (file_at c1 (j_src J i)) with (file_at c (j_src J i)). rewrite (g_sources _ _ _ _ I i Hin).
    set (data := pread _ _ _).
    assert (zlen data = Z.max 0 (Z.min (Z.min limit (bytes s)) (j_size J i - offset s))) as Ez.
    { unfold data. rewrite zlen_pread by done. by rewrite Hsz. }
    assert (zlen (pwrite (buf s) 0 data) = zlen (buf s)) as Eb by (rewrite zlen_pwrite by lia; lia).
    assert (upd_slot c1 k (fun s => s <| buf := pwrite (buf s) 0 data |>) =
      taken c j k (s <| buf := pwrite (buf s) 0 data |>)) as ->.
    { unfold upd_slot, taken. cbn. rewrite (alter_at _ _ _ dummy_slot). by erewrite nth_lookup_Some by done. }
    eapply read_cb; try done.
    + intros Hr. split; [lia|]. rewrite pread_pwrite_0 by lia. apply pread_zlen.
    + intros F. destruct (Hfull F) as (l & [= ->] & Hl). lia.
  - unfold c1. rewrite (taken_same c j k s Hk). eapply read_cb; try done.
    intros F. destruct (Hfull F) as (l & [=] & _).
Qed.

Lemma write_completes : state s = BUF_WRITING ->
  completes c (let '(r, c2) := execute c1 op a in on_write_complete cfg c2 r k).
Proof using All.
  intros Hs. destruct (flight_facts c i k t s I Hi Hk Htask ltac:(by right)) as ([Hoff Hd _ Hwr] & _).
  destruct (Hwr Hs) as (Hby & Hbc & Hbuf). pose proof buf_len as Hlen. pose proof (chunk_le i (offset s)) as Hcl.
  pose proof (io_len_pos (data_bytes s) ltac:(lia)) as Hio.
  pose proof (ok_size _ _ HJ i (task_index _ _ _ _ _ _ I Hi)) as Hsz.
  pose proof Hreq as HR. unfold request in HR. rewrite Hs, Htask in HR. cbn in HR.
  assert (op = {| op_kind_of := OpWrite; op_file := Some (j_dst J i); op_slot := k; op_off := offset s;
    op_len := bytes s |}) as Eop by congruence.
  rewrite Eop. destruct a as [limit|e]; cbn [execute op_file op_kind_of op_slot op_off op_len].
  - assert (slot_at c1 k = s) as -> by (unfold slot_at; by apply nth_lookup_Some).
    set (data := pread _ _ _).
    assert (zlen data = Z.max 0 (Z.min (Z.min limit (bytes s)) (chunk_size cfg))) as Ez.
    { unfold data. rewrite zlen_pread by lia. rewrite Hlen. lia. }
    set (c2 := set_field files _ _).
    assert (content (file_at c2 (j_dst J i)) = pwrite (content (file_at c (j_dst J i))) (offset s) data) as Ed.
    { unfold file_at at 1. cbn. by rewrite lookup_insert_eq. }
    eapply write_cb; try done.
    + split; try done.
      * intros path Hp. cbn. by rewrite lookup_insert_ne.
      * rewrite Ed, zlen_pwrite by done. intros Hdir. unfold io_len in Hby. rewrite Hdir in Hby.
        unfold chunk_at in Hd. lia.
    + intros Hr Hdc x Hx. rewrite Ed.
      assert (chunk_at cfg J i (offset s) < bytes s -> offset s + chunk_at cfg J i (offset s) = j_size J i) as Hpad.
      { intros Hlt. unfold chunk_at in *. lia. }
      unfold in_chunk. destruct (decide _) as [Hc|Hc].
      * rewrite lookup_pwrite_in by lia. unfold data.
        assert (forall l o n, 0 <= o -> Z.of_nat (x - Z.to_nat (offset s)) < n ->
          pread l o n !! (x - Z.to_nat (offset s))%nat = l !! (Z.to_nat o + (x - Z.to_nat (offset s)))%nat) as Hlk
          by (intros; by apply lookup_pread).
        rewrite Hlk by lia. rewrite <- (Hlk (buf s) 0 (data_bytes s)) by lia. rewrite Hbuf, Hlk by lia. f_equal. lia.
      * intros Hold. rewrite lookup_pwrite_out; [done|done| |lia].
        apply lookup_lt_is_Some_1. rewrite Hold. apply lookup_lt_is_Some_2. unfold zlen in Hsz. lia.
    + intros F. destruct (Hfull F) as (l & [= ->] & Hl). lia.
  - eapply write_cb; try done.
    + intros Hr. lia.
    + intros F. destruct (Hfull F) as (l & [=] & _).
Qed.

Lemma fsync_completes : state s = BUF_FSYNCING ->
  completes c (let '(r, c2) := execute c1 op a in on_fsync_complete c2 r k).
Proof using All.
  intros Hs. pose proof Hreq as HR. unfold request in HR. rewrite Hs, Htask in HR. cbn in HR.
  assert (op = {| op_kind_of := OpFsync; op_file := Some (j_dst J i); op_slot := k; op_off := 0; op_len := 0 |})
    as Eop by congruence.
  rewrite Eop. destruct a as [limit|e]; cbn; eapply fsync_cb; try done.
  intros F. destruct (Hfull F) as (l & [=] & _).
Qed.
End Kernel.

(** One completion, whatever the kernel answers. *)
Lemma complete_op_ok c j a : inv c -> (friendly cfg -> full a) -> (j < length (ops c))%nat ->
  completes c (complete_op cfg c j a).
Proof.
  intros I Hfull Hj. destruct (lookup_lt_is_Some_2 _ _ Hj) as [op Hop].
  destruct (op_in_flight c j op I Hop) as (s & i & t & Hk & Hreq & Ht & Hi & _).
  unfold complete_op. rewrite Hop.
  pose proof (read_completes c j _ i t s op a I Hop eq_refl Hk Hreq Ht Hi Hfull) as HR.
  pose proof (write_completes c j _ i t s op a I Hop eq_refl Hk Hreq Ht Hi Hfull) as HW.
  pose proof (fsync_completes c j _ i t s op a I Hop eq_refl Hk Hreq Ht Hi Hfull) as HF.
  unfold request in Hreq. destruct (state s); [done|..].
  - specialize (HR eq_refl). destruct (execute _ op a) as [r c2]. by assert (op_kind_of op = OpRead) as -> by (injection Hreq as <-; done).
  - specialize (HW eq_refl). destruct (execute _ op a) as [r c2]. by assert (op_kind_of op = OpWrite) as -> by (injection Hreq as <-; done).
  - specialize (HF eq_refl). destruct (execute _ op a) as [r c2]. by assert (op_kind_of op = OpFsync) as -> by (injection Hreq as <-; done).
Qed.

End Steps.
