(* ===== verification/CopyRun.v ===== *)
(** * Submission and the loops of a copy

    [open_task], [submit_next_read] and the loops of [copy_pipeline] against the
    invariant of [CopySpec]: a copy that returns success with every byte counted
    has copied every byte, and when nothing fails it ends, having copied
    everything and closed every descriptor. *)
From Stdlib Require Import ZArith Lia List String.
From stdpp Require Import base tactics strings list gmap.
From S2P Require Import Prelude Client Copy CopySpec CopySteps.

#[local] Open Scope Z_scope.

#[local] Arguments pwrite : simpl never.
#[local] Arguments pread : simpl never.
#[local] Arguments resize : simpl never.
#[local] Arguments gather : simpl never.
#[local] Arguments zlen : simpl never.
#[local] Arguments round_up_sz : simpl never.

(** [find_reader] finds the first task that still needs reads. *)
Lemma find_reader_some n l i j : find_reader n l i = Some j ->
  (i <= j)%nat /\ (exists t, l !! j = Some t /\ reads_done t = false /\ done t = false) /\
  forall m t, (i <= m < j)%nat -> l !! m = Some t -> reads_done t || done t = true.
Proof.
  revert i. induction n as [|n IH]; intros i H; cbn in H; [done|].
  destruct (l !! i) as [t|] eqn:Hi; [|done]. destruct (reads_done t || done t) eqn:Eb.
  - destruct (IH _ H) as (H1 & H2 & H3). split; [lia|]. split; [done|]. intros m u Hm Hu.
    destruct (decide (m = i)) as [->|]; [congruence|]. apply (H3 m u); [lia|done].
  - injection H as <-. apply orb_false_iff in Eb. split; [lia|]. split; [eauto|]. lia.
Qed.

Lemma find_reader_none n l i : (length l <= n + i)%nat -> find_reader n l i = None ->
  forall m t, (i <= m)%nat -> l !! m = Some t -> reads_done t || done t = true.
Proof.
  revert i. induction n as [|n IH]; intros i Hl H m t Hm Ht; cbn in H.
  { apply lookup_lt_Some in Ht. lia. }
  destruct (l !! i) as [u|] eqn:Hi.
  - destruct (reads_done u || done u) eqn:Eb; [|done].
    destruct (decide (m = i)) as [->|]; [congruence|]. apply (IH (S i) ltac:(lia) H m t); [lia|done].
  - apply lookup_lt_Some in Ht. apply lookup_ge_None in Hi. lia.
Qed.

Definition no_reader (c : copy_ctx_t) : Prop :=
  find_reader (length (tasks (queue c))) (tasks (queue c)) (current (queue c)) = None.

Section Run.
Context {E : ClientEnv} (cfg : config_t) (J : job_t) (HJ : job_ok cfg J) (fds0 : gmap Z string).
Implicit Types c : copy_ctx_t.

Abbreviation inv := (copy_inv cfg J fds0).
Abbreviation tok := (task_ok cfg J).

(** ** Opening a file *)

Lemma open_fd_free c path :
  let '(fd, c') := open_fd c path in
  0 <= fd /\ fds c !! fd = None /\ c' = c <| fds := <[fd := path]> (fds c) |>.
Proof.
  unfold open_fd. split; [apply lowest_fd_ge|]. split; [by apply lowest_fd_free|done].
Qed.

Lemma zlen_resize_max (l : list Z) n : 0 <= n -> zlen l <= n -> zlen (resize l (Z.max n (zlen l))) = n.
Proof. intros. rewrite zlen_resize by lia. lia. Qed.

(** The end of [open_task], once both files are open. *)
Definition prepare c (t : file_task_t) (fd : Z) : copy_ctx_t :=
  let c := set_file c fd (fun f =>
    {| content := []; st_mode := default (Z.land (mode t) 4095) (st_mode <$> files c !! dst_path t);
       st_times := st_times f |}) in
  let c := if 0 <? file_size t then posix_fallocate c fd (file_size t) else c in
  fchmod c fd (Z.land (mode t) 4095).

Lemma prepare_ok c i t fd : fds c !! fd = Some (j_dst J i) -> 0 <= file_size t ->
  quiet J i c (prepare c t fd) /\ error (prepare c t fd) = error c /\
  zlen (content (file_at (prepare c t fd) (j_dst J i))) <= file_size t.
Proof.
  intros Hfd Hsz. unfold prepare. set (c1 := set_file c fd _).
  assert (quiet J i c c1 /\ error c1 = error c /\ content (file_at c1 (j_dst J i)) = []) as (Q1 & E1 & D1).
  { unfold c1. split; [by apply quiet_set_file|]. split; [apply error_set_file|]. by rewrite content_set_file. }
  set (c2 := if 0 <? file_size t then _ else c1).
  assert (quiet J i c1 c2 /\ error c2 = error c1 /\ zlen (content (file_at c2 (j_dst J i))) <= file_size t) as (Q2 & E2 & D2).
  { assert (fds c1 !! fd = Some (j_dst J i)) as Hfd1 by (by rewrite (q_fds _ _ _ _ Q1)).
    unfold c2. destruct (0 <? file_size t); [|by rewrite D1].
    unfold posix_fallocate, sys. cbn [now]. destruct (_ =? 0); [|by split; [done|split; [done|change (zlen (content (file_at c1 (j_dst J i))) <= file_size t); by rewrite D1]]].
    set (c0 := set_field now _ _). assert (quiet J i c1 c0) as Q0 by done.
    split; [eapply quiet_trans; [exact Q0|by apply quiet_set_file]|]. split; [by rewrite error_set_file|].
    rewrite content_set_file by done. cbn [content]. change (file_at c0) with (file_at c1). rewrite D1.
    rewrite zlen_resize_max by done. lia. }
  clearbody c2. unfold fchmod, sys. cbn [now].
  assert (fds c2 !! fd = Some (j_dst J i)) as Hfd2 by (by rewrite (q_fds _ _ _ _ Q2), (q_fds _ _ _ _ Q1)).
  pose proof (quiet_trans _ _ _ _ _ Q1 Q2) as Q12. destruct (_ =? 0).
  - set (c0 := set_field now _ _). assert (quiet J i c2 c0) as Q0 by done.
    split; [eapply quiet_trans; [exact Q12|]; eapply quiet_trans; [exact Q0|by apply quiet_set_file]|].
    split; [rewrite error_set_file; change (error c2 = error c); congruence|].
    by rewrite content_set_file.
  - split; [eapply quiet_trans; [exact Q12|done]|]. split; [change (error c2 = error c); congruence|done].
Qed.

(** What [open_task] does: on failure nothing is left open, on success both files
    are, and the destination is no longer than the source. *)
Lemma open_task_spec c i t : tasks (queue c) !! i = Some t -> src_path t = j_src J i -> dst_path t = j_dst J i ->
  0 <= file_size t -> src_fd t < 0 ->
  let '(b, c') := open_task c i in
  exists t', tasks (queue c') = <[i := t']> (tasks (queue c)) /\ current (queue c') = current (queue c) /\
    slots c' = slots c /\ ops c' = ops c /\ active_ops c' = active_ops c /\ error c' = error c /\
    (forall path, path <> j_dst J i -> files c' !! path = files c !! path) /\
    if b then
      exists fd1 fd2, t' = t <| src_fd := fd1 |> <| dst_fd := fd2 |> /\ 0 <= fd1 /\ 0 <= fd2 /\
        fds c !! fd1 = None /\ fd1 <> fd2 /\ fds c !! fd2 = None /\
        fds c' = <[fd2 := j_dst J i]> (<[fd1 := j_src J i]> (fds c)) /\
        zlen (content (file_at c' (j_dst J i))) <= file_size t
    else ~ friendly cfg /\ fds c' = fds c /\ exists fd, fd < 0 /\ t' = t <| src_fd := fd |>.
Proof.
  intros Hi Es Ed Hsz Hfd. unfold open_task, sys at 1. cbn [now].
  pose proof (nth_lookup_Some _ _ dummy_task _ Hi) as Hn. pose proof (lookup_lt_Some _ _ _ Hi) as Hlt.
  destruct (Z.eqb_spec (ask_errno (now c)) 0) as [E0|E0]; cbn [negb].
  2:{ exists t. cbn. rewrite list_insert_id by done. split_and!; try done.
      - intros F. by rewrite (friendly_errno cfg) in E0.
      - exists (src_fd t). split; [done|]. by destruct t. }
  set (c0 := c <| now := S (now c) |>). pose proof (open_fd_free c0 (src_path (task_at c0 i))) as Hopen.
  destruct (open_fd c0 _) as [fd1 c1]. destruct Hopen as (Hpos1 & Hfree1 & ->).
  set (c1 := upd_task _ i (fun t => t <| src_fd := fd1 |>)).
  assert (tasks (queue c1) = <[i := t <| src_fd := fd1 |>]> (tasks (queue c))) as T1.
  { etransitivity; [apply (alter_at _ _ _ dummy_task)|]. change (tasks (queue (_ <| fds := _ |>))) with (tasks (queue c)). by rewrite Hn. }
  assert (fds c1 = <[fd1 := j_src J i]> (fds c)) as X1.
  { rewrite <- Es. unfold c1. cbn. unfold task_at. cbn. by rewrite Hn. }
  assert (task_at c1 i = t <| src_fd := fd1 |>) as Et1 by (unfold task_at; rewrite T1; by apply nth_insert_at).
  unfold sys at 1. cbn [now]. destruct (Z.eqb_spec (ask_errno (now c1)) 0) as [E1|E1]; cbn [negb].
  - set (c2 := c1 <| now := S (now c1) |>). change (task_at c2 i) with (task_at c1 i). rewrite Et1.
    pose proof (open_fd_free c2 (dst_path (t <| src_fd := fd1 |>))) as Hopen.
    destruct (open_fd c2 _) as [fd2 c3]. destruct Hopen as (Hpos2 & Hfree2 & ->).
    change (fds c2) with (fds c1) in *. rewrite X1 in Hfree2.
    set (c3 := upd_task _ i (fun t => t <| dst_fd := fd2 |>)). set (t1 := t <| src_fd := fd1 |>) in *.
    assert (tasks (queue c3) = <[i := t1 <| dst_fd := fd2 |>]> (tasks (queue c))) as T3.
    { etransitivity; [apply (alter_at _ _ _ dummy_task)|]. change (tasks (queue (_ <| fds := _ |>))) with (tasks (queue c1)).
      rewrite T1, nth_insert_at, list_insert_insert_eq by done. done. }
    assert (fds c3 = <[fd2 := j_dst J i]> (<[fd1 := j_src J i]> (fds c))) as X3 by (rewrite <- X1, <- Ed; done).
    destruct (prepare_ok c3 i t1 fd2) as (Q & Eq & Hz); [by rewrite X3, lookup_insert_eq|done|].
    exists (t1 <| dst_fd := fd2 |>). change (fchmod _ _ _) with (prepare c3 t1 fd2).
    assert (fd1 <> fd2) as Hne by (intros ->; by rewrite lookup_insert_eq in Hfree2).
    split; [rewrite (q_tasks _ _ _ _ Q); exact T3|]. destruct Q as [Q1 Q2 Q3 Q4 Q5 Q6 Q7].
    split_and!; try done.
    exists fd1, fd2. split_and!; try done; [by rewrite lookup_insert_ne in Hfree2|by rewrite Q6].
  - exists (t <| src_fd := -1 |>). set (c2 := c1 <| now := S (now c1) |>). split_and!; try done.
    + etransitivity; [apply (alter_at _ _ _ dummy_task)|]. change (tasks (queue (close c2 _))) with (tasks (queue c1)).
      rewrite T1, nth_insert_at, list_insert_insert_eq by done. done.
    + intros F. by rewrite (friendly_errno cfg) in E1.
    + change (delete (src_fd (task_at c1 i)) (fds c1) = fds c). rewrite Et1, X1. by apply delete_insert_id.
    + exists (-1). by split.
Qed.

(** ** Steps that leave the slots alone *)

Section Neutral.
Context (c c' : copy_ctx_t) (i k : nat) (t t' : file_task_t) (s : buf_slot_t).
Hypothesis (I : inv c) (Hi : tasks (queue c) !! i = Some t) (Hk : slots c !! k = Some s) (Hs : state s = BUF_FREE)
  (Et : tasks (queue c') = <[i := t']> (tasks (queue c))) (Es : slots c' = slots c) (Eo : ops c' = ops c)
  (Ea : active_ops c' = active_ops c)
  (Hc : current (queue c') = current (queue c) \/
    current (queue c') = S i /\ reads_done t' = true /\
    forall j u, (current (queue c) <= j < i)%nat -> tasks (queue c) !! j = Some u -> reads_done u = true)
  (Hr : reads_done t = true -> reads_done t' = true)
  (Hf : forall path, path <> j_dst J i -> files c' !! path = files c !! path)
  (Hx : forall fd path, path <> j_src J i -> path <> j_dst J i -> fds c !! fd = Some path -> fds c' !! fd = Some path)
  (Hx' : forall fd path, fds c' !! fd = Some path -> owns J i t' fd path \/
    fds c !! fd = Some path /\ (owns J i t fd path -> owns J i t' fd path)).

Lemma neutral_change : change J c c' i k t t' s s.
Proof using All.
  split; try done.
  - by rewrite Es, list_insert_id.
  - split; by right.
  - by rewrite Eo.
  - rewrite Ea, Eo. apply I.
Qed.

Lemma neutral_inv : flights c i = [] -> syncs c i = [] -> error c' = 0 ->
  tok i t' [] [] (fds c') (content (file_at c' (j_dst J i))) -> inv c'.
Proof using All.
  intros F Y He T. eapply inv_change; [done|done|apply neutral_change|done|].
  unfold task_inv, flights, syncs. rewrite Es. fold (flights c i) (syncs c i). by rewrite F, Y.
Qed.
End Neutral.

Lemma unopened c i t : inv c -> tasks (queue c) !! i = Some t -> src_fd t < 0 -> done t = false ->
  tok i t [] [] (fds c) (content (file_at c (j_dst J i))) /\ flights c i = [] /\ syncs c i = [] /\
  read_offset t = 0 /\ bytes_written t = 0 /\ reads_done t = false.
Proof.
  intros I Hi Hf Hd. pose proof (g_tasks _ _ _ _ I i t Hi) as T. unfold task_inv in T.
  destruct (k_closed _ _ _ _ _ _ _ _ T Hf) as (F & Y & [?|(? & ? & ?)]); [congruence|].
  by rewrite F, Y in *.
Qed.

(** The state after a successful [open_task]; an empty file needs no reads. *)
Lemma opened_ok i t fd1 fd2 open dst : tok i t [] [] open dst -> done t = false -> src_fd t < 0 ->
  read_offset t = 0 -> bytes_written t = 0 -> 0 <= fd1 -> 0 <= fd2 -> fd1 <> fd2 ->
  forall dst', zlen dst' <= file_size t ->
  tok i (t <| src_fd := fd1 |> <| dst_fd := fd2 |> <| reads_done := (file_size t =? 0) |>) [] []
    (<[fd2 := j_dst J i]> (<[fd1 := j_src J i]> open)) dst'.
Proof.
  intros [K1 K2 Kd K3 K4 K5 K6 K7 K8 K9 K10 K11 K12] Hd Hf Ho Hb H1 H2 Hne dst' Hl.
  destruct K1 as (Ka & Kb & Kc). split; cbn; try done; try lia.
  - by rewrite Hd.
  - intros _. rewrite lookup_insert_eq, lookup_insert_ne, lookup_insert_eq by done.
    split_and!; try done; rewrite ?Ho, ?Kc; destruct (Z.eqb_spec (j_size J i) 0); done.
  - intros [H|H]; [congruence|done].
Qed.

Lemma skipped_ok i t fd open dst dst' : tok i t [] [] open dst -> src_fd t < 0 -> read_offset t = 0 -> bytes_written t = 0 ->
  fd < 0 -> ~ friendly cfg ->
  tok i (t <| src_fd := fd |> <| reads_done := true |> <| done := true |>) [] [] open dst'.
Proof.
  intros [K1 K2 Kd K3 K4 K5 K6 K7 K8 K9 K10 K11 K12] Hf Ho Hb H1 Hnf.
  split; cbn; try done; try lia.
  - intros _. auto.
  - intros _ Hw [?|?]; [lia|done].
Qed.

Lemma set_current_inv c i : inv c ->
  (forall j u, (j < i)%nat -> tasks (queue c) !! j = Some u -> reads_done u = true) -> inv (set_current c i).
Proof. intros [] H. by split. Qed.

(** Descriptors after opening. *)
Lemma opened_fds i t (open : gmap Z string) fd1 fd2 b : open !! fd1 = None -> open !! fd2 = None -> 0 <= fd1 ->
  let open' := <[fd2 := j_dst J i]> (<[fd1 := j_src J i]> open) in
  let t' := t <| src_fd := fd1 |> <| dst_fd := fd2 |> <| reads_done := b |> in
  src_fd t < 0 ->
  (forall fd (path : string), open !! fd = Some path -> open' !! fd = Some path) /\
  (forall fd path, open' !! fd = Some path -> owns J i t' fd path \/
     open !! fd = Some path /\ (owns J i t fd path -> owns J i t' fd path)).
Proof.
  intros H1 H2 Hp open' t' Ht. split.
  - intros fd path Hfd. unfold open'. by rewrite !lookup_insert_ne by congruence.
  - intros fd path. unfold open'. destruct (decide (fd = fd2)) as [->|Hn2].
    + rewrite lookup_insert_eq. intros [= <-]. left. split; [done|]. by right.
    + rewrite lookup_insert_ne by done. destruct (decide (fd = fd1)) as [->|Hn1].
      * rewrite lookup_insert_eq. intros [= <-]. left. split; [done|]. by left.
      * rewrite lookup_insert_ne by done. intros Hfd. right. split; [done|]. intros [? _]. lia.
Qed.

(** ** Submitting one read *)

Section Read.
Context (c : copy_ctx_t) (i k : nat) (t : file_task_t) (s : buf_slot_t).
Hypothesis (I : inv c) (Hi : tasks (queue c) !! i = Some t) (Hk : slots c !! k = Some s) (Hs : state s = BUF_FREE)
  (Hopen : 0 <= src_fd t) (Hrd : reads_done t = false)
  (Hbefore : forall j u, (current (queue c) <= j < i)%nat -> tasks (queue c) !! j = Some u -> reads_done u = true).

Let chunk := chunk_at cfg J i (read_offset t).
Let last := file_size t <=? read_offset t + chunk.
Let t' := t <| read_offset := read_offset t + chunk |> <| reads_done := last |>
            <| t_active_ops := t_active_ops t + 1 |>.
Let s' := s <| offset := read_offset t |> <| bytes := io_len cfg chunk |> <| data_bytes := chunk |>
            <| state := BUF_READING |> <| task := Some i |>.

Lemma read_facts : file_size t = j_size J i /\ 0 < chunk <= j_size J i - read_offset t /\ 0 <= read_offset t /\
  last = (j_size J i =? read_offset t + chunk) /\ syncs c i = [] /\ fds c !! src_fd t = Some (j_src J i).
Proof using All.
  pose proof (g_tasks _ _ _ _ I i t Hi) as T. pose proof (ok_chunk _ _ HJ) as Hc.
  destruct (k_static _ _ _ _ _ _ _ _ T) as (_ & _ & Esz). pose proof (k_range _ _ _ _ _ _ _ _ T) as Hr.
  destruct (k_open _ _ _ _ _ _ _ _ T Hopen) as (_ & _ & Hsf & _ & Hiff).
  assert (read_offset t <> j_size J i) as Hne by (intros H; apply Hiff in H; congruence).
  assert (0 < chunk <= j_size J i - read_offset t) as Hch by (unfold chunk, chunk_at; lia).
  split_and!; try done; try lia.
  - unfold last. rewrite Esz. destruct (Z.leb_spec (j_size J i) (read_offset t + chunk)), (Z.eqb_spec (j_size J i) (read_offset t + chunk)); lia || done.
  - destruct (syncs c i) eqn:Ey; [done|]. pose proof (k_sync _ _ _ _ _ _ _ _ T) as Hsy. rewrite Ey in Hsy.
    destruct (Hsy ltac:(done)) as (_ & _ & H & _). congruence.
Qed.

Lemma read_task_ok fl open dst : tok i t fl [] open dst -> tok i t' (s' :: fl) [] open dst.
Proof using All.
  destruct read_facts as (Esz & Hch & Ho & Hlast & _). intros [K1 K2 Kd K3 K4 K5 K6 K7 K8 K9 K10 K11 K12].
  assert (claimed cfg J i s' = chunk) as Ecl by done.
  split; try done; rewrite ?fmap_cons; cbn [zsum]; rewrite ?Ecl; change (data_bytes s') with chunk;
    change (src_fd t') with (src_fd t); change (dst_fd t') with (dst_fd t); change (done t') with (done t);
    change (read_offset t') with (read_offset t + chunk); change (bytes_written t') with (bytes_written t);
    change (reads_done t') with last; change (t_active_ops t') with (t_active_ops t + 1); try done; try lia.
  - rewrite K2, zlen_cons. done.
  - intros Hd. specialize (Kd Hd). congruence.
  - apply Forall_cons. split; [|done]. split; cbn; try done. lia.
  - intros _. destruct (K5 Hopen) as (H1 & H2 & H3 & H4 & H5). split_and!; try done. split.
    + intros Hl. rewrite Hlast in Hl. apply Z.eqb_eq in Hl. lia.
    + intros H6. rewrite Hlast. apply Z.eqb_eq. lia.
  - intros _ Hx x Hxr Hall. apply Forall_cons in Hall as [H1 H2].
    apply (K9 Hopen); [lia| |done]. unfold in_chunk in H1. cbn in H1. fold chunk in H1. lia.
  - intros F. destruct (K12 F) as [H1 H2]. split; [lia|]. intros Hd. specialize (Kd Hd). congruence.
Qed.

Lemma submit_read_spec :
  let c' := submit_read cfg c i k in
  (error c' = 0 ->
    tasks (queue c') = <[i := t']> (tasks (queue c)) /\ slots c' = <[k := s']> (slots c) /\
    current (queue c') = (if last then S i else current (queue c)) /\
    (exists op, request J k s' = Some op /\ ops c' = ops c ++ [op]) /\ active_ops c' = active_ops c + 1 /\
    fds c' = fds c /\ files c' = files c) /\
  (friendly cfg -> error c' = 0).
Proof using All.
  intros c'. destruct read_facts as (Esz & Hch & Ho & Hlast & _ & Hsf).
  pose proof (nth_lookup_Some _ _ dummy_task _ Hi) as Hn. pose proof (lookup_lt_Some _ _ _ Hi) as Hlt.
  pose proof (g_error _ _ _ _ I) as He.
  unfold c', submit_read. change (task_at c i) with (nth i (tasks (queue c)) dummy_task). rewrite Hn.
  assert ((if file_size t <? read_offset t + chunk_size cfg then file_size t - read_offset t else chunk_size cfg) = chunk) as ->.
  { rewrite Esz. unfold chunk, chunk_at. destruct (Z.ltb_spec (j_size J i) (read_offset t + chunk_size cfg)); lia. }
  set (c1 := upd_slot c k _). set (c2 := upd_task c1 i (fun t => t <| read_offset := read_offset t + chunk |>)).
  assert (tasks (queue c2) = <[i := t <| read_offset := read_offset t + chunk |>]> (tasks (queue c))) as T2.
  { etransitivity; [apply (alter_at _ _ _ dummy_task)|]. change (tasks (queue c1)) with (tasks (queue c)). by rewrite Hn. }
  assert (task_at c2 i = t <| read_offset := read_offset t + chunk |>) as Et2 by (unfold task_at; rewrite T2; by apply nth_insert_at).
  rewrite Et2. change (read_offset (t <| read_offset := read_offset t + chunk |>)) with (read_offset t + chunk). fold last.
  set (c3 := if last then _ else c2).
  assert (tasks (queue c3) = <[i := t <| read_offset := read_offset t + chunk |> <| reads_done := last |>]> (tasks (queue c)) /\
    current (queue c3) = (if last then S i else current (queue c)) /\ slots c3 = <[k := s']> (slots c) /\
    ops c3 = ops c /\ active_ops c3 = active_ops c /\ fds c3 = fds c /\ files c3 = files c /\ error c3 = error c)
    as (T3 & R3 & S3 & O3 & A3 & X3 & F3 & E3).
  { assert (slots c2 = <[k := s']> (slots c)) as S2.
    { etransitivity; [apply (alter_at _ _ _ dummy_slot)|]. unfold s', io_len. by erewrite nth_lookup_Some by done. }
    unfold c3. destruct last.
    - split_and!; try done. etransitivity; [apply (alter_at _ _ _ dummy_task)|].
      rewrite T2, nth_insert_at, list_insert_insert_eq by done. done.
    - split_and!; try done. rewrite T2. f_equal. destruct t. cbn in Hrd. by rewrite Hrd. }
  clearbody c3. pose proof (submit_cases k c3 OpRead (src_fd t) (read_offset t) (io_len cfg chunk)) as Hsub.
  unfold io_len in Hsub at 1. destruct (submit c3 _ _ _ _ _) as [e c4].
  destruct Hsub as [(He' & Hask & ->)|(-> & ->)].
  - destruct (Z.eqb_spec e 0); [done|]. cbn [negb]. split.
    + intros Herr. exfalso. by eapply (set_error_nonzero (c3 <| now := S (now c3) |>) (- e)); [lia|].
    + intros F. by rewrite (friendly_errno cfg) in Hask.
  - cbn [Z.eqb negb]. set (c5 := set_field ops _ _). split; [|intros _; change (error c3 = 0); congruence].
    intros _. split_and!; try done.
    + etransitivity; [apply (alter_at _ _ _ dummy_task)|]. change (tasks (queue (add_active c5 1))) with (tasks (queue c3)).
      rewrite T3, nth_insert_at, list_insert_insert_eq by done. done.
    + eexists. split; [reflexivity|].
      change (ops c3 ++ [{| op_kind_of := OpRead; op_file := fds c3 !! src_fd t; op_slot := k; op_off := read_offset t;
        op_len := io_len cfg chunk |}] = ops c ++ [{| op_kind_of := OpRead; op_file := Some (j_src J i); op_slot := k;
        op_off := read_offset t; op_len := io_len cfg chunk |}]). by rewrite O3, X3, Hsf.
    + change (active_ops c3 + 1 = active_ops c + 1). lia.
Qed.

(** The read is in flight, in slot [k]. *)
Lemma submit_read_ok : let c' := submit_read cfg c i k in
  (error c' = 0 -> step_ok cfg J fds0 0 c c' /\ slots c' = <[k := s']> (slots c)) /\ (friendly cfg -> error c' = 0).
Proof using All.
  intros c'. destruct submit_read_spec as [Hspec Hfr]. fold c' in Hspec, Hfr. split; [|done]. intros Herr.
  destruct (Hspec Herr) as (T & S1 & R & (op & Hop & O) & A & X & F).
  destruct read_facts as (Esz & Hch & Ho & Hlast & Hsy & Hsf).
  assert (request J k s = None) as Hrs by (unfold request; by rewrite Hs).
  assert (change J c c' i k t t' s s') as C.
  { split; try done.
    - split; [by right|by left].
    - by rewrite Hrs, Hop, O, app_nil_r.
    - rewrite A, O, zlen_app, (g_active _ _ _ _ I). done.
    - rewrite R. destruct last eqn:El; [right|by left]. split; [done|]. split; [done|done].
    - congruence.
    - intros path _. by rewrite F.
    - by rewrite X.
    - intros fd path. rewrite X. by right. }
  split; [|done].
  assert (flight i k s = None /\ syncing i k s = None /\ flight i k s' = Some s' /\ syncing i k s' = None)
    as (F1 & Y1 & F2 & Y2).
  { unfold flight, syncing. rewrite Hs. cbn. by rewrite decide_True by done. }
  destruct (change_task _ _ _ _ _ _ _ _ _ _ _ I C) as (fl & sy & T0 & Hback & _ & P2 & Q1 & _).
  rewrite F1, Y1 in T0. rewrite F2, Y2 in *. rewrite Y1, Hsy in Q1. cbn in T0, Hback, P2, Q1.
  apply Permutation_nil in Q1 as ->.
  eapply change_step; [exact C| | |].
  - eapply inv_change; [done|done|exact C|done|]. apply Hback. rewrite X.
    assert (file_at c' (j_dst J i) = file_at c (j_dst J i)) as -> by (unfold file_at; by rewrite F).
    by apply read_task_ok.
  - intros _ _ _. left. intros E0. rewrite E0 in P2. by apply Permutation_nil_cons in P2.
  - intros _. assert (weight s = 0) by (unfold weight; by rewrite Hs). change (weight s') with 3. unfold left.
    change (file_size t') with (file_size t). change (read_offset t') with (read_offset t + chunk). lia.
Qed.
End Read.

(** ** The next read *)

Lemma before_reader c i j u : inv c ->
  (forall m v, (current (queue c) <= m < i)%nat -> tasks (queue c) !! m = Some v -> reads_done v || done v = true) ->
  (j < i)%nat -> tasks (queue c) !! j = Some u -> reads_done u = true.
Proof.
  intros I Hb Hj Hu. destruct (decide (j < current (queue c))%nat) as [H|H]; [by apply (g_current _ _ _ _ I j u)|].
  specialize (Hb j u ltac:(lia) Hu). apply orb_true_iff in Hb as [?|Hd]; [done|].
  by apply (k_done _ _ _ _ _ _ _ _ (g_tasks _ _ _ _ I j u Hu)).
Qed.

Section Next.
Context (c : copy_ctx_t) (i k : nat) (t : file_task_t) (s : buf_slot_t).
Hypothesis (I : inv c) (Hi : tasks (queue c) !! i = Some t) (Hk : slots c !! k = Some s) (Hs : state s = BUF_FREE)
  (Hf : src_fd t < 0) (Hd : done t = false)
  (Hbefore : forall m v, (m < i)%nat -> tasks (queue c) !! m = Some v -> reads_done v = true).

(** A file that cannot be opened is skipped. *)
Lemma skip_step c1 fd : ~ friendly cfg -> fd < 0 ->
  tasks (queue c1) = <[i := t <| src_fd := fd |>]> (tasks (queue c)) -> slots c1 = slots c -> ops c1 = ops c ->
  active_ops c1 = active_ops c -> error c1 = error c -> fds c1 = fds c ->
  (forall path, path <> j_dst J i -> files c1 !! path = files c !! path) ->
  let c2 := upd_task c1 i (fun t => t <| reads_done := true |> <| done := true |>) in
  let c3 := set_current (upd_queue c2 (fun q => q <| completed_files := completed_files q + 1 |>)) (S i) in
  step_ok cfg J fds0 0 c c3 /\ slots c3 = slots c /\ current (queue c3) = S i /\
  length (tasks (queue c3)) = length (tasks (queue c)) /\ error c3 = 0.
Proof using All.
  intros Hnf Hfd T S1 O A Er X F c2 c3. destruct (unopened c i t I Hi Hf Hd) as (T0 & F0 & Y0 & Ho & Hb & Hr).
  set (t' := t <| src_fd := fd |> <| reads_done := true |> <| done := true |>).
  assert (tasks (queue c3) = <[i := t']> (tasks (queue c))) as T3.
  { etransitivity; [apply (alter_at _ _ _ dummy_task)|].
    rewrite T, nth_insert_at, list_insert_insert_eq by (by eapply lookup_lt_Some). done. }
  assert (error c3 = 0) as He by (etransitivity; [exact Er|apply I]).
  assert (forall fd path, fds c3 !! fd = Some path -> owns J i t' fd path \/
    fds c !! fd = Some path /\ (owns J i t fd path -> owns J i t' fd path)) as Hx.
  { intros fd' path. change (fds c3) with (fds c1). rewrite X. intros H. right. split; [done|]. intros [? _]. lia. }
  assert (change J c c3 i k t t' s s) as C.
  { apply neutral_change; try done; [right; split_and!; try done; intros; eapply Hbefore; [|done]; lia|].
    intros ? ? _ _. change (fds c3) with (fds c1). by rewrite X. }
  split; [|split_and!; try done; by rewrite T3, length_insert].
  eapply change_step; [exact C| |done|done].
  apply (neutral_inv c c3 i k t t' s); try done.
  - right. split_and!; try done. intros. eapply Hbefore; [|done]. lia.
  - intros ? ? _ _. change (fds c3) with (fds c1). by rewrite X.
  - change (fds c3) with (fds c1). rewrite X.
    by eapply skipped_ok.
Qed.

(** Both files are open. *)
Lemma opened_step c2 fd1 fd2 :
  let t2 := t <| src_fd := fd1 |> <| dst_fd := fd2 |> <| reads_done := (file_size t =? 0) |> in
  0 <= fd1 -> 0 <= fd2 -> fds c !! fd1 = None -> fd1 <> fd2 -> fds c !! fd2 = None ->
  tasks (queue c2) = <[i := t2]> (tasks (queue c)) -> current (queue c2) = current (queue c) ->
  slots c2 = slots c -> ops c2 = ops c -> active_ops c2 = active_ops c -> error c2 = error c ->
  fds c2 = <[fd2 := j_dst J i]> (<[fd1 := j_src J i]> (fds c)) ->
  (forall path, path <> j_dst J i -> files c2 !! path = files c !! path) ->
  zlen (content (file_at c2 (j_dst J i))) <= file_size t ->
  change J c c2 i k t t2 s s /\ inv c2.
Proof using All.
  intros t2 H1 H2 Hn1 Hne Hn2 T R S1 O A Er X F Hz.
  destruct (unopened c i t I Hi Hf Hd) as (T0 & F0 & Y0 & Ho & Hb & Hr).
  destruct (opened_fds i t (fds c) fd1 fd2 (file_size t =? 0) Hn1 Hn2 H1 Hf) as [X1 X2]. rewrite <- X in X1, X2.
  split.
  - apply neutral_change; try done; [by left|by rewrite Hr|]. intros fd path _ _. apply X1.
  - apply (neutral_inv c c2 i k t t2 s); try done; [by left|by rewrite Hr|intros fd path _ _; apply X1| |].
    + rewrite Er. apply I.
    + rewrite X. by eapply opened_ok.
Qed.

(** An empty file is finished at once; its fsync would share the slot. *)
Lemma empty_step c2 t2 : no_fsync cfg = true -> change J c c2 i k t t2 s s -> inv c2 ->
  0 <= src_fd t2 -> reads_done t2 = true -> done t2 = false -> left t2 = left t ->
  flights c i = [] -> syncs c i = [] -> current (queue c2) = current (queue c) ->
  let c3 := finish_task cfg c2 i k in
  (error c3 = 0 -> step_ok cfg J fds0 0 c (set_current c3 (S i)) /\ slots c3 = slots c /\
    length (tasks (queue c3)) = length (tasks (queue c))) /\
  (friendly cfg -> error c3 = 0).
Proof using All.
  intros Hnf C I2 Ho Hrd Hnd Hleft F0 Y0 Hcur c3.
  assert (tasks (queue c2) = <[i := t2]> (tasks (queue c)) /\ slots c2 = slots c) as [T2 S2].
  { split; [apply C|]. rewrite (ch_slots _ _ _ _ _ _ _ _ _ C). by rewrite list_insert_id. }
  assert (tasks (queue c2) !! i = Some t2) as Hi2 by (rewrite T2; apply list_lookup_insert_eq; by eapply lookup_lt_Some).
  assert (flights c2 i = [] /\ syncs c2 i = []) as [F2 Y2] by (unfold flights, syncs; by rewrite S2).
  destruct (finish_ok cfg J HJ fds0 c2 i k t2 s I2 Hi2 ltac:(by rewrite S2) Hs Ho Hrd Hnd F2 Y2) as [Hfin Hfr].
  fold c3 in Hfin, Hfr. split; [|exact Hfr]. intros Herr.
  destruct (Hfin Herr) as (t3 & s3 & C3 & I3 & Hlive & Hr3 & Hl3 & _ & Hs3 & Hc3).
  rewrite (Hs3 Hnf) in *. clear Hs3.
  assert (tasks (queue c3) = <[i := t3]> (tasks (queue c)) /\ slots c3 = slots c) as [T3 S3].
  { rewrite (ch_tasks _ _ _ _ _ _ _ _ _ C3), T2, list_insert_insert_eq. split; [done|].
    rewrite (ch_slots _ _ _ _ _ _ _ _ _ C3), S2. by rewrite list_insert_id. }
  split; [|split; [done|by rewrite T3, length_insert]].
  split.
  - apply set_current_inv; [done|]. intros j u Hj. rewrite T3. destruct (decide (j = i)) as [->|Hne].
    + rewrite list_lookup_insert_eq by (by eapply lookup_lt_Some). congruence.
    + rewrite list_lookup_insert_ne by done. intros Hu. apply (Hbefore j u); [lia|done].
  - change (length (slots c3) = length (slots c)). by rewrite S3.
  - intros _ L j u Hu Hru Hdu. change (tasks (queue c3) !! j = Some u) in Hu.
    change (flights c3 j <> [] \/ syncs c3 j <> []). destruct (decide (j = i)) as [->|Hne].
    + right. apply Hlive. rewrite T3, list_lookup_insert_eq in Hu by (by eapply lookup_lt_Some). congruence.
    + destruct (change_others _ _ _ _ _ _ _ _ _ j C3 Hne) as (U1 & -> & ->).
      destruct (change_others _ _ _ _ _ _ _ _ _ j C Hne) as (U2 & -> & ->). apply (L j u); congruence.
  - intros _. change (work (set_current c3 (S i))) with (work c3).
    rewrite (change_work _ _ _ _ _ _ _ _ _ C3), (change_work _ _ _ _ _ _ _ _ _ C). lia.
Qed.
End Next.

(** Errors stay. *)
Lemma submit_read_sticky c i k : error c <> 0 -> error (submit_read cfg c i k) <> 0.
Proof.
  intros He. unfold submit_read. set (c1 := if file_size _ <=? _ then _ else _).
  assert (error c1 = error c) as E1 by (unfold c1; destruct (_ <=? _); done). clearbody c1.
  match goal with |- context [submit c1 ?a ?b ?d ?o ?l] =>
    pose proof (submit_error c1 d a b o l) as E2; destruct (submit c1 a b d o l) as [e c2] end.
  cbn in E2. destruct (negb _).
  - change (error (set_error c2 (- e)) <> 0). rewrite set_error_sticky by congruence. congruence.
  - change (error c2 <> 0). congruence.
Qed.

Lemma open_task_error c i : error (snd (open_task c i)) = error c.
Proof.
  unfold open_task, sys. cbn [now]. destruct (negb _); [done|].
  unfold open_fd at 1. cbn [now]. destruct (negb _); [done|]. unfold open_fd. cbn [snd].
  match goal with |- context [fchmod (if ?b then posix_fallocate ?a _ _ else _) _ _] => set (c1 := a) end.
  assert (error c1 = error c) as E1 by (unfold c1; by rewrite error_set_file). clearbody c1.
  set (c2 := if 0 <? _ then _ else c1).
  assert (error c2 = error c) as E2.
  { unfold c2. destruct (0 <? _); [|done]. unfold posix_fallocate, sys. cbn [now]. destruct (_ =? 0); [by rewrite error_set_file|done]. }
  unfold fchmod, sys. cbn [now]. destruct (_ =? 0); [by rewrite error_set_file|done].
Qed.

Lemma submit_next_read_sticky fuel c k : error c <> 0 -> error (submit_next_read cfg fuel c k) <> 0.
Proof.
  revert c. induction fuel as [|n IH]; intros c He; cbn [submit_next_read]; [done|].
  destruct (find_reader _ _ _) as [i|]; [|done].
  destruct (_ <? 0); [|by apply submit_read_sticky].
  pose proof (open_task_error c i) as E1. destruct (open_task c i) as [[] c1]; cbn in E1.
  - destruct (_ =? 0); [|apply submit_read_sticky; congruence]. apply IH.
    change (error (finish_task cfg (upd_task c1 i (fun t => t <| reads_done := true |>)) i k) <> 0).
    rewrite finish_sticky; change (error c1 <> 0); congruence.
  - apply IH. change (error c1 <> 0). congruence.
Qed.

Lemma step_ok_refl c : inv c -> step_ok cfg J fds0 0 c c.
Proof. intros I. split; [done..|]. intros _. lia. Qed.

(** What refilling slot [k] achieves: the slot is busy, or no task needs reads. *)
Definition refilled c c' (k : nat) : Prop :=
  step_ok cfg J fds0 0 c c' /\
  exists s', slots c' = <[k := s']> (slots c) /\ (no_reader c' \/ state s' <> BUF_FREE).

Lemma refilled_trans c c1 c' k : step_ok cfg J fds0 0 c c1 -> slots c1 = slots c -> refilled c1 c' k -> refilled c c' k.
Proof.
  intros S1 E1 [S2 (s' & Es & H)]. split; [|exists s'; by rewrite <- E1].
  replace 0 with (0 + 0) by lia. by eapply step_ok_trans.
Qed.

Lemma read_refills c i k t s : inv c -> tasks (queue c) !! i = Some t -> slots c !! k = Some s -> state s = BUF_FREE ->
  0 <= src_fd t -> reads_done t = false ->
  (forall j u, (current (queue c) <= j < i)%nat -> tasks (queue c) !! j = Some u -> reads_done u = true) ->
  let c' := submit_read cfg c i k in (error c' = 0 -> refilled c c' k) /\ (friendly cfg -> error c' = 0).
Proof.
  intros I Hi Hk Hs Ho Hr Hb c'. destruct (submit_read_ok c i k t s I Hi Hk Hs Ho Hr Hb) as [Hok Hfr]. fold c' in Hok, Hfr.
  split; [|done]. intros Herr. destruct (Hok Herr) as [H1 H2]. split; [done|]. eexists. split; [exact H2|]. by right.
Qed.

Lemma submit_next_read_ok fuel c k s : inv c -> slots c !! k = Some s -> state s = BUF_FREE ->
  (length (tasks (queue c)) < fuel + current (queue c))%nat ->
  let c' := submit_next_read cfg fuel c k in
  (error c' = 0 -> refilled c c' k) /\ (friendly cfg -> error c' = 0).
Proof.
  revert c. induction fuel as [|n IH]; intros c I Hk Hs Hfuel; cbn [submit_next_read].
  { split; [|intros _; apply I]. intros _. split; [by apply step_ok_refl|]. exists s. rewrite list_insert_id by done.
    split; [done|]. left. unfold no_reader. destruct (tasks (queue c)); [done|]. cbn [find_reader length].
    rewrite lookup_ge_None_2 by (cbn in *; lia). done. }
  destruct (find_reader _ _ _) as [i|] eqn:Efind.
  2:{ split; [|intros _; apply I]. intros _. split; [by apply step_ok_refl|]. exists s. rewrite list_insert_id by done.
      split; [done|]. by left. }
  destruct (find_reader_some _ _ _ _ Efind) as (Hle & (t & Hi & Hr & Hd) & Hb).
  pose proof (fun m v => before_reader c i m v I Hb) as Hbefore.
  assert (task_at c i = t) as Et by (by apply nth_lookup_Some). rewrite Et.
  destruct (Z.ltb_spec (src_fd t) 0) as [Hf|Hf].
  2:{ apply (read_refills c i k t s); try done. intros m v Hm. apply Hbefore. lia. }
  destruct (unopened c i t I Hi Hf Hd) as (T0 & F0 & Y0 & Ho & Hbw & _).
  destruct (k_static _ _ _ _ _ _ _ _ T0) as (Es & Ed & Esz). pose proof (k_range _ _ _ _ _ _ _ _ T0) as Hrange.
  pose proof (open_task_spec c i t Hi Es Ed ltac:(lia) Hf) as Hspec.
  destruct (open_task c i) as [[] c1]; destruct Hspec as (t' & T1 & R1 & S1 & O1 & A1 & E1 & Fi1 & Hspec).
  - destruct Hspec as (fd1 & fd2 & -> & P1 & P2 & N1 & Hne & N2 & X1 & Hz).
    pose proof (lookup_lt_Some _ _ _ Hi) as Hlt.
    assert (task_at c1 i = t <| src_fd := fd1 |> <| dst_fd := fd2 |>) as Et1 by (unfold task_at; rewrite T1; by apply nth_insert_at).
    rewrite Et1. change (file_size (t <| src_fd := fd1 |> <| dst_fd := fd2 |>)) with (file_size t).
    pose proof (fun c2 => opened_step c i k t s I Hi Hk Hs Hf Hd Hbefore c2 fd1 fd2 P1 P2 N1 Hne N2) as Hopened.
    destruct (Z.eqb_spec (file_size t) 0) as [Ez|Ez].
    + set (c2 := upd_task c1 i _).
      assert (tasks (queue c2) = <[i := t <| src_fd := fd1 |> <| dst_fd := fd2 |> <| reads_done := true |>]> (tasks (queue c))) as T2.
      { etransitivity; [apply (alter_at _ _ _ dummy_task)|]. rewrite T1, nth_insert_at, list_insert_insert_eq by done. done. }
      destruct (Hopened c2 T2 R1 S1 O1 A1 E1 X1 Fi1 Hz) as [C2 I2].
      assert (no_fsync cfg = true) as Hnf.
      { destruct (ok_empty _ _ HJ) as [?|H]; [done|]. specialize (H i (task_index _ _ _ _ _ _ I Hi)). lia. }
      destruct (empty_step c i k t s I Hi Hk Hs Hf Hd Hbefore c2 _ Hnf C2 I2 P1 eq_refl Hd eq_refl F0 Y0 R1) as [Hok Hfr].
      set (c3 := finish_task cfg c2 i k) in *.
      destruct (decide (error c3 = 0)) as [Herr|Herr].
      * destruct (Hok Herr) as (St & S3 & L3).
        destruct (IH (set_current c3 (S i)) (so_inv _ _ _ _ _ _ St)) as [IH1 IH2]; [change (slots c3 !! k = Some s); by rewrite S3|done| |].
        { change (length (tasks (queue c3)) < n + S i)%nat. rewrite L3. lia. }
        split; [|done]. intros H. eapply refilled_trans; [exact St|done|]. by apply IH1.
      * split; [|intros F; by specialize (Hfr F)]. intros H. exfalso. revert H. by apply submit_next_read_sticky.
    + assert (t <| src_fd := fd1 |> <| dst_fd := fd2 |> = t <| src_fd := fd1 |> <| dst_fd := fd2 |> <| reads_done := false |>) as Eq.
      { destruct t. cbn in Hr. by rewrite Hr. }
      rewrite Eq in T1. destruct (Hopened c1 T1 R1 S1 O1 A1 E1 X1 Fi1 Hz) as [C1 I1].
      assert (step_ok cfg J fds0 0 c c1) as St.
      { eapply change_step; [exact C1|done|done|]. intros _. change (left (t <| src_fd := fd1 |> <| dst_fd := fd2 |> <| reads_done := false |>)) with (left t). lia. }
      destruct (read_refills c1 i k (t <| src_fd := fd1 |> <| dst_fd := fd2 |> <| reads_done := false |>) s I1) as [Hok Hfr]; try done.
      * rewrite T1. by apply list_lookup_insert_eq.
      * by rewrite S1.
      * intros j u Hj. rewrite T1, list_lookup_insert_ne by lia. apply Hbefore. lia.
      * split; [|done]. intros H. eapply refilled_trans; [exact St|done|]. by apply Hok.
  - destruct Hspec as (Hnf & X1 & fd & Hfd & ->).
    destruct (skip_step c i k t s I Hi Hk Hs Hf Hd Hbefore c1 fd Hnf Hfd T1 S1 O1 A1 E1 X1 Fi1) as (St & S3 & C3 & L3 & Herr).
    set (c3 := set_current _ (S i)) in *.
    destruct (IH c3 (so_inv _ _ _ _ _ _ St)) as [IH1 IH2]; [by rewrite S3|done|lia|].
    split; [|done]. intros H. eapply refilled_trans; [exact St|done|]. by apply IH1.
Qed.

(** ** The loops *)

Lemma tick_step c n : inv c -> step_ok cfg J fds0 0 c (c <| now := n |>).
Proof.
  intros I. split; [destruct I; by split|done|done|]. intros _. change (work (c <| now := n |>)) with (work c). lia.
Qed.

Lemma step0_trans c c1 c2 : step_ok cfg J fds0 0 c c1 -> step_ok cfg J fds0 0 c1 c2 -> step_ok cfg J fds0 0 c c2.
Proof. intros. replace 0 with (0 + 0) by lia. by eapply step_ok_trans. Qed.

Lemma next_read_ok c k s : inv c -> slots c !! k = Some s -> state s = BUF_FREE ->
  (error (next_read cfg c k) = 0 -> refilled c (next_read cfg c k) k) /\
  (friendly cfg -> error (next_read cfg c k) = 0).
Proof. intros I Hk Hs. by apply (submit_next_read_ok _ c k s); [..|lia]. Qed.

Lemma next_read_sticky c k : error c <> 0 -> error (next_read cfg c k) <> 0.
Proof. apply submit_next_read_sticky. Qed.

Lemma next_read_none c k : no_reader c -> next_read cfg c k = c.
Proof. unfold no_reader, next_read. intros H. cbn [submit_next_read]. by rewrite H. Qed.

(** Either no task needs reads or the first [m] slots are busy. *)
Definition filled c (m : nat) : Prop :=
  no_reader c \/ forall j s, (j < m)%nat -> slots c !! j = Some s -> state s <> BUF_FREE.

Lemma refilled_filled c c' k : refilled c c' k -> (k < length (slots c))%nat -> filled c k -> filled c' (S k) \/ no_reader c.
Proof.
  intros [_ (s' & Es & [Hn|Hb])] Hk [Hf|Hf]; [by right|by left; left|by right|].
  left. right. intros j s Hj. rewrite Es. destruct (decide (j = k)) as [->|Hne].
  - rewrite list_lookup_insert_eq by done. by intros [= <-].
  - rewrite list_lookup_insert_ne by done. intros Hs. apply (Hf j s); [lia|done].
Qed.

Lemma refill_skips c k n : error c <> 0 -> refill cfg c k n = c.
Proof.
  revert k. induction n as [|n IH]; intros k He; cbn [refill]; [done|].
  destruct (decide _); [|by apply IH]. destruct (Z.eqb_spec (error c) 0); [done|]. by apply IH.
Qed.

Lemma refill_ok n : forall c k, inv c -> (k + n <= length (slots c))%nat ->
  let c' := refill cfg c k n in
  (error c' = 0 -> step_ok cfg J fds0 0 c c') /\
  (friendly cfg -> filled c k -> error c' = 0 /\ filled c' (k + n)).
Proof.
  induction n as [|n IH]; intros c k I Hn; cbn [refill].
  { rewrite Nat.add_0_r. split; [intros _; by apply step_ok_refl|]. intros _ Hf. split; [apply I|done]. }
  destruct (lookup_lt_is_Some_2 (slots c) k) as [s Hk]; [lia|].
  rewrite Nat.add_succ_r, <- Nat.add_succ_l.
  assert (slot_at c k = s) as Es by (by apply nth_lookup_Some). rewrite Es.
  destruct (decide (state s = BUF_FREE)) as [Hs|Hs].
  2:{ destruct (IH c (S k) I ltac:(lia)) as [IH1 IH2]. split; [done|]. intros F Hf. apply IH2; [done|].
      destruct Hf as [Hf|Hf]; [by left|right]. intros j u Hj Hu. destruct (decide (j = k)) as [->|]; [congruence|].
      apply (Hf j u); [lia|done]. }
  rewrite (g_error _ _ _ _ I). cbn [Z.eqb negb g_interrupted].
  set (c1 := c <| now := S (now c) |>). pose proof (tick_step c (S (now c)) I) as St1. fold c1 in St1.
  destruct (ask_interrupted (now c)) eqn:Eint.
  - destruct (IH c1 (S k) (so_inv _ _ _ _ _ _ St1) ltac:(change (length (slots c1)) with (length (slots c)); lia)) as [IH1 IH2].
    split; [intros H; eapply step0_trans; [exact St1|by apply IH1]|]. intros F. destruct F as (_ & F & _). congruence.
  - set (c2 := next_read cfg c1 k).
    destruct (next_read_ok c1 k s (so_inv _ _ _ _ _ _ St1) Hk Hs) as [Hok Hfr]. fold c2 in Hok, Hfr.
    destruct (decide (error c2 = 0)) as [Herr|Herr].
    + destruct (Hok Herr) as [St2 Hrest]. pose proof (so_depth _ _ _ _ _ _ St2) as El.
      change (length (slots c1)) with (length (slots c)) in El.
      destruct (IH c2 (S k) (so_inv _ _ _ _ _ _ St2) ltac:(lia)) as [IH1 IH2].
      split; [intros H; eapply step0_trans; [exact St1|]; eapply step0_trans; [exact St2|by apply IH1]|].
      intros F Hf. apply IH2; [done|].
      destruct (refilled_filled c1 c2 k (conj St2 Hrest)) as [?|Hnr]; [change (length (slots c1)) with (length (slots c)); lia|done|done|].
      left. unfold c2. by rewrite next_read_none.
    + rewrite refill_skips by done. split; [done|]. intros F. by specialize (Hfr F).
Qed.

(** The first batch finds every slot free. *)
Lemma first_batch_ok n : forall c k, inv c -> (k + n <= length (slots c))%nat ->
  (forall j s, (k <= j)%nat -> slots c !! j = Some s -> state s = BUF_FREE) ->
  let c' := first_batch cfg c k n in
  (error c' = 0 -> step_ok cfg J fds0 0 c c') /\
  (friendly cfg -> filled c k -> error c' = 0 /\ filled c' (k + n)).
Proof.
  induction n as [|n IH]; intros c k I Hn Hfree; cbn [first_batch].
  { rewrite Nat.add_0_r. split; [intros _; by apply step_ok_refl|]. intros _ Hf. split; [apply I|done]. }
  rewrite (g_error _ _ _ _ I). cbn [Z.eqb negb g_interrupted].
  set (c1 := c <| now := S (now c) |>). pose proof (tick_step c (S (now c)) I) as St1. fold c1 in St1.
  destruct (ask_interrupted (now c)) eqn:Eint.
  { split; [done|]. intros F. destruct F as (_ & F & _). congruence. }
  destruct (lookup_lt_is_Some_2 (slots c) k) as [s Hk]; [lia|]. set (c2 := next_read cfg c1 k).
  destruct (next_read_ok c1 k s (so_inv _ _ _ _ _ _ St1) Hk ltac:(by apply (Hfree k s))) as [Hok Hfr]. fold c2 in Hok, Hfr.
  destruct (decide (error c2 = 0)) as [Herr|Herr].
  - destruct (Hok Herr) as [St2 Hrest]. pose proof (so_depth _ _ _ _ _ _ St2) as El.
    change (length (slots c1)) with (length (slots c)) in El.
    destruct (IH c2 (S k) (so_inv _ _ _ _ _ _ St2) ltac:(lia)) as [IH1 IH2].
    { destruct Hrest as (s' & Esl & _). intros j u Hj. rewrite Esl, list_lookup_insert_ne by lia. apply Hfree. lia. }
    rewrite Nat.add_succ_r, <- Nat.add_succ_l.
    split; [intros H; eapply step0_trans; [exact St1|]; eapply step0_trans; [exact St2|by apply IH1]|].
    intros F Hf. apply IH2; [done|].
    destruct (refilled_filled c1 c2 k (conj St2 Hrest)) as [?|Hnr]; [change (length (slots c1)) with (length (slots c)); lia|done|done|].
    left. unfold c2. by rewrite next_read_none.
  - assert (first_batch cfg c2 (S k) n = c2) as ->.
    { destruct n; cbn [first_batch]; [done|]. by destruct (Z.eqb_spec (error c2) 0). }
    split; [done|]. intros F. by specialize (Hfr F).
Qed.

(** ** Waiting *)

Lemma execute_error c op a : error (snd (execute c op a)) = error c.
Proof. unfold execute. destruct a; [|done]. destruct (op_file op); [|done]. by destruct (op_kind_of op). Qed.

Lemma complete_op_sticky c j a c' : complete_op cfg c j a = Some c' -> error c <> 0 -> error c' <> 0.
Proof.
  unfold complete_op. destruct (ops c !! j) as [op|]; [|by intros [= <-]].
  set (c0 := c <| ops := delete j (ops c) |>). pose proof (execute_error c0 op a) as E1.
  destruct (execute c0 op a) as [r c1]. cbn [snd] in E1. change (error c0) with (error c) in E1. intros H He.
  assert (error c1 <> 0) as He1 by congruence. clear E1 He.
  assert (forall x, error (if r <? 0 then set_error c1 x else c1) = error c1) as Hr.
  { intros x. destruct (r <? 0); [by apply set_error_sticky|done]. }
  destruct (op_kind_of op).
  - unfold on_read_complete, with_task in H. destruct (task _) as [i|]; [|done].
    apply (inj Some) in H as <-. destruct (r <=? 0).
    + rewrite error_release. by rewrite Hr.
    + set (c2 := upd_slot _ _ _). assert (error c2 = error c1) as E2 by (unfold c2; by destruct (_ && _)). clearbody c2.
      match goal with |- context [submit c2 ?a ?b ?d ?o ?l] =>
        pose proof (submit_error c2 d a b o l) as E3; destruct (submit c2 a b d o l) as [e c3] end.
      cbn in E3. destruct (negb _); [rewrite error_release, set_error_sticky|]; congruence.
  - unfold on_write_complete, with_task in H. destruct (task _) as [i|]; [|done].
    apply (inj Some) in H as <-. set (c2 := if r <? 0 then _ else _).
    assert (error c2 = error c1) as E2.
    { unfold c2. destruct (r <? 0); [by apply set_error_sticky|]. destruct (negb _); [by apply set_error_sticky|done]. }
    destruct (_ && _); [rewrite finish_sticky|]; rewrite ?error_release; congruence.
  - unfold on_fsync_complete, with_task in H. destruct (task _) as [i|]; [|done].
    apply (inj Some) in H as <-. set (c2 := if r <? 0 then _ else _).
    assert (error c2 = error c1) as E2 by apply Hr. change (error c2 <> 0). congruence.
Qed.

Lemma complete_all_sticky l c c' : complete_all cfg c l = Some c' -> error c <> 0 -> error c' <> 0.
Proof.
  revert c. induction l as [|[j a] l IH]; intros c H He; cbn in H; [by injection H as <-|].
  destruct (complete_op cfg c j a) as [c1|] eqn:E1; [|done]. apply (IH c1 H). by eapply complete_op_sticky.
Qed.

Lemma complete_all_inv l : forall c c', inv c -> (friendly cfg -> Forall (fun p => full cfg (snd p)) l) ->
  complete_all cfg c l = Some c' -> error c' = 0 -> step_ok cfg J fds0 0 c c'.
Proof.
  induction l as [|[j a] l IH]; intros c c' I Hf H Herr; cbn in H; [injection H as <-; by apply step_ok_refl|].
  destruct (complete_op cfg c j a) as [c1|] eqn:E1; [|done].
  assert (error c1 = 0) as He1.
  { destruct (decide (error c1 = 0)) as [?|He]; [done|]. by destruct (complete_all_sticky _ _ _ H He). }
  assert (step_ok cfg J fds0 0 c c1) as St.
  { destruct (decide (j < length (ops c))%nat) as [Hj|Hj].
    - destruct (complete_op_ok cfg J HJ fds0 c j a I) as (c2 & E2 & Hok & _); [|done|].
      + intros F. specialize (Hf F). by apply Forall_cons in Hf as [? _].
      + assert (c1 = c2) as -> by congruence. destruct (Hok He1) as [P1 P2 P3 P4]. split; try done. intros F. specialize (P4 F). lia.
    - unfold complete_op in E1. rewrite lookup_ge_None_2 in E1 by lia. injection E1 as <-. by apply step_ok_refl. }
  eapply step0_trans; [exact St|]. apply (IH c1 c' (so_inv _ _ _ _ _ _ St)); try done.
  intros F. specialize (Hf F). by apply Forall_cons in Hf as [_ ?].
Qed.

Lemma complete_all_friendly l : forall c, friendly cfg -> inv c -> Forall (fun p => full cfg (snd p)) l ->
  exists c', complete_all cfg c l = Some c' /\ error c' = 0.
Proof.
  induction l as [|[j a] l IH]; intros c F I Hf; cbn; [exists c; split; [done|apply I]|].
  apply Forall_cons in Hf as [Ha Hf]. destruct (decide (j < length (ops c))%nat) as [Hj|Hj].
  - destruct (complete_op_ok cfg J HJ fds0 c j a I (fun _ => Ha) Hj) as (c1 & -> & Hok & Hfr). cbn.
    apply IH; try done. apply Hok. by apply Hfr.
  - unfold complete_op. rewrite lookup_ge_None_2 by lia. cbn. by apply IH.
Qed.

Lemma aura_wait_inv c r c' : inv c -> aura_wait cfg c = Some (r, c') -> error c' = 0 -> step_ok cfg J fds0 0 c c'.
Proof.
  intros I H Herr. unfold aura_wait in H. destruct (ask_wait (now c) (length (ops c))) as [l r0] eqn:Ew.
  destruct (complete_all cfg _ l) as [c1|] eqn:Ec; [|done]. cbn in H.
  assert (c1 = c') as -> by congruence.
  eapply step0_trans; [by apply (tick_step c (S (now c)))|].
  eapply complete_all_inv; [|..|exact Ec|done]; [by apply (tick_step c (S (now c)) I)|].
  intros (_ & _ & F). destruct (F _ _ _ _ Ew) as (_ & Hf & _). eapply Forall_impl; [exact Hf|].
  by intros p (limit & ? & ?); exists limit.
Qed.

(** A wait makes progress as soon as something is in flight. *)
Lemma aura_wait_friendly c : friendly cfg -> inv c -> ops c <> [] ->
  exists r c', aura_wait cfg c = Some (r, c') /\ 0 <= r /\ error c' = 0 /\ step_ok cfg J fds0 1 c c'.
Proof.
  intros F I Hops. unfold aura_wait. destruct (ask_wait (now c) (length (ops c))) as [l r] eqn:Ew.
  pose proof F as (_ & _ & Fw). destruct (Fw _ _ _ _ Ew) as (Hr & Hf & Hl).
  assert (Forall (fun p => full cfg (snd p)) l) as Hfl.
  { eapply Forall_impl; [exact Hf|]. by intros p (limit & ? & ?); exists limit. }
  destruct Hl as (j & a & l' & -> & Hj); [destruct (ops c); [done|cbn; lia]|].
  apply Forall_cons in Hfl as [Ha Hfl]. set (c1 := c <| now := S (now c) |>).
  pose proof (tick_step c (S (now c)) I) as St1. fold c1 in St1.
  destruct (complete_op_ok cfg J HJ fds0 c1 j a (so_inv _ _ _ _ _ _ St1) (fun _ => Ha) Hj) as (c2 & E2 & Hok & Hfr).
  pose proof (Hfr F) as He2. pose proof (Hok He2) as St2.
  destruct (complete_all_friendly l' c2 F (so_inv _ _ _ _ _ _ St2) Hfl) as (c3 & E3 & He3).
  exists r, c3. cbn. rewrite E2. cbn. rewrite E3. cbn. split; [done|]. split; [done|]. split; [done|].
  replace 1 with (0 + 1 + 0) by lia. eapply step_ok_trans; [by eapply step_ok_trans|].
  apply (complete_all_inv l' c2 c3); [apply St2|done|done|done].
Qed.

(** ** No deadlock *)

Lemma busy_not_done c k s i : inv c -> slots c !! k = Some s -> state s <> BUF_FREE -> task s = Some i ->
  exists t, tasks (queue c) !! i = Some t /\ done t = false.
Proof.
  intros I Hk Hs Ht. pose proof (Forall_lookup_1 _ _ _ _ (g_slots _ _ _ _ I) Hk) as [_ Hsl].
  destruct (Hsl Hs) as (i' & E1 & Hi). assert (i' = i) as -> by congruence.
  destruct (lookup_lt_is_Some_2 (tasks (queue c)) i) as [t Hti]; [by rewrite (g_count _ _ _ _ I)|].
  exists t. split; [done|]. destruct (done t) eqn:Hd; [|done]. exfalso.
  pose proof (g_tasks _ _ _ _ I i t Hti) as T.
  destruct (Z.le_gt_cases 0 (src_fd t)) as [Ho|Ho].
  { destruct (k_open _ _ _ _ _ _ _ _ T Ho) as (? & _). congruence. }
  destruct (k_closed _ _ _ _ _ _ _ _ T Ho) as (F & Y & _).
  assert (flights c i = [] -> syncs c i = [] -> False) as Hex; [|by apply Hex].
  intros F' Y'. destruct (state s) eqn:Es; [done|..].
  1,2: assert (s ∈ flights c i) as Hin by (apply elem_of_gather; exists k, s; split; [done|]; unfold flight; by rewrite Es, Ht, decide_True by done);
    rewrite F' in Hin; by apply elem_of_nil in Hin.
  assert (k ∈ syncs c i) as Hin by (apply elem_of_gather; exists k, s; split; [done|]; unfold syncing; by rewrite Es, Ht, decide_True by done).
  rewrite Y' in Hin. by apply elem_of_nil in Hin.
Qed.

Lemma all_free_no_ops c : inv c -> (forall k s, slots c !! k = Some s -> state s = BUF_FREE) -> ops c = [].
Proof.
  intros I H. apply Permutation_nil. rewrite (g_ops _ _ _ _ I). rewrite gather_nil; [done|].
  intros k x Hk. unfold request. by rewrite (H k x Hk).
Qed.

Lemma all_done_idle c : inv c -> all_tasks_done c = true -> ops c = [].
Proof.
  intros I Hd. apply all_free_no_ops; [done|]. intros k s Hk.
  destruct (decide (state s = BUF_FREE)) as [|Hs]; [done|]. exfalso.
  pose proof (Forall_lookup_1 _ _ _ _ (g_slots _ _ _ _ I) Hk) as [_ Hsl]. destruct (Hsl Hs) as (i & Hi & _).
  destruct (busy_not_done c k s i I Hk Hs Hi) as (t & Ht & Hnd).
  unfold all_tasks_done in Hd. rewrite forallb_forall in Hd.
  rewrite (Hd t) in Hnd; [done|]. apply list_elem_of_In. by eapply list_elem_of_lookup_2.
Qed.

(** As long as a file is not done, a request is in flight. *)
Lemma no_stall c : inv c -> live c -> filled c (length (slots c)) -> (0 < length (slots c))%nat ->
  all_tasks_done c = false -> ops c <> [].
Proof.
  intros I L Hf Hpos Hnd Hops.
  assert (forall k s, slots c !! k = Some s -> state s = BUF_FREE) as Hfree.
  { intros k s Hk. destruct (decide (state s = BUF_FREE)) as [|Hs]; [done|]. exfalso.
    assert (exists op, request J k s = Some op) as [op Hop] by (unfold request; destruct (state s); [done|eauto..]).
    assert (op ∈ ops c) as Hin by (rewrite (g_ops _ _ _ _ I); apply elem_of_gather; eauto).
    rewrite Hops in Hin. by apply elem_of_nil in Hin. }
  destruct Hf as [Hn|Hb].
  2:{ destruct (lookup_lt_is_Some_2 _ _ Hpos) as [s Hs]. by apply (Hb 0%nat s); [|done|apply (Hfree 0%nat)]. }
  assert (exists i t, tasks (queue c) !! i = Some t /\ done t = false) as (i & t & Hi & Hd).
  { unfold all_tasks_done in Hnd. clear -Hnd. induction (tasks (queue c)) as [|t l IH]; [done|]. cbn in Hnd.
    destruct (done t) eqn:Ed; [|exists 0%nat, t; done]. destruct (IH Hnd) as (i & u & ? & ?). by exists (S i), u. }
  assert (reads_done t = true) as Hr.
  { destruct (decide (i < current (queue c))%nat) as [H|H]; [by apply (g_current _ _ _ _ I i t)|].
    pose proof (find_reader_none _ _ _ (Nat.le_add_r _ _) Hn i t ltac:(lia) Hi) as Ho. rewrite Hd, orb_false_r in Ho. done. }
  destruct (L i t Hi Hr Hd) as [H|H]; apply H; apply gather_nil; intros k s Hk; [unfold flight|unfold syncing];
    by rewrite (Hfree k s Hk).
Qed.

(** ** The main loop *)

Lemma aura_wait_sticky c r c' : aura_wait cfg c = Some (r, c') -> error c <> 0 -> error c' <> 0.
Proof.
  unfold aura_wait. destruct (ask_wait _ _) as [l r2]. destruct (complete_all cfg _ l) as [c3|] eqn:Ec; [|done].
  cbn. intros H He. assert (c3 = c') as -> by congruence.
  by apply (complete_all_sticky l (c <| now := S (now c) |>) c').
Qed.

Lemma drain_error fuel c e c' : drain cfg fuel c = Returned e c' -> e = error c' /\ (error c <> 0 -> error c' <> 0).
Proof.
  revert c. induction fuel as [|n IH]; intros c H; cbn [drain] in H; destruct (_ <=? 0); try done.
  1,2: by injection H as <- <-.
  destruct (aura_wait cfg c) as [[r c1]|] eqn:Ew; [|done]. destruct (IH c1 H) as [H1 H2]. split; [done|].
  intros He. apply H2. by eapply aura_wait_sticky.
Qed.

Lemma drain_inv fuel c e c' : inv c -> drain cfg fuel c = Returned e c' -> error c' = 0 -> inv c'.
Proof.
  revert c. induction fuel as [|n IH]; intros c I H Herr; cbn [drain] in H; destruct (_ <=? 0); try done.
  1,2: by injection H as <- <-.
  destruct (aura_wait cfg c) as [[r c1]|] eqn:Ew; [|done].
  apply (IH c1); [|done|done]. eapply aura_wait_inv; [done|exact Ew|].
  destruct (decide (error c1 = 0)) as [|He]; [done|]. by destruct (proj2 (drain_error _ _ _ _ H) He).
Qed.

Lemma main_loop_error fuel c e c' : main_loop cfg fuel c = Returned e c' ->
  e = error c' /\ (error c <> 0 -> error c' <> 0).
Proof.
  revert c. induction fuel as [|n IH]; intros c H; cbn [main_loop g_interrupted] in H.
  - destruct (_ || _); [by apply drain_error in H|]. by destruct (ask_interrupted _); [apply drain_error in H|].
  - destruct (_ || negb _) eqn:Eb; [by apply drain_error in H|].
    apply orb_false_iff in Eb as [_ Eb]. apply negb_false_iff, Z.eqb_eq in Eb.
    destruct (ask_interrupted _); [apply drain_error in H as [H _]; by split|].
    destruct (aura_wait cfg _) as [[r c1]|]; [|done].
    destruct (wait_failed r); [apply drain_error in H as [H _]|apply IH in H as [H _]]; by split.
Qed.

Lemma main_loop_inv fuel c e c' : inv c -> length (slots c) = pipeline_depth cfg ->
  main_loop cfg fuel c = Returned e c' -> error c' = 0 -> inv c'.
Proof.
  revert c. induction fuel as [|n IH]; intros c I Hdep H Herr; cbn [main_loop g_interrupted] in H.
  - destruct (_ || _); [by eapply drain_inv|]. destruct (ask_interrupted _); [|done].
    eapply drain_inv; [|done..]. by apply tick_step.
  - destruct (_ || _); [by eapply drain_inv|]. set (c1 := c <| now := S (now c) |>) in *.
    pose proof (tick_step c (S (now c)) I) as St1. fold c1 in St1.
    destruct (ask_interrupted _); [eapply drain_inv; [apply St1|done|done]|].
    destruct (aura_wait cfg c1) as [[r c2]|] eqn:Ew; [|done].
    assert (error c2 = 0 -> step_ok cfg J fds0 0 c1 c2) as St2 by (eapply aura_wait_inv; [apply St1|done]).
    destruct (wait_failed r) eqn:Ef.
    + exfalso. apply (proj2 (drain_error _ _ _ _ H)); [|done]. unfold set_error.
      destruct (Z.eqb_spec (error c2) 0); [|done]. cbn. intros ->. done.
    + destruct (decide (error c2 = 0)) as [He2|He2].
      2:{ exfalso. apply (proj2 (main_loop_error _ _ _ _ H)); [|done]. by rewrite refill_skips. }
      specialize (St2 He2). pose proof (so_depth _ _ _ _ _ _ St2) as D2.
      change (length (slots c1)) with (length (slots c)) in D2.
      destruct (refill_ok (pipeline_depth cfg) c2 0 (so_inv _ _ _ _ _ _ St2) ltac:(lia)) as [Hr _].
      set (c3 := refill cfg c2 0 (pipeline_depth cfg)) in *.
      destruct (decide (error c3 = 0)) as [He3|He3]; [|by destruct (proj2 (main_loop_error _ _ _ _ H) He3)].
      specialize (Hr He3). apply (IH c3); [apply Hr| |done|done]. rewrite (so_depth _ _ _ _ _ _ Hr). lia.
Qed.

(** With [work c] more iterations than [c] needs, the copy ends. *)
Lemma main_loop_ends fuel c : friendly cfg -> inv c -> live c -> filled c (length (slots c)) ->
  length (slots c) = pipeline_depth cfg -> (0 < pipeline_depth cfg)%nat -> work c < Z.of_nat fuel ->
  exists c', main_loop cfg fuel c = Returned 0 c' /\ inv c' /\ all_tasks_done c' = true /\ ops c' = [].
Proof.
  intros F. revert c. induction fuel as [|n IH]; intros c I L Hf Hdep Hpos Hw.
  { exfalso. enough (0 <= work c) by lia. unfold work.
    assert (0 <= zsum (left <$> tasks (queue c))).
    { apply zsum_nonneg, Forall_forall. intros x Hx. apply list_elem_of_fmap in Hx as (t & -> & Ht).
      apply list_elem_of_lookup in Ht as [i Hi]. pose proof (g_tasks _ _ _ _ I i t Hi) as T.
      pose proof (k_range _ _ _ _ _ _ _ _ T). destruct (k_static _ _ _ _ _ _ _ _ T) as (_ & _ & Es).
      unfold left. lia. }
    assert (0 <= zsum (weight <$> slots c)).
    { apply zsum_nonneg, Forall_forall. intros x Hx. apply list_elem_of_fmap in Hx as (s & -> & _).
      unfold weight. destruct (state s); lia. }
    lia. }
  cbn [main_loop]. rewrite (g_error _ _ _ _ I). cbn [Z.eqb negb]. rewrite orb_false_r.
  destruct (all_tasks_done c) eqn:Ed.
  - pose proof (all_done_idle c I Ed) as Hops. exists c. split; [|done].
    assert (active_ops c = 0) as Ha by (by rewrite (g_active _ _ _ _ I), Hops).
    cbn [drain]. by rewrite Ha, (g_error _ _ _ _ I).
  - cbn [g_interrupted]. pose proof F as (_ & Fi & _). rewrite Fi.
    set (c1 := c <| now := S (now c) |>). pose proof (tick_step c (S (now c)) I) as St1. fold c1 in St1.
    assert (ops c1 <> []) as Hops by (apply (no_stall c); try done; lia).
    destruct (aura_wait_friendly c1 F (so_inv _ _ _ _ _ _ St1) Hops) as (r & c2 & -> & Hr & He2 & St2).
    assert (wait_failed r = false) as -> by (unfold wait_failed; by destruct (Z.ltb_spec r 0); [lia|]).
    pose proof (so_depth _ _ _ _ _ _ St2) as D2. change (length (slots c1)) with (length (slots c)) in D2.
    destruct (refill_ok (pipeline_depth cfg) c2 0 (so_inv _ _ _ _ _ _ St2) ltac:(lia)) as [Hr1 Hr2].
    destruct (Hr2 F) as [He3 Hf3]; [right; lia|]. specialize (Hr1 He3). set (c3 := refill _ _ _ _) in *.
    pose proof (so_depth _ _ _ _ _ _ Hr1) as D3.
    apply IH; [apply Hr1| | |lia|done|].
    + apply Hr1; [done|]. by apply St2.
    + replace (length (slots c3)) with (0 + pipeline_depth cfg)%nat by lia. done.
    + pose proof (so_work _ _ _ _ _ _ Hr1 F). pose proof (so_work _ _ _ _ _ _ St2 F).
      change (work c1) with (work c) in *. lia.
Qed.

End Run.
