(* ===== verification/CopyTheorems.v ===== *)
(** * What a copy guarantees

    The state [main] hands to [copy_pipeline], and the theorems about its
    outcome, for any behaviour of the kernel ([copied_bytes_are_exact]) and for
    one that never fails ([copy_completes]); then three runs in which auracp goes
    wrong: a short read, a source that shrank, an empty file with fsync. *)
From Stdlib Require Import ZArith Lia List String.
From stdpp Require Import base tactics strings list gmap.
From S2P Require Import Prelude Client Copy CopySpec CopySteps CopyRun.

#[local] Open Scope Z_scope.

#[local] Arguments gather : simpl never.
#[local] Arguments zlen : simpl never.

(** ** The initial state *)

(** No task is started and every slot is free; the paths are all different, the
    sources have the sizes [stat] reported, and the sizes of the configuration
    are those [parse_args] accepts. *)
Record fresh_task (t : file_task_t) : Prop := {
  ft_closed : src_fd t < 0 /\ dst_fd t < 0;
  ft_counts : read_offset t = 0 /\ bytes_written t = 0 /\ t_active_ops t = 0;
  ft_flags : reads_done t = false /\ done t = false
}.

Record ready (cfg : config_t) (c : copy_ctx_t) : Prop := {
  rd_paths : NoDup ((src_path <$> tasks (queue c)) ++ (dst_path <$> tasks (queue c)));
  rd_tasks : Forall fresh_task (tasks (queue c));
  rd_sizes : Forall (fun t => zlen (content (file_at c (src_path t))) = file_size t) (tasks (queue c));
  rd_slots : Forall (fun s => state s = BUF_FREE /\ zlen (buf s) = chunk_size cfg) (slots c);
  rd_depth : length (slots c) = pipeline_depth cfg;
  rd_idle : ops c = [] /\ active_ops c = 0 /\ error c = 0 /\ current (queue c) = 0%nat;
  rd_chunk : 0 < chunk_size cfg < 2 ^ 62;
  rd_sector : use_direct cfg = true -> (512 | chunk_size cfg);
  rd_empty : no_fsync cfg = true \/ Forall (fun t => 0 < file_size t) (tasks (queue c))
}.

Definition job_of (c : copy_ctx_t) : job_t :=
  {| j_count := length (tasks (queue c));
     j_src := fun i => src_path (task_at c i); j_dst := fun i => dst_path (task_at c i);
     j_size := fun i => file_size (task_at c i);
     j_data := fun i => content (file_at c (src_path (task_at c i))) |}.

Section Initial.
Context {E : ClientEnv} (cfg : config_t) (c : copy_ctx_t) (R : ready cfg c).

Lemma task_lookup i : (i < length (tasks (queue c)))%nat -> tasks (queue c) !! i = Some (task_at c i).
Proof. intros H. destruct (lookup_lt_is_Some_2 _ _ H) as [t Ht]. by rewrite Ht, (task_at_lookup c i t). Qed.

Lemma path_lookup i : (i < length (tasks (queue c)))%nat ->
  ((src_path <$> tasks (queue c)) ++ (dst_path <$> tasks (queue c))) !! i = Some (src_path (task_at c i)) /\
  ((src_path <$> tasks (queue c)) ++ (dst_path <$> tasks (queue c))) !! (length (tasks (queue c)) + i)%nat =
    Some (dst_path (task_at c i)).
Proof.
  intros H. pose proof (task_lookup i H) as Ht. split.
  - rewrite lookup_app_l by (by rewrite length_fmap). by rewrite list_lookup_fmap, Ht.
  - rewrite lookup_app_r by (rewrite length_fmap; lia). rewrite length_fmap, Nat.add_comm, Nat.add_sub.
    by rewrite list_lookup_fmap, Ht.
Qed.

Lemma ready_job : job_ok cfg (job_of c).
Proof using R.
  pose proof (rd_paths _ _ R) as Hnd.
  assert (forall i j p, ((src_path <$> tasks (queue c)) ++ (dst_path <$> tasks (queue c))) !! i = Some p ->
    ((src_path <$> tasks (queue c)) ++ (dst_path <$> tasks (queue c))) !! j = Some p -> i = j) as Hinj
    by (intros; by eapply NoDup_lookup).
  split; cbn; try apply R.
  - intros i j Hi Hj Hne Eq. apply Hne. apply (Hinj i j (src_path (task_at c i))); [by apply path_lookup|].
    rewrite Eq. by apply path_lookup.
  - intros i j Hi Hj Hne Eq. enough (length (tasks (queue c)) + i = length (tasks (queue c)) + j)%nat by lia.
    apply (Hinj _ _ (dst_path (task_at c i))); [by apply path_lookup|]. rewrite Eq. by apply path_lookup.
  - intros i j Hi Hj Eq. enough (i = length (tasks (queue c)) + j)%nat by lia.
    apply (Hinj _ _ (src_path (task_at c i))); [by apply path_lookup|]. rewrite Eq. by apply path_lookup.
  - intros i Hi. pose proof (Forall_lookup_1 _ _ _ _ (rd_sizes _ _ R) (task_lookup i Hi)). done.
  - destruct (rd_empty _ _ R) as [?|H]; [by left|right]. intros i Hi.
    exact (Forall_lookup_1 _ _ _ _ H (task_lookup i Hi)).
Qed.

Lemma ready_free k s : slots c !! k = Some s -> state s = BUF_FREE.
Proof using R. intros Hk. by destruct (Forall_lookup_1 _ _ _ _ (rd_slots _ _ R) Hk). Qed.

Lemma ready_inv : copy_inv cfg (job_of c) (fds c) c.
Proof using R.
  destruct (rd_idle _ _ R) as (Ho & Ha & He & Hc).
  assert (forall i, flights c i = []) as HF.
  { intros i. apply gather_nil. intros k s Hk. unfold flight. by rewrite (ready_free k s Hk). }
  assert (forall i, syncs c i = []) as HY.
  { intros i. apply gather_nil. intros k s Hk. unfold syncing. by rewrite (ready_free k s Hk). }
  split; try done.
  - intros i t Hi. unfold task_inv. rewrite HF, HY.
    destruct (Forall_lookup_1 _ _ _ _ (rd_tasks _ _ R) Hi) as [[F1 F2] (F3 & F4 & F5) [F6 F7]].
    pose proof (Forall_lookup_1 _ _ _ _ (rd_sizes _ _ R) Hi) as Hsz. cbn in Hsz.
    pose proof (task_at_lookup c i t Hi) as Et.
    pose proof (zlen_nonneg (content (file_at c (src_path t)))) as H0.
    split; cbn; rewrite ?Et; try done; try lia.
    + congruence.
    + intros _. split; [done|]. split; [done|]. by right.
    + intros [?|?]; [congruence|done].
    + intros _. split; [lia|congruence].
  - apply Forall_forall. intros s Hs. destruct (proj1 (Forall_forall _ _) (rd_slots _ _ R) s Hs) as [H1 H2].
    by split.
  - rewrite Ho, gather_nil; [done|]. intros k s Hk. unfold request. by rewrite (ready_free k s Hk).
  - by rewrite Ho, Ha.
  - intros i t Hi. lia.
  - intros fd path H. by left.
Qed.

Lemma ready_live : live c.
Proof using R.
  intros i t Hi Hr. destruct (Forall_lookup_1 _ _ _ _ (rd_tasks _ _ R) Hi) as [_ _ [F6 _]]. congruence.
Qed.

Lemma ready_work : work c = 3 * zsum (file_size <$> tasks (queue c)).
Proof using R.
  unfold work. assert (weight <$> slots c = replicate (length (slots c)) 0) as ->.
  { pose proof ready_free as Hf. clear R. induction (slots c) as [|s l IH]; [done|]. cbn.
    rewrite <- IH by (intros k; apply (Hf (S k))). unfold weight at 1. by rewrite (Hf 0%nat s). }
  rewrite zsum_replicate_0.
  assert (left <$> tasks (queue c) = file_size <$> tasks (queue c)) as ->; [|lia].
  pose proof (rd_tasks _ _ R) as Ht. clear R. induction Ht as [|t l [_ (F3 & _) _] _ IH]; [done|]. cbn. rewrite IH.
  f_equal. unfold left. lia.
Qed.

Lemma first_batch_ready : let c1 := first_batch cfg c 0 (pipeline_depth cfg) in
  (error c1 = 0 -> step_ok cfg (job_of c) (fds c) 0 c c1) /\
  (friendly cfg -> error c1 = 0 /\ filled c1 (pipeline_depth cfg)).
Proof using R.
  destruct (first_batch_ok cfg (job_of c) ready_job (fds c) (pipeline_depth cfg) c 0 ready_inv) as [H1 H2].
  - rewrite (rd_depth _ _ R). lia.
  - intros j s _ Hs. by eapply ready_free.
  - split; [done|]. intros F. apply H2; [done|]. right. intros j s Hj. lia.
Qed.

Lemma pipeline_inv fuel c' : copy_pipeline cfg fuel c = Returned 0 c' -> copy_inv cfg (job_of c) (fds c) c'.
Proof using R.
  unfold copy_pipeline. set (c1 := first_batch _ _ _ _). intros H.
  destruct (main_loop_error _ _ _ _ _ H) as [He Hs].
  destruct first_batch_ready as [Hb _]. fold c1 in Hb.
  destruct (decide (error c1 = 0)) as [H1|H1]; [|by destruct (Hs H1)].
  specialize (Hb H1). eapply main_loop_inv; [apply ready_job|apply Hb| |exact H|done].
  rewrite (so_depth _ _ _ _ _ _ Hb). apply R.
Qed.
End Initial.

Lemma static_task {E : ClientEnv} cfg c c' i t : copy_inv cfg (job_of c) (fds c) c' ->
  tasks (queue c') !! i = Some t ->
  (i < length (tasks (queue c)))%nat /\ src_path t = src_path (task_at c i) /\ dst_path t = dst_path (task_at c i) /\
  file_size t = file_size (task_at c i).
Proof.
  intros I Hi. pose proof (task_index _ _ _ _ _ _ I Hi) as Hn. split; [exact Hn|].
  exact (k_static _ _ _ _ _ _ _ _ (g_tasks _ _ _ _ I i t Hi)).
Qed.

(** ** The theorems *)

(** C14. Whatever the kernel does (short transfers, errors, refused submissions,
    an interrupt, completions in any order), when copy_pipeline returns 0 every
    source is unchanged, and a file that is not empty, is done and whose written
    bytes add up to its size has been copied exactly. The program does not make
    that comparison itself: [short_read_loses_data]. The pipeline starts with
    idle slots and tasks, a positive chunk size (a multiple of 512 with O_DIRECT),
    all paths, sources and destinations, different, the sources of the sizes stat
    reported, and no empty file unless fsync is off ([ready];
    [empty_file_shares_slot] is what happens otherwise). *)
Theorem copied_bytes_are_exact {E : ClientEnv} (cfg : config_t) (c c' : copy_ctx_t) (fuel : nat)
    (R : ready cfg c) (H : copy_pipeline cfg fuel c = Returned 0 c') :
  Forall (fun t =>
    content (file_at c' (src_path t)) = content (file_at c (src_path t)) /\
    (done t = true -> bytes_written t = file_size t -> 0 < file_size t ->
     content (file_at c' (dst_path t)) = content (file_at c (src_path t)))) (tasks (queue c')).
Proof.
  pose proof (pipeline_inv cfg c R fuel c' H) as I. apply Forall_lookup. intros i t Hi.
  destruct (static_task cfg c c' i t I Hi) as (Hn & Es & Ed & Esz). split.
  - rewrite Es. exact (g_sources _ _ _ _ I i Hn).
  - rewrite Es, Ed, Esz. intros Hd Hw Hp. apply (k_finished _ _ _ _ _ _ _ _ (g_tasks _ _ _ _ I i t Hi)); auto.
Qed.

(** C15. When nothing fails (no call is refused, nothing interrupts, transfers are
    full, each wait completes a request if there is one) and there is at least one
    slot, copy_pipeline returns 0 within three iterations per byte of the sources
    (each iteration completes a read, a write or an fsync): every task is done,
    every destination holds what its source holds, nothing is in flight and no
    descriptor is left open. Completions may come in any order and any number per
    wait. It starts with idle slots and tasks, a positive chunk size (a multiple of
    512 with O_DIRECT), all paths, sources and destinations, different, the sources
    of the sizes stat reported, and no empty file unless fsync is off ([ready];
    [empty_file_shares_slot] is a run without failures with an empty file and fsync
    on, in which a callback finds its task gone). *)
Theorem copy_completes {E : ClientEnv} (cfg : config_t) (c : copy_ctx_t) (fuel : nat)
    (R : ready cfg c) (F : friendly cfg) (Hdepth : (0 < pipeline_depth cfg)%nat)
    (Hfuel : 3 * zsum (file_size <$> tasks (queue c)) < Z.of_nat fuel) :
  exists c', copy_pipeline cfg fuel c = Returned 0 c' /\
    Forall (fun t => done t = true /\ bytes_written t = file_size t /\
      content (file_at c' (dst_path t)) = content (file_at c (src_path t))) (tasks (queue c')) /\
    ops c' = [] /\ active_ops c' = 0 /\ fds c' ⊆ fds c.
Proof.
  destruct (first_batch_ready cfg c R) as [Hb Hf]. destruct (Hf F) as [He Hfill]. specialize (Hb He).
  unfold copy_pipeline. set (c1 := first_batch _ _ _ _) in *.
  pose proof (so_depth _ _ _ _ _ _ Hb) as Hd. rewrite (rd_depth _ _ R) in Hd.
  destruct (main_loop_ends cfg _ (ready_job cfg c R) (fds c) fuel c1) as (c' & -> & I & Hall & Hops); try done.
  { apply Hb. } { apply Hb; [done|by apply (ready_live cfg)]. } { by rewrite Hd. }
  { pose proof (so_work _ _ _ _ _ _ Hb F). rewrite (ready_work cfg c R) in *. lia. }
  exists c'. split; [done|].
  assert (forall i t, tasks (queue c') !! i = Some t -> done t = true) as Hdone.
  { intros i t Hi. unfold all_tasks_done in Hall. rewrite forallb_forall in Hall. apply Hall.
    apply list_elem_of_In. by eapply list_elem_of_lookup_2. }
  assert (forall i t, tasks (queue c') !! i = Some t -> src_fd t < 0) as Hclosed.
  { intros i t Hi. destruct (Z.le_gt_cases 0 (src_fd t)) as [Ho|]; [|done].
    destruct (k_open _ _ _ _ _ _ _ _ (g_tasks _ _ _ _ I i t Hi) Ho) as (Hnd & _). rewrite (Hdone i t Hi) in Hnd. done. }
  split; [|split; [done|split]].
  - apply Forall_lookup. intros i t Hi. pose proof (Hdone i t Hi) as Hdn.
    destruct (static_task cfg c c' i t I Hi) as (Hn & Es & Ed & Esz).
    pose proof (g_tasks _ _ _ _ I i t Hi) as T.
    destruct (k_closed _ _ _ _ _ _ _ _ T (Hclosed i t Hi)) as (F0 & Y0 & _).
    destruct (k_exact _ _ _ _ _ _ _ _ T F) as [Hx1 Hx2]. rewrite F0 in Hx1. cbn in Hx1.
    assert (bytes_written t = j_size (job_of c) i) as Hw by (rewrite <- (Hx2 Hdn); lia).
    split; [done|]. split; [by rewrite Hw, Esz|]. rewrite Es, Ed.
    apply (k_finished _ _ _ _ _ _ _ _ T); auto.
  - by rewrite (g_active _ _ _ _ I), Hops.
  - apply map_subseteq_spec. intros fd path Hfd. destruct (g_fds _ _ _ _ I fd path Hfd) as [?|(i & t & Hi & Ho & _)]; [done|].
    specialize (Hclosed i t Hi). lia.
Qed.

(** ** Concrete copies *)

(** The last request completes first, in full. *)
#[local] Instance calm : ClientEnv := {|
  ask_errno := fun _ => 0; ask_interrupted := fun _ => false;
  ask_wait := fun _ m => ([((m - 1)%nat, Transfer 100)], 1)
|}.

(** The first read transfers two bytes only. *)
Definition hasty : ClientEnv := {|
  ask_errno := fun _ => 0; ask_interrupted := fun _ => false;
  ask_wait := fun n _ => ([(0%nat, Transfer (if (n <? 14)%nat then 2 else 100))], 1)
|}.

Definition demo_cfg (fsync : bool) : config_t :=
  {| chunk_size := 4; pipeline_depth := 2; recursive := false; use_direct := false; no_fsync := negb fsync;
     preserve := false; keep_partial := false |}.

Definition demo_task (src dst : string) (size : Z) : file_task_t :=
  dummy_task <| src_path := src |> <| dst_path := dst |> <| file_size := size |> <| mode := 420 |>.

Definition demo_file (l : list Z) : file_t := {| content := l; st_mode := 420; st_times := (0, 0) |}.

Definition demo_copy (sizes : list (string * string * Z)) (fs : list (string * list Z)) : copy_ctx_t :=
  {| queue := {| tasks := (fun p => demo_task p.1.1 p.1.2 p.2) <$> sizes; current := 0;
                 total_files := zlen sizes; completed_files := 0; total_bytes := zsum (snd <$> sizes); total_written := 0 |};
     slots := replicate 2 (dummy_slot <| buf := [0; 0; 0; 0] |>); active_ops := 0; error := 0; ops := [];
     fds := {[ 0 := "stdin"; 1 := "stdout"; 2 := "stderr" ]}%string;
     files := list_to_map ((fun p => (p.1, demo_file p.2)) <$> fs); now := 0 |}.

Definition two_files : copy_ctx_t :=
  demo_copy [("a", "x", 6); ("b", "y", 3)]%string [("a", [1; 2; 3; 4; 5; 6]); ("b", [7; 8; 9]); ("x", [0])]%string.

Definition result_of (o : outcome) (path : string) : option (Z * list Z) :=
  match o with Returned e c => Some (e, content (file_at c path)) | _ => None end.

Lemma calm_friendly : friendly (demo_cfg true).
Proof.
  split; [done|]. split; [done|]. intros n m l r H. injection H as <- <-. split; [lia|]. split.
  - repeat constructor. exists 100. by split.
  - intros Hm. exists (m - 1)%nat, (Transfer 100), []. split; [done|lia].
Qed.

Lemma two_files_ready : ready (demo_cfg true) two_files.
Proof.
  split; try done.
  - apply (bool_decide_unpack _). by vm_compute.
  - repeat constructor.
  - repeat constructor.
  - repeat constructor.
  - right. repeat constructor.
Qed.

Definition final_of (o : outcome) : copy_ctx_t :=
  match o with Returned _ c => c | Running c => c | NullTask => two_files end.

Lemma copied_bytes_are_exact_witness :
  let c' := final_of (copy_pipeline (demo_cfg true) 40 two_files) in
  copy_pipeline (demo_cfg true) 40 two_files = Returned 0 c' /\
  Forall (fun t =>
    content (file_at c' (src_path t)) = content (file_at two_files (src_path t)) /\
    (done t = true -> bytes_written t = file_size t -> 0 < file_size t ->
     content (file_at c' (dst_path t)) = content (file_at two_files (src_path t)))) (tasks (queue c')).
Proof.
  assert (copy_pipeline (demo_cfg true) 40 two_files =
    Returned 0 (final_of (copy_pipeline (demo_cfg true) 40 two_files))) as H by (vm_compute; reflexivity).
  split; [exact H|]. exact (copied_bytes_are_exact (demo_cfg true) two_files _ 40 two_files_ready H).
Defined.

Lemma copy_completes_witness : exists c', copy_pipeline (demo_cfg true) 28 two_files = Returned 0 c' /\
    Forall (fun t => done t = true /\ bytes_written t = file_size t /\
      content (file_at c' (dst_path t)) = content (file_at two_files (src_path t))) (tasks (queue c')) /\
    ops c' = [] /\ active_ops c' = 0 /\ fds c' ⊆ fds two_files.
Proof. apply (copy_completes (demo_cfg true) two_files 28 two_files_ready calm_friendly); cbn; lia. Defined.

(** The destination of the demonstration, as the kernel left it. *)
Example demo_copied : result_of (copy_pipeline (demo_cfg true) 40 two_files) "x" = Some (0, [1; 2; 3; 4; 5; 6]).
Proof. vm_compute. reflexivity. Qed.

(** ** Where it goes wrong *)

(** A short read in the middle of a file: the rest of the chunk is never read,
    the copy returns 0 and the preallocated zeros stay. *)
Lemma short_read_loses_data :
  result_of (@copy_pipeline hasty (demo_cfg true) 40 two_files) "x" = Some (0, [1; 2; 0; 0; 5; 6]).
Proof. vm_compute. reflexivity. Qed.

(** An empty file followed by another one, with fsync on (the default): the
    slot of the fsync in flight is given to the next read, and a callback finds
    its task gone. *)
Lemma empty_file_shares_slot :
  copy_pipeline (demo_cfg true) 40
    (demo_copy [("e", "x", 0); ("b", "y", 3)]%string [("e", []); ("b", [7; 8; 9])]%string) = NullTask.
Proof. vm_compute. reflexivity. Qed.

(** Nothing is in flight, and a file whose reads are all submitted is not done. *)
Definition stuck (c : copy_ctx_t) : bool :=
  match ops c with [] => true | _ => false end && (error c =? 0) && negb (all_tasks_done c) &&
  match find_reader (List.length (tasks (queue c))) (tasks (queue c)) (current (queue c)) with None => true | _ => false end.

Lemma stuck_refill cfg n : forall c k, no_reader c ->
  exists t, refill cfg c k n = c <| now := t |>.
Proof.
  induction n as [|n IH]; intros c k Hn; cbn [refill]; [exists (now c); by destruct c|].
  destruct (decide _); [|by apply IH]. destruct (negb _); [by apply IH|]. cbn [g_interrupted].
  set (c1 := c <| now := S (now c) |>). assert (no_reader c1) as Hn1 by done.
  assert ((if ask_interrupted (now c) then c1 else next_read cfg c1 k) = c1) as ->
    by (destruct (ask_interrupted (now c)); [done|by rewrite next_read_none]).
  destruct (IH c1 (S k) Hn1) as [t ->]. by exists t.
Qed.

Lemma stuck_forever fuel cfg : forall c, stuck c = true -> exists c', main_loop cfg fuel c = Running c'.
Proof.
  induction fuel as [|n IH]; intros c Hs; pose proof Hs as Hs'; unfold stuck in Hs';
    destruct (ops c) eqn:Eo; try done; destruct (Z.eqb_spec (error c) 0) as [He|]; try done;
    destruct (all_tasks_done c) eqn:Ed; try done; destruct (find_reader _ _ _) eqn:Ef; try done;
    cbn [main_loop]; rewrite Ed, He; cbn [Z.eqb negb orb g_interrupted ask_interrupted calm].
  { by eexists. }
  unfold aura_wait. cbn [ask_wait calm complete_all].
  set (c1 := c <| now := S (now c) |>). set (c2 := c1 <| now := S (now c1) |>).
  assert (ops c2 = []) as Eo2 by done.
  unfold complete_op. rewrite Eo2. cbn [lookup list_lookup mbind option_bind].
  change (wait_failed 1) with false. cbv iota.
  destruct (stuck_refill cfg (pipeline_depth cfg) c2 0 Ef) as [t Et].
  change (exists c', main_loop cfg n (refill cfg c2 0 (pipeline_depth cfg)) = Running c').
  rewrite Et. by apply IH.
Qed.

(** A source that shrank after [stat]: its last read returns 0, nobody finishes
    the file, and the main loop never ends. *)
Definition shrunk : copy_ctx_t := demo_copy [("a", "x", 6)]%string [("a", [1; 2; 3; 4])]%string.

Definition one_slot : config_t :=
  {| chunk_size := 4; pipeline_depth := 1; recursive := false; use_direct := false; no_fsync := false;
     preserve := false; keep_partial := false |}.

(** One iteration of the main loop, when it does not end there. *)
Definition turn (cfg : config_t) (c : copy_ctx_t) : option copy_ctx_t :=
  if all_tasks_done c || negb (error c =? 0) then None
  else
    p ← aura_wait cfg (c <| now := S (now c) |>);
    if wait_failed p.1 then None else Some (refill cfg p.2 0 (pipeline_depth cfg)).

Fixpoint turns (n : nat) (cfg : config_t) (c : copy_ctx_t) : option copy_ctx_t :=
  match n with O => Some c | S n => c ← turn cfg c; turns n cfg c end.

Lemma main_loop_turns k n cfg : forall c c', turns k cfg c = Some c' ->
  main_loop cfg (k + n) c = main_loop cfg n c'.
Proof.
  induction k as [|k IH]; intros c c' H; cbn [turns] in H; [by injection H as <-|].
  destruct (turn cfg c) as [c1|] eqn:E1; [|done]. cbn in H. rewrite <- (IH c1 c' H). unfold turn in E1.
  cbn [main_loop Nat.add]. destruct (_ || _); [done|]. cbn [g_interrupted ask_interrupted calm].
  destruct (aura_wait cfg _) as [[r c2]|]; [|done]. cbn in E1. destruct (wait_failed r); [done|]. by injection E1 as <-.
Qed.

Lemma shrunk_source_never_returns fuel : exists c', copy_pipeline one_slot fuel shrunk = Running c'.
Proof.
  destruct (turns 3 one_slot (first_batch one_slot shrunk 0 1)) as [c3|] eqn:E3; [|by vm_compute in E3].
  assert (stuck c3 = true) as Hs.
  { assert (stuck <$> turns 3 one_slot (first_batch one_slot shrunk 0 1) = Some true) as H by (vm_compute; reflexivity).
    rewrite E3 in H. by injection H. }
  destruct fuel as [|[|[|fuel]]]; [eexists; vm_compute; reflexivity..|].
  change (exists c', main_loop one_slot (3 + fuel) (first_batch one_slot shrunk 0 1) = Running c').
  rewrite (main_loop_turns 3 fuel one_slot _ c3 E3). by apply stuck_forever.
Qed.

(** A write that fails on the last chunk ([ENOSPC]): the task is finished all the
    same, so the incomplete destination is not among the files
    [cleanup_partial_files] removes. *)
Definition no_space (n : nat) : ClientEnv := {|
  ask_errno := fun _ => 0; ask_interrupted := fun _ => false;
  ask_wait := fun k _ => ([(0%nat, if (k <? n)%nat then Transfer 100 else Refuse 28)], 1)
|}.

Definition small_file : copy_ctx_t := demo_copy [("b", "y", 3)]%string [("b", [7; 8; 9])]%string.

Lemma failed_write_keeps_file :
  match @copy_pipeline (no_space 8) one_slot 40 small_file with
  | Returned e c => e = -28 /\ cleanup_partial_files one_slot c = [] /\ content (file_at c "y") = [0; 0; 0]
  | _ => False
  end.
Proof. vm_compute. done. Qed.
