(* ===== verification/CopyTasks.v ===== *)
(** * auracp: building the list of files

    [auracp.c] 258-290 and 290-513: the queue, the path helpers, the callback of
    [nftw], [build_recursive] and [build_task_list]. The tree walk, [stat],
    [mkdir] and [malloc] are the class [TaskEnv] of [Client]; a path is a string
    without its terminating zero. A recursive copy gives distinct files distinct
    destinations, which is what [CopyTheorems.ready] asks of the paths. *)
From Stdlib Require Import ZArith Lia List String Ascii.
From stdpp Require Import base tactics strings list gmap.
From S2P Require Import Prelude Client Copy CopySpec CopyTheorems.

#[local] Open Scope Z_scope.

(** ** Paths *)

Definition slash : ascii := "/"%char.

(** [while (dlen > 1 && dir[dlen - 1] == '/') dlen--], on the reversed path. *)
Fixpoint strip_rev (l : list ascii) : list ascii :=
  match l with
  | c :: (_ :: _) as r => if (c =? slash)%char then strip_rev r else l
  | _ => l
  end.

Definition chars (s : string) : list ascii := list_ascii_of_string s.
Definition trim (s : string) : list ascii := reverse (strip_rev (reverse (chars s))).

Definition path_join (dir name : string) : string :=
  string_of_list_ascii (trim dir ++ slash :: chars name).

(** [fpath] starts with [src_root], as [nftw] builds it. *)
Definition remap_path (src_root dst_root fpath : string) : string :=
  let suffix := drop (List.length (trim src_root)) (chars fpath) in
  let suffix := match suffix with c :: r => if (c =? slash)%char then r else suffix | [] => [] end in
  string_of_list_ascii (trim dst_root ++ slash :: suffix).

(** [basename] of POSIX: the last component, trailing slashes aside. *)
Fixpoint last_component (l : list ascii) : list ascii :=
  match l with c :: r => if (c =? slash)%char then [] else c :: last_component r | [] => [] end.

Definition basename (s : string) : string :=
  match chars s with
  | [] => "."
  | _ => match strip_rev (reverse (chars s)) with
         | [c] => string_of_list_ascii [c]
         | l => string_of_list_ascii (reverse (last_component l))
         end
  end.

(** ** The list *)

Definition EEXIST_CODE : Z := 17.

(** The queue, the directories made, and the number of questions asked. *)
Record build_t := { b_queue : task_queue_t; b_dirs : list string; b_now : nat }.

Definition queue_init : task_queue_t :=
  {| tasks := []; current := 0; total_files := 0; completed_files := 0; total_bytes := 0; total_written := 0 |}.

Definition queue_push (q : task_queue_t) (t : file_task_t) : task_queue_t :=
  {| tasks := tasks q ++ [t];
     current := if (current q <? List.length (tasks q))%nat then current q else List.length (tasks q);
     total_files := total_files q + 1; completed_files := completed_files q;
     total_bytes := total_bytes q + file_size t; total_written := total_written q |}.

(** [calloc] zeroes the task; its descriptors are then set to -1. *)
Definition new_task (src dst : string) (size m : Z) : file_task_t :=
  {| src_path := src; dst_path := dst; file_size := size; mode := m; src_fd := -1; dst_fd := -1;
     read_offset := 0; bytes_written := 0; t_active_ops := 0; reads_done := false; done := false |}.

Section Build.
Context {T : TaskEnv}.
Implicit Types b : build_t.

Definition tick b : build_t := {| b_queue := b_queue b; b_dirs := b_dirs b; b_now := S (b_now b) |}.
Definition push b (t : file_task_t) : build_t :=
  {| b_queue := queue_push (b_queue b) t; b_dirs := b_dirs b; b_now := b_now b |}.
Definition alloc b : bool * build_t := (ask_alloc (b_now b), tick b).
Definition stat b (path : string) : option stat_t * build_t := (ask_stat (b_now b) path, tick b).

(** [true] unless it fails with something else than [EEXIST]. *)
Definition mkdir b (path : string) : bool * build_t :=
  let e := ask_mkdir (b_now b) path in
  ((e =? 0) || (e =? EEXIST_CODE),
   {| b_queue := b_queue b; b_dirs := if e =? 0 then b_dirs b ++ [path] else b_dirs b; b_now := S (b_now b) |}).

(** The callback: the number of errors grows by one when [false]. *)
Definition nftw_callback (src_root dst_root : string) (e : ftw_entry) b : bool * build_t :=
  match typeflag e with
  | FTW_D =>
      let '(ok, b) := alloc b in
      if negb ok then (false, b)
      else
        let dst := remap_path src_root dst_root (fpath e) in
        if String.eqb (fpath e) src_root then
          let '(st, b) := stat b dst in
          match st with Some _ => (true, b) | None => mkdir b dst end
        else mkdir b dst
  | FTW_F =>
      let '(ok, b) := alloc b in
      if negb ok then (false, b)
      else
        let '(ok, b) := alloc b in
        if negb ok then (false, b)
        else (true, push b (new_task (fpath e) (remap_path src_root dst_root (fpath e)) (fsize e) (fmode e)))
  | FTW_SL | FTW_OTHER => (true, b)
  end.

Fixpoint walk (src_root dst_root : string) (l : list ftw_entry) (errors : Z) b : Z * build_t :=
  match l with
  | [] => (errors, b)
  | e :: l => let '(ok, b) := nftw_callback src_root dst_root e b in
              walk src_root dst_root l (if ok then errors else errors + 1) b
  end.

Definition build_recursive (src dst : string) b : bool * build_t :=
  match ask_nftw src with
  | None => (false, b)
  | Some l => let '(errors, b) := walk src dst l 0 b in (errors =? 0, b)
  end.

(** One source; [false] ends the program. *)
Definition build_source (cfg : config_t) (dest : string) (dst_is_dir : bool) (src : string) b : bool * build_t :=
  let '(st, b) := stat b src in
  match st with
  | None => (false, b)
  | Some st =>
      match sb_kind st with
      | S_DIR =>
          if negb (recursive cfg) then (false, b)
          else
            let '(ok, b) := alloc b in
            if negb ok then (false, b)
            else
              let dst_dir := if dst_is_dir then path_join dest (basename src) else dest in
              let '(ok, b) := mkdir b dst_dir in
              if negb ok then (false, b) else build_recursive src dst_dir b
      | S_REG =>
          let '(ok, b) := alloc b in
          if negb ok then (false, b)
          else
            let dst := if dst_is_dir then path_join dest (basename src) else dest in
            let '(check_st, b) := stat b dst in
            if (match check_st with
                | Some c => bool_decide (sb_id c = sb_id st)
                | None => false end) then (false, b)
            else
              let '(ok, b) := alloc b in
              if negb ok then (false, b)
              else (true, push b (new_task src dst (sb_size st) (sb_mode st)))
      | S_OTHER => (true, b)
      end
  end.

Fixpoint build_sources (cfg : config_t) (dest : string) (dst_is_dir : bool) (l : list string) b : bool * build_t :=
  match l with
  | [] => (true, b)
  | src :: l => let '(ok, b) := build_source cfg dest dst_is_dir src b in
                if ok then build_sources cfg dest dst_is_dir l b else (false, b)
  end.

Definition build_task_list (cfg : config_t) (sources : list string) (dest : string) : bool * build_t :=
  let b := {| b_queue := queue_init; b_dirs := []; b_now := 0 |} in
  let '(st, b) := stat b dest in
  let dst_is_dir := match st with Some st => match sb_kind st with S_DIR => true | _ => false end | None => false end in
  if (1 <? List.length sources)%nat && negb dst_is_dir then (false, b)
  else
    let '(ok, b) := build_sources cfg dest dst_is_dir sources b in
    if negb ok then (false, b) else (negb (total_files (b_queue b) =? 0), b).

(** ** The paths of a recursive copy *)

(** A path [nftw] reports below [root]: the root without its trailing slashes, a
    separator unless the root is ["/"], and the relative path. *)
Definition below (root rel : string) : string :=
  string_of_list_ascii (trim root ++
    (if bool_decide (trim root = [slash]) then [] else [slash]) ++ chars rel).

Lemma chars_of l : chars (string_of_list_ascii l) = l.
Proof using. apply list_ascii_of_string_of_list_ascii. Qed.

Lemma of_chars_inj l l' : string_of_list_ascii l = string_of_list_ascii l' -> l = l'.
Proof using. intros H. rewrite <- (chars_of l), <- (chars_of l'). by rewrite H. Qed.

Lemma chars_inj s s' : chars s = chars s' -> s = s'.
Proof using.
  intros H. rewrite <- (string_of_list_ascii_of_string s), <- (string_of_list_ascii_of_string s'). unfold chars in H. by rewrite H.
Qed.

(** A relative path does not start with a slash. *)
Definition relative (rel : string) : Prop := match chars rel with c :: _ => c <> slash | [] => True end.

Lemma remap_below root dst rel : relative rel -> remap_path root dst (below root rel) = path_join dst rel.
Proof using.
  intros Hr. unfold remap_path, below, path_join. rewrite chars_of, drop_app_length. f_equal. f_equal. f_equal.
  destruct (bool_decide _); [cbn [app]|by cbn]. unfold relative in Hr. destruct (chars rel) as [|c r]; [done|].
  by destruct (Ascii.eqb_spec c slash).
Qed.

Lemma path_join_inj dir n n' : path_join dir n = path_join dir n' -> n = n'.
Proof using.
  unfold path_join. intros H. apply of_chars_inj, app_inv_head in H. injection H as H. by apply chars_inj.
Qed.

Definition is_file (e : ftw_entry) : bool := match typeflag e with FTW_F => true | _ => false end.
Definition files_of (l : list ftw_entry) : list ftw_entry := List.filter is_file l.
Definition task_of (src_root dst_root : string) (e : ftw_entry) : file_task_t :=
  new_task (fpath e) (remap_path src_root dst_root (fpath e)) (fsize e) (fmode e).

Lemma callback_tasks src dst e b : let '(ok, b') := nftw_callback src dst e b in
  if ok then tasks (b_queue b') = tasks (b_queue b) ++ (task_of src dst <$> files_of [e])
  else True.
Proof using.
  unfold nftw_callback, alloc, stat, mkdir, files_of. cbn [List.filter]. unfold is_file. destruct (typeflag e); cbn.
  - destruct (ask_alloc _); cbn; [|done]. destruct (String.eqb _ _); [destruct (ask_stat _ _)|]; cbn.
    + by rewrite app_nil_r.
    + destruct (_ || _); cbn; [by rewrite app_nil_r|done].
    + destruct (_ || _); cbn; [by rewrite app_nil_r|done].
  - destruct (ask_alloc _); cbn; [|done]. by destruct (ask_alloc _).
  - by rewrite app_nil_r.
  - by rewrite app_nil_r.
Qed.

Lemma walk_tasks src dst l : forall n b, let '(m, b') := walk src dst l n b in
  n <= m /\ (m = n -> tasks (b_queue b') = tasks (b_queue b) ++ (task_of src dst <$> files_of l)).
Proof using.
  induction l as [|e l IH]; intros n b; cbn [walk].
  { split; [lia|]. intros _. by rewrite app_nil_r. }
  pose proof (callback_tasks src dst e b) as Hc. destruct (nftw_callback src dst e b) as [ok b1].
  specialize (IH (if ok then n else n + 1) b1). destruct (walk src dst l _ b1) as [m b2].
  destruct IH as [H1 H2]. destruct ok; [|split; [lia|lia]]. split; [lia|]. intros ->. rewrite H2, Hc by done.
  rewrite <- app_assoc, <- fmap_app. unfold files_of. cbn [List.filter]. by destruct (is_file e).
Qed.

(** A recursive copy that reports no error has queued exactly the regular
    files of the walk, in its order, each with the path below the destination
    that corresponds to its path below the source; distinct files get distinct
    destinations, and every queued task is in the state copy_pipeline starts
    from. *)
Theorem recursive_copy_queues (src dst : string) (l : list ftw_entry) (rel : ftw_entry -> string) (b b' : build_t)
    (Hl : ask_nftw src = Some l)
    (Hrel : Forall (fun e => relative (rel e) /\ fpath e = below src (rel e)) (files_of l))
    (Hnd : NoDup (fpath <$> files_of l))
    (H : build_recursive src dst b = (true, b')) :
  exists new, tasks (b_queue b') = tasks (b_queue b) ++ new /\
    src_path <$> new = fpath <$> files_of l /\ file_size <$> new = fsize <$> files_of l /\
    dst_path <$> new = (fun e => path_join dst (rel e)) <$> files_of l /\
    NoDup (dst_path <$> new) /\ Forall fresh_task new.
Proof using.
  unfold build_recursive in H. rewrite Hl in H. pose proof (walk_tasks src dst l 0 b) as Hw.
  destruct (walk src dst l 0 b) as [m b1]. destruct Hw as [_ Hw]. apply pair_equal_spec in H as [Hm <-].
  apply Z.eqb_eq in Hm. exists (task_of src dst <$> files_of l). split; [by apply Hw|]. clear Hw Hm.
  rewrite <- !list_fmap_compose. split; [done|]. split; [done|].
  assert (dst_path ∘ task_of src dst <$> files_of l = (fun e => path_join dst (rel e)) <$> files_of l) as Ed.
  { apply list_fmap_ext. intros i e He. destruct (Forall_lookup_1 _ _ _ _ Hrel He) as [H1 H2].
    cbn. rewrite H2. by apply remap_below. }
  split; [done|]. split.
  - rewrite Ed. clear -Hrel Hnd. induction (files_of l) as [|e k IH]; cbn; [constructor|].
    apply NoDup_cons in Hnd as [Hn Hnd]. apply Forall_cons in Hrel as [[_ He] Hrel].
    apply NoDup_cons. split; [|by apply IH]. intros Hin. apply Hn. apply list_elem_of_fmap in Hin as (e' & Eq & Hin').
    apply path_join_inj in Eq. apply list_elem_of_fmap. exists e'. split; [|done].
    destruct (proj1 (Forall_forall _ _) Hrel e' Hin') as [_ He']. congruence.
  - apply Forall_fmap, Forall_forall. intros e _. by repeat split.
Qed.

End Build.

(** ** A concrete tree *)

#[local] Instance demo_tree : TaskEnv := {|
  ask_stat := fun _ p => if String.eqb p "src/" then Some {| sb_kind := S_DIR; sb_size := 0; sb_mode := 493; sb_id := (1, 1) |}
                         else None;
  ask_mkdir := fun _ _ => 0; ask_alloc := fun _ => true;
  ask_nftw := fun _ => Some
    [{| fpath := "src"; typeflag := FTW_D; fsize := 0; fmode := 493 |};
     {| fpath := "src/a"; typeflag := FTW_F; fsize := 3; fmode := 420 |};
     {| fpath := "src/d"; typeflag := FTW_D; fsize := 0; fmode := 493 |};
     {| fpath := "src/d/b"; typeflag := FTW_F; fsize := 5; fmode := 420 |}]
|}.

Definition demo_build : build_t := {| b_queue := queue_init; b_dirs := []; b_now := 0 |}.

Definition demo_rel (e : ftw_entry) : string := if String.eqb (fpath e) "src/a" then "a" else "d/b".

Lemma recursive_copy_queues_witness :
  exists b', build_recursive "src/" "out" demo_build = (true, b') /\
  exists new, tasks (b_queue b') = [] ++ new /\
    src_path <$> new = ["src/a"; "src/d/b"]%string /\ file_size <$> new = [3; 5] /\
    dst_path <$> new = ["out/a"; "out/d/b"]%string /\
    NoDup (dst_path <$> new) /\ Forall fresh_task new.
Proof.
  exists (snd (build_recursive "src/" "out" demo_build)).
  assert (build_recursive "src/" "out" demo_build = (true, snd (build_recursive "src/" "out" demo_build))) as H
    by (vm_compute; reflexivity).
  split; [exact H|].
  refine (recursive_copy_queues "src/" "out" _ demo_rel demo_build _ eq_refl _ _ H).
  - repeat constructor; vm_compute; done.
  - apply (bool_decide_unpack _). by vm_compute.
Defined.

(** The root of the walk and the directory below it are made, too. *)
Example demo_dirs : b_dirs (snd (build_task_list {| chunk_size := 4; pipeline_depth := 1; recursive := true;
  use_direct := false; no_fsync := true; preserve := false; keep_partial := false |} ["src/"] "out")) =
  ["out"; "out/"; "out/d"]%string.
Proof. vm_compute. reflexivity. Qed.
