(* ===== verification/HashPipe.v ===== *)
(** * aura-hash: the pipelined digests

    [src/tools/aura-hash/aura-hash.c]: the queue of files, the buffer slots, the
    completion of a read with [drain_completed], [submit_next_read],
    [hash_pipeline] and the worker around it. OpenSSL's digests are the class
    [Evp]; the kernel, the engine and SIGINT are the class [ClientEnv] of
    [Client]. The files do not change while they are hashed. Standard output is
    the list of its lines, and of standard error the messages that name a file are
    kept. The progress display is left out. *)
From Stdlib Require Import ZArith Lia List String Ascii.
From stdpp Require Import base tactics strings list gmap.
From S2P Require Import Prelude Client.

#[local] Open Scope Z_scope.

(** ** Digests *)

(** [EVP_DigestInit_ex], [EVP_DigestUpdate] and [EVP_DigestFinal_ex] on a context. *)
Class Evp := {
  md_state : Type;
  md_init : md_state;
  md_update : md_state -> list Z -> md_state;
  md_final : md_state -> list Z
}.

(** A digest depends on the bytes it was fed, not on how they were cut. *)
Class EvpLaws (V : Evp) := {
  md_update_app : forall c a b, md_update (md_update c a) b = md_update c (a ++ b);
  md_update_nil : forall c, md_update c [] = c
}.

Definition EVP_MAX_MD_SIZE : Z := 64.

Section Data.
Context {V : Evp}.

(** ** Data *)

Record config_t := { chunk_size : Z; pipeline_depth : nat; recursive : bool }.

Record file_task_t := {
  path : string; file_size : Z; fd : Z; read_offset : Z; hash_offset : Z; t_active_ops : Z;
  reads_done : bool; done : bool; md_ctx : md_state; bytes_hashed : Z
}.

(** The linked list of tasks in its order; [current] and [next] are positions,
    [NULL] is a position past the end. *)
Record task_queue_t := {
  tasks : list file_task_t; current : nat;
  total_files : Z; completed_files : Z; total_bytes : Z; bytes_read : Z
}.

Inductive buf_state_t := BUF_FREE | BUF_READING | BUF_DONE.

#[export] Instance hash_state_eq_dec : EqDecision buf_state_t.
Proof. solve_decision. Defined.

Record buf_slot_t := { buf : list Z; offset : Z; bytes : Z; state : buf_state_t; task : option nat }.

(** A read the engine accepted; its user data is the slot, its descriptor was
    resolved when it was submitted. *)
Record io_op := { op_file : option string; op_slot : nat; op_off : Z; op_len : Z }.

Inductive diag := CannotOpen (path : string) | ReadError (path : string) | SubmitFailed (path : string).

(** [hash_ctx_t] with what is outside it: the requests in flight, the open
    descriptors, the files, what was printed, and the questions asked. *)
Record hash_ctx_t := {
  queue : task_queue_t; slots : list buf_slot_t; active_ops : Z; error : Z;
  ops : list io_op; fds : gmap Z string; files : gmap string (list Z);
  stdout : list string; stderr : list diag; now : nat
}.

Definition hash_task_eta (r : file_task_t) : file_task_t :=
  {| path := path r; file_size := file_size r; fd := fd r; read_offset := read_offset r; hash_offset := hash_offset r;
     t_active_ops := t_active_ops r; reads_done := reads_done r; done := done r; md_ctx := md_ctx r; bytes_hashed := bytes_hashed r |}.
#[export] Instance hset_fd : Setter fd := ltac:(mk_setter hash_task_eta).
#[export] Instance hset_read_offset : Setter read_offset := ltac:(mk_setter hash_task_eta).
#[export] Instance hset_hash_offset : Setter hash_offset := ltac:(mk_setter hash_task_eta).
#[export] Instance hset_t_active_ops : Setter t_active_ops := ltac:(mk_setter hash_task_eta).
#[export] Instance hset_reads_done : Setter reads_done := ltac:(mk_setter hash_task_eta).
#[export] Instance hset_done : Setter done := ltac:(mk_setter hash_task_eta).
#[export] Instance hset_md_ctx : Setter md_ctx := ltac:(mk_setter hash_task_eta).
#[export] Instance hset_bytes_hashed : Setter bytes_hashed := ltac:(mk_setter hash_task_eta).

Definition hash_queue_eta (r : task_queue_t) : task_queue_t :=
  {| tasks := tasks r; current := current r; total_files := total_files r; completed_files := completed_files r;
     total_bytes := total_bytes r; bytes_read := bytes_read r |}.
#[export] Instance hset_tasks : Setter tasks := ltac:(mk_setter hash_queue_eta).
#[export] Instance hset_current : Setter current := ltac:(mk_setter hash_queue_eta).
#[export] Instance hset_completed_files : Setter completed_files := ltac:(mk_setter hash_queue_eta).
#[export] Instance hset_bytes_read : Setter bytes_read := ltac:(mk_setter hash_queue_eta).

Definition hash_slot_eta (r : buf_slot_t) : buf_slot_t :=
  {| buf := buf r; offset := offset r; bytes := bytes r; state := state r; task := task r |}.
#[export] Instance hset_buf : Setter buf := ltac:(mk_setter hash_slot_eta).
#[export] Instance hset_offset : Setter offset := ltac:(mk_setter hash_slot_eta).
#[export] Instance hset_bytes : Setter bytes := ltac:(mk_setter hash_slot_eta).
#[export] Instance hset_state : Setter state := ltac:(mk_setter hash_slot_eta).
#[export] Instance hset_task : Setter task := ltac:(mk_setter hash_slot_eta).

Definition hash_ctx_eta (r : hash_ctx_t) : hash_ctx_t :=
  {| queue := queue r; slots := slots r; active_ops := active_ops r; error := error r; ops := ops r; fds := fds r;
     files := files r; stdout := stdout r; stderr := stderr r; now := now r |}.
#[export] Instance hset_queue : Setter queue := ltac:(mk_setter hash_ctx_eta).
#[export] Instance hset_slots : Setter slots := ltac:(mk_setter hash_ctx_eta).
#[export] Instance hset_active_ops : Setter active_ops := ltac:(mk_setter hash_ctx_eta).
#[export] Instance hset_error : Setter error := ltac:(mk_setter hash_ctx_eta).
#[export] Instance hset_ops : Setter ops := ltac:(mk_setter hash_ctx_eta).
#[export] Instance hset_fds : Setter fds := ltac:(mk_setter hash_ctx_eta).
#[export] Instance hset_stdout : Setter stdout := ltac:(mk_setter hash_ctx_eta).
#[export] Instance hset_stderr : Setter stderr := ltac:(mk_setter hash_ctx_eta).
#[export] Instance hset_now : Setter now := ltac:(mk_setter hash_ctx_eta).

Definition dummy_task : file_task_t :=
  {| path := ""; file_size := 0; fd := -1; read_offset := 0; hash_offset := 0; t_active_ops := 0; reads_done := false;
     done := false; md_ctx := md_init; bytes_hashed := 0 |}.

Definition dummy_slot : buf_slot_t := {| buf := []; offset := 0; bytes := 0; state := BUF_FREE; task := None |}.

End Data.

(** ** The line of a file *)

Definition hex_digit (d : Z) : ascii :=
  if d <? 10 then ascii_of_nat (Z.to_nat (48 + d)) else ascii_of_nat (Z.to_nat (87 + d)).

(** [%02x] of a byte. *)
Definition hex_byte (b : Z) : string := String (hex_digit (b / 16)) (String (hex_digit (b mod 16)) EmptyString).

Fixpoint hex (l : list Z) : string := match l with [] => "" | b :: l => hex_byte b ++ hex l end%string.

Definition newline : string := String (ascii_of_nat 10) EmptyString.

Definition digest_line (digest : list Z) (path : string) : string := (hex digest ++ "  " ++ path ++ newline)%string.

Section Hash.
Context {V : Evp} {E : ClientEnv} (cfg : config_t).
Implicit Types c : hash_ctx_t.

Definition task_at c (i : nat) : file_task_t := nth i (tasks (queue c)) dummy_task.
Definition slot_at c (k : nat) : buf_slot_t := nth k (slots c) dummy_slot.

Definition upd_queue c (f : task_queue_t -> task_queue_t) : hash_ctx_t := c <| queue := f (queue c) |>.
Definition upd_task c (i : nat) (f : file_task_t -> file_task_t) : hash_ctx_t :=
  upd_queue c (fun q => q <| tasks := alter f i (tasks q) |>).
Definition upd_slot c (k : nat) (f : buf_slot_t -> buf_slot_t) : hash_ctx_t := c <| slots := alter f k (slots c) |>.
Definition set_current c (i : nat) : hash_ctx_t := upd_queue c (fun q => q <| current := i |>).
Definition add_active c (i : nat) (d : Z) : hash_ctx_t :=
  upd_task (c <| active_ops := active_ops c + d |>) i (fun t => t <| t_active_ops := t_active_ops t + d |>).
Definition complain c (d : diag) : hash_ctx_t := c <| stderr := stderr c ++ [d] |>.

Definition free_slot c (k : nat) : hash_ctx_t := upd_slot c k (fun s => s <| state := BUF_FREE |> <| task := None |>).

(** Answers of the outside world. *)
Definition sys c : Z * hash_ctx_t := (ask_errno (now c), c <| now := S (now c) |>).
Definition g_interrupted c : bool * hash_ctx_t := (ask_interrupted (now c), c <| now := S (now c) |>).

(** [if (ctx->error == 0) { message; ctx->error = e; }]. *)
Definition set_error c (e : Z) (d : diag) : hash_ctx_t := if error c =? 0 then (complain c d) <| error := e |> else c.

(** ** Finishing a file *)

Definition finalize_task c (i : nat) : hash_ctx_t :=
  c <| stdout := stdout c ++ [digest_line (md_final (md_ctx (task_at c i))) (path (task_at c i))] |>.

(** [finalize_task(task); close(task->fd); task->fd = -1; task->done = true; completed_files++]. *)
Definition complete_task c (i : nat) : hash_ctx_t :=
  let c := finalize_task c i in
  let c := c <| fds := delete (fd (task_at c i)) (fds c) |> in
  let c := upd_task c i (fun t => t <| fd := -1 |> <| done := true |>) in
  upd_queue c (fun q => q <| completed_files := completed_files q + 1 |>).

(** ** Completions *)

(** The first slot, from [k] on, that holds the next bytes of task [i]. *)
Fixpoint find_done (l : list buf_slot_t) (k i : nat) (off : Z) : option nat :=
  match l with
  | [] => None
  | s :: l =>
      if bool_decide (state s = BUF_DONE) && bool_decide (task s = Some i) && (offset s =? off) then Some k
      else find_done l (S k) i off
  end.

(** The body of the scan: the bytes of slot [k] go into the digest, and the slot
    is free. *)
Definition feed c (i k : nat) : hash_ctx_t :=
  let s := slot_at c k in
  let c := upd_task c i (fun t => t <| md_ctx := md_update (md_ctx t) (pread (buf s) 0 (bytes s)) |>
             <| bytes_hashed := bytes_hashed t + bytes s |> <| hash_offset := hash_offset t + bytes s |>) in
  let c := upd_queue c (fun q => q <| bytes_read := bytes_read q + bytes s |>) in
  add_active (free_slot c k) i (-1).

(** [while (progress)]: each round but the last frees a slot. *)
Fixpoint drain_loop (fuel : nat) c (i : nat) : hash_ctx_t :=
  match fuel with
  | O => c
  | S fuel =>
      match find_done (take (pipeline_depth cfg) (slots c)) 0 i (hash_offset (task_at c i)) with
      | None => c
      | Some k => drain_loop fuel (feed c i k) i
      end
  end.

Definition drain_completed c (i : nat) : hash_ctx_t :=
  let c := drain_loop (S (pipeline_depth cfg)) c i in
  let t := task_at c i in
  if reads_done t && (t_active_ops t =? 0) && negb (done t) then complete_task c i else c.

(** [None]: the slot has no task, and [NULL] is dereferenced. *)
Definition on_read_complete c (result : Z) (k : nat) : option hash_ctx_t :=
  i ← task (slot_at c k);
  Some (if result <=? 0 then
          let c := if result <? 0 then set_error c (i32 result) (ReadError (path (task_at c i))) else c in
          add_active (free_slot c k) i (-1)
        else drain_completed (upd_slot c k (fun s => s <| bytes := result |> <| state := BUF_DONE |>)) i).

(** The kernel executes a read: its result, and the bytes in the buffer. *)
Definition execute c (op : io_op) (a : answer) : Z * hash_ctx_t :=
  match a, op_file op with
  | Refuse e, _ => (Z.neg e, c)
  | Transfer _, None => (- EBADF_CODE, c)
  | Transfer limit, Some p =>
      let data := pread (default [] (files c !! p)) (op_off op) (Z.min limit (op_len op)) in
      (zlen data, upd_slot c (op_slot op) (fun s => s <| buf := pwrite (buf s) 0 data |>))
  end.

(** One completion: the request leaves the engine, the kernel's effect and the
    callback happen. Positions past the end are skipped. *)
Definition complete_op c (j : nat) (a : answer) : option hash_ctx_t :=
  match ops c !! j with
  | None => Some c
  | Some op =>
      let '(r, c) := execute (c <| ops := delete j (ops c) |>) op a in
      on_read_complete c r (op_slot op)
  end.

Fixpoint complete_all c (l : list (nat * answer)) : option hash_ctx_t :=
  match l with [] => Some c | (j, a) :: l => c ← complete_op c j a; complete_all c l end.

Definition aura_wait c : option (Z * hash_ctx_t) :=
  let '(l, r) := ask_wait (now c) (List.length (ops c)) in
  c ← complete_all (c <| now := S (now c) |>) l; Some (r, c).

(** ** The pipeline *)

(** The first task from [i] on that still needs reads, if any. *)
Fixpoint find_reader (n : nat) (l : list file_task_t) (i : nat) : option nat :=
  match n with
  | O => None
  | S n => match l !! i with
           | None => None
           | Some t => if reads_done t || done t then find_reader n l (S i) else Some i
           end
  end.

(** [open(task->path, flags)]. *)
Definition open_task c (i : nat) : bool * hash_ctx_t :=
  let '(e, c) := sys c in
  if negb (e =? 0) then (false, c)
  else
    let d := lowest_fd (size (fds c)) 0 (fds c) in
    (true, upd_task (c <| fds := <[d := path (task_at c i)]> (fds c) |>) i (fun t => t <| fd := d |>)).

(** [aura_read]: accepted, or refused with an [errno]. *)
Definition submit c (d : Z) (k : nat) (off len : Z) : Z * hash_ctx_t :=
  let '(e, c) := sys c in
  if e =? 0 then (0, c <| ops := ops c ++ [{| op_file := fds c !! d; op_slot := k; op_off := off; op_len := len |}] |>)
  else (e, c).

(** The rest of [submit_next_read] once the task is open. *)
Definition submit_read c (i k : nat) : hash_ctx_t :=
  let t := task_at c i in
  let chunk := if file_size t <? read_offset t + chunk_size cfg then file_size t - read_offset t else chunk_size cfg in
  let c := upd_slot c k (fun s => s <| offset := read_offset t |> <| bytes := chunk |> <| state := BUF_READING |> <| task := Some i |>) in
  let c := upd_task c i (fun t => t <| read_offset := read_offset t + chunk |>) in
  let c := if file_size t <=? read_offset (task_at c i)
           then set_current (upd_task c i (fun t => t <| reads_done := true |>)) (S i) else c in
  let '(e, c) := submit c (fd t) k (read_offset t) chunk in
  if negb (e =? 0) then
    upd_task (free_slot (set_error c (- e) (SubmitFailed (path t))) k) i (fun t => t <| read_offset := read_offset t - chunk |>)
  else add_active c i 1.

(** [fuel] bounds the recursive calls, each of which follows the end of a task. *)
Fixpoint submit_next_read (fuel : nat) c (k : nat) : hash_ctx_t :=
  match fuel with
  | O => c
  | S fuel =>
      let l := tasks (queue c) in
      match find_reader (List.length l) l (current (queue c)) with
      | None => c
      | Some i =>
          if fd (task_at c i) <? 0 then
            match open_task c i with
            | (false, c) =>
                let c := complain c (CannotOpen (path (task_at c i))) in
                let c := upd_task c i (fun t => t <| reads_done := true |> <| done := true |>) in
                let c := upd_queue c (fun q => q <| completed_files := completed_files q + 1 |>) in
                submit_next_read fuel (set_current c (S i)) k
            | (true, c) =>
                if file_size (task_at c i) =? 0 then
                  let c := upd_task c i (fun t => t <| reads_done := true |>) in
                  submit_next_read fuel (set_current (complete_task c i) (S i)) k
                else submit_read c i k
            end
          else submit_read c i k
      end
  end.

Definition next_read c (k : nat) : hash_ctx_t := submit_next_read (S (List.length (tasks (queue c)))) c k.

Definition all_tasks_done c : bool := forallb done (tasks (queue c)).

(** The first batch stops at the first error or interrupt; the refill skips
    busy slots. *)
Fixpoint first_batch c (k n : nat) : hash_ctx_t :=
  match n with
  | O => c
  | S n =>
      if negb (error c =? 0) then c
      else let '(stop, c) := g_interrupted c in
           if stop then c else first_batch (next_read c k) (S k) n
  end.

Fixpoint refill c (k n : nat) : hash_ctx_t :=
  match n with
  | O => c
  | S n =>
      if decide (state (slot_at c k) = BUF_FREE) then
        if negb (error c =? 0) then refill c (S k) n
        else let '(stop, c) := g_interrupted c in
             refill (if stop then c else next_read c k) (S k) n
      else refill c (S k) n
  end.

(** [Returned] with [ctx->error], a [NULL] task dereferenced, or still running
    after [fuel] iterations. *)
Inductive outcome := Returned (err : Z) (c : hash_ctx_t) | NullTask | Running (c : hash_ctx_t).

Fixpoint drain (fuel : nat) c : outcome :=
  if active_ops c <=? 0 then Returned (error c) c
  else match fuel with
       | O => Running c
       | S fuel => match aura_wait c with None => NullTask | Some (_, c) => drain fuel c end
       end.

Definition wait_failed (n : Z) : bool :=
  (n <? 0) && negb (n =? - EINTR_CODE) && negb (n =? - ETIME_CODE) && negb (n =? - ETIMEDOUT_CODE).

(** The main loop, then the drain. *)
Fixpoint main_loop (fuel : nat) c : outcome :=
  if all_tasks_done c || negb (error c =? 0) then drain fuel c
  else
    let '(stop, c) := g_interrupted c in
    if stop then drain fuel c
    else match fuel with
         | O => Running c
         | S fuel =>
             match aura_wait c with
             | None => NullTask
             | Some (n, c) =>
                 if wait_failed n then drain fuel (if error c =? 0 then c <| error := n |> else c)
                 else main_loop fuel (refill c 0 (pipeline_depth cfg))
             end
         end.

Definition hash_pipeline (fuel : nat) c : outcome :=
  main_loop fuel (first_batch c 0 (pipeline_depth cfg)).

End Hash.
