(* ===== verification/HashSpec.v ===== *)
(** * The state of a hashing pipeline

    The invariant of [HashPipe.hash_pipeline] against a kernel that answers reads
    in full: the slots of a file hold consecutive pieces of it, from the bytes
    already in its digest to the offset of the next read. *)
From Stdlib Require Import ZArith Lia List String.
From stdpp Require Import base tactics strings list gmap.
From S2P Require Import Prelude Client HashPipe.

#[local] Open Scope Z_scope.
#[local] Arguments zlen : simpl never.
#[local] Arguments pread : simpl never.

(** ** Pieces of a file *)

Lemma take_pread (l : list Z) h n : 0 <= h -> 0 <= n -> take (Z.to_nat h) l ++ pread l h n = take (Z.to_nat (h + n)) l.
Proof.
  intros Hh Hn. unfold pread. rewrite Z2Nat.inj_add by done. rewrite <- (take_drop (Z.to_nat h) l) at 3.
  destruct (decide (Z.to_nat h <= length l)%nat).
  - rewrite take_app_add'; [done|]. rewrite length_take. lia.
  - rewrite (drop_ge l) by lia. rewrite take_nil, !app_nil_r, !take_take. f_equal. lia.
Qed.

Lemma pread_clip (l : list Z) off n m : 0 <= off -> off + n <= zlen l -> n <= m -> pread l off (Z.min m n) = pread l off n /\ (0 <= n -> zlen (pread l off n) = n).
Proof. intros Ho Hl Hm. rewrite Z.min_r by done. split; [done|]. intros. rewrite zlen_pread by done. lia. Qed.

Section Chain.
Context (S : list buf_slot_t) (i : nat).

(** Slot [k] holds, or will hold, [len] bytes of task [i] from [off] on. *)
Definition holds (k : nat) (off len : Z) : Prop := exists s, S !! k = Some s /\ task s = Some i /\ offset s = off /\ bytes s = len.

(** The slots of [l] cover the bytes from [h] to [r] in order. *)
Fixpoint chain (h : Z) (l : list nat) (r : Z) : Prop :=
  match l with [] => h = r | k :: l => exists len, holds k h len /\ 0 < len /\ chain (h + len) l r end.

Lemma holds_fun k o1 n1 o2 n2 : holds k o1 n1 -> holds k o2 n2 -> o1 = o2 /\ n1 = n2.
Proof. intros (s & Hs & _ & <- & <-) (s' & Hs' & _ & <- & <-). split; congruence. Qed.

Lemma chain_snoc k r len : holds k r len -> 0 < len -> forall l h, chain h l r -> chain h (l ++ [k]) (r + len).
Proof.
  intros Hk Hl. induction l as [|x l IH]; intros h; cbn.
  - intros ->. by exists len.
  - intros (n & Hx & Hn & Hc). exists n. auto.
Qed.

Lemma chain_bounds l : forall h r, chain h l r -> h <= r /\ (l <> [] -> h < r).
Proof. induction l as [|x l IH]; intros h r; cbn; [by intros ->|]. intros (n & _ & Hn & Hc). apply IH in Hc. split; [|intros _]; lia. Qed.

Lemma chain_mem k l : forall h r, chain h l r -> k ∈ l -> exists off len, holds k off len /\ h <= off /\ 0 < len /\ off + len <= r.
Proof.
  induction l as [|x l IH]; intros h r; cbn; [by intros _ ?%elem_of_nil|]. intros (n & Hx & Hn & Hc) [->|Hk]%elem_of_cons.
  - exists h, n. apply chain_bounds in Hc. split; [done|lia].
  - destruct (IH _ _ Hc Hk) as (o & m & ? & ? & ? & ?). exists o, m. split; [done|lia].
Qed.

(** The slot that starts at [h] is the first one. *)
Lemma pieces_head k l h r len : chain h l r -> k ∈ l -> holds k h len -> exists l', l = k :: l' /\ 0 < len /\ chain (h + len) l' r.
Proof.
  destruct l as [|x l]; cbn; [by intros _ ?%elem_of_nil|]. intros (n & Hx & Hn & Hc) Hk Hh.
  destruct (decide (k = x)) as [->|Hne].
  - destruct (holds_fun _ _ _ _ _ Hx Hh) as [_ ->]. by exists l.
  - apply elem_of_cons in Hk as [?|Hk]; [done|]. destruct (chain_mem _ _ _ _ Hc Hk) as (o & m & Ho & ? & _).
    destruct (holds_fun _ _ _ _ _ Ho Hh). lia.
Qed.
End Chain.

Lemma pieces_ext S S' i l : forall h r, (forall k off len, k ∈ l -> holds S i k off len -> holds S' i k off len) -> chain S i h l r -> chain S' i h l r.
Proof.
  induction l as [|x l IH]; intros h r H; cbn; [done|]. intros (n & Hx & Hn & Hc). exists n.
  split; [apply H; [left|done]|]. split; [done|]. apply IH; [|done]. intros k off len Hk. apply H. by right.
Qed.

(** ** The invariant *)

Section Spec.
Context {V : Evp} {E : ClientEnv} (cfg : config_t) (fs : gmap string (list Z)) (ps : list string).
Implicit Types (c : hash_ctx_t) (t : file_task_t) (s : buf_slot_t).

(** Path and content of the [i]th file. *)
Definition name_of (i : nat) : string := nth i ps ""%string.
Definition data_of (i : nat) : list Z := default [] (fs !! name_of i).
Definition line_of (i : nat) : string := digest_line (md_final (md_update md_init (data_of i))) (name_of i).

Definition slot_ok (os : list io_op) (k : nat) s : Prop :=
  match state s with
  | BUF_FREE => task s = None
  | BUF_READING => bytes s <= chunk_size cfg /\ exists i o, task s = Some i /\ (i < length ps)%nat /\ o ∈ os /\ op_slot o = k
  | BUF_DONE => exists i, task s = Some i /\ (i < length ps)%nat /\ pread (buf s) 0 (bytes s) = pread (data_of i) (offset s) (bytes s)
  end.

Definition op_ok c (o : io_op) : Prop :=
  exists s i, slots c !! op_slot o = Some s /\ state s = BUF_READING /\ task s = Some i /\ op_off o = offset s /\ op_len o = bytes s /\
    op_file o = Some (name_of i).

Record task_ok (S : list buf_slot_t) (i : nat) t : Prop := {
  k_path : path t = name_of i;
  k_size : file_size t = zlen (data_of i);
  k_md : md_ctx t = md_update md_init (take (Z.to_nat (hash_offset t)) (data_of i)) /\ bytes_hashed t = hash_offset t;
  k_range : 0 <= hash_offset t /\ read_offset t <= file_size t;
  k_chain : exists l, NoDup l /\ chain S i (hash_offset t) l (read_offset t) /\ t_active_ops t = Z.of_nat (length l) /\
    forall k s, S !! k = Some s -> task s = Some i -> k ∈ l;
  k_done : done t = true -> reads_done t = true /\ t_active_ops t = 0 /\ fd t < 0;
  k_more : reads_done t = false -> if fd t <? 0 then read_offset t = 0 else read_offset t < file_size t
}.

(** Nothing is left to do for task [i]: no slot holds the bytes its digest waits
    for, and its digest is printed when all reads are in. *)
Definition quiet c (i : nat) t : Prop :=
  (forall k s, slots c !! k = Some s -> state s = BUF_DONE -> task s = Some i -> offset s <> hash_offset t) /\
  (reads_done t = true -> t_active_ops t = 0 -> error c = 0 -> done t = true).

(** Standard output and error while nothing has failed but opening files. *)
Definition out_ok c : Prop :=
  exists F G, stdout c = line_of <$> F /\ stderr c = (fun i => CannotOpen (name_of i)) <$> G /\ NoDup (F ++ G) /\
    forall i, i ∈ F ++ G <-> exists t, tasks (queue c) !! i = Some t /\ done t = true.

(** [ex] is a task whose completions are being processed. *)
Record inv (ex : option nat) c : Prop := {
  v_files : files c = fs;
  v_count : length (tasks (queue c)) = length ps;
  v_depth : length (slots c) = pipeline_depth cfg;
  v_task : forall i t, tasks (queue c) !! i = Some t -> task_ok (slots c) i t;
  v_slot : forall k s, slots c !! k = Some s -> slot_ok (ops c) k s;
  v_op : forall o, o ∈ ops c -> op_ok c o;
  v_ops : NoDup (op_slot <$> ops c);
  v_active : active_ops c = zsum (t_active_ops <$> tasks (queue c));
  v_fds : forall i t, tasks (queue c) !! i = Some t -> 0 <= fd t -> fds c !! fd t = Some (path t);
  v_apart : forall i j t t', tasks (queue c) !! i = Some t -> tasks (queue c) !! j = Some t' -> 0 <= fd t -> fd t = fd t' -> i = j;
  v_quiet : forall i t, tasks (queue c) !! i = Some t -> ex <> Some i -> quiet c i t;
  v_ended : error c = 0 -> forall i t, tasks (queue c) !! i = Some t -> reads_done t = true -> done t = true \/ read_offset t = file_size t;
  v_current : forall i t, tasks (queue c) !! i = Some t -> (i < current (queue c))%nat -> reads_done t = true;
  v_out : error c = 0 -> out_ok c
}.

(** ** What a step on task [i] leaves alone *)

Record frame (i : nat) c c' : Prop := {
  f_files : files c' = files c;
  f_count : length (tasks (queue c')) = length (tasks (queue c));
  f_depth : length (slots c') = length (slots c);
  f_tasks : forall j, j <> i -> tasks (queue c') !! j = tasks (queue c) !! j;
  f_slots : forall j k s, j <> i -> task s = Some j -> slots c' !! k = Some s <-> slots c !! k = Some s;
  f_error : error c <> 0 -> error c' <> 0
}.

Lemma frame_task c c' i j t : frame i c c' -> j <> i -> task_ok (slots c) j t -> task_ok (slots c') j t.
Proof.
  intros F Hj [? ? ? ? (l & N & C & A & O) ? ?]. split; try done. exists l. split; [done|]. split.
  - eapply pieces_ext; [|done]. intros k off len _ (s & Hs & Ht & H). exists s. split; [by apply (f_slots _ _ _ F j)|done].
  - split; [done|]. intros k s Hs Ht. apply (O k s); [by apply (f_slots _ _ _ F j)|done].
Qed.

Lemma frame_quiet c c' i j t : frame i c c' -> j <> i -> quiet c j t -> quiet c' j t.
Proof.
  intros F Hj [Q1 Q2]. split.
  - intros k s Hs Hd Ht. apply (Q1 k s); [by apply (f_slots _ _ _ F j)|done|done].
  - intros Hr Ha He. apply Q2; [done|done|]. destruct (decide (error c = 0)); [done|]. by destruct (f_error _ _ _ F n).
Qed.

Lemma frame_cell c c' i k s s' t t' :
  slots c !! k = Some s -> slots c' = <[k := s']> (slots c) -> (task s = None \/ task s = Some i) -> (task s' = None \/ task s' = Some i) ->
  tasks (queue c) !! i = Some t -> tasks (queue c') = <[i := t']> (tasks (queue c)) -> files c' = files c -> (error c <> 0 -> error c' <> 0) ->
  frame i c c'.
Proof.
  intros Hk Es Hs Hs' Hi Et Ef He. split; [done|by rewrite Et, length_insert|by rewrite Es, length_insert| | |done].
  - intros j Hj. by rewrite Et, list_lookup_insert_ne.
  - intros j k' x Hj Hx. rewrite Es. destruct (decide (k' = k)) as [->|Hne]; [|by rewrite list_lookup_insert_ne].
    rewrite list_lookup_insert_eq by (by eapply lookup_lt_Some). rewrite Hk.
    split; intros [= ->]; rewrite Hx in *; destruct Hs, Hs'; congruence.
Qed.

Lemma frame_only c c' i t t' :
  slots c' = slots c -> tasks (queue c) !! i = Some t -> tasks (queue c') = <[i := t']> (tasks (queue c)) -> files c' = files c ->
  (error c <> 0 -> error c' <> 0) -> frame i c c'.
Proof.
  intros Es Hi Et Ef He. split; [done|by rewrite Et, length_insert|by rewrite Es| | |done].
  - intros j Hj. by rewrite Et, list_lookup_insert_ne.
  - intros. by rewrite Es.
Qed.

(** ** A step on one task *)

Definition fds_ok c : Prop :=
  (forall i t, tasks (queue c) !! i = Some t -> 0 <= fd t -> fds c !! fd t = Some (path t)) /\
  (forall i j t t', tasks (queue c) !! i = Some t -> tasks (queue c) !! j = Some t' -> 0 <= fd t -> fd t = fd t' -> i = j).

(** The tasks before [current] need no more reads. *)
Definition current_ok c : Prop :=
  forall i t, tasks (queue c) !! i = Some t -> (i < current (queue c))%nat -> reads_done t = true.

Record requests_ok c : Prop := {
  r_slot : forall k s, slots c !! k = Some s -> slot_ok (ops c) k s;
  r_op : forall o, o ∈ ops c -> op_ok c o;
  r_ops : NoDup (op_slot <$> ops c)
}.

Lemma inv_step ex c c' i t t' :
  inv ex c -> ex = None \/ ex = Some i -> frame i c c' ->
  tasks (queue c) !! i = Some t -> tasks (queue c') = <[i := t']> (tasks (queue c)) ->
  task_ok (slots c') i t' -> requests_ok c' -> active_ops c' = active_ops c + (t_active_ops t' - t_active_ops t) ->
  fds_ok c' -> current_ok c' -> (error c' = 0 -> reads_done t' = true -> done t' = true \/ read_offset t' = file_size t') ->
  (error c' = 0 -> out_ok c') ->
  inv (Some i) c'.
Proof.
  intros I Hex F Hi Et Hk [R1 R2 R3] Ha [F1 F2] Hc He Ho. pose proof (lookup_lt_Some _ _ _ Hi) as Hlt.
  assert (forall j u, tasks (queue c') !! j = Some u -> j = i /\ u = t' \/ j <> i /\ tasks (queue c) !! j = Some u) as Hcase.
  { intros j u. rewrite Et. destruct (decide (j = i)) as [->|Hj]; [rewrite list_lookup_insert_eq by done; intros [= <-]; by left|].
    rewrite list_lookup_insert_ne by done. by right. }
  split; try done.
  - rewrite (f_files _ _ _ F). apply I.
  - rewrite (f_count _ _ _ F). apply I.
  - rewrite (f_depth _ _ _ F). apply I.
  - intros j u Hj. destruct (Hcase j u Hj) as [[-> ->]|[Hne Hu]]; [done|]. eapply frame_task; [done..|]. by apply (v_task _ _ I).
  - rewrite Ha, (v_active _ _ I), Et, list_fmap_insert, zsum_insert by (by rewrite length_fmap).
    rewrite (nth_lookup_Some _ _ _ (t_active_ops t)); [lia|]. by rewrite list_lookup_fmap, Hi.
  - intros j u Hj Hne. destruct (Hcase j u Hj) as [[-> ->]|[Hji Hu]]; [done|]. eapply frame_quiet; [done..|].
    apply (v_quiet _ _ I); [done|]. destruct Hex as [->| ->]; congruence.
  - intros E0 j u Hj. destruct (Hcase j u Hj) as [[-> ->]|[Hji Hu]]; [by apply He|]. apply (v_ended _ _ I) with j; [|done].
    destruct (decide (error c = 0)) as [|n]; [done|]. by destruct (f_error _ _ _ F n).
Qed.

(** What [inv_step] needs about descriptors, when they stay. *)
Lemma fds_keep c c' i t t' : fds_ok c -> tasks (queue c) !! i = Some t -> tasks (queue c') = <[i := t']> (tasks (queue c)) ->
  fds c' = fds c -> fd t' = fd t -> path t' = path t -> fds_ok c'.
Proof.
  intros [F1 F2] Hi Et Ef Hfd Hp. pose proof (lookup_lt_Some _ _ _ Hi) as Hlt.
  assert (forall j u, tasks (queue c') !! j = Some u -> exists u0, tasks (queue c) !! j = Some u0 /\ fd u = fd u0 /\ path u = path u0) as Hcase.
  { intros j u. rewrite Et. destruct (decide (j = i)) as [->|Hj].
    - rewrite list_lookup_insert_eq by done. intros [= <-]. by exists t.
    - rewrite list_lookup_insert_ne by done. by exists u. }
  split.
  - intros j u Hj Hf. destruct (Hcase j u Hj) as (u0 & H0 & Eu & Ep). rewrite Ef, Eu, Ep in *. by apply (F1 j).
  - intros j j' u u' Hj Hj' Hf Hu. destruct (Hcase j u Hj) as (u0 & H0 & Eu & _), (Hcase j' u' Hj') as (u1 & H1 & Eu' & _).
    apply (F2 j j' u0 u1); congruence.
Qed.

Lemma current_keep c c' i t t' : current_ok c -> tasks (queue c) !! i = Some t -> tasks (queue c') = <[i := t']> (tasks (queue c)) ->
  current (queue c') = current (queue c) -> (reads_done t = true -> reads_done t' = true) -> current_ok c'.
Proof.
  intros C Hi Et Ec Hr j u Hj Hlt. rewrite Et in Hj. rewrite Ec in Hlt. destruct (decide (j = i)) as [->|Hne].
  - rewrite list_lookup_insert_eq in Hj by (by eapply lookup_lt_Some). injection Hj as <-. by apply Hr, (C i).
  - rewrite list_lookup_insert_ne in Hj by done. by apply (C j).
Qed.

Lemma out_keep c c' i t t' : out_ok c -> tasks (queue c) !! i = Some t -> tasks (queue c') = <[i := t']> (tasks (queue c)) ->
  done t' = done t -> stdout c' = stdout c -> stderr c' = stderr c -> out_ok c'.
Proof.
  intros (F & G & O1 & O2 & O3 & O4) Hi Et Ed E1 E2. exists F, G. rewrite E1, E2. repeat (split; [done|]). intros j. rewrite O4, Et.
  destruct (decide (j = i)) as [->|Hne]; [|by rewrite list_lookup_insert_ne].
  rewrite Hi, list_lookup_insert_eq by (by eapply lookup_lt_Some).
  split; intros (u & [= <-] & Hd); [exists t'|exists t]; split; congruence.
Qed.

(** One more file is done. *)
Lemma done_add c c' i t t' (H H' : list nat) : NoDup H -> (forall j, j ∈ H <-> exists u, tasks (queue c) !! j = Some u /\ done u = true) ->
  tasks (queue c) !! i = Some t -> done t = false -> tasks (queue c') = <[i := t']> (tasks (queue c)) -> done t' = true -> H' ≡ₚ i :: H ->
  NoDup H' /\ forall j, j ∈ H' <-> exists u, tasks (queue c') !! j = Some u /\ done u = true.
Proof.
  intros Nd Hm Hi Hnd Et Hd Hp. assert (i ∉ H) as Hni by (intros (u & Hu & Hdu)%Hm; congruence). split.
  - rewrite Hp. by constructor.
  - intros j. rewrite Hp, elem_of_cons, Hm, Et. destruct (decide (j = i)) as [->|Hne].
    + rewrite list_lookup_insert_eq by (by eapply lookup_lt_Some). split; [|by left]. intros _. by exists t'.
    + rewrite list_lookup_insert_ne by done. split; [by intros [?|?]|by right].
Qed.

Lemma inv_fds ex c : inv ex c -> fds_ok c.
Proof. intros I. split; apply I. Qed.

Lemma inv_weaken ex c i : inv ex c -> ex = None -> inv (Some i) c.
Proof. intros [] ->. split; auto. Qed.

(** The task has become quiet again. *)
Lemma inv_settle c i : inv (Some i) c -> (forall t, tasks (queue c) !! i = Some t -> quiet c i t) -> inv None c.
Proof.
  intros [] Hq. split; try done. intros j t Hj _. destruct (decide (j = i)) as [->|Hne]; [by apply Hq|]. apply v_quiet0; [done|congruence].
Qed.

(** ** Bytes not read yet *)

Definition left_of t : Z := if reads_done t then 0 else file_size t - read_offset t.
Definition remaining c : Z := zsum (left_of <$> tasks (queue c)).

Lemma remaining_upd c c' i t t' : tasks (queue c) !! i = Some t -> tasks (queue c') = <[i := t']> (tasks (queue c)) ->
  remaining c' = remaining c + (left_of t' - left_of t).
Proof.
  intros Hi Et. pose proof (lookup_lt_Some _ _ _ Hi). unfold remaining. rewrite Et, list_fmap_insert, zsum_insert by (by rewrite length_fmap).
  rewrite (nth_lookup_Some _ _ _ (left_of t)); [lia|]. by rewrite list_lookup_fmap, Hi.
Qed.

(** Nothing that concerns the loops changes. *)
Record still c c' : Prop := {
  s_ops : ops c' = ops c;
  s_error : error c' = error c;
  s_now : now c' = now c;
  s_remaining : remaining c' = remaining c
}.

Lemma still_refl c : still c c.
Proof. by split. Qed.

Lemma still_steps c1 c2 c3 : still c1 c2 -> still c2 c3 -> still c1 c3.
Proof. intros [] []. split; congruence. Qed.

(** ** Views of the updates *)

Lemma task_at_is c i t : tasks (queue c) !! i = Some t -> task_at c i = t.
Proof. apply nth_lookup_Some. Qed.

Lemma slot_at_is c k s : slots c !! k = Some s -> slot_at c k = s.
Proof. apply nth_lookup_Some. Qed.

Lemma alter_lookup {A} (f : A -> A) (l : list A) i x : l !! i = Some x -> alter f i l = <[i := f x]> l.
Proof. intros H. rewrite (alter_at f i l x). by rewrite (nth_lookup_Some _ _ _ _ H). Qed.

Lemma requests_cell c c' k s s' : requests_ok c -> slots c !! k = Some s -> state s <> BUF_READING -> slots c' = <[k := s']> (slots c) ->
  ops c' = ops c -> slot_ok (ops c) k s' -> requests_ok c'.
Proof.
  intros [R1 R2 R3] Hk Hs Es Eo Hs'. split.
  - intros k' x. rewrite Es, Eo. destruct (decide (k' = k)) as [->|Hne].
    + rewrite list_lookup_insert_eq by (by eapply lookup_lt_Some). by intros [= <-].
    + rewrite list_lookup_insert_ne by done. apply R1.
  - intros o. rewrite Eo. intros Ho. destruct (R2 o Ho) as (x & j & Hx & Hr & Hrest). exists x, j. split; [|done].
    rewrite Es, list_lookup_insert_ne; [done|]. intros ->. congruence.
  - by rewrite Eo.
Qed.

Lemma inv_requests ex c : inv ex c -> requests_ok c.
Proof. intros I. split; apply I. Qed.

(** The pieces of task [i] when slot [k] no longer belongs to it. *)
Lemma chain_drop S i (k : nat) s' (l : list nat) h r : ~ k ∈ l -> chain S i h l r -> chain (<[k := s']> S) i h l r.
Proof.
  intros Hk. apply pieces_ext. intros k' off len Hk' (s & Hs & H). exists s. split; [|done].
  rewrite list_lookup_insert_ne; [done|]. by intros ->.
Qed.

Lemma owned_drop (S : list buf_slot_t) i (k : nat) s' (l : list nat) : (forall k s, S !! k = Some s -> task s = Some i -> k ∈ l) -> task s' = None ->
  forall k' s, <[k := s']> S !! k' = Some s -> task s = Some i -> k' <> k /\ k' ∈ l.
Proof.
  intros O Hn k' s Hs Ht. destruct (decide (k' = k)) as [->|Hne].
  - rewrite list_lookup_insert_eq in Hs; [congruence|]. apply lookup_lt_Some in Hs. by rewrite length_insert in Hs.
  - rewrite list_lookup_insert_ne in Hs by done. split; [done|by eapply O].
Qed.

(** ** Feeding the digest *)

Definition fed t s : file_task_t :=
  t <| md_ctx := md_update (md_ctx t) (pread (buf s) 0 (bytes s)) |> <| bytes_hashed := bytes_hashed t + bytes s |>
    <| hash_offset := hash_offset t + bytes s |> <| t_active_ops := t_active_ops t + -1 |>.

Lemma feed_view c i k t s : tasks (queue c) !! i = Some t -> slots c !! k = Some s ->
  tasks (queue (feed c i k)) = <[i := fed t s]> (tasks (queue c)) /\
  slots (feed c i k) = <[k := s <| state := BUF_FREE |> <| task := None |>]> (slots c).
Proof.
  intros Hi Hk. unfold feed. rewrite (slot_at_is _ _ _ Hk). cbn. split; [|by rewrite (alter_lookup _ _ _ _ Hk)].
  rewrite (alter_lookup _ _ _ _ Hi). erewrite alter_lookup by (by apply list_lookup_insert_eq; eapply lookup_lt_Some).
  by rewrite list_insert_insert_eq.
Qed.

Lemma feed_ok `{!EvpLaws V} c i k t s : inv (Some i) c -> tasks (queue c) !! i = Some t -> slots c !! k = Some s ->
  state s = BUF_DONE -> task s = Some i -> offset s = hash_offset t -> inv (Some i) (feed c i k) /\ still c (feed c i k).
Proof.
  intros I Hi Hk Hd Ht Ho. destruct (feed_view c i k t s Hi Hk) as [Et Es]. set (c' := feed c i k) in *.
  pose proof (v_task _ _ I i t Hi) as [T1 T2 [T3 T3'] [T4 T4'] (l & N & C & A & O) T6 T7].
  assert (holds (slots c) i k (hash_offset t) (bytes s)) as Hh by (by exists s).
  destruct (pieces_head _ _ _ _ _ _ _ C (O k s Hk Ht) Hh) as (l' & -> & Hpos & C'). apply NoDup_cons in N as [Nk N].
  pose proof (v_slot _ _ I k s Hk) as Sk. unfold slot_ok in Sk. rewrite Hd in Sk. destruct Sk as (i' & Ei & Hi' & Hdata).
  assert (i' = i) as -> by congruence. rewrite Ho in Hdata. split.
  2:{ split; try done. rewrite (remaining_upd c c' i t (fed t s) Hi Et). unfold left_of, fed. cbn. lia. }
  eapply (inv_step (Some i) c c' i t (fed t s)); try done; [by right|..].
  - eapply frame_cell; try done; [by right|by left].
  - rewrite Es. split; cbn; try done.
    + split; [|lia]. rewrite T3, Hdata, md_update_app, take_pread by lia. done.
    + apply chain_bounds in C'. lia.
    + exists l'. split; [done|]. split; [by apply chain_drop|]. split; [cbn in A; lia|].
      intros k' x Hx Hx'. eapply owned_drop in Hx as [Hne Hin]; [|exact O|done|done]. by apply elem_of_cons in Hin as [->|].
    + intros Hdn. destruct (T6 Hdn) as (? & ? & ?). cbn in A. lia.
  - eapply requests_cell; [by eapply inv_requests|done|by rewrite Hd|done|done|done].
  - cbn. lia.
  - eapply (fds_keep c); [by eapply inv_fds|done..].
  - eapply (current_keep c); [exact (v_current _ _ I)|done..].
  - cbn. intros E0 Hr. by apply (v_ended _ _ I E0 i).
  - intros E0. eapply (out_keep c); [by apply (v_out _ _ I)|done..].
Qed.

(** ** Draining *)

Lemma find_done_some l i off : forall k k', find_done l k i off = Some k' ->
  (k <= k')%nat /\ exists s, l !! (k' - k)%nat = Some s /\ state s = BUF_DONE /\ task s = Some i /\ offset s = off.
Proof.
  induction l as [|s l IH]; intros k k'; cbn; [done|].
  destruct (bool_decide_reflect (state s = BUF_DONE)) as [Hs|]; cbn.
  - destruct (bool_decide_reflect (task s = Some i)) as [Ht|]; cbn.
    + destruct (Z.eqb_spec (offset s) off) as [Ho|].
      * intros [= <-]. split; [done|]. exists s. by rewrite Nat.sub_diag.
      * intros H. apply IH in H as [Hle (x & Hx & ?)]. split; [lia|]. exists x. by replace (k' - k)%nat with (S (k' - S k)) by lia.
    + intros H. apply IH in H as [Hle (x & Hx & ?)]. split; [lia|]. exists x. by replace (k' - k)%nat with (S (k' - S k)) by lia.
  - intros H. apply IH in H as [Hle (x & Hx & ?)]. split; [lia|]. exists x. by replace (k' - k)%nat with (S (k' - S k)) by lia.
Qed.

Lemma find_done_none l i off : forall k, find_done l k i off = None ->
  forall j s, l !! j = Some s -> state s = BUF_DONE -> task s = Some i -> offset s <> off.
Proof.
  induction l as [|x l IH]; intros k; cbn; [done|]. intros H [|j] s; cbn.
  - intros [= <-] Hs Ht Ho. rewrite !bool_decide_eq_true_2, Ho, Z.eqb_refl in H by done. done.
  - apply (IH (S k)). by destruct (_ && _).
Qed.

(** The slots that hold bytes. *)
Definition dones c : nat := length (List.filter (fun s => bool_decide (state s = BUF_DONE)) (slots c)).

Lemma dones_free c c' k s s' : slots c !! k = Some s -> state s = BUF_DONE -> state s' = BUF_FREE -> slots c' = <[k := s']> (slots c) ->
  dones c = S (dones c').
Proof.
  intros Hk Hs Hs' Es. unfold dones. rewrite Es. clear Es. revert k Hk. induction (slots c) as [|x l IH]; intros k Hk; [done|].
  destruct k as [|k]; cbn in Hk |- *.
  - injection Hk as ->. by rewrite Hs, Hs'.
  - destruct (bool_decide _); cbn; by rewrite (IH k Hk).
Qed.

Lemma drain_loop_ok `{!EvpLaws V} i : forall fuel c, inv (Some i) c -> (i < length ps)%nat -> (dones c < fuel)%nat ->
  let c' := drain_loop cfg fuel c i in
  inv (Some i) c' /\ still c c' /\
  forall t k s, tasks (queue c') !! i = Some t -> slots c' !! k = Some s -> state s = BUF_DONE -> task s = Some i -> offset s <> hash_offset t.
Proof.
  induction fuel as [|fuel IH]; intros c I Hlt Hf; [lia|]. cbn [drain_loop].
  destruct (lookup_lt_is_Some_2 (tasks (queue c)) i) as [t Hi]; [by rewrite (v_count _ _ I)|].
  rewrite (task_at_is _ _ _ Hi), take_ge by (by rewrite (v_depth _ _ I)).
  destruct (find_done (slots c) 0 i (hash_offset t)) as [k|] eqn:Ef.
  - destruct (find_done_some _ _ _ _ _ Ef) as [_ (s & Hk & Hd & Ht & Ho)]. rewrite Nat.sub_0_r in Hk.
    destruct (feed_ok c i k t s I Hi Hk Hd Ht Ho) as [I1 S1]. destruct (feed_view c i k t s Hi Hk) as [_ Es].
    assert (dones c = S (dones (feed c i k))) as Hn by (by eapply dones_free; [..|exact Es]).
    destruct (IH (feed c i k) I1 Hlt ltac:(lia)) as (I2 & S2 & Q2). split; [done|]. split; [by eapply still_steps|done].
  - split; [done|]. split; [apply still_refl|]. intros t' k s Hi'. assert (t' = t) as -> by congruence.
    apply (find_done_none _ _ _ _ Ef).
Qed.

(** ** The end of a file *)

Definition ended t : file_task_t := t <| fd := -1 |> <| done := true |>.

Lemma complete_view c i t : tasks (queue c) !! i = Some t ->
  tasks (queue (complete_task c i)) = <[i := ended t]> (tasks (queue c)) /\ fds (complete_task c i) = delete (fd t) (fds c) /\
  stdout (complete_task c i) = stdout c ++ [digest_line (md_final (md_ctx t)) (path t)].
Proof.
  intros Hi. unfold complete_task, finalize_task, task_at. cbn. by rewrite (alter_lookup _ _ _ _ Hi), (nth_lookup_Some _ _ _ _ Hi).
Qed.

(** A digest is the one of the whole file when all its reads are in. *)
Lemma whole_digest c i t : task_ok (slots c) i t -> t_active_ops t = 0 -> read_offset t = file_size t ->
  digest_line (md_final (md_ctx t)) (path t) = line_of i.
Proof.
  intros [T1 T2 [T3 _] [T4 _] (l & _ & C & A & _) _ _] Ha Hr. destruct l; [|cbn in A; lia]. cbn in C.
  unfold line_of. rewrite T1, T3, C, Hr, T2. unfold zlen. by rewrite Nat2Z.id, firstn_all.
Qed.

Lemma file_complete_ok c i t : inv (Some i) c -> tasks (queue c) !! i = Some t -> reads_done t = true -> t_active_ops t = 0 -> done t = false ->
  inv None (complete_task c i) /\ still c (complete_task c i).
Proof.
  intros I Hi Hr Ha Hnd. destruct (complete_view c i t Hi) as (Et & Ef & Eo). pose proof (v_task _ _ I i t Hi) as T.
  assert (slots (complete_task c i) = slots c /\ ops (complete_task c i) = ops c /\ error (complete_task c i) = error c /\
    active_ops (complete_task c i) = active_ops c /\ current (queue (complete_task c i)) = current (queue c) /\
    stderr (complete_task c i) = stderr c /\ files (complete_task c i) = files c /\ now (complete_task c i) = now c) as (Es & Eops & Ee & Eact & Ec & Eerr & Efi & En) by done.
  set (c' := complete_task c i) in *. clearbody c'. pose proof (lookup_lt_Some _ _ _ Hi) as Hlt.
  destruct (inv_fds _ _ I) as [F1 F2]. split.
  2:{ split; try done. rewrite (remaining_upd c c' i t (ended t) Hi Et). unfold left_of, ended. cbn. rewrite Hr. lia. }
  apply inv_settle with i.
  2:{ intros t0. rewrite Et, list_lookup_insert_eq by done. intros [= <-]. split; [|done]. rewrite Es. intros k s Hk Hs Hts.
      destruct T as [_ _ _ _ (l & _ & _ & A & O) _ _]. specialize (O k s Hk Hts). destruct l; [by apply elem_of_nil in O|]. cbn in A. lia. }
  eapply (inv_step (Some i) c c' i t (ended t)); try done; [by right|..].
  - eapply frame_only; [done..|by rewrite Ee].
  - rewrite Es. destruct T as [T1 T2 T3 T4 T5 T6 T7]. split; try done. unfold ended. cbn. by rewrite Hr.
  - destruct (inv_requests _ _ I) as [R1 R2 R3]. split; rewrite ?Eops, ?Es; try done. intros o Ho. unfold op_ok. rewrite Es. by apply R2.
  - unfold ended. cbn. lia.
  - assert (forall j u, tasks (queue c') !! j = Some u -> 0 <= fd u -> j <> i /\ tasks (queue c) !! j = Some u) as Hcase.
    { intros j u. rewrite Et. destruct (decide (j = i)) as [->|Hj]; [rewrite list_lookup_insert_eq by done; intros [= <-]; cbn; lia|].
      rewrite list_lookup_insert_ne by done. done. }
    split.
    + intros j u Hj Hu. destruct (Hcase j u Hj Hu) as [Hne Hu0]. rewrite Ef, lookup_delete_ne; [by apply (F1 j)|].
      intros Efd. apply Hne. by apply (F2 j i u t).
    + intros j j' u u' Hj Hj' Hu Eu. destruct (Hcase j u Hj Hu) as [_ H0], (Hcase j' u' Hj' ltac:(lia)) as [_ H1]. by apply (F2 j j' u u').
  - eapply (current_keep c); [exact (v_current _ _ I)|done..].
  - cbn. by left.
  - rewrite Ee. intros E0. destruct (v_out _ _ I E0) as (F & G & O1 & O2 & O3 & O4). exists (F ++ [i]), G. split; [|split; [by rewrite Eerr|]].
    + rewrite Eo, O1, fmap_app. cbn. do 2 f_equal. destruct (v_ended _ _ I E0 i t Hi Hr) as [?|He]; [congruence|]. by eapply whole_digest.
    + eapply (done_add c c' i t (ended t)); try done. solve_Permutation.
Qed.

Lemma drain_completed_ok `{!EvpLaws V} c i : inv (Some i) c -> (i < length ps)%nat ->
  inv None (drain_completed cfg c i) /\ still c (drain_completed cfg c i).
Proof.
  intros I Hlt. unfold drain_completed. destruct (drain_loop_ok i (S (pipeline_depth cfg)) c I Hlt) as (I1 & S1 & Q).
  { unfold dones. rewrite <- (v_depth _ _ I). pose proof (filter_length_le (fun s => bool_decide (state s = BUF_DONE)) (slots c)). lia. }
  set (c1 := drain_loop _ _ _ _) in *. clearbody c1.
  destruct (lookup_lt_is_Some_2 (tasks (queue c1)) i) as [t Hi]; [by rewrite (v_count _ _ I1)|]. rewrite (task_at_is _ _ _ Hi).
  destruct (reads_done t && (t_active_ops t =? 0) && negb (done t)) eqn:Eb.
  - apply andb_prop in Eb as [[Hr Ha]%andb_prop Hd]. apply Z.eqb_eq in Ha. apply negb_true_iff in Hd.
    destruct (file_complete_ok c1 i t I1 Hi Hr Ha Hd) as [I2 S2]. split; [done|by eapply still_steps].
  - split; [|done]. eapply inv_settle; [done|]. intros t' Hi'. assert (t' = t) as -> by congruence. split; [intros k s; by apply Q|].
    intros Hr Ha _. rewrite Hr, Ha in Eb. cbn in Eb. by apply negb_false_iff in Eb.
Qed.

(** ** A completion *)

Lemma pread_own b d : pread (pwrite b 0 d) 0 (zlen d) = d.
Proof. unfold pread, pwrite, zlen. change (Z.to_nat 0) with 0%nat. rewrite take_0, drop_0, app_nil_l, Nat2Z.id. by apply take_app_length. Qed.

Definition delivered s (data : list Z) : buf_slot_t := s <| buf := pwrite (buf s) 0 data |> <| bytes := zlen data |> <| state := BUF_DONE |>.

(** The state in which [drain_completed] is called. *)
Definition arrived c (j k : nat) s (data : list Z) : hash_ctx_t :=
  c <| ops := delete j (ops c) |> <| slots := <[k := delivered s data]> (slots c) |>.

Lemma arrived_ok c j o s i : inv None c -> ops c !! j = Some o -> slots c !! op_slot o = Some s -> task s = Some i ->
  state s = BUF_READING -> forall t, tasks (queue c) !! i = Some t ->
  let data := pread (data_of i) (offset s) (bytes s) in
  inv (Some i) (arrived c j (op_slot o) s data) /\ 0 < zlen data /\ zlen data = bytes s.
Proof.
  intros I Hj Hk Ht Hs t Hi data. set (k := op_slot o) in *. pose proof (v_task _ _ I i t Hi) as [T1 T2 T3 T4 (l & N & C & A & O) T6 T7].
  destruct (chain_mem _ _ _ _ _ _ C (O k s Hk Ht)) as (off & len & Hh & Ho1 & Hpos & Ho2).
  assert (off = offset s /\ len = bytes s) as [-> ->] by (eapply holds_fun; [done|by exists s]).
  assert (zlen data = bytes s) as Hlen by (unfold data; rewrite zlen_pread by lia; lia). split; [|lia].
  set (s' := delivered s data). assert (task s' = Some i /\ offset s' = offset s /\ bytes s' = bytes s) as (E1 & E2 & E3) by done.
  pose proof (delete_Permutation _ _ _ Hj) as Hp. pose proof (v_ops _ _ I) as Nd. rewrite Hp in Nd. apply NoDup_cons in Nd as [Nk Nd].
  eapply (inv_step None c (arrived c j k s data) i t t); try done; [by left|..].
  - eapply (frame_cell c _ i k s s' t t); try done; [by right|by right|]. by rewrite list_insert_id.
  - cbn. by rewrite list_insert_id.
  - split; try done. exists l. split; [done|]. split; [|split; [done|]].
    + eapply pieces_ext; [|done]. intros k' o' n' _ (x & Hx & H). destruct (decide (k' = k)) as [->|Hne].
      * assert (x = s) as -> by congruence. exists s'. split; [by apply list_lookup_insert_eq; eapply lookup_lt_Some|]. destruct H as (? & ? & ?). repeat split; congruence.
      * exists x. split; [|done]. cbn. by rewrite list_lookup_insert_ne.
    + intros k' x. cbn. destruct (decide (k' = k)) as [->|Hne]; [intros _ _; by apply (O k s)|]. rewrite list_lookup_insert_ne by done. apply O.
  - split.
    + intros k' x. cbn. destruct (decide (k' = k)) as [->|Hne].
      * rewrite list_lookup_insert_eq by (by eapply lookup_lt_Some). intros [= <-]. exists i. split; [done|].
        split; [rewrite <- (v_count _ _ I); by eapply lookup_lt_Some|]. cbn. rewrite pread_own. unfold data at 1. by rewrite Hlen.
      * rewrite list_lookup_insert_ne by done. intros Hx. pose proof (v_slot _ _ I k' x Hx) as Sk. unfold slot_ok in *.
        destruct (state x); try done. destruct Sk as (Hb & i' & o' & ? & ? & Ho' & <-). split; [done|]. exists i', o'. repeat (split; [done|]).
        split; [|done]. rewrite Hp in Ho'. by apply elem_of_cons in Ho' as [->|].
    + intros o' Ho'. assert (o' ∈ ops c) as Ho by (rewrite Hp; by right). destruct (v_op _ _ I o' Ho) as (x & i' & Hx & Hrest). exists x, i'.
      split; [|done]. cbn. rewrite list_lookup_insert_ne; [done|]. intros Ek. apply Nk. cbn. fold k. rewrite Ek. apply list_elem_of_fmap_2. exact Ho'.
    + done.
  - cbn. lia.
  - eapply (fds_keep c); [by eapply inv_fds|done| |done..]. by rewrite list_insert_id.
  - eapply (current_keep c); [exact (v_current _ _ I)|done| |done..]. by rewrite list_insert_id.
  - cbn. intros E0 Hr. by apply (v_ended _ _ I E0 i).
  - intros E0. eapply (out_keep c); [by apply (v_out _ _ I)|done| |done..]. by rewrite list_insert_id.
Qed.

Lemma hash_op_ok `{!EvpLaws V} c j o limit : inv None c -> ops c !! j = Some o -> chunk_size cfg <= limit ->
  exists c', complete_op cfg c j (Transfer limit) = Some c' /\ inv None c' /\ ops c' = delete j (ops c) /\
    error c' = error c /\ now c' = now c /\ remaining c' = remaining c.
Proof.
  intros I Hj Hlim. assert (o ∈ ops c) as Ho by (by eapply list_elem_of_lookup_2).
  destruct (v_op _ _ I o Ho) as (s & i & Hk & Hs & Ht & Eo & El & Ef). pose proof (v_slot _ _ I _ s Hk) as Sk. unfold slot_ok in Sk. rewrite Hs in Sk.
  destruct Sk as (Hb & i' & _ & Ei & Hlt & _). assert (i' = i) as -> by congruence.
  destruct (lookup_lt_is_Some_2 (tasks (queue c)) i) as [t Hi]; [by rewrite (v_count _ _ I)|].
  destruct (arrived_ok c j o s i I Hj Hk Ht Hs t Hi) as (I1 & Hpos & Hlen). set (data := pread _ _ _) in *.
  destruct (drain_completed_ok _ i I1 Hlt) as [I2 [S1 S2 S3 S4]]. exists (drain_completed cfg (arrived c j (op_slot o) s data) i).
  split; [|done]. unfold complete_op, execute. rewrite Hj, Ef. cbn [files ops set_field hset_ops].
  rewrite (v_files _ _ I), Eo, El. fold (data_of i). rewrite Z.min_r by lia. fold data. unfold on_read_complete, slot_at, upd_slot.
  cbn [slots set_field hset_slots]. rewrite (alter_lookup _ _ _ _ Hk).
  rewrite (nth_lookup_Some _ _ _ (s <| buf := pwrite (buf s) 0 data |>)) by (by apply list_lookup_insert_eq; eapply lookup_lt_Some).
  cbn [task set_field hset_buf]. rewrite Ht. cbn [mbind option_bind]. destruct (Z.leb_spec (zlen data) 0); [lia|]. f_equal. f_equal.
  unfold arrived. cbn. erewrite alter_lookup by (by apply list_lookup_insert_eq; eapply lookup_lt_Some). by rewrite list_insert_insert_eq.
Qed.

(** ** A submission *)

Definition chunk_of t : Z := if file_size t <? read_offset t + chunk_size cfg then file_size t - read_offset t else chunk_size cfg.

Definition last_read t : bool := file_size t <=? read_offset t + chunk_of t.

Definition reading s t (i : nat) : buf_slot_t :=
  s <| offset := read_offset t |> <| bytes := chunk_of t |> <| state := BUF_READING |> <| task := Some i |>.

(** The task after the read was prepared. *)
Definition advanced t : file_task_t :=
  let t' := t <| read_offset := read_offset t + chunk_of t |> in if last_read t then t' <| reads_done := true |> else t'.

Definition request_of c t (k : nat) : io_op :=
  {| op_file := fds c !! fd t; op_slot := k; op_off := read_offset t; op_len := chunk_of t |}.

Definition prepared c (i k : nat) t s : hash_ctx_t :=
  c <| slots := <[k := reading s t i]> (slots c) |> <| now := S (now c) |>
    <| queue := (queue c) <| tasks := <[i := advanced t]> (tasks (queue c)) |>
                  <| current := if last_read t then S i else current (queue c) |> |>.

Lemma submit_read_view c i k t s : tasks (queue c) !! i = Some t -> slots c !! k = Some s ->
  submit_read cfg c i k =
    let c1 := prepared c i k t s in
    if ask_errno (now c) =? 0 then add_active (c1 <| ops := ops c ++ [request_of c t k] |>) i 1
    else upd_task (free_slot (set_error c1 (- ask_errno (now c)) (SubmitFailed (path t))) k) i (fun t' => t' <| read_offset := read_offset t' - chunk_of t |>).
Proof.
  intros Hi Hk. unfold submit_read. rewrite (task_at_is _ _ _ Hi). fold (chunk_of t).
  set (c0 := upd_task _ _ _).
  assert (c0 = c <| slots := <[k := reading s t i]> (slots c) |> <| queue := (queue c) <| tasks := <[i := t <| read_offset := read_offset t + chunk_of t |>]> (tasks (queue c)) |> |>) as ->.
  { unfold c0, upd_task, upd_queue, upd_slot. cbn. by rewrite (alter_lookup _ _ _ _ Hi), (alter_lookup _ _ _ _ Hk). }
  match goal with |- context [task_at ?x i] => rewrite (task_at_is x i (t <| read_offset := read_offset t + chunk_of t |>)) by (by apply list_lookup_insert_eq; eapply lookup_lt_Some) end.
  cbn [read_offset file_size set_field hset_read_offset]. fold (last_read t). set (c0 := if last_read t then _ else _).
  assert (submit c0 (fd t) k (read_offset t) (chunk_of t) =
    (ask_errno (now c), if ask_errno (now c) =? 0 then (prepared c i k t s) <| ops := ops c ++ [request_of c t k] |> else prepared c i k t s)) as ->.
  { assert (c0 <| now := S (now c) |> = prepared c i k t s) as E0.
    { unfold c0, prepared, advanced. destruct (last_read t); [|done]. unfold set_current, upd_task, upd_queue. cbn.
      erewrite alter_lookup by (by apply list_lookup_insert_eq; eapply lookup_lt_Some). by rewrite list_insert_insert_eq. }
    assert (now c0 = now c /\ ops c0 = ops c /\ fds c0 = fds c) as (E1 & E2 & E3) by (unfold c0; by destruct (last_read t)).
    unfold submit, sys. rewrite E1, E0. destruct (Z.eqb_spec (ask_errno (now c)) 0) as [->|]; [|done]. done. }
  cbn zeta. by destruct (ask_errno (now c) =? 0).
Qed.

Lemma chunk_pos t : reads_done t = false -> (if fd t <? 0 then read_offset t = 0 else read_offset t < file_size t) -> 0 <= fd t -> 0 < chunk_size cfg ->
  0 < chunk_of t <= chunk_size cfg /\ read_offset t + chunk_of t <= file_size t /\ (last_read t = true <-> read_offset t + chunk_of t = file_size t).
Proof.
  intros Hr Hm Hf Hc. destruct (Z.ltb_spec (fd t) 0); [lia|]. unfold last_read, chunk_of.
  destruct (Z.ltb_spec (file_size t) (read_offset t + chunk_size cfg)); rewrite Z.leb_le; lia.
Qed.

Lemma advanced_fields t : path (advanced t) = path t /\ file_size (advanced t) = file_size t /\ fd (advanced t) = fd t /\
  read_offset (advanced t) = read_offset t + chunk_of t /\ hash_offset (advanced t) = hash_offset t /\ t_active_ops (advanced t) = t_active_ops t /\
  reads_done (advanced t) = (if last_read t then true else reads_done t) /\ done (advanced t) = done t /\ md_ctx (advanced t) = md_ctx t /\
  bytes_hashed (advanced t) = bytes_hashed t.
Proof. unfold advanced. destruct (last_read t); repeat split. Qed.

#[local] Arguments advanced : simpl never.
#[local] Arguments last_read : simpl never.
#[local] Arguments chunk_of : simpl never.

(** The slot of an accepted read joins the pieces of its file. *)
Lemma reading_task (S : list buf_slot_t) i k t s : task_ok S i t -> S !! k = Some s -> task s = None ->
  reads_done t = false -> 0 <= fd t -> 0 < chunk_size cfg ->
  task_ok (<[k := reading s t i]> S) i ((advanced t) <| t_active_ops := t_active_ops t + 1 |>).
Proof.
  intros [T1 T2 T3 T4 (l & N & C & A & O) T6 T7] Hk Hs Hr Hf Hc. destruct (chunk_pos t Hr (T7 Hr) Hf Hc) as (Hpos & Hle & Hlast).
  destruct (advanced_fields t) as (A1 & A2 & A3 & A4 & A5 & A6 & A7 & A8 & A9 & A10).
  assert (k ∉ l) as Hkl by (intros Hin; destruct (chain_mem _ _ _ _ _ _ C Hin) as (? & ? & (x & Hx & Hx' & _) & _); congruence).
  split; cbn; rewrite ?A1, ?A2, ?A3, ?A4, ?A5, ?A7, ?A8, ?A9, ?A10; try done.
  - lia.
  - exists (l ++ [k]). split; [|split; [|split]].
    + apply NoDup_app. split; [done|]. split; [|apply NoDup_singleton]. by intros x Hx ->%list_elem_of_singleton.
    + apply chain_snoc; [|lia|by apply chain_drop]. exists (reading s t i). by rewrite list_lookup_insert_eq by (by eapply lookup_lt_Some).
    + rewrite length_app. cbn. lia.
    + intros k' x Hx Hx'. apply elem_of_app. destruct (decide (k' = k)) as [->|Hne]; [right; by left|left].
      rewrite list_lookup_insert_ne in Hx by done. by eapply O.
  - intros Hd. destruct (T6 Hd). congruence.
  - destruct (last_read t) eqn:El; [done|]. intros _. destruct (Z.ltb_spec (fd t) 0); [lia|]. destruct Hlast as [_ Hlast].
    destruct (decide (read_offset t + chunk_of t = file_size t)) as [E0|]; [by apply Hlast in E0|lia].
Qed.

Definition accepted c i k t s : hash_ctx_t := add_active ((prepared c i k t s) <| ops := ops c ++ [request_of c t k] |>) i 1.

Lemma accepted_ok c i k t s : inv None c -> 0 < chunk_size cfg -> tasks (queue c) !! i = Some t -> slots c !! k = Some s ->
  state s = BUF_FREE -> reads_done t = false -> 0 <= fd t -> (forall j u, tasks (queue c) !! j = Some u -> (j < i)%nat -> reads_done u = true) ->
  inv None (accepted c i k t s) /\ remaining (accepted c i k t s) + 1 <= remaining c.
Proof.
  intros I Hc Hi Hk Hs Hr Hf Hbefore. pose proof (v_task _ _ I i t Hi) as T. destruct (chunk_pos t Hr (k_more _ _ _ T Hr) Hf Hc) as (Hpos & Hle & Hlast).
  pose proof (v_slot _ _ I k s Hk) as Sk. unfold slot_ok in Sk. rewrite Hs in Sk. pose proof (lookup_lt_Some _ _ _ Hi) as Hlt.
  pose proof (lookup_lt_Some _ _ _ Hk) as Hltk. destruct (advanced_fields t) as (A1 & A2 & A3 & A4 & A5 & A6 & A7 & A8 & A9 & A10).
  set (t' := (advanced t) <| t_active_ops := t_active_ops t + 1 |>).
  assert (tasks (queue (accepted c i k t s)) = <[i := t']> (tasks (queue c))) as Et.
  { unfold accepted, add_active, upd_task, upd_queue. cbn. rewrite (alter_lookup _ _ i (advanced t)) by (by apply list_lookup_insert_eq).
    rewrite list_insert_insert_eq. unfold t'. by rewrite A6. }
  pose proof (reading_task (slots c) i k t s T Hk Sk Hr Hf Hc) as T'. fold t' in T'. set (c' := accepted c i k t s) in *.
  assert (slots c' = <[k := reading s t i]> (slots c)) as Es by done. split.
  2:{ rewrite (remaining_upd c c' i t t' Hi Et). unfold left_of, t'. cbn. rewrite A2, A4, A7, Hr. destruct (last_read t); lia. }
  apply inv_settle with i.
  2:{ intros u. rewrite Et, list_lookup_insert_eq by done. intros [= <-]. destruct (v_quiet _ _ I i t Hi ltac:(done)) as [Q1 Q2]. split.
      - intros k' x. rewrite Es. destruct (decide (k' = k)) as [->|Hne]; [rewrite list_lookup_insert_eq by done; by intros [= <-]|].
        rewrite list_lookup_insert_ne by done. unfold t'. cbn. rewrite A5. apply Q1.
      - unfold t'. cbn. destruct T as [_ _ _ _ (l & _ & _ & A & _) _ _]. lia. }
  eapply (inv_step None c c' i t t'); try done; [by left|..].
  - eapply (frame_cell c c' i k s (reading s t i)); try done; [by left|by right].
  - split.
    + intros k' x. rewrite Es. destruct (decide (k' = k)) as [->|Hne].
      * rewrite list_lookup_insert_eq by done. intros [= <-]. split; [apply Hpos|]. exists i, (request_of c t k). split; [done|].
        split; [by rewrite <- (v_count _ _ I)|]. split; [|done]. apply elem_of_app. right. by left.
      * rewrite list_lookup_insert_ne by done. intros Hx. pose proof (v_slot _ _ I k' x Hx) as Sx. unfold slot_ok in *.
        destruct (state x); try done. destruct Sx as (Hb & j & o & ? & ? & ? & ?). split; [done|]. exists j, o. repeat (split; [done|]).
        split; [|done]. apply elem_of_app. by left.
    + intros o [Ho| ->%list_elem_of_singleton]%elem_of_app.
      * destruct (v_op _ _ I o Ho) as (x & j & Hx & Hrest). exists x, j. split; [|done]. rewrite Es, list_lookup_insert_ne; [done|].
        intros ->. destruct Hrest as [Hrest _]. congruence.
      * exists (reading s t i), i. cbn [op_slot request_of]. rewrite Es, list_lookup_insert_eq by done. repeat (split; [done|]). cbn.
        destruct T as [T1 _ _ _ _ _ _]. rewrite <- T1. by apply (v_fds _ _ I i).
    + change (ops c') with (ops c ++ [request_of c t k]). rewrite fmap_app. apply NoDup_app. split; [apply I|]. split; [|apply NoDup_singleton].
      intros x Hx ->%list_elem_of_singleton. apply list_elem_of_fmap in Hx as (o & Eo & Ho). destruct (v_op _ _ I o Ho) as (x & j & Hx & Hrest).
      rewrite <- Eo in Hx. cbn in Hx. destruct Hrest as [Hrest _]. congruence.
  - unfold t'. cbn. lia.
  - eapply (fds_keep c); [by eapply inv_fds|done..].
  - intros j u. rewrite Et. destruct (decide (j = i)) as [->|Hne].
    + rewrite list_lookup_insert_eq by done. intros [= <-]. unfold c', t'. cbn. rewrite A7. destruct (last_read t); [done|].
      intros H. by apply (v_current _ _ I i t).
    + rewrite list_lookup_insert_ne by done. unfold c'. cbn. intros Hj Hlt'. destruct (last_read t); [apply (Hbefore j); [done|lia]|].
      by apply (v_current _ _ I j u).
  - unfold t'. cbn. rewrite A7, A8, A4, A2, Hr. intros _. destruct (last_read t); [|done]. intros _. right. by apply Hlast.
  - intros E0. eapply (out_keep c); [by apply (v_out _ _ I)|done..].
Qed.

Definition rejected c i k t s (e : Z) : hash_ctx_t :=
  upd_task (free_slot (set_error (prepared c i k t s) (- e) (SubmitFailed (path t))) k) i (fun t' => t' <| read_offset := read_offset t' - chunk_of t |>).

(** Only the read offset is put back: if it was the last read of the file, no
    further read is attempted. *)
Lemma rejected_ok c i k t s e : inv None c -> 0 < chunk_size cfg -> tasks (queue c) !! i = Some t -> slots c !! k = Some s ->
  state s = BUF_FREE -> reads_done t = false -> 0 <= fd t -> (forall j u, tasks (queue c) !! j = Some u -> (j < i)%nat -> reads_done u = true) ->
  e <> 0 -> inv None (rejected c i k t s e) /\ error (rejected c i k t s e) <> 0.
Proof.
  intros I Hc Hi Hk Hs Hr Hf Hbefore He. pose proof (v_task _ _ I i t Hi) as T. destruct (chunk_pos t Hr (k_more _ _ _ T Hr) Hf Hc) as (Hpos & Hle & Hlast).
  pose proof (v_slot _ _ I k s Hk) as Sk. unfold slot_ok in Sk. rewrite Hs in Sk. pose proof (lookup_lt_Some _ _ _ Hi) as Hlt.
  pose proof (lookup_lt_Some _ _ _ Hk) as Hltk. destruct (advanced_fields t) as (A1 & A2 & A3 & A4 & A5 & A6 & A7 & A8 & A9 & A10).
  set (t' := (advanced t) <| read_offset := read_offset t |>). set (s' := (reading s t i) <| state := BUF_FREE |> <| task := None |>).
  set (c1 := set_error (prepared c i k t s) (- e) (SubmitFailed (path t))).
  assert (error c1 <> 0) as He1 by (unfold c1, set_error; destruct (Z.eqb_spec (error (prepared c i k t s)) 0); cbn; [lia|done]).
  assert (slots c1 = slots (prepared c i k t s) /\ queue c1 = queue (prepared c i k t s) /\ ops c1 = ops c /\ fds c1 = fds c /\ files c1 = files c /\ active_ops c1 = active_ops c)
    as (E1 & E2 & E3 & E4 & E5 & E6) by (unfold c1, set_error; by destruct (_ =? 0)).
  assert (tasks (queue (rejected c i k t s e)) = <[i := t']> (tasks (queue c))) as Et.
  { unfold rejected, upd_task, upd_queue, free_slot, upd_slot. fold c1. cbn. rewrite E2. cbn.
    rewrite (alter_lookup _ _ i (advanced t)) by (by apply list_lookup_insert_eq). rewrite list_insert_insert_eq. unfold t'.
    by replace (read_offset (advanced t) - chunk_of t) with (read_offset t) by lia. }
  assert (slots (rejected c i k t s e) = <[k := s']> (slots c)) as Es.
  { unfold rejected, upd_task, upd_queue, free_slot, upd_slot. fold c1. cbn. rewrite E1. cbn.
    rewrite (alter_lookup _ _ k (reading s t i)) by (by apply list_lookup_insert_eq). by rewrite list_insert_insert_eq. }
  assert (ops (rejected c i k t s e) = ops c /\ fds (rejected c i k t s e) = fds c /\ files (rejected c i k t s e) = files c /\
    active_ops (rejected c i k t s e) = active_ops c /\ error (rejected c i k t s e) = error c1 /\
    current (queue (rejected c i k t s e)) = if last_read t then S i else current (queue c)) as (D1 & D2 & D3 & D4 & D5 & D6).
  { unfold rejected. fold c1. cbn. rewrite E2. done. }
  set (c' := rejected c i k t s e) in *. clearbody c'. rewrite <- D5 in He1. split; [|done].
  assert (k ∉ (fun o => op_slot o) <$> ops c) as Hno.
  { intros (o & Eo & Ho)%list_elem_of_fmap. destruct (v_op _ _ I o Ho) as (x & j & Hx & Hx' & _). rewrite <- Eo in Hx. congruence. }
  apply inv_settle with i.
  2:{ intros u. rewrite Et, list_lookup_insert_eq by done. intros [= <-]. destruct (v_quiet _ _ I i t Hi ltac:(done)) as [Q1 _]. split; [|done].
      intros k' x. rewrite Es. destruct (decide (k' = k)) as [->|Hne]; [rewrite list_lookup_insert_eq by done; by intros [= <-]|].
      rewrite list_lookup_insert_ne by done. unfold t'. cbn. rewrite A5. apply Q1. }
  eapply (inv_step None c c' i t t'); try done; [by left|..].
  - eapply (frame_cell c c' i k s s'); try done; [by left|by left].
  - rewrite Es. destruct T as [T1 T2 T3 T4 (l & N & C & A & O) T6 T7].
    assert (k ∉ l) as Hkl by (intros Hin; destruct (chain_mem _ _ _ _ _ _ C Hin) as (? & ? & (x & Hx & Hx' & _) & _); congruence).
    unfold t'. split; cbn; rewrite ?A1, ?A2, ?A3, ?A5, ?A6, ?A7, ?A8, ?A9, ?A10; try done.
    + exists l. split; [done|]. split; [by apply chain_drop|]. split; [done|]. intros k' x Hx Hx'.
      by eapply owned_drop in Hx as [_ Hin]; [|exact O|done|done].
    + intros Hd. destruct (T6 Hd). congruence.
    + destruct (last_read t); [done|]. intros _. by apply T7.
  - eapply (requests_cell c); [by eapply inv_requests|done|by rewrite Hs|done|done|done].
  - rewrite D4. unfold t'. cbn. lia.
  - eapply (fds_keep c); [by eapply inv_fds|done..].
  - intros j u. rewrite Et, D6. destruct (decide (j = i)) as [->|Hne].
    + rewrite list_lookup_insert_eq by done. intros [= <-]. unfold t'. cbn. rewrite A7. destruct (last_read t); [done|].
      intros H. by apply (v_current _ _ I i t).
    + rewrite list_lookup_insert_ne by done. intros Hj Hlt'. destruct (last_read t); [apply (Hbefore j); [done|lia]|]. by apply (v_current _ _ I j u).
Qed.

Lemma read_submitted c i k t s : inv None c -> 0 < chunk_size cfg -> tasks (queue c) !! i = Some t -> slots c !! k = Some s ->
  state s = BUF_FREE -> reads_done t = false -> 0 <= fd t -> (forall j u, tasks (queue c) !! j = Some u -> (j < i)%nat -> reads_done u = true) ->
  let c' := submit_read cfg c i k in
  inv None c' /\ (now c <= now c')%nat /\ (forall k' x, slots c !! k' = Some x -> state x <> BUF_FREE -> slots c' !! k' = Some x) /\
  (ask_errno (now c) = 0 /\ error c' = error c /\ length (ops c') = S (length (ops c)) /\ remaining c' + 1 <= remaining c /\
     (exists x, slots c' !! k = Some x /\ state x <> BUF_FREE) \/
   ask_errno (now c) <> 0 /\ error c' <> 0 /\ ops c' = ops c).
Proof.
  intros I Hc Hi Hk Hs Hr Hf Hbefore. cbn zeta. rewrite (submit_read_view c i k t s Hi Hk). cbn zeta. fold (accepted c i k t s).
  fold (rejected c i k t s (ask_errno (now c))). destruct (Z.eqb_spec (ask_errno (now c)) 0) as [E0|E0].
  - destruct (accepted_ok c i k t s) as [I' R']; try done. split; [done|]. split; [cbn; lia|]. split.
    { intros k' x Hx Hx'. cbn. rewrite list_lookup_insert_ne; [done|]. intros ->. congruence. } left.
    split; [done|]. split; [done|]. split; [cbn; rewrite length_app; cbn; lia|]. split; [done|].
    exists (reading s t i). split; [|done]. cbn. by apply list_lookup_insert_eq; eapply lookup_lt_Some.
  - destruct (rejected_ok c i k t s (ask_errno (now c))) as [I' R']; try done. split; [done|]. unfold rejected, set_error in *.
    split; [destruct (_ =? 0); cbn; lia|]. split; [|right; split; [done|]; split; [done|by destruct (_ =? 0)]].
    intros k' x Hx Hx'. assert (k' <> k) by (intros ->; congruence). destruct (_ =? 0); cbn; by rewrite list_lookup_alter_ne, list_lookup_insert_ne.
Qed.

(** ** Opening *)

(** The task once it is open; an empty file needs no reads. *)
Definition opened t (d : Z) : file_task_t :=
  if file_size t =? 0 then t <| fd := d |> <| reads_done := true |> else t <| fd := d |>.

Definition fresh_fd c : Z := lowest_fd (size (fds c)) 0 (fds c).

Lemma fresh_fd_ok c : 0 <= fresh_fd c /\ fds c !! fresh_fd c = None.
Proof. split; [apply lowest_fd_ge|by apply lowest_fd_free]. Qed.

Lemma opened_fields t d : path (opened t d) = path t /\ file_size (opened t d) = file_size t /\ fd (opened t d) = d /\
  read_offset (opened t d) = read_offset t /\ hash_offset (opened t d) = hash_offset t /\ t_active_ops (opened t d) = t_active_ops t /\
  reads_done (opened t d) = (if file_size t =? 0 then true else reads_done t) /\ done (opened t d) = done t /\ md_ctx (opened t d) = md_ctx t /\
  bytes_hashed (opened t d) = bytes_hashed t.
Proof. unfold opened. destruct (file_size t =? 0); repeat split. Qed.

#[local] Arguments opened : simpl never.

(** An untouched task has nothing in its pieces. *)
Lemma untouched S i t : task_ok S i t -> reads_done t = false -> fd t < 0 -> read_offset t = 0 /\ hash_offset t = 0 /\ t_active_ops t = 0 /\ 0 <= file_size t.
Proof.
  intros [T1 T2 T3 T4 (l & N & C & A & O) T6 T7] Hr Hf. specialize (T7 Hr). destruct (Z.ltb_spec (fd t) 0); [|lia].
  destruct (chain_bounds _ _ _ _ _ C) as [C1 C2]. split; [done|]. split; [lia|]. split; [|rewrite T2; apply zlen_nonneg].
  destruct l; [done|]. assert (hash_offset t < read_offset t) by (by apply C2). lia.
Qed.

Lemma now_open_ok c c' i t : inv None c -> tasks (queue c) !! i = Some t -> reads_done t = false -> fd t < 0 ->
  c' = c <| now := S (now c) |> <| fds := <[fresh_fd c := path t]> (fds c) |> <| queue := (queue c) <| tasks := <[i := opened t (fresh_fd c)]> (tasks (queue c)) |> |> ->
  inv (Some i) c' /\ (file_size t <> 0 -> inv None c') /\ remaining c' = remaining c.
Proof.
  intros I Hi Hr Hf Ec'. pose proof (v_task _ _ I i t Hi) as T. destruct (untouched _ _ _ T Hr Hf) as (U1 & U2 & U3 & U4).
  pose proof (lookup_lt_Some _ _ _ Hi) as Hlt. destruct (fresh_fd_ok c) as [D1 D2]. set (d := fresh_fd c) in *.
  destruct (opened_fields t d) as (A1 & A2 & A3 & A4 & A5 & A6 & A7 & A8 & A9 & A10). set (t' := opened t d) in *.
  assert (tasks (queue c') = <[i := t']> (tasks (queue c)) /\ slots c' = slots c /\ ops c' = ops c /\ fds c' = <[d := path t]> (fds c) /\
    error c' = error c /\ active_ops c' = active_ops c /\ files c' = files c /\ current (queue c') = current (queue c) /\ stdout c' = stdout c /\ stderr c' = stderr c)
    as (Et & Es & Eo & Ef & Ee & Ea & Efi & Ec & Eout & Eerr) by (by rewrite Ec'). clear Ec'.
  assert (inv (Some i) c') as I'.
  { eapply (inv_step None c c' i t t'); try done; [by left|..].
    - eapply frame_only; [done..|by rewrite Ee].
    - rewrite Es. destruct T as [T1 T2 T3 T4 T5 T6 T7]. split; rewrite ?A1, ?A2, ?A3, ?A4, ?A5, ?A6, ?A7, ?A8, ?A9, ?A10; try done.
      + intros Hd. destruct (T6 Hd). congruence.
      + destruct (Z.eqb_spec (file_size t) 0); [done|]. intros _. destruct (Z.ltb_spec d 0); lia.
    - destruct (inv_requests _ _ I) as [R1 R2 R3]. split; rewrite ?Eo, ?Es; try done. intros o Ho. unfold op_ok. rewrite Es. by apply R2.
    - rewrite Ea, A6. lia.
    - destruct (inv_fds _ _ I) as [F1 F2].
      assert (forall j u, tasks (queue c') !! j = Some u -> 0 <= fd u -> j = i /\ u = t' \/ j <> i /\ tasks (queue c) !! j = Some u /\ fd u <> d) as Hcase.
      { intros j u. rewrite Et. destruct (decide (j = i)) as [->|Hne]; [rewrite list_lookup_insert_eq by done; intros [= <-]; by left|].
        rewrite list_lookup_insert_ne by done. intros Hj Hu. right. split; [done|]. split; [done|]. intros E0. specialize (F1 j u Hj Hu). congruence. }
      split.
      + intros j u Hj Hu. rewrite Ef. destruct (Hcase j u Hj Hu) as [[-> ->]|(_ & Hj' & Hne)]; [rewrite A3, A1; by apply lookup_insert_eq|].
        rewrite lookup_insert_ne by done. by apply (F1 j).
      + intros j j' u u' Hj Hj' Hu Eu. destruct (Hcase j u Hj Hu) as [[-> ->]|(_ & Hj0 & Hne)], (Hcase j' u' Hj' ltac:(lia)) as [[-> ->]|(_ & Hj1 & Hne')];
          [done|congruence|congruence|by apply (F2 j j' u u')].
    - eapply (current_keep c); [exact (v_current _ _ I)|done..|]. rewrite A7. by destruct (_ =? 0).
    - rewrite A7, A4, A2. intros _ Hb. right. destruct (Z.eqb_spec (file_size t) 0); [lia|congruence].
    - rewrite Ee. intros E0. eapply (out_keep c); [by apply (v_out _ _ I)|done..]. }
  split; [done|]. split.
  - intros Hz. apply inv_settle with i; [done|]. intros u. rewrite Et, list_lookup_insert_eq by done. intros [= <-].
    destruct (v_quiet _ _ I i t Hi ltac:(done)) as [Q1 Q2]. split; [rewrite Es, A5; exact Q1|]. rewrite A7, A8, A6, Ee.
    destruct (Z.eqb_spec (file_size t) 0); [done|]. exact Q2.
  - rewrite (remaining_upd c c' i t t' Hi Et). unfold left_of. rewrite A7, A2, A4, Hr, U1. destruct (Z.eqb_spec (file_size t) 0); lia.
Qed.

(** A file that cannot be opened is skipped with a message. *)
Definition skipped t : file_task_t := t <| reads_done := true |> <| done := true |>.

Lemma left_out_ok c c' i t : inv None c -> tasks (queue c) !! i = Some t -> reads_done t = false -> fd t < 0 -> done t = false ->
  tasks (queue c') = <[i := skipped t]> (tasks (queue c)) -> slots c' = slots c -> ops c' = ops c -> fds c' = fds c -> error c' = error c ->
  active_ops c' = active_ops c -> files c' = files c -> current (queue c') = current (queue c) -> stdout c' = stdout c ->
  stderr c' = stderr c ++ [CannotOpen (path t)] -> inv None c' /\ remaining c' <= remaining c.
Proof.
  intros I Hi Hr Hf Hnd Et Es Eo Ef Ee Ea Efi Ec Eout Eerr. pose proof (v_task _ _ I i t Hi) as T.
  destruct (untouched _ _ _ T Hr Hf) as (U1 & U2 & U3 & U4). pose proof (lookup_lt_Some _ _ _ Hi) as Hlt. split.
  2:{ rewrite (remaining_upd c c' i t (skipped t) Hi Et). unfold left_of. cbn. rewrite Hr. lia. }
  apply inv_settle with i.
  2:{ intros u. rewrite Et, list_lookup_insert_eq by done. intros [= <-]. split; [|done]. rewrite Es. by destruct (v_quiet _ _ I i t Hi ltac:(done)). }
  eapply (inv_step None c c' i t (skipped t)); try done; [by left|..].
  - eapply frame_only; [done..|by rewrite Ee].
  - rewrite Es. destruct T as [T1 T2 T3 T4 T5 T6 T7]. by split.
  - destruct (inv_requests _ _ I) as [R1 R2 R3]. split; rewrite ?Eo, ?Es; try done. intros o Ho. unfold op_ok. rewrite Es. by apply R2.
  - cbn. lia.
  - eapply (fds_keep c); [by eapply inv_fds|done..].
  - eapply (current_keep c); [exact (v_current _ _ I)|done..].
  - by left.
  - rewrite Ee. intros E0. destruct (v_out _ _ I E0) as (F & G & O1 & O2 & O3 & O4). exists F, (G ++ [i]). split; [by rewrite Eout|]. split; [|].
    + rewrite Eerr, O2, fmap_app. cbn. by rewrite (k_path _ _ _ T).
    + eapply (done_add c c' i t (skipped t)); try done. solve_Permutation.
Qed.

Lemma set_current_ok c i : inv None c -> (forall j u, tasks (queue c) !! j = Some u -> (j < i)%nat -> reads_done u = true) -> inv None (set_current c i).
Proof. intros [] H. by split. Qed.

(** ** The next read *)

Lemma reader_some l : forall n i j, find_reader n l i = Some j ->
  (i <= j)%nat /\ exists t, l !! j = Some t /\ reads_done t = false /\ done t = false /\ forall m u, (i <= m < j)%nat -> l !! m = Some u -> reads_done u || done u = true.
Proof.
  induction n as [|n IH]; intros i j; cbn; [done|]. destruct (l !! i) as [t|] eqn:Hi; [|done].
  destruct (reads_done t || done t) eqn:Eb.
  - intros (Hle & u & Hu & Hr & Hd & Hm)%IH. split; [lia|]. exists u. repeat (split; [done|]). intros m v Hmv Hv.
    destruct (decide (m = i)) as [->|]; [congruence|]. apply (Hm m); [lia|done].
  - intros [= <-]. apply orb_false_iff in Eb as [? ?]. split; [done|]. exists t. repeat (split; [done|]). lia.
Qed.

Lemma reader_none l : forall n i, find_reader n l i = None -> (length l <= n + i)%nat -> forall m u, (i <= m)%nat -> l !! m = Some u -> reads_done u || done u = true.
Proof.
  induction n as [|n IH]; intros i; cbn.
  - intros _ Hl m u Hm Hu. apply lookup_lt_Some in Hu. lia.
  - destruct (l !! i) as [t|] eqn:Hi.
    + destruct (reads_done t || done t) eqn:Eb; [|done]. intros H Hl m u Hm Hu. destruct (decide (m = i)) as [->|]; [congruence|].
      apply (IH (S i) H ltac:(lia) m u); [lia|done].
    + intros _ _ m u Hm Hu. apply lookup_ge_None in Hi. apply lookup_lt_Some in Hu. lia.
Qed.

(** Two turns for every byte that is still to be read, one for every request. *)
Definition work c : Z := 2 * remaining c + zlen (ops c).

Lemma remaining_nonneg ex c : inv ex c -> 0 <= remaining c.
Proof.
  intros I. apply zsum_nonneg. apply Forall_fmap, Forall_lookup. intros i t Hi. cbn. unfold left_of.
  destruct (reads_done t); [done|]. destruct (v_task _ _ I i t Hi) as [_ _ _ [_ ?] _ _ _]. lia.
Qed.

(** What the submissions of a turn do. *)
Record submits c c' : Prop := {
  u_inv : inv None c';
  u_now : (now c <= now c')%nat;
  u_busy : forall k x, slots c !! k = Some x -> state x <> BUF_FREE -> slots c' !! k = Some x;
  u_ops : zlen (ops c') <= work c;
  u_work : error c' = error c /\ work c' <= work c \/ error c' <> 0 /\ exists m, ask_errno m <> 0
}.

Lemma submits_refl c : inv None c -> submits c c.
Proof. intros I. pose proof (remaining_nonneg _ _ I). split; try done; [unfold work; lia|by left]. Qed.

Lemma submits_trans c1 c2 c3 : submits c1 c2 -> error c2 = 0 -> submits c2 c3 -> submits c1 c3.
Proof.
  intros [I1 N1 B1 O1 W1] He [I2 N2 B2 O2 W2]. destruct W1 as [[E1 W1]|[? _]]; [|done]. split; [done|lia| |lia|].
  - intros k x Hk Hx. by apply B2, Hx; apply B1.
  - destruct W2 as [[E2 W2]|?]; [left; split; [congruence|lia]|by right].
Qed.

Lemma before_current c i : inv None c -> (forall m u, (current (queue c) <= m < i)%nat -> tasks (queue c) !! m = Some u -> reads_done u || done u = true) ->
  forall j u, tasks (queue c) !! j = Some u -> (j < i)%nat -> reads_done u = true.
Proof.
  intros I H j u Hj Hlt. destruct (decide (j < current (queue c))%nat) as [|Hge]; [by apply (v_current _ _ I j u)|].
  specialize (H j u ltac:(lia) Hj). apply orb_prop in H as [|Hd]; [done|]. by apply (k_done _ _ _ (v_task _ _ I j u Hj)).
Qed.

(** A task that needs no reads any more is left behind. *)
Lemma submits_skip c c' : inv None c -> inv None c' -> (now c <= now c')%nat -> slots c' = slots c -> ops c' = ops c -> error c' = error c ->
  remaining c' <= remaining c -> submits c c'.
Proof.
  intros I I' Hn Es Eo Ee Hr. pose proof (remaining_nonneg _ _ I). split; try done.
  - intros k x. by rewrite Es.
  - rewrite Eo. unfold work. lia.
  - left. split; [done|]. unfold work. rewrite Eo. lia.
Qed.

Definition all_read c : Prop := forall i t, tasks (queue c) !! i = Some t -> reads_done t = true.

Definition busy c (k : nat) : Prop := exists x, slots c !! k = Some x /\ state x <> BUF_FREE.

Lemma submit_read_submits c i k t s : inv None c -> 0 < chunk_size cfg -> tasks (queue c) !! i = Some t -> slots c !! k = Some s ->
  state s = BUF_FREE -> reads_done t = false -> 0 <= fd t -> (forall j u, tasks (queue c) !! j = Some u -> (j < i)%nat -> reads_done u = true) ->
  submits c (submit_read cfg c i k) /\ (error (submit_read cfg c i k) = 0 -> busy (submit_read cfg c i k) k).
Proof.
  intros I Hc Hi Hk Hs Hr Hf Hb. destruct (read_submitted c i k t s) as (I' & Hn & Hbusy & Hcase); try done.
  pose proof (remaining_nonneg _ _ I). pose proof (remaining_nonneg _ _ I'). set (c' := submit_read cfg c i k) in *. clearbody c'. unfold work, zlen in *. split.
  - split; try done; destruct Hcase as [(E0 & E1 & E2 & E3 & E4)|(E0 & E1 & E2)]; unfold work, zlen.
    + lia.
    + rewrite E2. lia.
    + left. split; [done|]. lia.
    + right. split; [done|]. by eexists.
  - intros E0'. by destruct Hcase as [(E0 & E1 & E2 & E3 & E4)|(E0 & E1 & E2)].
Qed.

Lemma open_task_view c i t : tasks (queue c) !! i = Some t ->
  open_task c i = if ask_errno (now c) =? 0
    then (true, c <| now := S (now c) |> <| fds := <[fresh_fd c := path t]> (fds c) |>
                  <| queue := (queue c) <| tasks := <[i := t <| fd := fresh_fd c |>]> (tasks (queue c)) |> |>)
    else (false, c <| now := S (now c) |>).
Proof.
  intros Hi. unfold open_task, sys, upd_task, upd_queue, task_at. cbn.
  destruct (Z.eqb_spec (ask_errno (now c)) 0); [|done]. cbn. by rewrite (nth_lookup_Some _ _ _ _ Hi), (alter_lookup _ _ _ _ Hi).
Qed.

Lemma next_read_submits k s : forall fuel c, inv None c -> 0 < chunk_size cfg -> slots c !! k = Some s -> state s = BUF_FREE -> error c = 0 ->
  (length ps < fuel + current (queue c))%nat ->
  let c' := submit_next_read cfg fuel c k in submits c c' /\ (error c' = 0 -> busy c' k \/ all_read c').
Proof.
  induction fuel as [|fuel IH]; intros c I Hc Hk Hs He Hf.
  { cbn zeta. cbn [submit_next_read]. split; [by apply submits_refl|]. intros _. right. intros i t Hi.
    apply (v_current _ _ I i t Hi). apply lookup_lt_Some in Hi. rewrite (v_count _ _ I) in Hi. lia. }
  cbn [submit_next_read]. cbn zeta.
  destruct (find_reader _ _ _) as [i|] eqn:Er.
  2:{ split; [by apply submits_refl|]. intros _. right. intros i t Hi.
      apply (before_current c (S i) I) with i; [|done|lia]. intros m u Hm Hu. eapply reader_none; [done| |apply Hm|done]. lia. }
  destruct (reader_some _ _ _ _ Er) as (Hge & t & Hi & Hr & Hnd & Hm). pose proof (before_current c i I Hm) as Hb.
  pose proof (lookup_lt_Some _ _ _ Hi) as Hlt. rewrite (v_count _ _ I) in Hlt. rewrite (task_at_is _ _ _ Hi).
  destruct (Z.ltb_spec (fd t) 0) as [Hfd|Hfd]; [|by destruct (submit_read_submits c i k t s) as [S1 B1]; auto].
  assert (forall c1 t', inv None c1 -> tasks (queue c1) = <[i := t']> (tasks (queue c)) -> reads_done t' = true -> slots c1 = slots c -> ops c1 = ops c ->
    error c1 = error c -> (now c <= now c1)%nat -> remaining c1 <= remaining c ->
    let c' := submit_next_read cfg fuel (set_current c1 (S i)) k in submits c c' /\ (error c' = 0 -> busy c' k \/ all_read c')) as Hskip.
  { intros c1 t' I1 Et Ht' Es Eo Ee En Erem. assert (inv None (set_current c1 (S i))) as I2.
    { apply set_current_ok; [done|]. intros j u. rewrite Et. destruct (decide (j = i)) as [->|Hne].
      - rewrite list_lookup_insert_eq by (by eapply lookup_lt_Some). by intros [= <-].
      - rewrite list_lookup_insert_ne by done. intros Hj Hj'. apply (Hb j u Hj). lia. }
    destruct (IH (set_current c1 (S i)) I2 Hc) as [S1 B1]; [by cbn; rewrite Es|done|by cbn; congruence|cbn; lia|].
    split; [|done]. apply (submits_trans c (set_current c1 (S i))); [by apply submits_skip|by cbn; rewrite Ee|done]. }
  rewrite (open_task_view c i t Hi). destruct (Z.eqb_spec (ask_errno (now c)) 0) as [Ea|Ea].
  - set (c1 := c <| now := S (now c) |> <| fds := _ |> <| queue := _ |>).
    assert (task_at c1 i = t <| fd := fresh_fd c |>) as Et1 by (apply task_at_is; cbn; apply list_lookup_insert_eq; by eapply lookup_lt_Some).
    rewrite Et1. cbn [file_size set_field hset_fd]. pose proof (now_open_ok c _ i t I Hi Hr Hfd eq_refl) as (O1 & O2 & O3).
    set (c2 := c <| now := S (now c) |> <| fds := _ |> <| queue := (queue c) <| tasks := <[i := opened t _]> _ |> |>) in *.
    destruct (Z.eqb_spec (file_size t) 0) as [Ez|Ez].
    + assert (upd_task c1 i (fun t => t <| reads_done := true |>) = c2) as ->.
      { unfold upd_task, upd_queue, c1, c2, opened. cbn. rewrite Ez. cbn.
        erewrite alter_lookup by (by apply list_lookup_insert_eq; eapply lookup_lt_Some). by rewrite list_insert_insert_eq. }
      assert (tasks (queue c2) !! i = Some (opened t (fresh_fd c))) as Hi2 by (cbn; apply list_lookup_insert_eq; by eapply lookup_lt_Some).
      destruct (opened_fields t (fresh_fd c)) as (A1 & A2 & A3 & A4 & A5 & A6 & A7 & A8 & A9 & A10). rewrite Ez in A7.
      destruct (untouched _ _ _ (v_task _ _ I i t Hi) Hr Hfd) as (U1 & U2 & U3 & U4).
      destruct (file_complete_ok c2 i _ O1 Hi2) as [I3 [S1 S2 S3 S4]]; [done|by rewrite A6|by rewrite A8|].
      destruct (complete_view c2 i _ Hi2) as [Ev _].
      apply (Hskip (complete_task c2 i) (ended (opened t (fresh_fd c)))); try done; [by rewrite Ev; cbn; rewrite list_insert_insert_eq|rewrite S3; cbn; lia|lia].
    + assert (c1 = c2) as -> by (unfold c1, c2, opened; by destruct (Z.eqb_spec (file_size t) 0)). specialize (O2 Ez).
      assert (tasks (queue c2) !! i = Some (opened t (fresh_fd c))) as Hi2 by (cbn; apply list_lookup_insert_eq; by eapply lookup_lt_Some).
      destruct (opened_fields t (fresh_fd c)) as (A1 & A2 & A3 & A4 & A5 & A6 & A7 & A8 & A9 & A10).
      destruct (submit_read_submits c2 i k (opened t (fresh_fd c)) s O2 Hc Hi2 Hk Hs) as [S1 B1].
      * rewrite A7. by destruct (Z.eqb_spec (file_size t) 0).
      * rewrite A3. apply fresh_fd_ok.
      * intros j u. cbn. destruct (decide (j = i)) as [->|Hne]; [lia|]. rewrite list_lookup_insert_ne by done. apply Hb.
      * split; [|by intros E0; left; apply B1]. apply (submits_trans c c2); [|exact He|exact S1]. apply submits_skip; try done; [cbn; lia|lia].
  - set (c1 := upd_queue (upd_task (complain _ _) _ _) _).
    assert (tasks (queue c1) = <[i := skipped t]> (tasks (queue c))) as Et1 by (unfold c1; cbn; by rewrite (alter_lookup _ _ _ _ Hi)).
    destruct (left_out_ok c c1 i t I Hi Hr Hfd Hnd Et1) as [I1 R1]; try done.
    { unfold c1, complain, task_at. cbn. by rewrite (nth_lookup_Some _ _ _ _ Hi). }
    apply (Hskip c1 (skipped t)); try done. cbn. lia.
Qed.
End Spec.
