(* ===== verification/HashRun.v ===== *)
(** * The run of a hashing pipeline

    Its loops over the invariant of [HashSpec]: when the pipeline returns 0 the
    digests it printed are those of the whole files, and when no read fails or
    comes back short it returns. Then runs in which aura-hash goes wrong: a
    short read in the middle, a short read at the end, a failed read, a refused
    submission. *)
From Stdlib Require Import ZArith Lia List String.
From stdpp Require Import base tactics strings list gmap.
From S2P Require Import Prelude Client HashPipe HashSpec.

#[local] Open Scope Z_scope.
#[local] Arguments zlen : simpl never.
#[local] Arguments work : simpl never.
#[local] Arguments remaining : simpl never.

Section Run.
Context {V : Evp} `{!EvpLaws V} {E : ClientEnv} (cfg : config_t) (fs : gmap string (list Z)) (ps : list string).
Implicit Types (c : hash_ctx_t) (t : file_task_t).

#[local] Abbreviation inv := (inv cfg fs ps None).
#[local] Abbreviation submits := (submits cfg fs ps).

(** ** Turns *)

(** A read is answered in full, or with an [errno]. *)
Definition answer_ok (a : answer) : Prop := match a with Transfer limit => chunk_size cfg <= limit | Refuse e => Z.pos e <= INT_MAX end.

Definition in_full (a : answer) : Prop := exists limit, a = Transfer limit /\ chunk_size cfg <= limit.

Record waited c c' : Prop := {
  w_inv : inv c';
  w_error : error c' = error c;
  w_remaining : remaining c' = remaining c;
  w_now : (now c <= now c')%nat;
  w_ops : zlen (ops c') <= zlen (ops c)
}.

Lemma complete_all_ok l : forall c, inv c -> Forall (fun p => in_full (snd p)) l ->
  exists c', complete_all cfg c l = Some c' /\ waited c c' /\ (forall j a l', l = (j, a) :: l' -> (j < length (ops c))%nat -> zlen (ops c') < zlen (ops c)).
Proof.
  induction l as [|[j a] l IH]; intros c I Hl; cbn [complete_all].
  { exists c. split; [done|]. split; [by split|done]. }
  apply Forall_cons in Hl as [(limit & Ea & Hlim) Hl]. cbn in Ea. subst a.
  destruct (ops c !! j) as [o|] eqn:Ho.
  - destruct (hash_op_ok cfg fs ps c j o limit I Ho Hlim) as (c1 & -> & I1 & Eo & Ee & En & Er). cbn [mbind option_bind].
    destruct (IH c1 I1 Hl) as (c' & -> & [W1 W2 W3 W4 W5] & _). exists c'. split; [done|].
    assert (zlen (ops c1) + 1 = zlen (ops c)) as El.
    { unfold zlen. rewrite Eo, length_delete by (by eexists). apply lookup_lt_Some in Ho. lia. }
    split; [split; [done|congruence|congruence|lia|lia]|]. intros. lia.
  - unfold complete_op at 1. rewrite Ho. cbn [mbind option_bind]. destruct (IH c I Hl) as (c' & -> & W & _). exists c'. split; [done|].
    split; [done|]. intros ? ? ? [= <- <- <-] Hj. apply lookup_ge_None in Ho. lia.
Qed.

(** An error stays. *)
Lemma drain_keeps_error c i : error (drain_completed cfg c i) = error c.
Proof.
  unfold drain_completed. assert (forall n c, error (drain_loop cfg n c i) = error c) as Hl.
  { induction n as [|n IH]; intros c0; cbn; [done|]. destruct (find_done _ _ _ _); [|done]. by rewrite IH. }
  rewrite <- (Hl (S (pipeline_depth cfg)) c). set (c1 := drain_loop _ _ _ _). by destruct (_ && _).
Qed.

Lemma complete_op_error c j a c' : complete_op cfg c j a = Some c' -> error c <> 0 -> error c' <> 0.
Proof.
  unfold complete_op. destruct (ops c !! j) as [o|]; [|by intros [= <-]]. set (c0 := c <| ops := _ |>).
  assert (error (snd (execute c0 o a)) = error c) as He by (unfold execute; destruct a, (op_file o); done).
  destruct (execute c0 o a) as [r c1]. cbn in He. unfold on_read_complete. destruct (task _) as [i|]; [|done]. cbn [mbind option_bind].
  intros [= <-] Hne. destruct (r <=? 0); [|rewrite drain_keeps_error; cbn; congruence].
  destruct (r <? 0); cbn; unfold set_error; [|congruence]. rewrite He. destruct (Z.eqb_spec (error c) 0); [done|]. cbn. congruence.
Qed.

Lemma complete_all_error l : forall c c', complete_all cfg c l = Some c' -> error c <> 0 -> error c' <> 0.
Proof.
  induction l as [|[j a] l IH]; intros c c'; cbn [complete_all]; [by intros [= <-]|].
  destruct (complete_op cfg c j a) as [c1|] eqn:E1; [|done]. cbn [mbind option_bind]. intros H Hne. eapply IH; [done|]. by eapply complete_op_error.
Qed.

(** A read that fails sets the error. *)
Lemma refused_error c j e c' : complete_op cfg c j (Refuse e) = Some c' -> Z.pos e <= INT_MAX -> ops c !! j <> None -> error c' <> 0.
Proof.
  unfold complete_op. destruct (ops c !! j) as [o|]; [|done]. intros H He _. cbn [execute] in H. unfold on_read_complete in H.
  destruct (task _) as [i|]; [|done]. cbn [mbind option_bind] in H. injection H as <-. cbn [Z.leb Z.ltb Z.compare].
  assert (i32 (Z.neg e) = Z.neg e) as -> by (apply i32_id; unfold INT_MIN, INT_MAX in *; lia).
  unfold set_error. cbn. destruct (Z.eqb_spec (error c) 0); cbn; lia.
Qed.

Definition sound c : Prop := inv c \/ error c <> 0.

Lemma complete_all_sound l : forall c c', sound c -> Forall (fun p => answer_ok (snd p)) l -> complete_all cfg c l = Some c' -> sound c'.
Proof.
  induction l as [|[j a] l IH]; intros c c' Hc Hl; cbn [complete_all]; [by intros [= <-]|]. apply Forall_cons in Hl as [Ha Hl].
  destruct (complete_op cfg c j a) as [c1|] eqn:E1; [|done]. cbn [mbind option_bind]. apply IH; [|done].
  destruct Hc as [I|Hne]; [|right; by eapply complete_op_error]. destruct (ops c !! j) as [o|] eqn:Ho.
  2:{ unfold complete_op in E1. rewrite Ho in E1. injection E1 as <-. by left. }
  destruct a as [limit|e]; cbn in Ha.
  - left. destruct (hash_op_ok cfg fs ps c j o limit I Ho Ha) as (c2 & E2 & I2 & _). congruence.
  - right. eapply refused_error; [done|done|congruence].
Qed.

(** ** Filling the slots *)

Lemma all_read_next c k fuel : all_read c -> submit_next_read cfg fuel c k = c.
Proof.
  intros Ha. destruct fuel as [|fuel]; cbn [submit_next_read]; [done|]. destruct (find_reader _ _ _) as [i|] eqn:Er; [|done].
  destruct (reader_some _ _ _ _ Er) as (_ & t & Hi & Hr & _). by rewrite (Ha i t Hi) in Hr.
Qed.

Definition filled c (n : nat) : Prop := all_read c \/ forall k, (k < n)%nat -> busy c k.

Lemma busy_submits c c' k : submits c c' -> busy c k -> busy c' k.
Proof. intros S (x & Hx & Hne). exists x. split; [|done]. by apply (u_busy _ _ _ _ _ S). Qed.

(** One submission, after the flag was read. *)
Lemma next_read_fills c k : inv c -> 0 < chunk_size cfg -> error c = 0 -> (k < pipeline_depth cfg)%nat -> filled c k -> ~ busy c k ->
  submits c (next_read cfg c k) /\ (error (next_read cfg c k) = 0 -> filled (next_read cfg c k) (S k)).
Proof.
  intros I Hc He Hk Hfill Hnb. unfold next_read. destruct (lookup_lt_is_Some_2 (slots c) k) as [s Hs]; [by rewrite (v_depth _ _ _ _ _ I)|].
  assert (state s = BUF_FREE) as Hfree by (destruct (decide (state s = BUF_FREE)); [done|]; by destruct Hnb; exists s).
  destruct (next_read_submits cfg fs ps k s (S (length (tasks (queue c)))) c) as [S1 B1]; try done; [rewrite (v_count _ _ _ _ _ I); lia|].
  split; [done|]. intros E0. destruct Hfill as [Ha|Hb]; [left; by rewrite all_read_next|].
  destruct (B1 E0) as [Hbk|]; [right|by left]. intros j Hj. destruct (decide (j = k)) as [->|]; [done|].
  eapply busy_submits; [done|]. apply Hb. lia.
Qed.

(** A question asked. *)
Lemma tick_inv c : inv c -> inv (c <| now := S (now c) |>).
Proof. intros []. by split. Qed.

Lemma tick_submits c : inv c -> submits c (c <| now := S (now c) |>).
Proof. intros I. apply submits_skip; try done; [by apply tick_inv|cbn; lia]. Qed.

(** What the first batch and the refill leave: every slot busy, or no bytes to
    read, unless something stops the run. *)
Definition served c : Prop := error c <> 0 \/ ask_interrupted (now c) = true \/ filled c (pipeline_depth cfg).

Hypothesis Hchunk : 0 < chunk_size cfg.

(** A submission touches its own slot only. *)
Lemma submit_read_slots c i k j : j <> k -> slots (submit_read cfg c i k) !! j = slots c !! j.
Proof.
  intros Hj. unfold submit_read, submit, sys. cbn zeta. set (c0 := if file_size _ <=? _ then _ else _).
  assert (slots c0 !! j = slots c !! j) as E0 by (unfold c0; destruct (file_size _ <=? _); cbn; by rewrite list_lookup_alter_ne).
  rewrite <- E0. clearbody c0. destruct (ask_errno (now c0) =? 0) eqn:Ea; [done|]. rewrite Ea. cbn [negb].
  unfold set_error. cbn [error now]. match goal with |- context [if ?b then _ else _] => destruct b end; cbn; by rewrite list_lookup_alter_ne.
Qed.

Lemma next_read_slots k j : j <> k -> forall fuel c, slots (submit_next_read cfg fuel c k) !! j = slots c !! j.
Proof.
  intros Hj. induction fuel as [|fuel IH]; intros c; cbn [submit_next_read]; [done|]. destruct (find_reader _ _ _) as [i|]; [|done].
  destruct (fd _ <? 0); [|by apply submit_read_slots]. destruct (open_task c i) as [ok c1] eqn:Eo.
  assert (slots c1 = slots c) as Es by (revert Eo; unfold open_task, sys; destruct (_ =? 0); cbn; by intros [= <- <-]).
  destruct ok; [destruct (_ =? 0)|]; rewrite ?IH, ?submit_read_slots by done; cbn; by rewrite Es.
Qed.

Lemma busy_next c k j : j <> k -> busy (next_read cfg c k) j -> busy c j.
Proof. intros Hj (x & Hx & Hne). exists x. unfold next_read in Hx. by rewrite next_read_slots in Hx. Qed.

Section Serve.
Hypothesis Hsig : forall n m, (n <= m)%nat -> ask_interrupted n = true -> ask_interrupted m = true.

Lemma first_batch_serves n : forall k c, inv c -> error c = 0 -> (k + n = pipeline_depth cfg)%nat -> filled c k -> (forall j, (k <= j)%nat -> ~ busy c j) ->
  let c' := first_batch cfg c k n in submits c c' /\ served c'.
Proof.
  induction n as [|n IH]; intros k c I He Hn Hfill Hfree; cbn [first_batch]; cbn zeta.
  { split; [by apply submits_refl|]. right. right. by replace (pipeline_depth cfg) with k by lia. }
  rewrite (proj2 (Z.eqb_eq _ _) He). cbn [negb]. unfold g_interrupted. destruct (ask_interrupted (now c)) eqn:Ei.
  { split; [by apply tick_submits|]. right. left. cbn. by apply (Hsig (now c)); [lia|]. }
  set (c1 := c <| now := S (now c) |>). assert (submits c c1) as S1 by (by apply tick_submits).
  destruct (next_read_fills c1 k) as [S2 F2]; try done; [by apply tick_inv|lia|by apply (Hfree k)|].
  pose proof (submits_trans _ _ _ _ _ _ S1 He S2) as S3. destruct (decide (error (next_read cfg c1 k) = 0)) as [E2|E2].
  - destruct (IH (S k) (next_read cfg c1 k)) as [S4 F4]; [apply S2|done|lia|by apply F2| |by split; [by eapply submits_trans|]].
    intros j Hj Hb. apply (Hfree j); [lia|]. by apply busy_next in Hb; [|lia].
  - assert (first_batch cfg (next_read cfg c1 k) (S k) n = next_read cfg c1 k) as ->; [|by split; [|left]].
    destruct n; cbn [first_batch]; [done|]. by rewrite (proj2 (Z.eqb_neq _ _) E2).
Qed.

Lemma refill_error n : forall k c, error c <> 0 -> refill cfg c k n = c.
Proof.
  induction n as [|n IH]; intros k c He; cbn [refill]; [done|]. rewrite (proj2 (Z.eqb_neq _ _) He). cbn [negb].
  destruct (decide _); by apply IH.
Qed.

Lemma refill_serves n : forall k c, inv c -> error c = 0 -> (k + n = pipeline_depth cfg)%nat -> ask_interrupted (now c) = true \/ filled c k ->
  let c' := refill cfg c k n in submits c c' /\ served c'.
Proof.
  induction n as [|n IH]; intros k c I He Hn Hfill; cbn [refill]; cbn zeta.
  { split; [by apply submits_refl|]. right. by replace (pipeline_depth cfg) with k by lia. }
  destruct (lookup_lt_is_Some_2 (slots c) k) as [s Hk]; [rewrite (v_depth _ _ _ _ _ I); lia|].
  rewrite (slot_at_is _ _ _ Hk). destruct (decide (state s = BUF_FREE)) as [Hs|Hs].
  2:{ apply (IH (S k)); [done|done|lia|]. destruct Hfill as [|[|Hb]]; [by left|right; by left|right; right].
      intros j Hj. destruct (decide (j = k)) as [->|]; [by exists s|]. apply Hb. lia. }
  rewrite (proj2 (Z.eqb_eq _ _) He). cbn [negb]. unfold g_interrupted. set (c1 := c <| now := S (now c) |>).
  assert (submits c c1) as S1 by (by apply tick_submits). destruct (ask_interrupted (now c)) eqn:Ei.
  - destruct (IH (S k) c1) as [S2 F2]; [by apply tick_inv|done|lia|left; by apply (Hsig (now c)); [cbn; lia|]|].
    split; [by eapply submits_trans|done].
  - destruct Hfill as [?|Hfill]; [done|]. destruct (next_read_fills c1 k) as [S2 F2]; try done; [by apply tick_inv|lia|intros (x & Hx & Hne); cbn in Hx; congruence|].
    pose proof (submits_trans _ _ _ _ _ _ S1 He S2) as S3. destruct (decide (error (next_read cfg c1 k) = 0)) as [E2|E2].
    + destruct (IH (S k) (next_read cfg c1 k)) as [S4 F4]; [apply S2|done|lia|right; by apply F2|]. split; [by eapply submits_trans|done].
    + rewrite refill_error by done. split; [done|by left].
Qed.

(** ** Something is in flight *)

Lemma pending_op c i t : inv c -> tasks (queue c) !! i = Some t -> 0 < t_active_ops t -> ops c <> [].
Proof.
  intros I Hi Ha. destruct (v_task _ _ _ _ _ I i t Hi) as [_ _ _ _ (l & _ & C & A & _) _ _]. destruct l as [|k l]; [cbn in A; lia|].
  destruct C as (len & (s & Hk & Ht & Ho & _) & _). pose proof (v_slot _ _ _ _ _ I k s Hk) as Sk. unfold slot_ok in Sk.
  destruct (state s) eqn:Es; [congruence| |].
  - destruct Sk as (_ & _ & o & _ & _ & Hin & _). intros E0. rewrite E0 in Hin. by apply elem_of_nil in Hin.
  - destruct (v_quiet _ _ _ _ _ I i t Hi ltac:(done)) as [Q _]. by destruct (Q k s Hk Es Ht).
Qed.

Lemma active_nonneg c : inv c -> Forall (fun x => 0 <= x) (t_active_ops <$> tasks (queue c)).
Proof.
  intros I. apply Forall_fmap, Forall_lookup. intros i t Hi. cbn. destruct (v_task _ _ _ _ _ I i t Hi) as [_ _ _ _ (l & _ & _ & -> & _) _ _]. lia.
Qed.

Lemma zsum_zero l : Forall (fun x => x <= 0) l -> zsum l <= 0.
Proof. induction 1; cbn; lia. Qed.

(** The counter of the pipeline is positive exactly while requests are in flight. *)
Lemma idle_iff c : inv c -> active_ops c <= 0 <-> ops c = [].
Proof.
  intros I. split.
  - intros Ha. destruct (ops c) as [|o l] eqn:Eo; [done|]. exfalso. assert (o ∈ ops c) as Ho by (rewrite Eo; left).
    destruct (v_op _ _ _ _ _ I o Ho) as (s & i & Hk & _ & Ht & _). pose proof (v_op _ _ _ _ _ I o Ho) as _.
    assert (exists t, tasks (queue c) !! i = Some t) as [t Hi].
    { pose proof (v_slot _ _ _ _ _ I _ s Hk) as Sk. unfold slot_ok in Sk. apply lookup_lt_is_Some_2. rewrite (v_count _ _ _ _ _ I).
      destruct (state s); [congruence| |]; [destruct Sk as (_ & i' & _ & E1 & ? & _)|destruct Sk as (i' & E1 & ? & _)]; congruence. }
    destruct (v_task _ _ _ _ _ I i t Hi) as [_ _ _ _ (l' & _ & _ & A & O) _ _]. specialize (O _ s Hk Ht).
    assert (0 < t_active_ops t) as Hp by (rewrite A; destruct l'; [by apply elem_of_nil in O|cbn; lia]).
    rewrite (v_active _ _ _ _ _ I) in Ha. pose proof (active_nonneg c I) as Hn.
    pose proof (zsum_insert (t_active_ops <$> tasks (queue c)) i 0 ltac:(rewrite length_fmap; by eapply lookup_lt_Some)) as Hz.
    rewrite (nth_lookup_Some _ _ _ (t_active_ops t)) in Hz by (by rewrite list_lookup_fmap, Hi).
    assert (0 <= zsum (<[i := 0]> (t_active_ops <$> tasks (queue c)))) by (apply zsum_nonneg, Forall_insert; [done|lia]). lia.
  - intros Eo. rewrite (v_active _ _ _ _ _ I). apply zsum_zero, Forall_fmap, Forall_lookup. intros i t Hi. cbn.
    destruct (Z.le_gt_cases (t_active_ops t) 0) as [|Hgt]; [done|]. by destruct (pending_op c i t I Hi ltac:(lia)).
Qed.

(** The main loop never waits for nothing. *)
Lemma not_all_done c : all_tasks_done c = false -> exists i t, tasks (queue c) !! i = Some t /\ done t = false.
Proof.
  unfold all_tasks_done. induction (tasks (queue c)) as [|t l IH]; [done|]. cbn. destruct (done t) eqn:Ed.
  - intros (i & u & Hi & Hu)%IH. by exists (S i), u.
  - intros _. by exists 0%nat, t.
Qed.

(** The main loop never waits for nothing. *)
Lemma served_pending c : inv c -> (0 < pipeline_depth cfg)%nat -> served c -> all_tasks_done c = false -> error c = 0 -> ask_interrupted (now c) = false -> ops c <> [].
Proof.
  intros I Hd [?|[?|[Ha|Hb]]] Hnd He Hi; [done|congruence| |].
  - destruct (not_all_done c Hnd) as (i & t & Ht & Hdn). destruct (v_quiet _ _ _ _ _ I i t Ht ltac:(done)) as [_ Q].
    apply (pending_op c i t I Ht). pose proof (active_nonneg c I) as Hn. rewrite Forall_fmap, Forall_lookup in Hn. specialize (Hn i t Ht). cbn in Hn.
    destruct (decide (t_active_ops t = 0)) as [E0|]; [|lia]. specialize (Q (Ha i t Ht) E0 He). congruence.
  - destruct (Hb 0%nat Hd) as (s & Hk & Hs). intros Eo. pose proof (proj2 (idle_iff c I) Eo) as Hact.
    pose proof (v_slot _ _ _ _ _ I _ s Hk) as Sk. unfold slot_ok in Sk. destruct (state s); [done| |].
    + destruct Sk as (_ & _ & o & _ & _ & Hin & _). rewrite Eo in Hin. by apply elem_of_nil in Hin.
    + destruct Sk as (i & Ht & Hlt & _). rewrite <- (v_count _ _ _ _ _ I) in Hlt. apply lookup_lt_is_Some_2 in Hlt as [t Hti].
      destruct (v_task _ _ _ _ _ I i t Hti) as [_ _ _ _ (l & _ & _ & A & O) _ _]. specialize (O _ s Hk Ht).
      apply (pending_op c i t I Hti); [|done]. rewrite A. destruct l; [by apply elem_of_nil in O|cbn; lia].
Qed.

(** ** Termination *)

(** Every wait completes a read, and reads come back in full. *)
Definition fair : Prop := forall n m, Forall (fun p => in_full (snd p)) (fst (ask_wait n m)) /\
  ((0 < m)%nat -> exists j a l, fst (ask_wait n m) = (j, a) :: l /\ (j < m)%nat).

(** Nothing is refused. *)
Definition calm : Prop := (forall n, ask_errno n = 0) /\ (forall n m, 0 <= snd (ask_wait n m)).

Lemma wait_ok c : fair -> inv c -> exists r c', aura_wait cfg c = Some (r, c') /\ waited c c' /\ (calm -> 0 <= r) /\ (ops c <> [] -> zlen (ops c') < zlen (ops c)).
Proof.
  intros F I. unfold aura_wait. destruct (ask_wait (now c) (length (ops c))) as [l r] eqn:Ew. destruct (F (now c) (length (ops c))) as [Hl Hp]. rewrite Ew in Hl, Hp.
  destruct (complete_all_ok l (c <| now := S (now c) |>)) as (c' & -> & [W1 W2 W3 W4 W5] & Hlt); [by apply tick_inv|done|].
  exists r, c'. split; [done|]. split; [split; try done; cbn in W4; lia|]. split; [intros [_ Hc]; specialize (Hc (now c) (length (ops c))); by rewrite Ew in Hc|].
  intros Hne. destruct Hp as (j & a & l' & El & Hj); [destruct (ops c); [done|cbn; lia]|]. apply (Hlt j a l'); [exact El|exact Hj].
Qed.

Lemma drain_ends fuel : fair -> forall c, inv c -> zlen (ops c) <= Z.of_nat fuel -> exists c', drain cfg fuel c = Returned (error c) c' /\ inv c' /\ ops c' = [].
Proof.
  intros F. induction fuel as [|fuel IH]; intros c I Hf; cbn [drain]; destruct (Z.leb_spec (active_ops c) 0) as [Ha|Ha]; try by (exists c; split; [done|split; [done|by apply idle_iff]]).
  - assert (ops c = []) as Eo by (destruct (ops c); [done|rewrite zlen_cons in Hf; pose proof (zlen_nonneg l); lia]). apply (idle_iff c I) in Eo. lia.
  - destruct (wait_ok c F I) as (r & c1 & -> & [W1 W2 W3 W4 W5] & _ & Hlt). rewrite <- W2. apply IH; [done|].
    assert (ops c <> []) as Hne by (intros Eo; apply (idle_iff c I) in Eo; lia). specialize (Hlt Hne). lia.
Qed.

Lemma hash_loop_ends fuel : fair -> (0 < pipeline_depth cfg)%nat -> forall c, inv c -> served c -> zlen (ops c) <= Z.of_nat fuel -> (error c = 0 -> work c <= Z.of_nat fuel) ->
  exists err c', main_loop cfg fuel c = Returned err c' /\ inv c' /\ ops c' = [] /\ (calm -> error c = 0 -> err = 0).
Proof.
  intros F Hd. induction fuel as [|fuel IH]; intros c I Hs Hops Hw; cbn [main_loop].
  all: destruct (all_tasks_done c) eqn:Ed; cbn [orb]; [destruct (drain_ends _ F c I Hops) as (c' & ? & ? & ?); by exists (error c), c'|].
  all: destruct (Z.eqb_spec (error c) 0) as [He|He]; cbn [negb]; [|destruct (drain_ends _ F c I Hops) as (c' & ? & ? & ?); by exists (error c), c'].
  all: unfold g_interrupted; set (c1 := c <| now := S (now c) |>); assert (inv c1) as I1 by (by apply tick_inv).
  all: destruct (ask_interrupted (now c)) eqn:Ei; [destruct (drain_ends _ F c1 I1 Hops) as (c' & ? & ? & ?); by exists (error c), c'|].
  all: pose proof (served_pending c I Hd Hs Ed He Ei) as Hne; specialize (Hw He); pose proof (remaining_nonneg _ _ _ _ _ I) as Hrem.
  { destruct (ops c) as [|o l]; [done|]. rewrite zlen_cons in Hops. pose proof (zlen_nonneg l). lia. }
  destruct (wait_ok c1 F I1) as (r & c2 & -> & [W1 W2 W3 W4 W5] & Hr & Hlt). specialize (Hlt Hne).
  change (ops c1) with (ops c) in *. change (remaining c1) with (remaining c) in *. change (error c1) with (error c) in *.
  destruct (wait_failed r) eqn:Ef.
  - assert (exists c3, (if error c2 =? 0 then c2 <| error := r |> else c2) = c3 /\ inv c3 /\ ops c3 = ops c2) as (c3 & -> & I3 & E3).
    { eexists. split; [done|]. rewrite W2, He. cbn. split; [|done]. assert (r <> 0) as Hr0 by (intros ->; done). destruct W1. split; try done.
      intros i t Hi Hx. destruct (v_quiet i t Hi Hx) as [Q1 Q2]. by split. }
    destruct (drain_ends fuel F c3 I3) as (c' & E4 & ? & ?); [rewrite E3; lia|]. exists (error c3), c'. repeat (split; [done|]).
    intros Hcalm _. specialize (Hr Hcalm). unfold wait_failed in Ef. destruct (Z.ltb_spec r 0); [lia|done].
  - assert (ask_interrupted (now c2) = true \/ filled c2 0) as Hfill by (right; right; intros j Hj; lia).
    destruct (refill_serves (pipeline_depth cfg) 0 c2 W1 ltac:(congruence) ltac:(lia) Hfill) as [[U1 U2 U3 U4 U5] S2].
    assert (work c2 <= Z.of_nat fuel) as Hw2 by (unfold work in *; lia).
    destruct (IH _ U1 S2) as (err & c' & E4 & I4 & O4 & C4); [lia|intros E0; destruct U5 as [[_ ?]|[? _]]; [lia|done]|].
    exists err, c'. split; [done|]. split; [done|]. split; [done|]. intros Hcalm _. apply C4; [done|]. destruct U5 as [[-> _]|[_ [m Hm]]]; [congruence|].
    destruct Hcalm as [Hcalm _]. by destruct Hm.
Qed.
(** ** What is printed when the pipeline returns 0 *)

Definition answers : Prop := forall n m, Forall (fun p => answer_ok (snd p)) (fst (ask_wait n m)).

Lemma wait_sound c r c' : answers -> sound c -> aura_wait cfg c = Some (r, c') -> sound c' /\ (error c <> 0 -> error c' <> 0).
Proof.
  intros A Hc. unfold aura_wait. destruct (ask_wait _ _) as [l r'] eqn:Ew. set (c1 := c <| now := _ |>).
  destruct (complete_all cfg c1 l) as [c2|] eqn:E2; [|done]. cbn [mbind option_bind]. intros [= <- <-].
  split; [|by apply (complete_all_error l c1)]. apply (complete_all_sound l c1); [|by specialize (A (now c) (length (ops c))); rewrite Ew in A|done].
  destruct Hc as [I|?]; [left; by apply tick_inv|by right].
Qed.

Lemma drain_sound fuel : answers -> forall c e c', sound c -> drain cfg fuel c = Returned e c' -> sound c' /\ e = error c' /\ (error c <> 0 -> error c' <> 0).
Proof.
  intros A. induction fuel as [|fuel IH]; intros c e c' Hc; cbn [drain]; destruct (active_ops c <=? 0); try by intros [= <- <-].
  destruct (aura_wait cfg c) as [[r c1]|] eqn:Ew; [|done]. destruct (wait_sound c r c1 A Hc Ew) as [S1 E1]. intros H.
  destruct (IH c1 e c' S1 H) as (S2 & E2 & E3). auto.
Qed.

(** When all files are done, the drain returns at once. *)
Lemma done_drain c fuel : inv c -> all_tasks_done c = true -> drain cfg fuel c = Returned (error c) c.
Proof.
  intros I Hd. assert (active_ops c <= 0) as Ha.
  { rewrite (v_active _ _ _ _ _ I). apply zsum_zero, Forall_fmap, Forall_lookup. intros i t Hi. cbn. unfold all_tasks_done in Hd.
    rewrite forallb_forall in Hd. destruct (k_done _ _ _ _ _ (v_task _ _ _ _ _ I i t Hi)) as (_ & -> & _); [|done].
    apply Hd, list_elem_of_In. by eapply list_elem_of_lookup_2. }
  destruct fuel; cbn [drain]; destruct (Z.leb_spec (active_ops c) 0); (done || lia).
Qed.

Lemma main_loop_sound fuel : answers -> forall c c', sound c -> main_loop cfg fuel c = Returned 0 c' ->
  inv c' /\ error c' = 0 /\ (all_tasks_done c' = true \/ exists n, ask_interrupted n = true).
Proof.
  intros A. assert (forall n c c', sound c -> drain cfg n c = Returned 0 c' -> error c = 0 /\ inv c' /\ error c' = 0) as Hdrain.
  { intros n c c' Hc H. destruct (drain_sound n A c 0 c' Hc H) as ([I|?] & E1 & E2); [|congruence]. split; [|done].
    destruct (decide (error c = 0)) as [|Hne]; [done|]. by destruct (E2 Hne). }
  induction fuel as [|fuel IH]; intros c c' Hc; cbn [main_loop].
  all: destruct (all_tasks_done c) eqn:Ed; cbn [orb]; [intros H; destruct (Hdrain _ c c' Hc H) as (He & I & He')|].
  1,3: destruct Hc as [Ic|?]; [|done]; rewrite done_drain in H by done; injection H as _ <-; split; [done|split; [done|by left]].
  all: destruct (Z.eqb_spec (error c) 0) as [He|He]; cbn [negb]; [|by intros H; destruct (Hdrain _ c c' Hc H)].
  all: unfold g_interrupted; set (c1 := c <| now := S (now c) |>); assert (sound c1) as Hc1 by (destruct Hc as [I|?]; [left; by apply tick_inv|by right]).
  all: destruct (ask_interrupted (now c)) eqn:Ei; [intros H; destruct (Hdrain _ c1 c' Hc1 H) as (_ & I & He'); split; [done|split; [done|right; by eexists]]|].
  { done. }
  destruct (aura_wait cfg c1) as [[r c2]|] eqn:Ew; [|done]. destruct (wait_sound c1 r c2 A Hc1 Ew) as [S2 E2]. destruct (wait_failed r) eqn:Ef.
  - assert (r <> 0) as Hr by (intros ->; done). destruct (Z.eqb_spec (error c2) 0) as [E0|E0]; intros H.
    + destruct (Hdrain fuel (c2 <| error := r |>) c') as [Hx _]; [by right|done|by cbn in Hx].
    + by destruct (Hdrain fuel c2 c' S2 H).
  - destruct S2 as [I2|E0]; [|rewrite refill_error by done; apply IH; by right]. destruct (decide (error c2 = 0)) as [E0|E0].
    + apply IH. left. destruct (refill_serves (pipeline_depth cfg) 0 c2) as [[U1 _ _ _ _] _]; try done. right. right. intros j Hj. lia.
    + rewrite refill_error by done. apply IH. by left.
Qed.
End Serve.
End Run.

(** ** The state of a worker *)

Section Claims.
Context {V : Evp} `{!EvpLaws V} {E : ClientEnv} (cfg : config_t).
Implicit Types (c : hash_ctx_t) (t : file_task_t).

Record fresh_task c t : Prop := {
  ft_size : file_size t = zlen (default [] (files c !! path t));
  ft_closed : fd t < 0;
  ft_counts : read_offset t = 0 /\ hash_offset t = 0 /\ t_active_ops t = 0 /\ bytes_hashed t = 0;
  ft_flags : reads_done t = false /\ done t = false;
  ft_md : md_ctx t = md_init
}.

(** What [run_worker_pipeline] hands to [hash_pipeline]: files of the size
    [stat] reported, none of them started, and free slots. *)
Record ready c : Prop := {
  rd_tasks : Forall (fresh_task c) (tasks (queue c));
  rd_slots : Forall (fun s => state s = BUF_FREE /\ task s = None) (slots c);
  rd_depth : length (slots c) = pipeline_depth cfg;
  rd_idle : ops c = [] /\ active_ops c = 0 /\ error c = 0 /\ current (queue c) = 0%nat;
  rd_silent : stdout c = [] /\ stderr c = [];
  rd_chunk : 0 < chunk_size cfg
}.

(** SIGINT sets a flag that is never cleared. *)
Definition sticky : Prop := forall n m, (n <= m)%nat -> ask_interrupted n = true -> ask_interrupted m = true.

Definition paths c : list string := path <$> tasks (queue c).

Lemma paths_at c i t : tasks (queue c) !! i = Some t -> name_of (paths c) i = path t.
Proof. intros Hi. unfold name_of, paths. apply nth_lookup_Some. by rewrite list_lookup_fmap, Hi. Qed.

Lemma ready_hash_inv c : ready c -> inv cfg (files c) (paths c) None c.
Proof.
  intros [Ht Hs Hd (Ho & Ha & He & Hc) (Hout & Herr) Hch]. rewrite Forall_lookup in Ht. rewrite Forall_lookup in Hs.
  assert (forall k s, slots c !! k = Some s -> state s = BUF_FREE /\ task s = None) as Hfree by (intros; eapply Hs; done).
  split; try done; rewrite ?Ho.
  - unfold paths. by rewrite length_fmap.
  - intros i t Hi. destruct (Ht i t Hi) as [F1 F2 (F3 & F4 & F5 & F6) (F7 & F8) F9]. split.
    + by rewrite (paths_at c i t Hi).
    + unfold data_of. by rewrite (paths_at c i t Hi).
    + by rewrite F9, F4, F6, md_update_nil.
    + rewrite F4, F3, F1. split; [done|apply zlen_nonneg].
    + exists []. split; [constructor|]. split; [cbn; congruence|]. split; [done|]. intros k s Hk Hx. destruct (Hfree k s Hk). congruence.
    + congruence.
    + intros _. by rewrite (proj2 (Z.ltb_lt _ _) F2).
  - intros k s Hk. unfold slot_ok. destruct (Hfree k s Hk) as [-> ?]. done.
  - intros o Hin. by apply elem_of_nil in Hin.
  - constructor.
  - rewrite Ha. symmetry. assert (Forall (fun x => x = 0) (t_active_ops <$> tasks (queue c))) as Hz.
    { apply Forall_fmap, Forall_lookup. intros i t Hi. by destruct (Ht i t Hi) as [_ _ (_ & _ & ? & _) _ _]. }
    clear -Hz. induction Hz as [|x l -> _ IH]; [done|]. cbn. by rewrite IH.
  - intros i t Hi Hf. destruct (Ht i t Hi). lia.
  - intros i j t t' Hi Hj Hf. destruct (Ht i t Hi). lia.
  - intros i t Hi _. destruct (Ht i t Hi) as [_ _ _ (F7 & F8) _]. split; [|congruence]. intros k s Hk Hx. destruct (Hfree k s Hk). congruence.
  - intros _ i t Hi Hr. destruct (Ht i t Hi) as [_ _ _ (F7 & F8) _]. congruence.
  - intros i t Hi Hlt. lia.
  - intros _. exists [], []. rewrite Hout, Herr. split; [done|]. split; [done|]. split; [constructor|]. intros i. split; [by intros ?%elem_of_nil|].
    intros (t & Hi & Hdn). destruct (Ht i t Hi) as [_ _ _ (F7 & F8) _]. congruence.
Qed.

Lemma first_batch_hash c : ready c -> sticky -> submits cfg (files c) (paths c) c (first_batch cfg c 0 (pipeline_depth cfg)) /\
  served cfg (first_batch cfg c 0 (pipeline_depth cfg)).
Proof.
  intros R S. pose proof (ready_hash_inv c R) as I. destruct R as [_ Hs Hd (_ & _ & He & _) _ Hch]. rewrite Forall_lookup in Hs.
  apply (first_batch_serves cfg (files c) (paths c) Hch S (pipeline_depth cfg) 0 c I He eq_refl).
  - right. intros j Hj. lia.
  - intros j _ (x & Hx & Hne). by destruct (Hs j x Hx).
Qed.

Lemma ready_remaining c : ready c -> remaining c = zsum (file_size <$> tasks (queue c)).
Proof.
  intros [Ht _ _ _ _ _]. unfold remaining. f_equal. apply list_fmap_ext. intros i t Hi. rewrite Forall_lookup in Ht.
  destruct (Ht i t Hi) as [_ _ (F3 & _) (F7 & _) _]. unfold left_of. rewrite F7, F3. lia.
Qed.

(** With nothing in flight the slots are free. *)
Lemma settled c fs ps : inv cfg fs ps None c -> ops c = [] -> active_ops c = 0 /\ Forall (fun s => state s = BUF_FREE) (slots c).
Proof.
  intros I Ho. pose proof (active_nonneg cfg fs ps c I) as Hn. pose proof (proj2 (idle_iff cfg fs ps c I) Ho) as Ha. split.
  - rewrite (v_active _ _ _ _ _ I) in *. pose proof (zsum_nonneg _ Hn). lia.
  - apply Forall_lookup. intros k s Hk. pose proof (v_slot _ _ _ _ _ I k s Hk) as Sk. unfold slot_ok in Sk. destruct (state s); [done| |].
    + destruct Sk as (_ & i & o & _ & _ & Hin & _). rewrite Ho in Hin. by apply elem_of_nil in Hin.
    + destruct Sk as (i & Ht & Hlt & _). rewrite <- (v_count _ _ _ _ _ I) in Hlt. apply lookup_lt_is_Some_2 in Hlt as [t Hti].
      destruct (v_task _ _ _ _ _ I i t Hti) as [_ _ _ _ (l & _ & _ & A & O) _ _]. specialize (O _ s Hk Ht).
      destruct (pending_op cfg fs ps c i t I Hti); [|done]. rewrite A. destruct l; [by apply elem_of_nil in O|cbn; lia].
Qed.

(** The line [sha256sum] prints for a file of the queue. *)
Definition expected c (i : nat) : string :=
  digest_line (md_final (md_update md_init (default [] (files c !! name_of (paths c) i)))) (name_of (paths c) i).

(** When the pipeline returns 0, what it has printed is right: the lines on
    standard output are the digests of whole files, each file at most once, and
    the messages name files that could not be opened; if nobody interrupted the
    program, every file of the queue has its line or its message. Reads may be
    completed in any order and any number at a time, submissions and opens may
    fail; a read is answered in full or with an error. *)
Theorem digests_are_right c c' (fuel : nat) (R : ready c) (S : sticky) (A : answers cfg) (H : hash_pipeline cfg fuel c = Returned 0 c') :
  exists F G, stdout c' = expected c <$> F /\ stderr c' = (fun i => CannotOpen (name_of (paths c) i)) <$> G /\
    NoDup (F ++ G) /\ (forall i, i ∈ F ++ G -> (i < length (tasks (queue c)))%nat) /\
    ((forall n, ask_interrupted n = false) -> F ++ G ≡ₚ seq 0 (length (tasks (queue c)))).
Proof.
  destruct (first_batch_hash c R S) as [[I1 _ _ _ _] _].
  destruct (main_loop_sound cfg (files c) (paths c) (rd_chunk _ R) S fuel A _ c' (or_introl I1) H) as (I' & He & Hend).
  destruct (v_out _ _ _ _ _ I' He) as (F & G & O1 & O2 & O3 & O4). assert (length (tasks (queue c')) = length (tasks (queue c))) as Hl.
  { rewrite (v_count _ _ _ _ _ I'). unfold paths. by rewrite length_fmap. }
  assert (forall i, i ∈ F ++ G -> (i < length (tasks (queue c)))%nat) as Hlt by (intros i (t & Hi & _)%O4; apply lookup_lt_Some in Hi; lia).
  exists F, G. repeat (split; [done|]). intros Hint. apply NoDup_Permutation; [done|apply NoDup_seq|]. intros i. rewrite elem_of_seq.
  split; [intros Hi; specialize (Hlt i Hi); lia|]. intros [_ Hi]. apply O4.
  destruct (lookup_lt_is_Some_2 (tasks (queue c')) i) as [t Ht]; [lia|]. exists t. split; [done|]. destruct Hend as [Hd|[n Hn]]; [|congruence].
  unfold all_tasks_done in Hd. rewrite forallb_forall in Hd. apply Hd, list_elem_of_In. by eapply list_elem_of_lookup_2.
Qed.

(** C17. The pipeline returns. When reads come back in full, every wait completes
    one while some are in flight, and there is at least one slot, then twice as
    many waits as the files have bytes are enough: whatever is refused, cannot be
    opened or is interrupted, hash_pipeline returns with nothing in flight and all
    slots free, so that the buffers can be released; and it returns 0 when nothing
    was refused. *)
Theorem hash_completes c (fuel : nat) (R : ready c) (S : sticky) (F : fair cfg) (Hdepth : (0 < pipeline_depth cfg)%nat)
    (Hfuel : 2 * zsum (file_size <$> tasks (queue c)) <= Z.of_nat fuel) :
  exists err c', hash_pipeline cfg fuel c = Returned err c' /\ ops c' = [] /\ active_ops c' = 0 /\
    Forall (fun s => state s = BUF_FREE) (slots c') /\ (calm -> err = 0).
Proof.
  destruct (first_batch_hash c R S) as [[I1 N1 B1 O1 W1] S1]. assert (work c <= Z.of_nat fuel) as Hw.
  { unfold work. destruct (rd_idle _ R) as (-> & _). rewrite ready_remaining by done. unfold zlen. cbn. lia. }
  unfold hash_pipeline. set (c1 := first_batch _ _ _ _) in *. clearbody c1. pose proof (rd_idle _ R) as (_ & _ & He & _).
  destruct (hash_loop_ends cfg _ _ (rd_chunk _ R) S fuel F Hdepth c1 I1 S1) as (err & c' & E1 & I' & O' & C'); [lia| |].
  { intros E0. destruct W1 as [[_ ?]|[? _]]; [lia|done]. }
  exists err, c'. split; [done|]. split; [done|]. destruct (settled c' _ _ I' O') as [Ha Hs]. split; [done|]. split; [done|]. intros Hcalm.
  apply C'; [done|]. destruct W1 as [[-> _]|[_ [m Hm]]]; [done|]. by destruct Hm, Hcalm.
Qed.
End Claims.

(** ** Examples *)

(** A digest for the examples: the sum of the bytes. *)
#[local] Instance sum_md : Evp := {| md_state := Z; md_init := 0; md_update := fun c l => c + zsum l; md_final := fun c => [c mod 256] |}.

#[local] Instance sum_md_laws : EvpLaws sum_md.
Proof.
  split; cbn.
  - intros c a b. rewrite zsum_app. lia.
  - intros c. lia.
Qed.

Definition demo_cfg : config_t := {| chunk_size := 4; pipeline_depth := 2; recursive := false |}.

Definition demo_task (p : string) (size : Z) : file_task_t :=
  {| path := p; file_size := size; fd := -1; read_offset := 0; hash_offset := 0; t_active_ops := 0; reads_done := false; done := false;
     md_ctx := md_init; bytes_hashed := 0 |}.

Definition demo_queue (l : list (string * Z)) : task_queue_t :=
  {| tasks := map (fun p => demo_task (fst p) (snd p)) l; current := 0; total_files := zlen l; completed_files := 0; total_bytes := zsum (map snd l); bytes_read := 0 |}.

Definition demo_files : gmap string (list Z) := {["a"%string := [1; 2; 3; 4; 5; 6; 7; 8; 9; 10]; "b"%string := []; "c"%string := [20; 30]]}.

Definition demo_ctx (l : list (string * Z)) : hash_ctx_t :=
  {| queue := demo_queue l; slots := replicate 2 dummy_slot; active_ops := 0; error := 0; ops := []; fds := ∅; files := demo_files;
     stdout := []; stderr := []; now := 0 |}.

Definition three_files : hash_ctx_t := demo_ctx [("a", 10); ("b", 0); ("c", 2)]%string.

(** The last request is completed first; [refuse] are the questions answered
    with an errno, [answers_of] what the kernel says to a read. *)
Definition demo_env (refuse : nat -> Z) (answers_of : nat -> answer) : ClientEnv :=
  {| ask_errno := refuse; ask_interrupted := fun _ => false;
     ask_wait := fun n m => (match m with O => [] | S m => [(m, answers_of n)] end, 0) |}.

Definition good_env : ClientEnv := demo_env (fun _ => 0) (fun _ => Transfer 4).

Definition shown (o : outcome) : option (Z * list string * list diag) :=
  match o with Returned e c => Some (e, stdout c, stderr c) | _ => None end.

Definition final_of (o : outcome) : hash_ctx_t := match o with Returned _ c | Running c => c | NullTask => three_files end.

Lemma three_files_ready : ready demo_cfg three_files.
Proof. split; try done; repeat constructor. Qed.

Definition demo_end : hash_ctx_t := final_of (hash_pipeline (E := good_env) demo_cfg 24 three_files).

Lemma digests_are_right_witness :
  hash_pipeline (E := good_env) demo_cfg 24 three_files = Returned 0 demo_end /\
  exists F G, stdout demo_end = expected three_files <$> F /\ stderr demo_end = (fun i => CannotOpen (name_of (paths three_files) i)) <$> G /\
    NoDup (F ++ G) /\ (forall i, i ∈ F ++ G -> (i < 3)%nat) /\ ((forall _ : nat, false = false) -> F ++ G ≡ₚ seq 0 3).
Proof.
  assert (hash_pipeline (E := good_env) demo_cfg 24 three_files = Returned 0 demo_end) as H by (vm_compute; reflexivity).
  split; [exact H|]. apply (digests_are_right (E := good_env) demo_cfg three_files demo_end 24); [exact three_files_ready|..|exact H].
  - done.
  - intros n [|m]; cbn; repeat constructor. done.
Defined.

Lemma hash_completes_witness : exists err c', hash_pipeline (E := good_env) demo_cfg 24 three_files = Returned err c' /\ ops c' = [] /\ active_ops c' = 0 /\
    Forall (fun s => state s = BUF_FREE) (slots c') /\ (calm (E := good_env) -> err = 0).
Proof.
  apply (hash_completes (E := good_env) demo_cfg three_files 24); [exact three_files_ready|..].
  - done.
  - intros n [|m]; cbn; (split; [|intros Hm]).
    + constructor.
    + lia.
    + constructor; [by exists 4|constructor].
    + exists m, (Transfer 4), []. split; [done|lia].
  - cbn. lia.
  - cbn. lia.
Defined.

Example demo_digests : shown (hash_pipeline (E := good_env) demo_cfg 24 three_files) =
  Some (0, [digest_line [0] "b"; digest_line [50] "c"; digest_line [55] "a"], [])%string.
Proof. vm_compute. reflexivity. Qed.

(** A read in the middle of a file comes back short: its next bytes are never
    read, the pieces after them wait for them, and the program does not end. *)
Example short_read_hangs :
  match hash_pipeline (E := demo_env (fun _ => 0) (fun n => if (n <? 10)%nat then Transfer 2 else Transfer 4)) demo_cfg 200 three_files with
  | Running c => ops c = [] /\ stdout c = [] | _ => False end.
Proof. vm_compute. done. Qed.

(** The last read of a file comes back short: the digest of a part of the file
    is printed, and the pipeline returns 0. *)
Example short_read_prints : shown (hash_pipeline (E := demo_env (fun _ => 0) (fun _ => Transfer 1)) demo_cfg 24 (demo_ctx [("c", 2)]%string)) =
  Some (0, [digest_line [20] "c"], [])%string.
Proof. vm_compute. reflexivity. Qed.

(** A read fails when later ones of its file have completed: they keep their
    slots and their count, and the final drain does not end. *)
Example failed_read_hangs :
  match hash_pipeline (E := demo_env (fun _ => 0) (fun n => if (n <? 7)%nat then Transfer 4 else Refuse 5)) demo_cfg 200 three_files with
  | Running c => error c = -5 /\ ops c = [] /\ active_ops c = 1 | _ => False end.
Proof. vm_compute. done. Qed.

(** The last submission for a file is refused: the digest of the part before it
    is printed all the same. *)
Example refused_read_prints :
  shown (hash_pipeline (E := demo_env (fun n => if (n =? 4)%nat then 11 else 0) (fun _ => Transfer 4)) demo_cfg 200 (demo_ctx [("a", 8)]%string)) =
  Some (-11, [digest_line [10] "a"], [SubmitFailed "a"])%string.
Proof. vm_compute. reflexivity. Qed.

(** A file that has shrunk since [stat]: when the read at its end returns 0 after
    the others have completed, the program waits for ever. *)
Example shrunk_file_hangs :
  let env := {| ask_errno := fun _ => 0; ask_interrupted := fun _ => false;
                ask_wait := fun _ m => (match m with O => [] | _ => [(0%nat, Transfer 4)] end, 0) |} in
  match hash_pipeline (E := env) demo_cfg 200 (demo_ctx [("c", 6)]%string) with
  | Running c => ops c = [] /\ active_ops c = 0 /\ stdout c = [] | _ => False end.
Proof. vm_compute. done. Qed.
