(* ===== verification/HashTasks.v ===== *)
(** * aura-hash: the list of files and the workers

    [aura-hash.c] 260-272, 295-373, 583-799: the queue, [add_file_task], the walk,
    [build_task_list], [run_worker_pipeline] and the distribution of the files in
    [run_multithreaded]. Every worker has an engine, a queue and a pipeline of its
    own ([HashPipe]); what the threads share (the table of descriptors, of which
    each uses those it opened, the locked standard output and the counters of the
    progress display) does not make them depend on each other. *)
From Stdlib Require Import ZArith Lia List String.
From stdpp Require Import base tactics strings list gmap.
From S2P Require Import Prelude Client HashPipe HashSpec HashRun.

#[local] Open Scope Z_scope.
#[local] Arguments zlen : simpl never.

Definition MAX_WORKERS : Z := 64.

Section Tasks.
Context {V : Evp}.

(** ** The list *)

Definition queue_init : task_queue_t :=
  {| tasks := []; current := 0; total_files := 0; completed_files := 0; total_bytes := 0; bytes_read := 0 |}.

Definition queue_push (q : task_queue_t) (t : file_task_t) : task_queue_t :=
  {| tasks := tasks q ++ [t]; current := if (current q <? List.length (tasks q))%nat then current q else List.length (tasks q);
     total_files := total_files q + 1; completed_files := completed_files q; total_bytes := total_bytes q + file_size t; bytes_read := bytes_read q |}.

(** [calloc] zeroes the task; its descriptor is set to -1 and its digest started. *)
Definition new_task (p : string) (size : Z) : file_task_t :=
  {| path := p; file_size := size; fd := -1; read_offset := 0; hash_offset := 0; t_active_ops := 0; reads_done := false; done := false;
     md_ctx := md_init; bytes_hashed := 0 |}.

(** The queue, and the number of questions asked. *)
Record list_t := { l_queue : task_queue_t; l_now : nat }.

Section List.
Context {T : TaskEnv}.
Implicit Types b : list_t.

Definition alloc b : bool * list_t := (ask_alloc (l_now b), {| l_queue := l_queue b; l_now := S (l_now b) |}).

(** [calloc], [strdup], [EVP_MD_CTX_new] and [EVP_DigestInit_ex] can fail. *)
Definition add_file_task b (p : string) (size : Z) : bool * list_t :=
  let '(ok, b) := alloc b in
  if negb ok then (false, b)
  else let '(ok, b) := alloc b in
       if negb ok then (false, b)
       else let '(ok, b) := alloc b in
            if negb ok then (false, b)
            else let '(ok, b) := alloc b in
                 if negb ok then (false, b)
                 else (true, {| l_queue := queue_push (l_queue b) (new_task p size); l_now := l_now b |}).

(** [S_ISREG]. *)
Definition is_reg (m : Z) : bool := Z.land m 61440 =? 32768.

(** The number of errors grows by one when [false]. *)
Definition nftw_callback (e : ftw_entry) b : bool * list_t :=
  match typeflag e with
  | FTW_F => if negb (is_reg (fmode e)) then (true, b) else add_file_task b (fpath e) (fsize e)
  | _ => (true, b)
  end.

Fixpoint walk (l : list ftw_entry) (errors : Z) b : Z * list_t :=
  match l with
  | [] => (errors, b)
  | e :: l => let '(ok, b) := nftw_callback e b in walk l (if ok then errors else errors + 1) b
  end.

(** One argument; [false] ends the program. *)
Definition add_argument (cfg : config_t) (p : string) b : bool * list_t :=
  match ask_stat (l_now b) p with
  | None => (false, b)
  | Some st =>
      let b := {| l_queue := l_queue b; l_now := S (l_now b) |} in
      match sb_kind st with
      | S_DIR =>
          if negb (recursive cfg) then (false, b)
          else match ask_nftw p with
               | None => (false, b)
               | Some l => let '(errors, b) := walk l 0 b in (errors =? 0, b)
               end
      | S_REG => add_file_task b p (sb_size st)
      | S_OTHER => (true, b)
      end
  end.

Fixpoint add_arguments (cfg : config_t) (l : list string) b : bool * list_t :=
  match l with
  | [] => (true, b)
  | p :: l => let '(ok, b) := add_argument cfg p b in if negb ok then (false, b) else add_arguments cfg l b
  end.

Definition build_task_list (cfg : config_t) (paths : list string) (now : nat) : option task_queue_t :=
  let '(ok, b) := add_arguments cfg paths {| l_queue := queue_init; l_now := now |} in
  if negb ok then None else if total_files (l_queue b) =? 0 then None else Some (l_queue b).
End List.

(** ** The workers *)

Definition get_num_cpus (n : Z) : Z := let n := if n <? 1 then 1 else n in if MAX_WORKERS <? n then MAX_WORKERS else n.

Definition num_workers (ncpus : Z) (q : task_queue_t) : Z :=
  let n := get_num_cpus ncpus in
  let n := if total_files q <? n then total_files q else n in
  if n <? 1 then 1 else n.

(** [queue_push(&workers[idx % num_workers].queue, t)] for every task. *)
Fixpoint partition (l : list file_task_t) (idx : nat) (queues : list task_queue_t) : list task_queue_t :=
  match l with
  | [] => queues
  | t :: l => partition l (S idx) (alter (fun q => queue_push q t) (idx mod List.length queues)%nat queues)
  end.

(** The queues of the workers; a single worker runs on the queue it finds. *)
Definition worker_queues (ncpus : Z) (q : task_queue_t) : list task_queue_t :=
  let n := num_workers ncpus q in
  if n =? 1 then [q] else partition (tasks q) 0 (replicate (Z.to_nat n) queue_init).

Section Worker.
Context {E : ClientEnv} (cfg : config_t).

(** [aura_buffer_alloc]: what the buffer holds at first does not matter. *)
Definition new_slot (junk : list Z) : buf_slot_t := {| buf := junk; offset := 0; bytes := 0; state := BUF_FREE; task := None |}.

Definition worker_ctx (fs : gmap string (list Z)) (junk : nat -> list Z) (q : task_queue_t) : hash_ctx_t :=
  {| queue := q; slots := map (fun i => new_slot (junk i)) (seq 0 (pipeline_depth cfg)); active_ops := 0; error := 0; ops := []; fds := ∅;
     files := fs; stdout := []; stderr := []; now := 0 |}.

(** [engine], [calloc] and [aura_buffer_alloc] succeed as [ok] says, in that order. *)
Definition run_worker_pipeline (fuel : nat) (ok : nat -> bool) (fs : gmap string (list Z)) (junk : nat -> list Z) (q : task_queue_t) : outcome :=
  let c := worker_ctx fs junk q in
  if total_files q =? 0 then Returned 0 c
  else if negb (ok 0%nat && ok 1%nat) then Returned (-1) c
  else if negb (forallb (fun i => ok (2 + i)%nat) (seq 0 (pipeline_depth cfg))) then Returned (-1) c
  else hash_pipeline cfg fuel c.
End Worker.

(** The error of the program is the one of the first worker that has one. *)
Fixpoint first_error (l : list Z) : Z := match l with [] => 0 | e :: l => if e =? 0 then first_error l else e end.

(** [main] after the workers: 130 when interrupted, 1 on an error. *)
Definition exit_status (err : Z) (interrupted : bool) : Z := if negb (err =? 0) || interrupted then if interrupted then 130 else 1 else 0.

(** ** The distribution *)

Lemma partition_length l : forall idx qs, length (partition l idx qs) = length qs.
Proof. induction l as [|t l IH]; intros idx qs; cbn; [done|]. by rewrite IH, length_alter. Qed.

Lemma flat_alter {A B} (f : A -> list B) (g : A -> A) (x : B) (l : list A) k : (k < length l)%nat -> (forall a, f (g a) = f a ++ [x]) ->
  flat_map f (alter g k l) ≡ₚ x :: flat_map f l.
Proof.
  intros Hk Hf. revert k Hk. induction l as [|a l IH]; intros [|k] Hk; cbn in Hk |- *; [lia|lia|rewrite Hf; solve_Permutation|].
  change (list_alter g k l) with (alter g k l). rewrite IH by lia. solve_Permutation.
Qed.

(** No file is lost or given to two workers. *)
Lemma partition_tasks l : forall idx qs, qs <> [] -> flat_map tasks (partition l idx qs) ≡ₚ l ++ flat_map tasks qs.
Proof.
  induction l as [|t l IH]; intros idx qs Hne; cbn [partition]; [done|].
  assert (idx mod length qs < length qs)%nat as Hlt by (apply Nat.mod_upper_bound; by destruct qs).
  rewrite IH by (intros E0; apply (f_equal length) in E0; rewrite length_alter in E0; cbn in E0; lia).
  rewrite (flat_alter tasks (fun q => queue_push q t) t qs _ Hlt) by done. solve_Permutation.
Qed.

Record queue_ok (q : task_queue_t) : Prop := {
  q_files : total_files q = zlen (tasks q);
  q_bytes : total_bytes q = zsum (file_size <$> tasks q);
  q_current : current q = 0%nat
}.

Lemma pushed_ok q t : queue_ok q -> queue_ok (queue_push q t).
Proof.
  intros [Q1 Q2 Q3]. split; cbn.
  - rewrite Q1, zlen_app, zlen_cons, zlen_nil. lia.
  - rewrite Q2, fmap_app, zsum_app. cbn. lia.
  - rewrite Q3. by destruct (tasks q).
Qed.

Lemma partition_ok l : forall idx qs, Forall queue_ok qs -> Forall queue_ok (partition l idx qs).
Proof.
  induction l as [|t l IH]; intros idx qs Hq; cbn; [done|]. apply IH, Forall_alter; [done|]. intros q _. apply pushed_ok.
Qed.

(** There are at most 64 workers, and none without files. *)
Lemma num_workers_range ncpus q : 0 < total_files q -> 1 <= num_workers ncpus q <= 64 /\ num_workers ncpus q <= total_files q.
Proof.
  intros Hq. unfold num_workers. cbn zeta. assert (1 <= get_num_cpus ncpus <= 64) as Hn.
  { unfold get_num_cpus, MAX_WORKERS. cbn zeta. destruct (Z.ltb_spec ncpus 1); zcase; lia. }
  destruct (Z.ltb_spec (total_files q) (get_num_cpus ncpus)); zcase; lia.
Qed.

Lemma num_workers_pos ncpus q : 1 <= num_workers ncpus q.
Proof. unfold num_workers. cbn zeta. destruct (Z.ltb_spec (total_files q) (get_num_cpus ncpus)); zcase; lia. Qed.

(** What the workers get is the list of files. *)
Lemma worker_queues_ok ncpus q : queue_ok q -> flat_map tasks (worker_queues ncpus q) ≡ₚ tasks q /\ Forall queue_ok (worker_queues ncpus q).
Proof.
  intros Q. unfold worker_queues. destruct (Z.eqb_spec (num_workers ncpus q) 1) as [|Hn]; [split; [cbn; by rewrite app_nil_r|by apply Forall_singleton]|].
  pose proof (num_workers_pos ncpus q). split.
  - rewrite partition_tasks by (intros E0; apply (f_equal length) in E0; rewrite length_replicate in E0; cbn in E0; lia).
    assert (forall n, flat_map tasks (replicate n queue_init) = []) as -> by (by induction n). by rewrite app_nil_r.
  - apply partition_ok, Forall_replicate. by split.
Qed.

End Tasks.

(** ** The buffer of a line *)

Lemma string_app_length a b : String.length (a ++ b)%string = (String.length a + String.length b)%nat.
Proof. induction a as [|x a IH]; [done|]. change (String x a ++ b)%string with (String x (a ++ b)). cbn. by rewrite IH. Qed.

Lemma hex_length l : String.length (hex l) = (2 * List.length l)%nat.
Proof. induction l as [|b l IH]; [done|]. change (hex (b :: l)) with (hex_byte b ++ hex l)%string. rewrite string_app_length, IH. cbn. lia. Qed.

(** [char line[EVP_MAX_MD_SIZE * 2 + PATH_MAX + 4]] holds the line of any digest
    and any path, with its terminating zero. *)
Lemma digest_line_fits d p : zlen d <= EVP_MAX_MD_SIZE -> Z.of_nat (String.length p) < 4096 ->
  Z.of_nat (String.length (digest_line d p)) < EVP_MAX_MD_SIZE * 2 + 4096 + 4.
Proof.
  unfold EVP_MAX_MD_SIZE, zlen, digest_line. intros Hd Hp. rewrite !string_app_length, hex_length. cbn [String.length newline]. lia.
Qed.

(** ** What the whole run prints *)

Section Claim.
Context {V : Evp} `{!EvpLaws V} (cfg : config_t) (fs : gmap string (list Z)).

(** The line of a file, and the file as [add_file_task] queues it. *)
Definition right_line (t : file_task_t) : string := digest_line (md_final (md_update md_init (default [] (fs !! path t)))) (path t).

Definition queued (t : file_task_t) : Prop := t = new_task (path t) (zlen (default [] (fs !! path t))).

Lemma tasks_by_index (l : list file_task_t) : (fun i => nth i l dummy_task) <$> seq 0 (length l) = l.
Proof.
  apply list_eq. intros i. rewrite list_lookup_fmap. destruct (decide (i < length l)%nat) as [Hi|Hi].
  - rewrite lookup_seq_lt by done. cbn. destruct (lookup_lt_is_Some_2 l i Hi) as [t Ht]. by rewrite Ht, (nth_lookup_Some _ _ _ _ Ht).
  - rewrite lookup_seq_ge, lookup_ge_None_2 by lia. done.
Qed.

Lemma worker_ready (junk : nat -> list Z) q : 0 < chunk_size cfg -> queue_ok q -> Forall queued (tasks q) -> ready cfg (worker_ctx cfg fs junk q).
Proof.
  intros Hc Q Hq. split; cbn; try done.
  - eapply Forall_impl; [exact Hq|]. intros t Ht. by rewrite Ht.
  - apply Forall_forall. intros s (i & <- & _)%list_elem_of_In%in_map_iff. done.
  - by rewrite length_map, length_seq.
  - by rewrite (q_current _ Q).
Qed.

(** One worker. *)
Lemma worker_right {E : ClientEnv} fuel ok (junk : nat -> list Z) q c' : 0 < chunk_size cfg -> queue_ok q -> Forall queued (tasks q) ->
  answers cfg -> (forall n, ask_interrupted n = false) -> run_worker_pipeline cfg fuel ok fs junk q = Returned 0 c' ->
  exists F G, stdout c' = right_line <$> F /\ stderr c' = (fun t => CannotOpen (path t)) <$> G /\ F ++ G ≡ₚ tasks q.
Proof.
  intros Hc Q Hq A Hi. unfold run_worker_pipeline. set (c := worker_ctx cfg fs junk q). pose proof (worker_ready junk q Hc Q Hq) as R. fold c in R.
  destruct (Z.eqb_spec (total_files q) 0) as [Hz|_].
  { intros [= <-]. exists [], []. repeat (split; [done|]). rewrite (q_files _ Q) in Hz. unfold zlen in Hz. destruct (tasks q); [done|cbn in Hz; lia]. }
  destruct (negb _); [done|]. destruct (negb _); [done|]. intros H.
  destruct (digests_are_right cfg c c' fuel R) as (F & G & O1 & O2 & _ & O3 & O4); [intros n m _; by rewrite Hi|done|done|].
  set (at_i := fun i => nth i (tasks q) dummy_task). exists (at_i <$> F), (at_i <$> G).
  assert (forall i, (i < length (tasks q))%nat -> name_of (paths c) i = path (at_i i)) as Hn.
  { intros i Hlt. destruct (lookup_lt_is_Some_2 (tasks q) i Hlt) as [t Ht]. rewrite (paths_at c i t Ht). unfold at_i. by rewrite (nth_lookup_Some _ _ _ _ Ht). }
  split; [|split].
  - rewrite O1, <- list_fmap_compose. apply map_ext_in. intros i Hin%list_elem_of_In. unfold expected, right_line. cbn.
    rewrite Hn; [done|]. apply (O3 i), elem_of_app. by left.
  - rewrite O2, <- list_fmap_compose. apply map_ext_in. intros i Hin%list_elem_of_In. cbn. rewrite Hn; [done|]. apply (O3 i), elem_of_app. by right.
  - rewrite <- fmap_app, O4 by done. change (at_i <$> seq 0 (length (tasks q)) ≡ₚ tasks q). unfold at_i. by rewrite tasks_by_index.
Qed.

(** ** From the arguments to the list *)

Section Arguments.
Context {T : TaskEnv}.
Implicit Types b : list_t.

(** The regular files an argument stands for. *)
Definition regular (e : ftw_entry) : bool := match typeflag e with FTW_F => is_reg (fmode e) | _ => false end.

Definition files_of (p : string) : list string :=
  match ask_stat 0 p with
  | Some st => match sb_kind st with
               | S_REG => [p]
               | S_DIR => match ask_nftw p with Some l => fpath <$> List.filter regular l | None => [] end
               | S_OTHER => []
               end
  | None => []
  end.

(** The file system does not change, and its sizes are those of the files. *)
Record steady : Prop := {
  sd_stat : forall n p, ask_stat n p = ask_stat 0 p;
  sd_size : forall p st, ask_stat 0 p = Some st -> sb_kind st = S_REG -> sb_size st = zlen (default [] (fs !! p));
  sd_walk : forall p l e, ask_nftw p = Some l -> e ∈ l -> fsize e = zlen (default [] (fs !! fpath e))
}.

(** What has been queued so far. *)
Record listed b (l : list string) : Prop := {
  ls_paths : path <$> tasks (l_queue b) = l;
  ls_queue : queue_ok (l_queue b);
  ls_tasks : Forall queued (tasks (l_queue b))
}.

Lemma add_file_ok b l p size b' : listed b l -> size = zlen (default [] (fs !! p)) -> add_file_task b p size = (true, b') -> listed b' (l ++ [p]).
Proof.
  intros [L1 L2 L3] Hs. unfold add_file_task, alloc. cbn [l_queue l_now]. do 4 (destruct (ask_alloc _); cbn [negb]; [|done]).
  intros [= <-]. split; cbn.
  - by rewrite fmap_app, L1.
  - by apply pushed_ok.
  - apply Forall_app. split; [done|]. apply Forall_singleton. unfold queued. by rewrite Hs.
Qed.

Lemma walk_lists es : forall k b l e b', listed b l -> (forall x, x ∈ es -> fsize x = zlen (default [] (fs !! fpath x))) -> walk es k b = (e, b') ->
  k <= e /\ (e = k -> listed b' (l ++ (fpath <$> List.filter regular es))).
Proof.
  induction es as [|x es IH]; intros k b l e b' L Hsz; cbn [walk].
  { intros [= <- <-]. split; [done|]. intros _. by rewrite app_nil_r. }
  destruct (nftw_callback x b) as [ok b1] eqn:Ex. intros Hw.
  assert (forall y, y ∈ es -> fsize y = zlen (default [] (fs !! fpath y))) as Hsz' by (intros y Hy; apply Hsz; by right). destruct ok.
  2:{ assert (k + 1 <= e) as Hle; [|split; [lia|intros; lia]]. clear -Hw. revert k b1 Hw. induction es as [|y es IHe]; intros k b1; cbn [walk]; [intros [= <- _]; lia|].
      destruct (nftw_callback y b1) as [[|] b2]; intros Hw; apply IHe in Hw; lia. }
  assert (listed b1 (l ++ (if regular x then [fpath x] else []))) as L1.
  { revert Ex. unfold nftw_callback, regular. destruct (typeflag x); try (intros [= <-]; by rewrite app_nil_r).
    destruct (is_reg (fmode x)); cbn [negb]; [|intros [= <-]; by rewrite app_nil_r]. apply add_file_ok; [done|]. apply Hsz. left. }
  destruct (IH k b1 _ e b' L1 Hsz' Hw) as [Hle Hl]. split; [done|]. intros He. specialize (Hl He). cbn [List.filter].
  destruct (regular x); cbn; [by rewrite <- app_assoc in Hl|by rewrite app_nil_r in Hl].
Qed.

Lemma argument_lists p b l b' : steady -> listed b l -> add_argument cfg p b = (true, b') -> listed b' (l ++ files_of p).
Proof.
  intros [S1 S2 S3] L. unfold add_argument, files_of. rewrite S1. destruct (ask_stat 0 p) as [st|] eqn:Est; [|done].
  set (b1 := {| l_queue := l_queue b; l_now := S (l_now b) |}). assert (listed b1 l) as L1 by (destruct L; by split).
  destruct (sb_kind st) eqn:Ek.
  - destruct (negb (recursive cfg)); [done|]. destruct (ask_nftw p) as [es|] eqn:Ew; [|done]. destruct (walk es 0 b1) as [e b2] eqn:Ewalk.
    intros [= He <-]. destruct (walk_lists es 0 b1 l e b2 L1) as [_ H]; [by intros x; eapply S3|done|]. apply H. by apply Z.eqb_eq in He.
  - apply add_file_ok; [done|]. by apply S2.
  - intros [= <-]. by rewrite app_nil_r.
Qed.

Lemma arguments_list args : steady -> forall b l b', listed b l -> add_arguments cfg args b = (true, b') -> listed b' (l ++ flat_map files_of args).
Proof.
  intros S. induction args as [|p args IH]; intros b l b' L; cbn [add_arguments flat_map]; [intros [= <-]; by rewrite app_nil_r|].
  destruct (add_argument cfg p b) as [[|] b1] eqn:Ea; cbn [negb]; [|done]. intros H. rewrite app_assoc.
  eapply IH; [by eapply argument_lists|done].
Qed.

Lemma build_lists args n q : steady -> build_task_list cfg args n = Some q ->
  path <$> tasks q = flat_map files_of args /\ queue_ok q /\ Forall queued (tasks q).
Proof.
  intros S. unfold build_task_list. destruct (add_arguments cfg args _) as [[|] b] eqn:Ea; cbn [negb]; [|done].
  destruct (total_files (l_queue b) =? 0); [done|]. intros [= <-].
  destruct (arguments_list args S {| l_queue := queue_init; l_now := n |} [] b) as [L1 L2 L3]; [|done|done]. by repeat split.
Qed.
End Arguments.

(** C16. Every file named on the command line is accounted for. When the list was
    built, every worker has returned 0 and nobody interrupted the program, the
    lines on standard output are the digests of whole files, and these files
    together with those a message says could not be opened are the regular files
    the arguments stand for, each exactly as often: however many workers there
    are, and in whatever order each one's reads complete. The file system does
    not change, and reads are answered in full or with an error. *)
Theorem every_file_listed {T : TaskEnv} (args : list string) (n : nat) (q : task_queue_t) (ncpus : Z) (fuel : nat) (envs : nat -> ClientEnv)
    (ok : nat -> nat -> bool) (junk : nat -> nat -> list Z) (cs : list hash_ctx_t) (Hchunk : 0 < chunk_size cfg) (Hfs : steady)
    (Hlist : build_task_list cfg args n = Some q) (Hans : forall w, answers (E := envs w) cfg)
    (Hint : forall w k, @ask_interrupted (envs w) k = false) (Hlen : length cs = length (worker_queues ncpus q))
    (Hrun : forall w qw cw, worker_queues ncpus q !! w = Some qw -> cs !! w = Some cw ->
      run_worker_pipeline (E := envs w) cfg fuel (ok w) fs (junk w) qw = Returned 0 cw) :
  exists F G, flat_map stdout cs = (fun p => digest_line (md_final (md_update md_init (default [] (fs !! p)))) p) <$> F /\
    flat_map stderr cs = CannotOpen <$> G /\ F ++ G ≡ₚ flat_map files_of args.
Proof.
  destruct (build_lists args n q Hfs Hlist) as (<- & Hq & Hfiles). destruct (worker_queues_ok ncpus q Hq) as [Hp Hqs].
  assert (Forall2 (fun qw cw => exists F G, stdout cw = right_line <$> F /\ stderr cw = (fun t => CannotOpen (path t)) <$> G /\ F ++ G ≡ₚ tasks qw)
    (worker_queues ncpus q) cs) as H2.
  { apply Forall2_same_length_lookup_2; [done|]. intros w qw cw Hw Hcw. eapply (worker_right (E := envs w)); [done| | |by apply Hans|by apply Hint|by eapply Hrun].
    - rewrite Forall_lookup in Hqs. by eapply Hqs.
    - apply Forall_forall. intros t Ht. rewrite Forall_forall in Hfiles. apply Hfiles. rewrite <- Hp, elem_of_flat_map. exists qw.
      split; [by eapply list_elem_of_lookup_2|done]. }
  enough (exists F G, flat_map stdout cs = right_line <$> F /\ flat_map stderr cs = (fun t => CannotOpen (path t)) <$> G /\ F ++ G ≡ₚ flat_map tasks (worker_queues ncpus q))
    as (F & G & E1 & E2 & E3).
  { exists (path <$> F), (path <$> G). rewrite E1, E2, <- !list_fmap_compose, <- fmap_app, E3, Hp. done. }
  clear -H2. induction H2 as [|qw cw qs cs (F & G & E1 & E2 & E3) _ (F' & G' & E1' & E2' & E3')]; [by exists [], []|].
  exists (F ++ F'), (G ++ G'). cbn. rewrite E1, E2, E1', E2', !fmap_app. repeat (split; [done|]). rewrite <- E3, <- E3'. solve_Permutation.
Qed.
End Claim.

(** ** Example *)

#[local] Existing Instances sum_md sum_md_laws.

(** A directory with two files and a link, and a file beside it. *)
Definition demo_dir : TaskEnv := {|
  ask_stat := fun _ p =>
    if String.eqb p "d" then Some {| sb_kind := S_DIR; sb_size := 0; sb_mode := 0; sb_id := (0, 0) |}
    else if String.eqb p "c" then Some {| sb_kind := S_REG; sb_size := 2; sb_mode := 0; sb_id := (0, 0) |} else None;
  ask_mkdir := fun _ _ => 0; ask_alloc := fun _ => true;
  ask_nftw := fun p => if String.eqb p "d" then Some
    [{| fpath := "d"; typeflag := FTW_D; fsize := 0; fmode := 16384 |}; {| fpath := "a"; typeflag := FTW_F; fsize := 10; fmode := 33188 |};
     {| fpath := "l"; typeflag := FTW_SL; fsize := 0; fmode := 40960 |}; {| fpath := "b"; typeflag := FTW_F; fsize := 0; fmode := 33188 |}] else None |}%string.

Definition demo_tree_cfg : config_t := {| chunk_size := 4; pipeline_depth := 2; recursive := true |}.
Definition demo_args : list string := ["d"; "c"]%string.
Definition demo_list : task_queue_t := default queue_init (build_task_list (T := demo_dir) demo_tree_cfg demo_args 0).

(** Two processors; the second worker cannot open its file. *)
Definition demo_envs (w : nat) : ClientEnv := demo_env (fun n => match w, n with 1%nat, 1%nat => 13 | _, _ => 0 end) (fun _ => Transfer 4).
Definition demo_run (w : nat) (q : task_queue_t) : outcome :=
  run_worker_pipeline (E := demo_envs w) demo_tree_cfg 40 (fun _ => true) demo_files (fun _ => [7; 7; 7; 7]) q.
Definition demo_workers : list hash_ctx_t := imap (fun w q => final_of (demo_run w q)) (worker_queues 2 demo_list).

Example demo_listing : flat_map stdout demo_workers = [digest_line [50] "c"; digest_line [55] "a"]%string /\ flat_map stderr demo_workers = [CannotOpen "b"%string].
Proof. vm_compute. done. Qed.

Lemma demo_steady : steady (T := demo_dir) demo_files.
Proof.
  split; cbn.
  - done.
  - intros p st. destruct (String.eqb_spec p "d") as [|_]; [by intros [= <-]|]. destruct (String.eqb_spec p "c") as [->|_]; [by intros [= <-] _|done].
  - intros p l e. destruct (String.eqb_spec p "d") as [|_]; [|done]. intros [= <-] H. repeat (apply elem_of_cons in H as [->|H]; [done|]). by apply elem_of_nil in H.
Qed.

Lemma every_file_listed_witness :
  length demo_workers = 2%nat /\
  exists F G, flat_map stdout demo_workers = (fun p => digest_line (md_final (md_update md_init (default [] (demo_files !! p)))) p) <$> F /\
    flat_map stderr demo_workers = CannotOpen <$> G /\ F ++ G ≡ₚ flat_map (files_of (T := demo_dir)) demo_args.
Proof.
  split; [vm_compute; reflexivity|].
  apply (every_file_listed demo_tree_cfg demo_files (T := demo_dir) demo_args 0 demo_list 2 40 demo_envs (fun _ _ => true) (fun _ _ => [7; 7; 7; 7]) demo_workers).
  - done.
  - exact demo_steady.
  - vm_compute. reflexivity.
  - intros w n [|m]; cbn; repeat constructor. done.
  - done.
  - vm_compute. reflexivity.
  - intros [|[|w]] qw cw H1 H2; [| |vm_compute in H1; done]; vm_compute in H1, H2; injection H1 as <-; injection H2 as <-; vm_compute; reflexivity.
Defined.
