(* ===== verification/BenchStats.v ===== *)
(** * BFFIO: statistics of a benchmark

    [src/tools/BFFIO/stats.h] and [stats.c]: the per-thread counters with their
    latency histogram, the two ways of recording a completion (read-modify-write
    operations with compare-and-swap loops, or plain loads and stores), samples,
    aggregation over threads, percentiles and the final results. A 64-bit counter
    is a [Z] that wraps at [2^64]. *)
From Stdlib Require Import ZArith Lia List String SpecFloat.
From stdpp Require Import base tactics list.
From S2P Require Import Prelude Double EngineStats.

#[local] Open Scope Z_scope.

Definition LAT_HIST_BUCKETS : Z := 200.
Definition LAT_HIST_BUCKET_US : Z := 50.
Definition LAT_HIST_MAX_US : Z := LAT_HIST_BUCKETS * LAT_HIST_BUCKET_US.
Definition MAX_SAMPLES : Z := 600.
Definition UINT64_MAX : Z := 18446744073709551615.

Record thread_stats_t := {
  read_ops : Z; write_ops : Z; read_bytes : Z; write_bytes : Z; errors : Z;
  inflight : Z;                      (* int *)
  lat_hist : list Z; lat_overflow : Z;
  lat_min_ns : Z; lat_max_ns : Z; lat_sum_ns : Z; lat_count : Z;
  bw_samples : list Z; iops_samples : list Z;
  sample_count : Z;                  (* int *)
  last_bytes : Z; last_ops : Z
}.

Definition thread_stats_eta (r : thread_stats_t) : thread_stats_t :=
  {| read_ops := read_ops r; write_ops := write_ops r; read_bytes := read_bytes r;
     write_bytes := write_bytes r; errors := errors r; inflight := inflight r; lat_hist := lat_hist r;
     lat_overflow := lat_overflow r; lat_min_ns := lat_min_ns r; lat_max_ns := lat_max_ns r;
     lat_sum_ns := lat_sum_ns r; lat_count := lat_count r; bw_samples := bw_samples r;
     iops_samples := iops_samples r; sample_count := sample_count r; last_bytes := last_bytes r;
     last_ops := last_ops r |}.
#[export] Instance bset_read_ops : Setter read_ops := ltac:(mk_setter thread_stats_eta).
#[export] Instance bset_write_ops : Setter write_ops := ltac:(mk_setter thread_stats_eta).
#[export] Instance bset_read_bytes : Setter read_bytes := ltac:(mk_setter thread_stats_eta).
#[export] Instance bset_write_bytes : Setter write_bytes := ltac:(mk_setter thread_stats_eta).
#[export] Instance bset_errors : Setter errors := ltac:(mk_setter thread_stats_eta).
#[export] Instance bset_inflight : Setter inflight := ltac:(mk_setter thread_stats_eta).
#[export] Instance bset_lat_hist : Setter lat_hist := ltac:(mk_setter thread_stats_eta).
#[export] Instance bset_lat_overflow : Setter lat_overflow := ltac:(mk_setter thread_stats_eta).
#[export] Instance bset_lat_min_ns : Setter lat_min_ns := ltac:(mk_setter thread_stats_eta).
#[export] Instance bset_lat_max_ns : Setter lat_max_ns := ltac:(mk_setter thread_stats_eta).
#[export] Instance bset_lat_sum_ns : Setter lat_sum_ns := ltac:(mk_setter thread_stats_eta).
#[export] Instance bset_lat_count : Setter lat_count := ltac:(mk_setter thread_stats_eta).
#[export] Instance bset_bw_samples : Setter bw_samples := ltac:(mk_setter thread_stats_eta).
#[export] Instance bset_iops_samples : Setter iops_samples := ltac:(mk_setter thread_stats_eta).
#[export] Instance bset_sample_count : Setter sample_count := ltac:(mk_setter thread_stats_eta).
#[export] Instance bset_last_bytes : Setter last_bytes := ltac:(mk_setter thread_stats_eta).
#[export] Instance bset_last_ops : Setter last_ops := ltac:(mk_setter thread_stats_eta).

(** ** Initialisation *)

(** [memset] to zero, then the minimum. *)
Definition stats_init : thread_stats_t :=
  {| read_ops := 0; write_ops := 0; read_bytes := 0; write_bytes := 0; errors := 0; inflight := 0;
     lat_hist := replicate (Z.to_nat LAT_HIST_BUCKETS) 0; lat_overflow := 0;
     lat_min_ns := UINT64_MAX; lat_max_ns := 0; lat_sum_ns := 0; lat_count := 0;
     bw_samples := replicate (Z.to_nat MAX_SAMPLES) 0; iops_samples := replicate (Z.to_nat MAX_SAMPLES) 0;
     sample_count := 0; last_bytes := 0; last_ops := 0 |}.

(** [inflight] is not reset. *)
Definition stats_reset (s : thread_stats_t) : thread_stats_t := stats_init <| inflight := inflight s |>.

(** ** Recording *)

(** A completed operation. *)
Record io_done := { latency_ns : Z; io_bytes : Z; is_write : bool }.

(** The cast to [int] wraps; a negative bucket is outside the histogram. *)
Definition bucket_of (latency : Z) : Z := i32 (latency / 1000 / LAT_HIST_BUCKET_US).

Definition add_ops (d : io_done) (s : thread_stats_t) : thread_stats_t :=
  if is_write d then s <| write_ops := u64 (write_ops s + 1) |> else s <| read_ops := u64 (read_ops s + 1) |>.
Definition add_bytes (d : io_done) (s : thread_stats_t) : thread_stats_t :=
  if is_write d then s <| write_bytes := u64 (write_bytes s + io_bytes d) |>
  else s <| read_bytes := u64 (read_bytes s + io_bytes d) |>.

(** [None] is a store outside [lat_hist]. *)
Definition add_hist (d : io_done) (s : thread_stats_t) : option thread_stats_t :=
  let bucket := bucket_of (latency_ns d) in
  if LAT_HIST_BUCKETS <=? bucket then Some (s <| lat_overflow := u64 (lat_overflow s + 1) |>)
  else if bucket <? 0 then None
  else Some (s <| lat_hist := aset (lat_hist s) bucket (u64 (aget 0 (lat_hist s) bucket + 1)) |>).

Definition set_min (d : io_done) (s : thread_stats_t) : thread_stats_t :=
  if latency_ns d <? lat_min_ns s then s <| lat_min_ns := latency_ns d |> else s.
Definition set_max (d : io_done) (s : thread_stats_t) : thread_stats_t :=
  if lat_max_ns s <? latency_ns d then s <| lat_max_ns := latency_ns d |> else s.
Definition add_sum (d : io_done) (s : thread_stats_t) : thread_stats_t :=
  s <| lat_sum_ns := u64 (lat_sum_ns s + latency_ns d) |>.
Definition add_count (s : thread_stats_t) : thread_stats_t := s <| lat_count := u64 (lat_count s + 1) |>.

(** Plain loads and stores, by the only thread that writes. *)
Definition stats_record_io_fast (d : io_done) (s : thread_stats_t) : option thread_stats_t :=
  s ← add_hist d (add_bytes d (add_ops d s));
  Some (add_count (add_sum d (set_max d (set_min d s)))).

Definition stats_record_io_count_fast (bytes : Z) (is_write : bool) (s : thread_stats_t) : thread_stats_t :=
  let d := {| latency_ns := 0; io_bytes := bytes; is_write := is_write |} in add_bytes d (add_ops d s).

Definition stats_record_io_count : Z -> bool -> thread_stats_t -> thread_stats_t := stats_record_io_count_fast.

(** *** The concurrent version, one atomic access at a time *)

(** Where [stats_record_io] is; [CasMin] and [CasMax] are the heads of the two
    loops with the value last seen. *)
Inductive pc :=
  | AtOps | AtBytes | AtHist
  | LoadMin | CasMin (cur : Z)
  | LoadMax | CasMax (cur : Z)
  | AtSum | AtCount | AtEnd.

(** One access; a weak compare-and-swap may fail for no reason ([spurious]).
    [None] is a store outside the histogram. *)
Definition stats_record_io (d : io_done) (spurious : bool) (p : pc) (s : thread_stats_t)
  : option (pc * thread_stats_t) :=
  match p with
  | AtOps => Some (AtBytes, add_ops d s)
  | AtBytes => Some (AtHist, add_bytes d s)
  | AtHist => s ← add_hist d s; Some (LoadMin, s)
  | LoadMin => Some (CasMin (lat_min_ns s), s)
  | CasMin cur =>
      if latency_ns d <? cur then
        if (lat_min_ns s =? cur) && negb spurious then Some (LoadMax, s <| lat_min_ns := latency_ns d |>)
        else Some (CasMin (lat_min_ns s), s)
      else Some (LoadMax, s)
  | LoadMax => Some (CasMax (lat_max_ns s), s)
  | CasMax cur =>
      if cur <? latency_ns d then
        if (lat_max_ns s =? cur) && negb spurious then Some (AtSum, s <| lat_max_ns := latency_ns d |>)
        else Some (CasMax (lat_max_ns s), s)
      else Some (AtSum, s)
  | AtSum => Some (AtCount, add_sum d s)
  | AtCount => Some (AtEnd, add_count s)
  | AtEnd => Some (AtEnd, s)
  end.

(** Threads that record at the same time, each one operation; a schedule names
    the thread that moves and whether its compare-and-swap fails spuriously. *)
Fixpoint interleave (sched : list (nat * bool)) (ts : list (io_done * pc)) (s : thread_stats_t)
  : option (list (io_done * pc) * thread_stats_t) :=
  match sched with
  | [] => Some (ts, s)
  | (i, spurious) :: sched =>
      match ts !! i with
      | None => interleave sched ts s
      | Some (d, p) =>
          match stats_record_io d spurious p s with
          | None => None
          | Some (p, s) => interleave sched (<[i := (d, p)]> ts) s
          end
      end
  end.

(** The same operations one after the other. *)
Fixpoint record_all (l : list io_done) (s : thread_stats_t) : option thread_stats_t :=
  match l with [] => Some s | d :: l => s ← stats_record_io_fast d s; record_all l s end.

(** ** Sampling *)

Definition stats_take_sample (s : thread_stats_t) : thread_stats_t :=
  if MAX_SAMPLES <=? sample_count s then s
  else
    let cur_bytes := u64 (read_bytes s + write_bytes s) in
    let cur_ops := u64 (read_ops s + write_ops s) in
    s <| bw_samples := aset (bw_samples s) (sample_count s) (u64 (cur_bytes - last_bytes s)) |>
      <| iops_samples := aset (iops_samples s) (sample_count s) (u64 (cur_ops - last_ops s)) |>
      <| last_bytes := cur_bytes |> <| last_ops := cur_ops |> <| sample_count := sample_count s + 1 |>.

(** ** Aggregation *)

Definition add64 (x y : Z) : Z := u64 (x + y).

(** The first [n] cells of [l] grow by those of [k]. *)
Definition add_samples (n : Z) (l k : list Z) : list Z :=
  zip_with add64 (take (Z.to_nat n) l) (take (Z.to_nat n) k) ++ drop (Z.to_nat n) l.

(** One round of the loop; the compare-and-swap loops run alone here. *)
Definition aggregate_one (out src : thread_stats_t) : thread_stats_t :=
  {| read_ops := add64 (read_ops out) (read_ops src); write_ops := add64 (write_ops out) (write_ops src);
     read_bytes := add64 (read_bytes out) (read_bytes src);
     write_bytes := add64 (write_bytes out) (write_bytes src);
     errors := add64 (errors out) (errors src); inflight := inflight out;
     lat_hist := zip_with add64 (lat_hist out) (lat_hist src);
     lat_overflow := add64 (lat_overflow out) (lat_overflow src);
     lat_min_ns := if lat_min_ns src <? lat_min_ns out then lat_min_ns src else lat_min_ns out;
     lat_max_ns := if lat_max_ns out <? lat_max_ns src then lat_max_ns src else lat_max_ns out;
     lat_sum_ns := add64 (lat_sum_ns out) (lat_sum_ns src); lat_count := add64 (lat_count out) (lat_count src);
     bw_samples := add_samples (sample_count src) (bw_samples out) (bw_samples src);
     iops_samples := add_samples (sample_count src) (iops_samples out) (iops_samples src);
     sample_count := if sample_count out <? sample_count src then sample_count src else sample_count out;
     last_bytes := last_bytes out; last_ops := last_ops out |}.

Definition stats_aggregate (per_thread : list thread_stats_t) : thread_stats_t :=
  foldl aggregate_one stats_init per_thread.

(** ** Percentiles *)

Definition total_samples (s : thread_stats_t) : Z := u64 (foldl add64 0 (lat_hist s) + lat_overflow s).

(** The bucket scan from bucket [i] on: the first bucket whose cumulative count
    reaches the threshold. *)
Fixpoint percentile_scan (hist : list Z) (i cumulative : Z) (threshold : double) : option Z :=
  match hist with
  | [] => None
  | n :: hist =>
      let cumulative := add64 cumulative n in
      if d_ge (d_of_Z cumulative) threshold then Some i
      else percentile_scan hist (i + 1) cumulative threshold
  end.

Definition stats_percentile (s : thread_stats_t) (pct : double) : Z :=
  let grand_total := total_samples s in
  if grand_total =? 0 then 0
  else
    let threshold := d_mul (d_div pct (d_of_Z 100)) (d_of_Z grand_total) in
    match percentile_scan (lat_hist s) 0 0 threshold with
    | Some i => (i + 1) * LAT_HIST_BUCKET_US * 1000
    | None => LAT_HIST_MAX_US * 1000
    end.

Definition PERCENTILE_LIST : list double :=
  Eval vm_compute in
    (d_of_Z <$> [1; 5; 10; 20; 30; 40; 50; 60; 70; 80; 90; 95; 99]) ++
    [d_lit 995 10; d_lit 999 10; d_lit 9995 100; d_lit 9999 100].

(** ** Results *)

Definition d_sqrt (x : double) : double := SFsqrt 53 1024 x.
Definition d_one_half : double := Eval vm_compute in d_lit 1 2.

(** Minimum, maximum (as [int64_t]), mean and standard deviation. *)
Definition compute_sample_stats (samples : list Z) (n : Z) : Z * Z * double * double :=
  if n <=? 0 then (0, 0, d_zero, d_zero)
  else
    let l := take (Z.to_nat n) samples in
    let v0 := i64 (aget 0 samples 0) in
    let min_val := foldl (fun m x => if i64 x <? m then i64 x else m) v0 l in
    let max_val := foldl (fun m x => if m <? i64 x then i64 x else m) v0 l in
    let mean := d_div (foldl (fun a x => d_add a (d_of_Z x)) d_zero l) (d_of_Z n) in
    let variance := foldl (fun a x => let d := d_sub (d_of_Z x) mean in d_add a (d_mul d d)) d_zero l in
    (min_val, max_val, mean, d_sqrt (d_div variance (d_of_Z (if 1 <? n then n - 1 else 1)))).

(** The loop over the buckets: the weighted sum of squares and the count. *)
Fixpoint stddev_loop (hist : list Z) (i : Z) (mean sum : double) (count : Z) : double * Z :=
  match hist with
  | [] => (sum, count)
  | n :: hist =>
      if n =? 0 then stddev_loop hist (i + 1) mean sum count
      else
        let midpoint := d_mul (d_mul (d_add (d_of_Z i) d_one_half) (d_of_Z LAT_HIST_BUCKET_US)) (d_of_Z 1000) in
        let d := d_sub midpoint mean in
        stddev_loop hist (i + 1) mean (d_add sum (d_mul (d_mul (d_of_Z n) d) d)) (add64 count n)
  end.

Definition compute_lat_stddev_from_hist (s : thread_stats_t) (mean : double) : double :=
  let '(sum, count) := stddev_loop (lat_hist s) 0 mean d_zero 0 in
  let '(sum, count) :=
    if 0 <? lat_overflow s then
      let d := d_sub (d_mul (d_of_Z LAT_HIST_MAX_US) (d_of_Z 1000)) mean in
      (d_add sum (d_mul (d_mul (d_of_Z (lat_overflow s)) d) d), add64 count (lat_overflow s))
    else (sum, count) in
  if count <=? 1 then d_zero else d_sqrt (d_div sum (d_of_Z (count - 1))).

Record direction_result_t := {
  r_io_bytes : Z; r_io_kbytes : Z; r_bw_bytes_sec : Z; r_bw_kbytes_sec : Z; r_iops : double;
  r_runtime_ms : Z; r_total_ios : Z; r_short_ios : Z;
  r_lat_min_ns : Z; r_lat_max_ns : Z; r_lat_mean_ns : double; r_lat_stddev_ns : double;
  r_lat_count : Z; r_lat_percentiles_ns : list Z;
  r_bw : Z * Z * double * double; r_bw_samples : Z;
  r_iops_stats : Z * Z * double * double; r_iops_samples : Z
}.

Definition no_samples : Z * Z * double * double := (0, 0, d_zero, d_zero).

Definition compute_direction (raw : thread_stats_t) (runtime_ms : Z) (is_write : bool) : direction_result_t :=
  let ops := if is_write then write_ops raw else read_ops raw in
  let bytes := if is_write then write_bytes raw else read_bytes raw in
  let runtime_sec := d_div (d_of_Z runtime_ms) (d_of_Z 1000) in
  let timed := 0 <? runtime_ms in
  let bw := if timed then d_trunc (d_div (d_of_Z bytes) runtime_sec) else 0 in
  let lat := 0 <? lat_count raw in
  let mean := if lat then d_div (d_of_Z (lat_sum_ns raw)) (d_of_Z (lat_count raw)) else d_zero in
  {| r_io_bytes := bytes; r_io_kbytes := bytes / 1024; r_bw_bytes_sec := bw; r_bw_kbytes_sec := bw / 1024;
     r_iops := if timed then d_div (d_of_Z ops) runtime_sec else d_zero;
     r_runtime_ms := i64 runtime_ms; r_total_ios := ops; r_short_ios := 0;
     r_lat_min_ns := if lat then (if lat_min_ns raw =? UINT64_MAX then 0 else lat_min_ns raw) else 0;
     r_lat_max_ns := if lat then lat_max_ns raw else 0;
     r_lat_mean_ns := mean;
     r_lat_stddev_ns := if lat then compute_lat_stddev_from_hist raw mean else d_zero;
     r_lat_count := lat_count raw;
     r_lat_percentiles_ns := if lat then stats_percentile raw <$> PERCENTILE_LIST else replicate 17 0;
     r_bw := no_samples; r_bw_samples := 0; r_iops_stats := no_samples; r_iops_samples := 0 |}.

(** The samples go to the directions that had operations. *)
Definition with_samples (raw : thread_stats_t) (ops : Z) (r : direction_result_t) : direction_result_t :=
  if (0 <? sample_count raw) && (0 <? ops) then
    {| r_io_bytes := r_io_bytes r; r_io_kbytes := r_io_kbytes r; r_bw_bytes_sec := r_bw_bytes_sec r;
       r_bw_kbytes_sec := r_bw_kbytes_sec r; r_iops := r_iops r; r_runtime_ms := r_runtime_ms r;
       r_total_ios := r_total_ios r; r_short_ios := r_short_ios r; r_lat_min_ns := r_lat_min_ns r;
       r_lat_max_ns := r_lat_max_ns r; r_lat_mean_ns := r_lat_mean_ns r; r_lat_stddev_ns := r_lat_stddev_ns r;
       r_lat_count := r_lat_count r; r_lat_percentiles_ns := r_lat_percentiles_ns r;
       r_bw := compute_sample_stats ((fun x => x / 1024) <$> bw_samples raw) (sample_count raw);
       r_bw_samples := sample_count raw;
       r_iops_stats := compute_sample_stats (iops_samples raw) (sample_count raw);
       r_iops_samples := sample_count raw |}
  else r.

Record job_result_t := {
  jobname : string; r_read : direction_result_t; r_write : direction_result_t; job_runtime_ms : Z;
  aura_final_depth : Z; aura_phase : Z; aura_phase_name_of : string; aura_p99_ms : double;
  aura_throughput_bps : double; target_p99_ms : double; r_adaptive_spills : Z
}.

(** [engine] is what [aura_get_stats] and [aura_get_ring_stats] of ring 0
    report; without an engine the fields stay zero. *)
Definition stats_compute_results (raw : thread_stats_t) (runtime_ms : Z)
    (engine : option (Stats.aura_stats_t * option RingStats.aura_ring_stats_t)) (name : string) : job_result_t :=
  let st := fst <$> engine in
  let ring := engine ≫= snd in
  {| jobname := String.substring 0 127 name;
     r_read := with_samples raw (read_ops raw) (compute_direction raw runtime_ms false);
     r_write := with_samples raw (write_ops raw) (compute_direction raw runtime_ms true);
     job_runtime_ms := i64 runtime_ms;
     aura_final_depth := default 0 (Stats.peak_in_flight <$> st);
     aura_phase := default 0 (RingStats.aimd_phase <$> ring);
     aura_phase_name_of := default ""%string ((fun r => String.substring 0 31 (aura_phase_name (RingStats.aimd_phase r))) <$> ring);
     aura_p99_ms := default d_zero (Stats.p99_latency_ms <$> st);
     aura_throughput_bps := default d_zero (Stats.current_throughput_bps <$> st);
     target_p99_ms := d_zero; r_adaptive_spills := default 0 (Stats.adaptive_spills <$> st) |}.
