(* ===== verification/BenchStatsSpec.v ===== *)
(** * What the counters of a benchmark promise

    Recording from many threads at once, one atomic access at a time, gives what
    recording the same completions one after the other with plain stores gives;
    aggregating per-thread statistics gives what one thread would have recorded;
    and a percentile is the upper bound of the bucket it falls in. *)
From Stdlib Require Import ZArith Lia List SpecFloat.
From stdpp Require Import base tactics list.
From S2P Require Import Prelude Double BenchStats.

#[local] Open Scope Z_scope.

#[local] Arguments aset : simpl never.
#[local] Arguments aget : simpl never.
#[local] Arguments u64 : simpl never.

(** ** The additive counters *)

Inductive counter :=
  | CReadOps | CWriteOps | CReadBytes | CWriteBytes | CErrors | COverflow | CSum | CCount
  | CBucket (b : Z).

Definition get (f : counter) (s : thread_stats_t) : Z :=
  match f with
  | CReadOps => read_ops s | CWriteOps => write_ops s
  | CReadBytes => read_bytes s | CWriteBytes => write_bytes s
  | CErrors => errors s | COverflow => lat_overflow s
  | CSum => lat_sum_ns s | CCount => lat_count s
  | CBucket b => aget 0 (lat_hist s) b
  end.

(** What one completion adds to a counter, and at which of the ten positions. *)
Definition amount (f : counter) (d : io_done) : Z :=
  let b := bucket_of (latency_ns d) in
  match f with
  | CReadOps => if is_write d then 0 else 1
  | CWriteOps => if is_write d then 1 else 0
  | CReadBytes => if is_write d then 0 else io_bytes d
  | CWriteBytes => if is_write d then io_bytes d else 0
  | CErrors => 0
  | COverflow => if LAT_HIST_BUCKETS <=? b then 1 else 0
  | CSum => latency_ns d
  | CCount => 1
  | CBucket k => if (k =? b) && (b <? LAT_HIST_BUCKETS) then 1 else 0
  end.

Definition stage (f : counter) : nat :=
  match f with
  | CReadOps | CWriteOps => 0 | CReadBytes | CWriteBytes => 1 | CErrors => 0
  | COverflow | CBucket _ => 2 | CSum => 7 | CCount => 8
  end.

Definition rank (p : pc) : nat :=
  match p with
  | AtOps => 0 | AtBytes => 1 | AtHist => 2 | LoadMin => 3 | CasMin _ => 4
  | LoadMax => 5 | CasMax _ => 6 | AtSum => 7 | AtCount => 8 | AtEnd => 9
  end.

(** What a thread at [p] has still to add. *)
Definition pend (f : counter) (t : io_done * pc) : Z :=
  if (rank (snd t) <=? stage f)%nat then amount f (fst t) else 0.

Record stats_wf (s : thread_stats_t) : Prop := {
  wf_hist : zlen (lat_hist s) = LAT_HIST_BUCKETS;
  wf_range : forall f, 0 <= get f s <= UINT64_MAX
}.

Lemma u64_le x : 0 <= u64 x <= UINT64_MAX.
Proof. apply u64_range. Qed.

Lemma u64_get f s : stats_wf s -> u64 (get f s) = get f s.
Proof. intros W. apply u64_id. apply (wf_range _ W). Qed.

(** Two states with the same counters and the same other fields are equal. *)
Lemma stats_ext s s' : stats_wf s -> stats_wf s' -> (forall f, get f s = get f s') ->
  lat_min_ns s = lat_min_ns s' -> lat_max_ns s = lat_max_ns s' -> inflight s = inflight s' ->
  bw_samples s = bw_samples s' -> iops_samples s = iops_samples s' -> sample_count s = sample_count s' ->
  last_bytes s = last_bytes s' -> last_ops s = last_ops s' -> s = s'.
Proof.
  intros [W1 _] [W2 _] H.
  assert (lat_hist s = lat_hist s') as Eh.
  { apply (aget_ext 0); [unfold zlen in *; lia|]. intros i _. apply (H (CBucket i)). }
  pose proof (H CReadOps). pose proof (H CWriteOps). pose proof (H CReadBytes). pose proof (H CWriteBytes).
  pose proof (H CErrors). pose proof (H COverflow). pose proof (H CSum). pose proof (H CCount).
  destruct s, s'. cbn in *. intros. by subst.
Qed.

(** The fields recording does not touch. *)
Definition untouched (s s' : thread_stats_t) : Prop :=
  inflight s' = inflight s /\ bw_samples s' = bw_samples s /\ iops_samples s' = iops_samples s /\
  sample_count s' = sample_count s /\ last_bytes s' = last_bytes s /\ last_ops s' = last_ops s.

Lemma untouched_trans s1 s2 s3 : untouched s1 s2 -> untouched s2 s3 -> untouched s1 s3.
Proof. unfold untouched. intuition congruence. Qed.

(** ** One access *)

(** An access adds [delta f] to every counter. *)
Record adds (delta : counter -> Z) (s s' : thread_stats_t) : Prop := {
  ad_wf : stats_wf s';
  ad_get : forall f, get f s' = u64 (get f s + delta f);
  ad_rest : untouched s s'
}.

Lemma get_hist_bump s b f v : stats_wf s -> 0 <= b < LAT_HIST_BUCKETS ->
  get f (s <| lat_hist := aset (lat_hist s) b v |>) =
  match f with CBucket k => if k =? b then v else get f s | _ => get f s end.
Proof.
  intros W Hb. destruct f; try done. cbn. destruct (Z.eqb_spec b0 b) as [->|Hne].
  - apply aget_aset_eq. rewrite (wf_hist _ W). done.
  - by apply aget_aset_ne.
Qed.

Lemma adds_intro delta s s' : stats_wf s -> zlen (lat_hist s') = LAT_HIST_BUCKETS ->
  (forall f, get f s' = u64 (get f s + delta f)) -> untouched s s' -> adds delta s s'.
Proof.
  intros W Hl Hg Hu. split; [split; [done|]|done|done]. intros f. rewrite Hg. apply u64_le.
Qed.

Lemma adds_zero s s' : stats_wf s -> lat_hist s' = lat_hist s -> (forall f, get f s' = get f s) -> untouched s s' ->
  adds (fun _ => 0) s s'.
Proof.
  intros W Hl Hg Hu. apply adds_intro; [done|by rewrite Hl; apply W| |done].
  intros f. by rewrite Hg, Z.add_0_r, u64_get.
Qed.

Definition at_stage (n : nat) (d : io_done) (f : counter) : Z := if (stage f =? n)%nat then amount f d else 0.

(** A counter an access leaves alone. *)
Ltac kept := symmetry; first
  [by apply (u64_get CReadOps)|by apply (u64_get CWriteOps)|by apply (u64_get CReadBytes)|by apply (u64_get CWriteBytes)
  |by apply (u64_get CErrors)|by apply (u64_get COverflow)|by apply (u64_get CSum)|by apply (u64_get CCount)
  |match goal with |- u64 (aget 0 (lat_hist _) ?b) = _ => by apply (u64_get (CBucket b)) end].

Lemma add_ops_adds d s : stats_wf s -> adds (at_stage 0 d) s (add_ops d s).
Proof.
  intros W. unfold add_ops. destruct (is_write d) eqn:Ew.
  all: apply adds_intro; [done|apply W| |done]; intros f; unfold at_stage; destruct f; cbn; rewrite ?Ew, ?Z.add_0_r; try done.
  all: kept.
Qed.

Lemma add_bytes_adds d s : stats_wf s -> adds (at_stage 1 d) s (add_bytes d s).
Proof.
  intros W. unfold add_bytes. destruct (is_write d) eqn:Ew.
  all: apply adds_intro; [done|apply W| |done]; intros f; unfold at_stage; destruct f; cbn; rewrite ?Ew, ?Z.add_0_r; try done.
  all: kept.
Qed.

Lemma add_sum_adds d s : stats_wf s -> adds (at_stage 7 d) s (add_sum d s).
Proof.
  intros W. apply adds_intro; [done|apply W| |done].
  intros f; unfold at_stage; destruct f; cbn; rewrite ?Z.add_0_r; try done; kept.
Qed.

Lemma add_count_adds d s : stats_wf s -> adds (at_stage 8 d) s (add_count s).
Proof.
  intros W. apply adds_intro; [done|apply W| |done].
  intros f; unfold at_stage; destruct f; cbn; rewrite ?Z.add_0_r; try done; kept.
Qed.

Lemma add_hist_adds d s s' : stats_wf s -> add_hist d s = Some s' ->
  adds (at_stage 2 d) s s' /\ 0 <= bucket_of (latency_ns d) /\
  lat_min_ns s' = lat_min_ns s /\ lat_max_ns s' = lat_max_ns s.
Proof.
  intros W. unfold add_hist. destruct (Z.leb_spec LAT_HIST_BUCKETS (bucket_of (latency_ns d))) as [Hb|Hb].
  { intros [= <-]. split_and!; [|unfold LAT_HIST_BUCKETS in Hb; lia|done|done].
    apply adds_intro; [done|apply W| |done].
    intros f; unfold at_stage; destruct f; cbn; rewrite ?Z.add_0_r; try kept.
    - by rewrite (proj2 (Z.leb_le _ _) Hb).
    - rewrite (proj2 (Z.ltb_ge _ _) Hb), andb_false_r, Z.add_0_r. kept. }
  destruct (Z.ltb_spec (bucket_of (latency_ns d)) 0) as [Hn|Hn]; [done|].
  intros [= <-]. split_and!; [|done..].
  apply adds_intro; [done|cbn; by rewrite zlen_aset, (wf_hist _ W)| |done].
  intros f. rewrite get_hist_bump by done. unfold at_stage. destruct f; cbn; rewrite ?Z.add_0_r; try kept.
  - rewrite (proj2 (Z.leb_gt _ _) Hb), Z.add_0_r. kept.
  - rewrite (proj2 (Z.ltb_lt _ _) Hb), andb_true_r. destruct (Z.eqb_spec b (bucket_of (latency_ns d))) as [->|]; [done|].
    rewrite Z.add_0_r. kept.
Qed.

Lemma adds_trans d1 d2 s1 s2 s3 : adds d1 s1 s2 -> adds d2 s2 s3 -> adds (fun f => d1 f + d2 f) s1 s3.
Proof.
  intros [W1 G1 U1] [W2 G2 U2]. split; [done| |by eapply untouched_trans].
  intros f. rewrite G2, G1, u64_add_l. f_equal. lia.
Qed.

Lemma adds_ext d1 d2 s s' : (forall f, d1 f = d2 f) -> adds d1 s s' -> adds d2 s s'.
Proof. intros E [W G U]. split; [done| |done]. intros f. by rewrite <- E. Qed.

(** A change of the minimum or maximum only. *)
Lemma min_adds s v : stats_wf s -> adds (fun _ => 0) s (s <| lat_min_ns := v |>).
Proof. intros W. apply adds_zero; [done|done|by intros []|done]. Qed.

Lemma max_adds s v : stats_wf s -> adds (fun _ => 0) s (s <| lat_max_ns := v |>).
Proof. intros W. apply adds_zero; [done|done|by intros []|done]. Qed.

Lemma same_adds s : stats_wf s -> adds (fun _ => 0) s s.
Proof. intros W. by apply adds_zero. Qed.

(** What a thread that passed a loop knows about the extremes. *)
Definition thread_ok (s : thread_stats_t) (t : io_done * pc) : Prop :=
  let '(d, p) := t in
  match p with
  | AtOps | AtBytes | AtHist => True
  | _ => 0 <= bucket_of (latency_ns d)
  end /\
  match p with
  | AtOps | AtBytes | AtHist | LoadMin => True
  | CasMin cur => lat_min_ns s <= cur
  | _ => lat_min_ns s <= latency_ns d
  end /\
  match p with
  | CasMax cur => cur <= lat_max_ns s
  | AtSum | AtCount | AtEnd => latency_ns d <= lat_max_ns s
  | _ => True
  end.

(** The extremes move towards the latency of the completion and no further. *)
Definition extremes_move (x : Z) (s s' : thread_stats_t) : Prop :=
  Z.min (lat_min_ns s) x <= lat_min_ns s' <= lat_min_ns s /\
  lat_max_ns s <= lat_max_ns s' <= Z.max (lat_max_ns s) x.

Lemma extremes_same x s s' : lat_min_ns s' = lat_min_ns s -> lat_max_ns s' = lat_max_ns s -> extremes_move x s s'.
Proof. unfold extremes_move. lia. Qed.

Lemma thread_ok_mono x s s' t : extremes_move x s s' -> thread_ok s t -> thread_ok s' t.
Proof. unfold extremes_move, thread_ok. destruct t as [d []]; lia. Qed.

(** The counters only depend on the additive accesses. *)
Definition owed (d : io_done) (p p' : pc) (f : counter) : Z := pend f (d, p) - pend f (d, p').

Lemma owed_same d p p' : rank p = rank p' \/ (exists n, rank p = n /\ rank p' = S n /\ 3 <= n <= 6)%nat ->
  forall f, 0 = owed d p p' f.
Proof.
  intros H f. unfold owed, pend. cbn.
  assert ((rank p <=? stage f)%nat = (rank p' <=? stage f)%nat) as ->; [|lia].
  destruct H as [->|(n & -> & -> & Hn)]; [done|].
  assert (stage f <= 2 \/ 7 <= stage f)%nat by (destruct f; cbn; lia).
  destruct (Nat.leb_spec n (stage f)), (Nat.leb_spec (S n) (stage f)); lia.
Qed.

Lemma owed_stage d p p' n : rank p = n -> rank p' = S n -> forall f, at_stage n d f = owed d p p' f.
Proof.
  intros H1 H2 f. unfold owed, pend, at_stage. cbn. rewrite H1, H2.
  destruct (Nat.leb_spec n (stage f)), (Nat.leb_spec (S n) (stage f)), (Nat.eqb_spec (stage f) n); lia.
Qed.

Lemma record_step d spurious p s p' s' :
  stats_wf s -> thread_ok s (d, p) -> stats_record_io d spurious p s = Some (p', s') ->
  adds (owed d p p') s s' /\ extremes_move (latency_ns d) s s' /\ thread_ok s' (d, p').
Proof.
  intros W T. destruct p; cbn [stats_record_io].
  - intros [= <- <-]. split; [|split]; [|by apply extremes_same; unfold add_ops; case_match|done].
    eapply adds_ext; [by apply owed_stage|by apply add_ops_adds].
  - intros [= <- <-]. split; [|split]; [|by apply extremes_same; unfold add_bytes; case_match|done].
    eapply adds_ext; [by apply owed_stage|by apply add_bytes_adds].
  - destruct (add_hist d s) as [s1|] eqn:E; cbn; [|done]. intros [= <- <-].
    destruct (add_hist_adds _ _ _ W E) as (A & Hb & E1 & E2).
    split; [|split]; [|by apply extremes_same|done].
    eapply adds_ext; [by apply owed_stage|done].
  - intros [= <- <-]. split; [|split]; [|by apply extremes_same|cbn in *; lia].
    eapply adds_ext; [apply owed_same; right; exists 3%nat; cbn; lia|by apply same_adds].
  - destruct (Z.ltb_spec (latency_ns d) cur).
    + destruct ((lat_min_ns s =? cur) && negb spurious) eqn:E; intros [= <- <-].
      * apply andb_prop in E as [Ec _]. split; [|split]; [|unfold extremes_move; cbn; lia|cbn in *; lia].
        eapply adds_ext; [apply owed_same; right; exists 4%nat; cbn; lia|by apply min_adds].
      * split; [|split]; [|by apply extremes_same|cbn in *; lia].
        eapply adds_ext; [by apply owed_same; left|by apply same_adds].
    + intros [= <- <-]. split; [|split]; [|by apply extremes_same|cbn in *; lia].
      eapply adds_ext; [apply owed_same; right; exists 4%nat; cbn; lia|by apply same_adds].
  - intros [= <- <-]. split; [|split]; [|by apply extremes_same|cbn in *; lia].
    eapply adds_ext; [apply owed_same; right; exists 5%nat; cbn; lia|by apply same_adds].
  - destruct (Z.ltb_spec cur (latency_ns d)).
    + destruct ((lat_max_ns s =? cur) && negb spurious) eqn:E; intros [= <- <-].
      * apply andb_prop in E as [Ec _]. split; [|split]; [|unfold extremes_move; cbn; lia|cbn in *; lia].
        eapply adds_ext; [apply owed_same; right; exists 6%nat; cbn; lia|by apply max_adds].
      * split; [|split]; [|by apply extremes_same|cbn in *; lia].
        eapply adds_ext; [by apply owed_same; left|by apply same_adds].
    + intros [= <- <-]. split; [|split]; [|by apply extremes_same|cbn in *; lia].
      eapply adds_ext; [apply owed_same; right; exists 6%nat; cbn; lia|by apply same_adds].
  - intros [= <- <-]. split; [|split]; [|by apply extremes_same|done].
    eapply adds_ext; [by apply owed_stage|by apply add_sum_adds].
  - intros [= <- <-]. split; [|split]; [|by apply extremes_same|done].
    eapply adds_ext; [by apply owed_stage|by apply add_count_adds].
  - intros [= <- <-]. split; [|split]; [|by apply extremes_same|done].
    eapply adds_ext; [by apply owed_same; left|by apply same_adds].
Qed.

(** ** Completions one after the other *)

Fixpoint lowest (m : Z) (l : list io_done) : Z :=
  match l with [] => m | d :: l => Z.min (latency_ns d) (lowest m l) end.
Fixpoint highest (m : Z) (l : list io_done) : Z :=
  match l with [] => m | d :: l => Z.max (latency_ns d) (highest m l) end.

(** What recording [l] amounts to. *)
Record recorded (l : list io_done) (s s' : thread_stats_t) : Prop := {
  rc_adds : adds (fun f => zsum (amount f <$> l)) s s';
  rc_min : lat_min_ns s' = lowest (lat_min_ns s) l;
  rc_max : lat_max_ns s' = highest (lat_max_ns s) l
}.

Lemma recorded_unique l s s1 s2 : recorded l s s1 -> recorded l s s2 -> s1 = s2.
Proof.
  intros [[W1 G1 U1] L1 H1] [[W2 G2 U2] L2 H2]. unfold untouched in *. destruct_and!.
  apply stats_ext; congruence.
Qed.

Lemma lowest_min m x l : lowest (Z.min x m) l = Z.min x (lowest m l).
Proof. induction l as [|e l IH]; cbn; [done|]. rewrite IH. lia. Qed.

Lemma highest_max m x l : highest (Z.max x m) l = Z.max x (highest m l).
Proof. induction l as [|e l IH]; cbn; [done|]. rewrite IH. lia. Qed.

Lemma recorded_nil s : stats_wf s -> recorded [] s s.
Proof. intros W. split; [by apply same_adds|done|done]. Qed.

Lemma recorded_app l k s1 s2 s3 : recorded l s1 s2 -> recorded k s2 s3 -> recorded (l ++ k) s1 s3.
Proof.
  intros [A1 L1 H1] [A2 L2 H2]. split.
  - eapply adds_ext; [|by eapply adds_trans]. intros f. cbn. by rewrite fmap_app, zsum_app.
  - rewrite L2, L1. clear. induction l as [|d l IH]; cbn; [done|]. by rewrite lowest_min, IH.
  - rewrite H2, H1. clear. induction l as [|d l IH]; cbn; [done|]. by rewrite highest_max, IH.
Qed.

Lemma record_fast_recorded d s s' : stats_wf s -> stats_record_io_fast d s = Some s' -> recorded [d] s s'.
Proof.
  intros W. unfold stats_record_io_fast.
  pose proof (add_ops_adds d s W) as A0. pose proof (add_bytes_adds d _ (ad_wf _ _ _ A0)) as A1.
  destruct (add_hist d (add_bytes d (add_ops d s))) as [s2|] eqn:E; cbn [mbind option_bind]; [|done].
  destruct (add_hist_adds _ _ _ (ad_wf _ _ _ A1) E) as (A2 & _ & E1 & E2).
  intros [= <-].
  assert (adds (fun _ => 0) s2 (set_min d s2)) as A3.
  { unfold set_min. case_match; [by apply min_adds, A2|by apply same_adds, A2]. }
  assert (adds (fun _ => 0) (set_min d s2) (set_max d (set_min d s2))) as A4.
  { unfold set_max. case_match; [by apply max_adds, A3|by apply same_adds, A3]. }
  pose proof (add_sum_adds d _ (ad_wf _ _ _ A4)) as A7. pose proof (add_count_adds d _ (ad_wf _ _ _ A7)) as A8.
  assert (lat_min_ns (add_bytes d (add_ops d s)) = lat_min_ns s) as F1.
  { unfold add_bytes, add_ops. by destruct (is_write d). }
  assert (lat_max_ns (add_bytes d (add_ops d s)) = lat_max_ns s) as F2.
  { unfold add_bytes, add_ops. by destruct (is_write d). }
  split.
  - eapply adds_ext; [|exact (adds_trans _ _ _ _ _ A0 (adds_trans _ _ _ _ _ A1 (adds_trans _ _ _ _ _ A2
      (adds_trans _ _ _ _ _ A3 (adds_trans _ _ _ _ _ A4 (adds_trans _ _ _ _ _ A7 A8))))))].
    intros f. unfold at_stage. cbn. destruct f; cbn; lia.
  - cbn. unfold set_max, set_min. destruct (Z.ltb_spec (latency_ns d) (lat_min_ns s2)); case_match; cbn; lia.
  - cbn. unfold set_max, set_min.
    destruct (latency_ns d <? lat_min_ns s2); cbn; case_match; cbn in *; rewrite ?Z.ltb_lt, ?Z.ltb_ge in *; lia.
Qed.

Lemma record_fast_some d s : 0 <= bucket_of (latency_ns d) -> is_Some (stats_record_io_fast d s).
Proof.
  intros Hb. unfold stats_record_io_fast, add_hist. case_match; cbn; [done|].
  by rewrite (proj2 (Z.ltb_ge _ _) Hb).
Qed.

Lemma record_all_recorded l : forall s s', stats_wf s -> record_all l s = Some s' -> recorded l s s'.
Proof.
  induction l as [|d l IH]; intros s s' W; cbn [record_all].
  { intros [= <-]. by apply recorded_nil. }
  destruct (stats_record_io_fast d s) as [s1|] eqn:E; cbn [mbind option_bind]; [|done]. intros H.
  pose proof (record_fast_recorded _ _ _ W E) as R.
  apply (recorded_app [d] l _ s1); [done|]. apply IH; [|done]. by destruct R as [[? _ _] _ _].
Qed.

Lemma record_all_some l : forall s, Forall (fun d => 0 <= bucket_of (latency_ns d)) l -> is_Some (record_all l s).
Proof.
  induction l as [|d l IH]; intros s F; cbn [record_all]; [by eexists|].
  apply Forall_cons_1 in F as [Hd Hl].
  destruct (record_fast_some d s Hd) as [s1 E]. rewrite E. cbn. by apply IH.
Qed.

(** ** Threads *)

(** Threads [ts] that record [l] from [s0] are now at [s]. *)
Record run_inv (l : list io_done) (s0 : thread_stats_t) (ts : list (io_done * pc)) (s : thread_stats_t) : Prop := {
  ri_done : ts.*1 = l;
  ri_wf : stats_wf s;
  ri_get : forall f, u64 (get f s + zsum (pend f <$> ts)) = u64 (get f s0 + zsum (amount f <$> l));
  ri_rest : untouched s0 s;
  ri_threads : Forall (thread_ok s) ts;
  ri_min : lowest (lat_min_ns s0) l <= lat_min_ns s <= lat_min_ns s0;
  ri_max : lat_max_ns s0 <= lat_max_ns s <= highest (lat_max_ns s0) l
}.

Lemma lowest_le m l d : d ∈ l -> lowest m l <= latency_ns d.
Proof. induction 1; cbn; lia. Qed.

Lemma highest_ge m l d : d ∈ l -> latency_ns d <= highest m l.
Proof. induction 1; cbn; lia. Qed.

Lemma lowest_le_init m l : lowest m l <= m.
Proof. induction l; cbn; lia. Qed.

Lemma highest_ge_init m l : m <= highest m l.
Proof. induction l; cbn; lia. Qed.

Lemma run_inv_start l s0 : stats_wf s0 -> run_inv l s0 ((fun d => (d, AtOps)) <$> l) s0.
Proof.
  intros W. split; [|done| |done| | |].
  - induction l; cbn; by f_equal.
  - intros f. do 2 f_equal. rewrite <- list_fmap_compose. f_equal.
  - by apply Forall_fmap, Forall_true.
  - pose proof (lowest_le_init (lat_min_ns s0) l). lia.
  - pose proof (highest_ge_init (lat_max_ns s0) l). lia.
Qed.

Lemma run_inv_step l s0 ts s i d p spurious p' s' :
  run_inv l s0 ts s -> ts !! i = Some (d, p) -> stats_record_io d spurious p s = Some (p', s') ->
  run_inv l s0 (<[i := (d, p')]> ts) s'.
Proof.
  intros [E W G U T Mi Ma] Hi Hs.
  destruct (record_step _ _ _ _ _ _ W (Forall_lookup_1 _ _ _ _ T Hi) Hs) as ([W' G' U'] & X & T').
  assert (d ∈ l) as Hd.
  { rewrite <- E. apply list_elem_of_fmap. exists (d, p). split; [done|by eapply list_elem_of_lookup_2]. }
  pose proof (lowest_le (lat_min_ns s0) l d Hd). pose proof (highest_ge (lat_max_ns s0) l d Hd).
  pose proof (lookup_lt_Some _ _ _ Hi) as Hlen.
  split; [|done| |by eapply untouched_trans| |unfold extremes_move in X; lia..].
  - rewrite (list_fmap_insert fst), <- E. cbn. apply list_insert_id. by rewrite list_lookup_fmap, Hi.
  - intros f. rewrite (list_fmap_insert (pend f)), zsum_insert by by rewrite length_fmap.
    assert (nth i (pend f <$> ts) 0 = pend f (d, p)) as ->.
    { rewrite nth_lookup, list_lookup_fmap, Hi. done. }
    rewrite G', u64_add_l, <- G. unfold owed. f_equal. lia.
  - apply Forall_insert; [|done]. eapply Forall_impl; [done|]. intros t. by eapply thread_ok_mono.
Qed.

Lemma run_inv_interleave l s0 sched : forall ts s ts' s',
  run_inv l s0 ts s -> interleave sched ts s = Some (ts', s') -> run_inv l s0 ts' s'.
Proof.
  induction sched as [|[i spurious] sched IH]; cbn [interleave]; intros ts s ts' s' I H; [by injection H as <- <-|].
  destruct (ts !! i) as [[d p]|] eqn:Hi; [|by eapply IH].
  destruct (stats_record_io d spurious p s) as [[p1 s1]|] eqn:Hs; [|done].
  eapply IH; [|exact H]. by eapply run_inv_step.
Qed.

Lemma run_inv_end l s0 ts s :
  run_inv l s0 ts s -> Forall (fun t => snd t = AtEnd) ts ->
  recorded l s0 s /\ Forall (fun d => 0 <= bucket_of (latency_ns d)) l.
Proof.
  intros [E W G U T Mi Ma] F.
  assert (Forall (fun d => 0 <= bucket_of (latency_ns d) /\ lat_min_ns s <= latency_ns d <= lat_max_ns s) l) as Fl.
  { rewrite <- E. apply Forall_fmap. rewrite Forall_forall in F, T |- *. intros [d p] Hin.
    specialize (F _ Hin). specialize (T _ Hin). cbn in F. subst p. cbn in *. lia. }
  split; [split; [split; [done| |done]| |]|].
  - intros f. rewrite <- G. assert (zsum (pend f <$> ts) = 0) as ->; [|by rewrite Z.add_0_r, u64_get].
    clear -F. induction F as [|[d p] ts Hp _ IH]; [done|]. cbn [fmap list_fmap zsum]. cbn in Hp. subst p.
    rewrite IH. unfold pend. cbn. destruct f; done.
  - apply Z.le_antisymm; [|lia]. destruct Mi as [_ Mi]. clear -Fl Mi.
    induction Fl; cbn; [lia|]. lia.
  - apply Z.le_antisymm; [lia|]. destruct Ma as [Ma _]. clear -Fl Ma.
    induction Fl; cbn; [lia|]. lia.
  - eapply Forall_impl; [exact Fl|]. cbn. lia.
Qed.

(** Threads that record completions concurrently through the atomic
    read-modify-write operations and the two compare-and-swap loops, interleaved
    in any order with any number of spurious failures, leave exactly the
    statistics that the plain version leaves when it records the same completions
    one after the other: no count, byte, latency or histogram entry is lost, and
    the minimum and maximum are those of all completions. (A thread that records
    several completions in turn is a schedule in which one starts where the
    previous one ended.) *)
Theorem concurrent_recording l s sched ts' s' :
  stats_wf s -> interleave sched ((fun d => (d, AtOps)) <$> l) s = Some (ts', s') ->
  Forall (fun t => snd t = AtEnd) ts' -> record_all l s = Some s'.
Proof.
  intros W H F. pose proof (run_inv_interleave _ _ _ _ _ _ _ (run_inv_start l s W) H) as I.
  destruct (run_inv_end _ _ _ _ I F) as [R B].
  destruct (record_all_some l s B) as [s1 E]. rewrite E. f_equal.
  by eapply recorded_unique; [eapply record_all_recorded|].
Qed.

Lemma stats_init_wf : stats_wf stats_init.
Proof.
  split; [done|]. intros []; try done. cbn. rewrite aget_replicate. done.
Qed.

(** Two threads that both lower the minimum, the first overtaken between its load
    and its compare-and-swap. *)
Lemma concurrent_recording_witness :
  let d1 := {| latency_ns := 70000; io_bytes := 4096; is_write := false |} in
  let d2 := {| latency_ns := 30000; io_bytes := 512; is_write := true |} in
  let sched := replicate 4 (0%nat, false) ++ replicate 5 (1%nat, true) ++ replicate 12 (1%nat, false)
                ++ replicate 12 (0%nat, false) in
  exists ts' s', interleave sched [(d1, AtOps); (d2, AtOps)] stats_init = Some (ts', s') /\
    lat_min_ns s' = 30000 /\ lat_max_ns s' = 70000 /\ record_all [d1; d2] stats_init = Some s'.
Proof.
  intros d1 d2 sched. eexists _, _. split; [vm_compute; reflexivity|]. split; [reflexivity|]. split; [reflexivity|].
  apply (concurrent_recording [d1; d2] stats_init sched [(d1, AtEnd); (d2, AtEnd)]).
  - exact stats_init_wf.
  - vm_compute. reflexivity.
  - repeat constructor.
Defined.

(** Accesses left, without interference: a stale value costs one more round. *)
Definition accesses_left (p : pc) (s : thread_stats_t) : nat :=
  match p with
  | AtOps => 11 | AtBytes => 10 | AtHist => 9 | LoadMin => 8
  | CasMin c => if (c =? lat_min_ns s)%Z then 6 else 7
  | LoadMax => 5 | CasMax c => if (c =? lat_max_ns s)%Z then 3 else 4
  | AtSum => 2 | AtCount => 1 | AtEnd => 0
  end%nat.

(** A recorder that runs alone is done after twelve accesses, wherever it is. *)
Lemma recording_ends d p s :
  0 <= bucket_of (latency_ns d) ->
  exists s', interleave (replicate 12 (0%nat, false)) [(d, p)] s = Some ([(d, AtEnd)], s').
Proof.
  intros Hb.
  assert (forall p s, exists p' s', stats_record_io d false p s = Some (p', s') /\ (accesses_left p' s' <= accesses_left p s - 1)%nat) as Hstep.
  { intros [] s1; cbn [stats_record_io]; try (eexists _, _; split; [done|cbn; rewrite ?Z.eqb_refl; lia]).
    - assert (exists s2, add_hist d s1 = Some s2) as [s2 ->].
      { unfold add_hist. rewrite (proj2 (Z.ltb_ge _ _) Hb). case_match; eauto. }
      eexists _, _. split; [done|cbn; lia].
    - cbn. rewrite (Z.eqb_sym (lat_min_ns s1)). destruct (latency_ns d <? cur), (cur =? lat_min_ns s1) eqn:E; cbn;
        rewrite ?Z.eqb_refl; eexists _, _; (split; [done|]); cbn; rewrite ?Z.eqb_refl; lia.
    - cbn. rewrite (Z.eqb_sym (lat_max_ns s1)). destruct (cur <? latency_ns d), (cur =? lat_max_ns s1) eqn:E; cbn;
        rewrite ?Z.eqb_refl; eexists _, _; (split; [done|]); cbn; rewrite ?Z.eqb_refl; lia. }
  assert (forall n p s, (accesses_left p s <= n)%nat ->
    exists s', interleave (replicate n (0%nat, false)) [(d, p)] s = Some ([(d, AtEnd)], s')) as H.
  { induction n as [|n IH]; intros p1 s1 Hn; cbn.
    - assert (p1 = AtEnd) as -> by (destruct p1; cbn in Hn; repeat case_match; done || lia). by eexists.
    - destruct (Hstep p1 s1) as (p2 & s2 & -> & H2). apply IH. lia. }
  apply H. destruct p; cbn; repeat case_match; lia.
Qed.

(** ** Aggregation *)

Lemma aget_zip_add l k b : zlen l = zlen k -> aget 0 (zip_with add64 l k) b = add64 (aget 0 l b) (aget 0 k b).
Proof.
  unfold aget, zlen. intros H. destruct (b <? 0); [done|]. generalize (Z.to_nat b) as n. intros n.
  revert k H n. induction l as [|x l IH]; intros [|y k] H n; cbn in *; try lia; [by destruct n|].
  destruct n; [done|]. apply IH. lia.
Qed.

Lemma aggregate_wf out src : stats_wf out -> stats_wf src -> stats_wf (aggregate_one out src) /\
  forall f, get f (aggregate_one out src) = u64 (get f out + get f src).
Proof.
  intros W1 W2.
  assert (forall f, get f (aggregate_one out src) = u64 (get f out + get f src)) as H.
  { intros []; try done. cbn. apply aget_zip_add. by rewrite (wf_hist _ W1), (wf_hist _ W2). }
  split; [|done]. split; [|intros f; rewrite H; apply u64_le].
  cbn. unfold zlen. rewrite length_zip_with. pose proof (wf_hist _ W1). pose proof (wf_hist _ W2).
  unfold zlen in *. lia.
Qed.

(** Adding the statistics of one more thread records its completions. *)
Lemma aggregate_one_recorded l k out src :
  recorded l stats_init out -> recorded k stats_init src -> recorded (l ++ k) stats_init (aggregate_one out src).
Proof.
  intros [[W1 G1 U1] L1 H1] [[W2 G2 U2] L2 H2]. destruct (aggregate_wf _ _ W1 W2) as [W G].
  unfold untouched in *. destruct_and!. split; [split; [done| |]| |].
  - intros f. rewrite G, G1, G2, fmap_app, zsum_app, u64_add_l, u64_add_r.
    assert (get f stats_init = 0) as -> by (destruct f; cbn; rewrite ?aget_replicate; done). done.
  - unfold untouched. cbn.
    repeat match goal with H : _ = _ |- _ => rewrite H end. done.
  - assert (forall m a b, lowest m (a ++ b) = Z.min (lowest m a) (lowest m b)) as E.
    { intros m a b. induction a as [|d a IH]; cbn; [pose proof (lowest_le_init m b); lia|]. rewrite IH. lia. }
    rewrite E, <- L1, <- L2. cbn. case_match; lia.
  - assert (forall m a b, highest m (a ++ b) = Z.max (highest m a) (highest m b)) as E.
    { intros m a b. induction a as [|d a IH]; cbn; [pose proof (highest_ge_init m b); lia|]. rewrite IH. lia. }
    rewrite E, <- H1, <- H2. cbn. case_match; lia.
Qed.

Lemma foldl_aggregate ls ss : Forall2 (fun l s => recorded l stats_init s) ls ss -> forall l0 s0,
  recorded l0 stats_init s0 -> recorded (l0 ++ concat ls) stats_init (foldl aggregate_one s0 ss).
Proof.
  induction 1 as [|l s ls ss H _ IH]; intros l0 s0 H0; cbn; [by rewrite app_nil_r|].
  rewrite app_assoc. apply IH. by apply aggregate_one_recorded.
Qed.

Lemma record_all_forall l : forall s s', record_all l s = Some s' -> Forall (fun d => 0 <= bucket_of (latency_ns d)) l.
Proof.
  induction l as [|d l IH]; intros s s'; cbn [record_all]; [done|].
  destruct (stats_record_io_fast d s) as [s1|] eqn:E; cbn [mbind option_bind]; [|done]. intros H.
  constructor; [|by eapply IH]. revert E. unfold stats_record_io_fast, add_hist.
  destruct (Z.leb_spec LAT_HIST_BUCKETS (bucket_of (latency_ns d))); [unfold LAT_HIST_BUCKETS in *; lia|].
  by destruct (Z.ltb_spec (bucket_of (latency_ns d)) 0).
Qed.

(** Aggregating the statistics of the threads of a job gives what one thread
    would have recorded, had it seen all completions of all threads: counters,
    histogram, minimum, maximum, sum and count. *)
Theorem aggregate_is_union ls per_thread :
  Forall2 (fun l s => record_all l stats_init = Some s) ls per_thread ->
  record_all (concat ls) stats_init = Some (stats_aggregate per_thread).
Proof.
  intros H.
  assert (recorded (concat ls) stats_init (stats_aggregate per_thread)) as R.
  { apply (foldl_aggregate ls per_thread) with (l0 := []); [|apply recorded_nil, stats_init_wf].
    eapply Forall2_impl; [exact H|]. intros l s E. by apply record_all_recorded; [apply stats_init_wf|]. }
  assert (Forall (fun d => 0 <= bucket_of (latency_ns d)) (concat ls)) as B.
  { clear R. induction H as [|l s ls ss E _ IH]; [done|]. cbn. apply Forall_app. split; [by eapply record_all_forall|done]. }
  destruct (record_all_some _ stats_init B) as [s1 E]. rewrite E. f_equal.
  by eapply recorded_unique; [eapply record_all_recorded, E; apply stats_init_wf|].
Qed.

Lemma aggregate_is_union_witness :
  let d1 := {| latency_ns := 70000; io_bytes := 4096; is_write := false |} in
  let d2 := {| latency_ns := 11000000; io_bytes := 512; is_write := true |} in
  exists s1 s2, lat_overflow (stats_aggregate [s1; stats_init; s2]) = 1 /\
    record_all [d1; d2; d1] stats_init = Some (stats_aggregate [s1; stats_init; s2]).
Proof.
  intros d1 d2.
  exists (default stats_init (record_all [d1] stats_init)), (default stats_init (record_all [d2; d1] stats_init)).
  split; [vm_compute; reflexivity|].
  apply (aggregate_is_union [[d1]; []; [d2; d1]]).
  repeat constructor.
Defined.

(** ** Percentiles *)

(** The counts up to and including bucket [i]. *)
Definition cumulative (hist : list Z) (i : nat) : Z := foldl add64 0 (take (S i) hist).

Lemma percentile_scan_spec thr hist : forall i c,
  match percentile_scan hist i c thr with
  | Some b => exists n : nat, b = i + Z.of_nat n /\ (n < length hist)%nat /\
      d_ge (d_of_Z (foldl add64 c (take (S n) hist))) thr = true /\
      forall m, (m < n)%nat -> d_ge (d_of_Z (foldl add64 c (take (S m) hist))) thr = false
  | None => forall m, (m < length hist)%nat -> d_ge (d_of_Z (foldl add64 c (take (S m) hist))) thr = false
  end.
Proof.
  induction hist as [|x hist IH]; intros i c; cbn [percentile_scan]; [cbn; lia|].
  destruct (d_ge (d_of_Z (add64 c x)) thr) eqn:E.
  { exists 0%nat. cbn. split_and!; [lia|lia|done|lia]. }
  specialize (IH (i + 1) (add64 c x)). destruct (percentile_scan hist (i + 1) (add64 c x) thr) as [b|].
  - destruct IH as (n & -> & Hn & H1 & H2). exists (S n). cbn [length]. split_and!; [lia|lia|done|].
    intros [|m] Hm; [done|]. apply H2. lia.
  - intros [|m] Hm; [done|]. apply IH. cbn in Hm. lia.
Qed.

(** The percentile of no samples is 0; otherwise it is the upper bound, in
    nanoseconds, of the first bucket whose cumulative count reaches the threshold,
    and the end of the histogram when only the overflow does. *)
Theorem percentile_is_bucket_bound s pct :
  let thr := d_mul (d_div pct (d_of_Z 100)) (d_of_Z (total_samples s)) in
  let reaches n := d_ge (d_of_Z (cumulative (lat_hist s) n)) thr in
  (total_samples s = 0 -> stats_percentile s pct = 0) /\
  (total_samples s <> 0 ->
     (exists n, (n < length (lat_hist s))%nat /\ reaches n = true /\ (forall m, (m < n)%nat -> reaches m = false) /\
                stats_percentile s pct = (Z.of_nat n + 1) * 50000) \/
     ((forall n, (n < length (lat_hist s))%nat -> reaches n = false) /\ stats_percentile s pct = 10000000)).
Proof.
  intros thr reaches. unfold stats_percentile. split; intros Ht; [by rewrite Ht|].
  rewrite (proj2 (Z.eqb_neq _ _) Ht). pose proof (percentile_scan_spec thr (lat_hist s) 0 0) as H.
  fold thr. destruct (percentile_scan (lat_hist s) 0 0 thr) as [b|]; [left|right; done].
  destruct H as (n & -> & Hn & H1 & H2). exists n. split_and!; [done..|]. unfold LAT_HIST_BUCKET_US. lia.
Qed.

(** ** Samples *)

(** The samples taken so far add up to the snapshot. *)
Definition sampled (s : thread_stats_t) : Prop :=
  0 <= sample_count s <= MAX_SAMPLES /\ zlen (bw_samples s) = MAX_SAMPLES /\ zlen (iops_samples s) = MAX_SAMPLES /\
  u64 (zsum (take (Z.to_nat (sample_count s)) (bw_samples s))) = last_bytes s /\
  u64 (zsum (take (Z.to_nat (sample_count s)) (iops_samples s))) = last_ops s.

Lemma zsum_take_aset l n v : 0 <= n < zlen l ->
  zsum (take (Z.to_nat (n + 1)) (aset l n v)) = zsum (take (Z.to_nat n) l) + v.
Proof.
  intros Hn. replace (Z.to_nat (n + 1)) with (S (Z.to_nat n)) by lia.
  unfold aset. rewrite (proj2 (Z.ltb_ge _ _)) by lia. unfold zlen in Hn.
  rewrite (take_S_r _ _ v) by (rewrite list_lookup_insert_eq; [done|lia]).
  rewrite take_insert_ge by done. rewrite zsum_app. cbn. lia.
Qed.

(** The bytes and operations of the samples of a thread sum up to what it had
    moved at the last sample: no interval is lost or counted twice. *)
Theorem samples_add_up s : sampled s -> sampled (stats_take_sample s) /\
  (sample_count s < MAX_SAMPLES ->
   last_bytes (stats_take_sample s) = u64 (read_bytes s + write_bytes s) /\
   last_ops (stats_take_sample s) = u64 (read_ops s + write_ops s)).
Proof.
  intros (Hn & Lb & Li & Hb & Ho). unfold stats_take_sample.
  destruct (Z.leb_spec MAX_SAMPLES (sample_count s)); [split; [done|lia]|]. split; [|done].
  unfold sampled. cbn. rewrite !zlen_aset, !zsum_take_aset by lia. split_and!; try done; try lia.
  - rewrite <- u64_add_l, Hb, u64_add_r. rewrite Zplus_minus.
    unfold u64, wrap_u. by rewrite Zmod_mod.
  - rewrite <- u64_add_l, Ho, u64_add_r. rewrite Zplus_minus.
    unfold u64, wrap_u. by rewrite Zmod_mod.
Qed.
