(* ===== verification/CStrings.v ===== *)
(** * Strings of the C library

    What the tools use of [<ctype.h>], [<string.h>], [<stdlib.h>] and [<stdio.h>]
    in the C locale, over strings without their terminating zero: character
    classes, case-insensitive comparison, the number readers with their end
    pointer and range error, bounded copies and line input. A pointer into a string
    is the suffix it points to. *)
From Stdlib Require Import ZArith Lia List String Ascii SpecFloat.
From stdpp Require Import base tactics strings list.
From S2P Require Import Prelude Double.

#[local] Open Scope Z_scope.

(** ** Characters *)

Definition code (c : ascii) : Z := Z.of_N (N_of_ascii c).
Definition of_code (z : Z) : ascii := ascii_of_N (Z.to_N z).

Definition isspace (c : ascii) : bool := (code c =? 32) || ((9 <=? code c) && (code c <=? 13)).
Definition isdigit (c : ascii) : bool := (48 <=? code c) && (code c <=? 57).
Definition tolower (c : ascii) : ascii :=
  if (65 <=? code c) && (code c <=? 90) then of_code (code c + 32) else c.

Definition nul : ascii := Ascii.zero.
Definition newline : ascii := of_code 10.

(** ** Comparison *)

Definition streq (s t : string) : bool := (s =? t)%string.

(** [strcasecmp(s, t) == 0] and [strncasecmp(s, t, n) == 0]; the terminating
    zero counts as a character. *)
Fixpoint strcase_eq (s t : string) : bool :=
  match s, t with
  | EmptyString, EmptyString => true
  | String c s, String d t => (tolower c =? tolower d)%char && strcase_eq s t
  | _, _ => false
  end.

Fixpoint strncase_eq (s t : string) (n : nat) : bool :=
  match n with
  | O => true
  | S n =>
      match s, t with
      | EmptyString, EmptyString => true
      | String c s, String d t => (tolower c =? tolower d)%char && strncase_eq s t n
      | _, _ => false
      end
  end.

(** ** Searching and cutting *)

(** [strchr]: what is in front of the first [c] and what follows it. *)
Fixpoint cut (c : ascii) (s : string) : option (string * string) :=
  match s with
  | EmptyString => None
  | String d s =>
      if (d =? c)%char then Some (EmptyString, s)
      else match cut c s with Some (a, b) => Some (String d a, b) | None => None end
  end.

(** The C string in a buffer ends at the first zero. *)
Definition cstr (s : string) : string := match cut nul s with Some (a, _) => a | None => s end.

(** [snprintf(dst, n, fmt, s)] for the format that copies a string: at most
    [n - 1] characters. *)
Definition bounded (n : nat) (s : string) : string := substring 0 (n - 1) s.

Fixpoint skip_space (s : string) : string :=
  match s with String c r => if isspace c then skip_space r else s | EmptyString => s end.

Fixpoint rstrip (s : string) : string :=
  match s with
  | EmptyString => EmptyString
  | String c r => match rstrip r with
                  | EmptyString => if isspace c then EmptyString else String c EmptyString
                  | r => String c r
                  end
  end.

(** ** Lines *)

(** [fgets] with a buffer of [n + 1] bytes: up to [n] characters, the newline
    included; and what is left of the file. *)
Fixpoint fgets (n : nat) (file : string) : string * string :=
  match n, file with
  | S n, String c r =>
      if (c =? newline)%char then (String c EmptyString, r)
      else let '(line, rest) := fgets n r in (String c line, rest)
  | _, _ => (EmptyString, file)
  end.

(** ** Integers *)

(** The digits at the front, appended to [acc]; and the end pointer. *)
Fixpoint digits (acc : Z) (s : string) : Z * string :=
  match s with
  | String c r => if isdigit c then digits (10 * acc + (code c - 48)) r else (acc, s)
  | EmptyString => (acc, s)
  end.

Definition opt_sign (s : string) : bool * string :=
  match s with
  | String c r => if (c =? "-")%char then (true, r) else if (c =? "+")%char then (false, r) else (false, s)
  | EmptyString => (false, s)
  end.

Definition starts (p : ascii -> bool) (s : string) : bool :=
  match s with String c _ => p c | EmptyString => false end.

Definition LONG_MAX : Z := 9223372036854775807.
Definition LONG_MIN : Z := -9223372036854775808.
Definition ULLONG_MAX : Z := 18446744073709551615.

(** Value, end pointer, [errno == ERANGE]. Without digits the end pointer is the
    string itself. *)
Definition strtol (s : string) : Z * string * bool :=
  let '(neg, t) := opt_sign (skip_space s) in
  if starts isdigit t then
    let '(v, e) := digits 0 t in
    let v := if neg then - v else v in
    if LONG_MAX <? v then (LONG_MAX, e, true) else if v <? LONG_MIN then (LONG_MIN, e, true) else (v, e, false)
  else (0, s, false).

(** A minus sign negates the unsigned value. *)
Definition strtoull (s : string) : Z * string * bool :=
  let '(neg, t) := opt_sign (skip_space s) in
  if starts isdigit t then
    let '(v, e) := digits 0 t in
    if ULLONG_MAX <? v then (ULLONG_MAX, e, true) else (if neg then u64 (- v) else v, e, false)
  else (0, s, false).

(** ** Floating point *)

(** The double nearest to [m * 10^e], ties to even: for a negative exponent a
    quotient of more than 64 bits, whose last bit stands for what is cut off. *)
Definition round_decimal (neg : bool) (m e : Z) : double :=
  if m =? 0 then S754_zero neg
  else if 0 <=? e then binary_normalize 53 1024 (cond_Zopp neg (m * 10 ^ e)) 0 neg
  else
    let den := 10 ^ (- e) in
    let s := Z.max 0 (66 + Z.log2 den - Z.log2 m) in
    let q := m * 2 ^ s / den in
    let sticky := if m * 2 ^ s mod den =? 0 then 0 else 1 in
    binary_normalize 53 1024 (cond_Zopp neg (2 * q + sticky)) (- (s + 1)) neg.

Definition hexval (c : ascii) : option Z :=
  let n := code (tolower c) in
  if (48 <=? n) && (n <=? 57) then Some (n - 48) else if (97 <=? n) && (n <=? 102) then Some (n - 87) else None.
Definition isxdigit (c : ascii) : bool := match hexval c with Some _ => true | None => false end.

Fixpoint hexdigits (acc : Z) (s : string) : Z * string :=
  match s with
  | String c r => match hexval c with Some v => hexdigits (16 * acc + v) r | None => (acc, s) end
  | EmptyString => (acc, s)
  end.

(** Mantissa, number of digits after the point, end pointer; [None] without digits. *)
Definition mantissa (digit : ascii -> bool) (read : Z -> string -> Z * string) (s : string)
  : option (Z * Z * string) :=
  let '(m, r) := read 0 s in
  if starts (fun c => (c =? ".")%char) r then
    let r' := substring 1 (String.length r) r in
    if starts digit s || starts digit r' then
      let '(m, e) := read m r' in Some (m, Z.of_nat (String.length r') - Z.of_nat (String.length e), e)
    else None
  else if starts digit s then Some (m, 0, r) else None.

(** An exponent needs a digit; otherwise its letter is not consumed. *)
Definition exponent (letter : ascii) (s : string) : Z * string :=
  if starts (fun c => (tolower c =? letter)%char) s then
    let '(neg, t) := opt_sign (substring 1 (String.length s) s) in
    if starts isdigit t then let '(v, e) := digits 0 t in ((if neg then - v else v), e) else (0, s)
  else (0, s).

Fixpoint nan_chars (s : string) : option string :=
  match s with
  | String c r =>
      if (c =? ")")%char then Some r
      else if isdigit c || ((97 <=? code (tolower c)) && (code (tolower c) <=? 122)) || (c =? "_")%char
      then nan_chars r else None
  | EmptyString => None
  end.

Definition strtod (s : string) : double * string :=
  let '(neg, t) := opt_sign (skip_space s) in
  let rest n := substring n (String.length t) t in
  if strncase_eq t "infinity" 8 then (S754_infinity neg, rest 8%nat)
  else if strncase_eq t "inf" 3 then (S754_infinity neg, rest 3%nat)
  else if strncase_eq t "nan" 3 then
    let r := rest 3%nat in
    (S754_nan, match r with
               | String c r' => if (c =? "(")%char then match nan_chars r' with Some e => e | None => r end else r
               | EmptyString => r
               end)
  else
    match (if strncase_eq t "0x" 2 then mantissa isxdigit hexdigits (rest 2%nat) else None) with
    | Some (m, frac, r) =>
        let '(x, e) := exponent "p" r in
        ((if m =? 0 then S754_zero neg else binary_normalize 53 1024 (cond_Zopp neg m) (x - 4 * frac) neg), e)
    | None =>
        match mantissa isdigit digits t with
        | Some (m, frac, r) => let '(x, e) := exponent "e" r in (round_decimal neg m (x - frac), e)
        | None => (d_zero, s)
        end
    end.

Example strtod_tenth : strtod " 0.1ms" = (d_lit 1 10, "ms"%string).
Proof. vm_compute. reflexivity. Qed.

Example strtod_exponent : strtod "-25e-1e" = (d_lit (-5) 2, "e"%string).
Proof. vm_compute. reflexivity. Qed.

Example strtod_hex : strtod "0x1.8p1s" = (d_lit 3 1, "s"%string).
Proof. vm_compute. reflexivity. Qed.

Example strtod_no_digits : strtod " .ms" = (d_zero, " .ms"%string).
Proof. vm_compute. reflexivity. Qed.

(** ** Facts *)

Section Append.
#[local] Arguments String.append : simpl nomatch.

Lemma length_append s t : String.length (s ++ t)%string = (String.length s + String.length t)%nat.
Proof. induction s; cbn; [done|]. by rewrite IHs. Qed.

Lemma append_assoc (s t u : string) : ((s ++ t) ++ u = s ++ (t ++ u))%string.
Proof. induction s; cbn; [done|]. by rewrite IHs. Qed.

Lemma append_nil (s : string) : (s ++ EmptyString = s)%string.
Proof. induction s as [|c s IH]; [done|]. cbn. by rewrite IH. Qed.
End Append.

(** Printing: [%d], [%lld] and [%llu]. *)
Definition digit_char (d : Z) : ascii := of_code (48 + d).

Fixpoint print_digits (fuel : nat) (n : Z) (tail : string) : string :=
  match fuel with
  | O => tail
  | S fuel => let tail := String (digit_char (n mod 10)) tail in
              if n / 10 =? 0 then tail else print_digits fuel (n / 10) tail
  end.

(** Twenty digits hold every value below [2^64]. *)
Definition print_u (n : Z) : string := print_digits 20 n EmptyString.
Definition print_i (n : Z) : string := if n <? 0 then String "-" (print_u (- n)) else print_u n.

Example print_ex : (print_i (-2147483648), print_u 0, print_u 18446744073709551615)
  = ("-2147483648", "0", "18446744073709551615")%string.
Proof. vm_compute. reflexivity. Qed.

Lemma isdigit_digit_char d : 0 <= d < 10 -> isdigit (digit_char d) = true /\ code (digit_char d) = 48 + d.
Proof.
  intros H. assert (d = 0 \/ d = 1 \/ d = 2 \/ d = 3 \/ d = 4 \/ d = 5 \/ d = 6 \/ d = 7 \/ d = 8 \/ d = 9) as E by lia.
  by repeat (destruct E as [->|E]; [done|]); subst.
Qed.

Lemma digits_stop acc s : starts isdigit s = false -> digits acc s = (acc, s).
Proof. destruct s as [|c s]; cbn; [done|]. by intros ->. Qed.

Lemma digits_print fuel : forall n tail, fuel <> O -> 0 <= n < 10 ^ Z.of_nat fuel ->
  digits 0 (print_digits fuel n tail) = digits n tail /\ starts isdigit (print_digits fuel n tail) = true.
Proof.
  induction fuel as [|fuel IH]; intros n tail Hf Hn; [done|].
  cbn [print_digits].
  assert (0 <= n mod 10 < 10) as Hm by (apply Z.mod_pos_bound; lia).
  destruct (isdigit_digit_char _ Hm) as [Hd Hc].
  pose proof (Z_div_mod_eq_full n 10) as En.
  destruct (Z.eqb_spec (n / 10) 0) as [E|E].
  - cbn [digits starts]. rewrite Hd, Hc. split; [|done]. f_equal. lia.
  - assert (0 <= n / 10 < 10 ^ Z.of_nat fuel) as Hq.
    { replace (Z.of_nat (S fuel)) with (Z.succ (Z.of_nat fuel)) in Hn by lia.
      rewrite Z.pow_succ_r in Hn by lia. split; [apply Z.div_pos; lia|apply Z.div_lt_upper_bound; lia]. }
    assert (fuel <> O) as Hf' by (intros ->; cbn in Hq; lia).
    destruct (IH (n / 10) (String (digit_char (n mod 10)) tail) Hf' Hq) as [Ew Hs].
    split; [|done]. rewrite Ew. cbn [digits]. rewrite Hd, Hc. f_equal. lia.
Qed.

Lemma starts_digit s : starts isdigit s = true -> skip_space s = s /\ opt_sign s = (false, s).
Proof.
  destruct s as [|c s]; [done|]. cbn. intros H. split.
  - unfold isspace, isdigit in *. destruct (Z.eqb_spec (code c) 32), (Z.leb_spec 9 (code c)), (Z.leb_spec (code c) 13),
      (Z.leb_spec 48 (code c)); cbn in *; try done; lia.
  - destruct (Ascii.eqb_spec c "-") as [->|]; [done|]. by destruct (Ascii.eqb_spec c "+") as [->|].
Qed.

(** Reading back what was printed, in front of a tail that does not start with a
    digit. *)
Lemma print_u_digits n tail : 0 <= n <= ULLONG_MAX -> starts isdigit tail = false ->
  digits 0 (print_digits 20 n tail) = (n, tail) /\ starts isdigit (print_digits 20 n tail) = true.
Proof.
  intros Hn Ht. destruct (digits_print 20 n tail) as [E S1]; [done|unfold ULLONG_MAX in Hn; cbn; lia|].
  by rewrite E, digits_stop.
Qed.

Lemma strtoull_print n tail : 0 <= n <= ULLONG_MAX -> starts isdigit tail = false ->
  strtoull (print_digits 20 n tail) = (n, tail, false).
Proof.
  intros Hn Ht. destruct (print_u_digits n tail Hn Ht) as [E S1]. destruct (starts_digit _ S1) as [E1 E2].
  unfold strtoull. rewrite E1, E2, S1, E. destruct (Z.ltb_spec ULLONG_MAX n); [lia|done].
Qed.

Lemma strtol_print n : LONG_MIN <= n <= LONG_MAX -> strtol (print_i n) = (n, EmptyString, false).
Proof.
  intros Hn. unfold print_i, print_u. unfold LONG_MIN, LONG_MAX in Hn.
  assert (starts isdigit EmptyString = false) as H0 by done.
  destruct (Z.ltb_spec n 0) as [H|H].
  - destruct (print_u_digits (- n) EmptyString) as [E S1]; [unfold ULLONG_MAX; lia|done|].
    unfold strtol. cbn [skip_space]. replace (isspace "-") with false by done. cbn [opt_sign].
    replace ("-" =? "-")%char with true by done. rewrite S1, E, Z.opp_involutive.
    destruct (Z.ltb_spec LONG_MAX n), (Z.ltb_spec n LONG_MIN); unfold LONG_MIN, LONG_MAX in *; lia || done.
  - destruct (print_u_digits n EmptyString) as [E S1]; [unfold ULLONG_MAX; lia|done|].
    destruct (starts_digit _ S1) as [E1 E2]. unfold strtol. rewrite E1, E2, S1, E.
    destruct (Z.ltb_spec LONG_MAX n), (Z.ltb_spec n LONG_MIN); unfold LONG_MIN, LONG_MAX in *; lia || done.
Qed.
