(* ===== verification/BenchJobs.v ===== *)
(** * BFFIO: job files and command line

    [src/tools/BFFIO/job_parser.h] and [job_parser.c]: reading numbers, sizes,
    latencies and patterns, the defaults of a job, one [key=value] parameter, the
    INI file reader, the command line, normalisation and validation; and from
    [main.c] the checks and engine options of each job. The array of jobs is
    reallocated as it grows; a pointer to a job is the block it points into with
    its index, and using a pointer into a block that [realloc] gave back is [None].
    Files and the success of [realloc] are the class [JobEnv]. *)
From Stdlib Require Import ZArith Lia List String Ascii SpecFloat.
From stdpp Require Import base tactics strings list.
From S2P Require Import Prelude Double CStrings Engine EngineInit.

#[local] Open Scope Z_scope.

Inductive rw_pattern_t := RW_READ | RW_WRITE | RW_RANDREAD | RW_RANDWRITE | RW_READWRITE | RW_RANDRW.
Inductive output_format_t := OUTPUT_NORMAL | OUTPUT_JSON.
Inductive file_service_type_t := FST_ROUNDROBIN | FST_SEQUENTIAL | FST_RANDOM.

Definition PATH_MAX : nat := 4096.
Definition UINT64_MAX : Z := 18446744073709551615.

(** A flag is an [int]; [rw] counts only when [rw_set]. *)
Record job_config_t := {
  j_name : string; rw : rw_pattern_t; rw_set : bool; bs : Z; j_size : Z;
  filename : string; directory : string; direct : Z; runtime_sec : Z; time_based : Z;
  ramp_time_sec : Z; numjobs : Z; iodepth : Z; nrfiles : Z; filesize : Z;
  file_service_type : file_service_type_t; rwmixread : Z; group_reporting : Z; fsync_freq : Z;
  target_p99 : double; j_ring_select : Z; sqpoll : Z
}.

Definition job_config_eta (r : job_config_t) : job_config_t :=
  {| j_name := j_name r; rw := rw r; rw_set := rw_set r; bs := bs r; j_size := j_size r;
     filename := filename r; directory := directory r; direct := direct r; runtime_sec := runtime_sec r;
     time_based := time_based r; ramp_time_sec := ramp_time_sec r; numjobs := numjobs r; iodepth := iodepth r;
     nrfiles := nrfiles r; filesize := filesize r; file_service_type := file_service_type r;
     rwmixread := rwmixread r; group_reporting := group_reporting r; fsync_freq := fsync_freq r;
     target_p99 := target_p99 r; j_ring_select := j_ring_select r; sqpoll := sqpoll r |}.
#[export] Instance jset_name : Setter j_name := ltac:(mk_setter job_config_eta).
#[export] Instance jset_rw : Setter rw := ltac:(mk_setter job_config_eta).
#[export] Instance jset_rw_set : Setter rw_set := ltac:(mk_setter job_config_eta).
#[export] Instance jset_bs : Setter bs := ltac:(mk_setter job_config_eta).
#[export] Instance jset_size : Setter j_size := ltac:(mk_setter job_config_eta).
#[export] Instance jset_filename : Setter filename := ltac:(mk_setter job_config_eta).
#[export] Instance jset_directory : Setter directory := ltac:(mk_setter job_config_eta).
#[export] Instance jset_direct : Setter direct := ltac:(mk_setter job_config_eta).
#[export] Instance jset_runtime : Setter runtime_sec := ltac:(mk_setter job_config_eta).
#[export] Instance jset_time_based : Setter time_based := ltac:(mk_setter job_config_eta).
#[export] Instance jset_ramp : Setter ramp_time_sec := ltac:(mk_setter job_config_eta).
#[export] Instance jset_numjobs : Setter numjobs := ltac:(mk_setter job_config_eta).
#[export] Instance jset_iodepth : Setter iodepth := ltac:(mk_setter job_config_eta).
#[export] Instance jset_nrfiles : Setter nrfiles := ltac:(mk_setter job_config_eta).
#[export] Instance jset_filesize : Setter filesize := ltac:(mk_setter job_config_eta).
#[export] Instance jset_fst : Setter file_service_type := ltac:(mk_setter job_config_eta).
#[export] Instance jset_rwmixread : Setter rwmixread := ltac:(mk_setter job_config_eta).
#[export] Instance jset_group : Setter group_reporting := ltac:(mk_setter job_config_eta).
#[export] Instance jset_fsync : Setter fsync_freq := ltac:(mk_setter job_config_eta).
#[export] Instance jset_target : Setter target_p99 := ltac:(mk_setter job_config_eta).
#[export] Instance jset_ring : Setter j_ring_select := ltac:(mk_setter job_config_eta).
#[export] Instance jset_sqpoll : Setter sqpoll := ltac:(mk_setter job_config_eta).

(** ** Values *)

Definition parse_int (s : string) : option Z :=
  match s with
  | EmptyString => None
  | _ =>
      let '(val, e, erange) := strtol s in
      if erange || streq e s || negb (streq e EmptyString) then None
      else if (val <? INT_MIN) || (INT_MAX <? val) then None
      else Some val
  end.

(** [strip] returns the part of the buffer that is left. *)
Definition strip (s : string) : string := rstrip (skip_space s).

(** 0 is the error value; what follows the suffix letter is not looked at. *)
Definition parse_size (str : string) : Z :=
  match str with
  | EmptyString => 0
  | _ =>
      let '(val, endp, erange) := strtoull str in
      if erange then 0
      else if streq endp str then 0
      else match endp with
           | EmptyString => val
           | String c _ =>
               let c := tolower c in
               if (c =? "k")%char then u64 (val * 1024)
               else if (c =? "m")%char then u64 (val * 1048576)
               else if (c =? "g")%char then u64 (val * 1073741824)
               else 0
           end
  end.

Definition minus_one : double := Eval vm_compute in d_of_Z (-1).

Definition parse_latency (str : string) : double :=
  match str with
  | EmptyString => minus_one
  | _ =>
      let '(val, endp) := strtod str in
      if streq endp str || d_lt val d_zero then minus_one
      else match endp with
           | EmptyString => val
           | String c _ =>
               if strncase_eq endp "us" 2 then d_div val (d_of_Z 1000)
               else if strncase_eq endp "ms" 2 then val
               else if (tolower c =? "s")%char then d_mul val (d_of_Z 1000)
               else minus_one
           end
  end.

Definition rw_table : list (string * rw_pattern_t) :=
  [("read", RW_READ); ("write", RW_WRITE); ("randread", RW_RANDREAD); ("randwrite", RW_RANDWRITE);
   ("readwrite", RW_READWRITE); ("rw", RW_READWRITE); ("randrw", RW_RANDRW)]%string.

Fixpoint find_rw (str : string) (table : list (string * rw_pattern_t)) : option rw_pattern_t :=
  match table with
  | [] => None
  | (name, pattern) :: table =>
      if strncase_eq str name (String.length name + 1) then Some pattern else find_rw str table
  end.

Definition parse_rw (str : string) : option rw_pattern_t := find_rw str rw_table.

Definition rw_pattern_name (p : rw_pattern_t) : string :=
  match p with
  | RW_READ => "read" | RW_WRITE => "write" | RW_RANDREAD => "randread"
  | RW_RANDWRITE => "randwrite" | RW_READWRITE => "readwrite" | RW_RANDRW => "randrw"
  end.

Definition file_service_type_name (fst : file_service_type_t) : string :=
  match fst with FST_ROUNDROBIN => "roundrobin" | FST_SEQUENTIAL => "sequential" | FST_RANDOM => "random" end.

(** ** Defaults *)

Definition job_config_defaults : job_config_t := {|
  j_name := "default"; rw := RW_READ; rw_set := false; bs := 4096; j_size := 0;
  filename := ""; directory := ""; direct := 0; runtime_sec := 0; time_based := 0;
  ramp_time_sec := 0; numjobs := 1; iodepth := 256; nrfiles := 1; filesize := 0;
  file_service_type := FST_ROUNDROBIN; rwmixread := 50; group_reporting := 0; fsync_freq := 0;
  target_p99 := d_zero; j_ring_select := 0; sqpoll := 0 |}.

(** ** One parameter *)

(** The pattern of the integer parameters: parse, check, store. *)
Definition int_param (job : job_config_t) (value : string) (ok : Z -> bool) (store : Z -> job_config_t)
  : Z * job_config_t :=
  match parse_int value with
  | Some v => if ok v then (0, store v) else (-1, job)
  | None => (-1, job)
  end.

Definition size_param (job : job_config_t) (value : string) (store : Z -> job_config_t) : Z * job_config_t :=
  let sz := parse_size value in if sz =? 0 then (-1, job) else (0, store sz).

(** A flag without a value is 1. *)
Definition flag_param (job : job_config_t) (value : string) (store : Z -> job_config_t) : Z * job_config_t :=
  match value with EmptyString => (0, store 1) | _ => int_param job value (fun _ => true) store end.

Definition any (_ : Z) : bool := true.
Definition at_least (n v : Z) : bool := n <=? v.

Definition target_param (job : job_config_t) (value : string) : Z * job_config_t :=
  let ms := parse_latency value in
  if d_lt ms d_zero then (-1, job) else (0, job <| target_p99 := ms |>).

Definition service_param (job : job_config_t) (value : string) : Z * job_config_t :=
  if strcase_eq value "roundrobin" then (0, job <| file_service_type := FST_ROUNDROBIN |>)
  else if strcase_eq value "sequential" then (0, job <| file_service_type := FST_SEQUENTIAL |>)
  else if strcase_eq value "random" then (0, job <| file_service_type := FST_RANDOM |>)
  else (-1, job).

Definition ring_param (job : job_config_t) (value : string) : Z * job_config_t :=
  if strcase_eq value "adaptive" then (0, job <| j_ring_select := 0 |>)
  else if strcase_eq value "cpu_local" then (0, job <| j_ring_select := 1 |>)
  else if strcase_eq value "round_robin" then (0, job <| j_ring_select := 2 |>)
  else if strcase_eq value "thread_local" then (0, job <| j_ring_select := 3 |>)
  else (-1, job).

Definition apply_param (job : job_config_t) (key value : string) : Z * job_config_t :=
  if strncase_eq key "ioengine" 9 then (0, job)
  else if streq key "rw" || streq key "readwrite" then
    match parse_rw value with
    | Some p => (0, job <| rw := p |> <| rw_set := true |>)
    | None => (-1, job)
    end
  else if streq key "bs" || streq key "blocksize" then size_param job value (fun v => job <| bs := v |>)
  else if streq key "size" then size_param job value (fun v => job <| j_size := v |>)
  else if streq key "filename" then (0, job <| filename := bounded PATH_MAX value |>)
  else if streq key "directory" then (0, job <| directory := bounded PATH_MAX value |>)
  else if streq key "direct" then int_param job value any (fun v => job <| direct := v |>)
  else if streq key "runtime" then int_param job value (at_least 0) (fun v => job <| runtime_sec := v |>)
  else if streq key "time_based" then flag_param job value (fun v => job <| time_based := v |>)
  else if streq key "ramp_time" then int_param job value (at_least 0) (fun v => job <| ramp_time_sec := v |>)
  else if streq key "numjobs" then int_param job value (at_least 1) (fun v => job <| numjobs := v |>)
  else if streq key "iodepth" then int_param job value (at_least 1) (fun v => job <| iodepth := v |>)
  else if streq key "rwmixread" then
    int_param job value (fun v => (0 <=? v) && (v <=? 100)) (fun v => job <| rwmixread := v |>)
  else if streq key "group_reporting" then flag_param job value (fun v => job <| group_reporting := v |>)
  else if streq key "fsync" then int_param job value (at_least 0) (fun v => job <| fsync_freq := v |>)
  else if streq key "name" then (0, job <| j_name := bounded 128 value |>)
  else if streq key "target_p99" || streq key "target-p99" then
    target_param job value
  else if streq key "nrfiles" then int_param job value (at_least 1) (fun v => job <| nrfiles := v |>)
  else if streq key "filesize" then size_param job value (fun v => job <| filesize := v |>)
  else if streq key "file_service_type" then
    service_param job value
  else if streq key "ring_select" || streq key "ring-select" then
    ring_param job value
  else if streq key "sqpoll" then int_param job value any (fun v => job <| sqpoll := v |>)
  else (1, job).

(** ** The array of jobs *)

Definition INITIAL_JOBS_CAPACITY : Z := 8.
Definition LINE_MAX_LEN : nat := 1024.

(** [num_jobs] is the length of [jobs]; [jobs_block] names the allocation. *)
Record bench_config_t := {
  jobs : list job_config_t; jobs_capacity : Z; jobs_block : Z;
  output_format : output_format_t; output_file : string
}.

Definition bench_config_eta (r : bench_config_t) : bench_config_t :=
  {| jobs := jobs r; jobs_capacity := jobs_capacity r; jobs_block := jobs_block r;
     output_format := output_format r; output_file := output_file r |}.
#[export] Instance cset_jobs : Setter jobs := ltac:(mk_setter bench_config_eta).
#[export] Instance cset_capacity : Setter jobs_capacity := ltac:(mk_setter bench_config_eta).
#[export] Instance cset_block : Setter jobs_block := ltac:(mk_setter bench_config_eta).
#[export] Instance cset_format : Setter output_format := ltac:(mk_setter bench_config_eta).
#[export] Instance cset_file : Setter output_file := ltac:(mk_setter bench_config_eta).

(** What [fopen] finds, and whether [realloc] has room for so many jobs. *)
Class JobEnv := { read_file : string -> option string; realloc_ok : Z -> bool }.

Section Parser.
Context `{JobEnv}.

Definition bench_config_empty : bench_config_t :=
  {| jobs := []; jobs_capacity := 0; jobs_block := 0; output_format := OUTPUT_NORMAL; output_file := "" |}.

Definition bench_config_grow (config : bench_config_t) : Z * bench_config_t :=
  if zlen (jobs config) <? jobs_capacity config then (0, config)
  else
    let new_cap := i32 (jobs_capacity config * 2) in
    let new_cap := if new_cap <? INITIAL_JOBS_CAPACITY then INITIAL_JOBS_CAPACITY else new_cap in
    if realloc_ok new_cap then
      (0, config <| jobs_block := jobs_block config + 1 |> <| jobs_capacity := new_cap |>)
    else (-1, config).

Definition bench_config_free (config : bench_config_t) : bench_config_t :=
  config <| jobs := [] |> <| jobs_capacity := 0 |>.

(** A [job_config_t *] into the array. *)
Record job_ptr := { p_block : Z; p_index : nat }.

Definition deref (config : bench_config_t) (p : job_ptr) : option job_config_t :=
  if p_block p =? jobs_block config then jobs config !! p_index p else None.

(** [apply_param] through a pointer. *)
Definition apply_at (config : bench_config_t) (p : job_ptr) (key value : string) : option (Z * bench_config_t) :=
  job ← deref config p;
  let '(rc, job) := apply_param job key value in
  Some (rc, config <| jobs := <[p_index p := job]> (jobs config) |>).

(** A new job that inherits [global]; the new [current], or no memory. *)
Definition new_job (config : bench_config_t) (global : job_config_t) (name : string)
  : option job_ptr * bench_config_t :=
  let '(rc, config) := bench_config_grow config in
  if rc <? 0 then (None, config)
  else (Some {| p_block := jobs_block config; p_index := length (jobs config) |},
        config <| jobs := jobs config ++ [global <| j_name := bounded 128 name |>] |>).

(** ** Job files *)

Record file_state := {
  global : job_config_t; current : option job_ptr; in_global : bool; config : bench_config_t
}.

(** [key=value], or a bare flag. *)
Definition key_value (line : string) : string * string :=
  match cut "=" line with
  | Some (key, value) => (strip key, strip value)
  | None => (strip line, "")
  end.

(** One line, as [fgets] left it; a negative code ends the file. *)
Definition file_line (line_buf : string) (s : file_state) : option (Z * file_state) :=
  let line := strip (cstr line_buf) in
  match line with
  | EmptyString => Some (0, s)
  | String c rest =>
      if (c =? "#")%char || (c =? ";")%char then Some (0, s)
      else if (c =? "[")%char then
        match cut "]" rest with
        | None => Some (-1, s)
        | Some (name, _) =>
            let section_name := strip name in
            if strncase_eq section_name "global" 7 then
              Some (0, {| global := global s; current := None; in_global := true; config := config s |})
            else
              match new_job (config s) (global s) section_name with
              | (None, cfg) =>
                  Some (-1, {| global := global s; current := current s; in_global := false; config := cfg |})
              | (p, cfg) => Some (0, {| global := global s; current := p; in_global := false; config := cfg |})
              end
        end
      else
        let '(key, value) := key_value line in
        match (if in_global s then None else current s) with
        | Some p =>
            '(rc, cfg) ← apply_at (config s) p key value;
            Some (rc, {| global := global s; current := current s; in_global := in_global s; config := cfg |})
        | None =>
            let '(rc, g) := apply_param (global s) key value in
            Some (rc, {| global := g; current := current s; in_global := in_global s; config := config s |})
        end
  end.

(** The loop over [fgets]; every line takes at least one character. *)
Fixpoint file_lines (fuel : nat) (file : string) (s : file_state) : option (Z * file_state) :=
  match fuel, file with
  | S fuel, String _ _ =>
      let '(line, rest) := fgets (LINE_MAX_LEN - 1) file in
      '(rc, s) ← file_line line s;
      if rc <? 0 then Some (-1, s) else file_lines fuel rest s
  | _, _ => Some (0, s)
  end.

Definition job_parse_file (path : string) (cfg : bench_config_t) : option (Z * bench_config_t) :=
  match read_file path with
  | None => Some (-1, cfg)
  | Some file =>
      '(rc, s) ← file_lines (String.length file) file
        {| global := job_config_defaults; current := None; in_global := false; config := cfg |};
      Some (rc, config s)
  end.

(** ** The command line *)

Record cli_state := { c_global : job_config_t; c_current : option job_ptr; c_config : bench_config_t }.

Definition starts_dash (s : string) : bool := starts (fun c => (c =? "-")%char) s.

(** The last [n] characters. *)
Definition suffix (n : nat) (s : string) : string := substring (String.length s - n) n s.

Definition strip_dash (s : string) : string :=
  match s with String c r => if (c =? "-")%char then r else s | EmptyString => s end.

(** Key and value of an option, and whether the next argument is the value. *)
Definition split_arg (arg : string) (next : option string) : string * string * bool :=
  let param := strip_dash (strip_dash arg) in
  match cut "=" param with
  | Some (key, value) => (bounded 256 key, value, false)
  | None =>
      match next with
      | Some v => if starts_dash v then (param, "", false) else (param, v, true)
      | None => (param, "", false)
      end
  end%string.

(** One option after it has been split. *)
Definition cli_option (key value : string) (s : cli_state) : option (Z * cli_state) :=
  let cfg := c_config s in
  if streq key "output-format" || streq key "output_format" then
    let fmt := if strncase_eq value "json" 5 then OUTPUT_JSON else OUTPUT_NORMAL in
    Some (0, {| c_global := c_global s; c_current := c_current s; c_config := cfg <| output_format := fmt |> |})
  else if streq key "output" then
    Some (0, {| c_global := c_global s; c_current := c_current s;
                c_config := cfg <| output_file := bounded PATH_MAX value |> |})
  else if streq key "name" then
    match new_job cfg (c_global s) value with
    | (None, cfg) => Some (-1, {| c_global := c_global s; c_current := c_current s; c_config := cfg |})
    | (p, cfg) => Some (0, {| c_global := c_global s; c_current := p; c_config := cfg |})
    end
  else
    match c_current s with
    | Some p =>
        '(rc, cfg) ← apply_at cfg p key value;
        Some (rc, {| c_global := c_global s; c_current := c_current s; c_config := cfg |})
    | None =>
        let '(rc, g) := apply_param (c_global s) key value in
        Some (rc, {| c_global := g; c_current := None; c_config := cfg |})
    end.

Fixpoint cli_args (args : list string) (s : cli_state) : option (Z * cli_state) :=
  match args with
  | [] => Some (0, s)
  | arg :: args =>
      if negb (starts_dash arg) then
        if (4 <=? String.length arg)%nat && streq (suffix 4 arg) ".fio" then
          '(rc, cfg) ← job_parse_file arg (c_config s);
          let s := {| c_global := c_global s; c_current := c_current s; c_config := cfg |} in
          if rc <? 0 then Some (-1, s) else cli_args args s
        else Some (-1, s)
      else
        let '(key, value, used) := split_arg arg (head args) in
        '(rc, s) ← cli_option key value s;
        if rc <? 0 then Some (-1, s)
        else cli_args (if used : bool then match args with [] => args | _ :: r => r end else args) s
  end.

(** [args] is [argv] from 1 on. *)
Definition job_parse_cli (args : list string) : option (Z * bench_config_t) :=
  '(rc, s) ← cli_args args
    {| c_global := job_config_defaults; c_current := None; c_config := bench_config_empty |};
  let cfg := c_config s in
  if rc <? 0 then Some (-1, cfg)
  else if (zlen (jobs cfg) =? 0) && rw_set (c_global s) then
    let '(rc, cfg) := bench_config_grow cfg in
    if rc <? 0 then Some (-1, cfg)
    else Some (0, cfg <| jobs := [(c_global s) <| j_name := "job0"%string |>] |>)
  else Some (0, cfg).

End Parser.

(** ** Normalisation and validation *)

Definition job_config_normalize (job : job_config_t) : job_config_t :=
  if nrfiles job <=? 1 then job
  else if 0 <? filesize job then
    if UINT64_MAX / nrfiles job <? filesize job then job <| j_size := UINT64_MAX |>
    else job <| j_size := u64 (filesize job * nrfiles job) |>
  else if 0 <? j_size job then job <| filesize := j_size job / nrfiles job |>
  else job.

Definition job_config_validate (job : job_config_t) : bool :=
  rw_set job
  && negb ((j_size job =? 0) && negb ((0 <? runtime_sec job) && negb (time_based job =? 0)))
  && negb (streq (filename job) "" && streq (directory job) "")
  && negb (numjobs job <? 1)
  && negb (iodepth job <? 1)
  && negb ((rwmixread job <? 0) || (100 <? rwmixread job))
  && negb (bs job =? 0)
  && negb ((1 <? nrfiles job) && negb (streq (filename job) "")).

(** The loop of [main] over the jobs: [None] when one is rejected. *)
Fixpoint check_jobs (l : list job_config_t) : option (list job_config_t) :=
  match l with
  | [] => Some []
  | job :: l =>
      let job := job_config_normalize job in
      if job_config_validate job then l ← check_jobs l; Some (job :: l) else None
  end.

(** ** The engine of a job *)

Definition ring_select_of (v : Z) : aura_ring_select_t :=
  match v with 1 => AURA_SELECT_CPU_LOCAL | 2 => AURA_SELECT_ROUND_ROBIN | 3 => AURA_SELECT_THREAD_LOCAL
  | _ => AURA_SELECT_ADAPTIVE end.

Definition auto_ramp (job : job_config_t) : job_config_t :=
  if d_gt (target_p99 job) d_zero && (ramp_time_sec job =? 0) then job <| ramp_time_sec := 5 |> else job.

Definition engine_options (page_size : Z) (job : job_config_t) : aura_options_t :=
  let engine_depth := i32 (iodepth job * 2) in
  let engine_depth := if engine_depth <? 256 then 256 else engine_depth in
  let targeted := d_gt (target_p99 job) d_zero in
  let o := aura_options_init page_size in
  {| struct_size := struct_size o; o_queue_depth := engine_depth;
     o_ring_count := if numjobs job <=? 1 then 1 else 0;
     initial_in_flight := if targeted then 4 else engine_depth; o_min_in_flight := o_min_in_flight o;
     max_p99_latency_ms := if targeted then target_p99 job else max_p99_latency_ms o;
     o_buffer_alignment := o_buffer_alignment o; disable_adaptive := disable_adaptive o;
     o_enable_sqpoll := negb (sqpoll job =? 0); o_sqpoll_idle_ms := o_sqpoll_idle_ms o;
     o_ring_select := ring_select_of (j_ring_select job); o_single_thread := numjobs job <=? 1;
     batch_threshold := batch_threshold o; _reserved := _reserved o; o_padding := o_padding o |}.

(** With a latency target, one thread per ring. *)
Definition auto_scale (ring_count : Z) (job : job_config_t) : job_config_t :=
  if d_gt (target_p99 job) d_zero && (numjobs job =? 1) && (1 <? ring_count)
  then job <| numjobs := ring_count |> <| group_reporting := 1 |> else job.
