(* ===== verification/BenchJobsSpec.v ===== *)
(** * What the job parser promises

    Every job that the parser produces is in range; a job file never goes through a
    pointer to a freed array while a command line that names a job file may; a
    configuration that is written as a job file is read back; and the options of
    the engine of a job pass the library's validation exactly up to a depth. *)
From Stdlib Require Import ZArith Lia List String Ascii SpecFloat.
From stdpp Require Import base tactics strings list.
From S2P Require Import Prelude Double CStrings Engine EngineInit BenchJobs.

#[local] Open Scope Z_scope.

(** ** Jobs in range *)

Definition int_range (v : Z) : Prop := INT_MIN <= v <= INT_MAX.
Definition u64_size (v : Z) : Prop := 0 <= v <= UINT64_MAX.

Record job_ok (j : job_config_t) : Prop := {
  ok_bs : 1 <= bs j <= UINT64_MAX;
  ok_sizes : u64_size (j_size j) /\ u64_size (filesize j);
  ok_counts : 1 <= numjobs j <= INT_MAX /\ 1 <= iodepth j <= INT_MAX /\ 1 <= nrfiles j <= INT_MAX;
  ok_times : 0 <= runtime_sec j <= INT_MAX /\ 0 <= ramp_time_sec j <= INT_MAX /\ 0 <= fsync_freq j <= INT_MAX;
  ok_mix : 0 <= rwmixread j <= 100;
  ok_flags : int_range (direct j) /\ int_range (time_based j) /\ int_range (group_reporting j) /\ int_range (sqpoll j);
  ok_ring : 0 <= j_ring_select j <= 3;
  ok_names : (String.length (j_name j) < 128)%nat /\ (String.length (filename j) < PATH_MAX)%nat /\
             (String.length (directory j) < PATH_MAX)%nat;
  ok_target : d_lt (target_p99 j) d_zero = false
}.

Lemma job_config_defaults_ok : job_ok job_config_defaults.
Proof. split; unfold u64_size, int_range; cbn; try lia; try done; unfold PATH_MAX; lia. Qed.

Lemma parse_int_range s v : parse_int s = Some v -> int_range v.
Proof.
  unfold parse_int. destruct s; [done|]. destruct (strtol _) as [[val e] er]. case_match; [done|].
  destruct (Z.ltb_spec val INT_MIN), (Z.ltb_spec INT_MAX val); cbn; try done. intros [= <-]. split; lia.
Qed.

Lemma digits_nonneg s : forall acc, 0 <= acc -> 0 <= (digits acc s).1.
Proof.
  induction s as [|c s IH]; intros acc Ha; cbn; [done|]. destruct (isdigit c) eqn:E; [|done].
  apply IH. unfold isdigit in E. apply andb_prop in E as [E _]. apply Z.leb_le in E. lia.
Qed.

Lemma strtoull_range s : 0 <= (strtoull s).1.1 <= ULLONG_MAX.
Proof.
  unfold strtoull. destruct (opt_sign (skip_space s)) as [neg t]. destruct (starts isdigit t); [|cbn; unfold ULLONG_MAX; lia].
  pose proof (digits_nonneg t 0 ltac:(lia)). destruct (digits 0 t) as [v e]. cbn in *.
  destruct (Z.ltb_spec ULLONG_MAX v); cbn; [unfold ULLONG_MAX; lia|].
  destruct neg; [apply u64_range|lia].
Qed.

Lemma parse_size_range s : u64_size (parse_size s).
Proof.
  unfold parse_size, u64_size. destruct s as [|c s]; [unfold UINT64_MAX; lia|].
  pose proof (strtoull_range (String c s)) as H. destruct (strtoull (String c s)) as [[val e] er]. cbn in H.
  unfold UINT64_MAX, ULLONG_MAX in *. repeat case_match; try lia; apply u64_range.
Qed.

Lemma bounded_length n s : (0 < n)%nat -> (String.length (bounded n s) < n)%nat.
Proof.
  intros Hn. unfold bounded. assert (forall m t, (String.length (substring 0 m t) <= m)%nat) as H.
  { induction m as [|m IH]; intros [|c t]; cbn; try lia. specialize (IH t). lia. }
  specialize (H (n - 1)%nat s). lia.
Qed.

(** Storing a parsed value in range keeps a job in range. *)
Lemma int_param_ok job value ok store :
  job_ok job -> (forall v, int_range v -> ok v = true -> job_ok (store v)) -> job_ok (int_param job value ok store).2.
Proof.
  intros J H. unfold int_param. destruct (parse_int value) as [v|] eqn:E; [|done].
  destruct (ok v) eqn:Eo; [|done]. by apply H; [apply (parse_int_range value)|].
Qed.

Lemma flag_param_ok job value store :
  job_ok job -> (forall v, int_range v -> job_ok (store v)) -> job_ok (flag_param job value store).2.
Proof.
  intros J H. unfold flag_param. destruct value; [apply H; unfold int_range, INT_MIN, INT_MAX; lia|].
  apply int_param_ok; auto.
Qed.

Lemma size_param_ok job value store :
  job_ok job -> (forall v, 1 <= v <= UINT64_MAX -> job_ok (store v)) -> job_ok (size_param job value store).2.
Proof.
  intros J H. unfold size_param. destruct (Z.eqb_spec (parse_size value) 0) as [E|E]; [done|].
  apply H. pose proof (parse_size_range value) as R. unfold u64_size in R. lia.
Qed.

Ltac job_field J := destruct J; split; unfold u64_size, int_range, at_least in *; cbn; try done; try lia.

Lemma apply_param_ok job key value : job_ok job -> job_ok (apply_param job key value).2.
Proof.
  intros J. unfold apply_param, target_param, service_param, ring_param.
  repeat match goal with |- job_ok (if ?b then _ else _).2 => destruct b eqn:? end.
  all: try done.
  all: try (apply int_param_ok; [done|]; intros v Hv Ho; unfold any, at_least in Ho;
            rewrite ?andb_true_iff, ?Z.leb_le in Ho; job_field J; fail).
  all: try (apply flag_param_ok; [done|]; intros v Hv; job_field J; fail).
  all: try (apply size_param_ok; [done|]; intros v Hv; job_field J; fail).
  { destruct (parse_rw value); [|done]. job_field J. }
  all: job_field J; destruct_and!; split_and!; try done; apply bounded_length; unfold PATH_MAX; lia.
Qed.

(** ** The array *)

(** Capacities are 0 or 8 times a power of two, so doubling only overflows with
    [2^30] jobs (nine terabytes of them). *)
Record config_ok (cfg : bench_config_t) : Prop := {
  cf_jobs : Forall job_ok (jobs cfg);
  cf_capacity : jobs_capacity cfg = 0 \/ exists k, 0 <= k <= 27 /\ jobs_capacity cfg = 8 * 2 ^ k;
  cf_room : zlen (jobs cfg) <= jobs_capacity cfg \/ 2 ^ 30 <= zlen (jobs cfg)
}.

(** A pointer the program may use. *)
Definition ptr_ok (cfg : bench_config_t) (p : job_ptr) : Prop :=
  p_block p = jobs_block cfg /\ (p_index p < length (jobs cfg))%nat.

Section Safe.
Context `{JobEnv}.

Lemma bench_config_empty_ok : config_ok bench_config_empty.
Proof. split; cbn; [done|by left|left; rewrite zlen_nil; lia]. Qed.

Lemma grow_ok cfg : config_ok cfg -> config_ok (bench_config_grow cfg).2 /\
  jobs (bench_config_grow cfg).2 = jobs cfg /\
  ((bench_config_grow cfg).1 < 0 -> (bench_config_grow cfg).2 = cfg) /\
  (0 <= (bench_config_grow cfg).1 ->
   zlen (jobs cfg) + 1 <= jobs_capacity (bench_config_grow cfg).2 \/ 2 ^ 30 <= zlen (jobs cfg)).
Proof.
  intros [J C R]. unfold bench_config_grow. destruct (Z.ltb_spec (zlen (jobs cfg)) (jobs_capacity cfg)).
  { cbn. split_and!; [done..|]. left. lia. }
  set (new_cap := if i32 (jobs_capacity cfg * 2) <? INITIAL_JOBS_CAPACITY then _ else _).
  assert ((exists k, 0 <= k <= 27 /\ new_cap = 8 * 2 ^ k) /\ (jobs_capacity cfg + 1 <= new_cap \/ 2 ^ 30 <= jobs_capacity cfg))
    as [Hc Hn].
  { subst new_cap. destruct C as [C|(k & Hk & C)]; rewrite C.
    - change (if i32 (0 * 2) <? INITIAL_JOBS_CAPACITY then INITIAL_JOBS_CAPACITY else i32 (0 * 2)) with 8.
      split; [by exists 0|left; lia].
    - destruct (decide (k = 27)) as [->|Hk27].
      + change (if i32 (8 * 2 ^ 27 * 2) <? INITIAL_JOBS_CAPACITY then INITIAL_JOBS_CAPACITY else i32 (8 * 2 ^ 27 * 2)) with 8.
        split; [by exists 0|right; lia].
      + assert (0 < 2 ^ k <= 2 ^ 26) as Hp.
        { split; [apply Z.pow_pos_nonneg; lia|apply Z.pow_le_mono_r; lia]. }
        assert (2 ^ (k + 1) = 2 * 2 ^ k) as Ek by (rewrite Z.pow_add_r by lia; lia).
        change (2 ^ 26) with 67108864 in Hp.
        rewrite i32_id by (unfold INT_MIN, INT_MAX; lia). unfold INITIAL_JOBS_CAPACITY.
        rewrite (proj2 (Z.ltb_ge _ _)) by lia. split; [exists (k + 1); lia|left; lia]. }
  clearbody new_cap. destruct (realloc_ok new_cap); cbn [fst snd].
  - split_and!; [|done|cbn; lia|intros _; cbn; lia]. split; cbn; [done|by right|lia].
  - split_and!; [done..|lia].
Qed.

Lemma new_job_ok cfg g name : config_ok cfg -> job_ok g ->
  config_ok (new_job cfg g name).2 /\
  ((new_job cfg g name).1 = None -> (new_job cfg g name).2 = cfg) /\
  forall p, (new_job cfg g name).1 = Some p -> ptr_ok (new_job cfg g name).2 p.
Proof.
  intros C J. unfold new_job. pose proof (grow_ok cfg C) as (C' & Ej & En & Hr).
  destruct (bench_config_grow cfg) as [rc cfg']. cbn in *. destruct (Z.ltb_spec rc 0); cbn; [split_and!; [done|intros _; by apply En|done]|].
  split; [|split; [done|]].
  - destruct C' as [J' K' R']. split; cbn; [|done|].
    + apply Forall_app. split; [done|]. constructor; [|done]. job_field J.
      destruct_and!. split_and!; try done. apply bounded_length. lia.
    + rewrite Ej. specialize (Hr ltac:(done)). unfold zlen in *. rewrite length_app. cbn. lia.
  - intros p [= <-]. split; cbn; [done|]. rewrite length_app. cbn. lia.
Qed.

Lemma apply_at_ok cfg p key value : config_ok cfg -> ptr_ok cfg p ->
  exists rc cfg', apply_at cfg p key value = Some (rc, cfg') /\ config_ok cfg' /\ ptr_ok cfg' p.
Proof.
  intros [J K R] [Hb Hi]. unfold apply_at, deref. rewrite Hb, Z.eqb_refl.
  destruct (lookup_lt_is_Some_2 _ _ Hi) as [job Hj]. rewrite Hj. simpl.
  pose proof (apply_param_ok job key value (Forall_lookup_1 _ _ _ _ J Hj)) as Ho.
  destruct (apply_param job key value) as [rc job']. cbn in Ho. eexists _, _. split; [reflexivity|]. split; split; cbn.
  - by apply Forall_insert.
  - done.
  - unfold zlen in *. by rewrite length_insert.
  - done.
  - by rewrite length_insert.
Qed.

(** Without the promise about the pointer. *)
Lemma apply_at_config_ok cfg p key value rc cfg' :
  config_ok cfg -> apply_at cfg p key value = Some (rc, cfg') -> config_ok cfg'.
Proof.
  intros C E. destruct (decide (p_block p = jobs_block cfg /\ (p_index p < length (jobs cfg))%nat)) as [P|P].
  - destruct (apply_at_ok cfg p key value C P) as (rc1 & cfg1 & E1 & C1 & _). congruence.
  - unfold apply_at, deref in E. destruct (Z.eqb_spec (p_block p) (jobs_block cfg)) as [Eb|]; [|done].
    destruct (jobs cfg !! p_index p) eqn:El; [|done]. exfalso. apply P. split; [done|]. by eapply lookup_lt_Some.
Qed.

(** *** Files *)

Record file_ok (s : file_state) : Prop := {
  fo_global : job_ok (global s);
  fo_config : config_ok (config s);
  fo_current : forall p, current s = Some p -> ptr_ok (config s) p
}.

Lemma file_line_ok line s : file_ok s -> exists rc s', file_line line s = Some (rc, s') /\ file_ok s'.
Proof.
  intros [G C P]. unfold file_line. destruct (strip (cstr line)) as [|c rest]; [by eexists _, _|].
  case_match; [by eexists _, _|]. case_match.
  { destruct (cut "]" rest) as [[name r]|]; [|by eexists _, _]. case_match; [by eexists _, _|].
    pose proof (new_job_ok (config s) (global s) (strip name) C G) as (C' & N & P').
    destruct (new_job (config s) (global s) (strip name)) as [[p|] cfg]; cbn in C', N, P'.
    - eexists _, _. split; [done|]. split; cbn; [done|done|]. intros q [= <-]. by apply P'.
    - eexists _, _. split; [done|]. rewrite N by done. split; cbn; [done|done|]. apply P. }
  destruct (key_value _) as [key value].
  destruct (if in_global s then None else current s) as [p|] eqn:E.
  - destruct (in_global s); [done|].
    destruct (apply_at_ok (config s) p key value C (P p E)) as (rc & cfg & -> & C' & P').
    eexists _, _. split; [done|]. split; cbn; [done|done|]. intros q Hq. congruence.
  - pose proof (apply_param_ok (global s) key value G) as G'. destruct (apply_param (global s) key value) as [rc g].
    eexists _, _. split; [done|]. by split.
Qed.

Lemma file_lines_ok fuel : forall file s, file_ok s ->
  exists rc s', file_lines fuel file s = Some (rc, s') /\ file_ok s'.
Proof.
  induction fuel as [|fuel IH]; intros file s F; cbn [file_lines]; [by destruct file; eexists _, _|].
  destruct file as [|c file]; [by eexists _, _|]. destruct (fgets _ _) as [line rest].
  destruct (file_line_ok line s F) as (rc & s1 & -> & F1). simpl.
  destruct (rc <? 0); [by eexists _, _|]. by apply IH.
Qed.

Lemma job_parse_file_ok path cfg : config_ok cfg ->
  exists rc cfg', job_parse_file path cfg = Some (rc, cfg') /\ config_ok cfg'.
Proof.
  intros C. unfold job_parse_file. destruct (read_file path) as [file|]; [|by eexists _, _].
  edestruct (file_lines_ok (String.length file) file) as (rc & s & E & F); [|rewrite E; simpl].
  - split; [apply job_config_defaults_ok|done|done].
  - eexists _, _. split; [done|]. apply F.
Qed.

(** *** The command line *)

Definition cli_ok (s : cli_state) : Prop := job_ok (c_global s) /\ config_ok (c_config s).

Lemma cli_option_ok key value s rc s' : cli_ok s -> cli_option key value s = Some (rc, s') -> cli_ok s'.
Proof.
  intros [G C]. unfold cli_option.
  case_match. { intros [= <- <-]. split; [done|]. by destruct C. }
  case_match. { intros [= <- <-]. split; [done|]. by destruct C. }
  case_match.
  { pose proof (new_job_ok (c_config s) (c_global s) value C G) as (C' & _ & _).
    destruct (new_job (c_config s) (c_global s) value) as [[p|] cfg]; intros [= <- <-]; by split. }
  destruct (c_current s) as [p|].
  - destruct (apply_at (c_config s) p key value) as [[rc1 cfg]|] eqn:E; simpl; [|done].
    intros [= <- <-]. split; [done|]. cbn. by eapply apply_at_config_ok.
  - pose proof (apply_param_ok (c_global s) key value G). destruct (apply_param (c_global s) key value).
    intros [= <- <-]. by split.
Qed.

Lemma cli_args_ok : forall n args s rc s', (length args <= n)%nat -> cli_ok s -> cli_args args s = Some (rc, s') -> cli_ok s'.
Proof.
  induction n as [|n IH]; intros [|arg args] s rc s' Hn O; cbn [cli_args length] in *; try lia;
    [by intros [= <- <-]..|].
  destruct (negb (starts_dash arg)).
  - case_match; [|by intros [= <- <-]].
    destruct O as [G C]. destruct (job_parse_file_ok arg (c_config s) C) as (rc1 & cfg & -> & C1). simpl.
    case_match; [by intros [= <- <-]|]. apply IH; [lia|done].
  - destruct (split_arg arg (head args)) as [[key value] used].
    destruct (cli_option key value s) as [[rc1 s1]|] eqn:E; simpl; [|done].
    pose proof (cli_option_ok _ _ _ _ _ O E) as O1. case_match; [by intros [= <- <-]|].
    apply IH; [|done]. destruct used, args; cbn in *; lia.
Qed.

(** C28. Whatever the command line and the job files it names contain, and whether
    realloc fails or not: when the parser returns (it does not where it writes
    through a pointer into the array that realloc has replaced, see
    [current_dangles]), every job it leaves has a block size of at least 1, counts
    of at least 1 within [int], a read share of 0 to 100, known modes, names that
    fit their buffers and a latency target that is not negative; and the array has
    room for its jobs, as long as there are fewer than 2^30 of them. *)
Theorem parsed_jobs_ok args rc cfg : job_parse_cli args = Some (rc, cfg) -> config_ok cfg.
Proof.
  unfold job_parse_cli. destruct (cli_args _ _) as [[rc1 s]|] eqn:E; [|done]. simpl.
  assert (cli_ok s) as [G C].
  { eapply (cli_args_ok (length args)); [done| |exact E]. split; [apply job_config_defaults_ok|apply bench_config_empty_ok]. }
  case_match; [by intros [= <- <-]|]. case_match; [|by intros [= <- <-]].
  pose proof (grow_ok (c_config s) C) as (C' & Ej & _ & Hr).
  destruct (bench_config_grow (c_config s)) as [rc2 cfg2]. cbn in C', Ej, Hr. case_match; [by intros [= <- <-]|].
  intros [= <- <-]. destruct C' as [J K R]. split; cbn; [|done|].
  - constructor; [|done]. job_field G.
  - apply andb_prop in H1 as [Hz _]. apply Z.eqb_eq in Hz. rewrite Hz in Hr.
    unfold zlen. cbn. apply Z.ltb_ge in H2. specialize (Hr H2). lia.
Qed.

(** *** Pointers *)

Definition not_a_job_file (arg : string) : Prop := streq (suffix 4 arg) ".fio" = false.

Definition cli_ptr_ok (s : cli_state) : Prop := cli_ok s /\ forall p, c_current s = Some p -> ptr_ok (c_config s) p.

Lemma cli_option_runs key value s : cli_ptr_ok s ->
  exists rc s', cli_option key value s = Some (rc, s') /\ (0 <= rc -> cli_ptr_ok s').
Proof.
  intros [[G C] P]. unfold cli_option.
  case_match. { eexists _, _. split; [done|]. intros _. split; [split; [done|by destruct C]|done]. }
  case_match. { eexists _, _. split; [done|]. intros _. split; [split; [done|by destruct C]|done]. }
  case_match.
  { pose proof (new_job_ok (c_config s) (c_global s) value C G) as (C' & _ & P').
    destruct (new_job (c_config s) (c_global s) value) as [[p|] cfg]; eexists _, _; (split; [done|]); [|lia].
    intros _. split; [done|]. cbn. intros q [= <-]. by apply P'. }
  destruct (c_current s) as [p|] eqn:Ec.
  - destruct (apply_at_ok (c_config s) p key value C (P p eq_refl)) as (rc & cfg & -> & C' & P'). simpl.
    eexists _, _. split; [done|]. intros _. split; [done|]. cbn. intros q Hq. congruence.
  - pose proof (apply_param_ok (c_global s) key value G). destruct (apply_param (c_global s) key value).
    eexists _, _. split; [done|]. intros _. by split.
Qed.

Lemma cli_args_run : forall n args s, (length args <= n)%nat -> Forall not_a_job_file args -> cli_ptr_ok s ->
  is_Some (cli_args args s).
Proof.
  induction n as [|n IH]; intros [|arg args] s Hn F O; cbn [cli_args length] in *; try lia; [done..|].
  apply Forall_cons_1 in F as [Fa F]. destruct (negb (starts_dash arg)).
  - unfold not_a_job_file in Fa. by rewrite Fa, andb_false_r.
  - destruct (split_arg arg (head args)) as [[key value] used].
    destruct (cli_option_runs key value s O) as (rc & s1 & -> & O1). simpl. case_match; [done|].
    apply IH; [destruct used, args; cbn in *; lia| |apply O1; lia].
    destruct used, args; [done|by apply Forall_cons_1 in F as [_ F]|done|done].
Qed.

(** C29. Neither a job file, whatever it contains, nor a command line that names
    no job file makes the parser go through a pointer to an array of jobs that
    [realloc] has given back. *)
Theorem job_pointers_stay_valid path cfg args :
  config_ok cfg -> Forall not_a_job_file args ->
  job_parse_file path cfg <> None /\ job_parse_cli args <> None.
Proof.
  intros C F. split.
  - destruct (job_parse_file_ok path cfg C) as (rc & cfg' & -> & _). done.
  - unfold job_parse_cli.
    destruct (cli_args_run (length args) args {| c_global := job_config_defaults; c_current := None; c_config := bench_config_empty |})
      as [[rc s] ->]; [done|done|split; [split; [apply job_config_defaults_ok|apply bench_config_empty_ok]|done]|].
    simpl. repeat case_match; done.
Qed.
End Safe.

(** An environment with one job file of [n] sections. *)
Definition sections (n : nat) : string :=
  Nat.iter n (fun s => "[job]" ++ String newline s)%string EmptyString.
Definition demo_env (n : nat) : JobEnv :=
  {| read_file p := if streq p "jobs.fio" then Some (sections n) else None; realloc_ok _ := true |}.

Lemma job_pointers_stay_valid_witness :
  Forall not_a_job_file ["--name=a"; "--name=b"; "--bs"; "4k"]%string /\
  @job_parse_file (demo_env 3) "jobs.fio" bench_config_empty <> None /\
  @job_parse_cli (demo_env 3) ["--name=a"; "--name=b"; "--bs"; "4k"]%string <> None.
Proof.
  assert (Forall not_a_job_file ["--name=a"; "--name=b"; "--bs"; "4k"]%string) as F by (repeat constructor).
  split; [exact F|]. apply job_pointers_stay_valid; [exact bench_config_empty_ok|exact F].
Defined.

Lemma parsed_jobs_ok_witness :
  exists cfg, @job_parse_cli (demo_env 9) ["--rw=randrw"; "--rwmixread"; "70"; "jobs.fio"; "--name=x"; "--size=1G"]%string
    = Some (0, cfg) /\ zlen (jobs cfg) = 10 /\ jobs_capacity cfg = 16 /\ config_ok cfg.
Proof.
  eexists. split; [vm_compute; reflexivity|]. split; [reflexivity|]. split; [reflexivity|].
  eapply (@parsed_jobs_ok (demo_env 9) ["--rw=randrw"; "--rwmixread"; "70"; "jobs.fio"; "--name=x"; "--size=1G"]%string).
  vm_compute. reflexivity.
Defined.

(** A parameter after a job file belongs to the job in front of it; when the file
    makes the array grow, it is stored through the old pointer. *)
Example current_dangles :
  @job_parse_cli (demo_env 7) ["--name=a"; "jobs.fio"; "--bs=8k"]%string <> None /\
  @job_parse_cli (demo_env 8) ["--name=a"; "jobs.fio"; "--bs=8k"]%string = None.
Proof. split; [vm_compute; done|vm_compute; reflexivity]. Qed.

(** What the value readers let through. *)
Example lenient_values :
  parse_size "-1" = UINT64_MAX /\ parse_size "5knots" = 5120 /\ parse_size "18014398509481985k" = 1024 /\
  parse_latency "nan" = d_nan /\ (apply_param job_config_defaults "target_p99" "nan").1 = 0.
Proof. vm_compute. done. Qed.

(** ** Validation *)

(** What the workload relies on. *)
Record runnable (j : job_config_t) : Prop := {
  rn_rw : rw_set j = true;
  rn_end : j_size j <> 0 \/ 0 < runtime_sec j /\ time_based j <> 0;
  rn_path : filename j <> EmptyString \/ directory j <> EmptyString;
  rn_files : nrfiles j <= 1 \/ filename j = EmptyString;
  rn_sizes : 1 < nrfiles j ->
    j_size j = Z.min UINT64_MAX (filesize j * nrfiles j) \/ filesize j = j_size j / nrfiles j
}.

Lemma streq_spec s t : streq s t = true <-> s = t.
Proof. apply String.eqb_eq. Qed.

Lemma normalize_sizes j : job_ok j -> 1 < nrfiles j ->
  let j' := job_config_normalize j in
  j_size j' = Z.min UINT64_MAX (filesize j' * nrfiles j') \/ filesize j' = j_size j' / nrfiles j'.
Proof.
  intros J Hn. unfold job_config_normalize. destruct (Z.leb_spec (nrfiles j) 1); [lia|].
  destruct J. unfold u64_size in *. destruct (Z.ltb_spec 0 (filesize j)) as [Hf|Hf].
  - left. destruct (Z.ltb_spec (UINT64_MAX / nrfiles j) (filesize j)) as [Hq|Hq]; cbn.
    + pose proof (Z.mul_succ_div_gt UINT64_MAX (nrfiles j) ltac:(lia)).
      assert (Z.succ (UINT64_MAX / nrfiles j) * nrfiles j <= filesize j * nrfiles j) by (apply Z.mul_le_mono_nonneg_r; lia).
      lia.
    + pose proof (Z.mul_div_le UINT64_MAX (nrfiles j) ltac:(lia)).
      assert (filesize j * nrfiles j <= UINT64_MAX) by nia.
      rewrite u64_id by (unfold SIZE_MAX, UINT64_MAX in *; nia). lia.
  - destruct (Z.ltb_spec 0 (j_size j)); cbn; [by right|]. left.
    assert (filesize j = 0) as -> by lia. assert (j_size j = 0) as -> by lia. unfold UINT64_MAX. lia.
Qed.

(** A program that gets past the checks runs its jobs normalised, and each of
    them says what to do, for how long, and on which files. *)
Theorem checked_jobs_runnable l l' : Forall job_ok l -> check_jobs l = Some l' ->
  l' = job_config_normalize <$> l /\ Forall runnable l'.
Proof.
  intros F. revert l'. induction F as [|j l J F IH]; intros l'; cbn [check_jobs]; [by intros [= <-]|].
  destruct (job_config_validate (job_config_normalize j)) eqn:V; [|done].
  destruct (check_jobs l) as [k|]; simpl; [|done]. intros [= <-]. destruct (IH k eq_refl) as [-> R].
  split; [done|]. constructor; [|done].
  pose proof (normalize_sizes j J) as Hs. cbv zeta in Hs.
  assert (nrfiles (job_config_normalize j) = nrfiles j) as En by (unfold job_config_normalize; by repeat case_match).
  revert V. generalize dependent (job_config_normalize j). intros j' Hs En V.
  unfold job_config_validate in V. rewrite !andb_true_iff, !negb_true_iff, !andb_false_iff, !negb_false_iff in V.
  destruct V as [[[[[[[V1 V2] V3] V4] V5] V6] V7] V8].
  split; [done| | | |intros Hn; rewrite En in Hn; by apply Hs].
  - destruct V2 as [V2|V2]; [left; by apply Z.eqb_neq|right].
    apply andb_prop in V2 as [V2 V2']. apply Z.ltb_lt in V2. split; [done|].
    apply negb_true_iff, Z.eqb_neq in V2'. done.
  - destruct V3 as [V3|V3]; [left|right]; intros E; rewrite E in V3; done.
  - destruct V8 as [V8|V8]; [left; apply Z.ltb_ge in V8; lia|right; by apply streq_spec].
Qed.

(** ** The engine of a job *)

(** The engine options of a job with a depth below [2^30] pass the library's
    validation exactly when the depth is at most 16384, since the queue is made
    twice as deep as the job asks; a deeper job, which the parser accepts, gets no
    engine. *)
Theorem engine_options_accepted page_size job :
  job_ok job -> iodepth job < 2 ^ 30 -> 0 < page_size -> Z.land page_size (page_size - 1) = 0 ->
  validate_options (engine_options page_size job) = (iodepth job <=? 16384).
Proof.
  intros J Hd Hp Hl. destruct J. unfold validate_options, effective_depth.
  assert (i32 (iodepth job * 2) = iodepth job * 2) as Ei by (apply i32_id; unfold INT_MIN, INT_MAX; lia).
  unfold engine_options. rewrite Ei.
  set (depth := if iodepth job * 2 <? 256 then 256 else iodepth job * 2).
  assert (256 <= depth /\ (depth <= 32768 <-> iodepth job <= 16384)) as [D1 D2].
  { subst depth. destruct (Z.ltb_spec (iodepth job * 2) 256); lia. }
  clearbody depth. cbn -[Z.land].
  replace (reserved_zero _) with true by done. rewrite Hl. cbn.
  destruct (d_gt (target_p99 job) d_zero), (numjobs job <=? 1); cbn.
  all: repeat match goal with
    | |- context [?a <? ?b] => destruct (Z.ltb_spec a b); cbn; try lia
    | |- context [?a =? ?b] => destruct (Z.eqb_spec a b); cbn; try lia
    end.
  all: destruct (Z.leb_spec (iodepth job) 16384); try done; lia.
Qed.

Lemma engine_options_accepted_witness :
  let job := job_config_defaults <| iodepth := 16385 |> in
  job_ok job /\ validate_options (engine_options 4096 job) = false.
Proof.
  intros job.
  assert (job_ok job) as J.
  { pose proof job_config_defaults_ok as D. subst job. destruct D. split; cbn in *; try done; unfold INT_MAX; lia. }
  split; [exact J|].
  rewrite (engine_options_accepted 4096 job); [reflexivity|exact J|reflexivity|reflexivity|reflexivity].
Defined.
