(* ===== verification/BenchRoundtrip.v ===== *)
(** * BFFIO: writing a job file and reading it back

    How the lines of a job file reach [apply_param], for any sections; and a way to
    write every configuration whose names are printable as a file that is read back
    as that configuration. *)
From Stdlib Require Import ZArith Lia List String Ascii SpecFloat.
From stdpp Require Import base tactics strings list.
From S2P Require Import Prelude Double CStrings Engine EngineInit BenchJobs BenchJobsSpec.

#[local] Open Scope Z_scope.
#[local] Open Scope string_scope.
#[local] Arguments String.append : simpl nomatch.

(** ** Text *)

Fixpoint no_char (d : ascii) (s : string) : bool :=
  match s with EmptyString => true | String c s => negb (c =? d)%char && no_char d s end.

(** One line of a file. *)
Definition line_text (s : string) : bool := no_char newline s && no_char nul s.
Definition trimmed (s : string) : bool := streq (skip_space s) s && streq (rstrip s) s.

Definition key_ok (k : string) : bool :=
  negb (streq k "") && trimmed k && line_text k && no_char "=" k
  && negb (starts (fun c => (c =? "#")%char || (c =? ";")%char || (c =? "[")%char) k).
Definition value_ok (v : string) : bool := trimmed v && line_text v.
Definition name_ok (n : string) : bool :=
  trimmed n && line_text n && no_char "]" n && negb (strncase_eq n "global" 7) && (String.length n <? 128)%nat.

Lemma no_char_app d s t : no_char d (s ++ t) = no_char d s && no_char d t.
Proof. induction s as [|c s IH]; cbn; [done|]. by rewrite IH, andb_assoc. Qed.

Lemma line_text_app s t : line_text (s ++ t) = line_text s && line_text t.
Proof. unfold line_text. rewrite !no_char_app. destruct (no_char newline s), (no_char newline t), (no_char nul s); done. Qed.

Lemma cut_none d s : no_char d s = true -> cut d s = None.
Proof. induction s as [|c s IH]; cbn; [done|]. destruct (c =? d)%char; [done|]. cbn. intros H. by rewrite IH. Qed.

Lemma cut_app d s t : no_char d s = true -> cut d (s ++ String d t) = Some (s, t).
Proof.
  induction s as [|c s IH]; cbn; [by rewrite Ascii.eqb_refl|]. destruct (c =? d)%char; [done|]. cbn. intros H. by rewrite IH.
Qed.

Lemma cstr_id s : no_char nul s = true -> cstr s = s.
Proof. intros H. unfold cstr. by rewrite cut_none. Qed.

Lemma rstrip_app s t : rstrip t = t -> t <> "" -> rstrip (s ++ t) = s ++ t.
Proof.
  intros H Ht. induction s as [|c s IH]; cbn; [done|]. rewrite IH. destruct s; cbn; [|done]. by destruct t.
Qed.

Lemma rstrip_space s c : isspace c = true -> rstrip (s ++ String c "") = rstrip s.
Proof. intros Hc. induction s as [|d s IH]; cbn; [by rewrite Hc|]. by rewrite IH. Qed.

Lemma skip_space_id s : starts isspace s = false -> skip_space s = s.
Proof. destruct s as [|c s]; cbn; [done|]. by intros ->. Qed.

Lemma skip_space_starts s : skip_space s = s -> starts isspace s = false.
Proof.
  destruct s as [|c s]; cbn; [done|]. destruct (isspace c); [|done]. intros E. exfalso.
  assert (forall t, (String.length (skip_space t) <= String.length t)%nat) as H.
  { induction t as [|d t IH]; cbn; [done|]. case_match; cbn; lia. }
  specialize (H s). rewrite E in H. cbn in H. lia.
Qed.

(** The newline is white space. *)
Lemma strip_line s : starts isspace s = false -> s <> "" -> rstrip s = s -> strip (s ++ String newline "") = s.
Proof.
  intros Hs Hn Hr. unfold strip. rewrite skip_space_id by by destruct s. rewrite rstrip_space by done. done.
Qed.

Lemma substring_all s : forall n, (String.length s <= n)%nat -> substring 0 n s = s.
Proof. induction s as [|c s IH]; intros [|n]; cbn; try done; [lia|]. intros H. rewrite IH by lia. done. Qed.

Lemma bounded_id n s : (String.length s < n)%nat -> bounded n s = s.
Proof. intros H. apply substring_all. lia. Qed.

(** ** Lines *)

Fixpoint unlines (ls : list string) : string :=
  match ls with [] => "" | l :: ls => l ++ String newline (unlines ls) end.

Lemma fgets_line : forall n line rest, no_char newline line = true -> (String.length line < n)%nat ->
  fgets n (line ++ String newline rest) = (line ++ String newline "", rest).
Proof.
  induction n as [|n IH]; intros line rest Hl Hn; [lia|]. destruct line as [|c line]; cbn [append fgets].
  - by rewrite Ascii.eqb_refl.
  - cbn [no_char String.length] in Hl, Hn. destruct (c =? newline)%char; [done|]. cbn [negb andb] in Hl. rewrite IH by (done || lia). done.
Qed.

Section Files.
Context `{JobEnv}.

Fixpoint run_lines (ls : list string) (s : file_state) : option (Z * file_state) :=
  match ls with
  | [] => Some (0, s)
  | l :: ls => '(rc, s) ← file_line (l ++ String newline "") s;
               if (rc <? 0)%Z then Some (-1, s) else run_lines ls s
  end.

Definition line_fits (l : string) : Prop := line_text l = true /\ (String.length l < LINE_MAX_LEN - 1)%nat.

Lemma file_lines_unlines ls : Forall line_fits ls -> forall fuel s, (String.length (unlines ls) <= fuel)%nat ->
  file_lines fuel (unlines ls) s = run_lines ls s.
Proof.
  induction 1 as [|l ls [Hl Hn] _ IH]; intros fuel s Hf; cbn [unlines run_lines]; [by destruct fuel|].
  cbn [unlines] in Hf. rewrite length_append in Hf. cbn in Hf.
  destruct fuel as [|fuel]; [lia|]. cbn [file_lines].
  assert (exists c r, l ++ String newline (unlines ls) = String c r) as (c & r & E) by (destruct l; by eexists _, _).
  rewrite E, <- E. unfold line_text in Hl. apply andb_prop in Hl as [Hl _].
  rewrite (fgets_line (LINE_MAX_LEN - 1)) by done.
  destruct (file_line (l ++ String newline "") s) as [[rc s']|]; simpl; [|done].
  destruct (rc <? 0)%Z; [done|]. apply IH. lia.
Qed.

Lemma run_lines_app ls ks s s' :
  run_lines ls s = Some (0, s') -> run_lines (ls ++ ks) s = run_lines ks s'.
Proof.
  revert s. induction ls as [|l ls IH]; intros s; cbn [run_lines app]; [by intros [= ->]|].
  destruct (file_line _ s) as [[rc s1]|]; simpl; [|done]. destruct (rc <? 0)%Z; [done|]. apply IH.
Qed.

(** ** Sections *)

(** The file is at job [j], which comes after [l]. *)
Definition at_job (s : file_state) (l : list job_config_t) (j : job_config_t) : Prop :=
  in_global s = false /\ jobs (config s) = (l ++ [j])%list /\ global s = job_config_defaults /\
  current s = Some {| p_block := jobs_block (config s); p_index := length l |}.

Definition param : Type := (string * string)%type.
Definition param_line (kv : param) : string := kv.1 ++ "=" ++ kv.2.
Definition param_ok (kv : param) : Prop :=
  key_ok kv.1 = true /\ value_ok kv.2 = true /\ (String.length (param_line kv) < LINE_MAX_LEN - 1)%nat.

(** Parameters one after the other, none of them refused. *)
Fixpoint apply_params (j : job_config_t) (kvs : list param) : option job_config_t :=
  match kvs with
  | [] => Some j
  | (k, v) :: kvs => let '(rc, j) := apply_param j k v in if (rc <? 0)%Z then None else apply_params j kvs
  end.

Lemma line_key k v : key_ok k = true -> value_ok v = true ->
  strip (cstr (param_line (k, v) ++ String newline "")) = param_line (k, v) /\
  key_value (param_line (k, v)) = (k, v) /\
  exists c r, param_line (k, v) = String c r /\ (c =? "#")%char = false /\ (c =? ";")%char = false /\ (c =? "[")%char = false.
Proof.
  unfold key_ok, value_ok, trimmed, line_text, param_line. cbn [fst snd].
  rewrite !andb_true_iff, !negb_true_iff, !streq_spec.
  intros ((((Hk0 & Hks & Hkr) & Hkn & Hkz) & Hke) & Hkc) ((Hvs & Hvr) & Hvn & Hvz).
  assert (rstrip ("=" ++ v) = "=" ++ v) as Ev by (cbn; rewrite Hvr; by destruct v).
  pose proof (skip_space_starts k Hks) as Hst.
  assert (key_value (k ++ "=" ++ v) = (k, v)) as Ekv.
  { unfold key_value. change ("=" ++ v) with (String "=" v). rewrite cut_app by done.
    unfold strip. by rewrite Hks, Hkr, Hvs, Hvr. }
  destruct k as [|c k]; [done|]. cbn in Hst, Hkc.
  apply orb_false_iff in Hkc as [Hkc Hc3]. apply orb_false_iff in Hkc as [Hc1 Hc2].
  split_and!.
  - rewrite cstr_id.
    + apply strip_line; [done|done|]. by apply rstrip_app.
    + rewrite !no_char_app, Hkz, Hvz. done.
  - exact Ekv.
  - by eexists c, _.
Qed.

Lemma file_line_param s l j kv rc j' :
  at_job s l j -> param_ok kv -> apply_param j kv.1 kv.2 = (rc, j') ->
  exists s', file_line (param_line kv ++ String newline "") s = Some (rc, s') /\ at_job s' l j'.
Proof.
  destruct kv as [k v]. intros (Hg & Hj & Hd & Hc) (Hk & Hv & _) Ha. cbn [fst snd] in *.
  destruct (line_key k v Hk Hv) as (Es & Ekv & c & r & El & Hc1 & Hc2 & Hc3).
  unfold file_line. rewrite Es, El, Hc1, Hc2, Hc3. cbn [orb]. rewrite <- El, Ekv, Hg, Hc.
  unfold apply_at, deref. cbn [p_block p_index]. rewrite Z.eqb_refl, Hj.
  rewrite lookup_app_r, Nat.sub_diag by lia. simpl. rewrite Ha. simpl.
  eexists. split; [done|]. unfold at_job. cbn. split_and!; try done.
  rewrite insert_app_r_alt, Nat.sub_diag by lia. done.
Qed.

Lemma run_params kvs : forall s l j j',
  at_job s l j -> Forall param_ok kvs -> apply_params j kvs = Some j' ->
  exists s', run_lines (param_line <$> kvs) s = Some (0%Z, s') /\ at_job s' l j'.
Proof.
  induction kvs as [|[k v] kvs IH]; intros s l j j' Hs F; cbn [apply_params].
  { intros [= <-]. by exists s. }
  apply Forall_cons_1 in F as [Hp F]. destruct (apply_param j k v) as [rc j1] eqn:Ea.
  destruct (rc <? 0)%Z eqn:Er; [done|]. intros E.
  destruct (file_line_param s l j (k, v) rc j1 Hs Hp Ea) as (s1 & E1 & H1).
  destruct (IH s1 l j1 j' H1 F E) as (s2 & E2 & H2). exists s2. split; [|done].
  cbn [fmap list_fmap run_lines]. rewrite E1. simpl. by rewrite Er.
Qed.

Definition section_line (name : string) : string := "[" ++ name ++ "]".

Lemma section_key name : name_ok name = true ->
  strip (cstr (section_line name ++ String newline "")) = section_line name /\
  cut "]" (name ++ "]") = Some (name, "") /\ strip name = name /\ strncase_eq name "global" 7 = false /\
  (String.length name < 128)%nat.
Proof.
  unfold name_ok, trimmed, line_text, section_line.
  rewrite !andb_true_iff, !negb_true_iff, !streq_spec, Nat.ltb_lt.
  intros (((((Hs & Hr) & Hn & Hz) & Hb) & Hg) & Hl). split_and!; [| |by unfold strip; rewrite Hs|done|done].
  - rewrite cstr_id.
    + apply strip_line; [done|done|]. apply (rstrip_app ("[" ++ name) "]"); done.
    + rewrite !no_char_app, Hz. done.
  - by apply cut_app.
Qed.

Hypothesis memory : forall n, realloc_ok n = true.

Lemma file_line_section s l name :
  name_ok name = true -> jobs (config s) = l -> global s = job_config_defaults ->
  exists s', file_line (section_line name ++ String newline "") s = Some (0%Z, s') /\
    at_job s' l (job_config_defaults <| j_name := name |>).
Proof.
  intros Hn Hl Hd. destruct (section_key name Hn) as (Es & Ec & Ep & Eg & El).
  unfold file_line. rewrite Es. unfold section_line. cbn [append].
  replace ((("[" =? "#") || ("[" =? ";"))%char) with false by done. rewrite Ascii.eqb_refl.
  change (String.append EmptyString (name ++ "]")) with (name ++ "]"). rewrite Ec, Ep, Eg.
  unfold new_job, bench_config_grow.
  destruct (_ <? _)%Z; [|rewrite memory]; cbn [Z.ltb Z.compare fst snd]; (eexists; split; [done|]);
    unfold at_job; cbn; rewrite Hl, Hd, bounded_id by done; done.
Qed.

(** A file of sections, none of them [[global]]. *)
Definition section : Type := (string * list param)%type.
Definition section_lines (sec : section) : list string := section_line sec.1 :: (param_line <$> sec.2).
Definition render (secs : list section) : string := unlines (secs ≫= section_lines).

Definition section_ok (sec : section) : Prop := name_ok sec.1 = true /\ Forall param_ok sec.2.
Definition section_job (sec : section) : option job_config_t :=
  apply_params (job_config_defaults <| j_name := sec.1 |>) sec.2.

Lemma run_sections secs js : Forall section_ok secs -> Forall2 (fun sec j => section_job sec = Some j) secs js ->
  forall s, global s = job_config_defaults ->
  exists s', run_lines (secs ≫= section_lines) s = Some (0%Z, s') /\ jobs (config s') = (jobs (config s) ++ js)%list.
Proof.
  intros F F2. induction F2 as [|[name kvs] j secs js E F2 IH]; intros s Hd.
  { exists s. cbn. by rewrite app_nil_r. }
  apply Forall_cons_1 in F as [[Hn Hp] F]. cbn [fst snd] in *. unfold section_job in E. cbn [fst snd] in E.
  destruct (file_line_section s (jobs (config s)) name Hn eq_refl Hd) as (s1 & E1 & H1).
  destruct (run_params kvs s1 _ _ _ H1 Hp E) as (s2 & E2 & H2).
  destruct H2 as (_ & Hj & Hg & _).
  destruct (IH F s2 Hg) as (s3 & E3 & H3). exists s3. split.
  - change (((name, kvs) :: secs) ≫= section_lines)
      with (section_line name :: (param_line <$> kvs) ++ (secs ≫= section_lines))%list.
    cbn [run_lines]. rewrite E1. simpl.
    by rewrite (run_lines_app _ _ _ _ E2).
  - rewrite H3, Hj, <- app_assoc. done.
Qed.

Lemma section_fits sec : section_ok sec -> Forall line_fits (section_lines sec).
Proof.
  destruct sec as [name kvs]. intros [Hn Hp]. cbn [fst snd] in *. constructor.
  - unfold name_ok in Hn. rewrite !andb_true_iff, Nat.ltb_lt in Hn. destruct Hn as ((((_ & Ht) & _) & _) & Hl).
    split; cbn [fst]; [|unfold section_line; rewrite !length_append; cbn; lia].
    unfold section_line. rewrite !line_text_app, Ht. done.
  - apply Forall_fmap. eapply Forall_impl; [exact Hp|]. intros [k v] (Hk & Hv & Hl). cbn [fst snd] in *. split; [|done].
    revert Hk Hv. unfold param_line, key_ok, value_ok. rewrite !andb_true_iff, !line_text_app.
    intros (((_ & Hk) & _) & _) [_ Hv]. cbn [fst snd]. by rewrite Hk, Hv.
Qed.

(** A job file is read as written: a file of sections whose names and
    parameters are printable text, each line short enough for the line buffer,
    gives one job per section, in order, which is the default job with that name
    and the parameters of the section applied one after the other. *)
Theorem read_sections path secs js :
  read_file path = Some (render secs) -> Forall section_ok secs ->
  Forall2 (fun sec j => section_job sec = Some j) secs js ->
  exists cfg, job_parse_file path bench_config_empty = Some (0%Z, cfg) /\ jobs cfg = js.
Proof.
  intros Er F F2. unfold job_parse_file, render in *. rewrite Er.
  rewrite file_lines_unlines; [|apply Forall_bind; eapply Forall_impl; [exact F|apply section_fits]|done].
  destruct (run_sections secs js F F2 {| global := job_config_defaults; current := None; in_global := false;
    config := bench_config_empty |} eq_refl) as (s & E & Hs).
  rewrite E. simpl. by exists (config s).
Qed.
End Files.

(** ** Printing a job *)

Fixpoint all_digits (s : string) : bool :=
  match s with EmptyString => true | String c s => isdigit c && all_digits s end.

Lemma digit_plain c : isdigit c = true -> isspace c = false /\ (c =? newline)%char = false /\ (c =? nul)%char = false.
Proof.
  intros H. split_and!.
  - assert (starts isdigit (String c "") = true) as Hs by done. destruct (starts_digit _ Hs) as [E _].
    cbn in E. by destruct (isspace c).
  - by destruct (Ascii.eqb_spec c newline) as [->|].
  - by destruct (Ascii.eqb_spec c nul) as [->|].
Qed.

Lemma all_digits_plain s : all_digits s = true -> value_ok s = true.
Proof.
  intros H. assert (line_text s = true /\ rstrip s = s) as [Hl Hr].
  { unfold line_text. induction s as [|c s IH]; [done|]. cbn [all_digits] in H. apply andb_prop in H as [Hc H].
    destruct (digit_plain c Hc) as (H1 & H2 & H3). destruct (IH H) as [E1 E2]. apply andb_prop in E1 as [E1 E3].
    cbn [no_char rstrip]. rewrite H2, H3, E1, E3, E2, H1. split; [done|]. by destruct s. }
  unfold value_ok, trimmed. rewrite Hl, Hr. unfold streq at 2. rewrite String.eqb_refl, !andb_true_r.
  apply streq_spec, skip_space_id. destruct s as [|c s]; [done|]. cbn [all_digits] in H. apply andb_prop in H as [Hc _].
  by destruct (digit_plain c Hc).
Qed.

Lemma print_digits_plain fuel : forall n tail, all_digits tail = true ->
  all_digits (print_digits fuel n tail) = true /\
  (String.length (print_digits fuel n tail) <= fuel + String.length tail)%nat.
Proof.
  induction fuel as [|fuel IH]; intros n tail Ht; cbn [print_digits]; [split; [done|lia]|].
  assert (0 <= n mod 10 < 10)%Z as Hm by (apply Z.mod_pos_bound; lia).
  destruct (isdigit_digit_char _ Hm) as [Hd _].
  assert (all_digits (String (digit_char (n mod 10)) tail) = true) as H1 by (cbn [all_digits]; by rewrite Hd).
  destruct (n / 10 =? 0)%Z; [cbn [String.length]; split; [done|lia]|].
  destruct (IH (n / 10)%Z _ H1) as [H2 H3]. cbn [String.length] in H3. split; [done|lia].
Qed.

Lemma print_u_plain n : value_ok (print_u n) = true /\ (String.length (print_u n) <= 20)%nat.
Proof.
  destruct (print_digits_plain 20 n "" eq_refl) as [H1 H2]. split; [by apply all_digits_plain|].
  unfold print_u. cbn [String.length] in H2. lia.
Qed.

Lemma print_i_plain n : value_ok (print_i n) = true /\ (String.length (print_i n) <= 21)%nat.
Proof.
  unfold print_i. destruct (n <? 0)%Z; [|destruct (print_u_plain n); split; [done|lia]].
  destruct (print_u_plain (- n)) as [H1 H2]. split; [|cbn [String.length]; lia].
  revert H1. generalize (print_u (- n)). intros s. unfold value_ok, trimmed, line_text.
  rewrite !andb_true_iff, !streq_spec. intros ((Hs & Hr) & Hn & Hz). cbn [no_char rstrip]. split_and!; try done.
  rewrite Hr. by destruct s.
Qed.

Definition ring_select_name (v : Z) : string :=
  match v with 1%Z => "cpu_local" | 2%Z => "round_robin" | 3%Z => "thread_local" | _ => "adaptive" end.

Definition opt (b : bool) (kv : param) : list param := if b then [kv] else [].

(** What is not at its default, then everything else. *)
Definition job_params (j : job_config_t) : list param :=
  opt (rw_set j) ("rw", rw_pattern_name (rw j)) ++
  opt (negb (j_size j =? 0)%Z) ("size", print_u (j_size j)) ++
  opt (negb (filesize j =? 0)%Z) ("filesize", print_u (filesize j)) ++
  opt (negb (streq (filename j) "")) ("filename", filename j) ++
  opt (negb (streq (directory j) "")) ("directory", directory j) ++
  [("bs", print_u (bs j)); ("direct", print_i (direct j)); ("runtime", print_i (runtime_sec j));
   ("time_based", print_i (time_based j)); ("ramp_time", print_i (ramp_time_sec j));
   ("numjobs", print_i (numjobs j)); ("iodepth", print_i (iodepth j)); ("nrfiles", print_i (nrfiles j));
   ("rwmixread", print_i (rwmixread j)); ("group_reporting", print_i (group_reporting j));
   ("fsync", print_i (fsync_freq j)); ("sqpoll", print_i (sqpoll j));
   ("file_service_type", file_service_type_name (file_service_type j));
   ("ring_select", ring_select_name (j_ring_select j))].

Definition job_section (j : job_config_t) : section := (j_name j, job_params j).

(** Names are printable, there is no latency target, and a pattern that was not
    set is the default. *)
Record printable (j : job_config_t) : Prop := {
  pr_ok : job_ok j;
  pr_name : name_ok (j_name j) = true;
  pr_paths : value_ok (filename j) = true /\ value_ok (directory j) = true;
  pr_lengths : (String.length (filename j) < 1000)%nat /\ (String.length (directory j) < 1000)%nat;
  pr_target : target_p99 j = d_zero;
  pr_rw : rw_set j = false -> rw j = RW_READ
}.

(** *** Reading what was printed *)

Lemma int_param_print job n ok store : int_range n -> ok n = true ->
  int_param job (print_i n) ok store = (0%Z, store n).
Proof.
  intros [H1 H2] Ho. unfold int_param, parse_int.
  assert (INT_MIN = -2147483648 /\ INT_MAX = 2147483647)%Z as [Ei Ea] by done.
  rewrite strtol_print by (unfold LONG_MIN, LONG_MAX; lia).
  assert (print_i n <> "") as Hn.
  { unfold print_i. destruct (Z.ltb_spec n 0); [done|].
    destruct (print_u_digits n "") as [_ Hs]; [unfold ULLONG_MAX; lia|done|]. unfold print_u. intros E. by rewrite E in Hs. }
  destruct (print_i n) as [|c s] eqn:E; [done|]. cbn.
  rewrite (proj2 (Z.ltb_ge n INT_MIN)), (proj2 (Z.ltb_ge INT_MAX n)) by lia. cbn. by rewrite Ho.
Qed.

Lemma flag_param_print job n store : int_range n -> flag_param job (print_i n) store = (0%Z, store n).
Proof.
  intros H. unfold flag_param. pose proof (int_param_print job n any store H eq_refl) as E.
  destruct (print_i n); [|exact E]. done.
Qed.

Lemma size_param_print job n store : (1 <= n <= UINT64_MAX)%Z -> size_param job (print_u n) store = (0%Z, store n).
Proof.
  intros Hn. unfold size_param, parse_size.
  assert (0 <= n <= ULLONG_MAX)%Z as Hr by (unfold UINT64_MAX, ULLONG_MAX in *; lia).
  destruct (print_u_digits n "" Hr eq_refl) as [_ Hs].
  unfold print_u in *. rewrite strtoull_print by done.
  destruct (print_digits 20 n "") as [|c s]; [done|]. cbn [orb streq String.eqb].
  replace (streq "" (String c s)) with false by done.
  by rewrite (proj2 (Z.eqb_neq n 0)) by lia.
Qed.

Lemma apply_params_step j k v kvs j1 : apply_param j k v = (0%Z, j1) ->
  apply_params j ((k, v) :: kvs) = apply_params j1 kvs.
Proof. intros E. cbn [apply_params]. by rewrite E. Qed.

(** A parameter that is written only when it differs from the default. *)
Lemma apply_params_opt (b : bool) j k v kvs j1 :
  (b = true -> apply_param j k v = (0%Z, j1)) -> (b = false -> j1 = j) ->
  apply_params j (opt b (k, v) ++ kvs) = apply_params j1 kvs.
Proof. destruct b; cbn [opt app]; intros H1 H2; [by apply apply_params_step, H1|by rewrite H2]. Qed.

Lemma apply_rw j p : apply_param j "rw" (rw_pattern_name p) = (0%Z, j <| rw := p |> <| rw_set := true |>).
Proof. by destruct p. Qed.

Lemma apply_fst j t : apply_param j "file_service_type" (file_service_type_name t) = (0%Z, j <| file_service_type := t |>).
Proof. by destruct t. Qed.

Lemma apply_ring j v : (0 <= v <= 3)%Z -> apply_param j "ring_select" (ring_select_name v) = (0%Z, j <| j_ring_select := v |>).
Proof. intros H. assert (v = 0 \/ v = 1 \/ v = 2 \/ v = 3)%Z as E by lia. by repeat (destruct E as [->|E]; [done|]); subst. Qed.

Lemma nonempty_false s : negb (streq s "") = false -> s = "".
Proof. rewrite negb_false_iff. apply streq_spec. Qed.

Lemma zero_false n : negb (n =? 0)%Z = false -> n = 0%Z.
Proof. rewrite negb_false_iff. apply Z.eqb_eq. Qed.

Lemma count_print job n low store : (0 <= low)%Z -> (low <= n <= INT_MAX)%Z ->
  int_param job (print_i n) (at_least low) store = (0%Z, store n).
Proof. intros Hl Hn. apply int_param_print; [unfold int_range, INT_MIN; lia|]. unfold at_least. apply Z.leb_le. lia. Qed.

Lemma job_section_read j : printable j -> section_job (job_section j) = Some j.
Proof.
  intros [J Hn Hp [Lf Ld] Ht Hr]. destruct J. unfold section_job, job_section, job_params. cbn [fst snd].
  unfold u64_size, int_range in *. destruct_and!.
  rewrite (apply_params_opt _ _ _ _ _ (job_config_defaults <| j_name := j_name j |> <| rw := rw j |> <| rw_set := rw_set j |>)).
  2: { intros ->. apply apply_rw. }
  2: { intros E. by rewrite E, Hr. }
  erewrite (apply_params_opt _ _ "size").
  2: { intros E. apply (size_param_print _ _ (fun v => _ <| j_size := v |>)). apply negb_true_iff, Z.eqb_neq in E. lia. }
  2: { intros E. by rewrite (zero_false _ E). }
  erewrite (apply_params_opt _ _ "filesize").
  2: { intros E. apply (size_param_print _ _ (fun v => _ <| filesize := v |>)). apply negb_true_iff, Z.eqb_neq in E. lia. }
  2: { intros E. by rewrite (zero_false _ E). }
  erewrite (apply_params_opt _ _ "filename").
  2: { intros _. reflexivity. }
  2: { intros E. by rewrite (nonempty_false _ E). }
  erewrite (apply_params_opt _ _ "directory").
  2: { intros _. reflexivity. }
  2: { intros E. by rewrite (nonempty_false _ E). }
  rewrite !bounded_id by done.
  erewrite (apply_params_step _ "bs") by (by apply (size_param_print _ _ (fun v => _ <| bs := v |>))).
  erewrite (apply_params_step _ "direct") by (by apply (int_param_print _ _ any (fun v => _ <| direct := v |>))).
  erewrite (apply_params_step _ "runtime") by (by apply (count_print _ _ 0 (fun v => _ <| runtime_sec := v |>))).
  erewrite (apply_params_step _ "time_based") by (by apply (flag_param_print _ _ (fun v => _ <| time_based := v |>))).
  erewrite (apply_params_step _ "ramp_time") by (by apply (count_print _ _ 0 (fun v => _ <| ramp_time_sec := v |>))).
  erewrite (apply_params_step _ "numjobs") by (by apply (count_print _ _ 1 (fun v => _ <| numjobs := v |>))).
  erewrite (apply_params_step _ "iodepth") by (by apply (count_print _ _ 1 (fun v => _ <| iodepth := v |>))).
  erewrite (apply_params_step _ "nrfiles") by (by apply (count_print _ _ 1 (fun v => _ <| nrfiles := v |>))).
  erewrite (apply_params_step _ "rwmixread") by
    (apply (int_param_print _ _ (fun v => (0 <=? v)%Z && (v <=? 100)%Z) (fun v => _ <| rwmixread := v |>));
     [unfold int_range, INT_MIN, INT_MAX; lia|apply andb_true_iff; rewrite !Z.leb_le; lia]).
  erewrite (apply_params_step _ "group_reporting") by (by apply (flag_param_print _ _ (fun v => _ <| group_reporting := v |>))).
  erewrite (apply_params_step _ "fsync") by (by apply (count_print _ _ 0 (fun v => _ <| fsync_freq := v |>))).
  erewrite (apply_params_step _ "sqpoll") by (by apply (int_param_print _ _ any (fun v => _ <| sqpoll := v |>))).
  erewrite (apply_params_step _ "file_service_type") by apply apply_fst.
  erewrite (apply_params_step _ "ring_select") by (by apply apply_ring).
  clear -Ht. destruct j. cbn in *. by subst.
Qed.

(** *** Every line is one *)

Lemma param_ok_intro k v : key_ok k = true -> value_ok v = true -> (String.length k + String.length v < 1022)%nat ->
  param_ok (k, v).
Proof.
  intros Hk Hv Hl. split_and!; [done|done|]. unfold param_line, LINE_MAX_LEN. cbn [fst snd].
  rewrite !length_append. cbn [String.length]. lia.
Qed.

Lemma param_ok_u k n : key_ok k = true -> (String.length k < 1000)%nat -> param_ok (k, print_u n).
Proof. intros Hk Hl. destruct (print_u_plain n). apply param_ok_intro; [done|done|lia]. Qed.

Lemma param_ok_i k n : key_ok k = true -> (String.length k < 1000)%nat -> param_ok (k, print_i n).
Proof. intros Hk Hl. destruct (print_i_plain n). apply param_ok_intro; [done|done|lia]. Qed.

Lemma opt_ok b kv : param_ok kv -> Forall param_ok (opt b kv).
Proof. intros. destruct b; cbn; [by apply Forall_singleton|done]. Qed.

Lemma job_section_ok j : printable j -> section_ok (job_section j).
Proof.
  intros [J Hn [Hf Hd] [Lf Ld] Ht Hr]. split; [done|]. cbn [snd job_section]. unfold job_params.
  rewrite !Forall_app. split_and!.
  1-5: apply opt_ok.
  - destruct (rw j); (apply param_ok_intro; [done|done|cbn; lia]).
  - apply param_ok_u; [done|cbn; lia].
  - apply param_ok_u; [done|cbn; lia].
  - apply param_ok_intro; [done|done|cbn; lia].
  - apply param_ok_intro; [done|done|cbn; lia].
  - assert (param_ok ("file_service_type", file_service_type_name (file_service_type j))) as H1
      by (destruct (file_service_type j); (apply param_ok_intro; [done|done|cbn; lia])).
    assert (param_ok ("ring_select", ring_select_name (j_ring_select j))) as H2.
    { unfold ring_select_name. repeat case_match; (apply param_ok_intro; [done|done|cbn; lia]). }
    repeat (constructor; [first [exact H1|exact H2|apply param_ok_u; [done|cbn; lia]|apply param_ok_i; [done|cbn; lia]]|]).
    constructor.
Qed.

(** C27. Writing a configuration as a job file and reading it back gives the same
    configuration, provided realloc does not fail and the paths are shorter than
    1000 characters (a line of the file has to fit the parser's buffer of 1024,
    although paths of up to 4095 are in range): every list of jobs in range, with
    printable names and paths, no latency target, and the default pattern where
    none was set, is what the parser makes of the file that has one section per
    job and one line per setting. *)
Theorem job_files_roundtrip `{JobEnv} path js :
  (forall n, realloc_ok n = true) -> Forall printable js -> read_file path = Some (render (job_section <$> js)) ->
  exists cfg, job_parse_file path bench_config_empty = Some (0%Z, cfg) /\ jobs cfg = js.
Proof.
  intros Hm F Er. apply (read_sections Hm path (job_section <$> js)); [done| |].
  - apply Forall_fmap. eapply Forall_impl; [exact F|apply job_section_ok].
  - clear Er. induction F as [|j js P F IH]; [constructor|]. cbn [fmap list_fmap]. constructor; [by apply job_section_read|apply IH].
Qed.

Definition demo_jobs : list job_config_t :=
  [job_config_defaults <| j_name := "first job" |> <| rw := RW_RANDRW |> <| rw_set := true |>
     <| j_size := 1073741824 |> <| directory := "/tmp/a=b c" |> <| direct := 1 |> <| rwmixread := 70 |>;
   job_config_defaults <| j_name := "second" |> <| runtime_sec := 30 |> <| time_based := -1 |>
     <| filename := "/dev/nvme0n1" |> <| bs := UINT64_MAX |> <| j_ring_select := 3 |>].

Definition demo_files : JobEnv :=
  {| read_file p := if streq p "demo.fio" then Some (render (job_section <$> demo_jobs)) else None; realloc_ok _ := true |}.

Lemma job_files_roundtrip_witness :
  Forall printable demo_jobs /\
  exists cfg, @job_parse_file demo_files "demo.fio" bench_config_empty = Some (0%Z, cfg) /\ jobs cfg = demo_jobs.
Proof.
  assert (Forall printable demo_jobs) as F.
  { apply Forall_cons_2; [|apply Forall_cons_2; [|apply Forall_nil_2]].
    all: split; [split|vm_compute; reflexivity|split; vm_compute; reflexivity|cbn; lia|reflexivity|done].
    all: unfold u64_size, int_range, UINT64_MAX, INT_MIN, INT_MAX, PATH_MAX; cbn; try lia; done. }
  split; [exact F|]. apply (@job_files_roundtrip demo_files); [reflexivity|exact F|vm_compute; reflexivity].
Defined.
