(* ===== verification/BenchPool.v ===== *)
(** * BFFIO: the pool of request contexts

    [io_ctx_pool_*] of [src/tools/BFFIO/workload.c]: a stack of slots linked by
    index, popped by the worker that owns the pool and pushed by whichever thread
    runs a completion. First as one thread sees it, then with any number of threads,
    one atomic access at a time: with a single popping thread the slots are always
    parted between free, handed out and being returned. *)
From Stdlib Require Import ZArith Lia List.
From stdpp Require Import base tactics list.
From S2P Require Import Prelude.

#[local] Open Scope Z_scope.

(** [next_free] of every slot, and the head; -1 ends the list. *)
Record io_ctx_pool_t := { next_free : list Z; free_head : Z }.

Definition capacity (p : io_ctx_pool_t) : Z := zlen (next_free p).

(** Slot [i] links to [i - 1]; the last one is on top. *)
Definition io_ctx_pool_init (cap : nat) : io_ctx_pool_t :=
  {| next_free := (fun i => Z.of_nat i - 1) <$> seq 0 cap; free_head := Z.of_nat cap - 1 |}.

Definition io_ctx_pool_destroy (p : io_ctx_pool_t) : io_ctx_pool_t := {| next_free := []; free_head := free_head p |}.

(** Without interference the first compare-and-swap succeeds. *)
Definition io_ctx_pool_get (p : io_ctx_pool_t) : option nat * io_ctx_pool_t :=
  if free_head p <? 0 then (None, p)
  else (Some (Z.to_nat (free_head p)),
        {| next_free := next_free p; free_head := aget (-1) (next_free p) (free_head p) |}).

Definition io_ctx_pool_put (i : nat) (p : io_ctx_pool_t) : io_ctx_pool_t :=
  {| next_free := <[i := free_head p]> (next_free p); free_head := Z.of_nat i |}.

(** ** Threads *)

(** A thread in [io_ctx_pool_get]: outside, before the load of [next_free] of the
    head it saw, before the compare-and-swap. *)
Inductive get_pc := GetOut | GetNext (idx : Z) | GetCas (idx next : Z).

(** A thread in [io_ctx_pool_put]: with the head it saw, before the store of
    [next_free], before the compare-and-swap. *)
Inductive put_pc := PutLoad | PutStore (old_head : Z) | PutCas (old_head : Z).

Record threads := {
  pool : io_ctx_pool_t;
  getting : list get_pc;             (* the threads that pop *)
  putting : list (nat * put_pc);     (* a slot on its way back *)
  held : list nat                    (* handed out *)
}.

(** Thread [j] of those that pop moves; the [i]-th slot handed out begins its way
    back; the [k]-th returning thread moves. A weak compare-and-swap may fail for
    no reason. *)
Inductive action := Get (j : nat) (spurious : bool) | StartPut (i : nat) | Put (k : nat) (spurious : bool).

Definition at_head (idx : Z) : get_pc := if idx <? 0 then GetOut else GetNext idx.

Definition step_get (spurious : bool) (c : get_pc) (s : threads) : get_pc * io_ctx_pool_t * list nat :=
  let p := pool s in
  match c with
  | GetOut => (at_head (free_head p), p, held s)
  | GetNext idx => (GetCas idx (aget (-1) (next_free p) idx), p, held s)
  | GetCas idx next =>
      if (free_head p =? idx) && negb spurious
      then (GetOut, {| next_free := next_free p; free_head := next |}, Z.to_nat idx :: held s)
      else (at_head (free_head p), p, held s)
  end.

(** [None] when the slot is back. *)
Definition step_put (spurious : bool) (i : nat) (c : put_pc) (p : io_ctx_pool_t) : option put_pc * io_ctx_pool_t :=
  match c with
  | PutLoad => (Some (PutStore (free_head p)), p)
  | PutStore old => (Some (PutCas old), {| next_free := <[i := old]> (next_free p); free_head := free_head p |})
  | PutCas old =>
      if (free_head p =? old) && negb spurious
      then (None, {| next_free := next_free p; free_head := Z.of_nat i |})
      else (Some (PutStore (free_head p)), p)
  end.

Definition step (a : action) (s : threads) : option threads :=
  match a with
  | Get j spurious =>
      c ← getting s !! j;
      let '(c, p, h) := step_get spurious c s in
      Some {| pool := p; getting := <[j := c]> (getting s); putting := putting s; held := h |}
  | StartPut i =>
      slot ← held s !! i;
      Some {| pool := pool s; getting := getting s; putting := (slot, PutLoad) :: putting s;
              held := delete i (held s) |}
  | Put k spurious =>
      '(i, c) ← putting s !! k;
      let '(c, p) := step_put spurious i c (pool s) in
      Some {| pool := p; getting := getting s;
              putting := match c with Some c => <[k := (i, c)]> (putting s) | None => delete k (putting s) end;
              held := held s |}
  end.

Fixpoint run (l : list action) (s : threads) : option threads :=
  match l with [] => Some s | a :: l => s ← step a s; run l s end.

Definition start (cap n : nat) : threads :=
  {| pool := io_ctx_pool_init cap; getting := replicate n GetOut; putting := []; held := [] |}.

(** ** The free list *)

(** The slots reached from [h]. *)
Inductive chain (next : list Z) : Z -> list nat -> Prop :=
  | chain_end h : h < 0 -> chain next h []
  | chain_slot (i : nat) n l : next !! i = Some n -> chain next n l -> chain next (Z.of_nat i) (i :: l).

Lemma chain_insert next h l i v : chain next h l -> i ∉ l -> chain (<[i := v]> next) h l.
Proof.
  induction 1 as [h Hh|k n l Hn _ IH]; intros Hi; [by constructor|].
  apply not_elem_of_cons in Hi as [Hi Hl]. econstructor; [|by apply IH].
  by rewrite list_lookup_insert_ne.
Qed.

Lemma chain_in next h l : chain next h l -> forall i, i ∈ l -> (i < length next)%nat.
Proof.
  induction 1 as [|k n l Hn _ IH]; intros i Hi; [by apply not_elem_of_nil in Hi|].
  apply elem_of_cons in Hi as [->|Hi]; [by eapply lookup_lt_Some|by apply IH].
Qed.

Lemma init_chain cap : forall k, (k <= cap)%nat ->
  chain (next_free (io_ctx_pool_init cap)) (Z.of_nat k - 1) (rev (seq 0 k)).
Proof.
  induction k as [|k IH]; intros Hk; [constructor; lia|].
  rewrite seq_S, rev_app_distr. cbn [rev app].
  replace (Z.of_nat (S k) - 1) with (Z.of_nat k) by lia.
  econstructor; [|apply IH; lia]. cbn. by rewrite list_lookup_fmap, lookup_seq_lt by lia.
Qed.

(** ** One popping thread *)

(** What the popping thread knows: the slot it saw at the head is still in the free
    list, since nobody else takes slots out, and its link has not changed. *)
Definition knows (p : io_ctx_pool_t) (l : list nat) (c : get_pc) : Prop :=
  match c with
  | GetOut => True
  | GetNext idx => 0 <= idx /\ Z.to_nat idx ∈ l
  | GetCas idx next => 0 <= idx /\ Z.to_nat idx ∈ l /\ next_free p !! Z.to_nat idx = Some next
  end.

(** A returning thread that has linked its slot. *)
Definition linked (p : io_ctx_pool_t) (t : nat * put_pc) : Prop :=
  match t.2 with PutCas old => next_free p !! t.1 = Some old | _ => True end.

Record parted (cap : nat) (s : threads) : Prop := {
  pt_links : length (next_free (pool s)) = cap;
  pt_chain : exists l, chain (next_free (pool s)) (free_head (pool s)) l /\
    held s ++ (putting s).*1 ++ l ≡ₚ seq 0 cap /\
    exists c, getting s = [c] /\ knows (pool s) l c;
  pt_linked : Forall (linked (pool s)) (putting s)
}.

Lemma chain_head next h l : chain next h l -> 0 <= h ->
  exists n r, l = Z.to_nat h :: r /\ next !! Z.to_nat h = Some n /\ chain next n r.
Proof. intros C Hh. inversion C; subst; [lia|]. rewrite Nat2Z.id. by eexists _, _. Qed.

Lemma chain_neg next h l : chain next h l -> h < 0 -> l = [].
Proof. intros C Hh. inversion C; subst; [done|lia]. Qed.

Lemma at_head_knows p l : chain (next_free p) (free_head p) l -> knows p l (at_head (free_head p)).
Proof.
  intros C. unfold at_head. destruct (Z.ltb_spec (free_head p) 0); [done|].
  destruct (chain_head _ _ _ C) as (n & r & -> & _); [done|]. split; [done|]. apply list_elem_of_here.
Qed.

Lemma parted_start cap : parted cap (start cap 1).
Proof.
  split; [cbn; by rewrite length_fmap, length_seq| |done].
  exists (rev (seq 0 cap)). split_and!; [by apply init_chain| |by eexists].
  cbn. symmetry. apply Permutation_rev.
Qed.

Lemma aget_lookup {A} (d x : A) l i : 0 <= i -> l !! Z.to_nat i = Some x -> aget d l i = x.
Proof.
  intros Hi H. unfold aget. rewrite (proj2 (Z.ltb_ge i 0)) by lia. by apply nth_lookup_Some with (d := d) in H.
Qed.

Lemma chain_lookup next h l i : chain next h l -> i ∈ l -> is_Some (next !! i).
Proof. intros C Hi. apply lookup_lt_is_Some_2. by eapply chain_in. Qed.

(** Replacing one of the returning threads keeps what the others know. *)
Lemma linked_insert p p' t (k : nat) c i (l : list (nat * put_pc)) :
  NoDup l.*1 -> l !! k = Some (i, t) -> Forall (linked p) l -> linked p' (i, c) ->
  (forall j, j <> i -> next_free p' !! j = next_free p !! j) -> Forall (linked p') (<[k := (i, c)]> l).
Proof.
  intros N Hk F Hc Hn. apply Forall_lookup. intros m [j d] Hm.
  destruct (decide (m = k)) as [->|Hne].
  - rewrite list_lookup_insert_eq in Hm by by eapply lookup_lt_Some. by injection Hm as <- <-.
  - rewrite list_lookup_insert_ne in Hm by done. pose proof (Forall_lookup_1 _ _ _ _ F Hm) as Hl.
    unfold linked in *. cbn in *. destruct d; try done. rewrite Hn; [done|]. intros ->.
    apply Hne. eapply NoDup_lookup; [exact N| |]; rewrite list_lookup_fmap; [by rewrite Hm|by rewrite Hk].
Qed.

Lemma fst_insert (k : nat) (l : list (nat * put_pc)) i t c : l !! k = Some (i, t) -> (<[k := (i, c)]> l).*1 = l.*1.
Proof. intros Hk. rewrite (list_fmap_insert fst). apply list_insert_id. by rewrite list_lookup_fmap, Hk. Qed.

Lemma parted_get cap j spurious s s' : parted cap s -> step (Get j spurious) s = Some s' -> parted cap s'.
Proof.
  intros [L (l & C & P & c & G & K) F]. cbn [step]. rewrite G. destruct j as [|j]; [|done]. cbn [lookup list_lookup].
  simpl. destruct c as [|idx|idx n]; cbn [step_get].
  - intros [= <-]. split; cbn; [done| |done]. exists l. split_and!; [done|done|]. eexists. split; [done|]. by apply at_head_knows.
  - intros [= <-]. split; cbn; [done| |done]. exists l. split_and!; [done|done|]. eexists. split; [done|].
    destruct K as [K1 K2]. destruct (chain_lookup _ _ _ _ C K2) as [n Hn]. cbn. split_and!; [done|done|].
    by rewrite (aget_lookup _ n).
  - destruct ((free_head (pool s) =? idx) && negb spurious) eqn:E.
    + apply andb_prop in E as [E _]. apply Z.eqb_eq in E. subst idx. destruct K as (K1 & K2 & K3).
      destruct (chain_head _ _ _ C K1) as (n' & r & -> & Hn & C').
      assert (n' = n) as -> by congruence.
      intros [= <-]. split; cbn; [done| |done]. exists r. split_and!; [done| |by eexists].
      rewrite <- P. rewrite <- !Permutation_middle. done.
    + intros [= <-]. split; cbn; [done| |done]. exists l. split_and!; [done|done|]. eexists. split; [done|]. by apply at_head_knows.
Qed.

Lemma parted_nodup cap s l : held s ++ (putting s).*1 ++ l ≡ₚ seq 0 cap -> NoDup (held s ++ (putting s).*1 ++ l).
Proof. intros ->. apply NoDup_seq. Qed.

Lemma parted_start_put cap i s s' : parted cap s -> step (StartPut i) s = Some s' -> parted cap s'.
Proof.
  intros [L (l & C & P & c & G & K) F]. cbn [step]. destruct (held s !! i) as [slot|] eqn:Hi; [|done].
  simpl. intros [= <-]. split; cbn; [done| |by constructor].
  exists l. split_and!; [done| |by eexists]. rewrite <- P.
  pose proof (delete_Permutation _ _ _ Hi) as D. revert D. generalize (delete i (held s)). intros h ->.
  cbn. symmetry. apply Permutation_middle.
Qed.

Lemma parted_put cap k spurious s s' : parted cap s -> step (Put k spurious) s = Some s' -> parted cap s'.
Proof.
  intros [L (l & C & P & c & G & K) F]. cbn [step]. destruct (putting s !! k) as [[i t]|] eqn:Hk; [|done]. simpl.
  pose proof (parted_nodup _ _ _ P) as N. apply NoDup_app in N as (_ & _ & N). apply NoDup_app in N as (Nf & Nl & _).
  assert (i ∈ (putting s).*1) as Hin by (apply list_elem_of_lookup; exists k; by rewrite list_lookup_fmap, Hk).
  assert (i ∉ l) as Hil by by apply Nl.
  assert (i < cap)%nat as Hic.
  { assert (i ∈ seq 0 cap) as Hs by (rewrite <- P, !elem_of_app; by right; left). apply elem_of_seq in Hs. lia. }
  destruct t as [|old|old]; cbn [step_put].
  - intros [= <-]. split; cbn; [done| |].
    + exists l. rewrite (fst_insert _ _ _ _ _ Hk). split_and!; [done|done|by eexists].
    + by eapply linked_insert.
  - intros [= <-]. split; cbn; [by rewrite length_insert| |].
    + exists l. rewrite (fst_insert _ _ _ _ _ Hk). split_and!; [by apply chain_insert|done|].
      exists c. split; [done|]. destruct c as [|idx|idx n]; [done|done|]. destruct K as (K1 & K2 & K3). cbn.
      split_and!; [done|done|]. rewrite list_lookup_insert_ne; [done|]. intros ->. done.
    + eapply linked_insert; [done|done|exact F|unfold linked; cbn; apply list_lookup_insert_eq; lia|].
      intros j Hj. cbn. by rewrite list_lookup_insert_ne.
  - destruct ((free_head (pool s) =? old) && negb spurious) eqn:E.
    + apply andb_prop in E as [E _]. apply Z.eqb_eq in E. subst old.
      assert (next_free (pool s) !! i = Some (free_head (pool s))) as Hn by apply (Forall_lookup_1 _ _ _ _ F Hk).
      intros [= <-]. split; cbn; [done| |].
      * exists (i :: l). split_and!; [by econstructor| |].
        -- rewrite <- P, list_fmap_delete.
           assert ((putting s).*1 ≡ₚ i :: delete k (putting s).*1) as D
             by (apply delete_Permutation; by rewrite list_lookup_fmap, Hk).
           revert D. generalize (delete k (putting s).*1). intros h ->. cbn.
           by rewrite <- (Permutation_middle h).
        -- exists c. split; [done|]. destruct c as [|idx|idx n]; cbn in *; [done| |].
           ++ destruct K. split; [done|by right].
           ++ destruct K as (? & ? & ?). split_and!; [done|by right|done].
      * by apply Forall_delete.
    + intros [= <-]. split; cbn; [done| |].
      * exists l. rewrite (fst_insert _ _ _ _ _ Hk). split_and!; [done|done|by eexists].
      * by eapply linked_insert.
Qed.

Lemma parted_run cap l : forall s s', parted cap s -> run l s = Some s' -> parted cap s'.
Proof.
  induction l as [|a l IH]; intros s s' Hs; cbn [run]; [by intros [= <-]|].
  destruct (step a s) as [s1|] eqn:E; [|done]. simpl. apply IH.
  destruct a; [by eapply parted_get|by eapply parted_start_put|by eapply parted_put].
Qed.

(** C30. With one thread that pops and any number of threads that push, however
    their atomic accesses interleave and however often a weak compare-and-swap
    fails, every slot of the pool is at every moment exactly one of free, handed
    out, or on its way back: no slot is handed out twice and none is lost. *)
Theorem pool_slots_parted cap l s :
  run l (start cap 1) = Some s ->
  exists free, chain (next_free (pool s)) (free_head (pool s)) free /\
    held s ++ (putting s).*1 ++ free ≡ₚ seq 0 cap.
Proof.
  intros H. destruct (parted_run cap l _ _ (parted_start cap) H) as [_ (free & C & P & _) _]. by exists free.
Qed.

(** Two slots go out, both come back at the same time while the worker is in the
    middle of taking the third. *)
Definition demo_run : list action :=
  replicate 6 (Get 0 false) ++ [Get 0 false; StartPut 0; StartPut 0; Put 0 false; Put 1 false; Put 1 false;
    Get 0 false; Put 0 false; Put 1 false; Put 0 false; Get 0 false; Put 0 false; Put 0 false; Get 0 true; Get 0 false; Get 0 false; Get 0 false].

Lemma pool_slots_parted_witness :
  exists s free, run demo_run (start 3 1) = Some s /\ held s = [2%nat] /\
    chain (next_free (pool s)) (free_head (pool s)) free /\ held s ++ (putting s).*1 ++ free ≡ₚ seq 0 3.
Proof.
  destruct (run demo_run (start 3 1)) as [s|] eqn:E; [|exfalso; vm_compute in E; discriminate E].
  destruct (pool_slots_parted 3 demo_run s E) as (free & C & P).
  exists s, free. split; [reflexivity|]. split; [|by split].
  vm_compute in E. injection E as <-. reflexivity.
Defined.

(** With two threads that pop, a slot that is taken and returned between the load
    of its link and the compare-and-swap brings back an old link: a slot that is
    handed out is handed out again. *)
Definition aba_run : list action :=
  [Get 0 false; Get 0 false] ++ replicate 6 (Get 1 false) ++
  [StartPut 1; Put 0 false; Put 0 false; Put 0 false; Get 0 false; Get 1 false; Get 1 false; Get 1 false].

Example two_poppers_share_slot :
  exists s, run aba_run (start 3 2) = Some s /\ held s = [1; 2; 1]%nat.
Proof. eexists. split; [vm_compute; reflexivity|reflexivity]. Qed.

(** ** One thread *)

(** Taking and returning without interference are the operations on a stack. *)
Lemma io_ctx_pool_get_spec p l : chain (next_free p) (free_head p) l ->
  match io_ctx_pool_get p with
  | (None, p') => l = [] /\ p' = p
  | (Some i, p') => exists r, l = i :: r /\ chain (next_free p') (free_head p') r /\ next_free p' = next_free p
  end.
Proof.
  intros C. unfold io_ctx_pool_get. destruct (Z.ltb_spec (free_head p) 0) as [H|H]; [split; [by eapply chain_neg|done]|].
  destruct (chain_head _ _ _ C H) as (n & r & -> & Hn & C'). exists r. cbn. by rewrite (aget_lookup _ n).
Qed.

Lemma io_ctx_pool_put_spec p l i : chain (next_free p) (free_head p) l -> i ∉ l -> (i < length (next_free p))%nat ->
  chain (next_free (io_ctx_pool_put i p)) (free_head (io_ctx_pool_put i p)) (i :: l).
Proof.
  intros C Hi Hlt. cbn. econstructor; [by apply list_lookup_insert_eq|by apply chain_insert].
Qed.
