(* ===== verification/BenchLoad.v ===== *)
(** * BFFIO: the worker

    [src/tools/BFFIO/workload.c]: the generator of pseudo-random numbers, the choice
    of file, offset and direction, one submission, the loop that keeps requests in
    flight, the two callbacks and the drain at the end, as one worker sees them. The
    library is the list of requests it accepted; the clock, its verdicts, the
    completions it delivers and the two flags of the main thread are the class
    [LoadEnv].

    [aura_poll] runs the callbacks of whatever requests it finds completed, so a
    worker also runs callbacks of other workers' requests, and theirs run its own
    ([elsewhere_t]). Their accesses fall where this worker touches shared state:
    at the heads of the loops, before it takes a slot ([others]), during a poll,
    and between the load and the store of its updates of [inflight] ([between]),
    which are not atomic, so that either side's update may be lost. *)
From Stdlib Require Import ZArith Lia List.
From stdpp Require Import base tactics list.
From S2P Require Import Prelude Double BenchStats BenchJobs BenchPool.

#[local] Open Scope Z_scope.

(** ** Helpers *)

Definition shl64 (x n : Z) : Z := u64 (Z.shiftl x n).

Definition xorshift64 (state : Z) : Z :=
  let x := Z.lxor state (shl64 state 13) in
  let x := Z.lxor x (Z.shiftr x 7) in
  Z.lxor x (shl64 x 17).

(** [val & ~(align - 1)] *)
Definition align_down (val align : Z) : Z := Z.land val (u64 (Z.lnot (u64 (align - 1)))).

Definition pattern_is_random (p : rw_pattern_t) : bool :=
  match p with RW_RANDREAD | RW_RANDWRITE | RW_RANDRW => true | _ => false end.
Definition pattern_is_read_only (p : rw_pattern_t) : bool :=
  match p with RW_READ | RW_RANDREAD => true | _ => false end.
Definition is_mixed (p : rw_pattern_t) : bool := match p with RW_RANDRW | RW_READWRITE => true | _ => false end.
Definition is_write_only (p : rw_pattern_t) : bool := match p with RW_WRITE | RW_RANDWRITE => true | _ => false end.

(** ** The worker's context *)

(** The part of [io_ctx_t] that changes; [buffer] 0 is NULL. *)
Record io_ctx_t := { submit_time_ns : Z; io_size : Z; buffer : Z; reg_buf_index : Z; ctx_is_write : bool }.

(** A request the library accepted, and whose completion it owes. *)
Record op_t := { o_slot : nat; o_fsync : bool; o_file : nat; o_offset : Z; o_len : Z; o_write : bool }.

Record thread_ctx_t := {
  config : job_config_t; w_nrfiles : Z; per_file_size : Z; effective_depth : Z;
  seq_offsets : list Z; current_file_idx : Z; file_ios_done : Z; file_ios_limit : Z;
  sample_interval : Z; sample_calib_ns : Z; sample_io_count : Z;
  w_pool : io_ctx_pool_t; slots : list io_ctx_t; stats : thread_stats_t;
  (* locals of worker_thread *)
  rng : Z; total_bytes : Z; writes_since_fsync : Z; batch_submit_ns : Z;
  tls_completion_ns : Z;
  (* the library's side *)
  outstanding : list op_t; accepted : list op_t;
  (* slots whose request another worker has completed and not yet pushed back *)
  returning : list nat;
  (* questions asked so far *)
  asks : nat
}.

Definition thread_ctx_eta (r : thread_ctx_t) : thread_ctx_t :=
  {| config := config r; w_nrfiles := w_nrfiles r; per_file_size := per_file_size r;
     effective_depth := effective_depth r; seq_offsets := seq_offsets r; current_file_idx := current_file_idx r;
     file_ios_done := file_ios_done r; file_ios_limit := file_ios_limit r; sample_interval := sample_interval r;
     sample_calib_ns := sample_calib_ns r; sample_io_count := sample_io_count r; w_pool := w_pool r;
     slots := slots r; stats := stats r; rng := rng r; total_bytes := total_bytes r;
     writes_since_fsync := writes_since_fsync r; batch_submit_ns := batch_submit_ns r;
     tls_completion_ns := tls_completion_ns r; outstanding := outstanding r; accepted := accepted r;
     returning := returning r; asks := asks r |}.
#[export] Instance wset_seq : Setter seq_offsets := ltac:(mk_setter thread_ctx_eta).
#[export] Instance wset_cur : Setter current_file_idx := ltac:(mk_setter thread_ctx_eta).
#[export] Instance wset_done : Setter file_ios_done := ltac:(mk_setter thread_ctx_eta).
#[export] Instance wset_interval : Setter sample_interval := ltac:(mk_setter thread_ctx_eta).
#[export] Instance wset_calib : Setter sample_calib_ns := ltac:(mk_setter thread_ctx_eta).
#[export] Instance wset_count : Setter sample_io_count := ltac:(mk_setter thread_ctx_eta).
#[export] Instance wset_pool : Setter w_pool := ltac:(mk_setter thread_ctx_eta).
#[export] Instance wset_slots : Setter slots := ltac:(mk_setter thread_ctx_eta).
#[export] Instance wset_stats : Setter stats := ltac:(mk_setter thread_ctx_eta).
#[export] Instance wset_rng : Setter rng := ltac:(mk_setter thread_ctx_eta).
#[export] Instance wset_total : Setter total_bytes := ltac:(mk_setter thread_ctx_eta).
#[export] Instance wset_writes : Setter writes_since_fsync := ltac:(mk_setter thread_ctx_eta).
#[export] Instance wset_batch : Setter batch_submit_ns := ltac:(mk_setter thread_ctx_eta).
#[export] Instance wset_tls : Setter tls_completion_ns := ltac:(mk_setter thread_ctx_eta).
#[export] Instance wset_out : Setter outstanding := ltac:(mk_setter thread_ctx_eta).
#[export] Instance wset_acc : Setter accepted := ltac:(mk_setter thread_ctx_eta).
#[export] Instance wset_ret : Setter returning := ltac:(mk_setter thread_ctx_eta).
#[export] Instance wset_asks : Setter asks := ltac:(mk_setter thread_ctx_eta).

(** What another worker that polls does to this one: it runs the callback of the
    request at position [k] of those outstanding, up to the store of [inflight]
    (the counters it leaves are whatever its plain loads and stores and this
    worker's make of them; [loaded] is the value of [inflight] it had read, when
    that is no longer the present one), and then pushes the slot back. *)
Inductive elsewhere_t :=
  | Completes (k : nat) (counters : thread_stats_t) (loaded : option Z)
  | Returns (k : nat).

(** A callback during this worker's poll: of its own request at position [k], or
    of another worker's, which was sampled or not; and what other workers do
    meanwhile. *)
Inductive delivery_t :=
  | Mine (k : nat) (result : Z)
  | Theirs (sampled : bool)
  | Elsewhere (e : elsewhere_t).

(** Answers by number of the question: the clock, the flags [running] and
    [ramping], whether the library takes a request, the callbacks of one
    [aura_poll] or [aura_wait], and what other workers do when this one looks at
    shared state and while it updates [inflight]. *)
Class LoadEnv := {
  ask_clock : nat -> Z;
  ask_running : nat -> bool;
  ask_ramping : nat -> bool;
  ask_submit : nat -> bool;
  ask_poll : nat -> list delivery_t;
  ask_others : nat -> list elsewhere_t;
  ask_between : nat -> list elsewhere_t
}.

Section Worker.
Context `{LoadEnv}.

Definition asked (w : thread_ctx_t) : thread_ctx_t := w <| asks := S (asks w) |>.

(** ** Other workers *)

Definition put_slot (i : nat) (w : thread_ctx_t) : thread_ctx_t := w <| w_pool := io_ctx_pool_put i (w_pool w) |>.

Definition elsewhere (w : thread_ctx_t) (e : elsewhere_t) : thread_ctx_t :=
  match e with
  | Completes k counters loaded =>
      match outstanding w !! k with
      | None => w
      | Some o =>
          w <| outstanding := delete k (outstanding w) |> <| returning := o_slot o :: returning w |>
            <| stats := counters <| inflight := i32 (default (inflight (stats w)) loaded - 1) |> |>
      end
  | Returns k =>
      match returning w !! k with
      | None => w
      | Some i => put_slot i (w <| returning := delete k (returning w) |>)
      end
  end.

Definition others (w : thread_ctx_t) : thread_ctx_t := foldl elsewhere (asked w) (ask_others (asks w)).
Definition between (w : thread_ctx_t) : thread_ctx_t := foldl elsewhere (asked w) (ask_between (asks w)).

(** ** Choosing a file *)

Definition select_file (w : thread_ctx_t) : Z * thread_ctx_t :=
  if w_nrfiles w <=? 1 then (0, w)
  else match file_service_type (config w) with
       | FST_ROUNDROBIN =>
           let idx := current_file_idx w in (idx, w <| current_file_idx := Z.rem (idx + 1) (w_nrfiles w) |>)
       | FST_SEQUENTIAL =>
           let idx := current_file_idx w in
           let done := u64 (file_ios_done w + 1) in
           if file_ios_limit w <=? done
           then (idx, w <| file_ios_done := 0 |> <| current_file_idx := Z.rem (idx + 1) (w_nrfiles w) |>)
           else (idx, w <| file_ios_done := done |>)
       | FST_RANDOM => let x := xorshift64 (rng w) in (x mod w_nrfiles w, w <| rng := x |>)
       end.

(** ** Choosing an offset *)

Definition max_offset (w : thread_ctx_t) : Z :=
  if bs (config w) <? per_file_size w then per_file_size w - bs (config w) else 0.

Definition next_offset (file_idx : Z) (w : thread_ctx_t) : Z * thread_ctx_t :=
  let bs := bs (config w) in
  if pattern_is_random (rw (config w)) then
    if 0 <? max_offset w then
      let x := xorshift64 (rng w) in (align_down (x mod max_offset w) bs, w <| rng := x |>)
    else (0, w)
  else
    let offset := aget 0 (seq_offsets w) file_idx in
    if per_file_size w <? u64 (offset + bs)
    then (0, w <| seq_offsets := aset (seq_offsets w) file_idx bs |>)
    else (offset, w <| seq_offsets := aset (seq_offsets w) file_idx (u64 (offset + bs)) |>).

(** ** Read or write *)

Definition choose_write (w : thread_ctx_t) : bool * thread_ctx_t :=
  if is_mixed (rw (config w)) then
    let x := xorshift64 (rng w) in (rwmixread (config w) <=? x mod 100, w <| rng := x |>)
  else (is_write_only (rw (config w)), w).

(** ** Latency sampling *)

Definition recalibrate (w : thread_ctx_t) : thread_ctx_t :=
  let w := w <| sample_io_count := u64 (sample_io_count w + 1) |> in
  if Z.land (sample_io_count w) 65535 =? 0 then
    let cal_now := ask_clock (asks w) in
    let w := asked w in
    let elapsed := u64 (cal_now - sample_calib_ns w) in
    let w :=
      if 0 <? elapsed then
        let iops_est := 65536000000000 / elapsed in
        w <| sample_interval := if 100000 <? iops_est then (iops_est / 100000) mod 4294967296 else 1 |>
      else w in
    w <| sample_calib_ns := cal_now |>
  else w.

Definition choose_sample (w : thread_ctx_t) : bool * thread_ctx_t :=
  if sample_interval w <=? 1 then (true, w)
  else let x := xorshift64 (rng w) in (x mod sample_interval w =? 0, w <| rng := x |>).

(** The submit time of the batch, read once. *)
Definition sample_time (do_sample : bool) (w : thread_ctx_t) : Z * thread_ctx_t :=
  if do_sample then
    if batch_submit_ns w =? 0 then
      let t := ask_clock (asks w) in (t, (asked w) <| batch_submit_ns := t |>)
    else (batch_submit_ns w, w)
  else (0, w).

(** ** One request *)

(** A load and a store. *)
Definition set_inflight (d : Z) (w : thread_ctx_t) : thread_ctx_t :=
  let v := inflight (stats w) in
  let w := between w in
  w <| stats := (stats w) <| inflight := i32 (v + d) |> |>.

Definition get_slot (w : thread_ctx_t) : option nat * thread_ctx_t :=
  let w := others w in
  let '(i, p) := io_ctx_pool_get (w_pool w) in (i, w <| w_pool := p |>).

Definition slot_at (w : thread_ctx_t) (i : nat) : io_ctx_t :=
  default {| submit_time_ns := 0; io_size := 0; buffer := 0; reg_buf_index := 0; ctx_is_write := false |} (slots w !! i).

Definition set_slot (i : nat) (c : io_ctx_t) (w : thread_ctx_t) : thread_ctx_t := w <| slots := <[i := c]> (slots w) |>.

(** [inflight] goes up before the call and back when it refuses. A data request
    without a registered buffer and with a NULL pointer is refused. *)
Definition submit (o : op_t) (usable : bool) (w : thread_ctx_t) : bool * thread_ctx_t :=
  let w := set_inflight 1 w in
  if usable && ask_submit (asks w) then
    let w := asked w in (true, w <| outstanding := outstanding w ++ [o] |> <| accepted := accepted w ++ [o] |>)
  else (false, put_slot (o_slot o) (set_inflight (-1) (asked w))).

(** The periodic [fsync]; without a free slot it is skipped. *)
Definition periodic_fsync (fd : nat) (do_sample : bool) (w : thread_ctx_t) : thread_ctx_t :=
  if 0 <? fsync_freq (config w) then
    let w := w <| writes_since_fsync := i32 (writes_since_fsync w + 1) |> in
    if fsync_freq (config w) <=? writes_since_fsync w then
      let w := w <| writes_since_fsync := 0 |> in
      match get_slot w with
      | (None, w) => w
      | (Some i, w) =>
          let c := slot_at w i in
          let w := set_slot i {| submit_time_ns := if do_sample then batch_submit_ns w else 0; io_size := 0;
                                 buffer := 0; reg_buf_index := reg_buf_index c; ctx_is_write := true |} w in
          (submit {| o_slot := i; o_fsync := true; o_file := fd; o_offset := 0; o_len := 0; o_write := true |} true w).2
      end
    else w
  else w.

(** One turn of the inner loop from [io_ctx_pool_get] on; [false] is [break]. *)
Definition submit_one (w : thread_ctx_t) : bool * thread_ctx_t :=
  match get_slot w with
  | (None, w) => (false, w)
  | (Some i, w) =>
      let '(file_idx, w) := select_file w in
      let '(offset, w) := next_offset file_idx w in
      let '(do_write, w) := choose_write w in
      let w := recalibrate w in
      let '(do_sample, w) := choose_sample w in
      let '(t, w) := sample_time do_sample w in
      let c := slot_at w i in
      let w := set_slot i {| submit_time_ns := t; io_size := bs (config w); buffer := buffer c;
                             reg_buf_index := reg_buf_index c; ctx_is_write := do_write |} w in
      let usable := (0 <=? reg_buf_index c) || negb (buffer c =? 0) in
      let '(ok, w) := submit {| o_slot := i; o_fsync := false; o_file := Z.to_nat file_idx; o_offset := offset;
                                o_len := bs (config w); o_write := do_write |} usable w in
      if ok then
        let w := w <| total_bytes := u64 (total_bytes w + bs (config w)) |> in
        (true, if do_write then periodic_fsync (Z.to_nat file_idx) do_sample w else w)
      else (false, w)
  end.

(** ** The loops *)

Definition per_thread_size (w : thread_ctx_t) : Z :=
  j_size (config w) / (if 0 <? numjobs (config w) then numjobs (config w) else 1).

Definition size_reached (w : thread_ctx_t) : bool :=
  (time_based (config w) =? 0) && (0 <? per_thread_size w) && (per_thread_size w <=? total_bytes w).

(** The inner loop; [None] when it has not ended after [fuel] turns (other workers
    may complete its requests as fast as it submits them). *)
Fixpoint submit_loop (fuel : nat) (w : thread_ctx_t) : option thread_ctx_t :=
  match fuel with
  | O => None
  | S fuel =>
      let w := others w in
      if inflight (stats w) <? effective_depth w then
        let go := ask_running (asks w) in
        let w := asked w in
        if negb go || size_reached w then Some w
        else let '(ok, w) := submit_one w in if ok then submit_loop fuel w else Some w
      else Some w
  end.

(** ** Completions *)

(** What [io_callback] and [fsync_callback] record: nothing while ramping, the
    count alone for a request that was not sampled. *)
Definition record_completion (c : io_ctx_t) (bytes : Z) (is_write : bool) (w : thread_ctx_t) : option thread_ctx_t :=
  let ramping := ask_ramping (asks w) in
  let w := asked w in
  if ramping then Some w
  else if negb (submit_time_ns c =? 0) then
    let w := if tls_completion_ns w =? 0 then (asked w) <| tls_completion_ns := ask_clock (asks w) |> else w in
    let latency := u64 (tls_completion_ns w - submit_time_ns c) in
    s ← stats_record_io_fast {| latency_ns := latency; io_bytes := bytes; is_write := is_write |} (stats w);
    Some (w <| stats := s |>)
  else Some (w <| stats := stats_record_io_count_fast bytes is_write (stats w) |>).

Definition count_error (result : Z) (w : thread_ctx_t) : thread_ctx_t :=
  if result <? 0 then w <| stats := (stats w) <| errors := u64 (errors (stats w) + 1) |> |> else w.

Definition io_callback (i : nat) (result : Z) (w : thread_ctx_t) : option thread_ctx_t :=
  let c := slot_at w i in
  w ← record_completion c (io_size c) (ctx_is_write c) w;
  Some (put_slot i (set_inflight (-1) (count_error result w))).

Definition fsync_callback (i : nat) (result : Z) (w : thread_ctx_t) : option thread_ctx_t :=
  w ← record_completion (slot_at w i) 0 true w;
  Some (put_slot i (set_inflight (-1) (count_error result w))).

(** The library completes the request at position [k] of those outstanding. *)
Definition complete (k : nat) (result : Z) (w : thread_ctx_t) : option thread_ctx_t :=
  match outstanding w !! k with
  | None => Some w
  | Some o =>
      let w := w <| outstanding := delete k (outstanding w) |> in
      if o_fsync o then fsync_callback (o_slot o) result w else io_callback (o_slot o) result w
  end.

(** A callback for another worker's request only leaves the time it read in the
    variable of this thread. *)
Definition complete_theirs (sampled : bool) (w : thread_ctx_t) : thread_ctx_t :=
  let ramping := ask_ramping (asks w) in
  let w := asked w in
  if negb ramping && sampled && (tls_completion_ns w =? 0)
  then (asked w) <| tls_completion_ns := ask_clock (asks w) |> else w.

Definition deliver (d : delivery_t) (w : thread_ctx_t) : option thread_ctx_t :=
  match d with
  | Mine k result => complete k result w
  | Theirs sampled => Some (complete_theirs sampled w)
  | Elsewhere e => Some (elsewhere w e)
  end.

Fixpoint deliver_all (l : list delivery_t) (w : thread_ctx_t) : option thread_ctx_t :=
  match l with [] => Some w | d :: l => w ← deliver d w; deliver_all l w end.

(** [tls_completion_ns = 0; aura_poll(engine)], and [aura_wait(engine, 1)]. *)
Definition poll (w : thread_ctx_t) : option thread_ctx_t :=
  deliver_all (ask_poll (asks w)) ((asked w) <| tls_completion_ns := 0 |>).

(** One turn of the main loop; [false] when the loop is left. *)
Definition main_turn (fuel : nat) (w : thread_ctx_t) : option (bool * thread_ctx_t) :=
  let go := ask_running (asks w) in
  let w := asked w in
  if negb go || size_reached w then Some (false, w)
  else
    w ← submit_loop fuel (w <| batch_submit_ns := 0 |>);
    w ← poll w; Some (true, w).

Fixpoint main_loop (fuel : nat) (w : thread_ctx_t) : option thread_ctx_t :=
  match fuel with
  | O => None
  | S fuel => '(go, w) ← main_turn fuel w; if go : bool then main_loop fuel w else Some w
  end.

Fixpoint drain_loop (fuel : nat) (w : thread_ctx_t) : option thread_ctx_t :=
  if 0 <? inflight (stats w) then
    match fuel with O => None | S fuel => w ← poll w; drain_loop fuel w end
  else Some w.

(** The seed; the clock is read twice, for the seed and for the sampling. *)
Definition start_worker (thread_id : Z) (nsec : Z) (w : thread_ctx_t) : thread_ctx_t :=
  let seed := Z.lxor (u64 ((thread_id + 1) * 2654435761)) nsec in
  (asked w) <| rng := if seed =? 0 then 1 else seed |> <| sample_interval := 1 |>
    <| sample_calib_ns := ask_clock (asks w) |> <| sample_io_count := 0 |>
    <| total_bytes := 0 |> <| writes_since_fsync := 0 |>.

Definition worker_thread (fuel : nat) (thread_id nsec : Z) (w : thread_ctx_t) : option thread_ctx_t :=
  w ← main_loop fuel (start_worker thread_id nsec w);
  drain_loop fuel w.

End Worker.

(** ** Setting up a run *)

(** The size of each file: as configured, or what [fstat] says of the first one
    ([None] when it fails or there is none); 0 is an error. *)
Definition run_file_size (cfg : job_config_t) (fd_count : Z) (st_size : option Z) : Z :=
  if 0 <? filesize cfg then filesize cfg
  else if (0 <? j_size cfg) && (0 <? fd_count) then j_size cfg / fd_count
  else if 0 <? fd_count then match st_size with Some n => if 0 <? n then n else 0 | None => 0 end
  else 0.

(** With a latency target the engine's queue is the depth. *)
Definition run_depth (cfg : job_config_t) (queue_depth : option Z) : Z :=
  if d_gt (target_p99 cfg) d_zero then
    match queue_depth with Some q => if 0 <? q then q else iodepth cfg | None => iodepth cfg end
  else iodepth cfg.

Definition start_offset (cfg : job_config_t) (i num_threads per_file_size : Z) : Z :=
  align_down (u64 (i * (per_file_size / num_threads))) (bs cfg).

(** The slots of thread [i]: buffers of the engine, registered or not. *)
Definition init_slots (i depth : Z) (buffers : nat -> Z) (registered : bool) : list io_ctx_t :=
  (fun s => {| submit_time_ns := 0; io_size := 0; buffer := buffers s;
               reg_buf_index := if registered then i * depth + Z.of_nat s else -1; ctx_is_write := false |})
  <$> seq 0 (Z.to_nat depth).

Definition init_thread (cfg : job_config_t) (i num_threads fd_count per_file_size depth : Z)
    (buffers : nat -> Z) (registered : bool) : thread_ctx_t := {|
  config := cfg; w_nrfiles := fd_count; per_file_size := per_file_size; effective_depth := depth;
  seq_offsets := replicate (Z.to_nat fd_count) (start_offset cfg i num_threads per_file_size);
  current_file_idx := Z.rem i fd_count; file_ios_done := 0;
  file_ios_limit := if bs cfg <? per_file_size then per_file_size / bs cfg else 1;
  sample_interval := 0; sample_calib_ns := 0; sample_io_count := 0;
  w_pool := io_ctx_pool_init (Z.to_nat depth); slots := init_slots i depth buffers registered;
  stats := stats_init; rng := 0; total_bytes := 0; writes_since_fsync := 0; batch_submit_ns := 0;
  tls_completion_ns := 0; outstanding := []; accepted := []; returning := []; asks := 0 |}.
