(* ===== verification/BenchLoadSpec.v ===== *)
(** * What the worker promises

    Requests stay inside their file; the requests in flight are the slots that are
    handed out, so there are never more than the depth; a run bounded by size stops
    within one block of it; and the worker comes to its end with every slot back,
    whatever the library refuses and in whatever order it completes. *)
From Stdlib Require Import ZArith Lia List.
From stdpp Require Import base tactics list.
From S2P Require Import Prelude Double BenchStats BenchJobs BenchPool BenchLoad.

#[local] Open Scope Z_scope.
#[local] Arguments u64 : simpl never.
#[local] Arguments aget : simpl never.
#[local] Arguments aset : simpl never.
#[local] Arguments i32 : simpl never.
#[local] Arguments xorshift64 : simpl never.

(** ** Helpers *)

Lemma land_le a m : 0 <= a -> 0 <= Z.land a m <= a.
Proof.
  intros Ha. assert (0 <= Z.land a m) by (apply Z.land_nonneg; lia).
  assert (0 <= Z.ldiff a m) by (apply Z.ldiff_nonneg; lia).
  pose proof (Z.add_lor_land (Z.ldiff a m) (Z.land a m)) as E.
  rewrite Z.lor_ldiff_and in E.
  assert (Z.land (Z.ldiff a m) (Z.land a m) = 0) as E0.
  { apply Z.bits_inj'. intros n Hn. rewrite !Z.land_spec, Z.ldiff_spec, Z.bits_0.
    by destruct (Z.testbit a n), (Z.testbit m n). }
  lia.
Qed.

Lemma align_down_le v a : 0 <= v -> 0 <= align_down v a <= v.
Proof. apply land_le. Qed.

(** On a power of two the result is a multiple. *)
Lemma align_down_multiple v k : 0 <= k < 64 -> 0 <= v <= SIZE_MAX -> align_down v (2 ^ k) = 2 ^ k * (v / 2 ^ k).
Proof.
  intros Hk Hv. unfold align_down.
  assert (0 < 2 ^ k <= 2 ^ 63) as Hp by (split; [apply Z.pow_pos_nonneg; lia|apply Z.pow_le_mono_r; lia]).
  rewrite (u64_id (2 ^ k - 1)) by (unfold SIZE_MAX; lia).
  rewrite Z.mul_comm, <- Z.shiftr_div_pow2, <- Z.shiftl_mul_pow2 by lia.
  apply Z.bits_inj'. intros n Hn. rewrite Z.land_spec.
  unfold u64, wrap_u. rewrite Z.shiftl_spec by lia.
  destruct (Z.ltb_spec n 64) as [H64|H64].
  - rewrite Z.mod_pow2_bits_low by lia. rewrite Z.lnot_spec, Z.sub_1_r by lia.
    rewrite <- Z.ones_equiv. destruct (Z.ltb_spec n k).
    + rewrite Z.ones_spec_low by lia. rewrite (Z.testbit_neg_r _ (n - k)) by lia. by rewrite andb_false_r.
    + rewrite Z.ones_spec_high by lia. rewrite Z.shiftr_spec by lia. rewrite andb_true_r. f_equal. lia.
  - rewrite Z.mod_pow2_bits_high by lia. rewrite andb_false_r.
    rewrite Z.shiftr_spec by lia. symmetry. replace (n - k + k) with n by lia.
    destruct (Z.eq_dec v 0) as [->|]; [apply Z.bits_0|]. apply Z.bits_above_log2; [lia|].
    apply Z.log2_lt_pow2; [lia|]. unfold SIZE_MAX in Hv.
    assert (2 ^ 64 <= 2 ^ n) by (apply Z.pow_le_mono_r; lia). lia.
Qed.

Lemma shl64_range x n : 0 <= shl64 x n <= SIZE_MAX.
Proof. apply u64_range. Qed.

Lemma lxor_nonneg a b : 0 <= a -> 0 <= b -> 0 <= Z.lxor a b.
Proof. intros. apply Z.lxor_nonneg. lia. Qed.

Lemma xorshift64_nonneg x : 0 <= x -> 0 <= xorshift64 x.
Proof.
  intros Hx. unfold xorshift64. pose proof (shl64_range x 13).
  assert (0 <= Z.lxor x (shl64 x 13)) as H1 by (apply lxor_nonneg; lia).
  set (y := Z.lxor x (shl64 x 13)) in *.
  assert (0 <= Z.lxor y (Z.shiftr y 7)) as H2 by (apply lxor_nonneg; [lia|apply Z.shiftr_nonneg; lia]).
  apply lxor_nonneg; [lia|]. apply shl64_range.
Qed.

Lemma lxor_range a b : 0 <= a <= SIZE_MAX -> 0 <= b <= SIZE_MAX -> 0 <= Z.lxor a b <= SIZE_MAX.
Proof.
  intros Ha Hb. assert (0 <= Z.lxor a b) as H0 by (apply lxor_nonneg; lia). split; [done|].
  destruct (Z.eq_dec (Z.lxor a b) 0) as [->|Hn]; [unfold SIZE_MAX; lia|].
  assert (Z.log2 (Z.lxor a b) < 64) as Hl.
  { pose proof (Z.log2_lxor a b ltac:(lia) ltac:(lia)) as H.
    assert (forall x, 0 <= x <= SIZE_MAX -> Z.log2 x < 64) as Hx.
    { intros x Hx. destruct (Z.eq_dec x 0) as [->|]; [cbn; lia|]. apply Z.log2_lt_pow2; [lia|]. unfold SIZE_MAX in Hx. lia. }
    specialize (Hx a Ha) as Hxa. specialize (Hx b Hb). lia. }
  apply Z.log2_lt_pow2 in Hl; [|lia]. unfold SIZE_MAX. lia.
Qed.

Lemma shl64_bit x n i : 0 <= n -> 0 <= i -> Z.testbit (shl64 x n) i = (i <? 64) && Z.testbit x (i - n).
Proof.
  intros Hn Hi. unfold shl64, u64, wrap_u. destruct (Z.ltb_spec i 64).
  - rewrite Z.mod_pow2_bits_low by lia. by rewrite Z.shiftl_spec.
  - by rewrite Z.mod_pow2_bits_high by lia.
Qed.

(** A step of the generator that gives 0 was given 0. *)
Lemma lxor_shl_zero x n : 0 < n -> Z.lxor x (shl64 x n) = 0 -> 0 <= x -> x = 0.
Proof.
  intros Hn E Hx. apply Z.lxor_eq in E. apply Z.bits_inj'. intros i Hi. rewrite Z.bits_0. revert i Hi.
  refine (Z_lt_induction (fun i => Z.testbit x i = false) _). intros i IH. destruct (Z.ltb_spec i 0).
  { by apply Z.testbit_neg_r. }
  rewrite E, shl64_bit by lia. destruct (Z.ltb_spec (i - n) 0).
  - by rewrite Z.testbit_neg_r, andb_false_r by lia.
  - by rewrite IH, andb_false_r by lia.
Qed.

Lemma lxor_shr_zero x n : 0 < n -> Z.lxor x (Z.shiftr x n) = 0 -> 0 <= x -> x = 0.
Proof.
  intros Hn E Hx. apply Z.lxor_eq in E. rewrite Z.shiftr_div_pow2 in E by lia.
  assert (2 ^ 1 <= 2 ^ n) by (apply Z.pow_le_mono_r; lia).
  destruct (Z.eq_dec x 0); [done|]. assert (x / 2 ^ n < x) by (apply Z.div_lt; lia). lia.
Qed.

(** The generator stays within 64 bits and, once seeded with anything but 0,
    never gets stuck at 0. *)
Theorem xorshift64_alive x : 0 < x <= SIZE_MAX -> 0 < xorshift64 x <= SIZE_MAX.
Proof.
  intros Hx. unfold xorshift64. pose proof (lxor_shl_zero x 13).
  pose proof (lxor_range x (shl64 x 13) ltac:(lia) (shl64_range x 13)).
  set (y := Z.lxor x (shl64 x 13)) in *.
  assert (0 <= Z.shiftr y 7 <= SIZE_MAX) as Hs.
  { rewrite Z.shiftr_div_pow2 by lia. split; [apply Z.div_pos; lia|].
    assert (y / 2 ^ 7 <= y) by (apply Z.div_le_upper_bound; lia). lia. }
  pose proof (lxor_shr_zero y 7). pose proof (lxor_range y (Z.shiftr y 7) ltac:(lia) Hs).
  set (z := Z.lxor y (Z.shiftr y 7)) in *.
  pose proof (lxor_shl_zero z 17). pose proof (lxor_range z (shl64 z 17) ltac:(lia) (shl64_range z 17)).
  assert (Z.lxor z (shl64 z 17) <> 0); [|lia]. intros E. assert (z = 0) as Ez by auto with lia.
  assert (y = 0) by (apply H1; [done|done|lia]). assert (x = 0) by (apply H; [lia|done|lia]). lia.
Qed.

(** ** The invariant *)

(** A data request is within its file. *)
Definition op_ok (w : thread_ctx_t) (o : op_t) : Prop :=
  o_fsync o = true \/
  0 <= o_offset o /\ o_offset o + o_len o <= per_file_size w /\ o_len o = bs (config w) /\
  (o_file o < Z.to_nat (w_nrfiles w))%nat.

(** The slots in use: of the requests in flight, and on their way back. *)
Definition slots_out (w : thread_ctx_t) : list nat := (o_slot <$> outstanding w) ++ returning w.

(** Between two accesses, [h] being the slots the worker has in its hands. *)
Record inv (h : list nat) (w : thread_ctx_t) : Prop := {
  iv_bs : 1 <= bs (config w) <= per_file_size w;
  iv_size : per_file_size w + bs (config w) <= SIZE_MAX;
  iv_files : 1 <= w_nrfiles w <= INT_MAX;
  iv_depth : 1 <= effective_depth w <= INT_MAX;
  iv_seq : zlen (seq_offsets w) = w_nrfiles w /\ Forall (fun x => 0 <= x <= per_file_size w) (seq_offsets w);
  iv_cur : 0 <= current_file_idx w < w_nrfiles w;
  iv_rng : 0 <= rng w;
  iv_len : length (next_free (w_pool w)) = Z.to_nat (effective_depth w) /\ length (slots w) = Z.to_nat (effective_depth w);
  iv_pool : exists free, chain (next_free (w_pool w)) (free_head (w_pool w)) free /\
    h ++ slots_out w ++ free ≡ₚ seq 0 (Z.to_nat (effective_depth w));
  iv_ops : Forall (op_ok w) (accepted w)
}.

(** [inv] only looks at some of the fields. *)
Definition shape (w : thread_ctx_t) : Z * Z * Z := (w_nrfiles w, per_file_size w, effective_depth w).

Definition same_fields (w w' : thread_ctx_t) : Prop :=
  config w' = config w /\ w_nrfiles w' = w_nrfiles w /\ per_file_size w' = per_file_size w /\
  effective_depth w' = effective_depth w /\ w_pool w' = w_pool w /\ length (slots w') = length (slots w) /\
  inflight (stats w') = inflight (stats w) /\ outstanding w' = outstanding w /\ accepted w' = accepted w /\
  total_bytes w' = total_bytes w /\ returning w' = returning w.

Lemma inv_same h w w' : inv h w -> same_fields w w' ->
  zlen (seq_offsets w') = w_nrfiles w /\ Forall (fun x => 0 <= x <= per_file_size w) (seq_offsets w') ->
  0 <= current_file_idx w' < w_nrfiles w -> 0 <= rng w' -> inv h w'.
Proof.
  intros [] (E1 & E2 & E3 & E4 & E5 & E6 & E7 & E8 & E9 & _ & E11) Hs Hc Hr.
  split; unfold slots_out; rewrite ?E1, ?E2, ?E3, ?E4, ?E5, ?E6, ?E7, ?E8, ?E9, ?E11; try done.
  eapply Forall_impl; [exact iv_ops0|]. intros o. unfold op_ok. by rewrite E1, E2, E3.
Qed.

Lemma same_trans w1 w2 w3 : same_fields w1 w2 -> same_fields w2 w3 -> same_fields w1 w3.
Proof. unfold same_fields. intuition congruence. Qed.

(** The same seeds too. *)
Lemma inv_same_all h w w' : inv h w -> same_fields w w' -> seq_offsets w' = seq_offsets w ->
  current_file_idx w' = current_file_idx w -> rng w' = rng w -> inv h w'.
Proof. intros I S E1 E2 E3. eapply inv_same; [exact I|exact S|rewrite E1; apply I|rewrite E2; apply I|rewrite E3; apply I]. Qed.

Lemma inv_cap h w i : inv h w -> i ∈ h ++ slots_out w -> (i < Z.to_nat (effective_depth w))%nat.
Proof.
  intros I Hi. destruct (iv_pool _ _ I) as (free & _ & P).
  assert (i ∈ seq 0 (Z.to_nat (effective_depth w))) as Hs.
  { rewrite <- P, app_assoc. apply elem_of_app. by left. }
  apply elem_of_seq in Hs. lia.
Qed.

(** There are never more requests in flight than slots. *)
Lemma inv_bound h w : inv h w -> Z.of_nat (length h) + zlen (outstanding w) <= effective_depth w.
Proof.
  intros I. destruct (iv_pool _ _ I) as (free & _ & P). apply Permutation_length in P. unfold slots_out in P.
  rewrite !length_app, length_fmap, length_seq in P. pose proof (iv_depth _ _ I). unfold zlen. lia.
Qed.

(** Where a slot that was in use may go. *)
Lemma in_hand (h l l' r f : list nat) i : l ≡ₚ i :: l' -> (i :: h) ++ (l' ++ r) ++ f ≡ₚ h ++ (l ++ r) ++ f.
Proof. intros ->. cbn. by rewrite <- Permutation_middle. Qed.

Lemma out_of_hand (h l r r' f : list nat) i : r ≡ₚ i :: r' -> (i :: h) ++ (l ++ r') ++ f ≡ₚ h ++ (l ++ r) ++ f.
Proof. intros ->. rewrite <- (Permutation_middle l). cbn. by rewrite <- Permutation_middle. Qed.

(** Taking a request off the list leaves its slot in hand. *)
Lemma inv_delete h w k o : inv h w -> outstanding w !! k = Some o ->
  inv (o_slot o :: h) (w <| outstanding := delete k (outstanding w) |>).
Proof.
  intros I Hk. destruct I. destruct iv_pool0 as (free & C & P). split; cbn; try done.
  exists free. split; [done|]. rewrite <- P. apply in_hand. rewrite list_fmap_delete.
  apply delete_Permutation. by rewrite list_lookup_fmap, Hk.
Qed.

Lemma put_slot_ok h i w : inv (i :: h) w -> inv h (put_slot i w).
Proof.
  intros I. pose proof (inv_cap _ _ i I ltac:(left)) as Hi. destruct I. destruct iv_pool0 as (free & C & P).
  split; cbn; try done; [by rewrite length_insert|].
  exists (i :: free). split.
  - apply (io_ctx_pool_put_spec (w_pool w)); [done| |by rewrite (proj1 iv_len0)].
    intros Hf. pose proof (NoDup_seq 0 (Z.to_nat (effective_depth w))) as N. rewrite <- P in N. cbn in N.
    apply NoDup_cons in N as [N _]. apply N. rewrite !elem_of_app. by right; right.
  - rewrite <- P. change (h ++ slots_out w ++ i :: free ≡ₚ i :: h ++ slots_out w ++ free).
    by rewrite <- Permutation_middle, <- Permutation_middle.
Qed.

(** ** What other workers do *)

(** The local state is left alone; requests are only taken away. *)
Record quiet (w w' : thread_ctx_t) : Prop := {
  qt_config : config w' = config w;
  qt_shape : shape w' = shape w;
  qt_local : (seq_offsets w', current_file_idx w', rng w') = (seq_offsets w, current_file_idx w, rng w);
  qt_slots : slots w' = slots w;
  qt_times : (batch_submit_ns w', tls_completion_ns w') = (batch_submit_ns w, tls_completion_ns w);
  qt_count : accepted w' = accepted w /\ total_bytes w' = total_bytes w;
  qt_out : forall o, o ∈ outstanding w' -> o ∈ outstanding w;
  qt_length : (length (outstanding w') <= length (outstanding w))%nat;
  qt_asks : (asks w <= asks w')%nat
}.

Lemma quiet_same w : quiet w w.
Proof. by split. Qed.

Lemma quiet_chain w1 w2 w3 : quiet w1 w2 -> quiet w2 w3 -> quiet w1 w3.
Proof. intros [] []. split; [congruence..|intuition congruence|auto|lia|lia]. Qed.

(** An update that is not lost: the callback read the present value, and nobody
    completes a request of this worker between the load and the store of its own. *)
Definition present (e : elsewhere_t) : Prop := match e with Completes _ _ (Some _) => False | _ => True end.
Definition only_returns (e : elsewhere_t) : Prop := match e with Returns _ => True | _ => False end.

(** [d] requests are counted that are not in flight. *)
Definition counted (exact : Prop) (d : Z) (w : thread_ctx_t) : Prop :=
  exact -> inflight (stats w) = zlen (outstanding w) + d.

Lemma counted_same x d w w' : counted x d w -> inflight (stats w') = inflight (stats w) ->
  outstanding w' = outstanding w -> counted x d w'.
Proof. unfold counted. by intros Hc -> ->. Qed.

Lemma elem_of_delete {A} (l : list A) k (x : A) : x ∈ delete k l -> x ∈ l.
Proof. intros Hx. eapply elem_of_sublist; [exact Hx|apply sublist_delete]. Qed.

Lemma zlen_delete {A} (l : list A) k (x : A) : l !! k = Some x -> zlen (delete k l) = zlen l - 1.
Proof.
  intros Hk. pose proof (lookup_lt_Some _ _ _ Hk). unfold zlen. rewrite length_delete by by eexists. lia.
Qed.

Lemma elsewhere_quiet w e : quiet w (elsewhere w e).
Proof.
  destruct e as [k c l|k]; cbn.
  - destruct (outstanding w !! k) as [o|] eqn:Hk; [|apply quiet_same]. split; try done; cbn.
    + intros x. apply elem_of_delete.
    + rewrite length_delete by by eexists. lia.
  - destruct (returning w !! k); [|apply quiet_same]. by split.
Qed.

Lemma elsewhere_inv h w e : inv h w -> inv h (elsewhere w e).
Proof.
  intros I. destruct e as [k c l|k]; cbn.
  - destruct (outstanding w !! k) as [o|] eqn:Hk; [|done]. pose proof (inv_delete _ _ _ _ I Hk) as I1.
    destruct I1. destruct iv_pool0 as (free & C & P). split; cbn in *; try done.
    exists free. split; [done|]. rewrite <- P. symmetry. by apply out_of_hand.
  - destruct (returning w !! k) as [i|] eqn:Hk; [|done]. apply put_slot_ok.
    destruct I. destruct iv_pool0 as (free & C & P). split; cbn; try done.
    exists free. split; [done|]. rewrite <- P. apply out_of_hand. by apply delete_Permutation.
Qed.

Lemma elsewhere_counted x h d w e : inv h w -> 0 <= d <= 1 -> (x -> present e) ->
  counted x d w -> counted x d (elsewhere w e).
Proof.
  intros I Hd Hp Hc Hx. specialize (Hc Hx). specialize (Hp Hx). destruct e as [k c l|k]; cbn.
  - destruct (outstanding w !! k) as [o|] eqn:Hk; [|done]. destruct l as [v|]; [done|]. cbn.
    pose proof (inv_bound _ _ I). pose proof (iv_depth _ _ I). rewrite (zlen_delete _ _ _ Hk), Hc.
    pose proof (lookup_lt_Some _ _ _ Hk). unfold zlen in *. rewrite i32_id by (unfold INT_MIN, INT_MAX in *; lia). lia.
  - by destruct (returning w !! k).
Qed.

Lemma foldl_elsewhere x h d es : forall w, inv h w -> 0 <= d <= 1 -> (x -> Forall present es) ->
  let w' := foldl elsewhere w es in
  inv h w' /\ quiet w w' /\ (counted x d w -> counted x d w').
Proof.
  induction es as [|e es IH]; intros w I Hd Hp; cbn [foldl]; [split_and!; [done|apply quiet_same|done]|].
  destruct (IH (elsewhere w e)) as (I' & Q & Hc); [by apply elsewhere_inv|done| |].
  { intros Hx. specialize (Hp Hx). by inversion Hp. }
  split_and!; [done|eapply quiet_chain; [apply elsewhere_quiet|done]|]. intros H. apply Hc.
  eapply elsewhere_counted; [done|done| |done]. intros Hx. specialize (Hp Hx). by inversion Hp.
Qed.

Lemma foldl_returns es : forall w, Forall only_returns es ->
  outstanding (foldl elsewhere w es) = outstanding w.
Proof.
  induction es as [|[k c l|k] es IH]; intros w F; inversion F; [done|done|]. cbn [foldl]. rewrite IH by done.
  cbn. by destruct (returning w !! k).
Qed.

Section Steps.
Context `{LoadEnv}.

(** No update of [inflight] is lost. *)
Definition exact : Prop :=
  forall n, Forall present (ask_others n) /\ Forall only_returns (ask_between n) /\
    Forall (fun d => match d with Elsewhere e => present e | _ => True end) (ask_poll n).

Lemma asked_quiet w : quiet w (asked w).
Proof. split; try done. cbn. lia. Qed.

Lemma asked_ok h w : inv h w -> inv h (asked w).
Proof. intros I. by eapply inv_same_all. Qed.

Lemma others_ok h d w : inv h w -> 0 <= d <= 1 ->
  inv h (others w) /\ quiet w (others w) /\ (counted exact d w -> counted exact d (others w)).
Proof.
  intros I Hd. unfold others.
  destruct (foldl_elsewhere exact h d (ask_others (asks w)) (asked w)) as (I' & Q & Hc);
    [by apply asked_ok|done|intros Hx; apply Hx|].
  split_and!; [done|eapply quiet_chain; [apply asked_quiet|done]|]. intros Hw. apply Hc. by eapply counted_same.
Qed.

Lemma between_ok h w : inv h w ->
  inv h (between w) /\ quiet w (between w) /\ (exact -> outstanding (between w) = outstanding w).
Proof.
  intros I. unfold between.
  destruct (foldl_elsewhere False h 0 (ask_between (asks w)) (asked w)) as (I' & Q & _);
    [by apply asked_ok|lia|done|].
  split_and!; [done|eapply quiet_chain; [apply asked_quiet|done]|]. intros Hx. rewrite foldl_returns; [done|apply Hx].
Qed.

(** An update of the count, by one. *)
Lemma set_inflight_ok h d e w : inv h w -> 0 <= zlen (outstanding w) + e + d <= INT_MAX ->
  inv h (set_inflight d w) /\ quiet w (set_inflight d w) /\
  (counted exact e w -> counted exact (e + d) (set_inflight d w)).
Proof.
  intros I Hr. destruct (between_ok h w I) as (I' & Q & Ho). unfold set_inflight. split_and!.
  - by destruct I'; split.
  - by destruct Q; split.
  - intros Hc Hx. cbn. rewrite (Hc Hx), (Ho Hx), i32_id by (unfold INT_MIN, INT_MAX in *; lia). lia.
Qed.

Lemma rem_next idx n : 0 <= idx < n -> 0 <= Z.rem (idx + 1) n < n.
Proof. intros H1. apply Z.rem_bound_pos; lia. Qed.

Lemma select_file_ok h w : inv h w ->
  inv h (select_file w).2 /\ 0 <= (select_file w).1 < w_nrfiles w /\ same_fields w (select_file w).2.
Proof.
  intros I. pose proof (iv_files _ _ I). pose proof (iv_cur _ _ I) as Hc. pose proof (iv_rng _ _ I) as Hr.
  pose proof (rem_next _ _ Hc) as Hn. unfold select_file.
  destruct (Z.leb_spec (w_nrfiles w) 1); [cbn; split_and!; done || lia|].
  destruct (file_service_type (config w)).
  - cbn. split_and!; [|lia|lia|done]. eapply inv_same; [exact I|done|apply I|exact Hn|exact Hr].
  - destruct (file_ios_limit w <=? _); cbn; (split_and!; [|lia|lia|done]).
    + eapply inv_same; [exact I|done|apply I|exact Hn|exact Hr].
    + eapply inv_same; [exact I|done|apply I|exact Hc|exact Hr].
  - cbn. pose proof (Z.mod_pos_bound (xorshift64 (rng w)) (w_nrfiles w) ltac:(lia)). split_and!; [|lia|lia|done].
    eapply inv_same; [exact I|done|apply I|exact Hc|by apply xorshift64_nonneg].
Qed.

Lemma aget_forall (P : Z -> Prop) l i : Forall P l -> 0 <= i < zlen l -> P (aget 0 l i).
Proof.
  intros F Hi. unfold zlen in Hi. destruct (lookup_lt_is_Some_2 l (Z.to_nat i)) as [x Hx]; [lia|].
  rewrite (aget_lookup 0 x) by (done || lia). by eapply Forall_lookup_1.
Qed.

Lemma aset_forall (P : Z -> Prop) l i x : Forall P l -> P x -> Forall P (aset l i x).
Proof. intros F Hx. unfold aset. case_match; [done|]. by apply Forall_insert. Qed.

Lemma next_offset_ok h w idx : inv h w -> 0 <= idx < w_nrfiles w ->
  inv h (next_offset idx w).2 /\ same_fields w (next_offset idx w).2 /\
  0 <= (next_offset idx w).1 /\ (next_offset idx w).1 + bs (config w) <= per_file_size w.
Proof.
  intros I Hi. pose proof (iv_bs _ _ I) as Hb. pose proof (iv_size _ _ I) as Hs.
  destruct (iv_seq _ _ I) as [Hl Hf]. pose proof (iv_rng _ _ I) as Hr. unfold next_offset.
  destruct (pattern_is_random (rw (config w))).
  - destruct (Z.ltb_spec 0 (max_offset w)) as [Hm|Hm]; cbn; [|split_and!; done || lia].
    assert (max_offset w = per_file_size w - bs (config w)) as Em.
    { unfold max_offset in *. by destruct (bs (config w) <? per_file_size w). }
    pose proof (Z.mod_pos_bound (xorshift64 (rng w)) (max_offset w) Hm) as Hx.
    pose proof (align_down_le (xorshift64 (rng w) mod max_offset w) (bs (config w)) ltac:(lia)).
    split_and!; [|done|lia|lia]. eapply inv_same; [exact I|done|done|apply I|by apply xorshift64_nonneg].
  - assert (0 <= aget 0 (seq_offsets w) idx <= per_file_size w) as Ho
      by (apply (aget_forall (fun x => 0 <= x <= per_file_size w)); [done|lia]).
    rewrite u64_id by lia.
    destruct (Z.ltb_spec (per_file_size w) (aget 0 (seq_offsets w) idx + bs (config w))); cbn; (split_and!; [|done|lia|lia]).
    all: eapply inv_same; [exact I|done| |apply I|apply I]; cbn; rewrite zlen_aset; (split; [done|]);
      apply aset_forall; [done|lia].
Qed.

Lemma choose_write_ok h w : inv h w -> inv h (choose_write w).2 /\ same_fields w (choose_write w).2.
Proof.
  intros I. unfold choose_write. destruct (is_mixed _); [|done]. cbn. split; [|done].
  eapply inv_same; [exact I|done|apply I|apply I|]. cbn. apply xorshift64_nonneg, I.
Qed.

Lemma recalibrate_ok h w : inv h w -> inv h (recalibrate w) /\ same_fields w (recalibrate w).
Proof.
  intros I. unfold recalibrate. assert (forall w', same_fields w w' -> seq_offsets w' = seq_offsets w ->
    current_file_idx w' = current_file_idx w -> rng w' = rng w -> inv h w' /\ same_fields w w') as Hw.
  { intros w' S E1 E2 E3. split; [|done]. by eapply inv_same_all. }
  cbv zeta. case_match; [|by apply Hw]. case_match; by apply Hw.
Qed.

Lemma choose_sample_ok h w : inv h w -> inv h (choose_sample w).2 /\ same_fields w (choose_sample w).2.
Proof.
  intros I. unfold choose_sample. case_match; [done|]. cbn. split; [|done].
  eapply inv_same; [exact I|done|apply I|apply I|]. cbn. apply xorshift64_nonneg, I.
Qed.

Lemma sample_time_ok h w b : inv h w -> inv h (sample_time b w).2 /\ same_fields w (sample_time b w).2.
Proof.
  intros I. unfold sample_time. destruct b; [|done]. case_match; [|done]. cbn. split; [|done].
  by eapply inv_same_all.
Qed.

(** ** Slots *)

Lemma get_slot_ok h w : inv h w ->
  let '(i, w') := get_slot w in
  inv (match i with Some i => i :: h | None => h end) w' /\ quiet w w' /\
  (counted exact 0 w -> counted exact 0 w').
Proof.
  intros I. unfold get_slot. destruct (others_ok h 0 w I ltac:(lia)) as (I' & Q & Hc).
  generalize dependent (others w). intros w1 I' Q Hc. pose proof I' as []. destruct iv_pool0 as (free & C & P).
  pose proof (io_ctx_pool_get_spec _ _ C) as G. destruct (io_ctx_pool_get (w_pool w1)) as [[k|] p].
  - destruct G as (r & -> & C' & Hn). split; [|split].
    + split; cbn; try done; [by rewrite Hn|]. exists r. split; [done|].
      rewrite <- P. change (k :: h ++ slots_out w1 ++ r ≡ₚ h ++ slots_out w1 ++ k :: r).
      by rewrite <- Permutation_middle, <- Permutation_middle.
    + by destruct Q; split.
    + done.
  - destruct G as [-> ->]. split; [|split]; [by destruct I'; split|by destruct Q; split|done].
Qed.

Lemma set_slot_ok h i c w : inv h w -> inv h (set_slot i c w) /\ same_fields w (set_slot i c w).
Proof.
  intros I. assert (same_fields w (set_slot i c w)) as S by (unfold same_fields; cbn; rewrite length_insert; done).
  split; [|done]. by eapply inv_same_all.
Qed.

(** [submit], up to what it adds to the requests: local state is left alone. *)
Record stays (w w' : thread_ctx_t) : Prop := {
  sy_config : config w' = config w;
  sy_shape : shape w' = shape w;
  sy_total : total_bytes w' = total_bytes w;
  sy_asks : (asks w <= asks w')%nat
}.

Lemma quiet_stays w w' : quiet w w' -> stays w w'.
Proof. intros []. split; tauto. Qed.

Lemma stays_trans w1 w2 w3 : stays w1 w2 -> stays w2 w3 -> stays w1 w3.
Proof. intros [] []. split; congruence || lia. Qed.

Lemma op_ok_stays w w' o : stays w w' -> op_ok w o -> op_ok w' o.
Proof. intros [E1 E2 _ _]. unfold shape in E2. injection E2 as E2 E3 _. unfold op_ok. by rewrite E1, E2, E3. Qed.

(** The bytes of the requests accepted so far. *)
Definition requested (w : thread_ctx_t) : Z := zsum (o_len <$> accepted w).

Lemma requested_quiet w w' : quiet w w' -> requested w' = requested w.
Proof. intros []. unfold requested. by destruct qt_count0 as [-> _]. Qed.

Lemma job_submit_ok h o usable w : inv (o_slot o :: h) w -> op_ok w o ->
  let '(ok, w') := submit o usable w in
  inv h w' /\ stays w w' /\ (counted exact 0 w -> counted exact 0 w') /\
  requested w' = requested w + (if ok then o_len o else 0).
Proof.
  intros I Ho. pose proof (inv_bound _ _ I) as Hb. cbn in Hb. pose proof (iv_depth _ _ I) as Hd.
  assert (0 <= zlen (outstanding w)) as H0 by (unfold zlen; lia).
  destruct (set_inflight_ok _ 1 0 w I) as (I1 & Q1 & C1); [unfold zlen in *; lia|]. unfold submit. cbv zeta.
  pose proof (op_ok_stays _ _ _ (quiet_stays _ _ Q1) Ho) as Ho1. pose proof (requested_quiet _ _ Q1) as R1.
  generalize dependent (set_inflight 1 w). intros w1 I1 Q1 C1 Ho1 R1.
  destruct (usable && ask_submit (asks w1)).
  - split; [|split; [|split]].
    + destruct I1. destruct iv_pool0 as (free & C & P). split; cbn; try done.
      * exists free. split; [done|]. rewrite <- P. symmetry. apply in_hand.
        rewrite fmap_app. cbn. symmetry. apply Permutation_cons_append.
      * apply Forall_app. split; [done|]. by constructor.
    + eapply stays_trans; [by apply quiet_stays|]. split; try done; cbn; lia.
    + intros Hc Hx. cbn. rewrite (C1 Hc Hx). unfold zlen. rewrite length_app. cbn. lia.
    + rewrite <- R1. unfold requested. cbn. rewrite fmap_app, zsum_app. cbn. lia.
  - pose proof (asked_ok _ _ I1) as I2. pose proof (quiet_chain _ _ _ Q1 (asked_quiet w1)) as Q2.
    pose proof (qt_length _ _ Q2) as Hl.
    destruct (set_inflight_ok _ (-1) 1 (asked w1) I2) as (I3 & Q3 & C3); [unfold zlen in *; lia|].
    pose proof (quiet_chain _ _ _ Q2 Q3) as Q. split; [|split; [|split]].
    + by apply put_slot_ok.
    + eapply stays_trans; [by apply quiet_stays|]. done.
    + intros Hc. eapply counted_same; [apply (C3)|done|done]. eapply counted_same; [by apply C1|done|done].
    + rewrite Z.add_0_r, <- (requested_quiet _ _ Q). done.
Qed.

Lemma periodic_fsync_ok h fd b w : inv h w ->
  inv h (periodic_fsync fd b w) /\ stays w (periodic_fsync fd b w) /\
  (counted exact 0 w -> counted exact 0 (periodic_fsync fd b w)) /\
  requested (periodic_fsync fd b w) = requested w.
Proof.
  intros I. unfold periodic_fsync. cbv zeta. case_match; [|done].
  case_match; [|split; [by eapply inv_same_all|done]].
  match goal with |- context [get_slot ?x] => set (w1 := x) end.
  assert (inv h w1 /\ stays w w1 /\ requested w1 = requested w /\ (counted exact 0 w -> counted exact 0 w1))
    as (I1 & S1 & R1 & C1) by (split; [by eapply inv_same_all|done]).
  clearbody w1. pose proof (get_slot_ok h w1 I1) as Hg. destruct (get_slot w1) as [[i|] w2]; destruct Hg as (I2 & Q2 & C2).
  2: { split_and!; [done|eapply stays_trans; [done|by apply quiet_stays]|auto|].
       by rewrite (requested_quiet _ _ Q2). }
  match goal with |- context [set_slot i ?c w2] => destruct (set_slot_ok _ i c w2 I2) as [I3 _];
    assert (stays w2 (set_slot i c w2) /\ (counted exact 0 w2 -> counted exact 0 (set_slot i c w2)) /\
      requested (set_slot i c w2) = requested w2) as (S3 & C3 & R3) by done;
    generalize dependent (set_slot i c w2) end. intros w3 I3 S3 C3 R3.
  match goal with |- context [submit ?o true w3] => pose proof (job_submit_ok h o true w3 I3) as Hs;
    destruct (submit o true w3) as [ok w4] end.
  destruct Hs as (I4 & S4 & C4 & R4); [by left|]. cbn [snd].
  split_and!; [done| |auto|].
  - eapply stays_trans; [exact S1|]. eapply stays_trans; [by apply quiet_stays|]. by eapply stays_trans.
  - rewrite R4, R3, (requested_quiet _ _ Q2), R1. cbn [o_len]. destruct ok; lia.
Qed.

(** ** One request *)

Lemma requested_same w w' : same_fields w w' -> requested w' = requested w.
Proof. intros S. unfold requested. by destruct S as (_ & _ & _ & _ & _ & _ & _ & _ & -> & _). Qed.

Lemma counted_fields d w w' : same_fields w w' -> counted exact d w -> counted exact d w'.
Proof. intros (_ & _ & _ & _ & _ & _ & E1 & E2 & _) Hc. by eapply counted_same. Qed.

(** Everything between taking a slot and submitting. *)
Lemma choices_ok h w : inv h w ->
  let '(file_idx, w1) := select_file w in
  let '(offset, w2) := next_offset file_idx w1 in
  let '(do_write, w3) := choose_write w2 in
  let '(do_sample, w4) := choose_sample (recalibrate w3) in
  let '(t, w5) := sample_time do_sample w4 in
  inv h w5 /\ same_fields w w5 /\ 0 <= file_idx < w_nrfiles w /\ 0 <= offset /\
  offset + bs (config w) <= per_file_size w.
Proof.
  intros I1. pose proof (select_file_ok _ _ I1) as (I2 & B2 & S2). destruct (select_file w) as [file w2]. cbn [fst snd] in *.
  assert (config w2 = config w /\ w_nrfiles w2 = w_nrfiles w /\ per_file_size w2 = per_file_size w) as (Ec & En & Ep)
    by (unfold same_fields in S2; tauto).
  rewrite <- En in B2. pose proof (next_offset_ok _ _ _ I2 B2) as (I3 & S3 & O3). rewrite Ec, Ep in O3.
  destruct (next_offset file w2) as [offset w3]. cbn [fst snd] in *.
  pose proof (choose_write_ok _ _ I3) as (I4 & S4). destruct (choose_write w3) as [do_write w4]. cbn [fst snd] in *.
  pose proof (recalibrate_ok _ _ I4) as (I5 & S5).
  pose proof (choose_sample_ok _ _ I5) as (I6 & S6). destruct (choose_sample (recalibrate w4)) as [do_sample w6]. cbn [fst snd] in *.
  pose proof (sample_time_ok _ _ do_sample I6) as (I7 & S7). destruct (sample_time do_sample w6) as [t w7]. cbn [fst snd] in *.
  rewrite En in B2. split_and!; try tauto; try lia.
  do 5 (eapply same_trans; [eassumption|]). eassumption.
Qed.

(** What the worker keeps true between two turns. *)
Variable dims : Z * Z * Z.

Record good (cfg : job_config_t) (w : thread_ctx_t) : Prop := {
  gd_config : config w = cfg;
  gd_shape : shape w = dims;
  gd_inv : inv [] w;
  gd_counted : counted exact 0 w;
  gd_total : total_bytes w = u64 (requested w)
}.

Lemma good_same cfg w w' : good cfg w -> same_fields w w' -> seq_offsets w' = seq_offsets w ->
  current_file_idx w' = current_file_idx w -> rng w' = rng w -> good cfg w'.
Proof.
  intros [C D I N T] S E1 E2 E3.
  split; [destruct S; congruence|unfold shape, same_fields in *; destruct_and!; congruence|by eapply inv_same_all|by eapply counted_fields|].
  rewrite (requested_same _ _ S), <- T. apply S.
Qed.

Lemma good_quiet cfg w w' : good cfg w -> quiet w w' -> inv [] w' -> counted exact 0 w' -> good cfg w'.
Proof.
  intros [C D I N T] Q I' N'. pose proof (requested_quiet _ _ Q). destruct Q as [Q1 Q2 _ _ _ [_ Q3] _ _ _].
  split; congruence || done.
Qed.

Lemma good_others cfg w : good cfg w -> good cfg (others w).
Proof.
  intros G. destruct (others_ok [] 0 w (gd_inv _ _ G)) as (I & Q & N); [lia|].
  eapply good_quiet; [done|done|done|apply N, G].
Qed.

(** The requests accepted are those of [w] and one of [n] bytes more. *)
Definition asks_for (n : Z) (w w' : thread_ctx_t) : Prop :=
  inv [] w' /\ counted exact 0 w' /\ config w' = config w /\ shape w' = shape w /\
  total_bytes w' = total_bytes w /\ requested w' = requested w + n.

Lemma good_asks_for cfg w w' : good cfg w -> asks_for 0 w w' -> good cfg w'.
Proof.
  intros [C D I N T] (I' & N' & E1 & E2 & E3 & E4). split; [congruence|congruence|done|done|].
  rewrite E3, E4, T. f_equal. lia.
Qed.

(** Filling the slot in hand and submitting a request within a file. *)
Lemma place_ok w5 i c o usable : inv [i] w5 -> counted exact 0 w5 -> o_slot o = i ->
  op_ok w5 o -> asks_for (if (submit o usable (set_slot i c w5)).1 then o_len o else 0) w5
                  (submit o usable (set_slot i c w5)).2.
Proof.
  intros I5 N5 Ei Ho. destruct (set_slot_ok _ i c w5 I5) as [I6 S6].
  pose proof (job_submit_ok [] o usable (set_slot i c w5)) as Hs. rewrite Ei in Hs.
  specialize (Hs I6 Ho). destruct (submit o usable (set_slot i c w5)) as [ok w7].
  destruct Hs as (I7 & [E1 E2 E3 _] & N7 & R7). cbn [fst snd]. unfold asks_for. split_and!; try done.
  apply N7. by eapply counted_fields.
Qed.

Lemma submit_one_ok cfg w : good cfg w ->
  good cfg (submit_one w).2 /\
  total_bytes (submit_one w).2 = if (submit_one w).1 then u64 (total_bytes w + bs cfg) else total_bytes w.
Proof.
  intros G. pose proof G as [C D I N T]. unfold submit_one. pose proof (get_slot_ok [] w I) as Hg.
  destruct (get_slot w) as [[i|] w0]; destruct Hg as (I0 & Q0 & N0); specialize (N0 N).
  2: { cbn [fst snd]. split; [by eapply good_quiet|apply Q0]. }
  assert (config w0 = cfg /\ total_bytes w0 = total_bytes w /\ requested w0 = requested w /\ shape w0 = dims) as (C0 & T0 & R0 & D0).
  { rewrite (requested_quiet _ _ Q0), (qt_config _ _ Q0), (qt_shape _ _ Q0). by destruct (qt_count _ _ Q0) as [_ ->]. }
  pose proof (choices_ok _ _ I0) as H0.
  destruct (select_file w0) as [file w1], (next_offset file w1) as [offset w2], (choose_write w2) as [do_write w3],
    (choose_sample (recalibrate w3)) as [do_sample w4], (sample_time do_sample w4) as [t w5].
  destruct H0 as (I5 & S5 & B5 & O5 & O5'). pose proof (requested_same _ _ S5) as R5.
  pose proof (counted_fields _ _ _ S5 N0) as N5.
  assert (config w5 = cfg /\ total_bytes w5 = total_bytes w /\ w_nrfiles w5 = w_nrfiles w0 /\
    per_file_size w5 = per_file_size w0 /\ shape w5 = dims) as (C5 & T5 & F5 & P5 & D5).
  { unfold shape, same_fields in *. destruct_and!. split_and!; congruence. }
  change (config (set_slot i _ w5)) with (config w5). rewrite ?C5.
  match goal with |- context [submit ?o ?u (set_slot i ?c w5)] =>
    pose proof (place_ok w5 i c o u I5 N5 eq_refl) as Hp; destruct (submit o u (set_slot i c w5)) as [ok w7] end.
  cbn [fst snd o_len] in *. destruct Hp as (I7 & N7 & C7 & D7 & T7 & R7).
  { right. cbn. rewrite C5, F5, P5. rewrite C0 in O5'. split_and!; try lia; done. }
  destruct ok; cbn [fst snd].
  2: { split; [|congruence]. split; [congruence|congruence|done|done|]. rewrite T7, R7, T5, R5, R0, T. f_equal. lia. }
  match goal with |- context [w7 <| total_bytes := ?v |>] => set (w8 := w7 <| total_bytes := v |>) end.
  assert (inv [] w8 /\ counted exact 0 w8) as [I8 N8] by (split; [destruct I7; split; done|done]).
  assert (total_bytes w8 = u64 (total_bytes w + bs cfg) /\ config w8 = cfg /\ requested w8 = requested w7 /\ shape w8 = dims)
    as (T8 & C8 & R8 & D8).
  { subst w8. cbn. rewrite T7, T5. rewrite ?C7, ?C5. split_and!; [done..|]. transitivity (shape w7); [done|congruence]. }
  clearbody w8.
  assert (good cfg w8) as G8.
  { split; try done. rewrite T8, R8, R7, R5, R0, T. unfold u64, wrap_u. apply Zplus_mod_idemp_l. }
  destruct do_write; [|done].
  destruct (periodic_fsync_ok [] (Z.to_nat file) do_sample w8 I8) as (I9 & [E1 E2 E3 _] & N9 & R9).
  split; [|congruence]. eapply good_asks_for; [exact G8|]. unfold asks_for. split_and!; auto. lia.
Qed.

(** A run bounded by size: at most one block past the end. *)
Definition size_ok (cfg : job_config_t) (w : thread_ctx_t) : Prop :=
  time_based cfg = 0 -> 0 < per_thread_size w -> per_thread_size w + bs cfg <= SIZE_MAX ->
  0 <= total_bytes w < per_thread_size w + bs cfg.

Lemma per_thread_size_config w w' : config w' = config w -> per_thread_size w' = per_thread_size w.
Proof. unfold per_thread_size. by intros ->. Qed.

Lemma size_ok_same cfg w w' : config w' = config w -> total_bytes w' = total_bytes w ->
  size_ok cfg w -> size_ok cfg w'.
Proof. intros E1 E2 Z. unfold size_ok. by rewrite E2, (per_thread_size_config _ _ E1). Qed.

Lemma size_ok_turn cfg w : good cfg w -> size_ok cfg w -> size_reached w = false -> size_ok cfg (submit_one w).2.
Proof.
  intros G Z E. pose proof (submit_one_ok cfg _ G) as [G2 T2]. destruct (submit_one w) as [ok w2]. cbn [fst snd] in *.
  assert (config w2 = config w) as Ec by (rewrite (gd_config _ _ G2), (gd_config _ _ G); done).
  unfold size_ok in *. rewrite (per_thread_size_config _ _ Ec). intros H1 H2 H3. specialize (Z H1 H2 H3).
  destruct ok; [|rewrite T2; exact Z]. rewrite T2.
  pose proof (iv_bs _ _ (gd_inv _ _ G)) as Hb. rewrite (gd_config _ _ G) in Hb.
  unfold size_reached in E. rewrite (gd_config _ _ G), H1, Z.eqb_refl in E.
  rewrite (proj2 (Z.ltb_lt _ _) H2) in E. cbn in E. apply Z.leb_gt in E.
  rewrite u64_id by lia. lia.
Qed.

Lemma submit_loop_ok cfg fuel : forall w w', good cfg w -> size_ok cfg w ->
  submit_loop fuel w = Some w' -> good cfg w' /\ size_ok cfg w'.
Proof.
  induction fuel as [|fuel IH]; intros w0 w' G0 Z0; cbn [submit_loop]; [done|]. cbv zeta.
  pose proof (good_others cfg w0 G0) as G.
  assert (size_ok cfg (others w0)) as Z.
  { destruct (others_ok [] 0 w0 (gd_inv _ _ G0)) as (_ & Q & _); [lia|].
    eapply size_ok_same; [apply Q|apply Q|done]. }
  generalize dependent (others w0). clear w0 G0 Z0. intros w G Z.
  case_match; [|by intros [= <-]].
  assert (good cfg (asked w)) as G1 by by eapply good_same.
  destruct (negb _ || size_reached (asked w)) eqn:E; [by intros [= <-]|]. apply orb_false_iff in E as [_ E].
  pose proof (submit_one_ok cfg _ G1) as [G2 _]. pose proof (size_ok_turn cfg _ G1 Z E) as Z2.
  destruct (submit_one (asked w)) as [ok w2]. cbn [fst snd] in *. destruct ok; [by apply IH|by intros [= <-]].
Qed.

(** ** Completions *)

Definition calm (w w' : thread_ctx_t) : Prop :=
  same_fields w w' /\ seq_offsets w' = seq_offsets w /\ current_file_idx w' = current_file_idx w /\ rng w' = rng w.

Lemma record_fast_inflight d s s' : stats_record_io_fast d s = Some s' -> inflight s' = inflight s.
Proof.
  unfold stats_record_io_fast, add_hist, add_bytes, add_ops. intros H0.
  destruct (LAT_HIST_BUCKETS <=? bucket_of (latency_ns d)); [|destruct (bucket_of (latency_ns d) <? 0); [done|]];
    injection H0 as <-; unfold add_count, add_sum, set_max, set_min; repeat case_match; done.
Qed.

Lemma record_completion_calm c n b w w' : record_completion c n b w = Some w' -> calm w w'.
Proof.
  unfold record_completion. cbv zeta. case_match; [by intros [= <-]|]. case_match.
  - destruct (stats_record_io_fast _ _) as [s|] eqn:E; [|done]. simpl. intros [= <-].
    pose proof (record_fast_inflight _ _ _ E) as Ei.
    cbn in Ei |- *. destruct (tls_completion_ns w =? 0); cbn in Ei; unfold calm, same_fields; cbn; split_and!; done.
  - intros [= <-]. unfold stats_record_io_count_fast, add_bytes, add_ops. by destruct b.
Qed.

Lemma count_error_calm r w : calm w (count_error r w).
Proof. unfold count_error. by case_match. Qed.

Lemma calm_trans w1 w2 w3 : calm w1 w2 -> calm w2 w3 -> calm w1 w3.
Proof. unfold calm. intros (S1 & ? & ? & ?) (S2 & ? & ? & ?). split_and!; [by eapply same_trans|congruence..]. Qed.

(** Giving back the slot of a request that was taken off the list. *)
Lemma job_retire_ok cfg w k o w2 : good cfg w -> outstanding w !! k = Some o ->
  calm (w <| outstanding := delete k (outstanding w) |>) w2 ->
  good cfg (put_slot (o_slot o) (set_inflight (-1) w2)) /\
  quiet w2 (put_slot (o_slot o) (set_inflight (-1) w2)).
Proof.
  intros [C D I N T] Hk (S & E1 & E2 & E3). pose proof (inv_delete _ _ _ _ I Hk) as I1.
  set (w1 := w <| outstanding := delete k (outstanding w) |>) in *.
  assert (counted exact 1 w1) as N1.
  { intros Hx. subst w1. cbn. rewrite (N Hx), (zlen_delete _ _ _ Hk). lia. }
  pose proof (inv_same_all _ _ _ I1 S E1 E2 E3) as I2. pose proof (counted_fields _ _ _ S N1) as N2.
  pose proof (inv_bound _ _ I2) as Hb. pose proof (iv_depth _ _ I2) as Hd. cbn in Hb.
  destruct (set_inflight_ok _ (-1) 1 w2 I2) as (I3 & Q3 & N3); [unfold zlen in *; lia|].
  assert (quiet w2 (put_slot (o_slot o) (set_inflight (-1) w2))) as Q4 by (destruct Q3; by split).
  split; [|exact Q4]. pose proof (requested_same _ _ S) as R2. pose proof (requested_quiet _ _ Q4) as R4.
  split.
  - rewrite (qt_config _ _ Q4). transitivity (config w1); [apply S|exact C].
  - rewrite (qt_shape _ _ Q4). transitivity (shape w1); [|exact D]. unfold shape, same_fields in *. destruct_and!. congruence.
  - by apply put_slot_ok.
  - by apply N3.
  - destruct (qt_count _ _ Q4) as [_ ->]. rewrite R4, R2. transitivity (total_bytes w1); [|exact T].
    unfold same_fields in S. by destruct_and!.
Qed.

Lemma complete_ok cfg k r w w' : good cfg w -> complete k r w = Some w' ->
  good cfg w' /\ total_bytes w' = total_bytes w /\
  (length (outstanding w') <= length (outstanding w) - (if decide (k < length (outstanding w)) then 1 else 0))%nat.
Proof.
  intros G. unfold complete. destruct (outstanding w !! k) as [o|] eqn:Hk.
  2: { intros [= <-]. apply lookup_ge_None in Hk. rewrite decide_False by lia. split_and!; done || lia. }
  pose proof (lookup_lt_Some _ _ _ Hk) as Hl. rewrite decide_True by done. cbv zeta.
  set (w1 := w <| outstanding := delete k (outstanding w) |>). intros E.
  assert (exists w2, calm w1 w2 /\ w' = put_slot (o_slot o) (set_inflight (-1) w2)) as (w2 & S & ->).
  { destruct (o_fsync o); unfold fsync_callback, io_callback in E.
    - destruct (record_completion _ _ _ w1) as [w2|] eqn:Er; [|done]. simpl in E. injection E as <-.
      exists (count_error r w2). split; [|done]. eapply calm_trans; [by eapply record_completion_calm|apply count_error_calm].
    - destruct (record_completion _ _ _ w1) as [w2|] eqn:Er; [|done]. simpl in E. injection E as <-.
      exists (count_error r w2). split; [|done]. eapply calm_trans; [by eapply record_completion_calm|apply count_error_calm]. }
  destruct (job_retire_ok cfg w k o w2 G Hk S) as [G' Q]. split; [done|].
  destruct S as ((_ & _ & _ & _ & _ & _ & _ & So & _ & St & _) & _).
  destruct (qt_count _ _ Q) as [_ ->]. split; [exact St|].
  pose proof (qt_length _ _ Q) as Ll. rewrite So in Ll. change (outstanding w1) with (delete k (outstanding w)) in Ll.
  rewrite length_delete in Ll by by eexists. lia.
Qed.

Lemma elsewhere_good cfg w e : (exact -> present e) -> good cfg w -> good cfg (elsewhere w e).
Proof.
  intros Hp G. eapply good_quiet; [done|apply elsewhere_quiet|apply elsewhere_inv, G|].
  eapply elsewhere_counted; [apply G|lia|done|apply G].
Qed.

Lemma theirs_calm b w : calm w (complete_theirs b w).
Proof. unfold complete_theirs. cbv zeta. by case_match. Qed.

Definition present_d (d : delivery_t) : Prop := match d with Elsewhere e => present e | _ => True end.

(** A callback of this poll, or what happens meanwhile. *)
Lemma deliver_ok cfg d w w' : (exact -> present_d d) -> good cfg w -> deliver d w = Some w' ->
  good cfg w' /\ total_bytes w' = total_bytes w /\ (length (outstanding w') <= length (outstanding w))%nat.
Proof.
  intros Hp G. destruct d as [k r|b|e]; cbn [deliver].
  - intros E. destruct (complete_ok _ _ _ _ _ G E) as (G' & T & L). split_and!; [done|done|lia].
  - intros [= <-]. destruct (theirs_calm b w) as (S & E1 & E2 & E3). split; [by eapply good_same|].
    destruct S as (_ & _ & _ & _ & _ & _ & _ & So & _ & St & _). split; [done|]. by rewrite So.
  - intros [= <-]. pose proof (elsewhere_quiet w e) as Q. split; [by apply elsewhere_good|].
    split; [apply Q|by apply qt_length].
Qed.

(** ** Loops *)

Definition fine (cfg : job_config_t) (w : thread_ctx_t) : Prop := good cfg w /\ size_ok cfg w.

Lemma fine_deliver_all cfg l : forall w w', (exact -> Forall present_d l) -> fine cfg w ->
  deliver_all l w = Some w' -> fine cfg w' /\ (length (outstanding w') <= length (outstanding w))%nat.
Proof.
  induction l as [|d l IH]; intros w w' Hp [G Z]; cbn [deliver_all]; [by intros [= <-]|].
  destruct (deliver d w) as [w1|] eqn:E; [|done]. simpl. intros E'.
  destruct (deliver_ok cfg d w w1) as (G1 & T1 & L1); [intros Hx; specialize (Hp Hx); by inversion Hp|done|done|].
  destruct (IH w1 w') as [F' L']; [intros Hx; specialize (Hp Hx); by inversion Hp| |done|split; [done|lia]].
  split; [done|]. eapply size_ok_same; [|exact T1|exact Z]. by rewrite (gd_config _ _ G), (gd_config _ _ G1).
Qed.

Lemma fine_poll cfg w w' : fine cfg w -> poll w = Some w' -> fine cfg w'.
Proof.
  intros [G Z] E. eapply (fine_deliver_all cfg _ ((asked w) <| tls_completion_ns := 0 |>)); [|split|exact E].
  - intros Hx. apply Hx.
  - by eapply good_same.
  - done.
Qed.

Lemma fine_submit_loop cfg fuel w w' : fine cfg w -> submit_loop fuel w = Some w' -> fine cfg w'.
Proof. intros [G Z]. by apply submit_loop_ok. Qed.

Lemma fine_turn cfg fuel w go w' : fine cfg w -> main_turn fuel w = Some (go, w') -> fine cfg w'.
Proof.
  intros [G Z]. unfold main_turn. cbv zeta. case_match; [intros [= <- <-]; split; [by eapply good_same|done]|].
  destruct (submit_loop _ _) as [w1|] eqn:E1; [|done]. simpl.
  destruct (poll w1) as [w2|] eqn:E2; [|done]. simpl. intros [= <- <-].
  eapply fine_poll; [|exact E2]. eapply fine_submit_loop; [|exact E1]. split; [by eapply good_same|done].
Qed.

(** The first turns of the main loop. *)
Fixpoint turns (fuel n : nat) (w : thread_ctx_t) : option thread_ctx_t :=
  match n with
  | O => Some w
  | S n => '(go, w) ← main_turn fuel w; if go : bool then turns fuel n w else Some w
  end.

Lemma fine_turns cfg fuel n : forall w w', fine cfg w -> turns fuel n w = Some w' -> fine cfg w'.
Proof.
  induction n as [|n IH]; intros w w' F; cbn [turns]; [by intros [= <-]|].
  destruct (main_turn fuel w) as [[go w1]|] eqn:E; [|done]. simpl. pose proof (fine_turn _ _ _ _ _ F E) as F1.
  destruct go; [by apply IH|by intros [= <-]].
Qed.

(** *** The start *)

(** A thread of a run whose files hold at least a block. *)
Definition startable (cfg : job_config_t) (i num_threads fd_count pfs depth : Z) : Prop :=
  1 <= bs cfg <= pfs /\ pfs + bs cfg <= SIZE_MAX /\ 1 <= fd_count <= INT_MAX /\ 1 <= depth <= INT_MAX /\
  0 <= i < num_threads.

Lemma init_inv cfg i n fds pfs depth bufs reg tid nsec :
  startable cfg i n fds pfs depth -> 0 <= nsec ->
  inv [] (start_worker tid nsec (init_thread cfg i n fds pfs depth bufs reg)).
Proof.
  intros (Hb & Hs & Hf & Hd & Hi) Hn.
  assert (0 <= start_offset cfg i n pfs <= pfs) as Ho.
  { unfold start_offset. assert (0 <= i * (pfs / n) <= pfs) as Hp.
    { assert (0 <= pfs / n) by (apply Z.div_pos; lia). pose proof (Z.mul_div_le pfs n ltac:(lia)). nia. }
    rewrite u64_id by lia. pose proof (align_down_le (i * (pfs / n)) (bs cfg) ltac:(lia)). lia. }
  assert (0 <= (if Z.lxor (u64 ((tid + 1) * 2654435761)) nsec =? 0 then 1
    else Z.lxor (u64 ((tid + 1) * 2654435761)) nsec)) as Hr.
  { case_match; [lia|]. apply lxor_nonneg; [apply u64_range|done]. }
  split; try done.
  - split; cbn; [unfold zlen; rewrite length_replicate; lia|]. by apply Forall_replicate.
  - cbn. apply Z.rem_bound_pos; lia.
  - cbn. unfold init_slots. by rewrite !length_fmap, !length_seq.
  - cbn. exists (rev (seq 0 (Z.to_nat depth))). split; [by apply init_chain|]. symmetry. apply Permutation_rev.
Qed.
End Steps.

Lemma init_fine `{LoadEnv} cfg i n fds pfs depth bufs reg tid nsec :
  startable cfg i n fds pfs depth -> 0 <= nsec ->
  fine (fds, pfs, depth) cfg (start_worker tid nsec (init_thread cfg i n fds pfs depth bufs reg)).
Proof.
  intros Hs Hn. split; [split; [done|done|by eapply init_inv|by intros Hx|done]|]. unfold size_ok. cbn. destruct Hs. lia.
Qed.

(** C31. When each file holds at least one block (the program does not check it,
    see [block_beyond_file]), with at least one file, a depth of at least 1, and a
    file and a block together below 2^64 bytes ([startable]), then after any number of turns of the main
    loop of a worker, whatever the other workers do meanwhile: every data request
    the library accepted has the block size and lies inside its file; the requests
    in flight and those whose slot another worker is about to give back use
    distinct slots, so there are never more than the depth in flight; [inflight]
    is their number unless an update of it was lost to another worker's; and a run
    bounded by size asks for less than one block more than its share. Each of
    these turns has ended: none recorded a latency of more than 29 hours, for
    which the code writes in front of its histogram. *)
Theorem requests_stay_in_file `{LoadEnv} cfg i n fds pfs depth bufs reg tid nsec fuel k w :
  startable cfg i n fds pfs depth -> 0 <= nsec ->
  turns fuel k (start_worker tid nsec (init_thread cfg i n fds pfs depth bufs reg)) = Some w ->
  Forall (fun o => o_fsync o = true \/
    o_len o = bs cfg /\ (o_file o < Z.to_nat fds)%nat /\ 0 <= o_offset o /\ o_offset o + bs cfg <= pfs) (accepted w) /\
  NoDup ((o_slot <$> outstanding w) ++ returning w) /\ zlen (outstanding w) <= depth /\
  (exact -> inflight (stats w) = zlen (outstanding w)) /\
  (time_based cfg = 0 -> 0 < per_thread_size w -> per_thread_size w + bs cfg <= SIZE_MAX ->
   u64 (requested w) < per_thread_size w + bs cfg).
Proof.
  intros Hs Hn Ht. pose proof (fine_turns _ _ _ _ _ _ (init_fine _ _ _ _ _ _ _ _ _ _ Hs Hn) Ht) as [[C D I N T] Z].
  unfold shape in D. injection D as D1 D2 D3. split_and!.
  - eapply Forall_impl; [apply I|]. intros o [Ho|(H1 & H2 & H3 & H4)]; [by left|right].
    rewrite D1 in H4. rewrite D2, H3, C in H2. rewrite C in H3. done.
  - destruct (iv_pool _ _ I) as (free & _ & P). pose proof (NoDup_seq 0 (Z.to_nat (effective_depth w))) as Nd.
    rewrite <- P in Nd. cbn in Nd. by apply NoDup_app in Nd as (Nd & _).
  - pose proof (inv_bound _ _ I). cbn in *. lia.
  - intros Hx. rewrite (N Hx). lia.
  - intros H1 H2 H3. rewrite <- T. by apply Z.
Qed.

(** Two polls: requests of a mixed random job on two files, the first completed
    out of order; the second poll also runs a callback of another worker, which
    has taken a request of this one and gives its slot back before the next turn. *)
Definition demo_load : LoadEnv := {|
  ask_clock n := 1000 + 100 * Z.of_nat n; ask_running _ := true; ask_ramping _ := false; ask_submit _ := true;
  ask_poll _ := [Mine 0 4096; Theirs true; Mine 1 (-5); Elsewhere (Completes 0 stats_init None)];
  ask_others _ := [Returns 0]; ask_between _ := [] |}.
Definition demo_job : job_config_t :=
  job_config_defaults <| rw := RW_RANDRW |> <| rw_set := true |> <| j_size := 81920 |> <| iodepth := 4 |> <| fsync_freq := 2 |>.

Lemma requests_stay_in_file_witness :
  exists w, @turns demo_load 9 2 (@start_worker demo_load 0 77 (init_thread demo_job 0 1 2 40960 4 (fun s => 4096 * Z.of_nat (S s)) false)) = Some w /\
    (4 <= length (accepted w))%nat /\
    Forall (fun o => o_fsync o = true \/
      o_len o = 4096 /\ (o_file o < 2)%nat /\ 0 <= o_offset o /\ o_offset o + 4096 <= 40960) (accepted w).
Proof.
  destruct (@turns demo_load 9 2 (@start_worker demo_load 0 77 (init_thread demo_job 0 1 2 40960 4 (fun s => 4096 * Z.of_nat (S s)) false)))
    as [w|] eqn:E; [|exfalso; vm_compute in E; discriminate E].
  exists w. split; [reflexivity|]. split.
  - vm_compute in E. injection E as <-. cbn. lia.
  - apply (@requests_stay_in_file demo_load demo_job 0 1 2 40960 4 (fun s => 4096 * Z.of_nat (S s)) false 0 77 9 2 w); [|lia|exact E].
    unfold startable, SIZE_MAX, INT_MAX. cbn. lia.
Defined.

(** With a block larger than the file, every request goes past its end. *)
Example block_beyond_file :
  let small := job_config_defaults <| rw := RW_READ |> <| j_size := 4096 |> <| bs := 8192 |> <| iodepth := 1 |> in
  exists w, @turns demo_load 9 1 (@start_worker demo_load 0 77 (init_thread small 0 1 1 4096 1 (fun _ => 4096) false)) = Some w /\
    (fun o => (o_offset o, o_len o)) <$> accepted w = [(0, 8192)] /\ per_file_size w = 4096.
Proof. eexists. split; [vm_compute; reflexivity|]. vm_compute. done. Qed.

(** Another worker that completes a request between the load and the store of an
    update of [inflight]: its decrement is lost, and the count stays above the
    number of requests in flight. *)
Definition racing : LoadEnv := {|
  ask_clock n := 1000 + 100 * Z.of_nat n; ask_running _ := true; ask_ramping _ := false; ask_submit _ := true;
  ask_poll _ := []; ask_others _ := [Returns 0];
  ask_between n := if (n <? 20)%nat then [Completes 0 stats_init None] else [] |}.

Example update_lost :
  exists w, @turns racing 9 1 (@start_worker racing 0 77 (init_thread demo_job 0 1 2 40960 4 (fun s => 4096 * Z.of_nat (S s)) true)) = Some w /\
    inflight (stats w) = 4 /\ zlen (outstanding w) = 1.
Proof. eexists. split; [vm_compute; reflexivity|]. vm_compute. done. Qed.
