(* ===== verification/BenchLoadRun.v ===== *)
(** * The worker comes to its end

    The time stamps of the requests in flight, which keep every latency inside the
    histogram; that no turn of the main loop gets stuck; and that the worker, once
    told to stop, waits for what it has in flight and returns every slot. Also what
    the periodic [fsync] does to the slots it borrows. *)
From Stdlib Require Import ZArith Lia List.
From stdpp Require Import base tactics list.
From S2P Require Import Prelude Double BenchStats BenchStatsSpec BenchJobs BenchPool BenchLoad BenchLoadSpec.

#[local] Open Scope Z_scope.
#[local] Arguments u64 : simpl never.
#[local] Arguments aget : simpl never.
#[local] Arguments aset : simpl never.
#[local] Arguments i32 : simpl never.
#[local] Arguments xorshift64 : simpl never.

Section Run.
Context `{LoadEnv}.
Variable dims : Z * Z * Z.

(** The clock is monotonic, and the run takes less than [10^14] nanoseconds
    (27 hours). *)
Hypothesis clock_monotonic : forall m n, (m <= n)%nat -> ask_clock m <= ask_clock n.
Hypothesis clock_range : forall n, 1 <= ask_clock 0 /\ ask_clock n <= ask_clock 0 + 100000000000000 /\ ask_clock n <= SIZE_MAX.

(** ** Time stamps *)

(** 0, or a reading of the clock before question [k]. *)
Definition stamp_ok (k : nat) (t : Z) : Prop := t = 0 \/ exists j, (j <= k)%nat /\ t = ask_clock j.

Lemma stamp_mono k k' t : (k <= k')%nat -> stamp_ok k t -> stamp_ok k' t.
Proof. intros Hk [->|(j & Hj & ->)]; [by left|right]. exists j. split; [lia|done]. Qed.

Definition stamp_of (w : thread_ctx_t) (o : op_t) : Z := submit_time_ns (slot_at w (o_slot o)).

Record stamped (w : thread_ctx_t) : Prop := {
  sp_ops : Forall (fun o => stamp_ok (asks w) (stamp_of w o)) (outstanding w);
  sp_batch : stamp_ok (asks w) (batch_submit_ns w)
}.

(** Steps that leave the slots alone and at most take requests away. *)
Definition still (w w' : thread_ctx_t) : Prop :=
  slots w' = slots w /\ (forall o, o ∈ outstanding w' -> o ∈ outstanding w) /\ (asks w <= asks w')%nat.

Lemma still_trans w1 w2 w3 : still w1 w2 -> still w2 w3 -> still w1 w3.
Proof. unfold still. intros (? & ? & ?) (? & ? & ?). split_and!; [congruence|auto|lia]. Qed.

Lemma quiet_still w w' : quiet w w' -> still w w' /\ batch_submit_ns w' = batch_submit_ns w.
Proof.
  intros Q. split; [split_and!; apply Q|]. pose proof (qt_times _ _ Q) as E. by injection E.
Qed.

(** What holds of the requests in flight holds of fewer of them. *)
Lemma still_forall w w' (P : op_t -> Z -> Prop) : still w w' ->
  Forall (fun o => P o (stamp_of w o)) (outstanding w) -> Forall (fun o => P o (stamp_of w' o)) (outstanding w').
Proof.
  intros (E1 & E2 & _) F. rewrite Forall_forall in *. intros o Ho. unfold stamp_of, slot_at in *. rewrite E1. auto.
Qed.

Lemma stamped_still w w' : stamped w -> still w w' -> batch_submit_ns w' = batch_submit_ns w -> stamped w'.
Proof.
  intros [S B] St E4. pose proof St as (_ & _ & E3). split.
  - apply (still_forall w w' (fun _ t => stamp_ok (asks w') t)); [done|].
    eapply Forall_impl; [exact S|]. intros o Ho. by eapply stamp_mono.
  - rewrite E4. by eapply stamp_mono.
Qed.

Lemma stamped_quiet w w' : stamped w -> quiet w w' -> stamped w'.
Proof. intros S Q. destruct (quiet_still _ _ Q). by eapply stamped_still. Qed.

Lemma choices_still w :
  let '(file_idx, w1) := select_file w in
  let '(offset, w2) := next_offset file_idx w1 in
  let '(do_write, w3) := choose_write w2 in
  let '(do_sample, w4) := choose_sample (recalibrate w3) in
  still w w4 /\ batch_submit_ns w4 = batch_submit_ns w.
Proof.
  assert (forall w, still w (select_file w).2 /\ batch_submit_ns (select_file w).2 = batch_submit_ns w) as H1
    by (intros w1; unfold select_file; repeat case_match; done).
  assert (forall i w, still w (next_offset i w).2 /\ batch_submit_ns (next_offset i w).2 = batch_submit_ns w) as H2
    by (intros i w1; unfold next_offset; repeat case_match; done).
  assert (forall w, still w (choose_write w).2 /\ batch_submit_ns (choose_write w).2 = batch_submit_ns w) as H3
    by (intros w1; unfold choose_write; repeat case_match; done).
  assert (forall w, still w (recalibrate w) /\ batch_submit_ns (recalibrate w) = batch_submit_ns w) as H4.
  { intros w1. unfold recalibrate, still. cbv zeta. repeat case_match; cbn; split_and!; try done; lia. }
  assert (forall w, still w (choose_sample w).2 /\ batch_submit_ns (choose_sample w).2 = batch_submit_ns w) as H5
    by (intros w1; unfold choose_sample; repeat case_match; done).
  specialize (H1 w). destruct (select_file w) as [file w1]. cbn [snd] in *. destruct H1 as [S1 B1].
  specialize (H2 file w1). destruct (next_offset file w1) as [offset w2]. cbn [snd] in *. destruct H2 as [S2 B2].
  specialize (H3 w2). destruct (choose_write w2) as [do_write w3]. cbn [snd] in *. destruct H3 as [S3 B3].
  destruct (H4 w3) as [S4 B4]. specialize (H5 (recalibrate w3)).
  destruct (choose_sample (recalibrate w3)) as [do_sample w4]. cbn [snd] in *. destruct H5 as [S5 B5].
  split; [|congruence]. do 4 (eapply still_trans; [eassumption|]). eassumption.
Qed.

Lemma sample_time_stamp b w : stamp_ok (asks w) (batch_submit_ns w) ->
  still w (sample_time b w).2 /\ stamp_ok (asks (sample_time b w).2) (sample_time b w).1 /\
  stamp_ok (asks (sample_time b w).2) (batch_submit_ns (sample_time b w).2).
Proof.
  intros B. unfold sample_time. destruct b; [|cbn; split_and!; [done|by left|done]].
  case_match; cbn; [|done]. unfold still. cbn. split_and!; [done|done|lia|right..]; exists (asks w); split; lia || done.
Qed.

(** A slot in the worker's hands carries no request. *)
Lemma stamp_other h w i c o : inv (i :: h) w -> o ∈ outstanding w ->
  stamp_of (set_slot i c w) o = stamp_of w o.
Proof.
  intros I Ho. unfold stamp_of, slot_at. cbn. rewrite list_lookup_insert_ne; [done|]. intros E.
  destruct (iv_pool _ _ I) as (free & _ & P). pose proof (NoDup_seq 0 (Z.to_nat (effective_depth w))) as N.
  rewrite <- P in N. cbn in N. apply NoDup_cons in N as [N _]. apply N. unfold slots_out. rewrite !elem_of_app.
  right; left; left. rewrite E. apply list_elem_of_fmap. by exists o.
Qed.

(** Submitting a request whose slot has been filled. *)
Lemma submit_stamped h w o usable : inv h w -> stamped w -> stamp_ok (asks w) (stamp_of w o) ->
  zlen (outstanding w) + 1 <= INT_MAX -> stamped (submit o usable w).2.
Proof.
  intros I S So Hl. assert (0 <= zlen (outstanding w)) by (unfold zlen; lia).
  destruct (set_inflight_ok h 1 0 w I) as (I1 & Q1 & _); [lia|]. unfold submit. cbv zeta.
  pose proof (stamped_quiet _ _ S Q1) as [S1 B1].
  assert (stamp_ok (asks (set_inflight 1 w)) (stamp_of (set_inflight 1 w) o)) as So1.
  { unfold stamp_of, slot_at in *. rewrite (qt_slots _ _ Q1). eapply stamp_mono; [apply Q1|done]. }
  pose proof (qt_length _ _ Q1) as Hl1. generalize dependent (set_inflight 1 w). intros w1 I1 Q1 S1 B1 So1 Hl1.
  destruct (usable && _); cbn [snd].
  - split; [|eapply stamp_mono; [|exact B1]; cbn; lia]. cbn. apply Forall_app. split.
    + eapply Forall_impl; [exact S1|]. intros x Hx. eapply stamp_mono; [|exact Hx]. lia.
    + constructor; [|done]. eapply stamp_mono; [|exact So1]. lia.
  - assert (stamped (asked w1)) as S2 by (eapply stamped_quiet; [by split|apply asked_quiet]).
    destruct (set_inflight_ok h (-1) 1 (asked w1)) as (_ & Q2 & _); [by apply asked_ok|cbn; unfold zlen in *; lia|].
    pose proof (stamped_quiet _ _ S2 Q2) as S3. by eapply stamped_still.
Qed.

(** Filling a held slot and submitting it. *)
Lemma place_stamped h w c o usable : inv (o_slot o :: h) w -> stamped w -> stamp_ok (asks w) (submit_time_ns c) ->
  stamped (submit o usable (set_slot (o_slot o) c w)).2.
Proof.
  intros I [S B] Hc. pose proof (inv_cap _ _ (o_slot o) I ltac:(left)) as Hi. destruct (iv_len _ _ I) as [_ Hl].
  pose proof (inv_bound _ _ I) as Hb. pose proof (iv_depth _ _ I) as Hd. cbn [length] in Hb.
  eapply submit_stamped; [by apply set_slot_ok| | |cbn; lia].
  - split; [|exact B]. apply Forall_forall. intros x Hx. rewrite (stamp_other _ _ _ _ _ I Hx).
    rewrite Forall_forall in S. by apply S.
  - unfold stamp_of, slot_at. cbn. by rewrite list_lookup_insert_eq by lia.
Qed.

Lemma get_slot_stamped h w : inv h w -> stamped w ->
  let '(i, w') := get_slot w in
  inv (match i with Some i => i :: h | None => h end) w' /\ stamped w' /\ (asks w <= asks w')%nat.
Proof.
  intros I S. pose proof (get_slot_ok h w I) as Hg. destruct (get_slot w) as [i w']. destruct Hg as (I' & Q & _).
  split_and!; [done|by eapply stamped_quiet|apply Q].
Qed.

Lemma periodic_fsync_stamped h fd b w : inv h w -> stamped w -> stamped (periodic_fsync fd b w).
Proof.
  intros I S. unfold periodic_fsync. cbv zeta. case_match; [|done]. case_match; [|by eapply stamped_still].
  match goal with |- context [get_slot ?x] => set (w1 := x) end.
  assert (inv h w1 /\ stamped w1) as [I1 S1] by (split; [by eapply inv_same_all|by eapply stamped_still]).
  pose proof (get_slot_stamped _ _ I1 S1) as Hg. destruct (get_slot w1) as [[i|] w2]; destruct Hg as (I2 & S2 & _); [|done].
  match goal with |- stamped (submit ?o ?u (set_slot i ?c w2)).2 => apply (place_stamped h w2 c o u I2 S2) end.
  cbn. destruct b; [apply S2|by left].
Qed.

Lemma submit_one_stamped h w : inv h w -> stamped w ->
  stamped (submit_one w).2 /\ (asks w <= asks (submit_one w).2)%nat.
Proof.
  intros I S. unfold submit_one. pose proof (get_slot_stamped _ _ I S) as Hg.
  destruct (get_slot w) as [[i|] w0]; destruct Hg as (I0 & S0 & A0); [|done].
  pose proof (choices_ok _ _ I0) as H0. pose proof (choices_still w0) as H1.
  destruct (select_file w0) as [file w1], (next_offset file w1) as [offset w2], (choose_write w2) as [do_write w3],
    (choose_sample (recalibrate w3)) as [do_sample w4].
  destruct H1 as [T4 B4]. pose proof (stamped_still _ _ S0 T4 B4) as S4.
  pose proof (sample_time_stamp do_sample w4 (sp_batch _ S4)) as (T5 & St & Sb).
  destruct (sample_time do_sample w4) as [t w5]. cbn [fst snd] in *. destruct H0 as (I5 & S5 & B5 & O5 & O5').
  assert (stamped w5) as S5'.
  { destruct S4 as [Ho _]. split; [|done]. pose proof T5 as (_ & _ & E3).
    apply (still_forall w4 w5 (fun _ t => stamp_ok (asks w5) t)); [done|].
    eapply Forall_impl; [exact Ho|]. intros o Hs. by eapply stamp_mono. }
  match goal with |- context [submit ?o ?u (set_slot i ?c w5)] =>
    pose proof (place_stamped h w5 c o u I5 S5') as S6; cbn [o_slot] in S6;
    destruct (set_slot_ok _ i c w5 I5) as [I6 S6']; pose proof (job_submit_ok h o u (set_slot i c w5) I6) as Hs;
    destruct (submit o u (set_slot i c w5)) as [ok w7] end.
  destruct Hs as (I7 & [_ _ _ A7] & _).
  { right. cbn. unfold same_fields in S5. destruct S5 as (F1 & F2 & F3 & _). rewrite F1, F2, F3. split_and!; lia. }
  cbn [fst snd] in *. specialize (S6 St). destruct T4 as (_ & _ & A4), T5 as (_ & _ & A5).
  change (asks (set_slot i _ w5)) with (asks w5) in A7.
  assert (asks w <= asks w7)%nat as A by lia. destruct ok; cbn [snd]; [|done].
  set (w8 := w7 <| total_bytes := u64 (total_bytes w7 + bs (config w7)) |>).
  assert (stamped w8) as S8 by by eapply stamped_still.
  assert (inv h w8) as I8 by (destruct I7; split; done). assert (asks w <= asks w8)%nat as A8 by exact A.
  clearbody w8. destruct do_write; [|done].
  destruct (periodic_fsync_ok h (Z.to_nat file) do_sample w8 I8) as (_ & [_ _ _ A9] & _).
  split; [by eapply periodic_fsync_stamped|lia].
Qed.

(** ** Delivering completions *)

(** During a poll the cached time is no earlier than any stamp. *)
Definition polling (w : thread_ctx_t) : Prop :=
  exists k, (k <= asks w)%nat /\ Forall (fun o => stamp_ok k (stamp_of w o)) (outstanding w) /\
    (tls_completion_ns w = 0 \/ exists j, (k <= j)%nat /\ tls_completion_ns w = ask_clock j).

Lemma bucket_small t : 0 <= t <= 100000000000000 -> 0 <= bucket_of t.
Proof.
  intros Ht. unfold bucket_of, LAT_HIST_BUCKET_US.
  assert (0 <= t / 1000 / 50 <= 2000000000).
  { split; [apply Z.div_pos; [apply Z.div_pos|]; lia|].
    apply Z.div_le_upper_bound; [lia|]. apply Z.div_le_upper_bound; lia. }
  rewrite i32_id; unfold INT_MIN, INT_MAX; lia.
Qed.

Lemma latency_small k j t c : (k <= j)%nat -> stamp_ok k t -> t <> 0 -> c = ask_clock j ->
  0 <= u64 (c - t) <= 100000000000000.
Proof.
  intros Hk [->|(m & Hm & ->)] Ht ->; [done|].
  pose proof (clock_monotonic m j ltac:(lia)). pose proof (clock_monotonic 0 m ltac:(lia)).
  pose proof (clock_range j). rewrite u64_id by lia. lia.
Qed.

Lemma record_completion_some w o n b :
  (exists k, (k <= asks w)%nat /\ stamp_ok k (stamp_of w o) /\ Forall (fun o => stamp_ok k (stamp_of w o)) (outstanding w) /\
    (tls_completion_ns w = 0 \/ exists j, (k <= j)%nat /\ tls_completion_ns w = ask_clock j)) ->
  exists w', record_completion (slot_at w (o_slot o)) n b w = Some w' /\ polling w' /\ still w w' /\ calm w w'.
Proof.
  intros (k & Hk & So & Sa & St).
  assert (exists w', record_completion (slot_at w (o_slot o)) n b w = Some w' /\ still w w' /\
    (tls_completion_ns w' = 0 \/ exists j, (k <= j)%nat /\ tls_completion_ns w' = ask_clock j)) as (w' & E & S & T).
  2: { exists w'. split_and!; [done| |done|by eapply record_completion_calm]. destruct S as (E1 & E2 & E3).
       exists k. split_and!; [lia| |done].
       by apply (still_forall w w' (fun _ t => stamp_ok k t)). }
  unfold record_completion. cbv zeta.
  case_match. { eexists. split; [done|]. unfold still. cbn. split_and!; [done..|lia|done]. }
  destruct (Z.eqb_spec (submit_time_ns (slot_at w (o_slot o))) 0) as [E0|E0]; cbn [negb].
  { eexists. split; [done|]. unfold still. cbn. split_and!; [done..|lia|done]. }
  set (w2 := if tls_completion_ns (asked w) =? 0 then _ else asked w).
  assert (still w w2 /\ exists j, (k <= j)%nat /\ tls_completion_ns w2 = ask_clock j) as (S2 & j & Hj & Ej).
  { subst w2. change (tls_completion_ns (asked w)) with (tls_completion_ns w).
    destruct (Z.eqb_spec (tls_completion_ns w) 0) as [Ez|Ez]; unfold still; cbn.
    - split; [split_and!; done || lia|]. exists (S (asks w)). split; [lia|done].
    - split; [split_and!; done || lia|]. by destruct St. }
  clearbody w2. pose proof (latency_small k j _ _ Hj So E0 Ej) as Hl.
  match goal with |- context [stats_record_io_fast ?d ?s] =>
    destruct (record_fast_some d s) as [s' Es]; [cbn [latency_ns]; apply bucket_small; exact Hl|] end.
  rewrite Es. simpl. eexists. split; [done|]. split; [exact S2|]. right. exists j. split; [done|exact Ej].
Qed.

Lemma polling_still w w' : polling w -> still w w' -> tls_completion_ns w' = tls_completion_ns w -> polling w'.
Proof.
  intros (k & Hk & Sa & St) S E. exists k. pose proof S as (_ & _ & T). split_and!; [lia| |by rewrite E].
  by apply (still_forall w w' (fun _ t => stamp_ok k t)).
Qed.

Lemma polling_quiet w w' : polling w -> quiet w w' -> polling w'.
Proof.
  intros P Q. apply (polling_still w); [done|by apply quiet_still|].
  pose proof (qt_times _ _ Q) as E. by injection E.
Qed.

(** ** Delivering *)

Lemma complete_some cfg w k r : good dims cfg w -> polling w ->
  exists w', complete k r w = Some w' /\ polling w' /\ (asks w <= asks w')%nat.
Proof.
  intros G (K & Hk & Sa & St). unfold complete. destruct (outstanding w !! k) as [o|] eqn:Ho.
  2: { exists w. split_and!; [done| |lia]. by exists K. }
  set (w1 := w <| outstanding := delete k (outstanding w) |>).
  assert (forall n b, exists w2, record_completion (slot_at w1 (o_slot o)) n b w1 = Some w2 /\ polling w2 /\
    (asks w <= asks w2)%nat /\ calm w1 w2) as Hr.
  { intros n b. destruct (record_completion_some w1 o n b) as (w2 & E & P & (_ & _ & T) & C); [|by exists w2].
    exists K. split_and!; [done|exact (Forall_lookup_1 _ _ _ _ Sa Ho)| |exact St].
    cbn. apply Forall_delete. exact Sa. }
  assert (forall w2, polling w2 -> calm w1 w2 ->
    polling (put_slot (o_slot o) (set_inflight (-1) (count_error r w2))) /\
    (asks w2 <= asks (put_slot (o_slot o) (set_inflight (-1) (count_error r w2))))%nat) as Hp.
  { intros w2 P C. assert (calm w1 (count_error r w2)) as C'
      by (eapply calm_trans; [exact C|apply count_error_calm]).
    destruct (job_retire_ok dims cfg w k o _ G Ho C') as [_ Q].
    assert (polling (count_error r w2) /\ asks (count_error r w2) = asks w2) as [P1 E1]
      by (unfold count_error; destruct (r <? 0); (split; [exact P|done])).
    split; [by eapply polling_quiet|]. rewrite <- E1. apply Q. }
  cbv zeta. unfold fsync_callback, io_callback.
  destruct (o_fsync o); edestruct Hr as (w2 & E & P & T & C); rewrite E; simpl; (eexists; split; [done|]);
    destruct (Hp w2 P C) as [Hp1 Hp2]; (split; [exact Hp1|lia]).
Qed.

Lemma theirs_polling b w : polling w -> polling (complete_theirs b w) /\ (asks w <= asks (complete_theirs b w))%nat.
Proof.
  intros (K & Hk & Sa & St). unfold complete_theirs. cbv zeta.
  destruct (_ && _); cbn.
  - split; [|lia]. exists K. cbn. split_and!; [lia|exact Sa|]. right. exists (S (asks w)). split; [lia|done].
  - split; [|lia]. exists K. cbn. split_and!; [lia|exact Sa|exact St].
Qed.

Lemma deliver_some cfg w d : good dims cfg w -> polling w ->
  exists w', deliver d w = Some w' /\ polling w' /\ (asks w <= asks w')%nat.
Proof.
  intros G P. destruct d as [k r|b|e]; cbn [deliver].
  - by eapply complete_some.
  - eexists. split; [done|]. by apply theirs_polling.
  - eexists. split; [done|]. pose proof (elsewhere_quiet w e) as Q. split; [by eapply polling_quiet|apply Q].
Qed.

Lemma deliver_all_some cfg l : forall w, (exact -> Forall present_d l) -> good dims cfg w -> polling w ->
  exists w', deliver_all l w = Some w' /\ polling w' /\ (asks w <= asks w')%nat.
Proof.
  induction l as [|d l IH]; intros w Hp G P; cbn [deliver_all]; [by exists w|].
  destruct (deliver_some cfg w d G P) as (w1 & E & P1 & T1). rewrite E. simpl.
  destruct (deliver_ok dims cfg d w w1) as (G1 & _); [intros Hx; specialize (Hp Hx); by inversion Hp|done|done|].
  destruct (IH w1) as (w2 & -> & P2 & T2); [intros Hx; specialize (Hp Hx); by inversion Hp|done|done|].
  exists w2. split_and!; [done|done|lia].
Qed.

Definition ops_stamped (w : thread_ctx_t) : Prop := Forall (fun o => stamp_ok (asks w) (stamp_of w o)) (outstanding w).

Lemma poll_some cfg w : good dims cfg w -> ops_stamped w ->
  exists w', poll w = Some w' /\ ops_stamped w' /\ (asks w < asks w')%nat.
Proof.
  intros G S. unfold poll.
  destruct (deliver_all_some cfg (ask_poll (asks w)) ((asked w) <| tls_completion_ns := 0 |>)) as (w' & E & P & T).
  { intros Hx. apply Hx. } { by eapply good_same. }
  { exists (asks w). split_and!; [cbn; lia|exact S|by left]. }
  exists w'. split; [done|]. split; [|cbn in T; lia]. destruct P as (k & Hk & Sa & _).
  eapply Forall_impl; [exact Sa|]. intros o. by apply stamp_mono.
Qed.

(** ** The loops *)

(** The main thread clears [running] at some point, and does not set it again. *)
Context (n : nat) (stops : forall m, (n <= m)%nat -> ask_running m = false).

(** The inner loop asks for [running] in every turn. *)
Lemma submit_loop_some cfg fuel : forall w, fine dims cfg w -> stamped w -> (n - asks w < fuel)%nat ->
  exists w', submit_loop fuel w = Some w' /\ ops_stamped w' /\ (asks w <= asks w')%nat.
Proof using stops.
  induction fuel as [|fuel IH]; intros w0 [G0 Z0] S0 Hf; cbn [submit_loop]; [lia|]. cbv zeta.
  destruct (others_ok [] 0 w0 (gd_inv _ _ _ G0)) as (I & Q & _); [lia|].
  pose proof (good_others dims cfg w0 G0) as G. pose proof (stamped_quiet _ _ S0 Q) as S. pose proof (qt_asks _ _ Q) as T.
  assert (size_ok cfg (others w0)) as Z by (eapply size_ok_same; [apply Q|apply Q|done]).
  generalize dependent (others w0). intros w I Q G S T Z.
  case_match; [|exists w; split_and!; [done|apply S|done]].
  assert (good dims cfg (asked w)) as G1 by by eapply good_same.
  assert (stamped (asked w)) as S1 by (eapply stamped_quiet; [done|apply asked_quiet]).
  destruct (negb (ask_running (asks w)) || size_reached (asked w)) eqn:E.
  { exists (asked w). split; [done|]. split; [apply S1|cbn; lia]. }
  apply orb_false_iff in E as [Er Es]. apply negb_false_iff in Er.
  assert (asks w < n)%nat as Hn.
  { destruct (decide (asks w < n)%nat) as [|Hge]; [done|]. rewrite stops in Er by lia. done. }
  destruct (submit_one_stamped _ _ (gd_inv _ _ _ G1) S1) as [S2 T2].
  pose proof (submit_one_ok dims cfg _ G1) as [G2 B2].
  assert (size_ok cfg (submit_one (asked w)).2) as Z2 by by eapply size_ok_turn.
  change (asks (asked w)) with (Datatypes.S (asks w)) in T2.
  destruct (submit_one (asked w)) as [ok w2]. cbn [fst snd] in *.
  destruct ok; [|exists w2; split; [done|]; split; [apply S2|lia]].
  destruct (IH w2) as (w3 & E3 & S3 & T3); [done|done|lia|]. exists w3. split_and!; [done|done|lia].
Qed.

Lemma main_turn_some cfg fuel w : fine dims cfg w -> ops_stamped w -> (n - asks w <= fuel)%nat ->
  exists go w', main_turn fuel w = Some (go, w') /\ ops_stamped w' /\ (asks w < asks w')%nat /\
    (go = true -> ask_running (asks w) = true).
Proof using clock_monotonic clock_range stops.
  intros [G Z] S Hf. unfold main_turn. cbv zeta.
  assert (ops_stamped (asked w)) as S1.
  { eapply Forall_impl; [exact S|]. intros o. apply stamp_mono. cbn. lia. }
  destruct (ask_running (asks w)) eqn:Er; cbn [negb orb].
  2: { exists false, (asked w). split; [done|]. split; [exact S1|]. split; [cbn; lia|done]. }
  destruct (size_reached (asked w)).
  { exists false, (asked w). split; [done|]. split; [exact S1|]. split; [cbn; lia|done]. }
  set (w1 := (asked w) <| batch_submit_ns := 0 |>).
  assert (fine dims cfg w1) as F1 by (split; [by eapply good_same|done]).
  assert (stamped w1) as S2 by (split; [exact S1|by left]).
  assert (asks w < n)%nat as Hn.
  { destruct (decide (asks w < n)%nat) as [|Hge]; [done|]. rewrite stops in Er by lia. done. }
  assert (asks w1 = Datatypes.S (asks w)) as A1 by done. clearbody w1.
  destruct (submit_loop_some cfg fuel w1 F1 S2) as (w2 & E2 & S3 & T3); [lia|]. rewrite E2. simpl.
  pose proof (fine_submit_loop dims cfg _ _ _ F1 E2) as F2.
  destruct (poll_some cfg w2 (proj1 F2) S3) as (w3 & E3 & S4 & T4). rewrite E3. simpl.
  exists true, w3. split_and!; [done|done|lia|done].
Qed.

Lemma main_loop_some cfg : forall fuel w, fine dims cfg w -> ops_stamped w -> (n - asks w < fuel)%nat ->
  exists w', main_loop fuel w = Some w' /\ fine dims cfg w' /\ ops_stamped w'.
Proof using clock_monotonic clock_range stops.
  induction fuel as [|fuel IH]; intros w F S Hf; cbn [main_loop]; [lia|].
  destruct (main_turn_some cfg fuel w F S) as (go & w1 & E & S1 & T1 & R1); [lia|]. rewrite E. simpl.
  pose proof (fine_turn _ _ _ _ _ _ F E) as F1. destruct go; [|by exists w1].
  apply IH; [done|done|].
  assert (asks w < n)%nat; [|lia]. destruct (decide (asks w < n)%nat) as [|Hge]; [done|].
  rewrite stops in R1 by lia. by specialize (R1 eq_refl).
Qed.

(** Every wait sees a request of this worker completed, if it has one in flight,
    by its own poll or by another worker's. *)
Definition takes_first (d : delivery_t) : Prop :=
  match d with Mine O _ | Elsewhere (Completes O _ _) => True | _ => False end.

Context (delivers : forall m, Exists takes_first (ask_poll m)).
Context (Hexact : exact).

Lemma deliver_first cfg d w w' : good dims cfg w -> present_d d -> takes_first d -> deliver d w = Some w' ->
  outstanding w <> [] -> (length (outstanding w') < length (outstanding w))%nat.
Proof using.
  intros G Hp Hd E Hne. assert (0 < length (outstanding w))%nat by (destruct (outstanding w); cbn; [done|lia]).
  destruct d as [[|k] r|b|[[|k] c l|k]]; try done; cbn [deliver] in E.
  - destruct (complete_ok _ _ _ _ _ _ G E) as (_ & _ & L). rewrite decide_True in L by done. lia.
  - apply (inj Some) in E as <-. cbn. destruct (outstanding w) as [|o l']; [done|]. cbn. lia.
Qed.

Lemma deliver_all_shrinks cfg l : forall w w', Forall present_d l -> Exists takes_first l -> fine dims cfg w ->
  deliver_all l w = Some w' -> outstanding w <> [] -> (length (outstanding w') < length (outstanding w))%nat.
Proof using.
  induction l as [|d l IH]; intros w w' Hp Hx [G Z]; [by inversion Hx|]. cbn [deliver_all].
  destruct (deliver d w) as [w1|] eqn:E; [|done]. simpl. intros E' Hne. inversion Hp as [|? ? Hp1 Hp2]; subst.
  destruct (deliver_ok dims cfg d w w1) as (G1 & T1 & L1); [done|done|done|].
  assert (fine dims cfg w1) as F1.
  { split; [done|]. eapply size_ok_same; [|exact T1|exact Z]. by rewrite (gd_config _ _ _ G), (gd_config _ _ _ G1). }
  destruct (fine_deliver_all dims cfg l w1 w') as [_ L2]; [done|done|done|].
  inversion Hx; subst.
  - pose proof (deliver_first cfg d w w1 G). intuition lia.
  - destruct (decide (outstanding w1 = [])) as [E1|E1].
    + rewrite E1 in L2. cbn in L2. destruct (outstanding w); [done|]. cbn. lia.
    + specialize (IH w1 w'). intuition lia.
Qed.

Lemma poll_shrinks cfg w w' : fine dims cfg w -> poll w = Some w' -> outstanding w <> [] ->
  (length (outstanding w') < length (outstanding w))%nat.
Proof using delivers Hexact.
  intros [G Z] E Hne.
  assert (fine dims cfg ((asked w) <| tls_completion_ns := 0 |>)) as F by (split; [by eapply good_same|done]).
  exact (deliver_all_shrinks cfg _ _ w' (proj2 (proj2 (Hexact (asks w)))) (delivers (asks w)) F E Hne).
Qed.

Lemma drain_loop_some cfg : forall fuel w, fine dims cfg w -> ops_stamped w -> (length (outstanding w) <= fuel)%nat ->
  exists w', drain_loop fuel w = Some w' /\ fine dims cfg w' /\ outstanding w' = [].
Proof using clock_monotonic clock_range delivers Hexact.
  induction fuel as [|fuel IH]; intros w F S Hf; cbn [drain_loop];
    pose proof (gd_counted _ _ _ (proj1 F) Hexact) as Ei; rewrite Ei.
  - destruct (outstanding w) eqn:Eo; [|cbn in Hf; lia]. by exists w.
  - destruct (outstanding w) as [|o ops] eqn:Eo; [by exists w|].
    destruct (Z.ltb_spec 0 (zlen (o :: ops) + 0)) as [_|Hz]; [|unfold zlen in Hz; cbn in Hz; lia].
    destruct (poll_some cfg w (proj1 F) S) as (w1 & E & S1 & _). rewrite E. simpl.
    pose proof (fine_poll _ _ _ _ F E) as F1.
    assert (length (outstanding w1) < length (outstanding w))%nat
      by (eapply poll_shrinks; [apply F|exact E|by rewrite Eo]).
    rewrite Eo in *. apply IH; [done|done|cbn in *; lia].
Qed.
End Run.

Lemma init_stamped `{LoadEnv} tid nsec w : outstanding w = [] -> ops_stamped (start_worker tid nsec w).
Proof. intros E. unfold ops_stamped, start_worker. cbn [outstanding set_field]. cbn. rewrite E. constructor. Qed.


(** Every third submission refused, eighteen turns, two completions a wait, the
    second one out of order; another worker takes one request of each turn, and
    gives its slot back later. *)
Definition demo_run : LoadEnv := {|
  ask_clock n := 1000 + Z.min (Z.of_nat n) 1000; ask_running n := (n <? 200)%nat; ask_ramping n := (n <? 50)%nat;
  ask_submit n := negb (n mod 3 =? 0)%nat;
  ask_poll n := [Mine 0 4096; Theirs true; Mine 1 (-5); Elsewhere (Completes 0 stats_init None)];
  ask_others n := if (n mod 2 =? 0)%nat then [Returns 0] else [Completes 1 stats_init None];
  ask_between n := [Returns 0] |}.


(** The lost decrement of [update_lost]: everything is completed, but the count
    stays above 0 and the worker waits for ever. *)
Definition losing : LoadEnv := {|
  ask_clock n := 1000 + 100 * Z.of_nat n; ask_running n := (n <? 40)%nat; ask_ramping _ := false; ask_submit _ := true;
  ask_poll _ := [Mine 0 4096]; ask_others _ := [Returns 0];
  ask_between n := if (n <? 20)%nat then [Completes 0 stats_init None] else [] |}.

Example lost_update_never_ends :
  exists w, @main_loop losing 20 (@start_worker losing 0 77
      (init_thread demo_job 0 2 2 40960 4 (fun s => 4096 * Z.of_nat (S s)) true)) = Some w /\
    @drain_loop losing 100 w = None.
Proof. eexists. split; [vm_compute; reflexivity|]. vm_compute. done. Qed.

(** ** Periodic fsync *)

(** [fsync] borrows a slot and stores NULL over its buffer, which is neither given
    back nor replaced. Without registered buffers the next data request from that
    slot is refused, goes back on top of the pool and is taken again:
    one write is all the run of a hundred writes gets done. *)
Definition write_job : job_config_t :=
  job_config_defaults <| rw := RW_WRITE |> <| rw_set := true |> <| j_size := 409600 |> <| iodepth := 2 |> <| fsync_freq := 1 |>.

(** Everything is accepted, and completes in order. *)
Definition orderly : LoadEnv := {|
  ask_clock n := 1000 + Z.of_nat n; ask_running _ := true; ask_ramping _ := false; ask_submit _ := true;
  ask_poll _ := [Mine 0 4096; Mine 0 0]; ask_others _ := []; ask_between _ := [] |}.

Example fsync_loses_buffers :
  let w0 := @start_worker orderly 0 77 (init_thread write_job 0 1 1 40960 2 (fun s => 4096 * Z.of_nat (S s)) false) in
  exists w1 w50, @turns orderly 9 1 w0 = Some w1 /\ @turns orderly 9 50 w0 = Some w50 /\
    total_bytes w1 = 4096 /\ total_bytes w50 = 4096 /\ size_reached w50 = false /\ inflight (stats w50) = 0.
Proof. eexists _, _. split; [vm_compute; reflexivity|]. split; [vm_compute; reflexivity|]. vm_compute. done. Qed.
