(* ===== verification/OpenAddr.v ===== *)
(** * Open addressing without deletion

    A circular table of [N] slots that is only ever filled: what one probe finds
    decides membership, and filling the slot where it stops keeps that so. A
    table is the function from its slots to their keys; [represents] relates it
    to the set of its keys. *)
From Stdlib Require Import ZArith Lia List.
From stdpp Require Import base tactics numbers list gmap sets.
From S2P Require Import Prelude.

#[local] Open Scope Z_scope.

Section OpenAddr.
Context {K : Type} `{Countable K} (N : Z) (HN : 0 < N) (h : K -> Z).
Implicit Types (tab : Z -> option K) (k : K) (g : gset K).

(** The [i]th slot of the probe sequence of [k]. *)
Definition probe_slot k (i : Z) : Z := (h k + i) mod N.

Lemma probe_slot_range k i : 0 <= probe_slot k i < N.
Proof using HN. apply Z.mod_pos_bound. lia. Qed.

Lemma probe_slot_inj k i j : 0 <= i < N -> 0 <= j < N -> probe_slot k i = probe_slot k j -> i = j.
Proof using HN.
  unfold probe_slot. intros Hi Hj E.
  assert (0 <= i - j < N \/ 0 <= j - i < N) as [D|D] by lia.
  - assert ((i - j) mod N = 0) as M.
    { replace (i - j) with (h k + i - (h k + j)) by lia. rewrite Zminus_mod, E, Z.sub_diag. apply Z.mod_0_l. lia. }
    rewrite Z.mod_small in M by lia. lia.
  - assert ((j - i) mod N = 0) as M.
    { replace (j - i) with (h k + j - (h k + i)) by lia. rewrite Zminus_mod, E, Z.sub_diag. apply Z.mod_0_l. lia. }
    rewrite Z.mod_small in M by lia. lia.
Qed.

(** Every slot is reached by the probe. *)
Lemma probe_slot_surj k x : 0 <= x < N -> exists i, 0 <= i < N /\ x = probe_slot k i.
Proof using HN.
  intros Hx. exists ((x - h k) mod N). split; [apply Z.mod_pos_bound; lia|]. unfold probe_slot.
  rewrite Zplus_mod_idemp_r. replace (h k + (x - h k)) with x by lia. by rewrite Z.mod_small.
Qed.

(** [k] is not in the first [i] slots of its probe, and these are all taken. *)
Definition passed tab k (i : Z) : Prop := forall j, 0 <= j < i -> exists k', tab (probe_slot k j) = Some k' /\ k' <> k.

Definition path_ok tab : Prop :=
  forall x k, 0 <= x < N -> tab x = Some k -> exists i, 0 <= i < N /\ x = probe_slot k i /\ passed tab k i.

Definition represents tab g : Prop :=
  path_ok tab /\ forall k, k ∈ g <-> exists x, 0 <= x < N /\ tab x = Some k.

Lemma passed_0 tab k : passed tab k 0.
Proof using. intros j Hj. lia. Qed.

Lemma passed_step tab k i k' : passed tab k i -> tab (probe_slot k i) = Some k' -> k' <> k -> passed tab k (i + 1).
Proof using. intros P T Hn j Hj. destruct (decide (j = i)) as [->|]; [by exists k'|]. apply P. lia. Qed.

Lemma slot_unique tab x y k : path_ok tab -> 0 <= x < N -> 0 <= y < N -> tab x = Some k -> tab y = Some k -> x = y.
Proof using.
  intros P Hx Hy Tx Ty. destruct (P x k Hx Tx) as (i & Hi & -> & Pi). destruct (P y k Hy Ty) as (j & Hj & -> & Pj).
  destruct (Z.lt_trichotomy i j) as [L|[->|L]]; [|done|].
  - destruct (Pj i ltac:(lia)) as (k' & E & Hn). congruence.
  - destruct (Pi j ltac:(lia)) as (k' & E & Hn). congruence.
Qed.

Lemma represents_empty tab : (forall x, 0 <= x < N -> tab x = None) -> represents tab ∅.
Proof using.
  intros T. split; [intros x k Hx E; rewrite T in E; done|]. intros k. rewrite elem_of_empty.
  split; [done|]. intros (x & Hx & E). by rewrite T in E.
Qed.

(** The probe stops at [k]. *)
Lemma probe_found tab g k i : represents tab g -> tab (probe_slot k i) = Some k -> k ∈ g.
Proof using HN. intros [_ R] T. apply R. exists (probe_slot k i). split; [apply probe_slot_range|done]. Qed.

(** The probe stops at a free slot: [k] is absent, and may go there. *)
Lemma probe_free tab g k i : represents tab g -> 0 <= i < N -> passed tab k i -> tab (probe_slot k i) = None -> k ∉ g.
Proof using HN.
  intros [P R] Hi Pa T Hin. apply R in Hin as (x & Hx & Tx). destruct (P x k Hx Tx) as (j & Hj & -> & Pj).
  destruct (Z.lt_trichotomy i j) as [L|[->|L]].
  - destruct (Pj i ltac:(lia)) as (k' & E & _). congruence.
  - congruence.
  - destruct (Pa j ltac:(lia)) as (k' & E & Hn). congruence.
Qed.

Lemma probe_insert tab tab' g k i : represents tab g -> 0 <= i < N -> passed tab k i ->
  tab (probe_slot k i) = None ->
  (forall x, 0 <= x < N -> tab' x = if decide (x = probe_slot k i) then Some k else tab x) ->
  represents tab' ({[k]} ∪ g).
Proof using HN.
  intros [P R] Hi Pa T U.
  assert (forall k' j, passed tab k' j -> j <= N -> (k' = k -> j <= i) -> passed tab' k' j) as Mono.
  { intros k' j Q HjN Hle m Hm. destruct (Q m Hm) as (k'' & E & Hn). exists k''. split; [|done].
    rewrite U by apply probe_slot_range. destruct (decide _) as [Ex|]; [|done]. rewrite Ex in E. congruence. }
  split.
  - intros x k' Hx Tx. rewrite U in Tx by done. destruct (decide (x = probe_slot k i)) as [->|].
    + injection Tx as <-. exists i. split; [done|]. split; [done|]. apply Mono; [done|lia|lia].
    + destruct (P x k' Hx Tx) as (j & Hj & -> & Pj). exists j. split; [done|]. split; [done|].
      apply Mono; [done|lia|]. intros ->. destruct (Z.le_gt_cases j i); [done|].
      destruct (Pj i ltac:(lia)) as (k'' & E & _). congruence.
  - intros k'. rewrite elem_of_union, elem_of_singleton, R. split.
    + intros [->|(x & Hx & Tx)].
      * exists (probe_slot k i). split; [apply probe_slot_range|]. rewrite U by apply probe_slot_range. by rewrite decide_True.
      * exists x. split; [done|]. rewrite U by done. rewrite decide_False; [done|]. intros ->. congruence.
    + intros (x & Hx & Tx). rewrite U in Tx by done. destruct (decide _); [left; congruence|right; by exists x].
Qed.

Lemma keys_nodup tab l : path_ok tab -> (forall x, x ∈ l -> 0 <= x < N) -> NoDup l -> NoDup (omap tab l).
Proof using.
  intros P. induction l as [|x l IH]; intros Hr Hnd; [constructor|]. apply NoDup_cons in Hnd as [Hx Hnd].
  assert (NoDup (omap tab l)) as IHl by (apply IH; [intros y Hy; apply Hr; by right|done]).
  cbn. destruct (tab x) as [k|] eqn:Tx; [|done]. cbn. apply NoDup_cons. split; [|done].
  intros Hin. apply list_elem_of_omap in Hin as (y & Hy & Ty).
  assert (x = y) as ->; [|done]. eapply slot_unique; try done; apply Hr; [left|by right].
Qed.

Lemma represents_size tab g : represents tab g -> size g = length (omap tab (seqZ 0 N)).
Proof using.
  intros [P R]. assert (g = list_to_set (omap tab (seqZ 0 N))) as ->.
  { apply set_eq. intros k. rewrite R, elem_of_list_to_set, list_elem_of_omap. split.
    - intros (x & Hx & Tx). exists x. split; [apply elem_of_seqZ; lia|done].
    - intros (x & Hx & Tx). exists x. apply elem_of_seqZ in Hx. split; [lia|done]. }
  apply size_list_to_set, keys_nodup; [done| |apply NoDup_seqZ]. intros x Hx. apply elem_of_seqZ in Hx. lia.
Qed.

Lemma length_omap_le tab (l : list Z) : (length (omap tab l) <= length l)%nat.
Proof using. induction l as [|x l IH]; [done|]. cbn. destruct (tab x); cbn; lia. Qed.

(** A free slot: the table is not full. *)
Lemma represents_free tab g x : represents tab g -> 0 <= x < N -> tab x = None -> Z.of_nat (size g) < N.
Proof using HN.
  intros R Hx Tx. rewrite (represents_size _ _ R).
  assert (forall l, x ∈ l -> (length (omap tab l) < length l)%nat) as L.
  { intros l. induction l as [|y l IH]; intros Hin; [by apply not_elem_of_nil in Hin|].
    cbn. apply elem_of_cons in Hin as [<-|Hin].
    - rewrite Tx. pose proof (length_omap_le tab l). cbn. lia.
    - specialize (IH Hin). destruct (tab y); cbn; lia. }
  specialize (L (seqZ 0 N)). rewrite elem_of_seqZ, length_seqZ in L. lia.
Qed.

(** The probe sees every slot: [k] is absent, and the table is full. *)
Lemma probe_full tab g k : represents tab g -> passed tab k N -> (k ∉ g) /\ Z.of_nat (size g) = N.
Proof using HN.
  intros R Pa. split.
  - intros Hin. apply R in Hin as (x & Hx & Tx). destruct (probe_slot_surj k x Hx) as (i & Hi & ->).
    destruct (Pa i Hi) as (k' & E & Hn). congruence.
  - rewrite (represents_size _ _ R).
    assert (forall l, (forall x, x ∈ l -> 0 <= x < N) -> length (omap tab l) = length l) as L.
    { intros l. induction l as [|x l IH]; intros Hr; [done|]. cbn.
      destruct (probe_slot_surj k x) as (i & Hi & Ex); [apply Hr; left|].
      destruct (Pa i Hi) as (k' & E & _). rewrite <- Ex in E. rewrite E. cbn. f_equal. apply IH. intros y Hy. apply Hr. by right. }
    rewrite L, length_seqZ; [lia|]. intros x Hx. apply elem_of_seqZ in Hx. lia.
Qed.

End OpenAddr.
