(* ===== verification/TreeFormat.v ===== *)
(** * atree: formatting

    [src/tools/atree/atree.c]: integers, sizes, modes and dates as text, the
    caches of user and group names, and the colour scheme. A text is a string
    without its terminating zero; where the code copies a fixed number of bytes
    the bytes that were in the destination before are an argument ([stale]). *)
From Stdlib Require Import ZArith Lia List String Ascii.
From stdpp Require Import base tactics strings list gmap.
From S2P Require Import Prelude CStrings.

#[local] Open Scope Z_scope.
#[local] Arguments String.append : simpl nomatch.

(** ** Integers and sizes *)

(** [while (uv > 0) tmp[n++] = '0' + (char)(uv % 10)], read back from the end. *)
Fixpoint fmt_loop (fuel : nat) (uv : Z) (tail : string) : string :=
  match fuel with
  | O => tail
  | S fuel => if 0 <? uv then fmt_loop fuel (uv / 10) (String (of_code (48 + uv mod 10)) tail) else tail
  end.

Definition fmt_i64 (val : Z) : string :=
  if val =? 0 then "0"%string
  else
    let neg := val <? 0 in
    let uv := if neg then u64 (u64 (- (val + 1)) + 1) else u64 val in
    let text := fmt_loop 20 uv EmptyString in
    if neg then String "-" text else text.

Definition fmt_size_human (bytes unit : Z) (suffix : ascii) : string :=
  let whole := bytes / unit in
  let frac := u64 (bytes mod unit * 10) / unit in
  (fmt_i64 (i64 whole) ++ String "." (String (of_code (48 + frac)) (String suffix EmptyString)))%string.

Definition KB : Z := 1024.
Definition MB : Z := 1048576.
Definition GB : Z := 1073741824.
Definition TB : Z := 1099511627776.
Definition PB : Z := 1125899906842624.

Definition format_size (bufsz bytes : Z) (raw : bool) : string :=
  if bufsz <? 24 then EmptyString
  else if raw then fmt_i64 (i64 bytes)
  else if PB <=? bytes then fmt_size_human bytes PB "P"
  else if TB <=? bytes then fmt_size_human bytes TB "T"
  else if GB <=? bytes then fmt_size_human bytes GB "G"
  else if MB <=? bytes then fmt_size_human bytes MB "M"
  else if KB <=? bytes then fmt_size_human bytes KB "K"
  else fmt_i64 (i64 bytes).

Example format_size_ex :
  (format_size 32 1536 false, format_size 32 1048575 false, format_size 32 18446744073709551615 false,
   format_size 32 18446744073709551615 true, fmt_i64 (-9223372036854775808))
  = ("1.5K", "1023.9K", "16383.9P", "-1", "-9223372036854775808")%string.
Proof. vm_compute. reflexivity. Qed.

(** ** Modes *)

Definition S_IFMT : Z := 61440.
Definition S_IFSOCK : Z := 49152.
Definition S_IFLNK : Z := 40960.
Definition S_IFREG : Z := 32768.
Definition S_IFBLK : Z := 24576.
Definition S_IFDIR : Z := 16384.
Definition S_IFCHR : Z := 8192.
Definition S_IFIFO : Z := 4096.

Definition is_type (mode fmt : Z) : bool := Z.land mode S_IFMT =? fmt.
Definition has (mode bit : Z) : bool := negb (Z.land mode bit =? 0).

(** The executable position of a class, and the set-id or sticky bit. *)
Definition exec_char (x s : bool) (both only : ascii) : ascii :=
  if x then (if s then both else "x"%char) else (if s then only else "-"%char).

Definition format_mode (mode : Z) : string :=
  String (if is_type mode S_IFDIR then "d" else if is_type mode S_IFLNK then "l"
          else if is_type mode S_IFBLK then "b" else if is_type mode S_IFCHR then "c"
          else if is_type mode S_IFIFO then "p" else if is_type mode S_IFSOCK then "s" else "-")
 (String (if has mode 256 then "r" else "-") (String (if has mode 128 then "w" else "-")
 (String (exec_char (has mode 64) (has mode 2048) "s" "S")
 (String (if has mode 32 then "r" else "-") (String (if has mode 16 then "w" else "-")
 (String (exec_char (has mode 8) (has mode 1024) "s" "S")
 (String (if has mode 4 then "r" else "-") (String (if has mode 2 then "w" else "-")
 (String (exec_char (has mode 1) (has mode 512) "t" "T") EmptyString))))))))).

(** ** Dates *)

Record tm_t := { tm_year : Z; tm_mon : Z; tm_mday : Z; tm_yday : Z }.

Record date_cache_t := { cached_day : Z; cached_str : string; valid : bool }.
Definition no_date : date_cache_t := {| cached_day := 0; cached_str := EmptyString; valid := false |}.

Definition two_digits (n : Z) : string :=
  if n <? 10 then String "0" (fmt_i64 n) else fmt_i64 n.

Definition ymd (tm : tm_t) : string :=
  (fmt_i64 (tm_year tm + 1900) ++ "-" ++ two_digits (tm_mon tm + 1) ++ "-" ++ two_digits (tm_mday tm))%string.

(** [strftime] with [%Y-%m-%d]; the buffer is undefined if the date does not fit. *)
Definition strftime_ymd (stale : string) (bufsz : nat) (tm : tm_t) : string :=
  if (String.length (ymd tm) <? bufsz)%nat then ymd tm else cstr stale.

(** [memcpy(dst, src, n)] and then reading [dst] as a C string: [src] with its
    terminating zero in front of what [dst] held behind. *)
Definition memcpy_str (n : nat) (src stale : string) : string :=
  cstr (substring 0 n (src ++ String nul EmptyString) ++ substring n (String.length stale) stale)%string.

Definition format_date (localtime : Z -> option tm_t) (stale : string) (bufsz : nat) (tv_sec : Z)
    (dc : date_cache_t)
  : string * date_cache_t :=
  match localtime tv_sec with
  | None => ("----/--/--"%string, dc)
  | Some tm =>
      let local_day := tm_year tm * 400 + tm_yday tm in
      if valid dc && (cached_day dc =? local_day) then (memcpy_str 11 (cached_str dc) stale, dc)
      else
        let buf := strftime_ymd stale bufsz tm in
        (buf, {| cached_day := local_day; cached_str := substring 0 11 buf; valid := true |})
  end.

(** ** Names of users and groups *)

Definition ID_CACHE_SIZE : Z := 128.

Record id_cache_entry_t := { id : Z; name : string; e_valid : bool }.
Definition no_entry : id_cache_entry_t := {| id := 0; name := EmptyString; e_valid := false |}.
Definition empty_cache : list id_cache_entry_t := replicate 128 no_entry.

(** [getpwuid_r] or [getgrgid_r] is [names]. [n] slots remain to be probed, the
    next one being the [i]th from the home slot. *)
Fixpoint id_probe (names : Z -> option string) (cache : list id_cache_entry_t) (uid i : Z) (n : nat)
  : string * list id_cache_entry_t :=
  match n with
  | O => (bounded 32 (print_u uid), cache)
  | S n =>
      let slot := Z.land (u32 (Z.land uid (ID_CACHE_SIZE - 1) + i)) (ID_CACHE_SIZE - 1) in
      let e := aget no_entry cache slot in
      if negb (e_valid e) then
        let name := match names uid with Some s => bounded 32 s | None => bounded 32 (print_u uid) end in
        (name, aset cache slot {| id := uid; name := name; e_valid := true |})
      else if id e =? uid then (name e, cache)
      else id_probe names cache uid (i + 1) n
  end.

Definition id_cache_lookup_uid (pwnam : Z -> option string) (cache : list id_cache_entry_t) (uid : Z) :=
  id_probe pwnam cache uid 0 (Z.to_nat ID_CACHE_SIZE).
Definition id_cache_lookup_gid (grnam : Z -> option string) (cache : list id_cache_entry_t) (gid : Z) :=
  id_probe grnam cache gid 0 (Z.to_nat ID_CACHE_SIZE).

(** ** Colours *)

Record color_scheme_t := {
  enabled : bool; c_dir : string; c_exec : string; c_link : string; c_pipe : string; c_sock : string; c_reset : string
}.

Definition esc : ascii := of_code 27.

(** [snprintf(out, 32, "\033[%sm", code)]. *)
Definition parse_ansi_code (code : string) : string :=
  bounded 32 (String esc (String "[" (code ++ String "m" EmptyString))).

(** The tokens [strtok_r] finds between colons; empty ones are skipped. *)
Fixpoint strtok (tok s : string) : list string :=
  match s with
  | EmptyString => match tok with EmptyString => [] | _ => [tok] end
  | String c s =>
      if (c =? ":")%char then match tok with EmptyString => strtok EmptyString s | _ => tok :: strtok EmptyString s end
      else strtok (tok ++ String c EmptyString) s
  end.

Definition set_color (cs : color_scheme_t) (key val : string) : color_scheme_t :=
  let v := parse_ansi_code val in
  let '(Build_color_scheme_t e di ex ln pi so r) := cs in
  if streq key "di" then Build_color_scheme_t e v ex ln pi so r
  else if streq key "ex" then Build_color_scheme_t e di v ln pi so r
  else if streq key "ln" then Build_color_scheme_t e di ex v pi so r
  else if streq key "pi" then Build_color_scheme_t e di ex ln v so r
  else if streq key "so" then Build_color_scheme_t e di ex ln pi v r
  else cs.

Definition color_token (cs : color_scheme_t) (tok : string) : color_scheme_t :=
  match cut "=" tok with Some (key, val) => set_color cs key val | None => cs end.

(** [lsc] is the value of LS_COLORS, [copied] whether [strdup] succeeded. *)
Definition color_init (on : bool) (lsc : option string) (copied : bool) : color_scheme_t :=
  if negb on then Build_color_scheme_t false EmptyString EmptyString EmptyString EmptyString EmptyString EmptyString
  else
    let cs := Build_color_scheme_t true (parse_ansi_code "1;34") (parse_ansi_code "1;32") (parse_ansi_code "36")
                (parse_ansi_code "33") (parse_ansi_code "35") (String esc "[0m") in
    match lsc with
    | Some s => if copied then fold_left color_token (strtok EmptyString s) cs else cs
    | None => cs
    end.

Definition color_for_mode (cs : color_scheme_t) (is_dir : bool) (mode : Z) : string :=
  if negb (enabled cs) then EmptyString
  else if is_dir then c_dir cs
  else if is_type mode S_IFLNK then c_link cs
  else if is_type mode S_IFIFO then c_pipe cs
  else if is_type mode S_IFSOCK then c_sock cs
  else if has mode 73 then c_exec cs
  else EmptyString.
