(* ===== verification/TreeFormatSpec.v ===== *)
(** * atree: the texts mean what they stand for

    Reading back integers, sizes and modes, and the two caches of [TreeFormat]
    against the lookups they save. *)
From Stdlib Require Import ZArith Lia List String Ascii.
From stdpp Require Import base tactics strings list gmap.
From S2P Require Import Prelude CStrings OpenAddr TreeFormat.

#[local] Open Scope Z_scope.
#[local] Arguments String.append : simpl nomatch.

(** ** Integers *)

Lemma fmt_loop_0 fuel tail : fmt_loop fuel 0 tail = tail.
Proof. by destruct fuel. Qed.

Lemma fmt_loop_print fuel : forall n tail, 0 < n -> fmt_loop fuel n tail = print_digits fuel n tail.
Proof.
  induction fuel as [|fuel IH]; intros n tail Hn; [done|]. cbn [fmt_loop print_digits].
  destruct (Z.ltb_spec 0 n); [|lia]. unfold digit_char. destruct (Z.eqb_spec (n / 10) 0) as [->|E].
  - apply fmt_loop_0.
  - apply IH. pose proof (Z.div_pos n 10). lia.
Qed.

Lemma fmt_i64_print v : - 2 ^ 63 <= v < 2 ^ 63 -> fmt_i64 v = print_i v.
Proof.
  intros Hv. unfold fmt_i64, print_i, print_u. destruct (Z.eqb_spec v 0) as [->|Hn]; [done|].
  destruct (Z.ltb_spec v 0).
  - rewrite (u64_id (- (v + 1))) by (unfold SIZE_MAX; lia).
    replace (- (v + 1) + 1) with (- v) by lia. rewrite u64_id by (unfold SIZE_MAX; lia).
    by rewrite fmt_loop_print by lia.
  - rewrite u64_id by (unfold SIZE_MAX; lia). by rewrite fmt_loop_print by lia.
Qed.

Lemma length_print_digits fuel : forall n tail (k : nat), 0 <= n < 10 ^ Z.of_nat k -> (0 < k <= fuel)%nat ->
  (String.length (print_digits fuel n tail) <= k + String.length tail)%nat.
Proof.
  induction fuel as [|fuel IH]; intros n tail k Hn Hk; [lia|]. cbn [print_digits].
  destruct (Z.eqb_spec (n / 10) 0) as [E|E]; [cbn; lia|].
  assert (0 <= n / 10 < 10 ^ Z.of_nat (k - 1)) as Hq.
  { replace (Z.of_nat k) with (Z.succ (Z.of_nat (k - 1))) in Hn by lia.
    rewrite Z.pow_succ_r in Hn by lia. split; [apply Z.div_pos; lia|apply Z.div_lt_upper_bound; lia]. }
  destruct (decide (k = 1%nat)) as [->|]; [cbn in Hq; lia|].
  specialize (IH (n / 10) (String (digit_char (n mod 10)) tail) (k - 1)%nat Hq). cbn [String.length] in IH. lia.
Qed.

(** The text of a 64-bit integer reads back as the integer, and with its
    terminating zero it fits the 21 bytes the callers leave for it. *)
Theorem fmt_i64_roundtrip (v : Z) (Hv : - 2 ^ 63 <= v < 2 ^ 63) :
  strtol (fmt_i64 v) = (v, EmptyString, false) /\ (String.length (fmt_i64 v) <= 20)%nat.
Proof.
  rewrite fmt_i64_print by done. split.
  - apply strtol_print. unfold LONG_MIN, LONG_MAX. lia.
  - unfold print_i, print_u. destruct (Z.ltb_spec v 0); cbn [String.length].
    + pose proof (length_print_digits 20 (- v) EmptyString 19) as H1. cbn [String.length] in H1. 
      change (10 ^ Z.of_nat 19) with 10000000000000000000 in H1. lia.
    + pose proof (length_print_digits 20 v EmptyString 20) as H1. cbn [String.length] in H1.
      change (10 ^ Z.of_nat 20) with 100000000000000000000 in H1. lia.
Qed.

(** ** Sizes *)

Definition unit_of (c : ascii) : Z :=
  if (c =? "K")%char then KB else if (c =? "M")%char then MB else if (c =? "G")%char then GB
  else if (c =? "T")%char then TB else if (c =? "P")%char then PB else 0.

(** What a reader makes of a size: the number of tenths and the unit. *)
Definition size_value (s : string) : Z * Z :=
  let '(w, r) := digits 0 s in
  match r with
  | String _ (String d (String c EmptyString)) => (10 * w + (code d - 48), unit_of c)
  | _ => (10 * w, 1)
  end.

Lemma fmt_i64_digits v tail : 0 <= v < 2 ^ 63 -> starts isdigit tail = false ->
  digits 0 (fmt_i64 v ++ tail)%string = (v, tail).
Proof.
  intros Hv Ht. rewrite fmt_i64_print by lia. unfold print_i, print_u.
  destruct (Z.ltb_spec v 0); [lia|].
  assert (forall fuel n t, (print_digits fuel n t ++ tail = print_digits fuel n (t ++ tail))%string) as E.
  { induction fuel as [|fuel IH]; intros n t; [done|]. cbn [print_digits]. destruct (_ =? 0); [done|]. by rewrite IH. }
  rewrite E. cbn [String.append]. apply print_u_digits; [unfold ULLONG_MAX; lia|done].
Qed.

Lemma size_human_value b unit c : 0 <= b <= SIZE_MAX -> 1024 <= unit <= PB -> unit_of c = unit ->
  size_value (fmt_size_human b unit c) = (10 * b / unit, unit).
Proof.
  intros Hb Hu Hc. unfold fmt_size_human, size_value.
  assert (0 <= b / unit < 2 ^ 63) as Hw.
  { split; [apply Z.div_pos; lia|]. apply Z.div_lt_upper_bound; unfold SIZE_MAX in Hb; lia. }
  pose proof (Z.mod_pos_bound b unit ltac:(lia)) as Hm. unfold PB in Hu.
  rewrite (i64_id (b / unit)) by lia. rewrite (u64_id (b mod unit * 10)) by (unfold SIZE_MAX; lia).
  assert (0 <= b mod unit * 10 / unit < 10) as Hf.
  { split; [apply Z.div_pos; lia|apply Z.div_lt_upper_bound; lia]. }
  rewrite fmt_i64_digits by done. cbn beta iota.
  destruct (isdigit_digit_char _ Hf) as [_ Hd]. unfold digit_char in Hd. rewrite Hd, Hc. f_equal.
  replace (10 * b) with (b mod unit * 10 + (10 * (b / unit)) * unit).
  - rewrite Z.div_add by lia. lia.
  - pose proof (Z_div_mod_eq_full b unit). lia.
Qed.

(** A printed size truncates: read back, it is at most the size and less than a
    tenth of its unit below it, with fewer than 1024 units unless the unit is
    the largest. *)
Theorem format_size_truncates (b : Z) (Hb : 0 <= b <= SIZE_MAX) :
  let '(t, unit) := size_value (format_size 32 b false) in
  t * unit <= 10 * b < (t + 1) * unit /\ (unit = PB \/ t < 10240).
Proof.
  assert (forall unit, 0 < unit -> 10 * b / unit * unit <= 10 * b < (10 * b / unit + 1) * unit) as D.
  { intros unit Hu. pose proof (Z_div_mod_eq_full (10 * b) unit). pose proof (Z.mod_pos_bound (10 * b) unit). lia. }
  assert (forall unit, 0 < unit -> b < 1024 * unit -> 10 * b / unit < 10240) as U.
  { intros unit Hu H. apply Z.div_lt_upper_bound; lia. }
  unfold format_size. cbn [Z.ltb]. replace (32 <? 24) with false by done.
  repeat match goal with |- context [if ?u <=? b then _ else _] => destruct (Z.leb_spec u b) end;
    try (rewrite size_human_value by (done || unfold PB, TB, GB, MB, KB in *; lia); cbn beta iota;
         split; [apply D; unfold PB, TB, GB, MB, KB; lia|];
         first [by left|right; apply U; unfold PB, TB, GB, MB, KB in *; lia]).
  unfold KB in *. rewrite (i64_id b) by lia. unfold size_value.
  pose proof (fmt_i64_digits b EmptyString) as E. rewrite append_nil in E.
  rewrite E by (done || lia). lia.
Qed.

(** ** Modes *)

Definition type_of_char (c : ascii) : Z :=
  if (c =? "d")%char then S_IFDIR else if (c =? "l")%char then S_IFLNK else if (c =? "b")%char then S_IFBLK
  else if (c =? "c")%char then S_IFCHR else if (c =? "p")%char then S_IFIFO else if (c =? "s")%char then S_IFSOCK
  else S_IFREG.

Definition bit_if (c d : ascii) (bit : Z) : Z := if (c =? d)%char then bit else 0.
Definition exec_bits (c both only : ascii) (x s : Z) : Z :=
  if (c =? "x")%char then x else if (c =? both)%char then x + s else if (c =? only)%char then s else 0.

(** Reading a mode back from its ten characters. *)
Definition parse_mode (s : string) : option Z :=
  match list_ascii_of_string s with
  | [t; a; b; c; d; e; f; g; h; i] =>
      Some (type_of_char t + bit_if a "r" 256 + bit_if b "w" 128 + exec_bits c "s" "S" 64 2048
            + bit_if d "r" 32 + bit_if e "w" 16 + exec_bits f "s" "S" 8 1024
            + bit_if g "r" 4 + bit_if h "w" 2 + exec_bits i "t" "T" 1 512)
  | _ => None
  end.

Definition known_types : list Z := [S_IFSOCK; S_IFLNK; S_IFREG; S_IFBLK; S_IFDIR; S_IFCHR; S_IFIFO].

(** The text of a mode determines it: every combination of a file type and the
    twelve permission bits reads back. *)
Theorem format_mode_roundtrip (t p : Z) (Ht : t ∈ known_types) (Hp : 0 <= p < 4096) :
  parse_mode (format_mode (t + p)) = Some (t + p).
Proof.
  assert (Forall (fun t => all_below 4096 0 (fun p => bool_decide (parse_mode (format_mode (t + p)) = Some (t + p))) = true)
            known_types) as H by (repeat (apply Forall_cons; split; [vm_compute; reflexivity|]); constructor).
  rewrite Forall_forall in H. specialize (H t Ht). apply all_below_spec with (i := p) in H; [|lia].
  by apply bool_decide_eq_true in H.
Qed.

(** ** The caches of names *)

Section IdCache.
Variable names : Z -> option string.
Implicit Types (cache : list id_cache_entry_t) (uid : Z).

(** What an entry holds for an id. *)
Definition short_name uid : string :=
  match names uid with Some s => bounded 32 s | None => bounded 32 (print_u uid) end.

Definition id_home uid : Z := uid mod ID_CACHE_SIZE.
Definition id_tab cache (x : Z) : option Z :=
  let e := aget no_entry cache x in if e_valid e then Some (id e) else None.

(** The cache holds the ids of [g], each with its name. *)
Definition id_inv cache (g : gset Z) : Prop :=
  zlen cache = ID_CACHE_SIZE /\ represents ID_CACHE_SIZE id_home (id_tab cache) g /\
  forall x, e_valid (aget no_entry cache x) = true -> name (aget no_entry cache x) = short_name (id (aget no_entry cache x)).

Lemma empty_cache_inv : id_inv empty_cache ∅.
Proof using.
  assert (forall x, aget no_entry empty_cache x = no_entry) as E by (intros x; apply aget_replicate).
  split; [done|]. split; [|intros x; by rewrite E].
  apply represents_empty. intros x _. unfold id_tab. by rewrite E.
Qed.

Lemma id_slot uid i : 0 <= uid <= UINT_MAX -> 0 <= i < ID_CACHE_SIZE ->
  Z.land (u32 (Z.land uid (ID_CACHE_SIZE - 1) + i)) (ID_CACHE_SIZE - 1) = probe_slot ID_CACHE_SIZE id_home uid i.
Proof using.
  intros Hu Hi. unfold probe_slot, id_home, ID_CACHE_SIZE in *. change (128 - 1) with (Z.ones 7).
  rewrite !Z.land_ones by lia. change (2 ^ 7) with 128. pose proof (Z.mod_pos_bound uid 128).
  rewrite u32_id by (unfold UINT_MAX; lia). done.
Qed.

(** The outcome of a lookup on a cache that holds the ids of [g]. *)
Definition id_result (g : gset Z) uid : string :=
  if decide (uid ∈ g \/ Z.of_nat (size g) < ID_CACHE_SIZE) then short_name uid else bounded 32 (print_u uid).
Definition id_add (g : gset Z) uid : gset Z :=
  if decide (uid ∈ g \/ Z.of_nat (size g) < ID_CACHE_SIZE) then {[uid]} ∪ g else g.

Lemma id_probe_spec (n : nat) : forall cache g uid i, id_inv cache g -> 0 <= uid <= UINT_MAX ->
  0 <= i -> i + Z.of_nat n = ID_CACHE_SIZE -> passed ID_CACHE_SIZE id_home (id_tab cache) uid i ->
  let '(text, cache') := id_probe names cache uid i n in
  text = id_result g uid /\ id_inv cache' (id_add g uid).
Proof using.
  induction n as [|n IH]; intros cache g uid i I Hu Hi Hn Pa; cbn [id_probe]; pose proof I as (Hl & R & Nm).
  - replace i with ID_CACHE_SIZE in Pa by lia. destruct (probe_full _ (eq_refl : 0 < ID_CACHE_SIZE) _ _ _ _ R Pa) as [H1 H2].
    unfold id_result, id_add. rewrite !decide_False by (intros [?|?]; [done|lia]). done.
  - assert (0 <= i < ID_CACHE_SIZE) as Hi' by lia. rewrite id_slot by done.
    pose proof (probe_slot_range _ (eq_refl : 0 < ID_CACHE_SIZE) id_home uid i) as Hs.
    set (slot := probe_slot _ _ _ _) in *.
    destruct (e_valid (aget no_entry cache slot)) eqn:Ev; cbn [negb].
    + destruct (Z.eqb_spec (id (aget no_entry cache slot)) uid) as [E|E].
      * assert (uid ∈ g) as Hin.
        { apply (probe_found _ (eq_refl : 0 < ID_CACHE_SIZE) _ _ _ uid i R). unfold id_tab. fold slot. by rewrite Ev, E. }
        unfold id_result, id_add. rewrite !decide_True by (by left). rewrite Nm, E by done. split; [done|].
        by rewrite subseteq_union_1_L by (by apply singleton_subseteq_l).
      * apply IH; [done|done|lia|lia|]. apply passed_step with (k' := id (aget no_entry cache slot)); [done| |done].
        unfold id_tab. fold slot. by rewrite Ev.
    + assert (id_tab cache slot = None) as T by (unfold id_tab; by rewrite Ev).
      pose proof (represents_free ID_CACHE_SIZE eq_refl id_home _ _ _ R Hs T) as Hsz.
      unfold id_result, id_add. rewrite !decide_True by (by right). split; [done|]. split; [by rewrite zlen_aset|]. split.
      * apply (probe_insert ID_CACHE_SIZE eq_refl id_home (id_tab cache) _ g uid i); try done.
        intros x Hx. unfold id_tab. fold slot. destruct (decide (x = slot)) as [->|Hne].
        -- rewrite aget_aset_eq by (by rewrite Hl). done.
        -- by rewrite aget_aset_ne.
      * intros x. destruct (decide (x = slot)) as [->|Hne]; [|rewrite aget_aset_ne by done; apply Nm].
        rewrite aget_aset_eq by (by rewrite Hl). done.
Qed.

(** Lookups in sequence, and what they amount to. *)
Fixpoint lookups cache (l : list Z) : list string :=
  match l with
  | [] => []
  | uid :: l => let '(text, cache) := id_cache_lookup_uid names cache uid in text :: lookups cache l
  end.
Fixpoint id_results (g : gset Z) (l : list Z) : list string :=
  match l with [] => [] | uid :: l => id_result g uid :: id_results (id_add g uid) l end.

(** The cache of user names (and, with the same code, that of group names) is
    transparent until it is full. Over any sequence of lookups that starts with
    the empty cache, an id that is among the first 128 distinct ones always gives
    the name the system has for it, cut to 31 characters, or its decimal form
    when it has none; every other id gives its decimal form, named or not. *)
Theorem id_cache_transparent (l : list Z) (Hl : Forall (fun uid => 0 <= uid <= UINT_MAX) l) :
  lookups empty_cache l = id_results ∅ l.
Proof using.
  assert (forall cache g, id_inv cache g -> lookups cache l = id_results g l) as H; [|apply H, empty_cache_inv].
  induction Hl as [|uid l Hu _ IH]; intros cache g I; [done|]. cbn [lookups id_results].
  unfold id_cache_lookup_uid. pose proof (id_probe_spec (Z.to_nat ID_CACHE_SIZE) cache g uid 0 I Hu) as H.
  destruct (id_probe names cache uid 0 _) as [text cache']. destruct H as [-> I']; [lia|done|intros j Hj; lia|].
  f_equal. by apply IH.
Qed.

End IdCache.

Definition demo_names (uid : Z) : option string :=
  if uid =? 0 then Some "root"%string else if uid =? 128 then Some "daemon"%string else None.

(** Two ids with the same home slot, one of them without a name. *)
Lemma id_cache_transparent_witness :
  lookups demo_names empty_cache [0; 128; 0; 256; 128] = ["root"; "daemon"; "root"; "256"; "daemon"]%string.
Proof.
  rewrite (id_cache_transparent demo_names [0; 128; 0; 256; 128]).
  - vm_compute. reflexivity.
  - repeat constructor; unfold UINT_MAX; lia.
Defined.

(** After 128 ids a user with a name is printed as a number. *)
Example cache_full_hides_names :
  last (lookups (fun _ => Some "u"%string) empty_cache (seqZ 1000 129)) = Some "1128"%string.
Proof. vm_compute. reflexivity. Qed.

(** ** The cache of dates *)

Section DateCache.
Variable localtime : Z -> option tm_t.

(** Broken-down times: the day of the year follows from the date and determines
    it, and the year has at most four characters. *)
Hypothesis Hday : forall t t' tm tm', localtime t = Some tm -> localtime t' = Some tm' ->
  tm_year tm = tm_year tm' -> tm_yday tm = tm_yday tm' -> tm_mon tm = tm_mon tm' /\ tm_mday tm = tm_mday tm'.
Hypothesis Hrange : forall t tm, localtime t = Some tm ->
  0 <= tm_yday tm < 366 /\ 0 <= tm_mon tm < 12 /\ 1 <= tm_mday tm <= 31 /\ -999 <= tm_year tm + 1900 <= 9999.

Definition date_text (t : Z) : string := match localtime t with Some tm => ymd tm | None => "----/--/--" end.

Definition date_inv (dc : date_cache_t) : Prop :=
  valid dc = true -> exists t tm, localtime t = Some tm /\ cached_day dc = tm_year tm * 400 + tm_yday tm /\ cached_str dc = ymd tm.

Lemma length_fmt_small v (k : nat) : 0 <= v < 10 ^ Z.of_nat k -> (0 < k <= 18)%nat -> (String.length (fmt_i64 v) <= k)%nat.
Proof using.
  intros Hv Hk. assert (10 ^ Z.of_nat k <= 10 ^ 18) by (apply Z.pow_le_mono_r; lia).
  rewrite fmt_i64_print by lia. unfold print_i, print_u. destruct (Z.ltb_spec v 0); [lia|].
  pose proof (length_print_digits 20 v EmptyString k Hv). cbn [String.length] in *. lia.
Qed.

Lemma length_two_digits v : 0 <= v < 100 -> (String.length (two_digits v) <= 2)%nat.
Proof using.
  intros Hv. unfold two_digits. destruct (Z.ltb_spec v 10).
  - pose proof (length_fmt_small v 1). cbn [String.length]. lia.
  - pose proof (length_fmt_small v 2). lia.
Qed.

Lemma length_ymd t tm : localtime t = Some tm -> (String.length (ymd tm) <= 10)%nat.
Proof using Hrange.
  intros H. destruct (Hrange _ _ H) as (_ & Hm & Hd & Hy). unfold ymd. rewrite !length_append.
  pose proof (length_two_digits (tm_mon tm + 1) ltac:(lia)). pose proof (length_two_digits (tm_mday tm) ltac:(lia)).
  assert (String.length (fmt_i64 (tm_year tm + 1900)) <= 4)%nat.
  { destruct (Z.le_gt_cases 0 (tm_year tm + 1900)); [apply length_fmt_small; [cbn|]; lia|].
    rewrite fmt_i64_print by lia. unfold print_i, print_u. destruct (Z.ltb_spec (tm_year tm + 1900) 0); [|lia].
    pose proof (length_print_digits 20 (- (tm_year tm + 1900)) EmptyString 3) as L. cbn [String.length] in *.
    change (10 ^ Z.of_nat 3) with 1000 in L. lia. }
  cbn [String.length]. lia.
Qed.

(** A text has no zero in it. *)
Fixpoint no_nul (s : string) : Prop := match s with String c s => c <> nul /\ no_nul s | EmptyString => True end.

Lemma no_nul_app s t : no_nul s -> no_nul t -> no_nul (s ++ t)%string.
Proof using. induction s as [|c s IH]; [done|]. cbn. intros [H1 H2] Ht. split; [done|by apply IH]. Qed.

Lemma no_nul_print fuel : forall n t, no_nul t -> no_nul (print_digits fuel n t).
Proof using.
  induction fuel as [|fuel IH]; intros n t Ht; [done|]. cbn [print_digits].
  assert (no_nul (String (digit_char (n mod 10)) t)) as H.
  { split; [|done]. intros E. assert (0 <= n mod 10 < 10) as Hm by (apply Z.mod_pos_bound; lia).
    destruct (isdigit_digit_char _ Hm) as [_ Hc]. rewrite E in Hc. change (code nul) with 0 in Hc. lia. }
  destruct (_ =? 0); [done|by apply IH].
Qed.

Lemma no_nul_fmt v : - 2 ^ 63 <= v < 2 ^ 63 -> no_nul (fmt_i64 v).
Proof using.
  intros Hv. rewrite fmt_i64_print by done. unfold print_i, print_u. destruct (v <? 0); [split; [done|]|]; by apply no_nul_print.
Qed.

Lemma no_nul_ymd t tm : localtime t = Some tm -> no_nul (ymd tm).
Proof using Hrange.
  intros H. destruct (Hrange _ _ H) as (_ & Hm & Hd & Hy). unfold ymd, two_digits.
  repeat (apply no_nul_app || apply no_nul_fmt || (destruct (_ <? 10); [cbn [no_nul]; split; [done|]|])); try done; lia.
Qed.

Lemma cstr_front s r : no_nul s -> cstr (s ++ String nul r)%string = s.
Proof using.
  intros H. unfold cstr. assert (cut nul (s ++ String nul r)%string = Some (s, r)) as ->; [|done].
  induction s as [|c s IH]; [done|]. cbn in *. destruct H as [Hc H]. destruct (Ascii.eqb_spec c nul); [done|]. by rewrite IH.
Qed.

Lemma substring_prefix s t (n : nat) : (String.length s <= n)%nat ->
  substring 0 n (s ++ t)%string = (s ++ substring 0 (n - String.length s) t)%string.
Proof using.
  revert n. induction s as [|c s IH]; intros n Hn; cbn [String.length String.append] in *.
  - by rewrite Nat.sub_0_r.
  - destruct n as [|n]; [lia|]. cbn [substring]. f_equal. apply IH. lia.
Qed.

Lemma memcpy_short s stale : no_nul s -> (String.length s <= 10)%nat -> memcpy_str 11 s stale = s.
Proof using.
  intros Hs Hl. unfold memcpy_str. rewrite substring_prefix by lia.
  destruct (11 - String.length s)%nat eqn:E; [lia|]. cbn [substring].
  rewrite append_assoc. by apply cstr_front.
Qed.

Lemma cached_short s : (String.length s <= 10)%nat -> substring 0 11 s = s.
Proof using.
  intros H. pose proof (substring_prefix s EmptyString 11) as E. rewrite append_nil in E. rewrite E by lia.
  destruct (11 - String.length s)%nat; cbn; apply append_nil.
Qed.

Lemma format_date_ok stale t dc : date_inv dc ->
  let '(text, dc') := format_date localtime stale 16 t dc in text = date_text t /\ date_inv dc'.
Proof using Hday Hrange.
  intros I. unfold format_date, date_text. destruct (localtime t) as [tm|] eqn:Et; [|done].
  pose proof (length_ymd _ _ Et) as L. destruct (valid dc && (cached_day dc =? _)) eqn:Ev.
  - apply andb_true_iff in Ev as [Ev Ed]. apply Z.eqb_eq in Ed. split; [|done].
    destruct (I Ev) as (t' & tm' & Et' & Ed' & Es). destruct (Hrange _ _ Et) as (Y & _), (Hrange _ _ Et') as (Y' & _).
    destruct (Hday _ _ _ _ Et Et') as [E1 E2]; [lia|lia|].
    assert (ymd tm' = ymd tm) as E. { unfold ymd. rewrite E1, E2. do 2 f_equal. lia. }
    rewrite Es, E. apply memcpy_short; [by eapply no_nul_ymd|done].
  - unfold strftime_ymd. destruct (Nat.ltb_spec (String.length (ymd tm)) 16); [|lia]. split; [done|].
    intros _. exists t, tm. split; [done|]. split; [done|]. by apply cached_short.
Qed.

(** The dates of the nodes in the order they are printed, each buffer with the
    bytes it happens to hold. *)
Fixpoint dates (dc : date_cache_t) (l : list (Z * string)) : list string :=
  match l with
  | [] => []
  | (t, stale) :: l => let '(text, dc) := format_date localtime stale 16 t dc in text :: dates dc l
  end.

(** The cache of dates is transparent, whatever the buffers held before, as long
    as the years have at most four characters. *)
Theorem date_cache_transparent l : dates no_date l = date_text <$> l.*1.
Proof using Hday Hrange.
  assert (forall dc, date_inv dc -> dates dc l = date_text <$> l.*1) as H; [|by apply H].
  induction l as [|[t stale] l IH]; intros dc I; [done|]. cbn [dates fmap list_fmap].
  pose proof (format_date_ok stale t dc I) as F. destruct (format_date localtime stale 16 t dc) as [text dc'].
  destruct F as [-> I']. cbn. f_equal. by apply IH.
Qed.

End DateCache.

(** From the year 10000 on the cached copy has lost its terminating zero: the
    second file of the same day gets the bytes its buffer held before. *)
Example five_digit_year :
  dates (fun t => Some {| tm_year := 8100; tm_mon := 0; tm_mday := 1; tm_yday := 0 |}) no_date
    [(0, EmptyString); (1, "???????????garbage")]%string = ["10000-01-01"; "10000-01-01garbage"]%string.
Proof. vm_compute. reflexivity. Qed.
