(* ===== verification/TreeVisited.v ===== *)
(** * atree: the set of visited directories

    [atree.c] 100-219: the lock-free hash set that keeps a directory from being
    scanned twice. [visited_insert] is the code run by one thread alone; [tstep]
    is the same code one atomic access at a time, for the interleavings of the
    worker threads (accesses are sequentially consistent). *)
From Stdlib Require Import ZArith Lia List.
From stdpp Require Import base tactics list gmap.
From S2P Require Import Prelude.

#[local] Open Scope Z_scope.

(** ** Data *)

Definition devino_t : Type := (Z * Z)%type.

(** [buckets] is empty where the code has [NULL]. *)
Record visited_set_t := { buckets : list Z; keys : list devino_t; cap : Z; count : Z }.

Definition VISITED_INIT_CAP : Z := 1048576.
Definition VISITED_LOAD_MAX : Z := 70.
Definition VISITED_PENDING : Z := 1.

Definition visited_hash (k : devino_t) : Z :=
  let h := 14695981039346656037 in
  let h := Z.lxor h (fst k) in
  let h := u64 (h * 1099511628211) in
  let h := Z.lxor h (snd k) in
  u64 (h * 1099511628211).

Definition visited_tag (k : devino_t) : Z :=
  let h := visited_hash k in if h <=? VISITED_PENDING then h + 2 else h.

(** [calloc] of [n] buckets and keys; the code asks for [VISITED_INIT_CAP]. *)
Definition visited_init (n : Z) (alloc1 alloc2 : bool) : option visited_set_t :=
  if alloc1 && alloc2 then
    Some {| buckets := replicate (Z.to_nat n) 0; keys := replicate (Z.to_nat n) (0, 0); cap := n; count := 0 |}
  else None.

Definition bucket (vs : visited_set_t) (x : Z) : Z := aget 0 (buckets vs) x.
Definition key_at (vs : visited_set_t) (x : Z) : devino_t := aget (0, 0) (keys vs) x.
Definition set_bucket (vs : visited_set_t) (x v : Z) : visited_set_t :=
  {| buckets := aset (buckets vs) x v; keys := keys vs; cap := cap vs; count := count vs |}.
Definition set_key (vs : visited_set_t) (x : Z) (k : devino_t) : visited_set_t :=
  {| buckets := buckets vs; keys := aset (keys vs) x k; cap := cap vs; count := count vs |}.
Definition add_count (vs : visited_set_t) : visited_set_t :=
  {| buckets := buckets vs; keys := keys vs; cap := cap vs; count := u64 (count vs + 1) |}.

Definition mask (vs : visited_set_t) : Z := cap vs - 1.
Definition home (vs : visited_set_t) (k : devino_t) : Z := Z.land (visited_hash k) (mask vs).
Definition next (vs : visited_set_t) (x : Z) : Z := Z.land (x + 1) (mask vs).
Definition overloaded (vs : visited_set_t) : bool := VISITED_LOAD_MAX <=? u64 (count vs * 100) / cap vs.
Definition is_key (vs : visited_set_t) (x : Z) (k : devino_t) : bool :=
  (bucket vs x =? visited_tag k) && bool_decide (key_at vs x = k).

(** ** One thread alone *)

(** The rescan from the home slot: [true] when it meets the key before [idx]. *)
Fixpoint rescan (fuel : nat) (vs : visited_set_t) (k : devino_t) (j idx : Z) : bool :=
  match fuel with
  | O => false
  | S fuel => if j =? idx then false else if is_key vs j k then true else rescan fuel vs k (next vs j) idx
  end.

Definition claim (vs : visited_set_t) (k : devino_t) (idx : Z) : bool * visited_set_t :=
  let vs := set_bucket vs idx VISITED_PENDING in
  let vs := set_key vs idx k in
  let vs := set_bucket vs idx (visited_tag k) in
  if rescan (Z.to_nat (cap vs)) vs k (home vs k) idx then (false, set_bucket vs idx 0)
  else (true, add_count vs).

Fixpoint visited_probe (n : nat) (vs : visited_set_t) (k : devino_t) (idx : Z) : bool * visited_set_t :=
  match n with
  | O => (false, vs)
  | S n =>
      if bucket vs idx =? 0 then claim vs k idx
      else if bucket vs idx =? VISITED_PENDING then visited_probe n vs k (next vs idx)
      else if is_key vs idx k then (false, vs)
      else visited_probe n vs k (next vs idx)
  end.

Definition visited_insert (vs : visited_set_t) (k : devino_t) : bool * visited_set_t :=
  if bool_decide (buckets vs = []) then (false, vs)
  else if overloaded vs then (false, vs)
  else visited_probe (Z.to_nat (cap vs)) vs k (home vs k).

(** ** Threads *)

(** What a call ended with; the slot it took is kept for the statements. *)
Inductive outcome := Inserted (idx : Z) | Duplicate (idx : option Z) | Full | Overloaded.

(** The next shared access of a call; [i] is its loop counter. *)
Inductive pc :=
  | LoadCount
  | LoadBucket (i idx : Z)
  | Cas (i idx : Z)
  | LoadKey (i idx : Z)
  | WriteKey (idx : Z)
  | Publish (idx : Z)
  | RescanBucket (idx j : Z)
  | RescanKey (idx j : Z)
  | Release (idx : Z)
  | AddCount (idx : Z)
  | Done (r : outcome).

#[export] Instance outcome_eq_dec : EqDecision outcome.
Proof. solve_decision. Defined.
#[export] Instance pc_eq_dec : EqDecision pc.
Proof. solve_decision. Defined.

(** The loop condition [i < vs->cap]. *)
Definition at_slot (vs : visited_set_t) (i idx : Z) : pc := if i <? cap vs then LoadBucket i idx else Done Full.
Definition advance (vs : visited_set_t) (i idx : Z) : pc := at_slot vs (i + 1) (next vs idx).

(** What the loop body does with a bucket that is not empty. *)
Definition examine (vs : visited_set_t) (k : devino_t) (i idx cur : Z) : pc :=
  if cur =? VISITED_PENDING then advance vs i idx
  else if cur =? visited_tag k then LoadKey i idx
  else advance vs i idx.

(** The loop condition [j != idx] of the rescan. *)
Definition rescan_at (idx j : Z) : pc := if j =? idx then AddCount idx else RescanBucket idx j.

Definition tstep (vs : visited_set_t) (k : devino_t) (p : pc) : visited_set_t * pc :=
  match p with
  | LoadCount => (vs, if overloaded vs then Done Overloaded else at_slot vs 0 (home vs k))
  | LoadBucket i idx => (vs, if bucket vs idx =? 0 then Cas i idx else examine vs k i idx (bucket vs idx))
  | Cas i idx =>
      if bucket vs idx =? 0 then (set_bucket vs idx VISITED_PENDING, WriteKey idx)
      else (vs, examine vs k i idx (bucket vs idx))
  | LoadKey i idx => (vs, if bool_decide (key_at vs idx = k) then Done (Duplicate None) else advance vs i idx)
  | WriteKey idx => (set_key vs idx k, Publish idx)
  | Publish idx => (set_bucket vs idx (visited_tag k), rescan_at idx (home vs k))
  | RescanBucket idx j =>
      (vs, if bucket vs j =? visited_tag k then RescanKey idx j else rescan_at idx (next vs j))
  | RescanKey idx j => (vs, if bool_decide (key_at vs j = k) then Release idx else rescan_at idx (next vs j))
  | Release idx => (set_bucket vs idx 0, Done (Duplicate (Some idx)))
  | AddCount idx => (add_count vs, Done (Inserted idx))
  | Done r => (vs, Done r)
  end.

(** The table and the calls in progress, each with its key. *)
Record threads_t := { table : visited_set_t; calls : list (devino_t * pc) }.

(** One call makes its next access. *)
Inductive vstep : threads_t -> threads_t -> Prop :=
  | vstep_call st t k p : calls st !! t = Some (k, p) ->
      vstep st {| table := fst (tstep (table st) k p);
                  calls := <[t := (k, snd (tstep (table st) k p))]> (calls st) |}.

(** [sched] names the call that moves at each step; others than calls do not. *)
Fixpoint run (sched : list nat) (st : threads_t) : threads_t :=
  match sched with
  | [] => st
  | t :: sched =>
      run sched (match calls st !! t with
                 | Some (k, p) => {| table := fst (tstep (table st) k p);
                                     calls := <[t := (k, snd (tstep (table st) k p))]> (calls st) |}
                 | None => st
                 end)
  end.

Definition start (vs : visited_set_t) (ks : list devino_t) : threads_t :=
  {| table := vs; calls := (fun k => (k, LoadCount)) <$> ks |}.
