(* ===== verification/TreeVisitedSpec.v ===== *)
(** * atree: what the set of visited directories guarantees

    Alone, [visited_insert] implements a finite set, up to the load limit. Between
    threads a directory may be reported as new twice, but it is never lost. *)
From Stdlib Require Import ZArith Lia List.
From stdpp Require Import base tactics list gmap.
From S2P Require Import Prelude OpenAddr TreeVisited.

#[local] Open Scope Z_scope.

(** ** One thread *)

(** The keys of the occupied slots. *)
Definition vtab (vs : visited_set_t) (x : Z) : option devino_t :=
  if bucket vs x =? 0 then None else Some (key_at vs x).

Definition vhome (n : Z) (k : devino_t) : Z := visited_hash k mod n.

(** No slot is pending, the table represents [g], and [count] is its size. *)
Record vinv (p : Z) (vs : visited_set_t) (g : gset devino_t) : Prop := {
  vi_cap : cap vs = 2 ^ p;
  vi_buckets : zlen (buckets vs) = 2 ^ p;
  vi_keys : zlen (keys vs) = 2 ^ p;
  vi_tags : forall x, 0 <= x < 2 ^ p -> bucket vs x = 0 \/ bucket vs x = visited_tag (key_at vs x);
  vi_rep : represents (2 ^ p) (vhome (2 ^ p)) (vtab vs) g;
  vi_count : count vs = Z.of_nat (size g)
}.

Lemma visited_hash_range k : 0 <= visited_hash k <= SIZE_MAX.
Proof. apply u64_range. Qed.

Lemma visited_tag_big k : 2 <= visited_tag k.
Proof.
  unfold visited_tag, VISITED_PENDING. pose proof (visited_hash_range k). destruct (Z.leb_spec (visited_hash k) 1); lia.
Qed.

Section Table.
Context (p : Z) (Hp : 0 <= p <= 57).
Abbreviation N := (2 ^ p).
Abbreviation slot := (probe_slot N (vhome N)).

Lemma cap_pos : 0 < N.
Proof using Hp. apply Z.pow_pos_nonneg; lia. Qed.

Lemma land_cap x : 0 <= x -> Z.land x (N - 1) = x mod N.
Proof using Hp. intros Hx. replace (N - 1) with (Z.ones p) by (rewrite Z.ones_equiv; lia). apply Z.land_ones. lia. Qed.

Lemma home_slot vs k : cap vs = N -> home vs k = slot k 0.
Proof using Hp.
  intros E. unfold home, mask, probe_slot, vhome. rewrite E, land_cap by apply visited_hash_range.
  rewrite Z.add_0_r, Z.mod_mod; [done|]. pose proof cap_pos. lia.
Qed.

Lemma next_slot vs k i : cap vs = N -> 0 <= i -> next vs (slot k i) = slot k (i + 1).
Proof using Hp.
  intros E Hi. pose proof cap_pos. unfold next, mask. rewrite E, land_cap.
  - unfold probe_slot. rewrite Zplus_mod_idemp_l. f_equal. lia.
  - unfold probe_slot. pose proof (Z.mod_pos_bound (vhome N k + i) N). lia.
Qed.

Lemma is_key_slot vs g k x : vinv p vs g -> 0 <= x < N -> is_key vs x k = bool_decide (vtab vs x = Some k).
Proof using Hp.
  intros I Hx. unfold is_key, vtab. pose proof (visited_tag_big k) as Hb.
  destruct (vi_tags _ _ _ I x Hx) as [E|E]; rewrite E.
  - destruct (Z.eqb_spec 0 (visited_tag k)); [lia|]. done.
  - pose proof (visited_tag_big (key_at vs x)). destruct (Z.eqb_spec (visited_tag (key_at vs x)) 0); [lia|].
    destruct (decide (key_at vs x = k)) as [->|Hn].
    + rewrite Z.eqb_refl. rewrite !bool_decide_eq_true_2 by done. done.
    + rewrite !bool_decide_eq_false_2 by congruence. apply andb_false_r.
Qed.

(** The rescan of a thread alone passes the slots it has passed before. *)
Lemma rescan_alone (fuel : nat) : forall vs k i j, cap vs = N -> 0 <= j <= i -> i < N -> (Z.to_nat (i - j) < fuel)%nat ->
  (forall m, j <= m < i -> is_key vs (slot k m) k = false) -> rescan fuel vs k (slot k j) (slot k i) = false.
Proof using Hp.
  induction fuel as [|fuel IH]; intros vs k i j Ec Hj Hi Hf Hk; [lia|]. cbn [rescan].
  destruct (Z.eqb_spec (slot k j) (slot k i)) as [E|E]; [done|].
  assert (j <> i) by (intros ->; done). rewrite Hk by lia. rewrite next_slot by (done || lia).
  apply IH; try done; try lia. intros m Hm. apply Hk. lia.
Qed.

Lemma bucket_set vs x v y : zlen (buckets vs) = N -> 0 <= x < N -> bucket (set_bucket vs x v) y = if decide (y = x) then v else bucket vs y.
Proof using Hp.
  intros E Hx. unfold bucket, set_bucket. cbn. destruct (decide (y = x)) as [->|]; [by apply aget_aset_eq; rewrite E|by apply aget_aset_ne].
Qed.

Lemma key_set vs x k y : zlen (keys vs) = N -> 0 <= x < N -> key_at (set_key vs x k) y = if decide (y = x) then k else key_at vs y.
Proof using Hp.
  intros E Hx. unfold key_at, set_key. cbn. destruct (decide (y = x)) as [->|]; [by apply aget_aset_eq; rewrite E|by apply aget_aset_ne].
Qed.

(** The table after a thread alone has published its key. *)
Definition filled vs (x : Z) (k : devino_t) : visited_set_t :=
  set_bucket (set_key (set_bucket vs x VISITED_PENDING) x k) x (visited_tag k).

Lemma filled_lookup vs g x k y : vinv p vs g -> 0 <= x < N ->
  bucket (filled vs x k) y = (if decide (y = x) then visited_tag k else bucket vs y) /\
  key_at (filled vs x k) y = if decide (y = x) then k else key_at vs y.
Proof using Hp.
  intros I Hx. unfold filled. split.
  - rewrite bucket_set by (try done; cbn; rewrite !zlen_aset; apply I). destruct (decide (y = x)); [done|].
    change (bucket (set_bucket vs x VISITED_PENDING) y = bucket vs y). rewrite bucket_set by (apply I || done).
    by rewrite decide_False.
  - change (key_at (set_key (set_bucket vs x VISITED_PENDING) x k) y = if decide (y = x) then k else key_at vs y).
    rewrite key_set by (try done; cbn; apply I). done.
Qed.

Lemma claim_spec vs g k i : vinv p vs g -> 0 <= i < N -> passed N (vhome N) (vtab vs) k i -> vtab vs (slot k i) = None ->
  claim vs k (slot k i) = (true, add_count (filled vs (slot k i) k)) /\
  vinv p (add_count (filled vs (slot k i) k)) ({[k]} ∪ g).
Proof using Hp.
  intros I Hi Pa T. pose proof cap_pos as HN. pose proof (probe_slot_range N HN (vhome N) k i) as Hs.
  pose proof (probe_free N HN (vhome N) _ g k i (vi_rep _ _ _ I) Hi Pa T) as Hk.
  set (x := slot k i) in *.
  assert (rescan (Z.to_nat (cap vs)) (filled vs x k) k (home vs k) x = false) as R.
  { rewrite (home_slot vs) by apply I. unfold x. apply rescan_alone; [apply I|lia|lia|rewrite (vi_cap _ _ _ I); lia|].
    intros m Hm. destruct (Pa m Hm) as (k' & E & Hn). pose proof (filled_lookup vs g x k (slot k m) I Hs) as [E1 E2].
    assert (slot k m <> x) as Ne by (intros Eq; apply probe_slot_inj in Eq; lia).
    rewrite decide_False in E1 by done. rewrite decide_False in E2 by done.
    pose proof (is_key_slot vs g k (slot k m) I (probe_slot_range N HN _ k m)) as E3. unfold is_key in *.
    fold x. rewrite E1, E2, E3, E. apply bool_decide_eq_false_2. congruence. }
  split.
  - unfold claim. fold (filled vs x k). change (cap (filled vs x k)) with (cap vs).
    change (home (filled vs x k) k) with (home vs k). by rewrite R.
  - assert (forall y, vtab (add_count (filled vs x k)) y = if decide (y = x) then Some k else vtab vs y) as U.
    { intros y. destruct (filled_lookup vs g x k y I Hs) as [E1 E2]. unfold vtab.
      change (bucket (add_count (filled vs x k)) y) with (bucket (filled vs x k) y).
      change (key_at (add_count (filled vs x k)) y) with (key_at (filled vs x k) y). rewrite E1, E2.
      destruct (decide (y = x)); [|done]. pose proof (visited_tag_big k). destruct (Z.eqb_spec (visited_tag k) 0); [lia|done]. }
    pose proof (represents_free N HN _ _ _ _ (vi_rep _ _ _ I) Hs T) as Hsz.
    split; [apply I|cbn; rewrite !zlen_aset; apply I|cbn; rewrite !zlen_aset; apply I| | |].
    + intros y Hy. destruct (filled_lookup vs g x k y I Hs) as [E1 E2].
      change (bucket (add_count (filled vs x k)) y) with (bucket (filled vs x k) y).
      change (key_at (add_count (filled vs x k)) y) with (key_at (filled vs x k) y). rewrite E1, E2.
      destruct (decide (y = x)); [by right|by apply (vi_tags _ _ _ I)].
    + apply (probe_insert N HN (vhome N) (vtab vs) _ g k i (vi_rep _ _ _ I) Hi Pa T). intros y _. apply U.
    + cbn. rewrite (vi_count _ _ _ I), size_union, size_singleton by (by apply disjoint_singleton_l).
      assert (N <= 2 ^ 57) by (apply Z.pow_le_mono_r; lia). rewrite u64_id by (unfold SIZE_MAX; lia). lia.
Qed.

Lemma visited_probe_spec (n : nat) : forall vs g k i, vinv p vs g -> 0 <= i -> i + Z.of_nat n = N ->
  passed N (vhome N) (vtab vs) k i -> Z.of_nat (size g) < N ->
  let '(new, vs') := visited_probe n vs k (slot k i) in
  new = bool_decide (k ∉ g) /\ vinv p vs' ({[k]} ∪ g) /\ (k ∈ g -> vs' = vs).
Proof using Hp.
  pose proof cap_pos as HN.
  induction n as [|n IH]; intros vs g k i I Hi Hn Pa Hsz; cbn [visited_probe].
  - replace i with N in Pa by lia. destruct (probe_full N HN _ _ _ _ (vi_rep _ _ _ I) Pa). lia.
  - assert (0 <= i < N) as Hi' by lia. pose proof (probe_slot_range N HN (vhome N) k i) as Hs.
    destruct (Z.eqb_spec (bucket vs (slot k i)) 0) as [E|E].
    + assert (vtab vs (slot k i) = None) as T. { unfold vtab. by rewrite E. }
      destruct (claim_spec vs g k i I Hi' Pa T) as [-> I'].
      pose proof (probe_free N HN (vhome N) _ g k i (vi_rep _ _ _ I) Hi' Pa T) as Hk.
      split; [|done]. symmetry. by apply bool_decide_eq_true_2.
    + destruct (vi_tags _ _ _ I _ Hs) as [?|Et]; [done|].
      pose proof (visited_tag_big (key_at vs (slot k i))). unfold VISITED_PENDING.
      destruct (Z.eqb_spec (bucket vs (slot k i)) 1); [lia|].
      assert (vtab vs (slot k i) = Some (key_at vs (slot k i))) as T. { unfold vtab. by destruct (Z.eqb_spec (bucket vs (slot k i)) 0). }
      rewrite (is_key_slot vs g) by done. case_bool_decide as Ek.
      * pose proof (probe_found N HN _ _ _ _ _ (vi_rep _ _ _ I) Ek) as Hin. split.
        -- symmetry. apply bool_decide_eq_false_2. by intros ?.
        -- split; [|done]. by rewrite subseteq_union_1_L by (by apply singleton_subseteq_l).
      * rewrite next_slot by (apply I || lia). apply IH; [done|lia|lia| |done].
        eapply passed_step; [done|done|congruence].
Qed.
End Table.

(** Insertions in sequence, and what they amount to: [true] for an element that
    is new, as long as the set is below its load limit. *)
Fixpoint inserts (vs : visited_set_t) (l : list devino_t) : list bool :=
  match l with [] => [] | k :: l => let '(new, vs) := visited_insert vs k in new :: inserts vs l end.

Fixpoint insert_results (n : Z) (g : gset devino_t) (l : list devino_t) : list bool :=
  match l with
  | [] => []
  | k :: l =>
      if VISITED_LOAD_MAX <=? Z.of_nat (size g) * 100 / n then false :: insert_results n g l
      else bool_decide (k ∉ g) :: insert_results n ({[k]} ∪ g) l
  end.

Lemma visited_init_inv p vs : 0 <= p -> visited_init (2 ^ p) true true = Some vs -> vinv p vs ∅.
Proof.
  intros Hp E. injection E as <-. pose proof (Z.pow_pos_nonneg 2 p). split; cbn; try done.
  - unfold zlen. rewrite length_replicate. lia.
  - unfold zlen. rewrite length_replicate. lia.
  - intros x _. left. apply aget_replicate.
  - apply represents_empty. intros x _. unfold vtab, bucket. cbn. by rewrite aget_replicate.
Qed.

(** The table after a sequence of insertions, and the directories in a table. *)
Fixpoint inserted (vs : visited_set_t) (l : list devino_t) : visited_set_t :=
  match l with [] => vs | k :: l => inserted (snd (visited_insert vs k)) l end.

Definition members (vs : visited_set_t) : gset devino_t :=
  list_to_set (omap (vtab vs) (seqZ 0 (cap vs))).

Definition full (vs : visited_set_t) : bool :=
  VISITED_LOAD_MAX <=? Z.of_nat (size (members vs)) * 100 / cap vs.

Section Inserts.
Context (p : Z) (Hp : 0 <= p <= 57).

Lemma members_spec vs g : vinv p vs g -> members vs = g.
Proof using.
  intros I. apply set_eq. intros k. unfold members. rewrite elem_of_list_to_set, list_elem_of_omap.
  destruct (vi_rep _ _ _ I) as [_ R]. rewrite R, (vi_cap _ _ _ I). split.
  - intros (x & Hx & E). apply elem_of_seqZ in Hx. exists x. split; [lia|done].
  - intros (x & Hx & E). exists x. split; [apply elem_of_seqZ; lia|done].
Qed.

Lemma visited_insert_spec vs g k : vinv p vs g ->
  let f := VISITED_LOAD_MAX <=? Z.of_nat (size g) * 100 / 2 ^ p in
  exists vs', visited_insert vs k = (negb f && bool_decide (k ∉ g), vs') /\
    vinv p vs' (if f then g else {[k]} ∪ g) /\ (f = true \/ k ∈ g -> vs' = vs).
Proof using Hp.
  intros I. pose proof (cap_pos p Hp) as HN. cbv zeta.
  assert (2 ^ p <= 2 ^ 57) by (apply Z.pow_le_mono_r; lia). unfold visited_insert.
  rewrite bool_decide_eq_false_2. 2:{ intros E. pose proof (vi_buckets _ _ _ I) as B. rewrite E, zlen_nil in B. lia. }
  assert (Z.of_nat (size g) <= 2 ^ p) as Hle.
  { rewrite (represents_size _ _ _ _ (vi_rep _ _ _ I)). pose proof (length_omap_le (vtab vs) (seqZ 0 (2 ^ p))) as L.
    rewrite length_seqZ in L. lia. }
  unfold overloaded. rewrite (vi_count _ _ _ I), (vi_cap _ _ _ I), u64_id by (unfold SIZE_MAX; lia).
  destruct (Z.leb_spec VISITED_LOAD_MAX (Z.of_nat (size g) * 100 / 2 ^ p)) as [L|L]; [by exists vs|].
  assert (Z.of_nat (size g) < 2 ^ p) as Hlt.
  { apply Z.le_neq. split; [done|]. intros E. rewrite E in L. rewrite Z.mul_comm, Z.div_mul in L by lia. unfold VISITED_LOAD_MAX in L. lia. }
  rewrite (home_slot p Hp) by apply I.
  pose proof (visited_probe_spec p Hp (Z.to_nat (2 ^ p)) vs g k 0 I) as H1.
  destruct (visited_probe (Z.to_nat (2 ^ p)) vs k _) as [new vs'].
  destruct H1 as (-> & I' & Hs); [lia|lia|apply passed_0|done|].
  exists vs'. split; [done|]. split; [done|]. intros [?|?]; [done|by apply Hs].
Qed.

Lemma after_inv l : forall vs g, vinv p vs g -> exists g', vinv p (inserted vs l) g'.
Proof using Hp.
  induction l as [|k l IH]; intros vs g I; [by exists g|]. cbn [inserted].
  destruct (visited_insert_spec vs g k I) as (vs' & -> & I' & _). by eapply IH.
Qed.

Lemma inserts_spec l : forall vs g, vinv p vs g -> inserts vs l = insert_results (2 ^ p) g l.
Proof using Hp.
  induction l as [|k l IH]; intros vs g I; [done|]. cbn [inserts insert_results].
  destruct (visited_insert_spec vs g k I) as (vs' & -> & I' & Hs).
  destruct (Z.leb_spec VISITED_LOAD_MAX (Z.of_nat (size g) * 100 / 2 ^ p)) as [L|L]; cbn [negb andb];
    f_equal; by apply IH.
Qed.
End Inserts.

(** C19. For one thread the set of visited directories is a set, up to its load
    limit. In any sequence of insertions into a new table (both allocations of it
    succeeded) whose capacity is a power of two up to 2^57, an insertion reports
    its directory as new exactly when it is its first, until 70 percent of the
    slots are taken; from then on none does. After any such sequence, an insertion adds its directory to those in the table and
    nothing else; when the table is full or holds the directory already, every
    slot, key and count of the table is left as it is. *)
Theorem visited_insert_is_set (p : Z) (vs : visited_set_t) (l : list devino_t)
    (Hp : 0 <= p <= 57) (Hvs : visited_init (2 ^ p) true true = Some vs) :
  inserts vs l = insert_results (2 ^ p) ∅ l /\
  forall k, let vs1 := inserted vs l in
    exists vs2, visited_insert vs1 k = (negb (full vs1) && bool_decide (k ∉ members vs1), vs2) /\
      members vs2 = (if full vs1 then members vs1 else {[k]} ∪ members vs1) /\
      (full vs1 = true \/ k ∈ members vs1 -> vs2 = vs1).
Proof.
  pose proof (visited_init_inv p vs (proj1 Hp) Hvs) as I0. split; [by apply inserts_spec|].
  intros k. destruct (after_inv p Hp l vs ∅ I0) as (g & I). cbv zeta. unfold full.
  rewrite (members_spec p _ g I), (vi_cap _ _ _ I).
  destruct (visited_insert_spec p Hp _ g k I) as (vs2 & E & I2 & Hs). exists vs2.
  split; [exact E|]. split; [exact (members_spec p _ _ I2)|exact Hs].
Qed.

(** Eight slots take six directories. *)
Lemma visited_insert_is_set_witness :
  inserts (default {| buckets := []; keys := []; cap := 0; count := 0 |} (visited_init 8 true true))
    [(1, 5); (1, 13); (1, 5); (1, 0); (1, 1); (1, 2); (1, 2); (1, 3); (1, 4); (1, 5)]
  = [true; true; false; true; true; true; false; true; false; false].
Proof.
  destruct (visited_insert_is_set 3 (default {| buckets := []; keys := []; cap := 0; count := 0 |} (visited_init 8 true true))
    [(1, 5); (1, 13); (1, 5); (1, 0); (1, 1); (1, 2); (1, 2); (1, 3); (1, 4); (1, 5)]) as [E _].
  - lia.
  - reflexivity.
  - rewrite E. vm_compute. reflexivity.
Defined.

(** ** A call of the machine, alone *)

Definition tsteps (k : devino_t) (n : nat) (c : visited_set_t * pc) : visited_set_t * pc :=
  Nat.iter n (fun c => tstep (fst c) k (snd c)) c.

Definition is_inserted (r : outcome) : bool := match r with Inserted _ => true | _ => false end.

(** From [c] the call ends with [res], if no other thread moves. *)
Definition ends (k : devino_t) (c : visited_set_t * pc) (res : bool * visited_set_t) : Prop :=
  exists n r, tsteps k n c = (snd res, Done r) /\ is_inserted r = fst res.

Lemma ends_step k c res : ends k (tstep (fst c) k (snd c)) res -> ends k c res.
Proof.
  intros (n & r & E & B). exists (S n), r. split; [|done]. unfold tsteps in *. by rewrite Nat.iter_succ_r.
Qed.

Lemma ends_done k vs r b : is_inserted r = b -> ends k (vs, Done r) (b, vs).
Proof. intros E. by exists O, r. Qed.

Section Alone.
Context (p : Z) (Hp : 0 <= p <= 57).
Abbreviation N := (2 ^ p).
Abbreviation slot := (probe_slot N (vhome N)).

Lemma rescan_ends (fuel : nat) : forall vs k i j, cap vs = N -> 0 <= j <= i -> i < N -> (Z.to_nat (i - j) < fuel)%nat ->
  ends k (vs, rescan_at (slot k i) (slot k j))
    (if rescan fuel vs k (slot k j) (slot k i) then (false, set_bucket vs (slot k i) 0) else (true, add_count vs)).
Proof using Hp.
  induction fuel as [|fuel IH]; intros vs k i j Ec Hj Hi Hf; [lia|]. cbn [rescan]. unfold rescan_at.
  destruct (Z.eqb_spec (slot k j) (slot k i)) as [E|E].
  { apply ends_step. by apply ends_done. }
  assert (j <> i) by (intros ->; done). unfold is_key.
  apply ends_step. cbn [tstep fst snd]. destruct (Z.eqb_spec (bucket vs (slot k j)) (visited_tag k)) as [Eb|Eb]; cbn [andb].
  - apply ends_step. cbn [tstep fst snd]. case_bool_decide.
    + apply ends_step. by apply ends_done.
    + rewrite next_slot by (done || lia). apply IH; lia || done.
  - rewrite next_slot by (done || lia). apply IH; lia || done.
Qed.

Lemma probe_ends (n : nat) : forall vs k i, cap vs = N -> 0 <= i -> i + Z.of_nat n = N ->
  ends k (vs, at_slot vs i (slot k i)) (visited_probe n vs k (slot k i)).
Proof using Hp.
  induction n as [|n IH]; intros vs k i Ec Hi Hn; cbn [visited_probe]; unfold at_slot; rewrite Ec; zcase; try lia.
  { by apply ends_done. }
  assert (forall P : visited_set_t * pc -> Prop, P (vs, at_slot vs (i + 1) (slot k (i + 1))) -> P (vs, advance vs i (slot k i))) as Adv.
  { intros P. unfold advance. by rewrite next_slot. }
  apply ends_step. cbn [tstep fst snd]. destruct (Z.eqb_spec (bucket vs (slot k i)) 0) as [E|E].
  - do 3 (apply ends_step; cbn [tstep fst snd]; rewrite ?(proj2 (Z.eqb_eq _ _) E)).
    unfold claim. set (vs' := set_bucket (set_key _ _ _) _ _).
    change (home (set_key (set_bucket vs (slot k i) VISITED_PENDING) (slot k i) k) k) with (home vs' k).
    change (cap (set_key (set_bucket vs (slot k i) VISITED_PENDING) (slot k i) k)) with (cap vs').
    change (home vs k) with (home vs' k). change (cap vs) with (cap vs'). rewrite (home_slot p Hp vs' k Ec).
    apply (rescan_ends _ vs'); [done|lia|lia|]. change (cap vs') with (cap vs). lia.
  - unfold examine. destruct (bucket vs (slot k i) =? VISITED_PENDING); [apply Adv; rewrite next_slot by done; apply IH; lia || done|].
    unfold is_key. destruct (bucket vs (slot k i) =? visited_tag k); cbn [andb].
    + apply ends_step. cbn [tstep fst snd]. case_bool_decide; [by apply ends_done|].
      apply Adv. rewrite next_slot by done. apply IH; lia || done.
    + apply Adv. rewrite next_slot by done. apply IH; lia || done.
Qed.
End Alone.

(** The machine refines the code: a call that no other thread interrupts ends
    with the result and the table of [visited_insert]. *)
Theorem visited_insert_alone (p : Z) (vs : visited_set_t) (k : devino_t)
    (Hp : 0 <= p <= 57) (Hcap : cap vs = 2 ^ p) (Hb : buckets vs <> []) :
  ends k (vs, LoadCount) (visited_insert vs k).
Proof.
  apply ends_step. cbn [tstep fst snd]. unfold visited_insert. rewrite bool_decide_eq_false_2 by done.
  destruct (overloaded vs); [by apply ends_done|]. rewrite (home_slot p Hp) by done.
  pose proof (cap_pos p Hp). apply (probe_ends p Hp); [done|lia|lia].
Qed.

(** ** Between threads *)

(** The slot a call has written its key to. *)
Definition wrote (q : pc) : option Z :=
  match q with
  | Publish x | RescanBucket x _ | RescanKey x _ | Release x | AddCount x => Some x
  | Done (Inserted x) => Some x
  | Done (Duplicate x) => x
  | _ => None
  end.

(** The call is past the claim of its slot and has not given it back. *)
Definition holding (q : pc) : Prop :=
  match q with
  | Publish _ | RescanBucket _ _ | RescanKey _ _ | Release _ | AddCount _ | Done (Inserted _) => True
  | _ => False
  end.

Section Threads.
Context (p : Z) (Hp : 0 <= p <= 57).
Abbreviation N := (2 ^ p).
Abbreviation slot := (probe_slot N (vhome N)).
Implicit Types (st : threads_t) (k : devino_t) (q : pc).

(** The place of a slot in the probe of [k]. *)
Definition dist k (x : Z) : Z := (x - vhome N k) mod N.

Lemma dist_slot k i : 0 <= i < N -> dist k (slot k i) = i.
Proof using.
  intros Hi. unfold dist, probe_slot. rewrite Zminus_mod_idemp_l. replace (vhome N k + i - vhome N k) with i by lia.
  by apply Z.mod_small.
Qed.

Lemma slot_dist k x : 0 <= x < N -> slot k (dist k x) = x.
Proof using.
  intros Hx. unfold dist, probe_slot. rewrite Zplus_mod_idemp_r. replace (vhome N k + (x - vhome N k)) with x by lia.
  by apply Z.mod_small.
Qed.

Lemma dist_range k x : 0 <= dist k x < N.
Proof using Hp. apply Z.mod_pos_bound. by apply cap_pos. Qed.

Definition written_by st (x : Z) : Prop :=
  exists t k q, calls st !! t = Some (k, q) /\ wrote q = Some x /\ key_at (table st) x = k.
Definition some_writer st k : Prop := exists t q y, calls st !! t = Some (k, q) /\ wrote q = Some y.
Definition earlier st k (x : Z) : Prop :=
  exists t q y, calls st !! t = Some (k, q) /\ wrote q = Some y /\ dist k y < dist k x.

Definition call_ok st k q : Prop :=
  match q with
  | LoadBucket i x | Cas i x => 0 <= i < N /\ x = slot k i
  | LoadKey i x => 0 <= i < N /\ x = slot k i /\ written_by st x
  | WriteKey x => 0 <= x < N
  | Publish x => 0 <= x < N /\ written_by st x
  | RescanBucket x j => 0 <= x < N /\ 0 <= j < N /\ dist k j < dist k x
  | RescanKey x j => 0 <= x < N /\ 0 <= j < N /\ dist k j < dist k x /\ written_by st j
  | Release x => 0 <= x < N /\ earlier st k x
  | Done (Duplicate None) => some_writer st k
  | Done (Duplicate (Some x)) => earlier st k x
  | _ => True
  end.

Record tinv st : Prop := {
  ti_cap : cap (table st) = N;
  ti_buckets : zlen (buckets (table st)) = N;
  ti_keys : zlen (keys (table st)) = N;
  ti_written : forall x, 0 <= x < N -> 2 <= bucket (table st) x -> written_by st x;
  ti_calls : forall t k q, calls st !! t = Some (k, q) -> call_ok st k q
}.

(** A call keeps the slot it has written. *)
Lemma wrote_step vs k q x : wrote q = Some x -> wrote (snd (tstep vs k q)) = Some x.
Proof using.
  destruct q; cbn; try done; unfold rescan_at; intros [= <-];
    repeat (case_match; cbn; try done).
Qed.

Definition after st (t : nat) k q : threads_t :=
  {| table := fst (tstep (table st) k q); calls := <[t := (k, snd (tstep (table st) k q))]> (calls st) |}.

Lemma calls_after st t k q t' k' q' : calls st !! t = Some (k, q) -> calls st !! t' = Some (k', q') ->
  exists q2, calls (after st t k q) !! t' = Some (k', q2) /\ forall y, wrote q' = Some y -> wrote q2 = Some y.
Proof using.
  intros H H'. cbn. destruct (decide (t' = t)) as [->|Hne].
  - rewrite list_lookup_insert_eq by (by eapply lookup_lt_Some). rewrite H in H'. injection H' as <- <-.
    eexists. split; [done|]. intros y. apply wrote_step.
  - rewrite list_lookup_insert_ne by done. by exists q'.
Qed.

Lemma some_writer_after st t k q k' : calls st !! t = Some (k, q) -> some_writer st k' -> some_writer (after st t k q) k'.
Proof using.
  intros H (t' & q' & y & C & W). destruct (calls_after _ _ _ _ _ _ _ H C) as (q2 & C2 & W2). exists t', q2, y. by auto.
Qed.

Lemma earlier_after st t k q k' x : calls st !! t = Some (k, q) -> earlier st k' x -> earlier (after st t k q) k' x.
Proof using.
  intros H (t' & q' & y & C & W & D). destruct (calls_after _ _ _ _ _ _ _ H C) as (q2 & C2 & W2). exists t', q2, y. by auto.
Qed.

(** Keys change only when a call writes its own. *)
Lemma key_step vs k q x : zlen (keys vs) = N -> (forall y, q = WriteKey y -> 0 <= y < N) ->
  key_at (fst (tstep vs k q)) x = if decide (q = WriteKey x) then k else key_at vs x.
Proof using Hp.
  intros L Hr. destruct q as [| | | |y| | | | | |]; cbn; try (rewrite decide_False by done; done).
  - rewrite decide_False by done. by destruct (bucket vs idx =? 0).
  - rewrite (key_set p Hp) by auto. destruct (decide (x = y)) as [->|]; [by rewrite decide_True|rewrite decide_False by congruence; done].
Qed.

Lemma written_after st t k q x : tinv st -> calls st !! t = Some (k, q) -> written_by st x -> written_by (after st t k q) x.
Proof using Hp.
  intros I H (t' & k' & q' & C & W & K).
  assert (forall y, q = WriteKey y -> 0 <= y < N) as Hr.
  { intros y ->. exact (ti_calls _ I _ _ _ H). }
  destruct (decide (q = WriteKey x)) as [->|Hn].
  - exists t, k, (Publish x). cbn [after calls table tstep fst snd]. split; [apply list_lookup_insert_eq; by eapply lookup_lt_Some|].
    split; [done|]. rewrite (key_set p Hp); [by rewrite decide_True|apply I|by apply Hr].
  - destruct (calls_after _ _ _ _ _ _ _ H C) as (q2 & C2 & W2). exists t', k', q2. split; [done|]. split; [by apply W2|].
    cbn [after table]. rewrite key_step by (apply I || done). by rewrite decide_False.
Qed.

Lemma call_ok_after st t k q k' q' : tinv st -> calls st !! t = Some (k, q) -> call_ok st k' q' -> call_ok (after st t k q) k' q'.
Proof using Hp.
  intros I H. destruct q'; cbn [call_ok]; try done.
  - intros (? & ? & ?). by auto using written_after.
  - intros (? & ?). by auto using written_after.
  - intros (? & ? & ? & ?). by auto using written_after.
  - intros (? & ?). by auto using earlier_after.
  - destruct r as [|[x|]| |]; try done; [apply earlier_after|apply some_writer_after]; done.
Qed.

Lemma next_dist vs k x j : cap vs = N -> 0 <= x < N -> 0 <= j < N -> dist k j < dist k x ->
  0 <= next vs j < N /\ dist k (next vs j) = dist k j + 1.
Proof using Hp.
  intros Ec Hx Hj D. pose proof (cap_pos p Hp). pose proof (dist_range k x). pose proof (dist_range k j).
  rewrite <- (slot_dist k j) at 1 2 3 by done. rewrite (next_slot p Hp) by (done || lia). split; [by apply probe_slot_range|].
  apply dist_slot. lia.
Qed.

Lemma rescan_at_ok st k x j : 0 <= x < N -> 0 <= j < N -> dist k j <= dist k x -> call_ok st k (rescan_at x j).
Proof using.
  intros Hx Hj D. unfold rescan_at. destruct (Z.eqb_spec j x) as [|Hn]; [done|]. cbn. split; [done|]. split; [done|].
  apply Z.le_neq. split; [done|]. intros E. apply Hn. rewrite <- (slot_dist k j), <- (slot_dist k x), E by done. done.
Qed.

Lemma at_slot_ok st k i x vs : cap vs = N -> 0 <= i -> x = slot k i -> call_ok st k (at_slot vs i x).
Proof using. intros Ec Hi ->. unfold at_slot. rewrite Ec. destruct (Z.ltb_spec i N); [cbn; auto|done]. Qed.

Lemma advance_ok st k i x vs : cap vs = N -> 0 <= i -> x = slot k i -> call_ok st k (advance vs i x).
Proof using Hp. intros Ec Hi ->. apply at_slot_ok; [done|lia|by apply next_slot]. Qed.

Lemma self_after st t k q : calls st !! t = Some (k, q) ->
  calls (after st t k q) !! t = Some (k, snd (tstep (table st) k q)).
Proof using. intros H. cbn. apply list_lookup_insert_eq. by eapply lookup_lt_Some. Qed.

(** A call that sees the tag of its key looks at a slot somebody has written. *)
Lemma tag_written st x v k : tinv st -> 0 <= x < N -> bucket (table st) x = v -> v = visited_tag k -> written_by st x.
Proof using. intros I Hx E ->. apply (ti_written _ I x Hx). rewrite E. apply visited_tag_big. Qed.

Lemma examine_ok st k i x : tinv st -> 0 <= i < N -> x = slot k i -> call_ok st k (examine (table st) k i x (bucket (table st) x)).
Proof using Hp.
  intros I Hi ->. unfold examine. destruct (_ =? VISITED_PENDING); [apply advance_ok; [apply I|lia|done]|].
  destruct (Z.eqb_spec (bucket (table st) (slot k i)) (visited_tag k)) as [E|E]; [|apply advance_ok; [apply I|lia|done]].
  cbn. split; [done|]. split; [done|]. eapply tag_written; [done|apply probe_slot_range; by apply cap_pos|done|done].
Qed.

Lemma writer_earlier st k x j : written_by st j -> key_at (table st) j = k -> 0 <= j < N -> dist k j < dist k x -> earlier st k x.
Proof using. intros (t & k' & q & C & W & K) E Hj D. exists t, q, j. split; [|done]. congruence. Qed.

(** The call that moves is in order afterwards, as seen in the old state. *)
Lemma own_step_ok st t k q : tinv st -> calls st !! t = Some (k, q) -> (forall x, q <> WriteKey x) ->
  call_ok st k (snd (tstep (table st) k q)).
Proof using Hp.
  intros I H Hw. pose proof (ti_calls _ I _ _ _ H) as Ok. pose proof (ti_cap _ I) as Ec. pose proof (cap_pos p Hp) as HN.
  destruct q as [|i x|i x|i x|x|x|x j|x j|x|x|r]; cbn [tstep snd call_ok] in *.
  - destruct (overloaded _); [done|]. apply at_slot_ok; [done|lia|by apply (home_slot p Hp)].
  - destruct Ok as [Hi ->]. destruct (_ =? 0); [done|by apply examine_ok].
  - destruct Ok as [Hi ->]. destruct (_ =? 0); [apply probe_slot_range; lia|by apply examine_ok].
  - destruct Ok as (Hi & Hx & t' & k' & q' & C & W & K). case_bool_decide as E; [|apply advance_ok; [done|lia|done]].
    exists t', q', x. split; [|done]. congruence.
  - by destruct (Hw x).
  - destruct Ok as [Hx _]. apply rescan_at_ok; [done|rewrite (home_slot p Hp) by done; by apply probe_slot_range|].
    rewrite (home_slot p Hp) by done. rewrite dist_slot by lia. apply dist_range.
  - destruct Ok as (Hx & Hj & D). destruct (Z.eqb_spec (bucket (table st) j) (visited_tag k)) as [E|E].
    + cbn. repeat (split; [done|]). by eapply tag_written.
    + destruct (next_dist (table st) k x j Ec Hx Hj D). apply rescan_at_ok; [done|done|lia].
  - destruct Ok as (Hx & Hj & D & W). case_bool_decide as E.
    + split; [done|]. by eapply writer_earlier.
    + destruct (next_dist (table st) k x j Ec Hx Hj D). apply rescan_at_ok; [done|done|lia].
  - by destruct Ok.
  - done.
  - done.
Qed.

Lemma lengths_step vs k q : cap (fst (tstep vs k q)) = cap vs /\ zlen (buckets (fst (tstep vs k q))) = zlen (buckets vs) /\
  zlen (keys (fst (tstep vs k q))) = zlen (keys vs).
Proof using. destruct q; cbn; rewrite ?zlen_aset; try done. by destruct (_ =? 0); cbn; rewrite ?zlen_aset. Qed.

Lemma written_step st t k q x : tinv st -> calls st !! t = Some (k, q) -> 0 <= x < N ->
  2 <= bucket (table (after st t k q)) x -> written_by (after st t k q) x.
Proof using Hp.
  intros I H Hx B. pose proof (ti_calls _ I _ _ _ H) as Ok. pose proof (ti_buckets _ I) as L.
  assert (forall y v, 0 <= y < N -> 2 <= bucket (set_bucket (table st) y v) x -> v < 2 \/ written_by st y ->
            written_by (after st t k q) x) as Set_.
  { intros y v Hy B' Hv. rewrite (bucket_set p Hp) in B' by done. apply written_after; [done|done|].
    destruct (decide (x = y)) as [->|]; [|by apply (ti_written _ I)]. destruct Hv; [lia|done]. }
  assert (2 <= bucket (table st) x -> written_by (after st t k q) x) as Same.
  { intros B'. apply written_after; [done|done|]. by apply (ti_written _ I). }
  destruct q as [|i y|i y|i y|y|y|y j|y j|y|y|r]; cbn [tstep after table fst call_ok] in *; try by apply Same.
  - destruct Ok as [Hi ->]. destruct (_ =? 0); [|by apply Same]. apply (Set_ (slot k i) VISITED_PENDING); [|done|by left].
    apply probe_slot_range. by apply cap_pos.
  - destruct Ok as [Hy W]. by apply (Set_ y (visited_tag k)); [|done|right].
  - destruct Ok as [Hy W]. by apply (Set_ y 0); [|done|left].
Qed.

Lemma tinv_step st st' : tinv st -> vstep st st' -> tinv st'.
Proof using Hp.
  intros I St. destruct St as [st t k q H]. fold (after st t k q).
  destruct (lengths_step (table st) k q) as (E1 & E2 & E3).
  split; [rewrite <- (ti_cap _ I); exact E1|rewrite <- (ti_buckets _ I); exact E2|rewrite <- (ti_keys _ I); exact E3| |].
  - intros x Hx B. by apply written_step.
  - intros t' k' q' H'. destruct (decide (t' = t)) as [->|Hne].
    + rewrite (self_after _ _ _ _ H) in H'. injection H' as <- <-.
      assert ((exists x, q = WriteKey x) \/ ~ (exists x, q = WriteKey x)) as [[x ->]|Hw]
        by (destruct q; [right| | | |left| | | | | |]; try (right; by intros [? ?]); [by intros [? ?]|by eexists]).
      * pose proof (ti_calls _ I _ _ _ H) as Hx. cbn in Hx |- *. split; [done|].
        exists t, k, (Publish x). split; [by apply self_after in H|]. split; [done|].
        cbn. rewrite (key_set p Hp) by (apply I || done). by rewrite decide_True.
      * apply call_ok_after; [done|done|]. apply (own_step_ok _ t); [done|done|]. intros x ->. apply Hw. by exists x.
    + cbn in H'. rewrite list_lookup_insert_ne in H' by done. apply call_ok_after; [done|done|]. by eapply ti_calls.
Qed.

(** Among the calls that have written a key, the one nearest to its home holds. *)
Lemma nearest_holds st k : tinv st -> some_writer st k -> exists t q, calls st !! t = Some (k, q) /\ holding q.
Proof using Hp.
  intros I (t & q & y & C & W). remember (Z.to_nat (dist k y)) as n eqn:En. revert t q y C W En.
  induction n as [n IH] using lt_wf_ind. intros t q y C W ->. pose proof (ti_calls _ I _ _ _ C) as Ok.
  assert (earlier st k y -> exists t q, calls st !! t = Some (k, q) /\ holding q) as Rec.
  { intros (t' & q' & y' & C' & W' & D). pose proof (dist_range k y'). eapply (IH (Z.to_nat (dist k y'))); [lia|done|done|done]. }
  destruct q as [| | | | | | | | | |[x|[x|]| |]]; cbn in W; try done; try (by exists t; eexists); injection W as ->.
  by apply Rec.
Qed.
End Threads.

Lemma start_inv p vs ks : 0 <= p -> visited_init (2 ^ p) true true = Some vs -> tinv p (start vs ks).
Proof.
  intros Hp E. pose proof (visited_init_inv p vs Hp E) as I. injection E as <-. split; cbn; [done|apply I|apply I| |].
  - intros x _. unfold bucket. cbn. rewrite aget_replicate. lia.
  - intros t k q H. apply list_lookup_fmap_Some in H as (k' & [= -> ->] & _). done.
Qed.

(** C20. No directory is lost between threads. However the accesses of any number
    of insertions interleave, whenever one of them has reported its directory as
    seen before, another insertion of the same directory has reported it as new
    or is past the point where it can fail; when all insertions have returned,
    one has reported it as new. (Two may have.) *)
Theorem visited_never_lost (p : Z) (vs : visited_set_t) (ks : list devino_t) (st : threads_t)
    (t : nat) (k : devino_t) (c : option Z)
    (Hp : 0 <= p <= 57) (Hvs : visited_init (2 ^ p) true true = Some vs)
    (Hst : rtc vstep (start vs ks) st) (Ht : calls st !! t = Some (k, Done (Duplicate c))) :
  exists (t' : nat) (q : pc), calls st !! t' = Some (k, q) /\ holding q /\
    (Forall (fun c => exists r, snd c = Done r) (calls st) -> exists x, q = Done (Inserted x)).
Proof.
  assert (tinv p st) as I.
  { pose proof (start_inv p vs ks (proj1 Hp) Hvs) as I. clear Ht. induction Hst as [|a b d Hab _ IH]; [done|].
    apply IH. by eapply tinv_step. }
  assert (some_writer st k) as W.
  { pose proof (ti_calls _ _ I _ _ _ Ht) as Ok. destruct c as [x|]; [|done]. destruct Ok as (t' & q & y & C & W & _).
    by exists t', q, y. }
  destruct (nearest_holds p Hp st k I W) as (t' & q & C & Hq). exists t', q. split; [done|]. split; [done|].
  intros All. rewrite Forall_lookup in All. destruct (All _ _ C) as [r Er]. cbn in Er. subst q.
  destruct r as [x|c'| |]; try done. by exists x.
Qed.

Definition demo_set : visited_set_t := default {| buckets := []; keys := []; cap := 0; count := 0 |} (visited_init 8 true true).

Lemma run_steps sched : forall st, rtc vstep st (run sched st).
Proof.
  induction sched as [|t sched IH]; intros st; [done|]. cbn. destruct (calls st !! t) as [[k q]|] eqn:E; [|done].
  eapply rtc_l; [|apply IH]. by apply vstep_call.
Qed.

(** The run in which the second of two threads gives its slot back. *)
Definition demo_sched : list nat := [0; 0; 0; 1; 1; 1; 0; 0; 0]%nat ++ replicate 8 1%nat.

Lemma visited_never_lost_witness :
  let st := run demo_sched (start demo_set [(1, 5); (1, 5)]) in
  calls st !! 1%nat = Some ((1, 5), Done (Duplicate (Some 4))) /\
  exists (t' : nat) (q : pc), calls st !! t' = Some ((1, 5), q) /\ holding q /\
    (Forall (fun c => exists r, snd c = Done r) (calls st) -> exists x, q = Done (Inserted x)).
Proof.
  split; [vm_compute; reflexivity|].
  apply (visited_never_lost 3 demo_set [(1, 5); (1, 5)] _ 1%nat (1, 5) (Some 4)).
  - lia.
  - reflexivity.
  - apply run_steps.
  - vm_compute. reflexivity.
Defined.

(** ** What may go wrong between threads *)

(** Two threads that insert the same directory: the second skips the slot that
    the first has claimed but not yet published, and both are told that the
    directory is new. *)
Example both_inserted :
  calls (run [0; 0; 0; 1; 1; 1; 1; 1; 1; 1; 1; 0; 0; 0]%nat
    (start (default {| buckets := []; keys := []; cap := 0; count := 0 |} (visited_init 8 true true)) [(1, 5); (1, 5)]))
  = [((1, 5), Done (Inserted 3)); ((1, 5), Done (Inserted 4))].
Proof. vm_compute. reflexivity. Qed.

(** A slot given back leaves a hole: an insertion that had long returned, on the
    other side of it, is forgotten, and the directory is new again. *)
Example hole_forgets :
  calls (run ([0; 0; 0] ++ replicate 6 1 ++ [0; 0; 0] ++ replicate 20 2 ++ replicate 8 1 ++ replicate 20 3)%nat
    (start (default {| buckets := []; keys := []; cap := 0; count := 0 |} (visited_init 8 true true))
       [(1, 5); (1, 5); (1, 13); (1, 13)]))
  = [((1, 5), Done (Inserted 3)); ((1, 5), Done (Duplicate (Some 4)));
     ((1, 13), Done (Inserted 5)); ((1, 13), Done (Inserted 4))].
Proof. vm_compute. reflexivity. Qed.
