(* ===== verification/TreeNodes.v ===== *)
(** * atree: the tree of nodes

    [atree.c] 85-97, 511-593 and 1240-1388: nodes in memory, their creation and
    release, the sums over each directory, and the sorting of the children. The
    tree lives in a heap: a node pointer is a number, and each traversal keeps the
    explicit stack of the code. Allocation may fail ([ask_alloc]); the order
    [qsort] leaves is that of the C library, whose contract is the class
    [Qsort]. *)
From Stdlib Require Import ZArith Lia List String Ascii Sorted.
From stdpp Require Import base tactics strings list gmap.
From S2P Require Import Prelude CStrings.

#[local] Open Scope Z_scope.

(** ** Nodes *)

Record statx_t := {
  stx_mode : Z; stx_size : Z; stx_mtime : Z; stx_uid : Z; stx_gid : Z;
  stx_dev_major : Z; stx_dev_minor : Z; stx_ino : Z
}.
Definition no_statx : statx_t :=
  {| stx_mode := 0; stx_size := 0; stx_mtime := 0; stx_uid := 0; stx_gid := 0; stx_dev_major := 0; stx_dev_minor := 0; stx_ino := 0 |}.

(** [num_children] is the length of [children]. *)
Record tree_node_t := {
  node_name : string; full_path : string; st : statx_t; stat_err : Z; is_dir : bool;
  children : list nat; cap_children : Z; depth : Z;
  total_size : Z; total_files : Z; total_dirs : Z
}.

Definition tree_node_eta (r : tree_node_t) : tree_node_t :=
  {| node_name := node_name r; full_path := full_path r; st := st r; stat_err := stat_err r; is_dir := is_dir r; children := children r; cap_children := cap_children r; depth := depth r; total_size := total_size r; total_files := total_files r; total_dirs := total_dirs r |}.
#[export] Instance tset_st : Setter st := ltac:(mk_setter tree_node_eta).
#[export] Instance tset_stat_err : Setter stat_err := ltac:(mk_setter tree_node_eta).
#[export] Instance tset_is_dir : Setter is_dir := ltac:(mk_setter tree_node_eta).
#[export] Instance tset_children : Setter children := ltac:(mk_setter tree_node_eta).
#[export] Instance tset_cap_children : Setter cap_children := ltac:(mk_setter tree_node_eta).
#[export] Instance tset_depth : Setter depth := ltac:(mk_setter tree_node_eta).
#[export] Instance tset_total_size : Setter total_size := ltac:(mk_setter tree_node_eta).
#[export] Instance tset_total_files : Setter total_files := ltac:(mk_setter tree_node_eta).
#[export] Instance tset_total_dirs : Setter total_dirs := ltac:(mk_setter tree_node_eta).

(** The live nodes, the next address, and the number of allocations asked. *)
Record heap_t := { nodes : gmap nat tree_node_t; brk : nat; asked : nat }.
Definition heap_eta (r : heap_t) : heap_t := {| nodes := nodes r; brk := brk r; asked := asked r |}.
#[export] Instance hset_nodes : Setter nodes := ltac:(mk_setter heap_eta).
#[export] Instance hset_brk : Setter brk := ltac:(mk_setter heap_eta).
#[export] Instance hset_asked : Setter asked := ltac:(mk_setter heap_eta).

Class TreeEnv := { ask_alloc : nat -> bool }.

(** A dangling pointer, a write past an array, and running out of fuel are kept
    apart. *)
Inductive result_t (A : Type) := Returned (a : A) | Dangling | Overflow | Running.
Arguments Returned {A} a. Arguments Dangling {A}. Arguments Overflow {A}. Arguments Running {A}.

Section Nodes.
Context {E : TreeEnv}.
Implicit Types (h : heap_t) (p : nat).

Definition alloc h : bool * heap_t := (ask_alloc (asked h), h <| asked := S (asked h) |>).
Definition upd h p (f : tree_node_t -> tree_node_t) : heap_t := h <| nodes := alter f p (nodes h) |>.

(** [calloc] of the node and its two strings. *)
Definition node_create (name path : string) h : option nat * heap_t :=
  let '(ok, h) := alloc h in
  if negb ok then (None, h)
  else
    let n := {| node_name := name; full_path := path; st := no_statx; stat_err := 0; is_dir := false; children := [];
                cap_children := 0; depth := 0; total_size := 0; total_files := 0; total_dirs := 0 |} in
    (Some (brk h), h <| nodes := <[brk h := n]> (nodes h) |> <| brk := S (brk h) |>).

Definition node_add_child (parent child : nat) h : option (bool * heap_t) :=
  n ← nodes h !! parent;
  if cap_children n <=? zlen (children n) then
    let '(ok, h) := alloc h in
    if negb ok then Some (false, h)
    else
      let newcap := if cap_children n =? 0 then 16 else cap_children n * 2 in
      Some (true, upd h parent (fun n => n <| cap_children := newcap |> <| children := children n ++ [child] |>))
  else Some (true, upd h parent (fun n => n <| children := children n ++ [child] |>)).

(** ** Release *)

Definition free_node h p : heap_t := h <| nodes := delete p (nodes h) |>.

(** [depth] counts down from 1000. *)
Fixpoint node_free_recursive (depth : nat) h p : option heap_t :=
  n ← nodes h !! p;
  h ← match depth with
      | O => Some h
      | S depth => foldl (fun oh c => h ← oh; node_free_recursive depth h c) (Some h) (children n)
      end;
  Some (free_node h p).

(** Pushing the children; [room] is the number of entries the stack really has,
    and [None] is a write past them. *)
Fixpoint push_children (l : list nat) (stack : list nat) (cap room : Z) h : option (list nat * Z * Z * heap_t) :=
  match l with
  | [] => Some (stack, cap, room, h)
  | c :: l =>
      if cap <=? zlen stack then
        let '(ok, h) := alloc h in
        let cap := cap * 2 in
        if negb ok then Some (stack, cap, room, h)
        else push_children l (c :: stack) cap cap h
      else if room <=? zlen stack then None
      else push_children l (c :: stack) cap room h
  end.

Fixpoint node_free_loop (fuel : nat) (stack : list nat) (cap room : Z) h : result_t heap_t :=
  match stack with
  | [] => Returned h
  | cur :: rest =>
      match fuel with
      | O => Running
      | S fuel =>
          match nodes h !! cur with
          | None => Dangling
          | Some n =>
              if 0 <? zlen (children n) then
                match push_children (children n) stack cap room h with
                | None => Overflow
                | Some (stack, cap, room, h) =>
                    node_free_loop fuel stack cap room (upd h cur (fun n => n <| children := [] |>))
                end
              else node_free_loop fuel rest cap room (free_node h cur)
          end
      end
  end.

Definition node_free (fuel : nat) h p : result_t heap_t :=
  let '(ok, h) := alloc h in
  if negb ok then match node_free_recursive 1000 h p with Some h => Returned h | None => Dangling end
  else node_free_loop fuel [p] 256 256 h.

(** ** Sums *)

(** Frames: a node and the index of its next child, -1 at first. *)
Record agg_t := { a_heap : heap_t; a_stack : list (nat * Z); a_cap : Z }.

(** One round of the loop; [inr] is a return. *)
Definition agg_step (s : agg_t) : option (agg_t + heap_t) :=
  let h := a_heap s in
  match a_stack s with
  | [] => Some (inr h)
  | (p, ci) :: rest =>
      n ← nodes h !! p;
      if negb (is_dir n) then
        Some (inl {| a_heap := upd h p (fun n => n <| total_size := stx_size (st n) |>); a_stack := rest; a_cap := a_cap s |})
      else
        let '(h, ci) :=
          if ci =? -1 then
            (upd h p (fun n => n <| total_size := 0 |> <| total_files := 0 |> <| total_dirs := 0 |>), 0)
          else (h, ci) in
        match children n !! Z.to_nat ci with
        | Some c =>
            let stack := (p, ci + 1) :: rest in
            cn ← nodes h !! c;
            if negb (is_dir cn) then
              let h := upd h c (fun n => n <| total_size := stx_size (st n) |>) in
              let h := upd h p (fun n => n <| total_files := total_files n + 1 |>
                                           <| total_size := u64 (total_size n + stx_size (st cn)) |>) in
              Some (inl {| a_heap := h; a_stack := stack; a_cap := a_cap s |})
            else if a_cap s <=? zlen stack then
              let '(ok, h) := alloc h in
              if negb ok then Some (inr h)
              else Some (inl {| a_heap := h; a_stack := (c, -1) :: stack; a_cap := a_cap s * 2 |})
            else Some (inl {| a_heap := h; a_stack := (c, -1) :: stack; a_cap := a_cap s |})
        | None =>
            match rest with
            | [] => Some (inl {| a_heap := h; a_stack := rest; a_cap := a_cap s |})
            | (parent, _) :: _ =>
                n ← nodes h !! p;
                Some (inl {| a_heap := upd h parent (fun q =>
                               q <| total_dirs := total_dirs q + (1 + total_dirs n) |>
                                 <| total_files := total_files q + total_files n |>
                                 <| total_size := u64 (total_size q + total_size n) |>);
                             a_stack := rest; a_cap := a_cap s |})
            end
        end
  end.

Fixpoint agg_loop (fuel : nat) (s : agg_t) : result_t heap_t :=
  match agg_step s with
  | None => Dangling
  | Some (inr h) => Returned h
  | Some (inl s) => match fuel with O => Running | S fuel => agg_loop fuel s end
  end.

Definition aggregate (fuel : nat) h (root : nat) : result_t heap_t :=
  let '(ok, h) := alloc h in
  if negb ok then Returned h else agg_loop fuel {| a_heap := h; a_stack := [(root, -1)]; a_cap := 256 |}.

(** ** Order *)

(** [strcasecmp]: the difference of the first characters that differ. *)
Fixpoint strcasecmp (s t : string) : Z :=
  match s, t with
  | EmptyString, EmptyString => 0
  | EmptyString, String d _ => - code (tolower d)
  | String c _, EmptyString => code (tolower c)
  | String c s, String d t => if (tolower c =? tolower d)%char then strcasecmp s t else code (tolower c) - code (tolower d)
  end.

Definition cmp_alpha (na nb : tree_node_t) : Z :=
  if Bool.eqb (is_dir na) (is_dir nb) then strcasecmp (node_name na) (node_name nb)
  else Z.b2z (is_dir nb) - Z.b2z (is_dir na).

Definition node_size (n : tree_node_t) : Z := if is_dir n then total_size n else stx_size (st n).

Definition cmp_size (na nb : tree_node_t) : Z :=
  if Bool.eqb (is_dir na) (is_dir nb) then
    if node_size na <? node_size nb then 1
    else if node_size nb <? node_size na then -1
    else strcasecmp (node_name na) (node_name nb)
  else Z.b2z (is_dir nb) - Z.b2z (is_dir na).

(** [qsort] with a comparison of node pointers. *)
Class Qsort := { qsort : (nat -> nat -> Z) -> list nat -> list nat }.

Context {Q : Qsort}.

Definition null_node : tree_node_t :=
  {| node_name := ""; full_path := ""; st := no_statx; stat_err := 0; is_dir := false; children := [];
     cap_children := 0; depth := 0; total_size := 0; total_files := 0; total_dirs := 0 |}.

Definition compare h (by_size : bool) (a b : nat) : Z :=
  let na := default null_node (nodes h !! a) in
  let nb := default null_node (nodes h !! b) in
  if by_size then cmp_size na nb else cmp_alpha na nb.

(** The directories with children are pushed; [None] when the stack cannot grow. *)
Fixpoint push_dirs (l : list nat) (stack : list nat) (cap : Z) h : option (option (list nat * Z) * heap_t) :=
  match l with
  | [] => Some (Some (stack, cap), h)
  | c :: l =>
      n ← nodes h !! c;
      if is_dir n && (0 <? zlen (children n)) then
        if cap <=? zlen stack then
          let '(ok, h) := alloc h in
          if negb ok then Some (None, h) else push_dirs l (c :: stack) (cap * 2) h
        else push_dirs l (c :: stack) cap h
      else push_dirs l stack cap h
  end.

Fixpoint sort_loop (fuel : nat) (by_size : bool) (stack : list nat) (cap : Z) h : result_t heap_t :=
  match stack with
  | [] => Returned h
  | p :: stack =>
      match fuel with
      | O => Running
      | S fuel =>
          match nodes h !! p with
          | None => Dangling
          | Some n =>
              if negb (is_dir n) || (zlen (children n) =? 0) then sort_loop fuel by_size stack cap h
              else
                let sorted := qsort (compare h by_size) (children n) in
                let h := upd h p (fun n => n <| children := sorted |>) in
                match push_dirs sorted stack cap h with
                | None => Dangling
                | Some (None, h) => Returned h
                | Some (Some (stack, cap), h) => sort_loop fuel by_size stack cap h
                end
          end
      end
  end.

Definition sort_tree (fuel : nat) h (root : nat) (by_size : bool) : result_t heap_t :=
  let '(ok, h) := alloc h in
  if negb ok then Returned h else sort_loop fuel by_size [root] 256 h.

End Nodes.
