(* ===== verification/TreeNodesSpec.v ===== *)
(** * atree: the traversals of the tree

    The heap of [TreeNodes] that holds a finite tree, and what the loops with an
    explicit stack compute on it: the sums of a directory are those of its
    descendants, releasing a tree releases each node once, and sorting orders the
    children of every directory. *)
From Stdlib Require Import ZArith Lia List String Ascii Sorted.
From stdpp Require Import base tactics strings list gmap relations.
From S2P Require Import Prelude CStrings TreeNodes.

#[local] Set Warnings "-register-all".
#[local] Open Scope Z_scope.

(** ** Trees in the heap *)

Inductive tree := Tree (p : nat) (kids : list tree).

Definition root (t : tree) : nat := match t with Tree p _ => p end.
Definition kids (t : tree) : list tree := match t with Tree _ l => l end.

Fixpoint ptrs (t : tree) : list nat := match t with Tree p l => p :: flat_map ptrs l end.
Fixpoint subtrees (t : tree) : list tree := match t with Tree p l => t :: flat_map subtrees l end.

(** The nodes below the root. *)
Definition descendants (t : tree) : list nat := flat_map ptrs (kids t).

Lemma tree_ind' (P : tree -> Prop) : (forall p l, Forall P l -> P (Tree p l)) -> forall t, P t.
Proof.
  intros H. fix IH 1. intros [p l]. apply H. induction l as [|t l IHl]; constructor; [apply IH|done].
Qed.

(** Each node is where its parent says; only directories have children. *)
Inductive tree_at (m : gmap nat tree_node_t) : tree -> Prop :=
  | tree_at_node p n l :
      m !! p = Some n -> children n = root <$> l -> (is_dir n = false -> l = []) -> Forall (tree_at m) l ->
      tree_at m (Tree p l).

Lemma tree_at_inv m p l : tree_at m (Tree p l) ->
  exists n, m !! p = Some n /\ children n = root <$> l /\ (is_dir n = false -> l = []) /\ Forall (tree_at m) l.
Proof. inversion 1; subst. eauto. Qed.

Definition agree (ps : list nat) (m m' : gmap nat tree_node_t) : Prop := forall q, q ∈ ps -> m !! q = m' !! q.
Definition outside (ps : list nat) (m m' : gmap nat tree_node_t) : Prop := forall q, q ∉ ps -> m !! q = m' !! q.

Lemma ptrs_node p l : ptrs (Tree p l) = p :: flat_map ptrs l.
Proof. done. Qed.

Lemma root_in_ptrs t : root t ∈ ptrs t.
Proof. destruct t. left. Qed.

Lemma subtree_self t : t ∈ subtrees t.
Proof. destruct t. left. Qed.

Lemma flat_map_app {A B} (f : A -> list B) l l' : flat_map f (l ++ l') = flat_map f l ++ flat_map f l'.
Proof. induction l as [|x l IH]; [done|]. cbn. by rewrite IH, <- app_assoc. Qed.

Lemma subtree_ptrs t : forall s, s ∈ subtrees t -> forall q, q ∈ ptrs s -> q ∈ ptrs t.
Proof.
  induction t as [p l IH] using tree_ind'. intros s Hs q Hq. cbn in Hs. apply elem_of_cons in Hs as [->|Hs]; [done|].
  apply elem_of_flat_map in Hs as (c & Hc & Hs). rewrite Forall_forall in IH. right. apply elem_of_flat_map.
  exists c. split; [done|]. by apply (IH c Hc s).
Qed.

Lemma tree_at_sub m t s : tree_at m t -> s ∈ subtrees t -> tree_at m s.
Proof.
  revert s. induction t as [p l IH] using tree_ind'. intros s T Hs. apply elem_of_cons in Hs as [->|Hs]; [done|].
  apply elem_of_flat_map in Hs as (c & Hc & Hs). apply tree_at_inv in T as (n & _ & _ & _ & F).
  rewrite Forall_forall in IH, F. apply (IH c Hc s); [by apply F|done].
Qed.

Section Sums.
Context {E : TreeEnv} (m0 : gmap nat tree_node_t).
Implicit Types (t : tree) (l : list tree) (h : heap_t).

(** ** Reference: the sums by recursion *)

Definition is_dir_at (q : nat) : bool := match m0 !! q with Some n => is_dir n | None => false end.
Definition size_at (q : nat) : Z := match m0 !! q with Some n => stx_size (st n) | None => 0 end.

Definition totals : Type := Z * Z * Z.
Definition add_totals (a b : totals) : totals :=
  let '(s, f, d) := a in let '(s', f', d') := b in (u64 (s + s'), f + f', d + d').

(** What a child adds to its parent, given its own sums. *)
Definition share (c : nat) (own : totals) : totals :=
  let '(s, f, d) := own in if is_dir_at c then (s, f, 1 + d) else (size_at c, 1, 0).

Fixpoint sums t : totals :=
  match t with Tree _ l => fold_left (fun acc c => add_totals acc (share (root c) (sums c))) l (0, 0, 0) end.

Definition kid_sums l (acc : totals) : totals := fold_left (fun acc c => add_totals acc (share (root c) (sums c))) l acc.

Definition with_totals (n : tree_node_t) (x : totals) : tree_node_t :=
  let '(s, f, d) := x in n <| total_size := s |> <| total_files := f |> <| total_dirs := d |>.

Definition summed (n : tree_node_t) (x : totals) : tree_node_t :=
  if is_dir n then with_totals n x else n <| total_size := stx_size (st n) |>.

(** The root of [t] has its sums in [m]. *)
Definition final (m : gmap nat tree_node_t) t : Prop :=
  exists n, m0 !! root t = Some n /\ m !! root t = Some (summed n (sums t)).

(** ** The loop *)

Definition agg_rel (s s' : agg_t) : Prop := agg_step s = Some (inl s').

(** Rounds for a directory up to its last child, and for a child. *)
Fixpoint rounds t : nat :=
  match t with Tree _ l => fold_right (fun c k => (1 + (if is_dir_at (root c) then rounds c + 1 else 0) + k)%nat) 0%nat l end.

Definition kid_rounds l : nat := fold_right (fun c k => (1 + (if is_dir_at (root c) then rounds c + 1 else 0) + k)%nat) 0%nat l.

Context (Halloc : forall n, ask_alloc n = true).

Lemma final_outside m m' ps t : final m t -> outside ps m m' -> root t ∉ ps -> final m' t.
Proof using.
  intros (n & H0 & H) O Hn. exists n. split; [done|]. by rewrite <- O.
Qed.

Lemma with_totals_flags n x : is_dir (with_totals n x) = is_dir n /\ children (with_totals n x) = children n /\ st (with_totals n x) = st n.
Proof using. by destruct x as [[s f] d]. Qed.

Lemma with_totals_idem n x y : with_totals (with_totals n x) y = with_totals n y.
Proof using. by destruct x as [[s f] d], y as [[s' f'] d']. Qed.

(** A round at a child that is no directory. *)
Lemma round_leaf h p ci n x c nc rest cap : nodes h !! p = Some (with_totals n x) -> is_dir n = true -> 0 <= ci ->
  children n !! Z.to_nat ci = Some c -> nodes h !! c = Some nc -> is_dir nc = false -> c <> p ->
  exists h', agg_rel {| a_heap := h; a_stack := (p, ci) :: rest; a_cap := cap |}
                     {| a_heap := h'; a_stack := (p, ci + 1) :: rest; a_cap := cap |} /\
    nodes h' !! p = Some (with_totals n (add_totals x (stx_size (st nc), 1, 0))) /\
    nodes h' !! c = Some (nc <| total_size := stx_size (st nc) |>) /\ outside [p; c] (nodes h) (nodes h').
Proof using.
  intros Hp Hd Hci Hc Hnc Hleaf Hne. destruct (with_totals_flags n x) as (F1 & F2 & F3).
  eexists. split.
  { unfold agg_rel, agg_step. cbn [a_stack a_heap]. rewrite Hp. simpl. rewrite F1, Hd. cbn [negb].
    destruct (Z.eqb_spec ci (-1)); [lia|]. rewrite F2, Hc, Hnc. simpl. rewrite Hleaf. cbn [negb]. reflexivity. }
  cbn [upd nodes set_field hset_nodes]. split; [|split].
  - rewrite lookup_alter_eq, lookup_alter_ne by done. rewrite Hp. cbn. destruct x as [[s f] d]. unfold add_totals. rewrite Z.add_0_r. reflexivity.
  - rewrite lookup_alter_ne, lookup_alter_eq, Hnc by done. done.
  - intros q Hq. apply not_elem_of_cons in Hq as [H1 Hq]. apply not_elem_of_cons in Hq as [H2 _].
    by rewrite !lookup_alter_ne by done.
Qed.

(** A round that pushes a child that is a directory. *)
Lemma round_push h p ci n x c nc rest cap : nodes h !! p = Some (with_totals n x) -> is_dir n = true -> 0 <= ci ->
  children n !! Z.to_nat ci = Some c -> nodes h !! c = Some nc -> is_dir nc = true ->
  exists h' cap', agg_rel {| a_heap := h; a_stack := (p, ci) :: rest; a_cap := cap |}
                     {| a_heap := h'; a_stack := (c, -1) :: (p, ci + 1) :: rest; a_cap := cap' |} /\ nodes h' = nodes h.
Proof using Halloc.
  intros Hp Hd Hci Hc Hnc Hdir. destruct (with_totals_flags n x) as (F1 & F2 & F3). unfold agg_rel, agg_step.
  cbn [a_stack a_heap a_cap]. rewrite Hp. simpl. rewrite F1, Hd. cbn [negb].
  destruct (Z.eqb_spec ci (-1)); [lia|]. rewrite F2, Hc, Hnc. simpl. rewrite Hdir. cbn [negb].
  destruct (cap <=? _); [|by eexists _, _]. unfold alloc. rewrite Halloc. cbn [negb]. by eexists _, _.
Qed.

(** The round in which a directory is done. *)
Lemma round_pop h c nc p ci n x y rest cap : nodes h !! c = Some (with_totals nc y) -> is_dir nc = true ->
  nodes h !! p = Some (with_totals n x) -> c <> p ->
  exists h', agg_rel {| a_heap := h; a_stack := (c, zlen (children nc)) :: (p, ci) :: rest; a_cap := cap |}
                     {| a_heap := h'; a_stack := (p, ci) :: rest; a_cap := cap |} /\
    nodes h' !! p = Some (with_totals n (add_totals x (let '(s, f, d) := y in (s, f, 1 + d)))) /\ outside [p] (nodes h) (nodes h').
Proof using.
  intros Hc Hd Hp Hne. destruct (with_totals_flags nc y) as (F1 & F2 & F3). eexists. split.
  { unfold agg_rel, agg_step. cbn [a_stack a_heap]. rewrite Hc. simpl. rewrite F1, Hd. cbn [negb].
    destruct (Z.eqb_spec (zlen (children nc)) (-1)); [unfold zlen in *; lia|]. rewrite F2.
    rewrite lookup_ge_None_2 by (unfold zlen; lia). rewrite Hc. simpl. reflexivity. }
  cbn [upd nodes set_field hset_nodes]. split.
  - rewrite lookup_alter_eq, Hp. destruct x as [[s f] d], y as [[s' f'] d']. cbn. do 2 f_equal; lia.
  - intros q Hq. apply not_elem_of_cons in Hq as [H1 _]. by rewrite lookup_alter_ne.
Qed.

(** The first round of a directory also clears its sums. *)
Lemma round_init h c nc rest cap : nodes h !! c = Some nc -> is_dir nc = true ->
  agg_step {| a_heap := h; a_stack := (c, -1) :: rest; a_cap := cap |} =
  agg_step {| a_heap := upd h c (fun n => with_totals n (0, 0, 0)); a_stack := (c, 0) :: rest; a_cap := cap |}.
Proof using.
  intros Hc Hd. unfold agg_step. cbn [a_stack a_heap]. rewrite Hc.
  assert (nodes (upd h c (fun n => with_totals n (0, 0, 0))) !! c = Some (with_totals nc (0, 0, 0))) as E1.
  { cbn. by rewrite lookup_alter_eq, Hc. }
  rewrite E1. simpl. rewrite Hd. reflexivity.
Qed.

(** From any frame of [p] the rounds of the remaining children [todo] add their
    shares to [x], and leave every subtree final. *)
Definition kids_claim (p : nat) (n : tree_node_t) (todo : list tree) : Prop :=
  forall (ci : nat) h rest cap x,
  nodes h !! p = Some (with_totals n x) -> is_dir n = true -> drop ci (children n) = root <$> todo ->
  (ci <= length (children n))%nat -> p ∉ flat_map ptrs todo -> NoDup (flat_map ptrs todo) -> Forall (tree_at m0) todo ->
  agree (flat_map ptrs todo) m0 (nodes h) ->
  exists h' cap', nsteps agg_rel (kid_rounds todo)
      {| a_heap := h; a_stack := (p, Z.of_nat ci) :: rest; a_cap := cap |}
      {| a_heap := h'; a_stack := (p, zlen (children n)) :: rest; a_cap := cap' |} /\
    nodes h' !! p = Some (with_totals n (kid_sums todo x)) /\
    (forall s, s ∈ flat_map subtrees todo -> final (nodes h') s) /\ outside (p :: flat_map ptrs todo) (nodes h) (nodes h').

(** The rounds of one child, from the round at its parent to the next one. *)
Lemma child_run h p (ci : nat) n x c rest cap :
  nodes h !! p = Some (with_totals n x) -> is_dir n = true -> children n !! ci = Some (root c) ->
  p ∉ ptrs c -> NoDup (ptrs c) -> tree_at m0 c -> agree (ptrs c) m0 (nodes h) ->
  (forall nc, m0 !! root c = Some nc -> kids_claim (root c) nc (kids c)) ->
  exists h' cap', nsteps agg_rel (1 + (if is_dir_at (root c) then rounds c + 1 else 0))
      {| a_heap := h; a_stack := (p, Z.of_nat ci) :: rest; a_cap := cap |}
      {| a_heap := h'; a_stack := (p, Z.of_nat (S ci)) :: rest; a_cap := cap' |} /\
    nodes h' !! p = Some (with_totals n (add_totals x (share (root c) (sums c)))) /\
    (forall s, s ∈ subtrees c -> final (nodes h') s) /\ outside (p :: ptrs c) (nodes h) (nodes h').
Proof using Halloc.
  intros Hp Hd Hc Hpc Hnd T A IH. destruct c as [q l]. cbn [root kids] in *. rewrite ptrs_node in *.
  apply tree_at_inv in T as (nc & Hq & Hch & Hleaf & Tl). assert (q <> p) as Hqp by (intros ->; apply Hpc; left).
  assert (nodes h !! q = Some nc) as Hhq. { rewrite <- A; [done|left]. }
  replace (Z.of_nat (S ci)) with (Z.of_nat ci + 1) by lia. rewrite <- (Nat2Z.id ci) in Hc.
  unfold is_dir_at, share, is_dir_at, size_at. rewrite Hq. destruct (is_dir nc) eqn:Ed.
  - apply NoDup_cons in Hnd as [Hql Hnl].
    destruct (round_push h p (Z.of_nat ci) n x q nc rest cap) as (h1 & cap1 & R1 & E1); try done; [lia|].
    set (h2 := upd h1 q (fun n => with_totals n (0, 0, 0))).
    assert (nodes h2 !! q = Some (with_totals nc (0, 0, 0))) as Hh2 by (cbn; rewrite lookup_alter_eq, E1, Hhq; done).
    assert (outside [q] (nodes h) (nodes h2)) as O2.
    { intros r Hr. apply not_elem_of_cons in Hr as [Hr _]. cbn. by rewrite lookup_alter_ne, E1 by done. }
    destruct (IH nc Hq O h2 ((p, Z.of_nat ci + 1) :: rest) cap1 (0, 0, 0)) as (h3 & cap3 & R3 & F3 & S3 & O3); try done.
    { lia. }
    { intros r Hr. rewrite A by (by right). apply O2. intros ->%list_elem_of_singleton. done. }
    assert (nodes h3 !! p = Some (with_totals n x)) as Hp3.
    { rewrite <- O3, <- O2; [done| |].
      - intros Hin%list_elem_of_singleton. done.
      - intros [->|Hin]%elem_of_cons; [done|]. apply Hpc. by right. }
    destruct (round_pop h3 q nc p (Z.of_nat ci + 1) n x (sums (Tree q l)) rest cap3) as (h4 & R4 & F4 & O4); try done.
    exists h4, cap3. split; [|split; [|split]].
    + eapply nsteps_l; [exact R1|]. cbn [rounds]. fold (kid_rounds l).
      assert (nsteps agg_rel (kid_rounds l + 1)
        {| a_heap := h2; a_stack := (q, 0) :: (p, Z.of_nat ci + 1) :: rest; a_cap := cap1 |}
        {| a_heap := h4; a_stack := (p, Z.of_nat ci + 1) :: rest; a_cap := cap3 |}) as R34.
      { eapply nsteps_trans; [exact R3|]. by apply nsteps_once. }
      replace (kid_rounds l + 1)%nat with (S (kid_rounds l)) in * by lia.
      inversion R34 as [|? ? s2 ? Rs Rr]; subst. eapply nsteps_l; [|exact Rr].
      unfold agg_rel in *. rewrite (round_init h1 q nc) by (done || by rewrite E1). exact Rs.
    + exact F4.
    + intros s Hs. apply elem_of_cons in Hs as [->|Hs].
      * exists nc. split; [done|]. unfold summed. rewrite Ed. rewrite <- O4; [exact F3|]. intros Hin%list_elem_of_singleton. done.
      * eapply final_outside; [by apply S3|exact O4|]. intros Hin%list_elem_of_singleton. apply Hpc. right.
        apply elem_of_flat_map in Hs as (d & Hdl & Hs). apply elem_of_flat_map. exists d. split; [done|].
        rewrite <- Hin. eapply subtree_ptrs; [exact Hs|apply root_in_ptrs].
    + intros r [Hr1 Hr2]%not_elem_of_cons. rewrite (O2 r), (O3 r), (O4 r); try done.
      * intros ?%list_elem_of_singleton; done.
      * intros ?%list_elem_of_singleton; subst. apply Hr2. left.
  - rewrite (Hleaf eq_refl) in *.
    destruct (round_leaf h p (Z.of_nat ci) n x q nc rest cap) as (h' & R & F & G & O); try done; [lia|].
    exists h', cap. split; [by apply nsteps_once|]. split; [exact F|]. split.
    + intros s Hs. cbn in Hs. apply list_elem_of_singleton in Hs as ->. exists nc. split; [done|]. unfold summed. by rewrite Ed.
    + exact O.
Qed.

Lemma kids_run p n todo :
  Forall (fun c => forall nc, m0 !! root c = Some nc -> kids_claim (root c) nc (kids c)) todo -> kids_claim p n todo.
Proof using Halloc.
  induction 1 as [|c todo IHc _ IH]; intros ci h rest cap x Hp Hd Hk Hle Hnp Hnd T A.
  - exists h, cap. assert (ci = length (children n)) as ->.
    { apply (f_equal length) in Hk. rewrite length_drop in Hk. cbn in Hk. lia. }
    split; [apply nsteps_O|]. split; [done|]. split; [by intros s Hs%not_elem_of_nil|done].
  - cbn [flat_map] in Hnp, Hnd. apply not_elem_of_app in Hnp as [Hpc Hpt]. apply NoDup_app in Hnd as (Nc & Nct & Nt).
    apply Forall_cons in T as [Tc Tt]. cbn [fmap list_fmap] in Hk.
    assert (children n !! ci = Some (root c)) as Hc.
    { rewrite <- (Nat.add_0_r ci), <- lookup_drop, Hk. done. }
    destruct (child_run h p ci n x c rest cap) as (h1 & cap1 & R1 & F1 & S1 & O1); try done.
    { intros q Hq. apply A. cbn. apply elem_of_app. by left. }
    destruct (IH (S ci) h1 rest cap1 (add_totals x (share (root c) (sums c)))) as (h2 & cap2 & R2 & F2 & S2 & O2); try done.
    { replace (S ci) with (ci + 1)%nat by lia. rewrite <- drop_drop, Hk. done. }
    { apply lookup_lt_Some in Hc. lia. }
    { intros q Hq. rewrite A by (cbn; apply elem_of_app; by right). apply O1.
      intros [->|Hin]%elem_of_cons; [done|]. by apply (Nct q). }
    exists h2, cap2. split; [|split; [|split]].
    + cbn [kid_rounds fold_right]. fold (kid_rounds todo).
      replace (1 + (if is_dir_at (root c) then rounds c + 1 else 0) + kid_rounds todo)%nat with
        ((1 + (if is_dir_at (root c) then rounds c + 1 else 0)) + kid_rounds todo)%nat by lia.
      eapply nsteps_trans; [exact R1|exact R2].
    + exact F2.
    + intros s Hs. cbn in Hs. apply elem_of_app in Hs as [Hs|Hs]; [|by apply S2].
      eapply final_outside; [by apply S1|exact O2|]. pose proof (subtree_ptrs _ _ Hs _ (root_in_ptrs s)) as Hin.
      intros [E1|Hin2]%elem_of_cons; [congruence|]. by apply (Nct (root s)).
    + intros q [Hq1 Hq2]%not_elem_of_cons. cbn [flat_map] in Hq2. apply not_elem_of_app in Hq2 as [H1 H2].
      rewrite (O1 q), (O2 q); [done| |]; intros [?|?]%elem_of_cons; done.
Qed.

Lemma all_kids t : forall n, m0 !! root t = Some n -> kids_claim (root t) n (kids t).
Proof using Halloc.
  induction t as [p l IH] using tree_ind'. intros n _. apply kids_run. exact IH.
Qed.

(** Each node costs at most two rounds. *)
Lemma rounds_bound t : (S (rounds t) < 2 * length (ptrs t))%nat.
Proof using.
  induction t as [p l IH] using tree_ind'. rewrite ptrs_node. cbn [rounds length].
  induction IH as [|c l Hc _ IHl]; cbn [fold_right flat_map length]; [lia|].
  rewrite length_app. destruct (is_dir_at (root c)); lia.
Qed.
End Sums.

(** ** The sums of a directory *)

(** The descendants of [t] that are directories, or that are not. *)
Definition below (m : gmap nat tree_node_t) (dirs : bool) (t : tree) : list nat :=
  List.filter (fun q => Bool.eqb (is_dir_at m q) dirs) (descendants t).

Lemma below_kids m dirs p l : below m dirs (Tree p l) = flat_map (fun c => List.filter (fun q => Bool.eqb (is_dir_at m q) dirs) (ptrs c)) l.
Proof. unfold below, descendants. cbn [kids]. induction l as [|c l IH]; [done|]. cbn. by rewrite List.filter_app, IH. Qed.

Lemma zlen_fmap {A B} (f : A -> B) l : zlen (f <$> l) = zlen l.
Proof. unfold zlen. by rewrite length_fmap. Qed.

(** The recursive sums count descendants. *)
Lemma sums_count m t : tree_at m t ->
  sums m t = (u64 (zsum (size_at m <$> below m false t)), zlen (below m false t), zlen (below m true t)).
Proof.
  induction t as [p l IH] using tree_ind'. intros T. apply tree_at_inv in T as (n & _ & _ & _ & T).
  rewrite (below_kids m false), (below_kids m true). cbn [sums].
  assert (forall s f d, fold_left (fun a c => add_totals a (share m (root c) (sums m c))) l (u64 s, f, d) =
    (u64 (s + zsum (size_at m <$> flat_map (fun c => List.filter (fun q => Bool.eqb (is_dir_at m q) false) (ptrs c)) l)),
     f + zlen (flat_map (fun c => List.filter (fun q => Bool.eqb (is_dir_at m q) false) (ptrs c)) l),
     d + zlen (flat_map (fun c => List.filter (fun q => Bool.eqb (is_dir_at m q) true) (ptrs c)) l))) as H.
  2:{ apply (H 0). }
  induction IH as [|c l Hc _ IHl]; intros s f d; cbn [fold_left flat_map].
  { cbn [fmap list_fmap zsum]. change (zlen (@nil nat)) with 0. by rewrite !Z.add_0_r. }
  apply Forall_cons in T as [Tc Tl]. specialize (IHl Tl). rewrite (Hc Tc). destruct c as [q k]. cbn [root].
  apply tree_at_inv in Tc as (nc & Hq & _ & Hleaf & _). rewrite ptrs_node. cbn [List.filter].
  change (below m ?b (Tree q k)) with (List.filter (fun q => Bool.eqb (is_dir_at m q) b) (flat_map ptrs k)).
  unfold share. assert (is_dir_at m q = is_dir nc) as -> by (unfold is_dir_at; by rewrite Hq).
  destruct (is_dir nc) eqn:Ed; cbn [Bool.eqb add_totals].
  - rewrite u64_add_l, u64_add_r, IHl, fmap_app, zsum_app, !zlen_app, zlen_cons. f_equal; [f_equal; [f_equal|]|]; lia.
  - rewrite (Hleaf eq_refl). cbn [flat_map List.filter app]. rewrite u64_add_l, IHl. cbn [fmap list_fmap zsum]. rewrite zlen_cons.
    f_equal; [f_equal; [f_equal|]|]; lia.
Qed.

Lemma agg_loop_steps {E : TreeEnv} n : forall s s' h fuel, nsteps agg_rel n s s' -> agg_step s' = Some (inr h) -> (n <= fuel)%nat ->
  agg_loop fuel s = Returned h.
Proof.
  induction n as [|n IH]; intros s s' h fuel R Fin Hf; inversion R as [|? ? s1 ? R1 Rs]; subst.
  - destruct fuel; cbn [agg_loop]; by rewrite Fin.
  - destruct fuel as [|fuel]; [lia|]. cbn [agg_loop]. rewrite R1. apply (IH s1 s'); [done|done|lia].
Qed.

(** What [aggregate] leaves in a node of the tree. *)
Definition aggregated (m : gmap nat tree_node_t) (t : tree) (n : tree_node_t) : tree_node_t :=
  if is_dir n then
    n <| total_size := u64 (zsum (size_at m <$> below m false t)) |>
      <| total_files := zlen (below m false t) |> <| total_dirs := zlen (below m true t) |>
  else n <| total_size := stx_size (st n) |>.

(** C18. The traversal with an explicit stack computes the sums of every directory.
    On a heap that holds a tree whose root is a directory, and when memory does
    not run out, [aggregate] returns; afterwards every directory of the tree
    carries the number of its descendants that are directories, the number of the
    others, and the sum of the sizes of the others modulo 2^64; every other node
    carries its own size; and no other field of any node of the heap changes. *)
Theorem aggregate_totals {E : TreeEnv} (h : heap_t) (t : tree) (fuel : nat)
    (Halloc : forall n, ask_alloc n = true) (Ht : tree_at (nodes h) t) (Hnd : NoDup (ptrs t))
    (Hroot : is_dir_at (nodes h) (root t) = true) (Hfuel : (2 * length (ptrs t) <= fuel)%nat) :
  exists h', aggregate fuel h (root t) = Returned h' /\
    (forall q, q ∉ ptrs t -> nodes h' !! q = nodes h !! q) /\
    (forall s, s ∈ subtrees t -> exists n, nodes h !! root s = Some n /\
       nodes h' !! root s = Some (aggregated (nodes h) s n)).
Proof.
  destruct t as [p l]. pose proof Ht as Ht'. apply tree_at_inv in Ht' as (n & Hp & Hch & Hleaf & Tl).
  assert (is_dir n = true) as Hd by (cbn in Hroot; unfold is_dir_at in Hroot; by rewrite Hp in Hroot).
  rewrite ptrs_node in Hnd. apply NoDup_cons in Hnd as [Hpl Hnl].
  pose proof (rounds_bound (nodes h) (Tree p l)) as Hb.
  unfold aggregate, alloc. rewrite Halloc. cbn [negb root]. set (h1 := h <| asked := _ |>).
  set (h2 := upd h1 p (fun n => with_totals n (0, 0, 0))).
  assert (nodes h2 !! p = Some (with_totals n (0, 0, 0))) as Hp2 by (cbn; by rewrite lookup_alter_eq, Hp).
  destruct (all_kids (nodes h) Halloc (Tree p l) n Hp O h2 [] 256 (0, 0, 0)) as (h3 & cap3 & R3 & F3 & S3 & O3);
    try done; [lia| |].
  { intros q Hq. cbn. rewrite lookup_alter_ne; [done|]. intros ->. done. }
  exists h3. split; [|split].
  - assert (nsteps agg_rel (S (rounds (nodes h) (Tree p l)))
      {| a_heap := h2; a_stack := [(p, 0)]; a_cap := 256 |} {| a_heap := h3; a_stack := []; a_cap := cap3 |}) as R.
    { replace (S (rounds (nodes h) (Tree p l))) with (kid_rounds (nodes h) l + 1)%nat by (cbn [rounds]; fold (kid_rounds (nodes h) l); lia).
      eapply nsteps_trans; [exact R3|]. apply nsteps_once. unfold agg_rel, agg_step. cbn [a_stack a_heap root].
      cbn [root kids] in F3. destruct (with_totals_flags n (kid_sums (nodes h) l (0, 0, 0))) as (E1 & E2 & _).
      rewrite F3. simpl. rewrite E1, Hd. cbn [negb]. destruct (Z.eqb_spec (zlen (children n)) (-1)); [unfold zlen in *; lia|].
      rewrite E2, lookup_ge_None_2 by (unfold zlen; lia). done. }
    apply (agg_loop_steps (S (rounds (nodes h) (Tree p l))) _ {| a_heap := h3; a_stack := []; a_cap := cap3 |}); [|done|lia].
    inversion R as [|? ? s2 ? Rs Rr]; subst. eapply nsteps_l; [|exact Rr].
    unfold agg_rel in *. rewrite (round_init h1 p n) by done. exact Rs.
  - intros q Hq. rewrite ptrs_node in Hq. rewrite <- O3 by done. cbn. apply lookup_alter_ne. intros <-. apply Hq. left.
  - assert (forall s, tree_at (nodes h) s -> forall n x, x = sums (nodes h) s -> aggregated (nodes h) s n = summed n x) as Fin.
    { intros s Ts n' x ->. rewrite (sums_count _ _ Ts). unfold aggregated, summed. by destruct (is_dir n'). }
    intros s Hs. pose proof (tree_at_sub _ _ _ Ht Hs) as Ts. apply elem_of_cons in Hs as [->|Hs].
    + exists n. split; [done|]. cbn [root] in *. rewrite F3. rewrite (Fin (Tree p l) Ht n (kid_sums (nodes h) l (0, 0, 0)) eq_refl).
      unfold summed. by rewrite Hd.
    + destruct (S3 s Hs) as (n' & H0 & H1). exists n'. split; [done|]. by rewrite H1, (Fin s Ts n' _ eq_refl).
Qed.

(** A directory with two files and a directory that has one. *)
Definition demo_node (name : string) (dir : bool) (size : Z) (cs : list nat) : tree_node_t :=
  {| node_name := name; full_path := ""; stat_err := 0; is_dir := dir; children := cs; cap_children := 0; depth := 0;
     total_size := 0; total_files := 0; total_dirs := 0;
     st := {| stx_mode := 0; stx_size := size; stx_mtime := 0; stx_uid := 0; stx_gid := 0; stx_dev_major := 0; stx_dev_minor := 0; stx_ino := 0 |} |}.

Definition demo_heap : heap_t :=
  {| nodes := {[0%nat := demo_node "r" true 9 [1; 2; 3]%nat; 1%nat := demo_node "a" false 5 []; 2%nat := demo_node "d" true 7 [4]%nat;
                3%nat := demo_node "b" false 2 []; 4%nat := demo_node "c" false 11 []]}; brk := 5; asked := 0 |}.

Definition demo_tree : tree := Tree 0 [Tree 1 []; Tree 2 [Tree 4 []]; Tree 3 []].

#[local] Instance demo_env : TreeEnv := {| ask_alloc := fun _ => true |}.

Lemma demo_tree_at : tree_at (nodes demo_heap) demo_tree.
Proof. repeat (econstructor; try reflexivity; try discriminate). Qed.

Lemma aggregate_totals_witness :
  exists h', aggregate 10 demo_heap 0 = Returned h' /\
    (forall q, q ∉ ptrs demo_tree -> nodes h' !! q = nodes demo_heap !! q) /\
    (forall s, s ∈ subtrees demo_tree -> exists n, nodes demo_heap !! root s = Some n /\
       nodes h' !! root s = Some (aggregated (nodes demo_heap) s n)).
Proof.
  apply (aggregate_totals demo_heap demo_tree 10).
  - done.
  - apply demo_tree_at.
  - apply (bool_decide_unpack _). by vm_compute.
  - reflexivity.
  - cbn. lia.
Defined.

Example demo_sums : match aggregate 10 demo_heap 0 with
  | Returned h => (fun n => (total_size n, total_files n, total_dirs n)) <$> nodes h !! 0%nat | _ => None end = Some (18, 3, 1).
Proof. vm_compute. reflexivity. Qed.
