(* ===== verification/TreeOrderSpec.v ===== *)
(** * atree: releasing and sorting the tree

    [node_free] releases every node of a tree once, unless growing its stack
    fails; the comparisons are consistent orders, and [sort_tree] leaves the
    children of every directory in order. *)
From Stdlib Require Import ZArith Lia List String Ascii Sorted.
From stdpp Require Import base tactics strings list gmap sorting.
From S2P Require Import Prelude CStrings TreeFormatSpec TreeNodes TreeNodesSpec.

#[local] Open Scope Z_scope.

(** ** Release *)

Section Free.
Context {E : TreeEnv} (Halloc : forall n, ask_alloc n = true).
Implicit Types (h : heap_t) (t : tree) (l : list tree).

Lemma push_children_ok (l : list nat) : forall stack cap h, 0 < cap -> zlen stack <= cap ->
  exists cap' h', push_children l stack cap cap h = Some (reverse l ++ stack, cap', cap', h') /\ nodes h' = nodes h /\
    cap <= cap' /\ zlen stack + zlen l <= cap'.
Proof using Halloc.
  induction l as [|c l IH]; intros stack cap h Hc Hs; cbn [push_children].
  - exists cap, h. split; [done|]. split; [done|]. rewrite zlen_nil. lia.
  - rewrite reverse_cons, <- app_assoc. cbn [app]. pose proof (zlen_cons c stack) as Hz. pose proof (zlen_cons c l) as Hz'.
    destruct (Z.leb_spec cap (zlen stack)).
    + unfold alloc. rewrite Halloc. cbn [negb]. destruct (IH (c :: stack) (cap * 2) (h <| asked := S (asked h) |>)) as (cap' & h' & Eq & En & L1 & L2); [lia|lia|].
      exists cap', h'. split; [exact Eq|]. split; [exact En|]. lia.
    + destruct (IH (c :: stack) cap h) as (cap' & h' & Eq & En & L1 & L2); [lia|lia|].
      exists cap', h'. split; [exact Eq|]. split; [exact En|]. lia.
Qed.

(** Rounds to release a tree. *)
Fixpoint free_rounds t : nat :=
  match t with Tree _ l => match l with [] => 1 | _ => S (fold_right (fun c k => (free_rounds c + k)%nat) 1%nat l) end end.

Lemma free_rounds_bound t : (free_rounds t < 2 * length (ptrs t))%nat.
Proof using.
  induction t as [p l IH] using tree_ind'. rewrite ptrs_node. cbn [length].
  assert (fold_right (fun c k => (free_rounds c + k)%nat) 1%nat l + length l <= S (2 * length (flat_map ptrs l)))%nat as H.
  { induction IH as [|c l Hc _ IHl]; cbn [fold_right flat_map length]; [lia|]. rewrite length_app. lia. }
  cbn [free_rounds]. destruct l; [lia|cbn [length] in *; lia].
Qed.

Definition released h h' (ps : list nat) : Prop :=
  forall q, nodes h' !! q = if bool_decide (q ∈ ps) then None else nodes h !! q.

(** From a stack with [t] on top, its rounds release it and pop it. *)
Definition free_claim t : Prop :=
  forall fuel h rest cap, tree_at (nodes h) t -> NoDup (ptrs t) -> 0 < cap -> zlen rest < cap ->
  exists h' cap', node_free_loop (free_rounds t + fuel) (root t :: rest) cap cap h = node_free_loop fuel rest cap' cap' h' /\
    cap <= cap' /\ released h h' (ptrs t).

Lemma tree_at_agree m m' t : tree_at m t -> agree (ptrs t) m m' -> tree_at m' t.
Proof using.
  induction t as [p l IH] using tree_ind'. intros T A. apply tree_at_inv in T as (n & Hp & Hc & Hl & Tl).
  econstructor; [rewrite <- A; [exact Hp|left]|done|done|].
  rewrite Forall_forall in IH, Tl |- *. intros c Hin. apply IH; [done|by apply Tl|].
  intros q Hq. apply A. right. apply elem_of_flat_map. by exists c.
Qed.

Lemma free_forest l : Forall free_claim l -> forall fuel h rest cap, Forall (tree_at (nodes h)) l -> NoDup (flat_map ptrs l) ->
  0 < cap -> zlen rest + zlen l <= cap ->
  exists h' cap', node_free_loop (fold_right (fun c k => (free_rounds c + k)%nat) fuel l) ((root <$> l) ++ rest) cap cap h =
      node_free_loop fuel rest cap' cap' h' /\ cap <= cap' /\ released h h' (flat_map ptrs l).
Proof using.
  induction 1 as [|c l Hc _ IH]; intros fuel h rest cap T Hnd H0 Hz; cbn [fold_right fmap list_fmap app flat_map].
  - exists h, cap. split; [done|]. split; [lia|]. intros q. by rewrite bool_decide_eq_false_2 by apply not_elem_of_nil.
  - apply Forall_cons in T as [Tc Tl]. cbn [flat_map] in Hnd. apply NoDup_app in Hnd as (Nc & Nd & Nl). rewrite zlen_cons in Hz.
    destruct (Hc (fold_right (fun c k => (free_rounds c + k)%nat) fuel l) h ((root <$> l) ++ rest) cap) as (h1 & cap1 & -> & L1 & R1);
      try done; [rewrite zlen_app, zlen_fmap; lia|].
    destruct (IH fuel h1 rest cap1) as (h2 & cap2 & -> & L2 & R2); [|done|lia|lia|].
    { rewrite Forall_forall in Tl |- *. intros d Hd. eapply tree_at_agree; [by apply Tl|]. intros q Hq. rewrite (R1 q).
      rewrite bool_decide_eq_false_2; [done|]. intros Hin. apply (Nd q Hin). apply elem_of_flat_map. by exists d. }
    exists h2, cap2. split; [done|]. split; [lia|]. intros q. rewrite (R2 q), (R1 q).
    destruct (decide (q ∈ flat_map ptrs l)) as [Hl|Hl].
    + rewrite !bool_decide_eq_true_2; [done|apply elem_of_app; by right|done].
    + rewrite (bool_decide_eq_false_2 _ Hl). destruct (decide (q ∈ ptrs c)) as [Hq|Hq].
      * rewrite !bool_decide_eq_true_2; [done|apply elem_of_app; by left|done].
      * rewrite !bool_decide_eq_false_2; [done|rewrite elem_of_app; tauto|done].
Qed.

Lemma free_forest_rev l : Forall free_claim l -> forall fuel h rest cap, Forall (tree_at (nodes h)) l -> NoDup (flat_map ptrs l) ->
  0 < cap -> zlen rest + zlen l <= cap ->
  exists h' cap', node_free_loop (fold_right (fun c k => (free_rounds c + k)%nat) fuel l) (reverse (root <$> l) ++ rest) cap cap h =
      node_free_loop fuel rest cap' cap' h' /\ cap <= cap' /\ released h h' (flat_map ptrs l).
Proof using.
  intros Hc fuel h rest cap T Hnd H0 Hz.
  destruct (free_forest (reverse l)) with (fuel := fuel) (h := h) (rest := rest) (cap := cap) as (h' & cap' & Eq & L & R).
  - by apply Forall_reverse.
  - by apply Forall_reverse.
  - assert (flat_map ptrs (reverse l) ≡ₚ flat_map ptrs l) as P by (apply Permutation_flat_map, reverse_Permutation). by rewrite P.
  - done.
  - unfold zlen in *. by rewrite length_reverse.
  - exists h', cap'. split; [|split; [done|]].
    + rewrite <- Eq, fmap_reverse. f_equal. clear. assert (forall k k', k ≡ₚ k' ->
        fold_right (fun c k => (free_rounds c + k)%nat) fuel k = fold_right (fun c k => (free_rounds c + k)%nat) fuel k') as H.
      { induction 1; cbn; lia. }
      apply H. symmetry. apply reverse_Permutation.
    + intros q. rewrite (R q). assert (q ∈ flat_map ptrs (reverse l) <-> q ∈ flat_map ptrs l) as Hi.
      { rewrite !elem_of_flat_map. by setoid_rewrite elem_of_reverse. }
      by rewrite (bool_decide_ext _ _ Hi).
Qed.

Lemma free_run t : free_claim t.
Proof using Halloc.
  induction t as [p l IH] using tree_ind'. intros fuel h rest cap T Hnd H0 Hz. cbn [root].
  apply tree_at_inv in T as (n & Hp & Hch & _ & Tl). rewrite ptrs_node in *. apply NoDup_cons in Hnd as [Hpl Hnl].
  assert (forall h1 cap1, nodes h1 !! p = Some (n <| children := [] |>) ->
    node_free_loop (S fuel) (p :: rest) cap1 cap1 h1 = node_free_loop fuel rest cap1 cap1 (free_node h1 p)) as Pop.
  { intros h1 cap1 H1. cbn [node_free_loop]. rewrite H1. cbn [children]. done. }
  destruct l as [|c l].
  - cbn [free_rounds]. rewrite Pop. 2:{ cbn in Hch. rewrite Hp. destruct n. cbn in *. by subst. }
    exists (free_node h p), cap. split; [done|]. split; [lia|]. intros q. cbn [flat_map].
    destruct (decide (q = p)) as [->|Hne]; cbn.
    + rewrite lookup_delete_eq, bool_decide_eq_true_2 by left. done.
    + rewrite lookup_delete_ne, bool_decide_eq_false_2 by (try done; by intros ?%list_elem_of_singleton). done.
  - set (k := c :: l) in *. change (free_rounds (Tree p k)) with (S (fold_right (fun c k => (free_rounds c + k)%nat) 1%nat k)).
    assert (fold_right (fun c k => (free_rounds c + k)%nat) 1%nat k + fuel =
            fold_right (fun c k => (free_rounds c + k)%nat) (S fuel) k)%nat as Ef.
    { clear. induction k as [|d k IHk]; cbn [fold_right]; lia. }
    rewrite Nat.add_succ_l, Ef. cbn [node_free_loop]. rewrite Hp.
    assert (0 < zlen (children n)) as Hpos by (rewrite Hch, zlen_fmap; unfold k; rewrite zlen_cons; pose proof (zlen_nonneg l); lia).
    destruct (Z.ltb_spec 0 (zlen (children n))); [|lia]. rewrite Hch.
    destruct (push_children_ok (root <$> k) (p :: rest) cap h) as (cap1 & h1 & -> & En & L1 & L2); [done|rewrite zlen_cons; lia|].
    rewrite zlen_cons, zlen_fmap in L2.
    destruct (free_forest_rev k IH (S fuel) (upd h1 p (fun n => n <| children := [] |>)) (p :: rest) cap1) as (h2 & cap2 & -> & L3 & R).
    { rewrite Forall_forall in Tl |- *. intros d Hd. eapply tree_at_agree; [by apply Tl|]. intros q Hq. cbn.
      rewrite lookup_alter_ne, En; [done|]. intros ->. apply Hpl. apply elem_of_flat_map. by exists d. }
    { done. } { lia. } { rewrite zlen_cons. lia. }
    assert (nodes h2 !! p = Some (n <| children := [] |>)) as H2.
    { rewrite (R p), bool_decide_eq_false_2 by done. cbn. by rewrite lookup_alter_eq, En, Hp. }
    exists (free_node h2 p), cap2. split; [by apply Pop|]. split; [lia|]. intros q. cbn.
    destruct (decide (q = p)) as [->|Hne].
    + rewrite lookup_delete_eq, bool_decide_eq_true_2 by left. done.
    + rewrite lookup_delete_ne, (R q) by done. cbn. rewrite lookup_alter_ne, En by done.
      assert (q ∈ p :: flat_map ptrs k <-> q ∈ flat_map ptrs k) as Hi by (rewrite elem_of_cons; tauto).
      by rewrite (bool_decide_ext _ _ Hi).
Qed.

(** Releasing a tree returns, follows no dangling pointer, stays in its stack,
    and releases exactly the nodes of the tree, each once, when memory does not
    run out. *)
Theorem node_free_releases h t (fuel : nat) (Ht : tree_at (nodes h) t) (Hnd : NoDup (ptrs t))
    (Hfuel : (2 * length (ptrs t) <= fuel)%nat) :
  exists h', node_free fuel h (root t) = Returned h' /\ released h h' (ptrs t).
Proof using Halloc.
  unfold node_free, alloc. rewrite Halloc. cbn [negb]. set (h1 := h <| asked := _ |>).
  pose proof (free_rounds_bound t) as Hb.
  destruct (free_run t (fuel - free_rounds t)%nat h1 [] 256) as (h2 & cap & Eq & _ & R); try done.
  exists h2. replace (free_rounds t + (fuel - free_rounds t))%nat with fuel in Eq by lia. rewrite Eq. split; [|done].
  by destruct (fuel - free_rounds t)%nat.
Qed.
End Free.

(** When growing the stack fails, the code goes on with the doubled capacity and
    the old memory: a node pushed later is written past its end. Here the root
    has 256 children, of which the last one pushed has a child. *)
Definition wide_heap : heap_t :=
  {| nodes := list_to_map ((0%nat, null_node <| is_dir := true |> <| children := seq 1 256 |>) ::
                (255%nat, null_node <| is_dir := true |> <| children := [257%nat] |>) :: (257%nat, null_node) ::
                ((fun p => (p, null_node)) <$> (seq 1 254 ++ [256%nat]))); brk := 258; asked := 0 |}.

Example free_overflows : node_free (E := {| ask_alloc := fun n => (n =? 0)%nat |}) 1000 wide_heap 0 = Overflow.
Proof. vm_compute. reflexivity. Qed.

(** ** The comparisons *)

Lemma code_inj c d : code c = code d -> c = d.
Proof. unfold code. intros H. apply N2Z.inj in H. rewrite <- (ascii_N_embedding c), <- (ascii_N_embedding d). by rewrite H. Qed.

Lemma tolower_pos c : c <> nul -> 0 < code (tolower c).
Proof.
  intros H. assert (0 < code c) as P.
  { assert (code c <> 0) by (intros E; apply H, code_inj; by rewrite E). unfold code in *. lia. }
  unfold tolower. destruct ((65 <=? code c) && (code c <=? 90)) eqn:E; [|done].
  apply andb_true_iff in E as [E1 E2]. apply Z.leb_le in E1, E2. unfold code, of_code.
  rewrite N_ascii_embedding; unfold code in *; lia.
Qed.

Lemma strcasecmp_sym s : forall t, strcasecmp s t = - strcasecmp t s.
Proof.
  induction s as [|c s IH]; intros [|d t]; cbn [strcasecmp]; try lia.
  destruct (Ascii.eqb_spec (tolower c) (tolower d)) as [E|E], (Ascii.eqb_spec (tolower d) (tolower c)); try congruence; first [apply IH|lia].
Qed.

Lemma code_nonneg c : 0 <= code c.
Proof. unfold code. lia. Qed.

Lemma strcasecmp_trans s : forall t u, no_nul s -> no_nul t -> strcasecmp s t <= 0 -> strcasecmp t u <= 0 -> strcasecmp s u <= 0.
Proof.
  induction s as [|c s IH]; intros t u Hs Ht.
  { destruct u as [|e u]; cbn [strcasecmp]; [lia|]. pose proof (code_nonneg (tolower e)). lia. }
  destruct Hs as [Hc Hs]. pose proof (tolower_pos c Hc) as Pc.
  destruct t as [|d t]; cbn [strcasecmp]; [lia|]. destruct Ht as [Hd Ht]. pose proof (tolower_pos d Hd) as Pd.
  destruct u as [|e u]; [lia|].
  assert (forall a b, tolower a <> tolower b -> code (tolower a) <> code (tolower b)) as Inj by (intros a b N E; by apply N, code_inj).
  destruct (Ascii.eqb_spec (tolower c) (tolower d)) as [E1|E1], (Ascii.eqb_spec (tolower d) (tolower e)) as [E2|E2],
    (Ascii.eqb_spec (tolower c) (tolower e)) as [E3|E3]; try congruence; [by apply IH|..].
  all: repeat match goal with
    | H : tolower _ = tolower _ |- _ => apply (f_equal code) in H
    | H : tolower _ <> tolower _ |- _ => apply Inj in H
    end; lia.
Qed.

(** What C asks of a comparison. *)
Definition consistent {A} (cmp : A -> A -> Z) : Prop :=
  (forall a b, cmp a b <= 0 \/ cmp b a <= 0) /\ (forall a b, cmp a b < 0 <-> 0 < cmp b a) /\
  (forall a b c, cmp a b <= 0 -> cmp b c <= 0 -> cmp a c <= 0).

Lemma cmp_alpha_sym a b : cmp_alpha a b = - cmp_alpha b a.
Proof. unfold cmp_alpha. rewrite (strcasecmp_sym (node_name a)). by destruct (is_dir a), (is_dir b). Qed.

Lemma cmp_size_sym a b : cmp_size a b = - cmp_size b a.
Proof.
  unfold cmp_size. rewrite (strcasecmp_sym (node_name a)). destruct (is_dir a), (is_dir b); cbn [Bool.eqb]; try done.
  all: destruct (Z.ltb_spec (node_size a) (node_size b)), (Z.ltb_spec (node_size b) (node_size a)); lia.
Qed.

Lemma cmp_alpha_trans a b c : no_nul (node_name a) -> no_nul (node_name b) ->
  cmp_alpha a b <= 0 -> cmp_alpha b c <= 0 -> cmp_alpha a c <= 0.
Proof.
  unfold cmp_alpha. intros Ha Hb. destruct (is_dir a), (is_dir b), (is_dir c); cbn [Bool.eqb Z.b2z]; try lia; by apply strcasecmp_trans.
Qed.

Lemma cmp_size_trans a b c : no_nul (node_name a) -> no_nul (node_name b) ->
  cmp_size a b <= 0 -> cmp_size b c <= 0 -> cmp_size a c <= 0.
Proof.
  unfold cmp_size. intros Ha Hb. pose proof (strcasecmp_trans (node_name a) (node_name b) (node_name c) Ha Hb).
  destruct (is_dir a), (is_dir b), (is_dir c); cbn [Bool.eqb Z.b2z]; try lia;
  destruct (Z.ltb_spec (node_size a) (node_size b)), (Z.ltb_spec (node_size b) (node_size a)),
    (Z.ltb_spec (node_size b) (node_size c)), (Z.ltb_spec (node_size c) (node_size b)),
    (Z.ltb_spec (node_size a) (node_size c)), (Z.ltb_spec (node_size c) (node_size a)); lia.
Qed.

Lemma consistent_of {A} (cmp : A -> A -> Z) : (forall a b, cmp a b = - cmp b a) ->
  (forall a b c, cmp a b <= 0 -> cmp b c <= 0 -> cmp a c <= 0) -> consistent cmp.
Proof. intros S T. split; [intros a b; rewrite (S a b); lia|]. split; [intros a b; rewrite (S a b); lia|done]. Qed.

(** Names are C strings. *)
Definition names_ok (m : gmap nat tree_node_t) : Prop := forall q n, m !! q = Some n -> no_nul (node_name n).

(** Both comparisons are total preorders, as [qsort] needs them. *)
Lemma compare_consistent h by_size : names_ok (nodes h) -> consistent (compare h by_size).
Proof.
  intros Hn. assert (forall q, no_nul (node_name (default null_node (nodes h !! q)))) as N.
  { intros q. destruct (nodes h !! q) eqn:E; [by eapply Hn|done]. }
  apply consistent_of; unfold compare; destruct by_size; intros.
  - apply cmp_size_sym.
  - apply cmp_alpha_sym.
  - eapply cmp_size_trans; eauto.
  - eapply cmp_alpha_trans; eauto.
Qed.

(** ** Sorting *)

(** The contract of [qsort]. *)
Class QsortLaws `{Qsort} := {
  qsort_perm : forall cmp l, qsort cmp l ≡ₚ l;
  qsort_sorted : forall cmp l, consistent cmp -> Sorted (fun a b => cmp a b <= 0) (qsort cmp l)
}.

Lemma Sorted_impl {A} (R R' : A -> A -> Prop) l : (forall a b, R a b -> R' a b) -> Sorted R l -> Sorted R' l.
Proof.
  intros H. induction 1 as [|x l S IH Hd]; constructor; [done|]. inversion Hd; constructor. by apply H.
Qed.

Lemma flat_map_unique {A B} (f : A -> list B) l x y z : NoDup (flat_map f l) -> x ∈ l -> y ∈ l -> z ∈ f x -> z ∈ f y -> x = y.
Proof.
  induction l as [|w l IH]; cbn [flat_map]; [by intros _ Hx%not_elem_of_nil|].
  intros (N1 & D & N2)%NoDup_app Hx Hy Zx Zy.
  assert (forall v, v ∈ l -> z ∈ f v -> z ∈ f w -> False) as Dis.
  { intros v Hv Zv Zw. apply (D z Zw). apply elem_of_flat_map. by exists v. }
  apply elem_of_cons in Hx as [->|Hx], Hy as [->|Hy]; [done|by destruct (Dis y)|by destruct (Dis x)|by apply IH].
Qed.

Section Sort.
Context {E : TreeEnv} `{QL : QsortLaws} (Halloc : forall n, ask_alloc n = true) (h0 : heap_t) (by_size : bool)
  (Hnames : names_ok (nodes h0)).
Implicit Types (h : heap_t) (t : tree) (l : list tree).
Abbreviation m0 := (nodes h0).

Definition no_children (n : tree_node_t) : tree_node_t := n <| children := [] |>.

(** Nodes differ in their children at most. *)
Definition only_children (m m' : gmap nat tree_node_t) : Prop := forall q, no_children <$> m !! q = no_children <$> m' !! q.

(** The children of the root of [t] have been sorted. *)
Definition ordered (m : gmap nat tree_node_t) t : Prop :=
  exists (n : tree_node_t) (l : list nat), m0 !! root t = Some n /\ m !! root t = Some (n <| children := l |>) /\ l ≡ₚ children n /\
    Sorted (fun a b => compare h0 by_size a b <= 0) l.

Lemma compare_erase h a b : only_children m0 (nodes h) -> compare h by_size a b = compare h0 by_size a b.
Proof using.
  intros O. unfold compare.
  assert (forall q, exists l : list nat, default null_node (nodes h !! q) = (default null_node (m0 !! q)) <| children := l |>) as D.
  { intros q. specialize (O q). destruct (m0 !! q) as [n|], (nodes h !! q) as [n'|]; try done; cbn in *.
    - apply (inj Some) in O. exists (children n'). destruct n, n'. cbn in O |- *. by injection O as -> -> -> -> -> -> -> -> -> ->.
    - by exists []. }
  destruct (D a) as [la ->], (D b) as [lb ->]. by destruct by_size.
Qed.

Definition has_kids t : bool := match kids t with [] => false | _ => true end.

Lemma push_dirs_ok (l : list tree) : forall stack cap h, Forall (tree_at m0) l -> agree (flat_map ptrs l) m0 (nodes h) ->
  exists cap' h', push_dirs (root <$> l) stack cap h = Some (Some (reverse (root <$> List.filter has_kids l) ++ stack, cap'), h') /\
    nodes h' = nodes h.
Proof using Halloc.
  induction l as [|[p k] l IH]; intros stack cap h T A; cbn [push_dirs fmap list_fmap root].
  - by exists cap, h.
  - apply Forall_cons in T as [Tc Tl]. apply tree_at_inv in Tc as (n & Hp & Hc & Hleaf & _).
    assert (agree (flat_map ptrs l) m0 (nodes h)) as Al by (intros q Hq; apply A; cbn; apply elem_of_cons; right; apply elem_of_app; by right).
    assert (nodes h !! p = Some n) as Hh by (rewrite <- A; [done|left]). rewrite Hh. simpl.
    cbn [List.filter]. unfold has_kids at 1. cbn [kids]. destruct k as [|c k].
    + assert (zlen (children n) = 0) as -> by (by rewrite Hc). rewrite andb_false_r. by apply IH.
    + destruct (is_dir n); [|by specialize (Hleaf eq_refl)].
      assert ((0 <? zlen (children n)) = true) as ->. { apply Z.ltb_lt. rewrite Hc, zlen_fmap, zlen_cons. pose proof (zlen_nonneg k). lia. }
      cbn [andb fmap list_fmap root]. rewrite reverse_cons, <- app_assoc. cbn [app]. destruct (cap <=? zlen stack).
      * unfold alloc. rewrite Halloc. cbn [negb]. destruct (IH (p :: stack) (cap * 2) (h <| asked := S (asked h) |>)) as (cap' & h' & Eq & En); [done|exact Al|].
        exists cap', h'. split; [exact Eq|exact En].
      * by apply IH.
Qed.
Lemma ordered_leaf m t n : m0 !! root t = Some n -> m !! root t = Some n -> children n = [] -> ordered m t.
Proof using.
  intros H0 H1 Hc. exists n, []. split; [done|]. split; [|by rewrite Hc].
  rewrite H1. destruct n. cbn in *. by subst.
Qed.

Lemma ordered_outside m m' ps t : ordered m t -> outside ps m m' -> root t ∉ ps -> ordered m' t.
Proof using. intros (n & l & H0 & H1 & H2) O Hn. exists n, l. split; [done|]. by rewrite <- O. Qed.

(** What is left of a forest once its roots are sorted. *)
Lemma sort_run (fuel : nat) : forall (ts : list tree) cap h, (length (flat_map ptrs ts) <= fuel)%nat ->
  Forall (tree_at m0) ts -> NoDup (flat_map ptrs ts) -> agree (flat_map ptrs ts) m0 (nodes h) -> only_children m0 (nodes h) ->
  exists h', sort_loop fuel by_size (root <$> ts) cap h = Returned h' /\ only_children m0 (nodes h') /\
    outside (flat_map ptrs ts) (nodes h) (nodes h') /\ (forall s, s ∈ flat_map subtrees ts -> ordered (nodes h') s).
Proof using Halloc QL Hnames.
  induction fuel as [|fuel IH]; intros [|[p l] ts] cap h Hf T Hnd A O; cbn [fmap list_fmap root sort_loop].
  - exists h. split; [done|]. split; [done|]. split; [done|]. by intros s Hs%not_elem_of_nil.
  - cbn in Hf. lia.
  - exists h. split; [done|]. split; [done|]. split; [done|]. by intros s Hs%not_elem_of_nil.
  - apply Forall_cons in T as [Tc Tt]. cbn [flat_map] in Hf, Hnd, A |- *. rewrite ptrs_node in *. rewrite length_app in Hf. cbn [length] in Hf.
    rewrite <- app_comm_cons in Hnd, A |- *. pose proof Tc as Tc'. apply tree_at_inv in Tc' as (n & Hp & Hc & Hleaf & Tl).
    apply NoDup_cons in Hnd as [Hpn Hnd]. apply NoDup_app in Hnd as (Hnl & Hlt & Hnt).
    assert (nodes h !! p = Some n) as Hh by (rewrite <- A; [done|left]). rewrite Hh.
    assert (agree (flat_map ptrs l) m0 (nodes h)) as Al by (intros q Hq; apply A; right; apply elem_of_app; by left).
    assert (agree (flat_map ptrs ts) m0 (nodes h)) as At by (intros q Hq; apply A; right; apply elem_of_app; by right).
    assert (p ∉ flat_map ptrs l) as Hpl by (intros Hin; apply Hpn, elem_of_app; by left).
    assert (p ∉ flat_map ptrs ts) as Hpt by (intros Hin; apply Hpn, elem_of_app; by right).
    destruct l as [|c l].
    { assert (children n = []) as Hn by done. rewrite Hn, orb_true_r.
      destruct (IH ts cap h) as (h' & -> & O' & Out & Fin); try done; [lia|].
      exists h'. split; [done|]. split; [done|]. split.
      - intros q [_ Hq]%not_elem_of_cons. by apply Out.
      - intros s Hs. cbn [flat_map subtrees app] in Hs. apply elem_of_cons in Hs as [->|Hs]; [|by apply Fin].
        apply (ordered_leaf _ _ n); [done| |done]. cbn [root]. by rewrite <- Out. }
    destruct (is_dir n) eqn:Ed; [|by specialize (Hleaf eq_refl)].
    assert ((zlen (children n) =? 0) = false) as ->.
    { apply Z.eqb_neq. rewrite Hc, zlen_fmap, zlen_cons. pose proof (zlen_nonneg l). lia. }
    cbn [negb orb]. set (k := c :: l) in *. set (sorted := qsort (compare h by_size) (children n)).
    assert (sorted ≡ₚ root <$> k) as Ps by (unfold sorted; by rewrite qsort_perm, Hc).
    assert (sorted ≡ₚ map root k) as Ps' by exact Ps. destruct (Permutation_map_inv _ _ Ps') as (k2 & Ek & Pk).
    set (h1 := upd h p (fun n => n <| children := sorted |>)).
    assert (forall q, q <> p -> nodes h1 !! q = nodes h !! q) as H1 by (intros q Hq; by apply lookup_alter_ne).
    assert (nodes h1 !! p = Some (n <| children := sorted |>)) as H1p by (cbn; by rewrite lookup_alter_eq, Hh).
    assert (flat_map ptrs k2 ≡ₚ flat_map ptrs k) as Pf by (by apply Permutation_flat_map).
    assert (Forall (tree_at m0) k2) as T2 by (by rewrite <- Pk).
    assert (agree (flat_map ptrs k2) m0 (nodes h1)) as A2.
    { intros q Hq. rewrite Pf in Hq. rewrite H1; [by apply Al|]. by intros ->. }
    destruct (push_dirs_ok k2 (root <$> ts) cap h1 T2 A2) as (cap2 & h2 & Push & E2). change (root <$> k2) with (map root k2) in Push.
    rewrite <- Ek in Push. rewrite Push, <- fmap_reverse, <- fmap_app.
    set (ts2 := reverse (List.filter has_kids k2) ++ ts).
    assert (forall d, d ∈ reverse (List.filter has_kids k2) <-> d ∈ k /\ has_kids d = true) as Hd.
    { intros d. rewrite elem_of_reverse, list_elem_of_In, filter_In, <- list_elem_of_In. by rewrite Pk. }
    assert (forall q, q ∈ flat_map ptrs (reverse (List.filter has_kids k2)) -> q ∈ flat_map ptrs k) as Sub.
    { intros q (d & Hd1 & Hq)%elem_of_flat_map. apply Hd in Hd1 as [Hd1 _]. apply elem_of_flat_map. by exists d. }
    assert (flat_map ptrs (reverse (List.filter has_kids k2)) ≡ₚ flat_map ptrs (List.filter has_kids k2)) as Pr
      by (apply Permutation_flat_map, reverse_Permutation).
    assert (forall k, sublist (flat_map ptrs (List.filter has_kids k)) (flat_map ptrs k)) as Subl.
    { induction k0 as [|d k0 IHk]; [done|]. cbn [List.filter flat_map]. destruct (has_kids d); cbn [flat_map].
      - by apply sublist_app.
      - by apply sublist_inserts_l. }
    destruct (IH ts2 cap2 h2) as (h' & Run & O' & Out & Fin).
    { unfold ts2. rewrite flat_map_app, length_app, Pr. pose proof (sublist_length _ _ (Subl k2)) as L.
      rewrite Pf in L. lia. }
    { unfold ts2. apply Forall_app. split; [|done]. apply Forall_reverse. rewrite Forall_forall in T2 |- *.
      intros d Hdd. apply T2. rewrite list_elem_of_In, filter_In, <- list_elem_of_In in Hdd. tauto. }
    { unfold ts2. rewrite flat_map_app. apply NoDup_app. split; [|split; [|done]].
      - rewrite Pr. eapply sublist_NoDup; [|apply Subl]. by rewrite Pf.
      - intros q Hq. by apply Hlt, Sub. }
    { unfold ts2. intros q Hq. rewrite flat_map_app in Hq. rewrite E2. apply elem_of_app in Hq as [Hq|Hq].
      - rewrite H1; [by apply Al, Sub|]. intros ->. by apply Hpl, Sub.
      - rewrite H1; [by apply At|]. by intros ->. }
    { intros q. rewrite E2. destruct (decide (q = p)) as [->|Hq]; [|by rewrite H1]. rewrite H1p, Hp. done. }
    exists h'. split; [exact Run|]. split; [done|].
    assert (forall q, q ∉ flat_map ptrs ts2 -> q <> p -> nodes h' !! q = nodes h !! q) as Same.
    { intros q Hq Hne. rewrite <- Out, E2 by done. by apply H1. }
    assert (forall q, q ∈ flat_map ptrs ts2 -> q ∈ flat_map ptrs k \/ q ∈ flat_map ptrs ts) as In2.
    { intros q Hq. unfold ts2 in Hq. rewrite flat_map_app in Hq. apply elem_of_app in Hq as [Hq|Hq]; [left; by apply Sub|by right]. }
    split.
    + intros q [Hq1 Hq2]%not_elem_of_cons. symmetry. apply Same; [|done]. intros [Hin|Hin]%In2; apply Hq2, elem_of_app; tauto.
    + intros s Hs. cbn [flat_map subtrees app] in Hs. apply elem_of_cons in Hs as [->|Hs].
      * exists n, sorted. split; [done|]. split; [cbn [root]; rewrite <- Out, E2; [done|intros [Hin|Hin]%In2; done]|].
        split; [by rewrite Ps, Hc|]. apply (Sorted_impl (fun a b => compare h by_size a b <= 0)).
        -- intros a b. by rewrite (compare_erase h).
        -- apply qsort_sorted. unfold consistent. pose proof (compare_consistent h0 by_size Hnames) as (C1 & C2 & C3).
           split; [|split]; intros; rewrite ?(compare_erase h) in * by done; eauto.
      * apply elem_of_app in Hs as [Hs|Hs].
        -- apply elem_of_flat_map in Hs as (d & Hdk & Hs). destruct (has_kids d) eqn:Eh.
           ++ apply Fin. unfold ts2. rewrite flat_map_app. apply elem_of_app. left. apply elem_of_flat_map. exists d. split; [by apply Hd|done].
           ++ destruct d as [q [|e r]]; [|done]. cbn in Hs. apply list_elem_of_singleton in Hs as ->.
              rewrite Forall_forall in Tl. specialize (Tl _ Hdk). apply tree_at_inv in Tl as (nq & Hq & Hcq & _ & _).
              assert (q ∈ flat_map ptrs k) as Hqk by (apply elem_of_flat_map; exists (Tree q []); split; [done|left]).
              apply (ordered_leaf _ _ nq); [done| |done]. cbn [root]. rewrite Same.
              { rewrite <- Al; done. }
              { unfold ts2. rewrite flat_map_app. intros [Hin|Hin]%elem_of_app; [|by apply (Hlt q)].
                apply elem_of_flat_map in Hin as (d & [Hd1 Hd2]%Hd & Hin).
                assert (d = Tree q []) as ->; [|done]. eapply (flat_map_unique ptrs k); [exact Hnl|done|done|exact Hin|left]. }
              { intros ->. done. }
        -- apply Fin. unfold ts2. rewrite flat_map_app. apply elem_of_app. by right.
Qed.
End Sort.

(** C26. As long as memory does not run out (the code gives up with directories
    unsorted when its stack cannot be allocated or grown), sorting the tree orders
    the children of every directory and does nothing else. On a heap that holds a
    tree whose names are C strings, with any [qsort] that keeps its contract,
    [sort_tree] returns; the children of every node are a permutation of what they
    were, directories in front and then by name without regard to case, or by
    falling size and then by name; nodes outside of the tree, and all fields of
    the nodes but their children, are as before. *)
Theorem sort_tree_sorts `{E : TreeEnv, QL : QsortLaws} (h : heap_t) (t : tree) (by_size : bool) (fuel : nat)
    (Halloc : forall n, ask_alloc n = true) (Ht : tree_at (nodes h) t) (Hnd : NoDup (ptrs t))
    (Hnames : names_ok (nodes h)) (Hfuel : (length (ptrs t) <= fuel)%nat) :
  exists h', sort_tree fuel h (root t) by_size = Returned h' /\ only_children (nodes h) (nodes h') /\
    outside (ptrs t) (nodes h) (nodes h') /\ (forall s, s ∈ subtrees t -> ordered h by_size (nodes h') s).
Proof.
  unfold sort_tree, alloc. rewrite Halloc. cbn [negb].
  destruct (sort_run Halloc h by_size Hnames fuel [t] 256 (h <| asked := S (asked h) |>)) as (h' & Run & O & Out & Fin);
    cbn [flat_map] in *; rewrite ?app_nil_r in *; try done; [by repeat constructor|].
  exists h'. by repeat (split; [done|]).
Qed.

(** A sort that keeps the contract. *)
#[local] Instance merge_qsort : Qsort := {| qsort := fun cmp => @merge_sort nat (fun a b => cmp a b <= 0) (fun a b => Z.le_dec (cmp a b) 0) |}.

#[local] Instance merge_qsort_laws : QsortLaws.
Proof.
  split; intros; [apply merge_sort_Permutation|]. apply Sorted_merge_sort. destruct H as (T & _). intros a b. apply T.
Qed.

#[local] Instance plenty : TreeEnv := {| ask_alloc := fun _ => true |}.

Definition named (name : string) (dir : bool) (size : Z) (cs : list nat) : tree_node_t :=
  {| node_name := name; full_path := name; st := {| stx_mode := 0; stx_size := size; stx_mtime := 0; stx_uid := 0;
    stx_gid := 0; stx_dev_major := 0; stx_dev_minor := 0; stx_ino := 0 |}; stat_err := 0; is_dir := dir; children := cs;
     cap_children := 16; depth := 0; total_size := 0; total_files := 0; total_dirs := 0 |}.

Definition sort_heap : heap_t :=
  {| nodes := {[0%nat := named "r" true 0 [1; 2; 3]%nat; 1%nat := named "b" false 5 []; 2%nat := named "d" true 7 [4]%nat;
                3%nat := named "A" false 2 []; 4%nat := named "c" false 11 []]}; brk := 5; asked := 0 |}.
Definition sort_demo : tree := Tree 0 [Tree 1 []; Tree 2 [Tree 4 []]; Tree 3 []].

Lemma sort_tree_sorts_witness :
  exists h', sort_tree 5 sort_heap 0 false = Returned h' /\ only_children (nodes sort_heap) (nodes h') /\
    outside (ptrs sort_demo) (nodes sort_heap) (nodes h') /\
    (forall s, s ∈ subtrees sort_demo -> ordered sort_heap false (nodes h') s).
Proof.
  apply (sort_tree_sorts sort_heap sort_demo false 5).
  - done.
  - repeat (econstructor; try reflexivity; try discriminate).
  - apply (bool_decide_unpack _). by vm_compute.
  - intros q n Hq. assert (map_Forall (fun _ n => no_nul (node_name n)) (nodes sort_heap)) as F.
    { unfold sort_heap. cbn [nodes]. repeat (apply map_Forall_insert_2; [done|]). apply map_Forall_empty. }
    exact (F q n Hq).
  - cbn. lia.
Defined.

Example sorted_demo : (match sort_tree 5 sort_heap 0 false with Returned h => children <$> nodes h !! 0%nat | _ => None end,
                       match sort_tree 5 sort_heap 0 true with Returned h => children <$> nodes h !! 0%nat | _ => None end)
  = (Some [2; 3; 1]%nat, Some [2; 1; 3]%nat).
Proof. vm_compute. reflexivity. Qed.
