(* ===== verification/TreePrint.v ===== *)
(** * atree: printing the tree

    [atree.c] 1416-1710: the line of a node and the traversal that prints the
    tree, with its stack and its buffer for the prefix of the lines. What the C
    library and the memory contribute (time zones, names, messages, bytes that
    are not initialised, allocation) is the class [PrintEnv]. The line buffer is
    filled from its start for every line, so only its size is kept; what is
    written to stdout is a list of lines. *)
From Stdlib Require Import ZArith Lia List String Ascii.
From stdpp Require Import base tactics strings list gmap.
From S2P Require Import Prelude CStrings TreeFormat TreeNodes.

#[local] Open Scope Z_scope.

(** ** Data *)

Record config_t := {
  root_path : string; max_depth : Z; dirs_only : bool; show_hidden : bool; sort_by_size : bool;
  long_format : bool; raw_bytes : bool; use_color : bool
}.

Record line_buf_t := { buf : string; cap : Z }.

(** What printing reads and changes besides the tree. *)
Record out_t := {
  stdout : list string; file_count : Z; dir_count : Z;
  uid_cache : list id_cache_entry_t; gid_cache : list id_cache_entry_t;
  line_cap : Z; dc : date_cache_t; o_asked : nat
}.

Definition out_eta (r : out_t) : out_t :=
  {| stdout := stdout r; file_count := file_count r; dir_count := dir_count r; uid_cache := uid_cache r; gid_cache := gid_cache r; line_cap := line_cap r; dc := dc r; o_asked := o_asked r |}.
#[export] Instance oset_stdout : Setter stdout := ltac:(mk_setter out_eta).
#[export] Instance oset_file_count : Setter file_count := ltac:(mk_setter out_eta).
#[export] Instance oset_dir_count : Setter dir_count := ltac:(mk_setter out_eta).
#[export] Instance oset_uid_cache : Setter uid_cache := ltac:(mk_setter out_eta).
#[export] Instance oset_gid_cache : Setter gid_cache := ltac:(mk_setter out_eta).
#[export] Instance oset_line_cap : Setter line_cap := ltac:(mk_setter out_eta).
#[export] Instance oset_dc : Setter dc := ltac:(mk_setter out_eta).
#[export] Instance oset_o_asked : Setter o_asked := ltac:(mk_setter out_eta).

Class PrintEnv := {
  print_alloc : nat -> bool;
  localtime : Z -> option tm_t;
  getpwuid : Z -> option string;
  getgrgid : Z -> option string;
  strerror : Z -> string;
  stack_bytes : nat -> string;
  heap_byte : nat -> ascii
}.

Definition NAME_COL : Z := 36.
Definition LONG_COL : Z := 40.

Fixpoint spaces (n : nat) : string := match n with O => EmptyString | S n => String " " (spaces n) end.
Definition strlen (s : string) : Z := Z.of_nat (String.length s).

(** [if (len < 8)], or 7: the spaces that are missing. *)
Definition fill_to (n : Z) (s : string) : string := spaces (Z.to_nat (n - strlen s)).

Section Print.
Context {E : PrintEnv} (config : config_t) (cs : color_scheme_t) (m : gmap nat tree_node_t).
Implicit Types (o : out_t).

Definition print_malloc o : bool * out_t := (print_alloc (o_asked o), o <| o_asked := S (o_asked o) |>).

(** [while (newcap < needed) newcap *= 2]. *)
Fixpoint grown (fuel : nat) (newcap needed : Z) : Z :=
  match fuel with O => newcap | S fuel => if newcap <? needed then grown fuel (newcap * 2) needed else newcap end.

Definition new_cap (cap needed : Z) : Z := grown (Z.to_nat needed) (if cap =? 0 then 256 else cap) needed.

Fixpoint fresh_bytes (n : nat) : string := match n with O => EmptyString | S n => String (heap_byte n) (fresh_bytes n) end.

Definition line_buf_ensure (lb : line_buf_t) (needed : Z) o : bool * line_buf_t * out_t :=
  if needed <=? cap lb then (true, lb, o)
  else
    let newcap := new_cap (cap lb) needed in
    let '(ok, o) := print_malloc o in
    if negb ok then (false, lb, o)
    else (true, {| buf := buf lb ++ fresh_bytes (Z.to_nat (newcap - cap lb)); cap := newcap |}, o).

(** [memcpy(buf + pos, text, strlen(text))]. *)
Definition write_at (b : string) (pos : nat) (text : string) : string :=
  (substring 0 pos b ++ text ++ substring (pos + String.length text) (String.length b) b)%string.

(** ** The line of a node *)

Definition conn_last : string := "└── ".
Definition conn_mid : string := "├── ".

Definition needed_for (prefix name : string) : Z := strlen prefix + strlen name + 512 + 256.

(** Parts 1 and 2: connector, name and padding. *)
Definition head_part (n : tree_node_t) (prefix : string) (is_last : bool) (depth : Z) : string :=
  let clr := color_for_mode cs (is_dir n) (stx_mode (st n)) in
  let rst := if enabled cs then c_reset cs else EmptyString in
  let name_len := strlen (node_name n) in
  let part1 :=
    if depth =? 0 then (clr ++ node_name n ++ "/" ++ rst)%string
    else (prefix ++ (if is_last then conn_last else conn_mid) ++ clr ++ node_name n ++
          (if is_dir n then "/" else "") ++ rst)%string in
  let visible_len := if depth =? 0 then i32 name_len + 1
                     else depth * 4 + i32 name_len + (if is_dir n then 1 else 0) in
  let target_col := if long_format config then LONG_COL else NAME_COL in
  let pad := target_col - visible_len in
  let pad := if pad <? 2 then 2 else pad in
  (part1 ++ spaces (Z.to_nat pad))%string.

(** Mode, user and group of the long format; the caches change. *)
Definition long_part (n : tree_node_t) o : string * out_t :=
  if long_format config then
    let '(uname, uc) := id_cache_lookup_uid getpwuid (uid_cache o) (stx_uid (st n)) in
    let '(gname, gc) := id_cache_lookup_gid getgrgid (gid_cache o) (stx_gid (st n)) in
    ((format_mode (stx_mode (st n)) ++ "  " ++ uname ++ fill_to 8 uname ++ " " ++ gname ++ fill_to 8 gname ++ "  ")%string,
     o <| uid_cache := uc |> <| gid_cache := gc |>)
  else (EmptyString, o).

Definition plural (n : Z) : string := if n =? 1 then EmptyString else "s".

Definition dir_part (n : tree_node_t) : string :=
  let dirs := if 0 <? total_dirs n then (", " ++ fmt_i64 (total_dirs n) ++ " dir" ++ plural (total_dirs n))%string
              else EmptyString in
  ("[" ++ fmt_i64 (total_files n) ++ " file" ++ plural (total_files n) ++ dirs ++
   ", " ++ format_size 32 (total_size n) (raw_bytes config) ++ "]")%string.

Definition file_part (n : tree_node_t) o : string * out_t :=
  let sz := format_size 32 (stx_size (st n)) (raw_bytes config) in
  let '(date, d) := format_date localtime (stack_bytes (length (stdout o))) 16 (stx_mtime (st n)) (dc o) in
  ((fill_to 7 sz ++ sz ++ "  " ++ date)%string, o <| dc := d |>).

Definition put_line o (line : string) : out_t := o <| stdout := stdout o ++ [line] |>.
Definition count_file o : out_t := o <| file_count := file_count o + 1 |>.
Definition count_dir o : out_t := o <| dir_count := dir_count o + 1 |>.

Definition emit_node (n : tree_node_t) (prefix : string) (is_last : bool) (depth : Z) o : out_t :=
  if dirs_only config && negb (is_dir n) then o
  else
    let '(ok, lb, o) := line_buf_ensure {| buf := EmptyString; cap := line_cap o |} (needed_for prefix (node_name n)) o in
    let o := o <| line_cap := cap lb |> in
    if negb ok then o
    else
      let head := head_part n prefix is_last depth in
      if negb (stat_err n =? 0) then
        let o := put_line o (head ++ "[error: " ++ strerror (stat_err n) ++ "]")%string in
        if negb (is_dir n) then count_file o else o
      else
        let '(long, o) := long_part n o in
        let '(tail, o) := if is_dir n then (dir_part n, o) else file_part n o in
        let o := put_line o (head ++ long ++ tail)%string in
        if is_dir n && (0 <? depth) then count_dir o
        else if negb (is_dir n) then count_file o
        else o.

(** ** The traversal *)

Record print_frame_t := {
  f_node : nat; f_is_last : bool; f_depth : Z; child_idx : Z; prefix_pos : nat; last_visible_child : nat
}.

Record print_t := { p_stack : list print_frame_t; p_cap : Z; pb : line_buf_t; p_out : out_t }.

Definition visible (c : nat) : option bool := if negb (dirs_only config) then Some true else is_dir <$> m !! c.

(** The largest [k] with a visible child at [k], 0 without one. *)
Fixpoint last_visible (l : list nat) (k : nat) : option nat :=
  match k with
  | O => Some O
  | S k =>
      match l !! k with
      | Some c => v ← visible c; if (v : bool) then Some k else last_visible l k
      | None => None
      end
  end.

(** The first visible child from [ci] on; the length if there is none. *)
Fixpoint next_visible (n : nat) (l : list nat) (ci : nat) : option nat :=
  match n with
  | O => Some ci
  | S n =>
      match l !! ci with
      | Some c => v ← visible c; if (v : bool) then Some ci else next_visible n l (S ci)
      | None => Some ci
      end
  end.

Definition seg_last : string := "    ".
Definition seg_mid : string := "│   ".

(** Printing a node at its first visit. *)
Definition first_visit (f : print_frame_t) (n : tree_node_t) (s : print_t) : option (print_frame_t * print_t) :=
  if child_idx f =? -1 then
    let '(ok, b, o) := line_buf_ensure (pb s) (Z.of_nat (prefix_pos f) + 1) (p_out s) in
    let b := if (ok : bool) then {| buf := write_at (buf b) (prefix_pos f) (String nul EmptyString); cap := cap b |} else b in
    let o := emit_node n (cstr (buf b)) (f_is_last f) (f_depth f) o in
    lv ← last_visible (children n) (length (children n));
    Some ({| f_node := f_node f; f_is_last := f_is_last f; f_depth := f_depth f; child_idx := 0;
             prefix_pos := prefix_pos f; last_visible_child := lv |},
          {| p_stack := p_stack s; p_cap := p_cap s; pb := b; p_out := o |})
  else Some (f, s).

(** The segment of the frame in the prefix of its children. *)
Definition extend_prefix (f : print_frame_t) (b : line_buf_t) (o : out_t) : nat * line_buf_t * out_t :=
  if 1 <=? f_depth f then
    let seg := if f_is_last f then seg_last else seg_mid in
    let pos := (prefix_pos f + String.length seg)%nat in
    let '(ok, b, o) := line_buf_ensure b (Z.of_nat pos + 1) o in
    (pos, if (ok : bool) then {| buf := write_at (buf b) (prefix_pos f) seg; cap := cap b |} else b, o)
  else (prefix_pos f, b, o).

Definition pop_frame (rest : list print_frame_t) (s : print_t) : option (print_t + out_t) :=
  Some (inl {| p_stack := rest; p_cap := p_cap s; pb := pb s; p_out := p_out s |}).

(** The next child of a node that has been printed. *)
Definition visit_next (f : print_frame_t) (rest : list print_frame_t) (n : tree_node_t) (s : print_t) : option (print_t + out_t) :=
  if negb (is_dir n) || ((0 <=? max_depth config) && (max_depth config <=? f_depth f)) then pop_frame rest s
  else
    ci ← next_visible (length (children n)) (children n) (Z.to_nat (child_idx f));
    match children n !! ci with
    | None => pop_frame rest s
    | Some c =>
        let f := {| f_node := f_node f; f_is_last := f_is_last f; f_depth := f_depth f;
                    child_idx := Z.of_nat ci + 1; prefix_pos := prefix_pos f; last_visible_child := last_visible_child f |} in
        let child_is_last := (last_visible_child f <=? ci)%nat in
        let '(pos, b, o) := extend_prefix f (pb s) (p_out s) in
        let child := {| f_node := c; f_is_last := child_is_last; f_depth := f_depth f + 1; child_idx := -1;
                        prefix_pos := pos; last_visible_child := 0 |} in
        let stack := f :: rest in
        if p_cap s <=? zlen stack then
          let '(ok, o) := print_malloc o in
          if negb ok then Some (inr o)
          else Some (inl {| p_stack := child :: stack; p_cap := p_cap s * 2; pb := b; p_out := o |})
        else Some (inl {| p_stack := child :: stack; p_cap := p_cap s; pb := b; p_out := o |})
    end.

(** One round of the loop; [inr] is a return, [None] a dangling pointer. *)
Definition print_step (s : print_t) : option (print_t + out_t) :=
  match p_stack s with
  | [] => Some (inr (p_out s))
  | f :: rest =>
      if (0 <=? max_depth config) && (max_depth config <? f_depth f) then pop_frame rest s
      else
        n ← m !! f_node f;
        fs ← first_visit f n s;
        visit_next (fst fs) rest n (snd fs)
  end.

Fixpoint print_loop (fuel : nat) (s : print_t) : result_t out_t :=
  match print_step s with
  | None => Dangling
  | Some (inr o) => Returned o
  | Some (inl s) => match fuel with O => Running | S fuel => print_loop fuel s end
  end.

Definition print_node (fuel : nat) (root : nat) (is_last : bool) (depth : Z) o : result_t out_t :=
  let o := o <| line_cap := 0 |> <| dc := no_date |> in
  let '(ok, o) := print_malloc o in
  if negb ok then Returned o
  else print_loop fuel {| p_stack := [{| f_node := root; f_is_last := is_last; f_depth := depth; child_idx := -1;
                                         prefix_pos := 0; last_visible_child := 0 |}];
                          p_cap := 256; pb := {| buf := EmptyString; cap := 0 |}; p_out := o |}.

End Print.
