(* ===== verification/TreePrintSpec.v ===== *)
(** * atree: what is printed

    The traversal with its stack and its prefix buffer prints the lines of a
    recursive listing, and no line is longer than the buffer it is built in. *)
From Stdlib Require Import ZArith Lia List String Ascii.
From stdpp Require Import base tactics strings list gmap relations.
From S2P Require Import Prelude CStrings TreeFormat TreeFormatSpec TreeNodes TreeNodesSpec TreePrint.

#[local] Open Scope Z_scope.
#[local] Arguments String.append : simpl nomatch.

Example connector_bytes : map String.length [conn_last; conn_mid; seg_last; seg_mid] = [10; 10; 4; 6]%nat.
Proof. reflexivity. Qed.

(** ** The reference listing *)

Record item := { it_node : nat; it_prefix : string; it_last : bool; it_depth : Z }.

Section Listing.
Context {E : PrintEnv} (config : config_t) (cs : color_scheme_t) (m : gmap nat tree_node_t).
Implicit Types (o : out_t) (t c : tree) (l : list tree) (P : string).

Definition shown c : bool := negb (dirs_only config) || is_dir_at m (root c).

(** Directories below the depth limit show their children. *)
Definition opened (p : nat) (depth : Z) : bool :=
  is_dir_at m p && negb ((0 <=? max_depth config) && (max_depth config <=? depth)).

Definition child_prefix (prefix : string) (last : bool) (depth : Z) : string :=
  if 1 <=? depth then (prefix ++ (if last then seg_last else seg_mid))%string else prefix.

Fixpoint listing (prefix : string) (last : bool) (depth : Z) t : list item :=
  match t with
  | Tree p l =>
      {| it_node := p; it_prefix := prefix; it_last := last; it_depth := depth |} ::
      if opened p depth then
        (fix kids_listing l := match l with
          | [] => []
          | c :: l =>
              (if shown c then listing (child_prefix prefix last depth) (negb (existsb shown l)) (depth + 1) c else [])
              ++ kids_listing l
          end) l
      else []
  end.

Fixpoint kids_listing (prefix : string) (depth : Z) l : list item :=
  match l with
  | [] => []
  | c :: l => (if shown c then listing prefix (negb (existsb shown l)) depth c else []) ++ kids_listing prefix depth l
  end.

Lemma listing_node prefix last depth p l : listing prefix last depth (Tree p l) =
  {| it_node := p; it_prefix := prefix; it_last := last; it_depth := depth |} ::
  if opened p depth then kids_listing (child_prefix prefix last depth) (depth + 1) l else [].
Proof using.
  cbn [listing]. f_equal. destruct (opened p depth); [|done]. induction l as [|c l IH]; [done|]. cbn [kids_listing]. by rewrite IH.
Qed.

Definition emit_item o (i : item) : out_t :=
  match m !! it_node i with
  | Some n => emit_node config cs n (it_prefix i) (it_last i) (it_depth i) o
  | None => o
  end.

(** ** The prefix buffer *)

Context (Halloc : forall n, print_alloc n = true).

(** The buffer starts with [P]; it has as many bytes as its capacity. *)
Definition holds (b : line_buf_t) P : Prop := (exists rest, buf b = (P ++ rest)%string) /\ strlen (buf b) = cap b.

Definition forget o : out_t := o <| o_asked := 0%nat |>.

Lemma grown_ok (fuel : nat) : forall c needed : Z, 0 < c -> needed - c <= Z.of_nat fuel -> c <= grown fuel c needed /\ needed <= grown fuel c needed.
Proof using.
  induction fuel as [|fuel IH]; intros c needed Hc Hf; cbn [grown]; [lia|].
  destruct (Z.ltb_spec c needed); [|lia]. destruct (IH (c * 2) needed); lia.
Qed.

Lemma new_cap_ok (c needed : Z) : 0 <= c -> c <= new_cap c needed /\ needed <= new_cap c needed.
Proof using.
  intros Hc. unfold new_cap. destruct (Z.eqb_spec c 0) as [->|].
  - destruct (grown_ok (Z.to_nat needed) 256 needed); lia.
  - apply grown_ok; lia.
Qed.

Lemma length_fresh n : String.length (fresh_bytes n) = n.
Proof using. induction n; cbn; lia. Qed.

Lemma ensure_ok b P needed o : holds b P -> exists b' o', line_buf_ensure b needed o = (true, b', o') /\
  holds b' P /\ needed <= cap b' /\ forget o' = forget o.
Proof using Halloc.
  intros [[r Hr] Hl]. unfold line_buf_ensure. destruct (Z.leb_spec needed (cap b)).
  - exists b, o. split; [done|]. split; [split; [by exists r|done]|]. done.
  - unfold print_malloc. rewrite Halloc. cbn [negb]. pose proof (new_cap_ok (cap b) needed) as H1.
    assert (0 <= cap b) by (rewrite <- Hl; unfold strlen; lia).
    eexists _, _. split; [done|]. split; [split|split; [cbn; lia|done]]; cbn [buf cap].
    + rewrite Hr, append_assoc. by eexists.
    + unfold strlen in *. rewrite length_append, length_fresh. lia.
Qed.

Lemma substring_length_app (s t : string) : substring 0 (String.length s) (s ++ t)%string = s.
Proof using. induction s as [|c s IH]; cbn; [by destruct t|]. by rewrite IH. Qed.

Lemma length_substring n s : forall k, (n + k <= String.length s)%nat -> String.length (substring n k s) = k.
Proof using.
  revert n. induction s as [|c s IH]; intros n k H; cbn in H.
  - assert (n = 0 /\ k = 0)%nat as [-> ->] by lia. done.
  - destruct n as [|n]; cbn [substring]; [destruct k as [|k]; cbn [String.length]; [done|rewrite IH; lia]|]. apply IH. lia.
Qed.

Lemma length_substring_tail s : forall n k, (String.length s <= n + k)%nat -> String.length (substring n k s) = (String.length s - n)%nat.
Proof using.
  induction s as [|c s IH]; intros n k H; cbn in H.
  - by destruct n, k.
  - destruct n as [|n]; cbn [substring].
    + destruct k as [|k]; [lia|]. cbn [String.length]. rewrite IH by lia. lia.
    + rewrite IH by lia. cbn [String.length]. lia.
Qed.

(** Writing behind [P] where there is room. *)
Lemma write_ok b P text : holds b P -> strlen P + strlen text <= cap b ->
  holds {| buf := write_at (buf b) (String.length P) text; cap := cap b |} (P ++ text).
Proof using.
  intros [[r Hr] Hl] Hc. unfold write_at. split; cbn [buf cap].
  - rewrite Hr, substring_length_app, <- append_assoc. by eexists.
  - unfold strlen in *. rewrite !length_append. rewrite length_substring by lia. rewrite length_substring_tail by lia. lia.
Qed.

Lemma holds_prefix b P Q : holds b (P ++ Q) -> holds b P.
Proof using. intros [[r Hr] Hl]. split; [|done]. exists (Q ++ r)%string. by rewrite Hr, append_assoc. Qed.

Lemma cstr_holds b P : no_nul P -> holds b (P ++ String nul EmptyString) -> cstr (buf b) = P.
Proof using. intros Hn [[r Hr] _]. rewrite Hr, append_assoc. by apply cstr_front. Qed.

(** ** Printing does not depend on the number of allocations *)

Lemma emit_forget n prefix last depth o o' : forget o = forget o' ->
  forget (emit_node config cs n prefix last depth o) = forget (emit_node config cs n prefix last depth o').
Proof using Halloc.
  destruct o as [s1 f1 d1 u1 g1 l1 c1 a], o' as [s2 f2 d2 u2 g2 l2 c2 a']. intros H. injection H as -> -> -> -> -> -> ->.
  unfold emit_node. destruct (_ && _); [done|]. unfold line_buf_ensure. cbn [cap line_cap].
  destruct (needed_for prefix (node_name n) <=? l2); unfold print_malloc; cbn [o_asked]; rewrite ?Halloc; cbn [negb];
    (destruct (stat_err n =? 0); cbn [negb]; [|by destruct (is_dir n)]);
    unfold long_part; destruct (long_format config); cbn;
    repeat (destruct (id_cache_lookup_uid _ _ _) as [? ?]; destruct (id_cache_lookup_gid _ _ _) as [? ?]; cbn);
    (destruct (is_dir n); cbn; [by destruct (0 <? depth)|]);
    unfold file_part; cbn; destruct (format_date _ _ _ _ _) as [? ?]; done.
Qed.

Lemma emit_item_forget o o' i : forget o = forget o' -> forget (emit_item o i) = forget (emit_item o' i).
Proof using Halloc. intros H. unfold emit_item. destruct (m !! it_node i); [by apply emit_forget|done]. Qed.

Lemma fold_forget items : forall o o', forget o = forget o' -> forget (fold_left emit_item items o) = forget (fold_left emit_item items o').
Proof using Halloc. induction items as [|i items IH]; intros o o' H; [done|]. cbn. by apply IH, emit_item_forget. Qed.
(** ** The children that are shown *)

Definition vis (c : nat) : bool := negb (dirs_only config) || is_dir_at m c.

Lemma visible_vis (c : nat) n : m !! c = Some n -> visible config m c = Some (vis c).
Proof using.
  intros Hc. unfold visible, vis, is_dir_at. rewrite Hc. by destruct (dirs_only config).
Qed.

(** The position of the first child that is shown. *)
Fixpoint first_vis (k : list nat) : nat := match k with [] => O | c :: k => if vis c then O else S (first_vis k) end.

Lemma next_visible_first (n : nat) : forall (l : list nat) ci, Forall (fun c : nat => is_Some (m !! c)) l ->
  (length l - ci <= n)%nat -> (ci <= length l)%nat ->
  next_visible config m n l ci = Some (ci + first_vis (drop ci l))%nat.
Proof using.
  induction n as [|n IH]; intros l ci F Hn Hci; cbn [next_visible].
  - rewrite drop_ge by lia. cbn. f_equal. lia.
  - destruct (l !! ci) as [c|] eqn:E1.
    + destruct (Forall_lookup_1 _ _ _ _ F E1) as [nc Hc]. rewrite (visible_vis c nc Hc). simpl.
      rewrite (drop_S _ _ _ E1). cbn [first_vis]. destruct (vis c); [f_equal; lia|].
      pose proof (lookup_lt_Some _ _ _ E1). rewrite IH by (done || lia). f_equal. lia.
    + apply lookup_ge_None in E1. rewrite drop_ge by lia. cbn. f_equal. lia.
Qed.

(** The last child that is shown is the one that none follows. *)
Lemma last_visible_ok (l : list nat) : Forall (fun c : nat => is_Some (m !! c)) l -> forall k : nat, (k <= length l)%nat ->
  exists lv, last_visible config m l k = Some lv /\
    forall (i c : nat), (i < k)%nat -> l !! i = Some c -> vis c = true ->
      (lv <=? i)%nat = negb (existsb vis (take (k - S i) (drop (S i) l))).
Proof using.
  intros F. induction k as [|k IH]; intros Hk; cbn [last_visible]; [exists O; split; [done|]; intros; lia|].
  destruct (lookup_lt_is_Some_2 l k ltac:(lia)) as [c Hc]. rewrite Hc.
  destruct (Forall_lookup_1 _ _ _ _ F Hc) as [nc Hnc]. rewrite (visible_vis c nc Hnc). simpl.
  assert (forall i, (i < k)%nat -> take (k - i) (drop (S i) l) = take (k - S i) (drop (S i) l) ++ [c]) as Split.
  { intros i Hi. replace (k - i)%nat with (S (k - S i)) by lia. apply take_S_r. rewrite lookup_drop.
    replace (S i + (k - S i))%nat with k by lia. done. }
  destruct (vis c) eqn:Ev.
  - exists k. split; [done|]. intros i d Hi Hd Hv. destruct (decide (i = k)) as [->|].
    + rewrite Nat.sub_diag, Nat.leb_refl. done.
    + rewrite Split, existsb_app by lia. cbn [existsb]. rewrite Ev, orb_true_r. cbn. apply Nat.leb_gt. lia.
  - destruct (IH ltac:(lia)) as (lv & -> & Hlv). exists lv. split; [done|]. intros i d Hi Hd Hv.
    destruct (decide (i = k)) as [->|]; [congruence|].
    rewrite Split, existsb_app by lia. cbn [existsb]. rewrite Ev. cbn [orb]. rewrite ?orb_false_r. eapply Hlv; [lia|done|done].
Qed.

Lemma existsb_shown l : existsb vis (root <$> l) = existsb shown l.
Proof using. induction l as [|c l IH]; [done|]. cbn. by rewrite IH. Qed.

(** ** The traversal *)

Abbreviation print_step := (print_step config cs m).
Definition prel (s s' : print_t) : Prop := print_step s = Some (inl s').

Definition frame (p : nat) (last : bool) (depth : Z) (ci : Z) P (lv : nat) : print_frame_t :=
  {| f_node := p; f_is_last := last; f_depth := depth; child_idx := ci; prefix_pos := String.length P; last_visible_child := lv |}.

(** Printing [t] from a new frame, and the frame of a directory from its [ci]th
    child on; both end with the frame popped and its prefix in the buffer. *)
Definition tree_claim t : Prop :=
  forall P last depth rest stack_cap b o, holds b P -> no_nul P -> ((0 <=? max_depth config) && (max_depth config <? depth)) = false ->
  exists n b' o' cap', nsteps prel n
      {| p_stack := frame (root t) last depth (-1) P 0 :: rest; p_cap := stack_cap; pb := b; p_out := o |}
      {| p_stack := rest; p_cap := cap'; pb := b'; p_out := o' |} /\
    (n < 2 * length (ptrs t))%nat /\ holds b' P /\ forget o' = forget (fold_left emit_item (listing P last depth t) o).

Lemma no_nul_child P last depth : no_nul P -> no_nul (child_prefix P last depth).
Proof using. intros H. unfold child_prefix. destruct (1 <=? depth); [|done]. apply no_nul_app; [done|]. by destruct last. Qed.

Lemma extend_ok p last depth ci P lv b o : holds b P ->
  exists b' o', extend_prefix (frame p last depth ci P lv) b o = (String.length (child_prefix P last depth), b', o') /\
    holds b' (child_prefix P last depth) /\ forget o' = forget o.
Proof using Halloc.
  intros H. unfold extend_prefix, child_prefix. cbn [f_depth f_is_last prefix_pos frame]. destruct (1 <=? depth); [|by exists b, o].
  set (seg := if last then seg_last else seg_mid).
  destruct (ensure_ok b P (Z.of_nat (String.length P + String.length seg) + 1) o H) as (b1 & o1 & -> & H1 & L1 & F1).
  eexists _, o1. split; [by rewrite length_append|]. split; [|done]. apply write_ok; [done|]. unfold strlen. lia.
Qed.

(** A round at a frame whose node has been printed. *)
Lemma step_visited p n last depth (ci : nat) P lv rest stack_cap b o : m !! p = Some n ->
  ((0 <=? max_depth config) && (max_depth config <? depth)) = false ->
  print_step {| p_stack := frame p last depth (Z.of_nat ci) P lv :: rest; p_cap := stack_cap; pb := b; p_out := o |} =
  visit_next config m (frame p last depth (Z.of_nat ci) P lv) rest n
    {| p_stack := frame p last depth (Z.of_nat ci) P lv :: rest; p_cap := stack_cap; pb := b; p_out := o |}.
Proof using.
  intros Hp Hlt. unfold TreePrint.print_step. cbn [p_stack]. change (f_depth (frame p last depth (Z.of_nat ci) P lv)) with depth.
  rewrite Hlt. change (f_node (frame p last depth (Z.of_nat ci) P lv)) with p. rewrite Hp. cbn [mbind option_bind].
  unfold first_visit. change (child_idx (frame p last depth (Z.of_nat ci) P lv)) with (Z.of_nat ci).
  destruct (Z.eqb_spec (Z.of_nat ci) (-1)); [lia|]. done.
Qed.

Lemma opened_inv p n depth : m !! p = Some n -> opened p depth = true ->
  is_dir n = true /\ ((0 <=? max_depth config) && (max_depth config <=? depth)) = false /\
  ((0 <=? max_depth config) && (max_depth config <? depth)) = false /\
  ((0 <=? max_depth config) && (max_depth config <? depth + 1)) = false.
Proof using.
  unfold opened, is_dir_at. intros Hp. rewrite Hp. intros (Hd & Hdepth%negb_true_iff)%andb_true_iff.
  split; [done|]. split; [done|]. destruct (0 <=? max_depth config); [|done]. cbn [andb] in *.
  apply Z.leb_gt in Hdepth. split; apply Z.ltb_ge; lia.
Qed.

(** The round at a frame whose next child to show is [c]. *)
Lemma round_child p n last depth (ci : nat) P lv rest stack_cap b o (i c : nat) :
  m !! p = Some n -> opened p depth = true -> Forall (fun c : nat => is_Some (m !! c)) (children n) -> (ci <= length (children n))%nat ->
  holds b P -> i = (ci + first_vis (drop ci (children n)))%nat -> children n !! i = Some c ->
  exists b' o' cap', prel {| p_stack := frame p last depth (Z.of_nat ci) P lv :: rest; p_cap := stack_cap; pb := b; p_out := o |}
    {| p_stack := frame c (lv <=? i)%nat (depth + 1) (-1) (child_prefix P last depth) 0
                    :: frame p last depth (Z.of_nat (S i)) P lv :: rest; p_cap := cap'; pb := b'; p_out := o' |} /\
    holds b' (child_prefix P last depth) /\ forget o' = forget o.
Proof using Halloc.
  intros Hp Ho F Hci H Hi Hc. destruct (opened_inv p n depth Hp Ho) as (Hd & Hdepth & Hlt & _).
  unfold prel. rewrite (step_visited p n) by done. unfold visit_next. change (f_depth (frame p last depth (Z.of_nat ci) P lv)) with depth.
  rewrite Hd, Hdepth. cbn [negb orb]. change (child_idx (frame p last depth (Z.of_nat ci) P lv)) with (Z.of_nat ci).
  rewrite Nat2Z.id, next_visible_first by (done || lia). cbn [mbind option_bind]. rewrite <- Hi, Hc. cbn [pb p_out p_cap].
  destruct (extend_ok p last depth (Z.of_nat i + 1) P lv b o H) as (b1 & o1 & Ex & H1 & F1). unfold frame in Ex |- *.
  cbn [f_node f_is_last f_depth child_idx prefix_pos last_visible_child]. rewrite Ex.
  replace (Z.of_nat (S i)) with (Z.of_nat i + 1) by lia.
  destruct (stack_cap <=? _); [|by eexists _, _, _]. unfold print_malloc. rewrite Halloc. cbn [negb]. eexists _, _, _. split; [done|].
  split; [done|]. by rewrite <- F1.
Qed.

(** The round in which no child is left. *)
Lemma round_end p n last depth (ci : nat) P lv rest stack_cap b o :
  m !! p = Some n -> opened p depth = true -> Forall (fun c : nat => is_Some (m !! c)) (children n) -> (ci <= length (children n))%nat ->
  children n !! (ci + first_vis (drop ci (children n)))%nat = None ->
  prel {| p_stack := frame p last depth (Z.of_nat ci) P lv :: rest; p_cap := stack_cap; pb := b; p_out := o |}
       {| p_stack := rest; p_cap := stack_cap; pb := b; p_out := o |}.
Proof using.
  intros Hp Ho F Hci Hc. destruct (opened_inv p n depth Hp Ho) as (Hd & Hdepth & Hlt & _).
  unfold prel. rewrite (step_visited p n) by done. unfold visit_next. change (f_depth (frame p last depth (Z.of_nat ci) P lv)) with depth.
  rewrite Hd, Hdepth. cbn [negb orb]. change (child_idx (frame p last depth (Z.of_nat ci) P lv)) with (Z.of_nat ci).
  rewrite Nat2Z.id, next_visible_first by (done || lia). cbn [mbind option_bind]. by rewrite Hc.
Qed.

(** The rounds of the children that are left. *)
Lemma kids_rounds p n last depth P lv : m !! p = Some n -> opened p depth = true -> no_nul P ->
  Forall (fun c : nat => is_Some (m !! c)) (children n) -> last_visible config m (children n) (length (children n)) = Some lv ->
  forall todo, Forall tree_claim todo -> forall (ci : nat) rest stack_cap b o, drop ci (children n) = root <$> todo ->
  (ci <= length (children n))%nat -> holds b P ->
  exists k b' o' cap', nsteps prel (S k)
      {| p_stack := frame p last depth (Z.of_nat ci) P lv :: rest; p_cap := stack_cap; pb := b; p_out := o |}
      {| p_stack := rest; p_cap := cap'; pb := b'; p_out := o' |} /\
    (k <= 2 * length (flat_map ptrs todo))%nat /\ holds b' P /\
    forget o' = forget (fold_left emit_item (kids_listing (child_prefix P last depth) (depth + 1) todo) o).
Proof using Halloc.
  intros Hp Ho Hn F Hlv todo T. induction T as [|c todo Tc _ IH]; intros ci rest stack_cap b o Hd Hci H.
  - exists O, b, o, stack_cap. split; [|split; [cbn; lia|by split]]. apply nsteps_once, (round_end p n); try done.
    rewrite Hd. cbn. apply lookup_ge_None. apply (f_equal length) in Hd. rewrite length_drop in Hd. cbn in Hd. lia.
  - cbn [fmap list_fmap] in Hd. cbn [kids_listing flat_map].
    assert (children n !! ci = Some (root c)) as Hc. { rewrite <- (Nat.add_0_r ci), <- lookup_drop, Hd. done. }
    assert (drop (S ci) (children n) = root <$> todo) as Hd'. { replace (S ci) with (ci + 1)%nat by lia. by rewrite <- drop_drop, Hd. }
    assert (S ci <= length (children n))%nat as Hci' by (apply lookup_lt_Some in Hc; lia).
    change (shown c) with (vis (root c)). destruct (vis (root c)) eqn:Ev.
    + destruct (round_child p n last depth ci P lv rest stack_cap b o ci (root c)) as (b1 & o1 & cap1 & R1 & H1 & F1); try done.
      { rewrite Hd. cbn. rewrite Ev. lia. }
      destruct (last_visible_ok (children n) F (length (children n)) ltac:(lia)) as (lv' & Elv & Hlast).
      assert (lv' = lv) as -> by congruence. specialize (Hlast ci (root c) ltac:(lia) Hc Ev).
      rewrite Hd', take_ge in Hlast by (apply (f_equal length) in Hd'; rewrite length_drop in Hd'; rewrite <- Hd'; lia).
      rewrite existsb_shown in Hlast. rewrite Hlast in R1.
      destruct (Tc (child_prefix P last depth) (negb (existsb shown todo)) (depth + 1) (frame p last depth (Z.of_nat (S ci)) P lv :: rest)
                  cap1 b1 o1 H1) as (k2 & b2 & o2 & cap2 & R2 & L2 & H2 & F2).
      { by apply no_nul_child. }
      { by apply (opened_inv p n). }
      assert (holds b2 P) as H2'. { unfold child_prefix in H2. destruct (1 <=? depth); [by eapply holds_prefix|done]. }
      destruct (IH (S ci) rest cap2 b2 o2 Hd' Hci' H2') as (k3 & b3 & o3 & cap3 & R3 & L3 & H3 & F3).
      exists (S (k2 + k3)), b3, o3, cap3. split; [|split; [|split; [done|]]].
      * apply (nsteps_l _ _ _ _ _ R1). replace (S (k2 + k3)) with (k2 + S k3)%nat by lia. by eapply nsteps_trans.
      * rewrite length_app. lia.
      * rewrite F3, fold_left_app. apply fold_forget. rewrite F2. by apply fold_forget.
    + destruct (IH (S ci) rest stack_cap b o Hd' Hci' H) as (k3 & b3 & o3 & cap3 & R3 & L3 & H3 & F3).
      exists k3, b3, o3, cap3. split; [|split; [rewrite length_app; lia|by split]].
      inversion R3 as [|? ? s2 ? Rs Rr]; subst. eapply nsteps_l; [|exact Rr].
      destruct (opened_inv p n depth Hp Ho) as (_ & _ & Hlt & _). unfold prel in *. rewrite <- Rs.
      rewrite !(step_visited p n) by done. unfold visit_next. cbn [frame f_depth f_node f_is_last child_idx prefix_pos last_visible_child].
      destruct (_ || _); [done|]. rewrite !Nat2Z.id, !next_visible_first by (done || lia).
      rewrite Hd, Hd'. cbn [first_vis]. rewrite Ev.
      replace (ci + S (first_vis (root <$> todo)))%nat with (S ci + first_vis (root <$> todo))%nat by lia. done.
Qed.
(** The round that prints a node goes on as a round at its frame. *)
Lemma first_round p n last depth P rest stack_cap b o : m !! p = Some n ->
  ((0 <=? max_depth config) && (max_depth config <? depth)) = false ->
  holds b P -> no_nul P -> Forall (fun c : nat => is_Some (m !! c)) (children n) ->
  exists lv b' o', last_visible config m (children n) (length (children n)) = Some lv /\ holds b' P /\
    forget o' = forget (emit_item o {| it_node := p; it_prefix := P; it_last := last; it_depth := depth |}) /\
    print_step {| p_stack := frame p last depth (-1) P 0 :: rest; p_cap := stack_cap; pb := b; p_out := o |} =
    print_step {| p_stack := frame p last depth (Z.of_nat 0) P lv :: rest; p_cap := stack_cap; pb := b'; p_out := o' |}.
Proof using Halloc.
  intros Hp Hlt H Hn F. destruct (last_visible_ok (children n) F (length (children n)) ltac:(lia)) as (lv & Elv & _).
  destruct (ensure_ok b P (Z.of_nat (String.length P) + 1) o H) as (b1 & o1 & E1 & H1 & L1 & F1).
  pose proof (write_ok b1 P (String nul EmptyString) H1 ltac:(unfold strlen; cbn; lia)) as H2.
  eexists lv, _, (emit_node config cs n P last depth o1). split; [done|]. split; [exact (holds_prefix _ _ _ H2)|]. split.
  { unfold emit_item. cbn [it_node it_prefix it_last it_depth]. rewrite Hp. by apply emit_forget. }
  rewrite (step_visited p n) by done. unfold TreePrint.print_step. cbn [p_stack frame f_depth f_node]. rewrite Hlt, Hp. cbn [mbind option_bind].
  unfold first_visit, frame. cbn [child_idx pb prefix_pos p_out f_node f_is_last f_depth last_visible_child]. change (-1 =? -1) with true. cbv iota. rewrite E1. cbn [buf].
  pose proof (cstr_holds _ P Hn H2) as Ec. cbn [buf] in Ec |- *. rewrite Ec, Elv. reflexivity.
Qed.

Lemma Forall_root_some l : Forall (tree_at m) l -> Forall (fun c : nat => is_Some (m !! c)) (root <$> l).
Proof using. induction 1 as [|[q k] l Hc _ IH]; constructor; [|done]. apply tree_at_inv in Hc as (n & Hq & _). by exists n. Qed.

Lemma tree_claims t : tree_at m t -> tree_claim t.
Proof using Halloc.
  induction t as [p l IH] using tree_ind'. intros T. apply tree_at_inv in T as (n & Hp & Hch & Hleaf & Fl).
  intros P last depth rest stack_cap b o H Hn Hlt. cbn [root].
  assert (Forall (fun c : nat => is_Some (m !! c)) (children n)) as F by (rewrite Hch; by apply Forall_root_some).
  destruct (first_round p n last depth P rest stack_cap b o Hp Hlt H Hn F) as (lv & b1 & o1 & Elv & H1 & F1 & R).
  rewrite listing_node, ptrs_node. destruct (opened p depth) eqn:Eo.
  - assert (Forall tree_claim l) as Tl by (clear -IH Fl; induction IH; inversion Fl; subst; constructor; auto).
    destruct (kids_rounds p n last depth P lv Hp Eo Hn F Elv l Tl 0%nat rest stack_cap b1 o1) as (k & b2 & o2 & cap2 & R2 & L2 & H2 & F2);
      [by rewrite drop_0|lia|done|].
    exists (S k), b2, o2, cap2. split; [|split; [cbn [length]; lia|split; [done|]]].
    + inversion R2 as [|? ? s2 ? Rs Rr]; subst. eapply nsteps_l; [|exact Rr]. unfold prel in *. by rewrite R.
    + rewrite F2. cbn [fold_left]. by apply fold_forget.
  - exists 1%nat, b1, o1, stack_cap. split; [|split; [cbn [length]; lia|by split]]. apply nsteps_once. unfold prel. rewrite R, (step_visited p n) by done.
    unfold visit_next. change (f_depth (frame p last depth (Z.of_nat 0) P lv)) with depth. unfold opened, is_dir_at in Eo. rewrite Hp in Eo.
    apply andb_false_iff in Eo as [Eo|Eo%negb_false_iff]; rewrite Eo; [done|]. by rewrite orb_true_r.
Qed.

End Listing.

(** ** The size of a line *)

Lemma length_fmt_loop (fuel : nat) : forall uv tail, (String.length (fmt_loop fuel uv tail) <= fuel + String.length tail)%nat.
Proof. induction fuel as [|fuel IH]; intros uv tail; cbn [fmt_loop]; [lia|]. destruct (0 <? uv); [|lia]. etrans; [apply IH|]. cbn. lia. Qed.

Lemma length_fmt_i64 v : (String.length (fmt_i64 v) <= 21)%nat.
Proof.
  unfold fmt_i64. destruct (v =? 0); [cbn; lia|].
  destruct (v <? 0); cbn [String.length]; etrans; [apply le_n_S| |apply (length_fmt_loop 20)|]; try apply (length_fmt_loop 20); cbn; lia.
Qed.

Lemma length_format_size b raw : (String.length (format_size 32 b raw) <= 24)%nat.
Proof.
  assert (forall u c, (String.length (fmt_size_human b u c) <= 24)%nat) as H.
  { intros u c. unfold fmt_size_human. rewrite length_append. pose proof (length_fmt_i64 (i64 (b / u))). cbn [String.length]. lia. }
  unfold format_size. pose proof (length_fmt_i64 (i64 b)).
  repeat match goal with |- context [if ?c then _ else _] => destruct c end; try apply H; cbn [String.length]; lia.
Qed.

Lemma length_substring_le s : forall n k : nat, (String.length (substring n k s) <= k)%nat.
Proof. induction s as [|c s IH]; intros [|n] [|k]; cbn; try lia; [specialize (IH O k)|specialize (IH n O)|specialize (IH n (S k))]; lia. Qed.

Lemma length_bounded32 s : strlen (bounded 32 s) < 32.
Proof. unfold bounded, strlen. pose proof (length_substring_le s 0 (32 - 1)). lia. Qed.

Lemma length_spaces n : String.length (spaces n) = n.
Proof. induction n; cbn; lia. Qed.

(** The entries of a cache of names are short; a lookup gives a short name. *)
Definition short_names (cache : list id_cache_entry_t) : Prop := Forall (fun e => strlen (name e) < 32) cache.

Lemma id_probe_short (names : Z -> option string) (n : nat) : forall cache uid i, short_names cache ->
  strlen (fst (id_probe names cache uid i n)) < 32 /\ short_names (snd (id_probe names cache uid i n)).
Proof.
  induction n as [|n IH]; intros cache uid i H; cbn [id_probe]; [split; [apply length_bounded32|done]|].
  set (slot := Z.land _ _). destruct (e_valid (aget no_entry cache slot)); cbn [negb].
  - destruct (id (aget no_entry cache slot) =? uid); [|by apply IH]. split; [|done]. cbn [fst]. unfold aget.
    destruct (slot <? 0); [done|]. destruct (nth_in_or_default (Z.to_nat slot) cache no_entry) as [Hin| ->]; [|done].
    unfold short_names in H. rewrite Forall_forall in H. by apply H, list_elem_of_In.
  - cbn [fst snd]. assert (strlen match names uid with Some s => bounded 32 s | None => bounded 32 (print_u uid) end < 32) as L
      by (destruct (names uid); apply length_bounded32).
    split; [done|]. unfold aset. destruct (slot <? 0); [done|]. by apply Forall_insert.
Qed.

(** Every colour [color_init] can set has fewer than 32 bytes. *)
Definition short_colors (cs : color_scheme_t) : Prop :=
  strlen (c_dir cs) < 32 /\ strlen (c_exec cs) < 32 /\ strlen (c_link cs) < 32 /\ strlen (c_pipe cs) < 32 /\
  strlen (c_sock cs) < 32 /\ strlen (c_reset cs) < 32.

Lemma set_color_short cs key val : short_colors cs -> short_colors (set_color cs key val).
Proof.
  destruct cs as [e di ex ln pi so r]. unfold short_colors, set_color. cbn. intros (?&?&?&?&?&?).
  pose proof (length_bounded32 (String esc (String "[" (val ++ String "m" EmptyString)))). unfold parse_ansi_code.
  repeat match goal with |- context [if ?c then _ else _] => destruct c; [repeat split; assumption|] end. repeat split; assumption.
Qed.

Lemma color_init_short on lsc copied : short_colors (color_init on lsc copied).
Proof.
  unfold color_init. destruct on; cbn [negb]; [|repeat split; done].
  set (cs := Build_color_scheme_t _ _ _ _ _ _ _). assert (short_colors cs) as H by (repeat split; done). clearbody cs.
  destruct lsc as [l|]; [|done]. destruct copied; [|done]. revert cs H. induction (strtok EmptyString l) as [|tok toks IH]; intros cs H; [done|].
  cbn [fold_left]. apply IH. unfold color_token. destruct (cut "=" tok) as [[key val]|]; [by apply set_color_short|done].
Qed.

Lemma color_for_short cs dir mode : short_colors cs -> strlen (color_for_mode cs dir mode) < 32.
Proof.
  intros (?&?&?&?&?&?). unfold color_for_mode.
  repeat match goal with |- context [if ?c then _ else _] => destruct c; [done|] end. done.
Qed.

Lemma strlen_app (s t : string) : strlen (s ++ t)%string = strlen s + strlen t.
Proof. unfold strlen. rewrite length_append. lia. Qed.

Lemma strlen_nonneg s : 0 <= strlen s.
Proof. unfold strlen. lia. Qed.

Lemma fill_short (n : Z) s (k : Z) : 0 <= n <= k -> strlen s <= k -> strlen s + strlen (fill_to n s) <= k.
Proof. unfold fill_to, strlen. rewrite length_spaces. lia. Qed.

Lemma pad_width pad : pad <= 40 -> strlen (spaces (Z.to_nat (if pad <? 2 then 2 else pad))) <= 40.
Proof. intros Hp. unfold strlen. rewrite length_spaces. destruct (Z.ltb_spec pad 2); lia. Qed.

Section Width.
Context {E : PrintEnv} (config : config_t) (cs : color_scheme_t) (Hcs : short_colors cs).

Lemma head_width n prefix last depth : strlen (node_name n) < 2 ^ 31 -> 0 <= depth ->
  strlen (head_part config cs n prefix last depth) <= strlen prefix + strlen (node_name n) + 120.
Proof using Hcs.
  intros Hn Hd. unfold head_part. pose proof (color_for_short cs (is_dir n) (stx_mode (st n)) Hcs) as Hclr.
  assert (strlen (if enabled cs then c_reset cs else EmptyString) < 32) as Hrst by (destruct (enabled cs); [apply Hcs|done]).
  set (clr := color_for_mode _ _ _) in *. set (rst := if enabled cs then _ else _) in *. clearbody clr rst.
  pose proof (strlen_nonneg (node_name n)). assert (i32 (strlen (node_name n)) = strlen (node_name n)) as -> by (apply i32_id; unfold INT_MIN, INT_MAX; lia).
  assert (strlen (if is_dir n then "/" else "") <= 1) by (unfold strlen; destruct (is_dir n); cbn; lia).
  assert (strlen (if last then conn_last else conn_mid) = 10) as Hconn by (by destruct last).
  assert (strlen "/" = 1) by done.
  pose proof (strlen_nonneg prefix).
  destruct (long_format config), (Z.eqb_spec depth 0);
    match goal with |- context [spaces (Z.to_nat (if ?p <? 2 then 2 else ?p))] => pose proof (pad_width p) as Hp end;
    rewrite !strlen_app, ?Hconn;
    unfold LONG_COL, NAME_COL in *; (specialize (Hp ltac:(destruct (is_dir n); lia)); lia).
Qed.
Hypothesis Hday : forall t t' tm tm', localtime t = Some tm -> localtime t' = Some tm' ->
  tm_year tm = tm_year tm' -> tm_yday tm = tm_yday tm' -> tm_mon tm = tm_mon tm' /\ tm_mday tm = tm_mday tm'.
Hypothesis Hrange : forall t tm, localtime t = Some tm ->
  0 <= tm_yday tm < 366 /\ 0 <= tm_mon tm < 12 /\ 1 <= tm_mday tm <= 31 /\ -999 <= tm_year tm + 1900 <= 9999.
Hypothesis Herr : forall e, strlen (strerror e) <= 512.

(** What the caches hold is short. *)
Definition caches_short (o : out_t) : Prop :=
  short_names (uid_cache o) /\ short_names (gid_cache o) /\ date_inv localtime (dc o) /\ 0 <= line_cap o.

Lemma long_width n o : caches_short o ->
  strlen (fst (long_part config n o)) <= 100 /\ caches_short (snd (long_part config n o)) /\
  stdout (snd (long_part config n o)) = stdout o /\ line_cap (snd (long_part config n o)) = line_cap o.
Proof using.
  intros (Hu & Hg & Hdt & Hcap). unfold long_part. destruct (long_format config); [|split; [done|by split_and!]].
  unfold id_cache_lookup_uid, id_cache_lookup_gid.
  pose proof (id_probe_short getpwuid (Z.to_nat ID_CACHE_SIZE) (uid_cache o) (stx_uid (st n)) 0 Hu) as [Lu Su].
  pose proof (id_probe_short getgrgid (Z.to_nat ID_CACHE_SIZE) (gid_cache o) (stx_gid (st n)) 0 Hg) as [Lg Sg].
  destruct (id_probe getpwuid _ _ _ _) as [un uc], (id_probe getgrgid _ _ _ _) as [gn gc]. cbn [fst snd] in *.
  split; [|done]. rewrite !strlen_app. pose proof (fill_short 8 un 31). pose proof (fill_short 8 gn 31).
  assert (strlen (format_mode (stx_mode (st n))) = 10) as -> by done. assert (strlen "  " = 2) as -> by done.
  assert (strlen " " = 1) as -> by done. lia.
Qed.

Lemma dir_width n : strlen (dir_part config n) <= 100.
Proof using.
  unfold dir_part, plural. assert (strlen " file" = 5 /\ strlen " dir" = 4 /\ strlen ", " = 2 /\ strlen "[" = 1 /\ strlen "]" = 1 /\
    strlen "s" = 1 /\ strlen "" = 0) as (?&?&?&?&?&?&?) by done.
  pose proof (length_fmt_i64 (total_files n)). pose proof (length_fmt_i64 (total_dirs n)). pose proof (length_format_size (total_size n) (raw_bytes config)).
  assert (forall s k, (String.length s <= k)%nat -> strlen s <= Z.of_nat k) as L by (unfold strlen; lia).
  repeat match goal with H : (String.length _ <= _)%nat |- _ => apply L in H end.
  destruct (0 <? total_dirs n), (total_files n =? 1), (total_dirs n =? 1); rewrite !strlen_app; lia.
Qed.

Lemma file_width n o : caches_short o ->
  strlen (fst (file_part config n o)) <= 100 /\ caches_short (snd (file_part config n o)) /\
  stdout (snd (file_part config n o)) = stdout o /\ line_cap (snd (file_part config n o)) = line_cap o.
Proof using Hday Hrange.
  intros (Hu & Hg & Hdt & Hcap). unfold file_part.
  pose proof (format_date_ok localtime Hday Hrange (stack_bytes (length (stdout o))) (stx_mtime (st n)) (dc o) Hdt) as Hf.
  destruct (format_date _ _ _ _ _) as [date d]. destruct Hf as [-> Hd]. cbn [fst snd]. split; [|by split_and!].
  rewrite !strlen_app. assert (strlen "  " = 2) as -> by done.
  assert (strlen (date_text localtime (stx_mtime (st n))) <= 10).
  { unfold date_text. destruct (localtime _) as [tm|] eqn:Et; [|done]. pose proof (length_ymd localtime Hrange _ _ Et). unfold strlen. lia. }
  pose proof (length_format_size (stx_size (st n)) (raw_bytes config)).
  pose proof (fill_short 7 (format_size 32 (stx_size (st n)) (raw_bytes config)) 24). unfold strlen in *. lia.
Qed.

Lemma emit_width n prefix last depth o : caches_short o -> strlen (node_name n) < 2 ^ 31 -> 0 <= depth ->
  let o' := emit_node config cs n prefix last depth o in
  caches_short o' /\ (stdout o' = stdout o \/ exists line, stdout o' = stdout o ++ [line] /\ strlen line + 1 <= line_cap o').
Proof using Hcs Hday Hrange Herr.
  intros Hs Hn Hd. unfold emit_node. destruct (_ && _); [split; [done|by left]|].
  set (needed := needed_for prefix (node_name n)).
  assert (exists ok lb o1, line_buf_ensure {| buf := EmptyString; cap := line_cap o |} needed o = (ok, lb, o1) /\
    caches_short o1 /\ stdout o1 = stdout o /\ 0 <= cap lb /\ (ok = true -> needed <= cap lb)) as (ok & lb & o1 & -> & Hs1 & E1 & Hb & Hc).
  { destruct Hs as (Hu & Hg & Hdt & Hcap). unfold line_buf_ensure. cbn [cap buf].
    destruct (Z.leb_spec needed (line_cap o)); [by exists true, {| buf := EmptyString; cap := line_cap o |}, o|].
    pose proof (new_cap_ok (line_cap o) needed Hcap). unfold print_malloc.
    destruct (print_alloc (o_asked o)); cbn [negb]; eexists _, _, _; (split; [done|]); (split; [done|]); (split; [done|]); cbn [cap]; lia. }
  assert (caches_short (o1 <| line_cap := cap lb |>)) as Hs2 by (destruct Hs1 as (?&?&?&?); by repeat split).
  destruct ok; cbn [negb]; [|split; [done|by left]].
  specialize (Hc eq_refl). pose proof (head_width n prefix last depth Hn Hd) as Hw. fold needed in Hc.
  set (o2 := o1 <| line_cap := cap lb |>) in *. assert (stdout o2 = stdout o /\ line_cap o2 = cap lb) as [E2 C2] by done. clearbody o2.
  destruct (stat_err n =? 0); cbn [negb].
  - pose proof (long_width n o2 Hs2) as (Lw & Ls & Lo & Lc). destruct (long_part config n o2) as [long o3]. cbn [fst snd] in *.
    assert (exists tail o4, (if is_dir n then (dir_part config n, o3) else file_part config n o3) = (tail, o4) /\
      strlen tail <= 100 /\ caches_short o4 /\ stdout o4 = stdout o /\ line_cap o4 = cap lb) as (tail & o4 & -> & Tw & Ts & To & Tc).
    { destruct (is_dir n); [eexists _, _; split; [done|]; split; [apply dir_width|split; [done|split; congruence]]|].
      pose proof (file_width n o3 Ls) as (Fw & Fs & Fo & Fc). destruct (file_part config n o3) as [tail o4]. cbn [fst snd] in *.
      eexists _, _. split; [done|]. split; [done|]. split; [done|]. split; congruence. }
    set (line := (_ ++ _ ++ tail)%string).
    assert (strlen line + 1 <= cap lb) as Hline by (unfold line; rewrite !strlen_app; unfold needed, needed_for in Hc; lia). clearbody line.
    assert (caches_short (put_line o4 line) /\ stdout (put_line o4 line) = stdout o ++ [line] /\ line_cap (put_line o4 line) = cap lb) as (P1 & P2 & P3)
      by (unfold put_line; cbn; by rewrite To).
    set (o5 := put_line o4 line) in *. clearbody o5.
    destruct (is_dir n && (0 <? depth)), (negb (is_dir n)); (split; [exact P1|]); right; exists line; cbn; by rewrite P3.
  - pose proof (Herr (stat_err n)) as He. set (line := (_ ++ _ ++ strerror (stat_err n) ++ _)%string).
    assert (strlen line + 1 <= cap lb) as Hline.
    { unfold line. rewrite !strlen_app. assert (strlen "[error: " = 8 /\ strlen "]" = 1) as [-> ->] by done. unfold needed, needed_for in Hc. lia. }
    clearbody line.
    assert (caches_short (put_line o2 line) /\ stdout (put_line o2 line) = stdout o ++ [line] /\ line_cap (put_line o2 line) = cap lb) as (P1 & P2 & P3)
      by (unfold put_line; cbn; by rewrite E2).
    set (o5 := put_line o2 line) in *. clearbody o5.
    destruct (negb (is_dir n)); (split; [exact P1|]); right; exists line; cbn; by rewrite P3.
Qed.
End Width.

(** ** The claims *)

Section Claims.
Context {E : PrintEnv}.

(** C24. The loop of print_node with its stack, its scan for the last child that
    is shown and its shared prefix buffer prints exactly the lines of the
    recursive listing of the tree: every node once, parents before children in
    the order of the children arrays, directories below the depth limit opened,
    files left out with the directories-only option, and the connector and the
    prefix of each line those of its position among the children that are
    shown. It does so in fewer than two rounds per node when memory is
    available. *)
Theorem print_node_lists (config : config_t) (cs : color_scheme_t) (m : gmap nat tree_node_t) (t : tree) (o : out_t) (fuel : nat)
    (Halloc : forall n, print_alloc n = true) (Ht : tree_at m t) (Hdepth : ((0 <=? max_depth config) && (max_depth config <? 0)) = false)
    (Hfuel : (2 * length (ptrs t) <= fuel)%nat) :
  exists o', print_node config cs m fuel (root t) true 0 o = Returned o' /\
    forget o' = forget (fold_left (emit_item config cs m) (listing config m EmptyString true 0 t) (o <| line_cap := 0 |> <| dc := no_date |>)).
Proof.
  destruct (tree_claims config cs m Halloc t Ht EmptyString true 0 [] 256 {| buf := EmptyString; cap := 0 |}
    (snd (print_malloc (o <| line_cap := 0 |> <| dc := no_date |>)))) as (n & b' & o' & cap' & R & L & _ & F);
    [split; [by exists EmptyString|done]|done|done|].
  exists o'. split.
  - unfold print_node. unfold print_malloc in R |- *. rewrite Halloc. cbn [negb snd] in *.
    assert (forall f s s' k, nsteps (prel config cs m) k s s' -> p_stack s' = [] -> (k <= f)%nat ->
      print_loop config cs m f s = Returned (p_out s')) as Run.
    { intros f s s' k Rk Hs. revert f. induction Rk as [s|k s s1 s2 R1 _ IH]; intros f Hf.
      - destruct f; cbn [print_loop]; unfold TreePrint.print_step; by rewrite Hs.
      - destruct f as [|f]; [lia|]. cbn [print_loop]. unfold prel in R1. rewrite R1. apply IH; [done|lia]. }
    exact (Run fuel _ _ n R eq_refl ltac:(lia)).
  - rewrite F. by apply (fold_forget config cs m Halloc).
Qed.

(** C25. The buffer a line is built in is large enough for it: whatever LS_COLORS
    sets, printing a node writes at most one line, and the line with its newline
    fits in the capacity line_buf_ensure has established from the lengths of
    prefix and name alone, as long as messages have at most 512 bytes and years
    at most four characters. The caches of names and dates stay in the state
    this relies on, in which they start. *)
Theorem emit_node_fits (config : config_t) (on copied : bool) (lsc : option string) (n : tree_node_t) (prefix : string)
    (last : bool) (depth : Z) (o : out_t)
    (Hday : forall t t' tm tm', localtime t = Some tm -> localtime t' = Some tm' ->
      tm_year tm = tm_year tm' -> tm_yday tm = tm_yday tm' -> tm_mon tm = tm_mon tm' /\ tm_mday tm = tm_mday tm')
    (Hrange : forall t tm, localtime t = Some tm ->
      0 <= tm_yday tm < 366 /\ 0 <= tm_mon tm < 12 /\ 1 <= tm_mday tm <= 31 /\ -999 <= tm_year tm + 1900 <= 9999)
    (Herr : forall e, strlen (strerror e) <= 512) (Hn : strlen (node_name n) < 2 ^ 31) (Hd : 0 <= depth)
    (Ho : caches_short o \/ uid_cache o = empty_cache /\ gid_cache o = empty_cache /\ dc o = no_date /\ line_cap o = 0) :
  let o' := emit_node config (color_init on lsc copied) n prefix last depth o in
  caches_short o' /\ (stdout o' = stdout o \/ exists line, stdout o' = stdout o ++ [line] /\ strlen line + 1 <= line_cap o').
Proof.
  apply emit_width; try done; [apply color_init_short|].
  destruct Ho as [Ho|(Eu & Eg & Edc & El)]; [done|]. unfold caches_short. rewrite Eu, Eg, Edc, El.
  split; [by apply Forall_replicate|]. split; [by apply Forall_replicate|]. done.
Qed.

End Claims.

(** ** An example *)

#[local] Instance demo_print : PrintEnv := {|
  print_alloc := fun _ => true; localtime := fun t => if t =? 0 then Some {| tm_year := 70; tm_mon := 0; tm_mday := 1; tm_yday := 0 |} else None;
  getpwuid := fun _ => Some "root"%string; getgrgid := fun _ => None; strerror := fun _ => "No such file or directory"%string;
  stack_bytes := fun _ => EmptyString; heap_byte := fun _ => "?"%char |}.

Definition demo_config : config_t :=
  {| root_path := "r"; max_depth := -1; dirs_only := false; show_hidden := false; sort_by_size := false;
     long_format := false; raw_bytes := false; use_color := false |}.
Definition demo_out : out_t :=
  {| stdout := []; file_count := 0; dir_count := 0; uid_cache := empty_cache; gid_cache := empty_cache; line_cap := 0; dc := no_date; o_asked := 0 |}.

Lemma print_node_lists_witness :
  exists o', print_node demo_config (color_init false None true) (nodes demo_heap) 10 0 true 0 demo_out = Returned o' /\
    forget o' = forget (fold_left (emit_item demo_config (color_init false None true) (nodes demo_heap))
      (listing demo_config (nodes demo_heap) EmptyString true 0 demo_tree) (demo_out <| line_cap := 0 |> <| dc := no_date |>)).
Proof.
  apply (print_node_lists demo_config (color_init false None true) (nodes demo_heap) demo_tree demo_out 10).
  - done.
  - apply demo_tree_at.
  - reflexivity.
  - cbn. lia.
Defined.

Example demo_lines : match print_node demo_config (color_init false None true) (nodes demo_heap) 10 0 true 0 demo_out with
  | Returned o => map (fun l => cstr (substring 0 20 l)) (stdout o) | _ => [] end =
  ["r/                  "; "├── a         "; "├── d/        "; "│   └── c   "; "└── b         "]%string.
Proof. vm_compute. reflexivity. Qed.

Lemma emit_node_fits_witness :
  let o' := emit_node demo_config (color_init true (Some "di=01;34:ln=target"%string) true) (demo_node "a" false 5 []) "│   " true 2 demo_out in
  caches_short o' /\ (stdout o' = stdout demo_out \/ exists line, stdout o' = stdout demo_out ++ [line] /\ strlen line + 1 <= line_cap o').
Proof.
  apply (emit_node_fits demo_config true true (Some "di=01;34:ln=target"%string) (demo_node "a" false 5 []) "│   " true 2 demo_out).
  - intros t t' tm tm'. cbn. destruct (t =? 0), (t' =? 0); intros E E'; inversion E; inversion E'; subst; done.
  - intros t tm. cbn. destruct (t =? 0); intros E; inversion E. cbn. lia.
  - intros e. by vm_compute.
  - reflexivity.
  - done.
  - right. done.
Defined.
