(* ===== verification/TreeQueue.v ===== *)
(** * atree: the queue of directories and the worker threads

    [atree.c] 242-324, 633-754 and 795-1219: the queue as a linked list of items
    with its pools of free items, and the workers as interleaved steps. One step
    is one critical section, one access to [pending], or work on the worker's
    own data; what scanning a batch of directories finds in them is the
    parameter [subdirs]. A step that dereferences an item that is not allocated
    is a fault. *)
From Stdlib Require Import ZArith Lia List.
From stdpp Require Import base tactics list gmap.
From S2P Require Import Prelude.

#[local] Open Scope Z_scope.

(** ** Data *)

Record work_item_t := { node : nat; next : option nat }.

(** The queue with its shared pool of items ([free_list]) and the memory of the items. *)
Record work_queue_t := {
  head : option nat; tail : option nat; pending : Z; done : bool; free_list : option nat;
  items : gmap nat work_item_t; malloced : nat
}.

Definition wq_eta (r : work_queue_t) : work_queue_t :=
  {| head := head r; tail := tail r; pending := pending r; done := done r; free_list := free_list r; items := items r; malloced := malloced r |}.
#[export] Instance qset_head : Setter head := ltac:(mk_setter wq_eta).
#[export] Instance qset_tail : Setter tail := ltac:(mk_setter wq_eta).
#[export] Instance qset_pending : Setter pending := ltac:(mk_setter wq_eta).
#[export] Instance qset_done : Setter done := ltac:(mk_setter wq_eta).
#[export] Instance qset_free_list : Setter free_list := ltac:(mk_setter wq_eta).
#[export] Instance qset_items : Setter items := ltac:(mk_setter wq_eta).
#[export] Instance qset_malloced : Setter malloced := ltac:(mk_setter wq_eta).

(** The items on a worker's own free list. *)
Record local_freelist_t := { l_head : option nat; l_count : Z }.

Class QueueEnv := {
  item_alloc : nat -> bool;
  junk : nat -> work_item_t;
  subdirs : nat -> list nat;
  engine_ok : nat -> bool
}.

Definition DIRS_PER_BATCH : nat := 8.
Definition LOCAL_FREELIST_MAX : Z := 32.

Section Queue.
Context {E : QueueEnv}.
Implicit Types (q : work_queue_t) (i : nat).

(** ** The pool of items *)

Definition set_next (i : nat) (nx : option nat) q : option work_queue_t :=
  it ← items q !! i; Some (q <| items := <[i := {| node := node it; next := nx |}]> (items q) |>).

Definition item_malloc q : option nat * work_queue_t :=
  let i := malloced q in
  if item_alloc i then (Some i, q <| items := <[i := junk i]> (items q) |> <| malloced := S i |>)
  else (None, q <| malloced := S i |>).

Definition item_free i q : option work_queue_t :=
  _ ← items q !! i; Some (q <| items := delete i (items q) |>).

Definition wip_alloc q : option (option nat * work_queue_t) :=
  match free_list q with
  | Some i => it ← items q !! i; Some (Some i, q <| free_list := next it |>)
  | None => Some (item_malloc q)
  end.

(** [n] more items may be taken; they are linked in front of [acc]. *)
Fixpoint alloc_bulk (n : nat) (acc : option nat) (out_count : nat) q : option (option nat * nat * work_queue_t) :=
  match n with
  | O => Some (acc, out_count, q)
  | S n =>
      match free_list q with
      | None => Some (acc, out_count, q)
      | Some i =>
          it ← items q !! i;
          q ← set_next i acc (q <| free_list := next it |>);
          alloc_bulk n (Some i) (S out_count) q
      end
  end.

Definition wip_alloc_bulk (max_count : Z) q : option (option nat * nat * work_queue_t) :=
  alloc_bulk (Z.to_nat max_count) None 0 q.

Definition wip_free i q : option work_queue_t :=
  q ← set_next i (free_list q) q; Some (q <| free_list := Some i |>).

Definition wip_free_batch (first last : option nat) q : option work_queue_t :=
  match first with
  | None => Some q
  | Some _ => l ← last; q ← set_next l (free_list q) q; Some (q <| free_list := first |>)
  end.

(** [while (item)]: releasing a list of items. *)
Fixpoint free_items (fuel : nat) (item : option nat) q : option work_queue_t :=
  match item, fuel with
  | None, _ => Some q
  | Some _, O => None
  | Some i, S fuel => it ← items q !! i; q ← item_free i q; free_items fuel (next it) q
  end.

Definition wip_destroy q : option work_queue_t := free_items (size (items q)) (free_list q) q.

(** ** The queue *)

Definition wq_init : work_queue_t :=
  {| head := None; tail := None; pending := 0; done := false; free_list := None; items := ∅; malloced := 0 |}.

Definition wq_destroy q : option work_queue_t :=
  q ← free_items (size (items q)) (head q) q; wip_destroy q.

(** The critical section of both ways of pushing. *)
Definition link_tail (first last : nat) q : option work_queue_t :=
  q ← match tail q with
      | Some t => set_next t (Some first) q
      | None => Some (q <| head := Some first |>)
      end;
  Some (q <| tail := Some last |>).

Definition wq_push (p : nat) q : option (bool * work_queue_t) :=
  r ← wip_alloc q;
  match r with
  | (None, q) => Some (false, q)
  | (Some i, q) =>
      _ ← items q !! i;
      q ← link_tail i i (q <| items := <[i := {| node := p; next := None |}]> (items q) |>);
      Some (true, q)
  end.

Definition wq_push_batch (first last : option nat) (count : nat) q : option work_queue_t :=
  match first with
  | None => Some q
  | Some f =>
      if (count =? 0)%nat then Some q
      else l ← last; q ← set_next l None q; link_tail f l q
  end.

(** [pthread_cond_timedwait] goes on waiting. *)
Definition waits (interrupted : bool) q : bool :=
  match head q with Some _ => false | None => negb (done q) && negb interrupted end.

(** The critical section of [wq_pop] once it has stopped waiting. *)
Definition pop_item q : option (option (nat * nat) * work_queue_t) :=
  match head q with
  | None => Some (None, q)
  | Some i =>
      it ← items q !! i;
      let q := q <| head := next it |> in
      Some (Some (i, node it), match next it with None => q <| tail := None |> | Some _ => q end)
  end.

(** The critical section of [wq_pop_batch]: directories taken out and the items
    they were in, as a list from [free_head] to [free_tail]. *)
Fixpoint pop_items (n : nat) (out : list nat) (free_head free_tail : option nat) q
  : option (list nat * option nat * option nat * work_queue_t) :=
  match n with
  | O => Some (out, free_head, free_tail, q)
  | S n =>
      match head q with
      | None => Some (out, free_head, free_tail, q)
      | Some i =>
          it ← items q !! i;
          q ← set_next i free_head (q <| head := next it |>);
          pop_items n (out ++ [node it]) (Some i) (match free_tail with None => Some i | Some _ => free_tail end) q
      end
  end.

Definition take_items (max_count : nat) q : option (list nat * option nat * option nat * work_queue_t) :=
  r ← pop_items max_count [] None None q;
  let '(out, fh, ft, q) := r in
  Some (out, fh, ft, match head q with None => q <| tail := None |> | Some _ => q end).

Definition wq_signal_done q : work_queue_t := q <| done := true |>.

(** [atomic_fetch_add] and [atomic_fetch_sub] on an [atomic_int]: the old value. *)
Definition pending_add (n : Z) q : Z * work_queue_t := (pending q, q <| pending := i32 (pending q + n) |>).

(** ** Free lists of the workers *)

Definition local_alloc (lfl : local_freelist_t) q : option (option nat * local_freelist_t * work_queue_t) :=
  match l_head lfl with
  | Some i => it ← items q !! i; Some (Some i, {| l_head := next it; l_count := l_count lfl - 1 |}, q)
  | None =>
      r ← wip_alloc_bulk (LOCAL_FREELIST_MAX / 2) q;
      let '(batch, stolen, q) := r in
      match batch with
      | Some i => it ← items q !! i; Some (Some i, {| l_head := next it; l_count := Z.of_nat stolen - 1 |}, q)
      | None => let '(i, q) := item_malloc q in Some (i, lfl, q)
      end
  end.

(** ** Workers *)

(** Where a worker is. [batch] are the directories it has taken; a list under
    construction goes from [lh] to [lt] with [count] items; [left] directories
    remain to be subtracted from [pending]. The last four are those of a worker
    without an engine. *)
Inductive pc_t :=
  | Top
  | Popping
  | Returning (batch : list nat) (fh ft : option nat)
  | Processing (batch : list nat)
  | Listing (ndirs : nat) (todo : list nat) (lh lt : option nat) (count : nat)
  | Adding (ndirs : nat) (lh lt : option nat) (count : nat)
  | Pushing (ndirs : nat) (lh lt : option nat) (count : nat)
  | Subbing (left : nat)
  | Signalling (left : nat)
  | Draining
  | Finished
  | NoTop
  | NoPopping
  | NoReturning (i p : nat)
  | NoSubbing (p : nat)
  | NoSignalling.

Record worker_t := { pc : pc_t; lfl : local_freelist_t }.

(** What becomes of a directory: scanned, skipped with a warning for want of
    memory, or taken by a worker that has no engine. *)
Inductive event := Scanned (p : nat) | Skipped (p : nat) | Dropped (p : nat).

(** Linking an item to the list of a worker. *)
Definition link_item (i p : nat) (lh lt : option nat) q : option (option nat * option nat * work_queue_t) :=
  _ ← items q !! i;
  let q := q <| items := <[i := {| node := p; next := None |}]> (items q) |> in
  match lt with
  | Some t => q ← set_next t (Some i) q; Some (lh, Some i, q)
  | None => Some (Some i, Some i, q)
  end.

Definition to (w : worker_t) (c : pc_t) : worker_t := {| pc := c; lfl := lfl w |}.

(** A step of a worker: [None] is a fault, [Some None] means that it waits or has finished. *)
Definition wstep (interrupted : bool) (w : worker_t) q : option (option (worker_t * work_queue_t * list event)) :=
  match pc w with
  | Top => Some (Some (to w (if interrupted then Draining else Popping), q, []))
  | Popping =>
      if waits interrupted q then Some None
      else
        r ← take_items DIRS_PER_BATCH q;
        let '(batch, fh, ft, q) := r in
        Some (Some (to w (match batch with [] => Draining | _ => Returning batch fh ft end), q, []))
  | Returning batch fh ft => q ← wip_free_batch fh ft q; Some (Some (to w (Processing batch), q, []))
  | Processing batch =>
      Some (Some (to w (Listing (length batch) (flat_map subdirs batch) None None 0), q, map Scanned batch))
  | Listing n (p :: todo) lh lt count =>
      r ← local_alloc (lfl w) q;
      let '(item, l, q) := r in
      match item with
      | None => Some (Some ({| pc := Listing n todo lh lt count; lfl := l |}, q, [Skipped p]))
      | Some i =>
          r ← link_item i p lh lt q;
          let '(lh, lt, q) := r in
          Some (Some ({| pc := Listing n todo lh lt (S count); lfl := l |}, q, []))
      end
  | Listing n [] lh lt count =>
      Some (Some (to w (if (0 <? count)%nat then Adding n lh lt count else Subbing n), q, []))
  | Adding n lh lt count => Some (Some (to w (Pushing n lh lt count), snd (pending_add (i32 (Z.of_nat count)) q), []))
  | Pushing n lh lt count => q ← wq_push_batch lh lt count q; Some (Some (to w (Subbing n), q, []))
  | Subbing O => Some (Some (to w Top, q, []))
  | Subbing (S n) =>
      let '(old, q) := pending_add (-1) q in
      Some (Some (to w (if old =? 1 then Signalling n else Subbing n), q, []))
  | Signalling n => Some (Some (to w (Subbing n), wq_signal_done q, []))
  | Draining =>
      match l_head (lfl w) with
      | None => Some (Some ({| pc := Finished; lfl := {| l_head := None; l_count := 0 |} |}, q, []))
      | Some i =>
          it ← items q !! i;
          q ← wip_free i q;
          Some (Some ({| pc := Draining; lfl := {| l_head := next it; l_count := l_count (lfl w) |} |}, q, []))
      end
  | Finished => Some None
  | NoTop => Some (Some (to w (if interrupted then Finished else NoPopping), q, []))
  | NoPopping =>
      if waits interrupted q then Some None
      else
        r ← pop_item q;
        match r with
        | (None, q) => Some (Some (to w Finished, q, []))
        | (Some (i, p), q) => Some (Some (to w (NoReturning i p), q, []))
        end
  | NoReturning i p => q ← wip_free i q; Some (Some (to w (NoSubbing p), q, []))
  | NoSubbing p =>
      let '(old, q) := pending_add (-1) q in
      Some (Some (to w (if old =? 1 then NoSignalling else NoTop), q, [Dropped p]))
  | NoSignalling => Some (Some (to w NoTop, wq_signal_done q, []))
  end.

(** ** The scan *)

Record scan_t := { wq : work_queue_t; workers : list worker_t; interrupted : bool; trace : list event }.

Definition step (t : nat) (s : scan_t) : option (option scan_t) :=
  match workers s !! t with
  | None => Some None
  | Some w =>
      r ← wstep (interrupted s) w (wq s);
      Some (r ← r; let '(w, q, ev) := r in
            Some {| wq := q; workers := <[t := w]> (workers s); interrupted := interrupted s; trace := trace s ++ ev |})
  end.

(** SIGINT arrives. *)
Definition interrupt (s : scan_t) : scan_t :=
  {| wq := wq s; workers := workers s; interrupted := true; trace := trace s |}.

(** [for (size_t i = 0; i < root->num_children; i++)], on the directories. *)
Fixpoint seed (dirs : list nat) (ev : list event) q : option (work_queue_t * list event) :=
  match dirs with
  | [] => Some (q, ev)
  | p :: dirs =>
      let q := snd (pending_add 1 q) in
      r ← wq_push p q;
      match r with
      | (true, q) => seed dirs ev q
      | (false, q) => seed dirs (ev ++ [Skipped p]) (snd (pending_add (-1) q))
      end
  end.

Definition new_worker (i : nat) : worker_t :=
  {| pc := if engine_ok i then Top else NoTop; lfl := {| l_head := None; l_count := 0 |} |}.

(** The scan after the threads have been created; without a directory in the
    queue there are none. *)
Definition scan_start (dirs : list nat) (num_workers : nat) : option scan_t :=
  r ← seed dirs [] wq_init;
  let '(q, ev) := r in
  Some {| wq := q; workers := if pending q =? 0 then [] else map new_worker (seq 0 num_workers);
          interrupted := false; trace := ev |}.

End Queue.
