(* ===== verification/TreeQueueSpec.v ===== *)
(** * atree: the lists of the queue

    The operations of TreeQueue on the memory of the items, as operations on
    lists: the queue is a first-in first-out list, the pool and the free lists are
    stacks, and every item is in exactly one of them. *)
From Stdlib Require Import ZArith Lia List.
From stdpp Require Import base tactics list gmap.
From S2P Require Import Prelude TreeQueue.

#[local] Open Scope Z_scope.
#[local] Set Warnings "-clear-no-such-hyp".
Implicit Types (m : gmap nat work_item_t) (q : work_queue_t) (p : option nat) (l : list nat) (i x : nat).

(** ** Counting *)

Definition cnt (x : nat) (l : list nat) : nat := count_occ Nat.eq_dec l x.
Arguments cnt : simpl never.

Lemma cnt_app x l k : cnt x (l ++ k) = (cnt x l + cnt x k)%nat.
Proof. apply count_occ_app. Qed.

Lemma cnt_cons x i l : cnt x (i :: l) = ((if decide (i = x) then 1 else 0) + cnt x l)%nat.
Proof. unfold cnt. cbn. destruct (Nat.eq_dec i x), (decide (i = x)); try done; lia. Qed.

Lemma cnt_nil x : cnt x [] = 0%nat.
Proof. done. Qed.

Lemma cnt_notin x l : cnt x l = 0%nat <-> x ∉ l.
Proof. rewrite list_elem_of_In. symmetry. apply count_occ_not_In. Qed.

Lemma cnt_in x l : x ∈ l -> (0 < cnt x l)%nat.
Proof. intros H. destruct (cnt x l) eqn:E; [|lia]. by apply cnt_notin in E. Qed.

Lemma cnt_rev x l : cnt x (rev l) = cnt x l.
Proof. apply count_occ_rev. Qed.

Lemma cnt_Permutation l k : (forall x, cnt x l = cnt x k) <-> l ≡ₚ k.
Proof. symmetry. apply Permutation_count_occ. Qed.

(** Counts of appended lists. *)
Ltac counts := repeat progress (rewrite ?cnt_app, ?cnt_cons, ?cnt_rev, ?cnt_nil in * ).

(** ** Lists of items *)

Fixpoint chain m p l : Prop :=
  match l with
  | [] => p = None
  | i :: l => p = Some i /\ exists it, m !! i = Some it /\ chain m (next it) l
  end.

Definition node_at m i : nat := match m !! i with Some it => node it | None => O end.

(** [m'] is [m] but for the links of the items of [S]. *)
Definition relinks (S : list nat) m m' : Prop :=
  (forall x, x ∉ S -> m' !! x = m !! x) /\
  (forall x, x ∈ S -> exists it it', m !! x = Some it /\ m' !! x = Some it' /\ node it' = node it).

Lemma relinks_refl m : relinks [] m m.
Proof. split; [done|]. intros x H. by apply not_elem_of_nil in H. Qed.

Lemma relinks_trans S T m1 m2 m3 : relinks S m1 m2 -> relinks T m2 m3 -> relinks (S ++ T) m1 m3.
Proof.
  intros [A1 A2] [B1 B2]. split.
  - intros x [H1 H2]%not_elem_of_app. by rewrite B1, A1.
  - intros x Hx. destruct (decide (x ∈ T)) as [HT|HT].
    + destruct (B2 x HT) as (it & it' & E & E' & En). destruct (decide (x ∈ S)) as [HS|HS].
      * destruct (A2 x HS) as (jt & jt' & F & F' & Fn). exists jt, it'. split; [done|]. split; [done|]. congruence.
      * exists it, it'. by rewrite <- A1.
    + apply elem_of_app in Hx as [HS|?]; [|done]. destruct (A2 x HS) as (jt & jt' & F & F' & Fn). exists jt, jt'. by rewrite B1.
Qed.

Lemma relinks_weaken S T m m' : S ⊆ T -> (forall x, x ∈ T -> is_Some (m !! x)) -> relinks S m m' -> relinks T m m'.
Proof.
  intros H HT [A1 A2]. split; [intros x Hx; apply A1; set_solver|]. intros x Hx.
  destruct (decide (x ∈ S)); [by apply A2|]. destruct (HT x Hx) as [it E]. exists it, it. by rewrite A1.
Qed.

Lemma relinks_insert i it nx m : m !! i = Some it -> relinks [i] m (<[i := {| node := node it; next := nx |}]> m).
Proof.
  intros H. split; intros x Hx.
  - rewrite lookup_insert_ne; [done|]. intros ->. apply Hx. left.
  - apply list_elem_of_singleton in Hx as ->. eexists _, _. by rewrite lookup_insert_eq.
Qed.

Lemma relinks_node S m m' x : relinks S m m' -> node_at m' x = node_at m x.
Proof.
  intros [A1 A2]. unfold node_at. destruct (decide (x ∈ S)) as [H|H]; [|by rewrite A1].
  destruct (A2 x H) as (it & it' & -> & -> & E). done.
Qed.

Lemma relinks_nodes S m m' l : relinks S m m' -> map (node_at m') l = map (node_at m) l.
Proof. intros H. apply map_ext. intros x. by eapply relinks_node. Qed.

Lemma chain_ext m m' l : forall p, (forall x, x ∈ l -> m' !! x = m !! x) -> chain m p l -> chain m' p l.
Proof.
  induction l as [|i l IH]; intros p H; [done|]. cbn. intros (-> & it & E & C). split; [done|]. exists it. split; [by rewrite H; [|left]|].
  apply IH; [|done]. intros x Hx. apply H. by right.
Qed.

Lemma chain_relinks S m m' p l : relinks S m m' -> (forall x, x ∈ l -> x ∉ S) -> chain m p l -> chain m' p l.
Proof. intros [A _] H. apply chain_ext. intros x Hx. by apply A, H. Qed.

Lemma wchain_in m p l i : chain m p l -> i ∈ l -> is_Some (m !! i).
Proof.
  revert p. induction l as [|j l IH]; intros p; [by intros _ ?%not_elem_of_nil|]. cbn. intros (_ & it & E & C) [->|H]%elem_of_cons; [by exists it|].
  by eapply IH.
Qed.

Lemma chain_fun m l k : forall p, chain m p l -> chain m p k -> l = k.
Proof.
  revert k. induction l as [|i l IH]; intros [|j k] p; cbn; [done|by intros -> (? & _)|by intros (-> & _) ?|].
  intros (-> & it & E & C) ([= <-] & it' & E' & C'). f_equal. rewrite E in E'. injection E' as <-. by eapply IH.
Qed.

(** Linking one list behind another. *)
Lemma chain_link m p l t (f : option nat) k it : chain m p (l ++ [t]) -> t ∉ l -> t ∉ k -> m !! t = Some it -> chain m f k ->
  chain (<[t := {| node := node it; next := f |}]> m) p (l ++ t :: k).
Proof.
  intros C Ht Hk E Ck. revert p C. induction l as [|i l IH]; intros p; cbn.
  - intros (-> & it' & E' & _). split; [done|]. eexists. rewrite lookup_insert_eq. split; [done|]. cbn.
    eapply chain_ext; [|exact Ck]. intros x Hx. rewrite lookup_insert_ne; [done|]. by intros ->.
  - apply not_elem_of_cons in Ht as [Hne Ht]. intros (-> & it' & E' & C). split; [done|]. exists it'.
    rewrite lookup_insert_ne by done. split; [done|]. by apply IH.
Qed.

(** ** The operations *)

Section Ops.
Context {E : QueueEnv}.

(** What the operations on items leave alone. *)
Definition same_queue q q' : Prop := head q' = head q /\ tail q' = tail q /\ pending q' = pending q /\ done q' = done q /\ malloced q' = malloced q.
Definition same_pool q q' : Prop := free_list q' = free_list q /\ pending q' = pending q /\ done q' = done q /\ malloced q' = malloced q.

Lemma set_next_ok i nx q it : items q !! i = Some it ->
  set_next i nx q = Some (q <| items := <[i := {| node := node it; next := nx |}]> (items q) |>).
Proof using. intros H. unfold set_next. by rewrite H. Qed.

Lemma alloc_bulk_ok (n : nat) : forall acc a (c : nat) q l, chain (items q) (free_list q) l -> chain (items q) acc a -> NoDup (l ++ a) ->
  exists acc' q', alloc_bulk n acc c q = Some (acc', (c + min n (length l))%nat, q') /\
    chain (items q') acc' (rev (take n l) ++ a) /\ chain (items q') (free_list q') (drop n l) /\
    relinks (take n l) (items q) (items q') /\ same_queue q q'.
Proof using.
  induction n as [|n IH]; intros acc a c q l Cl Ca Hn; cbn [alloc_bulk].
  - exists acc, q. split; [cbn; do 3 f_equal; lia|]. split; [done|]. split; [done|]. split; [apply relinks_refl|done].
  - destruct l as [|i l]; cbn in Cl.
    + rewrite Cl. exists acc, q. split; [cbn; do 3 f_equal; lia|]. cbn. split; [done|]. split; [done|]. split; [apply relinks_refl|done].
    + destruct Cl as (Ef & it & Ei & Cl). rewrite Ef, Ei. cbn [mbind option_bind]. rewrite (set_next_ok _ _ _ it) by done. cbn [mbind option_bind].
      apply NoDup_cons in Hn as [Hi Hn]. apply not_elem_of_app in Hi as [Hil Hia].
      set (q1 := q <| free_list := next it |>). set (q2 := q1 <| items := _ |>).
      assert (items q2 = <[i := {| node := node it; next := acc |}]> (items q)) as Em by done.
      destruct (IH (Some i) (i :: a) (S c) q2 l) as (acc' & q' & R & C1 & C2 & R3 & S3).
      * rewrite Em. eapply chain_relinks; [by apply (relinks_insert i it acc)| |exact Cl]. intros x Hx [->|?%not_elem_of_nil]%elem_of_cons; done.
      * rewrite Em. cbn. split; [done|]. eexists. rewrite lookup_insert_eq. split; [done|].
        eapply chain_relinks; [by apply (relinks_insert i it acc)| |exact Ca]. intros x Hx [->|?%not_elem_of_nil]%elem_of_cons; done.
      * apply NoDup_app in Hn as (N1 & N2 & N3). apply NoDup_app. split; [done|]. split.
        -- intros x Hx [->|H]%elem_of_cons; [done|]. by apply (N2 x).
        -- by apply NoDup_cons.
      * exists acc', q'. split; [rewrite R; cbn; do 3 f_equal; lia|]. cbn [take drop rev]. rewrite <- app_assoc. split; [done|]. split; [done|].
        split; [|done]. change (i :: take n l) with ([i] ++ take n l). eapply relinks_trans; [|exact R3]. rewrite Em. by apply relinks_insert.
Qed.

Lemma pop_items_ok (n : nat) : forall out fh ft f q l, chain (items q) (head q) l -> chain (items q) fh f -> ft = last f -> NoDup (l ++ f) ->
  exists fh' ft' q', pop_items n out fh ft q = Some (out ++ map (node_at (items q)) (take n l), fh', ft', q') /\
    chain (items q') fh' (rev (take n l) ++ f) /\ ft' = last (rev (take n l) ++ f) /\ chain (items q') (head q') (drop n l) /\
    relinks (take n l) (items q) (items q') /\ tail q' = tail q /\ same_pool q q'.
Proof using.
  induction n as [|n IH]; intros out fh ft f q l Cl Cf El Hn; cbn [pop_items].
  - exists fh, ft, q. rewrite take_0, drop_0. cbn. rewrite app_nil_r. split; [done|]. split; [done|]. split; [done|]. split; [done|].
    split; [apply relinks_refl|done].
  - destruct l as [|i l]; cbn in Cl.
    + rewrite Cl. exists fh, ft, q. cbn. rewrite app_nil_r. split; [done|]. split; [done|]. split; [done|]. split; [done|].
      split; [apply relinks_refl|done].
    + destruct Cl as (Ef & it & Ei & Cl). rewrite Ef, Ei. cbn [mbind option_bind]. rewrite (set_next_ok _ _ _ it) by done. cbn [mbind option_bind].
      apply NoDup_cons in Hn as [Hi Hn]. apply not_elem_of_app in Hi as [Hil Hif].
      set (q1 := q <| head := next it |>). set (q2 := q1 <| items := _ |>).
      assert (items q2 = <[i := {| node := node it; next := fh |}]> (items q)) as Em by done.
      destruct (IH (out ++ [node it]) (Some i) (match ft with None => Some i | Some _ => ft end) (i :: f) q2 l) as (fh' & ft' & q' & R & C1 & C2 & C3 & R3 & S3).
      * rewrite Em. eapply chain_relinks; [by apply (relinks_insert i it fh)| |exact Cl]. intros x Hx [->|?%not_elem_of_nil]%elem_of_cons; done.
      * rewrite Em. cbn. split; [done|]. eexists. rewrite lookup_insert_eq. split; [done|].
        eapply chain_relinks; [by apply (relinks_insert i it fh)| |exact Cf]. intros x Hx [->|?%not_elem_of_nil]%elem_of_cons; done.
      * subst ft. rewrite last_cons. by destruct (last f).
      * apply NoDup_app in Hn as (N1 & N2 & N3). apply NoDup_app. split; [done|]. split.
        -- intros x Hx [->|H]%elem_of_cons; [done|]. by apply (N2 x).
        -- by apply NoDup_cons.
      * exists fh', ft', q'. cbn [take drop rev map]. rewrite <- !app_assoc. cbn [app]. split.
        { assert (map (node_at (items q2)) (take n l) = map (node_at (items q)) (take n l)) as Ed
            by (rewrite Em; eapply relinks_nodes; by apply (relinks_insert i it fh)).
          assert (node_at (items q) i = node it) as -> by (unfold node_at; by rewrite Ei). by rewrite R, <- app_assoc, Ed. }
        split; [done|]. split; [done|]. split; [done|]. split; [|done].
        change (i :: take n l) with ([i] ++ take n l). eapply relinks_trans; [|exact R3]. rewrite Em. by apply relinks_insert.
Qed.


(** ** Every item is in one list *)

Definition inm m x : nat := match m !! x with Some _ => 1 | None => 0 end.
Definition owned m l : Prop := forall x, cnt x l = inm m x.
Definition unused q : Prop := forall x, (malloced q <= x)%nat -> items q !! x = None.

Lemma inm_relinks S m m' x : relinks S m m' -> inm m' x = inm m x.
Proof using. intros [A B]. unfold inm. destruct (decide (x ∈ S)) as [H|H]; [|by rewrite A]. destruct (B x H) as (? & ? & -> & -> & _). done. Qed.

Lemma owned_disjoint m l k x : owned m (l ++ k) -> x ∈ l -> x ∉ k.
Proof using. intros H Hl Hk. specialize (H x). apply cnt_in in Hl, Hk. counts. unfold inm in H. destruct (m !! x); lia. Qed.

Lemma owned_NoDup m l : owned m l -> NoDup l.
Proof using. intros H. apply NoDup_ListNoDup, (NoDup_count_occ Nat.eq_dec). intros x. specialize (H x). unfold cnt, inm in H. destruct (m !! x); lia. Qed.

Lemma owned_perm m l k : l ≡ₚ k -> owned m l -> owned m k.
Proof using. intros H O x. rewrite <- O. symmetry. by apply cnt_Permutation. Qed.

Lemma owned_relinks S m m' l : relinks S m m' -> owned m l -> owned m' l.
Proof using. intros R O x. by rewrite O, (inm_relinks _ _ _ _ R). Qed.

Lemma owned_some m l i : owned m l -> i ∈ l -> exists it, m !! i = Some it.
Proof using. intros O H. specialize (O i). apply cnt_in in H. unfold inm in O. destruct (m !! i) as [it|]; [by exists it|lia]. Qed.

(** The queue holds the items [ql], the pool [pl]. *)
Definition parts q (ql pl : list nat) : Prop :=
  chain (items q) (head q) ql /\ tail q = last ql /\ chain (items q) (free_list q) pl.

Lemma parts_relinks S q q' ql pl : relinks S (items q) (items q') -> (forall x, x ∈ ql ++ pl -> x ∉ S) ->
  head q' = head q -> tail q' = tail q -> free_list q' = free_list q -> parts q ql pl -> parts q' ql pl.
Proof using.
  unfold parts. intros R D -> -> -> (C1 & C2 & C3). split; [|split; [done|]]; eapply chain_relinks; eauto; intros x Hx; apply D; set_solver.
Qed.

Lemma take_ok (n : nat) q ql pl rest : parts q ql pl -> owned (items q) (ql ++ pl ++ rest) ->
  exists fh ft q', take_items n q = Some (map (node_at (items q)) (take n ql), fh, ft, q') /\
    chain (items q') fh (rev (take n ql)) /\ ft = last (rev (take n ql)) /\ parts q' (drop n ql) pl /\
    relinks (take n ql) (items q) (items q') /\ pending q' = pending q /\ done q' = done q /\ malloced q' = malloced q.
Proof using.
  intros (C1 & C2 & C3) O. pose proof (owned_NoDup _ _ O) as N. apply NoDup_app in N as (N & _ & _).
  destruct (pop_items_ok n [] None None [] q ql C1) as (fh & ft & q' & R & F1 & F2 & F3 & F4 & F5 & (F6 & F7 & F8 & F9));
    [done|done|by rewrite app_nil_r|].
  rewrite app_nil_r in F1, F2. unfold take_items. rewrite R. cbn [mbind option_bind].
  assert (chain (items q') (free_list q') pl) as Cp.
  { rewrite F6. eapply chain_relinks; [exact F4| |exact C3]. intros x Hx Hx'. apply (owned_disjoint _ _ _ x O); [|apply elem_of_app; by left]. clear -Hx'.
    rewrite <- (take_drop n ql). set_solver. }
  eexists fh, ft, _. split; [reflexivity|]. destruct (drop n ql) as [|j r] eqn:Ed; cbn in F3.
  - rewrite F3. cbn. split; [done|]. split; [done|]. split; [|done]. by split.
  - destruct F3 as (Eh & F3). rewrite Eh. split; [done|]. split; [done|]. split; [|done].
    split; [cbn; rewrite Eh; by split|]. split; [|done]. rewrite F5, C2, <- (take_drop n ql) at 1. rewrite Ed, last_app, last_cons. by destruct (last r).
Qed.

(** Putting items in front of the pool. *)
Lemma free_batch_ok q ql pl first lst l rest : parts q ql pl -> chain (items q) first l -> lst = last l -> l <> [] ->
  owned (items q) (l ++ ql ++ pl ++ rest) ->
  exists q' t, wip_free_batch first lst q = Some q' /\ t ∈ l /\ relinks [t] (items q) (items q') /\ parts q' ql (l ++ pl) /\
    pending q' = pending q /\ done q' = done q /\ malloced q' = malloced q.
Proof using.
  intros (C1 & C2 & C3) C -> Hl O. destruct (exists_last Hl) as (k & t & ->).
  assert (t ∈ k ++ [t]) as Ht by set_solver. destruct (owned_some _ _ t O) as [it Et]; [set_solver|].
  assert (exists i, first = Some i) as [i ->] by (destruct k; cbn in C; destruct C as (-> & _); by eexists).
  unfold wip_free_batch. rewrite last_snoc. cbn [mbind option_bind]. rewrite (set_next_ok _ _ _ _ Et). cbn [mbind option_bind].
  eexists _, t. split; [reflexivity|]. split; [done|]. pose proof (relinks_insert t it (free_list q) _ Et) as R. split; [exact R|].
  split; [|done]. assert (forall x, x ∈ ql ++ pl ++ rest -> x ∉ [t]) as D.
  { intros x Hx ->%list_elem_of_singleton. by apply (owned_disjoint _ _ _ t O). }
  cbn. split; [eapply chain_relinks; [exact R| |exact C1]; intros; apply D; set_solver|]. split; [done|]. cbn. rewrite <- app_assoc. cbn [app].
  apply (chain_link _ _ _ _ _ _ _ C); [| |exact Et|exact C3].
  - pose proof (owned_NoDup _ _ O) as N. apply NoDup_app in N as (N & _ & _). apply NoDup_app in N as (_ & N & _). intros Hk. apply (N t Hk). left.
  - intros Hp. apply (D t); set_solver.
Qed.

(** Linking items behind the queue. *)
Lemma link_tail_ok q ql pl i l t rest : parts q ql pl -> chain (items q) (Some i) l -> last l = Some t -> owned (items q) (l ++ ql ++ pl ++ rest) ->
  exists q' S, link_tail i t q = Some q' /\ S ⊆ ql /\ relinks S (items q) (items q') /\ parts q' (ql ++ l) pl /\
    pending q' = pending q /\ done q' = done q /\ malloced q' = malloced q.
Proof using.
  intros (C1 & C2 & C3) C Hl O. assert (l <> []) as Hne by (by intros ->). unfold link_tail.
  assert (tail q = None -> ql = []) as H0 by (rewrite C2; apply last_None).
  destruct (tail q) as [u|].
  - destruct (exists_last (l := ql)) as (k & u' & ->); [by intros ->|]. rewrite last_snoc in C2. injection C2 as ->.
    destruct (owned_some _ _ u' O) as [it Eu]; [set_solver|]. rewrite (set_next_ok _ _ _ _ Eu). cbn [mbind option_bind].
    pose proof (relinks_insert u' it (Some i) _ Eu) as R. eexists _, [u']. split; [reflexivity|]. split; [set_solver|]. split; [exact R|].
    split; [|done]. pose proof (owned_NoDup _ _ O) as N. apply NoDup_app in N as (_ & Nl & N). apply NoDup_app in N as (Nq & Np & _).
    apply NoDup_app in Nq as (_ & Nk & _). split; [|split].
    + cbn. rewrite <- app_assoc. cbn [app]. apply (chain_link _ _ _ _ _ _ _ C1); [| |exact Eu|exact C].
      * intros H. apply (Nk u' H). left.
      * intros H. apply (Nl u' H). set_solver.
    + cbn. by rewrite last_app, Hl.
    + cbn. eapply chain_relinks; [exact R| |exact C3]. intros x Hx ->%list_elem_of_singleton. apply (Np u'); set_solver.
  - rewrite (H0 eq_refl) in *. eexists _, []. split; [reflexivity|]. split; [set_solver|]. split; [apply relinks_refl|]. split; [|done].
    split; [exact C|]. by split.
Qed.

(** Items for a worker: from its list, from the pool or from the memory. *)
Lemma local_alloc_ok q ql pl lf (l : local_freelist_t) rest : parts q ql pl -> chain (items q) (l_head l) lf -> (length lf <= 15)%nat ->
  owned (items q) (lf ++ ql ++ pl ++ rest) -> unused q ->
  exists (r : option nat) (l' : local_freelist_t) q' (lf' pl' : list nat), local_alloc l q = Some (r, l', q') /\ parts q' ql pl' /\ chain (items q') (l_head l') lf' /\ (length lf' <= 15)%nat /\
    unused q' /\ pending q' = pending q /\ done q' = done q /\
    owned (items q') (match r with Some i => [i] | None => [] end ++ lf' ++ ql ++ pl' ++ rest) /\
    (forall x, x ∈ ql ++ rest -> items q' !! x = items q !! x).
Proof using.
  intros P C Hl O U. unfold local_alloc. destruct lf as [|i lf]; cbn in C.
  - rewrite C. unfold wip_alloc_bulk. change (Z.to_nat (LOCAL_FREELIST_MAX / 2)) with 16%nat. destruct P as (C1 & C2 & C3).
    pose proof (owned_NoDup _ _ O) as N. cbn [app] in N, O. apply NoDup_app in N as (_ & Nq & N). apply NoDup_app in N as (N & Np & _).
    destruct (alloc_bulk_ok 16 None [] 0 q pl C3) as (acc & q1 & R & F1 & F2 & F3 & (F4 & F5 & F6 & F7 & F8)); [done|by rewrite app_nil_r|].
    rewrite app_nil_r in F1. rewrite R. cbn [mbind option_bind]. clear R.
    assert (forall x, x ∈ ql ++ rest -> x ∉ take 16 pl) as D.
    { intros x [H|H]%elem_of_app Hx; assert (x ∈ pl) by (rewrite <- (take_drop 16 pl); set_solver); [by apply (Nq x H); set_solver|by apply (Np x)]. }
    assert (parts q1 ql (drop 16 pl)) as P1.
    { split; [rewrite F4; eapply chain_relinks; [exact F3| |exact C1]; intros; apply D; set_solver|]. split; [congruence|exact F2]. }
    assert (unused q1) as U1.
    { intros x Hx. rewrite F8 in Hx. apply U in Hx. destruct F3 as [A B]. destruct (decide (x ∈ take 16 pl)) as [H|H]; [|by rewrite A].
      destruct (B x H) as (? & ? & E1 & _). congruence. }
    assert (forall x, x ∈ ql ++ rest -> items q1 !! x = items q !! x) as Fr by (intros x Hx; apply F3, D, Hx).
    assert (owned (items q1) (take 16 pl ++ ql ++ drop 16 pl ++ rest)) as O1.
    { eapply owned_relinks; [exact F3|]. eapply owned_perm; [|exact O]. rewrite <- (take_drop 16 pl) at 1. rewrite <- !app_assoc.
      rewrite (app_assoc ql). rewrite (Permutation_app_comm ql). by rewrite <- app_assoc. }
    destruct (rev (take 16 pl)) as [|i k] eqn:Er; cbn in F1.
    + rewrite F1. unfold item_malloc. apply (f_equal (@rev nat)) in Er. rewrite rev_involutive in Er. cbn [rev] in Er. rewrite Er in *. cbn [app] in *.
      assert (drop 16 pl = []) as Ed by (destruct pl; done). rewrite Ed in *.
      destruct (item_alloc (malloced q1)).
      * eexists _, _, _, [], []. split; [reflexivity|]. cbn. pose proof (U1 (malloced q1) ltac:(lia)) as Hf.
        assert (forall x, x ∈ ql ++ rest -> x <> malloced q1) as Hne.
        { intros x Hx ->. destruct (owned_some _ _ (malloced q1) O1) as [it Em]; [set_solver|congruence]. }
        split; [|split; [done|split; [lia|split; [|split; [done|split; [done|split]]]]]].
        -- destruct P1 as (P1 & P2 & P3). split; [|by split]. cbn. eapply chain_ext; [|exact P1]. intros x Hx. apply lookup_insert_ne.
           intros <-. by apply (Hne (malloced q1)); [set_solver|].
        -- intros x Hx. cbn in Hx |- *. rewrite lookup_insert_ne by lia. apply U1. lia.
        -- intros x. cbn. specialize (O1 x). counts. unfold inm in *. destruct (decide (malloced q1 = x)) as [<-|Hx].
           ++ rewrite lookup_insert_eq. rewrite Hf in O1. lia.
           ++ rewrite lookup_insert_ne by done. lia.
        -- intros x Hx. cbn. rewrite lookup_insert_ne; [by apply Fr|]. intros <-. by apply (Hne (malloced q1)).
      * eexists _, _, _, [], []. split; [reflexivity|]. cbn. destruct P1 as (P1 & P2 & P3).
        split; [by split|]. split; [done|]. split; [lia|]. split; [intros x Hx; cbn in Hx |- *; apply U1; lia|]. done.
    + destruct F1 as (-> & it & Ei & F1). rewrite Ei. cbn [mbind option_bind]. eexists _, _, _, k, (drop 16 pl). split; [reflexivity|].
      split; [done|]. split; [done|]. split.
      { apply (f_equal length) in Er. rewrite length_rev, length_take in Er. cbn [length] in Er. lia. }
      split; [done|]. split; [done|]. split; [done|]. split; [|done].
      eapply owned_perm; [|exact O1]. rewrite (Permutation_rev (take 16 pl)), Er. done.
  - destruct C as (-> & it & Ei & C). rewrite Ei. cbn [mbind option_bind]. eexists _, _, _, lf, pl. split; [reflexivity|].
    split; [done|]. split; [done|]. split; [cbn in Hl; lia|]. by split.
Qed.

(** An item joins the list of a worker. *)
Lemma link_item_ok q i (p : nat) lh lt l it : items q !! i = Some it -> chain (items q) lh l -> lt = last l -> NoDup l -> i ∉ l ->
  exists lh' q', link_item i p lh lt q = Some (lh', Some i, q') /\ chain (items q') lh' (l ++ [i]) /\
    same_queue q q' /\ free_list q' = free_list q /\ (forall x, x ∉ i :: l -> items q' !! x = items q !! x) /\
    (forall x, inm (items q') x = inm (items q) x) /\ map (node_at (items q')) (l ++ [i]) = map (node_at (items q)) l ++ [p].
Proof using.
  intros Ei C L N Hi. unfold link_item. rewrite Ei. cbn [mbind option_bind].
  set (m1 := <[i := {| node := p; next := None |}]> (items q)). set (q2 := q <| items := m1 |>).
  assert (forall x, x <> i -> m1 !! x = items q !! x) as Em by (intros x Hx; by apply lookup_insert_ne).
  assert (chain m1 lh l) as C2 by (eapply chain_ext; [|exact C]; intros x Hx; apply Em; by intros ->).
  assert (forall x, inm m1 x = inm (items q) x) as Im.
  { intros x. unfold inm. destruct (decide (x = i)) as [->|]; [unfold m1; by rewrite lookup_insert_eq, Ei|by rewrite Em]. }
  assert (map (node_at m1) (l ++ [i]) = map (node_at (items q)) l ++ [p]) as Nm.
  { rewrite map_app. f_equal; [|cbn; unfold node_at, m1; by rewrite lookup_insert_eq]. apply map_ext_in. intros x Hx%list_elem_of_In.
    unfold node_at. rewrite Em; [done|]. by intros ->. }
  assert (chain m1 (Some i) [i]) as Ci by (split; [done|]; eexists; unfold m1; rewrite lookup_insert_eq; by split).
  destruct (decide (l = [])) as [->|Hne].
  - rewrite L. cbn [last]. exists (Some i), q2. split; [done|]. split; [done|]. split; [done|]. split; [done|].
    split; [intros x Hx; apply Em; intros ->; apply Hx; left|]. by split.
  - destruct (exists_last Hne) as (k & t & ->). rewrite L, last_snoc. assert (t ∈ k ++ [t]) as Ht by set_solver.
    assert (t <> i) as Hti by (by intros ->). destruct (wchain_in _ _ _ t C2 Ht) as [it' Et]. rewrite (set_next_ok t (Some i) q2 it') by done.
    cbn [mbind option_bind]. pose proof (relinks_insert t it' (Some i) _ Et) as R. eexists _, _. split; [reflexivity|]. cbn [items].
    split; [|split; [done|split; [done|split; [|split]]]].
    + rewrite <- app_assoc. cbn [app]. apply NoDup_app in N as (_ & N & _). apply (chain_link _ _ _ _ _ _ _ C2); [| |exact Et|exact Ci].
      * intros Hk. apply (N t Hk). left.
      * by intros ->%list_elem_of_singleton.
    + intros x Hx. rewrite (proj1 R), Em; [done|by intros ->; apply Hx; left|]. intros ->%list_elem_of_singleton. apply Hx. by right.
    + intros x. rewrite <- Im. exact (inm_relinks _ _ _ x R).
    + rewrite <- Nm. exact (relinks_nodes _ _ _ _ R).
Qed.

(** Releasing a list of items. *)
Lemma free_items_ok (fuel : nat) : forall (p : option nat) q l k, chain (items q) p l -> owned (items q) (l ++ k) -> (length l <= fuel)%nat ->
  exists q', free_items fuel p q = Some q' /\ owned (items q') k /\ free_list q' = free_list q /\
    (forall x, x ∉ l -> items q' !! x = items q !! x).
Proof using.
  induction fuel as [|fuel IH]; intros p q l k C O Hl.
  - destruct l; [|cbn in Hl; lia]. cbn in C. subst p. by exists q.
  - destruct l as [|i l]; cbn in C; [subst p; by exists q|]. destruct C as (-> & it & Ei & C). cbn [free_items]. unfold item_free.
    rewrite Ei. cbn [mbind option_bind]. set (q1 := q <| items := delete i (items q) |>).
    assert (owned (items q1) (l ++ k)) as O1.
    { intros x. specialize (O x). rewrite <- app_comm_cons, cnt_cons in O. unfold inm in *. cbn. destruct (decide (i = x)) as [<-|Hx].
      - rewrite lookup_delete_eq. rewrite Ei in O. lia.
      - rewrite lookup_delete_ne by done. lia. }
    assert (i ∉ l) as Hi by (pose proof (owned_NoDup _ _ O) as N; rewrite <- app_comm_cons in N; apply NoDup_cons in N as [N _]; set_solver).
    destruct (IH (next it) q1 l k) as (q' & R & O' & F' & Fr); [|exact O1|cbn in Hl; lia|].
    { eapply chain_ext; [|exact C]. intros x Hx. cbn. rewrite lookup_delete_ne; [done|]. by intros ->. }
    exists q'. split; [exact R|]. split; [exact O'|]. split; [exact F'|]. intros x Hx. rewrite Fr by set_solver. cbn.
    rewrite lookup_delete_ne; [done|]. intros ->. apply Hx. left.
Qed.

Lemma owned_size m l : owned m l -> size m = length l.
Proof using.
  intros O. pose proof (owned_NoDup _ _ O) as N. rewrite <- size_dom, <- (size_list_to_set (C := gset nat) l N). f_equal.
  apply set_eq. intros x. rewrite elem_of_dom, elem_of_list_to_set. specialize (O x). unfold inm in O. split.
  - intros [it Ex]. rewrite Ex in O. destruct (decide (x ∈ l)) as [|Hn]; [done|]. apply cnt_notin in Hn. lia.
  - intros Hx. apply cnt_in in Hx. destruct (m !! x); [by eexists|lia].
Qed.

End Ops.
