(* ===== verification/TreeScanSim.v ===== *)
(** * atree: the workers over lists

    The machine of TreeQueue with lists of directories in place of linked items:
    what the workers and their queue promise. Every step of TreeQueue is one of
    these steps, and none of them is a fault. *)
From Stdlib Require Import ZArith Lia List.
From stdpp Require Import base tactics list gmap.
From S2P Require Import Prelude TreeQueue TreeQueueSpec.

#[local] Open Scope Z_scope.
#[local] Set Warnings "-clear-no-such-hyp".

(** ** The machine *)

Inductive apc_t :=
  | ATop
  | APopping
  | AReturning (batch : list nat)
  | AProcessing (batch : list nat)
  | AListing (ndirs : nat) (todo listed : list nat)
  | AAdding (ndirs : nat) (listed : list nat)
  | APushing (ndirs : nat) (listed : list nat)
  | ASubbing (left : nat)
  | ASignalling (left : nat)
  | ADraining
  | AFinished
  | ANoTop
  | ANoPopping
  | ANoReturning (p : nat)
  | ANoSubbing (p : nat)
  | ANoSignalling.

(** A worker with the length of its free list. *)
Record aworker_t := { apc : apc_t; spare : nat }.
Record aqueue_t := { dirs : list nat; apending : Z; adone : bool }.

Section Machine.
Context {E : QueueEnv}.

Definition aworker (c : apc_t) (n : nat) : aworker_t := {| apc := c; spare := n |}.

Inductive astep (intr : bool) : aworker_t -> aqueue_t -> aworker_t -> aqueue_t -> list event -> Prop :=
  | a_top n q : astep intr (aworker ATop n) q (aworker (if intr then ADraining else APopping) n) q []
  | a_pop n l pend d : (l = [] -> d = true \/ intr = true) ->
      astep intr (aworker APopping n) {| dirs := l; apending := pend; adone := d |}
        (aworker (match take DIRS_PER_BATCH l with [] => ADraining | b => AReturning b end) n)
        {| dirs := drop DIRS_PER_BATCH l; apending := pend; adone := d |} []
  | a_return b n q : astep intr (aworker (AReturning b) n) q (aworker (AProcessing b) n) q []
  | a_process b n q : astep intr (aworker (AProcessing b) n) q
      (aworker (AListing (length b) (flat_map subdirs b) []) n) q (map Scanned b)
  | a_skip k p todo ls n n' q : (n' <= 15)%nat -> astep intr (aworker (AListing k (p :: todo) ls) n) q (aworker (AListing k todo ls) n') q [Skipped p]
  | a_list k p todo ls n n' q : (n' <= 15)%nat ->
      astep intr (aworker (AListing k (p :: todo) ls) n) q (aworker (AListing k todo (ls ++ [p])) n') q []
  | a_listed k ls n q : astep intr (aworker (AListing k [] ls) n) q (aworker (match ls with [] => ASubbing k | _ => AAdding k ls end) n) q []
  | a_add k ls n l pend d : astep intr (aworker (AAdding k ls) n) {| dirs := l; apending := pend; adone := d |}
      (aworker (APushing k ls) n) {| dirs := l; apending := i32 (pend + i32 (zlen ls)); adone := d |} []
  | a_push k ls n l pend d : astep intr (aworker (APushing k ls) n) {| dirs := l; apending := pend; adone := d |}
      (aworker (ASubbing k) n) {| dirs := l ++ ls; apending := pend; adone := d |} []
  | a_subbed n q : astep intr (aworker (ASubbing 0) n) q (aworker ATop n) q []
  | a_sub k n l pend d : astep intr (aworker (ASubbing (S k)) n) {| dirs := l; apending := pend; adone := d |}
      (aworker (if pend =? 1 then ASignalling k else ASubbing k) n) {| dirs := l; apending := i32 (pend + -1); adone := d |} []
  | a_signal k n l pend d : astep intr (aworker (ASignalling k) n) {| dirs := l; apending := pend; adone := d |}
      (aworker (ASubbing k) n) {| dirs := l; apending := pend; adone := true |} []
  | a_drain n q : astep intr (aworker ADraining (S n)) q (aworker ADraining n) q []
  | a_drained q : astep intr (aworker ADraining 0) q (aworker AFinished 0) q []
  | a_no_top q : astep intr (aworker ANoTop 0) q (aworker (if intr then AFinished else ANoPopping) 0) q []
  | a_no_pop p l pend d : astep intr (aworker ANoPopping 0) {| dirs := p :: l; apending := pend; adone := d |}
      (aworker (ANoReturning p) 0) {| dirs := l; apending := pend; adone := d |} []
  | a_no_end pend d : d = true \/ intr = true ->
      astep intr (aworker ANoPopping 0) {| dirs := []; apending := pend; adone := d |}
        (aworker AFinished 0) {| dirs := []; apending := pend; adone := d |} []
  | a_no_return p q : astep intr (aworker (ANoReturning p) 0) q (aworker (ANoSubbing p) 0) q []
  | a_no_sub p l pend d : astep intr (aworker (ANoSubbing p) 0) {| dirs := l; apending := pend; adone := d |}
      (aworker (if pend =? 1 then ANoSignalling else ANoTop) 0) {| dirs := l; apending := i32 (pend + -1); adone := d |} [Dropped p]
  | a_no_signal l pend d : astep intr (aworker ANoSignalling 0) {| dirs := l; apending := pend; adone := d |}
      (aworker ANoTop 0) {| dirs := l; apending := pend; adone := true |} [].

(** ** What a worker holds *)

(** The items of its free list, those it returns to the pool and those of the
    list it is building. *)
Record ghost := { lf : list nat; fr : list nat; li : list nat }.
Definition hands (g : ghost) : list nat := lf g ++ fr g ++ li g.

Definition holds_pc (m : gmap nat work_item_t) (c : pc_t) (g : ghost) : Prop :=
  match c with
  | Returning _ fh ft => chain m fh (fr g) /\ ft = last (fr g) /\ fr g <> [] /\ li g = []
  | NoReturning i _ => fr g = [i] /\ li g = []
  | Listing _ _ lh lt count => fr g = [] /\ chain m lh (li g) /\ lt = last (li g) /\ count = length (li g)
  | Adding _ lh lt count | Pushing _ lh lt count => fr g = [] /\ chain m lh (li g) /\ lt = last (li g) /\ count = length (li g) /\ li g <> []
  | _ => fr g = [] /\ li g = []
  end.

Definition bare (c : pc_t) : Prop :=
  match c with Finished | NoTop | NoPopping | NoReturning _ _ | NoSubbing _ | NoSignalling => True | _ => False end.

Definition holds (m : gmap nat work_item_t) (w : worker_t) (g : ghost) : Prop :=
  chain m (l_head (lfl w)) (lf g) /\ (length (lf g) <= 15)%nat /\ (bare (pc w) -> lf g = []) /\ holds_pc m (pc w) g.

(** The worker as the machine over lists sees it. *)
Definition abs_pc (m : gmap nat work_item_t) (c : pc_t) (g : ghost) : apc_t :=
  match c with
  | Top => ATop | Popping => APopping | Returning b _ _ => AReturning b | Processing b => AProcessing b
  | Listing n todo _ _ _ => AListing n todo (map (node_at m) (li g))
  | Adding n _ _ _ => AAdding n (map (node_at m) (li g))
  | Pushing n _ _ _ => APushing n (map (node_at m) (li g))
  | Subbing n => ASubbing n | Signalling n => ASignalling n | Draining => ADraining | Finished => AFinished
  | NoTop => ANoTop | NoPopping => ANoPopping | NoReturning _ p => ANoReturning p | NoSubbing p => ANoSubbing p
  | NoSignalling => ANoSignalling
  end.
Definition abs (m : gmap nat work_item_t) (w : worker_t) (g : ghost) : aworker_t := aworker (abs_pc m (pc w) g) (length (lf g)).
Definition abs_queue (q : work_queue_t) (ql : list nat) : aqueue_t :=
  {| dirs := map (node_at (items q)) ql; apending := pending q; adone := done q |}.

(** A worker with its queue, and what belongs to others. *)
Definition part_of (q : work_queue_t) (ql pl : list nat) (w : worker_t) (g : ghost) (rest : list nat) : Prop :=
  parts q ql pl /\ holds (items q) w g /\ owned (items q) (ql ++ pl ++ hands g ++ rest) /\ unused q.

(** A worker that waits or has finished. *)
Definition blocked (intr : bool) (w : worker_t) (q : work_queue_t) : Prop :=
  pc w = Finished \/ (pc w = Popping \/ pc w = NoPopping) /\ waits intr q = true.

(** Its step: the queue and the worker after it hold what the machine over
    lists says, and the items of others are as they were. *)
Definition simulates (intr : bool) (q : work_queue_t) (ql : list nat) (w : worker_t) (g : ghost) (rest : list nat)
    (r : worker_t * work_queue_t * list event) : Prop :=
  let '(w', q', ev) := r in
  exists ql' pl' g', part_of q' ql' pl' w' g' rest /\
    astep intr (abs (items q) w g) (abs_queue q ql) (abs (items q') w' g') (abs_queue q' ql') ev /\
    (forall x, x ∈ rest -> items q' !! x = items q !! x).

(** ** The simulation *)

Section Step.
Variables (intr : bool) (q : work_queue_t) (ql pl : list nat) (w : worker_t) (g : ghost) (rest : list nat).
Hypothesis HP : part_of q ql pl w g rest.

(** Steps that leave the items alone. *)
Lemma sim_same w' q' ev : items q' = items q -> head q' = head q -> tail q' = tail q -> free_list q' = free_list q -> malloced q' = malloced q ->
  holds (items q) w' g -> astep intr (abs (items q) w g) (abs_queue q ql) (abs (items q) w' g) (abs_queue q' ql) ev ->
  simulates intr q ql w g rest (w', q', ev).
Proof using HP.
  intros Ei Eh Et Ef Em H A. exists ql, pl, g. rewrite Ei. destruct HP as (P & _ & O & U). split; [|by split].
  unfold part_of, parts, unused in *. rewrite Ei, Eh, Et, Ef, Em. by split.
Qed.

Lemma wchain_frame m m' (l : list nat) (o : option nat) : (forall x, x ∈ l -> m' !! x = m !! x) -> chain m o l -> chain m' o l.
Proof using. apply chain_ext. Qed.

Lemma nodes_frame m m' (l : list nat) : (forall x, x ∈ l -> m' !! x = m !! x) -> map (node_at m') l = map (node_at m) l.
Proof using. intros H. apply map_ext_in. intros x Hx. unfold node_at. rewrite H; [done|]. by apply list_elem_of_In. Qed.

Lemma unused_relinks S q' : relinks S (items q) (items q') -> malloced q' = malloced q -> unused q'.
Proof using HP.
  intros R Em x Hx. rewrite Em in Hx. destruct HP as (_ & _ & _ & U). apply U in Hx.
  pose proof (inm_relinks _ _ _ x R) as I. unfold inm in I. rewrite Hx in I. by destruct (items q' !! x).
Qed.

Lemma sim_pop : pc w = Popping -> waits intr q = false -> exists r, wstep intr w q = Some (Some r) /\ simulates intr q ql w g rest r.
Proof using HP.
  intros Hpc Hw. destruct HP as (P & (H1 & H2 & H3 & H4) & O & U). rewrite Hpc in H4. destruct H4 as [Hfr Hli].
  unfold wstep. rewrite Hpc, Hw. destruct (take_ok DIRS_PER_BATCH q ql pl (hands g ++ rest) P O) as (fh & ft & q' & R & C & L & P' & Re & E1 & E2 & E3).
  rewrite R. cbn [mbind option_bind]. eexists. split; [reflexivity|].
  exists (drop DIRS_PER_BATCH ql), pl, {| lf := lf g; fr := rev (take DIRS_PER_BATCH ql); li := [] |}.
  assert (forall x, x ∈ pl ++ hands g ++ rest -> items q' !! x = items q !! x) as Fr.
  { intros x Hx. apply Re. intros Hx'. apply (owned_disjoint _ _ _ x O); [|exact Hx]. rewrite <- (take_drop DIRS_PER_BATCH ql). set_solver. }
  split; [split; [exact P'|split; [|split]]|split].
  - split; [cbn [to lfl]; eapply chain_ext; [|exact H1]; intros x Hx; apply Fr; unfold hands; set_solver|]. split; [done|].
    split; [by destruct (map _ _)|]. destruct (take DIRS_PER_BATCH ql) as [|i k] eqn:Et; cbn [map to pc]; [by split|].
    cbn [holds_pc fr li]. split; [done|]. split; [done|]. split; [|done]. cbn. by destruct (rev k).
  - eapply owned_relinks; [exact Re|]. eapply owned_perm; [|exact O]. unfold hands. cbn [lf fr li]. rewrite Hfr, Hli, !app_nil_r.
    apply cnt_Permutation. intros x. rewrite <- (take_drop DIRS_PER_BATCH ql) at 1. counts. lia.
  - by eapply unused_relinks.
  - unfold abs, abs_queue. rewrite Hpc. cbn [abs_pc lf]. rewrite E1, E2.
    rewrite <- firstn_map, <- skipn_map, (relinks_nodes _ _ _ _ Re).
    assert (abs_pc (items q') (match take DIRS_PER_BATCH (map (node_at (items q)) ql) with [] => Draining | _ => Returning (take DIRS_PER_BATCH (map (node_at (items q)) ql)) fh ft end)
      {| lf := lf g; fr := rev (take DIRS_PER_BATCH ql); li := [] |} =
      match take DIRS_PER_BATCH (map (node_at (items q)) ql) with [] => ADraining | b => AReturning b end) as Ea by (by destruct (take _ (map _ _))).
    cbn [to pc]. rewrite Ea. apply a_pop. intros Hl. apply map_eq_nil in Hl. subst ql. destruct P as (Eh & _). cbn in Eh.
    unfold waits in Hw. rewrite Eh in Hw. destruct (done q); [by left|]. destruct intr; [by right|done].
  - intros x Hx. apply Fr. set_solver.
Qed.

Lemma sim_return b fh ft : pc w = Returning b fh ft -> exists r, wstep intr w q = Some (Some r) /\ simulates intr q ql w g rest r.
Proof using HP.
  intros Hpc. destruct HP as (P & (H1 & H2 & H3 & H4) & O & U). rewrite Hpc in H4. destruct H4 as (C & L & Hne & Hli).
  destruct (free_batch_ok q ql pl fh ft (fr g) (lf g ++ rest) P C L Hne) as (q' & t & R & Ht & Re & P' & E1 & E2 & E3).
  { eapply owned_perm; [|exact O]. unfold hands. rewrite Hli. apply cnt_Permutation. intros x. counts. lia. }
  unfold wstep. rewrite Hpc, R. cbn [mbind option_bind]. eexists. split; [reflexivity|].
  exists ql, (fr g ++ pl), {| lf := lf g; fr := []; li := [] |}.
  assert (forall x, x ∈ lf g ++ rest -> items q' !! x = items q !! x) as Fr.
  { intros x Hx. apply Re. intros ->%list_elem_of_singleton. eapply (owned_disjoint _ (fr g) (ql ++ pl ++ lf g ++ rest) t); [|done|set_solver].
    eapply owned_perm; [|exact O]. unfold hands. rewrite Hli. apply cnt_Permutation. intros x. counts. lia. }
  split; [split; [exact P'|split; [|split]]|split].
  - split; [cbn [to lfl]; eapply chain_ext; [|exact H1]; intros x Hx; apply Fr; set_solver|]. split; [done|]. by split.
  - eapply owned_relinks; [exact Re|]. eapply owned_perm; [|exact O]. unfold hands. cbn [lf fr li]. rewrite Hli, !app_nil_r.
    apply cnt_Permutation. intros x. counts. lia.
  - by eapply unused_relinks.
  - unfold abs, abs_queue. rewrite Hpc. cbn [abs_pc lf to pc]. rewrite E1, E2, (relinks_nodes _ _ _ _ Re). apply a_return.
  - intros x Hx. apply Fr. set_solver.
Qed.

Lemma sim_listing n p todo lh lt count : pc w = Listing n (p :: todo) lh lt count ->
  exists r, wstep intr w q = Some (Some r) /\ simulates intr q ql w g rest r.
Proof using HP.
  intros Hpc. destruct HP as (P & (H1 & H2 & H3 & H4) & O & U). rewrite Hpc in H4. destruct H4 as (Hfr & C & L & Hc).
  destruct (local_alloc_ok q ql pl (lf g) (lfl w) (li g ++ rest) P H1 H2) as (r & l' & q1 & lf' & pl' & R & P1 & C1 & L1 & U1 & E1 & E2 & O1 & Fr); [|done|].
  { eapply owned_perm; [|exact O]. unfold hands. rewrite Hfr. apply cnt_Permutation. intros x. counts. lia. }
  unfold wstep. rewrite Hpc, R. cbn [mbind option_bind].
  assert (chain (items q1) lh (li g)) as C' by (eapply chain_ext; [|exact C]; intros x Hx; apply Fr; set_solver).
  assert (map (node_at (items q1)) (li g) = map (node_at (items q)) (li g) /\ map (node_at (items q1)) ql = map (node_at (items q)) ql) as [N1 N2]
    by (split; apply nodes_frame; intros x Hx; apply Fr; set_solver).
  destruct r as [i|].
  - destruct (owned_some _ _ i O1) as [it Ei]; [by left|].
    assert (owned (items q1) ((i :: li g) ++ lf' ++ ql ++ pl' ++ rest)) as O2.
    { eapply owned_perm; [|exact O1]. apply cnt_Permutation. intros y. counts. lia. }
    pose proof (owned_NoDup _ _ O2) as N. apply NoDup_app in N as (N & _ & _). apply NoDup_cons in N as [Hi N].
    destruct (link_item_ok q1 i p lh lt (li g) it Ei C' L N Hi) as (lh' & q3 & R3 & C3 & (S1 & S2 & S3 & S4 & S5) & S6 & Fr3 & Im & Nm).
    rewrite R3. cbn [mbind option_bind]. eexists. split; [reflexivity|].
    assert (forall x, x ∈ lf' ++ ql ++ pl' ++ rest -> items q3 !! x = items q1 !! x) as Fr4.
    { intros x Hx. apply Fr3. intros Hx'. by apply (owned_disjoint _ _ _ x O2). }
    exists ql, pl', {| lf := lf'; fr := []; li := li g ++ [i] |}. split; [split; [|split; [|split]]|split].
    + destruct P1 as (Q1 & Q2 & Q3). unfold parts. rewrite S1, S2, S6. split; [|split; [done|]];
        (eapply chain_ext; [|eassumption]); intros x Hx; apply Fr4; set_solver.
    + split; [cbn [lfl lf]; eapply chain_ext; [|exact C1]; intros x Hx; apply Fr4; set_solver|]. split; [done|]. split; [done|].
      cbn. split; [done|]. split; [done|]. split; [by rewrite last_snoc|]. rewrite length_app, Hc. cbn. lia.
    + intros x. rewrite Im, <- O2. unfold hands. cbn [lf fr li]. counts. lia.
    + intros x Hx. rewrite S5 in Hx. pose proof (U1 x Hx) as Hu. specialize (Im x). unfold inm in Im. rewrite Hu in Im. by destruct (items q3 !! x).
    + unfold abs, abs_queue. rewrite Hpc. cbn [abs_pc lf li pc].
      rewrite (nodes_frame (items q1) (items q3) ql), Nm, N1, N2, S3, S4, E1, E2 by (intros x Hx; apply Fr4; set_solver). by apply a_list.
    + intros x Hx. rewrite Fr4, Fr by set_solver. done.
  - eexists. split; [reflexivity|]. exists ql, pl', {| lf := lf'; fr := []; li := li g |}. cbn [app] in O1.
    split; [split; [done|split; [|split; [|done]]]|split].
    + split; [done|]. split; [done|]. split; [done|]. by split.
    + eapply owned_perm; [|exact O1]. unfold hands. cbn [lf fr li]. apply cnt_Permutation. intros x. counts. lia.
    + unfold abs, abs_queue. rewrite Hpc. cbn [abs_pc lf li pc]. rewrite E1, E2, N1, N2. by apply a_skip.
    + intros x Hx. apply Fr. set_solver.
Qed.

Lemma sim_push n lh lt count : pc w = Pushing n lh lt count -> exists r, wstep intr w q = Some (Some r) /\ simulates intr q ql w g rest r.
Proof using HP.
  intros Hpc. destruct HP as (P & (H1 & H2 & H3 & H4) & O & U). rewrite Hpc in H4. destruct H4 as (Hfr & C & L & Hc & Hne).
  destruct (exists_last Hne) as (k & t & Ek). assert (t ∈ li g) as Ht by (rewrite Ek; set_solver).
  destruct (wchain_in _ _ _ t C Ht) as [it Et]. assert (exists i, lh = Some i) as [i ->] by (destruct (li g); cbn in C; [done|destruct C as (-> & _); by eexists]).
  unfold wstep, wq_push_batch. rewrite Hpc. destruct (Nat.eqb_spec count 0) as [->|_]; [by destruct (li g)|].
  rewrite L, Ek, last_snoc. cbn [mbind option_bind]. rewrite (set_next_ok t None q it Et). cbn [mbind option_bind].
  pose proof (relinks_insert t it None _ Et) as R1. set (m1 := <[t := _]> (items q)) in *. set (q1 := q <| items := m1 |>).
  assert (owned (items q) (li g ++ ql ++ pl ++ lf g ++ rest)) as O1.
  { eapply owned_perm; [|exact O]. unfold hands. rewrite Hfr. apply cnt_Permutation. intros x. counts. lia. }
  assert (NoDup (li g)) as Nl by (pose proof (owned_NoDup _ _ O1) as N; by apply NoDup_app in N as (N & _)).
  assert (forall x, x ∈ ql ++ pl ++ lf g ++ rest -> m1 !! x = items q !! x) as Fr1.
  { intros x Hx. apply R1. intros ->%list_elem_of_singleton. by apply (owned_disjoint _ _ _ t O1). }
  assert (parts q1 ql pl) as P1.
  { destruct P as (Q1 & Q2 & Q3). split; [|split; [done|]]; (eapply chain_ext; [|eassumption]); intros x Hx; apply Fr1; set_solver. }
  assert (chain m1 (Some i) (li g)) as C1.
  { rewrite Ek in C, Nl |- *. apply NoDup_app in Nl as (_ & Nl & _). apply (chain_link _ _ _ _ _ _ _ C); [| |exact Et|done].
    - intros Hk. apply (Nl t Hk). left.
    - by intros ?%not_elem_of_nil. }
  destruct (link_tail_ok q1 ql pl i (li g) t (lf g ++ rest) P1 C1) as (q' & S & R & HS & Re & P' & E1 & E2 & E3).
  { by rewrite Ek, last_snoc. }
  { by eapply owned_relinks. }
  rewrite R. cbn [mbind option_bind]. eexists. split; [reflexivity|].
  assert (forall x, x ∈ pl ++ lf g ++ rest -> items q' !! x = items q !! x) as Fr.
  { intros x Hx. transitivity (m1 !! x); [|apply Fr1; set_solver]. apply Re. intros Hx'%HS.
    eapply (owned_disjoint _ ql (li g ++ pl ++ lf g ++ rest) x); [|done|set_solver].
    eapply owned_perm; [|exact O1]. apply cnt_Permutation. intros y. counts. lia. }
  exists (ql ++ li g), pl, {| lf := lf g; fr := []; li := [] |}.
  split; [split; [exact P'|split; [|split]]|split].
  - split; [cbn [to lfl]; eapply chain_ext; [|exact H1]; intros x Hx; apply Fr; set_solver|]. split; [done|]. by split.
  - eapply owned_relinks; [exact Re|]. eapply owned_relinks; [exact R1|]. eapply owned_perm; [|exact O1]. unfold hands. cbn [lf fr li].
    apply cnt_Permutation. intros x. counts. lia.
  - intros x Hx. rewrite E3 in Hx. apply U in Hx. pose proof (inm_relinks _ _ _ x Re) as I. change (items q1) with m1 in I. rewrite (inm_relinks _ _ _ x R1) in I.
    unfold inm in I. rewrite Hx in I. by destruct (items q' !! x).
  - unfold abs, abs_queue. rewrite Hpc. cbn [abs_pc lf to pc]. rewrite E1, E2, (relinks_nodes _ _ _ _ Re). cbn [items q1].
    rewrite (relinks_nodes _ _ _ _ R1), map_app. apply a_push.
  - intros x Hx. apply Fr. set_solver.
Qed.

(** An item goes to the pool. *)
Lemma give_back i l : owned (items q) (i :: ql ++ pl ++ l) -> exists q', wip_free i q = Some q' /\ parts q' ql (i :: pl) /\
  relinks [i] (items q) (items q') /\ pending q' = pending q /\ done q' = done q /\ malloced q' = malloced q.
Proof using HP.
  intros O. destruct HP as (P & _). destruct (owned_some _ _ i O) as [it Ei]; [by left|]. unfold wip_free.
  rewrite (set_next_ok _ _ _ _ Ei). cbn [mbind option_bind]. eexists. split; [reflexivity|].
  pose proof (relinks_insert i it (free_list q) _ Ei) as R. split; [|split; [exact R|done]].
  assert (forall x, x ∈ ql ++ pl -> x ∉ [i]) as D.
  { intros x Hx ->%list_elem_of_singleton. apply (owned_disjoint _ [i] _ i O); [by left|set_solver]. }
  destruct P as (Q1 & Q2 & Q3). split; [|split; [done|]].
  - eapply chain_relinks; [exact R| |exact Q1]. intros x Hx. apply D. set_solver.
  - cbn. split; [done|]. eexists. rewrite lookup_insert_eq. split; [done|]. cbn.
    eapply chain_relinks; [exact R| |exact Q3]. intros x Hx. apply D. set_solver.
Qed.

Lemma sim_drain : pc w = Draining -> exists r, wstep intr w q = Some (Some r) /\ simulates intr q ql w g rest r.
Proof using HP.
  intros Hpc. pose proof HP as (P & (H1 & H2 & H3 & H4) & O & U). rewrite Hpc in H4. destruct H4 as [Hfr Hli]. unfold wstep. rewrite Hpc.
  destruct (lf g) as [|i l] eqn:El; cbn in H1.
  - rewrite H1. eexists. split; [reflexivity|]. apply sim_same; try done.
    + split; [by rewrite El|]. rewrite El. split; [cbn; lia|]. by split.
    + unfold abs. rewrite Hpc, El. apply a_drained.
  - destruct H1 as (Eh & it & Ei & C). rewrite Eh, Ei. cbn [mbind option_bind].
    assert (owned (items q) (i :: ql ++ pl ++ l ++ rest)) as O1.
    { eapply owned_perm; [|exact O]. unfold hands. rewrite El, Hfr, Hli. apply cnt_Permutation. intros x. counts. lia. }
    destruct (give_back i _ O1) as (q' & R & P' & Re & E1 & E2 & E3). rewrite R. cbn [mbind option_bind]. eexists. split; [reflexivity|].
    assert (forall x, x ∈ l ++ rest -> items q' !! x = items q !! x) as Fr.
    { intros x Hx. apply Re. intros ->%list_elem_of_singleton. apply (owned_disjoint _ [i] _ i O1); [by left|set_solver]. }
    exists ql, (i :: pl), {| lf := l; fr := []; li := [] |}. split; [split; [exact P'|split; [|split]]|split].
    + split; [cbn [lfl l_head lf]; eapply chain_ext; [|exact C]; intros x Hx; apply Fr; set_solver|]. split; [cbn in H2 |- *; lia|]. by split.
    + eapply owned_relinks; [exact Re|]. eapply owned_perm; [|exact O1]. unfold hands. cbn [lf fr li]. apply cnt_Permutation. intros x. counts. lia.
    + by eapply unused_relinks.
    + unfold abs, abs_queue. rewrite Hpc, El. cbn [abs_pc lf pc length]. rewrite E1, E2, (relinks_nodes _ _ _ _ Re). apply a_drain.
    + intros x Hx. apply Fr. set_solver.
Qed.

Lemma sim_no_return i p : pc w = NoReturning i p -> exists r, wstep intr w q = Some (Some r) /\ simulates intr q ql w g rest r.
Proof using HP.
  intros Hpc. pose proof HP as (P & (H1 & H2 & H3 & H4) & O & U). rewrite Hpc in H3, H4. destruct H4 as [Hfr Hli]. specialize (H3 I).
  unfold wstep. rewrite Hpc. assert (owned (items q) (i :: ql ++ pl ++ rest)) as O1.
  { eapply owned_perm; [|exact O]. unfold hands. rewrite H3, Hfr, Hli. apply cnt_Permutation. intros x. counts. lia. }
  destruct (give_back i _ O1) as (q' & R & P' & Re & E1 & E2 & E3). rewrite R. cbn [mbind option_bind]. eexists. split; [reflexivity|].
  exists ql, (i :: pl), {| lf := []; fr := []; li := [] |}. split; [split; [exact P'|split; [|split]]|split].
  - rewrite H3 in H1. split; [exact H1|]. split; [cbn; lia|]. by split.
  - eapply owned_relinks; [exact Re|]. eapply owned_perm; [|exact O1]. unfold hands. cbn [lf fr li]. apply cnt_Permutation. intros x. counts. lia.
  - by eapply unused_relinks.
  - unfold abs, abs_queue. rewrite Hpc, H3. cbn [abs_pc lf pc to length]. rewrite E1, E2, (relinks_nodes _ _ _ _ Re). apply a_no_return.
  - intros x Hx. apply Re. intros ->%list_elem_of_singleton. apply (owned_disjoint _ [i] _ i O1); [by left|set_solver].
Qed.

Lemma sim_no_pop : pc w = NoPopping -> waits intr q = false -> exists r, wstep intr w q = Some (Some r) /\ simulates intr q ql w g rest r.
Proof using HP.
  intros Hpc Hw. pose proof HP as (P & (H1 & H2 & H3 & H4) & O & U). rewrite Hpc in H3, H4. destruct H4 as [Hfr Hli]. specialize (H3 I).
  unfold wstep, pop_item. rewrite Hpc, Hw. destruct P as (Q1 & Q2 & Q3).
  assert (ql = [] \/ exists i l, ql = i :: l) as [El|(i & l & El)] by (destruct ql; eauto); rewrite El in Q1, Q2, O; cbn in Q1.
  - rewrite Q1. cbn [mbind option_bind]. eexists. split; [reflexivity|]. apply sim_same; [done..|done|].
    unfold abs, abs_queue. rewrite Hpc, El, H3. cbn. apply a_no_end. unfold waits in Hw. rewrite Q1 in Hw.
    destruct (done q); [by left|]. destruct intr; [by right|done].
  - destruct Q1 as (Eh & it & Ei & C). rewrite Eh, Ei. cbn [mbind option_bind]. eexists. split; [reflexivity|].
    set (q' := match next it with None => _ | Some _ => _ end).
    assert (items q' = items q /\ head q' = next it /\ tail q' = last l /\ free_list q' = free_list q /\ pending q' = pending q /\
      done q' = done q /\ malloced q' = malloced q) as (E1 & E2 & E3 & E4 & E5 & E6 & E7).
    { rewrite last_cons in Q2. unfold q'. destruct l as [|j l]; cbn in C; [rewrite C; done|]. destruct C as (-> & _). cbn.
      rewrite Q2, last_cons. by destruct (last l). }
    clearbody q'. exists l, pl, {| lf := []; fr := [i]; li := [] |}. split; [split; [|split; [|split]]|split].
    + unfold parts. by rewrite E1, E2, E3, E4.
    + rewrite H3 in H1. unfold holds. rewrite E1. split; [exact H1|]. split; [cbn; lia|]. by split.
    + rewrite E1. eapply owned_perm; [|exact O]. unfold hands. rewrite H3, Hfr, Hli. cbn [lf fr li]. apply cnt_Permutation. intros x. counts. lia.
    + intros x Hx. rewrite E1. apply U. by rewrite <- E7.
    + unfold abs, abs_queue. rewrite Hpc, E1, E5, E6, H3, El. cbn [abs_pc lf pc to length map]. unfold node_at at 1. rewrite Ei. apply a_no_pop.
    + intros x Hx. by rewrite E1.
Qed.

Lemma abs_if (b : bool) (c c' : pc_t) : abs_pc (items q) (if b then c else c') g = if b then abs_pc (items q) c g else abs_pc (items q) c' g.
Proof using. by destruct b. Qed.

(** Steps on the worker's own data and on [pending]. *)
Ltac own_step Hpc := unfold wstep; rewrite Hpc; right; eexists; split; [reflexivity|]; apply sim_same; [done..| |unfold abs, abs_queue; rewrite Hpc].

(** Every step is simulated, and none is a fault. *)
Lemma wstep_simulates : wstep intr w q = Some None /\ blocked intr w q \/
  exists r, wstep intr w q = Some (Some r) /\ simulates intr q ql w g rest r.
Proof using HP.
  pose proof HP as (P & (H1 & H2 & H3 & H4) & O & U). unfold blocked. destruct (pc w) eqn:Hpc; cbn [holds_pc bare] in H3, H4;
    try (by right; eauto using sim_return, sim_push, sim_drain, sim_no_return).
  - own_step Hpc; [by destruct intr|]. cbn [pc to]. rewrite abs_if. apply a_top.
  - destruct (waits intr q) eqn:Ew; [left; split; [unfold wstep; by rewrite Hpc, Ew|by right; split; [left|]]|right; by apply sim_pop].
  - destruct H4 as [Hf Hl]. own_step Hpc; [split; [done|split; [done|split; [done|]]]; cbn [pc to holds_pc]; rewrite Hl; by split|].
    cbn [pc to abs_pc]. rewrite Hl. apply a_process.
  - destruct todo as [|p todo]; [|right; by eapply sim_listing]. destruct H4 as (Hf & C & L & Hc).
    own_step Hpc.
    + split; [done|]. split; [done|]. split; [by destruct (0 <? count)%nat|]. cbn [pc to]. rewrite Hc. destruct (li g) as [|i l] eqn:El; [by split|].
      cbn [length Nat.ltb Nat.leb holds_pc]. rewrite El, L. by split.
    + cbn [pc to]. rewrite abs_if. cbn [abs_pc]. rewrite Hc. destruct (li g) as [|i l] eqn:El.
      * cbn. pose proof (a_listed intr ndirs [] (length (lf g)) {| dirs := map (node_at (items q)) ql; apending := pending q; adone := done q |}) as A. exact A.
      * cbn [length Nat.ltb Nat.leb map]. apply a_listed.
  - own_step Hpc; [done|]. cbn [abs_pc pc to snd pending_add]. destruct H4 as (_ & _ & _ & -> & _).
    replace (Z.of_nat (length (li g))) with (zlen (map (node_at (items q)) (li g))) by (unfold zlen; by rewrite length_map). apply a_add.
  - unfold wstep. rewrite Hpc. right. destruct left as [|n]; (eexists; split; [reflexivity|]; apply sim_same; [done..| |unfold abs, abs_queue; rewrite Hpc]).
    + by split; [|split; [|split]].
    + apply a_subbed.
    + split; [done|]. split; [done|]. cbn [pc to]. by destruct (pending q =? 1).
    + cbn [pc to]. rewrite abs_if. apply a_sub.
  - own_step Hpc; [by split; [|split; [|split]]|]. apply a_signal.
  - left. split; [unfold wstep; by rewrite Hpc|by left].
  - specialize (H3 I). own_step Hpc; [split; [done|split; [done|split; [done|by destruct intr]]]|]. cbn [pc to abs_pc]. rewrite H3, abs_if. apply a_no_top.
  - destruct (waits intr q) eqn:Ew; [left; split; [unfold wstep; by rewrite Hpc, Ew|by right; split; [right|]]|right; by apply sim_no_pop].
  - specialize (H3 I). own_step Hpc.
    + split; [done|]. split; [done|]. split; [done|]. cbn [pc to]. by destruct (pending q =? 1).
    + cbn [pc to abs_pc]. rewrite H3, abs_if. apply a_no_sub.
  - specialize (H3 I). own_step Hpc; [by split; [|split; [|split]]|]. cbn [pc to abs_pc]. rewrite H3. apply a_no_signal.
Qed.

End Step.
End Machine.
