(* ===== verification/TreeScanSpec.v ===== *)
(** * atree: the parallel scan

    Every interleaving of the workers scans every directory once, ends, and
    gives back the memory of the queue. The arguments are about the machine over
    lists of TreeScanSim; the theorems are about the linked one. *)
From Stdlib Require Import ZArith Lia List.
From stdpp Require Import base tactics list gmap relations.
From S2P Require Import Prelude TreeQueue TreeQueueSpec TreeScanSim.

#[local] Open Scope Z_scope.
#[local] Set Warnings "-clear-no-such-hyp".

(** ** The whole machine over lists *)

Record gstate := { gq : aqueue_t; gws : list aworker_t; gintr : bool; gtr : list event }.

(** The directories of a trace that were scanned, and those that were not. *)
Definition scanned (tr : list event) : list nat := flat_map (fun e => match e with Scanned p => [p] | _ => [] end) tr.
Definition lost (tr : list event) : list nat := flat_map (fun e => match e with Scanned _ => [] | Skipped p | Dropped p => [p] end) tr.

Lemma scanned_map b : scanned (map Scanned b) = b.
Proof. induction b as [|p b IH]; [done|]. cbn. f_equal. exact IH. Qed.
Lemma lost_map b : lost (map Scanned b) = [].
Proof. by induction b. Qed.
Lemma scanned_app tr ev : scanned (tr ++ ev) = scanned tr ++ scanned ev.
Proof. apply flat_map_app. Qed.
Lemma lost_app tr ev : lost (tr ++ ev) = lost tr ++ lost ev.
Proof. apply flat_map_app. Qed.

(** Directories a worker holds that are neither scanned nor lost. *)
Definition owes (c : apc_t) : list nat :=
  match c with
  | AReturning b | AProcessing b => b
  | AListing _ todo ls => todo ++ ls
  | AAdding _ ls | APushing _ ls => ls
  | ANoReturning p | ANoSubbing p => [p]
  | _ => []
  end.

(** Its share of [pending] that is for directories it owes, and the rest. *)
Definition due (c : apc_t) : Z :=
  match c with
  | AReturning b | AProcessing b => zlen b
  | APushing _ ls => zlen ls
  | ANoReturning _ | ANoSubbing _ => 1
  | _ => 0
  end.
Definition behind (c : apc_t) : Z :=
  match c with AListing n _ _ | AAdding n _ | APushing n _ | ASubbing n | ASignalling n => Z.of_nat n | _ => 0 end.

Definition signals (c : apc_t) : Prop := match c with ASignalling _ | ANoSignalling => True | _ => False end.
Definition leaves (c : apc_t) : Prop := match c with ADraining | AFinished => True | _ => False end.

Definition wsum (f : apc_t -> Z) (l : list aworker_t) : Z := zsum (map (fun a => f (apc a)) l).

Lemma zsum_map_insert {A} (f : A -> Z) (l : list A) (t : nat) a a' : l !! t = Some a ->
  zsum (map f (<[t := a']> l)) = zsum (map f l) - f a + f a'.
Proof.
  intros H. pose proof (lookup_lt_Some _ _ _ H) as Hl. rewrite list_fmap_insert, zsum_insert by (by rewrite length_map).
  erewrite nth_lookup_Some; [reflexivity|]. by rewrite list_lookup_fmap, H.
Qed.

Lemma wsum_insert f l t a a' : l !! t = Some a -> wsum f (<[t := a']> l) = wsum f l - f (apc a) + f (apc a').
Proof. apply (zsum_map_insert (fun a => f (apc a))). Qed.

Lemma wsum_nonneg f l : (forall c, 0 <= f c) -> 0 <= wsum f l.
Proof. intros H. apply zsum_nonneg. induction l; constructor; auto. Qed.

Lemma wsum_in f l t a : (forall c, 0 <= f c) -> l !! t = Some a -> f (apc a) <= wsum f l.
Proof.
  intros Hf H. revert t H. induction l as [|b l IH]; intros t H; [done|]. unfold wsum. cbn [map zsum].
  pose proof (wsum_nonneg f l Hf) as Hl. destruct t as [|t]; cbn in H; [injection H as ->; unfold wsum in Hl; lia|].
  specialize (IH t H). unfold wsum in IH. pose proof (Hf (apc b)). lia.
Qed.

Lemma wsum_const f (l : list aworker_t) : Forall (fun a => f (apc a) = 0) l -> wsum f l = 0.
Proof. unfold wsum. induction 1 as [|a l H _ IH]; cbn; [done|]. lia. Qed.

Section Scan.
Context {E : QueueEnv}.

Inductive gstep : gstate -> gstate -> Prop :=
  | g_run s t a a' q' ev : gws s !! t = Some a -> astep (gintr s) a (gq s) a' q' ev ->
      gstep s {| gq := q'; gws := <[t := a']> (gws s); gintr := gintr s; gtr := gtr s ++ ev |}
  | g_interrupt s : gintr s = false -> gstep s {| gq := gq s; gws := gws s; gintr := true; gtr := gtr s |}.

(** The directories at and below a directory, in the tree that is scanned. *)
Variable below : nat -> list nat.
Hypothesis Hbelow : forall p, below p = p :: flat_map below (subdirs p).

(** A value for every directory, summed up over those at and below a list. *)
Definition vsum (val : nat -> Z) (l : list nat) : Z := zsum (map val l).
Definition tot (val : nat -> Z) (l : list nat) : Z := vsum val (flat_map below l).
Definition one (p : nat) : Z := 1.
Definition weight (l : list nat) : Z := tot one l.

Lemma vsum_app val l k : vsum val (l ++ k) = vsum val l + vsum val k.
Proof using. unfold vsum. by rewrite map_app, zsum_app. Qed.
Lemma vsum_cons val p l : vsum val (p :: l) = val p + vsum val l.
Proof using. done. Qed.
Lemma vsum_one l : vsum one l = zlen l.
Proof using. induction l as [|p l IH]; [done|]. rewrite vsum_cons, IH, zlen_cons. unfold one. lia. Qed.
Lemma tot_app val l k : tot val (l ++ k) = tot val l + tot val k.
Proof using. unfold tot. by rewrite flat_map_app, vsum_app. Qed.
Lemma tot_cons val p l : tot val (p :: l) = tot val [p] + tot val l.
Proof using. apply (tot_app val [p] l). Qed.
Lemma tot_nil val : tot val [] = 0.
Proof using. done. Qed.

Lemma weight_zlen l : weight l = zlen (flat_map below l).
Proof using. apply vsum_one. Qed.

Lemma tot_perm val l k : l ≡ₚ k -> tot val l = tot val k.
Proof using. unfold tot. induction 1; cbn [flat_map]; rewrite ?vsum_app; lia. Qed.

Lemma tot_subdirs val b : tot val b = vsum val b + tot val (flat_map subdirs b).
Proof using Hbelow.
  induction b as [|p b IH]; [done|]. rewrite tot_cons, IH. cbn [flat_map]. rewrite tot_app, vsum_cons. unfold tot at 1. cbn [flat_map].
  rewrite app_nil_r, Hbelow, vsum_cons. unfold tot. lia.
Qed.

Lemma weight_nonneg l : 0 <= weight l.
Proof using. unfold weight, tot. rewrite vsum_one. unfold zlen. lia. Qed.

Lemma weight_len l : zlen l <= weight l.
Proof using Hbelow. unfold weight. rewrite tot_subdirs, vsum_one. pose proof (weight_nonneg (flat_map subdirs l)). unfold weight in *. lia. Qed.

(** ** What a step does to the directories and to [pending] *)

Definition seen (val : nat -> Z) (ev : list event) : Z := vsum val (scanned ev) + tot val (lost ev).

Lemma step_keeps val intr a q a' q' ev : astep intr a q a' q' ev ->
  seen val ev + tot val (dirs q') + tot val (owes (apc a')) = tot val (dirs q) + tot val (owes (apc a)).
Proof using Hbelow.
  unfold seen. destruct 1; cbn [apc aworker owes dirs]; rewrite ?scanned_map, ?lost_map; cbn [scanned lost flat_map app]; rewrite ?tot_app, ?tot_nil;
    change (vsum val []) with 0; try (match goal with |- context [owes (if ?b then _ else _)] => destruct b end; cbn [owes]; rewrite ?tot_nil); try lia.
  - assert (tot val l = tot val (take DIRS_PER_BATCH l) + tot val (drop DIRS_PER_BATCH l)) as -> by (rewrite <- tot_app, take_drop; done).
    destruct (take DIRS_PER_BATCH l); cbn [owes]; rewrite ?tot_nil; lia.
  - rewrite (tot_subdirs val b). lia.
  - rewrite (tot_cons val p (todo ++ ls)), tot_app. lia.
  - rewrite (tot_cons val p (todo ++ ls)), tot_app. lia.
  - rewrite (tot_cons val p l). lia.
Qed.

Definition share (c : apc_t) : Z := due c + behind c.

Lemma due_nonneg c : 0 <= due c.
Proof using. destruct c; cbn; unfold zlen; lia. Qed.
Lemma behind_nonneg c : 0 <= behind c.
Proof using. destruct c; cbn; lia. Qed.
Lemma share_nonneg c : 0 <= share c.
Proof using. unfold share. pose proof (due_nonneg c). pose proof (behind_nonneg c). lia. Qed.
Lemma due_owes c : due c <= zlen (owes c).
Proof using. destruct c; cbn [due owes]; unfold zlen; cbn; lia. Qed.

(** [pending] changes with the shares, and what is behind with what is scanned. *)
Lemma step_behind intr a q a' q' ev : astep intr a q a' q' ev -> behind (apc a') - behind (apc a) <= zlen (scanned ev).
Proof using.
  destruct 1; cbn [apc aworker behind]; rewrite ?scanned_map; cbn [scanned flat_map app];
    try (match goal with |- context [behind (if ?b then _ else _)] => destruct b end; cbn [behind]);
    try (destruct (take _ _); cbn [behind]); unfold zlen; cbn [length]; lia.
Qed.

Lemma step_pending intr a q a' q' ev : astep intr a q a' q' ev ->
  let d := zlen (dirs q') + share (apc a') - (zlen (dirs q) + share (apc a)) in
  0 <= apending q <= INT_MAX -> 0 <= apending q + d <= INT_MAX -> apending q' = apending q + d.
Proof using.
  unfold share. destruct 1; cbn [apc aworker due behind dirs apending];
    try (match goal with |- context [due (if ?b then _ else _)] => destruct b end; cbn [due behind]);
    intros H0 H1; try (rewrite i32_id; unfold INT_MIN, INT_MAX, zlen in *; cbn [length] in *; lia);
    try (unfold zlen in *; cbn [length] in *; lia).
  - assert (zlen l = zlen (take DIRS_PER_BATCH l) + zlen (drop DIRS_PER_BATCH l)) as Hl by (rewrite <- zlen_app, take_drop; done).
    destruct (take DIRS_PER_BATCH l) as [|p b]; cbn [due behind] in *; change (zlen (@nil nat)) with 0 in *; lia.
  - rewrite (i32_id (zlen ls)) by (unfold INT_MIN, INT_MAX, zlen in *; lia). rewrite i32_id; unfold INT_MIN, INT_MAX, zlen in *; lia.
  - rewrite zlen_app in *. lia.
Qed.

(** ** The end of the scan *)

Definition signal (c : apc_t) : Z := match c with ASignalling _ | ANoSignalling => 1 | _ => 0 end.
Definition leaving (c : apc_t) : Z := match c with ADraining | AFinished => 1 | _ => 0 end.

(** A worker has something in hand where it should. *)
Definition busy_ok (a : aworker_t) : Prop :=
  (spare a <= 15)%nat /\
  match apc a with
  | AReturning b | AProcessing b => b <> []
  | AListing n _ _ | AAdding n _ | APushing n _ => (0 < n)%nat
  | _ => True
  end.

Lemma step_busy intr a q a' q' ev : astep intr a q a' q' ev -> busy_ok a -> busy_ok a'.
Proof using.
  unfold busy_ok. destruct 1; cbn [apc aworker spare]; intros [H0 H1]; try (split; [lia|]); try done; try (by destruct intr); try (by destruct (pend =? 1)).
  - by destruct (take DIRS_PER_BATCH l).
  - destruct b; [done|cbn; lia].
  - by destruct ls.
Qed.

Lemma step_done intr a q a' q' ev : astep intr a q a' q' ev -> busy_ok a ->
  let d := zlen (dirs q') + share (apc a') - (zlen (dirs q) + share (apc a)) in
  (adone q = true -> adone q' = true) /\
  (adone q' = true -> adone q = true \/ signal (apc a) = 1) /\
  (signal (apc a') < signal (apc a) -> adone q' = true) /\
  (signal (apc a) < signal (apc a') -> apending q = 1 /\ d = -1) /\
  (d < 0 -> d = -1 /\ (apending q = 1 -> signal (apc a') = 1)) /\
  (0 < d -> 0 < share (apc a)) /\
  (leaving (apc a) < leaving (apc a') -> adone q = true \/ intr = true).
Proof using.
  unfold busy_ok, share. destruct 1; cbn [apc aworker spare adone apending dirs]; intros [_ Hb]; cbn zeta;
    try (assert (zlen l = zlen (take DIRS_PER_BATCH l) + zlen (drop DIRS_PER_BATCH l)) by (rewrite <- zlen_app, take_drop; done));
    repeat match goal with
      | |- context [if ?b then _ else _] => destruct b eqn:?
      | |- context [match ?l with [] => _ | _ => _ end] => destruct l eqn:?
      end;
    repeat match goal with H : (_ =? _) = true |- _ => apply Z.eqb_eq in H | H : (_ =? _) = false |- _ => apply Z.eqb_neq in H end;
    rewrite ?zlen_app, ?zlen_cons in *; cbn [due behind signal leaving] in *; change (zlen (@nil nat)) with 0 in *;
    split_and!; intros; try done; try tauto; try (unfold zlen in *; cbn [length] in *; (try split); intros; try done; lia).
  apply H. by destruct l.
Qed.

(** The work that is left: a directory in the queue costs its popping and what
    its subdirectories cost to list; an item taken from the pool has to be given
    back. *)
Definition cost (c : apc_t) : Z :=
  match c with
  | ATop | ANoTop => 3
  | APopping | ANoPopping => 2
  | AReturning b => 70 * weight b - 68 * zlen b + 10
  | AProcessing b => 70 * weight b - 68 * zlen b + 9
  | AListing n todo ls => 70 * weight todo + (70 * weight ls - 20 * zlen ls) + 2 * Z.of_nat n + 8
  | AAdding n ls => 70 * weight ls - 20 * zlen ls + 2 * Z.of_nat n + 7
  | APushing n ls => 70 * weight ls - 20 * zlen ls + 2 * Z.of_nat n + 6
  | ASubbing n => 2 * Z.of_nat n + 4
  | ASignalling n => 2 * Z.of_nat n + 5
  | ADraining => 1
  | AFinished => 0
  | ANoReturning _ => 7
  | ANoSubbing _ => 6
  | ANoSignalling => 5
  end.
Definition wcost (a : aworker_t) : Z := cost (apc a) + Z.of_nat (spare a).
Definition qcost (q : aqueue_t) : Z := 70 * weight (dirs q) - 20 * zlen (dirs q).

Lemma wcost_nonneg a : 0 <= wcost a.
Proof using Hbelow.
  unfold wcost. destruct (apc a) as [| |b|b|n todo ls|n ls|n ls| | | | | | | | | ]; cbn [cost]; try lia;
    try (pose proof (weight_len b); unfold zlen in *; lia); try (pose proof (weight_len ls); unfold zlen in *; lia).
  pose proof (weight_len ls). pose proof (weight_nonneg todo). unfold zlen in *. lia.
Qed.

Lemma step_cost intr a q a' q' ev : astep intr a q a' q' ev -> busy_ok a -> wcost a' + qcost q' < wcost a + qcost q.
Proof using Hbelow.
  unfold busy_ok, wcost, qcost. destruct 1; cbn [apc aworker spare dirs]; intros [Hs Hb]; try (cbn [cost]; lia).
  - destruct intr; cbn [cost]; lia.
  - assert (weight l = weight (take DIRS_PER_BATCH l) + weight (drop DIRS_PER_BATCH l)) by (unfold weight; rewrite <- tot_app, take_drop; done).
    assert (zlen l = zlen (take DIRS_PER_BATCH l) + zlen (drop DIRS_PER_BATCH l)) by (rewrite <- zlen_app, take_drop; done).
    destruct (take DIRS_PER_BATCH l) as [|p b]; cbn [cost]; [change (zlen (@nil nat)) with 0 in *; change (weight []) with 0 in *; lia|].
    rewrite zlen_cons in *. pose proof (zlen_nonneg b). lia.
  - cbn [cost]. assert (weight b = zlen b + weight (flat_map subdirs b)) as -> by (unfold weight at 1; by rewrite tot_subdirs, vsum_one).
    change (weight []) with 0. change (zlen (@nil nat)) with 0. unfold zlen. lia.
  - cbn [cost]. assert (weight (p :: todo) = weight [p] + weight todo) as -> by apply tot_cons. pose proof (weight_len [p]). change (zlen [p]) with 1 in *. lia.
  - cbn [cost]. assert (weight (p :: todo) = weight [p] + weight todo) as -> by apply tot_cons.
    assert (weight (ls ++ [p]) = weight ls + weight [p]) as -> by apply tot_app. rewrite zlen_app. change (zlen [p]) with 1. lia.
  - destruct ls as [|p ls]; cbn [cost]; change (weight []) with 0; change (zlen (@nil nat)) with 0; lia.
  - cbn [cost]. assert (weight (l ++ ls) = weight l + weight ls) as -> by apply tot_app. rewrite zlen_app. lia.
  - destruct (pend =? 1); cbn [cost]; lia.
  - destruct intr; cbn [cost]; lia.
  - cbn [cost]. assert (weight (p :: l) = weight [p] + weight l) as -> by apply tot_cons. pose proof (weight_len [p]). rewrite zlen_cons.
    change (zlen [p]) with 1 in *. lia.
  - destruct (pend =? 1); cbn [cost]; lia.
Qed.

Definition total_cost (s : gstate) : Z := zsum (map wcost (gws s)) + qcost (gq s) + (if gintr s then 0 else 1).

Lemma gstep_cost s s' : gstep s s' -> Forall busy_ok (gws s) -> total_cost s' < total_cost s.
Proof using Hbelow.
  intros [? t a a' q' ev Ht A|? Hi] B; unfold total_cost; cbn [gws gq gintr].
  - rewrite (zsum_map_insert wcost _ _ _ _ Ht). pose proof (step_cost _ _ _ _ _ _ A (Forall_lookup_1 _ _ _ _ B Ht)). lia.
  - rewrite Hi. lia.
Qed.

Lemma total_cost_nonneg s : 0 <= total_cost s.
Proof using Hbelow.
  unfold total_cost, qcost. pose proof (weight_len (dirs (gq s))). pose proof (zlen_nonneg (dirs (gq s))).
  assert (0 <= zsum (map wcost (gws s))) by (induction (gws s) as [|a l IH]; cbn; [done|pose proof (wcost_nonneg a); lia]). destruct (gintr s); lia.
Qed.

(** ** Invariants of the whole machine *)

Variable roots : list nat.
Hypothesis Hbound : weight roots <= INT_MAX.

Definition total (s : gstate) : Z := zlen (dirs (gq s)) + wsum share (gws s).

Record ginv (s : gstate) : Prop := {
  i_keeps val : seen val (gtr s) + tot val (dirs (gq s)) + wsum (fun c => tot val (owes c)) (gws s) = tot val roots;
  i_pending : apending (gq s) = total s;
  i_behind : wsum behind (gws s) <= zlen (scanned (gtr s));
  i_busy : Forall busy_ok (gws s);
  i_done : adone (gq s) = true \/ 0 < wsum signal (gws s) -> total s = 0;
  i_quiet : total s = 0 -> adone (gq s) = true \/ 0 < wsum signal (gws s) \/ gws s = [];
  i_leaving : gintr s = false -> adone (gq s) = false -> wsum leaving (gws s) = 0
}.

Lemma wsum_le f g l : (forall c, f c <= g c) -> wsum f l <= wsum g l.
Proof using. intros H. unfold wsum. induction l as [|a l IH]; cbn; [lia|]. specialize (H (apc a)). lia. Qed.
Lemma wsum_add f g l : wsum (fun c => f c + g c) l = wsum f l + wsum g l.
Proof using. unfold wsum. induction l as [|a l IH]; cbn; lia. Qed.

Lemma total_range s : (forall val, seen val (gtr s) + tot val (dirs (gq s)) + wsum (fun c => tot val (owes c)) (gws s) = tot val roots) ->
  wsum behind (gws s) <= zlen (scanned (gtr s)) -> 0 <= total s <= INT_MAX.
Proof using Hbelow Hbound.
  intros K B. unfold total, share. rewrite wsum_add. pose proof (wsum_nonneg due (gws s) due_nonneg). pose proof (wsum_nonneg behind (gws s) behind_nonneg).
  pose proof (zlen_nonneg (dirs (gq s))). split; [lia|]. specialize (K one). unfold seen in K. rewrite vsum_one in K.
  fold (weight (lost (gtr s))) in K. fold (weight (dirs (gq s))) in K. fold (weight roots) in K. pose proof (weight_len (dirs (gq s))).
  pose proof (weight_nonneg (lost (gtr s))).
  assert (wsum due (gws s) <= wsum (fun c => tot one (owes c)) (gws s)).
  { apply wsum_le. intros c. pose proof (due_owes c). pose proof (weight_len (owes c)). unfold weight in *. lia. }
  lia.
Qed.

Lemma gstep_inv s s' : gstep s s' -> ginv s -> ginv s'.
Proof using Hbelow Hbound.
  intros St I. pose proof (total_range s (i_keeps s I) (i_behind s I)) as Rg. destruct I as [K P B Bu D Q L].
  destruct St as [s t a a' q' ev Ht A|s Hi].
  - pose proof (Forall_lookup_1 _ _ _ _ Bu Ht) as Ba. destruct (step_done _ _ _ _ _ _ A Ba) as (F1 & F2 & F3 & F4 & F5 & F6 & F7).
    set (s' := {| gq := q'; gws := <[t := a']> (gws s); gintr := gintr s; gtr := gtr s ++ ev |}).
    assert (forall f, wsum f (gws s') = wsum f (gws s) - f (apc a) + f (apc a')) as W by (intros f; by apply wsum_insert).
    assert (forall val, seen val (gtr s') + tot val (dirs (gq s')) + wsum (fun c => tot val (owes c)) (gws s') = tot val roots) as K'.
    { intros val. rewrite W, <- (K val). pose proof (step_keeps val _ _ _ _ _ _ A) as Sk. cbn [gtr gq s']. unfold seen in *.
      rewrite scanned_app, lost_app, vsum_app, tot_app. lia. }
    assert (wsum behind (gws s') <= zlen (scanned (gtr s'))) as B'.
    { rewrite W. cbn [gtr s']. rewrite scanned_app, zlen_app. pose proof (step_behind _ _ _ _ _ _ A). lia. }
    pose proof (total_range s' K' B') as Rg'.
    assert (total s' = total s + (zlen (dirs q') + share (apc a') - (zlen (dirs (gq s)) + share (apc a)))) as T
      by (unfold total; rewrite W; cbn [gq s']; lia).
    pose proof (step_pending _ _ _ _ _ _ A) as Sp. cbn zeta in *. set (d := zlen (dirs q') + _ - _) in *.
    pose proof (wsum_in share _ _ _ share_nonneg Ht) as Sh. pose proof (share_nonneg (apc a)) as Sa.
    assert (forall c, 0 <= signal c) as Sg by (by intros []). pose proof (wsum_nonneg signal (gws s) Sg). pose proof (wsum_nonneg signal (gws s') Sg).
    pose proof (W signal) as Ws. pose proof (Sg (apc a)). pose proof (Sg (apc a')).
    pose proof (wsum_in signal _ _ _ Sg Ht). pose proof (zlen_nonneg (dirs (gq s))).
    assert (wsum share (gws s) <= total s) as Sht by (unfold total; lia).
    split; [exact K'| |exact B'|by apply Forall_insert; [|eapply step_busy]| | |].
    + cbn [gq s']. rewrite T, <- P. apply Sp; lia.
    + intros H'. destruct (Z.eq_dec (total s) 0) as [T0|T0].
      * destruct (Z.lt_trichotomy d 0) as [?|[?|?]]; [|lia|specialize (F6 ltac:(done))]; lia.
      * assert (adone (gq s) = true -> False) as Nd by (intros; apply T0, D; by left).
        assert (signal (apc a) = 0 /\ wsum signal (gws s) = 0) as [S0 S1] by (destruct (decide (0 < wsum signal (gws s))); [exfalso; apply T0, D; by right|lia]).
        destruct H' as [H'|H'].
        -- apply F2 in H' as [?|?]; [done|lia].
        -- destruct F4; lia.
    + intros T0. destruct (Z.eq_dec (total s) 0) as [T1|T1].
      * destruct (Q T1) as [Qd|[Qs|Qe]]; [left; by apply F1| |by rewrite Qe in Ht].
        destruct (Z.lt_decidable (signal (apc a')) (signal (apc a))) as [Hlt|Hge]; [left; by apply F3|]. right. left. lia.
      * destruct F5 as [F5 F5']; [lia|]. right. left. specialize (F5' ltac:(lia)). lia.
    + intros Hi Hd. cbn [gintr gq s'] in Hi, Hd. assert (adone (gq s) = false) as Hd0 by (destruct (adone (gq s)); [by rewrite F1 in Hd|done]).
      specialize (L Hi Hd0). assert (forall c, 0 <= leaving c) as Lg by (by intros []). pose proof (wsum_in leaving _ _ _ Lg Ht).
      pose proof (W leaving) as Wl. pose proof (wsum_nonneg leaving (gws s') Lg). pose proof (Lg (apc a)).
      destruct (Z.le_gt_cases (leaving (apc a')) (leaving (apc a))) as [?|Hgt]; [lia|].
      destruct (F7 ltac:(lia)) as [?|?]; congruence.
  - split; try done.
Qed.

End Scan.

(** ** The linked machine *)

Section Linked.
Context {E : QueueEnv}.

Inductive scan_step : scan_t -> scan_t -> Prop :=
  | s_run t s s' : step t s = Some (Some s') -> scan_step s s'
  | s_interrupt s : interrupted s = false -> scan_step s (interrupt s).

Definition linked (s : scan_t) (gs : list ghost) (ql pl : list nat) : Prop :=
  parts (wq s) ql pl /\ Forall2 (holds (items (wq s))) (workers s) gs /\
  owned (items (wq s)) (ql ++ pl ++ flat_map hands gs) /\ unused (wq s).

Definition view (s : scan_t) (gs : list ghost) (ql : list nat) : gstate :=
  {| gq := abs_queue (wq s) ql; gws := zip_with (abs (items (wq s))) (workers s) gs; gintr := interrupted s; gtr := trace s |}.

Lemma holds_frame m m' w g : (forall x, x ∈ hands g -> m' !! x = m !! x) -> holds m w g -> holds m' w g /\ abs m' w g = abs m w g.
Proof using.
  intros F (H1 & H2 & H3 & H4). assert (forall o l, l ⊆ hands g -> chain m o l -> chain m' o l) as Fc
    by (intros o l Hl; apply chain_ext; intros x Hx; by apply F, Hl).
  unfold hands in *. split.
  - split; [eapply Fc; [|exact H1]; set_solver|]. split; [done|]. split; [done|].
    destruct (pc w); cbn [holds_pc] in *; try done; destruct H4 as (A & B & C); repeat split; try tauto; eapply Fc; try eassumption; set_solver.
  - unfold abs. f_equal. destruct (pc w); cbn [abs_pc]; try done; f_equal; apply nodes_frame; intros x Hx; apply F; set_solver.
Qed.

Lemma hands_split (gs : list ghost) t g : gs !! t = Some g -> flat_map hands gs ≡ₚ hands g ++ flat_map hands (delete t gs).
Proof using. intros H. by rewrite (delete_Permutation _ _ _ H) at 1. Qed.

Lemma delete_insert_list {A} (l : list A) (t : nat) x : delete t (<[t := x]> l) = delete t l.
Proof using. revert t. induction l as [|y l IH]; intros [|t]; cbn; [done..|]. f_equal. apply IH. Qed.

Lemma others_hands (gs : list ghost) (t j : nat) g x : gs !! j = Some g -> j <> t -> x ∈ hands g -> x ∈ flat_map hands (delete t gs).
Proof using.
  intros Hj Hne Hx. apply elem_of_flat_map. exists g. split; [|done]. apply list_elem_of_lookup.
  destruct (decide (j < t)%nat).
  - exists j. by rewrite list_lookup_delete_lt.
  - exists (pred j). rewrite list_lookup_delete_ge by lia. by replace (S (pred j)) with j by lia.
Qed.

(** Every step of the linked machine is one of the machine over lists. *)
Lemma step_sim t s gs ql pl : linked s gs ql pl ->
  (step t s = Some None /\ (forall w, workers s !! t = Some w -> blocked (interrupted s) w (wq s))) \/
  exists s' gs' ql' pl', step t s = Some (Some s') /\ linked s' gs' ql' pl' /\ gstep (view s gs ql) (view s' gs' ql').
Proof using.
  intros (P & H & O & U). unfold step. destruct (workers s !! t) as [w|] eqn:Ew; [|left; by split].
  destruct (Forall2_lookup_l _ _ _ _ _ H Ew) as (g & Eg & Hw).
  assert (part_of (wq s) ql pl w g (flat_map hands (delete t gs))) as HP.
  { split; [done|]. split; [done|]. split; [|done]. eapply owned_perm; [|exact O]. by rewrite (hands_split gs t g Eg). }
  destruct (wstep_simulates (interrupted s) _ _ _ _ _ _ HP) as [[R B]|([[w' q'] ev] & R & ql' & pl' & g' & (P' & Hw' & O' & U') & A & Fr)]; rewrite R; cbn [mbind option_bind].
  { left. split; [done|]. by intros ? [= <-]. }
  right. eexists _, (<[t := g']> gs), ql', pl'. split; [reflexivity|]. 
  assert (forall j wj gj, workers s !! j = Some wj -> gs !! j = Some gj -> j <> t -> holds (items q') wj gj /\ abs (items q') wj gj = abs (items (wq s)) wj gj) as Oth.
  { intros j wj gj Hj Hgj Hne. apply holds_frame; [|by eapply Forall2_lookup_lr]. intros x Hx. by eapply Fr, others_hands. }
  pose proof (lookup_lt_Some _ _ _ Ew) as Lw. pose proof (lookup_lt_Some _ _ _ Eg) as Lg.
  split; [split; [exact P'|split; [|split; [|exact U']]]|].
  - cbn [workers wq]. apply Forall2_same_length_lookup_2; [rewrite !length_insert; by eapply Forall2_length|].
    intros j wj gj Hj Hgj. destruct (decide (j = t)) as [->|Hne].
    + rewrite list_lookup_insert_eq in Hj by done. rewrite list_lookup_insert_eq in Hgj by done. by simplify_eq.
    + rewrite list_lookup_insert_ne in Hj by done. rewrite list_lookup_insert_ne in Hgj by done. by eapply Oth.
  - cbn [wq]. eapply owned_perm; [|exact O']. rewrite (hands_split (<[t := g']> gs) t g') by (by apply list_lookup_insert_eq). by rewrite delete_insert_list.
  - assert (view {| wq := q'; workers := <[t:=w']> (workers s); interrupted := interrupted s; trace := trace s ++ ev |} (<[t:=g']> gs) ql' =
      {| gq := abs_queue q' ql'; gws := <[t := abs (items q') w' g']> (gws (view s gs ql)); gintr := gintr (view s gs ql); gtr := gtr (view s gs ql) ++ ev |}) as ->.
    { unfold view. cbn [wq workers interrupted trace gintr gtr gws]. f_equal. apply list_eq. intros j. rewrite lookup_zip_with.
      destruct (decide (j = t)) as [->|Hne].
      - rewrite !list_lookup_insert_eq; [done|by rewrite length_zip_with, <- (Forall2_length _ _ _ H), Nat.min_id|done|done].
      - rewrite !list_lookup_insert_ne, lookup_zip_with by done. destruct (workers s !! j) as [wj|] eqn:Ej; [|done]. cbn.
        destruct (gs !! j) as [gj|] eqn:Egj; [|done]. cbn. f_equal. by eapply Oth. }
    eapply g_run; [|exact A]. cbn [view gws]. rewrite lookup_zip_with, Ew, Eg. done.
Qed.

(** ** The start *)

Lemma push_ok (p : nat) q ql : parts q ql [] -> owned (items q) ql -> unused q ->
  exists (b : bool) q', wq_push p q = Some (b, q') /\ pending q' = pending q /\ done q' = done q /\
    exists ql', parts q' ql' [] /\ owned (items q') ql' /\ unused q' /\
      map (node_at (items q')) ql' = map (node_at (items q)) ql ++ (if b then [p] else []) /\ zlen ql' = zlen ql + (if b then 1 else 0).
Proof using.
  intros P O U. pose proof P as (C1 & C2 & C3). cbn in C3. unfold wq_push, wip_alloc. rewrite C3. cbn [mbind option_bind]. unfold item_malloc.
  set (i := malloced q). destruct (item_alloc i).
  - cbn [items]. assert (items q !! i = None) as Hf by (apply U; unfold i; lia). 
    set (q1 := q <| items := <[i := junk i]> (items q) |> <| malloced := S i |>).
    assert (items q1 !! i = Some (junk i)) as Hi by apply lookup_insert_eq. rewrite Hi. cbn [mbind option_bind].
    set (m2 := <[i := {| node := p; next := None |}]> (items q1)). set (q2 := q1 <| items := m2 |>).
    assert (forall x, x <> i -> m2 !! x = items q !! x) as Em by (intros x Hx; unfold m2; cbn; by rewrite !lookup_insert_ne).
    assert (forall x, x ∈ ql -> x <> i) as Hne by (intros x Hx ->; destruct (wchain_in _ _ _ _ C1 Hx) as [it Hit]; by rewrite Hf in Hit).
    assert (parts q2 ql []) as P2 by (split; [eapply chain_ext; [|exact C1]; intros x Hx; by apply Em, Hne|by split]).
    assert (owned m2 ([i] ++ ql ++ [] ++ [])) as O2.
    { intros x. specialize (O x). counts. unfold inm in *. destruct (decide (i = x)) as [<-|Hx]; [unfold m2; rewrite lookup_insert_eq; rewrite Hf in O; lia|rewrite Em by done; lia]. }
    destruct (link_tail_ok q2 ql [] i [i] i [] P2) as (q' & S & R & HS & Re & P' & E1 & E2 & E3).
    { cbn. split; [done|]. eexists. unfold m2. rewrite lookup_insert_eq. by split. }
    { done. }
    { exact O2. }
    rewrite R. cbn [mbind option_bind]. exists true, q'. split; [done|]. split; [done|]. split; [done|]. exists (ql ++ [i]).
    split; [exact P'|]. split; [|split; [|split]].
    + eapply owned_relinks; [exact Re|]. eapply owned_perm; [|exact O2]. apply cnt_Permutation. intros x. counts. lia.
    + intros x Hx. rewrite E3 in Hx. cbn in Hx. pose proof (inm_relinks _ _ _ x Re) as I. unfold inm in I. cbn [items q2] in I.
      rewrite Em in I by (unfold i; lia). rewrite (U x) in I by (unfold i in *; lia). by destruct (items q' !! x).
    + rewrite (relinks_nodes _ _ _ _ Re), map_app. f_equal; [|cbn; unfold node_at, m2; by rewrite lookup_insert_eq].
      apply nodes_frame. intros x Hx. by apply Em, Hne.
    + rewrite zlen_app. done.
  - exists false. eexists. split; [reflexivity|]. split; [done|]. split; [done|]. exists ql. rewrite app_nil_r. split; [exact P|]. split; [exact O|].
    split; [intros x Hx; cbn in Hx; apply U; unfold i in Hx; lia|]. split; [done|lia].
Qed.

Lemma seed_ok dirs : forall ev q ql, parts q ql [] -> owned (items q) ql -> unused q -> pending q = zlen ql -> zlen ql + zlen dirs <= INT_MAX ->
  exists q' ev' ql', seed dirs ev q = Some (q', ev') /\ parts q' ql' [] /\ owned (items q') ql' /\ unused q' /\ pending q' = zlen ql' /\
    done q' = done q /\ scanned ev' = scanned ev /\
    map (node_at (items q')) ql' ++ lost ev' ≡ₚ map (node_at (items q)) ql ++ lost ev ++ dirs.
Proof using.
  induction dirs as [|p dirs IH]; intros ev q ql P O U Hp Hb; cbn [seed].
  - exists q, ev, ql. repeat (split; [done|]). by rewrite app_nil_r.
  - rewrite zlen_cons in Hb. pose proof (zlen_nonneg ql). pose proof (zlen_nonneg dirs). cbn [pending_add snd].
    set (q1 := q <| pending := _ |>). assert (pending q1 = zlen ql + 1) as Hp1.
    { cbn. rewrite Hp. apply i32_id. unfold INT_MIN, INT_MAX in *. lia. }
    destruct (push_ok p q1 ql P O U) as (b & q2 & R & E1 & E2 & ql2 & P2 & O2 & U2 & N2 & L2). rewrite R. cbn [mbind option_bind].
    change (items q1) with (items q) in N2. destruct b.
    + destruct (IH ev q2 ql2 P2 O2 U2) as (q' & ev' & ql' & R' & P' & O' & U' & Hp' & Hd & Hs & Pm); [lia|lia|].
      exists q', ev', ql'. split; [done|]. split; [done|]. split; [done|]. split; [done|]. split; [done|]. split; [rewrite Hd; exact E2|]. split; [done|].
      rewrite Pm, N2, <- !app_assoc. apply Permutation_app_head. cbn. by rewrite Permutation_middle.
    + set (q3 := q2 <| pending := _ |>). assert (pending q3 = zlen ql2) as Hp3.
      { cbn. rewrite E1, Hp1. rewrite i32_id; unfold INT_MIN, INT_MAX in *; lia. }
      destruct (IH (ev ++ [Skipped p]) q3 ql2 P2 O2 U2 Hp3) as (q' & ev' & ql' & R' & P' & O' & U' & Hp' & Hd & Hs & Pm); [lia|].
      exists q', ev', ql'. split; [done|]. split; [done|]. split; [done|]. split; [done|]. split; [done|]. split; [rewrite Hd; exact E2|].
      split; [rewrite Hs, scanned_app; apply app_nil_r|].
      rewrite Pm. change (items q3) with (items q2). rewrite N2, app_nil_r, lost_app, <- app_assoc. done.
Qed.

End Linked.

(** ** When all workers have finished *)

Section Finished.
Context {E : QueueEnv} (below : nat -> list nat) (roots : list nat).

Definition finished (s : scan_t) : Prop := Forall (fun w => pc w = Finished) (workers s).

Lemma finished_view s gs ql : finished s -> Forall2 (holds (items (wq s))) (workers s) gs ->
  Forall (fun a => apc a = AFinished) (gws (view s gs ql)) /\ flat_map hands gs = [].
Proof using.
  unfold finished, view. cbn [gws]. intros F H. induction H as [|w g ws gs (_ & _ & Hb & Hp) _ IH]; [split; [constructor|done]|].
  apply Forall_cons in F as [Hw F]. destruct (IH F) as [IH1 IH2]. cbn. rewrite Hw in Hb, Hp. specialize (Hb I). destruct Hp as [Hp1 Hp2].
  split; [constructor; [unfold abs; by rewrite Hw|exact IH1]|]. unfold hands at 1. by rewrite Hb, Hp1, Hp2.
Qed.

Lemma vsum_cnt x l : vsum (fun p => if decide (p = x) then 1 else 0) l = Z.of_nat (cnt x l).
Proof using. induction l as [|p l IH]; [done|]. rewrite vsum_cons, IH, cnt_cons. destruct (decide (p = x)); lia. Qed.

Lemma keeps_cnt s gs ql x : ginv below roots (view s gs ql) ->
  (cnt x (scanned (trace s)) + cnt x (flat_map below (lost (trace s))) <= cnt x (flat_map below roots))%nat /\
  (dirs (gq (view s gs ql)) = [] -> wsum (fun c => tot below (fun p => if decide (p = x) then 1 else 0) (owes c)) (gws (view s gs ql)) = 0 ->
   (cnt x (scanned (trace s)) + cnt x (flat_map below (lost (trace s))) = cnt x (flat_map below roots))%nat).
Proof using.
  intros I. pose proof (i_keeps _ _ _ I (fun p => if decide (p = x) then 1 else 0)) as K. unfold seen, tot in K. rewrite !vsum_cnt in K. cbn [gtr view] in K.
  assert (forall c, 0 <= tot below (fun p => if decide (p = x) then 1 else 0) (owes c)) as N by (intros c; unfold tot; rewrite vsum_cnt; lia).
  split.
  - pose proof (wsum_nonneg _ (gws (view s gs ql)) N) as W. unfold tot in W. cbn beta in W. lia.
  - intros Hd Hw. unfold tot in Hw. rewrite Hd, Hw in K. cbn [flat_map] in K. change (cnt x []) with 0%nat in K. lia.
Qed.

Hypothesis Hbelow : forall p, below p = p :: flat_map below (subdirs p).
Hypothesis Hbound : zlen (flat_map below roots) <= INT_MAX.

(** Nothing is left in the queue of a scan that was not interrupted. *)
Lemma finished_empty s gs ql pl : linked s gs ql pl -> ginv below roots (view s gs ql) -> (workers s = [] -> pending (wq s) = 0) ->
  finished s -> interrupted s = false -> ql = [].
Proof using Hbelow Hbound.
  intros (_ & H & _) I W F Hi. destruct (finished_view s gs ql F H) as [Fa _].
  assert (total (view s gs ql) = 0) as T.
  { destruct (workers s) as [|w ws] eqn:Ew; [rewrite <- (i_pending _ _ _ I); by apply W|].
    apply (i_done _ _ _ I). left. destruct (adone (gq (view s gs ql))) eqn:Ed; [done|]. exfalso.
    pose proof (i_leaving _ _ _ I Hi Ed) as L. destruct (gws (view s gs ql)) as [|a l] eqn:Eg.
    - unfold view in Eg. cbn in Eg. rewrite Ew in Eg. inversion H; subst. done.
    - apply Forall_cons in Fa as [Ha _]. assert (forall c, 0 <= leaving c) as Lg by (by intros []).
      pose proof (wsum_in leaving (a :: l) 0 a Lg eq_refl) as Wi. rewrite L, Ha in Wi. cbn in Wi. lia. }
  unfold total in T. pose proof (wsum_nonneg share (gws (view s gs ql)) share_nonneg).
  assert (zlen (dirs (gq (view s gs ql))) = 0) as Hd by (pose proof (zlen_nonneg (dirs (gq (view s gs ql)))); lia).
  cbn in Hd. unfold zlen in Hd. rewrite length_map in Hd. destruct ql; [done|cbn in Hd; lia].
Qed.

End Finished.

(** Not all workers wait: then nothing would be pending, and the last of them
    would have signalled. *)
Lemma waiting_impossible `{E : QueueEnv} below roots s gs ql pl : parts (wq s) ql pl -> Forall2 (holds (items (wq s))) (workers s) gs ->
  ginv below roots (view s gs ql) -> waits (interrupted s) (wq s) = true -> workers s <> [] ->
  (forall j w, workers s !! j = Some w -> pc w = Popping \/ pc w = NoPopping \/ pc w = Finished) -> False.
Proof.
  intros P F2 I Ew Hne Bl. unfold waits in Ew. destruct (head (wq s)) eqn:Eh; [done|]. apply andb_true_iff in Ew as [Ed Ei].
  apply negb_true_iff in Ed, Ei. destruct P as (P & _). destruct ql as [|i l]; [|cbn in P; destruct P; congruence].
  assert (Forall (fun a => apc a = APopping \/ apc a = ANoPopping \/ apc a = AFinished) (gws (view s gs []))) as Fa.
  { apply Forall_lookup. intros j a Hj. cbn [view gws] in Hj. rewrite lookup_zip_with in Hj.
    destruct (workers s !! j) as [w|] eqn:Ej; [|done]. destruct (gs !! j) as [g|]; [|done]. cbn in Hj. injection Hj as <-. unfold abs. cbn [apc aworker].
    destruct (Bl j w Ej) as [-> |[-> | ->]]; cbn; tauto. }
  assert (forall f, f APopping = 0 -> f ANoPopping = 0 -> f AFinished = 0 -> wsum f (gws (view s gs [])) = 0) as W0.
  { intros f H1 H2 H3. apply wsum_const. eapply Forall_impl; [exact Fa|]. cbn. intros a [-> |[-> | ->]]; done. }
  assert (total (view s gs []) = 0) as T by (unfold total; rewrite (W0 share) by done; done).
  destruct (i_quiet _ _ _ I T) as [Q|[Q|Q]]; [cbn in Q; congruence|rewrite (W0 signal) in Q by done; lia|].
  unfold view in Q. cbn [gws] in Q. inversion F2 as [E1 E2|? ? ? ? ? ? E1 E2]; [by rewrite <- E1 in Hne|]. by rewrite <- E1, <- E2 in Q.
Qed.

(** ** Runs *)

Section Runs.
Context {E : QueueEnv} (below : nat -> list nat) (Hbelow : forall p, below p = p :: flat_map below (subdirs p)).
Variables (roots : list nat) (n : nat).
Hypothesis Hbound : zlen (flat_map below roots) <= INT_MAX.
Hypothesis Hn : (0 < n)%nat.

Definition no_items : ghost := {| lf := []; fr := []; li := [] |}.

Lemma start_ok : exists s0 gs ql, scan_start roots n = Some s0 /\ linked s0 gs ql [] /\ ginv below roots (view s0 gs ql) /\
  (workers s0 = [] -> pending (wq s0) = 0) /\ (length (workers s0) <= n)%nat /\ wsum (cost below) (gws (view s0 gs ql)) <= 3 * Z.of_nat n /\
  Forall (fun a => spare a = 0%nat) (gws (view s0 gs ql)) /\ interrupted s0 = false.
Proof using Hbelow Hbound Hn.
  pose proof (weight_len below Hbelow roots) as Hw. rewrite weight_zlen in Hw.
  destruct (seed_ok roots [] wq_init []) as (q & ev & ql & R & P & O & U & Hp & Hd & Hs & Pm); try done.
  { change (zlen []) with 0. lia. }
  unfold scan_start. rewrite R. cbn [mbind option_bind]. set (ws := if pending q =? 0 then [] else map new_worker (seq 0 n)).
  set (gs := map (fun _ => no_items) ws). exists {| wq := q; workers := ws; interrupted := false; trace := ev |}, gs, ql. split; [done|].
  assert (Forall (fun w => (pc w = Top \/ pc w = NoTop) /\ lfl w = {| l_head := None; l_count := 0 |}) ws) as Fw.
  { unfold ws. destruct (pending q =? 0); [constructor|]. apply Forall_map, Forall_forall. intros i _. unfold new_worker. cbn. destruct (engine_ok i); tauto. }
  assert (Forall (fun a => (apc a = ATop \/ apc a = ANoTop) /\ spare a = 0%nat) (gws (view {| wq := q; workers := ws; interrupted := false; trace := ev |} gs ql))) as Fa.
  { unfold view, gs. cbn [gws workers wq]. induction Fw as [|w l [Hpc _] _ IH]; [constructor|]. cbn. constructor; [|exact IH].
    unfold abs. destruct Hpc as [Hpc|Hpc]; rewrite Hpc; cbn; tauto. }
  assert (flat_map hands gs = []) as Eh by (unfold gs; clear; by induction ws).
  assert (forall f, f ATop = 0 -> f ANoTop = 0 -> wsum f (gws (view {| wq := q; workers := ws; interrupted := false; trace := ev |} gs ql)) = 0) as W0.
  { intros f H1 H2. apply wsum_const. eapply Forall_impl; [exact Fa|]. cbn. by intros a [[-> | ->] _]. }
  assert (zlen ql <= zlen roots) as Hql.
  { apply Permutation_length in Pm. rewrite !length_app, length_map in Pm. unfold zlen. cbn in Pm. lia. }
  split; [split; [exact P|split; [|split; [|exact U]]]|split].
  - unfold gs. cbn [workers wq]. clear -Fw. induction Fw as [|w l [Hpc Hl] _ IH]; cbn; constructor; [|exact IH]. unfold holds. rewrite Hl.
    destruct Hpc as [Hpc|Hpc]; rewrite Hpc; cbn; split_and!; try done; lia.
  - rewrite Eh, !app_nil_r. exact O.
  - pose proof (W0 behind eq_refl eq_refl) as W1. pose proof (W0 share eq_refl eq_refl) as W2. pose proof (W0 signal eq_refl eq_refl) as W3.
    pose proof (W0 leaving eq_refl eq_refl) as W4.
    split; cbn [gq abs_queue dirs apending adone gtr view gintr trace wq interrupted]; unfold total; rewrite ?W1, ?W2, ?W3, ?W4; cbn [gq abs_queue dirs view wq].
    + intros val. pose proof (W0 (fun c => tot below val (owes c)) eq_refl eq_refl) as W5. cbn beta in W5. rewrite W5. unfold seen. rewrite Hs.
      change (vsum val (scanned [])) with 0. cbn [map] in Pm. rewrite (tot_perm below val roots (map (node_at (items q)) ql ++ lost ev)) by (by rewrite Pm).
      rewrite tot_app. cbn [wq]. lia.
    + cbn [wq]. rewrite Hp. unfold zlen. rewrite length_map. lia.
    + rewrite Hs. unfold zlen; cbn; lia.
    + eapply Forall_impl; [exact Fa|]. cbn. intros a [Ha Hsp]. unfold busy_ok. rewrite Hsp. split; [lia|]. by destruct Ha as [-> | ->].
    + intros [H|H]; [|lia]. cbn [wq] in H. rewrite Hd in H. done.
    + intros H. right. right. cbn [wq] in H. unfold gws, view, gs. cbn [workers wq]. unfold ws. 
      destruct (Z.eqb_spec (pending q) 0) as [|Hne]; [done|]. exfalso. apply Hne. rewrite Hp. unfold zlen in *. rewrite length_map in H. lia.
    + done.
  - cbn [workers wq interrupted]. split; [|split; [|split; [|split; [|done]]]].
    + unfold ws. destruct (Z.eqb_spec (pending q) 0); [done|]. intros Hm. apply map_eq_nil in Hm. destruct n; [lia|done].
    + unfold ws. destruct (pending q =? 0); [cbn; lia|]. rewrite length_map, length_seq. lia.
    + assert (length ws <= n)%nat as Hl by (unfold ws; destruct (pending q =? 0); [cbn; lia|]; rewrite length_map, length_seq; lia).
      assert (length (gws (view {| wq := q; workers := ws; interrupted := false; trace := ev |} gs ql)) <= n)%nat as Hl'.
      { unfold view, gs. cbn [gws workers wq]. rewrite length_zip_with. lia. }
      revert Hl'. generalize (gws (view {| wq := q; workers := ws; interrupted := false; trace := ev |} gs ql)) Fa. intros l Fl Hl'.
      enough (wsum (cost below) l <= 3 * zlen l) by (unfold zlen in *; lia). clear -Fl. unfold wsum.
      induction Fl as [|a l [Ha _] _ IH]; [done|]. cbn [map zsum]. rewrite zlen_cons. destruct Ha as [-> | ->]; cbn [cost]; lia.
    + eapply Forall_impl; [exact Fa|]. by intros a [_ ?].
Qed.

(** What holds after [k] steps. *)
Lemma run_ok s0 : scan_start roots n = Some s0 -> forall k s, nsteps scan_step k s0 s ->
  exists gs ql pl, linked s gs ql pl /\ ginv below roots (view s gs ql) /\ (workers s = [] -> pending (wq s) = 0) /\
    Z.of_nat k + total_cost below (view s gs ql) <= 70 * zlen (flat_map below roots) + 3 * Z.of_nat n + 1.
Proof using Hbelow Hbound Hn.
  intros Hs0 k s R. destruct start_ok as (s0' & gs0 & ql0 & Hs0' & L0 & I0 & W0 & Len & C0 & Sp & Hi). rewrite Hs0 in Hs0'. injection Hs0' as <-.
  enough (exists gs ql pl, linked s gs ql pl /\ ginv below roots (view s gs ql) /\ (workers s = [] -> pending (wq s) = 0) /\
    Z.of_nat k + total_cost below (view s gs ql) <= total_cost below (view s0 gs0 ql0)) as (gs & ql & pl & A & B & C & D).
  { exists gs, ql, pl. split; [done|]. split; [done|]. split; [done|]. etrans; [exact D|]. unfold total_cost, qcost.
    assert (zsum (map (wcost below) (gws (view s0 gs0 ql0))) <= 3 * Z.of_nat n) as Hc.
    { etrans; [|exact C0]. unfold wsum. clear -Sp. induction Sp as [|a l Ha _ IH]; cbn [map zsum]; [done|]. unfold wcost at 1. rewrite Ha. lia. }
    pose proof (i_keeps _ _ _ I0 one) as K. unfold seen in K. fold (weight below (lost (gtr (view s0 gs0 ql0)))) in K.
    fold (weight below (dirs (gq (view s0 gs0 ql0)))) in K. fold (weight below roots) in K. pose proof (weight_nonneg below (lost (gtr (view s0 gs0 ql0)))).
    rewrite vsum_one in K. pose proof (zlen_nonneg (scanned (gtr (view s0 gs0 ql0)))). pose proof (zlen_nonneg (dirs (gq (view s0 gs0 ql0)))).
    assert (0 <= wsum (fun c => tot below one (owes c)) (gws (view s0 gs0 ql0))) by (apply wsum_nonneg; intros c; apply (weight_nonneg below (owes c))).
    rewrite (weight_zlen below roots) in K. destruct (gintr (view s0 gs0 ql0)); lia. }
  clear Hs0 C0 Sp Hi Len. revert R L0 I0 W0. revert s0 gs0 ql0. generalize (@nil nat) at 1. revert k s.
  intros k s pl0 s0 gs0 ql0 R. revert pl0 gs0 ql0. induction R as [s|k s s1 s2 St R IH]; intros pl0 gs0 ql0 L0 I0 W0.
  - exists gs0, ql0, pl0. repeat (split; [done|]). lia.
  - assert (exists gs1 ql1 pl1, linked s1 gs1 ql1 pl1 /\ gstep (view s gs0 ql0) (view s1 gs1 ql1) /\ (workers s1 = [] -> pending (wq s1) = 0))
      as (gs1 & ql1 & pl1 & L1 & G1 & W1).
    { destruct St as [t s s1 Hst|s Hi].
      - destruct (step_sim t s gs0 ql0 pl0 L0) as [[E1 _]|(s1' & gs1 & ql1 & pl1 & E1 & L1 & G1)]; [congruence|].
        rewrite Hst in E1. injection E1 as <-. exists gs1, ql1, pl1. split; [done|]. split; [done|].
        unfold step in Hst. destruct (workers s !! t) as [w|] eqn:Ew; [|done]. 
        destruct (wstep _ _ _) as [[[[w' q'] ev]|]|]; cbn in Hst; try done. injection Hst as <-. cbn. intros Hm.
        apply (f_equal length) in Hm. rewrite length_insert in Hm. apply lookup_lt_Some in Ew. cbn in Hm. lia.
      - exists gs0, ql0, pl0. split; [exact L0|]. split; [|exact W0]. by apply (g_interrupt (view s gs0 ql0)). }
    pose proof (gstep_cost below Hbelow _ _ G1 (i_busy _ _ _ I0)) as Hc.
    assert (weight below roots <= INT_MAX) as Hb by (by rewrite weight_zlen).
    destruct (IH pl1 gs1 ql1 L1 (gstep_inv below Hbelow roots Hb _ _ G1 I0) W1) as (gs & ql & pl & A & B & C & D).
    exists gs, ql, pl. repeat (split; [done|]). lia.
Qed.

End Runs.

(** ** The claims *)

Section Claims.
Context {E : QueueEnv}.

(** The directories at and below a directory, all different, as many as [pending] can count. *)
Definition tree_of (below : nat -> list nat) (roots : list nat) : Prop :=
  (forall p, below p = p :: flat_map below (subdirs p)) /\ NoDup (flat_map below roots) /\ zlen (flat_map below roots) <= INT_MAX.

(** C21. Scanning in parallel loses no directory and scans none twice. Whatever
    the number of workers and the order of their steps, and wherever allocations
    or engines fail or the user interrupts: no directory is scanned or given up
    twice, and only directories of the tree are; and when all workers have
    finished without an interruption, every directory of the tree was scanned
    except those at and below one that was skipped for want of memory or taken by
    a worker without an engine. *)
Theorem scanned_exactly_once (below : nat -> list nat) (roots : list nat) (n : nat) (s0 s : scan_t)
    (Htree : tree_of below roots) (Hn : (0 < n)%nat) (Hs0 : scan_start roots n = Some s0) (Hrun : rtc scan_step s0 s) :
  NoDup (scanned (trace s) ++ lost (trace s)) /\ scanned (trace s) ++ lost (trace s) ⊆ flat_map below roots /\
  (finished s -> interrupted s = false -> scanned (trace s) ++ flat_map below (lost (trace s)) ≡ₚ flat_map below roots).
Proof.
  destruct Htree as (Hb & Hnd & Hbound). apply rtc_nsteps in Hrun as [k Hrun].
  destruct (run_ok below Hb roots n Hbound Hn s0 Hs0 k s Hrun) as (gs & ql & pl & L & I & W & _).
  assert (forall x l, (cnt x l <= cnt x (flat_map below l))%nat) as Hle.
  { intros x l. induction l as [|p l IH]; [done|]. cbn [flat_map]. rewrite Hb, cnt_cons, <- app_comm_cons, cnt_cons, cnt_app. lia. }
  assert (forall x, (cnt x (scanned (trace s) ++ lost (trace s)) <= cnt x (flat_map below roots))%nat) as Hc.
  { intros x. rewrite cnt_app. pose proof (proj1 (keeps_cnt below roots s gs ql x I)). specialize (Hle x (lost (trace s))). lia. }
  pose proof (proj1 (NoDup_count_occ Nat.eq_dec _) (proj1 (NoDup_ListNoDup _) Hnd)) as Hcnt.
  split; [|split].
  - apply NoDup_ListNoDup, (NoDup_count_occ Nat.eq_dec). intros x. etrans; [apply Hc|apply Hcnt].
  - intros x Hx. apply cnt_in in Hx. destruct (decide (x ∈ flat_map below roots)) as [|Hne]; [done|]. apply cnt_notin in Hne. specialize (Hc x). lia.
  - intros F Hi. pose proof (finished_empty below roots Hb Hbound s gs ql pl L I W F Hi) as ->.
    destruct L as (_ & H & _). destruct (finished_view s gs [] F H) as [Fa _].
    apply cnt_Permutation. intros x. rewrite cnt_app. apply (keeps_cnt below roots s gs [] x I); [done|].
    apply wsum_const. eapply Forall_impl; [exact Fa|]. cbn. by intros a ->.
Qed.

(** C22. The scan ends. With memory for the counter of directories, it starts; and
    in every order of steps no step of a worker dereferences an item that is not
    allocated, there are at most a fixed number of steps for every directory and
    worker, and as long as not all workers have finished one of them can step: the
    last one to finish a directory wakes the others. *)
Theorem scan_ends (below : nat -> list nat) (roots : list nat) (n : nat) (Htree : tree_of below roots) (Hn : (0 < n)%nat) :
  exists s0, scan_start roots n = Some s0 /\ forall k s, nsteps scan_step k s0 s ->
    Z.of_nat k <= 70 * zlen (flat_map below roots) + 3 * Z.of_nat n + 1 /\
    (forall t, step t s <> None) /\ ((forall t, step t s = Some None) -> finished s).
Proof.
  destruct Htree as (Hb & Hnd & Hbound). destruct (start_ok below Hb roots n Hbound Hn) as (s0 & gs0 & ql0 & Hs0 & _).
  exists s0. split; [done|]. intros k s Hrun. destruct (run_ok below Hb roots n Hbound Hn s0 Hs0 k s Hrun) as (gs & ql & pl & L & I & W & C).
  pose proof (total_cost_nonneg below Hb (view s gs ql)). split; [lia|]. split.
  - intros t. destruct (step_sim t s gs ql pl L) as [[-> _]|(? & ? & ? & ? & -> & _)]; done.
  - intros Hstuck. assert (forall t w, workers s !! t = Some w -> blocked (interrupted s) w (wq s)) as Bl.
    { intros t w Hw. destruct (step_sim t s gs ql pl L) as [[_ Hbl]|(? & ? & ? & ? & E1 & _)]; [by apply Hbl|by rewrite Hstuck in E1]. }
    destruct L as (P & F2 & _). apply Forall_lookup. intros t w Hw. destruct (Bl t w Hw) as [|[_ Ew]]; [done|]. exfalso.
    apply (waiting_impossible below roots s gs ql pl P F2 I Ew); [by intros E0; rewrite E0 in Hw|]. intros j v Hj.
    destruct (Bl j v Hj) as [|[[|] _]]; auto.
Qed.

(** The memory of the queue is given back exactly once: when all workers have
    finished, interrupted or not, wq_destroy releases the items left in the queue
    and those of the pool without meeting one that is not allocated, and no item
    is left, since the workers have returned theirs. *)
Theorem items_released (below : nat -> list nat) (roots : list nat) (n : nat) (s0 s : scan_t)
    (Htree : tree_of below roots) (Hn : (0 < n)%nat) (Hs0 : scan_start roots n = Some s0) (Hrun : rtc scan_step s0 s) (Hfin : finished s) :
  exists q, wq_destroy (wq s) = Some q /\ items q = ∅.
Proof.
  destruct Htree as (Hb & Hnd & Hbound). apply rtc_nsteps in Hrun as [k Hrun].
  destruct (run_ok below Hb roots n Hbound Hn s0 Hs0 k s Hrun) as (gs & ql & pl & ((P1 & P2 & P3) & H & O & U) & _).
  destruct (finished_view s gs ql Hfin H) as [_ Eh]. rewrite Eh, app_nil_r in O.
  unfold wq_destroy. destruct (free_items_ok (size (items (wq s))) (head (wq s)) (wq s) ql pl P1 O) as (q1 & -> & O1 & E1 & F1).
  { rewrite (owned_size _ _ O), length_app. lia. }
  cbn [mbind option_bind]. unfold wip_destroy. rewrite E1.
  destruct (free_items_ok (size (items q1)) (free_list (wq s)) q1 pl []) as (q2 & -> & O2 & _).
  { eapply chain_ext; [|exact P3]. intros x Hx. apply F1. by apply (owned_disjoint (items (wq s)) pl ql); [eapply owned_perm; [apply Permutation_app_comm|]|]. }
  { by rewrite app_nil_r. }
  { by rewrite (owned_size _ _ O1). }
  exists q2. split; [done|]. apply map_empty. intros x. specialize (O2 x). unfold inm in O2. rewrite cnt_nil in O2. by destruct (items q2 !! x).
Qed.

End Claims.

(** ** Examples *)

(** The workers that step, in order; those that cannot are passed over. *)
Fixpoint exec `{E : QueueEnv} (ts : list nat) (s : scan_t) : option scan_t :=
  match ts with
  | [] => Some s
  | t :: ts => match step t s with None => None | Some None => exec ts s | Some (Some s') => exec ts s' end
  end.

Lemma exec_run `{E : QueueEnv} ts : forall s s', exec ts s = Some s' -> rtc scan_step s s'.
Proof.
  induction ts as [|t ts IH]; intros s s'; cbn [exec]; [by intros [= <-]|]. destruct (step t s) as [[s1|]|] eqn:Es; [|by apply IH|done].
  intros H. eapply rtc_l; [by eapply s_run|by apply IH].
Qed.

Definition finished_b (s : scan_t) : bool := forallb (fun w => match pc w with Finished => true | _ => false end) (workers s).
Lemma finished_b_ok s : finished_b s = true -> finished s.
Proof.
  unfold finished_b, finished. intros H. apply Forall_forall. intros w Hw. rewrite forallb_forall in H. specialize (H w (proj1 (list_elem_of_In _ _) Hw)).
  by destruct (pc w).
Qed.

Definition demo_subdirs (p : nat) : list nat := match p with 1 => [3; 4] | 3 => [5] | _ => [] end%nat.
Definition demo_below (p : nat) : list nat := match p with 1 => [1; 3; 5; 4] | 3 => [3; 5] | _ => [p] end%nat.
Definition demo_env (engine : nat -> bool) : QueueEnv :=
  {| item_alloc := fun _ => true; junk := fun _ => {| node := 0; next := None |}; subdirs := demo_subdirs; engine_ok := engine |}.

Definition two_workers (k : nat) : list nat := flat_map (fun _ => [0; 0; 1]%nat) (seq 0 k).

Lemma demo_tree_of engine : tree_of (E := demo_env engine) demo_below [1; 2]%nat.
Proof. split; [by intros [|[|[|[|p]]]]|]. split; [|done]. by apply (bool_decide_unpack _). Qed.

(** The final state of a run with two workers. *)
Definition demo_start : scan_t := default {| wq := wq_init; workers := []; interrupted := false; trace := [] |} (scan_start (E := demo_env (fun _ => true)) [1; 2]%nat 2).
Definition demo_end : scan_t := default demo_start (exec (E := demo_env (fun _ => true)) (two_workers 40) demo_start).

Lemma scanned_exactly_once_witness :
  finished demo_end /\ NoDup (scanned (trace demo_end) ++ lost (trace demo_end)) /\
  scanned (trace demo_end) ++ lost (trace demo_end) ⊆ flat_map demo_below [1; 2]%nat /\
  (finished demo_end -> interrupted demo_end = false ->
   scanned (trace demo_end) ++ flat_map demo_below (lost (trace demo_end)) ≡ₚ flat_map demo_below [1; 2]%nat).
Proof.
  split; [apply finished_b_ok; vm_compute; reflexivity|].
  apply (scanned_exactly_once (E := demo_env (fun _ => true)) demo_below [1; 2]%nat 2 demo_start demo_end).
  - apply demo_tree_of.
  - lia.
  - vm_compute. reflexivity.
  - apply (exec_run (E := demo_env (fun _ => true)) (two_workers 40)). vm_compute. reflexivity.
Defined.

Lemma scan_ends_witness : exists s0, scan_start (E := demo_env (fun _ => true)) [1; 2]%nat 2 = Some s0 /\
  forall k s, nsteps (scan_step (E := demo_env (fun _ => true))) k s0 s ->
    Z.of_nat k <= 70 * 5 + 3 * 2 + 1 /\
    (forall t, step (E := demo_env (fun _ => true)) t s <> None) /\ ((forall t, step (E := demo_env (fun _ => true)) t s = Some None) -> finished s).
Proof.
  apply (scan_ends (E := demo_env (fun _ => true)) demo_below [1; 2]%nat 2).
  - apply demo_tree_of.
  - lia.
Defined.

Lemma items_released_witness : size (items (wq demo_end)) = 2%nat /\ exists q, wq_destroy (wq demo_end) = Some q /\ items q = ∅.
Proof.
  split; [vm_compute; reflexivity|].
  apply (items_released (E := demo_env (fun _ => true)) demo_below [1; 2]%nat 2 demo_start demo_end).
  - apply demo_tree_of.
  - lia.
  - vm_compute. reflexivity.
  - apply (exec_run (E := demo_env (fun _ => true)) (two_workers 40)). vm_compute. reflexivity.
  - apply finished_b_ok. vm_compute. reflexivity.
Defined.

(** A worker whose engine could not be created takes directories out of the
    queue and forgets them: 1 and all below it are missing from the output, no
    message names them, and the exit status is 0. *)
Example engineless_worker_drops :
  (fun s => (trace s, finished_b s)) <$>
    (s0 ← scan_start (E := demo_env (fun i => (i =? 1)%nat)) [1; 2]%nat 2;
     exec (E := demo_env (fun i => (i =? 1)%nat)) ([0; 0; 0] ++ flat_map (fun _ => [1; 0])%nat (seq 0 40))%nat s0)
  = Some ([Dropped 1; Scanned 2]%nat, true).
Proof. vm_compute. reflexivity. Qed.
