(* ===== verification/TreeBatch.v ===== *)
(** * atree: scanning a batch of directories

    [atree.c] 604-627, 756-789 and 838-1022: process_dir_batch with its three
    kinds of completion. The file system ([open_result], [dents], [stat_result])
    and the engine (which submissions it accepts, what each poll or wait
    completes, and when the user interrupts) are the class [BatchEnv]; an entry
    of a directory is a record, not bytes. *)
From Stdlib Require Import ZArith Lia List String Ascii.
From stdpp Require Import base tactics strings list gmap.
From S2P Require Import Prelude CStrings TreeFormat TreeVisited TreeNodes TreePrint.

#[local] Open Scope Z_scope.

(** ** Data *)

Record dirent_t := { d_name : string; d_type : Z }.
Definition DT_UNKNOWN : Z := 0.
Definition DT_DIR : Z := 4.
Definition PATH_MAX : Z := 4096.
Definition AT_FDCWD : Z := -100.

(** Operations in flight: an open for the [i]th directory of the batch, a statx
    for a node, a close. *)
Inductive op := OpOpen (i : nat) (path : string) | OpStat (c : nat) (dirfd : Z) (path : string) | OpClose (fd : Z).

Class BatchEnv := {
  open_result : string -> Z;
  dents : Z -> list (list dirent_t);
  stat_result : Z -> string -> statx_t + Z;
  makedev : Z -> Z -> Z;
  accepts : nat -> bool;
  delivers : nat -> list nat;
  sigint_at : nat -> bool
}.

(** The tree, the visited set, the descriptors of the batch ([octxs[i].fd]), the
    three counters, what is in flight, and the descriptors that were closed.
    [calls] numbers the submissions, [turns] the polls, waits and checks of the
    interruption. *)
Record batch_t := {
  b_heap : heap_t; b_visited : visited_set_t; fds : list Z;
  o_remaining : Z; s_remaining : Z; c_remaining : Z;
  flight : list op; closed : list Z; calls : nat; turns : nat
}.
Definition batch_eta (r : batch_t) : batch_t :=
  {| b_heap := b_heap r; b_visited := b_visited r; fds := fds r; o_remaining := o_remaining r; s_remaining := s_remaining r;
     c_remaining := c_remaining r; flight := flight r; closed := closed r; calls := calls r; turns := turns r |}.
#[export] Instance bset_b_heap : Setter b_heap := ltac:(mk_setter batch_eta).
#[export] Instance bset_b_visited : Setter b_visited := ltac:(mk_setter batch_eta).
#[export] Instance bset_fds : Setter fds := ltac:(mk_setter batch_eta).
#[export] Instance bset_o_remaining : Setter o_remaining := ltac:(mk_setter batch_eta).
#[export] Instance bset_s_remaining : Setter s_remaining := ltac:(mk_setter batch_eta).
#[export] Instance bset_c_remaining : Setter c_remaining := ltac:(mk_setter batch_eta).
#[export] Instance bset_flight : Setter flight := ltac:(mk_setter batch_eta).
#[export] Instance bset_closed : Setter closed := ltac:(mk_setter batch_eta).
#[export] Instance bset_calls : Setter calls := ltac:(mk_setter batch_eta).
#[export] Instance bset_turns : Setter turns := ltac:(mk_setter batch_eta).

Section Batch.
Context {T : TreeEnv} {E : BatchEnv} (config : config_t).
Implicit Types (s : batch_t) (h : heap_t).

(** ** Completions *)

(** What statx reports about a node. *)
Definition stat_node (r : statx_t + Z) (n : tree_node_t) : tree_node_t :=
  match r with
  | inl stx => n <| st := stx |> <| is_dir := is_type (stx_mode stx) S_IFDIR |>
  | inr e => n <| stat_err := e |>
  end.

Definition on_statx_complete (c : nat) (r : statx_t + Z) s : batch_t :=
  s <| b_heap := upd (b_heap s) c (stat_node r) |> <| s_remaining := s_remaining s - 1 |>.

Definition on_openat_complete (i : nat) (result : Z) s : batch_t :=
  s <| fds := <[i := result]> (fds s) |> <| o_remaining := o_remaining s - 1 |>.

Definition on_close_complete s : batch_t := s <| c_remaining := c_remaining s - 1 |>.

(** The kernel does an operation and its callback runs. *)
Definition complete (o : op) s : batch_t :=
  match o with
  | OpOpen i path => on_openat_complete i (open_result path) s
  | OpStat c fd path => on_statx_complete c (stat_result fd path) s
  | OpClose fd => on_close_complete (s <| closed := closed s ++ [fd] |>)
  end.

Fixpoint deliver (l : list nat) s : Z * batch_t :=
  match l with
  | [] => (0, s)
  | k :: l =>
      match flight s !! k with
      | Some o => let '(n, s) := deliver l (complete o (s <| flight := delete k (flight s) |>)) in (n + 1, s)
      | None => deliver l s
      end
  end.

(** [aura_poll] or [aura_wait]: the operations it completes, and how many. *)
Definition turn s : Z * batch_t := deliver (delivers (turns s)) (s <| turns := S (turns s) |>).

Definition g_interrupted s : bool := sigint_at (turns s).

(** [while (remaining > 0 && !g_interrupted)]; [None] when the fuel is spent. *)
Fixpoint drain (fuel : nat) (remaining : batch_t -> Z) s : option batch_t :=
  if (0 <? remaining s) && negb (g_interrupted s) then
    match fuel with
    | O => None
    | S fuel =>
        let '(n, s) := turn s in
        let s := if n =? 0 then snd (turn s) else s in
        drain fuel remaining s
    end
  else Some s.

(** Submitting: whether the engine takes the operation. *)
Definition submit (o : op) s : bool * batch_t :=
  let ok := accepts (calls s) in
  (ok, (if ok then s <| flight := flight s ++ [o] |> else s) <| calls := S (calls s) |>).

(** ** Phase 1: opening the directories *)

Definition open_dir (i : nat) (p : nat) s : option batch_t :=
  n ← nodes (b_heap s) !! p;
  let s := s <| fds := <[i := -1]> (fds s) |> in
  if (0 <=? max_depth config) && (max_depth config <=? depth n) then Some s
  else
    let dev := makedev (stx_dev_major (st n)) (stx_dev_minor (st n)) in
    let '(fresh, vs) := visited_insert (b_visited s) (dev, stx_ino (st n)) in
    let s := s <| b_visited := vs |> in
    if negb fresh then Some s
    else
      let s := s <| o_remaining := o_remaining s + 1 |> in
      let '(ok, s) := submit (OpOpen i (full_path n)) s in
      if ok then Some s
      else
        let fd := open_result (full_path n) in
        Some (s <| o_remaining := o_remaining s - 1 |> <| fds := <[i := if 0 <=? fd then fd else -1]> (fds s) |>).

Fixpoint open_dirs (i : nat) (dirs : list nat) s : option batch_t :=
  match dirs with
  | [] => Some s
  | p :: dirs => s ← open_dir i p s; open_dirs (S i) dirs s
  end.

(** ** Phase 2: reading the directories *)

(** The entries that do not become nodes. *)
Definition skip_entry (de : dirent_t) : bool :=
  match d_name de with
  | String "."%char rest =>
      match rest with
      | EmptyString => true
      | String "."%char EmptyString => true
      | _ => negb (show_hidden config)
      end
  | _ => false
  end || (dirs_only config && negb (d_type de =? DT_DIR) && negb (d_type de =? DT_UNKNOWN)).

Definition read_entry (p : nat) (de : dirent_t) h : option heap_t :=
  n ← nodes h !! p;
  if skip_entry de then Some h
  else if PATH_MAX <=? strlen (full_path n) + 1 + strlen (d_name de) then Some h
  else
    match node_create (d_name de) (full_path n ++ String "/" (d_name de)) h with
    | (None, h) => Some h
    | (Some c, h) =>
        let h := upd h c (fun m => m <| depth := depth n + 1 |>) in
        let h := if d_type de =? DT_DIR then upd h c (fun m => m <| is_dir := true |>) else h in
        r ← node_add_child p c h;
        let '(ok, h) := r in
        if negb ok then match node_free 1 h c with Returned h => Some h | _ => None end else Some h
    end.

Fixpoint read_entries (p : nat) (l : list dirent_t) h : option heap_t :=
  match l with [] => Some h | de :: l => h ← read_entry p de h; read_entries p l h end.

(** [getdents64] until it returns no entry or an error. *)
Fixpoint read_chunks (p : nat) (l : list (list dirent_t)) h : option heap_t :=
  match l with
  | [] | [] :: _ => Some h
  | des :: l => h ← read_entries p des h; read_chunks p l h
  end.

Definition read_dir (p : nat) (fd : Z) h : option heap_t :=
  n ← nodes h !! p;
  if fd <? 0 then Some h
  else if PATH_MAX <=? strlen (full_path n) + 2 then Some h
  else read_chunks p (dents fd) h.

Fixpoint read_dirs (dirs : list nat) (fds : list Z) h : option heap_t :=
  match dirs, fds with
  | p :: dirs, fd :: fds => h ← read_dir p fd h; read_dirs dirs fds h
  | _, _ => Some h
  end.

(** [total_children]: of the directories that were read. *)
Fixpoint count_children (dirs : list nat) (fds : list Z) h : option Z :=
  match dirs, fds with
  | p :: dirs, fd :: fds =>
      n ← nodes h !! p;
      k ← count_children dirs fds h;
      Some (if (fd <? 0) || (PATH_MAX <=? strlen (full_path n) + 2) then k else zlen (children n) + k)
  | _, _ => Some 0
  end.

(** ** Phase 3: statx on the children *)

Definition stat_child (dirfd : Z) (c : nat) s : option batch_t :=
  m ← nodes (b_heap s) !! c;
  let sfd := if 0 <=? dirfd then dirfd else AT_FDCWD in
  let spath := if 0 <=? dirfd then node_name m else full_path m in
  let '(ok, s) := submit (OpStat c sfd spath) s in
  Some (if ok then s else on_statx_complete c (stat_result sfd spath) s).

Fixpoint stat_children (dirfd : Z) (l : list nat) s : option batch_t :=
  match l with [] => Some s | c :: l => s ← stat_child dirfd c s; stat_children dirfd l s end.

Fixpoint stat_dirs (dirs : list nat) (fds : list Z) s : option batch_t :=
  match dirs, fds with
  | p :: dirs, fd :: fds => n ← nodes (b_heap s) !! p; s ← stat_children fd (children n) s; stat_dirs dirs fds s
  | _, _ => Some s
  end.

(** ** Phase 4: closing, and removing what is not a directory *)

(** The children that stay; the others are released. *)
Fixpoint prune (l : list nat) h : option (list nat * heap_t) :=
  match l with
  | [] => Some ([], h)
  | c :: l =>
      m ← nodes h !! c;
      if is_dir m then r ← prune l h; Some (c :: fst r, snd r)
      else match node_free 1 h c with Returned h => prune l h | _ => None end
  end.

Definition prune_dir (p : nat) h : option heap_t :=
  n ← nodes h !! p;
  if dirs_only config then r ← prune (children n) h; Some (upd (snd r) p (fun n => n <| children := fst r |>)) else Some h.

Definition close_dir (p : nat) (fd : Z) s : option batch_t :=
  let s := if 0 <=? fd then
             let s := s <| c_remaining := c_remaining s + 1 |> in
             let '(ok, s) := submit (OpClose fd) s in
             if ok then s else s <| c_remaining := c_remaining s - 1 |> <| closed := closed s ++ [fd] |>
           else s in
  h ← prune_dir p (b_heap s);
  Some (s <| b_heap := h |>).

Fixpoint close_dirs (dirs : list nat) (fds : list Z) s : option batch_t :=
  match dirs, fds with
  | p :: dirs, fd :: fds => s ← close_dir p fd s; close_dirs dirs fds s
  | _, _ => Some s
  end.

(** ** The batch *)

(** [None]: a dangling pointer, or fuel spent in a drain. *)
Definition process_dir_batch (fuel : nat) (dirs : list nat) s : option batch_t :=
  let s := s <| o_remaining := 0 |> <| fds := replicate (List.length dirs) (-1) |> in
  s ← open_dirs 0 dirs s;
  s ← drain fuel o_remaining s;
  h ← read_dirs dirs (fds s) (b_heap s);
  let s := s <| b_heap := h |> in
  total_children ← count_children dirs (fds s) h;
  s ← (if 0 <? total_children then
         let '(ok, h) := alloc (b_heap s) in
         let s := s <| b_heap := h |> in
         if negb ok then Some s
         else s ← stat_dirs dirs (fds s) (s <| s_remaining := total_children |>); drain fuel s_remaining s
       else Some s);
  s ← close_dirs dirs (fds s) (s <| c_remaining := 0 |>);
  drain fuel c_remaining s.

End Batch.
