(* ===== verification/TreeBatchSpec.v ===== *)
(** * atree: a batch is what a sequential scan would do

    Whatever the engine accepts and in whatever order it completes, a batch leaves
    the tree that opening, reading and asking one after the other would. *)
From Stdlib Require Import ZArith Lia List String Ascii.
From stdpp Require Import base tactics strings list gmap.
From S2P Require Import Prelude CStrings TreeFormat TreeVisited TreeNodes TreeNodesSpec TreePrint TreeBatch.

#[local] Open Scope Z_scope.
#[local] Set Warnings "-clear-no-such-hyp".

(** ** The reference *)

Section Reference.
Context {T : TreeEnv} {E : BatchEnv} (config : config_t).

(** Descriptors count by whether they are open. *)
Definition norm (fd : Z) : Z := if 0 <=? fd then fd else -1.

Definition ref_open (p : nat) (h : heap_t) (vs : visited_set_t) : option (Z * visited_set_t) :=
  n ← nodes h !! p;
  if (0 <=? max_depth config) && (max_depth config <=? depth n) then Some (-1, vs)
  else
    let '(fresh, vs) := visited_insert vs (makedev (stx_dev_major (st n)) (stx_dev_minor (st n)), stx_ino (st n)) in
    Some (if fresh then norm (open_result (full_path n)) else -1, vs).

Fixpoint ref_opens (dirs : list nat) (h : heap_t) (vs : visited_set_t) : option (list Z * visited_set_t) :=
  match dirs with
  | [] => Some ([], vs)
  | p :: dirs => r ← ref_open p h vs; r' ← ref_opens dirs h (snd r); Some (fst r :: fst r', snd r')
  end.

Definition ref_stat (fd : Z) (c : nat) (h : heap_t) : heap_t :=
  match nodes h !! c with
  | Some m => upd h c (stat_node (if 0 <=? fd then stat_result fd (node_name m) else stat_result AT_FDCWD (full_path m)))
  | None => h
  end.

Fixpoint ref_stats (dirs : list nat) (fds : list Z) (h : heap_t) : heap_t :=
  match dirs, fds with
  | p :: dirs, fd :: fds => ref_stats dirs fds (foldl (fun h c => ref_stat fd c h) h (children (default null_node (nodes h !! p))))
  | _, _ => h
  end.

Fixpoint ref_prunes (dirs : list nat) (h : heap_t) : option heap_t :=
  match dirs with [] => Some h | p :: dirs => h ← prune_dir config p h; ref_prunes dirs h end.

(** One thing after the other. *)
Definition ref_batch (dirs : list nat) (h : heap_t) (vs : visited_set_t) : option (heap_t * visited_set_t * list Z) :=
  r ← ref_opens dirs h vs;
  let '(fds, vs) := r in
  h ← read_dirs config dirs fds h;
  total ← count_children dirs fds h;
  let h := if 0 <? total then let '(ok, h) := alloc h in if ok then ref_stats dirs fds h else h else h in
  h ← ref_prunes dirs h;
  Some (h, vs, List.filter (fun fd => 0 <=? fd) fds).

End Reference.

(** ** Completions in any order *)

Section Async.
Context {T : TreeEnv} {E : BatchEnv}.
Implicit Types (s : batch_t) (o : op).

(** What completions touch. *)
Definition core (s : batch_t) := (b_heap s, b_visited s, fds s, (o_remaining s, s_remaining s, c_remaining s)).

Definition settle (l : list op) s : batch_t := foldl (fun s o => complete o s) s l.

(** The cells an operation writes. *)
Definition target (o : op) : list (nat + nat) := match o with OpOpen i _ => [inl i] | OpStat c _ _ => [inr c] | OpClose _ => [] end.
Definition targets (l : list op) : list (nat + nat) := flat_map target l.

Definition closes (l : list op) : list Z := flat_map (fun o => match o with OpClose fd => [fd] | _ => [] end) l.

Lemma core_complete o s s' : core s = core s' -> core (complete o s) = core (complete o s').
Proof using.
  destruct s as [h vs f a b c fl cl ca tu], s' as [h' vs' f' a' b' c' fl' cl' ca' tu']. unfold core. cbn. intros [= -> -> -> -> -> ->].
  by destruct o.
Qed.

Lemma core_settle l : forall s s', core s = core s' -> core (settle l s) = core (settle l s').
Proof using. induction l as [|o l IH]; intros s s' H; [done|]. by apply IH, core_complete. Qed.

Lemma complete_swap o o' s : (forall x, x ∈ target o -> x ∉ target o') -> core (complete o (complete o' s)) = core (complete o' (complete o s)).
Proof using.
  destruct s as [h vs f a b c fl cl ca tu]. destruct o as [i p|k fd p|fd], o' as [i' p'|k' fd' p'|fd']; cbn [target]; intros Hne; unfold core; cbn; try done.
  - rewrite list_insert_insert_ne; [done|]. intros ->. apply (Hne (inl i')); left.
  - unfold upd. cbn. rewrite alter_alter_ne; [done|]. intros ->. apply (Hne (inr k')); left.
Qed.

Lemma targets_delete l (k : nat) : NoDup (targets l) -> NoDup (targets (delete k l)).
Proof using.
  revert k. induction l as [|o l IH]; intros [|k] N; cbn in *; [done..|by apply NoDup_app in N as (_ & _ & N)|].
  apply NoDup_app in N as (N1 & N2 & N3). apply NoDup_app. split; [done|]. split; [|by apply IH]. intros x Hx Hx'. apply (N2 x Hx).
  apply elem_of_flat_map in Hx' as (o' & Ho & Hx'). apply elem_of_flat_map. exists o'. split; [|done].
  by eapply list_elem_of_delete_inv.
Qed.

Lemma settle_delete l (k : nat) o s : l !! k = Some o -> NoDup (targets l) -> core (settle (delete k l) (complete o s)) = core (settle l s).
Proof using.
  revert k s. induction l as [|o' l IH]; intros [|k] s H N; try done; cbn in H.
  - by injection H as ->.
  - cbn in N. apply NoDup_app in N as (_ & Hn & N). change (delete (S k) (o' :: l)) with (o' :: delete k l).
    change (core (settle (delete k l) (complete o' (complete o s))) = core (settle l (complete o' s))).
    rewrite <- (IH k (complete o' s) H N). apply core_settle, complete_swap.
    intros x Hx Hx'. apply (Hn x Hx). apply elem_of_flat_map. exists o. split; [by eapply list_elem_of_lookup_2|done].
Qed.

(** What a state comes to when everything in flight has completed. *)
Definition settled s := core (settle (flight s) s).

Lemma closed_complete o s : closed (complete o s) = closed s ++ closes [o].
Proof using. destruct o; cbn; by rewrite ?app_nil_r. Qed.

Lemma closes_delete l (k : nat) o : l !! k = Some o -> closes l ≡ₚ closes [o] ++ closes (delete k l).
Proof using. intros H. unfold closes. rewrite (delete_Permutation _ _ _ H) at 1. cbn. by rewrite app_nil_r. Qed.

Record same_end (s s' : batch_t) : Prop := {
  se_core : settled s' = settled s;
  se_closed : closed s' ++ closes (flight s') ≡ₚ closed s ++ closes (flight s);
  se_targets : NoDup (targets (flight s'));
  se_sub : forall o, o ∈ flight s' -> o ∈ flight s
}.

Lemma same_end_refl s : NoDup (targets (flight s)) -> same_end s s.
Proof using. by split. Qed.

Lemma same_end_trans s1 s2 s3 : same_end s1 s2 -> same_end s2 s3 -> same_end s1 s3.
Proof using. intros [A1 A2 A3 A4] [B1 B2 B3 B4]. split; [congruence|by rewrite B2|done|auto]. Qed.

Lemma flight_complete o s : flight (complete o s) = flight s.
Proof using. by destruct o. Qed.

Lemma deliver_end l : forall s, NoDup (targets (flight s)) -> forall n s', deliver l s = (n, s') ->
  same_end s s' /\ 0 <= n /\ zlen (flight s') = zlen (flight s) - n /\ turns s' = turns s /\ (flight s <> [] -> 0%nat ∈ l -> 0 < n).
Proof using.
  induction l as [|k l IH]; intros s N n s'; cbn [deliver].
  - intros [= <- <-]. split; [by apply same_end_refl|]. split; [done|]. split; [lia|]. split; [done|]. intros _ H. by apply not_elem_of_nil in H.
  - destruct (flight s !! k) as [o|] eqn:Ek.
    + set (s1 := complete o (s <| flight := delete k (flight s) |>)).
      assert (flight s1 = delete k (flight s)) as Ef by (unfold s1; by rewrite flight_complete).
      assert (NoDup (targets (flight s1))) as N1.
      { rewrite Ef. by apply targets_delete. }
      assert (same_end s s1) as S1.
      { split; [| |done|].
        - unfold settled. rewrite Ef. rewrite <- (settle_delete _ k o s Ek N). apply core_settle. unfold s1. apply core_complete. done.
        - rewrite Ef. unfold s1. rewrite closed_complete, <- app_assoc, <- (closes_delete _ _ _ Ek). done.
        - rewrite Ef. intros o' Ho. rewrite (delete_Permutation _ _ _ Ek). by right. }
      destruct (deliver l s1) as [n1 s2] eqn:Ed. intros [= <- <-]. destruct (IH s1 N1 n1 s2 Ed) as (A & B & C & D & _).
      split; [by eapply same_end_trans|]. split; [lia|]. pose proof (lookup_lt_Some _ _ _ Ek).
      assert (zlen (flight s1) = zlen (flight s) - 1) as Hl by (rewrite Ef; unfold zlen; rewrite length_delete; [lia|by exists o]).
      split; [lia|]. split; [rewrite D; unfold s1; by destruct o|]. intros _ _. lia.
    + intros Ed. destruct (IH s N n s' Ed) as (A & B & C & D & F). split; [done|]. split; [done|]. split; [done|]. split; [done|].
      intros Hne [<-|H]%elem_of_cons; [by destruct (flight s)|by apply F].
Qed.

(** The engine never stalls and the user does not interrupt. *)
Context (Hfair : forall k, 0%nat ∈ delivers k \/ 0%nat ∈ delivers (S k)) (Hint : forall k, sigint_at k = false).

Lemma turn_end s n s' : NoDup (targets (flight s)) -> turn s = (n, s') ->
  same_end s s' /\ 0 <= n /\ zlen (flight s') = zlen (flight s) - n /\ turns s' = S (turns s) /\
  (flight s <> [] -> 0%nat ∈ delivers (turns s) -> 0 < n).
Proof using.
  intros N H. unfold turn in H. apply deliver_end in H; [|exact N]. destruct H as ([A1 A2 A3 A4] & R).
  split; [|exact R]. split; [|exact A2|exact A3|exact A4]. rewrite A1. by apply (core_settle (flight s) (s <| turns := S (turns s) |>) s).
Qed.

(** A drain completes everything. *)
Lemma drain_ok (remaining : batch_t -> Z) (fuel : nat) :
  forall s, NoDup (targets (flight s)) -> (forall s', same_end s s' -> remaining s' = zlen (flight s')) -> (length (flight s) <= fuel)%nat ->
  exists s', drain fuel remaining s = Some s' /\ flight s' = [] /\ core s' = settled s /\ closed s' ≡ₚ closed s ++ closes (flight s).
Proof using Hfair Hint.
  induction fuel as [|fuel IH]; intros s N R L; cbn [drain]; unfold g_interrupted; rewrite Hint, andb_true_r, (R s) by (by apply same_end_refl).
  - destruct (flight s) eqn:Ef; [|cbn in L; lia]. exists s. split; [done|]. split; [done|]. unfold settled. rewrite Ef. split; [done|]. by rewrite app_nil_r.
  - destruct (Z.ltb_spec 0 (zlen (flight s))) as [Hl|Hl].
    + assert (flight s <> []) as Hne by (intros E0; rewrite E0 in Hl; done).
      destruct (turn s) as [n s1] eqn:E1. destruct (turn_end s n s1 N E1) as (A1 & B1 & C1 & D1 & F1).
      assert (exists s2, (if n =? 0 then snd (turn s1) else s1) = s2 /\ same_end s s2 /\ zlen (flight s2) < zlen (flight s)) as (s2 & -> & S2 & L2).
      { destruct (Z.eqb_spec n 0) as [->|Hn]; [|exists s1; split; [done|split; [done|lia]]].
        destruct (turn s1) as [n2 s2] eqn:E2. destruct (turn_end s1 n2 s2 (se_targets _ _ A1) E2) as (A2 & B2 & C2 & D2 & F2).
        exists s2. split; [done|]. split; [by eapply same_end_trans|]. 
        assert (flight s1 <> []) as Hne1 by (intros E0; rewrite E0 in C1; change (zlen (@nil op)) with 0 in C1; lia).
        destruct (Hfair (turns s)) as [H|H]; [specialize (F1 Hne H); lia|]. rewrite <- D1 in H. specialize (F2 Hne1 H). lia. }
      destruct (IH s2 (se_targets _ _ S2)) as (s' & -> & Ef & Ec & El).
      { intros s' Hs'. apply R. by eapply same_end_trans. }
      { unfold zlen in L2. lia. }
      exists s'. split; [done|]. split; [done|]. split; [rewrite Ec; apply S2|]. rewrite El. apply S2.
    + destruct (flight s) eqn:Ef; [|unfold zlen in Hl; cbn in Hl; lia]. exists s. split; [done|]. split; [done|]. unfold settled. rewrite Ef.
      split; [done|]. by rewrite app_nil_r.
Qed.

(** What is in flight comes to: the descriptors and the heap. *)
Definition opens_to (l : list op) (f : list Z) : list Z := foldl (fun f o => match o with OpOpen i path => <[i := open_result path]> f | _ => f end) f l.
Definition stats_to (l : list op) (h : heap_t) : heap_t :=
  foldl (fun h o => match o with OpStat c fd path => upd h c (stat_node (stat_result fd path)) | _ => h end) h l.

#[local] Arguments opens_to : simpl never.
#[local] Arguments stats_to : simpl never.

Lemma settle_parts l : forall s, fds (settle l s) = opens_to l (fds s) /\ b_heap (settle l s) = stats_to l (b_heap s) /\ b_visited (settle l s) = b_visited s.
Proof using. induction l as [|o l IH]; intros s; [done|]. destruct (IH (complete o s)) as (A & B & C). cbn. unfold settle in A, B, C. rewrite A, B, C. by destruct o. Qed.

Lemma opens_to_length l : forall f, length (opens_to l f) = length f.
Proof using. induction l as [|o l IH]; intros f; [done|]. unfold opens_to in *. cbn. rewrite IH. destruct o; by rewrite ?length_insert. Qed.

Lemma opens_to_insert l (i : nat) x : forall f, inl i ∉ targets l -> opens_to l (<[i := x]> f) = <[i := x]> (opens_to l f).
Proof using.
  induction l as [|o l IH]; intros f H; [done|]. cbn in H. apply not_elem_of_app in H as [Ho H]. unfold opens_to in *. cbn. rewrite <- IH by done.
  f_equal. destruct o; try done. apply list_insert_insert_ne. intros ->. apply Ho. left.
Qed.

Lemma stats_to_upd l (c : nat) g : forall h, inr c ∉ targets l -> stats_to l (upd h c g) = upd (stats_to l h) c g.
Proof using.
  induction l as [|o l IH]; intros h H; [done|]. cbn in H. apply not_elem_of_app in H as [Ho H]. unfold stats_to in *. cbn. rewrite <- IH by done.
  f_equal. destruct o as [|k fd path|]; try done. unfold upd. cbn. rewrite alter_alter_ne; [done|]. intros ->. apply Ho. left.
Qed.

(** ** Phase 1 *)

Lemma submit_eq o s : submit o s = (accepts (calls s), (if accepts (calls s) then s <| flight := flight s ++ [o] |> else s) <| calls := S (calls s) |>).
Proof using. done. Qed.

Definition end_fds s : list Z := map norm (opens_to (flight s) (fds s)).
#[local] Arguments end_fds : simpl never.

Lemma targets_app l k : targets (l ++ k) = targets l ++ targets k.
Proof using. apply flat_map_app. Qed.

Lemma open_dir_ok config (i p : nat) s fd vs : ref_open config p (b_heap s) (b_visited s) = Some (fd, vs) -> (i < length (fds s))%nat ->
  NoDup (targets (flight s)) -> (forall x, x ∈ targets (flight s) -> exists j, x = inl j /\ (j < i)%nat) -> o_remaining s = zlen (flight s) ->
  exists s', open_dir config i p s = Some s' /\ b_heap s' = b_heap s /\ b_visited s' = vs /\ length (fds s') = length (fds s) /\
    end_fds s' = <[i := fd]> (end_fds s) /\ NoDup (targets (flight s')) /\ (forall x, x ∈ targets (flight s') -> exists j, x = inl j /\ (j < S i)%nat) /\
    o_remaining s' = zlen (flight s') /\ closed s' = closed s /\ closes (flight s') = closes (flight s) /\ (length (flight s') <= S (length (flight s)))%nat.
Proof using.
  unfold ref_open, open_dir. intros H Hi N Hj Hr. destruct (nodes (b_heap s) !! p) as [n|]; [|done]. cbn [mbind option_bind] in *.
  assert (inl i ∉ targets (flight s)) as Hni by (intros Hx; destruct (Hj _ Hx) as (j & [= <-] & ?); lia).
  assert (forall x, x ∈ targets (flight s) -> exists j, x = inl j /\ (j < S i)%nat) as Hj' by (intros x Hx; destruct (Hj _ Hx) as (j & -> & ?); exists j; split; [done|lia]).
  assert (forall x, map norm (opens_to (flight s) (<[i := x]> (fds s))) = <[i := norm x]> (end_fds s)) as Ends.
  { intros x. rewrite opens_to_insert by done. unfold end_fds. by rewrite list_fmap_insert. }
  assert (forall x, map norm (opens_to (flight s) (<[i := x]> (<[i := -1]> (fds s)))) = <[i := norm x]> (end_fds s)) as Ends2.
  { intros x. by rewrite list_insert_insert_eq, Ends. }
  destruct (_ && _); [injection H as <- <-; eexists; split; [reflexivity|]; cbn; rewrite length_insert; by split_and!; try lia; try apply Ends|].
  destruct (visited_insert _ _) as [fresh vs']. cbn [b_visited].
  destruct fresh; injection H as <- <-; cbn [negb]; [|eexists; split; [reflexivity|]; cbn; rewrite length_insert; by split_and!; try lia; try apply Ends].
  match goal with |- context [submit _ ?s2] => set (s1 := s2) end.
  assert (flight s1 = flight s /\ fds s1 = <[i := -1]> (fds s) /\ b_heap s1 = b_heap s /\ b_visited s1 = vs' /\ closed s1 = closed s /\
    o_remaining s1 = o_remaining s + 1) as (E1 & E2 & E3 & E4 & E5 & E6) by done. clearbody s1.
  rewrite submit_eq. destruct (accepts (calls s1)); eexists; (split; [reflexivity|]); cbn; rewrite ?E1, ?E2, ?E3, ?E4, ?E5, ?E6.
  - split; [done|]. split; [done|]. split; [by rewrite length_insert|]. split; [|split; [|split; [|split; [|split; [done|split]]]]].
    + unfold end_fds at 1. cbn. rewrite ?E1, ?E2. unfold opens_to. rewrite foldl_app. cbn. fold (opens_to (flight s) (<[i:=-1]> (fds s))).
      rewrite opens_to_insert by done. by rewrite list_insert_insert_eq, list_fmap_insert.
    + rewrite targets_app. apply NoDup_app. split; [done|]. split; [|apply NoDup_singleton]. intros x Hx ->%list_elem_of_singleton. done.
    + intros x. rewrite targets_app. intros [Hx|Hx%list_elem_of_singleton]%elem_of_app; [auto|]. subst x. exists i. split; [done|lia].
    + rewrite zlen_app, Hr. done.
    + unfold closes. rewrite flat_map_app. apply app_nil_r.
    + rewrite length_app. cbn. lia.
  - split; [done|]. split; [done|]. split; [by rewrite !length_insert|]. split; [|split_and!; try done; lia]. unfold end_fds at 1. cbn. rewrite ?E1, ?E2, Ends2.
    f_equal. unfold norm. destruct (Z.leb_spec 0 (open_result (full_path n))); [|done]. destruct (Z.leb_spec 0 (open_result (full_path n))); [done|lia].
Qed.

Lemma open_dirs_ok config dirs : forall (i : nat) s rf vs, ref_opens config dirs (b_heap s) (b_visited s) = Some (rf, vs) ->
  (i + length dirs <= length (fds s))%nat -> NoDup (targets (flight s)) -> (forall x, x ∈ targets (flight s) -> exists j, x = inl j /\ (j < i)%nat) ->
  o_remaining s = zlen (flight s) ->
  exists s', open_dirs config i dirs s = Some s' /\ b_heap s' = b_heap s /\ b_visited s' = vs /\ length (fds s') = length (fds s) /\
    end_fds s' = take i (end_fds s) ++ rf ++ drop (i + length dirs) (end_fds s) /\ NoDup (targets (flight s')) /\
    (forall x, x ∈ targets (flight s') -> exists j, x = inl j) /\ o_remaining s' = zlen (flight s') /\ closed s' = closed s /\ closes (flight s') = closes (flight s) /\
    (length (flight s') <= length (flight s) + length dirs)%nat.
Proof using.
  induction dirs as [|p dirs IH]; intros i s rf vs H Hi N Hj Hr; cbn [open_dirs ref_opens] in *.
  - injection H as <- <-. exists s. split; [done|]. rewrite Nat.add_0_r, app_nil_l, take_drop. split_and!; try done; [|cbn; lia].
    intros x Hx. destruct (Hj x Hx) as (j & -> & _). by exists j.
  - destruct (ref_open config p (b_heap s) (b_visited s)) as [[fd vs1]|] eqn:E1; [|done]. cbn [mbind option_bind fst snd] in H.
    destruct (ref_opens config dirs (b_heap s) vs1) as [[rf1 vs2]|] eqn:E2; [|done]. cbn in H. injection H as <- <-. cbn [length] in Hi.
    destruct (open_dir_ok config i p s fd vs1 E1) as (s1 & -> & A1 & A2 & A3 & A4 & A5 & A6 & A7 & A8 & A9 & A10); try done; [lia|]. cbn [mbind option_bind].
    destruct (IH (S i) s1 rf1 vs2) as (s2 & -> & B1 & B2 & B3 & B4 & B5 & B5' & B6 & B7 & B8 & B9); try done; [by rewrite A1, A2|lia|].
    exists s2. split; [done|]. split; [congruence|]. split; [done|]. split; [congruence|]. split; [|split; [done|split; [done|split; [done|split; [congruence|split; [congruence|cbn; lia]]]]]].
    rewrite B4, A4. assert (i < length (end_fds s))%nat as Hl by (unfold end_fds; rewrite length_map, opens_to_length; lia).
    replace (i + length (p :: dirs))%nat with (S i + length dirs)%nat by (cbn; lia). rewrite drop_insert_lt by lia.
    rewrite (take_S_r _ _ fd) by (by apply list_lookup_insert_eq). rewrite take_insert_ge by lia. by rewrite <- app_assoc.
Qed.

End Async.

(** ** Phase 2 *)

Section Reading.
Context {T : TreeEnv} {E : BatchEnv} (config : config_t).
Implicit Types (h : heap_t) (dirs : list nat).

Definition kids h (p : nat) : list nat := children (default null_node (nodes h !! p)).

(** The directories of the batch and the nodes read into them: leaves, all
    different, below the next address. *)
Record read_ok dirs h : Prop := {
  r_dirs p : p ∈ dirs -> is_Some (nodes h !! p);
  r_leaf p c : p ∈ dirs -> c ∈ kids h p -> exists m, nodes h !! c = Some m /\ children m = [];
  r_nodup : NoDup (dirs ++ flat_map (kids h) dirs);
  r_fresh x : (brk h <= x)%nat -> nodes h !! x = None
}.

(** Reading changes a heap by new leaves at the end of the children of [p]. *)
Definition grows (p : nat) h h' : Prop :=
  (nodes h' = nodes h /\ (brk h <= brk h')%nat) \/
  exists n n' m, nodes h !! p = Some n /\ children m = [] /\ children n' = children n ++ [brk h] /\ full_path n' = full_path n /\
    depth n' = depth n /\ nodes h' = <[p := n']> (<[brk h := m]> (nodes h)) /\ brk h' = S (brk h).

Lemma node_free_leaf h c m : nodes h !! c = Some m -> children m = [] ->
  exists h', node_free 1 h c = Returned h' /\ nodes h' = delete c (nodes h) /\ brk h' = brk h.
Proof using.
  intros Hc Hm. unfold node_free, alloc. destruct (ask_alloc (asked h)); cbn [negb].
  - cbn [node_free_loop]. cbn. rewrite Hc. cbn. rewrite Hm. cbn. eexists. split; [reflexivity|]. done.
  - set (d := 1000%nat). assert (exists k, d = S k) as [k ->] by by eexists. cbn. rewrite Hc. cbn. rewrite Hm. cbn. eexists. split; [reflexivity|]. done.
Qed.

Lemma read_entry_grows p de h n : nodes h !! p = Some n -> (forall x, (brk h <= x)%nat -> nodes h !! x = None) ->
  exists h', read_entry config p de h = Some h' /\ grows p h h'.
Proof using.
  intros Hp Hf. unfold read_entry. rewrite Hp. cbn [mbind option_bind].
  destruct (skip_entry config de); [by exists h; split; [|left]|].
  destruct (PATH_MAX <=? _); [by exists h; split; [|left]|]. unfold node_create, alloc.
  destruct (ask_alloc (asked h)); cbn [negb]; [|by eexists; split; [|left]].
  set (m0 := {| node_name := d_name de; full_path := _ |}).
  assert (p <> brk h) as Hne by (intros ->; rewrite Hf in Hp; done).
  set (h2 := if d_type de =? DT_DIR then _ else _).
  assert (exists m, nodes h2 = <[brk h := m]> (nodes h) /\ children m = [] /\ brk h2 = S (brk h)) as (m & E2 & Hm & B2).
  { unfold h2, upd. destruct (d_type de =? DT_DIR); cbn; eexists; rewrite ?alter_insert_eq; split; [reflexivity|by split|reflexivity|by split]. }
  clearbody h2. unfold node_add_child. rewrite E2, lookup_insert_ne, Hp by done. cbn [mbind option_bind].
  assert (forall f, children (f n) = children n ++ [brk h] -> full_path (f n) = full_path n -> depth (f n) = depth n ->
    forall hx, nodes hx = nodes h2 -> brk hx = brk h2 -> grows p h (upd hx p f)) as G.
  { intros f H1 H2 H3 hx Ex Bx. right. exists n, (f n), m. repeat (split; [done|]). split; [|cbn; congruence].
    unfold upd. cbn. rewrite Ex, E2. apply map_eq. intros y. destruct (decide (y = p)) as [->|Hy].
    - rewrite lookup_alter_eq, lookup_insert_eq, lookup_insert_ne, Hp by done. done.
    - rewrite lookup_alter_ne by done. by rewrite (lookup_insert_ne _ p) by done. }
  destruct (cap_children n <=? zlen (children n)).
  - unfold alloc. destruct (ask_alloc (asked h2)); cbn [negb mbind option_bind].
    + eexists. split; [reflexivity|]. by apply G.
    + match goal with |- context [node_free 1 ?hh ?c] => change c with (brk h); destruct (node_free_leaf hh (brk h) m) as (h3 & -> & E3 & B3) end; [cbn; by rewrite E2, lookup_insert_eq|done|].
      exists h3. split; [done|]. left. rewrite E3, B3. cbn. rewrite E2, B2. split; [|lia]. rewrite delete_insert_eq. by apply delete_id, Hf.
  - cbn [mbind option_bind negb]. eexists. split; [reflexivity|]. by apply G.
Qed.

Lemma kids_grow p h h' : grows p h h' -> (forall x, (brk h <= x)%nat -> nodes h !! x = None) ->
  (forall q, q <> p -> (q < brk h)%nat -> kids h' q = kids h q) /\ (nodes h' = nodes h \/ kids h' p = kids h p ++ [brk h]).
Proof using.
  intros [[Hn Hb]|(n & n' & m & Hp & Hm & Hc & _ & _ & Hn & Hb)] Hf; unfold kids; rewrite Hn; [by split; [|left]|].
  split.
  - intros q Hq Hl. by rewrite lookup_insert_ne, lookup_insert_ne by (done || lia).
  - right. rewrite lookup_insert_eq, Hp. done.
Qed.

Lemma fresh_grow_ok dirs p h h' : p ∈ dirs -> grows p h h' -> read_ok dirs h -> read_ok dirs h'.
Proof using.
  intros Hpd G [D L N F]. destruct (kids_grow p h h' G F) as [K1 K2]. assert (forall q, q ∈ dirs -> (q < brk h)%nat) as Hlt.
  { intros q Hq. destruct (D q Hq) as [n Hn]. destruct (decide (q < brk h)%nat) as [|Hge]; [done|]. rewrite F in Hn by lia. done. }
  destruct G as [[Hn Hb]|(n & n' & m & Hp & Hm & Hc & _ & _ & Hn & Hb)].
  - assert (forall q, kids h' q = kids h q) as Ek by (intros q; unfold kids; by rewrite Hn).
    split; [intros q; rewrite Hn; apply D|intros q c; rewrite Ek, Hn; apply L| |intros x Hx; rewrite Hn; apply F; lia].
    by rewrite (flat_map_ext _ _ Ek).
  - assert (brk h ∉ dirs) as Hbd by (intros Hin; specialize (Hlt _ Hin); lia).
    assert (forall q c, q ∈ dirs -> c ∈ kids h q -> (c < brk h)%nat) as Hkl.
    { intros q c Hq Hcq. destruct (L q c Hq Hcq) as (mc & Hmc & _). destruct (decide (c < brk h)%nat) as [|Hge]; [done|]. rewrite F in Hmc by lia. done. }
    assert (kids h' p = kids h p ++ [brk h]) as Kp by (unfold kids; by rewrite Hn, lookup_insert_eq, Hp).
    split.
    + intros q Hq. rewrite Hn. destruct (decide (q = p)) as [->|]; [rewrite lookup_insert_eq; by eexists|]. rewrite lookup_insert_ne by done.
      rewrite lookup_insert_ne by (intros <-; done). by apply D.
    + intros q c Hq Hcq. assert (c ∈ kids h q \/ c = brk h) as [Hc'| ->].
      { destruct (decide (q = p)) as [->|Hqp]; [rewrite Kp in Hcq; apply elem_of_app in Hcq as [|Hcq%list_elem_of_singleton]; [by left|by right]|].
        rewrite K1 in Hcq by (done || by apply Hlt). by left. }
      * destruct (L q c Hq Hc') as (mc & Hmc & Hl). exists mc. split; [|done]. rewrite Hn, lookup_insert_ne, lookup_insert_ne; [done| |].
        -- specialize (Hkl q c Hq Hc'). lia.
        -- intros <-. apply NoDup_app in N as (_ & N & _). apply (N p Hpd). apply elem_of_flat_map. by exists q.
      * exists m. split; [|done]. rewrite Hn, lookup_insert_ne by (intros ->; done). by rewrite lookup_insert_eq.
    + destruct (list_elem_of_split_l _ _ Hpd) as (l1 & l2 & El & Hp1). 
      assert (NoDup dirs) as Nd by (by apply NoDup_app in N as (N & _)). rewrite El in Nd. apply NoDup_app in Nd as (_ & Nd1 & Nd2).
      apply NoDup_cons in Nd2 as [Hp2 _].
      assert (flat_map (kids h') dirs ≡ₚ brk h :: flat_map (kids h) dirs) as Pm.
      { rewrite El, !flat_map_app. cbn. rewrite Kp.
        assert (forall l, l ⊆ dirs -> p ∉ l -> flat_map (kids h') l = flat_map (kids h) l) as Same.
        { intros l Hl Hpl. induction l as [|q l IH]; [done|]. cbn. apply not_elem_of_cons in Hpl as [Hq Hpl]. rewrite IH by (set_solver || done).
          f_equal. apply K1; [done|]. apply Hlt, Hl. left. }
        rewrite (Same l1), (Same l2) by (done || (rewrite El; set_solver)). rewrite <- !app_assoc. cbn.
        by rewrite !Permutation_middle. }
      rewrite Pm. rewrite <- Permutation_middle. apply NoDup_cons. split; [|done]. intros [Hin|Hin]%elem_of_app; [done|].
      apply elem_of_flat_map in Hin as (q & Hq & Hin). specialize (Hkl q _ Hq Hin). lia.
    + intros x Hx. rewrite Hn. rewrite lookup_insert_ne, lookup_insert_ne; [apply F; lia|lia|]. specialize (Hlt p Hpd). lia.
Qed.


(** What reading leaves alone in the directories themselves. *)
Definition same_paths dirs h h' : Prop := forall q n, q ∈ dirs -> nodes h !! q = Some n -> exists n', nodes h' !! q = Some n' /\ full_path n' = full_path n.

Lemma same_paths_trans dirs h1 h2 h3 : same_paths dirs h1 h2 -> same_paths dirs h2 h3 -> same_paths dirs h1 h3.
Proof using. intros A B q n Hq Hn. destruct (A q n Hq Hn) as (n2 & Hn2 & E2). destruct (B q n2 Hq Hn2) as (n3 & Hn3 & E3). exists n3. by rewrite E3. Qed.

(** A step of reading [p]. *)
Definition reads dirs (p : nat) h h' : Prop :=
  read_ok dirs h' /\ same_paths dirs h h' /\ (forall q, q ∈ dirs -> q <> p -> kids h' q = kids h q).

Lemma reads_refl dirs p h : read_ok dirs h -> reads dirs p h h.
Proof using. intros R. split; [done|]. split; [|done]. intros q n _ Hn. by exists n. Qed.

Lemma reads_trans dirs p h1 h2 h3 : reads dirs p h1 h2 -> reads dirs p h2 h3 -> reads dirs p h1 h3.
Proof using.
  intros (A1 & A2 & A3) (B1 & B2 & B3). split; [done|]. split; [by eapply same_paths_trans|]. intros q Hq Hne. by rewrite B3, A3.
Qed.

Lemma grow_reads dirs p h h' : p ∈ dirs -> grows p h h' -> read_ok dirs h -> reads dirs p h h'.
Proof using.
  intros Hp G R. split; [by eapply fresh_grow_ok|]. destruct R as [D L N F]. assert (forall q, q ∈ dirs -> (q < brk h)%nat) as Hlt.
  { intros q Hq. destruct (D q Hq) as [n Hn]. destruct (decide (q < brk h)%nat) as [|Hge]; [done|]. rewrite F in Hn by lia. done. }
  split.
  - intros q n Hq Hn. destruct G as [[En _]|(n0 & n' & m & Hp0 & _ & _ & Hf & _ & En & _)]; rewrite En; [by exists n|].
    destruct (decide (q = p)) as [->|]; [rewrite lookup_insert_eq; exists n'; split; [done|congruence]|].
    rewrite lookup_insert_ne, lookup_insert_ne; [by exists n|specialize (Hlt q Hq); lia|done].
  - intros q Hq Hne. apply (kids_grow p h h' G F); [done|]. by apply Hlt.
Qed.

Lemma read_entries_ok dirs p l : p ∈ dirs -> forall h, read_ok dirs h -> exists h', read_entries config p l h = Some h' /\ reads dirs p h h'.
Proof using.
  intros Hp. induction l as [|de l IH]; intros h R; cbn [read_entries]; [exists h; split; [done|by apply reads_refl]|].
  destruct (r_dirs _ _ R p Hp) as [n Hn]. destruct (read_entry_grows p de h n Hn (r_fresh _ _ R)) as (h1 & -> & G). cbn [mbind option_bind].
  pose proof (grow_reads dirs p h h1 Hp G R) as R1. destruct (IH h1 (proj1 R1)) as (h2 & -> & R2). exists h2. split; [done|]. by eapply reads_trans.
Qed.

Lemma read_chunks_ok dirs p l : p ∈ dirs -> forall h, read_ok dirs h -> exists h', read_chunks config p l h = Some h' /\ reads dirs p h h'.
Proof using.
  intros Hp. induction l as [|des l IH]; intros h R; cbn [read_chunks]; [exists h; split; [done|by apply reads_refl]|].
  destruct des as [|de des]; [exists h; split; [done|by apply reads_refl]|].
  destruct (read_entries_ok dirs p (de :: des) Hp h R) as (h1 & -> & R1). cbn [mbind option_bind].
  destruct (IH h1 (proj1 R1)) as (h2 & -> & R2). exists h2. split; [done|]. by eapply reads_trans.
Qed.

Definition unread (fd : Z) h (p : nat) : Prop :=
  forall n, nodes h !! p = Some n -> (fd <? 0) || (PATH_MAX <=? strlen (full_path n) + 2) = true.

Lemma read_dir_ok dirs p fd h : p ∈ dirs -> read_ok dirs h ->
  exists h', read_dir config p fd h = Some h' /\ reads dirs p h h' /\ (unread fd h p -> h' = h).
Proof using.
  intros Hp R. unfold read_dir. destruct (r_dirs _ _ R p Hp) as [n Hn]. rewrite Hn. cbn [mbind option_bind].
  destruct (fd <? 0) eqn:E1; [exists h; split; [done|split; [by apply reads_refl|done]]|].
  destruct (PATH_MAX <=? strlen (full_path n) + 2) eqn:E2; [exists h; split; [done|split; [by apply reads_refl|done]]|].
  destruct (read_chunks_ok dirs p (dents fd) Hp h R) as (h' & -> & R'). exists h'. split; [done|]. split; [done|].
  intros U. specialize (U n Hn). by rewrite E1, E2 in U.
Qed.

Lemma read_dirs_ok dirs ds : forall fds h, ds ⊆ dirs -> NoDup ds -> length fds = length ds -> read_ok dirs h -> (forall p, p ∈ ds -> kids h p = []) ->
  exists h', read_dirs config ds fds h = Some h' /\ read_ok dirs h' /\ same_paths dirs h h' /\
    (forall q, q ∈ dirs -> q ∉ ds -> kids h' q = kids h q) /\ (forall q fd, (q, fd) ∈ zip ds fds -> unread fd h q -> kids h' q = []).
Proof using.
  induction ds as [|p ds IH]; intros [|fd fds] h Hs Nd Hl R K; try done; cbn [read_dirs].
  - exists h. split; [done|]. split; [done|]. split; [intros q n _ Hn; by exists n|]. split; [done|]. intros q fd H. by apply not_elem_of_nil in H.
  - apply NoDup_cons in Nd as [Hp Nd]. assert (p ∈ dirs) as Hpd by (apply Hs; left).
    destruct (read_dir_ok dirs p fd h Hpd R) as (h1 & -> & (R1 & P1 & K1) & U1). cbn [mbind option_bind].
    destruct (IH fds h1) as (h2 & -> & R2 & P2 & K2 & U2); [set_solver|done|by injection Hl|done| |].
    { intros q Hq. rewrite K1; [apply K; by right|apply Hs; by right|by intros ->]. }
    exists h2. split; [done|]. split; [done|]. split; [by eapply same_paths_trans|]. split.
    + intros q Hq [Hne Hq2]%not_elem_of_cons. by rewrite K2, K1.
    + intros q fd' [[= -> ->]|Hin]%elem_of_cons Hu.
      * rewrite K2 by done. rewrite (U1 Hu). apply K. left.
      * apply (U2 q fd' Hin). intros n Hn. assert (q ∈ ds) as Hq by (by apply elem_of_zip_l in Hin).
        assert (q ∈ dirs) as Hqd by (apply Hs; by right). destruct (r_dirs _ _ R q Hqd) as [n0 Hn0].
        destruct (P1 q n0 Hqd Hn0) as (n1 & Hn1 & Ep). rewrite Hn in Hn1. injection Hn1 as <-. rewrite Ep. by apply Hu.
Qed.

(** The counter of phase 3 counts the nodes it goes through. *)
Lemma count_ok dirs : forall fds h, length fds = length dirs -> (forall p, p ∈ dirs -> is_Some (nodes h !! p)) ->
  (forall q fd, (q, fd) ∈ zip dirs fds -> unread fd h q -> kids h q = []) ->
  count_children dirs fds h = Some (zlen (flat_map (kids h) dirs)).
Proof using.
  induction dirs as [|p dirs IH]; intros [|fd fds] h Hl D U; try done. cbn [count_children].
  destruct (D p) as [n Hn]; [left|]. rewrite Hn. cbn [mbind option_bind]. rewrite IH; [|by injection Hl|intros; apply D; by right|intros; apply (U q fd0); [by right|done]].
  cbn [mbind option_bind flat_map]. rewrite zlen_app. f_equal. assert (kids h p = children n) as Ek by (unfold kids; by rewrite Hn).
  destruct (_ || _) eqn:Eu; [|by rewrite Ek]. rewrite (U p fd); [unfold zlen; cbn; lia|left|]. intros n' Hn'. rewrite Hn in Hn'. by injection Hn' as <-.
Qed.

Lemma norm_neg fd : (norm fd <? 0) = (fd <? 0).
Proof using. unfold norm. destruct (Z.leb_spec 0 fd); [done|]. symmetry. by apply Z.ltb_lt. Qed.
Lemma norm_pos fd : 0 <= fd -> norm fd = fd.
Proof using. intros H. unfold norm. by rewrite (proj2 (Z.leb_le _ _) H). Qed.

Lemma read_dirs_norm dirs : forall fds h, read_dirs config dirs (map norm fds) h = read_dirs config dirs fds h.
Proof using.
  induction dirs as [|p dirs IH]; intros [|fd fds] h; try done. cbn [read_dirs map]. unfold read_dir. rewrite norm_neg.
  destruct (nodes h !! p) as [n|]; [|done]. cbn [mbind option_bind]. destruct (Z.ltb_spec fd 0); [cbn; apply IH|]. rewrite norm_pos by done.
  destruct (_ <=? _); [cbn; apply IH|]. destruct (read_chunks _ _ _ _); cbn; [apply IH|done].
Qed.

Lemma count_norm dirs : forall fds h, count_children dirs (map norm fds) h = count_children dirs fds h.
Proof using. induction dirs as [|p dirs IH]; intros [|fd fds] h; try done. cbn [count_children map]. by rewrite norm_neg, IH. Qed.

Lemma ref_stat_norm fd c h : ref_stat (norm fd) c h = ref_stat fd c h.
Proof using.
  unfold ref_stat. destruct (nodes h !! c); [|done]. unfold norm. destruct (Z.leb_spec 0 fd) as [H|H]; [by rewrite (proj2 (Z.leb_le _ _) H)|done].
Qed.

Lemma ref_stats_norm dirs : forall fds h, ref_stats dirs (map norm fds) h = ref_stats dirs fds h.
Proof using.
  induction dirs as [|p dirs IH]; intros [|fd fds] h; try done. cbn [ref_stats map]. rewrite IH. f_equal.
  generalize (children (default null_node (nodes h !! p))). intros l. revert h. induction l as [|c l IHl]; intros h; [done|]. cbn. by rewrite ref_stat_norm, IHl.
Qed.

Lemma filter_norm fds : List.filter (fun fd => 0 <=? fd) (map norm fds) = List.filter (fun fd => 0 <=? fd) fds.
Proof using.
  induction fds as [|fd fds IH]; [done|]. cbn. rewrite IH. unfold norm. destruct (Z.leb_spec 0 fd) as [H|H]; [|done].
  by rewrite (proj2 (Z.leb_le _ _) H).
Qed.

End Reading.

(** ** Phase 3 *)

#[local] Arguments opens_to : simpl never.
#[local] Arguments stats_to : simpl never.

Section Stats.
Context {T : TreeEnv} {E : BatchEnv}.
Implicit Types (h : heap_t) (s : batch_t).

(** Heaps that differ in what statx reports. *)
Definition alike (n n' : tree_node_t) : Prop := node_name n' = node_name n /\ full_path n' = full_path n /\ children n' = children n.
Definition stat_like h h' : Prop := forall c, option_Forall2 alike (nodes h !! c) (nodes h' !! c).

Lemma stat_like_refl h : stat_like h h.
Proof using. intros c. destruct (nodes h !! c); constructor. done. Qed.

Lemma stat_like_trans h1 h2 h3 : stat_like h1 h2 -> stat_like h2 h3 -> stat_like h1 h3.
Proof using.
  intros A B c. specialize (A c). specialize (B c). destruct A as [n1 n2 (A1 & A2 & A3)|]; [|by inversion B; constructor].
  inversion B as [? n3 (B1 & B2 & B3)|]; subst. constructor. unfold alike. by rewrite B1, B2, B3.
Qed.

Lemma stat_like_upd h c r : stat_like h (upd h c (stat_node r)).
Proof using.
  intros q. unfold upd. cbn. destruct (decide (q = c)) as [->|Hq].
  - rewrite lookup_alter_eq. destruct (nodes h !! c); cbn; constructor. by destruct r.
  - rewrite lookup_alter_ne by done. apply stat_like_refl.
Qed.

Lemma stats_to_like l : forall h, stat_like h (stats_to l h).
Proof using.
  induction l as [|o l IH]; intros h; [apply stat_like_refl|]. unfold stats_to in *. cbn. eapply stat_like_trans; [|apply IH].
  destruct o; [apply stat_like_refl|apply stat_like_upd|apply stat_like_refl].
Qed.

Lemma stat_like_kids h h' q : stat_like h h' -> kids h' q = kids h q.
Proof using. intros L. unfold kids. specialize (L q). destruct L as [? ? (_ & _ & Hc)|]; [exact Hc|done]. Qed.

Definition end_heap s : heap_t := stats_to (flight s) (b_heap s).

(** Asking about some nodes: what it comes to is what asking one after the
    other gives. *)
Definition asks (cs : list nat) (f : heap_t -> heap_t) s s' : Prop :=
  stat_like (b_heap s) (b_heap s') /\ end_heap s' = f (end_heap s) /\
  (forall x, x ∈ targets (flight s') -> x ∈ targets (flight s) \/ exists c, x = inr c /\ c ∈ cs) /\
  NoDup (targets (flight s')) /\ s_remaining s' - zlen (flight s') = s_remaining s - zlen (flight s) - zlen cs /\
  closed s' = closed s /\ closes (flight s') = closes (flight s) /\ b_visited s' = b_visited s /\ fds s' = fds s /\
  (length (flight s') <= length (flight s) + length cs)%nat.

Lemma asks_trans cs ds f g s1 s2 s3 : asks cs f s1 s2 -> asks ds g s2 s3 -> asks (cs ++ ds) (fun h => g (f h)) s1 s3.
Proof using.
  intros (A1 & A2 & A3 & A4 & A5 & A6 & A7 & A8 & A9 & A10) (B1 & B2 & B3 & B4 & B5 & B6 & B7 & B8 & B9 & B10).
  split; [by eapply stat_like_trans|]. split; [by rewrite B2, A2|]. split.
  - intros x Hx. destruct (B3 x Hx) as [H|(c & -> & Hc)]; [|right; exists c; split; [done|set_solver]].
    destruct (A3 x H) as [|(c & -> & Hc)]; [by left|right; exists c; split; [done|set_solver]].
  - split; [done|]. rewrite zlen_app, length_app. split_and!; try congruence; lia.
Qed.

Lemma stat_child_ok fd c s : is_Some (nodes (b_heap s) !! c) -> NoDup (targets (flight s)) -> inr c ∉ targets (flight s) ->
  exists s', stat_child fd c s = Some s' /\ asks [c] (ref_stat fd c) s s'.
Proof using.
  intros [m Hm] N Hc. unfold stat_child. rewrite Hm. cbn [mbind option_bind].
  set (sfd := if 0 <=? fd then fd else AT_FDCWD). set (path := if 0 <=? fd then node_name m else full_path m).
  assert (ref_stat fd c (end_heap s) = upd (end_heap s) c (stat_node (stat_result sfd path))) as Er.
  { unfold ref_stat, end_heap. pose proof (stats_to_like (flight s) (b_heap s) c) as L. rewrite Hm in L.
    inversion L as [? m' (L1 & L2 & L3) Eq1 Em|]; subst. unfold sfd, path. rewrite L1, L2. by destruct (0 <=? fd). }
  rewrite submit_eq. destruct (accepts (calls s)); eexists; (split; [reflexivity|]); unfold asks, end_heap at 1; cbn.
  - split; [apply stat_like_refl|]. split; [|split; [|split; [|split; [|split; [done|split; [|split; [done|split; [done|]]]]]]]].
    + unfold stats_to at 1. rewrite foldl_app. cbn. by rewrite Er.
    + intros x. rewrite targets_app. intros [|Hx%list_elem_of_singleton]%elem_of_app; [by left|right; exists c; split; [done|left]].
    + rewrite targets_app. apply NoDup_app. split; [done|]. split; [|apply NoDup_singleton]. intros x Hx ->%list_elem_of_singleton. done.
    + rewrite zlen_app. unfold zlen. cbn. lia.
    + unfold closes. rewrite flat_map_app. apply app_nil_r.
    + rewrite length_app. cbn. lia.
  - split; [apply stat_like_upd|]. split; [by rewrite stats_to_upd, Er|]. split; [by left|]. split; [done|].
    split; [unfold zlen; cbn; lia|]. split_and!; try done. lia.
Qed.

Lemma stat_children_ok fd l : forall s, (forall c, c ∈ l -> is_Some (nodes (b_heap s) !! c)) -> NoDup l -> NoDup (targets (flight s)) ->
  (forall c, c ∈ l -> inr c ∉ targets (flight s)) ->
  exists s', stat_children fd l s = Some s' /\ asks l (fun h => foldl (fun h c => ref_stat fd c h) h l) s s'.
Proof using.
  induction l as [|c l IH]; intros s D N Nt F; cbn [stat_children].
  - exists s. split; [done|]. split; [apply stat_like_refl|]. split; [done|]. split; [by left|]. split; [done|]. unfold zlen; cbn. split_and!; try done; lia.
  - apply NoDup_cons in N as [Hc N]. destruct (stat_child_ok fd c s) as (s1 & -> & A); [apply D; left|done|apply F; left|]. cbn [mbind option_bind].
    pose proof A as (A1 & _ & A3 & A4 & _). destruct (IH s1) as (s2 & -> & B); [|done|done| |].
    + intros d Hd. destruct (D d) as [m Hm]; [by right|]. specialize (A1 d). rewrite Hm in A1. inversion A1; by eexists.
    + intros d Hd Hx. destruct (A3 _ Hx) as [H|(c' & [= ->] & ->%list_elem_of_singleton)]; [by apply (F d); [right|]|done].
    + exists s2. split; [done|]. exact (asks_trans [c] l _ _ _ _ _ A B).
Qed.

Lemma stat_dirs_ok dirs : forall fds s, length fds = length dirs -> (forall p, p ∈ dirs -> is_Some (nodes (b_heap s) !! p)) ->
  (forall c, c ∈ flat_map (kids (b_heap s)) dirs -> is_Some (nodes (b_heap s) !! c)) -> NoDup (flat_map (kids (b_heap s)) dirs) ->
  NoDup (targets (flight s)) -> (forall c, c ∈ flat_map (kids (b_heap s)) dirs -> inr c ∉ targets (flight s)) ->
  exists s', stat_dirs dirs fds s = Some s' /\ asks (flat_map (kids (b_heap s)) dirs) (ref_stats dirs fds) s s'.
Proof using.
  induction dirs as [|p dirs IH]; intros [|fd fds] s Hl D K N Nt F; try done; cbn [stat_dirs].
  - exists s. split; [done|]. split; [apply stat_like_refl|]. split; [done|]. split; [by left|]. split; [done|]. unfold zlen; cbn. split_and!; try done; lia.
  - destruct (D p) as [n Hn]; [left|]. rewrite Hn. cbn [mbind option_bind]. assert (kids (b_heap s) p = children n) as Ek by (unfold kids; by rewrite Hn).
    cbn [flat_map] in *. rewrite Ek in *. apply NoDup_app in N as (N1 & N2 & N3).
    destruct (stat_children_ok fd (children n) s) as (s1 & -> & A); [intros c Hc; apply K; set_solver|done|done|intros c Hc; apply F; set_solver|].
    cbn [mbind option_bind]. pose proof A as (A1 & A2 & A3 & A4 & _).
    assert (flat_map (kids (b_heap s1)) dirs = flat_map (kids (b_heap s)) dirs) as Ef by (apply flat_map_ext; intros q; by apply stat_like_kids).
    assert (forall q, is_Some (nodes (b_heap s) !! q) -> is_Some (nodes (b_heap s1) !! q)) as Sm.
    { intros q [m Hm]. specialize (A1 q). rewrite Hm in A1. inversion A1; by eexists. }
    destruct (IH fds s1) as (s2 & -> & B); rewrite ?Ef; [by injection Hl|intros q Hq; apply Sm, D; by right|intros c Hc; apply Sm, K; set_solver|done|done| |].
    + intros c Hc Hx. destruct (A3 _ Hx) as [H|(c' & [= ->] & Hc')]; [by apply (F c); [set_solver|]|by apply (N2 c')].
    + exists s2. split; [done|]. rewrite Ef in B. pose proof (asks_trans _ _ _ _ _ _ _ A B) as C. cbn [ref_stats].
      destruct C as (C1 & C2 & C3). split; [done|]. split; [|done]. rewrite C2. cbn [ref_stats]. f_equal.
      assert (kids (end_heap s) p = children n) as Ek'; [|unfold kids in Ek'; by rewrite Ek'].
      rewrite <- Ek. apply stat_like_kids, stats_to_like.
Qed.

Lemma ref_stats_like dirs : forall fds h, stat_like h (ref_stats dirs fds h).
Proof using.
  induction dirs as [|p dirs IH]; intros [|fd fds] h; try apply stat_like_refl. cbn [ref_stats]. eapply stat_like_trans; [|apply IH].
  generalize (children (default null_node (nodes h !! p))). intros l. revert h. induction l as [|c l IHl]; intros h; [apply stat_like_refl|].
  cbn. eapply stat_like_trans; [|apply IHl]. unfold ref_stat. destruct (nodes h !! c); [apply stat_like_upd|apply stat_like_refl].
Qed.

End Stats.

(** ** Phase 4 *)

Section Closing.
Context {T : TreeEnv} {E : BatchEnv} (config : config_t).

Lemma prune_ok l : forall h, NoDup l -> (forall c, c ∈ l -> exists m, nodes h !! c = Some m /\ children m = []) ->
  exists k h', prune l h = Some (k, h') /\ k ⊆ l /\ (forall x, x ∉ l -> nodes h' !! x = nodes h !! x).
Proof using.
  induction l as [|c l IH]; intros h N L; cbn [prune]; [by exists [], h|]. apply NoDup_cons in N as [Hc N].
  destruct (L c) as (m & Hm & Hch); [left|]. rewrite Hm. cbn [mbind option_bind]. destruct (is_dir m).
  - destruct (IH h N) as (k & h' & -> & K1 & K2); [intros d Hd; apply L; by right|]. cbn. exists (c :: k), h'. split; [done|].
    split; [set_solver|]. intros x [_ Hx]%not_elem_of_cons. by apply K2.
  - destruct (node_free_leaf h c m Hm Hch) as (h1 & -> & E1 & _). destruct (IH h1 N) as (k & h' & -> & K1 & K2).
    + intros d Hd. destruct (L d) as (md & Hd1 & Hd2); [by right|]. exists md. rewrite E1, lookup_delete_ne by (intros ->; done). done.
    + exists k, h'. split; [done|]. split; [set_solver|]. intros x [Hx1 Hx2]%not_elem_of_cons. rewrite K2, E1, lookup_delete_ne; done.
Qed.

Lemma ref_prunes_ok dirs : forall h, NoDup (dirs ++ flat_map (kids h) dirs) -> (forall p, p ∈ dirs -> is_Some (nodes h !! p)) ->
  (forall p c, p ∈ dirs -> c ∈ kids h p -> exists m, nodes h !! c = Some m /\ children m = []) ->
  exists h', ref_prunes config dirs h = Some h'.
Proof using.
  induction dirs as [|p dirs IH]; intros h N D L; cbn [ref_prunes]; [by exists h|]. unfold prune_dir.
  destruct (D p) as [n Hn]; [left|]. rewrite Hn. cbn [mbind option_bind].
  assert (kids h p = children n) as Ek by (unfold kids; by rewrite Hn).
  cbn [flat_map] in N. rewrite Ek, <- app_comm_cons in N. apply NoDup_cons in N as [Np N].
  assert (NoDup (dirs ++ flat_map (kids h) dirs) /\ NoDup (children n) /\ (forall x, x ∈ children n -> x ∉ dirs ++ flat_map (kids h) dirs)) as (N1 & N2 & N3).
  { rewrite (Permutation_app_comm (children n)), app_assoc in N. apply NoDup_app in N as (A & B & C). split; [done|]. split; [done|].
    intros x Hx Hx'. by apply (B x). }
  destruct (dirs_only config); cbn [mbind option_bind].
  - destruct (prune_ok (children n) h N2) as (k & h1 & -> & K1 & K2); [intros c Hc; apply (L p c); [left|by rewrite Ek]|]. cbn.
    set (h2 := upd h1 p _). assert (forall q, q ∈ dirs ++ flat_map (kids h) dirs -> nodes h2 !! q = nodes h !! q) as Same.
    { intros q Hq. unfold h2, upd. cbn. rewrite lookup_alter_ne by (intros <-; set_solver). apply K2. intros Hq'. by apply (N3 q). }
    assert (forall q, q ∈ dirs -> kids h2 q = kids h q) as Ks by (intros q Hq; unfold kids; rewrite Same; [done|set_solver]).
    assert (flat_map (kids h2) dirs = flat_map (kids h) dirs) as Ef.
    { clear -Ks. induction dirs as [|q l IHl]; [done|]. cbn. rewrite Ks by left. f_equal. apply IHl. intros r Hr. apply Ks. by right. }
    apply IH; [by rewrite Ef|intros q Hq; rewrite Same by set_solver; apply D; by right|].
    intros q c Hq Hc. rewrite Ks in Hc by done. rewrite Same; [apply (L q c); [by right|done]|]. apply elem_of_app. right. apply elem_of_flat_map. by exists q.
  - apply IH; [done|intros; apply D; by right|intros q c Hq; apply L; by right].
Qed.

Implicit Types (s : batch_t).

Lemma close_dirs_ok dirs : forall fds s h', length fds = length dirs -> ref_prunes config dirs (b_heap s) = Some h' ->
  targets (flight s) = [] -> c_remaining s = zlen (flight s) ->
  exists s', close_dirs config dirs fds s = Some s' /\ b_heap s' = h' /\ b_visited s' = b_visited s /\ targets (flight s') = [] /\
    c_remaining s' = zlen (flight s') /\ closed s' ++ closes (flight s') ≡ₚ closed s ++ closes (flight s) ++ List.filter (fun fd => 0 <=? fd) fds /\
    (length (flight s') <= length (flight s) + length dirs)%nat.
Proof using.
  induction dirs as [|p dirs IH]; intros [|fd fds] s h' Hl Hp Ht Hc; try done; cbn [close_dirs ref_prunes] in *.
  - injection Hp as <-. exists s. split; [done|]. cbn. rewrite app_nil_r. split_and!; try done; lia.
  - destruct (prune_dir config p (b_heap s)) as [h1|] eqn:E1; [|done]. cbn [mbind option_bind] in Hp. unfold close_dir.
    set (s1 := if 0 <=? fd then _ else s).
    assert (b_heap s1 = b_heap s /\ b_visited s1 = b_visited s /\ targets (flight s1) = [] /\ c_remaining s1 = zlen (flight s1) /\
      closed s1 ++ closes (flight s1) ≡ₚ closed s ++ closes (flight s) ++ (if 0 <=? fd then [fd] else []) /\
      (length (flight s1) <= S (length (flight s)))%nat) as (A1 & A2 & A3 & A4 & A5 & A6).
    { unfold s1. destruct (0 <=? fd); [|rewrite app_nil_r; split_and!; try done; lia]. rewrite submit_eq.
      match goal with |- context [accepts ?k] => destruct (accepts k) end; cbn.
      - rewrite targets_app, Ht, zlen_app, Hc, length_app. unfold closes. rewrite flat_map_app. cbn. split_and!; try done; lia.
      - split_and!; try done; [lia|by rewrite <- app_assoc, (Permutation_app_comm [fd])|lia]. }
    clearbody s1. rewrite A1, E1. cbn [mbind option_bind]. 
    destruct (IH fds (s1 <| b_heap := h1 |>) h') as (s' & -> & B1 & B2 & B3 & B4 & B5 & B6); [by injection Hl|done|done|done|].
    exists s'. split; [done|]. split; [done|]. split; [by rewrite B2|]. split; [done|]. split; [done|]. split; [|cbn in B6 |- *; lia].
    rewrite B5. cbn. rewrite app_assoc, A5, <- !app_assoc. do 2 f_equiv. by destruct (0 <=? fd).
Qed.

End Closing.

(** ** The claim *)

Section Claim.
Context {T : TreeEnv} {E : BatchEnv}.
Implicit Types (s : batch_t) (l : list op).

Definition opens_only l : Prop := forall o, o ∈ l -> match o with OpOpen _ _ => True | _ => False end.
Definition stats_only l : Prop := forall o, o ∈ l -> match o with OpStat _ _ _ => True | _ => False end.
Definition closes_only l : Prop := forall o, o ∈ l -> match o with OpClose _ => True | _ => False end.

Lemma no_closes l o : closes l = [] -> o ∈ l -> match o with OpClose _ => False | _ => True end.
Proof using.
  intros H Ho. destruct o as [| |fd]; try done. assert (fd ∈ closes l) as Hx by (apply elem_of_flat_map; exists (OpClose fd); split; [done|left]).
  rewrite H in Hx. by apply not_elem_of_nil in Hx.
Qed.

Lemma opens_only_ok l : (forall x, x ∈ targets l -> exists j, x = inl j) -> closes l = [] -> opens_only l.
Proof using.
  intros Ht Hc o Ho. pose proof (no_closes l o Hc Ho). destruct o as [|c fd path|]; try done.
  destruct (Ht (inr c)) as (j & ?); [|done]. apply elem_of_flat_map. exists (OpStat c fd path). split; [done|left].
Qed.

Lemma stats_only_ok l : (forall x, x ∈ targets l -> exists c, x = inr c) -> closes l = [] -> stats_only l.
Proof using.
  intros Ht Hc o Ho. pose proof (no_closes l o Hc Ho). destruct o as [i path| |]; try done.
  destruct (Ht (inl i)) as (j & ?); [|done]. apply elem_of_flat_map. exists (OpOpen i path). split; [done|left].
Qed.

Lemma closes_only_ok l : targets l = [] -> closes_only l.
Proof using.
  intros Ht o Ho. destruct o as [i path|c fd path|]; try done.
  - assert (inl i ∈ targets l) as Hx by (apply elem_of_flat_map; exists (OpOpen i path); split; [done|left]). rewrite Ht in Hx. by apply not_elem_of_nil in Hx.
  - assert (inr c ∈ targets l) as Hx by (apply elem_of_flat_map; exists (OpStat c fd path); split; [done|left]). rewrite Ht in Hx. by apply not_elem_of_nil in Hx.
Qed.

(** The counters go down with the completions. *)
Lemma settle_opens l : forall s, opens_only l -> o_remaining (settle l s) = o_remaining s - zlen l.
Proof using.
  induction l as [|o l IH]; intros s H; [unfold zlen; cbn; lia|]. change (settle (o :: l) s) with (settle l (complete o s)).
  rewrite IH by (intros o' Ho; apply H; by right). rewrite zlen_cons. pose proof (H o ltac:(left)). destruct o; try done. cbn. lia.
Qed.
Lemma settle_stats l : forall s, stats_only l -> s_remaining (settle l s) = s_remaining s - zlen l.
Proof using.
  induction l as [|o l IH]; intros s H; [unfold zlen; cbn; lia|]. change (settle (o :: l) s) with (settle l (complete o s)).
  rewrite IH by (intros o' Ho; apply H; by right). rewrite zlen_cons. pose proof (H o ltac:(left)). destruct o; try done. cbn. lia.
Qed.
Lemma settle_closes l : forall s, closes_only l -> c_remaining (settle l s) = c_remaining s - zlen l.
Proof using.
  induction l as [|o l IH]; intros s H; [unfold zlen; cbn; lia|]. change (settle (o :: l) s) with (settle l (complete o s)).
  rewrite IH by (intros o' Ho; apply H; by right). rewrite zlen_cons. pose proof (H o ltac:(left)). destruct o; try done. cbn. lia.
Qed.

Lemma opens_heap l h : opens_only l -> stats_to l h = h.
Proof using.
  revert h. induction l as [|o l IH]; intros h H; [done|]. unfold stats_to in *. cbn. pose proof (H o ltac:(left)).
  destruct o; try done. apply IH. intros o' Ho. apply H. by right.
Qed.
Lemma closes_heap l h : closes_only l -> stats_to l h = h.
Proof using.
  revert h. induction l as [|o l IH]; intros h H; [done|]. unfold stats_to in *. cbn. pose proof (H o ltac:(left)).
  destruct o; try done. apply IH. intros o' Ho. apply H. by right.
Qed.

Lemma ref_opens_ok config dirs h : forall vs, (forall p, p ∈ dirs -> is_Some (nodes h !! p)) ->
  exists rf vs', ref_opens config dirs h vs = Some (rf, vs') /\ length rf = length dirs.
Proof using.
  induction dirs as [|p dirs IH]; intros vs D; cbn [ref_opens]; [by exists [], vs|]. unfold ref_open. destruct (D p) as [n ->]; [left|].
  cbn [mbind option_bind]. destruct (_ && _).
  - cbn [mbind option_bind fst snd]. destruct (IH vs) as (rf & vs' & -> & Hl); [intros; apply D; by right|]. cbn. eexists _, _. split; [done|]. cbn. by rewrite Hl.
  - destruct (visited_insert _ _) as [fresh vs1]. cbn [mbind option_bind fst snd].
    destruct (IH vs1) as (rf & vs' & -> & Hl); [intros; apply D; by right|]. cbn. eexists _, _. split; [done|]. cbn. by rewrite Hl.
Qed.

Context (config : config_t) (Hfair : forall k, 0%nat ∈ delivers k \/ 0%nat ∈ delivers (S k)) (Hint : forall k, sigint_at k = false).

(** Opening with its drain. *)
Lemma phase_1 (fuel : nat) dirs s rf vs : ref_opens config dirs (b_heap s) (b_visited s) = Some (rf, vs) -> length rf = length dirs ->
  flight s = [] -> (length dirs <= fuel)%nat ->
  exists s1 s', open_dirs config 0 dirs (s <| o_remaining := 0 |> <| fds := replicate (length dirs) (-1) |>) = Some s1 /\
    drain fuel o_remaining s1 = Some s' /\ flight s' = [] /\ b_heap s' = b_heap s /\ b_visited s' = vs /\ map norm (fds s') = rf /\ closed s' ≡ₚ closed s.
Proof using Hfair Hint.
  intros Hr Hl Hf Hfuel. set (s0 := s <| o_remaining := 0 |> <| fds := _ |>).
  assert (flight s0 = [] /\ b_heap s0 = b_heap s /\ b_visited s0 = b_visited s /\ length (fds s0) = length dirs /\ o_remaining s0 = 0 /\ closed s0 = closed s)
    as (E1 & E2 & E3 & E4 & E5 & E6) by (unfold s0; cbn; by rewrite length_replicate).
  clearbody s0. destruct (open_dirs_ok config dirs 0 s0 rf vs) as (s1 & R1 & B1 & B2 & B3 & B4 & B5 & B5' & B6 & B7 & B8 & B9);
    rewrite ?E1, ?E2, ?E3, ?E4, ?E5; try done; [by constructor|by intros x ?%not_elem_of_nil|].
  assert (opens_only (flight s1)) as Oo by (apply opens_only_ok; [done|by rewrite B8, E1]).
  destruct (drain_ok Hfair Hint o_remaining fuel s1 B5) as (s' & R2 & F2 & C2 & D2).
  { intros s2 [S1 _ _ S4]. assert (opens_only (flight s2)) as Oo2 by (intros o Ho; apply Oo, S4, Ho).
    assert (o_remaining (settle (flight s2) s2) = o_remaining (settle (flight s1) s1)) as Eq by (unfold settled, core in S1; congruence).
    rewrite !settle_opens in Eq by done. lia. }
  { rewrite E1 in B9. cbn in B9. lia. }
  exists s1, s'. split; [done|]. split; [done|]. split; [done|]. unfold settled in C2. destruct (settle_parts (flight s1) s1) as (P1 & P2 & P3).
  assert (fds s' = opens_to (flight s1) (fds s1) /\ b_heap s' = b_heap s1 /\ b_visited s' = b_visited s1) as (Q1 & Q2 & Q3).
  { rewrite <- (opens_heap (flight s1) (b_heap s1) Oo), <- P1, <- P2, <- P3. unfold core in C2. split_and!; congruence. }
  split; [congruence|]. split; [congruence|]. split.
  - rewrite Q1. fold (end_fds s1). rewrite B4. cbn [take]. rewrite drop_ge; [by rewrite app_nil_r|]. unfold end_fds. rewrite length_map, opens_to_length. lia.
  - rewrite D2, B7, B8, E1, E6. by rewrite app_nil_r.
Qed.

(** Asking with its drain. *)
Lemma phase_3 (fuel : nat) dirs fd s total : read_ok dirs (b_heap s) -> length fd = length dirs ->
  total = zlen (flat_map (kids (b_heap s)) dirs) -> flight s = [] -> (length (flat_map (kids (b_heap s)) dirs) <= fuel)%nat ->
  exists s1 s', stat_dirs dirs fd (s <| s_remaining := total |>) = Some s1 /\ drain fuel s_remaining s1 = Some s' /\ flight s' = [] /\
    b_heap s' = ref_stats dirs fd (b_heap s) /\ stat_like (b_heap s) (b_heap s') /\ b_visited s' = b_visited s /\ fds s' = fds s /\ closed s' ≡ₚ closed s.
Proof using Hfair Hint.
  intros [D L N F] Hl Ht Hf Hfuel. set (s0 := s <| s_remaining := total |>).
  assert (forall c, c ∈ flat_map (kids (b_heap s)) dirs -> is_Some (nodes (b_heap s) !! c)) as Hk.
  { intros c (p & Hp & Hc)%elem_of_flat_map. destruct (L p c Hp Hc) as (m & Hm & _). by eexists. }
  destruct (stat_dirs_ok dirs fd s0) as (s1 & R1 & A1 & A2 & A3 & A4 & A5 & A6 & A7 & A8 & A9 & A10); try done.
  { by apply NoDup_app in N as (_ & _ & N). }
  { change (flight s0) with (flight s). rewrite Hf. constructor. }
  { intros c _. change (flight s0) with (flight s). rewrite Hf. apply not_elem_of_nil. }
  change (flight s0) with (flight s) in *. change (b_heap s0) with (b_heap s) in *. rewrite Hf in *.
  assert (stats_only (flight s1)) as So.
  { apply stats_only_ok; [|by rewrite A7]. intros x Hx. destruct (A3 x Hx) as [H|(c & -> & _)]; [by apply not_elem_of_nil in H|by exists c]. }
  destruct (drain_ok Hfair Hint s_remaining fuel s1 A4) as (s' & R2 & F2 & C2 & D2).
  { intros s2 [S1 _ _ S4]. assert (stats_only (flight s2)) as So2 by (intros o Ho; apply So, S4, Ho).
    assert (s_remaining (settle (flight s2) s2) = s_remaining (settle (flight s1) s1)) as Eq by (unfold settled, core in S1; congruence).
    rewrite !settle_stats in Eq by done. change (s_remaining s0) with total in A5. change (zlen (@nil op)) with 0 in A5. lia. }
  { cbn in A10. lia. }
  exists s1, s'. split; [done|]. split; [done|]. split; [done|]. unfold settled in C2. destruct (settle_parts (flight s1) s1) as (P1 & P2 & P3).
  assert (opens_to (flight s1) (fds s1) = fds s1) as Eo.
  { clear -So. generalize (fds s1). induction (flight s1) as [|o l IH]; intros f; [done|]. unfold opens_to in *. cbn. pose proof (So o ltac:(left)).
    destruct o; try done. apply IH. intros o' Ho. apply So. by right. }
  assert (b_heap s' = end_heap s1 /\ b_visited s' = b_visited s1 /\ fds s' = fds s1) as (Q1 & Q2 & Q3).
  { unfold end_heap. rewrite <- P2, <- P3, <- Eo, <- P1. unfold core in C2. split_and!; congruence. }
  split; [rewrite Q1, A2; unfold end_heap; change (flight s0) with (flight s); by rewrite Hf|].
  split; [rewrite Q1; eapply stat_like_trans; [exact A1|apply stats_to_like]|].
  split; [by rewrite Q2|]. split; [by rewrite Q3|]. rewrite D2, A6, A7. cbn. by rewrite app_nil_r.
Qed.


(** Closing with its drain. *)
Lemma phase_4 (fuel : nat) dirs fd s h' : ref_prunes config dirs (b_heap s) = Some h' -> length fd = length dirs -> flight s = [] -> (length dirs <= fuel)%nat ->
  exists s1 s', close_dirs config dirs fd (s <| c_remaining := 0 |>) = Some s1 /\ drain fuel c_remaining s1 = Some s' /\ flight s' = [] /\
    b_heap s' = h' /\ b_visited s' = b_visited s /\ closed s' ≡ₚ closed s ++ List.filter (fun fd => 0 <=? fd) fd.
Proof using Hfair Hint.
  intros Hp Hl Hf Hfuel. set (s0 := s <| c_remaining := 0 |>).
  destruct (close_dirs_ok config dirs fd s0 h') as (s1 & R1 & B1 & B2 & B3 & B4 & B5 & B6); try done;
    change (flight s0) with (flight s) in *; rewrite Hf in *; try done.
  pose proof (closes_only_ok _ B3) as Oc. destruct (drain_ok Hfair Hint c_remaining fuel s1) as (s' & R2 & F2 & C2 & D2).
  { rewrite B3. constructor. }
  { intros s2 [S1 _ _ S4]. assert (closes_only (flight s2)) as Oc2 by (intros o Ho; apply Oc, S4, Ho).
    assert (c_remaining (settle (flight s2) s2) = c_remaining (settle (flight s1) s1)) as Eq by (unfold settled, core in S1; congruence).
    rewrite !settle_closes in Eq by done. lia. }
  { cbn in B6. lia. }
  exists s1, s'. split; [done|]. split; [done|]. split; [done|]. unfold settled in C2. destruct (settle_parts (flight s1) s1) as (_ & P2 & P3).
  assert (b_heap s' = b_heap s1 /\ b_visited s' = b_visited s1) as (Q2 & Q3).
  { rewrite <- (closes_heap (flight s1) (b_heap s1) Oc), <- P2, <- P3. unfold core in C2. split; congruence. }
  split; [congruence|]. split; [by rewrite Q3, B2|]. by rewrite D2, B5.
Qed.

Lemma prunes_like dirs h h' : read_ok dirs h -> stat_like h h' -> exists h2, ref_prunes config dirs h' = Some h2.
Proof using.
  intros [D L N F] A. assert (forall q, kids h' q = kids h q) as Ek by (intros q; by apply stat_like_kids). apply ref_prunes_ok.
  - by rewrite (flat_map_ext _ _ Ek).
  - intros p Hp. destruct (D p Hp) as [n Hn]. specialize (A p). rewrite Hn in A. inversion A; by eexists.
  - intros p c Hp Hc. rewrite Ek in Hc. destruct (L p c Hp Hc) as (m & Hm & Hl). specialize (A c). rewrite Hm in A.
    inversion A as [? m' (_ & _ & A3) E1 E2|]; subst. exists m'. split; [done|congruence].
Qed.

(** The counter and the size of the batch of phase 3. *)
Lemma count_read dirs rf h h1 : read_dirs config dirs rf h = Some h1 -> NoDup dirs -> length rf = length dirs -> read_ok dirs h ->
  (forall p, p ∈ dirs -> kids h p = []) -> read_ok dirs h1 /\ count_children dirs rf h1 = Some (zlen (flat_map (kids h1) dirs)).
Proof using.
  intros E1 Hnd Hl R0 Hk. destruct (read_dirs_ok config dirs dirs rf h) as (h1' & E1' & R1 & P1 & _ & U1); try done.
  rewrite E1 in E1'. injection E1' as <-. split; [done|]. apply count_ok; [done|apply R1|]. intros q fd Hz Hu. apply (U1 q fd Hz).
  intros n Hn. assert (q ∈ dirs) as Hq by (by apply elem_of_zip_l in Hz). destruct (P1 q n Hq Hn) as (n1 & Hn1 & Ep). rewrite <- Ep. by apply Hu.
Qed.

(** C23. A batch of directories, opened, asked about and closed asynchronously, ends
    with the tree that doing one thing after the other gives, whichever
    submissions the engine refuses and in whatever order it completes them, and
    whichever allocations fail: as long as the engine does not stall and the user
    does not interrupt, the reference returns, the batch returns, the nodes and
    the set of visited directories are those of the reference, nothing is left in
    flight, and exactly the directories that were opened have been closed. *)
Theorem batch_is_sequential dirs s (Hnd : NoDup dirs) (Hdirs : forall p, p ∈ dirs -> exists n, nodes (b_heap s) !! p = Some n /\ children n = [])
    (Hfresh : forall x, (brk (b_heap s) <= x)%nat -> nodes (b_heap s) !! x = None) (Hflight : flight s = []) :
  exists h vs opened, ref_batch config dirs (b_heap s) (b_visited s) = Some (h, vs, opened) /\
    exists N, forall fuel, (N <= fuel)%nat -> exists s', process_dir_batch config fuel dirs s = Some s' /\
      nodes (b_heap s') = nodes h /\ b_visited s' = vs /\ flight s' = [] /\ closed s' ≡ₚ closed s ++ opened.
Proof using Hfair Hint.
  assert (forall p, p ∈ dirs -> kids (b_heap s) p = []) as Hk by (intros p Hp; destruct (Hdirs p Hp) as (n & Hn & Hc); unfold kids; by rewrite Hn).
  assert (flat_map (kids (b_heap s)) dirs = []) as Hfm.
  { clear -Hk. induction dirs as [|p l IH]; [done|]. cbn. rewrite Hk by left. apply IH. intros q Hq. apply Hk. by right. }
  assert (read_ok dirs (b_heap s)) as R0.
  { split; [|intros p c Hp Hc; rewrite Hk in Hc by done; by apply not_elem_of_nil in Hc|by rewrite Hfm, app_nil_r|done].
    intros p Hp. destruct (Hdirs p Hp) as (n & Hn & _). by eexists. }
  destruct (ref_opens_ok config dirs (b_heap s) (b_visited s) (r_dirs _ _ R0)) as (rf & vs & Er & Hlr).
  unfold ref_batch. rewrite Er. cbn [mbind option_bind].
  destruct (read_dirs_ok config dirs dirs rf (b_heap s)) as (h1 & E1 & _); try done. rewrite E1. cbn [mbind option_bind].
  destruct (count_read dirs rf (b_heap s) h1 E1 Hnd Hlr R0 Hk) as [R1 Ec]. rewrite Ec. cbn [mbind option_bind].
  set (kc := flat_map (kids h1) dirs) in *. set (h2 := if 0 <? zlen kc then _ else h1).
  assert (exists h3, ref_prunes config dirs h2 = Some h3) as [h3 E3].
  { unfold h2, alloc. destruct (0 <? zlen kc); [|apply (prunes_like dirs h1); [done|apply stat_like_refl]].
    destruct (ask_alloc (asked h1)); apply (prunes_like dirs h1); try done; [|exact (stat_like_refl h1)].
    eapply stat_like_trans; [|apply ref_stats_like]. exact (stat_like_refl h1). }
  rewrite E3. cbn [mbind option_bind]. eexists h3, vs, _. split; [reflexivity|]. exists (length dirs + length kc)%nat. intros fuel Hfuel.
  unfold process_dir_batch. destruct (phase_1 fuel dirs s rf vs Er Hlr Hflight ltac:(lia)) as (s1 & s2 & -> & A2 & A3 & A4 & A5 & A6 & A7).
  cbn [mbind option_bind]. rewrite A2. cbn [mbind option_bind]. rewrite A4, <- (read_dirs_norm config dirs (fds s2)), A6, E1. cbn [mbind option_bind].
  rewrite <- (count_norm dirs (fds s2)), A6, Ec. cbn [mbind option_bind].
  set (s3 := s2 <| b_heap := h1 |>).
  match goal with |- context [if 0 <? zlen kc then ?a else ?b] => set (phase := if 0 <? zlen kc then a else b) end.
  assert (exists s4, phase = Some s4 /\ b_heap s4 = h2 /\ flight s4 = [] /\ b_visited s4 = vs /\ fds s4 = fds s2 /\ closed s4 ≡ₚ closed s) as (s4 & -> & C1 & C2 & C3 & C4 & C5).
  { unfold phase, h2, alloc. change (b_heap s3) with h1. destruct (0 <? zlen kc); [|by exists s3].
    destruct (ask_alloc (asked h1)); cbn [negb]; [|by eexists].
    set (s3' := s3 <| b_heap := h1 <| asked := S (asked h1) |> |>).
    destruct (phase_3 fuel dirs (fds s3') s3' (zlen kc)) as (s5 & s4 & F1 & F2 & F3 & F4 & F5 & F6 & F7 & F8); try done.
    - destruct R1 as [D L N F]. by split.
    - change (fds s3') with (fds s2). rewrite <- A6, length_map in Hlr. done.
    - change (flat_map (kids (b_heap s3')) dirs) with kc. lia.
    - cbn [mbind option_bind]. change (fds s3) with (fds s3') in *. rewrite F1. cbn [mbind option_bind]. exists s4. split; [done|].
      split; [rewrite F4; change (fds s3') with (fds s2); by rewrite <- ref_stats_norm, A6|]. split; [done|].
      split; [by rewrite F6|]. split; [by rewrite F7|]. by rewrite F8. }
  cbn [mbind option_bind]. destruct (phase_4 fuel dirs (fds s4) s4 h3) as (s5 & s6 & -> & G2 & G3 & G4 & G5 & G6); [by rewrite C1| |done|lia|].
  { rewrite C4, <- (length_map norm), A6. done. }
  cbn [mbind option_bind]. exists s6. split; [done|]. split; [by rewrite G4|]. split; [congruence|]. split; [done|].
  rewrite G6, C4, C5, <- filter_norm, A6. done.
Qed.
End Claim.

(** ** Examples *)

#[local] Instance demo_alloc : TreeEnv := {| ask_alloc := fun _ => true |}.

Definition demo_stat (mode size : Z) : statx_t :=
  {| stx_mode := mode; stx_size := size; stx_mtime := 0; stx_uid := 0; stx_gid := 0; stx_dev_major := 0; stx_dev_minor := 0; stx_ino := size |}.

(** One directory with a file, a hidden file, a directory and an entry that is
    gone when it is asked about; the engine takes every other submission and
    completes something only when it is waited for. *)
Definition demo_fs (sigint : nat -> bool) : BatchEnv := {|
  open_result := fun path => if String.eqb path "/r" then 7 else -2;
  dents := fun fd => [[{| d_name := "."; d_type := 4 |}; {| d_name := "f"; d_type := 8 |}; {| d_name := ".h"; d_type := 8 |}];
                      [{| d_name := "d"; d_type := 4 |}; {| d_name := "gone"; d_type := 8 |}]];
  stat_result := fun fd path => if String.eqb path "f" then inl (demo_stat S_IFREG 11) else if String.eqb path "d" then inl (demo_stat S_IFDIR 12) else inr 2;
  makedev := fun a b => 256 * a + b;
  accepts := Nat.odd; delivers := fun k => if Nat.odd k then [0%nat] else []; sigint_at := sigint |}.

Definition demo_conf : config_t :=
  {| root_path := "/r"; max_depth := -1; dirs_only := false; show_hidden := false; sort_by_size := false; long_format := false; raw_bytes := false; use_color := false |}.

Definition demo_root : tree_node_t :=
  {| node_name := "/r"; full_path := "/r"; st := demo_stat S_IFDIR 3; stat_err := 0; is_dir := true; children := []; cap_children := 0; depth := 0;
     total_size := 0; total_files := 0; total_dirs := 0 |}.

Definition demo_batch : batch_t :=
  {| b_heap := {| nodes := {[0%nat := demo_root]}; brk := 1; asked := 0 |};
     b_visited := default {| buckets := []; keys := []; TreeVisited.cap := 0; count := 0 |} (visited_init 16 true true);
     fds := []; o_remaining := 0; s_remaining := 0; c_remaining := 0; flight := []; closed := []; calls := 0; turns := 0 |}.

Lemma batch_is_sequential_witness :
  exists h vs opened, ref_batch (E := demo_fs (fun _ => false)) demo_conf [0%nat] (b_heap demo_batch) (b_visited demo_batch) = Some (h, vs, opened) /\
    exists N, forall fuel, (N <= fuel)%nat -> exists s', process_dir_batch (E := demo_fs (fun _ => false)) demo_conf fuel [0%nat] demo_batch = Some s' /\
      nodes (b_heap s') = nodes h /\ b_visited s' = vs /\ flight s' = [] /\ closed s' ≡ₚ closed demo_batch ++ opened.
Proof.
  apply (batch_is_sequential (E := demo_fs (fun _ => false)) demo_conf).
  - intros k. cbn. rewrite Nat.odd_succ, <- Nat.negb_odd. destruct (Nat.odd k); [left|right]; left.
  - done.
  - apply NoDup_singleton.
  - intros p ->%list_elem_of_singleton. exists demo_root. by vm_compute.
  - intros [|x] Hx; [cbn in Hx; lia|]. cbn. by apply lookup_singleton_ne.
  - done.
Defined.

Definition outcome_of (r : option batch_t) : option (list (string * bool * Z * Z) * list op) :=
  s ← r; n ← nodes (b_heap s) !! 0%nat;
  Some (omap (fun c => m ← nodes (b_heap s) !! c; Some (node_name m, is_dir m, stx_size (st m), stat_err m)) (children n), flight s).

Example demo_batch_tree :
  outcome_of (process_dir_batch (E := demo_fs (fun _ => false)) demo_conf 10 [0%nat] demo_batch)
  = Some ([("f", false, 11, 0); ("d", true, 12, 0); ("gone", false, 0, 2)], [])%string.
Proof. vm_compute. reflexivity. Qed.

(** When the user interrupts, the drains end with requests in flight, and the
    batch returns: its contexts are gone (those of phase 3 are freed, the others
    are on the stack) when the engine completes the requests later on. *)
Example interrupted_batch_leaves_requests :
  outcome_of (process_dir_batch (E := demo_fs (fun k => (0 <? k)%nat)) demo_conf 10 [0%nat] demo_batch)
  = Some ([("f", false, 11, 0); ("d", true, 12, 0); ("gone", false, 0, 0)], [OpStat 3 7 "gone"])%string.
Proof. vm_compute. reflexivity. Qed.
